(* ===== verification/_CoqProject ===== *)
-Q . S2P
Prelude.v
Graphs.v
Status.v
Paths.v
JsonScan.v
JsonUtil.v
JsonFacts.v
Types.v
Stories.v
Scheduling.v
Branches.v
Cascade.v
Orchestrator.v
Assembly.v
TaskDag.v
PlanStore.v
Reviews.v
Mutations.v
ExecTypes.v
Feedback.v
ExecStore.v
TddPipeline.v
ExecMutations.v
ExecManager.v
ExecTyping.v
ExecFacts.v
TddRefinement.v
TddRuns.v
Decisions.v
GitHubPlans.v
DecisionHttp.v
AutoAccept.v
PlanExec.v
Convergence.v
ReqTypes.v
ReqEvidence.v
ReqPipeline.v
ReqRecovery.v
ReqRuns.v
ReqNodes.v
ReqGate.v
RuleFindings.v
PlanRules.v
PlanRuleFacts.v
DispatchRetry.v
PlanReviewer.v
PlanReviewerFacts.v
ReviewCycle.v
Generators.v
StoryPrep.v
StoryPrepFacts.v
ScenarioGen.v
ScenarioGenFacts.v
GenCycle.v
ReqGen.v
ReqGenFacts.v
ArchGen.v
ArchGenFacts.v
Planner.v
PlannerFacts.v
