(* ===== verification/Prelude.v ===== *)
(** * Semspec plan engine

    Semspec turns a brief into a reviewed, executed and merged change.  A
    plan is a record that agents fill in phase by phase (exploration, draft,
    requirements, architecture, stories, scenarios), that is then executed
    requirement by requirement on git branches, assembled and checked.  The
    agents and the git work are outside; what this development models is the
    engine that keeps the plan coherent while they work: the data model, the
    validators, the scheduler, the dispatcher, the generators that turn an
    agent's answer into a part of the plan, the plan reviewer, the plan
    manager with its store and its decisions, the requirement executor that takes a
    requirement through its stories and nodes to a review, the execution
    manager that drives each task through its test-driven cycle, and the
    assembly of the branches.

    ** Parts and files

    Foundations
    - Prelude.v (this file): conventions, boolean reflection, sorting, maps
      built from lists, bounded iteration.
    - Graphs.v: the depth-first cycle searches and breadth-first closures
      that the source writes out in several places, once, with their
      specifications in terms of reachability.
    - Status.v: the status types of workflow/types.go and
      workflow/story_task.go, [IsValid], [IsInProgress], [CanTransitionTo],
      and the interface [StatusMachine] under which the handlers use a
      transition check as a compare-and-swap.
    - Paths.v: the functions of Go's [strings] and [path] packages the code
      calls; [NormalizeFilePath] (workflow/plan_requirement.go), companion
      tests (workflow/file_scope.go), [ValidateSlug] (workflow/plan.go).
    - JsonScan.v, JsonUtil.v, JsonFacts.v: the JSON scanner of Go's standard
      library ([json.Valid]), and the extraction of JSON from an agent's
      answer (workflow/jsonutil/jsonutil.go) that the planner, the execution
      manager and the requirement executor use.
    - Types.v: the records of workflow/types.go, workflow/story_task.go and
      workflow/plan_review_result.go, setters, and the lookups of [Plan].

    Plans
    - Stories.v: the validators of workflow/plan_requirement.go,
      plan_story.go, plan_capability.go, plan_scenario.go and
      file_ownership.go.
    - Scheduling.v: [DeriveStoryScheduling]
      (workflow/derive_story_scheduling.go).
    - Branches.v: branch prerequisites and dependent subtrees
      (workflow/resolve_branch_prereqs.go).
    - Cascade.v: what an accepted plan decision dirties
      (workflow/cascade/cascade.go).
    - Orchestrator.v: the gates and the cache of
      processor/scenario-orchestrator (dag.go, component.go).
    - Assembly.v: merge order, merge and worktrees
      (processor/plan-manager/plan_merge.go).
    - TaskDag.v: task graphs of processor/requirement-executor (dag.go,
      synthesize_dag.go).

    The plan manager
    - PlanStore.v: processor/plan-manager/plan_store.go,
      workflow/plan_contract.go and [setPlanStatusCached].
    - Reviews.v: workflow/plan_review_result.go and the review helpers of
      processor/plan-manager/mutations.go.
    - Mutations.v: nineteen mutation handlers of
      processor/plan-manager/mutations.go, whole, with their dispatch.
    - Decisions.v: adding and accepting plan decisions (mutations.go), the
      resets of executions (http.go), over the interface [ExecPort] with its
      laws [ExecPortLaws].
    - GitHubPlans.v: the three GitHub handlers (mutations.go,
      workflow/payloads/github.go).
    - DecisionHttp.v: the HTTP endpoints for decisions
      (http_plan_decision.go) and the retry of a plan (http.go).
    - AutoAccept.v: processor/plan-decision-handler, the watcher that accepts
      recovery decisions and the consumer of the cascade trigger.
    - Convergence.v: the watcher of requirement rows that decides when a plan
      is done executing (execution_events.go) and the completeness gate
      (completeness_gate.go).

    The execution manager (processor/execution-manager)
    - ExecTypes.v: the rows of EXECUTION_STATES and the requests about them
      (workflow/execution.go, mutations.go).
    - Feedback.v: the prompts and feedback texts built for the agents
      (component.go).
    - ExecStore.v: caches, bucket, graph triples and reconciliation
      (execution_store.go).
    - TddPipeline.v: the pipeline of one task (component.go).
    - ExecMutations.v: the nine mutation handlers (mutations.go).
    - ExecManager.v: the watchers of pending tasks, ended loops and ended
      requirements, and the start-up recovery (task_watcher.go,
      loop_completions.go, req_watcher.go); the step relation [xstep] over
      all of them, its runs [xrun], and the entities a run disturbs.
    - ExecTyping.v: rows stay under the keys of their kind.
    - ExecFacts.v: claims, recovery and resets.
    - TddRefinement.v, TddRuns.v: the abstract machine of a task and the
      refinement of the pipeline to it, step by step and along runs.
    - PlanExec.v: the execution manager as an instance of [ExecPort], and
      theorems about both managers together.

    The requirement executor (processor/requirement-executor)
    - ReqTypes.v: its state (execution_state.go), messages and monad.
    - ReqEvidence.v: the pure part: topological order (topo_sort.go),
      verdicts, story evidence, obligations (deliverable_gate.go), recovery
      counts (recover_completed.go), prompts (binding_context.go).
    - ReqPipeline.v: stories, task graphs, nodes, review, gates, retries and
      terminal states (component.go, deliverable_gate.go).
    - ReqRecovery.v: waiting for a recovery (awaiting_recovery.go), resuming
      (recover_completed.go), the watchers (req_watcher.go,
      req_completions.go), the restart, and the step function [req_step].
    - ReqRuns.v: the invariant of every run; timers.
    - ReqNodes.v: the order of the nodes, retries, and what a restart finds.
    - ReqGate.v: what a completion guarantees; skipped and borrowed stories;
      what an accepted decision abandons.

    The plan reviewer (processor/plan-reviewer)
    - RuleFindings.v: the findings its rules report, with their texts.
    - PlanRules.v: the rules (architecture_rules.go, capability_rules.go,
      story_rules.go, scenario_tag_rules.go) and their merge into a review
      (deterministic_preflight.go).
    - PlanRuleFacts.v: [structurally_sound], a condition on the parts of a
      plan, and that the rules decide it and report what is wrong.
    - DispatchRetry.v: workflow/dispatchretry/retry.go.
    - PlanReviewer.v: the component (component.go, plan_watcher.go), over the
      interface [PlanPort] to the plan manager.
    - PlanReviewerFacts.v: when it approves, and what becomes of a
      finished review.
    - ReviewCycle.v: the plan manager as a [PlanPort], and both together.

    The generators, which ask an agent for a part of the plan
    - Generators.v: what they share: claim, dispatch, the watcher of loops,
      retries, the monad [G]; the bracket counting of the scenario generator.
    - Planner.v, PlannerFacts.v: processor/planner, explorations and drafts.
    - ReqGen.v, ReqGenFacts.v: processor/requirement-generator, with partial
      regeneration.
    - ArchGen.v, ArchGenFacts.v: processor/architecture-generator, with
      workflow/upstream_resolution.go and the selections of
      workflow/harnesscatalog/catalog.go.
    - StoryPrep.v, StoryPrepFacts.v: processor/story-preparer, the resolution
      of a positional answer into stories.
    - ScenarioGen.v, ScenarioGenFacts.v: processor/scenario-generator, with
      its tier classifier and the denormalized profile data.
    - GenCycle.v: the generators over the plan manager.

    ** How the parts meet

    The plan manager is the only writer of plans.  A mutation names a slug;
    its handler holds the slug's lock, reads the plan, validates it with the
    validators of Stories.v, asks the status machine, and saves.  On the way
    to execution it sends the orchestrator a trigger with the requirements
    and stories; the orchestrator dispatches those that pass its gates, which
    rest on the branch derivation; the requirement executor turns a story
    into a task graph; the execution manager takes each task from its pending
    row through developer, validator and reviewer to a merge or an escalation;
    when the rows of all requirements have ended, the plan manager assembles
    the branches, checks that nothing promised is missing and asks for QA;
    the QA verdict makes the plan manager assemble the branches through the
    sandbox.  When work fails, a decision is added to the plan; accepting it,
    by hand or by the watcher of AutoAccept.v, rewinds the plan and asks the
    execution manager to clear the executions concerned.  Before all that the
    generators build the plan, each claiming it in the status the one before
    left it in: exploration and draft, requirements, architecture, stories,
    scenarios; what an agent answers is parsed, resolved and validated and
    goes to the plan manager as a mutation.  The plan reviewer claims the plan
    after the draft, the requirements, the architecture and the scenarios, and
    approves it or sends it back.

    ** State and the outside

    Pure code is a function of the same name. The plan manager acts on a
    [World]: cache, bucket, messages sent, sandbox calls made. A handler is a
    program in the state monad [M] over it, and returns a [reply], [None] for
    success or the guard that refused. Handlers that also reach the execution
    manager are programs in [D S], over a [World] and the state [S] of an
    [ExecPort]. The execution manager acts on an [XWorld]: a heap of task and
    requirement rows that its two caches and its live executions share by
    address, as the Go pointers do, the bucket, routes from agent task IDs to
    executions, armed timers, queues and what it sent; its programs are in the
    state monad [X]. A run of it, [xrun], is a sequence of [xstep]s, in any
    order: requests, deliveries of any pending row, initialisations of claimed
    tasks, completed loops, validator answers, timers, ended requirements,
    start-up recovery, replay and resumption, and the expiry of every cache. A
    step is labelled with the entities it disturbs: an execution initialised
    although it was cancelled, one that expires from the cache of active
    executions, and those that are recovered. The theorems about the life of a
    task are about entities that the run does not disturb, and the others
    about every run. A loop that the routing table knows echoes the task it
    was given; nothing else is assumed of a run. The requirement executor is a
    program in the state monad [R] over an [RWorld] of the same kind, and its
    runs are lists of [req_event]s. The plan reviewer is a program in the
    monad [V S] over a [VWorld] that holds its retry entries and the state [S]
    of a [PlanPort]; a generator is one in [G] over a [GWorld] that also holds
    the goroutines which wait to dispatch, and its runs are lists of its
    events, restarts included.

    Whatever the source cannot decide (the clock, whether a write or a
    publication fails, what a read of another component's bucket returns,
    fresh identifiers) is an [Env], [ExecEnv], [ReqEnv],
    [ReviewEnv] or [GenEnv] indexed by the number of interactions so far, and the
    theorems hold for every one.
    The sandbox client is a record of answers to call histories.  Go's
    unspecified map order is a parameter that only has to enumerate the set.
    The hashing of entity identifiers, the JSON encoder of an architecture,
    the topology detector and [strings.ToUpper] are parameters without
    assumptions; the transport between the two managers says how often a
    request is delivered and whether its answer arrives.

    Slices are lists, and a nil slice is an empty one: where the source tells
    them apart it does so for its JSON only.  Plans are values, because the
    store clones on the way in and out.  Go's [int] fields are unbounded [Z]:
    they count review rounds, cycles and retries; where they are read back
    from the graph they go through [float64_of], as JSON numbers do.  Logging is
    left out.

    ** Theorems

    - Validators: each accepts exactly the inputs with the property it is
      there for ([ValidateStories_decides], [ValidateRequirementDAG_decides],
      [TaskDAG_Validate_decides] and others) and its errors are genuine.
    - Scheduling: the derived schedule is acyclic, respects prerequisites and
      orders every write conflict, adds no unjustified edge, is idempotent.
    - Closures: termination, and the result is exactly, or the least set
      containing, what it should ([ExpandRequirementStoryClosure_least],
      [DependentBranchSubtree_spec]).
    - Dispatch: a sweep dispatches exactly the requirements that pass the
      gates, no unfinished story has two owners, and a sweep makes progress
      when the wait graph is acyclic; [story_owner_blocks_itself] is the case
      where it is not.
    - Status machine: a plan is done only through implementing; every stored
      plan stays sound along any sequence of mutations, creations, deletions
      and expiries; every mutation follows the machine and a refused one has
      no effect.
    - Handlers: claims and story reservations succeed once, scenario batches
      replace their own scenarios, accepted stories leave a coherent plan,
      a draft cannot drop contract obligations, the review budget is hard,
      execution starts once, a QA verdict does what it says.
    - Decisions: an accepted architecture revision rewinds exactly the closure
      of what it names, a scope_incomplete decision and a GitHub review send
      work back, a decision is accepted once, a decision request that is
      served alone is sound ([unlocked_edit_reverts_accept] is the case where
      it is not alone); the watcher accepts exactly what its policy allows,
      and the cascade announces what the accept cleared.
    - Execution: along every run and for every entity it does not disturb, the
      pipeline refines the machine of a task ([execution_refines_machine]), so
      its execution makes a bounded number of moves and uses a bounded number
      of agents ([execution_terminates], [agents_bounded]), and approval
      follows a merge ([approved_after_merge]), an initialised execution has a
      timer that ends it ([execution_times_out]), an ended one stays ended;
      rows stay typed along every run that starts with typed ones; the graph
      round trip keeps the fields of [graph_view] and no others.
    - Convergence: the blocked count is the transitive closure, the count is
      exact on the plan's own rows, a plan sent to QA has passed every check
      that its configuration asks for, and with a sandbox it is merged and
      delivered ([plan_sent_to_qa_checked]), the watcher is sound, and what
      the completeness gate rejects is recovered ([gate_decision_recovers]).
    - Requirements: [topoSort] decides acyclicity, the nodes run in order,
      active executions are sound along every run ([active_requirements_sound]),
      have a timer that ends them and, when waiting, one that resolves the
      wait; a completion has passed the claim and deliverable gates, a story
      is skipped on evidence only, and an accepted revision abandons exactly
      the executions it names.
    - Plan review: the preflight decides structural soundness
      ([preflight_decides]), an approval has passed the rules when the plan
      could be read ([approval_checked]), a finished review has one of the
      consequences listed, a shutdown or a prompt that does not render apart
      ([review_concluded]), retries are bounded ([dispatch_budget]), and the
      reviewer's rules agree with the gates of the architecture generator.
    - JSON: the brace counter sees the literals and objects of the scanner, so
      it finds the first object when it begins at the first brace
      ([first_object_found], and [earlier_brace_hides] when it does not);
      cleaning leaves valid JSON alone except for literals that look like
      trailing commas ([cleaning_valid_json]); an object alone, fenced or in
      prose is returned unchanged under the side conditions stated there
      ([object_extracted]).
    - Generators: what is sent is a checked and faithful reading of the answer
      of the loop under way ([planner_result_checked],
      [sent_requirements_faithful], [published_architecture_checked],
      [published_stories_checked], [resolved_stories_sound]); every finished
      loop has a consequence; the gates of the generators agree with the
      reviewer's rules ([validated_architecture_reviewable],
      [generated_scenarios_pass_review]) and, for explorations, differ from
      those of the plan manager as stated ([exploration_checks]).
    - Composition: [accepted_decision_frees_requirement] and
      [architecture_revise_scoped] are about the plan manager over the
      execution manager itself, whose bucket reads succeed;
      [unread_row_survives_reset] is the reset whose read fails;
      [approval_advances] runs the reviewer's approvals on the plan manager;
      [exploration_reaches_plan], [draft_reaches_plan],
      [requirements_reach_plan], [architecture_reaches_plan],
      [stories_reach_plan] and [scenarios_reach_plan] take a plan from one
      status to the next with what the agent answered.
    - Limits of the code, stated as theorems: [create_checks_cache_only],
      [save_read_back], [failed_save_visible], [late_sibling_batch_lost],
      [failed_trigger_not_rolled_back], [story_owner_blocks_itself],
      [recovered_never_resumed], [reset_misses_expired_row],
      [unread_row_survives_reset], [cancelled_execution_still_starts],
      [delete_then_create_collides], [unlocked_edit_reverts_accept],
      [auto_accept_budget_overshoots], [completed_dependents_counted_twice],
      [qa_request_lost], [node_retry_skips_rest], [branch_never_recorded],
      [waiting_lost_on_restart], [resumed_requirement_unguarded],
      [abandoned_requirement_still_starts], [refused_approval_dropped],
      [failed_dispatch_haunts], [scenario_ids_collide],
      [restart_loses_bindings], [every_update_dispatches],
      [partial_regen_ids_collide], [restart_regenerates_all],
      [unreadable_plan_unvalidated], [refused_exploration_ends_plan],
      [repeated_failure_retried_twice], [restart_strands_plan].

    ** Fuel

    Depth-first searches take [dfs_fuel], one more than the number of nodes,
    since the path of grey nodes has no repetition; breadth-first closures
    take [bfs_fuel], one more than the queue and the edges still to be
    followed; the fixed-point loops of the cascade take one round more than
    the elements that can still be added; the merge order takes one pass more
    than the nodes.  Running out of fuel is a value of its own or an error,
    and every specification above shows it does not occur.  [topo_loop] takes
    one round per node and [dispatch_story] one call more than the stories
    left, which [story_dispatch_terminates] shows to be enough.  The other
    handlers have no fuel: their loops are over lists, and the retry loop of
    a merge counts its attempts.

    ** Not modelled

    The prompts and the calls to language models, NATS, HTTP and git
    themselves; the graph triples of plans and the entities published for
    observers (written, not read back); the store's start-up reconciliation;
    in the execution manager the assembly of system prompts, the wait for the
    indexer after a merge, the structural validation request and the HTTP
    views; the rest of the plan manager's HTTP API, the
    operator's qa.yml; in the requirement executor the reviewer's system
    prompt, parse incidents and metrics; in the plan reviewer and the generators
    the assembly of the prompts, the loading of the harness catalog and the
    requests to package registries.  Not modelled at all: the QA reviewer, the
    recovery agent and the lesson processors, which follow the scheme of the
    generators, the structural validator, the project manager, the question,
    research and GitHub processors, the sandbox server, the agent tools, the
    mapping to the graph vocabulary and the command-line program. *)

From stdpp Require Export base gmap strings list fin_maps fin_sets sorting relations.
From Stdlib Require Export ZArith Lia.

#[export] Set Default Goal Selector "!".

(** ** Conventions

    Go strings are byte strings and are modelled by [string] (a list of
    8-bit [ascii]); Go's [==] on them is decidable equality and [<] is the
    byte-lexicographic order [String.le].  A Go [error] is an [option E]:
    [None] is [nil].  A [map\[string\]struct{}] used as a set is a
    [gset string], a [map\[string\]T] is a [gmap string T] and a slice is a
    [list] (the model does not distinguish a nil slice from an empty one). *)

Declare Scope go_scope.
Delimit Scope go_scope with go.
Open Scope go_scope.

(** Boolean equality, Go's [==] as an expression. *)
Definition eqb {A} `{EqDecision A} (x y : A) : bool := bool_decide (x = y).
Arguments eqb : simpl never.
Infix "=?" := eqb (at level 70) : go_scope.
Notation "x !=? y" := (negb (eqb x y)) (at level 70) : go_scope.

Lemma eqb_true {A} `{EqDecision A} (x y : A) : (x =? y)%go = true ↔ x = y.
Proof. apply bool_decide_eq_true. Qed.

Lemma eqb_false {A} `{EqDecision A} (x y : A) : (x =? y)%go = false ↔ x ≠ y.
Proof. apply bool_decide_eq_false. Qed.

Lemma eqb_refl {A} `{EqDecision A} (x : A) : (x =? x)%go = true.
Proof. by apply eqb_true. Qed.

Lemma neqb_true {A} `{EqDecision A} (x y : A) : (x !=? y)%go = true ↔ x ≠ y.
Proof. by rewrite negb_true_iff, eqb_false. Qed.

(** [len(l) == 0]. *)
Definition is_nil {A} (l : list A) : bool := match l with [] => true | _ => false end.

Lemma is_nil_true {A} (l : list A) : is_nil l = true ↔ l = [].
Proof. by destruct l. Qed.

Lemma is_nil_false {A} (l : list A) : is_nil l = false ↔ l ≠ [].
Proof. by destruct l. Qed.

Create HintDb semspec.
Create Rewrite HintDb goeq.
#[export] Hint Rewrite @eqb_true @eqb_false @neqb_true @is_nil_true @is_nil_false
  bool_decide_eq_true bool_decide_eq_false
  andb_true_iff andb_false_iff orb_true_iff orb_false_iff negb_true_iff negb_false_iff : goeq.

(** Turn the boolean tests of the code into propositions. *)
Ltac breflect := autorewrite with goeq in *.

(** Case on the innermost scrutinee of a [match]/[if] in a hypothesis. *)
Ltac case_in H :=
  match type of H with
  | context [match ?x with _ => _ end] =>
      lazymatch x with
      | context [match _ with _ => _ end] => fail
      | _ => destruct x eqn:?
      end
  end.

(** ** Loops with an early return *)

(** [for _, x := range l { if err := f(x); err != nil { return err } }] *)
Fixpoint first_err {A E} (f : A → option E) (l : list A) : option E :=
  match l with
  | [] => None
  | x :: l => match f x with Some e => Some e | None => first_err f l end
  end.

Lemma first_err_None {A E} (f : A → option E) l :
  first_err f l = None ↔ ∀ x, x ∈ l → f x = None.
Proof.
  induction l as [|x l IH]; simpl.
  - split; [intros _ x Hx; by apply not_elem_of_nil in Hx | done].
  - destruct (f x) eqn:Hx; split.
    + done.
    + intros H. specialize (H x ltac:(set_solver)). congruence.
    + intros H y Hy. apply elem_of_cons in Hy as [->|Hy]; [done|]. by apply IH.
    + intros H. apply IH. set_solver.
Qed.

(** The reported error is the error of the first failing element. *)
Lemma first_err_Some {A E} (f : A → option E) l e :
  first_err f l = Some e ↔
  ∃ l1 x l2, l = l1 ++ x :: l2 ∧ f x = Some e ∧ ∀ y, y ∈ l1 → f y = None.
Proof.
  induction l as [|x l IH]; simpl.
  - split; [done|]. intros (l1 & x & l2 & H & _). by destruct l1.
  - destruct (f x) eqn:Hx; split.
    + intros [= <-]. exists [], x, l. set_solver.
    + intros ([|z l1] & y & l2 & [= -> ->] & Hy & Hl1); [congruence|].
      specialize (Hl1 z ltac:(set_solver)). congruence.
    + intros H. apply IH in H as (l1 & y & l2 & -> & Hy & Hl1).
      exists (x :: l1), y, l2. split_and!; [done..|].
      intros z Hz. apply elem_of_cons in Hz as [->|Hz]; auto.
    + intros ([|z l1] & y & l2 & [= -> ->] & Hy & Hl1); [congruence|].
      apply IH. exists l1, y, l2. split_and!; [done..|]. set_solver.
Qed.

(** ** Sorting: [sort.Strings] *)

Definition sort_strings : list string → list string := merge_sort String.le.

Lemma sort_strings_perm l : sort_strings l ≡ₚ l.
Proof. apply merge_sort_Permutation. Qed.

Lemma sort_strings_sorted l : StronglySorted String.le (sort_strings l).
Proof. apply StronglySorted_merge_sort; apply _. Qed.

Lemma elem_of_sort_strings x l : x ∈ sort_strings l ↔ x ∈ l.
Proof. by rewrite sort_strings_perm. Qed.

(** Sorting erases the order the elements arrive in: whatever order Go
    ranges over a map in, the sorted slice is the same. *)
Lemma sort_strings_ext l1 l2 : l1 ≡ₚ l2 → sort_strings l1 = sort_strings l2.
Proof.
  intros Hp. apply (StronglySorted_unique String.le).
  - apply sort_strings_sorted.
  - apply sort_strings_sorted.
  - by rewrite !sort_strings_perm.
Qed.

(** [keys(set)] followed by [sort.Strings]. *)
Definition sorted_elements (s : gset string) : list string := sort_strings (elements s).

Lemma elem_of_sorted_elements x s : x ∈ sorted_elements s ↔ x ∈ s.
Proof. unfold sorted_elements. by rewrite elem_of_sort_strings, elem_of_elements. Qed.

Lemma NoDup_sorted_elements s : NoDup (sorted_elements s).
Proof. unfold sorted_elements. rewrite sort_strings_perm. apply NoDup_elements. Qed.

Lemma sorted_elements_sorted s : StronglySorted String.le (sorted_elements s).
Proof. apply sort_strings_sorted. Qed.

#[export] Hint Resolve NoDup_sorted_elements sorted_elements_sorted : semspec.

(** ** [appendUnique] (workflow/derive_story_scheduling.go) *)

Definition appendUnique (slice : list string) (id : string) : list string :=
  if bool_decide (id ∈ slice) then slice else slice ++ [id].

Lemma elem_of_appendUnique x l id : x ∈ appendUnique l id ↔ x ∈ l ∨ x = id.
Proof. unfold appendUnique. case_bool_decide; set_solver. Qed.

Lemma appendUnique_in l id : id ∈ l → appendUnique l id = l.
Proof. intros. unfold appendUnique. by rewrite bool_decide_eq_true_2. Qed.

Lemma appendUnique_prefix l id : l `prefix_of` appendUnique l id.
Proof. unfold appendUnique. case_bool_decide; [done | by eexists]. Qed.

Lemma appendUnique_NoDup l id : NoDup l → NoDup (appendUnique l id).
Proof.
  intros. unfold appendUnique. case_bool_decide; [done|].
  apply NoDup_app. split_and!; [done| |apply NoDup_singleton]. set_solver.
Qed.

(** ** Indexing a slice

    [m := make(map\[string\]T); for _, x := range l { m\[x.ID\] = f(x) }]: a later
    element with the same key overwrites an earlier one. *)

Definition map_of {A} (l : list (string * A)) : gmap string A :=
  foldl (λ m n, <[n.1 := n.2]> m) ∅ l.

Lemma map_of_lookup_some {A} (l : list (string * A)) x a :
  map_of l !! x = Some a → (x, a) ∈ l.
Proof.
  unfold map_of. induction l as [|[y b] l IH] using rev_ind.
  - simpl. by rewrite lookup_empty.
  - rewrite foldl_snoc; simpl. destruct (decide (y = x)) as [->|Hne].
    + rewrite lookup_insert_eq. intros [= <-]. set_solver.
    + rewrite lookup_insert_ne by done. set_solver.
Qed.

Lemma map_of_dom {A} (l : list (string * A)) : dom (map_of l) = list_to_set l.*1.
Proof.
  unfold map_of. induction l as [|[y b] l IH] using rev_ind; [done|].
  rewrite foldl_snoc, dom_insert_L, IH, fmap_app, list_to_set_app_L. set_solver.
Qed.

Lemma map_of_lookup {A} (l : list (string * A)) x a :
  NoDup l.*1 → (x, a) ∈ l → map_of l !! x = Some a.
Proof.
  unfold map_of. induction l as [|[y b] l IH] using rev_ind; [set_solver|].
  rewrite fmap_app, NoDup_app. intros (Hnd & Hdis & _) Hin.
  rewrite foldl_snoc; simpl. apply elem_of_app in Hin as [Hin|Hin].
  - rewrite lookup_insert_ne; [by apply IH|]. intros ->.
    apply (Hdis x); [|set_solver]. apply list_elem_of_fmap. by exists (x, a).
  - apply list_elem_of_singleton in Hin as [= -> ->]. apply lookup_insert_eq.
Qed.

(** Mapping the stored values commutes with indexing. *)
Lemma map_of_fmap {A B} (f : A → B) (l : list (string * A)) :
  map_of (prod_map id f <$> l) = f <$> map_of l.
Proof.
  unfold map_of. induction l as [|[y b] l IH] using rev_ind.
  { symmetry. apply fmap_empty. }
  rewrite fmap_app. simpl. rewrite !foldl_snoc, IH. simpl. by rewrite fmap_insert.
Qed.

(** The stored value is a function of the key. *)
Lemma map_of_key {A B} (k : A → string) (g : string → B) (l : list A) x :
  x ∈ k <$> l → map_of ((λ a, (k a, g (k a))) <$> l) !! x = Some (g x).
Proof.
  intros Hx. set (m := map_of _).
  assert (is_Some (m !! x)) as [b Hb].
  { apply elem_of_dom. unfold m. rewrite map_of_dom, elem_of_list_to_set, <- list_fmap_compose.
    done. }
  rewrite Hb. apply map_of_lookup_some in Hb. apply list_elem_of_fmap in Hb as (a & [= -> ->] & _).
  done.
Qed.

(** The first key that occurs a second time. *)
Fixpoint first_dup (seen : gset string) (keys : list string) : option string :=
  match keys with
  | [] => None
  | k :: keys => if bool_decide (k ∈ seen) then Some k else first_dup ({[k]} ∪ seen) keys
  end.

Lemma first_dup_None seen keys :
  first_dup seen keys = None ↔ NoDup keys ∧ ∀ k, k ∈ keys → k ∉ seen.
Proof.
  revert seen. induction keys as [|k keys IH]; intros seen; simpl.
  { split; [|done]. intros _. split; [constructor|set_solver]. }
  rewrite NoDup_cons. case_bool_decide as Hk.
  - split; [done|]. intros [_ H]. destruct (H k); set_solver.
  - rewrite IH. set_solver.
Qed.

(** ** Ordered pairs of a slice: [for i { for j := i+1 ... }] *)

Fixpoint first_pair {A E} (f : A → A → option E) (l : list A) : option E :=
  match l with
  | [] => None
  | a :: l => match first_err (f a) l with Some e => Some e | None => first_pair f l end
  end.

Lemma first_pair_None {A E} (f : A → A → option E) (P : A → A → Prop) l :
  (∀ a b, f a b = None ↔ P a b) → (∀ a b, P a b → P b a) → NoDup l →
  first_pair f l = None ↔ ∀ a b, a ∈ l → b ∈ l → a ≠ b → P a b.
Proof.
  intros Hf Hsym Hnd. induction Hnd as [|a l Ha Hnd IH]; simpl; [set_solver|].
  destruct (first_err (f a) l) as [e|] eqn:Ef.
  - split; [done|]. intros H. exfalso.
    apply first_err_Some in Ef as (l1 & b & l2 & -> & Ef & _).
    assert (f a b = None); [|congruence]. apply Hf, H; set_solver.
  - rewrite IH. clear IH. assert (Hal := proj1 (first_err_None (f a) l) Ef). split.
    + intros H x y Hx Hy Hne. apply elem_of_cons in Hx as [->|Hx], Hy as [->|Hy]; try done.
      * by apply Hf, Hal.
      * by apply Hsym, Hf, Hal.
      * by apply H.
    + intros H x y Hx Hy. apply H; set_solver.
Qed.

(** ** Relations *)

Lemma tc_inv_l {A} (R : relation A) x z : tc R x z → ∃ y, R x y ∧ rtc R y z.
Proof. destruct 1 as [x z H|x y z H H']; eauto using rtc_refl, tc_rtc. Qed.

Lemma tc_inv_r {A} (R : relation A) x z : tc R x z → ∃ y, rtc R x y ∧ R y z.
Proof.
  revert z. apply tc_ind_r; [eauto using rtc_refl|]. intros y z H1 H2 _. eauto using tc_rtc.
Qed.

Lemma tc_step_rtc {A} (R : relation A) x y z : R x y → rtc R y z → tc R x z.
Proof. intros H1 H2. eapply tc_rtc_r; [by apply tc_once|done]. Qed.

Lemma tc_subrel {A} (R S : relation A) x y : (∀ x y, R x y → S x y) → tc R x y → tc S x y.
Proof. intros H. induction 1; [by apply tc_once, H | eapply tc_l; eauto]. Qed.

Lemma rtc_subrel {A} (R S : relation A) x y : (∀ x y, R x y → S x y) → rtc R x y → rtc S x y.
Proof. intros H. induction 1; [done | eapply rtc_l; eauto]. Qed.

(** A set closed under a relation absorbs everything reachable from it. *)
Lemma rtc_closed {A} (R : relation A) (P : A → Prop) x y :
  (∀ x y, P x → R x y → P y) → P x → rtc R x y → P y.
Proof. intros Hc Hx. induction 1; eauto. Qed.

(** ** Loops that grow a set until nothing changes *)

Section loop_until.
Context (step : gset string → gset string * bool).

(** [for { changed := ...; if !changed { break } }]: [step] returns the set
    after one round and whether the round changed it. *)
Fixpoint loop_until (fuel : nat) (X : gset string) : option (gset string) :=
  match fuel with
  | O => None
  | S fuel =>
      let '(Y, changed) := step X in
      if changed then loop_until fuel Y else Some Y
  end.

Context (B : gset string) (P : string → Prop).
Context (step_grows : ∀ X, X ⊆ (step X).1).
Context (step_changed : ∀ X, (step X).2 = false ↔ (step X).1 = X).
Context (step_bound : ∀ X, X ⊆ B → (step X).1 ⊆ B).
Context (step_sound : ∀ X, (∀ z, z ∈ X → P z) → ∀ z, z ∈ (step X).1 → P z).

(** The loop stops at a fixed point within [size B] rounds. *)
Lemma loop_until_spec fuel X :
  X ⊆ B → size B < fuel + size X → (∀ z, z ∈ X → P z) →
  ∃ R, loop_until fuel X = Some R ∧ X ⊆ R ∧ R ⊆ B ∧ (step R).1 = R ∧ ∀ z, z ∈ R → P z.
Proof.
  revert X. induction fuel as [|fuel IH]; intros X HB Hf HP.
  { pose proof (subseteq_size _ _ HB). lia. }
  simpl. pose proof (step_grows X). pose proof (step_changed X) as Hch.
  pose proof (step_bound X HB). pose proof (step_sound X HP).
  destruct (step X) as [Y ch] eqn:E; simpl in *. destruct ch.
  - assert (X ⊂ Y) as Hlt.
    { split; [done|]. intros HYX. assert (Y = X) as HYX' by set_solver.
      apply Hch in HYX'. done. }
    apply subset_size in Hlt.
    destruct (IH Y) as (R & ? & ? & ? & ? & ?); [done|lia|done|].
    exists R. split_and!; [done|set_solver|done..].
  - assert (Y = X) as -> by (by apply Hch). exists X. rewrite E. by split_and!.
Qed.
End loop_until.
