(* ===== verification/Graphs.v ===== *)
(** * Dependency graphs

    The graph algorithms the planner runs on [DependsOn] slices, once and for
    all: the three-colour depth-first cycle check that
    workflow/plan_requirement.go, workflow/plan_story.go and
    processor/requirement-executor/dag.go each spell out, and the
    breadth-first transitive closure of workflow/derive_story_scheduling.go
    and workflow/plan_story.go.  A graph is the Go map [adj] from a node id to
    its dependency slice; a node that is not a key has no dependencies. *)

From S2P Require Import Prelude.

(** [adj := make(map\[string\]\[\]string); for _, n := range nodes { adj\[n.ID\] = n.DependsOn }]:
    a later node with the same id overwrites an earlier one. *)
Definition adj_of (nodes : list (string * list string)) : gmap string (list string) :=
  map_of nodes.

Lemma adj_of_lookup_some nodes x ds :
  adj_of nodes !! x = Some ds → (x, ds) ∈ nodes.
Proof. apply map_of_lookup_some. Qed.

Lemma adj_of_dom nodes : dom (adj_of nodes) = list_to_set nodes.*1.
Proof. apply map_of_dom. Qed.

Lemma adj_of_lookup nodes x ds :
  NoDup nodes.*1 → (x, ds) ∈ nodes → adj_of nodes !! x = Some ds.
Proof. apply map_of_lookup. Qed.

Section graph.
Context (adj : gmap string (list string)).

(** [adj\[id\]]: the zero value of a missing key is the nil slice. *)
Definition succs (x : string) : list string := default [] (adj !! x).

(** [x] depends directly on [y]. *)
Definition edge (x y : string) : Prop := y ∈ succs x.

(** No node depends on itself through one or more edges. *)
Definition acyclic : Prop := ∀ x, ¬ tc edge x x.

(** ** Three-colour depth-first search *)

Inductive Color := White | Gray | Black.

(** [color\[id\]]: the zero value is [white]. *)
Definition color_of (c : gmap string Color) (x : string) : Color := default White (c !! x).

Inductive dfs_result :=
| OutOfFuel
| CycleAt (id dep : string)
| Done (c : gmap string Color).

(** The [for _, dep := range adj\[id\]] loop of [visit]. *)
Fixpoint visit_deps (visit : gmap string Color → string → dfs_result)
    (id : string) (deps : list string) (c : gmap string Color) : dfs_result :=
  match deps with
  | [] => Done c
  | dep :: deps =>
      match color_of c dep with
      | Gray => CycleAt id dep
      | White => match visit c dep with
                 | Done c' => visit_deps visit id deps c'
                 | r => r
                 end
      | Black => visit_deps visit id deps c
      end
  end.

Fixpoint visit (fuel : nat) (c : gmap string Color) (id : string) : dfs_result :=
  match fuel with
  | O => OutOfFuel
  | S fuel =>
      match visit_deps (visit fuel) id (succs id) (<[id := Gray]> c) with
      | Done c' => Done (<[id := Black]> c')
      | r => r
      end
  end.

(** The outer loop: [for _, n := range nodes { if color\[n.ID\] == white { visit(n.ID) } }]. *)
Fixpoint visit_roots (fuel : nat) (roots : list string) (c : gmap string Color) : dfs_result :=
  match roots with
  | [] => Done c
  | r :: roots =>
      match color_of c r with
      | White => match visit fuel c r with
                 | Done c' => visit_roots fuel roots c'
                 | e => e
                 end
      | _ => visit_roots fuel roots c
      end
  end.

(** Every id the walk can meet: the keys and everything they list. *)
Definition universe : gset string :=
  dom adj ∪ list_to_set (mjoin (snd <$> map_to_list adj)).

(** The recursion only ever descends into white nodes of the universe and
    greys each on the way, so its depth is bounded by the universe's size. *)
Definition dfs_fuel : nat := S (size universe).

(** *** Correctness of the search *)

Definition white (c : gmap string Color) (x : string) : Prop := color_of c x = White.
Definition gray (c : gmap string Color) (x : string) : Prop := color_of c x = Gray.
Definition black (c : gmap string Color) (x : string) : Prop := color_of c x = Black.

#[local] Instance white_dec c x : Decision (white c x).
Proof. unfold white. destruct (color_of c x); solve [left; done | right; done]. Defined.

Lemma color_of_insert c x k y :
  color_of (<[x := k]> c) y = if decide (x = y) then k else color_of c y.
Proof. unfold color_of. rewrite lookup_insert. by case_decide. Qed.

(** Black nodes are closed under dependencies and on no cycle. *)
Definition settled (c : gmap string Color) : Prop :=
  (∀ x y, black c x → edge x y → black c y) ∧ (∀ x, black c x → ¬ tc edge x x).

(** Every node on the current path reaches [id]. *)
Definition on_path (c : gmap string Color) (id : string) : Prop :=
  ∀ g, gray c g → rtc edge g id.

(** What a completed (sub)walk leaves behind. *)
Record extends (c c' : gmap string Color) : Prop := {
  ext_gray : ∀ x, gray c' x ↔ gray c x;
  ext_black : ∀ x, black c x → black c' x }.

Lemma extends_refl c : extends c c.
Proof. by split. Qed.

Lemma extends_trans c1 c2 c3 : extends c1 c2 → extends c2 c3 → extends c1 c3.
Proof. intros [G1 B1] [G2 B2]. split; [intros x; by rewrite G2, G1|auto]. Qed.

Lemma extends_white c c' x : extends c c' → white c' x → white c x.
Proof.
  intros [G B] Hw. unfold white. destruct (color_of c x) eqn:E; [done| |].
  - apply G in E. unfold white, gray in *. congruence.
  - apply B in E. unfold white, black in *. congruence.
Qed.

Definition whites (c : gmap string Color) : gset string := filter (white c) (universe).

Lemma whites_extends c c' : extends c c' → size (whites c') ≤ size (whites c).
Proof.
  intros He. apply subseteq_size. intros x. unfold whites.
  rewrite !elem_of_filter. intros [? ?]; eauto using extends_white.
Qed.

Lemma whites_gray c x :
  x ∈ universe → white c x → size (whites (<[x := Gray]> c)) < size (whites c).
Proof.
  intros Hu Hw. apply subset_size. split.
  - intros y. unfold whites, white. rewrite !elem_of_filter, color_of_insert.
    case_decide; naive_solver.
  - intros Hsub. specialize (Hsub x). unfold whites, white in Hsub.
    rewrite !elem_of_filter, color_of_insert, decide_True in Hsub by done. naive_solver.
Qed.

Lemma whites_bound c : size (whites c) ≤ size universe.
Proof. apply subseteq_size. intros x. unfold whites. rewrite elem_of_filter. tauto. Qed.

Lemma universe_edge x y : edge x y → y ∈ universe.
Proof.
  unfold edge, succs, universe. destruct (adj !! x) as [ds|] eqn:E; simpl; [|set_solver].
  intros Hy. apply elem_of_union_r, elem_of_list_to_set, list_elem_of_join.
  exists ds. split; [done|]. apply list_elem_of_fmap. exists (x, ds).
  split; [done|]. by apply elem_of_map_to_list.
Qed.

(** Specification of one call of [visit] on a white node, for a bound [n]
    on the number of white nodes left. *)
Definition visit_ok (n : nat) (v : gmap string Color → string → dfs_result) : Prop :=
  ∀ c id, size (whites c) ≤ n → id ∈ universe → white c id →
    settled c → on_path c id →
    match v c id with
    | OutOfFuel => False
    | CycleAt a b => edge a b ∧ rtc edge b a
    | Done c' => settled c' ∧ black c' id ∧ extends c c'
    end.

Lemma visit_deps_ok n v id deps c :
  visit_ok n v → size (whites c) ≤ n → gray c id → settled c → on_path c id →
  (∀ d, d ∈ deps → edge id d) →
  match visit_deps v id deps c with
  | OutOfFuel => False
  | CycleAt a b => edge a b ∧ rtc edge b a
  | Done c' => settled c' ∧ (∀ d, d ∈ deps → black c' d) ∧ extends c c'
  end.
Proof.
  intros Hv. revert c. induction deps as [|d deps IH]; intros c Hn Hg Hs Hp Hd; simpl.
  { split_and!; [done|set_solver|apply extends_refl]. }
  assert (Hed : edge id d) by (apply Hd; set_solver).
  assert (Hd' : ∀ d, d ∈ deps → edge id d) by set_solver.
  destruct (color_of c d) eqn:E.
  - assert (Hpd : on_path c d) by (intros g G; eauto using rtc_r).
    specialize (Hv c d Hn (universe_edge _ _ Hed) E Hs Hpd).
    destruct (v c d) as [|a b|c']; [done|done|].
    destruct Hv as (Hs' & Hb & He).
    assert (size (whites c') ≤ n) by (pose proof (whites_extends _ _ He); lia).
    assert (gray c' id) by (by apply (ext_gray _ _ He)).
    assert (on_path c' id) by (intros g G; by apply Hp, (ext_gray _ _ He)).
    specialize (IH c'). destruct (visit_deps v id deps c') as [|a b|c'']; auto.
    destruct IH as (Hs'' & Hb'' & He''); auto.
    split_and!; [done| |by eapply extends_trans].
    intros d' Hin. apply elem_of_cons in Hin as [->|Hin]; [|auto].
    by apply (ext_black _ _ He'').
  - split; [done|]. by apply Hp.
  - specialize (IH c Hn Hg Hs Hp Hd'). destruct (visit_deps v id deps c) as [|a b|c'']; auto.
    destruct IH as (Hs'' & Hb'' & He''). split_and!; auto.
    intros d' Hin. apply elem_of_cons in Hin as [->|Hin]; [|auto].
    by apply (ext_black _ _ He'').
Qed.

Lemma settled_gray c id : white c id → settled c → settled (<[id := Gray]> c).
Proof.
  intros Hw [Hc Ha]. split; unfold black.
  - intros x y. rewrite !color_of_insert. case_decide; [done|]. intros Hx Hxy.
    specialize (Hc x y Hx Hxy). case_decide; [|done]. subst.
    unfold black, white in *. congruence.
  - intros x. rewrite color_of_insert. case_decide; [done|]. by apply Ha.
Qed.

(** A black-closed walk that finished all dependencies of a grey node may
    blacken it: a cycle through it would have to come back from black. *)
Lemma settled_black c id :
  gray c id → settled c → (∀ d, edge id d → black c d) → settled (<[id := Black]> c).
Proof.
  intros Hg [Hc Ha] Hd. split.
  - intros x y. unfold black. rewrite !color_of_insert. intros Hx Hxy.
    repeat case_decide; subst; try done; [by apply Hd | by apply (Hc x)].
  - intros x. unfold black. rewrite color_of_insert. case_decide as Hx; [subst|by apply Ha].
    intros _ Hcyc. apply tc_inv_l in Hcyc as (y & Hxy & Hyx).
    assert (black c x); [|unfold black, gray in *; congruence].
    eapply rtc_closed; eauto.
Qed.

Lemma visit_ok_fuel fuel : visit_ok fuel (visit (S fuel)).
Proof.
  induction fuel as [|fuel IH]; intros c id Hn Hu Hw Hs Hp.
  { pose proof (whites_gray c id Hu Hw). lia. }
  remember (S fuel) as f eqn:Hf. simpl.
  pose proof (whites_gray c id Hu Hw).
  pose proof (visit_deps_ok fuel (visit f) id (succs id) (<[id:=Gray]> c)) as Hdeps.
  assert (Hgray : gray (<[id:=Gray]> c) id)
    by (unfold gray; by rewrite color_of_insert, decide_True).
  assert (Hpath : on_path (<[id:=Gray]> c) id).
  { intros g. unfold gray. rewrite color_of_insert.
    case_decide; [subst; reflexivity | by apply Hp]. }
  destruct (visit_deps (visit f) id (succs id) (<[id:=Gray]> c)) as [|a b|c'].
  - apply Hdeps; auto using settled_gray; lia.
  - apply Hdeps; auto using settled_gray; lia.
  - destruct Hdeps as (Hs' & Hb & He); auto using settled_gray; [lia|].
    split_and!.
    + apply settled_black; auto. by apply (ext_gray _ _ He).
    + unfold black. by rewrite color_of_insert, decide_True.
    + split; intros x; unfold gray, black; rewrite color_of_insert.
      * case_decide as Hx; [subst; unfold white in Hw; split; congruence|].
        pose proof (ext_gray _ _ He x) as G. unfold gray in G.
        rewrite color_of_insert, decide_False in G by done. done.
      * intros Hbx. case_decide as Hx; [done|]. apply (ext_black _ _ He).
        unfold black. by rewrite color_of_insert, decide_False.
Qed.

Lemma visit_roots_ok roots c :
  (∀ r, r ∈ roots → r ∈ universe) → settled c → (∀ x, ¬ gray c x) →
  match visit_roots dfs_fuel roots c with
  | OutOfFuel => False
  | CycleAt a b => edge a b ∧ rtc edge b a
  | Done c' => settled c' ∧ (∀ r, r ∈ roots → black c' r) ∧ extends c c'
  end.
Proof.
  revert c. induction roots as [|r roots IH]; intros c Hr Hs Hg; cbn [visit_roots].
  { split_and!; [done|set_solver|apply extends_refl]. }
  assert (Hr' : ∀ r, r ∈ roots → r ∈ universe) by set_solver.
  destruct (color_of c r) eqn:E; [|by destruct (Hg r)|].
  - assert (Hv := visit_ok_fuel (size universe) c r
      (whites_bound c) ltac:(set_solver) E Hs
      ltac:(intros g G; by destruct (Hg g))).
    change (S (size universe)) with dfs_fuel in Hv.
    destruct (visit dfs_fuel c r) as [|a b|c']; [done..|].
    destruct Hv as (Hs' & Hb & He).
    specialize (IH c' Hr' Hs' ltac:(intros x Hx; by apply (Hg x), (ext_gray _ _ He))).
    destruct (visit_roots dfs_fuel roots c') as [|a b|c'']; [done..|].
    destruct IH as (? & Hb' & He').
    split_and!; [done| |by eapply extends_trans].
    intros r' Hin. apply elem_of_cons in Hin as [->|Hin]; [|auto].
    by apply (ext_black _ _ He').
  - specialize (IH c Hr' Hs Hg).
    destruct (visit_roots dfs_fuel roots c) as [|a b|c'']; [done..|].
    destruct IH as (? & Hb' & He'). split_and!; [done| |done].
    intros r' Hin. apply elem_of_cons in Hin as [->|Hin]; [|auto].
    by apply (ext_black _ _ He').
Qed.

(** The search over all keys decides acyclicity. *)
Lemma dfs_decides roots :
  (∀ r, r ∈ roots ↔ r ∈ dom adj) →
  match visit_roots dfs_fuel roots ∅ with
  | OutOfFuel => False
  | CycleAt a b => edge a b ∧ rtc edge b a
  | Done _ => acyclic
  end.
Proof.
  intros Hr.
  assert (H := visit_roots_ok roots ∅
    ltac:(intros r Hin; apply elem_of_union_l; by apply Hr)
    ltac:(split; intros x; unfold black, color_of; by rewrite lookup_empty)
    ltac:(intros x; unfold gray, color_of; by rewrite lookup_empty)).
  destruct (visit_roots dfs_fuel roots ∅) as [|a b|c]; [done..|].
  destruct H as ([_ Hac] & Hb & _). intros x Hcyc.
  eapply Hac; [|exact Hcyc]. apply Hb, Hr.
  apply tc_inv_l in Hcyc as (y & Hxy & _). unfold edge, succs in Hxy.
  apply elem_of_dom. destruct (adj !! x); [eauto|by apply not_elem_of_nil in Hxy].
Qed.
End graph.

Arguments CycleAt id dep : assert.

(** ** Two variants of the walk

    [detectSchedulerCycle] keeps the current path and returns the segment
    that forms the cycle; [detectCapabilityCycle] tests the colour on entry
    instead of before the call and reports the stack. *)

Inductive path_result :=
| POutOfFuel
| PCycle (ids : list string) (dep : string)
| PDone (c : gmap string Color).

Section variants.
Context (adj : gmap string (list string)).

(** The path segment from the first appearance of [dep]. *)
Definition cycle_segment (path : list string) (id dep : string) : list string :=
  match list_find (λ n, n = dep) path with
  | Some (k, _) => drop k path
  | None => [id; dep]
  end.

Fixpoint pvisit_deps (pvisit : gmap string Color → list string → string → path_result)
    (path : list string) (id : string) (deps : list string) (c : gmap string Color) : path_result :=
  match deps with
  | [] => PDone c
  | dep :: deps =>
      match color_of c dep with
      | Gray => PCycle (cycle_segment path id dep) dep
      | White => match pvisit c path dep with
                 | PDone c' => pvisit_deps pvisit path id deps c'
                 | r => r
                 end
      | Black => pvisit_deps pvisit path id deps c
      end
  end.

Fixpoint pvisit (fuel : nat) (c : gmap string Color) (path : list string) (id : string) :
    path_result :=
  match fuel with
  | O => POutOfFuel
  | S fuel =>
      let path := path ++ [id] in
      match pvisit_deps (pvisit fuel) path id (succs adj id) (<[id := Gray]> c) with
      | PDone c' => PDone (<[id := Black]> c')
      | r => r
      end
  end.

Fixpoint pvisit_roots (fuel : nat) (roots : list string) (c : gmap string Color) : path_result :=
  match roots with
  | [] => PDone c
  | r :: roots =>
      match color_of c r with
      | White => match pvisit fuel c [] r with
                 | PDone c' => pvisit_roots fuel roots c'
                 | e => e
                 end
      | _ => pvisit_roots fuel roots c
      end
  end.

Fixpoint cvisit_deps (cvisit : gmap string Color → list string → string → path_result)
    (stack deps : list string) (c : gmap string Color) : path_result :=
  match deps with
  | [] => PDone c
  | dep :: deps =>
      match cvisit c stack dep with
      | PDone c' => cvisit_deps cvisit stack deps c'
      | r => r
      end
  end.

Fixpoint cvisit (fuel : nat) (c : gmap string Color) (stack : list string) (name : string) :
    path_result :=
  match fuel with
  | O => POutOfFuel
  | S fuel =>
      match color_of c name with
      | Gray => PCycle stack name
      | Black => PDone c
      | White =>
          let stack := stack ++ [name] in
          match cvisit_deps (cvisit fuel) stack (succs adj name) (<[name := Gray]> c) with
          | PDone c' => PDone (<[name := Black]> c')
          | r => r
          end
      end
  end.

Fixpoint cvisit_roots (fuel : nat) (roots : list string) (c : gmap string Color) : path_result :=
  match roots with
  | [] => PDone c
  | r :: roots =>
      match color_of c r with
      | White => match cvisit fuel c [] r with
                 | PDone c' => cvisit_roots fuel roots c'
                 | e => e
                 end
      | _ => cvisit_roots fuel roots c
      end
  end.

(** Both variants find a cycle exactly when the plain walk does. *)
Definition erases (r : dfs_result) (p : path_result) : Prop :=
  match r, p with
  | OutOfFuel, _ => True
  | CycleAt _ b, PCycle _ b' => b = b'
  | Done c, PDone c' => c = c'
  | _, _ => False
  end.

Lemma pvisit_deps_erases v pv path id deps c :
  (∀ c d, erases (v c d) (pv c path d)) →
  erases (visit_deps v id deps c) (pvisit_deps pv path id deps c).
Proof.
  intros Hv. revert c. induction deps as [|d deps IH]; intros c; simpl; [done|].
  destruct (color_of c d); [|done|done].
  specialize (Hv c d). destruct (v c d), (pv c path d); simpl in *; try done. by subst.
Qed.

Lemma pvisit_erases fuel c path id : erases (visit adj fuel c id) (pvisit fuel c path id).
Proof.
  revert c path id. induction fuel as [|fuel IH]; intros c path id; simpl; [done|].
  assert (H := pvisit_deps_erases (visit adj fuel) (pvisit fuel) (path ++ [id]) id
    (succs adj id) (<[id:=Gray]> c) ltac:(done)).
  destruct (visit_deps _ _ _ _), (pvisit_deps _ _ _ _ _); simpl in *; try done. by subst.
Qed.

Lemma pvisit_roots_erases fuel roots c :
  erases (visit_roots adj fuel roots c) (pvisit_roots fuel roots c).
Proof.
  revert c. induction roots as [|r roots IH]; intros c; simpl; [done|].
  destruct (color_of c r); [|done|done].
  assert (H := pvisit_erases fuel c [] r).
  destruct (visit adj fuel c r), (pvisit fuel c [] r); simpl in *; try done. by subst.
Qed.

Lemma cvisit_deps_erases v cv stack id deps c :
  (∀ c d, color_of c d = White → erases (v c d) (cv c stack d)) →
  (∀ c d, color_of c d = Gray → cv c stack d = PCycle stack d) →
  (∀ c d, color_of c d = Black → cv c stack d = PDone c) →
  erases (visit_deps v id deps c) (cvisit_deps cv stack deps c).
Proof.
  intros Hw Hg Hb. revert c. induction deps as [|d deps IH]; intros c; simpl; [done|].
  destruct (color_of c d) eqn:E.
  - specialize (Hw c d E). destruct (v c d), (cv c stack d); simpl in *; try done. by subst.
  - by rewrite Hg.
  - by rewrite Hb.
Qed.

(** One more unit of fuel pays for the test on entry. *)
Lemma cvisit_erases fuel c stack id :
  color_of c id = White → erases (visit adj fuel c id) (cvisit (S fuel) c stack id).
Proof.
  revert c stack id. induction fuel as [|fuel IH]; intros c stack id Hc; [done|].
  remember (S fuel) as f eqn:Hf.
  assert (H := cvisit_deps_erases (visit adj fuel) (cvisit f) (stack ++ [id]) id
    (succs adj id) (<[id:=Gray]> c)).
  simpl. rewrite Hc. subst f. simpl in *.
  assert (erases (visit_deps (visit adj fuel) id (succs adj id) (<[id:=Gray]> c))
    (cvisit_deps (cvisit (S fuel)) (stack ++ [id]) (succs adj id) (<[id:=Gray]> c))) as H'.
  { apply H.
    - intros c' d Hd. by apply IH.
    - intros c' d ->. done.
    - intros c' d ->. done. }
  clear H. destruct (visit_deps _ _ _ _), (cvisit_deps _ _ _ _); simpl in *; try done. by subst.
Qed.

Lemma cvisit_roots_erases fuel roots c :
  erases (visit_roots adj fuel roots c) (cvisit_roots (S fuel) roots c).
Proof.
  revert c. induction roots as [|r roots IH]; intros c; cbn [visit_roots cvisit_roots]; [done|].
  destruct (color_of c r) eqn:E; [|done|done].
  assert (H := cvisit_erases fuel c [] r E).
  destruct (visit adj fuel c r), (cvisit (S fuel) c [] r); simpl in H; try done. by subst.
Qed.

(** *** The reported segment is a cycle *)

(** Consecutive elements are linked by edges. *)
Fixpoint chain (l : list string) : Prop :=
  match l with
  | x :: ((y :: _) as l') => edge adj x y ∧ chain l'
  | _ => True
  end.

Definition is_cycle (l : list string) : Prop :=
  chain l ∧ ∃ x y, head l = Some x ∧ last l = Some y ∧ edge adj y x.

Lemma chain_drop k l : chain l → chain (drop k l).
Proof.
  revert l. induction k as [|k IH]; intros [|x l]; simpl; try done.
  intros H. apply IH. destruct l; [done|]. apply H.
Qed.

Lemma chain_snoc l x y : chain (l ++ [x]) → edge adj x y → chain ((l ++ [x]) ++ [y]).
Proof.
  induction l as [|z l IH]; simpl; [done|]. intros H Hxy.
  destruct l as [|w l]; simpl in *; [naive_solver|].
  destruct H as [? H]. split; [done|]. by apply IH.
Qed.

Lemma cycle_segment_ok path id dep :
  chain (path ++ [id]) → edge adj id dep → dep ∈ path ++ [id] →
  is_cycle (cycle_segment (path ++ [id]) id dep).
Proof.
  intros Hc He Hd. unfold cycle_segment.
  destruct (list_find (λ n, n = dep) (path ++ [id])) as [[k n]|] eqn:E.
  - apply list_find_Some in E as (Hk & -> & _). split; [by apply chain_drop|].
    exists dep, id. split_and!; [| |done].
    + by rewrite (drop_S _ _ _ Hk).
    + apply lookup_lt_Some in Hk. rewrite length_app in Hk. simpl in Hk.
      rewrite drop_app_le by lia. by rewrite last_snoc.
  - apply list_find_None in E. rewrite Forall_forall in E. by destruct (E dep Hd).
Qed.

(** What a visit promises: a real cycle, or unchanged grey nodes. *)
Definition cycle_or_gray (c : gmap string Color) (r : path_result) : Prop :=
  match r with
  | POutOfFuel => True
  | PCycle ids _ => is_cycle ids
  | PDone c' => ∀ x, gray c' x ↔ gray c x
  end.

(** All grey nodes are on the path, so the segment always starts there. *)
Lemma pvisit_deps_cycle pv path id deps c :
  (∀ c d, color_of c d = White → edge adj id d → (∀ x, gray c x → x ∈ path ++ [id]) →
     cycle_or_gray c (pv c (path ++ [id]) d)) →
  chain (path ++ [id]) → (∀ x, gray c x → x ∈ path ++ [id]) →
  (∀ d, d ∈ deps → edge adj id d) →
  cycle_or_gray c (pvisit_deps pv (path ++ [id]) id deps c).
Proof.
  intros Hpv Hch. revert c. induction deps as [|d deps IH]; intros c Hg Hd; simpl; [done|].
  assert (He : edge adj id d) by (apply Hd; set_solver).
  assert (Hd' : ∀ d, d ∈ deps → edge adj id d) by set_solver.
  destruct (color_of c d) eqn:E.
  - specialize (Hpv c d E He Hg).
    destruct (pv c (path ++ [id]) d) as [|ids e|c']; [done|done|]. simpl in Hpv.
    specialize (IH c' ltac:(intros x; rewrite Hpv; apply Hg) Hd').
    destruct (pvisit_deps _ _ _ _ _); simpl in *; [done..|]. intros x. by rewrite IH.
  - apply cycle_segment_ok; auto.
  - by apply IH.
Qed.

Lemma pvisit_cycle fuel c path id :
  color_of c id = White → chain (path ++ [id]) → (∀ x, gray c x → x ∈ path) →
  cycle_or_gray c (pvisit fuel c path id).
Proof.
  revert c path id. induction fuel as [|fuel IH]; intros c path id Hw Hch Hg; simpl; [done|].
  assert (H := pvisit_deps_cycle (pvisit fuel) path id (succs adj id) (<[id:=Gray]> c)).
  assert (Hgid : ∀ x, gray (<[id:=Gray]> c) x ↔ x = id ∨ gray c x).
  { intros x. unfold gray. rewrite color_of_insert. case_decide; naive_solver. }
  assert (cycle_or_gray (<[id:=Gray]> c)
    (pvisit_deps (pvisit fuel) (path ++ [id]) id (succs adj id) (<[id:=Gray]> c))) as H'.
  { apply H; [|done| |done].
    - intros c' d Hd He Hg'. apply IH; [done| |done]. by apply chain_snoc.
    - intros x [->|Hx]%Hgid; set_solver. }
  clear H. destruct (pvisit_deps _ _ _ _ _) as [|ids e|c']; simpl in *; [done..|].
  intros x. unfold gray. rewrite color_of_insert. case_decide as Hx.
  - subst. split; [done|]. intros Hg2. congruence.
  - specialize (H' x). unfold gray in *. by rewrite H', color_of_insert, decide_False by done.
Qed.

Lemma pvisit_roots_cycle fuel roots c :
  (∀ x, ¬ gray c x) → cycle_or_gray c (pvisit_roots fuel roots c).
Proof.
  revert c. induction roots as [|r roots IH]; intros c Hg; cbn [pvisit_roots]; [done|].
  destruct (color_of c r) eqn:E; [|by apply IH..].
  assert (H := pvisit_cycle fuel c [] r E I ltac:(intros x Hx; by destruct (Hg x))).
  destruct (pvisit fuel c [] r) as [|ids e|c']; simpl in H; [done..|].
  specialize (IH c' ltac:(intros x; rewrite H; apply Hg)).
  destruct (pvisit_roots fuel roots c'); simpl in *; [done..|]. intros x. by rewrite IH.
Qed.

(** Walked from all keys, both variants decide acyclicity. *)
Lemma pdfs_decides roots :
  (∀ r, r ∈ roots ↔ r ∈ dom adj) →
  match pvisit_roots (dfs_fuel adj) roots ∅ with
  | POutOfFuel => False
  | PCycle ids _ => is_cycle ids
  | PDone _ => acyclic adj
  end.
Proof.
  intros Hr. assert (H1 := dfs_decides adj roots Hr).
  assert (H2 := pvisit_roots_erases (dfs_fuel adj) roots ∅).
  assert (H3 := pvisit_roots_cycle (dfs_fuel adj) roots ∅
    ltac:(intros x; unfold gray, color_of; by rewrite lookup_empty)).
  destruct (visit_roots _ _ _ _), (pvisit_roots _ _ _); simpl in *; done.
Qed.

Lemma is_cycle_tc ids : is_cycle ids → ∃ x, tc (edge adj) x x.
Proof.
  intros (Hc & x & y & Hx & Hy & He). exists y. apply tc_step_rtc with x; [done|].
  clear He. revert x Hx. induction ids as [|z ids IH]; intros x Hx; [done|].
  injection Hx as ->. destruct ids as [|w ids]; simpl in *; [by injection Hy as ->|].
  destruct Hc as [Hxw Hc]. eapply rtc_l; [done|]. by apply IH.
Qed.

Lemma cdfs_decides roots :
  (∀ r, r ∈ roots ↔ r ∈ dom adj) →
  match cvisit_roots (S (dfs_fuel adj)) roots ∅ with
  | POutOfFuel => False
  | PCycle _ b => ∃ a, edge adj a b ∧ rtc (edge adj) b a
  | PDone _ => acyclic adj
  end.
Proof.
  intros Hr. assert (H1 := dfs_decides adj roots Hr).
  assert (H2 := cvisit_roots_erases (dfs_fuel adj) roots ∅).
  destruct (visit_roots _ _ _ _), (cvisit_roots _ _ _); simpl in *; try done.
  subst. by eexists.
Qed.
End variants.

(** ** Validating a [DependsOn] graph

    The body shared by [ValidateRequirementDAG], [ValidateStoryDAG],
    [ValidateTaskDAG] and the dependency part of [TaskDAG.Validate]: reject
    self references and references to unknown ids, then search for a cycle. *)

Inductive dag_error :=
| DepSelf (id : string)
| DepUnknown (id dep : string)
| DepCycle (id dep : string)
| DagOutOfFuel.

Definition check_refs (nodes : list (string * list string)) : option dag_error :=
  let idIndex : gset string := list_to_set nodes.*1 in
  first_err (λ n, first_err (λ dep,
    if dep =? n.1 then Some (DepSelf n.1)
    else if bool_decide (dep ∈ idIndex) then None
    else Some (DepUnknown n.1 dep)) n.2) nodes.

Definition detect_cycle (nodes : list (string * list string)) : option dag_error :=
  let adj := adj_of nodes in
  match visit_roots adj (dfs_fuel adj) nodes.*1 ∅ with
  | Done _ => None
  | CycleAt id dep => Some (DepCycle id dep)
  | OutOfFuel => Some DagOutOfFuel
  end.

Definition validate_dag (nodes : list (string * list string)) : option dag_error :=
  match check_refs nodes with
  | Some e => Some e
  | None => detect_cycle nodes
  end.

(** What a valid dependency graph is. *)
Record dag_spec (nodes : list (string * list string)) : Prop := {
  dag_no_self : ∀ n dep, n ∈ nodes → dep ∈ n.2 → dep ≠ n.1;
  dag_known : ∀ n dep, n ∈ nodes → dep ∈ n.2 → dep ∈ nodes.*1;
  dag_acyclic : acyclic (adj_of nodes) }.

Lemma check_refs_None nodes :
  check_refs nodes = None ↔
  ∀ n dep, n ∈ nodes → dep ∈ n.2 → dep ≠ n.1 ∧ dep ∈ nodes.*1.
Proof.
  unfold check_refs. rewrite first_err_None. split.
  - intros H n dep Hn Hd. specialize (H n Hn). rewrite first_err_None in H.
    specialize (H dep Hd). destruct (dep =? n.1) eqn:E; [done|].
    case_bool_decide as E'; [|done]. apply eqb_false in E.
    rewrite elem_of_list_to_set in E'. done.
  - intros H n Hn. apply first_err_None. intros dep Hd.
    destruct (H n dep Hn Hd) as [Hs Hk]. apply eqb_false in Hs as ->.
    rewrite bool_decide_eq_true_2; [done|]. by apply elem_of_list_to_set.
Qed.

Lemma detect_cycle_spec nodes :
  match detect_cycle nodes with
  | None => acyclic (adj_of nodes)
  | Some (DepCycle a b) => edge (adj_of nodes) a b ∧ rtc (edge (adj_of nodes)) b a
  | _ => False
  end.
Proof.
  unfold detect_cycle.
  pose proof (dfs_decides (adj_of nodes) nodes.*1) as H.
  destruct (visit_roots _ _ _ _); apply H; intros r;
    by rewrite adj_of_dom, elem_of_list_to_set.
Qed.

Lemma detect_cycle_None nodes : detect_cycle nodes = None ↔ acyclic (adj_of nodes).
Proof.
  pose proof (detect_cycle_spec nodes) as H.
  destruct (detect_cycle nodes) as [[]|]; try done.
  split; [done|]. intros Hac. destruct H as [He Hr].
  destruct (Hac id). eapply tc_step_rtc; eauto.
Qed.

Lemma validate_dag_None nodes : validate_dag nodes = None ↔ dag_spec nodes.
Proof.
  unfold validate_dag. destruct (check_refs nodes) eqn:E.
  - split; [done|]. intros [H1 H2 _].
    assert (check_refs nodes = None); [|congruence].
    apply check_refs_None. eauto.
  - rewrite detect_cycle_None. rewrite check_refs_None in E. split.
    + intros H. split; [intros n dep Hn Hd; by apply (E n dep)..|done].
    + by intros [_ _ H].
Qed.

(** Every reported defect is present in the input, and the search never
    runs out of fuel. *)
Lemma validate_dag_Some nodes e :
  validate_dag nodes = Some e →
  match e with
  | DepSelf id => ∃ deps, (id, deps) ∈ nodes ∧ id ∈ deps
  | DepUnknown id dep => ∃ deps, (id, deps) ∈ nodes ∧ dep ∈ deps ∧ dep ∉ nodes.*1
  | DepCycle id dep => edge (adj_of nodes) id dep ∧ rtc (edge (adj_of nodes)) dep id
  | DagOutOfFuel => False
  end.
Proof.
  unfold validate_dag. destruct (check_refs nodes) as [e'|] eqn:E.
  - intros [= <-]. unfold check_refs in E.
    apply first_err_Some in E as (l1 & [id deps] & l2 & -> & E & _).
    apply first_err_Some in E as (d1 & dep & d2 & Hd & E & _). simpl in *.
    destruct (dep =? id) eqn:Eq; [|case_bool_decide as Hk; [done|]]; simplify_eq.
    + apply eqb_true in Eq as ->. exists (d1 ++ id :: d2). set_solver.
    + exists (d1 ++ dep :: d2). split_and!; [set_solver..|].
      by rewrite elem_of_list_to_set in Hk.
  - intros H. pose proof (detect_cycle_spec nodes) as Hs. rewrite H in Hs. by destruct e.
Qed.

(** ** Breadth-first transitive closure

    [queue := append(nil, adj\[x\]...); for len(queue) > 0 { pop the head;
    skip it when seen; otherwise mark it and append its successors }]. *)

Section bfs.
Context (adj : gmap string (list string)).

Fixpoint bfs (fuel : nat) (queue : list string) (seen : gset string) : option (gset string) :=
  match fuel with
  | O => None
  | S fuel =>
      match queue with
      | [] => Some seen
      | head :: queue =>
          if bool_decide (head ∈ seen) then bfs fuel queue seen
          else bfs fuel (queue ++ succs adj head) ({[head]} ∪ seen)
      end
  end.

(** Edges out of the nodes not expanded yet. *)
Definition pending (seen : gset string) : nat :=
  sum_list_with (λ kv, if bool_decide (kv.1 ∈ seen) then 0 else length kv.2) (map_to_list adj).

(** Each iteration pops one entry; each edge is pushed at most once. *)
Definition bfs_fuel (queue : list string) : nat := S (length queue + pending ∅).

Definition bfs_closure (queue : list string) : gset string :=
  default ∅ (bfs (bfs_fuel queue) queue ∅).

Lemma sum_list_with_le {A} (f g : A → nat) l :
  (∀ x, x ∈ l → f x ≤ g x) → sum_list_with f l ≤ sum_list_with g l.
Proof.
  induction l as [|x l IH]; simpl; [done|]. intros H.
  pose proof (H x ltac:(set_solver)). specialize (IH ltac:(set_solver)). lia.
Qed.

Lemma sum_list_with_drop {A} (f g : A → nat) l x n :
  (∀ y, y ∈ l → f y ≤ g y) → x ∈ l → f x + n ≤ g x →
  sum_list_with f l + n ≤ sum_list_with g l.
Proof.
  induction l as [|y l IH]; simpl; intros Hle Hin Hx; [set_solver|].
  apply elem_of_cons in Hin as [->|Hin].
  - pose proof (sum_list_with_le f g l ltac:(set_solver)). lia.
  - specialize (IH ltac:(set_solver) Hin Hx). pose proof (Hle y ltac:(set_solver)). lia.
Qed.

Lemma pending_step x seen :
  x ∉ seen → pending ({[x]} ∪ seen) + length (succs adj x) ≤ pending seen.
Proof.
  intros Hx. unfold pending, succs.
  assert (Hle : ∀ kv, kv ∈ map_to_list adj →
    (if bool_decide (kv.1 ∈ ({[x]} ∪ seen : gset string)) then 0 else length kv.2) ≤
    (if bool_decide (kv.1 ∈ seen) then 0 else length kv.2)).
  { intros kv _. repeat case_bool_decide; try lia. set_solver. }
  destruct (adj !! x) as [ds|] eqn:E; simpl.
  - eapply (sum_list_with_drop _ _ _ (x, ds)); [done|by apply elem_of_map_to_list|].
    simpl. rewrite bool_decide_eq_true_2 by set_solver.
    rewrite bool_decide_eq_false_2 by done. lia.
  - pose proof (sum_list_with_le _ _ _ Hle). lia.
Qed.

Lemma pending_mono seen seen' : seen ⊆ seen' → pending seen' ≤ pending seen.
Proof.
  intros H. apply sum_list_with_le. intros kv _. repeat case_bool_decide; try lia. set_solver.
Qed.

(** Started with the whole frontier of the seen set queued, the loop ends
    with exactly the nodes reachable from the seen set and the queue. *)
Lemma bfs_spec fuel queue seen (P : string → Prop) :
  length queue + pending seen < fuel →
  (∀ x y, x ∈ seen → edge adj x y → y ∈ seen ∨ y ∈ queue) →
  (∀ x, x ∈ seen ∨ x ∈ queue → P x) →
  (∀ x y, P x → edge adj x y → P y) →
  ∃ r, bfs fuel queue seen = Some r ∧ seen ⊆ r ∧ (∀ x, x ∈ queue → x ∈ r) ∧
    (∀ x y, x ∈ r → edge adj x y → y ∈ r) ∧ (∀ x, x ∈ r → P x).
Proof.
  revert queue seen. induction fuel as [|fuel IH]; intros queue seen Hf Hfr HP Hcl; [lia|].
  destruct queue as [|h queue]; simpl.
  { exists seen. split_and!; [done..|set_solver| |set_solver].
    intros x y Hx Hxy. destruct (Hfr x y Hx Hxy); [done|set_solver]. }
  case_bool_decide as Hh; simpl in Hf.
  - destruct (IH queue seen) as (r & ? & ? & ? & ? & ?); [lia| |set_solver|done|].
    { intros x y Hx Hxy. specialize (Hfr x y Hx Hxy). set_solver. }
    exists r. split_and!; set_solver.
  - pose proof (pending_step h seen Hh).
    assert (Hph : P h) by (apply HP; set_solver).
    destruct (IH (queue ++ succs adj h) ({[h]} ∪ seen)) as (r & ? & ? & ? & ? & ?).
    + rewrite length_app. lia.
    + intros x y Hx Hxy. apply elem_of_union in Hx as [Hx|Hx].
      * apply elem_of_singleton in Hx as ->. right. apply elem_of_app. by right.
      * specialize (Hfr x y Hx Hxy). set_solver.
    + intros x [Hx|Hx]; [set_solver|]. apply elem_of_app in Hx as [Hx|Hx]; [set_solver|].
      by apply (Hcl h).
    + done.
    + exists r. split_and!; set_solver.
Qed.

Lemma elem_of_bfs_closure queue y :
  y ∈ bfs_closure queue ↔ ∃ x, x ∈ queue ∧ rtc (edge adj) x y.
Proof.
  unfold bfs_closure.
  destruct (bfs_spec (bfs_fuel queue) queue ∅ (λ y, ∃ x, x ∈ queue ∧ rtc (edge adj) x y))
    as (r & -> & _ & Hq & Hcl & HP); simpl.
  - unfold bfs_fuel. lia.
  - set_solver.
  - intros x [Hx|Hx]; [set_solver|]. eauto using rtc_refl.
  - intros x z (w & Hw & Hr) Hxz. eauto using rtc_r.
  - split; [apply HP|]. intros (x & Hx & Hr).
    eapply (rtc_closed _ (.∈ r)); eauto.
Qed.
End bfs.

(** The closure of a node's dependency slice: everything it transitively
    depends on. *)
Lemma elem_of_bfs_succs adj x y :
  y ∈ bfs_closure adj (succs adj x) ↔ tc (edge adj) x y.
Proof.
  rewrite elem_of_bfs_closure. split.
  - intros (z & Hz & Hr). by eapply tc_step_rtc.
  - intros Ht. apply tc_inv_l in Ht as (z & ? & ?). eauto.
Qed.

#[export] Instance tc_edge_dec adj x y : Decision (tc (edge adj) x y).
Proof.
  refine (cast_if (decide (y ∈ bfs_closure adj (succs adj x)))); by rewrite <- elem_of_bfs_succs.
Defined.

(** In an acyclic graph every non-empty set has a node that depends on no
    node of the set. *)
Lemma acyclic_minimal adj (X : gset string) :
  acyclic adj → X ≢ ∅ → ∃ x, x ∈ X ∧ ∀ y, y ∈ X → ¬ edge adj x y.
Proof.
  intros Hac HX.
  assert (Transitive (λ y x, tc (edge adj) x y)) by (intros a b c H1 H2; by eapply tc_transitive).
  destruct (minimal_exists_elem_of (λ y x, tc (edge adj) x y) X HX) as (x & Hx & Hmin).
  exists x. split; [done|]. intros y Hy Hxy.
  destruct (Hac x). apply tc_once in Hxy as Ht. eapply tc_transitive; [done|].
  by apply (Hmin y Hy).
Qed.
