(* ===== verification/Status.v ===== *)
(** * Status state machines

    The closed string enumerations of workflow/types.go and
    workflow/story_task.go with their [IsValid] and [CanTransitionTo]
    methods: plan status, QA level, requirement, scenario, plan-decision,
    story and task status, decision kind and contract impact.  Each Go type
    is a [string]; the model has one constructor per declared constant and
    one for any other value ([...Other raw], which covers the zero value
    [""] and values such as ["deleted"]).  [StatusMachine] is the interface
    the mutation handlers rely on when they use [CanTransitionTo] as a
    compare-and-swap guard. *)

From S2P Require Import Prelude.

(** ** Plan status (workflow/types.go) *)

Inductive Status :=
| StatusCreated
| StatusDrafted
| StatusReviewed
| StatusApproved
| StatusRequirementsGenerated
| StatusScenariosGenerated
| StatusScenariosReviewed
| StatusReadyForExecution
| StatusImplementing
| StatusReviewingRollup
| StatusComplete
| StatusArchived
| StatusRejected
| StatusAwaitingReview
| StatusChanged
| StatusReadyForQA
| StatusReviewingQA
| StatusExploring
| StatusDrafting
| StatusReviewingDraft
| StatusGeneratingRequirements
| StatusGeneratingArchitecture
| StatusGeneratingScenarios
| StatusReviewingScenarios
| StatusReviewingRequirements
| StatusReviewingArchitecture
| StatusPreparingStories
| StatusRequirementsReviewed
| StatusArchitectureGenerated
| StatusArchitectureReviewed
| StatusExplored
| StatusStoriesGenerated
| StatusOther (raw : string).

#[export] Instance Status_eq_dec : EqDecision Status.
Proof. solve_decision. Defined.

(** [func (s Status) String() string] *)
Definition Status_String (s : Status) : string :=
  match s with
  | StatusCreated => "created"
  | StatusDrafted => "drafted"
  | StatusReviewed => "reviewed"
  | StatusApproved => "approved"
  | StatusRequirementsGenerated => "requirements_generated"
  | StatusScenariosGenerated => "scenarios_generated"
  | StatusScenariosReviewed => "scenarios_reviewed"
  | StatusReadyForExecution => "ready_for_execution"
  | StatusImplementing => "implementing"
  | StatusReviewingRollup => "reviewing_rollup"
  | StatusComplete => "complete"
  | StatusArchived => "archived"
  | StatusRejected => "rejected"
  | StatusAwaitingReview => "awaiting_review"
  | StatusChanged => "changed"
  | StatusReadyForQA => "ready_for_qa"
  | StatusReviewingQA => "reviewing_qa"
  | StatusExploring => "exploring"
  | StatusDrafting => "drafting"
  | StatusReviewingDraft => "reviewing_draft"
  | StatusGeneratingRequirements => "generating_requirements"
  | StatusGeneratingArchitecture => "generating_architecture"
  | StatusGeneratingScenarios => "generating_scenarios"
  | StatusReviewingScenarios => "reviewing_scenarios"
  | StatusReviewingRequirements => "reviewing_requirements"
  | StatusReviewingArchitecture => "reviewing_architecture"
  | StatusPreparingStories => "preparing_stories"
  | StatusRequirementsReviewed => "requirements_reviewed"
  | StatusArchitectureGenerated => "architecture_generated"
  | StatusArchitectureReviewed => "architecture_reviewed"
  | StatusExplored => "explored"
  | StatusStoriesGenerated => "stories_generated"
  | StatusOther raw => raw
  end.

(** Reading a status off the wire ([json.Unmarshal] into a string type). *)
Definition Status_of_string (raw : string) : Status :=
  if raw =? "created" then StatusCreated else
  if raw =? "drafted" then StatusDrafted else
  if raw =? "reviewed" then StatusReviewed else
  if raw =? "approved" then StatusApproved else
  if raw =? "requirements_generated" then StatusRequirementsGenerated else
  if raw =? "scenarios_generated" then StatusScenariosGenerated else
  if raw =? "scenarios_reviewed" then StatusScenariosReviewed else
  if raw =? "ready_for_execution" then StatusReadyForExecution else
  if raw =? "implementing" then StatusImplementing else
  if raw =? "reviewing_rollup" then StatusReviewingRollup else
  if raw =? "complete" then StatusComplete else
  if raw =? "archived" then StatusArchived else
  if raw =? "rejected" then StatusRejected else
  if raw =? "awaiting_review" then StatusAwaitingReview else
  if raw =? "changed" then StatusChanged else
  if raw =? "ready_for_qa" then StatusReadyForQA else
  if raw =? "reviewing_qa" then StatusReviewingQA else
  if raw =? "exploring" then StatusExploring else
  if raw =? "drafting" then StatusDrafting else
  if raw =? "reviewing_draft" then StatusReviewingDraft else
  if raw =? "generating_requirements" then StatusGeneratingRequirements else
  if raw =? "generating_architecture" then StatusGeneratingArchitecture else
  if raw =? "generating_scenarios" then StatusGeneratingScenarios else
  if raw =? "reviewing_scenarios" then StatusReviewingScenarios else
  if raw =? "reviewing_requirements" then StatusReviewingRequirements else
  if raw =? "reviewing_architecture" then StatusReviewingArchitecture else
  if raw =? "preparing_stories" then StatusPreparingStories else
  if raw =? "requirements_reviewed" then StatusRequirementsReviewed else
  if raw =? "architecture_generated" then StatusArchitectureGenerated else
  if raw =? "architecture_reviewed" then StatusArchitectureReviewed else
  if raw =? "explored" then StatusExplored else
  if raw =? "stories_generated" then StatusStoriesGenerated else
  StatusOther raw.

(** [func (s Status) IsValid() bool] *)
Definition Status_IsValid (s : Status) : bool :=
  match s with
  | StatusCreated | StatusDrafted | StatusReviewed | StatusApproved
  | StatusRequirementsGenerated | StatusArchitectureGenerated
  | StatusScenariosGenerated | StatusScenariosReviewed
  | StatusReadyForExecution
  | StatusImplementing | StatusReviewingRollup | StatusAwaitingReview | StatusComplete
  | StatusArchived | StatusRejected
  | StatusChanged | StatusReadyForQA | StatusReviewingQA
  | StatusExploring | StatusExplored
  | StatusDrafting | StatusReviewingDraft | StatusGeneratingRequirements
  | StatusGeneratingArchitecture | StatusGeneratingScenarios | StatusReviewingScenarios
  | StatusReviewingRequirements | StatusRequirementsReviewed
  | StatusReviewingArchitecture | StatusArchitectureReviewed
  | StatusPreparingStories | StatusStoriesGenerated => true
  | StatusOther _ => false
  end.

(** [func (s Status) IsInProgress() bool] *)
Definition Status_IsInProgress (s : Status) : bool :=
  match s with
  | StatusExploring
  | StatusDrafting | StatusReviewingDraft | StatusGeneratingRequirements
  | StatusGeneratingArchitecture | StatusGeneratingScenarios | StatusReviewingScenarios
  | StatusReviewingRequirements | StatusReviewingArchitecture
  | StatusPreparingStories => true
  | _ => false
  end.

(** [func (s Status) CanTransitionTo(target Status) bool] *)
Definition Status_CanTransitionTo (s target : Status) : bool :=
  match s with
  | StatusCreated =>
      (target =? StatusExploring) || (target =? StatusDrafting) ||
      (target =? StatusDrafted) || (target =? StatusRejected)
  | StatusExploring =>
      (target =? StatusExplored) || (target =? StatusRejected)
  | StatusExplored =>
      (target =? StatusDrafting) || (target =? StatusDrafted) ||
      (target =? StatusRejected)
  | StatusDrafting =>
      (target =? StatusDrafted) || (target =? StatusRejected)
  | StatusDrafted =>
      (target =? StatusReviewingDraft) || (target =? StatusRequirementsGenerated) ||
      (target =? StatusReviewed) || (target =? StatusRejected)
  | StatusReviewingDraft =>
      (target =? StatusReviewed) || (target =? StatusCreated) ||
      (target =? StatusRejected)
  | StatusReviewed =>
      (target =? StatusApproved) || (target =? StatusRejected)
  | StatusApproved =>
      (target =? StatusGeneratingRequirements) || (target =? StatusRequirementsGenerated) ||
      (target =? StatusScenariosGenerated) || (target =? StatusReadyForExecution) ||
      (target =? StatusRejected)
  | StatusGeneratingRequirements =>
      (target =? StatusRequirementsGenerated) || (target =? StatusRejected)
  | StatusRequirementsGenerated =>
      (target =? StatusGeneratingArchitecture) || (target =? StatusReviewingRequirements) ||
      (target =? StatusArchitectureGenerated) || (target =? StatusChanged) ||
      (target =? StatusRejected)
  | StatusReviewingRequirements =>
      (target =? StatusRequirementsReviewed) || (target =? StatusApproved) ||
      (target =? StatusChanged) || (target =? StatusRejected)
  | StatusRequirementsReviewed =>
      (target =? StatusGeneratingArchitecture) || (target =? StatusArchitectureGenerated) ||
      (target =? StatusChanged) || (target =? StatusRejected)
  | StatusGeneratingArchitecture =>
      (target =? StatusArchitectureGenerated) || (target =? StatusRejected)
  | StatusArchitectureGenerated =>
      (target =? StatusPreparingStories) || (target =? StatusReviewingArchitecture) ||
      (target =? StatusChanged) || (target =? StatusRejected)
  | StatusReviewingArchitecture =>
      (target =? StatusArchitectureReviewed) || (target =? StatusRequirementsGenerated) ||
      (target =? StatusChanged) || (target =? StatusRejected)
  | StatusArchitectureReviewed =>
      (target =? StatusPreparingStories) || (target =? StatusChanged) ||
      (target =? StatusRejected)
  | StatusPreparingStories =>
      (target =? StatusStoriesGenerated) || (target =? StatusArchitectureGenerated) ||
      (target =? StatusRejected)
  | StatusStoriesGenerated =>
      (target =? StatusGeneratingScenarios) || (target =? StatusPreparingStories) ||
      (target =? StatusChanged) || (target =? StatusRejected)
  | StatusGeneratingScenarios =>
      (target =? StatusScenariosGenerated) || (target =? StatusRejected)
  | StatusScenariosGenerated =>
      (target =? StatusReviewingScenarios) || (target =? StatusScenariosReviewed) ||
      (target =? StatusReviewed) || (target =? StatusReadyForExecution) ||
      (target =? StatusChanged) || (target =? StatusRejected)
  | StatusReviewingScenarios =>
      (target =? StatusScenariosReviewed) || (target =? StatusReviewed) ||
      (target =? StatusReadyForExecution) || (target =? StatusApproved) ||
      (target =? StatusCreated) || (target =? StatusRequirementsGenerated) ||
      (target =? StatusArchitectureGenerated) || (target =? StatusRejected)
  | StatusScenariosReviewed =>
      (target =? StatusReadyForExecution) || (target =? StatusChanged) ||
      (target =? StatusRejected)
  | StatusReadyForExecution =>
      (target =? StatusImplementing) || (target =? StatusChanged) ||
      (target =? StatusRejected)
  | StatusImplementing =>
      (target =? StatusReviewingRollup) || (target =? StatusReviewingQA) ||
      (target =? StatusReadyForQA) || (target =? StatusAwaitingReview) ||
      (target =? StatusComplete) || (target =? StatusChanged) ||
      (target =? StatusPreparingStories) || (target =? StatusRequirementsGenerated) ||
      (target =? StatusRejected)
  | StatusReviewingRollup =>
      (target =? StatusAwaitingReview) || (target =? StatusComplete) ||
      (target =? StatusRejected)
  | StatusReadyForQA =>
      (target =? StatusReviewingQA) || (target =? StatusRejected)
  | StatusReviewingQA =>
      (target =? StatusComplete) || (target =? StatusAwaitingReview) ||
      (target =? StatusRejected)
  | StatusAwaitingReview =>
      (target =? StatusComplete) || (target =? StatusReadyForExecution) ||
      (target =? StatusRejected) || (target =? StatusArchived)
  | StatusComplete =>
      (target =? StatusArchived) || (target =? StatusReadyForExecution) ||
      (target =? StatusChanged)
  | StatusArchived =>
      (target =? StatusComplete) || (target =? StatusReadyForExecution)
  | StatusChanged =>
      (target =? StatusGeneratingRequirements) || (target =? StatusRejected)
  | StatusRejected =>
      (target =? StatusApproved) || (target =? StatusCreated) ||
      (target =? StatusRequirementsGenerated) || (target =? StatusReadyForExecution) ||
      (target =? StatusImplementing)
  | StatusOther _ => false
  end.

(** ** QA level *)

Inductive QALevel :=
| QALevelNone
| QALevelSynthesis
| QALevelUnit
| QALevelIntegration
| QALevelOther (raw : string).

#[export] Instance QALevel_eq_dec : EqDecision QALevel.
Proof. solve_decision. Defined.

Definition QALevel_IsValid (l : QALevel) : bool :=
  match l with
  | QALevelNone | QALevelSynthesis | QALevelUnit | QALevelIntegration => true
  | QALevelOther _ => false
  end.

Definition QALevel_UsesSandboxTests (l : QALevel) : bool :=
  (l =? QALevelUnit) || (l =? QALevelIntegration).

(** ** Requirement status *)

Inductive RequirementStatus :=
| RequirementStatusActive
| RequirementStatusDeprecated
| RequirementStatusSuperseded
| RequirementStatusOther (raw : string).

#[export] Instance RequirementStatus_eq_dec : EqDecision RequirementStatus.
Proof. solve_decision. Defined.

Definition RequirementStatus_IsValid (s : RequirementStatus) : bool :=
  match s with
  | RequirementStatusActive | RequirementStatusDeprecated | RequirementStatusSuperseded => true
  | RequirementStatusOther _ => false
  end.

Definition RequirementStatus_CanTransitionTo (s target : RequirementStatus) : bool :=
  match s with
  | RequirementStatusActive =>
      (target =? RequirementStatusDeprecated) || (target =? RequirementStatusSuperseded)
  | RequirementStatusSuperseded => target =? RequirementStatusActive
  | RequirementStatusDeprecated => false
  | RequirementStatusOther _ => false
  end.

(** ** Scenario status *)

Inductive ScenarioStatus :=
| ScenarioStatusPending
| ScenarioStatusPassing
| ScenarioStatusFailing
| ScenarioStatusSkipped
| ScenarioStatusOther (raw : string).

#[export] Instance ScenarioStatus_eq_dec : EqDecision ScenarioStatus.
Proof. solve_decision. Defined.

Definition ScenarioStatus_IsValid (s : ScenarioStatus) : bool :=
  match s with
  | ScenarioStatusPending | ScenarioStatusPassing
  | ScenarioStatusFailing | ScenarioStatusSkipped => true
  | ScenarioStatusOther _ => false
  end.

Definition ScenarioStatus_CanTransitionTo (s target : ScenarioStatus) : bool :=
  match s with
  | ScenarioStatusPending =>
      (target =? ScenarioStatusPassing) || (target =? ScenarioStatusFailing) ||
      (target =? ScenarioStatusSkipped)
  | ScenarioStatusPassing => target =? ScenarioStatusFailing
  | ScenarioStatusFailing => target =? ScenarioStatusPassing
  | ScenarioStatusSkipped => target =? ScenarioStatusPending
  | ScenarioStatusOther _ => false
  end.

(** ** Plan-decision status and kind *)

Inductive PlanDecisionStatus :=
| PlanDecisionStatusProposed
| PlanDecisionStatusUnderReview
| PlanDecisionStatusAccepted
| PlanDecisionStatusRejected
| PlanDecisionStatusArchived
| PlanDecisionStatusOther (raw : string).

#[export] Instance PlanDecisionStatus_eq_dec : EqDecision PlanDecisionStatus.
Proof. solve_decision. Defined.

Definition PlanDecisionStatus_IsValid (s : PlanDecisionStatus) : bool :=
  match s with
  | PlanDecisionStatusProposed | PlanDecisionStatusUnderReview
  | PlanDecisionStatusAccepted | PlanDecisionStatusRejected | PlanDecisionStatusArchived => true
  | PlanDecisionStatusOther _ => false
  end.

Definition PlanDecisionStatus_CanTransitionTo (s target : PlanDecisionStatus) : bool :=
  match s with
  | PlanDecisionStatusProposed =>
      (target =? PlanDecisionStatusUnderReview) || (target =? PlanDecisionStatusAccepted) ||
      (target =? PlanDecisionStatusArchived)
  | PlanDecisionStatusUnderReview =>
      (target =? PlanDecisionStatusAccepted) || (target =? PlanDecisionStatusRejected) ||
      (target =? PlanDecisionStatusArchived)
  | PlanDecisionStatusAccepted => target =? PlanDecisionStatusArchived
  | PlanDecisionStatusRejected => target =? PlanDecisionStatusArchived
  | PlanDecisionStatusArchived => false
  | PlanDecisionStatusOther _ => false
  end.

Inductive PlanDecisionKind :=
| PlanDecisionKindRequirementChange
| PlanDecisionKindExecutionExhausted
| PlanDecisionKindStoryReprepare
| PlanDecisionKindArchitectureRevise
| PlanDecisionKindAssemblyConflict
| PlanDecisionKindScopeIncomplete
| PlanDecisionKindOther (raw : string).

#[export] Instance PlanDecisionKind_eq_dec : EqDecision PlanDecisionKind.
Proof. solve_decision. Defined.

Definition PlanDecisionKind_IsValid (k : PlanDecisionKind) : bool :=
  match k with
  | PlanDecisionKindRequirementChange | PlanDecisionKindExecutionExhausted
  | PlanDecisionKindStoryReprepare | PlanDecisionKindArchitectureRevise
  | PlanDecisionKindAssemblyConflict | PlanDecisionKindScopeIncomplete => true
  | PlanDecisionKindOther _ => false
  end.

(** ** Contract impact *)

Inductive ContractImpactKind :=
| ContractImpactPreserve
| ContractImpactRefine
| ContractImpactChange
| ContractImpactKindOther (raw : string).

#[export] Instance ContractImpactKind_eq_dec : EqDecision ContractImpactKind.
Proof. solve_decision. Defined.

Definition ContractImpactKind_IsValid (k : ContractImpactKind) : bool :=
  match k with
  | ContractImpactPreserve | ContractImpactRefine | ContractImpactChange => true
  | ContractImpactKindOther _ => false
  end.

(** ** Story and task status (workflow/story_task.go) *)

Inductive StoryStatus :=
| StoryStatusPending
| StoryStatusReady
| StoryStatusExecuting
| StoryStatusComplete
| StoryStatusFailed
| StoryStatusOther (raw : string).

#[export] Instance StoryStatus_eq_dec : EqDecision StoryStatus.
Proof. solve_decision. Defined.

Definition StoryStatus_IsValid (s : StoryStatus) : bool :=
  match s with
  | StoryStatusPending | StoryStatusReady
  | StoryStatusExecuting | StoryStatusComplete | StoryStatusFailed => true
  | StoryStatusOther _ => false
  end.

Definition StoryStatus_CanTransitionTo (s target : StoryStatus) : bool :=
  match s with
  | StoryStatusPending => (target =? StoryStatusReady) || (target =? StoryStatusFailed)
  | StoryStatusReady => (target =? StoryStatusExecuting) || (target =? StoryStatusFailed)
  | StoryStatusExecuting => (target =? StoryStatusComplete) || (target =? StoryStatusFailed)
  | StoryStatusComplete => target =? StoryStatusReady
  | StoryStatusFailed => target =? StoryStatusPending
  | StoryStatusOther _ => false
  end.

Inductive TaskStatus :=
| TaskStatusPending
| TaskStatusDispatched
| TaskStatusComplete
| TaskStatusFailed
| TaskStatusOther (raw : string).

#[export] Instance TaskStatus_eq_dec : EqDecision TaskStatus.
Proof. solve_decision. Defined.

Definition TaskStatus_IsValid (s : TaskStatus) : bool :=
  match s with
  | TaskStatusPending | TaskStatusDispatched | TaskStatusComplete | TaskStatusFailed => true
  | TaskStatusOther _ => false
  end.

Definition TaskStatus_CanTransitionTo (s target : TaskStatus) : bool :=
  match s with
  | TaskStatusPending => (target =? TaskStatusDispatched) || (target =? TaskStatusFailed)
  | TaskStatusDispatched =>
      (target =? TaskStatusComplete) || (target =? TaskStatusFailed) ||
      (target =? TaskStatusPending)
  | TaskStatusComplete => target =? TaskStatusPending
  | TaskStatusFailed => target =? TaskStatusPending
  | TaskStatusOther _ => false
  end.

(** ** The compare-and-swap interface

    What the handlers need of a status type: a transition only ever relates
    declared values, and no status may transition to itself. *)

Class StatusMachine (A : Type) `{EqDecision A} := {
  sm_valid : A → bool;
  sm_can : A → A → bool;
  sm_can_valid a b : sm_can a b = true → sm_valid a = true ∧ sm_valid b = true;
  sm_can_irrefl a : sm_can a a = false }.

(** Discharge [... || ... = true] hypotheses about targets. *)
Ltac solve_can :=
  intros; repeat match goal with
  | H : (_ || _)%bool = true |- _ => apply orb_true_iff in H as [H|H]
  | H : (_ =? _)%go = true |- _ => apply (proj1 (eqb_true _ _)) in H; subst
  | H : false = true |- _ => discriminate H
  end; try first [done | split; done].

Lemma Status_can_valid a b :
  Status_CanTransitionTo a b = true → Status_IsValid a = true ∧ Status_IsValid b = true.
Proof. destruct a; simpl; solve_can. Qed.

#[export] Instance Status_machine : StatusMachine Status.
Proof.
  refine {| sm_valid := Status_IsValid; sm_can := Status_CanTransitionTo |}.
  - exact Status_can_valid.
  - intros []; reflexivity.
Defined.

#[export] Instance RequirementStatus_machine : StatusMachine RequirementStatus.
Proof.
  refine {| sm_valid := RequirementStatus_IsValid; sm_can := RequirementStatus_CanTransitionTo |}.
  - intros a b; destruct a; simpl; solve_can.
  - intros []; reflexivity.
Defined.

#[export] Instance ScenarioStatus_machine : StatusMachine ScenarioStatus.
Proof.
  refine {| sm_valid := ScenarioStatus_IsValid; sm_can := ScenarioStatus_CanTransitionTo |}.
  - intros a b; destruct a; simpl; solve_can.
  - intros []; reflexivity.
Defined.

#[export] Instance PlanDecisionStatus_machine : StatusMachine PlanDecisionStatus.
Proof.
  refine {| sm_valid := PlanDecisionStatus_IsValid; sm_can := PlanDecisionStatus_CanTransitionTo |}.
  - intros a b; destruct a; simpl; solve_can.
  - intros []; reflexivity.
Defined.

#[export] Instance StoryStatus_machine : StatusMachine StoryStatus.
Proof.
  refine {| sm_valid := StoryStatus_IsValid; sm_can := StoryStatus_CanTransitionTo |}.
  - intros a b; destruct a; simpl; solve_can.
  - intros []; reflexivity.
Defined.

#[export] Instance TaskStatus_machine : StatusMachine TaskStatus.
Proof.
  refine {| sm_valid := TaskStatus_IsValid; sm_can := TaskStatus_CanTransitionTo |}.
  - intros a b; destruct a; simpl; solve_can.
  - intros []; reflexivity.
Defined.

Section machine.
Context {A} `{StatusMachine A}.

Definition sm_step (a b : A) : Prop := sm_can a b = true.

Lemma sm_reach_valid a b : tc sm_step a b → sm_valid a = true ∧ sm_valid b = true.
Proof.
  induction 1 as [a b Hab|a b c Hab _ [_ IH]].
  - by apply sm_can_valid.
  - apply sm_can_valid in Hab. naive_solver.
Qed.

(** The second of two identical claims is refused, whatever happened to
    the first one's source status. *)
Lemma sm_claim_once a b : sm_can a b = true → sm_can b b = false.
Proof. intros _. apply sm_can_irrefl. Qed.
End machine.

(** The interface at the two types the plan manager swaps. *)
Lemma Status_can_irrefl s : Status_CanTransitionTo s s = false.
Proof. exact (sm_can_irrefl s). Qed.

Lemma StoryStatus_can_irrefl s : StoryStatus_CanTransitionTo s s = false.
Proof. exact (sm_can_irrefl s). Qed.

(** ** Properties of the plan status machine *)

Definition plan_step (s t : Status) : Prop := Status_CanTransitionTo s t = true.

#[export] Instance plan_step_dec s t : Decision (plan_step s t).
Proof. unfold plan_step. apply _. Defined.

(** The statuses a plan can be in once execution has begun, short of being
    sent back. *)
Definition post_execution (s : Status) : bool :=
  match s with
  | StatusImplementing | StatusReadyForQA | StatusReviewingQA | StatusReviewingRollup
  | StatusAwaitingReview | StatusComplete | StatusArchived => true
  | _ => false
  end.

Lemma post_execution_entry s t :
  plan_step s t → post_execution s = false → post_execution t = true → t = StatusImplementing.
Proof. unfold plan_step. destruct s; simpl; solve_can. Qed.

(** The next hop towards [complete], and how far it is. *)
Definition toward_complete (s : Status) : Status :=
  match s with
  | StatusCreated => StatusDrafted
  | StatusExploring => StatusExplored
  | StatusExplored => StatusDrafted
  | StatusDrafting => StatusDrafted
  | StatusDrafted => StatusReviewed
  | StatusReviewingDraft => StatusReviewed
  | StatusReviewed => StatusApproved
  | StatusApproved => StatusReadyForExecution
  | StatusChanged => StatusGeneratingRequirements
  | StatusGeneratingRequirements => StatusRequirementsGenerated
  | StatusRequirementsGenerated => StatusArchitectureGenerated
  | StatusReviewingRequirements => StatusRequirementsReviewed
  | StatusRequirementsReviewed => StatusArchitectureGenerated
  | StatusGeneratingArchitecture => StatusArchitectureGenerated
  | StatusArchitectureGenerated => StatusPreparingStories
  | StatusReviewingArchitecture => StatusArchitectureReviewed
  | StatusArchitectureReviewed => StatusPreparingStories
  | StatusPreparingStories => StatusStoriesGenerated
  | StatusStoriesGenerated => StatusGeneratingScenarios
  | StatusGeneratingScenarios => StatusScenariosGenerated
  | StatusScenariosGenerated => StatusReadyForExecution
  | StatusReviewingScenarios => StatusReadyForExecution
  | StatusScenariosReviewed => StatusReadyForExecution
  | StatusReadyForExecution => StatusImplementing
  | StatusImplementing => StatusComplete
  | StatusReviewingRollup => StatusComplete
  | StatusReadyForQA => StatusReviewingQA
  | StatusReviewingQA => StatusComplete
  | StatusAwaitingReview => StatusComplete
  | StatusArchived => StatusComplete
  | StatusRejected => StatusImplementing
  | StatusComplete => StatusComplete
  | StatusOther r => StatusOther r
  end.

(** Eleven hops are enough from any status. *)
Lemma toward_complete_reaches s :
  Status_IsValid s = true → Nat.iter 11 toward_complete s = StatusComplete.
Proof. by destruct s. Qed.

Lemma toward_complete_step s :
  Status_IsValid s = true → s = StatusComplete ∨ plan_step s (toward_complete s).
Proof. destruct s; intros Hv; try discriminate Hv; first [left; reflexivity | right; reflexivity]. Qed.

Lemma toward_complete_valid s :
  Status_IsValid s = true → Status_IsValid (toward_complete s) = true.
Proof. by destruct s. Qed.

Lemma toward_complete_rtc n s :
  Status_IsValid s = true → rtc plan_step s (Nat.iter n toward_complete s).
Proof.
  intros Hv. induction n as [|n IH]; [done|]. rewrite Nat.iter_succ.
  assert (Status_IsValid (Nat.iter n toward_complete s) = true).
  { clear IH. induction n as [|n IH]; [done|]. rewrite Nat.iter_succ.
    by apply toward_complete_valid. }
  destruct (toward_complete_step (Nat.iter n toward_complete s)) as [Heq|Hs]; [done| |].
  - rewrite Heq in IH |- *. exact IH.
  - by eapply rtc_r.
Qed.

(** The wire form loses nothing: every byte string is some status, and the
    status prints back to it. *)
Lemma Status_String_of_string raw : Status_String (Status_of_string raw) = raw.
Proof.
  unfold Status_of_string.
  repeat (match goal with |- context [if ?b then _ else _] =>
    let H := fresh in destruct b eqn:H;
    [apply (proj1 (eqb_true _ _)) in H; subst; reflexivity | clear H] end).
  reflexivity.
Qed.

Lemma Status_of_String s : Status_IsValid s = true → Status_of_string (Status_String s) = s.
Proof. by destruct s. Qed.

(** ** Claims *)

(** No plan reaches [complete] or any other post-execution status (QA,
    roll-up review, awaiting review, archived) from a pre-execution or
    rejected status along transitions of the status machine that never enter
    [implementing]. *)
Theorem plan_done_only_through_implementing s t :
  post_execution s = false →
  rtc (λ a b, plan_step a b ∧ b ≠ StatusImplementing) s t →
  post_execution t = false.
Proof.
  intros Hs. apply (rtc_closed _ (λ s, post_execution s = false)); [|done].
  intros a b Ha [Hab Hb]. destruct (post_execution b) eqn:Hpb; [|done].
  by destruct Hb; apply (post_execution_entry a).
Qed.

Lemma plan_done_only_through_implementing_witness :
  post_execution StatusReviewed = false.
Proof.
  apply (plan_done_only_through_implementing StatusCreated).
  - reflexivity.
  - apply rtc_l with StatusDrafted; [split; [reflexivity | done]|].
    apply rtc_l with StatusReviewed; [split; [reflexivity | done]|]. apply rtc_refl.
Defined.

(** The plan status machine has no dead end: from every declared status
    [complete] is reachable, and an undeclared status has no transition in
    or out. *)
Theorem plan_status_no_dead_end s :
  (Status_IsValid s = true → rtc plan_step s StatusComplete) ∧
  (Status_IsValid s = false → ∀ t, ¬ plan_step s t ∧ ¬ plan_step t s).
Proof.
  split.
  - intros Hv. rewrite <- (toward_complete_reaches s Hv). by apply toward_complete_rtc.
  - intros Hv t. split; intros H;
      apply Status_can_valid in H as [H1 H2]; congruence.
Qed.

Lemma plan_status_no_dead_end_witness : rtc plan_step StatusRejected StatusComplete.
Proof. apply (plan_status_no_dead_end StatusRejected). reflexivity. Defined.

(** [generating_scenarios] can only be entered from [stories_generated],
    so a plan sent back from [reviewing_scenarios] regenerates its scenarios
    only after passing through [preparing_stories] and [stories_generated]
    again: no path that avoids [stories_generated] gets there. *)
Theorem generating_scenarios_needs_stories s :
  s ≠ StatusGeneratingScenarios → s ≠ StatusStoriesGenerated →
  ¬ rtc (λ a b, plan_step a b ∧ b ≠ StatusStoriesGenerated) s StatusGeneratingScenarios.
Proof.
  intros H1 H2 H.
  cut (StatusGeneratingScenarios ≠ StatusGeneratingScenarios ∧
       StatusGeneratingScenarios ≠ StatusStoriesGenerated); [naive_solver|].
  revert H. apply (rtc_closed _ (λ s, s ≠ StatusGeneratingScenarios ∧ s ≠ StatusStoriesGenerated));
    [|done].
  clear. intros a b [Ha Ha'] [Hab Hb]. split; [|done]. intros ->.
  unfold plan_step in Hab. destruct a; simpl in Hab; solve_can.
Qed.

Lemma generating_scenarios_needs_stories_witness :
  ¬ rtc (λ a b, plan_step a b ∧ b ≠ StatusStoriesGenerated)
      StatusReviewingScenarios StatusGeneratingScenarios.
Proof. apply (generating_scenarios_needs_stories StatusReviewingScenarios); discriminate. Defined.

(** Reading a plan status off the wire and printing it again is the
    identity on every byte string, and printing then reading is the identity
    on every declared status. *)
Theorem Status_wire_roundtrip :
  (∀ raw, Status_String (Status_of_string raw) = raw) ∧
  (∀ s, Status_IsValid s = true → Status_of_string (Status_String s) = s).
Proof. split; [exact Status_String_of_string | exact Status_of_String]. Qed.

Lemma Status_wire_roundtrip_witness :
  Status_of_string (Status_String StatusReadyForQA) = StatusReadyForQA.
Proof. apply Status_wire_roundtrip. reflexivity. Defined.
