(* ===== verification/Paths.v ===== *)
(** * Workspace paths and slugs

    The byte-string functions of Go's [strings] and [path] packages the plan
    code uses, and on top of them [NormalizeFilePath(s)]
    (workflow/plan_requirement.go), the companion-test expansion
    (workflow/file_scope.go), [IsDocumentationPath]
    (workflow/plan_capability.go), [IsConcreteScopedFile]
    (workflow/file_ownership.go) and [ValidateSlug] (workflow/plan.go). *)

From Stdlib Require Import Ascii.
From Stdlib Require String.
From S2P Require Import Prelude.

Local Open Scope string_scope.
Local Open Scope go_scope.
Local Arguments String.append !_ _ /.

(** ** Byte strings *)

Definition byte (n : nat) : ascii := ascii_of_nat n.

Fixpoint mem_ascii (c : ascii) (s : string) : bool :=
  match s with
  | "" => false
  | String d r => (c =? d) || mem_ascii c r
  end.

Definition rev_string (s : string) : string :=
  String.string_of_list_ascii (reverse (String.list_ascii_of_string s)).

(** [strings.HasPrefix], [strings.HasSuffix], [strings.TrimPrefix],
    [strings.TrimSuffix]. *)
Fixpoint cut_prefix (p s : string) : option string :=
  match p, s with
  | "", _ => Some s
  | String c p', String d s' => if c =? d then cut_prefix p' s' else None
  | String _ _, "" => None
  end.

Definition HasPrefix (s p : string) : bool := bool_decide (is_Some (cut_prefix p s)).
Definition TrimPrefix (s p : string) : string := default s (cut_prefix p s).
Definition HasSuffix (s p : string) : bool := HasPrefix (rev_string s) (rev_string p).
Definition TrimSuffix (s p : string) : string :=
  match cut_prefix (rev_string p) (rev_string s) with
  | Some r => rev_string r
  | None => s
  end.

(** [strings.Contains] *)
Fixpoint Contains (s sub : string) : bool :=
  HasPrefix s sub || match s with "" => false | String _ r => Contains r sub end.

(** [strings.ContainsAny] for a set of ASCII bytes. *)
Fixpoint ContainsAny (s chars : string) : bool :=
  match s with "" => false | String c r => mem_ascii c chars || ContainsAny r chars end.

(** [strings.ReplaceAll(s, old, new)] for one-byte [old] and [new]. *)
Fixpoint replace_byte (old new : ascii) (s : string) : string :=
  match s with
  | "" => ""
  | String c r => String (if c =? old then new else c) (replace_byte old new r)
  end.

(** [strings.Split] on a one-byte separator and [strings.Join]. *)
Fixpoint split_on (sep : ascii) (s : string) : list string :=
  match s with
  | "" => [""]
  | String c r =>
      if c =? sep then "" :: split_on sep r
      else match split_on sep r with
           | [] => [String c ""]
           | w :: ws => String c w :: ws
           end
  end.

Fixpoint Join (l : list string) (sep : string) : string :=
  match l with
  | [] => ""
  | [w] => w
  | w :: ws => w ++ sep ++ Join ws sep
  end.

(** ** [strings.TrimSpace]

    The white space of [unicode.IsSpace], one ASCII byte or the two- and
    three-byte UTF-8 encodings.  A trailing rune is recognised by its
    encoding read backwards. *)

Definition space1 (a : ascii) : bool :=
  let n := nat_of_ascii a in bool_decide (9 ≤ n ≤ 13)%nat || (n =? 32).

(** U+0085, U+00A0 *)
Definition space2 (a b : ascii) : bool :=
  (nat_of_ascii a =? 0xC2) && ((nat_of_ascii b =? 0x85) || (nat_of_ascii b =? 0xA0)).

(** U+1680, U+2000-U+200A, U+2028, U+2029, U+202F, U+205F, U+3000 *)
Definition space3 (a b c : ascii) : bool :=
  let x := nat_of_ascii a in let y := nat_of_ascii b in let z := nat_of_ascii c in
  ((x =? 0xE1) && (y =? 0x9A) && (z =? 0x80)) ||
  ((x =? 0xE2) && (y =? 0x80) &&
    (bool_decide (0x80 ≤ z ≤ 0x8A)%nat || (z =? 0xA8) || (z =? 0xA9) || (z =? 0xAF))) ||
  ((x =? 0xE2) && (y =? 0x81) && (z =? 0x9F)) ||
  ((x =? 0xE3) && (y =? 0x80) && (z =? 0x80)).

Fixpoint trim_left (s : string) : string :=
  match s with
  | "" => ""
  | String a s1 =>
      if space1 a then trim_left s1 else
      match s1 with
      | "" => s
      | String b s2 =>
          if space2 a b then trim_left s2 else
          match s2 with
          | "" => s
          | String c s3 => if space3 a b c then trim_left s3 else s
          end
      end
  end.

Fixpoint trim_left_rev (s : string) : string :=
  match s with
  | "" => ""
  | String a s1 =>
      if space1 a then trim_left_rev s1 else
      match s1 with
      | "" => s
      | String b s2 =>
          if space2 b a then trim_left_rev s2 else
          match s2 with
          | "" => s
          | String c s3 => if space3 c b a then trim_left_rev s3 else s
          end
      end
  end.

Definition trim_right (s : string) : string := rev_string (trim_left_rev (rev_string s)).

Definition TrimSpace (s : string) : string := trim_right (trim_left s).

(** ** Package [path] *)

(** One element of the input of [path.Clean], on the stack of elements
    already written (most recent first). *)
Definition clean_step (rooted : bool) (out : list string) (elem : string) : list string :=
  if (elem =? "") || (elem =? ".") then out
  else if elem =? ".." then
    match out with
    | top :: out' => if top =? ".." then ".." :: out else out'
    | [] => if rooted then [] else [".."]
    end
  else elem :: out.

Definition clean_elems (rooted : bool) (elems : list string) : list string :=
  reverse (foldl (clean_step rooted) [] elems).

(** [path.Clean] *)
Definition Clean (p : string) : string :=
  if p =? "" then "." else
  let rooted := HasPrefix p "/" in
  let out := clean_elems rooted (split_on "/" p) in
  if rooted then "/" ++ Join out "/" else if is_nil out then "." else Join out "/".

(** Drop trailing slashes, then keep what follows the last one. *)
Fixpoint drop_slashes (s : string) : string :=
  match s with String "/" r => drop_slashes r | _ => s end.

Fixpoint until_slash (s : string) : string :=
  match s with
  | "" => ""
  | String c r => if c =? "/"%char then "" else String c (until_slash r)
  end.

(** [path.Base] *)
Definition Base (p : string) : string :=
  if p =? "" then "." else
  let r := rev_string (until_slash (drop_slashes (rev_string p))) in
  if r =? "" then "/" else r.

(** [path.Dir]: [Clean] of everything up to and including the last slash. *)
Fixpoint from_slash (s : string) : string :=
  match s with
  | "" => ""
  | String c r => if c =? "/"%char then s else from_slash r
  end.

Definition Dir (p : string) : string := Clean (rev_string (from_slash (rev_string p))).

(** [path.Ext]: the suffix from the last dot of the last element. *)
Fixpoint ext_rev (acc s : string) : string :=
  match s with
  | "" => ""
  | String c r =>
      if c =? "/"%char then ""
      else if c =? "."%char then String c acc
      else ext_rev (String c acc) r
  end.

Definition Ext (p : string) : string := ext_rev "" (rev_string p).

(** ** [NormalizeFilePath], [NormalizeFilePaths] *)

Definition NormalizeFilePath (p : string) : string :=
  let p := TrimSpace p in
  if p =? "" then "" else
  let p := replace_byte "\" "/" p in
  let p := Clean p in
  let p := TrimPrefix p "./" in
  if (p =? ".") || (p =? "..") || HasPrefix p "../" then "" else p.

Definition NormalizeFilePaths (paths : list string) : list string :=
  filter (λ np, np ≠ "") (NormalizeFilePath <$> paths).

(** ** Companion tests (workflow/file_scope.go) *)

Definition CompanionTestPaths (sourcePath : string) : list string :=
  let p := NormalizeFilePath sourcePath in
  if p =? "" then [] else
  if HasPrefix p "src/main/java/" && HasSuffix p ".java" then
    let rel := TrimPrefix p "src/main/java/" in
    let base := TrimSuffix (Base rel) ".java" in
    if (base =? "") || HasSuffix base "Test" || HasSuffix base "Tests" then [] else
    let dir := Dir rel in
    let testRel := base ++ "Test.java" in
    let testRel := if dir !=? "." then dir ++ "/" ++ testRel else testRel in
    ("src/test/java/" ++ testRel) ::
    (if HasSuffix base "Descriptor"
     then ["src/main/resources/META-INF/services/org.sensorhub.api.module.IModuleProvider"]
     else [])
  else [].

(** The [add] closure: the accumulator is [out]; [seen] is its set of
    elements. *)
Definition expand_add (out : list string) (p : string) : list string :=
  let p := NormalizeFilePath p in
  if p =? "" then out
  else if bool_decide (p ∈ out) then out
  else (out ++ [p])%list.

Definition expand_one (out : list string) (p : string) : list string :=
  let np := NormalizeFilePath p in
  foldl expand_add (expand_add out np) (CompanionTestPaths np).

Definition ExpandFileScopeWithCompanionTests (paths : list string) : list string :=
  foldl expand_one [] paths.

(** ** Documentation and concrete files *)

(** [strings.ToLower], exact on ASCII results: the ASCII capitals, and the
    two non-ASCII runes that lower to ASCII (U+0130, U+212A).  Other
    non-ASCII bytes are left as they are; they cannot match the ASCII
    patterns below before or after lowering. *)
Definition lower_ascii (c : ascii) : ascii :=
  let n := nat_of_ascii c in
  if bool_decide (65 ≤ n ≤ 90)%nat then byte (n + 32) else c.

Fixpoint ToLower (s : string) : string :=
  match s with
  | "" => ""
  | String a s1 =>
      match s1 with
      | "" => String (lower_ascii a) ""
      | String b s2 =>
          if (a =? byte 0xC4) && (b =? byte 0xB0) then String "i" (ToLower s2) else
          match s2 with
          | "" => String (lower_ascii a) (ToLower s1)
          | String c s3 =>
              if (a =? byte 0xE2) && (b =? byte 0x84) && (c =? byte 0xAA)
              then String "k" (ToLower s3)
              else String (lower_ascii a) (ToLower s1)
          end
      end
  end.

Definition IsDocumentationPath (p : string) : bool :=
  let lower := ToLower p in
  existsb (HasSuffix lower) [".md"; ".txt"; ".rst"; ".adoc"] ||
  existsb (eqb (Base lower)) ["readme"; "license"; "contributing"; "changelog"].

Definition wellKnownExtensionlessDeliverables : gset string :=
  {[ "Dockerfile"; "Makefile"; "Jenkinsfile"; "Vagrantfile"; "Procfile" ]}.

Definition IsConcreteScopedFile (p : string) : bool :=
  if ContainsAny p "*?[" then false
  else if Ext p !=? "" then true
  else bool_decide (Base p ∈ wellKnownExtensionlessDeliverables).

(** ** Slugs (workflow/plan.go) *)

Inductive plan_error :=
| ErrSlugRequired
| ErrTitleRequired
| ErrPlanNotFound
| ErrPlanExists
| ErrInvalidSlug
| ErrAlreadyApproved
| ErrInvalidTransition.

Definition slug_alnum (c : ascii) : bool :=
  let n := nat_of_ascii c in bool_decide (97 ≤ n ≤ 122)%nat || bool_decide (48 ≤ n ≤ 57)%nat.

Definition slug_inner (c : ascii) : bool := slug_alnum c || (c =? "-"%char).

(** [\[a-z0-9-\]{0,fuel}\[a-z0-9\]$] *)
Fixpoint slug_tail (fuel : nat) (s : string) {struct s} : bool :=
  match s with
  | "" => false
  | String c "" => slug_alnum c
  | String c r =>
      match fuel with
      | O => false
      | S fuel => slug_inner c && slug_tail fuel r
      end
  end.

(** [^\[a-z0-9\](\[a-z0-9-\]{0,48}\[a-z0-9\])?$] *)
Definition slugPattern (s : string) : bool :=
  match s with
  | "" => false
  | String c r => slug_alnum c && ((r =? "") || slug_tail 48 r)
  end.

Definition ValidateSlug (slug : string) : option plan_error :=
  if slug =? "" then Some ErrSlugRequired
  else if Contains slug ".." || Contains slug "/" || Contains slug "\" then Some ErrInvalidSlug
  else if negb (slugPattern slug) then Some ErrInvalidSlug
  else None.

Definition QAWorktreeID (slug : string) : string := "qa-" ++ slug.

(** ** Sanity checks *)

Example normalize_ex1 : NormalizeFilePath " ./src\\a/../b.go " = "src/b.go".
Proof. vm_compute. reflexivity. Qed.
Example normalize_ex2 : NormalizeFilePath "a/../../etc" = "".
Proof. vm_compute. reflexivity. Qed.
Example companion_ex :
  CompanionTestPaths "src/main/java/io/Foo.java" = ["src/test/java/io/FooTest.java"].
Proof. vm_compute. reflexivity. Qed.
Example doc_ex : IsDocumentationPath "docs/LICENSE" = true ∧ IsDocumentationPath "a.go" = false.
Proof. split; vm_compute; reflexivity. Qed.
Example concrete_ex : IsConcreteScopedFile "ops/Makefile" = true ∧ IsConcreteScopedFile "src" = false.
Proof. split; vm_compute; reflexivity. Qed.

(** ** Lemmas on byte strings *)

Lemma mem_ascii_app c s t : mem_ascii c (s ++ t) = mem_ascii c s || mem_ascii c t.
Proof. induction s as [|d s IH]; simpl; [done|]. by rewrite IH, orb_assoc. Qed.

Lemma string_app_nil_r s : s ++ "" = s.
Proof. induction s as [|c s IH]; simpl; [done|]. by rewrite IH. Qed.

Lemma string_app_assoc s t u : (s ++ t) ++ u = s ++ t ++ u.
Proof. induction s as [|c s IH]; simpl; [done|]. by rewrite IH. Qed.

Lemma cut_prefix_spec p s r : cut_prefix p s = Some r ↔ s = p ++ r.
Proof.
  revert s. induction p as [|c p IH]; intros s; simpl.
  { split; [by intros [= ->] | by intros ->]. }
  destruct s as [|d s]; [done|].
  destruct (c =? d) eqn:E; breflect.
  - subst. rewrite IH. split; [by intros -> | by intros [= ->]].
  - split; [done | by intros [= ->]].
Qed.

Lemma HasPrefix_spec s p : HasPrefix s p = true ↔ ∃ r, s = p ++ r.
Proof.
  unfold HasPrefix. rewrite bool_decide_eq_true. unfold is_Some.
  by setoid_rewrite cut_prefix_spec.
Qed.

Lemma TrimPrefix_none s p : HasPrefix s p = false → TrimPrefix s p = s.
Proof.
  unfold HasPrefix, TrimPrefix. intros H%bool_decide_eq_false.
  by destruct (cut_prefix p s); [destruct H|].
Qed.

Lemma replace_byte_mem old new s : old ≠ new → mem_ascii old (replace_byte old new s) = false.
Proof.
  intros Hne. induction s as [|c s IH]; simpl; [done|]. rewrite IH, orb_false_r.
  apply eqb_false. case_eq (c =? old); intros H; breflect; congruence.
Qed.

Lemma replace_byte_id old new s : mem_ascii old s = false → replace_byte old new s = s.
Proof.
  induction s as [|c s IH]; simpl; [done|]. rewrite orb_false_iff. intros [H1 H2].
  rewrite IH by done. destruct (c =? old) eqn:E; breflect; congruence.
Qed.

Lemma split_on_ne sep s : split_on sep s ≠ [].
Proof. destruct s; simpl; [done|]. case_match; [done|]. by case_match. Qed.

Lemma split_on_nosep sep s w : w ∈ split_on sep s → mem_ascii sep w = false.
Proof.
  revert w. induction s as [|c s IH]; simpl; intros w.
  - intros ->%list_elem_of_singleton. done.
  - destruct (c =? sep) eqn:E.
    + intros [->|H]%elem_of_cons; [done | by apply IH].
    + apply eqb_false in E. destruct (split_on sep s) as [|v vs].
      * intros ->%list_elem_of_singleton. simpl. rewrite orb_false_r. by apply eqb_false.
      * intros [->|H]%elem_of_cons; [|apply IH; set_solver].
        simpl. rewrite (IH v) by set_solver. rewrite orb_false_r. by apply eqb_false.
Qed.

(** Splitting invents no byte. *)
Lemma split_on_mem sep c s w :
  w ∈ split_on sep s → mem_ascii c s = false → mem_ascii c w = false.
Proof.
  revert w. induction s as [|d s IH]; simpl; intros w.
  - by intros ->%list_elem_of_singleton.
  - rewrite orb_false_iff. intros Hw [H1 H2]. destruct (d =? sep) eqn:E.
    + apply elem_of_cons in Hw as [->|Hw]; [done | by apply IH].
    + destruct (split_on sep s) as [|v vs].
      * apply list_elem_of_singleton in Hw as ->. simpl. by rewrite H1.
      * apply elem_of_cons in Hw as [->|Hw]; [|apply IH; set_solver].
        simpl. rewrite H1. apply IH; set_solver.
Qed.

Lemma split_on_single sep w : mem_ascii sep w = false → split_on sep w = [w].
Proof.
  induction w as [|c w IH]; simpl; [done|]. rewrite orb_false_iff. intros [H1 H2].
  rewrite IH by done. destruct (c =? sep) eqn:E; breflect; congruence.
Qed.

Lemma split_on_cons sep w r :
  mem_ascii sep w = false → split_on sep (w ++ String sep r) = w :: split_on sep r.
Proof.
  induction w as [|c w IH]; simpl.
  - intros _. by rewrite eqb_refl.
  - rewrite orb_false_iff. intros [H1 H2]. rewrite IH by done.
    destruct (c =? sep) eqn:E; breflect; congruence.
Qed.

Lemma Join_cons w ws sep : ws ≠ [] → Join (w :: ws) sep = w ++ sep ++ Join ws sep.
Proof. by destruct ws. Qed.

(** Split inverts join. *)
Lemma split_on_Join sep l :
  l ≠ [] → Forall (λ w, mem_ascii sep w = false) l →
  split_on sep (Join l (String sep "")) = l.
Proof.
  intros Hne Hl. induction Hl as [|w l Hw Hl IH]; [done|].
  destruct (decide (l = [])) as [->|Hl'].
  - by apply split_on_single.
  - rewrite Join_cons by done. simpl. rewrite split_on_cons by done. by rewrite IH.
Qed.

(** ** The normal form of [path.Clean] *)

(** A plain path element: no separator, not empty, not a dot or dot-dot. *)
Definition plain_elem (w : string) : Prop :=
  w ≠ "" ∧ w ≠ "." ∧ w ≠ ".." ∧ mem_ascii "/" w = false.

Definition clean_stack (rooted : bool) (out : list string) : Prop :=
  ∃ ws n, out = (ws ++ replicate n "..")%list ∧ Forall plain_elem ws ∧ (rooted = true → n = 0).

Lemma clean_step_stack rooted out e :
  mem_ascii "/" e = false → clean_stack rooted out → clean_stack rooted (clean_step rooted out e).
Proof.
  intros He (ws & n & -> & Hws & Hn). unfold clean_step.
  destruct ((e =? "") || (e =? ".")) eqn:E1; [by exists ws, n|].
  breflect. destruct (e =? "..") eqn:E2; breflect.
  - subst e. destruct ws as [|w ws]; simpl.
    + destruct n as [|n]; simpl.
      * destruct rooted; [by exists [], 0 | exists [], 1; naive_solver].
      * exists [], (S (S n)). split_and!; [done..|]. intros H. by specialize (Hn H).
    + apply Forall_cons in Hws as [Hw Hws]. destruct (w =? "..") eqn:E3; breflect.
      { destruct Hw as (_ & _ & ? & _). congruence. }
      by exists ws, n.
  - exists (e :: ws), n. split_and!; [done | | done]. constructor; [|done].
    by unfold plain_elem; naive_solver.
Qed.

Lemma foldl_clean_stack rooted es out :
  Forall (λ e, mem_ascii "/" e = false) es → clean_stack rooted out →
  clean_stack rooted (foldl (clean_step rooted) out es).
Proof.
  intros Hes. revert out. induction Hes as [|e es He Hes IH]; intros out Hout; simpl; [done|].
  by apply IH, clean_step_stack.
Qed.

(** [path.Clean] leaves only leading dot-dots, and none on a rooted path. *)
Lemma clean_elems_shape rooted s :
  ∃ n ws, clean_elems rooted (split_on "/" s) = (replicate n ".." ++ ws)%list ∧
    Forall plain_elem ws ∧ (rooted = true → n = 0).
Proof.
  destruct (foldl_clean_stack rooted (split_on "/" s) []) as (ws & n & E & Hws & Hn).
  - apply Forall_forall. intros w. apply split_on_nosep.
  - by exists [], 0.
  - exists n, (reverse ws). unfold clean_elems. rewrite E, reverse_app, reverse_replicate.
    split_and!; [done | | done]. by apply Forall_reverse.
Qed.

(** Elements already plain pass through unchanged. *)
Lemma foldl_clean_plain rooted ws out :
  Forall plain_elem ws → foldl (clean_step rooted) out ws = (reverse ws ++ out)%list.
Proof.
  intros Hws. revert out. induction Hws as [|w ws Hw Hws IH]; intros out; simpl; [done|].
  rewrite IH, reverse_cons, <- app_assoc. simpl. f_equal.
  destruct Hw as (H1 & H2 & H3 & _). unfold clean_step.
  rewrite !(proj2 (eqb_false _ _)) by done. done.
Qed.

Lemma clean_elems_plain rooted ws : Forall plain_elem ws → clean_elems rooted ws = ws.
Proof.
  intros H. unfold clean_elems. rewrite foldl_clean_plain by done.
  by rewrite app_nil_r, reverse_involutive.
Qed.

(** ** Canonical workspace paths *)

(** A canonical path: plain elements without backslashes joined by single
    slashes, relative and not empty, or below the root. *)
Definition canonical_elem (w : string) : Prop := plain_elem w ∧ mem_ascii "\" w = false.

Definition canonical (q : string) : Prop :=
  ∃ ws, Forall canonical_elem ws ∧
    ((ws ≠ [] ∧ q = Join ws "/") ∨ q = "/" ++ Join ws "/").

Lemma Forall_plain_nosep ws : Forall plain_elem ws → Forall (λ w, mem_ascii "/" w = false) ws.
Proof. intros H. eapply Forall_impl; [done|]. by intros w (_ & _ & _ & ?). Qed.

Lemma Forall_canonical_plain ws : Forall canonical_elem ws → Forall plain_elem ws.
Proof. intros H. eapply Forall_impl; [done|]. by intros w [? _]. Qed.

(** What a joined path starts with is its first element. *)
Lemma Join_prefix_elem w ws e :
  Forall (λ w, mem_ascii "/" w = false) (w :: ws) → mem_ascii "/" e = false →
  HasPrefix (Join (w :: ws) "/") (e ++ "/") = true → w = e ∧ ws ≠ [].
Proof.
  intros Hw He [r Hr]%HasPrefix_spec.
  assert (Hs := split_on_Join "/" (w :: ws) ltac:(done) Hw).
  rewrite Hr, string_app_assoc in Hs. simpl in Hs. rewrite split_on_cons in Hs by done.
  injection Hs as -> <-. split; [done|]. apply split_on_ne.
Qed.

Lemma Join_rooted w ws :
  Forall plain_elem (w :: ws) → HasPrefix (Join (w :: ws) "/") "/" = false.
Proof.
  intros H. apply not_true_iff_false. intros Hp.
  destruct (Join_prefix_elem w ws "" (Forall_plain_nosep _ H) eq_refl Hp) as [-> _].
  apply Forall_cons in H as [(? & _) _]. done.
Qed.

Lemma Join_eq_elem w ws e :
  Forall (λ w, mem_ascii "/" w = false) (w :: ws) → mem_ascii "/" e = false →
  Join (w :: ws) "/" = e → w = e.
Proof.
  intros Hw He Heq. assert (Hs := split_on_Join "/" (w :: ws) ltac:(done) Hw).
  rewrite Heq, split_on_single in Hs by done. by injection Hs.
Qed.

Lemma not_prefix_false s p : (HasPrefix s p = true → False) → HasPrefix s p = false.
Proof. destruct (HasPrefix s p); naive_solver. Qed.

(** [path.Clean] keeps elements of its input, or writes dot-dots. *)
Lemma foldl_clean_subset rooted es out x :
  x ∈ foldl (clean_step rooted) out es → x ∈ out ∨ x ∈ es ∨ x = "..".
Proof.
  revert out. induction es as [|e es IH]; intros out; simpl; [by left|].
  intros [Hx|[Hx| ->]]%IH; [|set_solver..]. revert Hx. unfold clean_step.
  repeat case_match; set_solver.
Qed.

Lemma clean_elems_subset rooted es x : x ∈ clean_elems rooted es → x ∈ es ∨ x = "..".
Proof.
  unfold clean_elems. rewrite elem_of_reverse. intros H%foldl_clean_subset. set_solver.
Qed.

(** What [path.Clean] returns on a path without backslashes. *)
Inductive clean_result : string → Prop :=
| clean_dot : clean_result "."
| clean_up ws : Forall plain_elem ws → clean_result (Join (".." :: ws) "/")
| clean_ups n ws : Forall plain_elem ws →
    clean_result (Join (".." :: (replicate (S n) ".." ++ ws)%list) "/")
| clean_rel w ws : Forall canonical_elem (w :: ws) → clean_result (Join (w :: ws) "/")
| clean_abs ws : Forall canonical_elem ws → clean_result ("/" ++ Join ws "/").

Lemma Clean_result q : mem_ascii "\" q = false → clean_result (Clean q).
Proof.
  intros Hb. unfold Clean. destruct (q =? "") eqn:Hq; [constructor|].
  destruct (clean_elems_shape (HasPrefix q "/") q) as (n & ws & E & Hws & Hn).
  assert (Hcs : Forall canonical_elem ws).
  { rewrite Forall_forall in Hws |- *. intros w Hw. split; [by apply Hws|].
    destruct (clean_elems_subset (HasPrefix q "/") (split_on "/" q) w) as [H| ->]; [|..|done].
    - rewrite E. set_solver.
    - by eapply split_on_mem. }
  rewrite E. destruct (HasPrefix q "/").
  - rewrite Hn by done. by constructor.
  - destruct n as [|[|n]]; simpl.
    + destruct ws as [|w ws]; [constructor | by apply clean_rel].
    + by apply clean_up.
    + by apply (clean_ups n).
Qed.

(** The checks of [NormalizeFilePath] after [path.Clean]. *)
Definition normalize_guard (p : string) : string :=
  let p := TrimPrefix p "./" in
  if (p =? ".") || (p =? "..") || HasPrefix p "../" then "" else p.

Lemma TrimPrefix_dot w ws :
  Forall (λ w, mem_ascii "/" w = false) (w :: ws) → w ≠ "." →
  TrimPrefix (Join (w :: ws) "/") "./" = Join (w :: ws) "/".
Proof.
  intros Hws Hw. apply TrimPrefix_none, not_prefix_false. intros H.
  by destruct (Join_prefix_elem w ws "." Hws eq_refl H).
Qed.

Lemma normalize_guard_up ws :
  Forall (λ w, mem_ascii "/" w = false) ws → normalize_guard (Join (".." :: ws) "/") = "".
Proof.
  intros Hws. unfold normalize_guard. rewrite TrimPrefix_dot by (try constructor; done).
  destruct ws as [|w ws]; [done|]. rewrite Join_cons by done.
  rewrite (proj2 (HasPrefix_spec _ "../")); [by rewrite orb_true_r|]. by eexists.
Qed.

Lemma normalize_guard_rel w ws :
  Forall plain_elem (w :: ws) → normalize_guard (Join (w :: ws) "/") = Join (w :: ws) "/".
Proof.
  intros Hp. assert (Hws := Forall_plain_nosep _ Hp).
  apply Forall_cons in Hp as [(H1 & H2 & H3 & _) _].
  unfold normalize_guard. rewrite TrimPrefix_dot by done.
  rewrite !(proj2 (eqb_false _ _)), (not_prefix_false _ "../"); [done|..].
  - intros H. by destruct (Join_prefix_elem w ws ".." Hws eq_refl H).
  - intros H. by apply H3, (Join_eq_elem w ws "..").
  - intros H. by apply H2, (Join_eq_elem w ws ".").
Qed.

Lemma normalize_guard_abs s : normalize_guard ("/" ++ s) = "/" ++ s.
Proof. reflexivity. Qed.

Lemma NormalizeFilePath_eq p :
  NormalizeFilePath p =
    if TrimSpace p =? "" then "" else normalize_guard (Clean (replace_byte "\" "/" (TrimSpace p))).
Proof. reflexivity. Qed.

Lemma plain_canonical_nosep ws :
  Forall canonical_elem ws → Forall (λ w, mem_ascii "/" w = false) ws.
Proof. intros. by apply Forall_plain_nosep, Forall_canonical_plain. Qed.

Lemma NormalizeFilePath_canonical p : NormalizeFilePath p = "" ∨ canonical (NormalizeFilePath p).
Proof.
  rewrite NormalizeFilePath_eq. case_match; [by left|].
  destruct (Clean_result (replace_byte "\" "/" (TrimSpace p))) as [|ws Hws|n ws Hws|w ws Hws|ws Hws].
  - by apply replace_byte_mem.
  - by left.
  - left. by apply normalize_guard_up, Forall_plain_nosep.
  - left. apply normalize_guard_up. apply Forall_app. split; [|by apply Forall_plain_nosep].
    by apply Forall_replicate.
  - right. rewrite normalize_guard_rel by (by apply Forall_canonical_plain).
    exists (w :: ws). naive_solver.
  - right. rewrite normalize_guard_abs. exists ws. naive_solver.
Qed.

Lemma Join_ne w ws : plain_elem w → Join (w :: ws) "/" ≠ "".
Proof. intros (H & _). destruct w; [done|]. by destruct ws. Qed.

Lemma Join_mem c ws :
  mem_ascii c "/" = false → Forall (λ w, mem_ascii c w = false) ws →
  mem_ascii c (Join ws "/") = false.
Proof.
  intros Hc. induction 1 as [|w ws Hw Hws IH]; [done|]. destruct ws; [done|].
  rewrite Join_cons by done. by rewrite !mem_ascii_app, Hw, Hc, IH.
Qed.

Lemma Clean_rel w ws : Forall plain_elem (w :: ws) → Clean (Join (w :: ws) "/") = Join (w :: ws) "/".
Proof.
  intros H. unfold Clean. rewrite Join_rooted by done.
  rewrite (proj2 (eqb_false _ _)) by (apply Join_ne; by apply Forall_cons in H as [? _]).
  rewrite split_on_Join by (try apply Forall_plain_nosep; done).
  by rewrite clean_elems_plain.
Qed.

Lemma Clean_abs ws : Forall plain_elem ws → Clean ("/" ++ Join ws "/") = "/" ++ Join ws "/".
Proof.
  intros H. unfold Clean. simpl. unfold HasPrefix. simpl.
  destruct ws as [|w ws]; [done|].
  rewrite split_on_Join by (try apply Forall_plain_nosep; done).
  change (clean_elems true ("" :: w :: ws)) with (clean_elems true (w :: ws)).
  by rewrite clean_elems_plain.
Qed.

(** A canonical path is a fixed point as soon as no white space is trimmed. *)
Lemma NormalizeFilePath_fixed q :
  canonical q → TrimSpace q = q → NormalizeFilePath q = q.
Proof.
  intros (ws & Hws & Hq) Ht. rewrite NormalizeFilePath_eq, Ht.
  assert (Hb : mem_ascii "\" (Join ws "/") = false).
  { apply Join_mem; [done|]. eapply Forall_impl; [done|]. by intros w [_ ?]. }
  assert (Hp := Forall_canonical_plain _ Hws).
  destruct Hq as [[Hne ->]| ->].
  - destruct ws as [|w ws]; [done|]. rewrite replace_byte_id by done.
    rewrite (proj2 (eqb_false _ _)) by (apply Join_ne; by apply Forall_cons in Hp as [? _]).
    by rewrite Clean_rel, normalize_guard_rel.
  - rewrite replace_byte_id by done. by rewrite Clean_abs, normalize_guard_abs.
Qed.

(** ** Companion-test expansion *)

Lemma elem_of_expand_add x out p :
  x ∈ expand_add out p ↔ x ∈ out ∨ (x = NormalizeFilePath p ∧ x ≠ "").
Proof.
  unfold expand_add. case_match; breflect; [naive_solver|].
  case_bool_decide; set_solver.
Qed.

Lemma expand_add_NoDup out p : NoDup out → NoDup (expand_add out p).
Proof.
  intros. unfold expand_add. case_match; [done|]. case_bool_decide; [done|].
  apply NoDup_app. split_and!; [done| |apply NoDup_singleton]. set_solver.
Qed.

Lemma expand_adds x out ps :
  x ∈ foldl expand_add out ps ↔
  x ∈ out ∨ ∃ p, p ∈ ps ∧ x = NormalizeFilePath p ∧ x ≠ "".
Proof.
  revert out. induction ps as [|p ps IH]; intros out; simpl; [set_solver|].
  rewrite IH, elem_of_expand_add. set_solver.
Qed.

Lemma expand_adds_NoDup out ps : NoDup out → NoDup (foldl expand_add out ps).
Proof.
  revert out. induction ps as [|p ps IH]; intros out Hout; simpl; [done|].
  by apply IH, expand_add_NoDup.
Qed.

(** What one scope entry contributes: its normalized self and its
    companions. *)
Definition expansion (p x : string) : Prop :=
  x ≠ "" ∧ (x = NormalizeFilePath (NormalizeFilePath p) ∨
            ∃ c, c ∈ CompanionTestPaths (NormalizeFilePath p) ∧ x = NormalizeFilePath c).

Lemma elem_of_ExpandFileScope x paths :
  x ∈ ExpandFileScopeWithCompanionTests paths ↔ ∃ p, p ∈ paths ∧ expansion p x.
Proof.
  unfold ExpandFileScopeWithCompanionTests.
  cut (∀ out, x ∈ foldl expand_one out paths ↔ x ∈ out ∨ ∃ p, p ∈ paths ∧ expansion p x).
  { intros H. rewrite H. set_solver. }
  induction paths as [|p ps IH]; intros out; simpl; [set_solver|].
  rewrite IH. unfold expand_one, expansion. rewrite expand_adds, elem_of_expand_add. set_solver.
Qed.

Lemma NoDup_ExpandFileScope paths : NoDup (ExpandFileScopeWithCompanionTests paths).
Proof.
  unfold ExpandFileScopeWithCompanionTests.
  cut (∀ out, NoDup out → NoDup (foldl expand_one out paths)); [intros H; apply H, NoDup_nil_2|].
  induction paths as [|p ps IH]; intros out Hout; simpl; [done|].
  by apply IH, expand_adds_NoDup, expand_add_NoDup.
Qed.

(** ** Slugs *)

(** The published contract of a slug: 1 to 50 bytes of [a-z0-9-], starting
    and ending with a letter or digit. *)
Definition slug_ok (slug : string) : Prop :=
  ∃ cs : list ascii,
    slug = String.string_of_list_ascii cs ∧ (1 ≤ length cs ≤ 50)%nat ∧
    Forall (λ c, slug_inner c = true) cs ∧
    (∃ c, head cs = Some c ∧ slug_alnum c = true) ∧
    (∃ c, last cs = Some c ∧ slug_alnum c = true).

Lemma slug_alnum_inner c : slug_alnum c = true → slug_inner c = true.
Proof. unfold slug_inner. by intros ->. Qed.

Lemma slug_tail_spec n cs :
  slug_tail n (String.string_of_list_ascii cs) = true ↔
  (length cs ≤ S n)%nat ∧ Forall (λ c, slug_inner c = true) cs ∧
  ∃ c, last cs = Some c ∧ slug_alnum c = true.
Proof.
  revert n. induction cs as [|c cs IH]; intros n.
  { simpl. split; [done|]. by intros (_ & _ & c & ? & _). }
  destruct cs as [|d cs].
  { simpl. split.
    - intros H. split_and!; [lia | by repeat constructor; apply slug_alnum_inner | eauto].
    - by intros (_ & _ & c' & [= ->] & ?). }
  destruct n as [|n].
  { simpl. split; [done|]. intros (? & _). lia. }
  change (slug_tail (S n) (String.string_of_list_ascii (c :: d :: cs)))
    with (slug_inner c && slug_tail n (String.string_of_list_ascii (d :: cs))).
  rewrite andb_true_iff, IH, !Forall_cons. change (last (c :: d :: cs)) with (last (d :: cs)).
  simpl length. split.
  - intros (? & ? & [? ?] & ?). split_and!; try done; lia.
  - intros (? & (? & ? & ?) & ?). split_and!; try done; lia.
Qed.

Lemma slugPattern_spec slug : slugPattern slug = true ↔ slug_ok slug.
Proof.
  rewrite <- (String.string_of_list_ascii_of_string slug).
  generalize (String.list_ascii_of_string slug). clear slug. intros cs. unfold slug_ok.
  trans ((1 ≤ length cs ≤ 50)%nat ∧ Forall (λ c, slug_inner c = true) cs ∧
    (∃ c, head cs = Some c ∧ slug_alnum c = true) ∧ (∃ c, last cs = Some c ∧ slug_alnum c = true)).
  2: { split; [by exists cs|]. intros (cs' & E & H).
       apply (f_equal String.list_ascii_of_string) in E.
       rewrite !String.list_ascii_of_string_of_list_ascii in E. by subst. }
  destruct cs as [|c [|d cs]]; simpl.
  - split; [done|]. intros (? & _). lia.
  - rewrite andb_true_iff, Forall_singleton. split.
    + intros [H _]. split_and!; eauto using slug_alnum_inner; lia.
    + by intros (_ & _ & (? & [= ->] & ?) & _).
  - change (match String.string_of_list_ascii cs with
            | "" => slug_alnum d
            | String _ _ => slug_inner d && slug_tail 47 (String.string_of_list_ascii cs)
            end) with (slug_tail 48 (String.string_of_list_ascii (d :: cs))).
    rewrite andb_true_iff, slug_tail_spec.
    rewrite !Forall_cons. simpl. split.
    + intros (Hc & ? & [] & ?). split_and!; eauto using slug_alnum_inner; lia.
    + intros (? & (? & ? & ?) & (? & [= ->] & ?) & ?). split_and!; try done; lia.
Qed.

(** A substring's bytes are bytes of the string. *)
Lemma Contains_mem s sub c : Contains s sub = true → mem_ascii c sub = true → mem_ascii c s = true.
Proof.
  intros H Hc. induction s as [|d s IH]; simpl in H; rewrite orb_true_iff in H;
    destruct H as [H|H]; try done.
  - apply HasPrefix_spec in H as [r ->]. by rewrite mem_ascii_app, Hc.
  - apply HasPrefix_spec in H as [r ->]. by rewrite mem_ascii_app, Hc.
  - simpl. rewrite IH by done. by rewrite orb_true_r.
Qed.

Lemma mem_ascii_list c cs :
  mem_ascii c (String.string_of_list_ascii cs) = true ↔ c ∈ cs.
Proof.
  induction cs as [|d cs IH]; simpl; [set_solver|].
  rewrite orb_true_iff, IH, eqb_true. set_solver.
Qed.

Lemma slug_ok_no_byte slug c : slug_ok slug → slug_inner c = false → mem_ascii c slug = false.
Proof.
  intros (cs & -> & _ & Hcs & _) Hc. apply not_true_iff_false. rewrite mem_ascii_list.
  intros H. rewrite Forall_forall in Hcs. rewrite Hcs in Hc; done.
Qed.

Lemma slug_ok_not_Contains slug c sub :
  slug_ok slug → mem_ascii c sub = true → slug_inner c = false → Contains slug sub = false.
Proof.
  intros Hs Hc Hi. apply not_true_iff_false. intros H.
  apply (Contains_mem _ _ c) in H; [|done]. by rewrite (slug_ok_no_byte slug c) in H.
Qed.

Lemma ValidateSlug_None slug : ValidateSlug slug = None ↔ slug_ok slug.
Proof.
  rewrite <- slugPattern_spec. unfold ValidateSlug. destruct (slug =? "") eqn:E.
  { breflect. by subst. }
  destruct (slugPattern slug) eqn:Hp; simpl.
  - apply slugPattern_spec in Hp.
    rewrite (slug_ok_not_Contains slug "." ".."), (slug_ok_not_Contains slug "/" "/"),
      (slug_ok_not_Contains slug "\" "\") by done. done.
  - by case_match.
Qed.

(** ** Claims *)

(** [NormalizeFilePath] never lets a path escape the workspace through
    dot-dots: what it returns is empty, or a path whose elements are all
    non-empty, none of them [.] or [..], without backslashes, joined by
    single slashes (and possibly rooted). *)
Theorem NormalizeFilePath_never_escapes p :
  NormalizeFilePath p = "" ∨
  ∃ ws, Forall (λ w, w ≠ "" ∧ w ≠ "." ∧ w ≠ ".." ∧
                     mem_ascii "/" w = false ∧ mem_ascii "\" w = false) ws ∧
    ((ws ≠ [] ∧ NormalizeFilePath p = Join ws "/") ∨ NormalizeFilePath p = "/" ++ Join ws "/").
Proof.
  destruct (NormalizeFilePath_canonical p) as [?|(ws & Hws & H)]; [by left|right].
  exists ws. split; [|done]. eapply Forall_impl; [done|].
  intros w [(? & ? & ? & ?) ?]. done.
Qed.

(** [NormalizeFilePath] is idempotent on every input whose normal form
    has no white space left at its ends; the condition is needed, as the path
    [./ a] normalizes to a path with a leading space, and only a second pass
    gives [a]. *)
Theorem NormalizeFilePath_idempotent :
  (∀ p, TrimSpace (NormalizeFilePath p) = NormalizeFilePath p →
     NormalizeFilePath (NormalizeFilePath p) = NormalizeFilePath p) ∧
  NormalizeFilePath "./ a" = " a" ∧ NormalizeFilePath " a" = "a".
Proof.
  split; [|split; vm_compute; reflexivity]. intros p Ht.
  destruct (NormalizeFilePath_canonical p) as [E|Hc]; [by rewrite E|].
  by apply NormalizeFilePath_fixed.
Qed.

Lemma NormalizeFilePath_idempotent_witness :
  NormalizeFilePath (NormalizeFilePath "./src\x/../a.go") = NormalizeFilePath "./src\x/../a.go".
Proof. apply NormalizeFilePath_idempotent. vm_compute. reflexivity. Defined.

(** The expanded file scope holds exactly the normalized scope entries
    and their companion-test paths, each once and none of them empty. *)
Theorem ExpandFileScope_spec paths :
  NoDup (ExpandFileScopeWithCompanionTests paths) ∧
  ∀ x, x ∈ ExpandFileScopeWithCompanionTests paths ↔
    x ≠ "" ∧ ∃ p, p ∈ paths ∧
      (x = NormalizeFilePath (NormalizeFilePath p) ∨
       ∃ c, c ∈ CompanionTestPaths (NormalizeFilePath p) ∧ x = NormalizeFilePath c).
Proof.
  split; [apply NoDup_ExpandFileScope|]. intros x. rewrite elem_of_ExpandFileScope.
  unfold expansion. naive_solver.
Qed.

(** [ValidateSlug] accepts exactly the strings of 1 to 50 bytes from
    [a-z0-9-] that start and end with a letter or a digit; so an accepted
    slug has no slash, backslash or dot and is safe in a path or a bucket
    key. *)
Theorem ValidateSlug_accepts_exactly slug :
  (ValidateSlug slug = None ↔ slug_ok slug) ∧
  (ValidateSlug slug = None →
     mem_ascii "/" slug = false ∧ mem_ascii "\" slug = false ∧ mem_ascii "." slug = false).
Proof.
  split; [apply ValidateSlug_None|]. rewrite ValidateSlug_None. intros H.
  split_and!; by apply slug_ok_no_byte.
Qed.

Lemma ValidateSlug_accepts_exactly_witness :
  mem_ascii "/" "add-auth-2" = false.
Proof. apply (ValidateSlug_accepts_exactly "add-auth-2"). vm_compute. reflexivity. Defined.
