(* ===== verification/JsonScan.v ===== *)
(** * Valid JSON

    [json.Valid] of Go's standard library (encoding/json/scanner.go), which
    workflow/jsonutil asks whether a text is JSON: the state machine of the
    scanner with its stack of open objects and arrays, byte by byte.  The
    states are those of the library; an error is [None].

    A program that skips string literals by counting quotes and backslashes
    sees the same literals as the scanner, and a program that counts braces
    outside them sees the number of open objects. *)

From Stdlib Require Import Ascii.
From S2P Require Import Prelude Paths.

Local Open Scope string_scope.
Local Open Scope go_scope.

(** ** The scanner *)

Definition quote_char : ascii := byte 34.

Inductive frame := parseObjectKey | parseObjectValue | parseArrayValue.

Inductive scan_state :=
| stateBeginValueOrEmpty | stateBeginValue | stateBeginStringOrEmpty | stateBeginString
| stateEndValue | stateEndTop
| stateInString | stateInStringEsc | stateInStringEscU | stateInStringEscU1 | stateInStringEscU12 | stateInStringEscU123
| stateNeg | state1 | state0 | stateDot | stateDot0 | stateE | stateESign | stateE0
| stateT | stateTr | stateTru | stateF | stateFa | stateFal | stateFals | stateN | stateNu | stateNul.

#[export] Instance scan_state_eq_dec : EqDecision scan_state.
Proof. solve_decision. Defined.

(** The state and the open objects and arrays, the innermost first. *)
Definition scanner : Type := scan_state * list frame.

Definition isSpace (c : ascii) : bool := (c =? byte 32) || (c =? byte 9) || (c =? byte 13) || (c =? byte 10).
Definition is_digit (c : ascii) : bool := bool_decide (48 ≤ nat_of_ascii c ≤ 57)%nat.
Definition is_digit19 (c : ascii) : bool := bool_decide (49 ≤ nat_of_ascii c ≤ 57)%nat.
Definition is_hex (c : ascii) : bool :=
  is_digit c || bool_decide (97 ≤ nat_of_ascii c ≤ 102)%nat || bool_decide (65 ≤ nat_of_ascii c ≤ 70)%nat.
Definition is_escape (c : ascii) : bool := mem_ascii c "bfnrt\/" || (c =? quote_char).

Definition maxNestingDepth : Z := 10000.

Definition pushParseState (f : frame) (next : scan_state) (fs : list frame) : option scanner :=
  if bool_decide (Z.of_nat (length (f :: fs)) ≤ maxNestingDepth)%Z then Some (next, f :: fs) else None.

Definition popParseState (fs : list frame) : scanner :=
  match fs with [] => (stateEndTop, []) | _ => (stateEndValue, fs) end.

(** [stateEndValue] *)
Definition end_value (fs : list frame) (c : ascii) : option scanner :=
  match fs with
  | [] => if isSpace c then Some (stateEndTop, []) else None
  | f :: rest =>
      if isSpace c then Some (stateEndValue, fs) else
      match f with
      | parseObjectKey => if c =? ":"%char then Some (stateBeginValue, parseObjectValue :: rest) else None
      | parseObjectValue =>
          if c =? ","%char then Some (stateBeginString, parseObjectKey :: rest)
          else if c =? "}"%char then Some (popParseState rest) else None
      | parseArrayValue =>
          if c =? ","%char then Some (stateBeginValue, fs)
          else if c =? "]"%char then Some (popParseState rest) else None
      end
  end.

(** [stateBeginValue] *)
Definition begin_value (fs : list frame) (c : ascii) : option scanner :=
  if isSpace c then Some (stateBeginValue, fs)
  else if c =? "{"%char then pushParseState parseObjectKey stateBeginStringOrEmpty fs
  else if c =? "["%char then pushParseState parseArrayValue stateBeginValueOrEmpty fs
  else if c =? quote_char then Some (stateInString, fs)
  else if c =? "-"%char then Some (stateNeg, fs)
  else if c =? "0"%char then Some (state0, fs)
  else if c =? "t"%char then Some (stateT, fs)
  else if c =? "f"%char then Some (stateF, fs)
  else if c =? "n"%char then Some (stateN, fs)
  else if is_digit19 c then Some (state1, fs) else None.

Definition begin_string (fs : list frame) (c : ascii) : option scanner :=
  if isSpace c then Some (stateBeginString, fs) else if c =? quote_char then Some (stateInString, fs) else None.

(** The fraction and the exponent of a number. *)
Definition state_0 (fs : list frame) (c : ascii) : option scanner :=
  if c =? "."%char then Some (stateDot, fs)
  else if (c =? "e"%char) || (c =? "E"%char) then Some (stateE, fs) else end_value fs c.

Definition expect (d : ascii) (next : scan_state) (fs : list frame) (c : ascii) : option scanner :=
  if c =? d then Some (next, fs) else None.
Definition expect_by (ok : ascii → bool) (next : scan_state) (fs : list frame) (c : ascii) : option scanner :=
  if ok c then Some (next, fs) else None.

Definition scan_step (s : scanner) (c : ascii) : option scanner :=
  let fs := s.2 in
  match s.1 with
  | stateBeginValueOrEmpty =>
      if isSpace c then Some s else if c =? "]"%char then end_value fs c else begin_value fs c
  | stateBeginValue => begin_value fs c
  | stateBeginStringOrEmpty =>
      if isSpace c then Some s
      else if c =? "}"%char then end_value (match fs with [] => [] | _ :: rest => parseObjectValue :: rest end) c
      else begin_string fs c
  | stateBeginString => begin_string fs c
  | stateEndValue => end_value fs c
  | stateEndTop => if isSpace c then Some s else None
  | stateInString =>
      if c =? quote_char then Some (stateEndValue, fs)
      else if c =? "\"%char then Some (stateInStringEsc, fs)
      else if bool_decide (nat_of_ascii c < 32)%nat then None else Some s
  | stateInStringEsc => if c =? "u"%char then Some (stateInStringEscU, fs) else expect_by is_escape stateInString fs c
  | stateInStringEscU => expect_by is_hex stateInStringEscU1 fs c
  | stateInStringEscU1 => expect_by is_hex stateInStringEscU12 fs c
  | stateInStringEscU12 => expect_by is_hex stateInStringEscU123 fs c
  | stateInStringEscU123 => expect_by is_hex stateInString fs c
  | stateNeg => if c =? "0"%char then Some (state0, fs) else expect_by is_digit19 state1 fs c
  | state1 => if is_digit c then Some s else state_0 fs c
  | state0 => state_0 fs c
  | stateDot => expect_by is_digit stateDot0 fs c
  | stateDot0 =>
      if is_digit c then Some s
      else if (c =? "e"%char) || (c =? "E"%char) then Some (stateE, fs) else end_value fs c
  | stateE => if (c =? "+"%char) || (c =? "-"%char) then Some (stateESign, fs) else expect_by is_digit stateE0 fs c
  | stateESign => expect_by is_digit stateE0 fs c
  | stateE0 => if is_digit c then Some s else end_value fs c
  | stateT => expect "r"%char stateTr fs c
  | stateTr => expect "u"%char stateTru fs c
  | stateTru => expect "e"%char stateEndValue fs c
  | stateF => expect "a"%char stateFa fs c
  | stateFa => expect "l"%char stateFal fs c
  | stateFal => expect "s"%char stateFals fs c
  | stateFals => expect "e"%char stateEndValue fs c
  | stateN => expect "u"%char stateNu fs c
  | stateNu => expect "l"%char stateNul fs c
  | stateNul => expect "l"%char stateEndValue fs c
  end.

Fixpoint scan (st : scanner) (s : string) : option scanner :=
  match s with
  | "" => Some st
  | String c r => match scan_step st c with Some st' => scan st' r | None => None end
  end.

(** [scanner.eof]: at the end of the text a white space is read. *)
Definition scan_eof (st : scanner) : bool :=
  bool_decide (st.1 = stateEndTop) ||
  match scan_step st (byte 32) with Some st' => bool_decide (st'.1 = stateEndTop) | None => false end.

Definition scan_start : scanner := (stateBeginValue, []).

(** [json.Valid] *)
Definition json_valid (s : string) : bool :=
  match scan scan_start s with Some st => scan_eof st | None => false end.

(** ** String literals and braces *)

(** Whether the next byte is inside a literal, and whether it is escaped, for
    a program that looks at quotes and backslashes only. *)
Definition lexer : Type := bool * bool.

Definition lex (l : lexer) (c : ascii) : lexer :=
  if l.2 then (l.1, false)
  else if (c =? "\"%char) && l.1 then (l.1, true)
  else if c =? quote_char then (negb l.1, false) else (l.1, false).

Definition lexer_of (q : scan_state) : lexer :=
  match q with
  | stateInString | stateInStringEscU | stateInStringEscU1 | stateInStringEscU12 | stateInStringEscU123 => (true, false)
  | stateInStringEsc => (true, true)
  | _ => (false, false)
  end.

Definition is_object (f : frame) : bool := match f with parseArrayValue => false | _ => true end.

(** The number of open objects. *)
Definition braces (fs : list frame) : nat := length (filter (λ f, is_object f = true) fs).

Definition brace_step (l : lexer) (c : ascii) (d : nat) : nat :=
  if l.1 then d else if c =? "{"%char then S d else if c =? "}"%char then pred d else d.

(** Bytes that are neither quotes nor backslashes nor braces nor slashes. *)
Definition plain (c : ascii) : bool :=
  negb ((c =? "\"%char) || (c =? quote_char) || (c =? "{"%char) || (c =? "}"%char) || (c =? "/"%char) || (c =? ","%char)).

Lemma space_plain c : isSpace c = true → plain c = true.
Proof. destruct c as [[] [] [] [] [] [] [] []]; by vm_compute. Qed.
Lemma hex_plain c : is_hex c = true → plain c = true.
Proof. destruct c as [[] [] [] [] [] [] [] []]; by vm_compute. Qed.
Lemma digit_plain c : is_digit c = true → plain c = true.
Proof. intros Hd. apply hex_plain. unfold is_hex. by rewrite Hd. Qed.
Lemma digit19_plain c : is_digit19 c = true → plain c = true.
Proof. destruct c as [[] [] [] [] [] [] [] []]; by vm_compute. Qed.

(** A step agrees with the lexer: it moves the lexer and the brace count as
    they move by themselves, and outside literals there is no slash. *)
Definition agrees (l : lexer) (fs : list frame) (c : ascii) (r : option scanner) : Prop :=
  ∀ st, r = Some st → lexer_of st.1 = lex l c ∧ braces st.2 = brace_step l c (braces fs) ∧ (l.1 = false → c ≠ "/"%char).

Lemma agrees_none l fs c : agrees l fs c None.
Proof. by intros st. Qed.

Lemma agrees_if l fs c (b : bool) x y : (b = true → agrees l fs c x) → agrees l fs c y → agrees l fs c (if b then x else y).
Proof. destruct b; auto. Qed.

Lemma agrees_plain q q' fs c : lexer_of q = lexer_of q' → (lexer_of q).2 = false → plain c = true → agrees (lexer_of q) fs c (Some (q', fs)).
Proof.
  intros Hq He Hp st [= <-]. unfold plain in Hp. apply negb_true_iff in Hp. repeat rewrite orb_false_iff in Hp.
  destruct Hp as (((((H1 & H2) & H3) & H4) & H5) & _). unfold lex, brace_step. cbn [fst snd]. rewrite He, H1, H2, H3, H4, <- Hq.
  destruct (lexer_of q) as [i e]. cbn [fst snd] in *. subst e. split_and!; [done|by destruct i|]. intros _ ->. done.
Qed.
#[local] Hint Resolve agrees_none : core.

Lemma pop_lexer fs : lexer_of (popParseState fs).1 = (false, false).
Proof. by destruct fs. Qed.
Lemma pop_frames fs : (popParseState fs).2 = fs.
Proof. by destruct fs. Qed.

Lemma end_value_agrees fs c : agrees (false, false) fs c (end_value fs c).
Proof.
  destruct fs as [|f rest]; cbn [end_value].
  { apply agrees_if; [|done]. intros Hc%space_plain. by apply (agrees_plain stateEndValue stateEndTop). }
  apply agrees_if; [intros Hc%space_plain; by apply (agrees_plain stateEndValue stateEndValue)|].
  destruct f; repeat (apply agrees_if; [intros ->%eqb_true|]); try done; intros st [= <-]; rewrite ?pop_lexer, ?pop_frames; done.
Qed.

Lemma push_agrees f q fs c : (c = "{"%char ∧ is_object f = true ∨ c = "["%char ∧ is_object f = false) → lexer_of q = (false, false) →
  agrees (false, false) fs c (pushParseState f q fs).
Proof.
  intros Hc Hq. unfold pushParseState. case_bool_decide; [|done]. intros st [= <-]. cbn [fst snd]. rewrite Hq. unfold braces.
  rewrite filter_cons. destruct Hc as [[-> Hf]|[-> Hf]]; rewrite Hf; by split_and!.
Qed.

Lemma begin_value_agrees fs c : agrees (false, false) fs c (begin_value fs c).
Proof.
  unfold begin_value. apply agrees_if; [intros Hc%space_plain; by apply (agrees_plain stateBeginValue stateBeginValue)|].
  apply agrees_if; [intros ->%eqb_true; apply push_agrees; [by left|done]|].
  apply agrees_if; [intros ->%eqb_true; apply push_agrees; [by right|done]|].
  do 6 (apply agrees_if; [intros ->%eqb_true; by intros st [= <-]|]).
  apply agrees_if; [|done]. intros Hc%digit19_plain. by apply (agrees_plain stateBeginValue state1).
Qed.

Lemma begin_string_agrees fs c : agrees (false, false) fs c (begin_string fs c).
Proof.
  unfold begin_string. apply agrees_if; [intros Hc%space_plain; by apply (agrees_plain stateBeginString stateBeginString)|].
  apply agrees_if; [|done]. intros ->%eqb_true. by intros st [= <-].
Qed.

Lemma exponent_agrees (c : ascii) fs : (c =? "e"%char) || (c =? "E"%char) = true → agrees (false, false) fs c (Some (stateE, fs)).
Proof. intros [->%eqb_true| ->%eqb_true]%orb_true_iff; by intros st [= <-]. Qed.

Lemma state_0_agrees fs c : agrees (false, false) fs c (state_0 fs c).
Proof.
  unfold state_0. apply agrees_if; [intros ->%eqb_true; by intros st [= <-]|].
  apply agrees_if; [apply exponent_agrees|apply end_value_agrees].
Qed.

Lemma expect_agrees d q q' fs c : plain d = true → lexer_of q = (false, false) → lexer_of q' = (false, false) →
  agrees (lexer_of q) fs c (expect d q' fs c).
Proof. intros Hd Hq Hq'. apply agrees_if; [intros ->%eqb_true|done]. apply agrees_plain; by rewrite ?Hq, ?Hq'. Qed.

Lemma expect_by_agrees ok q q' fs c : (∀ c, ok c = true → plain c = true) → lexer_of q = lexer_of q' → (lexer_of q).2 = false →
  agrees (lexer_of q) fs c (expect_by ok q' fs c).
Proof. intros Hok Hq He. apply agrees_if; [|done]. intros Hc%Hok. by apply agrees_plain. Qed.

#[local] Hint Resolve end_value_agrees begin_value_agrees begin_string_agrees exponent_agrees state_0_agrees digit_plain digit19_plain hex_plain : core.

(** What the state says about the stack. *)
Definition scan_ok (st : scanner) : Prop :=
  match st.1 with
  | stateBeginStringOrEmpty => ∃ rest, st.2 = parseObjectKey :: rest
  | stateEndTop => st.2 = []
  | _ => True
  end.

Lemma scan_step_agrees st c : scan_ok st → agrees (lexer_of st.1) st.2 c (scan_step st c).
Proof.
  destruct st as [q fs]. intros Hok. destruct q; cbn [scan_step fst snd lexer_of]; auto;
    try (by apply (expect_agrees _ stateT)); try (by apply (expect_by_agrees _ stateNeg); auto); try (by apply (expect_by_agrees _ stateInString); auto).
  - apply agrees_if; [intros Hc%space_plain; by apply (agrees_plain stateBeginValueOrEmpty)|]. by apply agrees_if.
  - apply agrees_if; [intros Hc%space_plain; by apply (agrees_plain stateBeginStringOrEmpty)|]. apply agrees_if; [|done].
    intros ->%eqb_true. destruct Hok as [rest Hr]. cbn [snd] in Hr. subst fs. intros st [= <-]. by rewrite pop_lexer, pop_frames.
  - apply agrees_if; [|done]. intros Hc%space_plain. by apply (agrees_plain stateEndTop).
  - destruct (c =? quote_char) eqn:E1; [apply eqb_true in E1 as ->; by intros st [= <-]|].
    destruct (c =? "\"%char) eqn:E2; [apply eqb_true in E2 as ->; by intros st [= <-]|].
    case_bool_decide; [done|]. intros st [= <-]. unfold lex. cbn [fst snd lexer_of]. by rewrite E1, E2.
  - destruct (c =? "u"%char) eqn:E1; [apply eqb_true in E1 as ->; by intros st [= <-]|]. unfold expect_by.
    destruct (is_escape c); [|done]. by intros st [= <-].
  - apply agrees_if; [intros ->%eqb_true; by intros st [= <-]|]. apply (expect_by_agrees _ stateNeg); auto.
  - apply agrees_if; [|done]. intros Hc%digit_plain. by apply (agrees_plain state1).
  - apply agrees_if; [intros Hc%digit_plain; by apply (agrees_plain stateDot0)|]. apply agrees_if; auto.
  - apply agrees_if; [|apply (expect_by_agrees _ stateE); auto].
    intros [->%eqb_true| ->%eqb_true]%orb_true_iff; by intros st [= <-].
  - apply agrees_if; [|done]. intros Hc%digit_plain. by apply (agrees_plain stateE0).
Qed.

Lemma scan_step_ok st c st' : scan_ok st → scan_step st c = Some st' → scan_ok st'.
Proof.
  assert (∀ fs, scan_ok (popParseState fs)) as Hpop by (by intros []).
  assert (∀ fs s, end_value fs c = Some s → scan_ok s) as Hend.
  { intros fs s. unfold end_value. repeat case_match; intros; simplify_eq; done. }
  assert (∀ fs s, begin_value fs c = Some s → scan_ok s) as Hbeg.
  { intros fs s. unfold begin_value, pushParseState. repeat case_match; intros; simplify_eq; try done. by eexists. }
  assert (∀ fs s, begin_string fs c = Some s → scan_ok s) as Hstr.
  { intros fs s. unfold begin_string. repeat case_match; intros; simplify_eq; done. }
  assert (∀ fs s, state_0 fs c = Some s → scan_ok s) as H0.
  { intros fs s. unfold state_0. repeat case_match; intros; simplify_eq; eauto; done. }
  destruct st as [q fs]. intros Hok. destruct q; cbn [scan_step fst snd]; unfold expect, expect_by; try (repeat case_match; intros; simplify_eq; eauto; done).
Qed.
