(* ===== verification/JsonUtil.v ===== *)
(** * JSON in an agent's answer

    workflow/jsonutil/jsonutil.go: the object or array in a text that may
    wrap it in a code fence or in prose, without line comments and trailing
    commas, and which of these transformations were needed.

    The regular expressions match the leftmost and then the longest way; each
    is written as the recursive search it amounts to.  A counter of the
    metrics counts what [QuirksFired] lists. *)

From Stdlib Require Import Ascii.
From S2P Require Import Prelude Paths JsonScan.

Local Open Scope string_scope.
Local Open Scope go_scope.

Inductive QuirkID := QuirkFencedJSONWrapper | QuirkJSLineComments | QuirkTrailingCommas | QuirkGreedyObjectFallback.

#[export] Instance QuirkID_eq_dec : EqDecision QuirkID.
Proof. solve_decision. Defined.

Record ParseResult := MkParseResult { prJSON : string; prQuirksFired : list QuirkID }.

Definition newline : ascii := byte 10.

(** ** Searches *)

(** [\s] *)
Definition re_space (c : ascii) : bool :=
  (c =? byte 32) || (c =? byte 9) || (c =? byte 10) || (c =? byte 12) || (c =? byte 13).

Fixpoint skip_space (s : string) : string :=
  match s with
  | "" => ""
  | String c r => if re_space c then skip_space r else s
  end.

(** The text from the first [c] on. *)
Fixpoint from_first (c : ascii) (s : string) : option string :=
  match s with
  | "" => None
  | String d r => if d =? c then Some s else from_first c r
  end.

(** The text up to the last byte after which [follows] holds. *)
Fixpoint up_to_last (c : ascii) (follows : string → bool) (s : string) : option string :=
  match s with
  | "" => None
  | String d r =>
      match up_to_last c follows r with
      | Some t => Some (String d t)
      | None => if (d =? c) && follows r then Some (String d "") else None
      end
  end.

Definition fence : string := "```".

(** [jsonBlockPattern] and [jsonArrayBlockPattern] at the beginning of the
    text: a fence, the word json or not, and the longest text between
    brackets that a fence follows. *)
Definition block_here (op cl : ascii) (s : string) : option string :=
  match cut_prefix fence s with
  | None => None
  | Some r =>
      match skip_space (TrimPrefix r "json") with
      | String c _ as body => if c =? op then up_to_last cl (λ r, HasPrefix (skip_space r) fence) body else None
      | "" => None
      end
  end.

Fixpoint find_block (op cl : ascii) (s : string) : option string :=
  match block_here op cl s with
  | Some b => Some b
  | None => match s with "" => None | String _ r => find_block op cl r end
  end.

(** [jsonObjectPattern] and [jsonArrayPattern] *)
Definition greedy (op cl : ascii) (s : string) : option string :=
  match from_first op s with None => None | Some t => up_to_last cl (λ _, true) t end.

(** [extractRawJSON]: the text, whether it was fenced, and whether there was
    prose around it. *)
Definition extract_raw (op cl : ascii) (content : string) : string * bool * bool :=
  match find_block op cl content with
  | Some m => (m, true, false)
  | None =>
      match greedy op cl content with
      | Some m => (m, false, bool_decide (String.length m < String.length (TrimSpace content))%nat)
      | None => ("", false, false)
      end
  end.

Definition extractRawJSON : string → string * bool * bool := extract_raw "{"%char "}"%char.

(** ** Comments and commas *)

(** [strings.TrimRight] for blanks and tabs. *)
Fixpoint trim_blanks (s : string) : string :=
  match s with
  | "" => ""
  | String c r =>
      let t := trim_blanks r in
      if (t =? "") && ((c =? byte 32) || (c =? byte 9)) then "" else String c t
  end.

(** What comes before a comment outside of string literals. *)
Fixpoint before_comment (l : lexer) (line : string) : option string :=
  match line with
  | "" => None
  | String c r =>
      if negb l.2 && negb l.1 && (c =? "/"%char) && HasPrefix r "/" then Some ""
      else String c <$> before_comment (lex l c) r
  end.

Definition stripLineComment (line : string) : string :=
  if negb (Contains line "//") then line else
  match before_comment (false, false) line with Some p => trim_blanks p | None => line end.

Definition closes (s : string) : bool :=
  match skip_space s with String c _ => (c =? "}"%char) || (c =? "]"%char) | "" => false end.

(** [trailingCommaPattern.ReplaceAllString(s, "$1")]; [dropping] while the
    space after a dropped comma is passed. *)
Fixpoint drop_commas (dropping : bool) (s : string) : string :=
  match s with
  | "" => ""
  | String c r =>
      if dropping && re_space c then drop_commas true r
      else if negb dropping && (c =? ","%char) && closes r then drop_commas true r
      else String c (drop_commas false r)
  end.

Definition strip_comments (raw : string) : string := Join (stripLineComment <$> split_on newline raw) (String newline "").

Definition cleanJSON (raw : string) : string * bool * bool :=
  let lines := split_on newline raw in
  let result := strip_comments raw in
  let fixed := drop_commas false result in
  (fixed, existsb (λ line, stripLineComment line !=? line) lines, fixed !=? result).

(** ** The first balanced object *)

Fixpoint balanced_object (depth : nat) (l : lexer) (s : string) : option string :=
  match s with
  | "" => None
  | String c r =>
      if negb l.2 && negb l.1 && (c =? "}"%char) && bool_decide (depth = 1%nat) then Some (String c "")
      else String c <$> balanced_object (brace_step l c depth) (lex l c) r
  end.

Definition trimToBalancedJSON (s : string) : string :=
  match from_first "{"%char s with
  | None => ""
  | Some t =>
      match balanced_object 0 (false, false) t with
      | Some candidate => if json_valid candidate then candidate else ""
      | None => ""
      end
  end.

(** ** Extraction *)

Definition fired (fenced fallback comments commas : bool) : list QuirkID :=
  ((if fenced then [QuirkFencedJSONWrapper] else []) ++ (if fallback then [QuirkGreedyObjectFallback] else []) ++
   (if comments then [QuirkJSLineComments] else []) ++ (if commas then [QuirkTrailingCommas] else []))%list.

Definition ParseStrict (content : string) : ParseResult :=
  let '(raw, fenced, fallback) := extractRawJSON content in
  if raw =? "" then MkParseResult "" [] else
  let '(cleaned, comments, commas) := cleanJSON raw in
  let quirks := fired fenced fallback comments commas in
  if json_valid cleaned then MkParseResult cleaned quirks else
  let trimmed := trimToBalancedJSON cleaned in
  MkParseResult (if trimmed !=? "" then trimmed else cleaned) quirks.

Definition ExtractJSON (content : string) : string := prJSON (ParseStrict content).

(** The result of the source is [prJSON]; the quirks are only counted. *)
Definition ExtractJSONArray (content : string) : ParseResult :=
  let '(raw, fenced, fallback) := extract_raw "["%char "]"%char content in
  if raw =? "" then MkParseResult "" [] else
  let '(cleaned, comments, commas) := cleanJSON raw in
  MkParseResult cleaned (fired fenced fallback comments commas).
