(* ===== verification/JsonFacts.v ===== *)
(** * What the extraction of JSON does

    The brace counter of [trimToBalancedJSON] finds exactly the object at the
    front of a text; the cleaning leaves valid JSON alone unless a string
    literal looks like a trailing comma; and [ParseStrict] returns an object
    that is alone, fenced or wrapped in prose. *)

From Stdlib Require Import Ascii.
From S2P Require Import Prelude Paths JsonScan JsonUtil.

Local Open Scope string_scope.
Local Open Scope go_scope.
Local Arguments String.append !_ _ /.

(** ** The stack of the scanner *)

Lemma scan_app st s t : scan st (s +:+ t) = match scan st s with Some st' => scan st' t | None => None end.
Proof. revert st. induction s as [|c s IH]; intros st; [done|]. cbn. destruct (scan_step st c); [apply IH|done]. Qed.

(** How a step changes the stack. *)
Inductive frames_step (c : ascii) (fs : list frame) : scanner → Prop :=
| frames_same q : frames_step c fs (q, fs)
| frames_push q f : frames_step c fs (q, f :: fs)
| frames_turn q f g rest : fs = f :: rest → is_object f = is_object g → frames_step c fs (q, g :: rest)
| frames_pop f rest : fs = f :: rest → c = (if is_object f then "}" else "]")%char → frames_step c fs (popParseState rest).

Lemma end_value_frames fs c st : end_value fs c = Some st → frames_step c fs st.
Proof.
  unfold end_value. destruct fs as [|f rest].
  { destruct (isSpace c); [|done]. intros [= <-]. constructor. }
  destruct (isSpace c); [intros [= <-]; constructor|].
  destruct f; intros Hs; repeat case_match; simplify_eq; try (by econstructor); (eapply frames_pop; [done|by apply eqb_true]).
Qed.

Lemma begin_value_frames fs c st : begin_value fs c = Some st → frames_step c fs st.
Proof. unfold begin_value, pushParseState. repeat case_match; intros; simplify_eq; constructor. Qed.

Lemma scan_step_frames st c st' : scan_ok st → scan_step st c = Some st' → frames_step c st.2 st'.
Proof.
  destruct st as [q fs]. intros Hok. destruct q; cbn [scan_step fst snd]; unfold expect, expect_by, begin_string, state_0;
    try (repeat case_match; intros; simplify_eq; eauto using end_value_frames, begin_value_frames, frames_same; done).
  destruct (isSpace c); [intros [= <-]; constructor|]. destruct (c =? "}"%char) eqn:Ec.
  - destruct Hok as [rest Hr]. cbn [snd] in Hr. subst fs. apply eqb_true in Ec as ->. cbn. intros [= <-]. by eapply frames_pop.
  - repeat case_match; intros; simplify_eq; constructor.
Qed.

(** The outermost bracket is that of an object. *)
Definition in_object (fs : list frame) : Prop := ∃ f, last fs = Some f ∧ is_object f = true.

Lemma in_object_braces fs : in_object fs → (1 ≤ braces fs)%nat.
Proof.
  intros (f & Hl & Hf). apply last_Some in Hl as [l ->]. unfold braces.
  rewrite filter_app, length_app, filter_cons_True by done. cbn. lia.
Qed.

Lemma in_object_cons f g fs : in_object (f :: g :: fs) ↔ in_object (g :: fs).
Proof. done. Qed.

(** A step leaves the outermost object open or closes it. *)
Lemma scan_step_in_object st c st' : scan_ok st → in_object st.2 → scan_step st c = Some st' →
  in_object st'.2 ∨ st' = (stateEndTop, []) ∧ c = "}"%char ∧ braces st.2 = 1%nat.
Proof.
  intros Hok Hin Hs. destruct (scan_step_frames _ _ _ Hok Hs) as [q|q f|q f g rest Hf Hfg|f rest Hf Hc]; cbn [snd].
  - by left.
  - left. destruct st.2; [by destruct Hin as (? & ? & ?)|done].
  - left. rewrite Hf in Hin. destruct rest; [|done]. destruct Hin as (x & [= <-] & Hx). exists g. by rewrite <- Hfg.
  - rewrite Hf in Hin. destruct rest as [|g rest]; [|by left]. right. destruct Hin as (x & [= <-] & Hx). rewrite Hx in Hc.
    rewrite Hf. unfold braces. by rewrite filter_cons_True.
Qed.

Lemma scan_eof_open st : scan_ok st → scan_eof st = true → st.2 = [].
Proof.
  intros Hok [Hq%bool_decide_eq_true|He]%orb_true_iff.
  { unfold scan_ok in Hok. by rewrite Hq in Hok. }
  destruct (scan_step st (byte 32)) as [st'|] eqn:Es; [|done]. apply bool_decide_eq_true in He.
  pose proof (scan_step_ok _ _ _ Hok Es) as Hok'. unfold scan_ok in Hok'. rewrite He in Hok'.
  destruct (scan_step_frames _ _ _ Hok Es) as [q|q f|q f g rest Hf Hfg|f rest Hf Hc]; [done..|]. by destruct f.
Qed.

(** After the value only white space is left. *)
Lemma scan_end_top s st : scan (stateEndTop, []) s = Some st → ∀ c, mem_ascii c s = true → isSpace c = true.
Proof.
  induction s as [|c s IH]; [done|]. cbn [scan scan_step fst]. destruct (isSpace c) eqn:Ec; [|done].
  intros Hs d [->%eqb_true|Hd]%orb_true_iff; [done|by apply IH].
Qed.

(** The brace counter stops where the scanner closes the outermost object. *)
Lemma balanced_finds st s st' post : scan_ok st → in_object st.2 → scan st s = Some st' → scan_eof st' = true →
  ∃ t sp, s = t +:+ sp ∧ (∀ c, mem_ascii c sp = true → isSpace c = true) ∧
    balanced_object (braces st.2) (lexer_of st.1) (s +:+ post) = Some t.
Proof.
  revert st. induction s as [|c s IH]; intros st Hok Hin Hs He.
  { injection Hs as <-. apply (scan_eof_open _ Hok) in He. rewrite He in Hin. by destruct Hin as (f & ? & ?). }
  cbn [scan] in Hs. destruct (scan_step st c) as [st1|] eqn:Es; [|done].
  destruct (scan_step_agrees st c Hok st1 Es) as (Hl & Hb & _). pose proof (scan_step_ok _ _ _ Hok Es) as Hok1.
  cbn [balanced_object String.append].
  destruct (scan_step_in_object _ _ _ Hok Hin Es) as [Hin1|(-> & -> & Hb1)].
  - destruct (IH st1 Hok1 Hin1 Hs He) as (t & sp & -> & Hsp & Hbal). exists (String c t), sp. split_and!; [done|done|].
    pose proof (in_object_braces _ Hin1) as Hge. rewrite Hb in Hge, Hbal. rewrite Hl in Hbal.
    destruct (negb (lexer_of st.1).2 && negb (lexer_of st.1).1 && (c =? "}"%char) && bool_decide (braces st.2 = 1%nat)) eqn:Eb.
    { apply andb_true_iff in Eb as [[[_ H1%negb_true_iff]%andb_true_iff ->%eqb_true]%andb_true_iff H2%bool_decide_eq_true].
      unfold brace_step in Hge. rewrite H1, H2 in Hge. vm_compute in Hge. lia. }
    by rewrite Hbal.
  - exists "}", s. split_and!; [done|by eapply scan_end_top|]. rewrite Hb1. unfold brace_step in Hb. rewrite Hb1 in Hb.
    destruct (lexer_of st.1) as [i e] eqn:El. cbn [fst snd] in *. destruct i; [done|].
    assert (e = false) as -> by (destruct st as [[] ?]; by inversion El). done.
Qed.

(** ** The first object *)

(** An object without white space around it. *)
Definition json_object (s : string) : Prop := json_valid s = true ∧ ∃ body, s = String "{" (body +:+ "}").

Lemma app_last u c t sp : u +:+ String c "" = t +:+ sp → sp = "" ∨ mem_ascii c sp = true.
Proof.
  revert u. induction t as [|a t IH]; intros u He.
  { right. cbn in He. subst sp. rewrite mem_ascii_app. cbn. by rewrite eqb_refl, orb_true_r. }
  destruct u as [|b u]; cbn in He; injection He as -> He; [|by eapply IH].
  destruct t; [|done]. by left.
Qed.

Lemma from_first_skip c pre r : mem_ascii c pre = false → from_first c (pre +:+ String c r) = Some (String c r).
Proof.
  induction pre as [|d pre IH]; intros Hm; cbn; [by rewrite eqb_refl|].
  apply orb_false_iff in Hm as [Hd Hm]. apply eqb_false in Hd. rewrite (proj2 (eqb_false d c)) by congruence. by apply IH.
Qed.

Lemma object_scan s : json_object s →
  ∃ r st, s = String "{" r ∧ scan (stateBeginStringOrEmpty, [parseObjectKey]) r = Some st ∧ scan_eof st = true.
Proof.
  intros [Hv (body & ->)]. exists (body +:+ "}"). unfold json_valid in Hv. cbn [scan] in Hv.
  change (scan_step scan_start "{") with (Some (stateBeginStringOrEmpty, [parseObjectKey])) in Hv.
  cbv beta iota in Hv. set (x := scan _ _) in *. destruct x as [st|]; [by exists st|done].
Qed.

(** C18: The brace counter finds a JSON object that starts at the first opening
    brace of the text: when no opening brace comes before it, and whatever
    comes after it, the object is returned unchanged, because the counter sees
    the same string literals and the same open objects as the JSON scanner.
    After an earlier brace nothing is promised: an earlier block that is
    not JSON makes the result empty ([earlier_brace_hides]). *)
Theorem first_object_found pre obj post : mem_ascii "{" pre = false → json_object obj →
  trimToBalancedJSON (pre +:+ obj +:+ post) = obj.
Proof.
  intros Hpre Hobj. destruct (object_scan obj Hobj) as (r & st & -> & Hs & He). destruct Hobj as [Hv (body & Hb)]. injection Hb as Hb.
  unfold trimToBalancedJSON. cbn [String.append]. rewrite from_first_skip by done.
  destruct (balanced_finds (stateBeginStringOrEmpty, [parseObjectKey]) r st post) as (t & sp & Hr & Hsp & Hbal); [by eexists|by eexists|done|done|].
  assert (sp = "") as ->.
  { rewrite Hb in Hr. destruct (app_last _ _ _ _ Hr) as [?|Hm]; [done|]. by apply Hsp in Hm. }
  rewrite string_app_nil_r in Hr. subst t.
  change (balanced_object 0 (false, false) (String "{" (r +:+ post))) with (String "{" <$> balanced_object 1 (false, false) (r +:+ post)).
  change (balanced_object 1 (false, false) (r +:+ post) = Some r) in Hbal. rewrite Hbal. cbn [fmap option_fmap option_map].
  by rewrite Hv.
Qed.

(** ** Cleaning *)

(** No string literal holds a comma that is followed by a closing bracket. *)
Fixpoint quiet_from (l : lexer) (s : string) : bool :=
  match s with
  | "" => true
  | String c r => negb (l.1 && (c =? ","%char) && closes r) && quiet_from (lex l c) r
  end.
Definition quiet_literals : string → bool := quiet_from (false, false).

Lemma no_comment st line st' : scan_ok st → scan st line = Some st' → before_comment (lexer_of st.1) line = None.
Proof.
  revert st. induction line as [|c line IH]; intros st Hok Hs; [done|]. cbn [scan] in Hs.
  destruct (scan_step st c) as [st1|] eqn:Es; [|done]. destruct (scan_step_agrees _ _ Hok _ Es) as (Hl & _ & Hsl).
  cbn [before_comment]. rewrite <- Hl, (IH st1 (scan_step_ok _ _ _ Hok Es) Hs).
  destruct (lexer_of st.1) as [[] []]; cbn [fst snd negb andb]; try done.
  by rewrite (proj2 (eqb_false c _)) by (by apply Hsl).
Qed.

Lemma newline_outside st st' : scan_ok st → scan_step st newline = Some st' →
  lexer_of st.1 = (false, false) ∧ lexer_of st'.1 = (false, false).
Proof.
  intros Hok Hs. assert (lexer_of st.1 = (false, false)) as He by (destruct st as [[] fs]; done).
  destruct (scan_step_agrees _ _ Hok _ Hs) as (Hl & _). by rewrite Hl, He.
Qed.

Lemma lines_scanned s st st' : scan_ok st → scan st s = Some st' →
  ∃ w ws, split_on newline s = w :: ws ∧ (∃ st1, scan st w = Some st1) ∧
    Forall (λ l, ∃ st2 st3, scan_ok st2 ∧ lexer_of st2.1 = (false, false) ∧ scan st2 l = Some st3) ws.
Proof.
  revert st. induction s as [|c s IH]; intros st Hok Hs.
  { exists "", []. split_and!; [done|by exists st|done]. }
  cbn [scan] in Hs. destruct (scan_step st c) as [st1|] eqn:Es; [|done]. pose proof (scan_step_ok _ _ _ Hok Es) as Hok1.
  destruct (IH st1 Hok1 Hs) as (w & ws & Hw & (st2 & Hst2) & Hws). cbn [split_on]. rewrite Hw.
  destruct (c =? newline) eqn:Ec.
  - apply eqb_true in Ec as ->. destruct (newline_outside _ _ Hok Es) as [_ Hl]. exists "", (w :: ws).
    split_and!; [done|by exists st|]. constructor; [by exists st1, st2|done].
  - exists (String c w), ws. split_and!; [done| |done]. exists st2. cbn [scan]. by rewrite Es.
Qed.

Lemma valid_lines st s st' l : scan_ok st → lexer_of st.1 = (false, false) → scan st s = Some st' →
  l ∈ split_on newline s → stripLineComment l = l.
Proof.
  intros Hok He Hs Hl. destruct (lines_scanned _ _ _ Hok Hs) as (w & ws & Hw & (st1 & Hst1) & Hws). rewrite Hw in Hl.
  assert (before_comment (false, false) l = None) as Hb.
  { apply elem_of_cons in Hl as [->|Hl]; [rewrite <- He; by eapply no_comment|].
    rewrite Forall_forall in Hws. destruct (Hws _ Hl) as (st2 & st3 & Hok2 & He2 & Hs2). rewrite <- He2. by eapply no_comment. }
  unfold stripLineComment. rewrite Hb. by destruct (negb _).
Qed.

Lemma Join_split_on sep s : Join (split_on sep s) (String sep "") = s.
Proof.
  induction s as [|c s IH]; [done|]. cbn [split_on]. destruct (c =? sep) eqn:Ec.
  - apply eqb_true in Ec as ->. rewrite Join_cons by apply split_on_ne. by rewrite IH.
  - destruct (split_on sep s) as [|w ws] eqn:Es; [by destruct (split_on_ne sep s)|].
    destruct ws as [|v ws]; cbn in *; by rewrite <- IH.
Qed.

Lemma strip_comments_valid st s st' : scan_ok st → lexer_of st.1 = (false, false) → scan st s = Some st' →
  strip_comments s = s ∧ existsb (λ line, stripLineComment line !=? line) (split_on newline s) = false.
Proof.
  intros Hok He Hs. assert (∀ l, l ∈ split_on newline s → stripLineComment l = l) as Hl by (intros l; by apply (valid_lines st s st')).
  split.
  - unfold strip_comments. rewrite (list_fmap_ext _ id); [by rewrite list_fmap_id, Join_split_on|].
    intros i l Hi. apply Hl. by eapply list_elem_of_lookup_2.
  - apply not_true_iff_false. intros (l & Hin & Hn)%existsb_exists. apply list_elem_of_In, Hl in Hin. rewrite Hin, eqb_refl in Hn. done.
Qed.

(** After a comma outside of a literal a bracket cannot close. *)
Lemma open_not_closed q fs r : q = stateBeginString ∨ q = stateBeginValue → closes r = true → scan (q, fs) r = None.
Proof.
  intros Hq. induction r as [|c r IH]; [done|]. unfold closes. cbn [skip_space]. destruct (re_space c) eqn:Ec.
  - intros Hc. cbn [scan]. destruct (isSpace c) eqn:Es.
    + assert (scan_step (q, fs) c = Some (q, fs)) as ->; [|by apply IH].
      destruct Hq as [-> | ->]; cbn [scan_step fst snd]; unfold begin_string, begin_value; by rewrite Es.
    + assert (c = byte 12) as ->; [|by destruct Hq as [-> | ->]].
      unfold re_space in Ec. unfold isSpace in Es. repeat rewrite orb_false_iff in Es. destruct Es as (((H1 & H2) & H3) & H4).
      rewrite H1, H2, H3, H4, !orb_false_r in Ec. by apply eqb_true.
  - intros [->%eqb_true| ->%eqb_true]%orb_true_iff; by destruct Hq as [-> | ->].
Qed.

Lemma comma_opens st st' : lexer_of st.1 = (false, false) → scan_step st ","%char = Some st' →
  st'.1 = stateBeginString ∨ st'.1 = stateBeginValue.
Proof.
  destruct st as [q fs]. assert (∀ s, end_value fs ","%char = Some s → s.1 = stateBeginString ∨ s.1 = stateBeginValue) as He.
  { intros s. destruct fs as [|[] rest]; cbn; try done; intros [= <-]; auto. }
  intros Hl. destruct q; try done; apply He.
Qed.

Lemma drop_quiet st s st' : scan_ok st → scan st s = Some st' → quiet_from (lexer_of st.1) s = true → drop_commas false s = s.
Proof.
  revert st. induction s as [|c s IH]; intros st Hok Hs Hq; [done|]. cbn [scan] in Hs.
  destruct (scan_step st c) as [st1|] eqn:Es; [|done]. destruct (scan_step_agrees _ _ Hok _ Es) as (Hl & _).
  cbn [quiet_from] in Hq. apply andb_true_iff in Hq as [Hc Hq]. rewrite <- Hl in Hq.
  cbn [drop_commas andb negb]. rewrite (IH st1 (scan_step_ok _ _ _ Hok Es) Hs Hq).
  destruct ((c =? ","%char) && closes s) eqn:Ec; [|done]. exfalso. apply andb_true_iff in Ec as [->%eqb_true Ec].
  destruct (lexer_of st.1) as [[] e] eqn:El; cbn [fst] in Hc; [by rewrite Ec in Hc|].
  assert (e = false) as -> by (destruct st as [[] ?]; by inversion El).
  destruct st1 as [q1 fs1]. rewrite (open_not_closed q1 fs1 s) in Hs; [done| |done]. by apply (comma_opens _ _ El) in Es.
Qed.

Lemma drop_shorter b s : (String.length (drop_commas b s) ≤ String.length s)%nat.
Proof.
  revert b. induction s as [|c s IH]; intros b; [done|]. cbn [drop_commas].
  pose proof (IH true). pose proof (IH false). repeat case_match; cbn; lia.
Qed.

Lemma drop_same_quiet l s : drop_commas false s = s → quiet_from l s = true.
Proof.
  revert l. induction s as [|c s IH]; intros l Hd; [done|]. cbn [drop_commas negb andb] in Hd. cbn [quiet_from].
  destruct ((c =? ","%char) && closes s) eqn:Ec.
  { apply (f_equal String.length) in Hd. pose proof (drop_shorter true s). cbn in Hd. lia. }
  injection Hd as Hd. rewrite (IH _ Hd), andb_true_r. apply negb_true_iff. rewrite <- andb_assoc, Ec. apply andb_false_r.
Qed.

Lemma cleaning_valid s : json_valid s = true →
  (quiet_literals s = true → cleanJSON s = (s, false, false)) ∧
  (quiet_literals s = false → ∃ t, cleanJSON s = (t, false, true) ∧ t ≠ s).
Proof.
  unfold json_valid. destruct (scan scan_start s) as [st|] eqn:Hs; [|done]. intros _.
  destruct (strip_comments_valid scan_start s st) as [Hc Hf]; [done..|]. unfold cleanJSON. cbv zeta. rewrite Hc, Hf. split.
  - intros Hq. rewrite (drop_quiet scan_start s st) by done. by rewrite eqb_refl.
  - intros Hq. exists (drop_commas false s).
    assert (drop_commas false s ≠ s) as Hn. { intros Hd. apply (drop_same_quiet (false, false)) in Hd. unfold quiet_literals in Hq. congruence. }
    split; [|done]. by rewrite (proj2 (eqb_false _ _) Hn).
Qed.

(** C19: Cleaning and valid JSON: no line of valid JSON loses anything as a
    comment, and the text is left alone exactly when no string literal holds
    a comma that is followed, after white space, by a closing bracket; where
    one does, the comma inside the literal is dropped and the contents of the
    answer change. *)
Theorem cleaning_valid_json s : json_valid s = true →
  (quiet_literals s = true → cleanJSON s = (s, false, false)) ∧
  (quiet_literals s = false → ∃ t, cleanJSON s = (t, false, true) ∧ t ≠ s).
Proof. apply cleaning_valid. Qed.

(** ** Extraction *)

Definition backtick : ascii := "`".

Lemma up_to_last_none c f s : mem_ascii c s = false → up_to_last c f s = None.
Proof.
  induction s as [|d s IH]; [done|]. cbn [mem_ascii up_to_last]. intros [Hd Hs]%orb_false_iff. rewrite (IH Hs).
  apply eqb_false in Hd. by rewrite (proj2 (eqb_false d c)) by congruence.
Qed.

Lemma up_to_last_at c f t r : f r = true → mem_ascii c r = false → up_to_last c f (t +:+ String c r) = Some (t +:+ String c "").
Proof.
  intros Hf Hr. induction t as [|d t IH]; cbn [String.append up_to_last]; [|by rewrite IH].
  by rewrite up_to_last_none, eqb_refl, Hf.
Qed.

Lemma no_block_here op cl c s : c ≠ backtick → block_here op cl (String c s) = None.
Proof.
  intros Hc. unfold block_here, fence. cbn [cut_prefix]. by rewrite (proj2 (eqb_false _ c)) by (by apply not_eq_sym).
Qed.

Lemma find_block_skip op cl pre t b : mem_ascii backtick pre = false → block_here op cl t = Some b → find_block op cl (pre +:+ t) = Some b.
Proof.
  intros Hm Hb. induction pre as [|c pre IH]; cbn [String.append]; [destruct t; cbn [find_block]; by rewrite Hb|].
  apply orb_false_iff in Hm as [Hc%eqb_false Hm]. cbn [find_block]. rewrite no_block_here by congruence. by apply IH.
Qed.

Lemma find_block_none op cl s : mem_ascii backtick s = false → find_block op cl s = None.
Proof.
  induction s as [|c s IH]; [done|]. cbn [mem_ascii find_block]. intros [Hc%eqb_false Hs]%orb_false_iff.
  rewrite no_block_here by congruence. by apply IH.
Qed.

Lemma parse_raw content obj fenced fallback : extractRawJSON content = (obj, fenced, fallback) → json_object obj → quiet_literals obj = true →
  ParseStrict content = MkParseResult obj (fired fenced fallback false false).
Proof.
  intros Hr [Hv (body & Hb)] Hq. unfold ParseStrict. rewrite Hr. rewrite (proj2 (eqb_false obj _)) by (by rewrite Hb).
  by rewrite (proj1 (cleaning_valid obj Hv) Hq), Hv.
Qed.

Lemma trim_left_shorter s : (String.length (trim_left s) ≤ String.length s)%nat ∧ (String.length (trim_left_rev s) ≤ String.length s)%nat.
Proof.
  induction s as [s IH] using (induction_ltof1 _ String.length). unfold ltof in IH.
  destruct s as [|a [|b [|c s]]]; cbn [trim_left trim_left_rev].
  - done.
  - destruct (space1 a); cbn; lia.
  - pose proof (IH (String b "")) as H1. pose proof (IH "") as H2. cbn [trim_left trim_left_rev String.length] in *.
    split; (destruct (space1 a); [lia|]); repeat case_match; cbn [String.length] in *; lia.
  - pose proof (IH (String b (String c s))) as H1. pose proof (IH (String c s)) as H2. pose proof (IH s) as H3. cbn [trim_left trim_left_rev String.length] in *.
    split; (destruct (space1 a); [lia|]); repeat case_match; cbn [String.length] in *; lia.
Qed.

Lemma rev_string_length s : String.length (rev_string s) = String.length s.
Proof.
  unfold rev_string. assert (∀ l, String.length (String.string_of_list_ascii l) = length l) as Hl by (induction l; cbn; congruence).
  rewrite Hl, length_reverse, <- Hl. by rewrite String.string_of_list_ascii_of_string.
Qed.

Lemma TrimSpace_shorter s : (String.length (TrimSpace s) ≤ String.length s)%nat.
Proof.
  unfold TrimSpace, trim_right. rewrite rev_string_length. etrans; [apply trim_left_shorter|]. rewrite rev_string_length. apply trim_left_shorter.
Qed.

(** C17: An object whose literals are quiet (cleaning would not touch them), with
    no backtick in the text before it and no closing brace in the text after
    it, is found as it stands, and what had to be done is reported: alone, when
    it holds no fenced block, it needs no transformation; in prose without an
    opening brace before it and without any backtick, it is taken from its
    surroundings; in a json code fence it is unwrapped.  Without these
    conditions literals are changed or snippets inside them are taken for the
    answer ([literal_changed], [literal_taken_for_answer]). *)
Theorem object_extracted pre obj post : json_object obj → quiet_literals obj = true →
  mem_ascii backtick pre = false → mem_ascii "}" post = false →
  (find_block "{" "}" obj = None → ParseStrict obj = MkParseResult obj []) ∧
  (mem_ascii "{" pre = false → mem_ascii backtick obj = false → mem_ascii backtick post = false →
   let content := pre +:+ obj +:+ post in
   ParseStrict content = MkParseResult obj
     (if bool_decide (String.length obj < String.length (TrimSpace content))%nat then [QuirkGreedyObjectFallback] else [])) ∧
  ParseStrict (pre +:+ "```json" +:+ String newline obj +:+ String newline "```" +:+ post) = MkParseResult obj [QuirkFencedJSONWrapper].
Proof.
  intros Hobj Hq Hpre Hpost. pose proof Hobj as [_ (body & Hb)]. split_and!.
  - intros Hn. rewrite (parse_raw obj obj false false); [done| |done|done]. unfold extractRawJSON, extract_raw. rewrite Hn.
    assert (greedy "{" "}" obj = Some obj) as ->.
    { rewrite Hb. unfold greedy. cbn [from_first]. by rewrite eqb_refl, (up_to_last_at "}" _ (String "{" body) ""). }
    by rewrite bool_decide_false by (pose proof (TrimSpace_shorter obj); lia).
  - intros Hp1 Ho1 Hp2 content. set (n := bool_decide _). rewrite (parse_raw content obj false n); [by destruct n| |done|done].
    unfold extractRawJSON, extract_raw. rewrite find_block_none by (unfold content; by rewrite !mem_ascii_app, Hpre, Ho1, Hp2).
    assert (greedy "{" "}" content = Some obj) as ->; [|done]. unfold greedy, content. rewrite Hb. cbn [String.append].
    rewrite from_first_skip by done. rewrite string_app_assoc. by rewrite (up_to_last_at "}" _ (String "{" body) post).
  - apply (parse_raw _ obj true false); [|done|done]. unfold extractRawJSON, extract_raw.
    rewrite (find_block_skip _ _ pre _ obj); [done|done|]. rewrite Hb. unfold block_here, fence. cbn [String.append cut_prefix]. rewrite !eqb_refl.
    unfold TrimPrefix. cbn [cut_prefix]. rewrite !eqb_refl. cbn [default from_option id skip_space]. change (re_space newline) with true.
    change (re_space "{") with false. cbn match. rewrite eqb_refl, string_app_assoc. cbn [String.append].
    apply (up_to_last_at "}" _ (String "{" body)); [done|]. cbn [mem_ascii]. by rewrite Hpost.
Qed.

(** ** Repetition *)

Lemma before_comment_prefix l line p : before_comment l line = Some p → ∃ t, line = p +:+ t.
Proof.
  revert l p. induction line as [|c line IH]; intros l p; cbn [before_comment]; [done|].
  destruct (negb l.2 && negb l.1 && (c =? "/"%char) && HasPrefix line "/"); [intros [= <-]; by eexists|].
  destruct (before_comment (lex l c) line) as [q|] eqn:Eq; [|done]. intros [= <-]. apply IH in Eq as [t ->]. by exists t.
Qed.

(** What comes before the first comment holds none. *)
Lemma before_comment_first l line q r : before_comment l line = Some (q +:+ r) → before_comment l q = None.
Proof.
  revert l q. induction line as [|c line IH]; intros l q; cbn [before_comment]; [done|].
  destruct (negb l.2 && negb l.1 && (c =? "/"%char)) eqn:Ec; cbn [andb].
  - destruct (HasPrefix line "/") eqn:Eh; [by destruct q|]. destruct (before_comment (lex l c) line) as [p|] eqn:Ep; [|done].
    destruct q as [|d q]; [done|]. cbn [String.append]. intros [= -> ->]. cbn [before_comment]. rewrite Ec. cbn [andb].
    destruct (before_comment_prefix _ _ _ Ep) as [t ->]. destruct (HasPrefix q "/") eqn:Eq.
    + apply HasPrefix_spec in Eq as [u ->]. apply not_true_iff_false in Eh. destruct Eh. apply HasPrefix_spec. by eexists.
    + by rewrite (IH _ q).
  - destruct (before_comment (lex l c) line) as [p|] eqn:Ep; [|done]. destruct q as [|d q]; [done|]. cbn [String.append]. intros [= -> ->].
    cbn [before_comment]. rewrite Ec. cbn [andb]. by rewrite (IH _ q).
Qed.

Lemma trim_blanks_prefix s : ∃ r, s = trim_blanks s +:+ r.
Proof.
  induction s as [|c s [r IH]]; [by exists ""|]. cbn [trim_blanks]. destruct ((trim_blanks s =? "") && _); [by exists (String c s)|].
  exists r. cbn [String.append]. by rewrite <- IH.
Qed.

(** Stripping comments twice is stripping them once. *)
Theorem stripLineComment_idempotent line : stripLineComment (stripLineComment line) = stripLineComment line.
Proof.
  assert (∀ s, before_comment (false, false) s = None → stripLineComment s = s) as Hn.
  { intros s Hs. unfold stripLineComment. rewrite Hs. by destruct (negb _). }
  unfold stripLineComment at 2 3. destruct (negb (Contains line "//")) eqn:Ec.
  { unfold stripLineComment. by rewrite Ec. }
  destruct (before_comment (false, false) line) as [p|] eqn:Ep; [|by apply Hn].
  apply Hn. destruct (trim_blanks_prefix p) as [r Hr]. rewrite Hr in Ep. by eapply before_comment_first.
Qed.

(** ** Examples *)

Definition in_quotes (s : string) : string := String quote_char (s +:+ String quote_char "").
Definition lf : string := String newline "".

Definition sample_object : string := "{" +:+ in_quotes "goal" +:+ ": " +:+ in_quotes "read // show" +:+ ", " +:+ in_quotes "n" +:+ ": [1, -2.5e3, null]}".

Example sample_object_valid : json_valid sample_object = true ∧ quiet_literals sample_object = true.
Proof. by vm_compute. Qed.

Example invalid_texts :
  json_valid <$> ["{}x"; "[1,]"; "{" +:+ in_quotes "a" +:+ ":}"; "01"; "nul"; in_quotes "\x"; "[[]"; ""] = replicate 8 false.
Proof. by vm_compute. Qed.

(** A fenced answer with comments and trailing commas. *)
Example fenced_with_comments :
  ParseStrict ("```json" +:+ lf +:+ "{" +:+ lf +:+ in_quotes "items" +:+ ": [" +:+ lf +:+ in_quotes "one" +:+ ",  // first" +:+ lf +:+
    in_quotes "http://two" +:+ ",  // second" +:+ lf +:+ "]" +:+ lf +:+ "}" +:+ lf +:+ "```") =
  MkParseResult ("{" +:+ lf +:+ in_quotes "items" +:+ ": [" +:+ lf +:+ in_quotes "one" +:+ "," +:+ lf +:+ in_quotes "http://two" +:+ "]" +:+ lf +:+ "}")
    [QuirkFencedJSONWrapper; QuirkJSLineComments; QuirkTrailingCommas].
Proof. by vm_compute. Qed.

(** A valid answer whose literal looks like a trailing comma is changed. *)
Example literal_changed :
  let s := "{" +:+ in_quotes "fix" +:+ ":" +:+ in_quotes "use [a, ]" +:+ "}" in
  json_valid s = true ∧ ParseStrict s = MkParseResult ("{" +:+ in_quotes "fix" +:+ ":" +:+ in_quotes "use [a]" +:+ "}") [QuirkTrailingCommas].
Proof. by vm_compute. Qed.

(** A valid answer whose literal holds a fenced snippet is replaced by the snippet. *)
Example literal_taken_for_answer :
  let s := "{" +:+ in_quotes "fix" +:+ ":" +:+ in_quotes "write ```{x}```" +:+ "}" in
  json_valid s = true ∧ ExtractJSON s = "{x}" ∧ json_valid "{x}" = false.
Proof. by vm_compute. Qed.

(** Braces before the object hide it. *)
Example earlier_brace_hides :
  let obj := "{" +:+ in_quotes "a" +:+ ":1}" in
  json_valid obj = true ∧ trimToBalancedJSON ("{x} " +:+ obj) = "".
Proof. by vm_compute. Qed.

(** Dropping commas twice is not dropping them once. *)
Example commas_not_idempotent :
  drop_commas false "[1,,]" = "[1,]" ∧ drop_commas false "[1,]" = "[1]".
Proof. by vm_compute. Qed.

Lemma sample_json_object : json_object sample_object.
Proof. split; [by vm_compute|]. exists (in_quotes "goal" +:+ ": " +:+ in_quotes "read // show" +:+ ", " +:+ in_quotes "n" +:+ ": [1, -2.5e3, null]"). by vm_compute. Qed.

Lemma first_object_found_witness : trimToBalancedJSON ("answer: " +:+ sample_object +:+ " {more}") = sample_object.
Proof. apply (first_object_found "answer: " sample_object " {more}"); [vm_compute; reflexivity|apply sample_json_object]. Defined.

Lemma cleaning_valid_json_witness : cleanJSON sample_object = (sample_object, false, false).
Proof. apply (cleaning_valid_json sample_object); vm_compute; reflexivity. Defined.

Lemma object_extracted_witness :
  ParseStrict ("Here it is: " +:+ "```json" +:+ String newline sample_object +:+ String newline "```" +:+ " done") =
    MkParseResult sample_object [QuirkFencedJSONWrapper].
Proof.
  apply (object_extracted "Here it is: " sample_object " done"); [apply sample_json_object|vm_compute; reflexivity|vm_compute; reflexivity|vm_compute; reflexivity].
Defined.
