(* ===== verification/Types.v ===== *)
(** * The plan data model

    The structs of workflow/types.go, workflow/story_task.go,
    workflow/subjects.go and workflow/plan_review_result.go a plan is made of,
    one [Record] each with the fields of the source in their order (the
    struct's initials prefix the field names: [pStatus] is [Plan.Status],
    [rDependsOn] is [Requirement.DependsOn], [sFilesOwned] is
    [Story.FilesOwned]).  [time.Time] is a [Z], a pointer is an [option], an
    [int] is a [Z].  [set_pStatus v p] is the assignment [p.Status = v].
    The accessors of [Plan] follow the records. *)

From S2P Require Import Prelude Status.

(** ** Enumerations carried by the records *)

Inductive CapabilityLifecycle :=
| CapabilityNew
| CapabilityModified
| CapabilityLifecycleOther (raw : string).

#[export] Instance CapabilityLifecycle_eq_dec : EqDecision CapabilityLifecycle.
Proof. solve_decision. Defined.

Definition CapabilityLifecycle_IsValid (l : CapabilityLifecycle) : bool :=
  match l with CapabilityNew | CapabilityModified => true | _ => false end.

Inductive CapabilitySurface :=
| SurfaceUI
| SurfaceAPI
| SurfaceBackground
| SurfaceOther (raw : string).

#[export] Instance CapabilitySurface_eq_dec : EqDecision CapabilitySurface.
Proof. solve_decision. Defined.

Definition CapabilitySurface_IsValid (s : CapabilitySurface) : bool :=
  match s with SurfaceUI | SurfaceAPI | SurfaceBackground => true | _ => false end.

Inductive QAVerdict :=
| QAVerdictApproved
| QAVerdictConditionallyApproved
| QAVerdictNeedsChanges
| QAVerdictRejected
| QAVerdictOther (raw : string).

#[export] Instance QAVerdict_eq_dec : EqDecision QAVerdict.
Proof. solve_decision. Defined.

(** ** Records *)

(** [ArtifactRef] *)
Record ArtifactRef := MkArtifactRef {
  arPath : string;
  arType : string;
  arPurpose : string }.

(** [GitHubMetadata] *)
Record GitHubMetadata := MkGitHubMetadata {
  ghIssueNumber : Z;
  ghIssueURL : string;
  ghRepository : string;
  ghPlanBranch : string;
  ghPRNumber : Z;
  ghPRURL : string;
  ghPRRevision : Z;
  ghLastProcessedReviewID : Z;
  ghPRState : string;
  ghLatestFeedback : string;
  ghLastSynced : Z }.

Definition set_ghPlanBranch (v : string) (x : GitHubMetadata) : GitHubMetadata :=
  {| ghIssueNumber := ghIssueNumber x; ghIssueURL := ghIssueURL x;
     ghRepository := ghRepository x; ghPlanBranch := v; ghPRNumber := ghPRNumber x;
     ghPRURL := ghPRURL x; ghPRRevision := ghPRRevision x;
     ghLastProcessedReviewID := ghLastProcessedReviewID x; ghPRState := ghPRState x;
     ghLatestFeedback := ghLatestFeedback x; ghLastSynced := ghLastSynced x |}.

Definition set_ghPRNumber (v : Z) (x : GitHubMetadata) : GitHubMetadata :=
  {| ghIssueNumber := ghIssueNumber x; ghIssueURL := ghIssueURL x;
     ghRepository := ghRepository x; ghPlanBranch := ghPlanBranch x; ghPRNumber := v;
     ghPRURL := ghPRURL x; ghPRRevision := ghPRRevision x;
     ghLastProcessedReviewID := ghLastProcessedReviewID x; ghPRState := ghPRState x;
     ghLatestFeedback := ghLatestFeedback x; ghLastSynced := ghLastSynced x |}.

Definition set_ghPRURL (v : string) (x : GitHubMetadata) : GitHubMetadata :=
  {| ghIssueNumber := ghIssueNumber x; ghIssueURL := ghIssueURL x;
     ghRepository := ghRepository x; ghPlanBranch := ghPlanBranch x; ghPRNumber := ghPRNumber x;
     ghPRURL := v; ghPRRevision := ghPRRevision x;
     ghLastProcessedReviewID := ghLastProcessedReviewID x; ghPRState := ghPRState x;
     ghLatestFeedback := ghLatestFeedback x; ghLastSynced := ghLastSynced x |}.

Definition set_ghPRRevision (v : Z) (x : GitHubMetadata) : GitHubMetadata :=
  {| ghIssueNumber := ghIssueNumber x; ghIssueURL := ghIssueURL x;
     ghRepository := ghRepository x; ghPlanBranch := ghPlanBranch x; ghPRNumber := ghPRNumber x;
     ghPRURL := ghPRURL x; ghPRRevision := v;
     ghLastProcessedReviewID := ghLastProcessedReviewID x; ghPRState := ghPRState x;
     ghLatestFeedback := ghLatestFeedback x; ghLastSynced := ghLastSynced x |}.

Definition set_ghLastProcessedReviewID (v : Z) (x : GitHubMetadata) : GitHubMetadata :=
  {| ghIssueNumber := ghIssueNumber x; ghIssueURL := ghIssueURL x;
     ghRepository := ghRepository x; ghPlanBranch := ghPlanBranch x; ghPRNumber := ghPRNumber x;
     ghPRURL := ghPRURL x; ghPRRevision := ghPRRevision x; ghLastProcessedReviewID := v;
     ghPRState := ghPRState x; ghLatestFeedback := ghLatestFeedback x;
     ghLastSynced := ghLastSynced x |}.

Definition set_ghPRState (v : string) (x : GitHubMetadata) : GitHubMetadata :=
  {| ghIssueNumber := ghIssueNumber x; ghIssueURL := ghIssueURL x;
     ghRepository := ghRepository x; ghPlanBranch := ghPlanBranch x; ghPRNumber := ghPRNumber x;
     ghPRURL := ghPRURL x; ghPRRevision := ghPRRevision x;
     ghLastProcessedReviewID := ghLastProcessedReviewID x; ghPRState := v;
     ghLatestFeedback := ghLatestFeedback x; ghLastSynced := ghLastSynced x |}.

Definition set_ghLatestFeedback (v : string) (x : GitHubMetadata) : GitHubMetadata :=
  {| ghIssueNumber := ghIssueNumber x; ghIssueURL := ghIssueURL x;
     ghRepository := ghRepository x; ghPlanBranch := ghPlanBranch x; ghPRNumber := ghPRNumber x;
     ghPRURL := ghPRURL x; ghPRRevision := ghPRRevision x;
     ghLastProcessedReviewID := ghLastProcessedReviewID x; ghPRState := ghPRState x;
     ghLatestFeedback := v; ghLastSynced := ghLastSynced x |}.

Definition set_ghLastSynced (v : Z) (x : GitHubMetadata) : GitHubMetadata :=
  {| ghIssueNumber := ghIssueNumber x; ghIssueURL := ghIssueURL x;
     ghRepository := ghRepository x; ghPlanBranch := ghPlanBranch x; ghPRNumber := ghPRNumber x;
     ghPRURL := ghPRURL x; ghPRRevision := ghPRRevision x;
     ghLastProcessedReviewID := ghLastProcessedReviewID x; ghPRState := ghPRState x;
     ghLatestFeedback := ghLatestFeedback x; ghLastSynced := v |}.

(** [ArchitectureRevisionScope] *)
Record ArchitectureRevisionScope := MkArchitectureRevisionScope {
  arsProposalID : string;
  arsRequirementIDs : list string;
  arsStoryIDs : list string }.

(** [QAFailure] *)
Record QAFailure := MkQAFailure {
  qfJobName : string;
  qfStepName : string;
  qfTestName : string;
  qfCategory : string;
  qfMessage : string;
  qfLogExcerpt : string }.

(** [QASkippedTest] *)
Record QASkippedTest := MkQASkippedTest {
  qstSuite : string;
  qstName : string;
  qstFile : string }.

(** [QAArtifactRef] *)
Record QAArtifactRef := MkQAArtifactRef {
  qarPath : string;
  qarType : string;
  qarPurpose : string }.

(** [QARun] *)
Record QARun := MkQARun {
  qrRunID : string;
  qrPassed : bool;
  qrFailures : list QAFailure;
  qrSkippedTests : list QASkippedTest;
  qrArtifacts : list QAArtifactRef;
  qrDurationMs : Z;
  qrRunnerError : string;
  qrTraceID : string;
  qrCompletedAt : Z }.

(** [QAVerdictDimensions] *)
Record QAVerdictDimensions := MkQAVerdictDimensions {
  qvdRequirementFulfillment : string;
  qvdCapabilityEvidence : string;
  qvdCoverage : string;
  qvdAssertionQuality : string;
  qvdRegressionSurface : string;
  qvdFlakeJudgment : string }.

(** [QAVerdictSummary] *)
Record QAVerdictSummary := MkQAVerdictSummary {
  qvsVerdict : QAVerdict;
  qvsLevel : QALevel;
  qvsSummary : string;
  qvsDimensions : QAVerdictDimensions;
  qvsRecordedAt : Z }.

(** [IntegrationFlow] *)
Record IntegrationFlow := MkIntegrationFlow {
  iflName : string;
  iflComponentsInvolved : list string;
  iflDescription : string;
  iflScenarioRefs : list string }.

(** [E2EFlow] *)
Record E2EFlow := MkE2EFlow {
  eflActor : string;
  eflSteps : list string;
  eflSuccessCriteria : list string }.

(** [TestSurface] *)
Record TestSurface := MkTestSurface {
  tsuIntegrationFlows : list IntegrationFlow;
  tsuE2EFlows : list E2EFlow }.

(** [TechChoice] *)
Record TechChoice := MkTechChoice {
  tchCategory : string;
  tchChoice : string;
  tchRationale : string }.

(** [ComponentDef] *)
Record ComponentDef := MkComponentDef {
  cdName : string;
  cdResponsibility : string;
  cdDependencies : list string;
  cdUpstreamRefs : list string;
  cdImplementationFiles : list string;
  cdCapabilityIndices : list Z;
  cdCapabilities : list string }.

Definition set_cdCapabilities (v : list string) (x : ComponentDef) : ComponentDef :=
  {| cdName := cdName x; cdResponsibility := cdResponsibility x;
     cdDependencies := cdDependencies x; cdUpstreamRefs := cdUpstreamRefs x;
     cdImplementationFiles := cdImplementationFiles x;
     cdCapabilityIndices := cdCapabilityIndices x; cdCapabilities := v |}.

(** [ArchDecision] *)
Record ArchDecision := MkArchDecision {
  adecID : string;
  adecTitle : string;
  adecDecision : string;
  adecRationale : string }.

(** [ActorDef] *)
Record ActorDef := MkActorDef {
  actName : string;
  actType : string;
  actTriggers : list string;
  actPermissions : list string }.

(** [IntegrationPoint] *)
Record IntegrationPoint := MkIntegrationPoint {
  ipName : string;
  ipDirection : string;
  ipProtocol : string;
  ipContract : string;
  ipErrorMode : string }.

(** [HarnessProfileSelection] *)
Record HarnessProfileSelection := MkHarnessProfileSelection {
  hpsProfileID : string;
  hpsUsedBy : list string;
  hpsPurpose : string;
  hpsCovers : list string }.

(** [APISurface] *)
Record APISurface := MkAPISurface {
  apiSymbol : string;
  apiImport : string;
  apiArtifact : string;
  apiKind : string;
  apiSignature : string;
  apiLifecycle : string;
  apiNotes : string;
  apiCitation : string }.

(** [UpstreamResolution] *)
Record UpstreamResolution := MkUpstreamResolution {
  urName : string;
  urCoordinate : string;
  urSourceRef : string;
  urResolutionKind : string;
  urAPIs : list APISurface;
  urUsedBy : list string;
  urRole : string }.

(** [ArchitectureDocument] *)
Record ArchitectureDocument := MkArchitectureDocument {
  adTechnologyChoices : list TechChoice;
  adComponentBoundaries : list ComponentDef;
  adDataFlow : string;
  adDecisions : list ArchDecision;
  adActors : list ActorDef;
  adIntegrations : list IntegrationPoint;
  adTestSurface : option TestSurface;
  adUpstreamResolutions : list UpstreamResolution;
  adHarnessProfiles : list HarnessProfileSelection }.

Definition set_adComponentBoundaries (v : list ComponentDef) (x : ArchitectureDocument) : ArchitectureDocument :=
  {| adTechnologyChoices := adTechnologyChoices x; adComponentBoundaries := v;
     adDataFlow := adDataFlow x; adDecisions := adDecisions x; adActors := adActors x;
     adIntegrations := adIntegrations x; adTestSurface := adTestSurface x;
     adUpstreamResolutions := adUpstreamResolutions x; adHarnessProfiles := adHarnessProfiles x |}.

(** [IterationCalls] *)
Record IterationCalls := MkIterationCalls {
  icIteration : Z;
  icLLMRequestIDs : list string;
  icVerdict : string }.

(** [LLMCallHistory] *)
Record LLMCallHistory := MkLLMCallHistory {
  llmPlanReview : list IterationCalls }.

(** [Scope] *)
Record Scope := MkScope {
  scpInclude : list string;
  scpExclude : list string;
  scpDoNotTouch : list string;
  scpCreate : list string }.

Definition set_scpInclude (v : list string) (x : Scope) : Scope :=
  {| scpInclude := v; scpExclude := scpExclude x; scpDoNotTouch := scpDoNotTouch x;
     scpCreate := scpCreate x |}.

Definition set_scpExclude (v : list string) (x : Scope) : Scope :=
  {| scpInclude := scpInclude x; scpExclude := v; scpDoNotTouch := scpDoNotTouch x;
     scpCreate := scpCreate x |}.

Definition set_scpDoNotTouch (v : list string) (x : Scope) : Scope :=
  {| scpInclude := scpInclude x; scpExclude := scpExclude x; scpDoNotTouch := v;
     scpCreate := scpCreate x |}.

Definition set_scpCreate (v : list string) (x : Scope) : Scope :=
  {| scpInclude := scpInclude x; scpExclude := scpExclude x; scpDoNotTouch := scpDoNotTouch x;
     scpCreate := v |}.

(** [ContractSourceRef] *)
Record ContractSourceRef := MkContractSourceRef {
  csrKind : string;
  csrRef : string;
  csrDigest : string }.

(** [ContractScopeSnapshot] *)
Record ContractScopeSnapshot := MkContractScopeSnapshot {
  cssInclude : list string;
  cssExclude : list string;
  cssDoNotTouch : list string;
  cssCreate : list string }.

(** [TopologyFact] *)
Record TopologyFact := MkTopologyFact {
  tfKind : string;
  tfPath : string;
  tfValue : string;
  tfEvidence : list string }.

(** [ContractImpact] *)
Record ContractImpact := MkContractImpact {
  ciKind : ContractImpactKind;
  ciSummary : string;
  ciAffectedIDs : list string }.

(** [ContractAmendment] *)
Record ContractAmendment := MkContractAmendment {
  caID : string;
  caPlanDecisionID : string;
  caImpact : ContractImpact;
  caCreatedAt : Z }.

(** [ContractValidationFinding] *)
Record ContractValidationFinding := MkContractValidationFinding {
  cvfID : string;
  cvfSeverity : string;
  cvfCategory : string;
  cvfMessage : string;
  cvfEvidence : list string;
  cvfCreatedAt : Z }.

(** [ContractPacket] *)
Record ContractPacket := MkContractPacket {
  cpID : string;
  cpVersion : Z;
  cpBrief : string;
  cpSourceRefs : list ContractSourceRef;
  cpConstraints : list string;
  cpAcceptanceObligations : list string;
  cpForbiddenMoves : list string;
  cpScope : ContractScopeSnapshot;
  cpTopologyFacts : list TopologyFact;
  cpAmendments : list ContractAmendment;
  cpValidationFindings : list ContractValidationFinding;
  cpCreatedAt : Z }.

Definition set_cpAmendments (v : list ContractAmendment) (x : ContractPacket) : ContractPacket :=
  {| cpID := cpID x; cpVersion := cpVersion x; cpBrief := cpBrief x;
     cpSourceRefs := cpSourceRefs x; cpConstraints := cpConstraints x;
     cpAcceptanceObligations := cpAcceptanceObligations x;
     cpForbiddenMoves := cpForbiddenMoves x; cpScope := cpScope x;
     cpTopologyFacts := cpTopologyFacts x; cpAmendments := v;
     cpValidationFindings := cpValidationFindings x; cpCreatedAt := cpCreatedAt x |}.

Definition set_cpScope (v : ContractScopeSnapshot) (x : ContractPacket) : ContractPacket :=
  {| cpID := cpID x; cpVersion := cpVersion x; cpBrief := cpBrief x;
     cpSourceRefs := cpSourceRefs x; cpConstraints := cpConstraints x;
     cpAcceptanceObligations := cpAcceptanceObligations x;
     cpForbiddenMoves := cpForbiddenMoves x; cpScope := v; cpTopologyFacts := cpTopologyFacts x;
     cpAmendments := cpAmendments x; cpValidationFindings := cpValidationFindings x;
     cpCreatedAt := cpCreatedAt x |}.

Definition set_cpVersion (v : Z) (x : ContractPacket) : ContractPacket :=
  {| cpID := cpID x; cpVersion := v; cpBrief := cpBrief x; cpSourceRefs := cpSourceRefs x;
     cpConstraints := cpConstraints x; cpAcceptanceObligations := cpAcceptanceObligations x;
     cpForbiddenMoves := cpForbiddenMoves x; cpScope := cpScope x;
     cpTopologyFacts := cpTopologyFacts x; cpAmendments := cpAmendments x;
     cpValidationFindings := cpValidationFindings x; cpCreatedAt := cpCreatedAt x |}.

Definition set_cpConstraints (v : list string) (x : ContractPacket) : ContractPacket :=
  {| cpID := cpID x; cpVersion := cpVersion x; cpBrief := cpBrief x;
     cpSourceRefs := cpSourceRefs x; cpConstraints := v;
     cpAcceptanceObligations := cpAcceptanceObligations x;
     cpForbiddenMoves := cpForbiddenMoves x; cpScope := cpScope x;
     cpTopologyFacts := cpTopologyFacts x; cpAmendments := cpAmendments x;
     cpValidationFindings := cpValidationFindings x; cpCreatedAt := cpCreatedAt x |}.

Definition set_cpTopologyFacts (v : list TopologyFact) (x : ContractPacket) : ContractPacket :=
  {| cpID := cpID x; cpVersion := cpVersion x; cpBrief := cpBrief x;
     cpSourceRefs := cpSourceRefs x; cpConstraints := cpConstraints x;
     cpAcceptanceObligations := cpAcceptanceObligations x;
     cpForbiddenMoves := cpForbiddenMoves x; cpScope := cpScope x; cpTopologyFacts := v;
     cpAmendments := cpAmendments x; cpValidationFindings := cpValidationFindings x;
     cpCreatedAt := cpCreatedAt x |}.

(** [Capability] *)
Record Capability := MkCapability {
  capName : string;
  capLifecycle : CapabilityLifecycle;
  capDescription : string;
  capDependsOn : list string;
  capSurfaces : list CapabilitySurface }.

(** [Exploration] *)
Record Exploration := MkExploration {
  exCapabilities : list Capability;
  exOpenQuestions : list string }.

(** [Requirement] *)
Record Requirement := MkRequirement {
  rID : string;
  rPlanID : string;
  rTitle : string;
  rDescription : string;
  rAcceptanceCriteria : list string;
  rStatus : RequirementStatus;
  rDependsOn : list string;
  rCapabilityName : string;
  rRecoveryHint : string;
  rCreatedAt : Z;
  rUpdatedAt : Z }.

Definition set_rRecoveryHint (v : string) (x : Requirement) : Requirement :=
  {| rID := rID x; rPlanID := rPlanID x; rTitle := rTitle x; rDescription := rDescription x;
     rAcceptanceCriteria := rAcceptanceCriteria x; rStatus := rStatus x;
     rDependsOn := rDependsOn x; rCapabilityName := rCapabilityName x; rRecoveryHint := v;
     rCreatedAt := rCreatedAt x; rUpdatedAt := rUpdatedAt x |}.

Definition set_rUpdatedAt (v : Z) (x : Requirement) : Requirement :=
  {| rID := rID x; rPlanID := rPlanID x; rTitle := rTitle x; rDescription := rDescription x;
     rAcceptanceCriteria := rAcceptanceCriteria x; rStatus := rStatus x;
     rDependsOn := rDependsOn x; rCapabilityName := rCapabilityName x;
     rRecoveryHint := rRecoveryHint x; rCreatedAt := rCreatedAt x; rUpdatedAt := v |}.

Definition set_rStatus (v : RequirementStatus) (x : Requirement) : Requirement :=
  {| rID := rID x; rPlanID := rPlanID x; rTitle := rTitle x; rDescription := rDescription x;
     rAcceptanceCriteria := rAcceptanceCriteria x; rStatus := v; rDependsOn := rDependsOn x;
     rCapabilityName := rCapabilityName x; rRecoveryHint := rRecoveryHint x;
     rCreatedAt := rCreatedAt x; rUpdatedAt := rUpdatedAt x |}.

Definition set_rDependsOn (v : list string) (x : Requirement) : Requirement :=
  {| rID := rID x; rPlanID := rPlanID x; rTitle := rTitle x; rDescription := rDescription x;
     rAcceptanceCriteria := rAcceptanceCriteria x; rStatus := rStatus x; rDependsOn := v;
     rCapabilityName := rCapabilityName x; rRecoveryHint := rRecoveryHint x;
     rCreatedAt := rCreatedAt x; rUpdatedAt := rUpdatedAt x |}.

Definition set_rPlanID (v : string) (x : Requirement) : Requirement :=
  {| rID := rID x; rPlanID := v; rTitle := rTitle x; rDescription := rDescription x;
     rAcceptanceCriteria := rAcceptanceCriteria x; rStatus := rStatus x;
     rDependsOn := rDependsOn x; rCapabilityName := rCapabilityName x;
     rRecoveryHint := rRecoveryHint x; rCreatedAt := rCreatedAt x; rUpdatedAt := rUpdatedAt x |}.

(** [Scenario] *)
Record Scenario := MkScenario {
  scID : string;
  scRequirementID : string;
  scStoryID : string;
  scTitle : string;
  scGiven : string;
  scWhen : string;
  scThen : list string;
  scStatus : ScenarioStatus;
  scTags : list string;
  scHarnessProfileIDs : list string;
  scEnv : gmap string string;
  scRequiredAssertions : list string;
  scCreatedAt : Z;
  scUpdatedAt : Z }.

Definition set_scStoryID (v : string) (x : Scenario) : Scenario :=
  {| scID := scID x; scRequirementID := scRequirementID x; scStoryID := v; scTitle := scTitle x;
     scGiven := scGiven x; scWhen := scWhen x; scThen := scThen x; scStatus := scStatus x;
     scTags := scTags x; scHarnessProfileIDs := scHarnessProfileIDs x; scEnv := scEnv x;
     scRequiredAssertions := scRequiredAssertions x; scCreatedAt := scCreatedAt x;
     scUpdatedAt := scUpdatedAt x |}.

(** [Task] *)
Record Task := MkTask {
  tID : string;
  tStoryID : string;
  tDescription : string;
  tDependsOn : list string;
  tStatus : TaskStatus;
  tCreatedAt : Z;
  tUpdatedAt : Z }.

(** [Story] *)
Record Story := MkStory {
  sID : string;
  sComponentName : string;
  sRequirementIDs : list string;
  sCapabilityNames : list string;
  sTitle : string;
  sIntent : string;
  sFilesOwned : list string;
  sDependsOn : list string;
  sTasks : list Task;
  sStatus : StoryStatus;
  sPreparedBy : string;
  sPreparedAt : option Z;
  sRecoveryHint : string;
  sCreatedAt : Z;
  sUpdatedAt : Z }.

Definition set_sDependsOn (v : list string) (x : Story) : Story :=
  {| sID := sID x; sComponentName := sComponentName x; sRequirementIDs := sRequirementIDs x;
     sCapabilityNames := sCapabilityNames x; sTitle := sTitle x; sIntent := sIntent x;
     sFilesOwned := sFilesOwned x; sDependsOn := v; sTasks := sTasks x; sStatus := sStatus x;
     sPreparedBy := sPreparedBy x; sPreparedAt := sPreparedAt x;
     sRecoveryHint := sRecoveryHint x; sCreatedAt := sCreatedAt x; sUpdatedAt := sUpdatedAt x |}.

Definition set_sStatus (v : StoryStatus) (x : Story) : Story :=
  {| sID := sID x; sComponentName := sComponentName x; sRequirementIDs := sRequirementIDs x;
     sCapabilityNames := sCapabilityNames x; sTitle := sTitle x; sIntent := sIntent x;
     sFilesOwned := sFilesOwned x; sDependsOn := sDependsOn x; sTasks := sTasks x; sStatus := v;
     sPreparedBy := sPreparedBy x; sPreparedAt := sPreparedAt x;
     sRecoveryHint := sRecoveryHint x; sCreatedAt := sCreatedAt x; sUpdatedAt := sUpdatedAt x |}.

Definition set_sRecoveryHint (v : string) (x : Story) : Story :=
  {| sID := sID x; sComponentName := sComponentName x; sRequirementIDs := sRequirementIDs x;
     sCapabilityNames := sCapabilityNames x; sTitle := sTitle x; sIntent := sIntent x;
     sFilesOwned := sFilesOwned x; sDependsOn := sDependsOn x; sTasks := sTasks x;
     sStatus := sStatus x; sPreparedBy := sPreparedBy x; sPreparedAt := sPreparedAt x;
     sRecoveryHint := v; sCreatedAt := sCreatedAt x; sUpdatedAt := sUpdatedAt x |}.

Definition set_sUpdatedAt (v : Z) (x : Story) : Story :=
  {| sID := sID x; sComponentName := sComponentName x; sRequirementIDs := sRequirementIDs x;
     sCapabilityNames := sCapabilityNames x; sTitle := sTitle x; sIntent := sIntent x;
     sFilesOwned := sFilesOwned x; sDependsOn := sDependsOn x; sTasks := sTasks x;
     sStatus := sStatus x; sPreparedBy := sPreparedBy x; sPreparedAt := sPreparedAt x;
     sRecoveryHint := sRecoveryHint x; sCreatedAt := sCreatedAt x; sUpdatedAt := v |}.

Definition set_sFilesOwned (v : list string) (x : Story) : Story :=
  {| sID := sID x; sComponentName := sComponentName x; sRequirementIDs := sRequirementIDs x;
     sCapabilityNames := sCapabilityNames x; sTitle := sTitle x; sIntent := sIntent x;
     sFilesOwned := v; sDependsOn := sDependsOn x; sTasks := sTasks x; sStatus := sStatus x;
     sPreparedBy := sPreparedBy x; sPreparedAt := sPreparedAt x;
     sRecoveryHint := sRecoveryHint x; sCreatedAt := sCreatedAt x; sUpdatedAt := sUpdatedAt x |}.

Definition set_sPreparedBy (v : string) (x : Story) : Story :=
  {| sID := sID x; sComponentName := sComponentName x; sRequirementIDs := sRequirementIDs x;
     sCapabilityNames := sCapabilityNames x; sTitle := sTitle x; sIntent := sIntent x;
     sFilesOwned := sFilesOwned x; sDependsOn := sDependsOn x; sTasks := sTasks x;
     sStatus := sStatus x; sPreparedBy := v; sPreparedAt := sPreparedAt x;
     sRecoveryHint := sRecoveryHint x; sCreatedAt := sCreatedAt x; sUpdatedAt := sUpdatedAt x |}.

Definition set_sPreparedAt (v : option Z) (x : Story) : Story :=
  {| sID := sID x; sComponentName := sComponentName x; sRequirementIDs := sRequirementIDs x;
     sCapabilityNames := sCapabilityNames x; sTitle := sTitle x; sIntent := sIntent x;
     sFilesOwned := sFilesOwned x; sDependsOn := sDependsOn x; sTasks := sTasks x;
     sStatus := sStatus x; sPreparedBy := sPreparedBy x; sPreparedAt := v;
     sRecoveryHint := sRecoveryHint x; sCreatedAt := sCreatedAt x; sUpdatedAt := sUpdatedAt x |}.

Definition set_sID (v : string) (x : Story) : Story :=
  {| sID := v; sComponentName := sComponentName x; sRequirementIDs := sRequirementIDs x;
     sCapabilityNames := sCapabilityNames x; sTitle := sTitle x; sIntent := sIntent x;
     sFilesOwned := sFilesOwned x; sDependsOn := sDependsOn x; sTasks := sTasks x;
     sStatus := sStatus x; sPreparedBy := sPreparedBy x; sPreparedAt := sPreparedAt x;
     sRecoveryHint := sRecoveryHint x; sCreatedAt := sCreatedAt x; sUpdatedAt := sUpdatedAt x |}.

(** [PlanDecision] *)
Record PlanDecision := MkPlanDecision {
  dID : string;
  dPlanID : string;
  dKind : PlanDecisionKind;
  dTitle : string;
  dRationale : string;
  dStatus : PlanDecisionStatus;
  dProposedBy : string;
  dAffectedReqIDs : list string;
  dAffectedStoryIDs : list string;
  dRejectionReasons : gmap string string;
  dContractImpact : option ContractImpact;
  dArtifactReferences : list ArtifactRef;
  dCreatedAt : Z;
  dReviewedAt : option Z;
  dDecidedAt : option Z }.

Definition set_dTitle (v : string) (x : PlanDecision) : PlanDecision :=
  {| dID := dID x; dPlanID := dPlanID x; dKind := dKind x; dTitle := v; dRationale :=
     dRationale x; dStatus := dStatus x; dProposedBy := dProposedBy x; dAffectedReqIDs :=
     dAffectedReqIDs x; dAffectedStoryIDs := dAffectedStoryIDs x; dRejectionReasons :=
     dRejectionReasons x; dContractImpact := dContractImpact x; dArtifactReferences :=
     dArtifactReferences x; dCreatedAt := dCreatedAt x; dReviewedAt := dReviewedAt x;
     dDecidedAt := dDecidedAt x |}.

Definition set_dRationale (v : string) (x : PlanDecision) : PlanDecision :=
  {| dID := dID x; dPlanID := dPlanID x; dKind := dKind x; dTitle := dTitle x; dRationale :=
     v; dStatus := dStatus x; dProposedBy := dProposedBy x; dAffectedReqIDs := dAffectedReqIDs
     x; dAffectedStoryIDs := dAffectedStoryIDs x; dRejectionReasons := dRejectionReasons x;
     dContractImpact := dContractImpact x; dArtifactReferences := dArtifactReferences x;
     dCreatedAt := dCreatedAt x; dReviewedAt := dReviewedAt x; dDecidedAt := dDecidedAt x |}.

Definition set_dAffectedReqIDs (v : list string) (x : PlanDecision) : PlanDecision :=
  {| dID := dID x; dPlanID := dPlanID x; dKind := dKind x; dTitle := dTitle x; dRationale :=
     dRationale x; dStatus := dStatus x; dProposedBy := dProposedBy x; dAffectedReqIDs := v;
     dAffectedStoryIDs := dAffectedStoryIDs x; dRejectionReasons := dRejectionReasons x;
     dContractImpact := dContractImpact x; dArtifactReferences := dArtifactReferences x;
     dCreatedAt := dCreatedAt x; dReviewedAt := dReviewedAt x; dDecidedAt := dDecidedAt x |}.

Definition set_dRejectionReasons (v : gmap string string) (x : PlanDecision) : PlanDecision :=
  {| dID := dID x; dPlanID := dPlanID x; dKind := dKind x; dTitle := dTitle x; dRationale :=
     dRationale x; dStatus := dStatus x; dProposedBy := dProposedBy x; dAffectedReqIDs :=
     dAffectedReqIDs x; dAffectedStoryIDs := dAffectedStoryIDs x; dRejectionReasons := v;
     dContractImpact := dContractImpact x; dArtifactReferences := dArtifactReferences x;
     dCreatedAt := dCreatedAt x; dReviewedAt := dReviewedAt x; dDecidedAt := dDecidedAt x |}.

Definition set_dStatus (v : PlanDecisionStatus) (x : PlanDecision) : PlanDecision :=
  {| dID := dID x; dPlanID := dPlanID x; dKind := dKind x; dTitle := dTitle x;
     dRationale := dRationale x; dStatus := v; dProposedBy := dProposedBy x;
     dAffectedReqIDs := dAffectedReqIDs x; dAffectedStoryIDs := dAffectedStoryIDs x;
     dRejectionReasons := dRejectionReasons x; dContractImpact := dContractImpact x;
     dArtifactReferences := dArtifactReferences x; dCreatedAt := dCreatedAt x;
     dReviewedAt := dReviewedAt x; dDecidedAt := dDecidedAt x |}.

Definition set_dDecidedAt (v : option Z) (x : PlanDecision) : PlanDecision :=
  {| dID := dID x; dPlanID := dPlanID x; dKind := dKind x; dTitle := dTitle x;
     dRationale := dRationale x; dStatus := dStatus x; dProposedBy := dProposedBy x;
     dAffectedReqIDs := dAffectedReqIDs x; dAffectedStoryIDs := dAffectedStoryIDs x;
     dRejectionReasons := dRejectionReasons x; dContractImpact := dContractImpact x;
     dArtifactReferences := dArtifactReferences x; dCreatedAt := dCreatedAt x;
     dReviewedAt := dReviewedAt x; dDecidedAt := v |}.

Definition set_dID (v : string) (x : PlanDecision) : PlanDecision :=
  {| dID := v; dPlanID := dPlanID x; dKind := dKind x; dTitle := dTitle x;
     dRationale := dRationale x; dStatus := dStatus x; dProposedBy := dProposedBy x;
     dAffectedReqIDs := dAffectedReqIDs x; dAffectedStoryIDs := dAffectedStoryIDs x;
     dRejectionReasons := dRejectionReasons x; dContractImpact := dContractImpact x;
     dArtifactReferences := dArtifactReferences x; dCreatedAt := dCreatedAt x;
     dReviewedAt := dReviewedAt x; dDecidedAt := dDecidedAt x |}.

Definition set_dPlanID (v : string) (x : PlanDecision) : PlanDecision :=
  {| dID := dID x; dPlanID := v; dKind := dKind x; dTitle := dTitle x;
     dRationale := dRationale x; dStatus := dStatus x; dProposedBy := dProposedBy x;
     dAffectedReqIDs := dAffectedReqIDs x; dAffectedStoryIDs := dAffectedStoryIDs x;
     dRejectionReasons := dRejectionReasons x; dContractImpact := dContractImpact x;
     dArtifactReferences := dArtifactReferences x; dCreatedAt := dCreatedAt x;
     dReviewedAt := dReviewedAt x; dDecidedAt := dDecidedAt x |}.

Definition set_dCreatedAt (v : Z) (x : PlanDecision) : PlanDecision :=
  {| dID := dID x; dPlanID := dPlanID x; dKind := dKind x; dTitle := dTitle x;
     dRationale := dRationale x; dStatus := dStatus x; dProposedBy := dProposedBy x;
     dAffectedReqIDs := dAffectedReqIDs x; dAffectedStoryIDs := dAffectedStoryIDs x;
     dRejectionReasons := dRejectionReasons x; dContractImpact := dContractImpact x;
     dArtifactReferences := dArtifactReferences x; dCreatedAt := v; dReviewedAt := dReviewedAt x;
     dDecidedAt := dDecidedAt x |}.

Definition set_dKind (v : PlanDecisionKind) (x : PlanDecision) : PlanDecision :=
  {| dID := dID x; dPlanID := dPlanID x; dKind := v; dTitle := dTitle x;
     dRationale := dRationale x; dStatus := dStatus x; dProposedBy := dProposedBy x;
     dAffectedReqIDs := dAffectedReqIDs x; dAffectedStoryIDs := dAffectedStoryIDs x;
     dRejectionReasons := dRejectionReasons x; dContractImpact := dContractImpact x;
     dArtifactReferences := dArtifactReferences x; dCreatedAt := dCreatedAt x;
     dReviewedAt := dReviewedAt x; dDecidedAt := dDecidedAt x |}.

Definition set_dReviewedAt (v : option Z) (x : PlanDecision) : PlanDecision :=
  {| dID := dID x; dPlanID := dPlanID x; dKind := dKind x; dTitle := dTitle x;
     dRationale := dRationale x; dStatus := dStatus x; dProposedBy := dProposedBy x;
     dAffectedReqIDs := dAffectedReqIDs x; dAffectedStoryIDs := dAffectedStoryIDs x;
     dRejectionReasons := dRejectionReasons x; dContractImpact := dContractImpact x;
     dArtifactReferences := dArtifactReferences x; dCreatedAt := dCreatedAt x; dReviewedAt := v;
     dDecidedAt := dDecidedAt x |}.

(** [PlanReviewFinding] *)
Record PlanReviewFinding := MkPlanReviewFinding {
  prfSOPID : string;
  prfSOPTitle : string;
  prfSeverity : string;
  prfStatus : string;
  prfCategory : string;
  prfPhase : string;
  prfTargetID : string;
  prfAction : string;
  prfTargetField : string;
  prfTargetValue : string;
  prfIssue : string;
  prfSuggestion : string;
  prfEvidence : string }.

Definition set_prfIssue (v : string) (x : PlanReviewFinding) : PlanReviewFinding :=
  {| prfSOPID := prfSOPID x; prfSOPTitle := prfSOPTitle x; prfSeverity := prfSeverity x;
     prfStatus := prfStatus x; prfCategory := prfCategory x; prfPhase := prfPhase x;
     prfTargetID := prfTargetID x; prfAction := prfAction x; prfTargetField := prfTargetField x;
     prfTargetValue := prfTargetValue x; prfIssue := v; prfSuggestion := prfSuggestion x;
     prfEvidence := prfEvidence x |}.

Definition set_prfSuggestion (v : string) (x : PlanReviewFinding) : PlanReviewFinding :=
  {| prfSOPID := prfSOPID x; prfSOPTitle := prfSOPTitle x; prfSeverity := prfSeverity x;
     prfStatus := prfStatus x; prfCategory := prfCategory x; prfPhase := prfPhase x;
     prfTargetID := prfTargetID x; prfAction := prfAction x; prfTargetField := prfTargetField x;
     prfTargetValue := prfTargetValue x; prfIssue := prfIssue x; prfSuggestion := v;
     prfEvidence := prfEvidence x |}.

Definition set_prfEvidence (v : string) (x : PlanReviewFinding) : PlanReviewFinding :=
  {| prfSOPID := prfSOPID x; prfSOPTitle := prfSOPTitle x; prfSeverity := prfSeverity x;
     prfStatus := prfStatus x; prfCategory := prfCategory x; prfPhase := prfPhase x;
     prfTargetID := prfTargetID x; prfAction := prfAction x; prfTargetField := prfTargetField x;
     prfTargetValue := prfTargetValue x; prfIssue := prfIssue x;
     prfSuggestion := prfSuggestion x; prfEvidence := v |}.

(** A [json.RawMessage] that should hold an array of findings: nothing
    (nil or empty), bytes [json.Unmarshal] rejects, or an array. *)
Inductive RawFindings :=
| RawNil
| RawUnparsable (raw : string)
| RawArray (fs : list PlanReviewFinding).

(** [Plan] *)
Record Plan := MkPlan {
  pID : string;
  pSlug : string;
  pTitle : string;
  pProjectID : string;
  pStatus : Status;
  pApproved : bool;
  pCreatedAt : Z;
  pApprovedAt : option Z;
  pReviewVerdict : string;
  pReviewSummary : string;
  pReviewedAt : option Z;
  pReviewFindings : RawFindings;
  pReviewFormattedFindings : string;
  pReviewIteration : Z;
  pAutoRejectOnExhaustion : option bool;
  pLastError : string;
  pLastErrorAt : option Z;
  pGoal : string;
  pContext : string;
  pConstraints : list string;
  pContract : option ContractPacket;
  pScope : Scope;
  pExploration : option Exploration;
  pExecutionTraceIDs : list string;
  pLLMCallHistory : option LLMCallHistory;
  pSkipArchitecture : bool;
  pArchitecture : option ArchitectureDocument;
  pPreviousArchitectureJSON : string;
  pPendingArchitectureRevision : option ArchitectureRevisionScope;
  pRequirements : list Requirement;
  pScenarios : list Scenario;
  pStories : list Story;
  pPlanDecisions : list PlanDecision;
  pGitHub : option GitHubMetadata;
  pQALevel : QALevel;
  pQARun : option QARun;
  pQAVerdictSummary : option QAVerdictSummary;
  pAssembledBranch : string;
  pAssembledMergeCommit : string;
  pInfraHealth : string }.

Definition set_pStatus (v : Status) (x : Plan) : Plan :=
  {| pID := pID x; pSlug := pSlug x; pTitle := pTitle x; pProjectID := pProjectID x;
     pStatus := v; pApproved := pApproved x; pCreatedAt := pCreatedAt x;
     pApprovedAt := pApprovedAt x; pReviewVerdict := pReviewVerdict x;
     pReviewSummary := pReviewSummary x; pReviewedAt := pReviewedAt x;
     pReviewFindings := pReviewFindings x;
     pReviewFormattedFindings := pReviewFormattedFindings x;
     pReviewIteration := pReviewIteration x;
     pAutoRejectOnExhaustion := pAutoRejectOnExhaustion x; pLastError := pLastError x;
     pLastErrorAt := pLastErrorAt x; pGoal := pGoal x; pContext := pContext x;
     pConstraints := pConstraints x; pContract := pContract x; pScope := pScope x;
     pExploration := pExploration x; pExecutionTraceIDs := pExecutionTraceIDs x;
     pLLMCallHistory := pLLMCallHistory x; pSkipArchitecture := pSkipArchitecture x;
     pArchitecture := pArchitecture x; pPreviousArchitectureJSON := pPreviousArchitectureJSON x;
     pPendingArchitectureRevision := pPendingArchitectureRevision x;
     pRequirements := pRequirements x; pScenarios := pScenarios x; pStories := pStories x;
     pPlanDecisions := pPlanDecisions x; pGitHub := pGitHub x; pQALevel := pQALevel x;
     pQARun := pQARun x; pQAVerdictSummary := pQAVerdictSummary x;
     pAssembledBranch := pAssembledBranch x; pAssembledMergeCommit := pAssembledMergeCommit x;
     pInfraHealth := pInfraHealth x |}.

Definition set_pApproved (v : bool) (x : Plan) : Plan :=
  {| pID := pID x; pSlug := pSlug x; pTitle := pTitle x; pProjectID := pProjectID x;
     pStatus := pStatus x; pApproved := v; pCreatedAt := pCreatedAt x;
     pApprovedAt := pApprovedAt x; pReviewVerdict := pReviewVerdict x;
     pReviewSummary := pReviewSummary x; pReviewedAt := pReviewedAt x;
     pReviewFindings := pReviewFindings x;
     pReviewFormattedFindings := pReviewFormattedFindings x;
     pReviewIteration := pReviewIteration x;
     pAutoRejectOnExhaustion := pAutoRejectOnExhaustion x; pLastError := pLastError x;
     pLastErrorAt := pLastErrorAt x; pGoal := pGoal x; pContext := pContext x;
     pConstraints := pConstraints x; pContract := pContract x; pScope := pScope x;
     pExploration := pExploration x; pExecutionTraceIDs := pExecutionTraceIDs x;
     pLLMCallHistory := pLLMCallHistory x; pSkipArchitecture := pSkipArchitecture x;
     pArchitecture := pArchitecture x; pPreviousArchitectureJSON := pPreviousArchitectureJSON x;
     pPendingArchitectureRevision := pPendingArchitectureRevision x;
     pRequirements := pRequirements x; pScenarios := pScenarios x; pStories := pStories x;
     pPlanDecisions := pPlanDecisions x; pGitHub := pGitHub x; pQALevel := pQALevel x;
     pQARun := pQARun x; pQAVerdictSummary := pQAVerdictSummary x;
     pAssembledBranch := pAssembledBranch x; pAssembledMergeCommit := pAssembledMergeCommit x;
     pInfraHealth := pInfraHealth x |}.

Definition set_pApprovedAt (v : option Z) (x : Plan) : Plan :=
  {| pID := pID x; pSlug := pSlug x; pTitle := pTitle x; pProjectID := pProjectID x;
     pStatus := pStatus x; pApproved := pApproved x; pCreatedAt := pCreatedAt x;
     pApprovedAt := v; pReviewVerdict := pReviewVerdict x; pReviewSummary := pReviewSummary x;
     pReviewedAt := pReviewedAt x; pReviewFindings := pReviewFindings x;
     pReviewFormattedFindings := pReviewFormattedFindings x;
     pReviewIteration := pReviewIteration x;
     pAutoRejectOnExhaustion := pAutoRejectOnExhaustion x; pLastError := pLastError x;
     pLastErrorAt := pLastErrorAt x; pGoal := pGoal x; pContext := pContext x;
     pConstraints := pConstraints x; pContract := pContract x; pScope := pScope x;
     pExploration := pExploration x; pExecutionTraceIDs := pExecutionTraceIDs x;
     pLLMCallHistory := pLLMCallHistory x; pSkipArchitecture := pSkipArchitecture x;
     pArchitecture := pArchitecture x; pPreviousArchitectureJSON := pPreviousArchitectureJSON x;
     pPendingArchitectureRevision := pPendingArchitectureRevision x;
     pRequirements := pRequirements x; pScenarios := pScenarios x; pStories := pStories x;
     pPlanDecisions := pPlanDecisions x; pGitHub := pGitHub x; pQALevel := pQALevel x;
     pQARun := pQARun x; pQAVerdictSummary := pQAVerdictSummary x;
     pAssembledBranch := pAssembledBranch x; pAssembledMergeCommit := pAssembledMergeCommit x;
     pInfraHealth := pInfraHealth x |}.

Definition set_pReviewVerdict (v : string) (x : Plan) : Plan :=
  {| pID := pID x; pSlug := pSlug x; pTitle := pTitle x; pProjectID := pProjectID x;
     pStatus := pStatus x; pApproved := pApproved x; pCreatedAt := pCreatedAt x;
     pApprovedAt := pApprovedAt x; pReviewVerdict := v; pReviewSummary := pReviewSummary x;
     pReviewedAt := pReviewedAt x; pReviewFindings := pReviewFindings x;
     pReviewFormattedFindings := pReviewFormattedFindings x;
     pReviewIteration := pReviewIteration x;
     pAutoRejectOnExhaustion := pAutoRejectOnExhaustion x; pLastError := pLastError x;
     pLastErrorAt := pLastErrorAt x; pGoal := pGoal x; pContext := pContext x;
     pConstraints := pConstraints x; pContract := pContract x; pScope := pScope x;
     pExploration := pExploration x; pExecutionTraceIDs := pExecutionTraceIDs x;
     pLLMCallHistory := pLLMCallHistory x; pSkipArchitecture := pSkipArchitecture x;
     pArchitecture := pArchitecture x; pPreviousArchitectureJSON := pPreviousArchitectureJSON x;
     pPendingArchitectureRevision := pPendingArchitectureRevision x;
     pRequirements := pRequirements x; pScenarios := pScenarios x; pStories := pStories x;
     pPlanDecisions := pPlanDecisions x; pGitHub := pGitHub x; pQALevel := pQALevel x;
     pQARun := pQARun x; pQAVerdictSummary := pQAVerdictSummary x;
     pAssembledBranch := pAssembledBranch x; pAssembledMergeCommit := pAssembledMergeCommit x;
     pInfraHealth := pInfraHealth x |}.

Definition set_pReviewSummary (v : string) (x : Plan) : Plan :=
  {| pID := pID x; pSlug := pSlug x; pTitle := pTitle x; pProjectID := pProjectID x;
     pStatus := pStatus x; pApproved := pApproved x; pCreatedAt := pCreatedAt x;
     pApprovedAt := pApprovedAt x; pReviewVerdict := pReviewVerdict x; pReviewSummary := v;
     pReviewedAt := pReviewedAt x; pReviewFindings := pReviewFindings x;
     pReviewFormattedFindings := pReviewFormattedFindings x;
     pReviewIteration := pReviewIteration x;
     pAutoRejectOnExhaustion := pAutoRejectOnExhaustion x; pLastError := pLastError x;
     pLastErrorAt := pLastErrorAt x; pGoal := pGoal x; pContext := pContext x;
     pConstraints := pConstraints x; pContract := pContract x; pScope := pScope x;
     pExploration := pExploration x; pExecutionTraceIDs := pExecutionTraceIDs x;
     pLLMCallHistory := pLLMCallHistory x; pSkipArchitecture := pSkipArchitecture x;
     pArchitecture := pArchitecture x; pPreviousArchitectureJSON := pPreviousArchitectureJSON x;
     pPendingArchitectureRevision := pPendingArchitectureRevision x;
     pRequirements := pRequirements x; pScenarios := pScenarios x; pStories := pStories x;
     pPlanDecisions := pPlanDecisions x; pGitHub := pGitHub x; pQALevel := pQALevel x;
     pQARun := pQARun x; pQAVerdictSummary := pQAVerdictSummary x;
     pAssembledBranch := pAssembledBranch x; pAssembledMergeCommit := pAssembledMergeCommit x;
     pInfraHealth := pInfraHealth x |}.

Definition set_pReviewedAt (v : option Z) (x : Plan) : Plan :=
  {| pID := pID x; pSlug := pSlug x; pTitle := pTitle x; pProjectID := pProjectID x;
     pStatus := pStatus x; pApproved := pApproved x; pCreatedAt := pCreatedAt x;
     pApprovedAt := pApprovedAt x; pReviewVerdict := pReviewVerdict x;
     pReviewSummary := pReviewSummary x; pReviewedAt := v; pReviewFindings := pReviewFindings x;
     pReviewFormattedFindings := pReviewFormattedFindings x;
     pReviewIteration := pReviewIteration x;
     pAutoRejectOnExhaustion := pAutoRejectOnExhaustion x; pLastError := pLastError x;
     pLastErrorAt := pLastErrorAt x; pGoal := pGoal x; pContext := pContext x;
     pConstraints := pConstraints x; pContract := pContract x; pScope := pScope x;
     pExploration := pExploration x; pExecutionTraceIDs := pExecutionTraceIDs x;
     pLLMCallHistory := pLLMCallHistory x; pSkipArchitecture := pSkipArchitecture x;
     pArchitecture := pArchitecture x; pPreviousArchitectureJSON := pPreviousArchitectureJSON x;
     pPendingArchitectureRevision := pPendingArchitectureRevision x;
     pRequirements := pRequirements x; pScenarios := pScenarios x; pStories := pStories x;
     pPlanDecisions := pPlanDecisions x; pGitHub := pGitHub x; pQALevel := pQALevel x;
     pQARun := pQARun x; pQAVerdictSummary := pQAVerdictSummary x;
     pAssembledBranch := pAssembledBranch x; pAssembledMergeCommit := pAssembledMergeCommit x;
     pInfraHealth := pInfraHealth x |}.

Definition set_pReviewFindings (v : RawFindings) (x : Plan) : Plan :=
  {| pID := pID x; pSlug := pSlug x; pTitle := pTitle x; pProjectID := pProjectID x;
     pStatus := pStatus x; pApproved := pApproved x; pCreatedAt := pCreatedAt x;
     pApprovedAt := pApprovedAt x; pReviewVerdict := pReviewVerdict x;
     pReviewSummary := pReviewSummary x; pReviewedAt := pReviewedAt x; pReviewFindings := v;
     pReviewFormattedFindings := pReviewFormattedFindings x;
     pReviewIteration := pReviewIteration x;
     pAutoRejectOnExhaustion := pAutoRejectOnExhaustion x; pLastError := pLastError x;
     pLastErrorAt := pLastErrorAt x; pGoal := pGoal x; pContext := pContext x;
     pConstraints := pConstraints x; pContract := pContract x; pScope := pScope x;
     pExploration := pExploration x; pExecutionTraceIDs := pExecutionTraceIDs x;
     pLLMCallHistory := pLLMCallHistory x; pSkipArchitecture := pSkipArchitecture x;
     pArchitecture := pArchitecture x; pPreviousArchitectureJSON := pPreviousArchitectureJSON x;
     pPendingArchitectureRevision := pPendingArchitectureRevision x;
     pRequirements := pRequirements x; pScenarios := pScenarios x; pStories := pStories x;
     pPlanDecisions := pPlanDecisions x; pGitHub := pGitHub x; pQALevel := pQALevel x;
     pQARun := pQARun x; pQAVerdictSummary := pQAVerdictSummary x;
     pAssembledBranch := pAssembledBranch x; pAssembledMergeCommit := pAssembledMergeCommit x;
     pInfraHealth := pInfraHealth x |}.

Definition set_pReviewFormattedFindings (v : string) (x : Plan) : Plan :=
  {| pID := pID x; pSlug := pSlug x; pTitle := pTitle x; pProjectID := pProjectID x;
     pStatus := pStatus x; pApproved := pApproved x; pCreatedAt := pCreatedAt x;
     pApprovedAt := pApprovedAt x; pReviewVerdict := pReviewVerdict x;
     pReviewSummary := pReviewSummary x; pReviewedAt := pReviewedAt x;
     pReviewFindings := pReviewFindings x; pReviewFormattedFindings := v;
     pReviewIteration := pReviewIteration x;
     pAutoRejectOnExhaustion := pAutoRejectOnExhaustion x; pLastError := pLastError x;
     pLastErrorAt := pLastErrorAt x; pGoal := pGoal x; pContext := pContext x;
     pConstraints := pConstraints x; pContract := pContract x; pScope := pScope x;
     pExploration := pExploration x; pExecutionTraceIDs := pExecutionTraceIDs x;
     pLLMCallHistory := pLLMCallHistory x; pSkipArchitecture := pSkipArchitecture x;
     pArchitecture := pArchitecture x; pPreviousArchitectureJSON := pPreviousArchitectureJSON x;
     pPendingArchitectureRevision := pPendingArchitectureRevision x;
     pRequirements := pRequirements x; pScenarios := pScenarios x; pStories := pStories x;
     pPlanDecisions := pPlanDecisions x; pGitHub := pGitHub x; pQALevel := pQALevel x;
     pQARun := pQARun x; pQAVerdictSummary := pQAVerdictSummary x;
     pAssembledBranch := pAssembledBranch x; pAssembledMergeCommit := pAssembledMergeCommit x;
     pInfraHealth := pInfraHealth x |}.

Definition set_pReviewIteration (v : Z) (x : Plan) : Plan :=
  {| pID := pID x; pSlug := pSlug x; pTitle := pTitle x; pProjectID := pProjectID x;
     pStatus := pStatus x; pApproved := pApproved x; pCreatedAt := pCreatedAt x;
     pApprovedAt := pApprovedAt x; pReviewVerdict := pReviewVerdict x;
     pReviewSummary := pReviewSummary x; pReviewedAt := pReviewedAt x;
     pReviewFindings := pReviewFindings x;
     pReviewFormattedFindings := pReviewFormattedFindings x; pReviewIteration := v;
     pAutoRejectOnExhaustion := pAutoRejectOnExhaustion x; pLastError := pLastError x;
     pLastErrorAt := pLastErrorAt x; pGoal := pGoal x; pContext := pContext x;
     pConstraints := pConstraints x; pContract := pContract x; pScope := pScope x;
     pExploration := pExploration x; pExecutionTraceIDs := pExecutionTraceIDs x;
     pLLMCallHistory := pLLMCallHistory x; pSkipArchitecture := pSkipArchitecture x;
     pArchitecture := pArchitecture x; pPreviousArchitectureJSON := pPreviousArchitectureJSON x;
     pPendingArchitectureRevision := pPendingArchitectureRevision x;
     pRequirements := pRequirements x; pScenarios := pScenarios x; pStories := pStories x;
     pPlanDecisions := pPlanDecisions x; pGitHub := pGitHub x; pQALevel := pQALevel x;
     pQARun := pQARun x; pQAVerdictSummary := pQAVerdictSummary x;
     pAssembledBranch := pAssembledBranch x; pAssembledMergeCommit := pAssembledMergeCommit x;
     pInfraHealth := pInfraHealth x |}.

Definition set_pAutoRejectOnExhaustion (v : option bool) (x : Plan) : Plan :=
  {| pID := pID x; pSlug := pSlug x; pTitle := pTitle x; pProjectID := pProjectID x;
     pStatus := pStatus x; pApproved := pApproved x; pCreatedAt := pCreatedAt x;
     pApprovedAt := pApprovedAt x; pReviewVerdict := pReviewVerdict x;
     pReviewSummary := pReviewSummary x; pReviewedAt := pReviewedAt x;
     pReviewFindings := pReviewFindings x;
     pReviewFormattedFindings := pReviewFormattedFindings x;
     pReviewIteration := pReviewIteration x; pAutoRejectOnExhaustion := v;
     pLastError := pLastError x; pLastErrorAt := pLastErrorAt x; pGoal := pGoal x;
     pContext := pContext x; pConstraints := pConstraints x; pContract := pContract x;
     pScope := pScope x; pExploration := pExploration x;
     pExecutionTraceIDs := pExecutionTraceIDs x; pLLMCallHistory := pLLMCallHistory x;
     pSkipArchitecture := pSkipArchitecture x; pArchitecture := pArchitecture x;
     pPreviousArchitectureJSON := pPreviousArchitectureJSON x;
     pPendingArchitectureRevision := pPendingArchitectureRevision x;
     pRequirements := pRequirements x; pScenarios := pScenarios x; pStories := pStories x;
     pPlanDecisions := pPlanDecisions x; pGitHub := pGitHub x; pQALevel := pQALevel x;
     pQARun := pQARun x; pQAVerdictSummary := pQAVerdictSummary x;
     pAssembledBranch := pAssembledBranch x; pAssembledMergeCommit := pAssembledMergeCommit x;
     pInfraHealth := pInfraHealth x |}.

Definition set_pLastError (v : string) (x : Plan) : Plan :=
  {| pID := pID x; pSlug := pSlug x; pTitle := pTitle x; pProjectID := pProjectID x;
     pStatus := pStatus x; pApproved := pApproved x; pCreatedAt := pCreatedAt x;
     pApprovedAt := pApprovedAt x; pReviewVerdict := pReviewVerdict x;
     pReviewSummary := pReviewSummary x; pReviewedAt := pReviewedAt x;
     pReviewFindings := pReviewFindings x;
     pReviewFormattedFindings := pReviewFormattedFindings x;
     pReviewIteration := pReviewIteration x;
     pAutoRejectOnExhaustion := pAutoRejectOnExhaustion x; pLastError := v;
     pLastErrorAt := pLastErrorAt x; pGoal := pGoal x; pContext := pContext x;
     pConstraints := pConstraints x; pContract := pContract x; pScope := pScope x;
     pExploration := pExploration x; pExecutionTraceIDs := pExecutionTraceIDs x;
     pLLMCallHistory := pLLMCallHistory x; pSkipArchitecture := pSkipArchitecture x;
     pArchitecture := pArchitecture x; pPreviousArchitectureJSON := pPreviousArchitectureJSON x;
     pPendingArchitectureRevision := pPendingArchitectureRevision x;
     pRequirements := pRequirements x; pScenarios := pScenarios x; pStories := pStories x;
     pPlanDecisions := pPlanDecisions x; pGitHub := pGitHub x; pQALevel := pQALevel x;
     pQARun := pQARun x; pQAVerdictSummary := pQAVerdictSummary x;
     pAssembledBranch := pAssembledBranch x; pAssembledMergeCommit := pAssembledMergeCommit x;
     pInfraHealth := pInfraHealth x |}.

Definition set_pLastErrorAt (v : option Z) (x : Plan) : Plan :=
  {| pID := pID x; pSlug := pSlug x; pTitle := pTitle x; pProjectID := pProjectID x;
     pStatus := pStatus x; pApproved := pApproved x; pCreatedAt := pCreatedAt x;
     pApprovedAt := pApprovedAt x; pReviewVerdict := pReviewVerdict x;
     pReviewSummary := pReviewSummary x; pReviewedAt := pReviewedAt x;
     pReviewFindings := pReviewFindings x;
     pReviewFormattedFindings := pReviewFormattedFindings x;
     pReviewIteration := pReviewIteration x;
     pAutoRejectOnExhaustion := pAutoRejectOnExhaustion x; pLastError := pLastError x;
     pLastErrorAt := v; pGoal := pGoal x; pContext := pContext x; pConstraints := pConstraints x;
     pContract := pContract x; pScope := pScope x; pExploration := pExploration x;
     pExecutionTraceIDs := pExecutionTraceIDs x; pLLMCallHistory := pLLMCallHistory x;
     pSkipArchitecture := pSkipArchitecture x; pArchitecture := pArchitecture x;
     pPreviousArchitectureJSON := pPreviousArchitectureJSON x;
     pPendingArchitectureRevision := pPendingArchitectureRevision x;
     pRequirements := pRequirements x; pScenarios := pScenarios x; pStories := pStories x;
     pPlanDecisions := pPlanDecisions x; pGitHub := pGitHub x; pQALevel := pQALevel x;
     pQARun := pQARun x; pQAVerdictSummary := pQAVerdictSummary x;
     pAssembledBranch := pAssembledBranch x; pAssembledMergeCommit := pAssembledMergeCommit x;
     pInfraHealth := pInfraHealth x |}.

Definition set_pGoal (v : string) (x : Plan) : Plan :=
  {| pID := pID x; pSlug := pSlug x; pTitle := pTitle x; pProjectID := pProjectID x;
     pStatus := pStatus x; pApproved := pApproved x; pCreatedAt := pCreatedAt x;
     pApprovedAt := pApprovedAt x; pReviewVerdict := pReviewVerdict x;
     pReviewSummary := pReviewSummary x; pReviewedAt := pReviewedAt x;
     pReviewFindings := pReviewFindings x;
     pReviewFormattedFindings := pReviewFormattedFindings x;
     pReviewIteration := pReviewIteration x;
     pAutoRejectOnExhaustion := pAutoRejectOnExhaustion x; pLastError := pLastError x;
     pLastErrorAt := pLastErrorAt x; pGoal := v; pContext := pContext x;
     pConstraints := pConstraints x; pContract := pContract x; pScope := pScope x;
     pExploration := pExploration x; pExecutionTraceIDs := pExecutionTraceIDs x;
     pLLMCallHistory := pLLMCallHistory x; pSkipArchitecture := pSkipArchitecture x;
     pArchitecture := pArchitecture x; pPreviousArchitectureJSON := pPreviousArchitectureJSON x;
     pPendingArchitectureRevision := pPendingArchitectureRevision x;
     pRequirements := pRequirements x; pScenarios := pScenarios x; pStories := pStories x;
     pPlanDecisions := pPlanDecisions x; pGitHub := pGitHub x; pQALevel := pQALevel x;
     pQARun := pQARun x; pQAVerdictSummary := pQAVerdictSummary x;
     pAssembledBranch := pAssembledBranch x; pAssembledMergeCommit := pAssembledMergeCommit x;
     pInfraHealth := pInfraHealth x |}.

Definition set_pContext (v : string) (x : Plan) : Plan :=
  {| pID := pID x; pSlug := pSlug x; pTitle := pTitle x; pProjectID := pProjectID x;
     pStatus := pStatus x; pApproved := pApproved x; pCreatedAt := pCreatedAt x;
     pApprovedAt := pApprovedAt x; pReviewVerdict := pReviewVerdict x;
     pReviewSummary := pReviewSummary x; pReviewedAt := pReviewedAt x;
     pReviewFindings := pReviewFindings x;
     pReviewFormattedFindings := pReviewFormattedFindings x;
     pReviewIteration := pReviewIteration x;
     pAutoRejectOnExhaustion := pAutoRejectOnExhaustion x; pLastError := pLastError x;
     pLastErrorAt := pLastErrorAt x; pGoal := pGoal x; pContext := v;
     pConstraints := pConstraints x; pContract := pContract x; pScope := pScope x;
     pExploration := pExploration x; pExecutionTraceIDs := pExecutionTraceIDs x;
     pLLMCallHistory := pLLMCallHistory x; pSkipArchitecture := pSkipArchitecture x;
     pArchitecture := pArchitecture x; pPreviousArchitectureJSON := pPreviousArchitectureJSON x;
     pPendingArchitectureRevision := pPendingArchitectureRevision x;
     pRequirements := pRequirements x; pScenarios := pScenarios x; pStories := pStories x;
     pPlanDecisions := pPlanDecisions x; pGitHub := pGitHub x; pQALevel := pQALevel x;
     pQARun := pQARun x; pQAVerdictSummary := pQAVerdictSummary x;
     pAssembledBranch := pAssembledBranch x; pAssembledMergeCommit := pAssembledMergeCommit x;
     pInfraHealth := pInfraHealth x |}.

Definition set_pConstraints (v : list string) (x : Plan) : Plan :=
  {| pID := pID x; pSlug := pSlug x; pTitle := pTitle x; pProjectID := pProjectID x;
     pStatus := pStatus x; pApproved := pApproved x; pCreatedAt := pCreatedAt x;
     pApprovedAt := pApprovedAt x; pReviewVerdict := pReviewVerdict x;
     pReviewSummary := pReviewSummary x; pReviewedAt := pReviewedAt x;
     pReviewFindings := pReviewFindings x;
     pReviewFormattedFindings := pReviewFormattedFindings x;
     pReviewIteration := pReviewIteration x;
     pAutoRejectOnExhaustion := pAutoRejectOnExhaustion x; pLastError := pLastError x;
     pLastErrorAt := pLastErrorAt x; pGoal := pGoal x; pContext := pContext x; pConstraints := v;
     pContract := pContract x; pScope := pScope x; pExploration := pExploration x;
     pExecutionTraceIDs := pExecutionTraceIDs x; pLLMCallHistory := pLLMCallHistory x;
     pSkipArchitecture := pSkipArchitecture x; pArchitecture := pArchitecture x;
     pPreviousArchitectureJSON := pPreviousArchitectureJSON x;
     pPendingArchitectureRevision := pPendingArchitectureRevision x;
     pRequirements := pRequirements x; pScenarios := pScenarios x; pStories := pStories x;
     pPlanDecisions := pPlanDecisions x; pGitHub := pGitHub x; pQALevel := pQALevel x;
     pQARun := pQARun x; pQAVerdictSummary := pQAVerdictSummary x;
     pAssembledBranch := pAssembledBranch x; pAssembledMergeCommit := pAssembledMergeCommit x;
     pInfraHealth := pInfraHealth x |}.

Definition set_pContract (v : option ContractPacket) (x : Plan) : Plan :=
  {| pID := pID x; pSlug := pSlug x; pTitle := pTitle x; pProjectID := pProjectID x;
     pStatus := pStatus x; pApproved := pApproved x; pCreatedAt := pCreatedAt x;
     pApprovedAt := pApprovedAt x; pReviewVerdict := pReviewVerdict x;
     pReviewSummary := pReviewSummary x; pReviewedAt := pReviewedAt x;
     pReviewFindings := pReviewFindings x;
     pReviewFormattedFindings := pReviewFormattedFindings x;
     pReviewIteration := pReviewIteration x;
     pAutoRejectOnExhaustion := pAutoRejectOnExhaustion x; pLastError := pLastError x;
     pLastErrorAt := pLastErrorAt x; pGoal := pGoal x; pContext := pContext x;
     pConstraints := pConstraints x; pContract := v; pScope := pScope x;
     pExploration := pExploration x; pExecutionTraceIDs := pExecutionTraceIDs x;
     pLLMCallHistory := pLLMCallHistory x; pSkipArchitecture := pSkipArchitecture x;
     pArchitecture := pArchitecture x; pPreviousArchitectureJSON := pPreviousArchitectureJSON x;
     pPendingArchitectureRevision := pPendingArchitectureRevision x;
     pRequirements := pRequirements x; pScenarios := pScenarios x; pStories := pStories x;
     pPlanDecisions := pPlanDecisions x; pGitHub := pGitHub x; pQALevel := pQALevel x;
     pQARun := pQARun x; pQAVerdictSummary := pQAVerdictSummary x;
     pAssembledBranch := pAssembledBranch x; pAssembledMergeCommit := pAssembledMergeCommit x;
     pInfraHealth := pInfraHealth x |}.

Definition set_pScope (v : Scope) (x : Plan) : Plan :=
  {| pID := pID x; pSlug := pSlug x; pTitle := pTitle x; pProjectID := pProjectID x;
     pStatus := pStatus x; pApproved := pApproved x; pCreatedAt := pCreatedAt x;
     pApprovedAt := pApprovedAt x; pReviewVerdict := pReviewVerdict x;
     pReviewSummary := pReviewSummary x; pReviewedAt := pReviewedAt x;
     pReviewFindings := pReviewFindings x;
     pReviewFormattedFindings := pReviewFormattedFindings x;
     pReviewIteration := pReviewIteration x;
     pAutoRejectOnExhaustion := pAutoRejectOnExhaustion x; pLastError := pLastError x;
     pLastErrorAt := pLastErrorAt x; pGoal := pGoal x; pContext := pContext x;
     pConstraints := pConstraints x; pContract := pContract x; pScope := v;
     pExploration := pExploration x; pExecutionTraceIDs := pExecutionTraceIDs x;
     pLLMCallHistory := pLLMCallHistory x; pSkipArchitecture := pSkipArchitecture x;
     pArchitecture := pArchitecture x; pPreviousArchitectureJSON := pPreviousArchitectureJSON x;
     pPendingArchitectureRevision := pPendingArchitectureRevision x;
     pRequirements := pRequirements x; pScenarios := pScenarios x; pStories := pStories x;
     pPlanDecisions := pPlanDecisions x; pGitHub := pGitHub x; pQALevel := pQALevel x;
     pQARun := pQARun x; pQAVerdictSummary := pQAVerdictSummary x;
     pAssembledBranch := pAssembledBranch x; pAssembledMergeCommit := pAssembledMergeCommit x;
     pInfraHealth := pInfraHealth x |}.

Definition set_pExploration (v : option Exploration) (x : Plan) : Plan :=
  {| pID := pID x; pSlug := pSlug x; pTitle := pTitle x; pProjectID := pProjectID x;
     pStatus := pStatus x; pApproved := pApproved x; pCreatedAt := pCreatedAt x;
     pApprovedAt := pApprovedAt x; pReviewVerdict := pReviewVerdict x;
     pReviewSummary := pReviewSummary x; pReviewedAt := pReviewedAt x;
     pReviewFindings := pReviewFindings x;
     pReviewFormattedFindings := pReviewFormattedFindings x;
     pReviewIteration := pReviewIteration x;
     pAutoRejectOnExhaustion := pAutoRejectOnExhaustion x; pLastError := pLastError x;
     pLastErrorAt := pLastErrorAt x; pGoal := pGoal x; pContext := pContext x;
     pConstraints := pConstraints x; pContract := pContract x; pScope := pScope x;
     pExploration := v; pExecutionTraceIDs := pExecutionTraceIDs x;
     pLLMCallHistory := pLLMCallHistory x; pSkipArchitecture := pSkipArchitecture x;
     pArchitecture := pArchitecture x; pPreviousArchitectureJSON := pPreviousArchitectureJSON x;
     pPendingArchitectureRevision := pPendingArchitectureRevision x;
     pRequirements := pRequirements x; pScenarios := pScenarios x; pStories := pStories x;
     pPlanDecisions := pPlanDecisions x; pGitHub := pGitHub x; pQALevel := pQALevel x;
     pQARun := pQARun x; pQAVerdictSummary := pQAVerdictSummary x;
     pAssembledBranch := pAssembledBranch x; pAssembledMergeCommit := pAssembledMergeCommit x;
     pInfraHealth := pInfraHealth x |}.

Definition set_pArchitecture (v : option ArchitectureDocument) (x : Plan) : Plan :=
  {| pID := pID x; pSlug := pSlug x; pTitle := pTitle x; pProjectID := pProjectID x;
     pStatus := pStatus x; pApproved := pApproved x; pCreatedAt := pCreatedAt x;
     pApprovedAt := pApprovedAt x; pReviewVerdict := pReviewVerdict x;
     pReviewSummary := pReviewSummary x; pReviewedAt := pReviewedAt x;
     pReviewFindings := pReviewFindings x;
     pReviewFormattedFindings := pReviewFormattedFindings x;
     pReviewIteration := pReviewIteration x;
     pAutoRejectOnExhaustion := pAutoRejectOnExhaustion x; pLastError := pLastError x;
     pLastErrorAt := pLastErrorAt x; pGoal := pGoal x; pContext := pContext x;
     pConstraints := pConstraints x; pContract := pContract x; pScope := pScope x;
     pExploration := pExploration x; pExecutionTraceIDs := pExecutionTraceIDs x;
     pLLMCallHistory := pLLMCallHistory x; pSkipArchitecture := pSkipArchitecture x;
     pArchitecture := v; pPreviousArchitectureJSON := pPreviousArchitectureJSON x;
     pPendingArchitectureRevision := pPendingArchitectureRevision x;
     pRequirements := pRequirements x; pScenarios := pScenarios x; pStories := pStories x;
     pPlanDecisions := pPlanDecisions x; pGitHub := pGitHub x; pQALevel := pQALevel x;
     pQARun := pQARun x; pQAVerdictSummary := pQAVerdictSummary x;
     pAssembledBranch := pAssembledBranch x; pAssembledMergeCommit := pAssembledMergeCommit x;
     pInfraHealth := pInfraHealth x |}.

Definition set_pPreviousArchitectureJSON (v : string) (x : Plan) : Plan :=
  {| pID := pID x; pSlug := pSlug x; pTitle := pTitle x; pProjectID := pProjectID x;
     pStatus := pStatus x; pApproved := pApproved x; pCreatedAt := pCreatedAt x;
     pApprovedAt := pApprovedAt x; pReviewVerdict := pReviewVerdict x;
     pReviewSummary := pReviewSummary x; pReviewedAt := pReviewedAt x;
     pReviewFindings := pReviewFindings x;
     pReviewFormattedFindings := pReviewFormattedFindings x;
     pReviewIteration := pReviewIteration x;
     pAutoRejectOnExhaustion := pAutoRejectOnExhaustion x; pLastError := pLastError x;
     pLastErrorAt := pLastErrorAt x; pGoal := pGoal x; pContext := pContext x;
     pConstraints := pConstraints x; pContract := pContract x; pScope := pScope x;
     pExploration := pExploration x; pExecutionTraceIDs := pExecutionTraceIDs x;
     pLLMCallHistory := pLLMCallHistory x; pSkipArchitecture := pSkipArchitecture x;
     pArchitecture := pArchitecture x; pPreviousArchitectureJSON := v;
     pPendingArchitectureRevision := pPendingArchitectureRevision x;
     pRequirements := pRequirements x; pScenarios := pScenarios x; pStories := pStories x;
     pPlanDecisions := pPlanDecisions x; pGitHub := pGitHub x; pQALevel := pQALevel x;
     pQARun := pQARun x; pQAVerdictSummary := pQAVerdictSummary x;
     pAssembledBranch := pAssembledBranch x; pAssembledMergeCommit := pAssembledMergeCommit x;
     pInfraHealth := pInfraHealth x |}.

Definition set_pPendingArchitectureRevision (v : option ArchitectureRevisionScope) (x : Plan) : Plan :=
  {| pID := pID x; pSlug := pSlug x; pTitle := pTitle x; pProjectID := pProjectID x;
     pStatus := pStatus x; pApproved := pApproved x; pCreatedAt := pCreatedAt x;
     pApprovedAt := pApprovedAt x; pReviewVerdict := pReviewVerdict x;
     pReviewSummary := pReviewSummary x; pReviewedAt := pReviewedAt x;
     pReviewFindings := pReviewFindings x;
     pReviewFormattedFindings := pReviewFormattedFindings x;
     pReviewIteration := pReviewIteration x;
     pAutoRejectOnExhaustion := pAutoRejectOnExhaustion x; pLastError := pLastError x;
     pLastErrorAt := pLastErrorAt x; pGoal := pGoal x; pContext := pContext x;
     pConstraints := pConstraints x; pContract := pContract x; pScope := pScope x;
     pExploration := pExploration x; pExecutionTraceIDs := pExecutionTraceIDs x;
     pLLMCallHistory := pLLMCallHistory x; pSkipArchitecture := pSkipArchitecture x;
     pArchitecture := pArchitecture x; pPreviousArchitectureJSON := pPreviousArchitectureJSON x;
     pPendingArchitectureRevision := v; pRequirements := pRequirements x;
     pScenarios := pScenarios x; pStories := pStories x; pPlanDecisions := pPlanDecisions x;
     pGitHub := pGitHub x; pQALevel := pQALevel x; pQARun := pQARun x;
     pQAVerdictSummary := pQAVerdictSummary x; pAssembledBranch := pAssembledBranch x;
     pAssembledMergeCommit := pAssembledMergeCommit x; pInfraHealth := pInfraHealth x |}.

Definition set_pRequirements (v : list Requirement) (x : Plan) : Plan :=
  {| pID := pID x; pSlug := pSlug x; pTitle := pTitle x; pProjectID := pProjectID x;
     pStatus := pStatus x; pApproved := pApproved x; pCreatedAt := pCreatedAt x;
     pApprovedAt := pApprovedAt x; pReviewVerdict := pReviewVerdict x;
     pReviewSummary := pReviewSummary x; pReviewedAt := pReviewedAt x;
     pReviewFindings := pReviewFindings x;
     pReviewFormattedFindings := pReviewFormattedFindings x;
     pReviewIteration := pReviewIteration x;
     pAutoRejectOnExhaustion := pAutoRejectOnExhaustion x; pLastError := pLastError x;
     pLastErrorAt := pLastErrorAt x; pGoal := pGoal x; pContext := pContext x;
     pConstraints := pConstraints x; pContract := pContract x; pScope := pScope x;
     pExploration := pExploration x; pExecutionTraceIDs := pExecutionTraceIDs x;
     pLLMCallHistory := pLLMCallHistory x; pSkipArchitecture := pSkipArchitecture x;
     pArchitecture := pArchitecture x; pPreviousArchitectureJSON := pPreviousArchitectureJSON x;
     pPendingArchitectureRevision := pPendingArchitectureRevision x; pRequirements := v;
     pScenarios := pScenarios x; pStories := pStories x; pPlanDecisions := pPlanDecisions x;
     pGitHub := pGitHub x; pQALevel := pQALevel x; pQARun := pQARun x;
     pQAVerdictSummary := pQAVerdictSummary x; pAssembledBranch := pAssembledBranch x;
     pAssembledMergeCommit := pAssembledMergeCommit x; pInfraHealth := pInfraHealth x |}.

Definition set_pScenarios (v : list Scenario) (x : Plan) : Plan :=
  {| pID := pID x; pSlug := pSlug x; pTitle := pTitle x; pProjectID := pProjectID x;
     pStatus := pStatus x; pApproved := pApproved x; pCreatedAt := pCreatedAt x;
     pApprovedAt := pApprovedAt x; pReviewVerdict := pReviewVerdict x;
     pReviewSummary := pReviewSummary x; pReviewedAt := pReviewedAt x;
     pReviewFindings := pReviewFindings x;
     pReviewFormattedFindings := pReviewFormattedFindings x;
     pReviewIteration := pReviewIteration x;
     pAutoRejectOnExhaustion := pAutoRejectOnExhaustion x; pLastError := pLastError x;
     pLastErrorAt := pLastErrorAt x; pGoal := pGoal x; pContext := pContext x;
     pConstraints := pConstraints x; pContract := pContract x; pScope := pScope x;
     pExploration := pExploration x; pExecutionTraceIDs := pExecutionTraceIDs x;
     pLLMCallHistory := pLLMCallHistory x; pSkipArchitecture := pSkipArchitecture x;
     pArchitecture := pArchitecture x; pPreviousArchitectureJSON := pPreviousArchitectureJSON x;
     pPendingArchitectureRevision := pPendingArchitectureRevision x;
     pRequirements := pRequirements x; pScenarios := v; pStories := pStories x;
     pPlanDecisions := pPlanDecisions x; pGitHub := pGitHub x; pQALevel := pQALevel x;
     pQARun := pQARun x; pQAVerdictSummary := pQAVerdictSummary x;
     pAssembledBranch := pAssembledBranch x; pAssembledMergeCommit := pAssembledMergeCommit x;
     pInfraHealth := pInfraHealth x |}.

Definition set_pStories (v : list Story) (x : Plan) : Plan :=
  {| pID := pID x; pSlug := pSlug x; pTitle := pTitle x; pProjectID := pProjectID x;
     pStatus := pStatus x; pApproved := pApproved x; pCreatedAt := pCreatedAt x;
     pApprovedAt := pApprovedAt x; pReviewVerdict := pReviewVerdict x;
     pReviewSummary := pReviewSummary x; pReviewedAt := pReviewedAt x;
     pReviewFindings := pReviewFindings x;
     pReviewFormattedFindings := pReviewFormattedFindings x;
     pReviewIteration := pReviewIteration x;
     pAutoRejectOnExhaustion := pAutoRejectOnExhaustion x; pLastError := pLastError x;
     pLastErrorAt := pLastErrorAt x; pGoal := pGoal x; pContext := pContext x;
     pConstraints := pConstraints x; pContract := pContract x; pScope := pScope x;
     pExploration := pExploration x; pExecutionTraceIDs := pExecutionTraceIDs x;
     pLLMCallHistory := pLLMCallHistory x; pSkipArchitecture := pSkipArchitecture x;
     pArchitecture := pArchitecture x; pPreviousArchitectureJSON := pPreviousArchitectureJSON x;
     pPendingArchitectureRevision := pPendingArchitectureRevision x;
     pRequirements := pRequirements x; pScenarios := pScenarios x; pStories := v;
     pPlanDecisions := pPlanDecisions x; pGitHub := pGitHub x; pQALevel := pQALevel x;
     pQARun := pQARun x; pQAVerdictSummary := pQAVerdictSummary x;
     pAssembledBranch := pAssembledBranch x; pAssembledMergeCommit := pAssembledMergeCommit x;
     pInfraHealth := pInfraHealth x |}.

Definition set_pPlanDecisions (v : list PlanDecision) (x : Plan) : Plan :=
  {| pID := pID x; pSlug := pSlug x; pTitle := pTitle x; pProjectID := pProjectID x;
     pStatus := pStatus x; pApproved := pApproved x; pCreatedAt := pCreatedAt x;
     pApprovedAt := pApprovedAt x; pReviewVerdict := pReviewVerdict x;
     pReviewSummary := pReviewSummary x; pReviewedAt := pReviewedAt x;
     pReviewFindings := pReviewFindings x;
     pReviewFormattedFindings := pReviewFormattedFindings x;
     pReviewIteration := pReviewIteration x;
     pAutoRejectOnExhaustion := pAutoRejectOnExhaustion x; pLastError := pLastError x;
     pLastErrorAt := pLastErrorAt x; pGoal := pGoal x; pContext := pContext x;
     pConstraints := pConstraints x; pContract := pContract x; pScope := pScope x;
     pExploration := pExploration x; pExecutionTraceIDs := pExecutionTraceIDs x;
     pLLMCallHistory := pLLMCallHistory x; pSkipArchitecture := pSkipArchitecture x;
     pArchitecture := pArchitecture x; pPreviousArchitectureJSON := pPreviousArchitectureJSON x;
     pPendingArchitectureRevision := pPendingArchitectureRevision x;
     pRequirements := pRequirements x; pScenarios := pScenarios x; pStories := pStories x;
     pPlanDecisions := v; pGitHub := pGitHub x; pQALevel := pQALevel x; pQARun := pQARun x;
     pQAVerdictSummary := pQAVerdictSummary x; pAssembledBranch := pAssembledBranch x;
     pAssembledMergeCommit := pAssembledMergeCommit x; pInfraHealth := pInfraHealth x |}.

Definition set_pGitHub (v : option GitHubMetadata) (x : Plan) : Plan :=
  {| pID := pID x; pSlug := pSlug x; pTitle := pTitle x; pProjectID := pProjectID x;
     pStatus := pStatus x; pApproved := pApproved x; pCreatedAt := pCreatedAt x;
     pApprovedAt := pApprovedAt x; pReviewVerdict := pReviewVerdict x;
     pReviewSummary := pReviewSummary x; pReviewedAt := pReviewedAt x;
     pReviewFindings := pReviewFindings x;
     pReviewFormattedFindings := pReviewFormattedFindings x;
     pReviewIteration := pReviewIteration x;
     pAutoRejectOnExhaustion := pAutoRejectOnExhaustion x; pLastError := pLastError x;
     pLastErrorAt := pLastErrorAt x; pGoal := pGoal x; pContext := pContext x;
     pConstraints := pConstraints x; pContract := pContract x; pScope := pScope x;
     pExploration := pExploration x; pExecutionTraceIDs := pExecutionTraceIDs x;
     pLLMCallHistory := pLLMCallHistory x; pSkipArchitecture := pSkipArchitecture x;
     pArchitecture := pArchitecture x; pPreviousArchitectureJSON := pPreviousArchitectureJSON x;
     pPendingArchitectureRevision := pPendingArchitectureRevision x;
     pRequirements := pRequirements x; pScenarios := pScenarios x; pStories := pStories x;
     pPlanDecisions := pPlanDecisions x; pGitHub := v; pQALevel := pQALevel x;
     pQARun := pQARun x; pQAVerdictSummary := pQAVerdictSummary x;
     pAssembledBranch := pAssembledBranch x; pAssembledMergeCommit := pAssembledMergeCommit x;
     pInfraHealth := pInfraHealth x |}.

Definition set_pQALevel (v : QALevel) (x : Plan) : Plan :=
  {| pID := pID x; pSlug := pSlug x; pTitle := pTitle x; pProjectID := pProjectID x;
     pStatus := pStatus x; pApproved := pApproved x; pCreatedAt := pCreatedAt x;
     pApprovedAt := pApprovedAt x; pReviewVerdict := pReviewVerdict x;
     pReviewSummary := pReviewSummary x; pReviewedAt := pReviewedAt x;
     pReviewFindings := pReviewFindings x;
     pReviewFormattedFindings := pReviewFormattedFindings x;
     pReviewIteration := pReviewIteration x;
     pAutoRejectOnExhaustion := pAutoRejectOnExhaustion x; pLastError := pLastError x;
     pLastErrorAt := pLastErrorAt x; pGoal := pGoal x; pContext := pContext x;
     pConstraints := pConstraints x; pContract := pContract x; pScope := pScope x;
     pExploration := pExploration x; pExecutionTraceIDs := pExecutionTraceIDs x;
     pLLMCallHistory := pLLMCallHistory x; pSkipArchitecture := pSkipArchitecture x;
     pArchitecture := pArchitecture x; pPreviousArchitectureJSON := pPreviousArchitectureJSON x;
     pPendingArchitectureRevision := pPendingArchitectureRevision x;
     pRequirements := pRequirements x; pScenarios := pScenarios x; pStories := pStories x;
     pPlanDecisions := pPlanDecisions x; pGitHub := pGitHub x; pQALevel := v; pQARun := pQARun x;
     pQAVerdictSummary := pQAVerdictSummary x; pAssembledBranch := pAssembledBranch x;
     pAssembledMergeCommit := pAssembledMergeCommit x; pInfraHealth := pInfraHealth x |}.

Definition set_pQARun (v : option QARun) (x : Plan) : Plan :=
  {| pID := pID x; pSlug := pSlug x; pTitle := pTitle x; pProjectID := pProjectID x;
     pStatus := pStatus x; pApproved := pApproved x; pCreatedAt := pCreatedAt x;
     pApprovedAt := pApprovedAt x; pReviewVerdict := pReviewVerdict x;
     pReviewSummary := pReviewSummary x; pReviewedAt := pReviewedAt x;
     pReviewFindings := pReviewFindings x;
     pReviewFormattedFindings := pReviewFormattedFindings x;
     pReviewIteration := pReviewIteration x;
     pAutoRejectOnExhaustion := pAutoRejectOnExhaustion x; pLastError := pLastError x;
     pLastErrorAt := pLastErrorAt x; pGoal := pGoal x; pContext := pContext x;
     pConstraints := pConstraints x; pContract := pContract x; pScope := pScope x;
     pExploration := pExploration x; pExecutionTraceIDs := pExecutionTraceIDs x;
     pLLMCallHistory := pLLMCallHistory x; pSkipArchitecture := pSkipArchitecture x;
     pArchitecture := pArchitecture x; pPreviousArchitectureJSON := pPreviousArchitectureJSON x;
     pPendingArchitectureRevision := pPendingArchitectureRevision x;
     pRequirements := pRequirements x; pScenarios := pScenarios x; pStories := pStories x;
     pPlanDecisions := pPlanDecisions x; pGitHub := pGitHub x; pQALevel := pQALevel x;
     pQARun := v; pQAVerdictSummary := pQAVerdictSummary x;
     pAssembledBranch := pAssembledBranch x; pAssembledMergeCommit := pAssembledMergeCommit x;
     pInfraHealth := pInfraHealth x |}.

Definition set_pQAVerdictSummary (v : option QAVerdictSummary) (x : Plan) : Plan :=
  {| pID := pID x; pSlug := pSlug x; pTitle := pTitle x; pProjectID := pProjectID x;
     pStatus := pStatus x; pApproved := pApproved x; pCreatedAt := pCreatedAt x;
     pApprovedAt := pApprovedAt x; pReviewVerdict := pReviewVerdict x;
     pReviewSummary := pReviewSummary x; pReviewedAt := pReviewedAt x;
     pReviewFindings := pReviewFindings x;
     pReviewFormattedFindings := pReviewFormattedFindings x;
     pReviewIteration := pReviewIteration x;
     pAutoRejectOnExhaustion := pAutoRejectOnExhaustion x; pLastError := pLastError x;
     pLastErrorAt := pLastErrorAt x; pGoal := pGoal x; pContext := pContext x;
     pConstraints := pConstraints x; pContract := pContract x; pScope := pScope x;
     pExploration := pExploration x; pExecutionTraceIDs := pExecutionTraceIDs x;
     pLLMCallHistory := pLLMCallHistory x; pSkipArchitecture := pSkipArchitecture x;
     pArchitecture := pArchitecture x; pPreviousArchitectureJSON := pPreviousArchitectureJSON x;
     pPendingArchitectureRevision := pPendingArchitectureRevision x;
     pRequirements := pRequirements x; pScenarios := pScenarios x; pStories := pStories x;
     pPlanDecisions := pPlanDecisions x; pGitHub := pGitHub x; pQALevel := pQALevel x;
     pQARun := pQARun x; pQAVerdictSummary := v; pAssembledBranch := pAssembledBranch x;
     pAssembledMergeCommit := pAssembledMergeCommit x; pInfraHealth := pInfraHealth x |}.

Definition set_pAssembledBranch (v : string) (x : Plan) : Plan :=
  {| pID := pID x; pSlug := pSlug x; pTitle := pTitle x; pProjectID := pProjectID x;
     pStatus := pStatus x; pApproved := pApproved x; pCreatedAt := pCreatedAt x;
     pApprovedAt := pApprovedAt x; pReviewVerdict := pReviewVerdict x;
     pReviewSummary := pReviewSummary x; pReviewedAt := pReviewedAt x;
     pReviewFindings := pReviewFindings x;
     pReviewFormattedFindings := pReviewFormattedFindings x;
     pReviewIteration := pReviewIteration x;
     pAutoRejectOnExhaustion := pAutoRejectOnExhaustion x; pLastError := pLastError x;
     pLastErrorAt := pLastErrorAt x; pGoal := pGoal x; pContext := pContext x;
     pConstraints := pConstraints x; pContract := pContract x; pScope := pScope x;
     pExploration := pExploration x; pExecutionTraceIDs := pExecutionTraceIDs x;
     pLLMCallHistory := pLLMCallHistory x; pSkipArchitecture := pSkipArchitecture x;
     pArchitecture := pArchitecture x; pPreviousArchitectureJSON := pPreviousArchitectureJSON x;
     pPendingArchitectureRevision := pPendingArchitectureRevision x;
     pRequirements := pRequirements x; pScenarios := pScenarios x; pStories := pStories x;
     pPlanDecisions := pPlanDecisions x; pGitHub := pGitHub x; pQALevel := pQALevel x;
     pQARun := pQARun x; pQAVerdictSummary := pQAVerdictSummary x; pAssembledBranch := v;
     pAssembledMergeCommit := pAssembledMergeCommit x; pInfraHealth := pInfraHealth x |}.

Definition set_pAssembledMergeCommit (v : string) (x : Plan) : Plan :=
  {| pID := pID x; pSlug := pSlug x; pTitle := pTitle x; pProjectID := pProjectID x;
     pStatus := pStatus x; pApproved := pApproved x; pCreatedAt := pCreatedAt x;
     pApprovedAt := pApprovedAt x; pReviewVerdict := pReviewVerdict x;
     pReviewSummary := pReviewSummary x; pReviewedAt := pReviewedAt x;
     pReviewFindings := pReviewFindings x;
     pReviewFormattedFindings := pReviewFormattedFindings x;
     pReviewIteration := pReviewIteration x;
     pAutoRejectOnExhaustion := pAutoRejectOnExhaustion x; pLastError := pLastError x;
     pLastErrorAt := pLastErrorAt x; pGoal := pGoal x; pContext := pContext x;
     pConstraints := pConstraints x; pContract := pContract x; pScope := pScope x;
     pExploration := pExploration x; pExecutionTraceIDs := pExecutionTraceIDs x;
     pLLMCallHistory := pLLMCallHistory x; pSkipArchitecture := pSkipArchitecture x;
     pArchitecture := pArchitecture x; pPreviousArchitectureJSON := pPreviousArchitectureJSON x;
     pPendingArchitectureRevision := pPendingArchitectureRevision x;
     pRequirements := pRequirements x; pScenarios := pScenarios x; pStories := pStories x;
     pPlanDecisions := pPlanDecisions x; pGitHub := pGitHub x; pQALevel := pQALevel x;
     pQARun := pQARun x; pQAVerdictSummary := pQAVerdictSummary x;
     pAssembledBranch := pAssembledBranch x; pAssembledMergeCommit := v;
     pInfraHealth := pInfraHealth x |}.

Definition set_pInfraHealth (v : string) (x : Plan) : Plan :=
  {| pID := pID x; pSlug := pSlug x; pTitle := pTitle x; pProjectID := pProjectID x;
     pStatus := pStatus x; pApproved := pApproved x; pCreatedAt := pCreatedAt x;
     pApprovedAt := pApprovedAt x; pReviewVerdict := pReviewVerdict x;
     pReviewSummary := pReviewSummary x; pReviewedAt := pReviewedAt x;
     pReviewFindings := pReviewFindings x;
     pReviewFormattedFindings := pReviewFormattedFindings x;
     pReviewIteration := pReviewIteration x;
     pAutoRejectOnExhaustion := pAutoRejectOnExhaustion x; pLastError := pLastError x;
     pLastErrorAt := pLastErrorAt x; pGoal := pGoal x; pContext := pContext x;
     pConstraints := pConstraints x; pContract := pContract x; pScope := pScope x;
     pExploration := pExploration x; pExecutionTraceIDs := pExecutionTraceIDs x;
     pLLMCallHistory := pLLMCallHistory x; pSkipArchitecture := pSkipArchitecture x;
     pArchitecture := pArchitecture x; pPreviousArchitectureJSON := pPreviousArchitectureJSON x;
     pPendingArchitectureRevision := pPendingArchitectureRevision x;
     pRequirements := pRequirements x; pScenarios := pScenarios x; pStories := pStories x;
     pPlanDecisions := pPlanDecisions x; pGitHub := pGitHub x; pQALevel := pQALevel x;
     pQARun := pQARun x; pQAVerdictSummary := pQAVerdictSummary x;
     pAssembledBranch := pAssembledBranch x; pAssembledMergeCommit := pAssembledMergeCommit x;
     pInfraHealth := v |}.

Definition set_pID (v : string) (x : Plan) : Plan :=
  {| pID := v; pSlug := pSlug x; pTitle := pTitle x; pProjectID := pProjectID x;
     pStatus := pStatus x; pApproved := pApproved x; pCreatedAt := pCreatedAt x;
     pApprovedAt := pApprovedAt x; pReviewVerdict := pReviewVerdict x;
     pReviewSummary := pReviewSummary x; pReviewedAt := pReviewedAt x;
     pReviewFindings := pReviewFindings x;
     pReviewFormattedFindings := pReviewFormattedFindings x;
     pReviewIteration := pReviewIteration x;
     pAutoRejectOnExhaustion := pAutoRejectOnExhaustion x; pLastError := pLastError x;
     pLastErrorAt := pLastErrorAt x; pGoal := pGoal x; pContext := pContext x;
     pConstraints := pConstraints x; pContract := pContract x; pScope := pScope x;
     pExploration := pExploration x; pExecutionTraceIDs := pExecutionTraceIDs x;
     pLLMCallHistory := pLLMCallHistory x; pSkipArchitecture := pSkipArchitecture x;
     pArchitecture := pArchitecture x; pPreviousArchitectureJSON := pPreviousArchitectureJSON x;
     pPendingArchitectureRevision := pPendingArchitectureRevision x;
     pRequirements := pRequirements x; pScenarios := pScenarios x; pStories := pStories x;
     pPlanDecisions := pPlanDecisions x; pGitHub := pGitHub x; pQALevel := pQALevel x;
     pQARun := pQARun x; pQAVerdictSummary := pQAVerdictSummary x;
     pAssembledBranch := pAssembledBranch x; pAssembledMergeCommit := pAssembledMergeCommit x;
     pInfraHealth := pInfraHealth x |}.

Definition set_pTitle (v : string) (x : Plan) : Plan :=
  {| pID := pID x; pSlug := pSlug x; pTitle := v; pProjectID := pProjectID x;
     pStatus := pStatus x; pApproved := pApproved x; pCreatedAt := pCreatedAt x;
     pApprovedAt := pApprovedAt x; pReviewVerdict := pReviewVerdict x;
     pReviewSummary := pReviewSummary x; pReviewedAt := pReviewedAt x;
     pReviewFindings := pReviewFindings x;
     pReviewFormattedFindings := pReviewFormattedFindings x;
     pReviewIteration := pReviewIteration x;
     pAutoRejectOnExhaustion := pAutoRejectOnExhaustion x; pLastError := pLastError x;
     pLastErrorAt := pLastErrorAt x; pGoal := pGoal x; pContext := pContext x;
     pConstraints := pConstraints x; pContract := pContract x; pScope := pScope x;
     pExploration := pExploration x; pExecutionTraceIDs := pExecutionTraceIDs x;
     pLLMCallHistory := pLLMCallHistory x; pSkipArchitecture := pSkipArchitecture x;
     pArchitecture := pArchitecture x; pPreviousArchitectureJSON := pPreviousArchitectureJSON x;
     pPendingArchitectureRevision := pPendingArchitectureRevision x;
     pRequirements := pRequirements x; pScenarios := pScenarios x; pStories := pStories x;
     pPlanDecisions := pPlanDecisions x; pGitHub := pGitHub x; pQALevel := pQALevel x;
     pQARun := pQARun x; pQAVerdictSummary := pQAVerdictSummary x;
     pAssembledBranch := pAssembledBranch x; pAssembledMergeCommit := pAssembledMergeCommit x;
     pInfraHealth := pInfraHealth x |}.

Definition set_pProjectID (v : string) (x : Plan) : Plan :=
  {| pID := pID x; pSlug := pSlug x; pTitle := pTitle x; pProjectID := v; pStatus := pStatus x;
     pApproved := pApproved x; pCreatedAt := pCreatedAt x; pApprovedAt := pApprovedAt x;
     pReviewVerdict := pReviewVerdict x; pReviewSummary := pReviewSummary x;
     pReviewedAt := pReviewedAt x; pReviewFindings := pReviewFindings x;
     pReviewFormattedFindings := pReviewFormattedFindings x;
     pReviewIteration := pReviewIteration x;
     pAutoRejectOnExhaustion := pAutoRejectOnExhaustion x; pLastError := pLastError x;
     pLastErrorAt := pLastErrorAt x; pGoal := pGoal x; pContext := pContext x;
     pConstraints := pConstraints x; pContract := pContract x; pScope := pScope x;
     pExploration := pExploration x; pExecutionTraceIDs := pExecutionTraceIDs x;
     pLLMCallHistory := pLLMCallHistory x; pSkipArchitecture := pSkipArchitecture x;
     pArchitecture := pArchitecture x; pPreviousArchitectureJSON := pPreviousArchitectureJSON x;
     pPendingArchitectureRevision := pPendingArchitectureRevision x;
     pRequirements := pRequirements x; pScenarios := pScenarios x; pStories := pStories x;
     pPlanDecisions := pPlanDecisions x; pGitHub := pGitHub x; pQALevel := pQALevel x;
     pQARun := pQARun x; pQAVerdictSummary := pQAVerdictSummary x;
     pAssembledBranch := pAssembledBranch x; pAssembledMergeCommit := pAssembledMergeCommit x;
     pInfraHealth := pInfraHealth x |}.

Definition set_pCreatedAt (v : Z) (x : Plan) : Plan :=
  {| pID := pID x; pSlug := pSlug x; pTitle := pTitle x; pProjectID := pProjectID x;
     pStatus := pStatus x; pApproved := pApproved x; pCreatedAt := v;
     pApprovedAt := pApprovedAt x; pReviewVerdict := pReviewVerdict x;
     pReviewSummary := pReviewSummary x; pReviewedAt := pReviewedAt x;
     pReviewFindings := pReviewFindings x;
     pReviewFormattedFindings := pReviewFormattedFindings x;
     pReviewIteration := pReviewIteration x;
     pAutoRejectOnExhaustion := pAutoRejectOnExhaustion x; pLastError := pLastError x;
     pLastErrorAt := pLastErrorAt x; pGoal := pGoal x; pContext := pContext x;
     pConstraints := pConstraints x; pContract := pContract x; pScope := pScope x;
     pExploration := pExploration x; pExecutionTraceIDs := pExecutionTraceIDs x;
     pLLMCallHistory := pLLMCallHistory x; pSkipArchitecture := pSkipArchitecture x;
     pArchitecture := pArchitecture x; pPreviousArchitectureJSON := pPreviousArchitectureJSON x;
     pPendingArchitectureRevision := pPendingArchitectureRevision x;
     pRequirements := pRequirements x; pScenarios := pScenarios x; pStories := pStories x;
     pPlanDecisions := pPlanDecisions x; pGitHub := pGitHub x; pQALevel := pQALevel x;
     pQARun := pQARun x; pQAVerdictSummary := pQAVerdictSummary x;
     pAssembledBranch := pAssembledBranch x; pAssembledMergeCommit := pAssembledMergeCommit x;
     pInfraHealth := pInfraHealth x |}.

Definition set_pSkipArchitecture (v : bool) (x : Plan) : Plan :=
  {| pID := pID x; pSlug := pSlug x; pTitle := pTitle x; pProjectID := pProjectID x;
     pStatus := pStatus x; pApproved := pApproved x; pCreatedAt := pCreatedAt x;
     pApprovedAt := pApprovedAt x; pReviewVerdict := pReviewVerdict x;
     pReviewSummary := pReviewSummary x; pReviewedAt := pReviewedAt x;
     pReviewFindings := pReviewFindings x;
     pReviewFormattedFindings := pReviewFormattedFindings x;
     pReviewIteration := pReviewIteration x;
     pAutoRejectOnExhaustion := pAutoRejectOnExhaustion x; pLastError := pLastError x;
     pLastErrorAt := pLastErrorAt x; pGoal := pGoal x; pContext := pContext x;
     pConstraints := pConstraints x; pContract := pContract x; pScope := pScope x;
     pExploration := pExploration x; pExecutionTraceIDs := pExecutionTraceIDs x;
     pLLMCallHistory := pLLMCallHistory x; pSkipArchitecture := v;
     pArchitecture := pArchitecture x; pPreviousArchitectureJSON := pPreviousArchitectureJSON x;
     pPendingArchitectureRevision := pPendingArchitectureRevision x;
     pRequirements := pRequirements x; pScenarios := pScenarios x; pStories := pStories x;
     pPlanDecisions := pPlanDecisions x; pGitHub := pGitHub x; pQALevel := pQALevel x;
     pQARun := pQARun x; pQAVerdictSummary := pQAVerdictSummary x;
     pAssembledBranch := pAssembledBranch x; pAssembledMergeCommit := pAssembledMergeCommit x;
     pInfraHealth := pInfraHealth x |}.

(** ** Accessors of [Plan] *)

(** A slice search by ID: the index of the first match and the element. *)
Definition find_by {A} (key : A → string) (l : list A) (id : string) : option (nat * A) :=
  list_find (λ x, key x = id) l.

Definition FindRequirement (p : Plan) (id : string) := find_by rID (pRequirements p) id.
Definition FindScenario (p : Plan) (id : string) := find_by scID (pScenarios p) id.
Definition FindPlanDecision (p : Plan) (id : string) := find_by dID (pPlanDecisions p) id.
Definition FindStory (p : Plan) (id : string) := find_by sID (pStories p) id.
Definition FindCapability (e : option Exploration) (name : string) : option (nat * Capability) :=
  match e with None => None | Some e => find_by capName (exCapabilities e) name end.

Definition ScenariosForRequirement (p : Plan) (reqID : string) : list Scenario :=
  filter (λ s, scRequirementID s = reqID) (pScenarios p).

Definition ScenariosForStory (p : Plan) (storyID : string) : list Scenario :=
  filter (λ s, scStoryID s = storyID) (pScenarios p).

Definition StoriesForRequirement (p : Plan) (reqID : string) : list Story :=
  filter (λ s, reqID ∈ sRequirementIDs s) (pStories p).

(** The task with its story's index and its own. *)
Fixpoint find_task (si : nat) (ss : list Story) (id : string) : option (nat * nat * Task) :=
  match ss with
  | [] => None
  | s :: ss =>
      match find_by tID (sTasks s) id with
      | Some (ti, t) => Some (si, ti, t)
      | None => find_task (S si) ss id
      end
  end.

Definition FindTask (p : Plan) (id : string) : option (nat * nat * Task) :=
  find_task 0 (pStories p) id.

(** [func (p *Plan) EffectiveStatus() Status] *)
Definition EffectiveStatus (p : Plan) : Status :=
  if pStatus p !=? StatusOther "" then pStatus p
  else if pApproved p then StatusApproved
  else if pReviewVerdict p =? "needs_changes" then StatusReviewed
  else if pReviewVerdict p =? "approved" then StatusReviewed
  else if (pGoal p !=? "") && (pContext p !=? "") then StatusDrafted
  else match pExploration p with Some _ => StatusExplored | None => StatusCreated end.

(** [func (p *Plan) EffectiveQALevel() QALevel] *)
Definition EffectiveQALevel (p : Plan) : QALevel :=
  if QALevel_IsValid (pQALevel p) then pQALevel p else QALevelSynthesis.

(** [PrimaryRequirementID], [DeterministicStoryOwner] (workflow/story_task.go) *)
Definition PrimaryRequirementID (s : Story) : string := default "" (head (sRequirementIDs s)).

Definition DeterministicStoryOwner (s : Story) : string :=
  if is_nil (sRequirementIDs s) then ""
  else default "" (head (sort_strings (sRequirementIDs s))).

(** ** Lemmas *)

Lemma find_by_Some {A} (key : A → string) l id i x :
  find_by key l id = Some (i, x) → l !! i = Some x ∧ key x = id ∧ x ∈ l.
Proof.
  intros (H1 & H2 & _)%list_find_Some. split_and!; [done..|]. by eapply list_elem_of_lookup_2.
Qed.

Lemma find_by_None {A} (key : A → string) l id :
  find_by key l id = None ↔ ∀ x, x ∈ l → key x ≠ id.
Proof. unfold find_by. rewrite list_find_None, Forall_forall. done. Qed.

(** The plan status is never guessed to be something undeclared: an
    explicit status is returned as it is, the inferred ones are valid. *)
Lemma EffectiveStatus_valid p :
  pStatus p = StatusOther "" ∨ Status_IsValid (pStatus p) = true →
  Status_IsValid (EffectiveStatus p) = true.
Proof.
  unfold EffectiveStatus. intros [->|H].
  - rewrite eqb_refl. simpl. by repeat case_match.
  - destruct (pStatus p =? StatusOther "") eqn:E; simpl; [|done].
    by repeat case_match.
Qed.

Lemma EffectiveStatus_set p s : Status_IsValid s = true → EffectiveStatus (set_pStatus s p) = s.
Proof. unfold EffectiveStatus. by destruct s. Qed.

Lemma EffectiveQALevel_valid p : QALevel_IsValid (EffectiveQALevel p) = true.
Proof. unfold EffectiveQALevel. by destruct (QALevel_IsValid (pQALevel p)) eqn:E. Qed.

(** The owner is a covered requirement, and the least of them. *)
Lemma DeterministicStoryOwner_least s :
  sRequirementIDs s ≠ [] →
  DeterministicStoryOwner s ∈ sRequirementIDs s ∧
  ∀ r, r ∈ sRequirementIDs s → String.le (DeterministicStoryOwner s) r.
Proof.
  intros Hne. unfold DeterministicStoryOwner. rewrite (proj2 (is_nil_false _)) by done.
  destruct (sort_strings (sRequirementIDs s)) as [|o l] eqn:E.
  { apply (f_equal length) in E. rewrite sort_strings_perm in E. by destruct (sRequirementIDs s). }
  simpl. assert (Hin : ∀ r, r ∈ sRequirementIDs s ↔ r ∈ o :: l).
  { intros r. by rewrite <- E, elem_of_sort_strings. }
  split; [apply Hin; set_solver|]. intros r Hr%Hin.
  assert (Hs := sort_strings_sorted (sRequirementIDs s)). rewrite E in Hs.
  apply elem_of_cons in Hr as [->|Hr]; [reflexivity|].
  apply StronglySorted_inv in Hs as [_ Hs]. rewrite Forall_forall in Hs. by apply Hs.
Qed.

(** Only the set of covered requirements matters, not the order in which
    the story lists them. *)
Lemma DeterministicStoryOwner_perm s t :
  sRequirementIDs s ≡ₚ sRequirementIDs t →
  DeterministicStoryOwner s = DeterministicStoryOwner t.
Proof.
  intros H. unfold DeterministicStoryOwner. rewrite (sort_strings_ext _ _ H).
  destruct (sRequirementIDs s), (sRequirementIDs t); try done;
    apply Permutation_length in H; done.
Qed.
