(* ===== verification/Stories.v ===== *)
(** * Plan validators

    The structural gates a plan passes before execution:
    [ValidateRequirementDAG] (workflow/plan_requirement.go), the story, task,
    architecture and upstream validators of workflow/plan_story.go, the
    capability validators of workflow/plan_capability.go, the scenario tag
    validator of workflow/plan_scenario.go and the ownership gate of
    workflow/file_ownership.go.  Each validator returns [None] for [nil] and
    otherwise the sentinel error with the data it is formatted from; each
    comes with the property it decides. *)

From Stdlib Require Import Ascii.
From S2P Require Import Prelude Graphs Status Paths Types.

(** ** Errors *)

Inductive story_defect :=
| StoryMissingID
| StoryMissingRequirementIDs (id : string)
| StoryMissingComponent (id : string)
| StoryMissingTitle (id : string)
| StoryEmptyFilesOwned (id : string)
| StoryDocsOnly (id : string)
| StoryEmptyTasks (id : string)
| StoryRequirementOrphan (id rid : string)
| StoryUnresolvedComponent (id comp : string)
| StoryFileOutsideComponent (id comp file : string)
| CapabilityIndexOutOfRange (comp : string) (idx : Z)
| CapabilityCoverageIncomplete (uncovered declared : list string)
| ComponentEmptyFiles (comp : string)
| ComponentDocsOnly (comp : string)
| ComponentEmptyCapabilities (comp : string)
| UpstreamImports (missing bare : list (string * string)).

Inductive task_defect :=
| TaskMissingID (story : string)
| TaskWrongStory (id claimed story : string)
| TaskMissingDescription (id : string).

Inductive story_error :=
| ErrInvalidRequirementDAG (e : dag_error)
| ErrInvalidStoryDAG (e : dag_error)
| ErrInvalidStoryStructure (d : story_defect)
| ErrInvalidStoryFileOwnership (a b : string) (shared : list string)
| ErrInvalidTaskDAG (story : string) (e : dag_error)
| ErrInvalidTaskStructure (d : task_defect)
| ErrSameComponentFileConflict (a b comp : string) (shared : list string)
| ErrCoveragePartitionCyclic (cycle : list string).

(** ** Dependency graphs of requirements, stories and tasks *)

Definition req_node (r : Requirement) : string * list string := (rID r, rDependsOn r).
Definition story_node (s : Story) : string * list string := (sID s, sDependsOn s).
Definition task_node (t : Task) : string * list string := (tID t, tDependsOn t).

Definition ValidateRequirementDAG (requirements : list Requirement) : option story_error :=
  ErrInvalidRequirementDAG <$> validate_dag (req_node <$> requirements).

Definition ValidateStoryDAG (stories : list Story) : option story_error :=
  ErrInvalidStoryDAG <$> validate_dag (story_node <$> stories).

Definition ValidateTaskDAG (parentStoryID : string) (tasks : list Task) : option story_error :=
  ErrInvalidTaskDAG parentStoryID <$> validate_dag (task_node <$> tasks).

(** ** One story, one task *)

Definition hasSourceFile (paths : list string) : bool :=
  existsb (λ p, negb (IsDocumentationPath p)) paths.

Definition ValidateStory (s : Story) : option story_error :=
  if sID s =? "" then Some (ErrInvalidStoryStructure StoryMissingID)
  else if is_nil (sRequirementIDs s)
  then Some (ErrInvalidStoryStructure (StoryMissingRequirementIDs (sID s)))
  else if sComponentName s =? ""
  then Some (ErrInvalidStoryStructure (StoryMissingComponent (sID s)))
  else if TrimSpace (sTitle s) =? ""
  then Some (ErrInvalidStoryStructure (StoryMissingTitle (sID s)))
  else if sStatus s =? StoryStatusPending then None
  else if is_nil (sFilesOwned s)
  then Some (ErrInvalidStoryStructure (StoryEmptyFilesOwned (sID s)))
  else if negb (hasSourceFile (sFilesOwned s))
  then Some (ErrInvalidStoryStructure (StoryDocsOnly (sID s)))
  else if is_nil (sTasks s) then Some (ErrInvalidStoryStructure (StoryEmptyTasks (sID s)))
  else None.

Definition ValidateTask (parentStoryID : string) (t : Task) : option story_error :=
  if tID t =? "" then Some (ErrInvalidTaskStructure (TaskMissingID parentStoryID))
  else if tStoryID t !=? parentStoryID
  then Some (ErrInvalidTaskStructure (TaskWrongStory (tID t) (tStoryID t) parentStoryID))
  else if TrimSpace (tDescription t) =? ""
  then Some (ErrInvalidTaskStructure (TaskMissingDescription (tID t)))
  else None.

(** ** File ownership across stories *)

(** The normalized, non-empty paths of [FilesOwned]. *)
Definition normalized_files (s : Story) : gset string :=
  list_to_set (NormalizeFilePaths (sFilesOwned s)).

(** [len(set)]-guarded sorted intersection. *)
Definition sharedFiles (a b : gset string) : list string :=
  if bool_decide (size a = 0) || bool_decide (size b = 0) then []
  else
    let small := if bool_decide (size b < size a) then b else a in
    let large := if bool_decide (size b < size a) then a else b in
    sort_strings (filter (λ f, f ∈ large) (elements small)).

(** The transitive [DependsOn] closure of every story, by story ID. *)
Definition buildStoryClosure (stories : list Story) : gmap string (gset string) :=
  let adj := adj_of (story_node <$> stories) in
  map_of ((λ s, (sID s, bfs_closure adj (succs adj (sID s)))) <$> stories).

(** [closure\[a\]\[b\]] *)
Definition in_closure (closure : gmap string (gset string)) (a b : string) : bool :=
  bool_decide (b ∈ default ∅ (closure !! a)).

(** In [ValidateStoryFileOwnership] the queue starts from the story's own
    [DependsOn] slice. *)
Definition ownership_closure (stories : list Story) : gmap string (gset string) :=
  let adj := adj_of (story_node <$> stories) in
  map_of ((λ s, (sID s, bfs_closure adj (sDependsOn s))) <$> stories).

Definition ValidateStoryFileOwnership (stories : list Story) : option story_error :=
  if bool_decide (length stories < 2) then None else
  let closure := ownership_closure stories in
  let normalized := map_of ((λ s, (sID s, normalized_files s)) <$> stories) in
  let files id := default ∅ (normalized !! id) in
  first_pair (λ a b,
    let shared := sharedFiles (files (sID a)) (files (sID b)) in
    if is_nil shared then None
    else if negb (in_closure closure (sID a) (sID b)) && negb (in_closure closure (sID b) (sID a))
    then Some (ErrInvalidStoryFileOwnership (sID a) (sID b) shared)
    else None) stories.

Definition ValidateStories (stories : list Story) : option story_error :=
  match first_err ValidateStory stories with
  | Some e => Some e
  | None =>
    match ValidateStoryDAG stories with
    | Some e => Some e
    | None =>
      match ValidateStoryFileOwnership stories with
      | Some e => Some e
      | None =>
        first_err (λ s,
          match ValidateTaskDAG (sID s) (sTasks s) with
          | Some e => Some e
          | None => first_err (ValidateTask (sID s)) (sTasks s)
          end) stories
      end
    end
  end.

(** ** Stories against the plan *)

(** The files a component may own: its expanded, normalized
    [implementation_files]. *)
Definition component_owned (c : ComponentDef) : gset string :=
  list_to_set (NormalizeFilePaths (ExpandFileScopeWithCompanionTests (cdImplementationFiles c))).

Definition componentFiles (plan : Plan) : gmap string (gset string) :=
  match pArchitecture plan with
  | None => ∅
  | Some arch => map_of ((λ c, (cdName c, component_owned c)) <$> adComponentBoundaries arch)
  end.

(** The body of the loop over the stories. *)
Definition story_against (reqIDs : gset string) (compFiles : gmap string (gset string))
    (s : Story) : option story_error :=
  if sStatus s =? StoryStatusPending then None else
  match
    (if bool_decide (0 < size reqIDs) then
       first_err (λ rid,
         if bool_decide (rid ∈ reqIDs) then None
         else Some (ErrInvalidStoryStructure (StoryRequirementOrphan (sID s) rid)))
         (sRequirementIDs s)
     else None)
  with
  | Some e => Some e
  | None =>
    if bool_decide (0 < size compFiles) && (sComponentName s !=? "") then
      match compFiles !! sComponentName s with
      | None =>
          Some (ErrInvalidStoryStructure (StoryUnresolvedComponent (sID s) (sComponentName s)))
      | Some owned =>
          first_err (λ raw,
            let f := NormalizeFilePath raw in
            if f =? "" then None
            else if bool_decide (f ∈ owned) then None
            else Some (ErrInvalidStoryStructure
                         (StoryFileOutsideComponent (sID s) (sComponentName s) f)))
            (sFilesOwned s)
      end
    else None
  end.

Definition ValidateStoriesAgainstPlan (plan : option Plan) (stories : list Story) :
    option story_error :=
  match plan with
  | None => None
  | Some plan =>
    if is_nil stories then None else
    first_err (story_against (list_to_set (rID <$> pRequirements plan)) (componentFiles plan))
      stories
  end.

(** ** Architecture components *)

(** The name list of one component: the in-range indices in order, each
    once. *)
Fixpoint resolve_indices (comp : string) (caps : list Capability) (idxs : list Z)
    (seen : gset Z) (names : list string) : list string + story_error :=
  match idxs with
  | [] => inl names
  | idx :: idxs =>
      if bool_decide (idx < 0)%Z || bool_decide (Z.of_nat (length caps) <= idx)%Z
      then inr (ErrInvalidStoryStructure (CapabilityIndexOutOfRange comp idx))
      else if bool_decide (idx ∈ seen) then resolve_indices comp caps idxs seen names
      else
        let name := default "" (capName <$> caps !! Z.to_nat idx) in
        resolve_indices comp caps idxs ({[idx]} ∪ seen) (names ++ [name])
  end.

Fixpoint resolve_components (caps : list Capability) (components : list ComponentDef) :
    list ComponentDef * option story_error :=
  match components with
  | [] => ([], None)
  | c :: cs =>
      if is_nil (cdCapabilityIndices c) then
        let '(cs', e) := resolve_components caps cs in (c :: cs', e)
      else
        match resolve_indices (cdName c) caps (cdCapabilityIndices c) ∅ [] with
        | inr e => (c :: cs, Some e)
        | inl names =>
            let '(cs', e) := resolve_components caps cs in
            (set_cdCapabilities names c :: cs', e)
        end
  end.

(** Mutates the components in place: the first component of the result is
    the slice afterwards, also when an error is returned. *)
Definition ResolveCapabilityIndices (exp : option Exploration) (components : list ComponentDef) :
    list ComponentDef * option story_error :=
  match exp with
  | None => (components, None)
  | Some e =>
      if is_nil (exCapabilities e) then (components, None)
      else resolve_components (exCapabilities e) components
  end.

Definition ValidateCapabilityCoverage (exp : option Exploration) (components : list ComponentDef) :
    option story_error :=
  match exp with
  | None => None
  | Some e =>
      if is_nil (exCapabilities e) || is_nil components then None else
      let covered : gset string := list_to_set (mjoin (cdCapabilities <$> components)) in
      let declared := capName <$> exCapabilities e in
      let uncovered := filter (λ n, n ∉ covered) declared in
      if is_nil uncovered then None
      else Some (ErrInvalidStoryStructure (CapabilityCoverageIncomplete uncovered declared))
  end.

Definition ValidateComponentImplementationFiles (components : list ComponentDef) :
    option story_error :=
  first_err (λ c,
    if cdName c =? "" then None
    else if is_nil (cdImplementationFiles c)
    then Some (ErrInvalidStoryStructure (ComponentEmptyFiles (cdName c)))
    else if negb (hasSourceFile (cdImplementationFiles c))
    then Some (ErrInvalidStoryStructure (ComponentDocsOnly (cdName c)))
    else if is_nil (cdCapabilities c) && is_nil (cdCapabilityIndices c)
    then Some (ErrInvalidStoryStructure (ComponentEmptyCapabilities (cdName c)))
    else None) components.

Definition codeSymbolImportKinds : gset string :=
  {[ "class"; "interface"; "type"; "function"; "annotation"; "constant" ]}.

Inductive import_shape := ImportOK | ImportMissing | ImportBare.

Definition import_of (a : APISurface) : import_shape :=
  if bool_decide (apiKind a ∈ codeSymbolImportKinds) then
    let imp := TrimSpace (apiImport a) in
    if imp =? "" then ImportMissing
    else if negb (ContainsAny imp "./") && negb (Contains imp "::") then ImportBare
    else ImportOK
  else ImportOK.

Definition surfaces_with (p : APISurface → bool) (rs : list UpstreamResolution) :
    list (string * string) :=
  u ← rs; a ← filter (λ a, p a = true) (urAPIs u); [(urName u, apiSymbol a)].

Definition ValidateUpstreamImports (resolutions : list UpstreamResolution) : option story_error :=
  let missing := surfaces_with
    (λ a, match import_of a with ImportMissing => true | _ => false end) resolutions in
  let bare := surfaces_with
    (λ a, match import_of a with ImportBare => true | _ => false end) resolutions in
  if is_nil missing && is_nil bare then None
  else Some (ErrInvalidStoryStructure (UpstreamImports missing bare)).

(** ** Scoped includes need an owner (workflow/file_ownership.go) *)

Definition ownedFileUniverse (components : list ComponentDef) : gset string :=
  list_to_set (c ← components; ExpandFileScopeWithCompanionTests (cdImplementationFiles c)).

(** The loop over [scope.Include]. *)
Fixpoint unowned_loop (doNotTouch owned seen : gset string) (include : list string) : list string :=
  match include with
  | [] => []
  | raw :: include =>
      let f := NormalizeFilePath raw in
      if (f =? "") || negb (IsConcreteScopedFile f) then unowned_loop doNotTouch owned seen include
      else if bool_decide (f ∈ seen) then unowned_loop doNotTouch owned seen include
      else
        let seen := {[f]} ∪ seen in
        if bool_decide (f ∈ doNotTouch) then unowned_loop doNotTouch owned seen include
        else if bool_decide (f ∈ owned) then unowned_loop doNotTouch owned seen include
        else f :: unowned_loop doNotTouch owned seen include
  end.

Definition UnownedScopedIncludeFiles (scope : Scope) (components : list ComponentDef) :
    list string :=
  let owned := ownedFileUniverse components in
  let doNotTouch : gset string := list_to_set (NormalizeFilePaths (scpDoNotTouch scope)) in
  sort_strings (unowned_loop doNotTouch owned ∅ (scpInclude scope)).

(** ** Capabilities (workflow/plan_capability.go) *)

Inductive cap_error :=
| CapMissingName (i : nat)
| CapInvalidLifecycle (name : string) (l : CapabilityLifecycle)
| CapDuplicate (name : string)
| CapInvalidSurface (name : string) (i : nat) (s : CapabilitySurface)
| CapDuplicateSurface (name : string) (s : CapabilitySurface)
| CapUnknownDep (name dep : string)
| CapCycle (stack : list string) (name : string)
| CapOutOfFuel
| CapInconsistentLinkage (withCap total : nat)
| CapOrphanRequirement (req cap : string)
| CapOrphan (name : string).

Fixpoint surfaces_loop (name : string) (i : nat) (seen : list CapabilitySurface)
    (ss : list CapabilitySurface) : option cap_error :=
  match ss with
  | [] => None
  | s :: ss =>
      if negb (CapabilitySurface_IsValid s) then Some (CapInvalidSurface name i s)
      else if bool_decide (s ∈ seen) then Some (CapDuplicateSurface name s)
      else surfaces_loop name (S i) (s :: seen) ss
  end.

Definition ValidateCapabilitySurfaces (c : Capability) : option cap_error :=
  surfaces_loop (capName c) 0 [] (capSurfaces c).

Fixpoint caps_loop (i : nat) (names : gset string) (caps : list Capability) : option cap_error :=
  match caps with
  | [] => None
  | c :: caps =>
      if capName c =? "" then Some (CapMissingName i)
      else if negb (CapabilityLifecycle_IsValid (capLifecycle c))
      then Some (CapInvalidLifecycle (capName c) (capLifecycle c))
      else if bool_decide (capName c ∈ names) then Some (CapDuplicate (capName c))
      else match ValidateCapabilitySurfaces c with
           | Some e => Some e
           | None => caps_loop (S i) ({[capName c]} ∪ names) caps
           end
  end.

Definition cap_node (c : Capability) : string * list string := (capName c, capDependsOn c).

Definition detectCapabilityCycle (caps : list Capability) : option cap_error :=
  let adj := adj_of (cap_node <$> caps) in
  match cvisit_roots adj (S (dfs_fuel adj)) (capName <$> caps) ∅ with
  | PDone _ => None
  | PCycle stack name => Some (CapCycle stack name)
  | POutOfFuel => Some CapOutOfFuel
  end.

Definition ValidateCapabilitySet (caps : list Capability) : option cap_error :=
  if is_nil caps then None else
  match caps_loop 0 ∅ caps with
  | Some e => Some e
  | None =>
      let names : gset string := list_to_set (capName <$> caps) in
      match first_err (λ c, first_err (λ dep,
              if bool_decide (dep ∈ names) then None
              else Some (CapUnknownDep (capName c) dep)) (capDependsOn c)) caps with
      | Some e => Some e
      | None => detectCapabilityCycle caps
      end
  end.

Definition ValidateRequirementCapabilityCoverage (exp : option Exploration)
    (requirements : list Requirement) : option cap_error :=
  match exp with
  | None => None
  | Some e =>
      if is_nil (exCapabilities e) then None else
      if is_nil requirements then None else
      let withCap := length (filter (λ r, rCapabilityName r ≠ "") requirements) in
      if bool_decide (withCap = 0) then None
      else if bool_decide (withCap < length requirements)
      then Some (CapInconsistentLinkage withCap (length requirements))
      else
        let declared : gset string := list_to_set (capName <$> exCapabilities e) in
        match first_err (λ r,
                if bool_decide (rCapabilityName r ∈ declared) then None
                else Some (CapOrphanRequirement (rID r) (rCapabilityName r))) requirements with
        | Some err => Some err
        | None =>
            let covered : gset string := list_to_set (rCapabilityName <$> requirements) in
            first_err (λ c,
              if bool_decide (capName c ∈ covered) then None else Some (CapOrphan (capName c)))
              (exCapabilities e)
        end
  end.

Definition FindUncoveredCapabilities (exp : option Exploration)
    (requirements : list Requirement) : list string :=
  match exp with
  | None => []
  | Some e =>
      let covered : gset string :=
        list_to_set (filter (λ n, n ≠ "") (rCapabilityName <$> requirements)) in
      filter (λ n, n ∉ covered) (capName <$> exCapabilities e)
  end.

Definition FindOrphanRequirementCapabilities (exp : option Exploration)
    (requirements : list Requirement) : list Requirement :=
  match exp with
  | None => []
  | Some e =>
      let declared : gset string := list_to_set (capName <$> exCapabilities e) in
      filter (λ r, rCapabilityName r ≠ "" ∧ rCapabilityName r ∉ declared) requirements
  end.

(** ** Scenario tags (workflow/plan_scenario.go) *)

Inductive tag_error :=
| TagEmpty
| TagNoAt (tag : string)
| TagNoBody (tag : string)
| TagBadByte (tag : string)
| NoTags (scenario : string)
| TagDuplicate (scenario tag : string)
| TagSyntax (scenario : string) (i : nat) (e : tag_error)
| NoTierTag (scenario : string)
| ManyTierTags (scenario : string) (n : nat)
| EmptyHarnessID (scenario : string) (i : nat).

Definition IsTierTag (s : string) : bool :=
  (s =? "@unit") || (s =? "@integration") || (s =? "@smoke") || (s =? "@e2e").

Definition tag_byte (c : ascii) : bool :=
  let n := nat_of_ascii c in
  bool_decide (97 ≤ n ≤ 122) || bool_decide (65 ≤ n ≤ 90) || bool_decide (48 ≤ n ≤ 57) || (n =? 45).

Fixpoint all_bytes (f : ascii → bool) (s : string) : bool :=
  match s with EmptyString => true | String c r => f c && all_bytes f r end.

Definition validateTagSyntax (tag : string) : option tag_error :=
  match tag with
  | EmptyString => Some TagEmpty
  | String c body =>
      if c !=? "@"%char then Some (TagNoAt tag)
      else if body =? "" then Some (TagNoBody tag)
      else if negb (all_bytes tag_byte body) then Some (TagBadByte tag)
      else None
  end.

(** The loop over the tags: the number of tier tags, or the first error. *)
Fixpoint tags_loop (sid : string) (i : nat) (seen : gset string) (tierCount : nat)
    (tags : list string) : nat + tag_error :=
  match tags with
  | [] => inl tierCount
  | tag :: tags =>
      match validateTagSyntax tag with
      | Some e => inr (TagSyntax sid i e)
      | None =>
          if bool_decide (tag ∈ seen) then inr (TagDuplicate sid tag)
          else tags_loop sid (S i) ({[tag]} ∪ seen)
                 (if IsTierTag tag then S tierCount else tierCount) tags
      end
  end.

Fixpoint harness_loop (sid : string) (i : nat) (ids : list string) : option tag_error :=
  match ids with
  | [] => None
  | id :: ids => if TrimSpace id =? "" then Some (EmptyHarnessID sid i) else harness_loop sid (S i) ids
  end.

Definition ValidateScenarioTags (s : Scenario) : option tag_error :=
  if is_nil (scTags s) then Some (NoTags (scID s)) else
  match tags_loop (scID s) 0 ∅ 0 (scTags s) with
  | inr e => Some e
  | inl tierCount =>
      if bool_decide (tierCount = 0) then Some (NoTierTag (scID s))
      else if bool_decide (1 < tierCount) then Some (ManyTierTags (scID s) tierCount)
      else harness_loop (scID s) 0 (scHarnessProfileIDs s)
  end.

(** ** Lemmas: file ownership *)

Definition story_graph (stories : list Story) : gmap string (list string) :=
  adj_of (story_node <$> stories).

(** [a] transitively depends on [b]. *)
Definition depends (stories : list Story) : relation string := tc (edge (story_graph stories)).

Lemma elem_of_sharedFiles f a b : f ∈ sharedFiles a b ↔ f ∈ a ∧ f ∈ b.
Proof.
  unfold sharedFiles. destruct (bool_decide (size a = 0) || _) eqn:E.
  - breflect. split; [set_solver|]. intros [Ha Hb].
    destruct E as [E|E]; apply size_empty_inv in E; set_solver.
  - rewrite elem_of_sort_strings, list_elem_of_filter, elem_of_elements.
    clear E. case_bool_decide; tauto.
Qed.

Lemma sharedFiles_nil a b : is_nil (sharedFiles a b) = true ↔ a ## b.
Proof.
  rewrite is_nil_true, elem_of_disjoint. split.
  - intros E x Ha Hb. assert (x ∈ sharedFiles a b) by (by apply elem_of_sharedFiles).
    rewrite E in *. set_solver.
  - intros H. destruct (sharedFiles a b) as [|x l] eqn:E; [done|]. exfalso.
    apply (H x); apply (elem_of_sharedFiles x a b); rewrite E; set_solver.
Qed.

Lemma elem_of_NormalizeFilePaths f ps :
  f ∈ NormalizeFilePaths ps ↔ f ≠ "" ∧ ∃ p, p ∈ ps ∧ f = NormalizeFilePath p.
Proof. unfold NormalizeFilePaths. rewrite list_elem_of_filter, list_elem_of_fmap. naive_solver. Qed.

Lemma elem_of_normalized_files f s :
  f ∈ normalized_files s ↔ f ≠ "" ∧ ∃ p, p ∈ sFilesOwned s ∧ f = NormalizeFilePath p.
Proof. unfold normalized_files. by rewrite elem_of_list_to_set, elem_of_NormalizeFilePaths. Qed.

Lemma ownership_closure_spec stories a b :
  in_closure (ownership_closure stories) a b = true ↔ depends stories a b.
Proof.
  unfold in_closure, depends. rewrite bool_decide_eq_true, <- elem_of_bfs_succs.
  unfold ownership_closure. fold (story_graph stories).
  replace ((λ s, (sID s, bfs_closure (story_graph stories) (sDependsOn s))) <$> stories)
    with (prod_map id (bfs_closure (story_graph stories)) <$> (story_node <$> stories))
    by (by rewrite <- list_fmap_compose).
  rewrite map_of_fmap, lookup_fmap. change (map_of (story_node <$> stories)) with (story_graph stories).
  unfold succs. destruct (story_graph stories !! a) as [ds|] eqn:E; simpl; [done|].
  rewrite elem_of_bfs_closure. set_solver.
Qed.

#[export] Instance depends_dec stories a b : Decision (depends stories a b).
Proof.
  refine (cast_if (decide (in_closure (ownership_closure stories) a b = true)));
    by rewrite <- ownership_closure_spec.
Defined.

Lemma buildStoryClosure_spec stories a b :
  in_closure (buildStoryClosure stories) a b = true ↔ depends stories a b.
Proof.
  unfold in_closure, depends. rewrite bool_decide_eq_true, <- elem_of_bfs_succs.
  unfold buildStoryClosure. fold (story_graph stories).
  destruct (decide (a ∈ sID <$> stories)) as [Ha|Ha].
  - by rewrite (map_of_key sID (λ x, bfs_closure (story_graph stories) (succs (story_graph stories) x))).
  - assert (Hn : story_graph stories !! a = None).
    { apply not_elem_of_dom. unfold story_graph. rewrite adj_of_dom, <- list_fmap_compose.
      by rewrite elem_of_list_to_set. }
    rewrite not_elem_of_dom_1; [|by rewrite map_of_dom, elem_of_list_to_set, <- list_fmap_compose].
    unfold succs. rewrite Hn. simpl. rewrite elem_of_bfs_closure. set_solver.
Qed.

(** Two stories that own a common file are ordered by the dependency
    graph. *)
Definition ordered_pair (stories : list Story) (a b : Story) : Prop :=
  normalized_files a ## normalized_files b ∨
  depends stories (sID a) (sID b) ∨ depends stories (sID b) (sID a).

Definition race_free (stories : list Story) : Prop :=
  ∀ a b, a ∈ stories → b ∈ stories → sID a ≠ sID b → ordered_pair stories a b.

Lemma NoDup_fmap_inj_elem {A B} (f : A → B) l a b :
  NoDup (f <$> l) → a ∈ l → b ∈ l → f a = f b → a = b.
Proof.
  intros Hnd Ha Hb Hf. apply list_elem_of_lookup in Ha as [i Hi], Hb as [j Hj].
  assert (i = j) as ->; [|congruence].
  eapply NoDup_lookup; [done| |]; rewrite list_lookup_fmap; [by rewrite Hi | by rewrite Hj, Hf].
Qed.

(** Looking a story's files up by its ID gives its own files. *)
Lemma files_by_id stories s :
  NoDup (sID <$> stories) → s ∈ stories →
  default ∅ (map_of ((λ s, (sID s, normalized_files s)) <$> stories) !! sID s) = normalized_files s.
Proof.
  intros Hnd Hs. rewrite (map_of_lookup _ (sID s) (normalized_files s)); [done| |].
  - by rewrite <- list_fmap_compose.
  - apply list_elem_of_fmap. by exists s.
Qed.

Lemma first_pair_ext {A E} (f g : A → A → option E) l :
  (∀ a b, a ∈ l → b ∈ l → f a b = g a b) → first_pair f l = first_pair g l.
Proof.
  induction l as [|a l IH]; intros H; simpl; [done|].
  assert (first_err (f a) l = first_err (g a) l) as ->.
  { clear IH. assert (H' : ∀ b, b ∈ l → f a b = g a b) by (intros; apply H; set_solver).
    clear H. induction l as [|b l IH]; simpl; [done|].
    rewrite H' by set_solver. destruct (g a b); [done|]. apply IH. set_solver. }
  rewrite IH; [done|]. intros. apply H; set_solver.
Qed.

Lemma ValidateStoryFileOwnership_None stories :
  NoDup (sID <$> stories) →
  ValidateStoryFileOwnership stories = None ↔ race_free stories.
Proof.
  intros Hnd. unfold ValidateStoryFileOwnership.
  assert (Hnd' : NoDup stories) by (by eapply NoDup_fmap_1).
  case_bool_decide as Hlen.
  { split; [|done]. intros _ a b Ha Hb Hne.
    destruct stories as [|x [|y l]]; simpl in Hlen; [set_solver| |lia].
    apply list_elem_of_singleton in Ha as ->, Hb as ->. done. }
  erewrite first_pair_ext.
  2: { intros a b Ha Hb. by rewrite (files_by_id stories a), (files_by_id stories b). }
  rewrite (first_pair_None _ (ordered_pair stories)); [|..|done].
  - unfold race_free. split; intros H a b Ha Hb Hne; apply H; try done.
    + by intros ->.
    + intros E. by apply Hne, (NoDup_fmap_inj_elem sID stories).
  - intros a b. unfold ordered_pair. rewrite <- sharedFiles_nil.
    destruct (is_nil _); [intuition congruence|].
    rewrite <- !ownership_closure_spec.
    destruct (in_closure _ (sID a) (sID b)), (in_closure _ (sID b) (sID a)); simpl;
      intuition congruence.
  - unfold ordered_pair. intros a b [H|H]; [left; by symmetry | right; naive_solver].
Qed.

(** ** Lemmas: the story gate *)

Definition story_ok (s : Story) : Prop :=
  sID s ≠ "" ∧ sRequirementIDs s ≠ [] ∧ sComponentName s ≠ "" ∧ TrimSpace (sTitle s) ≠ "" ∧
  (sStatus s = StoryStatusPending ∨
   ((∃ p, p ∈ sFilesOwned s ∧ IsDocumentationPath p = false) ∧ sTasks s ≠ [])).

Definition task_ok (story : string) (t : Task) : Prop :=
  tID t ≠ "" ∧ tStoryID t = story ∧ TrimSpace (tDescription t) ≠ "".

(** What the story set promises to the scheduler and the executor. *)
Record stories_ok (stories : list Story) : Prop := {
  so_each : ∀ s, s ∈ stories → story_ok s;
  so_dag : dag_spec (story_node <$> stories);
  so_race : race_free stories;
  so_task_dag : ∀ s, s ∈ stories → dag_spec (task_node <$> sTasks s);
  so_tasks : ∀ s t, s ∈ stories → t ∈ sTasks s → task_ok (sID s) t }.

(** Peel one guard [if b then Some e else rest]. *)
Lemma guard_None {E} (b : bool) (e : E) (r : option E) :
  (if b then Some e else r) = None ↔ b = false ∧ r = None.
Proof. by destruct b; naive_solver. Qed.

Lemma match_err_None {E} (o r : option E) :
  match o with Some e => Some e | None => r end = None ↔ o = None ∧ r = None.
Proof. destruct o; naive_solver. Qed.

#[export] Hint Rewrite @guard_None @match_err_None @first_err_None @fmap_None : goeq.

Lemma hasSourceFile_true ps :
  hasSourceFile ps = true ↔ ∃ p, p ∈ ps ∧ IsDocumentationPath p = false.
Proof.
  unfold hasSourceFile. rewrite existsb_exists. setoid_rewrite negb_true_iff.
  by setoid_rewrite list_elem_of_In.
Qed.

Lemma ValidateStory_None s : ValidateStory s = None ↔ story_ok s.
Proof.
  unfold ValidateStory, story_ok.
  destruct (sStatus s =? StoryStatusPending) eqn:E; breflect; [naive_solver|].
  rewrite hasSourceFile_true. split; [naive_solver|]. intros (? & ? & ? & ? & [?|[(p & Hp & Hd) ?]]); [done|].
  split_and!; try done; [|eauto]. intros Hn. rewrite Hn in Hp. set_solver.
Qed.

Lemma ValidateTask_None story t : ValidateTask story t = None ↔ task_ok story t.
Proof. unfold ValidateTask, task_ok. breflect. naive_solver. Qed.

Lemma ValidateStories_None stories :
  NoDup (sID <$> stories) → ValidateStories stories = None ↔ stories_ok stories.
Proof.
  intros Hnd. unfold ValidateStories. breflect.
  rewrite ValidateStoryFileOwnership_None by done.
  unfold ValidateStoryDAG. rewrite fmap_None, validate_dag_None.
  setoid_rewrite match_err_None. setoid_rewrite first_err_None.
  unfold ValidateTaskDAG. setoid_rewrite fmap_None. setoid_rewrite validate_dag_None.
  setoid_rewrite ValidateStory_None. setoid_rewrite ValidateTask_None.
  split.
  - intros (H1 & H2 & H3 & H4). split; [done..| |]; intros s; [|intros t]; intros Hs;
      [by apply H4 | by apply (H4 s Hs)].
  - intros [H1 H2 H3 H4 H5]. split_and!; try done. intros s Hs. split; [by apply H4|].
    intros t. by apply H5.
Qed.

(** ** Lemmas: stories against the plan *)

(** Every declared story only references the plan's requirements and only
    owns files its component (or the component's companion tests) owns. *)
Definition story_in_plan (plan : Plan) (s : Story) : Prop :=
  (pRequirements plan ≠ [] → ∀ rid, rid ∈ sRequirementIDs s → rid ∈ rID <$> pRequirements plan) ∧
  (componentFiles plan ≠ ∅ → sComponentName s ≠ "" →
     ∃ owned, componentFiles plan !! sComponentName s = Some owned ∧
       normalized_files s ⊆ owned).

Lemma size_pos_reqs (reqs : list Requirement) :
  0 < size (list_to_set (rID <$> reqs) : gset string) ↔ reqs ≠ [].
Proof.
  rewrite <- Nat.neq_0_lt_0. apply not_iff_compat. rewrite size_empty_iff. split.
  - intros H. destruct reqs as [|r reqs]; [done|]. specialize (H (rID r)). set_solver.
  - by intros ->.
Qed.

Lemma size_pos_map {A} (m : gmap string A) : 0 < size m ↔ m ≠ ∅.
Proof. rewrite <- map_size_non_empty_iff. lia. Qed.

Lemma story_against_None plan s :
  story_against (list_to_set (rID <$> pRequirements plan)) (componentFiles plan) s = None ↔
  sStatus s = StoryStatusPending ∨ story_in_plan plan s.
Proof.
  unfold story_against, story_in_plan. destruct (decide (sStatus s = StoryStatusPending)) as [E|E].
  { rewrite E, eqb_refl. by intuition. }
  rewrite (proj2 (eqb_false _ _) E), match_err_None. setoid_rewrite <- size_pos_reqs. rewrite <- size_pos_map.
  assert (Hfst : (if bool_decide (0 < size (list_to_set (rID <$> pRequirements plan) : gset string))
     then first_err (λ rid, if bool_decide (rid ∈ (list_to_set (rID <$> pRequirements plan) : gset string))
            then None else Some (ErrInvalidStoryStructure (StoryRequirementOrphan (sID s) rid)))
            (sRequirementIDs s) else None) = None ↔
    (0 < size (list_to_set (rID <$> pRequirements plan) : gset string) →
     ∀ rid, rid ∈ sRequirementIDs s → rid ∈ rID <$> pRequirements plan)).
  { case_bool_decide as Hz; [|by intuition]. rewrite first_err_None.
    split; [intros H _ rid Hr; specialize (H rid Hr) | intros H rid Hr; specialize (H Hz rid Hr)].
    - case_bool_decide as Hin; [|done]. by rewrite elem_of_list_to_set in Hin.
    - rewrite bool_decide_eq_true_2; [done|]. by apply elem_of_list_to_set. }
  rewrite Hfst. clear Hfst.
  assert (Hsub : ∀ owned, normalized_files s ⊆ owned ↔
    ∀ raw, raw ∈ sFilesOwned s → NormalizeFilePath raw = "" ∨ NormalizeFilePath raw ∈ owned).
  { intros owned. split.
    - intros H raw Hraw. destruct (decide (NormalizeFilePath raw = "")); [by left|right].
      apply H, elem_of_normalized_files. eauto.
    - intros H f (Hne & p & Hp & ->)%elem_of_normalized_files. by destruct (H p Hp). }
  setoid_rewrite Hsub. clear Hsub.
  case_bool_decide as Hz; simpl; [|by intuition].
  destruct (sComponentName s =? "") eqn:Ec; simpl; breflect; [by intuition|].
  destruct (componentFiles plan !! sComponentName s) as [owned|].
  - rewrite first_err_None. split.
    + intros [H1 H2]. right. split; [done|]. intros _ _. exists owned. split; [done|].
      intros raw Hraw. specialize (H2 raw Hraw). simpl in H2.
      destruct (NormalizeFilePath raw =? "") eqn:En; breflect; [by left|].
      case_bool_decide; [by right | done].
    + intros [?|[H1 H2]]; [done|]. split; [done|]. destruct (H2 Hz Ec) as (o & [= <-] & Ho).
      intros raw Hraw. destruct (Ho raw Hraw) as [->|Hin]; [by rewrite eqb_refl|].
      case_match; [done|]. by rewrite bool_decide_eq_true_2.
  - split; [by intros [? ?]|]. intros [?|[H1 H2]]; [done|]. by destruct (H2 Hz Ec) as (? & ? & _).
Qed.

Lemma ValidateStoriesAgainstPlan_None plan stories :
  ValidateStoriesAgainstPlan (Some plan) stories = None ↔
  ∀ s, s ∈ stories → sStatus s ≠ StoryStatusPending → story_in_plan plan s.
Proof.
  simpl. destruct stories as [|s0 l]; [set_solver|].
  change (is_nil (s0 :: l)) with false. cbn iota. rewrite first_err_None.
  setoid_rewrite story_against_None. split; intros H s Hs; specialize (H s Hs).
  - destruct H; done.
  - destruct (decide (sStatus s = StoryStatusPending)); [by left | right; auto].
Qed.

(** ** Lemmas: capability indices *)

Definition index_ok (caps : list Capability) (idx : Z) : Prop :=
  (0 <= idx < Z.of_nat (length caps))%Z.

(** The loop keeps the names of the indices seen so far. *)
Lemma resolve_indices_spec comp caps idxs seen names :
  match resolve_indices comp caps idxs seen names with
  | inl out => Forall (index_ok caps) idxs ∧
      ∀ n, n ∈ out ↔ n ∈ names ∨
        ∃ idx, idx ∈ idxs ∧ (idx ∉ seen) ∧ n = default "" (capName <$> caps !! Z.to_nat idx)
  | inr e => ∃ idx, idx ∈ idxs ∧ ¬ index_ok caps idx ∧
      e = ErrInvalidStoryStructure (CapabilityIndexOutOfRange comp idx)
  end.
Proof.
  revert seen names. induction idxs as [|idx idxs IH]; intros seen names; cbn [resolve_indices].
  { split; [done|]. set_solver. }
  destruct (bool_decide (idx < 0)%Z || _) eqn:E.
  { exists idx. split_and!; [set_solver| |done]. unfold index_ok. breflect. lia. }
  assert (Hok : index_ok caps idx) by (unfold index_ok; breflect; lia).
  clear E. case_bool_decide as Hs.
  - specialize (IH seen names). destruct (resolve_indices _ _ _ _ _).
    + destruct IH as [? IH]. split; [by constructor|]. intros n. rewrite IH. set_solver.
    + destruct IH as (i & ? & ? & ?). exists i. set_solver.
  - set (nm := default "" (capName <$> caps !! Z.to_nat idx)).
    specialize (IH ({[idx]} ∪ seen) (names ++ [nm])). destruct (resolve_indices _ _ _ _ _).
    + destruct IH as [? IH]. split; [by constructor|]. intros n. rewrite IH. split.
      * intros [H'|(i & Hi & Hni & ->)]; [|set_solver].
        apply elem_of_app in H' as [?| ->%list_elem_of_singleton]; [by left|right].
        exists idx. split_and!; [set_solver|done|done].
      * intros [H'|(i & Hi & Hni & ->)]; [set_solver|].
        destruct (decide (i = idx)) as [->|Hne]; [left; set_solver|].
        right. exists i. set_solver.
    + destruct IH as (i & ? & ? & ?). exists i. set_solver.
Qed.

Lemma resolve_components_spec caps comps :
  match resolve_components caps comps with
  | (out, None) => Forall2 (λ c c', cdName c' = cdName c ∧
      Forall (index_ok caps) (cdCapabilityIndices c) ∧
      (cdCapabilityIndices c = [] → c' = c) ∧
      (cdCapabilityIndices c ≠ [] → ∀ n, n ∈ cdCapabilities c' ↔
        ∃ idx, idx ∈ cdCapabilityIndices c ∧ (capName <$> caps !! Z.to_nat idx) = Some n)) comps out
  | (_, Some e) => ∃ c idx, c ∈ comps ∧ idx ∈ cdCapabilityIndices c ∧ ¬ index_ok caps idx ∧
      e = ErrInvalidStoryStructure (CapabilityIndexOutOfRange (cdName c) idx)
  end.
Proof.
  induction comps as [|c cs IH]; cbn [resolve_components]; [constructor|].
  destruct (is_nil (cdCapabilityIndices c)) eqn:En.
  - apply is_nil_true in En. destruct (resolve_components caps cs) as [cs' [e|]]; [set_solver|].
    constructor; [|done]. rewrite En. by split_and!.
  - apply is_nil_false in En.
    assert (H := resolve_indices_spec (cdName c) caps (cdCapabilityIndices c) ∅ []).
    destruct (resolve_indices _ _ _ _ _) as [names|e]; [|set_solver].
    destruct (resolve_components caps cs) as [cs' [e|]]; [set_solver|].
    destruct H as [Hf Hn]. constructor; [|done]. split_and!; [done..|].
    intros _ n. simpl. rewrite Hn. rewrite Forall_forall in Hf.
    assert (Hl : ∀ idx, idx ∈ cdCapabilityIndices c →
      ∃ cap, caps !! Z.to_nat idx = Some cap).
    { intros idx Hi. apply lookup_lt_is_Some. specialize (Hf idx Hi). unfold index_ok in Hf. lia. }
    split.
    + intros [?|(idx & Hi & _ & ->)]; [set_solver|]. destruct (Hl idx Hi) as [cap Hc].
      exists idx. by rewrite Hc.
    + intros (idx & Hi & Hc). right. exists idx. split_and!; [done|set_solver|]. by rewrite Hc.
Qed.

(** ** Lemmas: capability sets *)

Lemma surfaces_loop_None name i seen ss :
  NoDup seen →
  surfaces_loop name i seen ss = None ↔
  Forall (λ s, CapabilitySurface_IsValid s = true) ss ∧ NoDup ss ∧ (∀ s, s ∈ ss → s ∉ seen).
Proof.
  revert i seen. induction ss as [|s ss IH]; intros i seen Hnd; simpl.
  { split; [|done]. intros _. split_and!; [done|constructor|set_solver]. }
  rewrite guard_None, negb_false_iff, guard_None, bool_decide_eq_false, Forall_cons, NoDup_cons.
  destruct (decide (s ∈ seen)) as [Hs|Hs]; [set_solver|].
  rewrite IH by (by constructor). split.
  - intros (? & _ & ? & ? & Hfr). split_and!; try done.
    + intros Hin. apply (Hfr s Hin). set_solver.
    + intros s' [->|Hin]%elem_of_cons; [done|]. specialize (Hfr s' Hin). set_solver.
  - intros ([? ?] & [? ?] & Hfr). split_and!; try done. intros s' Hin. set_solver.
Qed.

Definition capability_ok (c : Capability) : Prop :=
  capName c ≠ "" ∧ CapabilityLifecycle_IsValid (capLifecycle c) = true ∧
  Forall (λ s, CapabilitySurface_IsValid s = true) (capSurfaces c) ∧ NoDup (capSurfaces c).

Lemma ValidateCapabilitySurfaces_None c :
  ValidateCapabilitySurfaces c = None ↔
  Forall (λ s, CapabilitySurface_IsValid s = true) (capSurfaces c) ∧ NoDup (capSurfaces c).
Proof.
  unfold ValidateCapabilitySurfaces. rewrite surfaces_loop_None by constructor. set_solver.
Qed.

Lemma caps_loop_None i names caps :
  caps_loop i names caps = None ↔
  Forall capability_ok caps ∧ NoDup (capName <$> caps) ∧ (∀ c, c ∈ caps → capName c ∉ names).
Proof.
  revert i names. induction caps as [|c caps IH]; intros i names; cbn [caps_loop fmap list_fmap].
  { split; [|done]. intros _. split_and!; [done|constructor|set_solver]. }
  rewrite guard_None, eqb_false, guard_None, negb_false_iff, guard_None, bool_decide_eq_false,
    match_err_None, ValidateCapabilitySurfaces_None, IH, Forall_cons, NoDup_cons.
  unfold capability_ok. split.
  - intros (? & ? & ? & [? ?] & ? & ? & Hfr). split_and!; try done.
    + intros (c' & Heq & Hin)%list_elem_of_fmap. apply (Hfr c' Hin). rewrite <- Heq. set_solver.
    + intros c' [->|Hin]%elem_of_cons; [done|]. specialize (Hfr c' Hin). set_solver.
  - intros ([(? & ? & ? & ?) ?] & [Hn ?] & Hfr). split_and!; try done; [apply Hfr; set_solver|].
    intros c' Hin. apply not_elem_of_union. split; [|apply Hfr; set_solver].
    intros Heq%elem_of_singleton. apply Hn. rewrite <- Heq. by apply list_elem_of_fmap_2.
Qed.

(** What the capability gate promises. *)
Record capabilities_ok (caps : list Capability) : Prop := {
  co_each : Forall capability_ok caps;
  co_unique : NoDup (capName <$> caps);
  co_deps : ∀ c dep, c ∈ caps → dep ∈ capDependsOn c → dep ∈ capName <$> caps;
  co_acyclic : acyclic (adj_of (cap_node <$> caps)) }.

Lemma detectCapabilityCycle_None caps :
  detectCapabilityCycle caps = None ↔ acyclic (adj_of (cap_node <$> caps)).
Proof.
  unfold detectCapabilityCycle.
  assert (H := cdfs_decides (adj_of (cap_node <$> caps)) (capName <$> caps)).
  destruct (cvisit_roots _ _ _ _) as [|st n|c].
  - exfalso. apply H. intros r. by rewrite adj_of_dom, elem_of_list_to_set, <- list_fmap_compose.
  - split; [done|]. intros Hac.
    destruct H as (a & He & Hr).
    { intros r. by rewrite adj_of_dom, elem_of_list_to_set, <- list_fmap_compose. }
    destruct (Hac a). by eapply tc_step_rtc.
  - split; [|done]. intros _. apply H.
    intros r. by rewrite adj_of_dom, elem_of_list_to_set, <- list_fmap_compose.
Qed.

Lemma ValidateCapabilitySet_None caps :
  ValidateCapabilitySet caps = None ↔ capabilities_ok caps.
Proof.
  unfold ValidateCapabilitySet. destruct caps as [|c0 l0] eqn:Ec.
  { split; [|done]. intros _. split; [constructor..|set_solver|].
    intros x (y & Hy & _)%tc_inv_l. unfold edge, succs in Hy. simpl in Hy.
    unfold adj_of, map_of in Hy. simpl in Hy. rewrite lookup_empty in Hy. set_solver. }
  rewrite <- Ec. replace (is_nil caps) with false by (by rewrite Ec). clear Ec c0 l0.
  rewrite match_err_None, caps_loop_None, match_err_None, first_err_None, detectCapabilityCycle_None.
  setoid_rewrite first_err_None.
  assert (Hd : ∀ c dep, (if bool_decide (dep ∈ (list_to_set (capName <$> caps) : gset string)) then None
     else Some (CapUnknownDep (capName c) dep)) = None ↔ dep ∈ capName <$> caps).
  { intros c dep. rewrite <- (elem_of_list_to_set (C := gset string)). by case_bool_decide. }
  setoid_rewrite Hd. clear Hd. split.
  - intros ((H1 & H2 & _) & H3 & H4). split; [done..| |done]. intros c dep Hc. by apply H3.
  - intros [H1 H2 H3 H4]. split_and!; [done..|set_solver| |done]. intros c Hc dep. by apply H3.
Qed.

(** ** Lemmas: coverage, tags and scope *)

Definition linked (requirements : list Requirement) : Prop :=
  ∀ r, r ∈ requirements → rCapabilityName r ≠ "".

Lemma filter_length_all {A} (P : A → Prop) `{∀ x, Decision (P x)} l :
  length (filter P l) = length l ↔ ∀ x, x ∈ l → P x.
Proof.
  induction l as [|x l IH]; [set_solver|]. rewrite filter_cons.
  assert (length (filter P l) ≤ length l) by apply length_filter.
  destruct (decide (P x)); simpl.
  - rewrite Nat.succ_inj_wd, IH. set_solver.
  - split; [lia|]. intros Hall. destruct n. apply Hall. set_solver.
Qed.

Lemma filter_length_none {A} (P : A → Prop) `{∀ x, Decision (P x)} l :
  length (filter P l) = 0 ↔ ∀ x, x ∈ l → ¬ P x.
Proof.
  rewrite length_zero_iff_nil. split.
  - intros Hn x Hx HP. assert (Hf : x ∈ filter P l) by (by apply list_elem_of_filter).
    rewrite Hn in Hf. set_solver.
  - intros Hall. destruct (filter P l) as [|x l'] eqn:E; [done|]. exfalso.
    assert (Hf : x ∈ filter P l) by (rewrite E; set_solver).
    apply list_elem_of_filter in Hf as [? ?]. by apply (Hall x).
Qed.

(** With linkage wired in, acceptance means that requirements and
    capabilities cover each other. *)
Lemma ValidateRequirementCapabilityCoverage_None e requirements :
  exCapabilities e ≠ [] → requirements ≠ [] →
  ValidateRequirementCapabilityCoverage (Some e) requirements = None ↔
  (∀ r, r ∈ requirements → rCapabilityName r = "") ∨
  (linked requirements ∧
   (∀ r, r ∈ requirements → rCapabilityName r ∈ capName <$> exCapabilities e) ∧
   (∀ c, c ∈ exCapabilities e → capName c ∈ rCapabilityName <$> requirements)).
Proof.
  intros He Hr. simpl. rewrite !(proj2 (is_nil_false _)) by done.
  assert (Hno := filter_length_none (λ r, rCapabilityName r ≠ "") requirements).
  assert (Hall := filter_length_all (λ r, rCapabilityName r ≠ "") requirements).
  assert (Hle := length_filter (λ r, rCapabilityName r ≠ "") requirements).
  case_bool_decide as H0.
  { split; [|done]. intros _. left. intros r Hin. apply dec_stable. by apply Hno. }
  assert (Hn0 : ¬ ∀ r, r ∈ requirements → rCapabilityName r = "").
  { intros Hc. apply H0, Hno. intros r Hin HH. by apply HH, Hc. }
  case_bool_decide as H1.
  { split; [done|]. intros [?|[Hl _]]; [done|]. apply Hall in Hl. lia. }
  assert (Hl : linked requirements) by (unfold linked; apply Hall; lia).
  rewrite match_err_None, !first_err_None.
  assert (∀ (b : bool) (x : cap_error), (if b then None else Some x) = None ↔ b = true) as Hb
    by (by intros []).
  setoid_rewrite Hb. setoid_rewrite bool_decide_eq_true. setoid_rewrite elem_of_list_to_set.
  tauto.
Qed.

Definition tag_ok (tag : string) : Prop :=
  ∃ body, tag = String "@" body ∧ body ≠ "" ∧ all_bytes tag_byte body = true.

Lemma validateTagSyntax_None tag : validateTagSyntax tag = None ↔ tag_ok tag.
Proof.
  unfold validateTagSyntax, tag_ok. destruct tag as [|c body]; [split; [done|by intros (? & ? & _)]|].
  breflect. split.
  - intros (-> & ? & ? & _). eauto.
  - intros (b & [= -> ->] & ? & ?). done.
Qed.

Lemma tags_loop_spec sid i seen n tags k :
  tags_loop sid i seen n tags = inl k ↔
  (∀ t, t ∈ tags → tag_ok t ∧ t ∉ seen) ∧ NoDup tags ∧
  k = n + length (filter (λ t, IsTierTag t = true) tags).
Proof.
  revert i seen n. induction tags as [|t tags IH]; intros i seen n; cbn [tags_loop].
  { split; [intros [= ->]; split_and!; [set_solver|constructor|simpl; lia]|].
    intros (_ & _ & ->). simpl. f_equal. lia. }
  destruct (validateTagSyntax t) as [e|] eqn:E.
  { split; [done|]. intros (Hall & _ & _). destruct (Hall t ltac:(set_solver)) as [Ht _].
    apply validateTagSyntax_None in Ht. congruence. }
  apply validateTagSyntax_None in E. case_bool_decide as Hs.
  { split; [done|]. intros (Hall & _ & _). by destruct (Hall t ltac:(set_solver)). }
  rewrite IH, NoDup_cons, filter_cons. split.
  - intros (Hall & Hnd & ->). split_and!; [|..|done|].
    + intros t' [->|Ht']%elem_of_cons; [done|]. destruct (Hall t' Ht'). set_solver.
    + intros Hin. destruct (Hall t Hin). set_solver.
    + destruct (IsTierTag t); simpl; lia.
  - intros (Hall & [Hni Hnd] & ->). split_and!; [|done|].
    + intros t' Ht'. destruct (Hall t' ltac:(set_solver)). set_solver.
    + destruct (IsTierTag t); simpl; lia.
Qed.

Lemma harness_loop_None sid i ids :
  harness_loop sid i ids = None ↔ ∀ id, id ∈ ids → TrimSpace id ≠ "".
Proof.
  revert i. induction ids as [|id ids IH]; intros i; cbn [harness_loop]; [set_solver|].
  rewrite guard_None, eqb_false, IH. set_solver.
Qed.

(** What the tag gate promises: well-formed distinct tags, exactly one of
    them a tier tag, and no blank harness binding. *)
Definition scenario_tags_ok (s : Scenario) : Prop :=
  (∀ t, t ∈ scTags s → tag_ok t) ∧ NoDup (scTags s) ∧
  length (filter (λ t, IsTierTag t = true) (scTags s)) = 1 ∧
  (∀ id, id ∈ scHarnessProfileIDs s → TrimSpace id ≠ "").

Lemma ValidateScenarioTags_None s : ValidateScenarioTags s = None ↔ scenario_tags_ok s.
Proof.
  unfold ValidateScenarioTags, scenario_tags_ok. rewrite guard_None, is_nil_false.
  destruct (tags_loop (scID s) 0 ∅ 0 (scTags s)) as [k|e] eqn:E.
  - apply tags_loop_spec in E as (Hall & Hnd & ->). simpl.
    rewrite guard_None, bool_decide_eq_false, guard_None, bool_decide_eq_false, harness_loop_None.
    split.
    + intros (_ & ? & ? & ?). split_and!; [|done|lia|done]. intros t Ht. by apply Hall.
    + intros (_ & _ & Hone & ?). split_and!; [|lia..|done]. intros Hn. by rewrite Hn in Hone.
  - split; [by intros [_ ?]|]. intros (Hall & Hnd & Hone & _). exfalso.
    assert (Hk : tags_loop (scID s) 0 ∅ 0 (scTags s) =
      inl (0 + length (filter (λ t, IsTierTag t = true) (scTags s)))).
    { apply tags_loop_spec. split_and!; [|done|done]. intros t Ht. set_solver. }
    congruence.
Qed.

Lemma elem_of_unowned_loop dnt owned seen include f :
  f ∈ unowned_loop dnt owned seen include ↔
  f ≠ "" ∧ IsConcreteScopedFile f = true ∧ (f ∉ seen) ∧ (f ∉ dnt) ∧ (f ∉ owned) ∧
  ∃ raw, raw ∈ include ∧ f = NormalizeFilePath raw.
Proof.
  revert seen. induction include as [|raw include IH]; intros seen; cbn [unowned_loop]; [set_solver|].
  assert (Hc : (∃ raw', raw' ∈ raw :: include ∧ f = NormalizeFilePath raw') ↔
    f = NormalizeFilePath raw ∨ ∃ raw', raw' ∈ include ∧ f = NormalizeFilePath raw').
  { split; [|set_solver]. intros (r & [->|Hr]%elem_of_cons & ->); eauto. }
  rewrite Hc. clear Hc. set (R := ∃ raw', raw' ∈ include ∧ f = NormalizeFilePath raw') in *.
  generalize (NormalizeFilePath raw). intros g.
  destruct ((g =? "") || _) eqn:E.
  { rewrite IH. breflect. destruct (decide (f = g)) as [->|]; [|tauto].
    destruct E; [tauto|]. intuition congruence. }
  breflect. destruct E as [E1 E2].
  destruct (decide (f = g)) as [->|Hne]; repeat case_bool_decide;
    rewrite ?elem_of_cons, IH, ?elem_of_union, ?elem_of_singleton; tauto.
Qed.

Lemma NoDup_unowned_loop dnt owned seen include : NoDup (unowned_loop dnt owned seen include).
Proof.
  revert seen. induction include as [|raw include IH]; intros seen; cbn [unowned_loop]; [constructor|].
  repeat case_match; auto. constructor; [|done]. rewrite elem_of_unowned_loop. set_solver.
Qed.

(** ** Sample data *)

Definition sample_req (id : string) (deps : list string) : Requirement :=
  {| rID := id; rPlanID := "plan"; rTitle := id; rDescription := ""; rAcceptanceCriteria := [];
     rStatus := RequirementStatusActive; rDependsOn := deps; rCapabilityName := "cap-" +:+ id;
     rRecoveryHint := ""; rCreatedAt := 0; rUpdatedAt := 0 |}.

Definition sample_task (story : string) : Task :=
  {| tID := "t1"; tStoryID := story; tDescription := "write the failing test"; tDependsOn := [];
     tStatus := TaskStatusPending; tCreatedAt := 0; tUpdatedAt := 0 |}.

Definition sample_story (id comp : string) (reqs files deps : list string) : Story :=
  {| sID := id; sComponentName := comp; sRequirementIDs := reqs; sCapabilityNames := [];
     sTitle := id; sIntent := ""; sFilesOwned := files; sDependsOn := deps;
     sTasks := [sample_task id]; sStatus := StoryStatusReady; sPreparedBy := "sarah";
     sPreparedAt := None; sRecoveryHint := ""; sCreatedAt := 0; sUpdatedAt := 0 |}.

Definition sample_cap (name : string) (deps : list string) : Capability :=
  {| capName := name; capLifecycle := CapabilityNew; capDescription := ""; capDependsOn := deps;
     capSurfaces := [SurfaceAPI] |}.

Definition sample_comp (name : string) (files : list string) (idxs : list Z) : ComponentDef :=
  {| cdName := name; cdResponsibility := ""; cdDependencies := []; cdUpstreamRefs := [];
     cdImplementationFiles := files; cdCapabilityIndices := idxs; cdCapabilities := [] |}.

Definition sample_arch (cs : list ComponentDef) : ArchitectureDocument :=
  {| adTechnologyChoices := []; adComponentBoundaries := cs; adDataFlow := ""; adDecisions := [];
     adActors := []; adIntegrations := []; adTestSurface := None; adUpstreamResolutions := [];
     adHarnessProfiles := [] |}.

Definition sample_scope (include dnt create : list string) : Scope :=
  {| scpInclude := include; scpExclude := []; scpDoNotTouch := dnt; scpCreate := create |}.

Definition sample_plan (st : Status) (reqs : list Requirement) (stories : list Story)
    (arch : option ArchitectureDocument) : Plan :=
  {| pID := "plan"; pSlug := "demo"; pTitle := "demo"; pProjectID := ""; pStatus := st;
     pApproved := false; pCreatedAt := 0; pApprovedAt := None; pReviewVerdict := "";
     pReviewSummary := ""; pReviewedAt := None; pReviewFindings := RawNil;
     pReviewFormattedFindings := ""; pReviewIteration := 0; pAutoRejectOnExhaustion := None;
     pLastError := ""; pLastErrorAt := None; pGoal := "g"; pContext := "c"; pConstraints := [];
     pContract := None; pScope := sample_scope [] [] []; pExploration := None;
     pExecutionTraceIDs := []; pLLMCallHistory := None; pSkipArchitecture := false;
     pArchitecture := arch; pPreviousArchitectureJSON := ""; pPendingArchitectureRevision := None;
     pRequirements := reqs; pScenarios := []; pStories := stories; pPlanDecisions := [];
     pGitHub := None; pQALevel := QALevelSynthesis; pQARun := None; pQAVerdictSummary := None;
     pAssembledBranch := ""; pAssembledMergeCommit := ""; pInfraHealth := "" |}.

Definition sample_scenario (id : string) (tags : list string) : Scenario :=
  {| scID := id; scRequirementID := "r1"; scStoryID := ""; scTitle := ""; scGiven := "";
     scWhen := ""; scThen := []; scStatus := ScenarioStatusPending; scTags := tags;
     scHarnessProfileIDs := []; scEnv := ∅; scRequiredAssertions := []; scCreatedAt := 0;
     scUpdatedAt := 0 |}.

(** ** Claims *)

(** [ValidateRequirementDAG] returns nil exactly when no requirement
    depends on itself, every dependency names a requirement of the slice and
    the dependency graph has no cycle; an error it reports names a defect that
    is really there, and the search always terminates with an answer. *)
Theorem ValidateRequirementDAG_decides reqs :
  (ValidateRequirementDAG reqs = None ↔ dag_spec (req_node <$> reqs)) ∧
  ∀ e, ValidateRequirementDAG reqs = Some e →
    match e with
    | ErrInvalidRequirementDAG (DepSelf id) => ∃ r, r ∈ reqs ∧ rID r = id ∧ id ∈ rDependsOn r
    | ErrInvalidRequirementDAG (DepUnknown id dep) =>
        (∃ r, r ∈ reqs ∧ rID r = id ∧ dep ∈ rDependsOn r) ∧ dep ∉ rID <$> reqs
    | ErrInvalidRequirementDAG (DepCycle id dep) =>
        edge (adj_of (req_node <$> reqs)) id dep ∧ rtc (edge (adj_of (req_node <$> reqs))) dep id
    | _ => False
    end.
Proof.
  unfold ValidateRequirementDAG. split; [by rewrite fmap_None, validate_dag_None|].
  intros e (d & Hd & ->)%fmap_Some. apply validate_dag_Some in Hd. destruct d as [id|id dep|id dep|]; [..|done].
  - destruct Hd as (ds & (r & [= -> ->] & Hr)%list_elem_of_fmap & Hin). eauto.
  - destruct Hd as (ds & (r & [= -> ->] & Hr)%list_elem_of_fmap & Hin & Hun).
    split; [eauto|]. by rewrite <- list_fmap_compose in Hun.
  - done.
Qed.

Lemma ValidateRequirementDAG_decides_witness :
  edge (adj_of (req_node <$> [sample_req "a" ["b"]; sample_req "b" ["a"]])) "b" "a".
Proof.
  refine (proj1 (proj2 (ValidateRequirementDAG_decides [sample_req "a" ["b"]; sample_req "b" ["a"]])
    (ErrInvalidRequirementDAG (DepCycle "b" "a")) _)).
  vm_compute. reflexivity.
Defined.

(** C26: On a story set with distinct IDs, [ValidateStories] returns nil
    exactly when every story is structurally ready, the story graph is a DAG
    over the set, any two stories that own a common (normalized) file are
    ordered by the transitive [DependsOn] relation, and every story's tasks
    form a DAG of well-formed tasks.  So an accepted set has no write race at
    parallel dispatch. *)
Theorem ValidateStories_decides stories :
  NoDup (sID <$> stories) →
  (ValidateStories stories = None ↔
   (∀ s, s ∈ stories → story_ok s) ∧ dag_spec (story_node <$> stories) ∧
   (∀ a b f, a ∈ stories → b ∈ stories → sID a ≠ sID b →
      f ∈ normalized_files a → f ∈ normalized_files b →
      depends stories (sID a) (sID b) ∨ depends stories (sID b) (sID a)) ∧
   (∀ s, s ∈ stories → dag_spec (task_node <$> sTasks s)) ∧
   (∀ s t, s ∈ stories → t ∈ sTasks s → task_ok (sID s) t)).
Proof.
  intros Hnd. rewrite ValidateStories_None by done.
  assert (Hr : race_free stories ↔ ∀ a b f, a ∈ stories → b ∈ stories → sID a ≠ sID b →
      f ∈ normalized_files a → f ∈ normalized_files b →
      depends stories (sID a) (sID b) ∨ depends stories (sID b) (sID a)).
  { unfold race_free, ordered_pair. split.
    - intros H a b f Ha Hb Hne Hfa Hfb. destruct (H a b Ha Hb Hne) as [Hd|?]; [|done]. set_solver.
    - intros H a b Ha Hb Hne. destruct (decide (normalized_files a ## normalized_files b)) as [|Hd];
        [by left|right]. apply dec_stable. intros Hn. apply Hd. apply elem_of_disjoint.
      intros f Hfa Hfb. by apply Hn, (H a b f). }
  rewrite <- Hr. split; [intros []; done | intros (? & ? & ? & ? & ?); done].
Qed.

Definition sample_stories : list Story :=
  [sample_story "s1" "core" ["r1"] ["core/a.go"; "README.md"] [];
   sample_story "s2" "api" ["r2"] ["api/b.go"; "./README.md"] ["s1"]].

Lemma ValidateStories_decides_witness :
  depends sample_stories "s1" "s2" ∨ depends sample_stories "s2" "s1".
Proof.
  assert (H : ValidateStories sample_stories = None) by (vm_compute; reflexivity).
  apply (ValidateStories_decides sample_stories) in H as (_ & _ & H & _).
  - apply (H (sample_story "s1" "core" ["r1"] ["core/a.go"; "README.md"] [])
             (sample_story "s2" "api" ["r2"] ["api/b.go"; "./README.md"] ["s1"]) "README.md").
    + apply elem_of_cons. by left.
    + apply elem_of_cons. right. apply elem_of_cons. by left.
    + discriminate.
    + apply (bool_decide_unpack _). vm_compute. exact I.
    + apply (bool_decide_unpack _). vm_compute. exact I.
  - apply (bool_decide_unpack _). vm_compute. exact I.
Defined.

(** [ValidateStoriesAgainstPlan] returns nil exactly when every story that
    is not pending covers only requirements of the plan (if the plan has any)
    and, when the architecture declares components, anchors to a declared
    component and owns no file outside that component's expanded
    implementation files. *)
Theorem ValidateStoriesAgainstPlan_decides plan stories :
  ValidateStoriesAgainstPlan (Some plan) stories = None ↔
  ∀ s, s ∈ stories → sStatus s ≠ StoryStatusPending →
    (pRequirements plan ≠ [] → ∀ rid, rid ∈ sRequirementIDs s → rid ∈ rID <$> pRequirements plan) ∧
    (componentFiles plan ≠ ∅ → sComponentName s ≠ "" →
       ∃ owned, componentFiles plan !! sComponentName s = Some owned ∧ normalized_files s ⊆ owned).
Proof. apply ValidateStoriesAgainstPlan_None. Qed.

Lemma ValidateStoriesAgainstPlan_decides_witness :
  "r1" ∈ rID <$> [sample_req "r1" []].
Proof.
  set (plan := sample_plan StatusPreparingStories [sample_req "r1" []] []
                 (Some (sample_arch [sample_comp "core" ["core/a.go"] [0%Z]]))).
  set (s := sample_story "s1" "core" ["r1"] ["core/a.go"] []).
  assert (H : ValidateStoriesAgainstPlan (Some plan) [s] = None) by (vm_compute; reflexivity).
  apply (ValidateStoriesAgainstPlan_decides plan [s]) with (s := s) in H as [H _].
  - apply H; [discriminate|]. apply elem_of_cons. by left.
  - apply elem_of_cons. by left.
  - discriminate.
Defined.

(** When [ResolveCapabilityIndices] returns no error, every component that
    carries indices ends with exactly the capability names its (in-range)
    indices select, so no paraphrased capability name survives; when it
    returns an error, some component really references an index outside
    0..n-1. *)
Theorem ResolveCapabilityIndices_canonical e comps out err :
  exCapabilities e ≠ [] → ResolveCapabilityIndices (Some e) comps = (out, err) →
  match err with
  | None => Forall2 (λ c c', cdName c' = cdName c ∧
      Forall (index_ok (exCapabilities e)) (cdCapabilityIndices c) ∧
      (cdCapabilityIndices c = [] → c' = c) ∧
      (cdCapabilityIndices c ≠ [] → ∀ n, n ∈ cdCapabilities c' ↔
        ∃ idx, idx ∈ cdCapabilityIndices c ∧
          (capName <$> exCapabilities e !! Z.to_nat idx) = Some n)) comps out
  | Some _ => ∃ c idx, c ∈ comps ∧ idx ∈ cdCapabilityIndices c ∧
      ¬ index_ok (exCapabilities e) idx
  end.
Proof.
  intros He. simpl. rewrite (proj2 (is_nil_false _)) by done. intros H.
  assert (Hs := resolve_components_spec (exCapabilities e) comps). rewrite H in Hs.
  destruct err; [|done]. naive_solver.
Qed.

Lemma ResolveCapabilityIndices_canonical_witness :
  ∃ c idx, c ∈ [sample_comp "core" ["a.go"] [5%Z]] ∧ idx ∈ cdCapabilityIndices c ∧
    ¬ index_ok [sample_cap "x" []] idx.
Proof.
  refine (ResolveCapabilityIndices_canonical
    {| exCapabilities := [sample_cap "x" []]; exOpenQuestions := [] |}
    [sample_comp "core" ["a.go"] [5%Z]] _ (Some _) _ _).
  - discriminate.
  - vm_compute. reflexivity.
Defined.

(** [ValidateCapabilitySet] returns nil exactly when every capability has a
    name, a declared lifecycle and distinct declared surfaces, names are
    unique, every [depends_on] entry is declared and the dependency graph has
    no cycle. *)
Theorem ValidateCapabilitySet_decides caps :
  ValidateCapabilitySet caps = None ↔
  Forall capability_ok caps ∧ NoDup (capName <$> caps) ∧
  (∀ c dep, c ∈ caps → dep ∈ capDependsOn c → dep ∈ capName <$> caps) ∧
  acyclic (adj_of (cap_node <$> caps)).
Proof.
  rewrite ValidateCapabilitySet_None. split; [by intros []|]. by intros (? & ? & ? & ?).
Qed.

Lemma ValidateCapabilitySet_decides_witness :
  acyclic (adj_of (cap_node <$> [sample_cap "a" ["b"]; sample_cap "b" []])).
Proof. apply ValidateCapabilitySet_decides. vm_compute. reflexivity. Defined.

(** With capabilities explored and requirements generated, the coverage
    check returns nil exactly when no requirement is linked to a capability at
    all (a plan that pre-dates the linkage), or all are, each to a declared
    capability, and every declared capability has a requirement. *)
Theorem RequirementCapabilityCoverage_decides e requirements :
  exCapabilities e ≠ [] → requirements ≠ [] →
  ValidateRequirementCapabilityCoverage (Some e) requirements = None ↔
  (∀ r, r ∈ requirements → rCapabilityName r = "") ∨
  ((∀ r, r ∈ requirements → rCapabilityName r ≠ "") ∧
   (∀ r, r ∈ requirements → rCapabilityName r ∈ capName <$> exCapabilities e) ∧
   (∀ c, c ∈ exCapabilities e → capName c ∈ rCapabilityName <$> requirements)).
Proof. apply ValidateRequirementCapabilityCoverage_None. Qed.

Lemma RequirementCapabilityCoverage_decides_witness :
  ValidateRequirementCapabilityCoverage
    (Some {| exCapabilities := [sample_cap "cap-a" []]; exOpenQuestions := [] |})
    [sample_req "a" []] = None.
Proof.
  apply RequirementCapabilityCoverage_decides; [discriminate..|]. right.
  split_and!; intros x ->%list_elem_of_singleton; [discriminate|by apply list_elem_of_singleton..].
Defined.

(** [ValidateScenarioTags] returns nil exactly when all tags are an [@]
    followed by letters, digits and hyphens, no tag is repeated, exactly one
    is a tier tag, and no harness profile ID is blank. *)
Theorem ValidateScenarioTags_decides s :
  ValidateScenarioTags s = None ↔
  (∀ t, t ∈ scTags s → ∃ body, t = String "@" body ∧ body ≠ "" ∧ all_bytes tag_byte body = true) ∧
  NoDup (scTags s) ∧ length (filter (λ t, IsTierTag t = true) (scTags s)) = 1 ∧
  (∀ id, id ∈ scHarnessProfileIDs s → TrimSpace id ≠ "").
Proof. apply ValidateScenarioTags_None. Qed.

Lemma ValidateScenarioTags_decides_witness : NoDup ["@unit"; "@slow"].
Proof.
  apply (ValidateScenarioTags_decides (sample_scenario "x" ["@unit"; "@slow"])).
  vm_compute. reflexivity.
Defined.

(** [UnownedScopedIncludeFiles] returns, sorted and without repetition,
    exactly the concrete normalized [scope.include] files that are not
    protected by [do_not_touch] and that no component owns directly or
    through a companion test. *)
Theorem UnownedScopedIncludeFiles_spec scope comps :
  StronglySorted String.le (UnownedScopedIncludeFiles scope comps) ∧
  NoDup (UnownedScopedIncludeFiles scope comps) ∧
  ∀ f, f ∈ UnownedScopedIncludeFiles scope comps ↔
    f ≠ "" ∧ IsConcreteScopedFile f = true ∧
    (∃ raw, raw ∈ scpInclude scope ∧ f = NormalizeFilePath raw) ∧
    (∀ raw, raw ∈ scpDoNotTouch scope → f ≠ NormalizeFilePath raw) ∧
    (∀ c, c ∈ comps → f ∉ ExpandFileScopeWithCompanionTests (cdImplementationFiles c)).
Proof.
  unfold UnownedScopedIncludeFiles. split_and!.
  - apply sort_strings_sorted.
  - rewrite sort_strings_perm. apply NoDup_unowned_loop.
  - intros f. rewrite elem_of_sort_strings, elem_of_unowned_loop, elem_of_list_to_set,
      elem_of_NormalizeFilePaths. unfold ownedFileUniverse.
    rewrite elem_of_list_to_set, list_elem_of_bind. set_solver.
Qed.
