(* ===== verification/Scheduling.v ===== *)
(** * Story scheduling

    [DeriveStoryScheduling] (workflow/derive_story_scheduling.go): the
    semantic edges from the requirement DAG, the resource edges from shared
    files, and the cycle check on the merged graph.  Go ranges over a map in
    an unspecified order that may differ from one loop to the next: the order
    in which story [i] meets its prerequisites is the parameter [range i], of
    which only that it enumerates the set is assumed. *)

From S2P Require Import Prelude Graphs Status Paths Types Stories.

(** ** Closures *)

Definition req_graph (reqs : list Requirement) : gmap string (list string) :=
  adj_of (req_node <$> reqs).

Definition buildReqClosure (reqs : list Requirement) : gmap string (gset string) :=
  let adj := req_graph reqs in
  map_of ((λ r, (rID r, bfs_closure adj (succs adj (rID r)))) <$> reqs).

Definition alreadyOrdered (aID bID : string) (closure : gmap string (gset string)) : bool :=
  in_closure closure aID bID || in_closure closure bID aID.

(** [coverers\[rid\]]: the IDs of the stories covering a requirement. *)
Definition coverers_add (m : gmap string (list string)) (e : string * string) :
    gmap string (list string) :=
  <[e.1 := appendUnique (default [] (m !! e.1)) e.2]> m.

Definition coverers (stories : list Story) : gmap string (list string) :=
  foldl coverers_add ∅ (s ← stories; (λ rid, (rid, sID s)) <$> sRequirementIDs s).

(** ** Pass 3: cycle detection *)

Definition detectSchedulerCycle (stories : list Story) : option (list string) :=
  let adj := story_graph stories in
  match pvisit_roots adj (dfs_fuel adj) (sID <$> stories) ∅ with
  | PDone _ => None
  | PCycle cycle _ => Some cycle
  | POutOfFuel => Some []
  end.

(** ** Pass 2: resource edges *)

(** [(i, j)] with [i < j < n], in loop order. *)
Definition index_pairs (n : nat) : list (nat * nat) :=
  i ← seq 0 n; (λ j, (i, j)) <$> seq (S i) (n - S i).

(** [stories\[k\].DependsOn = appendUnique(stories\[k\].DependsOn, id)] *)
Definition add_dep (k : nat) (id : string) (stories : list Story) : list Story :=
  alter (λ s, set_sDependsOn (appendUnique (sDependsOn s) id) s) k stories.

Definition resource_step (p1Closure : gmap string (gset string))
    (files : gmap string (gset string)) (st : list Story * option story_error)
    (ij : nat * nat) : list Story * option story_error :=
  let '(stories, err) := st in
  match err with
  | Some _ => st
  | None =>
    match stories !! ij.1, stories !! ij.2 with
    | Some a, Some b =>
      if alreadyOrdered (sID a) (sID b) p1Closure then st else
      let overlap := sharedFiles (default ∅ (files !! sID a)) (default ∅ (files !! sID b)) in
      if is_nil overlap then st
      else if sComponentName a =? sComponentName b then
        (stories, Some (ErrSameComponentFileConflict (sID a) (sID b) (sComponentName a) overlap))
      else if default "" (head (sort_strings [sID a; sID b])) =? sID b
      then (add_dep ij.1 (sID b) stories, None)
      else (add_dep ij.2 (sID a) stories, None)
    | _, _ => st
    end
  end.

Definition applyResourceEdges (stories : list Story) : list Story * option story_error :=
  let p1Closure := buildStoryClosure stories in
  let files := map_of ((λ s, (sID s, normalized_files s)) <$> stories) in
  foldl (resource_step p1Closure files) (stories, None) (index_pairs (length stories)).

(** ** Pass 1 and the whole derivation *)

Section derive.
Context (range : nat → gset string → list string).

(** The prerequisites of a story: the closure of what it covers. *)
Definition allPrereqs (closure : gmap string (gset string)) (s : Story) : gset string :=
  ⋃ ((λ rid, default ∅ (closure !! rid)) <$> sRequirementIDs s).

(** All coverers of one prerequisite. *)
Definition add_coverers (s : Story) (deps cs : list string) : list string :=
  foldl (λ deps c, if c !=? sID s then appendUnique deps c else deps) deps cs.

Definition semantic_edges (closure : gmap string (gset string))
    (cov : gmap string (list string)) (i : nat) (s : Story) : Story :=
  set_sDependsOn
    (foldl (λ deps prereq,
       if bool_decide (prereq ∈ sRequirementIDs s) then deps
       else add_coverers s deps (default [] (cov !! prereq)))
       (sDependsOn s) (range i (allPrereqs closure s))) s.

Definition pass1 (stories : list Story) (reqs : list Requirement) : list Story :=
  imap (semantic_edges (buildReqClosure reqs) (coverers stories)) stories.

(** Mutates the stories in place: the first component is the slice
    afterwards, also when an error is returned. *)
Definition DeriveStoryScheduling (stories : list Story) (reqs : list Requirement) :
    list Story * option story_error :=
  if is_nil stories then (stories, None) else
  match applyResourceEdges (pass1 stories reqs) with
  | (stories, Some e) => (stories, Some e)
  | (stories, None) =>
      match detectSchedulerCycle stories with
      | Some cycle => (stories, Some (ErrCoveragePartitionCyclic cycle))
      | None => (stories, None)
      end
  end.
End derive.

(** ** Lemmas: closures and coverers *)

Lemma buildReqClosure_spec reqs a b :
  b ∈ default ∅ (buildReqClosure reqs !! a) ↔ tc (edge (req_graph reqs)) a b.
Proof.
  rewrite <- elem_of_bfs_succs. unfold buildReqClosure.
  destruct (decide (a ∈ rID <$> reqs)) as [Ha|Ha].
  - by rewrite (map_of_key rID (λ x, bfs_closure (req_graph reqs) (succs (req_graph reqs) x))).
  - assert (Hn : req_graph reqs !! a = None).
    { apply not_elem_of_dom. unfold req_graph. rewrite adj_of_dom, <- list_fmap_compose.
      by rewrite elem_of_list_to_set. }
    rewrite not_elem_of_dom_1; [|by rewrite map_of_dom, elem_of_list_to_set, <- list_fmap_compose].
    unfold succs. rewrite Hn. simpl. rewrite elem_of_bfs_closure. set_solver.
Qed.

Lemma alreadyOrdered_spec stories a b :
  alreadyOrdered a b (buildStoryClosure stories) = true ↔ depends stories a b ∨ depends stories b a.
Proof. unfold alreadyOrdered. by rewrite orb_true_iff, !buildStoryClosure_spec. Qed.

Lemma coverers_spec stories rid x :
  x ∈ default [] (coverers stories !! rid) ↔
  ∃ s, s ∈ stories ∧ sID s = x ∧ rid ∈ sRequirementIDs s.
Proof.
  unfold coverers. set (es := s ← stories; (λ rid, (rid, sID s)) <$> sRequirementIDs s).
  trans ((rid, x) ∈ es).
  - clearbody es. induction es as [|[r y] es IH] using rev_ind; simpl.
    { rewrite lookup_empty. set_solver. }
    rewrite foldl_snoc. unfold coverers_add at 1; simpl.
    destruct (decide (r = rid)) as [->|Hne].
    + rewrite lookup_insert_eq. simpl. rewrite elem_of_appendUnique, IH, elem_of_app,
        list_elem_of_singleton. naive_solver.
    + rewrite lookup_insert_ne by done. rewrite IH, elem_of_app, list_elem_of_singleton. naive_solver.
  - unfold es. rewrite list_elem_of_bind. setoid_rewrite list_elem_of_fmap. naive_solver.
Qed.

Lemma detectSchedulerCycle_spec stories :
  match detectSchedulerCycle stories with
  | None => acyclic (story_graph stories)
  | Some cycle => is_cycle (story_graph stories) cycle
  end.
Proof.
  unfold detectSchedulerCycle.
  assert (H := pdfs_decides (story_graph stories) (sID <$> stories)).
  assert (Hr : ∀ r, r ∈ sID <$> stories ↔ r ∈ dom (story_graph stories)).
  { intros r. unfold story_graph. by rewrite adj_of_dom, elem_of_list_to_set, <- list_fmap_compose. }
  specialize (H Hr). destruct (pvisit_roots _ _ _ _); done.
Qed.

(** ** Lemmas: stories only grow *)

(** [s'] is [s] with edges appended to [DependsOn], everything else as it
    was. *)
Definition grows (s s' : Story) : Prop :=
  s' = set_sDependsOn (sDependsOn s') s ∧ sDependsOn s `prefix_of` sDependsOn s'.

Lemma set_sDependsOn_id s : set_sDependsOn (sDependsOn s) s = s.
Proof. by destruct s. Qed.

#[export] Instance grows_preorder : PreOrder grows.
Proof.
  split.
  - intros s. split; [by rewrite set_sDependsOn_id | done].
  - intros s t u [-> H1] [-> H2]. split; [done|]. by trans (sDependsOn (set_sDependsOn (sDependsOn t) s)).
Qed.

Lemma grows_set s ds : sDependsOn s `prefix_of` ds → grows s (set_sDependsOn ds s).
Proof. intros. by split. Qed.

Lemma grows_ID s s' : grows s s' → sID s' = sID s.
Proof. by intros [-> _]. Qed.
Lemma grows_reqs s s' : grows s s' → sRequirementIDs s' = sRequirementIDs s.
Proof. by intros [-> _]. Qed.
Lemma grows_files s s' : grows s s' → normalized_files s' = normalized_files s.
Proof. by intros [-> _]. Qed.
Lemma grows_comp s s' : grows s s' → sComponentName s' = sComponentName s.
Proof. by intros [-> _]. Qed.

Lemma grows_map {A} (f : Story → A) ss ss' :
  (∀ s s', grows s s' → f s' = f s) → Forall2 grows ss ss' → f <$> ss' = f <$> ss.
Proof.
  intros Hf. induction 1 as [|s s' ss ss' H _ IH]; [done|]. rewrite !fmap_cons. f_equal; auto.
Qed.

Lemma grows_IDs ss ss' : Forall2 grows ss ss' → sID <$> ss' = sID <$> ss.
Proof. apply grows_map. apply grows_ID. Qed.

Lemma prefix_elem {A} (l k : list A) x : l `prefix_of` k → x ∈ l → x ∈ k.
Proof. intros [r ->]. set_solver. Qed.

(** With distinct IDs the graph has an edge for every entry of a
    [DependsOn] slice and no other. *)
Lemma edge_story stories x y :
  NoDup (sID <$> stories) →
  edge (story_graph stories) x y ↔ ∃ s, s ∈ stories ∧ sID s = x ∧ y ∈ sDependsOn s.
Proof.
  intros Hnd. unfold edge, succs, story_graph. split.
  - destruct (adj_of (story_node <$> stories) !! x) as [ds|] eqn:E; simpl; [|set_solver].
    apply adj_of_lookup_some in E. apply list_elem_of_fmap in E as (s & [= -> ->] & Hs). eauto.
  - intros (s & Hs & <- & Hy). rewrite (adj_of_lookup _ (sID s) (sDependsOn s)); [done| |].
    + by rewrite <- list_fmap_compose.
    + apply list_elem_of_fmap. by exists s.
Qed.

Lemma grows_depends ss ss' x y :
  NoDup (sID <$> ss) → Forall2 grows ss ss' → depends ss x y → depends ss' x y.
Proof.
  intros Hnd Hg. apply tc_subrel. intros a b. rewrite !edge_story by (by rewrite ?(grows_IDs ss ss')).
  intros (s & Hs & <- & Hb). apply list_elem_of_lookup in Hs as [i Hi].
  destruct (Forall2_lookup_l _ _ _ _ _ Hg Hi) as (s' & Hi' & Hs').
  exists s'. split_and!; [by eapply list_elem_of_lookup_2 | by apply grows_ID |].
  eapply prefix_elem; [apply Hs'|done].
Qed.

(** ** Lemmas: pass 1 *)

(** The all-coverers rule: [x] covers a transitive prerequisite of [s] that
    [s] does not cover itself. *)
Definition semantic_dep (stories : list Story) (reqs : list Requirement) (s : Story) (x : string) : Prop :=
  x ≠ sID s ∧ ∃ rid p c, rid ∈ sRequirementIDs s ∧ tc (edge (req_graph reqs)) rid p ∧
    (p ∉ sRequirementIDs s) ∧ c ∈ stories ∧ sID c = x ∧ p ∈ sRequirementIDs c.

Lemma elem_of_add_coverers s deps cs x :
  x ∈ add_coverers s deps cs ↔ x ∈ deps ∨ (x ∈ cs ∧ x ≠ sID s).
Proof.
  unfold add_coverers. revert deps. induction cs as [|c cs IH]; intros deps; simpl; [set_solver|].
  rewrite IH. destruct (c =? sID s) eqn:E; simpl; breflect.
  - set_solver.
  - rewrite elem_of_appendUnique. set_solver.
Qed.

Lemma add_coverers_prefix s deps cs : deps `prefix_of` add_coverers s deps cs.
Proof.
  unfold add_coverers. revert deps. induction cs as [|c cs IH]; intros deps; simpl; [done|].
  etrans; [|apply IH]. case_match; [apply appendUnique_prefix|done].
Qed.

Lemma add_coverers_id s deps cs :
  (∀ c, c ∈ cs → c ≠ sID s → c ∈ deps) → add_coverers s deps cs = deps.
Proof.
  unfold add_coverers. induction cs as [|c cs IH]; intros H; simpl; [done|].
  destruct (c =? sID s) eqn:E; simpl; breflect; [|rewrite appendUnique_in by set_solver];
    apply IH; set_solver.
Qed.

Section derive_lemmas.
Context (range : nat → gset string → list string).
Context (range_perm : ∀ i X, range i X ≡ₚ elements X).

Lemma elem_of_range i X x : x ∈ range i X ↔ x ∈ X.
Proof. by rewrite range_perm, elem_of_elements. Qed.

Lemma elem_of_allPrereqs reqs s p :
  p ∈ allPrereqs (buildReqClosure reqs) s ↔
  ∃ rid, rid ∈ sRequirementIDs s ∧ tc (edge (req_graph reqs)) rid p.
Proof.
  unfold allPrereqs. rewrite elem_of_union_list. setoid_rewrite list_elem_of_fmap. split.
  - intros (X & (rid & -> & Hr) & Hp). apply buildReqClosure_spec in Hp. eauto.
  - intros (rid & Hr & Hp). eexists. split; [by exists rid|]. by apply buildReqClosure_spec.
Qed.

Definition semantic_fold (cov : gmap string (list string)) (s : Story) (deps ps : list string) :=
  foldl (λ deps prereq,
    if bool_decide (prereq ∈ sRequirementIDs s) then deps
    else add_coverers s deps (default [] (cov !! prereq))) deps ps.

Lemma elem_of_semantic_fold cov s deps ps x :
  x ∈ semantic_fold cov s deps ps ↔
  x ∈ deps ∨ (x ≠ sID s ∧ ∃ p, p ∈ ps ∧ (p ∉ sRequirementIDs s) ∧ x ∈ default [] (cov !! p)).
Proof.
  unfold semantic_fold. revert deps. induction ps as [|p ps IH]; intros deps; simpl; [set_solver|].
  rewrite IH. case_bool_decide; [|rewrite elem_of_add_coverers]; set_solver.
Qed.

Lemma semantic_fold_prefix cov s deps ps : deps `prefix_of` semantic_fold cov s deps ps.
Proof.
  unfold semantic_fold. revert deps. induction ps as [|p ps IH]; intros deps; simpl; [done|].
  etrans; [|apply IH]. case_bool_decide; [done | apply add_coverers_prefix].
Qed.

Lemma semantic_fold_id cov s deps ps :
  (∀ p c, p ∈ ps → p ∉ sRequirementIDs s → c ∈ default [] (cov !! p) → c ≠ sID s → c ∈ deps) →
  semantic_fold cov s deps ps = deps.
Proof.
  unfold semantic_fold. induction ps as [|p ps IH]; intros H; simpl; [done|].
  case_bool_decide; [|rewrite add_coverers_id by set_solver]; apply IH; set_solver.
Qed.

Lemma elem_of_semantic_edges stories reqs i s x :
  x ∈ sDependsOn (semantic_edges range (buildReqClosure reqs) (coverers stories) i s) ↔
  x ∈ sDependsOn s ∨ semantic_dep stories reqs s x.
Proof.
  change (sDependsOn (semantic_edges _ _ _ _ _)) with
    (semantic_fold (coverers stories) s (sDependsOn s)
       (range i (allPrereqs (buildReqClosure reqs) s))).
  rewrite elem_of_semantic_fold. unfold semantic_dep.
  setoid_rewrite elem_of_range. setoid_rewrite elem_of_allPrereqs. setoid_rewrite coverers_spec.
  naive_solver.
Qed.

Lemma pass1_grows stories reqs : Forall2 grows stories (pass1 range stories reqs).
Proof.
  apply Forall2_same_length_lookup_2; [by unfold pass1; rewrite length_imap|].
  intros i s s' Hs. unfold pass1. rewrite list_lookup_imap, Hs. intros [= <-].
  apply grows_set, semantic_fold_prefix.
Qed.

(** A slice whose semantic edges are all present already is left alone. *)
Lemma pass1_id stories reqs :
  (∀ s x, s ∈ stories → semantic_dep stories reqs s x → x ∈ sDependsOn s) →
  pass1 range stories reqs = stories.
Proof.
  intros H. apply list_eq. intros i. unfold pass1. rewrite list_lookup_imap.
  destruct (stories !! i) as [s|] eqn:E; simpl; [|done]. f_equal. unfold semantic_edges.
  fold (semantic_fold (coverers stories) s (sDependsOn s)
          (range i (allPrereqs (buildReqClosure reqs) s))).
  rewrite semantic_fold_id; [apply set_sDependsOn_id|].
  intros p c Hp Hn Hc Hne. apply (H s c); [by eapply list_elem_of_lookup_2|].
  apply elem_of_range, elem_of_allPrereqs in Hp as (rid & Hr & Ht).
  apply coverers_spec in Hc as (t & Ht1 & Ht2 & Ht3). split; [done|].
  by exists rid, p, t.
Qed.
End derive_lemmas.

(** ** Lemmas: pass 2 *)

(** Why an edge from [s] to [x] is added for a shared file. *)
Definition resource_dep (stories : list Story) (s : Story) (x : string) : Prop :=
  ∃ t, t ∈ stories ∧ sID t = x ∧ sComponentName t ≠ sComponentName s ∧
    ¬ normalized_files s ## normalized_files t.

Lemma elem_of_index_pairs n i j : (i, j) ∈ index_pairs n ↔ i < j < n.
Proof.
  unfold index_pairs. rewrite list_elem_of_bind. setoid_rewrite list_elem_of_fmap.
  setoid_rewrite elem_of_seq. split.
  - intros (i' & (j' & [= <- <-] & ?) & ?). lia.
  - intros ?. exists i. split; [|lia]. exists j. split; [done|lia].
Qed.

Lemma add_dep_grows k x ss ss' : Forall2 grows ss ss' → Forall2 grows ss (add_dep k x ss').
Proof.
  intros H. apply Forall2_same_length_lookup_2.
  { unfold add_dep. rewrite length_alter. by eapply Forall2_length. }
  intros i s t Hs Ht. unfold add_dep in Ht. destruct (Forall2_lookup_l _ _ _ _ _ H Hs) as (s' & Hs' & Hg).
  destruct (decide (i = k)) as [->|Hne].
  - rewrite list_lookup_alter_eq, Hs' in Ht. simpl in Ht. injection Ht as <-.
    trans s'; [done|]. apply grows_set, appendUnique_prefix.
  - rewrite list_lookup_alter_ne in Ht by done. by simplify_eq.
Qed.

(** What has been settled about a pair once it is processed. *)
Definition pair_ordered (ss ss' : list Story) (i j : nat) : Prop :=
  ∀ a b, ss !! i = Some a → ss !! j = Some b →
    normalized_files a ## normalized_files b ∨
    depends ss (sID a) (sID b) ∨ depends ss (sID b) (sID a) ∨
    (∃ b', ss' !! j = Some b' ∧ sID a ∈ sDependsOn b') ∨
    (∃ a', ss' !! i = Some a' ∧ sID b ∈ sDependsOn a').

(** Every edge of the result was there or is justified. *)
Definition edges_sound (ss ss' : list Story) : Prop :=
  ∀ k s s' x, ss !! k = Some s → ss' !! k = Some s' → x ∈ sDependsOn s' →
    x ∈ sDependsOn s ∨ resource_dep ss s x.

Lemma add_dep_lookup k x ss i s :
  add_dep k x ss !! i = Some s →
  ∃ s0, ss !! i = Some s0 ∧ (∀ y, y ∈ sDependsOn s ↔ y ∈ sDependsOn s0 ∨ (i = k ∧ y = x)).
Proof.
  unfold add_dep. destruct (decide (i = k)) as [->|Hne].
  - rewrite list_lookup_alter_eq. intros (s0 & Hs0 & ->)%fmap_Some. exists s0. split; [done|].
    intros y. simpl. rewrite elem_of_appendUnique. naive_solver.
  - rewrite list_lookup_alter_ne by done. intros Hs. exists s. split; [done|]. naive_solver.
Qed.

Lemma add_dep_sound ss ss' k x s :
  ss !! k = Some s → resource_dep ss s x → edges_sound ss ss' → edges_sound ss (add_dep k x ss').
Proof.
  intros Hs Hr H i t t' y Ht Ht' Hy.
  apply add_dep_lookup in Ht' as (t0 & Ht0 & Hy0). apply Hy0 in Hy as [Hy|[-> ->]].
  - by eapply H.
  - right. by simplify_eq.
Qed.

Lemma pair_ordered_mono ss ss' k x i j :
  pair_ordered ss ss' i j → pair_ordered ss (add_dep k x ss') i j.
Proof.
  assert (Hmono : ∀ n y, (∃ b, ss' !! n = Some b ∧ y ∈ sDependsOn b) →
    ∃ b, add_dep k x ss' !! n = Some b ∧ y ∈ sDependsOn b).
  { intros n y (b & Hb & Hy). unfold add_dep. destruct (decide (n = k)) as [->|Hne].
    - rewrite list_lookup_alter_eq, Hb. simpl. eexists. split; [done|]. simpl.
      apply elem_of_appendUnique. by left.
    - rewrite list_lookup_alter_ne by done. eauto. }
  intros H a b Ha Hb. destruct (H a b Ha Hb) as [?|[?|[?|[?|?]]]]; auto 6.
Qed.

(** One step keeps everything settled so far and settles its own pair. *)
Lemma resource_step_ok ss ss' ij done_ :
  NoDup (sID <$> ss) → ij.1 < ij.2 < length ss →
  Forall2 grows ss ss' → edges_sound ss ss' →
  (∀ i j, (i, j) ∈ done_ → pair_ordered ss ss' i j) →
  match resource_step (buildStoryClosure ss)
          (map_of ((λ s, (sID s, normalized_files s)) <$> ss)) (ss', None) ij with
  | (ss'', None) => Forall2 grows ss ss'' ∧ edges_sound ss ss'' ∧
      ∀ i j, (i, j) ∈ ij :: done_ → pair_ordered ss ss'' i j
  | (ss'', Some e) => Forall2 grows ss ss'' ∧ ∃ a b, a ∈ ss ∧ b ∈ ss ∧ sID a ≠ sID b ∧
      sComponentName a = sComponentName b ∧ ¬ normalized_files a ## normalized_files b ∧
      e = ErrSameComponentFileConflict (sID a) (sID b) (sComponentName a)
            (sharedFiles (normalized_files a) (normalized_files b))
  end.
Proof.
  intros Hnd Hij Hg Hsd Hdone. destruct ij as [i j]; simpl in *.
  destruct (lookup_lt_is_Some_2 ss i ltac:(lia)) as [a Ha].
  destruct (lookup_lt_is_Some_2 ss j ltac:(lia)) as [b Hb].
  destruct (Forall2_lookup_l _ _ _ _ _ Hg Ha) as (a' & Ha' & Hga).
  destruct (Forall2_lookup_l _ _ _ _ _ Hg Hb) as (b' & Hb' & Hgb).
  rewrite Ha', Hb', (grows_ID a a'), (grows_ID b b'), (grows_comp a a'), (grows_comp b b') by done.
  assert (Hain : a ∈ ss) by (by eapply list_elem_of_lookup_2).
  assert (Hbin : b ∈ ss) by (by eapply list_elem_of_lookup_2).
  rewrite !files_by_id by done.
  assert (Hne : sID a ≠ sID b).
  { intros E. assert (i = j); [|lia]. eapply NoDup_lookup; [done| |];
      rewrite list_lookup_fmap; [by rewrite Ha | by rewrite Hb, E]. }
  assert (Hkeep : pair_ordered ss ss' i j → Forall2 grows ss ss' ∧ edges_sound ss ss' ∧
    ∀ i0 j0, (i0, j0) ∈ (i, j) :: done_ → pair_ordered ss ss' i0 j0).
  { intros Hp. split_and!; [done..|]. intros i0 j0 [[= -> ->]|?]%elem_of_cons; auto. }
  destruct (alreadyOrdered (sID a) (sID b) (buildStoryClosure ss)) eqn:Eo.
  { apply Hkeep. intros x y Hx Hy. simplify_eq. apply alreadyOrdered_spec in Eo. tauto. }
  destruct (is_nil (sharedFiles (normalized_files a) (normalized_files b))) eqn:En.
  { apply Hkeep. intros x y Hx Hy. simplify_eq. left. by apply sharedFiles_nil. }
  assert (Hov : ¬ normalized_files a ## normalized_files b).
  { rewrite <- sharedFiles_nil. congruence. }
  destruct (sComponentName a =? sComponentName b) eqn:Ec; breflect.
  { split; [done|]. exists a, b. done. }
  destruct (_ =? sID b); breflect.
  - split_and!.
    + by apply add_dep_grows.
    + eapply add_dep_sound; [done| |done]. exists b. split_and!; [done..|congruence|done].
    + intros i0 j0 [[= -> ->]|Hin]%elem_of_cons; [|by apply pair_ordered_mono, Hdone].
      intros x y Hx Hy. simplify_eq. do 4 right. unfold add_dep.
      rewrite list_lookup_alter_eq, Ha'. eexists. split; [done|]. simpl.
      apply elem_of_appendUnique. by right.
  - split_and!.
    + by apply add_dep_grows.
    + eapply add_dep_sound; [done| |done]. exists a. split_and!; [done..|].
      intros Hd. by apply Hov.
    + intros i0 j0 [[= -> ->]|Hin]%elem_of_cons; [|by apply pair_ordered_mono, Hdone].
      intros x y Hx Hy. simplify_eq. do 3 right. left. unfold add_dep.
      rewrite list_lookup_alter_eq, Hb'. eexists. split; [done|]. simpl.
      apply elem_of_appendUnique. by right.
Qed.

Lemma resource_step_err closure files ss e pairs :
  foldl (resource_step closure files) (ss, Some e) pairs = (ss, Some e).
Proof. by induction pairs. Qed.

Lemma applyResourceEdges_ok ss :
  NoDup (sID <$> ss) →
  match applyResourceEdges ss with
  | (ss', None) => Forall2 grows ss ss' ∧ edges_sound ss ss' ∧
      ∀ i j, i < j < length ss → pair_ordered ss ss' i j
  | (ss', Some e) => Forall2 grows ss ss' ∧ ∃ a b, a ∈ ss ∧ b ∈ ss ∧ sID a ≠ sID b ∧
      sComponentName a = sComponentName b ∧ ¬ normalized_files a ## normalized_files b ∧
      e = ErrSameComponentFileConflict (sID a) (sID b) (sComponentName a)
            (sharedFiles (normalized_files a) (normalized_files b))
  end.
Proof.
  intros Hnd. unfold applyResourceEdges.
  cut (∀ pairs done_ ss', (∀ ij, ij ∈ pairs → ij.1 < ij.2 < length ss) →
    Forall2 grows ss ss' → edges_sound ss ss' →
    (∀ i j, (i, j) ∈ done_ → pair_ordered ss ss' i j) →
    match foldl (resource_step (buildStoryClosure ss)
                   (map_of ((λ s, (sID s, normalized_files s)) <$> ss))) (ss', None) pairs with
    | (ss'', None) => Forall2 grows ss ss'' ∧ edges_sound ss ss'' ∧
        ∀ i j, (i, j) ∈ pairs ++ done_ → pair_ordered ss ss'' i j
    | (ss'', Some e) => Forall2 grows ss ss'' ∧ ∃ a b, a ∈ ss ∧ b ∈ ss ∧ sID a ≠ sID b ∧
        sComponentName a = sComponentName b ∧ ¬ normalized_files a ## normalized_files b ∧
        e = ErrSameComponentFileConflict (sID a) (sID b) (sComponentName a)
              (sharedFiles (normalized_files a) (normalized_files b))
    end).
  { intros H. specialize (H (index_pairs (length ss)) [] ss).
    destruct (foldl _ _ _) as [ss' [e|]].
    - apply H; [|reflexivity|intros k s s' x; naive_solver|set_solver].
      intros [i j]. apply elem_of_index_pairs.
    - destruct H as (? & ? & H); [|reflexivity|intros k s s' x; naive_solver|set_solver|].
      { intros [i j]. apply elem_of_index_pairs. }
      split_and!; [done..|]. intros i j Hij. apply H. rewrite app_nil_r.
      by apply elem_of_index_pairs. }
  induction pairs as [|ij pairs IH]; intros done_ ss' Hp Hg Hs Hd; cbn [foldl app].
  { done. }
  assert (Hstep := resource_step_ok ss ss' ij done_ Hnd (Hp ij ltac:(set_solver)) Hg Hs Hd).
  destruct (resource_step _ _ (ss', None) ij) as [ss'' [e|]].
  - rewrite resource_step_err. done.
  - destruct Hstep as (Hg' & Hs' & Hd').
    specialize (IH (ij :: done_) ss'' ltac:(set_solver) Hg' Hs' Hd').
    destruct (foldl _ _ _) as [ss3 [e|]]; [done|]. destruct IH as (? & ? & IH).
    split_and!; [done..|]. intros i j Hin. apply IH. set_solver.
Qed.

(** The pairs settled by pass 2 make the result free of write races. *)
Lemma pairs_race_free ss ss' :
  NoDup (sID <$> ss) → Forall2 grows ss ss' →
  (∀ i j, i < j < length ss → pair_ordered ss ss' i j) → race_free ss'.
Proof.
  intros Hnd Hg Hp.
  assert (Hnd' : NoDup (sID <$> ss')) by (by rewrite (grows_IDs ss ss')).
  assert (Hlt : ∀ i j a' b', ss' !! i = Some a' → ss' !! j = Some b' → i < j →
    ordered_pair ss' a' b').
  { intros i j a' b' Ha' Hb' Hij.
    destruct (Forall2_lookup_r _ _ _ _ _ Hg Ha') as (a & Ha & Hga).
    destruct (Forall2_lookup_r _ _ _ _ _ Hg Hb') as (b & Hb & Hgb).
    apply lookup_lt_Some in Hb as Hj.
    unfold ordered_pair. rewrite (grows_files a a'), (grows_files b b') by done.
    rewrite (grows_ID a a'), (grows_ID b b') by done.
    assert (Hedge : ∀ k s x, ss' !! k = Some s → x ∈ sDependsOn s → depends ss' (sID s) x).
    { intros k s x Hk Hx. apply tc_once, edge_story; [done|]. exists s.
      split_and!; [by eapply list_elem_of_lookup_2|done|done]. }
    destruct (Hp i j ltac:(lia) a b Ha Hb) as [?|[H|[H|[(x & Hx & Hin)|(x & Hx & Hin)]]]].
    - by left.
    - right; left. by apply (grows_depends ss).
    - right; right. by apply (grows_depends ss).
    - right; right. assert (x = b') as -> by congruence.
      rewrite <- (grows_ID b b') by done. by eapply Hedge.
    - right; left. assert (x = a') as -> by congruence.
      rewrite <- (grows_ID a a') by done. by eapply Hedge. }
  intros a b [i Hi]%list_elem_of_lookup [j Hj]%list_elem_of_lookup Hne.
  destruct (decide (i < j)) as [Hij|Hij]; [by eapply Hlt|].
  destruct (decide (i = j)) as [->|Hne']; [by simplify_eq|].
  destruct (Hlt j i b a Hj Hi) as [H|[H|H]]; [lia|left; by symmetry|by right; right|by right; left].
Qed.

Lemma applyResourceEdges_id ss :
  NoDup (sID <$> ss) → race_free ss → applyResourceEdges ss = (ss, None).
Proof.
  intros Hnd Hr. unfold applyResourceEdges.
  assert (Hall : ∀ ij, ij ∈ index_pairs (length ss) → ij.1 < ij.2 < length ss)
    by (intros [i j]; apply elem_of_index_pairs).
  induction (index_pairs (length ss)) as [|[i j] pairs IH]; [done|]. cbn [foldl].
  destruct (Hall (i, j) ltac:(set_solver)) as [Hij Hj]; simpl in *.
  destruct (lookup_lt_is_Some_2 ss i ltac:(lia)) as [a Ha].
  destruct (lookup_lt_is_Some_2 ss j ltac:(lia)) as [b Hb].
  assert (Hain : a ∈ ss) by (by eapply list_elem_of_lookup_2).
  assert (Hbin : b ∈ ss) by (by eapply list_elem_of_lookup_2).
  assert (Hne : sID a ≠ sID b).
  { intros E. assert (i = j); [|lia]. eapply NoDup_lookup; [done| |];
      rewrite list_lookup_fmap; [by rewrite Ha | by rewrite Hb, E]. }
  rewrite Ha, Hb, !files_by_id by done.
  destruct (Hr a b Hain Hbin Hne) as [Hd|Hd].
  - rewrite (proj2 (sharedFiles_nil _ _)) by done.
    replace (if alreadyOrdered _ _ _ then _ else _) with (ss, @None story_error) by (by case_match).
    apply IH. set_solver.
  - rewrite (proj2 (alreadyOrdered_spec ss _ _)) by done. apply IH. set_solver.
Qed.

(** ** The derivation *)

Lemma grows_Forall2_trans ss ss1 ss2 :
  Forall2 grows ss ss1 → Forall2 grows ss1 ss2 → Forall2 grows ss ss2.
Proof. intros. by trans ss1. Qed.

Lemma resource_dep_grows ss ss1 s s1 x :
  Forall2 grows ss ss1 → grows s s1 → resource_dep ss1 s1 x → resource_dep ss s x.
Proof.
  intros Hg Hs (t1 & [k Hk]%list_elem_of_lookup & Hx & Hc & Hf).
  destruct (Forall2_lookup_r _ _ _ _ _ Hg Hk) as (t & Ht & Hgt).
  exists t. rewrite <- (grows_ID t t1), <- (grows_comp t t1), <- (grows_comp s s1),
    <- (grows_files t t1), <- (grows_files s s1) by done.
  split_and!; [by eapply list_elem_of_lookup_2|done..].
Qed.

(** The dependency of a semantic prerequisite does not look at existing
    edges. *)
Lemma semantic_dep_grows ss ss' reqs s s' x :
  Forall2 grows ss ss' → grows s s' → semantic_dep ss' reqs s' x → semantic_dep ss reqs s x.
Proof.
  intros Hg Hs (Hne & rid & p & c' & Hr & Ht & Hp & [k Hk]%list_elem_of_lookup & Hx & Hc).
  destruct (Forall2_lookup_r _ _ _ _ _ Hg Hk) as (c & Hck & Hgc).
  rewrite (grows_ID s s') in Hne by done. rewrite (grows_reqs s s') in Hr, Hp by done.
  rewrite (grows_ID c c') in Hx by done. rewrite (grows_reqs c c') in Hc by done.
  split; [done|]. exists rid, p, c. split_and!; try done. by eapply list_elem_of_lookup_2.
Qed.

Section derive_claims.
Context (range : nat → gset string → list string).
Context (range_perm : ∀ i X, range i X ≡ₚ elements X).

(** Everything a successful derivation establishes. *)
Record derived (stories : list Story) (reqs : list Requirement) (out : list Story) : Prop := {
  dv_grows : Forall2 grows stories out;
  dv_acyclic : acyclic (story_graph out);
  dv_race : race_free out;
  dv_complete : ∀ i s s' x, stories !! i = Some s → out !! i = Some s' →
    semantic_dep stories reqs s x → x ∈ sDependsOn s';
  dv_sound : ∀ i s s' x, stories !! i = Some s → out !! i = Some s' → x ∈ sDependsOn s' →
    x ∈ sDependsOn s ∨ semantic_dep stories reqs s x ∨ resource_dep stories s x }.

Lemma derive_derived stories reqs out :
  NoDup (sID <$> stories) →
  DeriveStoryScheduling range stories reqs = (out, None) → derived stories reqs out.
Proof.
  intros Hnd. unfold DeriveStoryScheduling. destruct (is_nil stories) eqn:Enil.
  { intros [= <-]. apply is_nil_true in Enil as ->. split; try done.
    - intros x (y & Hy & _)%tc_inv_l. unfold edge, succs, story_graph in Hy. simpl in Hy.
      unfold adj_of, map_of in Hy. simpl in Hy. rewrite lookup_empty in Hy. set_solver.
    - intros a b. set_solver. }
  assert (Hg1 := pass1_grows range stories reqs).
  assert (Hel := λ i s x, elem_of_semantic_edges range range_perm stories reqs i s x).
  assert (Hlk : ∀ i s, stories !! i = Some s → pass1 range stories reqs !! i =
    Some (semantic_edges range (buildReqClosure reqs) (coverers stories) i s)).
  { intros i s Hs. unfold pass1. by rewrite list_lookup_imap, Hs. }
  set (p1 := pass1 range stories reqs) in *. clearbody p1.
  assert (Hnd1 : NoDup (sID <$> p1)) by (by rewrite (grows_IDs stories p1)).
  assert (Hres := applyResourceEdges_ok p1 Hnd1).
  destruct (applyResourceEdges p1) as [ss [e|]]; [done|]. destruct Hres as (Hg2 & Hsd & Hp).
  assert (Hcyc := detectSchedulerCycle_spec ss).
  destruct (detectSchedulerCycle ss); [done|]. intros [= <-].
  split; [by eapply grows_Forall2_trans|done|by eapply pairs_race_free|..].
  - intros i s s' x Hs Hs' Hx. assert (H1 := Hlk i s Hs).
    destruct (Forall2_lookup_l _ _ _ _ _ Hg2 H1) as (s2 & Hs2 & _ & Hpre). simplify_eq.
    eapply prefix_elem; [done|]. apply Hel. by right.
  - intros i s s' x Hs Hs' Hx. assert (H1 := Hlk i s Hs).
    destruct (Hsd i _ s' x H1 Hs' Hx) as [Hin|Hr]; [apply Hel in Hin; tauto|].
    do 2 right. destruct (Forall2_lookup_l _ _ _ _ _ Hg1 Hs) as (s1 & Hs1 & Hgs). simplify_eq.
    by eapply resource_dep_grows.
Qed.

(** A derived slice is a fixed point, for any iteration order. *)
Lemma derived_fixed stories reqs out :
  NoDup (sID <$> stories) → derived stories reqs out →
  DeriveStoryScheduling range out reqs = (out, None).
Proof.
  intros Hnd [Hg Hac Hr Hc _]. unfold DeriveStoryScheduling.
  destruct (is_nil out); [done|].
  assert (Hnd' : NoDup (sID <$> out)) by (by rewrite (grows_IDs stories out)).
  rewrite pass1_id; [|done|].
  - rewrite applyResourceEdges_id by done.
    assert (Hcyc := detectSchedulerCycle_spec out).
    destruct (detectSchedulerCycle out) as [c|]; [|done].
    apply is_cycle_tc in Hcyc as [x Hx]. by destruct (Hac x).
  - intros s x [k Hk]%list_elem_of_lookup Hx.
    destruct (Forall2_lookup_r _ _ _ _ _ Hg Hk) as (s0 & Hs0 & Hgs).
    eapply Hc; [done|done|]. by eapply semantic_dep_grows.
Qed.
End derive_claims.

(** ** Claims *)

Definition sample_range (i : nat) (X : gset string) : list string := elements X.

Lemma sample_range_perm i X : sample_range i X ≡ₚ elements X.
Proof. done. Qed.

Definition sched_reqs : list Requirement :=
  [sample_req "r1" []; sample_req "r2" ["r1"]; sample_req "r3" []].

Definition sched_stories : list Story :=
  [sample_story "s2" "api" ["r2"] ["api/b.go"] [];
   sample_story "s1" "core" ["r1"] ["core/a.go"; "README.md"] [];
   sample_story "s0" "docs" ["r3"] ["docs/x.go"; "./README.md"] []].

(** C1: On stories with distinct IDs, whatever order Go ranges over its maps
    in, a successful [DeriveStoryScheduling] yields an acyclic schedule in
    which (a) a story waits for every other story that covers a transitive
    prerequisite it does not cover itself, and (b) any two stories that own a
    common file are ordered, so [ValidateStoryFileOwnership] accepts it. *)
Theorem DeriveStoryScheduling_schedule range stories reqs out :
  (∀ i X, range i X ≡ₚ elements X) →
  NoDup (sID <$> stories) →
  DeriveStoryScheduling range stories reqs = (out, None) →
  acyclic (story_graph out) ∧
  ValidateStoryFileOwnership out = None ∧
  (∀ i s s' rid p c, stories !! i = Some s → out !! i = Some s' →
     rid ∈ sRequirementIDs s → tc (edge (req_graph reqs)) rid p → p ∉ sRequirementIDs s →
     c ∈ stories → sID c ≠ sID s → p ∈ sRequirementIDs c → sID c ∈ sDependsOn s').
Proof.
  intros Hr Hnd Hd. destruct (derive_derived range Hr stories reqs out Hnd Hd) as [Hg Hac Hrace Hc _].
  split_and!; [done| |].
  - apply ValidateStoryFileOwnership_None; [|done]. by rewrite (grows_IDs stories out).
  - intros i s s' rid p c Hs Hs' Hrid Ht Hp Hcin Hne Hcov. eapply Hc; [done..|].
    split; [done|]. by exists rid, p, c.
Qed.

Lemma DeriveStoryScheduling_schedule_witness :
  ValidateStoryFileOwnership (DeriveStoryScheduling sample_range sched_stories sched_reqs).1 = None.
Proof.
  apply (DeriveStoryScheduling_schedule sample_range sched_stories sched_reqs).
  - exact sample_range_perm.
  - apply (bool_decide_unpack _). vm_compute. exact I.
  - vm_compute. reflexivity.
Defined.

(** A successful derivation only appends to [DependsOn]: every other field
    of every story and every pre-existing edge (in place, as a prefix) is
    kept, and each new edge is justified by an uncovered prerequisite or by
    a file shared with a story of another component. *)
Theorem DeriveStoryScheduling_edges_justified range stories reqs out :
  (∀ i X, range i X ≡ₚ elements X) →
  NoDup (sID <$> stories) →
  DeriveStoryScheduling range stories reqs = (out, None) →
  length out = length stories ∧
  ∀ i s s', stories !! i = Some s → out !! i = Some s' →
    s' = set_sDependsOn (sDependsOn s') s ∧ sDependsOn s `prefix_of` sDependsOn s' ∧
    ∀ x, x ∈ sDependsOn s' →
      x ∈ sDependsOn s ∨ semantic_dep stories reqs s x ∨ resource_dep stories s x.
Proof.
  intros Hr Hnd Hd. destruct (derive_derived range Hr stories reqs out Hnd Hd) as [Hg _ _ _ Hs].
  split; [symmetry; by eapply Forall2_length|]. intros i s s' Hi Hi'.
  destruct (Forall2_lookup_l _ _ _ _ _ Hg Hi) as (s2 & Hi2 & Hgs). simplify_eq.
  destruct Hgs. split_and!; [done..|]. intros x Hx. by eapply Hs.
Qed.

Lemma DeriveStoryScheduling_edges_justified_witness :
  length (DeriveStoryScheduling sample_range sched_stories sched_reqs).1 = 3.
Proof.
  apply (DeriveStoryScheduling_edges_justified sample_range sched_stories sched_reqs).
  - exact sample_range_perm.
  - apply (bool_decide_unpack _). vm_compute. exact I.
  - vm_compute. reflexivity.
Defined.

(** Re-deriving the schedule of a plan whose stories already carry their
    edges changes nothing, even if Go ranges over its maps in another order
    the second time. *)
Theorem DeriveStoryScheduling_idempotent range range' stories reqs out :
  (∀ i X, range i X ≡ₚ elements X) → (∀ i X, range' i X ≡ₚ elements X) →
  NoDup (sID <$> stories) →
  DeriveStoryScheduling range stories reqs = (out, None) →
  DeriveStoryScheduling range' out reqs = (out, None).
Proof.
  intros Hr Hr' Hnd Hd. apply (derived_fixed range' Hr' stories); [done|].
  by eapply (derive_derived range).
Qed.

Lemma DeriveStoryScheduling_idempotent_witness :
  let out := (DeriveStoryScheduling sample_range sched_stories sched_reqs).1 in
  DeriveStoryScheduling sample_range out sched_reqs = (out, None).
Proof.
  apply (DeriveStoryScheduling_idempotent sample_range sample_range sched_stories sched_reqs).
  - exact sample_range_perm.
  - exact sample_range_perm.
  - apply (bool_decide_unpack _). vm_compute. exact I.
  - vm_compute. reflexivity.
Defined.

(** Each failure of [DeriveStoryScheduling] is genuine: a same-component
    conflict names two stories of one component that share a file, and a
    cyclic partition is reported with a real cycle of the derived graph. *)
Theorem DeriveStoryScheduling_errors_genuine range stories reqs out e :
  NoDup (sID <$> stories) →
  DeriveStoryScheduling range stories reqs = (out, Some e) →
  Forall2 grows stories out ∧
  match e with
  | ErrSameComponentFileConflict a b comp shared =>
      ∃ s t, s ∈ stories ∧ t ∈ stories ∧ sID s = a ∧ sID t = b ∧ a ≠ b ∧
        sComponentName s = comp ∧ sComponentName t = comp ∧ shared ≠ [] ∧
        ∀ f, f ∈ shared ↔ f ∈ normalized_files s ∧ f ∈ normalized_files t
  | ErrCoveragePartitionCyclic cycle => is_cycle (story_graph out) cycle
  | _ => False
  end.
Proof.
  intros Hnd. unfold DeriveStoryScheduling. destruct (is_nil stories); [done|].
  assert (Hg1 := pass1_grows range stories reqs).
  set (p1 := pass1 range stories reqs) in *. clearbody p1.
  assert (Hres := applyResourceEdges_ok p1 ltac:(by rewrite (grows_IDs stories p1))).
  destruct (applyResourceEdges p1) as [ss [e'|]].
  - intros [= <- <-]. destruct Hres as (Hg2 & a & b & Ha & Hb & Hne & Hc & Hf & ->).
    split; [by eapply grows_Forall2_trans|].
    apply list_elem_of_lookup in Ha as [i Hi], Hb as [j Hj].
    destruct (Forall2_lookup_r _ _ _ _ _ Hg1 Hi) as (s & Hs & Hgs).
    destruct (Forall2_lookup_r _ _ _ _ _ Hg1 Hj) as (t & Ht & Hgt).
    rewrite (grows_ID s a), (grows_ID t b), (grows_comp s a), (grows_comp t b) in * by done.
    rewrite (grows_files s a), (grows_files t b) in * by done.
    exists s, t. split_and!; try done; try (by eapply list_elem_of_lookup_2).
    + rewrite <- is_nil_true, sharedFiles_nil. done.
    + intros f. apply elem_of_sharedFiles.
  - assert (Hcyc := detectSchedulerCycle_spec ss). destruct (detectSchedulerCycle ss); [|done].
    intros [= <- <-]. split; [|done]. destruct Hres as [? _]. by eapply grows_Forall2_trans.
Qed.

Lemma DeriveStoryScheduling_errors_genuine_witness :
  let ss := [sample_story "s1" "core" ["r1"; "r3"] ["a.go"] [];
             sample_story "s2" "api" ["r2"] ["b.go"] []] in
  let reqs := [sample_req "r1" []; sample_req "r2" ["r1"]; sample_req "r3" ["r2"]] in
  is_cycle (story_graph (DeriveStoryScheduling sample_range ss reqs).1) ["s1"; "s2"].
Proof.
  intros ss reqs.
  refine (proj2 (DeriveStoryScheduling_errors_genuine sample_range ss reqs _
    (ErrCoveragePartitionCyclic ["s1"; "s2"]) _ _)).
  - apply (bool_decide_unpack _). vm_compute. exact I.
  - vm_compute. reflexivity.
Defined.
