(* ===== verification/Branches.v ===== *)
(** * Branch derivation

    workflow/resolve_branch_prereqs.go: which owner branches a requirement's
    branch derives from ([ResolveRequirementBranchPrereqs]) and which
    requirements must be re-derived when one is reopened
    ([DependentBranchSubtree]). *)

From S2P Require Import Prelude Graphs Status Paths Types Stories.

Definition storyCoversReq (s : Story) (reqID : string) : bool :=
  bool_decide (reqID ∈ sRequirementIDs s).

Fixpoint ownerRequirementFor (reqID : string) (stories : list Story) : string :=
  match stories with
  | [] => reqID
  | s :: stories =>
      if storyCoversReq s reqID then
        let owner := DeterministicStoryOwner s in
        if owner !=? "" then owner else ownerRequirementFor reqID stories
      else ownerRequirementFor reqID stories
  end.

(** Source 1: the owners of the requirement's own prerequisites. *)
Definition semantic_prereqs (req : Requirement) (stories : list Story) : list string :=
  filter (λ owner, owner ≠ rID req) ((λ dep, ownerRequirementFor dep stories) <$> rDependsOn req).

(** Source 2: the owners of the stories that a covering story depends on. *)
Definition story_prereqs (req : Requirement) (stories : list Story) : list string :=
  let storyByID := map_of ((λ s, (sID s, s)) <$> stories) in
  s ← filter (λ s, storyCoversReq s (rID req) = true) stories;
  dep ← sDependsOn s;
  match storyByID !! dep with
  | None => []
  | Some depStory =>
      let owner := DeterministicStoryOwner depStory in
      if (owner !=? "") && (owner !=? rID req) then [owner] else []
  end.

Definition ResolveRequirementBranchPrereqs (req : Requirement) (stories : list Story) : list string :=
  sorted_elements (list_to_set (semantic_prereqs req stories) ∪ list_to_set (story_prereqs req stories)).

(** ** The subtree of a reopened requirement *)

(** [dependentsOf\[prereq\] = append(dependentsOf\[prereq\], r.ID)] *)
Definition dependentsOf (reqs : list Requirement) (stories : list Story) : gmap string (list string) :=
  foldl (λ m e, <[e.1 := default [] (m !! e.1) ++ [e.2]]> m) ∅
    (r ← reqs; (λ prereq, (prereq, rID r)) <$> ResolveRequirementBranchPrereqs r stories).

Fixpoint subtree_loop (dependents : gmap string (list string)) (reopenedID : string)
    (fuel : nat) (queue : list string) (visited : gset string) : option (gset string) :=
  match fuel with
  | O => None
  | S fuel =>
      match queue with
      | [] => Some visited
      | id :: queue =>
          if id =? reopenedID then subtree_loop dependents reopenedID fuel queue visited
          else if bool_decide (id ∈ visited) then subtree_loop dependents reopenedID fuel queue visited
          else subtree_loop dependents reopenedID fuel (queue ++ succs dependents id) ({[id]} ∪ visited)
      end
  end.

Definition DependentBranchSubtree (reopenedID : string) (reqs : list Requirement)
    (stories : list Story) : list string :=
  let dependents := dependentsOf reqs stories in
  let queue := succs dependents reopenedID in
  sorted_elements (default ∅ (subtree_loop dependents reopenedID (bfs_fuel dependents queue) queue ∅)).

(** ** Lemmas *)

(** The owner a dependency resolves to is the owner of the first covering
    story that has one, or the dependency itself. *)
Lemma ownerRequirementFor_spec reqID stories :
  (∃ s, s ∈ stories ∧ reqID ∈ sRequirementIDs s ∧ DeterministicStoryOwner s ≠ "" ∧
     ownerRequirementFor reqID stories = DeterministicStoryOwner s) ∨
  (ownerRequirementFor reqID stories = reqID ∧
   ∀ s, s ∈ stories → reqID ∈ sRequirementIDs s → DeterministicStoryOwner s = "").
Proof.
  induction stories as [|s stories IH]; simpl; [right; set_solver|].
  unfold storyCoversReq. case_bool_decide as Hc.
  - destruct (DeterministicStoryOwner s =? "") eqn:E; simpl; breflect.
    + destruct IH as [(t & ? & ? & ? & ?)|[? H]]; [left; exists t; set_solver|right].
      split; [done|]. intros t [->|Ht]%elem_of_cons; auto.
    + left. exists s. set_solver.
  - destruct IH as [(t & ? & ? & ? & ?)|[? H]]; [left; exists t; set_solver|right].
    split; [done|]. intros t [->|Ht]%elem_of_cons; [done|auto].
Qed.

Lemma elem_of_story_prereqs req stories x :
  x ∈ story_prereqs req stories ↔
  x ≠ "" ∧ x ≠ rID req ∧ ∃ s dep t, s ∈ stories ∧ rID req ∈ sRequirementIDs s ∧
    dep ∈ sDependsOn s ∧ map_of ((λ s, (sID s, s)) <$> stories) !! dep = Some t ∧
    DeterministicStoryOwner t = x.
Proof.
  unfold story_prereqs. rewrite list_elem_of_bind. setoid_rewrite list_elem_of_bind.
  setoid_rewrite list_elem_of_filter. unfold storyCoversReq.
  setoid_rewrite bool_decide_eq_true. split.
  - intros (s & (dep & Hx & Hdep) & Hcov & Hs).
    destruct (_ !! dep) as [t|] eqn:E; [|set_solver].
    destruct (_ && _) eqn:Eb; [|set_solver]. apply list_elem_of_singleton in Hx as ->.
    breflect. destruct Eb. split_and!; try done. by exists s, dep, t.
  - intros (Hx & Hne & s & dep & t & Hs & Hcov & Hdep & Ht & <-).
    exists s. split; [|done]. exists dep. split; [|done]. rewrite Ht.
    rewrite !(proj2 (eqb_false _ _)) by done. by apply list_elem_of_singleton.
Qed.

Lemma elem_of_ResolvePrereqs req stories x :
  x ∈ ResolveRequirementBranchPrereqs req stories ↔
  x ∈ semantic_prereqs req stories ∨ x ∈ story_prereqs req stories.
Proof.
  unfold ResolveRequirementBranchPrereqs.
  by rewrite elem_of_sorted_elements, elem_of_union, !elem_of_list_to_set.
Qed.

Lemma ResolvePrereqs_self req stories : rID req ∉ ResolveRequirementBranchPrereqs req stories.
Proof.
  rewrite elem_of_ResolvePrereqs, elem_of_story_prereqs. unfold semantic_prereqs.
  rewrite list_elem_of_filter. naive_solver.
Qed.

Lemma edge_dependentsOf reqs stories o x :
  edge (dependentsOf reqs stories) o x ↔
  ∃ r, r ∈ reqs ∧ rID r = x ∧ o ∈ ResolveRequirementBranchPrereqs r stories.
Proof.
  unfold edge, succs, dependentsOf.
  set (es := r ← reqs; (λ prereq, (prereq, rID r)) <$> ResolveRequirementBranchPrereqs r stories).
  trans ((o, x) ∈ es).
  - clearbody es. induction es as [|[p y] es IH] using rev_ind; simpl.
    { rewrite lookup_empty. set_solver. }
    rewrite foldl_snoc; simpl. destruct (decide (p = o)) as [->|Hne].
    + rewrite lookup_insert_eq. simpl. rewrite !elem_of_app, IH, !list_elem_of_singleton. naive_solver.
    + rewrite lookup_insert_ne by done. rewrite IH, elem_of_app, list_elem_of_singleton. naive_solver.
  - unfold es. rewrite list_elem_of_bind. setoid_rewrite list_elem_of_fmap. naive_solver.
Qed.

(** The loop is the plain closure started with the reopened node seen. *)
Lemma subtree_loop_bfs dependents reopened fuel queue visited :
  reopened ∉ visited →
  subtree_loop dependents reopened fuel queue visited =
  (λ r, r ∖ {[reopened]}) <$> bfs dependents fuel queue ({[reopened]} ∪ visited).
Proof.
  revert queue visited. induction fuel as [|fuel IH]; intros queue visited Hv; [done|].
  destruct queue as [|id queue]; cbn [subtree_loop bfs].
  { simpl. f_equal. set_solver. }
  destruct (id =? reopened) eqn:E; breflect.
  { subst. rewrite bool_decide_eq_true_2 by set_solver. by apply IH. }
  case_bool_decide as Hin.
  - rewrite bool_decide_eq_true_2 by set_solver. by apply IH.
  - rewrite bool_decide_eq_false_2 by set_solver. rewrite IH by set_solver.
    f_equal. f_equal. set_solver.
Qed.

Lemma subtree_loop_total dependents reopened :
  let queue := succs dependents reopened in
  ∃ r, subtree_loop dependents reopened (bfs_fuel dependents queue) queue ∅ = Some r ∧
    ∀ x, x ∈ r ↔ x ≠ reopened ∧ tc (edge dependents) reopened x.
Proof.
  intros queue. rewrite subtree_loop_bfs by set_solver.
  destruct (bfs_spec dependents (bfs_fuel dependents queue) queue ({[reopened]} ∪ ∅)
    (rtc (edge dependents) reopened)) as (r & -> & Hr & Hq & Hcl & HP).
  - unfold bfs_fuel.
    assert (H := pending_mono dependents ∅ ({[reopened]} ∪ ∅) ltac:(set_solver)). lia.
  - intros x y Hx Hxy. right. assert (x = reopened) as -> by set_solver. done.
  - intros x [Hx|Hx]; [assert (x = reopened) as -> by set_solver; apply rtc_refl|].
    by apply rtc_once.
  - intros x y Hx Hxy. by eapply rtc_r.
  - eexists. split; [done|]. intros x. rewrite elem_of_difference, elem_of_singleton. split.
    + intros [Hx Hne]. split; [done|]. apply HP, rtc_inv in Hx as [->|(y & ? & ?)]; [done|].
      by eapply tc_step_rtc.
    + intros [Hne Ht]. split; [|done]. apply (rtc_closed (edge dependents) (.∈ r) reopened);
        [by intros a b Ha Hab; apply (Hcl a)|set_solver|by apply tc_rtc].
Qed.

(** ** Claims *)

(** A requirement's branch never derives from itself; the prerequisite list
    is sorted and duplicate-free, and holds exactly the other requirements that
    own the work of a declared dependency (the owner of the first covering
    story that has one, else the dependency itself) or of a story that a
    covering story depends on. *)
Theorem ResolveRequirementBranchPrereqs_spec req stories :
  let prereqs := ResolveRequirementBranchPrereqs req stories in
  StronglySorted String.le prereqs ∧ NoDup prereqs ∧ (rID req ∉ prereqs) ∧
  ∀ x, x ∈ prereqs ↔ x ≠ rID req ∧
    ((∃ dep, dep ∈ rDependsOn req ∧ x = ownerRequirementFor dep stories) ∨
     (x ≠ "" ∧ ∃ s dep t, s ∈ stories ∧ rID req ∈ sRequirementIDs s ∧ dep ∈ sDependsOn s ∧
        map_of ((λ s, (sID s, s)) <$> stories) !! dep = Some t ∧ DeterministicStoryOwner t = x)).
Proof.
  intros prereqs. split_and!; [apply sorted_elements_sorted|apply NoDup_sorted_elements|
    apply ResolvePrereqs_self|].
  intros x. unfold prereqs. rewrite elem_of_ResolvePrereqs, elem_of_story_prereqs.
  unfold semantic_prereqs. rewrite list_elem_of_filter, list_elem_of_fmap. naive_solver.
Qed.

(** [DependentBranchSubtree] always terminates, and returns, sorted and
    without repetition, exactly the requirements other than the reopened one
    whose branch derives from it through one or more prerequisite steps. *)
Theorem DependentBranchSubtree_spec reopened reqs stories :
  let out := DependentBranchSubtree reopened reqs stories in
  StronglySorted String.le out ∧ NoDup out ∧
  ∀ x, x ∈ out ↔ x ≠ reopened ∧
    tc (λ o y, ∃ r, r ∈ reqs ∧ rID r = y ∧ o ∈ ResolveRequirementBranchPrereqs r stories)
      reopened x.
Proof.
  intros out. split_and!; [apply sorted_elements_sorted|apply NoDup_sorted_elements|].
  intros x. unfold out, DependentBranchSubtree. rewrite elem_of_sorted_elements.
  destruct (subtree_loop_total (dependentsOf reqs stories) reopened) as (r & -> & Hr). simpl.
  rewrite Hr. apply and_iff_compat_l. split; apply tc_subrel; intros a b; by rewrite edge_dependentsOf.
Qed.

(** The owner of a story's work is one of the requirements the story covers,
    the least of them, and does not depend on the order in which they are
    listed: the orchestrator and the executor always agree on it. *)
Theorem DeterministicStoryOwner_stable s :
  sRequirementIDs s ≠ [] →
  DeterministicStoryOwner s ∈ sRequirementIDs s ∧
  (∀ r, r ∈ sRequirementIDs s → String.le (DeterministicStoryOwner s) r) ∧
  (∀ t, sRequirementIDs t ≡ₚ sRequirementIDs s →
     DeterministicStoryOwner t = DeterministicStoryOwner s).
Proof.
  intros Hne. destruct (DeterministicStoryOwner_least s Hne) as [H1 H2].
  split_and!; [done..|]. intros t Ht. by apply DeterministicStoryOwner_perm.
Qed.

Lemma DeterministicStoryOwner_stable_witness :
  "r1" ∈ ["r2"; "r1"].
Proof.
  refine (proj1 (DeterministicStoryOwner_stable (sample_story "s" "c" ["r2"; "r1"] [] []) _)).
  discriminate.
Defined.
