(* ===== verification/Cascade.v ===== *)
(** * The dirty cascade of an accepted plan decision

    workflow/cascade/cascade.go: which requirements, stories and scenarios a
    decision marks dirty ([PlanDecision]), and the two closures that widen a
    set of requirements downstream ([ExpandRequirementClosure]) and through
    shared stories ([ExpandRequirementStoryClosure]). *)

From S2P Require Import Prelude Graphs Status Paths Types Stories.

(** [cascade.Result] *)
Record Result := MkResult {
  resKind : PlanDecisionKind;
  resAffectedRequirementIDs : list string;
  resAffectedStoryIDs : list string;
  resAffectedScenarioIDs : list string }.

Definition storiesForReprepare (proposal : PlanDecision) (stories : list Story)
    (affectedReqs : gset string) : list string :=
  if negb (is_nil (dAffectedStoryIDs proposal)) then dAffectedStoryIDs proposal
  else if bool_decide (size affectedReqs = 0) then []
  else sID <$> filter (λ s, Exists (.∈ affectedReqs) (sRequirementIDs s)) stories.

(** [if !affectedReqs\[id\] { affectedReqs\[id\] = true; ids = append(ids, id) }] *)
Definition add_req (st : gset string * list string) (id : string) : gset string * list string :=
  if id =? "" then st
  else if bool_decide (id ∈ st.1) then st
  else ({[id]} ∪ st.1, st.2 ++ [id]).

Definition widen_story (dirty : gset string) (st : gset string * list string) (s : Story) :
    gset string * list string :=
  if bool_decide (sID s ∈ dirty) then foldl add_req st (sRequirementIDs s) else st.

(** The [switch] over a scenario: by story when stories were resolved, by
    requirement otherwise. *)
Definition scenario_dirty (dirty reqs : gset string) (sc : Scenario) : bool :=
  (bool_decide (0 < size dirty) && bool_decide (scStoryID sc ∈ dirty)) ||
  (bool_decide (size dirty = 0) && bool_decide (scRequirementID sc ∈ reqs)).

(** [cascade.PlanDecision] on a non-nil proposal. *)
Definition CascadePlanDecision (proposal : PlanDecision) (stories : list Story)
    (scenarios : list Scenario) : Result :=
  let affectedReqs : gset string := list_to_set (dAffectedReqIDs proposal) in
  match dKind proposal with
  | PlanDecisionKindStoryReprepare =>
      let affectedStories := storiesForReprepare proposal stories affectedReqs in
      let dirty : gset string := list_to_set affectedStories in
      let '(affectedReqs, reqIDs) :=
        foldl (widen_story dirty) (affectedReqs, dAffectedReqIDs proposal) stories in
      MkResult (dKind proposal) reqIDs affectedStories
        (scID <$> filter (λ sc, scenario_dirty dirty affectedReqs sc = true) scenarios)
  | PlanDecisionKindExecutionExhausted | PlanDecisionKindAssemblyConflict
  | PlanDecisionKindArchitectureRevise | PlanDecisionKindScopeIncomplete =>
      MkResult (dKind proposal) (dAffectedReqIDs proposal) [] []
  | _ =>
      if bool_decide (size affectedReqs = 0)
      then MkResult (dKind proposal) (dAffectedReqIDs proposal) [] []
      else MkResult (dKind proposal) (dAffectedReqIDs proposal) []
             (scID <$> filter (λ sc, scRequirementID sc ∈ affectedReqs) scenarios)
  end.

(** ** Requirement closures *)

Definition seed_set (seeds : list string) : gset string :=
  list_to_set (filter (λ id, id ≠ "") seeds).

(** One requirement of the inner loop: the set and the [changed] flag. *)
Definition close_req (st : gset string * bool) (req : Requirement) : gset string * bool :=
  if rID req =? "" then st
  else if bool_decide (rID req ∈ st.1) then st
  else if bool_decide (Exists (.∈ st.1) (rDependsOn req)) then ({[rID req]} ∪ st.1, true)
  else st.

Definition close_round (requirements : list Requirement) (X : gset string) : gset string * bool :=
  foldl close_req (X, false) requirements.

Definition ExpandRequirementClosure (requirements : list Requirement) (seeds : list string) :
    option (list string) :=
  let selected := seed_set seeds in
  if bool_decide (size selected = 0) then Some []
  else sorted_elements <$>
    loop_until (close_round requirements) (S (length requirements)) selected.

Definition storyIntersectsRequirements (story : Story) (reqIDs : gset string) : bool :=
  bool_decide (Exists (.∈ reqIDs) (sRequirementIDs story)).

Definition widen_by_story (X : gset string) (story : Story) : gset string :=
  if storyIntersectsRequirements story X
  then list_to_set (filter (λ id, id ≠ "") (sRequirementIDs story)) ∪ X
  else X.

(** One round of the outer loop; [range] is the order [keys] yields. *)
Definition story_round (requirements : list Requirement) (stories : list Story)
    (range : gset string → list string) (X : gset string) : gset string * bool :=
  let X1 := list_to_set (default [] (ExpandRequirementClosure requirements (range X))) ∪ X in
  let X2 := foldl widen_by_story X1 stories in
  (X2, negb (bool_decide (size X2 = size X))).

Definition ExpandRequirementStoryClosure (requirements : list Requirement) (stories : list Story)
    (range : gset string → list string) (seeds : list string) : option (list string) :=
  let selected := seed_set seeds in
  if bool_decide (size selected = 0) then Some []
  else sorted_elements <$>
    loop_until (story_round requirements stories range)
      (S (length requirements + length (mjoin (sRequirementIDs <$> stories)))) selected.

(** ** Lemmas: the downstream closure *)

(** [r] is a (named) requirement that depends directly on [d]. *)
Definition downstream (requirements : list Requirement) (d r : string) : Prop :=
  r ≠ "" ∧ ∃ req, req ∈ requirements ∧ rID req = r ∧ d ∈ rDependsOn req.

Lemma close_req_spec X b req :
  let '(Y, b') := close_req (X, b) req in
  X ⊆ Y ∧ Y ⊆ X ∪ {[rID req]} ∧ (b' = false → b = false ∧ Y = X) ∧ (b' = true → b = true ∨ Y ≠ X) ∧
  (∀ z, z ∈ Y → z ∈ X ∨ (z = rID req ∧ z ≠ "" ∧ ∃ d, d ∈ X ∧ d ∈ rDependsOn req)) ∧
  (rID req ≠ "" → ∀ d, d ∈ X → d ∈ rDependsOn req → rID req ∈ Y).
Proof.
  unfold close_req. simpl. destruct (rID req =? "") eqn:E1; breflect.
  { split_and!; [set_solver..|naive_solver|naive_solver|set_solver|done]. }
  case_bool_decide as E2; simpl.
  { split_and!; [set_solver..|naive_solver|naive_solver|set_solver|done]. }
  case_bool_decide as E3; simpl.
  - apply Exists_exists in E3 as (d & Hd & HdX).
    split_and!; [set_solver|set_solver|done|set_solver| |set_solver].
    intros z Hz. apply elem_of_union in Hz as [->%elem_of_singleton|?]; [right|by left].
    split_and!; [done..|eauto].
  - split_and!; [set_solver..|naive_solver|naive_solver|set_solver|].
    intros _ d Hd Hin. destruct E3. apply Exists_exists. eauto.
Qed.

Lemma close_round_spec requirements X b :
  let '(Y, b') := foldl close_req (X, b) requirements in
  X ⊆ Y ∧ Y ⊆ X ∪ list_to_set (rID <$> requirements) ∧
  (b' = false → b = false ∧ Y = X) ∧ (b' = true → b = true ∨ Y ≠ X) ∧
  (∀ P : string → Prop, (∀ z, z ∈ X → P z) → (∀ d r, P d → downstream requirements d r → P r) →
     ∀ z, z ∈ Y → P z).
Proof.
  induction requirements as [|req reqs IH] using rev_ind; simpl.
  { split_and!; [set_solver..|naive_solver|naive_solver|naive_solver]. }
  assert (Hmono : ∀ d r, downstream reqs d r → downstream (reqs ++ [req]) d r).
  { intros d r (Hr & q & Hq & ?). split; [done|]. exists q. split; [|done]. apply elem_of_app. by left. }
  rewrite foldl_snoc. destruct (foldl close_req (X, b) reqs) as [Y b1].
  destruct IH as (H1 & H2 & H3 & H4 & H5).
  assert (Hs := close_req_spec Y b1 req). destruct (close_req (Y, b1) req) as [Z b2].
  destruct Hs as (G1 & G2 & G3 & G4 & G5 & _). rewrite fmap_app, list_to_set_app_L. simpl.
  split_and!.
  - by trans Y.
  - etrans; [exact G2|]. clear -H2. set_solver.
  - intros Hb. destruct (G3 Hb) as [Hb1 ->]. auto.
  - intros Hb. destruct (G4 Hb) as [Hb1|Hne].
    + destruct (H4 Hb1) as [|Hne]; [by left|]. right. intros ->. destruct Hne.
      by apply leibniz_equiv, (anti_symm (⊆)).
    + right. intros ->. destruct Hne. by apply leibniz_equiv, (anti_symm (⊆)).
  - intros P HX HP z Hz. apply G5 in Hz as [Hz|(-> & Hne & d & Hd & Hdep)].
    + by apply (H5 P HX (λ d r Hd Hr, HP d r Hd (Hmono d r Hr))).
    + apply (HP d).
      * by apply (H5 P HX (λ d r Hd Hr, HP d r Hd (Hmono d r Hr))).
      * split; [done|]. exists req. split; [|done]. apply elem_of_app. right. by apply list_elem_of_singleton.
Qed.

(** A round that changes nothing certifies closure. *)
Lemma close_round_fixed requirements X :
  (close_round requirements X).2 = false →
  ∀ d r, d ∈ X → downstream requirements d r → r ∈ X.
Proof.
  unfold close_round. intros Hf d r Hd (Hne & req & Hin & <- & Hdep).
  apply list_elem_of_split in Hin as (l1 & l2 & ->). rewrite foldl_app in Hf. simpl in Hf.
  assert (H1 := close_round_spec l1 X false). destruct (foldl close_req (X, false) l1) as [Y b1].
  assert (H2 := close_req_spec Y b1 req). destruct (close_req (Y, b1) req) as [Z b2].
  assert (H3 := close_round_spec l2 Z b2). destruct (foldl close_req (Z, b2) l2) as [W b3].
  simpl in Hf. destruct H3 as (_ & _ & H3 & _), H2 as (_ & _ & H2 & _ & _ & H2'), H1 as (H1' & _ & H1 & _).
  destruct (H3 Hf) as [Hb2 _]. destruct (H2 Hb2) as [Hb1 ->]. destruct (H1 Hb1) as [_ ->].
  by apply (H2' Hne d).
Qed.

Lemma elem_of_seed_set seeds x : x ∈ seed_set seeds ↔ x ∈ seeds ∧ x ≠ "".
Proof. unfold seed_set. rewrite elem_of_list_to_set, list_elem_of_filter. naive_solver. Qed.

Lemma size_union_le (X Y : gset string) : size (X ∪ Y) ≤ size X + size Y.
Proof.
  rewrite size_union_alt. pose proof (subseteq_size (Y ∖ X) Y ltac:(set_solver)). lia.
Qed.

Lemma size_list_to_set_le (l : list string) : size (list_to_set l : gset string) ≤ length l.
Proof.
  induction l as [|x l IH]; [done|]. rewrite list_to_set_cons.
  pose proof (size_union_le ({[x]} : gset string) (list_to_set l)) as H.
  rewrite size_singleton in H. simpl. lia.
Qed.

Lemma ExpandRequirementClosure_ok requirements seeds :
  ∃ out, ExpandRequirementClosure requirements seeds = Some out ∧
    StronglySorted String.le out ∧ NoDup out ∧
    ∀ x, x ∈ out ↔ ∃ s, s ∈ seeds ∧ s ≠ "" ∧ rtc (downstream requirements) s x.
Proof.
  unfold ExpandRequirementClosure. case_bool_decide as Hz.
  { exists []. split_and!; [done|constructor..|]. intros x. split; [set_solver|].
    intros (s & Hs & Hne & _). apply size_empty_inv in Hz. exfalso.
    apply (not_elem_of_empty (C := gset string) s), Hz. by apply elem_of_seed_set. }
  destruct (loop_until_spec (close_round requirements)
    (seed_set seeds ∪ list_to_set (rID <$> requirements))
    (λ x, ∃ s, s ∈ seeds ∧ s ≠ "" ∧ rtc (downstream requirements) s x))
    with (fuel := S (length requirements)) (X := seed_set seeds) as (R & -> & Hsub & _ & Hfix & HP).
  - intros X. assert (H := close_round_spec requirements X false). unfold close_round.
    by destruct (foldl _ _ _), H.
  - intros X. assert (H := close_round_spec requirements X false). unfold close_round.
    destruct (foldl _ _ _) as [Y b]; simpl. destruct H as (_ & _ & H1 & H2 & _). split; [naive_solver|].
    intros ->. destruct b; [|done]. by destruct (H2 eq_refl).
  - intros X HX. assert (H := close_round_spec requirements X false). unfold close_round.
    destruct (foldl _ _ _) as [Y b]; simpl. destruct H as (_ & H & _). set_solver.
  - intros X HX. assert (H := close_round_spec requirements X false). unfold close_round.
    destruct (foldl _ _ _) as [Y b]; simpl. destruct H as (_ & _ & _ & _ & H). apply (H _ HX).
    intros d r (s & ? & ? & ?) Hdr. exists s. split_and!; [done..|]. by eapply rtc_r.
  - set_solver.
  - pose proof (size_union_le (seed_set seeds) (list_to_set (rID <$> requirements))).
    pose proof (size_list_to_set_le (rID <$> requirements)) as Hl. rewrite length_fmap in Hl. lia.
  - intros z [Hz1 Hz2]%elem_of_seed_set. eauto using rtc_refl.
  - simpl. exists (sorted_elements R). split_and!; [done|auto with semspec..|].
    intros x. rewrite elem_of_sorted_elements. split; [apply HP|].
    intros (s & Hs & Hne & Hr).
    apply (rtc_closed (downstream requirements) (.∈ R) s); [|by apply Hsub, elem_of_seed_set|done].
    assert (Hf : (close_round requirements R).2 = false).
    { assert (H := close_round_spec requirements R false). unfold close_round in *.
      destruct (foldl _ _ _) as [Y b]; simpl in *. subst. destruct H as (_ & _ & _ & H & _).
      destruct b; [|done]. by destruct (H eq_refl). }
    by apply close_round_fixed.
Qed.

(** ** Lemmas: widening through stories *)

(** Two named requirements covered by one story. *)
Definition cocovered (stories : list Story) (d r : string) : Prop :=
  r ≠ "" ∧ ∃ s, s ∈ stories ∧ d ∈ sRequirementIDs s ∧ r ∈ sRequirementIDs s.

Lemma widen_by_story_grows X s : X ⊆ widen_by_story X s.
Proof. unfold widen_by_story. case_match; set_solver. Qed.

Lemma widen_stories_spec stories X :
  let Y := foldl widen_by_story X stories in
  X ⊆ Y ∧ Y ⊆ X ∪ list_to_set (mjoin (sRequirementIDs <$> stories)) ∧
  (∀ P : string → Prop, (∀ z, z ∈ X → P z) → (∀ d r, P d → cocovered stories d r → P r) →
     ∀ z, z ∈ Y → P z).
Proof.
  revert X. induction stories as [|s stories IH]; intros X; cbn [foldl].
  { split_and!; [done|set_solver|naive_solver]. }
  destruct (IH (widen_by_story X s)) as (H1 & H2 & H3). split_and!.
  - etrans; [apply widen_by_story_grows|done].
  - etrans; [exact H2|]. rewrite fmap_cons. simpl. rewrite list_to_set_app_L.
    clear. unfold widen_by_story. case_match; [|set_solver].
    assert (filter (λ id, id ≠ "") (sRequirementIDs s) ⊆ sRequirementIDs s)
      by (intros x Hx; by apply list_elem_of_filter in Hx as [_ ?]).
    intros x. rewrite !elem_of_union, !elem_of_list_to_set. set_solver.
  - intros P HX HP. apply H3.
    + intros z. unfold widen_by_story, storyIntersectsRequirements.
      case_bool_decide as E; [|apply HX]. apply Exists_exists in E as (d & Hd & HdX).
      intros [Hz|Hz]%elem_of_union; [|by apply HX].
      apply elem_of_list_to_set, list_elem_of_filter in Hz as [Hne Hz].
      apply (HP d); [by apply HX|]. split; [done|]. exists s. split_and!; [|done..].
      apply elem_of_cons. by left.
    + intros d r Hd (Hne & t & Ht & ?). apply (HP d); [done|]. split; [done|]. exists t.
      split; [|done]. apply elem_of_cons. by right.
Qed.

Lemma widen_stories_fixed stories X :
  foldl widen_by_story X stories = X → ∀ d r, d ∈ X → cocovered stories d r → r ∈ X.
Proof.
  intros Hf d r Hd (Hne & s & Hs & Hds & Hrs).
  apply list_elem_of_split in Hs as (l1 & l2 & ->). rewrite foldl_app in Hf. simpl in Hf.
  destruct (widen_stories_spec l1 X) as [H1 _].
  destruct (widen_stories_spec l2 (widen_by_story (foldl widen_by_story X l1) s)) as [H2 _].
  rewrite Hf in H2. apply H2. unfold widen_by_story at 1. unfold storyIntersectsRequirements.
  rewrite bool_decide_eq_true_2 by (apply Exists_exists; exists d; set_solver).
  apply elem_of_union_l, elem_of_list_to_set, list_elem_of_filter. done.
Qed.

Section story_closure.
Context (requirements : list Requirement) (stories : list Story).
Context (range : gset string → list string).
Context (range_perm : ∀ X, range X ≡ₚ elements X).

(** What dirties what: a downstream requirement, or a requirement that
    shares a story. *)
Definition taints (d r : string) : Prop :=
  downstream requirements d r ∨ cocovered stories d r.

Lemma elem_of_story_range X x : x ∈ range X ↔ x ∈ X.
Proof. by rewrite range_perm, elem_of_elements. Qed.

Definition round_bound (X : gset string) : gset string :=
  X ∪ list_to_set (rID <$> requirements) ∪ list_to_set (mjoin (sRequirementIDs <$> stories)).

Lemma downstream_bound d r : rtc (downstream requirements) d r → r = d ∨ r ∈ rID <$> requirements.
Proof.
  intros [->|(y & _ & (_ & q & Hq & <- & _))]%rtc_inv_r; [by left|right].
  apply list_elem_of_fmap. by exists q.
Qed.

Lemma story_round_spec X :
  let Y := (story_round requirements stories range X).1 in
  X ⊆ Y ∧ Y ⊆ round_bound X ∧
  (∀ P : string → Prop, (∀ z, z ∈ X → P z) → (∀ d r, P d → taints d r → P r) →
     ∀ z, z ∈ Y → P z) ∧
  (Y = X → (∀ z, z ∈ X → z ≠ "") → ∀ d r, d ∈ X → taints d r → r ∈ X).
Proof.
  unfold story_round. simpl.
  destruct (ExpandRequirementClosure_ok requirements (range X)) as (out & -> & _ & _ & Hout). simpl.
  setoid_rewrite elem_of_story_range in Hout.
  set (X1 := list_to_set out ∪ X). destruct (widen_stories_spec stories X1) as (H1 & H2 & H3).
  assert (HX1 : X1 ⊆ X ∪ list_to_set (rID <$> requirements)).
  { intros z [Hz|Hz]%elem_of_union; [|set_solver]. apply elem_of_list_to_set, Hout in Hz as (s & Hs & _ & Hr).
    apply downstream_bound in Hr as [->|Hr]; set_solver. }
  split_and!.
  - set_solver.
  - unfold round_bound. set_solver.
  - intros P HX HP. apply H3; [|intros d r Hd Hr; apply (HP d); [done|by right]].
    intros z [Hz|Hz]%elem_of_union; [|by apply HX].
    apply elem_of_list_to_set, Hout in Hz as (s & Hs & _ & Hr).
    apply (rtc_closed (downstream requirements) P s); [|by apply HX|done].
    intros a b Ha Hab. apply (HP a); [done|by left].
  - intros Hfix Hne. assert (X1 = X) as HX1' by (apply leibniz_equiv, (anti_symm (⊆)); set_solver).
    rewrite HX1' in Hfix. intros d r Hd [Hdr|Hdr].
    + rewrite <- HX1'. apply elem_of_union_l, elem_of_list_to_set, Hout.
      exists d. split_and!; [done|by apply Hne|by apply rtc_once].
    + by eapply widen_stories_fixed.
Qed.

Lemma ExpandRequirementStoryClosure_ok seeds :
  ∃ out, ExpandRequirementStoryClosure requirements stories range seeds = Some out ∧
    StronglySorted String.le out ∧ NoDup out ∧
    ∀ x, x ∈ out ↔ ∃ s, s ∈ seeds ∧ s ≠ "" ∧ rtc taints s x.
Proof.
  unfold ExpandRequirementStoryClosure. case_bool_decide as Hz.
  { exists []. split_and!; [done|constructor..|]. intros x. split; [set_solver|].
    intros (s & Hs & Hne & _). apply size_empty_inv in Hz. exfalso.
    apply (not_elem_of_empty (C := gset string) s), Hz. by apply elem_of_seed_set. }
  destruct (loop_until_spec (story_round requirements stories range)
    (round_bound (seed_set seeds))
    (λ x, x ≠ "" ∧ ∃ s, s ∈ seeds ∧ s ≠ "" ∧ rtc taints s x))
    with (fuel := S (length requirements + length (mjoin (sRequirementIDs <$> stories))))
         (X := seed_set seeds) as (R & -> & Hsub & _ & Hfix & HP).
  - intros X. apply story_round_spec.
  - intros X. destruct (story_round_spec X) as [Hg _]. unfold story_round in *. simpl in *.
    rewrite negb_false_iff, bool_decide_eq_true. split; [|by intros ->].
    intros Hs. symmetry. apply leibniz_equiv, set_subseteq_size_equiv; [done|lia].
  - intros X HX. destruct (story_round_spec X) as (_ & H & _). unfold round_bound in *. set_solver.
  - intros X HX. destruct (story_round_spec X) as (_ & _ & H & _). apply (H _ HX).
    intros d r (_ & s & ? & ? & ?) Hdr. split; [by destruct Hdr as [[? _]|[? _]]|].
    exists s. split_and!; [done..|]. by eapply rtc_r.
  - unfold round_bound. set_solver.
  - unfold round_bound.
    pose proof (size_union_le (seed_set seeds ∪ list_to_set (rID <$> requirements))
      (list_to_set (mjoin (sRequirementIDs <$> stories)))).
    pose proof (size_union_le (seed_set seeds) (list_to_set (rID <$> requirements))).
    pose proof (size_list_to_set_le (rID <$> requirements)) as Hl. rewrite length_fmap in Hl.
    pose proof (size_list_to_set_le (mjoin (sRequirementIDs <$> stories))). lia.
  - intros z [Hz1 Hz2]%elem_of_seed_set. eauto using rtc_refl.
  - simpl. exists (sorted_elements R). split_and!; [done|auto with semspec..|].
    intros x. rewrite elem_of_sorted_elements. split; [intros Hx; by apply HP|].
    intros (s & Hs & Hne & Hr).
    apply (rtc_closed taints (.∈ R) s); [|by apply Hsub, elem_of_seed_set|done].
    destruct (story_round_spec R) as (_ & _ & _ & H). intros d r Hd Hdr.
    apply (H Hfix (λ z Hz, proj1 (HP z Hz)) d r Hd Hdr).
Qed.
End story_closure.

(** ** Lemmas: the cascade *)

Lemma add_reqs_spec X l ids :
  X = list_to_set l →
  let '(Y, k) := foldl add_req (X, l) ids in
  Y = list_to_set k ∧ ∀ x, x ∈ k ↔ x ∈ l ∨ (x ∈ ids ∧ x ≠ "").
Proof.
  revert X l. induction ids as [|id ids IH]; intros X l HX; cbn [foldl]; [set_solver|].
  unfold add_req at 2. simpl. destruct (id =? "") eqn:E; breflect.
  { specialize (IH X l HX). destruct (foldl _ _ _). destruct IH as [? IH]. split; [done|].
    intros x. rewrite IH. set_solver. }
  case_bool_decide as Hin.
  - specialize (IH X l HX). destruct (foldl _ _ _). destruct IH as [? IH]. split; [done|].
    intros x. rewrite IH. subst X. rewrite elem_of_list_to_set in Hin. set_solver.
  - specialize (IH ({[id]} ∪ X) (l ++ [id]) ltac:(subst; set_solver)).
    destruct (foldl _ _ _). destruct IH as [? IH]. split; [done|]. intros x. rewrite IH. set_solver.
Qed.

Lemma widen_stories_reqs dirty stories X l :
  X = list_to_set l →
  let '(Y, k) := foldl (widen_story dirty) (X, l) stories in
  Y = list_to_set k ∧
  ∀ x, x ∈ k ↔ x ∈ l ∨ (x ≠ "" ∧ ∃ s, s ∈ stories ∧ sID s ∈ dirty ∧ x ∈ sRequirementIDs s).
Proof.
  revert X l. induction stories as [|s stories IH]; intros X l HX; cbn [foldl]; [set_solver|].
  unfold widen_story at 2. case_bool_decide as Hd.
  - assert (H := add_reqs_spec X l (sRequirementIDs s) HX).
    destruct (foldl add_req (X, l) (sRequirementIDs s)) as [Y k]. destruct H as [HY Hk].
    specialize (IH Y k HY). destruct (foldl _ _ _) as [Z m]. destruct IH as [? IH].
    split; [done|]. intros x. rewrite IH, Hk. split.
    + intros [[?|[? ?]]|(? & t & ? & ? & ?)]; [by left|right|right]; (split; [done|]).
      * exists s. split_and!; [apply elem_of_cons; by left|done..].
      * exists t. split_and!; [apply elem_of_cons; by right|done..].
    + intros [?|(? & t & [->|?]%elem_of_cons & ? & ?)]; [by left; left|left; right; done|].
      right. split; [done|]. by exists t.
  - specialize (IH X l HX). destruct (foldl _ _ _) as [Z m]. destruct IH as [? IH].
    split; [done|]. intros x. rewrite IH. split.
    + intros [?|(? & t & ? & ? & ?)]; [by left|right]. split; [done|]. exists t.
      split_and!; [apply elem_of_cons; by right|done..].
    + intros [?|(? & t & [->|?]%elem_of_cons & ? & ?)]; [by left|done|].
      right. split; [done|]. by exists t.
Qed.

Lemma size_zero_nil (l : list string) : size (list_to_set l : gset string) = 0 ↔ l = [].
Proof.
  rewrite size_empty_iff. split.
  - intros H. destruct l as [|x l]; [done|]. exfalso.
    apply (not_elem_of_empty (C := gset string) x), H. set_solver.
  - by intros ->.
Qed.

(** ** Claims *)

Definition sample_decision (kind : PlanDecisionKind) (reqs stories : list string) : PlanDecision :=
  {| dID := "d1"; dPlanID := "plan"; dKind := kind; dTitle := ""; dRationale := "";
     dStatus := PlanDecisionStatusProposed; dProposedBy := ""; dAffectedReqIDs := reqs;
     dAffectedStoryIDs := stories; dRejectionReasons := ∅; dContractImpact := None;
     dArtifactReferences := []; dCreatedAt := 0; dReviewedAt := None; dDecidedAt := None |}.

(** [ExpandRequirementClosure] terminates and returns, sorted and without
    repetition, exactly the non-empty seeds and the requirements that depend
    on one of them directly or transitively; it never walks upstream. *)
Theorem ExpandRequirementClosure_spec requirements seeds :
  ∃ out, ExpandRequirementClosure requirements seeds = Some out ∧
    StronglySorted String.le out ∧ NoDup out ∧
    ∀ x, x ∈ out ↔ ∃ s, s ∈ seeds ∧ s ≠ "" ∧
      rtc (λ d r, r ≠ "" ∧ ∃ req, req ∈ requirements ∧ rID req = r ∧ d ∈ rDependsOn req) s x.
Proof. apply ExpandRequirementClosure_ok. Qed.

(** [ExpandRequirementStoryClosure] terminates and returns the least set of
    requirements that contains the non-empty seeds and is closed both under
    downstream dependency and under sharing a story, whatever order Go lists
    the selected IDs in. *)
Theorem ExpandRequirementStoryClosure_least requirements stories range seeds :
  (∀ X, range X ≡ₚ elements X) →
  ∃ out, ExpandRequirementStoryClosure requirements stories range seeds = Some out ∧
    StronglySorted String.le out ∧ NoDup out ∧
    (∀ s, s ∈ seeds → s ≠ "" → s ∈ out) ∧
    (∀ d r, d ∈ out → taints requirements stories d r → r ∈ out) ∧
    (∀ P : string → Prop, (∀ s, s ∈ seeds → s ≠ "" → P s) →
       (∀ d r, P d → taints requirements stories d r → P r) → ∀ x, x ∈ out → P x).
Proof.
  intros Hr. destruct (ExpandRequirementStoryClosure_ok requirements stories range Hr seeds)
    as (out & -> & Hs & Hn & Hx).
  exists out. split_and!; [done..| | |].
  - intros s Hin Hne. apply Hx. eauto using rtc_refl.
  - intros d r (s & ? & ? & ?)%Hx Hdr. apply Hx. exists s. split_and!; [done..|]. by eapply rtc_r.
  - intros P HP Hcl x (s & ? & ? & Hrtc)%Hx.
    apply (rtc_closed (taints requirements stories) P s); auto.
Qed.

Lemma ExpandRequirementStoryClosure_least_witness :
  ∃ out, ExpandRequirementStoryClosure
    [sample_req "r1" []; sample_req "r2" ["r1"]; sample_req "r3" []]
    [sample_story "s" "c" ["r2"; "r3"] [] []] elements ["r1"] = Some out ∧ "r1" ∈ out.
Proof.
  destruct (ExpandRequirementStoryClosure_least
    [sample_req "r1" []; sample_req "r2" ["r1"]; sample_req "r3" []]
    [sample_story "s" "c" ["r2"; "r3"] [] []] elements ["r1"]) as (out & H1 & _ & _ & H2 & _).
  - done.
  - exists out. split; [exact H1|]. apply H2; [apply elem_of_cons; by left|discriminate].
Defined.

Example story_closure_ex :
  ExpandRequirementStoryClosure
    [sample_req "r1" []; sample_req "r2" ["r1"]; sample_req "r3" []; sample_req "r4" []]
    [sample_story "s" "c" ["r2"; "r3"] [] []] elements ["r1"] = Some ["r1"; "r2"; "r3"].
Proof. vm_compute. reflexivity. Qed.

(** For a [story_reprepare] decision the cascade names the stories the
    decision lists (or, when it lists none, every story covering an affected
    requirement), adds every requirement those stories cover to the affected
    requirements, and marks exactly the scenarios of those stories dirty, or,
    when no story could be resolved, those of the affected requirements. *)
Theorem cascade_story_reprepare proposal stories scenarios :
  dKind proposal = PlanDecisionKindStoryReprepare →
  let res := CascadePlanDecision proposal stories scenarios in
  (resAffectedStoryIDs res =
     if is_nil (dAffectedStoryIDs proposal)
     then sID <$> filter (λ s, Exists (.∈ dAffectedReqIDs proposal) (sRequirementIDs s)) stories
     else dAffectedStoryIDs proposal) ∧
  (∀ r, r ∈ resAffectedRequirementIDs res ↔ r ∈ dAffectedReqIDs proposal ∨
     (r ≠ "" ∧ ∃ s, s ∈ stories ∧ sID s ∈ resAffectedStoryIDs res ∧ r ∈ sRequirementIDs s)) ∧
  (∀ id, id ∈ resAffectedScenarioIDs res ↔ ∃ sc, sc ∈ scenarios ∧ scID sc = id ∧
     if is_nil (resAffectedStoryIDs res) then scRequirementID sc ∈ resAffectedRequirementIDs res
     else scStoryID sc ∈ resAffectedStoryIDs res).
Proof.
  intros Hk. unfold CascadePlanDecision. rewrite Hk.
  set (st := storiesForReprepare _ _ _).
  assert (Hst : st = if is_nil (dAffectedStoryIDs proposal)
     then sID <$> filter (λ s, Exists (.∈ dAffectedReqIDs proposal) (sRequirementIDs s)) stories
     else dAffectedStoryIDs proposal).
  { unfold st, storiesForReprepare. destruct (is_nil (dAffectedStoryIDs proposal)); simpl; [|done].
    case_bool_decide as Hz.
    - apply size_zero_nil in Hz. rewrite Hz. clear. induction stories as [|s l IH]; [done|].
      rewrite filter_cons_False; [done|]. rewrite Exists_exists. set_solver.
    - f_equal. apply list_filter_iff. intros s. rewrite !Exists_exists.
      by setoid_rewrite elem_of_list_to_set. }
  clearbody st. rewrite <- Hst.
  assert (Hw := widen_stories_reqs (list_to_set st) stories (list_to_set (dAffectedReqIDs proposal))
    (dAffectedReqIDs proposal) eq_refl).
  destruct (foldl _ _ _) as [Y k]. destruct Hw as [-> Hk']. simpl.
  split_and!; [done| |].
  - intros r. rewrite Hk'. by setoid_rewrite elem_of_list_to_set.
  - intros id. rewrite list_elem_of_fmap. setoid_rewrite list_elem_of_filter.
    unfold scenario_dirty. setoid_rewrite orb_true_iff. setoid_rewrite andb_true_iff.
    setoid_rewrite bool_decide_eq_true. setoid_rewrite elem_of_list_to_set.
    assert (Hz := size_zero_nil st).
    destruct (is_nil st) eqn:En; breflect.
    + assert (size (list_to_set st : gset string) = 0) by tauto. naive_solver lia.
    + assert (size (list_to_set st : gset string) ≠ 0) by tauto. naive_solver lia.
Qed.

Lemma cascade_story_reprepare_witness :
  "r2" ∈ resAffectedRequirementIDs
    (CascadePlanDecision (sample_decision PlanDecisionKindStoryReprepare ["r1"] [])
       [sample_story "s" "c" ["r1"; "r2"] [] []] []).
Proof.
  apply cascade_story_reprepare; [reflexivity|]. right. split; [discriminate|].
  exists (sample_story "s" "c" ["r1"; "r2"] [] []). split_and!.
  - apply elem_of_cons. by left.
  - apply (bool_decide_unpack _). vm_compute. exact I.
  - apply (bool_decide_unpack _). vm_compute. exact I.
Defined.

(** Terminal and re-entry decisions (execution_exhausted,
    assembly_conflict, architecture_revise, scope_incomplete) mark no story or
    scenario dirty; any other kind than story_reprepare marks exactly the
    scenarios of the affected requirements and no story; the affected
    requirements are echoed unchanged. *)
Theorem cascade_other_kinds proposal stories scenarios :
  dKind proposal ≠ PlanDecisionKindStoryReprepare →
  let res := CascadePlanDecision proposal stories scenarios in
  resKind res = dKind proposal ∧ resAffectedRequirementIDs res = dAffectedReqIDs proposal ∧
  resAffectedStoryIDs res = [] ∧
  ∀ id, id ∈ resAffectedScenarioIDs res ↔
    (dKind proposal = PlanDecisionKindRequirementChange ∨
     ∃ raw, dKind proposal = PlanDecisionKindOther raw) ∧
    ∃ sc, sc ∈ scenarios ∧ scID sc = id ∧ scRequirementID sc ∈ dAffectedReqIDs proposal.
Proof.
  intros Hk. unfold CascadePlanDecision.
  assert (Hfil : ∀ id : string, id ∈ resAffectedScenarioIDs
      (if bool_decide (size (list_to_set (dAffectedReqIDs proposal) : gset string) = 0)
       then MkResult (dKind proposal) (dAffectedReqIDs proposal) [] []
       else MkResult (dKind proposal) (dAffectedReqIDs proposal) []
         (scID <$> filter (λ sc, scRequirementID sc ∈ (list_to_set (dAffectedReqIDs proposal) : gset string)) scenarios)) ↔
    ∃ sc, sc ∈ scenarios ∧ scID sc = id ∧ scRequirementID sc ∈ dAffectedReqIDs proposal).
  { intros id. case_bool_decide as Hz; simpl.
    - apply size_zero_nil in Hz. rewrite Hz. split; [set_solver|]. intros (? & _ & _ & ?). set_solver.
    - rewrite list_elem_of_fmap. setoid_rewrite list_elem_of_filter.
      setoid_rewrite elem_of_list_to_set. naive_solver. }
  destruct (dKind proposal) eqn:E; try done.
  all: try (split_and!; [done..|]; intros id; simpl; split; [set_solver|naive_solver]).
  all: split_and!; [by case_match..|]; intros id; rewrite Hfil; naive_solver.
Qed.

Lemma cascade_other_kinds_witness :
  resAffectedStoryIDs (CascadePlanDecision
    (sample_decision PlanDecisionKindArchitectureRevise ["r1"] ["s"])
    [sample_story "s" "c" ["r1"] [] []] []) = [].
Proof. apply cascade_other_kinds. discriminate. Defined.
