(* ===== verification/Orchestrator.v ===== *)
(** * Requirement dispatch

    processor/scenario-orchestrator: the three gates of dag.go that decide
    which requirements a sweep dispatches, their composition in
    [dispatchRequirements] (component.go), and the reconciliation of the
    completed-requirements cache with the durable execution states. *)

From S2P Require Import Prelude Graphs Status Paths Types Stories Branches.

(** ** The gates (dag.go) *)

Definition requirementComplete (reqID : string) (completedReqIDs : gset string) : bool :=
  bool_decide (reqID ∈ completedReqIDs).

Definition depsComplete (req : Requirement) (complete : gmap string bool) : bool :=
  forallb (λ depID, default false (complete !! depID)) (rDependsOn req).

Definition filterReadyRequirements (requirements : list Requirement)
    (completedReqIDs : gset string) : list Requirement :=
  let complete := map_of ((λ r, (rID r, requirementComplete (rID r) completedReqIDs)) <$> requirements) in
  filter (λ req, default false (complete !! rID req) = false ∧ depsComplete req complete = true)
    requirements.

(** A covering story that the requirement does not own and that is not
    complete defers it. *)
Definition story_gated (stories : list Story) (req : Requirement) : bool :=
  existsb (λ s, storyCoversReq s (rID req) &&
                (DeterministicStoryOwner s !=? rID req) && (sStatus s !=? StoryStatusComplete)) stories.

Definition filterByM2NStoryReservations (ready : list Requirement) (stories : list Story) :
    list Requirement :=
  if is_nil ready || is_nil stories then ready
  else filter (λ req, story_gated stories req = false) ready.

Definition branchPrereqsComplete (req : Requirement) (stories : list Story)
    (completedReqIDs : gset string) : bool :=
  forallb (λ owner, bool_decide (owner ∈ completedReqIDs))
    (ResolveRequirementBranchPrereqs req stories).

Definition filterByBranchPrereqCompletion (ready : list Requirement) (stories : list Story)
    (completedReqIDs : gset string) : list Requirement :=
  if is_nil ready || is_nil stories then ready
  else filter (λ req, branchPrereqsComplete req stories completedReqIDs = true) ready.

Definition staleCompletions (cachedKeys : list string) (completedNow : gset string) : list string :=
  filter (λ id, id ∉ completedNow) cachedKeys.

(** ** Composition (component.go) *)

Definition forceRequirementSet (ids : list string) : gset string :=
  list_to_set (filter (λ id, id ≠ "") ids).

(** [cache] holds the keys of [c.completedReqs]. *)
Definition completedRequirementIDs (cache : gset string) (requirements : list Requirement)
    (forceReqs : gset string) : gset string :=
  list_to_set (filter (λ id, id ∈ cache) (rID <$> requirements)) ∖ forceReqs.

(** The composition of the gates in [dispatchRequirements], once the cache
    has been reconciled.  What comes before it, the early returns for a missing
    store and for a trigger without requirements or scenarios, and the loop
    that publishes the result are not part of it. *)
Definition toDispatch (cache : gset string) (requirements : list Requirement)
    (stories : list Story) (forceIDs : list string) : list Requirement :=
  let completedReqIDs := completedRequirementIDs cache requirements (forceRequirementSet forceIDs) in
  filterByBranchPrereqCompletion
    (filterByM2NStoryReservations (filterReadyRequirements requirements completedReqIDs) stories)
    stories completedReqIDs.

(** The scenarios an execution gets: those of the requirement itself, and
    those of the stories it owns, deduplicated by ID; a scenario without an
    ID is keyed by its JSON text, [marshal]. *)
Definition scenario_key (marshal : Scenario → string) (sc : Scenario) : string :=
  if scID sc =? "" then marshal sc else scID sc.

Definition appendScenarioDedup (marshal : Scenario → string) (out : list Scenario)
    (sc : Scenario) : list Scenario :=
  if bool_decide (scenario_key marshal sc ∈ scenario_key marshal <$> out) then out else out ++ [sc].

Definition scenariosForRequirementExecution (marshal : Scenario → string) (reqID : string)
    (scenarios : list Scenario) (stories : list Story) : list Scenario :=
  let by_req r := filter (λ sc, scRequirementID sc = r) scenarios in
  foldl (appendScenarioDedup marshal) [] (by_req reqID ++
    (s ← filter (λ s, DeterministicStoryOwner s = reqID) stories;
     r ← sRequirementIDs s;
     filter (λ sc, scStoryID sc = "" ∨ scStoryID sc = sID s) (by_req r))).

(** ** Reconciling the cache with EXECUTION_STATES *)

(** What reading one [req.*] key gives: a failed read or parse, or the
    requirement of the record with whether its stage is [completed]. *)
Inductive scan_entry :=
| ScanFailed
| ScanRecord (reqID : string) (completed : bool).

Definition scan_completed (scan : list scan_entry) : gset string :=
  list_to_set (e ← scan; match e with ScanRecord id true => [id] | _ => [] end).

Definition scan_clean (scan : list scan_entry) : bool :=
  forallb (λ e, match e with ScanFailed => false | _ => true end) scan.

(** [scan = None] when the bucket is not available or holds no key at all;
    otherwise [scan] lists the [req.*] keys read, perhaps none; [ctxErr] tells whether the scan's deadline passed; [still] is the live re-read of
    one key ([requirementStillCompleted]). *)
Definition reconcileCompletedRequirements (cache : gset string) (scan : option (list scan_entry))
    (ctxErr : bool) (still : string → bool) : gset string :=
  match scan with
  | None => cache
  | Some scan =>
      let completedNow := scan_completed scan in
      let cache := completedNow ∪ cache in
      if scan_clean scan && negb ctxErr then
        cache ∖ list_to_set (filter (λ id, still id = false)
                  (staleCompletions (elements cache) completedNow))
      else cache
  end.

(** ** Lemmas *)

Lemma map_of_complete requirements completed id :
  default false (map_of ((λ r, (rID r, requirementComplete (rID r) completed)) <$> requirements) !! id)
    = bool_decide (id ∈ rID <$> requirements) && bool_decide (id ∈ completed).
Proof.
  case_bool_decide as Hid; simpl.
  - by rewrite (map_of_key rID (λ x, requirementComplete x completed)).
  - rewrite not_elem_of_dom_1; [done|].
    by rewrite map_of_dom, elem_of_list_to_set, <- list_fmap_compose.
Qed.

Lemma forallb_elem {A} (f : A → bool) l : forallb f l = true ↔ ∀ x, x ∈ l → f x = true.
Proof. rewrite forallb_forall. by setoid_rewrite list_elem_of_In. Qed.

Lemma existsb_elem_false {A} (f : A → bool) l : existsb f l = false ↔ ∀ x, x ∈ l → f x = false.
Proof.
  rewrite <- not_true_iff_false, existsb_exists. setoid_rewrite <- list_elem_of_In. split.
  - intros H x Hx. destruct (f x) eqn:E; [|done]. destruct H. eauto.
  - intros H (x & Hx & E). rewrite H in E; done.
Qed.

Lemma elem_of_filterReady requirements completed req :
  req ∈ filterReadyRequirements requirements completed ↔
  req ∈ requirements ∧ (rID req ∉ completed) ∧
  ∀ dep, dep ∈ rDependsOn req → dep ∈ rID <$> requirements ∧ dep ∈ completed.
Proof.
  unfold filterReadyRequirements. rewrite list_elem_of_filter. unfold depsComplete.
  rewrite forallb_elem. setoid_rewrite map_of_complete. setoid_rewrite andb_true_iff.
  rewrite andb_false_iff. setoid_rewrite bool_decide_eq_true. rewrite !bool_decide_eq_false.
  split; [|tauto]. intros ([[Hn|Hn] Hd] & Hin); [|tauto].
  destruct Hn. by apply list_elem_of_fmap_2.
Qed.

Lemma story_gated_false stories req :
  story_gated stories req = false ↔
  ∀ s, s ∈ stories → rID req ∈ sRequirementIDs s →
    DeterministicStoryOwner s = rID req ∨ sStatus s = StoryStatusComplete.
Proof.
  unfold story_gated. rewrite existsb_elem_false. unfold storyCoversReq.
  setoid_rewrite andb_false_iff. setoid_rewrite andb_false_iff.
  setoid_rewrite bool_decide_eq_false. setoid_rewrite negb_false_iff. setoid_rewrite eqb_true.
  split; intros H s Hs; specialize (H s Hs); [tauto|].
  destruct (decide (rID req ∈ sRequirementIDs s)); tauto.
Qed.

Lemma elem_of_M2N ready stories req :
  req ∈ filterByM2NStoryReservations ready stories ↔
  req ∈ ready ∧ ∀ s, s ∈ stories → rID req ∈ sRequirementIDs s →
    DeterministicStoryOwner s = rID req ∨ sStatus s = StoryStatusComplete.
Proof.
  unfold filterByM2NStoryReservations. destruct (is_nil ready || is_nil stories) eqn:E.
  - rewrite orb_true_iff, !is_nil_true in E. destruct E as [-> | ->]; set_solver.
  - rewrite list_elem_of_filter, story_gated_false. tauto.
Qed.

Lemma elem_of_branch_gate ready stories completed req :
  req ∈ filterByBranchPrereqCompletion ready stories completed ↔
  req ∈ ready ∧ (stories = [] ∨
    ∀ o, o ∈ ResolveRequirementBranchPrereqs req stories → o ∈ completed).
Proof.
  unfold filterByBranchPrereqCompletion. destruct (is_nil ready || is_nil stories) eqn:E.
  - rewrite orb_true_iff, !is_nil_true in E. destruct E as [-> | ->]; [set_solver|tauto].
  - rewrite orb_false_iff, !is_nil_false in E. destruct E as [_ E].
    rewrite list_elem_of_filter. unfold branchPrereqsComplete. rewrite forallb_elem.
    setoid_rewrite bool_decide_eq_true. tauto.
Qed.

Lemma elem_of_completedIDs cache requirements force x :
  x ∈ completedRequirementIDs cache requirements force ↔
  x ∈ rID <$> requirements ∧ x ∈ cache ∧ x ∉ force.
Proof.
  unfold completedRequirementIDs. rewrite elem_of_difference, elem_of_list_to_set,
    list_elem_of_filter. tauto.
Qed.

(** Why a requirement is dispatched. *)
Record dispatchable (completed : gset string) (requirements : list Requirement)
    (stories : list Story) (req : Requirement) : Prop := {
  ds_member : req ∈ requirements;
  ds_pending : rID req ∉ completed;
  ds_deps : ∀ dep, dep ∈ rDependsOn req → dep ∈ rID <$> requirements ∧ dep ∈ completed;
  ds_stories : ∀ s, s ∈ stories → rID req ∈ sRequirementIDs s →
    DeterministicStoryOwner s = rID req ∨ sStatus s = StoryStatusComplete;
  ds_branches : stories = [] ∨
    ∀ o, o ∈ ResolveRequirementBranchPrereqs req stories → o ∈ completed }.

Lemma elem_of_toDispatch cache requirements stories force req :
  req ∈ toDispatch cache requirements stories force ↔
  dispatchable (completedRequirementIDs cache requirements (forceRequirementSet force))
    requirements stories req.
Proof.
  unfold toDispatch. rewrite elem_of_branch_gate, elem_of_M2N, elem_of_filterReady.
  split; [intros ((( ? & ? & ?) & ?) & ?); by split | intros []; tauto].
Qed.

(** What a requirement waits for: its dependencies, the owners of the
    unfinished stories that cover it, and the owners of the branches its own
    derives from. *)
Definition waits_for (stories : list Story) (req : Requirement) : list string :=
  rDependsOn req ++
  (DeterministicStoryOwner <$> filter (λ s, rID req ∈ sRequirementIDs s ∧
     sStatus s ≠ StoryStatusComplete ∧ DeterministicStoryOwner s ≠ rID req) stories) ++
  ResolveRequirementBranchPrereqs req stories.

Definition wait_graph (requirements : list Requirement) (stories : list Story) :
    gmap string (list string) :=
  adj_of ((λ r, (rID r, waits_for stories r)) <$> requirements).

(** Progress: as long as nothing waits in a circle, some unfinished
    requirement can be dispatched. *)
Lemma toDispatch_progress cache requirements stories :
  NoDup (rID <$> requirements) →
  (∀ req x, req ∈ requirements → x ∈ waits_for stories req → x ∈ rID <$> requirements) →
  (∀ s, s ∈ stories → DeterministicStoryOwner s ∈ cache → sStatus s = StoryStatusComplete) →
  acyclic (wait_graph requirements stories) →
  (∃ req, req ∈ requirements ∧ rID req ∉ cache) →
  toDispatch cache requirements stories [] ≠ [].
Proof.
  intros Hnd Hknown Hown Hac (r0 & Hr0 & Hc0).
  set (X := list_to_set (filter (λ id, id ∉ cache) (rID <$> requirements)) : gset string).
  assert (HX : ∀ x, x ∈ X ↔ x ∈ rID <$> requirements ∧ x ∉ cache).
  { intros x. unfold X. rewrite elem_of_list_to_set, list_elem_of_filter. tauto. }
  destruct (acyclic_minimal _ X Hac) as (x & Hx & Hmin).
  { intros E. apply (not_elem_of_empty (C := gset string) (rID r0)), E, HX.
    split; [by apply list_elem_of_fmap_2|done]. }
  apply HX in Hx as [(req & -> & Hreq)%list_elem_of_fmap Hnc].
  assert (Hw : ∀ y, y ∈ waits_for stories req → y ∈ cache).
  { intros y Hy. apply dec_stable. intros Hny. apply (Hmin y).
    - apply HX. split; [by eapply Hknown|done].
    - unfold edge, succs, wait_graph.
      rewrite (adj_of_lookup _ (rID req) (waits_for stories req)); [done| |].
      + by rewrite <- list_fmap_compose.
      + apply list_elem_of_fmap. by exists req. }
  assert (Hcomp : ∀ y, y ∈ waits_for stories req →
    y ∈ completedRequirementIDs cache requirements (forceRequirementSet [])).
  { intros y Hy. apply elem_of_completedIDs. split_and!; [by eapply Hknown|by apply Hw|set_solver]. }
  assert (Hin : req ∈ toDispatch cache requirements stories []); [|intros E; rewrite E in Hin; set_solver].
  apply elem_of_toDispatch. unfold waits_for in *. split.
  - done.
  - rewrite elem_of_completedIDs. tauto.
  - intros dep Hd. split; [apply (Hknown req)|apply Hcomp]; try done; apply elem_of_app; by left.
  - intros s Hs Hcov. destruct (decide (DeterministicStoryOwner s = rID req)); [by left|right].
    apply dec_stable. intros Hst. apply Hst, Hown; [done|].
    apply Hw, elem_of_app. right. apply elem_of_app. left. apply list_elem_of_fmap.
    exists s. split; [done|]. by apply list_elem_of_filter.
  - right. intros o Ho. apply Hcomp, elem_of_app. right. apply elem_of_app. by right.
Qed.

(** ** Claims *)

(** C6: A sweep dispatches exactly the requirements that are not complete,
    whose dependencies are all complete, whose covering stories are each owned
    by them or complete, and (when the plan has stories) all of whose
    branch-derivation prerequisites are complete, so a branch never forks from
    a base that is not there. *)
Theorem toDispatch_exactly cache requirements stories force req :
  let completed := completedRequirementIDs cache requirements (forceRequirementSet force) in
  req ∈ toDispatch cache requirements stories force ↔
  req ∈ requirements ∧ (rID req ∉ completed) ∧
  (∀ dep, dep ∈ rDependsOn req → dep ∈ rID <$> requirements ∧ dep ∈ completed) ∧
  (∀ s, s ∈ stories → rID req ∈ sRequirementIDs s →
     DeterministicStoryOwner s = rID req ∨ sStatus s = StoryStatusComplete) ∧
  (stories = [] ∨ ∀ o, o ∈ ResolveRequirementBranchPrereqs req stories → o ∈ completed).
Proof.
  intros completed. rewrite elem_of_toDispatch. split; [by intros [] | by intros (? & ? & ? & ? & ?)].
Qed.

Lemma toDispatch_exactly_witness :
  sample_req "r2" ["r1"] ∈ toDispatch {["r1"]} [sample_req "r1" []; sample_req "r2" ["r1"]] [] [].
Proof.
  apply toDispatch_exactly. split_and!.
  - apply elem_of_cons. right. by apply list_elem_of_singleton.
  - apply (bool_decide_unpack _). vm_compute. exact I.
  - intros dep ->%list_elem_of_singleton.
    split; apply (bool_decide_unpack _); vm_compute; exact I.
  - intros s Hs. by apply not_elem_of_nil in Hs.
  - by left.
Defined.

(** At most one requirement runs the dev loop of an unfinished story: two
    requirements dispatched in one sweep that are both covered by a story
    that is not complete are the same requirement, the story's owner. *)
Theorem toDispatch_one_owner cache requirements stories force r1 r2 s :
  r1 ∈ toDispatch cache requirements stories force →
  r2 ∈ toDispatch cache requirements stories force →
  s ∈ stories → sStatus s ≠ StoryStatusComplete →
  rID r1 ∈ sRequirementIDs s → rID r2 ∈ sRequirementIDs s →
  rID r1 = DeterministicStoryOwner s ∧ rID r2 = DeterministicStoryOwner s.
Proof.
  intros [_ _ _ H1 _]%elem_of_toDispatch [_ _ _ H2 _]%elem_of_toDispatch Hs Hst Hc1 Hc2.
  destruct (H1 s Hs Hc1), (H2 s Hs Hc2); done.
Qed.

Lemma toDispatch_one_owner_witness :
  "r1" = DeterministicStoryOwner (sample_story "s" "c" ["r2"; "r1"] [] []).
Proof.
  refine (proj1 (toDispatch_one_owner ∅ [sample_req "r1" []; sample_req "r2" []]
    [sample_story "s" "c" ["r2"; "r1"] [] []] [] (sample_req "r1" []) (sample_req "r1" [])
    (sample_story "s" "c" ["r2"; "r1"] [] []) _ _ _ _ _ _)).
  1-2: assert (E : toDispatch ∅ [sample_req "r1" []; sample_req "r2" []]
    [sample_story "s" "c" ["r2"; "r1"] [] []] [] = [sample_req "r1" []])
    by (vm_compute; reflexivity); rewrite E; by apply list_elem_of_singleton.
  - by apply list_elem_of_singleton.
  - discriminate.
  - apply (bool_decide_unpack _). vm_compute. exact I.
  - apply (bool_decide_unpack _). vm_compute. exact I.
Defined.

(** Dispatch makes progress: when requirement IDs are distinct, everything a
    requirement waits for is a requirement of the plan, stories whose owner
    completed are complete, and the wait graph (dependencies, owners of
    unfinished covering stories, branch prerequisites) has no cycle, a sweep
    over a plan with unfinished requirements dispatches at least one. *)
Theorem toDispatch_progresses cache requirements stories :
  NoDup (rID <$> requirements) →
  (∀ req x, req ∈ requirements → x ∈ waits_for stories req → x ∈ rID <$> requirements) →
  (∀ s, s ∈ stories → DeterministicStoryOwner s ∈ cache → sStatus s = StoryStatusComplete) →
  acyclic (wait_graph requirements stories) →
  (∃ req, req ∈ requirements ∧ rID req ∉ cache) →
  toDispatch cache requirements stories [] ≠ [].
Proof. apply toDispatch_progress. Qed.

Lemma toDispatch_progresses_witness :
  toDispatch ∅ [sample_req "r1" []; sample_req "r2" ["r1"]]
    [sample_story "s" "c" ["r1"; "r2"] [] []] [] ≠ [].
Proof.
  apply toDispatch_progresses.
  - apply (bool_decide_unpack _). vm_compute. exact I.
  - intros req x [-> | ->%list_elem_of_singleton]%elem_of_cons Hx.
    + exfalso. assert (E : waits_for [sample_story "s" "c" ["r1"; "r2"] [] []] (sample_req "r1" []) = [])
        by (vm_compute; reflexivity). rewrite E in Hx. by apply not_elem_of_nil in Hx.
    + assert (E : waits_for [sample_story "s" "c" ["r1"; "r2"] [] []] (sample_req "r2" ["r1"])
        = ["r1"; "r1"; "r1"]) by (vm_compute; reflexivity). rewrite E in Hx.
      assert (x = "r1") as -> by set_solver.
      apply (bool_decide_unpack _). vm_compute. exact I.
  - intros s _ Hs. by apply not_elem_of_empty in Hs.
  - apply detect_cycle_None. vm_compute. reflexivity.
  - exists (sample_req "r1" []). split; [apply elem_of_cons; by left|]. apply not_elem_of_empty.
Defined.

(** A story can block itself: if the owner of an unfinished story depends on
    another requirement the same story covers, and that one is not complete,
    no sweep dispatches either of them.  Since the owner is the byte-wise
    least ID, [requirement.demo.10] owns a story it shares with
    [requirement.demo.2]; when 10 depends on 2 the plan never starts it. *)
Theorem story_owner_blocks_itself cache requirements stories force s owner r :
  NoDup (rID <$> requirements) →
  s ∈ stories → sStatus s ≠ StoryStatusComplete →
  owner ∈ requirements → rID owner = DeterministicStoryOwner s →
  r ∈ sRequirementIDs s → r ≠ rID owner → r ∈ rDependsOn owner → (r ∉ cache) →
  (r ∉ rID <$> toDispatch cache requirements stories force) ∧
  (rID owner ∉ rID <$> toDispatch cache requirements stories force).
Proof.
  intros Hnd Hs Hst Ho Hown Hr Hne Hdep Hnc.
  split; intros (q & E & [Hq _ Hd Hq2 _]%elem_of_toDispatch)%list_elem_of_fmap.
  - subst r. destruct (Hq2 s Hs Hr); congruence.
  - symmetry in E. apply (NoDup_fmap_inj_elem rID requirements) in E; [|done..]. subst q.
    destruct (Hd r Hdep) as [_ Hc]. apply elem_of_completedIDs in Hc. tauto.
Qed.

Definition blocked_reqs : list Requirement :=
  [sample_req "requirement.demo.2" []; sample_req "requirement.demo.10" ["requirement.demo.2"]].

Definition blocked_story : Story :=
  sample_story "story.demo.core" "core" ["requirement.demo.2"; "requirement.demo.10"] ["a.go"] [].

Example blocked_plan_is_valid :
  ValidateRequirementDAG blocked_reqs = None ∧ ValidateStories [blocked_story] = None ∧
  toDispatch ∅ blocked_reqs [blocked_story] [] = [].
Proof. split_and!; vm_compute; reflexivity. Qed.

Lemma story_owner_blocks_itself_witness :
  ("requirement.demo.2" ∉ rID <$> toDispatch ∅ blocked_reqs [blocked_story] []) ∧
  ("requirement.demo.10" ∉ rID <$> toDispatch ∅ blocked_reqs [blocked_story] []).
Proof.
  apply (story_owner_blocks_itself ∅ blocked_reqs [blocked_story] [] blocked_story
    (sample_req "requirement.demo.10" ["requirement.demo.2"]) "requirement.demo.2").
  - apply (bool_decide_unpack _). vm_compute. exact I.
  - by apply list_elem_of_singleton.
  - discriminate.
  - apply elem_of_cons. right. by apply list_elem_of_singleton.
  - vm_compute. reflexivity.
  - apply elem_of_cons. by left.
  - discriminate.
  - by apply list_elem_of_singleton.
  - apply not_elem_of_empty.
Defined.

(** Reconciliation never loses a completed requirement and never keeps a
    reset one: after a clean scan the cache holds exactly the requirements the
    scan found completed and the cached ones a live re-read confirms; a scan
    with a failed read or past its deadline only adds. *)
Theorem reconcile_cache_authoritative cache scan ctxErr still :
  let cache' := reconcileCompletedRequirements cache (Some scan) ctxErr still in
  let now := scan_completed scan in
  if scan_clean scan && negb ctxErr
  then ∀ id, id ∈ cache' ↔ id ∈ now ∨ (id ∈ cache ∧ still id = true)
  else cache' = now ∪ cache.
Proof.
  simpl. destruct (scan_clean scan && negb ctxErr); [|done].
  intros id. rewrite elem_of_difference, elem_of_list_to_set, list_elem_of_filter.
  unfold staleCompletions. rewrite list_elem_of_filter, elem_of_elements, elem_of_union.
  destruct (still id) eqn:E; [intuition congruence|].
  destruct (decide (id ∈ scan_completed scan)); intuition congruence.
Qed.

Lemma reconcile_cache_authoritative_witness :
  "r2" ∉ reconcileCompletedRequirements {["r1"; "r2"]}
    (Some [ScanRecord "r1" true; ScanRecord "r2" false]) false (λ _, false).
Proof.
  intros H.
  apply (reconcile_cache_authoritative {["r1"; "r2"]} [ScanRecord "r1" true; ScanRecord "r2" false]
    false (λ _, false) "r2") in H as [H|[_ H]]; [|discriminate H].
  revert H. apply (bool_decide_unpack _). vm_compute. exact I.
Defined.
