(* ===== verification/Assembly.v ===== *)
(** * Assembling the plan branch

    processor/plan-manager/plan_merge.go: which requirement branches are merged
    into the plan branch and in which order ([assemblyBranchOrder] and its
    parts), the merge itself ([assembleRequirementBranches], with the sandbox
    client as a parameter) and the QA worktree staging around it. *)

From S2P Require Import Prelude Graphs Status Paths Types Stories Branches.

(** ** Nodes and edges *)

Definition storyOwners (stories : list Story) : gset string :=
  list_to_set (filter (λ o, o ≠ "") (DeterministicStoryOwner <$> stories)).

Definition covered (stories : list Story) : gset string :=
  list_to_set (mjoin (sRequirementIDs <$> stories)).

(** The [add] closure: the order slice; [set] is its set of elements. *)
Definition add_node (order : list string) (id : string) : list string :=
  if id =? "" then order else if bool_decide (id ∈ order) then order else order ++ [id].

Definition assemblyNodes (reqs : list Requirement) (stories : list Story) : list string :=
  foldl (λ order r,
    if bool_decide (rID r ∈ storyOwners stories) || negb (bool_decide (rID r ∈ covered stories))
    then add_node order (rID r) else order) [] reqs.

(** The zero requirement with an ID. *)
Definition bare_requirement (id : string) : Requirement :=
  {| rID := id; rPlanID := ""; rTitle := ""; rDescription := ""; rAcceptanceCriteria := [];
     rStatus := RequirementStatusOther ""; rDependsOn := []; rCapabilityName := "";
     rRecoveryHint := ""; rCreatedAt := 0; rUpdatedAt := 0 |}.

(** [depsOf\[id\]]; [indegree\[id\]] is its length. *)
Definition node_deps (nodeSet : gset string) (reqByID : gmap string Requirement)
    (stories : list Story) (id : string) : list string :=
  let req := default (bare_requirement id) (reqByID !! id) in
  filter (λ p, p ∈ nodeSet ∧ p ≠ id) (ResolveRequirementBranchPrereqs req stories).

Definition assemblyDepGraph (nodeOrder : list string) (reqByID : gmap string Requirement)
    (stories : list Story) : gmap string (list string) * gmap string Z :=
  let nodeSet : gset string := list_to_set nodeOrder in
  let depsOf := map_of ((λ id, (id, node_deps nodeSet reqByID stories id)) <$> nodeOrder) in
  (depsOf, (λ ds, Z.of_nat (length ds)) <$> depsOf).

(** ** Kahn's algorithm *)

Record kahn_state := MkKahn {
  kResult : list string;
  kRemaining : gset string;
  kIndegree : gmap string Z;
  kProgressed : bool }.

(** [for _, m := range nodeOrder { for _, d := range depsOf\[m\] { if d == id { indegree\[m\]-- } } }] *)
Definition release (depsOf : gmap string (list string)) (nodeOrder : list string)
    (id : string) (indegree : gmap string Z) : gmap string Z :=
  foldl (λ ind m,
    foldl (λ ind d, if d =? id then <[m := (default 0 (ind !! m) - 1)%Z]> ind else ind)
      ind (succs depsOf m)) indegree nodeOrder.

Definition kahn_step (depsOf : gmap string (list string)) (nodeOrder : list string)
    (st : kahn_state) (id : string) : kahn_state :=
  if negb (bool_decide (id ∈ kRemaining st)) || bool_decide (0 < default 0 (kIndegree st !! id))%Z
  then st
  else MkKahn (kResult st ++ [id]) (kRemaining st ∖ {[id]})
         (release depsOf nodeOrder id (kIndegree st)) true.

Definition kahn_pass (depsOf : gmap string (list string)) (nodeOrder : list string)
    (st : kahn_state) : kahn_state :=
  foldl (kahn_step depsOf nodeOrder)
    (MkKahn (kResult st) (kRemaining st) (kIndegree st) false) nodeOrder.

(** [for len(remaining) > 0 { ... if !progressed { break } }]: each pass but
    the last removes a node, so one more pass than there are nodes is
    enough. *)
Fixpoint kahn_loop (depsOf : gmap string (list string)) (nodeOrder : list string)
    (fuel : nat) (st : kahn_state) : option (list string) :=
  match fuel with
  | O => None
  | S fuel =>
      if bool_decide (size (kRemaining st) = 0) then Some (kResult st)
      else
        let st' := kahn_pass depsOf nodeOrder st in
        if kProgressed st' then kahn_loop depsOf nodeOrder fuel st' else Some (kResult st')
  end.

Definition kahnTopoSort (nodeOrder : list string) (depsOf : gmap string (list string))
    (indegree : gmap string Z) : option (list string) :=
  kahn_loop depsOf nodeOrder (S (length nodeOrder))
    (MkKahn [] (list_to_set nodeOrder) indegree false).

(** The IDs to merge, and whether the slice order was used as a fallback. *)
Definition assemblyBranchOrder (reqs : list Requirement) (stories : list Story) :
    option (list string * bool) :=
  if is_nil reqs then Some ([], false) else
  let nodeOrder := assemblyNodes reqs stories in
  let reqByID := map_of ((λ r, (rID r, r)) <$> reqs) in
  let '(depsOf, indegree) := assemblyDepGraph nodeOrder reqByID stories in
  result ← kahnTopoSort nodeOrder depsOf indegree;
  Some (if bool_decide (length result ≠ length nodeOrder) then (nodeOrder, true) else (result, false)).

(** ** Correctness of the sort *)

Section kahn.
Context (depsOf : gmap string (list string)) (nodeOrder : list string).
Context (Hnodes : NoDup nodeOrder).
Context (Hdeps : ∀ m, NoDup (succs depsOf m)).
Context (Hin : ∀ m d, d ∈ succs depsOf m → d ∈ nodeOrder).

Definition hit (id m : string) : Z := if bool_decide (id ∈ succs depsOf m) then 1 else 0.

Lemma release_one (id m : string) (ds : list string) (ind : gmap string Z) :
  NoDup ds →
  let ind' := foldl (λ ind d, if d =? id then <[m := (default 0 (ind !! m) - 1)%Z]> ind else ind) ind ds in
  default 0%Z (ind' !! m) = (default 0 (ind !! m) - if bool_decide (id ∈ ds) then 1 else 0)%Z ∧
  ∀ k, k ≠ m → ind' !! k = ind !! k.
Proof.
  intros Hnd. revert ind. induction Hnd as [|d ds Hd Hnd IH]; intros ind; cbn [foldl].
  { split; [|done]. rewrite bool_decide_eq_false_2 by set_solver. lia. }
  destruct (d =? id) eqn:E; breflect.
  - subst d. destruct (IH (<[m := (default 0 (ind !! m) - 1)%Z]> ind)) as [IH1 IH2].
    rewrite IH1, lookup_insert_eq. simpl. rewrite (bool_decide_eq_false_2 (id ∈ ds)) by done.
    rewrite bool_decide_eq_true_2 by set_solver. split; [lia|].
    intros k Hk. by rewrite IH2, lookup_insert_ne.
  - destruct (IH ind) as [IH1 IH2]. rewrite IH1. split; [|done].
    do 2 f_equal. case_bool_decide; case_bool_decide; set_solver.
Qed.

Lemma release_nodes (id : string) (ms : list string) (ind : gmap string Z) (m : string) :
  NoDup ms →
  default 0%Z (foldl (λ ind m,
    foldl (λ ind d, if d =? id then <[m := (default 0 (ind !! m) - 1)%Z]> ind else ind)
      ind (succs depsOf m)) ind ms !! m) =
  (default 0 (ind !! m) - if bool_decide (m ∈ ms) then hit id m else 0)%Z.
Proof.
  intros Hnd. revert ind. induction Hnd as [|k ms Hk Hnd IH]; intros ind; cbn [foldl].
  { rewrite bool_decide_eq_false_2 by set_solver. lia. }
  rewrite IH. destruct (release_one id k (succs depsOf k) ind (Hdeps k)) as [H1 H2].
  destruct (decide (m = k)) as [->|Hne].
  - rewrite H1, (bool_decide_eq_false_2 (k ∈ ms)) by done.
    rewrite (bool_decide_eq_true_2 (k ∈ k :: ms)) by (apply elem_of_cons; by left).
    unfold hit. lia.
  - rewrite H2 by done.
    assert (bool_decide (m ∈ k :: ms) = bool_decide (m ∈ ms)) as ->; [|done].
    apply bool_decide_ext. rewrite elem_of_cons. tauto.
Qed.

Lemma release_spec id ind m :
  m ∈ nodeOrder → default 0%Z (release depsOf nodeOrder id ind !! m) = (default 0 (ind !! m) - hit id m)%Z.
Proof. intros Hm. unfold release. rewrite release_nodes by done. by rewrite bool_decide_eq_true_2. Qed.

(** The dependencies still missing from the result. *)
Definition missing (R ds : list string) : nat := length (filter (λ d, d ∉ R) ds).

Lemma missing_snoc (R : list string) (id : string) (ds : list string) :
  NoDup ds → id ∉ R →
  Z.of_nat (missing (R ++ [id]) ds) = (Z.of_nat (missing R ds) - if bool_decide (id ∈ ds) then 1 else 0)%Z.
Proof.
  intros Hnd HidR. unfold missing. induction Hnd as [|d ds Hd Hnd IH]; [done|].
  rewrite !filter_cons. destruct (decide (d = id)) as [->|Hne].
  - rewrite (bool_decide_eq_true_2 (id ∈ id :: ds)) by set_solver.
    rewrite (bool_decide_eq_false_2 (id ∈ ds)) in IH by done.
    rewrite decide_False by set_solver. rewrite decide_True by done. simpl. lia.
  - assert (bool_decide (id ∈ d :: ds) = bool_decide (id ∈ ds)) as ->
      by (apply bool_decide_ext; set_solver).
    destruct (decide (d ∈ R)).
    + by rewrite !decide_False by set_solver.
    + rewrite !decide_True by set_solver. simpl. lia.
Qed.

Lemma missing_zero R ds : missing R ds = 0 ↔ ∀ d, d ∈ ds → d ∈ R.
Proof.
  unfold missing. rewrite filter_length_none. split; intros H d Hd; specialize (H d Hd).
  - by apply dec_stable.
  - naive_solver.
Qed.

(** Every element comes after all its dependencies. *)
Definition topo (R : list string) : Prop :=
  ∀ l1 x l2, R = l1 ++ x :: l2 → ∀ d, d ∈ succs depsOf x → d ∈ l1.

Record kahn_inv (st : kahn_state) : Prop := {
  ki_nodup : NoDup (kResult st);
  ki_part : ∀ x, x ∈ nodeOrder ↔ x ∈ kResult st ∨ x ∈ kRemaining st;
  ki_disj : ∀ x, x ∈ kResult st → x ∉ kRemaining st;
  ki_ind : ∀ m, m ∈ nodeOrder →
    default 0%Z (kIndegree st !! m) = Z.of_nat (missing (kResult st) (succs depsOf m));
  ki_topo : topo (kResult st) }.

Lemma topo_snoc R id : topo R → (∀ d, d ∈ succs depsOf id → d ∈ R) → topo (R ++ [id]).
Proof.
  intros HR Hid l1 x l2 E d Hd. destruct l2 as [|y l2 _] using rev_ind.
  - apply app_inj_tail in E as [-> ->]. by apply Hid.
  - rewrite app_comm_cons, app_assoc in E. apply app_inj_tail in E as [-> _]. by eapply HR.
Qed.

(** A step either leaves the state alone or appends a ready node. *)
Lemma kahn_step_inv st id :
  id ∈ nodeOrder → kahn_inv st →
  kahn_inv (kahn_step depsOf nodeOrder st id) ∧
  (kahn_step depsOf nodeOrder st id = st ∧
     (id ∈ kRemaining st → ¬ ∀ d, d ∈ succs depsOf id → d ∈ kResult st) ∨
   kProgressed (kahn_step depsOf nodeOrder st id) = true ∧ id ∈ kRemaining st ∧
     kRemaining (kahn_step depsOf nodeOrder st id) = kRemaining st ∖ {[id]}).
Proof.
  intros Hid [H1 H2 H3 H4 H5]. unfold kahn_step.
  destruct (negb _ || _) eqn:E.
  - split; [by split|]. left. split; [done|]. intros Hr Hall. breflect.
    destruct E as [E|E]; [done|]. rewrite H4 in E by done.
    apply missing_zero in Hall. rewrite Hall in E. lia.
  - breflect. destruct E as [Hr Hz]. rewrite H4 in Hz by done.
    assert (Hall : ∀ d, d ∈ succs depsOf id → d ∈ kResult st) by (apply missing_zero; lia).
    assert (HidR : id ∉ kResult st) by (intros Hx; by apply (H3 id)).
    split; [|by right]. split; simpl.
    + apply NoDup_app. split_and!; [done|set_solver|apply NoDup_singleton].
    + intros x. rewrite H2, elem_of_app, list_elem_of_singleton, elem_of_difference, elem_of_singleton.
      destruct (decide (x = id)); naive_solver.
    + intros x. rewrite elem_of_app, list_elem_of_singleton, elem_of_difference, elem_of_singleton.
      naive_solver.
    + intros m Hm. rewrite release_spec by done. rewrite H4 by done.
      rewrite missing_snoc by done. done.
    + by apply topo_snoc.
Qed.

Lemma kahn_fold_inv st ids :
  (∀ id, id ∈ ids → id ∈ nodeOrder) → kahn_inv st → kProgressed st = false →
  let st' := foldl (kahn_step depsOf nodeOrder) st ids in
  kahn_inv st' ∧ kRemaining st' ⊆ kRemaining st ∧
  (kProgressed st' = false → st' = st ∧
     ∀ id, id ∈ ids → id ∈ kRemaining st → ¬ ∀ d, d ∈ succs depsOf id → d ∈ kResult st) ∧
  (kProgressed st' = true → size (kRemaining st') < size (kRemaining st)).
Proof.
  intros Hids Hinv Hp. induction ids as [|id ids IH] using rev_ind; simpl.
  { split_and!; [done..|set_solver|congruence]. }
  rewrite foldl_snoc. destruct IH as (I1 & I2 & I3 & I4); [set_solver|].
  set (st1 := foldl _ st ids) in *. simpl.
  destruct (kahn_step_inv st1 id) as [J1 [[J2 J3]|(J2 & J3 & J4)]]; [set_solver|done|..].
  - rewrite J2. split_and!; [done..| |done]. intros Hf. destruct (I3 Hf) as [-> I3'].
    split; [done|]. intros id' [?| ->%list_elem_of_singleton]%elem_of_app; auto.
  - split_and!; [done|rewrite J4; set_solver|congruence|]. intros _. rewrite J4.
    assert (size (kRemaining st1 ∖ {[id]}) < size (kRemaining st1)).
    { apply subset_size. set_solver. }
    assert (size (kRemaining st1) ≤ size (kRemaining st)) by (by apply subseteq_size). lia.
Qed.

(** The loop ends within its fuel; its result is a topologically sorted
    part of the nodes, and all of them when the graph is acyclic. *)
Lemma kahn_loop_spec fuel st :
  kahn_inv st → size (kRemaining st) < fuel →
  ∃ R, kahn_loop depsOf nodeOrder fuel st = Some R ∧ NoDup R ∧ topo R ∧
    (∀ x, x ∈ R → x ∈ nodeOrder) ∧ (acyclic depsOf → ∀ x, x ∈ nodeOrder → x ∈ R).
Proof.
  revert st. induction fuel as [|fuel IH]; intros st Hinv Hf; [lia|]. cbn [kahn_loop].
  assert (Hsub : ∀ st, kahn_inv st → ∀ x, x ∈ kResult st → x ∈ nodeOrder).
  { intros s Hs x Hx. apply (ki_part s Hs). by left. }
  case_bool_decide as Hz.
  { exists (kResult st). destruct Hinv as [H1 H2 H3 H4 H5]. split_and!; [done..| |].
    - intros x Hx. apply H2. by left.
    - intros _ x Hx. apply H2 in Hx as [?|Hx]; [done|]. apply size_empty_inv in Hz. set_solver. }
  assert (Hinv0 : kahn_inv (MkKahn (kResult st) (kRemaining st) (kIndegree st) false))
    by (destruct Hinv; by split).
  destruct (kahn_fold_inv _ nodeOrder ltac:(done) Hinv0 eq_refl) as (I1 & I2 & I3 & I4).
  fold (kahn_pass depsOf nodeOrder st) in *. simpl in *.
  destruct (kProgressed (kahn_pass depsOf nodeOrder st)) eqn:Ep.
  - apply IH; [done|]. specialize (I4 eq_refl). lia.
  - destruct (I3 eq_refl) as [Heq Hstuck]. exists (kResult (kahn_pass depsOf nodeOrder st)).
    split_and!; [done|apply I1|apply I1|by apply Hsub|]. intros Hac x Hx. exfalso.
    destruct (acyclic_minimal depsOf (kRemaining st) Hac) as (y & Hy & Hmin).
    { intros E. apply Hz. by apply size_empty_iff. }
    apply (Hstuck y); [apply (ki_part st Hinv); by right|done|].
    intros d Hd. apply Hin in Hd as Hdn. apply (ki_part st Hinv) in Hdn as [?|Hdr]; [done|].
    by destruct (Hmin d Hdr).
Qed.

Lemma kahnTopoSort_spec indegree :
  (∀ m, m ∈ nodeOrder → default 0%Z (indegree !! m) = Z.of_nat (length (succs depsOf m))) →
  ∃ R, kahnTopoSort nodeOrder depsOf indegree = Some R ∧ NoDup R ∧ topo R ∧
    (∀ x, x ∈ R → x ∈ nodeOrder) ∧ (acyclic depsOf ↔ length R = length nodeOrder).
Proof.
  intros Hind. destruct (kahn_loop_spec (S (length nodeOrder))
    (MkKahn [] (list_to_set nodeOrder) indegree false)) as (R & HR & Hnd & Ht & Hs & Hac).
  - split; simpl; [constructor|set_solver|set_solver| |].
    + intros m Hm. rewrite Hind by done. unfold missing. do 2 f_equal. symmetry.
      clear. induction (succs depsOf m) as [|d ds IH]; [done|].
      rewrite filter_cons_True by set_solver. by rewrite IH.
    + intros l1 x l2 E. by destruct l1.
  - simpl. rewrite size_list_to_set by done. lia.
  - exists R. split_and!; [done..|]. split.
    + intros H. apply Permutation_length, NoDup_Permutation; [done..|]. naive_solver.
    + intros Hlen x Hx. assert (Hall : ∀ y, y ∈ nodeOrder → y ∈ R).
      { intros y Hy. assert (HP : R ≡ₚ nodeOrder); [|by rewrite HP].
        apply submseteq_length_Permutation; [|lia]. by apply NoDup_submseteq. }
      (* in a topological order nothing depends on itself *)
      assert (Hlt : ∀ a b, tc (edge depsOf) a b → ∀ l1 l2, R = l1 ++ a :: l2 → b ∈ l1).
      { intros a b Hab. induction Hab as [a b Hab|a b c Hab Hbc IHc]; intros l1 l2 E.
        - by eapply Ht.
        - assert (Hb : b ∈ l1) by (by eapply Ht).
          apply list_elem_of_split in Hb as (k1 & k2 & ->).
          rewrite <- app_assoc in E. simpl in E. apply elem_of_app. left. by eapply IHc. }
      apply tc_inv_l in Hx as Hx'. destruct Hx' as (y & Hxy & _).
      assert (HxR : x ∈ R).
      { apply Hall. apply tc_inv_r in Hx as (z & _ & Hz). by apply (Hin z). }
      apply list_elem_of_split in HxR as (l1 & l2 & E).
      assert (Hx1 : x ∈ l1) by (by eapply Hlt). rewrite E in Hnd.
      apply NoDup_app in Hnd as (_ & Hd & _). apply (Hd x Hx1). set_solver.
Qed.
End kahn.

(** ** The assembly order *)

Lemma elem_of_add_node order id x : x ∈ add_node order id ↔ x ∈ order ∨ (x = id ∧ x ≠ "").
Proof.
  unfold add_node. destruct (id =? "") eqn:E; breflect; [naive_solver|].
  case_bool_decide; [naive_solver|]. rewrite elem_of_app, list_elem_of_singleton. naive_solver.
Qed.

Lemma add_node_NoDup order id : NoDup order → NoDup (add_node order id).
Proof.
  intros. unfold add_node. case_match; [done|]. case_bool_decide; [done|].
  apply NoDup_app. split_and!; [done| |apply NoDup_singleton]. set_solver.
Qed.

(** The branches that carry commits: owners, and requirements no story
    covers. *)
Definition carries_work (stories : list Story) (id : string) : Prop :=
  id ≠ "" ∧ ((∃ s, s ∈ stories ∧ DeterministicStoryOwner s = id) ∨
             ∀ s, s ∈ stories → id ∉ sRequirementIDs s).

Lemma assemblyNodes_spec reqs stories :
  NoDup (assemblyNodes reqs stories) ∧
  ∀ x, x ∈ assemblyNodes reqs stories ↔ x ∈ rID <$> reqs ∧ carries_work stories x.
Proof.
  unfold assemblyNodes.
  assert (Hc : ∀ x, x ≠ "" → bool_decide (x ∈ storyOwners stories) ||
      negb (bool_decide (x ∈ covered stories)) = true ↔ carries_work stories x).
  { intros x Hx. unfold storyOwners, covered, carries_work.
    rewrite orb_true_iff, negb_true_iff, bool_decide_eq_true, bool_decide_eq_false.
    rewrite !elem_of_list_to_set, list_elem_of_filter, list_elem_of_fmap, list_elem_of_join.
    setoid_rewrite list_elem_of_fmap. set_solver. }
  induction reqs as [|r reqs [IH1 IH2]] using rev_ind; [split; [constructor|set_solver]|].
  rewrite foldl_snoc, fmap_app. set (R := foldl _ _ _) in *. clearbody R. split.
  - case_match; [by apply add_node_NoDup|done].
  - intros x. rewrite elem_of_app. simpl. rewrite list_elem_of_singleton.
    destruct (bool_decide (rID r ∈ storyOwners stories) || _) eqn:E.
    + rewrite elem_of_add_node, IH2. split.
      * intros [?|[-> Hx]]; [tauto|]. split; [by right|]. by apply Hc.
      * intros [[?| ->] Hw]; [tauto|]. right. split; [done|]. by destruct Hw.
    + rewrite IH2. split; [tauto|]. intros [[?| ->] Hw]; [tauto|]. exfalso.
      assert (rID r ≠ "") as Hne by (by destruct Hw). apply Hc in Hw; [|done]. congruence.
Qed.

(** The prerequisite graph restricted to the nodes. *)
Definition assembly_graph (reqs : list Requirement) (stories : list Story) : gmap string (list string) :=
  (assemblyDepGraph (assemblyNodes reqs stories) (map_of ((λ r, (rID r, r)) <$> reqs)) stories).1.

Lemma assembly_graph_succs reqs stories id :
  id ∈ assemblyNodes reqs stories →
  succs (assembly_graph reqs stories) id =
  node_deps (list_to_set (assemblyNodes reqs stories)) (map_of ((λ r, (rID r, r)) <$> reqs)) stories id.
Proof.
  intros Hid. unfold succs, assembly_graph. simpl.
  rewrite (map_of_key (λ x, x) (node_deps (list_to_set (assemblyNodes reqs stories))
    (map_of ((λ r, (rID r, r)) <$> reqs)) stories)); [done|]. by rewrite list_fmap_id.
Qed.

Lemma assembly_graph_none reqs stories id :
  id ∉ assemblyNodes reqs stories → succs (assembly_graph reqs stories) id = [].
Proof.
  intros Hid. unfold succs, assembly_graph. simpl. rewrite not_elem_of_dom_1; [done|].
  rewrite map_of_dom, elem_of_list_to_set, <- list_fmap_compose. simpl.
  change ((fst ∘ λ id0, (id0, _)) <$> assemblyNodes reqs stories)
    with ((λ id0 : string, id0) <$> assemblyNodes reqs stories). by rewrite list_fmap_id.
Qed.

Lemma assemblyBranchOrder_ok reqs stories :
  reqs ≠ [] →
  ∃ ids, NoDup ids ∧ (∀ x, x ∈ ids ↔ x ∈ rID <$> reqs ∧ carries_work stories x) ∧
    ((acyclic (assembly_graph reqs stories) ∧ topo (assembly_graph reqs stories) ids ∧
        assemblyBranchOrder reqs stories = Some (ids, false)) ∨
     (¬ acyclic (assembly_graph reqs stories) ∧ ids = assemblyNodes reqs stories ∧
        assemblyBranchOrder reqs stories = Some (ids, true))).
Proof.
  intros Hne. destruct (assemblyNodes_spec reqs stories) as [Hnd Hel].
  set (G := assembly_graph reqs stories). set (nodes := assemblyNodes reqs stories) in *.
  destruct (kahnTopoSort_spec G nodes) with (indegree := (λ ds, Z.of_nat (length ds)) <$> G)
    as (R & HR & HRnd & HRt & HRs & HRl).
  - done.
  - intros m. destruct (decide (m ∈ nodes)) as [Hm|Hm].
    + unfold G. rewrite assembly_graph_succs by done. unfold node_deps.
      apply NoDup_filter, NoDup_sorted_elements.
    + unfold G. rewrite assembly_graph_none by done. constructor.
  - intros m d. destruct (decide (m ∈ nodes)) as [Hm|Hm].
    + unfold G. rewrite assembly_graph_succs by done. unfold node_deps.
      rewrite list_elem_of_filter, elem_of_list_to_set. tauto.
    + unfold G. rewrite assembly_graph_none by done. set_solver.
  - intros m Hm. rewrite lookup_fmap. unfold succs. by destruct (G !! m).
  - unfold assemblyBranchOrder. rewrite (proj2 (is_nil_false _)) by done.
    fold nodes. change (assemblyDepGraph nodes _ stories) with (G, (λ ds, Z.of_nat (length ds)) <$> G).
    cbv beta iota. rewrite HR. simpl.
    case_bool_decide as Hlen.
    + exists nodes. split_and!; [done..|]. right. split_and!; [|done..].
      intros Hac. by apply Hlen, HRl.
    + exists R. split_and!; [done| |].
      * intros x. rewrite <- Hel. split; [apply HRs|].
        assert (HP : R ≡ₚ nodes); [|by rewrite HP].
        apply submseteq_length_Permutation; [|lia]. by apply NoDup_submseteq.
      * left. split_and!; [by apply HRl|done|done].
Qed.

(** ** Merging and staging (the sandbox client is a parameter)

    The sandbox is a service of its own; the manager sees it through the
    client's calls.  The model records the calls in the order they are made,
    and an answer of the service is a function of that history and of the
    call's arguments, so the service may keep any state. *)

Record MergeBranchesCommit := MkMergeBranchesCommit {
  mcBranch : string;
  mcCommit : string }.

Record MergeBranchesResult := MkMergeBranchesResult {
  mrStatus : string;
  mrTarget : string;
  mrMergeCommits : list MergeBranchesCommit;
  mrConflictingBranch : string;
  mrConflictingPaths : list string;
  mrError : string }.

Record MergeBranchesRequest := MkMergeBranchesRequest {
  mqTarget : string;
  mqBase : string;
  mqBranches : list string;
  mqTrailers : list (string * string) }.

(** The error of [MergeBranches]: a conflict comes with the decoded result. *)
Inductive merge_failure :=
| ErrMergeBranchesConflict (result : option MergeBranchesResult)
| MergeBranchesError (msg : string).

Inductive sandbox_call :=
| CallMergeBranches (req : MergeBranchesRequest)
| CallWorktreeExists (id : string)
| CallDeleteWorktree (id : string)
| CallCreateWorktree (id baseBranch : string)
| CallDeleteBranch (name : string).

Record SandboxClient := MkSandboxClient {
  MergeBranches : list sandbox_call → MergeBranchesRequest → MergeBranchesResult + merge_failure;
  WorktreeExists : list sandbox_call → string → bool + string;
  DeleteWorktree : list sandbox_call → string → option string;
  CreateWorktree : list sandbox_call → string → string → option string;
  DeleteBranch : list sandbox_call → string → option string }.

Inductive assembly_error :=
| AssemblyConflict (branch target : string) (paths : list string)
| AssemblyConflictBare
| AssemblyFailed (msg : string)
| StageFailed (worktree branch msg : string).

Definition branch_of (id : string) : string := "semspec/requirement-" +:+ id.

Definition merge_request (plan : Plan) (orderedIDs : list string) : MergeBranchesRequest :=
  MkMergeBranchesRequest ("semspec/plan-" +:+ pSlug plan) "" (branch_of <$> orderedIDs)
    [("Plan-Slug", pSlug plan)].

Definition assembleRequirementBranches (sandbox : option SandboxClient) (plan : Plan)
    (log : list sandbox_call) : Plan * list sandbox_call * option assembly_error :=
  match sandbox with
  | None => (plan, log, None)
  | Some sandbox =>
    if is_nil (pRequirements plan) then (plan, log, None) else
    let orderedIDs := default [] (fst <$> assemblyBranchOrder (pRequirements plan) (pStories plan)) in
    if is_nil orderedIDs then (plan, log, None) else
    let req := merge_request plan orderedIDs in
    let log' := log ++ [CallMergeBranches req] in
    match MergeBranches sandbox log req with
    | inr (ErrMergeBranchesConflict (Some result)) =>
        (plan, log', Some (AssemblyConflict (mrConflictingBranch result) (mqTarget req)
                             (mrConflictingPaths result)))
    | inr (ErrMergeBranchesConflict None) => (plan, log', Some AssemblyConflictBare)
    | inr (MergeBranchesError msg) => (plan, log', Some (AssemblyFailed msg))
    | inl result =>
        let plan := set_pAssembledBranch (mrTarget result) plan in
        (match last (mrMergeCommits result) with
         | Some mc => set_pAssembledMergeCommit (mcCommit mc) plan
         | None => plan
         end, log', None)
    end
  end.

(** Delete the QA worktree, then create it on the assembled branch; the
    delete's answer is ignored. *)
Definition restage (sandbox : SandboxClient) (plan : Plan) (log : list sandbox_call) :
    list sandbox_call * option string :=
  let qaID := QAWorktreeID (pSlug plan) in
  let log := log ++ [CallDeleteWorktree qaID] in
  (log ++ [CallCreateWorktree qaID (pAssembledBranch plan)],
   CreateWorktree sandbox log qaID (pAssembledBranch plan)).

Definition assembleAndStageQAWorktree (sandbox : option SandboxClient) (plan : Plan)
    (log : list sandbox_call) : Plan * list sandbox_call * option assembly_error :=
  match assembleRequirementBranches sandbox plan log with
  | (plan, log, Some err) => (plan, log, Some err)
  | (plan, log, None) =>
      match sandbox with
      | None => (plan, log, None)
      | Some sandbox =>
          if pAssembledBranch plan =? "" then (plan, log, None) else
          let (log, err) := restage sandbox plan log in
          (plan, log, StageFailed (QAWorktreeID (pSlug plan)) (pAssembledBranch plan) <$> err)
      end
  end.

(** Every failure of the remaining operations is logged and swallowed, so
    they are functions of the call history alone. *)
Definition ensureQAWorktree (sandbox : option SandboxClient) (plan : Plan)
    (log : list sandbox_call) : list sandbox_call :=
  match sandbox with
  | None => log
  | Some sandbox =>
      if pAssembledBranch plan =? "" then log else
      let qaID := QAWorktreeID (pSlug plan) in
      let log' := log ++ [CallWorktreeExists qaID] in
      match WorktreeExists sandbox log qaID with
      | inl true => log'
      | _ => (restage sandbox plan log').1
      end
  end.

Definition deleteQAWorktree (sandbox : option SandboxClient) (slug : string)
    (log : list sandbox_call) : list sandbox_call :=
  match sandbox with
  | None => log
  | Some _ => log ++ [CallDeleteWorktree (QAWorktreeID slug)]
  end.

Definition pruneBranch (log : list sandbox_call) (branch : string) : list sandbox_call :=
  log ++ [CallDeleteBranch branch].

Definition pruneRequirementBranches (sandbox : option SandboxClient) (plan : Plan)
    (log : list sandbox_call) : list sandbox_call :=
  match sandbox with
  | None => log
  | Some _ =>
      foldl (λ log r, pruneBranch (pruneBranch log ("semspec/requirement-" +:+ rID r))
                        ("semspec/reqbase-" +:+ rID r)) log (pRequirements plan)
  end.

Lemma assemble_cases sandbox plan log p log' e :
  assembleRequirementBranches sandbox plan log = (p, log', e) →
  (∃ b c, p = set_pAssembledMergeCommit c (set_pAssembledBranch b plan)) ∧
  (is_Some e → p = plan) ∧ (∀ w b msg, e ≠ Some (StageFailed w b msg)) ∧
  (log' = log ∨ ∃ ids, ids ≠ [] ∧
     fst <$> assemblyBranchOrder (pRequirements plan) (pStories plan) = Some ids ∧
     log' = log ++ [CallMergeBranches (merge_request plan ids)]).
Proof.
  assert (Hid : ∃ b c, plan = set_pAssembledMergeCommit c (set_pAssembledBranch b plan)).
  { exists (pAssembledBranch plan), (pAssembledMergeCommit plan). by destruct plan. }
  assert (Hb : ∀ b, ∃ b' c, set_pAssembledBranch b plan
    = set_pAssembledMergeCommit c (set_pAssembledBranch b' plan)).
  { intros b. exists b, (pAssembledMergeCommit plan). by destruct plan. }
  unfold assembleRequirementBranches. intros H.
  destruct (fst <$> assemblyBranchOrder (pRequirements plan) (pStories plan)) as [ids|] eqn:E;
    simpl in H.
  2: { repeat case_in H; simplify_eq; split_and!; eauto; by intros [? ?]. }
  destruct (is_nil ids) eqn:En.
  { repeat case_in H; simplify_eq; split_and!; eauto; by intros [? ?]. }
  apply is_nil_false in En.
  repeat case_in H; simplify_eq; split_and!; eauto 10; by intros [? ?].
Qed.

Lemma prune_log sandbox plan log : is_Some sandbox →
  pruneRequirementBranches sandbox plan log = log ++
    (r ← pRequirements plan; CallDeleteBranch <$> ["semspec/requirement-" +:+ rID r;
                                                   "semspec/reqbase-" +:+ rID r]).
Proof.
  intros [sb ->]. simpl. revert log. induction (pRequirements plan) as [|r rs IH]; intros log; simpl.
  - by rewrite app_nil_r.
  - rewrite IH. unfold pruneBranch. by rewrite <- !app_assoc.
Qed.


(** ** Claims *)

(** The assembly order always exists.  It lists, once each, exactly the
    plan's requirements whose branch carries commits (story owners and
    requirements no story covers); when the derived branch graph has no cycle
    every branch comes after all the branches it was derived from, and only a
    cycle makes the merge fall back to slice order. *)
Theorem assemblyBranchOrder_spec reqs stories :
  reqs ≠ [] →
  ∃ ids fallback, assemblyBranchOrder reqs stories = Some (ids, fallback) ∧ NoDup ids ∧
    (∀ x, x ∈ ids ↔ x ∈ rID <$> reqs ∧ x ≠ "" ∧
       ((∃ s, s ∈ stories ∧ DeterministicStoryOwner s = x) ∨
        ∀ s, s ∈ stories → x ∉ sRequirementIDs s)) ∧
    (fallback = true ↔ ¬ acyclic (assembly_graph reqs stories)) ∧
    (fallback = true → ids = assemblyNodes reqs stories) ∧
    (fallback = false → ∀ l1 x l2, ids = l1 ++ x :: l2 →
       ∀ d, d ∈ succs (assembly_graph reqs stories) x → d ∈ l1).
Proof.
  intros Hne. destruct (assemblyBranchOrder_ok reqs stories Hne)
    as (ids & Hnd & Hel & [(Hac & Ht & E)|(Hac & -> & E)]).
  - exists ids, false. split_and!; [done..|split; [done|tauto]|done|done].
  - eexists _, true. split_and!; [done..|split; done|done|done].
Qed.

Lemma assemblyBranchOrder_spec_witness :
  ∃ ids fallback, assemblyBranchOrder [sample_req "r2" ["r1"]; sample_req "r1" []] [] =
    Some (ids, fallback) ∧ NoDup ids.
Proof.
  destruct (assemblyBranchOrder_spec [sample_req "r2" ["r1"]; sample_req "r1" []] [])
    as (ids & fb & H1 & H2 & _); [discriminate|].
  exists ids, fb. split; [exact H1|exact H2].
Defined.

Example assembly_order_ex :
  assemblyBranchOrder [sample_req "r2" ["r1"]; sample_req "r1" []] [] = Some (["r1"; "r2"], false).
Proof. vm_compute. reflexivity. Qed.

(** In the assembly order two branches are ordered exactly as the executor
    derived them: the prerequisites kept for a node are the resolved branch
    prerequisites of its requirement that are nodes themselves. *)
Theorem assembly_graph_matches_derivation reqs stories req d :
  NoDup (rID <$> reqs) → req ∈ reqs → carries_work stories (rID req) →
  d ∈ succs (assembly_graph reqs stories) (rID req) ↔
  d ∈ ResolveRequirementBranchPrereqs req stories ∧ d ∈ rID <$> reqs ∧ carries_work stories d.
Proof.
  intros Hnd Hreq Hw. destruct (assemblyNodes_spec reqs stories) as [_ Hel].
  rewrite assembly_graph_succs by (apply Hel; split; [by apply list_elem_of_fmap_2|done]).
  unfold node_deps. rewrite (map_of_lookup _ (rID req) req).
  - simpl. rewrite list_elem_of_filter, elem_of_list_to_set, Hel.
    assert (Hs := ResolvePrereqs_self req stories). split; [tauto|].
    intros (? & ? & ?). split_and!; try done. by intros ->.
  - by rewrite <- list_fmap_compose.
  - apply list_elem_of_fmap. by exists req.
Qed.

Lemma assembly_graph_matches_derivation_witness :
  "r1" ∈ succs (assembly_graph [sample_req "r1" []; sample_req "r2" ["r1"]] []) "r2".
Proof.
  apply (assembly_graph_matches_derivation [sample_req "r1" []; sample_req "r2" ["r1"]] []
    (sample_req "r2" ["r1"])).
  - apply (bool_decide_unpack _). vm_compute. exact I.
  - apply elem_of_cons. right. by apply list_elem_of_singleton.
  - split; [discriminate|]. right. intros s Hs. by apply not_elem_of_nil in Hs.
  - split_and!.
    + apply (bool_decide_unpack _). vm_compute. exact I.
    + apply (bool_decide_unpack _). vm_compute. exact I.
    + split; [discriminate|]. right. intros s Hs. by apply not_elem_of_nil in Hs.
Defined.

(** Whatever the sandbox answers, assembling and staging changes nothing of
    the plan but its assembled branch and commit, and a failed merge changes
    nothing at all.  It merges at most once, into the plan's own branch, the
    requirement branches in assembly order; and when it succeeds with an
    assembled branch the last two calls drop the plan's QA worktree and
    recreate it on exactly that branch.  After a failed merge the worktree is
    not touched. *)
Theorem assembleAndStage_spec sb plan log plan' log' err :
  assembleAndStageQAWorktree (Some sb) plan log = (plan', log', err) →
  (∃ b c, plan' = set_pAssembledMergeCommit c (set_pAssembledBranch b plan)) ∧
  ∃ merges, (merges = [] ∨ ∃ ids, ids ≠ [] ∧
      fst <$> assemblyBranchOrder (pRequirements plan) (pStories plan) = Some ids ∧
      merges = [CallMergeBranches (merge_request plan ids)]) ∧
    match err with
    | None =>
        if pAssembledBranch plan' =? "" then log' = log ++ merges
        else log' = log ++ merges ++
          [CallDeleteWorktree (QAWorktreeID (pSlug plan));
           CallCreateWorktree (QAWorktreeID (pSlug plan)) (pAssembledBranch plan')]
    | Some (StageFailed w b _) =>
        w = QAWorktreeID (pSlug plan) ∧ b = pAssembledBranch plan' ∧ b ≠ "" ∧
        log' = log ++ merges ++ [CallDeleteWorktree w; CallCreateWorktree w b]
    | Some _ => plan' = plan ∧ log' = log ++ merges
    end.
Proof.
  unfold assembleAndStageQAWorktree. intros H.
  destruct (assembleRequirementBranches (Some sb) plan log) as [[p l] e] eqn:E.
  destruct (assemble_cases _ _ _ _ _ _ E) as (Hset & Hfail & Hstage & Hlog).
  assert (Hm : ∃ merges, (merges = [] ∨ ∃ ids, ids ≠ [] ∧
      fst <$> assemblyBranchOrder (pRequirements plan) (pStories plan) = Some ids ∧
      merges = [CallMergeBranches (merge_request plan ids)]) ∧ l = log ++ merges).
  { destruct Hlog as [->|(ids & ? & ? & ->)]; [exists []; rewrite app_nil_r|]; eauto 10. }
  destruct Hm as (merges & Hm & ->).
  assert (Hslug : pSlug p = pSlug plan) by (by destruct Hset as (b & c & ->)).
  destruct e as [e|].
  - simplify_eq. split; [done|]. exists merges. split; [done|].
    destruct e; try (split; [by apply Hfail|done]). by edestruct Hstage.
  - destruct (pAssembledBranch p =? "") eqn:Eb; simplify_eq.
    + split; [done|]. exists merges. by rewrite Eb.
    + unfold restage in H. simplify_eq. split; [done|]. exists merges. split; [done|].
      rewrite Hslug, <- !app_assoc. simpl. rewrite <- Hslug.
      destruct (CreateWorktree _ _ _ _); simpl; [|by rewrite Eb].
      breflect. done.
Qed.

Lemma assembleAndStage_spec_witness :
  let sb := MkSandboxClient (λ _ req, inl (MkMergeBranchesResult "merged" (mqTarget req)
                               [MkMergeBranchesCommit "semspec/requirement-r1" "abc"] "" [] ""))
              (λ _ _, inl false) (λ _ _, None) (λ _ _ _, None) (λ _ _, None) in
  let plan := sample_plan StatusImplementing [sample_req "r1" []] [] None in
  let out := assembleAndStageQAWorktree (Some sb) plan [] in
  length out.1.2 = 3 ∧ out.2 = None ∧
  ∃ b c, out.1.1 = set_pAssembledMergeCommit c (set_pAssembledBranch b plan).
Proof.
  intros sb plan out. split; [vm_compute; reflexivity|]. split; [vm_compute; reflexivity|].
  refine (proj1 (assembleAndStage_spec sb plan [] _ out.1.2 None _)). vm_compute. reflexivity.
Defined.

(** Archiving a plan prunes, for each of its requirements in order, the
    requirement branch and its derivation base and nothing else; the assembled
    plan branch of any plan survives. *)
Theorem pruneRequirementBranches_spec sandbox plan log :
  ∃ calls, pruneRequirementBranches sandbox plan log = log ++ calls ∧
    (∀ c, c ∈ calls ↔ is_Some sandbox ∧ ∃ r, r ∈ pRequirements plan ∧
       (c = CallDeleteBranch ("semspec/requirement-" +:+ rID r) ∨
        c = CallDeleteBranch ("semspec/reqbase-" +:+ rID r))) ∧
    ∀ slug, CallDeleteBranch ("semspec/plan-" +:+ slug) ∉ calls.
Proof.
  destruct sandbox as [sb|].
  2: { exists []. rewrite app_nil_r. split; [done|]. split.
       - intros c. split; [by intros ?%not_elem_of_nil|by intros [[? ?] _]].
       - intros slug. apply not_elem_of_nil. }
  rewrite prune_log by done. eexists. split; [done|].
  assert (Hin : ∀ c, c ∈ (r ← pRequirements plan;
      CallDeleteBranch <$> ["semspec/requirement-" +:+ rID r; "semspec/reqbase-" +:+ rID r]) ↔
    is_Some (Some sb) ∧ ∃ r, r ∈ pRequirements plan ∧
       (c = CallDeleteBranch ("semspec/requirement-" +:+ rID r) ∨
        c = CallDeleteBranch ("semspec/reqbase-" +:+ rID r))).
  { intros c. rewrite list_elem_of_bind. simpl. setoid_rewrite elem_of_cons.
    setoid_rewrite elem_of_cons. setoid_rewrite elem_of_nil. naive_solver. }
  split; [done|]. intros slug (_ & r & _ & [[=]|[=]])%Hin.
Qed.
