(* ===== verification/TaskDag.v ===== *)
(** * Task graphs and story order in the requirement executor

    processor/requirement-executor: [TaskDAG.Validate] with its path-traversal
    check (dag.go), the synthesis of a task graph from a story
    ([synthesizeTaskDAGForStory]) and the order in which a requirement's
    stories are dispatched ([topoSortStoryIDs], synthesize_dag.go).  The text
    block appended to the prompts is a parameter. *)

From Stdlib Require Import Ascii.
From S2P Require Import Prelude Graphs Status Paths Types Stories Assembly.

Record TaskNode := MkTaskNode {
  nID : string;
  nPrompt : string;
  nRole : string;
  nDependsOn : list string;
  nFileScope : list string;
  nScenarioIDs : list string }.

Inductive dag_invalid :=
| DagEmpty
| DagTooLarge (n : nat)
| DagDuplicate (id : string)
| DagBad (e : dag_error)
| DagScopeEmpty (id : string)
| DagScopeTooLarge (id : string) (n : nat)
| DagScopeEntryEmpty (id : string) (i : nat)
| DagScopeTraversal (id : string) (i : nat) (entry : string)
| StoryNoTasks (id : string)
| StoryNoFiles (id : string)
| StoryDuplicate (id : string)
| StoryCycle (id : string)
| StoryOutOfFuel.

Definition maxDAGNodes : nat := 100.
Definition maxFileScopeEntries : nat := 100.

(** ** Path traversal *)

Definition is_sep (c : ascii) : bool := (c =? "/"%char) || (c =? "\"%char).

(** [current] holds the bytes of the part being read. *)
Fixpoint split_loop (current path : string) : list string :=
  match path with
  | EmptyString => if current =? "" then [] else [current]
  | String c r =>
      if is_sep c then
        if current =? "" then split_loop "" r else current :: split_loop "" r
      else split_loop (current +:+ String c "") r
  end.

Definition splitPathComponents (path : string) : list string := split_loop "" path.

Definition containsPathTraversal (entry : string) : bool :=
  existsb (λ part, part =? "..") (splitPathComponents entry).

(** ** [TaskDAG.Validate] *)

Definition node_of (n : TaskNode) : string * list string := (nID n, nDependsOn n).

Fixpoint scope_loop (id : string) (i : nat) (entries : list string) : option dag_invalid :=
  match entries with
  | [] => None
  | entry :: entries =>
      if entry =? "" then Some (DagScopeEntryEmpty id i)
      else if containsPathTraversal entry then Some (DagScopeTraversal id i entry)
      else scope_loop id (S i) entries
  end.

Definition check_scope (n : TaskNode) : option dag_invalid :=
  if is_nil (nFileScope n) then Some (DagScopeEmpty (nID n))
  else if bool_decide (maxFileScopeEntries < length (nFileScope n))
  then Some (DagScopeTooLarge (nID n) (length (nFileScope n)))
  else scope_loop (nID n) 0 (nFileScope n).

Definition TaskDAG_Validate (nodes : list TaskNode) : option dag_invalid :=
  if is_nil nodes then Some DagEmpty
  else if bool_decide (maxDAGNodes < length nodes) then Some (DagTooLarge (length nodes))
  else match DagDuplicate <$> first_dup ∅ (nID <$> nodes) with
  | Some e => Some e
  | None =>
      match DagBad <$> validate_dag (node_of <$> nodes) with
      | Some e => Some e
      | None => first_err check_scope nodes
      end
  end.

(** ** Synthesis *)

Definition task_to_node (bindingBlock : string) (files scenarioIDs : list string) (t : Task) : TaskNode :=
  {| nID := tID t;
     nPrompt := if bindingBlock !=? "" then tDescription t +:+ "

---

" +:+ bindingBlock else tDescription t;
     nRole := "developer"; nDependsOn := tDependsOn t; nFileScope := files;
     nScenarioIDs := scenarioIDs |}.

Definition synthesizeTaskDAGForStory (buildBindingContextBlock : list Scenario → string)
    (plan : option Plan) (story : Story) : list TaskNode + dag_invalid :=
  if is_nil (sTasks story) then inr (StoryNoTasks (sID story))
  else if is_nil (sFilesOwned story) then inr (StoryNoFiles (sID story))
  else
    let storyScenarios := match plan with None => [] | Some p => ScenariosForStory p (sID story) end in
    let nodes := task_to_node (buildBindingContextBlock storyScenarios) (sFilesOwned story)
                   (scID <$> storyScenarios) <$> sTasks story in
    match TaskDAG_Validate nodes with
    | Some e => inr e
    | None => inl nodes
    end.

(** ** Story order *)

Inductive topo_result :=
| TOutOfFuel
| TCycle (id : string)
| TDone (c : gmap string Color) (sorted : list string).

Section topo_sort.
Context (idIndex : gset string) (deps : gmap string (list string)).

Fixpoint tvisit_deps (visit : gmap string Color → list string → string → topo_result)
    (ds : list string) (c : gmap string Color) (sorted : list string) : topo_result :=
  match ds with
  | [] => TDone c sorted
  | dep :: ds =>
      if bool_decide (dep ∈ idIndex) then
        match visit c sorted dep with
        | TDone c' sorted' => tvisit_deps visit ds c' sorted'
        | r => r
        end
      else tvisit_deps visit ds c sorted
  end.

Fixpoint tvisit (fuel : nat) (c : gmap string Color) (sorted : list string) (id : string) :
    topo_result :=
  match fuel with
  | O => TOutOfFuel
  | S fuel =>
      match color_of c id with
      | Gray => TCycle id
      | Black => TDone c sorted
      | White =>
          match tvisit_deps (tvisit fuel) (succs deps id) (<[id := Gray]> c) sorted with
          | TDone c' sorted' => TDone (<[id := Black]> c') (sorted' ++ [id])
          | r => r
          end
      end
  end.

Fixpoint tvisit_roots (fuel : nat) (roots : list string) (c : gmap string Color)
    (sorted : list string) : topo_result :=
  match roots with
  | [] => TDone c sorted
  | r :: roots =>
      match color_of c r with
      | White => match tvisit fuel c sorted r with
                 | TDone c' sorted' => tvisit_roots fuel roots c' sorted'
                 | e => e
                 end
      | _ => tvisit_roots fuel roots c sorted
      end
  end.
End topo_sort.

(** The dependencies inside the slice; the others are ordered elsewhere. *)
Definition local_graph (stories : list Story) : gmap string (list string) :=
  let ids : gset string := list_to_set (sID <$> stories) in
  adj_of ((λ s, (sID s, filter (λ d, d ∈ ids) (sDependsOn s))) <$> stories).

Definition topoSortStoryIDs (stories : list Story) : list string + dag_invalid :=
  if is_nil stories then inl [] else
  match first_dup ∅ (sID <$> stories) with
  | Some id => inr (StoryDuplicate id)
  | None =>
      let idIndex : gset string := list_to_set (sID <$> stories) in
      match tvisit_roots idIndex (story_graph stories) (S (dfs_fuel (local_graph stories)))
              (sID <$> stories) ∅ [] with
      | TDone _ sorted => inl sorted
      | TCycle id => inr (StoryCycle id)
      | TOutOfFuel => inr StoryOutOfFuel
      end
  end.

(** ** Lemmas: path traversal *)

(** Prepend to the first part. *)
Definition glue (cur : string) (parts : list string) : list string :=
  match parts with [] => [] | w :: ws => (cur +:+ w) :: ws end.

Lemma split_loop_spec cur path :
  split_loop cur path =
  filter (λ w, w ≠ "") (glue cur (split_on "/" (replace_byte "\" "/" path))).
Proof.
  revert cur. induction path as [|c r IH]; intros cur; cbn [split_loop replace_byte split_on].
  { simpl. rewrite string_app_nil_r. destruct (cur =? "") eqn:E; breflect.
    - subst. by rewrite filter_cons_False by naive_solver.
    - by rewrite filter_cons_True. }
  destruct (is_sep c) eqn:Es.
  - assert ((if c =? "\"%char then "/"%char else c) = "/"%char) as ->.
    { unfold is_sep in Es. breflect. destruct (c =? "\"%char) eqn:E; breflect; naive_solver. }
    rewrite eqb_refl. simpl. rewrite string_app_nil_r, IH.
    assert (Hg : glue "" (split_on "/" (replace_byte "\" "/" r)) = split_on "/" (replace_byte "\" "/" r))
      by (by destruct (split_on _ _)).
    rewrite Hg. destruct (cur =? "") eqn:E; breflect.
    + subst. by rewrite filter_cons_False by naive_solver.
    + by rewrite filter_cons_True.
  - unfold is_sep in Es. breflect. destruct Es as [E1 E2].
    rewrite (proj2 (eqb_false c "\"%char)), (proj2 (eqb_false c "/"%char)) by done.
    rewrite IH. destruct (split_on "/" (replace_byte "\" "/" r)) as [|w ws] eqn:E.
    + by apply split_on_ne in E.
    + simpl. by rewrite string_app_assoc.
Qed.

Lemma containsPathTraversal_spec entry :
  containsPathTraversal entry = true ↔ ".." ∈ split_on "/" (replace_byte "\" "/" entry).
Proof.
  unfold containsPathTraversal, splitPathComponents. rewrite split_loop_spec.
  assert (Hg : glue "" (split_on "/" (replace_byte "\" "/" entry)) =
    split_on "/" (replace_byte "\" "/" entry)) by (by destruct (split_on _ _)).
  rewrite Hg, existsb_exists. setoid_rewrite <- list_elem_of_In.
  setoid_rewrite list_elem_of_filter. setoid_rewrite eqb_true. split.
  - by intros (w & [_ ?] & ->).
  - intros H. by exists "..".
Qed.

(** The normal form of a path never traverses upwards. *)
Lemma canonical_no_traversal q : canonical q → containsPathTraversal q = false.
Proof.
  intros (ws & Hws & Hq). apply not_true_iff_false. rewrite containsPathTraversal_spec.
  assert (Hb : mem_ascii "\" (Join ws "/") = false).
  { apply Join_mem; [done|]. eapply Forall_impl; [done|]. by intros w [_ ?]. }
  assert (Hne : ".." ∉ ws).
  { intros H. rewrite Forall_forall in Hws. by destruct (Hws ".." H) as [(_ & _ & ? & _) _]. }
  assert (Hns := plain_canonical_nosep ws Hws).
  destruct Hq as [[Hnil ->]| ->].
  - rewrite replace_byte_id by done. by rewrite split_on_Join.
  - rewrite replace_byte_id by done. change ("/" +:+ Join ws "/") with (String "/" (Join ws "/")).
    cbn [split_on]. rewrite eqb_refl. rewrite elem_of_cons. intros [?|H]; [done|].
    destruct ws as [|w ws]; [simpl in H; set_solver|]. by rewrite split_on_Join in H.
Qed.

(** ** Lemmas: validation *)

Lemma scope_loop_None id i entries :
  scope_loop id i entries = None ↔
  ∀ e, e ∈ entries → e ≠ "" ∧ containsPathTraversal e = false.
Proof.
  revert i. induction entries as [|e entries IH]; intros i; cbn [scope_loop]; [set_solver|].
  rewrite guard_None, eqb_false, guard_None, IH. set_solver.
Qed.

Definition scope_ok (files : list string) : Prop :=
  (1 ≤ length files ≤ maxFileScopeEntries) ∧
  ∀ e, e ∈ files → e ≠ "" ∧ containsPathTraversal e = false.

Lemma check_scope_None n : check_scope n = None ↔ scope_ok (nFileScope n).
Proof.
  unfold check_scope, scope_ok. rewrite guard_None, is_nil_false, guard_None, bool_decide_eq_false,
    scope_loop_None. destruct (nFileScope n) as [|f fs]; simpl.
  { split; [by intros [? _]|intros [? _]; lia]. }
  split.
  - intros (_ & ? & ?). split; [lia|done].
  - intros [? ?]. split_and!; [done|lia|done].
Qed.

Record task_dag_ok (nodes : list TaskNode) : Prop := {
  td_size : 1 ≤ length nodes ≤ maxDAGNodes;
  td_unique : NoDup (nID <$> nodes);
  td_dag : dag_spec (node_of <$> nodes);
  td_scope : ∀ n, n ∈ nodes → scope_ok (nFileScope n) }.

Lemma TaskDAG_Validate_None nodes : TaskDAG_Validate nodes = None ↔ task_dag_ok nodes.
Proof.
  unfold TaskDAG_Validate.
  rewrite guard_None, is_nil_false, guard_None, bool_decide_eq_false, !match_err_None, !fmap_None,
    first_dup_None, validate_dag_None, first_err_None.
  setoid_rewrite check_scope_None. split.
  - intros (Hne & Hlen & [Hnd _] & Hd & Hs). split; [|done..].
    destruct nodes; [done|]. simpl in *. lia.
  - intros [H1 H2 H3 H4]. split_and!; [|lia|done|set_solver|done..].
    intros ->. simpl in H1. lia.
Qed.

(** ** Lemmas: story order *)

Section topo_lemmas.
Context (idIndex : gset string) (deps adjL : gmap string (list string)).
Context (Hloc : ∀ x, succs adjL x = filter (λ d, d ∈ idIndex) (succs deps x)).

(** The walk is the entry-checked walk on the local graph. *)
Definition tmatches (p : path_result) (t : topo_result) : Prop :=
  match p, t with
  | POutOfFuel, TOutOfFuel => True
  | PCycle _ b, TCycle b' => b = b'
  | PDone c, TDone c' _ => c = c'
  | _, _ => False
  end.

Lemma tvisit_deps_matches cv tv stack ds c s :
  (∀ c s d, tmatches (cv c stack d) (tv c s d)) →
  tmatches (cvisit_deps cv stack (filter (λ d, d ∈ idIndex) ds) c) (tvisit_deps idIndex tv ds c s).
Proof.
  intros Hv. revert c s. induction ds as [|d ds IH]; intros c s; [done|].
  rewrite filter_cons. cbn [tvisit_deps]. case_bool_decide.
  - rewrite decide_True by done. cbn [cvisit_deps]. specialize (Hv c s d).
    destruct (cv c stack d), (tv c s d); simpl in *; try done. subst. apply IH.
  - rewrite decide_False by done. apply IH.
Qed.

Lemma tvisit_matches fuel c s stack id :
  tmatches (cvisit adjL fuel c stack id) (tvisit idIndex deps fuel c s id).
Proof.
  revert c s stack id. induction fuel as [|fuel IH]; intros c s stack id; [done|].
  cbn [cvisit tvisit]. destruct (color_of c id); [|done|done]. rewrite Hloc.
  assert (H := tvisit_deps_matches (cvisit adjL fuel) (tvisit idIndex deps fuel) (stack ++ [id])
    (succs deps id) (<[id:=Gray]> c) s ltac:(done)). simpl.
  destruct (cvisit_deps _ _ _ _), (tvisit_deps _ _ _ _ _); simpl in *; try done. by subst.
Qed.

Lemma tvisit_roots_matches fuel roots c s :
  tmatches (cvisit_roots adjL fuel roots c) (tvisit_roots idIndex deps fuel roots c s).
Proof.
  revert c s. induction roots as [|r roots IH]; intros c s; cbn [cvisit_roots tvisit_roots]; [done|].
  destruct (color_of c r); [|apply IH..].
  assert (H := tvisit_matches fuel c s [] r).
  destruct (cvisit adjL fuel c [] r), (tvisit idIndex deps fuel c s r); simpl in H; try done.
  subst. apply IH.
Qed.

(** The list holds the black nodes, each after its local dependencies. *)
Record sorted_inv (c : gmap string Color) (s : list string) : Prop := {
  si_nodup : NoDup s;
  si_black : ∀ x, x ∈ s ↔ black c x;
  si_ids : ∀ x, x ∈ s → x ∈ idIndex;
  si_topo : topo adjL s }.

Definition sorted_step (c : gmap string Color) (ids : list string) (r : topo_result) : Prop :=
  match r with
  | TDone c' s' => sorted_inv c' s' ∧ (∀ x, gray c' x ↔ gray c x) ∧
      (∀ x, black c x → black c' x) ∧ ∀ id, id ∈ ids → black c' id
  | _ => True
  end.

Lemma tvisit_deps_sorted tv ds c s :
  (∀ c s d, d ∈ idIndex → sorted_inv c s → sorted_step c [d] (tv c s d)) → sorted_inv c s →
  sorted_step c (filter (λ d, d ∈ idIndex) ds) (tvisit_deps idIndex tv ds c s).
Proof.
  intros Hv. revert c s. induction ds as [|d ds IH]; intros c s Hs; cbn [tvisit_deps].
  { simpl. split_and!; [done..|set_solver]. }
  rewrite filter_cons. case_bool_decide; [rewrite decide_True by done | rewrite decide_False by done; by apply IH].
  specialize (Hv c s d ltac:(done) Hs). destruct (tv c s d) as [| |c' s']; [done..|].
  destruct Hv as (H1 & H2 & H3 & H4). specialize (IH c' s' H1).
  destruct (tvisit_deps _ _ _ _ _) as [| |c'' s'']; simpl in *; [done..|].
  destruct IH as (J1 & J2 & J3 & J4). split_and!; [done|..].
  - intros x. by rewrite J2.
  - auto.
  - intros id [->|Hid]%elem_of_cons; [|auto]. apply J3, H4. set_solver.
Qed.

Lemma tvisit_sorted fuel c s id :
  id ∈ idIndex → sorted_inv c s → sorted_step c [id] (tvisit idIndex deps fuel c s id).
Proof.
  revert c s id. induction fuel as [|fuel IH]; intros c s id Hidx Hs; [done|]. cbn [tvisit].
  destruct (color_of c id) eqn:E; [|done|].
  - assert (Hg : sorted_inv (<[id:=Gray]> c) s).
    { destruct Hs as [H1 H2 H2' H3]. split; [done| |done..]. intros x. rewrite H2. unfold black.
      rewrite color_of_insert. case_decide; [subst; split; congruence|done]. }
    assert (H := tvisit_deps_sorted (tvisit idIndex deps fuel) (succs deps id) _ s IH Hg).
    destruct (tvisit_deps _ _ _ _ _) as [| |c' s']; [done..|]. simpl in *.
    destruct H as ([H1 H2 H2' H3] & G1 & G2 & G3).
    assert (Hgr : gray c' id) by (apply G1; unfold gray; by rewrite color_of_insert, decide_True).
    assert (Hid : id ∉ s') by (rewrite H2; unfold black, gray in *; congruence).
    split_and!.
    + split.
      * apply NoDup_app. split_and!; [done|set_solver|apply NoDup_singleton].
      * intros x. rewrite elem_of_app, list_elem_of_singleton, H2. unfold black.
        rewrite color_of_insert. case_decide; naive_solver.
      * intros x [?| ->%list_elem_of_singleton]%elem_of_app; auto.
      * apply topo_snoc; [done|]. intros d. rewrite Hloc. intros Hd. apply H2. by apply G3.
    + intros x. unfold gray. rewrite color_of_insert. case_decide as Hx.
      * subst. split; [done|congruence].
      * specialize (G1 x). unfold gray in G1. by rewrite color_of_insert, decide_False in G1.
    + intros x Hx. unfold black. rewrite color_of_insert. case_decide as Hxi; [done|].
      apply G2. unfold black. by rewrite color_of_insert, decide_False.
    + intros x ->%list_elem_of_singleton. unfold black. by rewrite color_of_insert, decide_True.
  - simpl. split_and!; [done..|]. by intros x ->%list_elem_of_singleton.
Qed.

Lemma tvisit_roots_sorted fuel roots c s :
  (∀ r, r ∈ roots → r ∈ idIndex) → sorted_inv c s → (∀ x, ¬ gray c x) →
  sorted_step c roots (tvisit_roots idIndex deps fuel roots c s).
Proof.
  intros Hroots. revert c s. induction roots as [|r roots IH]; intros c s Hs Hg; cbn [tvisit_roots].
  { simpl. split_and!; [done..|set_solver]. }
  destruct (color_of c r) eqn:E; [|by destruct (Hg r)|].
  - assert (H := tvisit_sorted fuel c s r ltac:(apply Hroots; set_solver) Hs).
    destruct (tvisit idIndex deps fuel c s r) as [| |c' s']; [done..|].
    destruct H as (H1 & H2 & H3 & H4). specialize (IH ltac:(set_solver) c' s' H1 ltac:(intros x; rewrite H2; apply Hg)).
    destruct (tvisit_roots _ _ _ _ _ _) as [| |c'' s'']; simpl in *; [done..|].
    destruct IH as (J1 & J2 & J3 & J4). split_and!; [done|intros x; by rewrite J2|auto|].
    intros id [->|Hid]%elem_of_cons; [|auto]. apply J3, H4. set_solver.
  - specialize (IH ltac:(set_solver) c s Hs Hg). destruct (tvisit_roots _ _ _ _ _ _) as [| |c'' s'']; simpl in *; [done..|].
    destruct IH as (J1 & J2 & J3 & J4). split_and!; [done..|].
    intros id [->|Hid]%elem_of_cons; auto.
Qed.
End topo_lemmas.

Lemma local_graph_succs stories x :
  succs (local_graph stories) x =
  filter (λ d, d ∈ (list_to_set (sID <$> stories) : gset string)) (succs (story_graph stories) x).
Proof.
  unfold succs, local_graph, story_graph, adj_of.
  replace ((λ s, (sID s, filter (λ d, d ∈ (list_to_set (sID <$> stories) : gset string)) (sDependsOn s))) <$> stories)
    with (prod_map id (filter (λ d, d ∈ (list_to_set (sID <$> stories) : gset string))) <$> (story_node <$> stories))
    by (by rewrite <- list_fmap_compose).
  rewrite map_of_fmap, lookup_fmap. by destruct (map_of (story_node <$> stories) !! x).
Qed.

Lemma topoSort_cases stories :
  NoDup (sID <$> stories) →
  (acyclic (local_graph stories) ∧ ∃ sorted, topoSortStoryIDs stories = inl sorted ∧
     NoDup sorted ∧ (∀ x, x ∈ sorted ↔ x ∈ sID <$> stories) ∧ topo (local_graph stories) sorted) ∨
  (¬ acyclic (local_graph stories) ∧ ∃ id, topoSortStoryIDs stories = inr (StoryCycle id) ∧
     tc (edge (local_graph stories)) id id).
Proof.
  intros Hnd. unfold topoSortStoryIDs. destruct (is_nil stories) eqn:En.
  { apply is_nil_true in En as ->. left. split.
    - apply detect_cycle_None. reflexivity.
    - exists []. split_and!; [done|constructor|set_solver|]. intros l1 x l2 E. by destruct l1. }
  rewrite (proj2 (first_dup_None ∅ (sID <$> stories))) by (split; [done|set_solver]).
  set (adjL := local_graph stories).
  assert (Hdom : ∀ r, r ∈ sID <$> stories ↔ r ∈ dom adjL).
  { intros r. unfold adjL, local_graph. by rewrite adj_of_dom, elem_of_list_to_set, <- list_fmap_compose. }
  assert (Hdec := cdfs_decides adjL (sID <$> stories) Hdom).
  assert (Hm := tvisit_roots_matches (list_to_set (sID <$> stories)) (story_graph stories) adjL
    (local_graph_succs stories) (S (dfs_fuel adjL)) (sID <$> stories) ∅ []).
  assert (Hs := tvisit_roots_sorted (list_to_set (sID <$> stories)) (story_graph stories) adjL
    (local_graph_succs stories) (S (dfs_fuel adjL)) (sID <$> stories) ∅ []).
  assert (Hempty : ∀ x, color_of ∅ x = White) by (intros x; unfold color_of; by rewrite lookup_empty).
  destruct (cvisit_roots _ _ _ _) as [|st b|c], (tvisit_roots _ _ _ _ _ _) as [|b'|c' s]; try done.
  - right. destruct Hdec as (a & He & Hr). simpl in Hm. subst b'.
    assert (Ht : tc (edge adjL) b b) by (by eapply tc_rtc_l; [|by apply tc_once]).
    split; [intros Hac; by apply (Hac b)|]. eauto.
  - left. split; [done|]. exists s. simpl in Hs. destruct Hs as ([H1 H2 H2' H3] & _ & _ & H4).
    + intros r Hr. by apply elem_of_list_to_set.
    + split; [constructor| |set_solver|].
      * intros x. unfold black. rewrite Hempty. split; [set_solver|done].
      * intros l1 x l2 E. by destruct l1.
    + intros x. unfold gray. by rewrite Hempty.
    + split_and!; [done..| |done]. intros x. split.
      * intros Hx%H2'. by apply elem_of_list_to_set in Hx.
      * intros Hx. by apply H2, H4.
Qed.

(** ** Claims *)

(** [TaskDAG.Validate] accepts exactly the graphs of 1 to 100 nodes with
    distinct IDs, known dependencies and no cycle, where every node's file
    scope has 1 to 100 entries, none empty and none with a dot-dot component
    under either separator. *)
Theorem TaskDAG_Validate_decides nodes :
  TaskDAG_Validate nodes = None ↔
  1 ≤ length nodes ≤ 100 ∧ NoDup (nID <$> nodes) ∧ dag_spec (node_of <$> nodes) ∧
  ∀ n, n ∈ nodes → 1 ≤ length (nFileScope n) ≤ 100 ∧
    ∀ e, e ∈ nFileScope n → e ≠ "" ∧ ".." ∉ split_on "/" (replace_byte "\" "/" e).
Proof.
  rewrite TaskDAG_Validate_None.
  assert (Ht : ∀ e, containsPathTraversal e = false ↔ ".." ∉ split_on "/" (replace_byte "\" "/" e)).
  { intros e. by rewrite <- containsPathTraversal_spec, not_true_iff_false. }
  setoid_rewrite <- Ht. split; [by intros [] | by intros (? & ? & ? & ?)].
Qed.

Lemma TaskDAG_Validate_decides_witness : NoDup (nID <$> [MkTaskNode "t1" "" "" [] ["a.go"] []]).
Proof.
  refine (proj1 (proj2 (proj1 (TaskDAG_Validate_decides [MkTaskNode "t1" "" "" [] ["a.go"] []]) _))).
  vm_compute. reflexivity.
Defined.

(** A story that passed the story gate synthesizes into a valid task graph
    with one node per task and the story's files as scope, provided its task
    IDs are distinct, it has at most 100 tasks and 100 files, and its files
    are normalized; the gate itself does not enforce these four conditions. *)
Theorem synthesize_total block plan story :
  sTasks story ≠ [] → dag_spec (task_node <$> sTasks story) →
  NoDup (tID <$> sTasks story) → length (sTasks story) ≤ 100 →
  1 ≤ length (sFilesOwned story) ≤ 100 →
  (∀ f, f ∈ sFilesOwned story → f ≠ "" ∧ NormalizeFilePath f = f) →
  ∃ nodes, synthesizeTaskDAGForStory block plan story = inl nodes ∧
    nID <$> nodes = tID <$> sTasks story ∧ nDependsOn <$> nodes = tDependsOn <$> sTasks story ∧
    ∀ n, n ∈ nodes → nFileScope n = sFilesOwned story.
Proof.
  intros Hne Hdag Hnd Hlen Hfl Hnorm. unfold synthesizeTaskDAGForStory.
  rewrite (proj2 (is_nil_false (sTasks story))) by done.
  rewrite (proj2 (is_nil_false (sFilesOwned story))) by (by destruct (sFilesOwned story); simpl in *; [lia|]).
  set (mk := task_to_node _ _ _).
  assert (HID : nID <$> (mk <$> sTasks story) = tID <$> sTasks story) by (by rewrite <- list_fmap_compose).
  assert (HD : nDependsOn <$> (mk <$> sTasks story) = tDependsOn <$> sTasks story)
    by (by rewrite <- list_fmap_compose).
  assert (HN : node_of <$> (mk <$> sTasks story) = task_node <$> sTasks story)
    by (by rewrite <- list_fmap_compose).
  assert (HF : ∀ n, n ∈ mk <$> sTasks story → nFileScope n = sFilesOwned story)
    by (by intros n (t & -> & _)%list_elem_of_fmap).
  rewrite (proj2 (TaskDAG_Validate_None _)); [eauto 6|]. split.
  - rewrite length_fmap. unfold maxDAGNodes. destruct (sTasks story); [done|]. simpl in *. lia.
  - by rewrite HID.
  - by rewrite HN.
  - intros n Hn. rewrite HF by done. split; [unfold maxFileScopeEntries; lia|].
    intros e He. destruct (Hnorm e He) as [He1 He2]. split; [done|].
    apply canonical_no_traversal. rewrite <- He2.
    destruct (NormalizeFilePath_canonical e); congruence.
Qed.

Lemma synthesize_total_witness :
  ∃ nodes, synthesizeTaskDAGForStory (λ _, "") None (sample_story "s" "c" ["r"] ["a.go"] []) = inl nodes.
Proof.
  destruct (synthesize_total (λ _, "") None (sample_story "s" "c" ["r"] ["a.go"] []))
    as (nodes & H & _).
  - discriminate.
  - apply validate_dag_None. vm_compute. reflexivity.
  - apply (bool_decide_unpack _). vm_compute. exact I.
  - apply (bool_decide_unpack _). vm_compute. exact I.
  - simpl. lia.
  - intros f ->%list_elem_of_singleton. split; [discriminate|]. vm_compute. reflexivity.
  - exists nodes. exact H.
Defined.

(** On stories with distinct IDs [topoSortStoryIDs] always answers: with a
    permutation of the IDs in which every story comes after the stories of the
    slice it depends on, or, exactly when those dependencies are cyclic, with
    a story on a cycle. *)
Theorem topoSortStoryIDs_spec stories :
  NoDup (sID <$> stories) →
  match topoSortStoryIDs stories with
  | inl sorted => acyclic (local_graph stories) ∧ sorted ≡ₚ sID <$> stories ∧
      ∀ l1 x l2, sorted = l1 ++ x :: l2 → ∀ s d, s ∈ stories → sID s = x → d ∈ sDependsOn s →
        d ∈ sID <$> stories → d ∈ l1
  | inr (StoryCycle id) => tc (edge (local_graph stories)) id id
  | inr _ => False
  end.
Proof.
  intros Hnd. destruct (topoSort_cases stories Hnd) as [(Hac & l & -> & Hl & Hel & Ht)|(_ & id & -> & H)];
    [|done].
  split_and!; [done|by apply NoDup_Permutation|].
  intros l1 x l2 E s d Hs <- Hd Hin. eapply Ht; [done|]. rewrite local_graph_succs.
  apply list_elem_of_filter. split; [by apply elem_of_list_to_set|].
  unfold succs, story_graph. rewrite (adj_of_lookup _ (sID s) (sDependsOn s)); [done| |].
  - by rewrite <- list_fmap_compose.
  - apply list_elem_of_fmap. by exists s.
Qed.

Lemma topoSortStoryIDs_spec_witness :
  acyclic (local_graph [sample_story "s2" "c" ["r"] [] ["s1"; "x"]; sample_story "s1" "c" ["r"] [] []]).
Proof.
  refine (proj1 (topoSortStoryIDs_spec
    [sample_story "s2" "c" ["r"] [] ["s1"; "x"]; sample_story "s1" "c" ["r"] [] []] _)).
  apply (bool_decide_unpack _). vm_compute. exact I.
Defined.

Example topo_ex :
  topoSortStoryIDs [sample_story "s2" "c" ["r"] [] ["s1"; "x"]; sample_story "s1" "c" ["r"] [] []]
    = inl ["s1"; "s2"].
Proof. vm_compute. reflexivity. Qed.
