(* ===== verification/PlanStore.v ===== *)
(** * The plan store of the plan manager

    processor/plan-manager/plan_store.go and the contract packet of
    workflow/plan_contract.go.  A plan lives in a cache with a time to live
    and in a key-value bucket; the graph is written as well but not read at
    run time.  The world a handler acts on is the cache, the bucket, the
    messages sent and the sandbox calls made.  What the outside does, whether
    a write fails, what time it is, is read off an environment indexed by a
    counter of interactions, so every theorem holds for every behaviour of
    the outside.  [clonePlan] makes the caller's plan and the stored one
    disjoint, so plans are values here. *)

From S2P Require Import Prelude Status Paths Types Assembly.

Local Open Scope string_scope.
Local Open Scope go_scope.

(** ** Contract packets *)

Definition NewContractScopeSnapshot (scope : Scope) : ContractScopeSnapshot :=
  {| cssInclude := scpInclude scope; cssExclude := scpExclude scope;
     cssDoNotTouch := scpDoNotTouch scope; cssCreate := scpCreate scope |}.

(** ** The outside *)

(** One interaction: the clock, and which of the calls made there fail. *)
Record io_outcome := MkIO {
  ioNow : Z;
  ioCtxErr : bool;
  ioMarshalErr : bool;
  ioKvGetErr : bool;
  ioKvPutErr : bool;
  ioGraphErr : bool;
  ioPublishErr : bool;
  ioUUID : string }.

(** The environment and the component's configuration.  The entity IDs are
    SHA-256 based; [envDetect] is the topology detector, [envMarshalArch] the
    JSON encoder of an architecture, [envToUpper] is [strings.ToUpper],
    [envErrorText] the text of an assembly error and [envRange] the order in which Go ranges over a set. *)
Record Env := MkEnv {
  envIO : nat → io_outcome;
  envPlanEntityID : string → string;
  envProjectEntityID : string → string;
  envPlanContractID : string → string;
  envRepoPath : string;
  envDetect : string → option (list TopologyFact);
  envMarshalArch : ArchitectureDocument → option string;
  envToUpper : string → string;
  envErrorText : assembly_error → string;
  envRange : nat → nat → gset string → list string;
  envMaxReviewIterations : Z;
  envAutoApproveReview : option bool;
  envAutoStart : bool;
  envSandbox : option SandboxClient }.

Definition DefaultProjectSlug : string := "default".

(** ** Messages *)

Record ScenarioOrchestrationTrigger := MkTrigger {
  trPlanSlug : string;
  trTraceID : string;
  trRequirements : list Requirement;
  trScenarios : list Scenario;
  trStories : list Story;
  trForceRequirementIDs : list string;
  trPlanBranch : string }.

Record RecoveryRequested := MkRecoveryRequested {
  rrRecoveryID : string;
  rrLayer : string;
  rrSlug : string;
  rrRequirementID : string;
  rrAffectedRequirementIDs : list string;
  rrAffectedStoryIDs : list string;
  rrTaskID : string;
  rrLoopID : string;
  rrEscalationReason : string;
  rrLastFailureFeedback : string;
  rrPriorRecoveryID : string;
  rrTraceID : string }.

(** [Validate] returns nil. *)
Definition RecoveryRequested_Validate (r : RecoveryRequested) : bool :=
  (rrRecoveryID r !=? "") && ((rrLayer r =? "phase_local") || (rrLayer r =? "coordinator")) &&
  (rrSlug r !=? "") && (rrEscalationReason r !=? "").

Record QARequestedEvent := MkQARequestedEvent {
  qrSlug : string;
  qrPlanID : string;
  qrMode : QALevel;
  qrWorkspace : string;
  qrTestCommand : string;
  qrTimeoutSeconds : Z;
  qrTraceID : string }.

Inductive message :=
| MsgOrchestrate (t : ScenarioOrchestrationTrigger)
| MsgRecovery (r : RecoveryRequested)
| MsgCascade (proposalID slug : string)
| MsgQARequested (e : QARequestedEvent).

(** ** The world and the handler monad *)

Record World := MkWorld {
  wCache : gmap string Plan;
  wKV : option (gmap string Plan);
  wTick : nat;
  wOut : list message;
  wSandbox : list sandbox_call }.

Definition M (A : Type) : Type := World → World * A.

#[export] Instance M_ret : MRet M := λ A x w, (w, x).
#[export] Instance M_bind : MBind M := λ A B f m w, let (w', x) := m w in f x w'.

Definition read : M World := λ w, (w, w).

Definition set_cache (c : gmap string Plan) (w : World) : World :=
  MkWorld c (wKV w) (wTick w) (wOut w) (wSandbox w).
Definition set_kv (k : option (gmap string Plan)) (w : World) : World :=
  MkWorld (wCache w) k (wTick w) (wOut w) (wSandbox w).

Definition put_cache (p : Plan) : M () :=
  λ w, (set_cache (<[pSlug p := p]> (wCache w)) w, ()).
Definition put_kv (p : Plan) : M () :=
  λ w, (set_kv ((λ kv, <[pSlug p := p]> kv) <$> wKV w) w, ()).
Definition del_kv (slug : string) : M () :=
  λ w, (set_kv ((λ kv, delete slug kv) <$> wKV w) w, ()).
Definition send (m : message) : M () :=
  λ w, (MkWorld (wCache w) (wKV w) (wTick w) (wOut w ++ [m]) (wSandbox w), ()).
Definition set_sandbox (log : list sandbox_call) : M () :=
  λ w, (MkWorld (wCache w) (wKV w) (wTick w) (wOut w) log, ()).

(** The entry of a slug leaves the cache, deleted or expired. *)
Definition expire (slug : string) (w : World) : World :=
  set_cache (delete slug (wCache w)) w.
Definition del_cache (slug : string) : M () := λ w, (expire slug w, ()).

Inductive store_error :=
| PlanErr (e : plan_error)
| TransitionErr (from to : Status)
| CtxErr
| MarshalErr
| GraphErr.

Section store.
Context (E : Env).

(** The next interaction with the outside. *)
Definition tick : M io_outcome :=
  λ w, (MkWorld (wCache w) (wKV w) (S (wTick w)) (wOut w) (wSandbox w), envIO E (wTick w)).

Definition now : M Z := o ← tick; mret (ioNow o).

Definition NewContractPacket (slug brief : string) (scope : Scope) (constraints : list string)
    (t : Z) : ContractPacket :=
  {| cpID := envPlanContractID E slug; cpVersion := 1; cpBrief := brief;
     cpSourceRefs := [MkContractSourceRef "user_brief" slug ""]; cpConstraints := constraints;
     cpAcceptanceObligations := []; cpForbiddenMoves := [];
     cpScope := NewContractScopeSnapshot scope; cpTopologyFacts := []; cpAmendments := [];
     cpValidationFindings := []; cpCreatedAt := t |}.

Definition EnsureContractPacket (p : Plan) (brief : string) (t : Z) : Plan :=
  match pContract p with
  | Some _ => p
  | None => set_pContract
      (Some (NewContractPacket (pSlug p) brief (pScope p) (pConstraints p) t)) p
  end.

Definition ensureRuntimeContractFacts (p : Plan) : Plan :=
  match pContract p with
  | None => p
  | Some c =>
      if negb (is_nil (cpTopologyFacts c)) then p else
      let repoPath := TrimSpace (envRepoPath E) in
      if repoPath =? "" then p else
      match envDetect E repoPath with
      | None => p
      | Some facts => if is_nil facts then p else set_pContract (Some (set_cpTopologyFacts facts c)) p
      end
  end.

Definition get (slug : string) : M (option Plan) :=
  o ← tick; w ← read;
  match wCache w !! slug with
  | Some plan => mret (Some plan)
  | None =>
      match wKV w with
      | None => mret None
      | Some kv =>
          if ioKvGetErr o then mret None else
          match kv !! slug with
          | None => mret None
          | Some plan => put_cache plan;; mret (Some plan)
          end
      end
  end.

(** Only the cache is asked. *)
Definition exists_ (slug : string) : M bool :=
  w ← read; mret (bool_decide (is_Some (wCache w !! slug))).

Definition save (plan : Plan) : M (option store_error) :=
  o ← tick;
  match ValidateSlug (pSlug plan) with
  | Some e => mret (Some (PlanErr e))
  | None =>
      if ioCtxErr o then mret (Some CtxErr) else
      put_cache plan;;
      w ← read;
      if bool_decide (is_Some (wKV w)) && ioMarshalErr o then mret (Some MarshalErr) else
      (if ioKvPutErr o then mret () else put_kv plan);;
      if ioGraphErr o then mret (Some GraphErr) else mret None
  end.

Definition new_plan (slug title : string) (qaLevel : QALevel) (autoReject : option bool)
    (t : Z) : Plan :=
  {| pID := envPlanEntityID E slug; pSlug := slug; pTitle := title;
     pProjectID := envProjectEntityID E DefaultProjectSlug; pStatus := StatusOther "";
     pApproved := false; pCreatedAt := t; pApprovedAt := None; pReviewVerdict := "";
     pReviewSummary := ""; pReviewedAt := None; pReviewFindings := RawNil;
     pReviewFormattedFindings := ""; pReviewIteration := 0;
     pAutoRejectOnExhaustion := autoReject; pLastError := ""; pLastErrorAt := None;
     pGoal := ""; pContext := ""; pConstraints := []; pContract := None;
     pScope := MkScope [] [] [] []; pExploration := None; pExecutionTraceIDs := [];
     pLLMCallHistory := None; pSkipArchitecture := false; pArchitecture := None;
     pPreviousArchitectureJSON := ""; pPendingArchitectureRevision := None;
     pRequirements := []; pScenarios := []; pStories := []; pPlanDecisions := [];
     pGitHub := None; pQALevel := qaLevel; pQARun := None; pQAVerdictSummary := None;
     pAssembledBranch := ""; pAssembledMergeCommit := ""; pInfraHealth := "" |}.

Definition default_level (qaLevel : QALevel) : QALevel :=
  if qaLevel =? QALevelOther "" then QALevelSynthesis else qaLevel.

Definition create (slug title brief : string) (qaLevel : QALevel) (autoReject : option bool) :
    M (Plan + store_error) :=
  match ValidateSlug slug with
  | Some e => mret (inr (PlanErr e))
  | None =>
      if title =? "" then mret (inr (PlanErr ErrTitleRequired)) else
      ex ← exists_ slug;
      if ex : bool then mret (inr (PlanErr ErrPlanExists)) else
      t ← now;
      let plan := new_plan slug title (default_level qaLevel) autoReject t in
      let plan := EnsureContractPacket plan (if brief =? "" then title else brief) t in
      let plan := ensureRuntimeContractFacts plan in
      err ← save plan;
      mret (match err with Some e => inr e | None => inl plan end)
  end.

Definition createImported (plan : Plan) (qaLevel : QALevel) (autoReject : option bool) :
    M (option store_error) :=
  match ValidateSlug (pSlug plan) with
  | Some e => mret (Some (PlanErr e))
  | None =>
      if pTitle plan =? "" then mret (Some (PlanErr ErrTitleRequired)) else
      ex ← exists_ (pSlug plan);
      if ex : bool then mret (Some (PlanErr ErrPlanExists)) else
      t ← now;
      let plan := if pID plan =? "" then set_pID (envPlanEntityID E (pSlug plan)) plan else plan in
      let plan := if pProjectID plan =? ""
                  then set_pProjectID (envProjectEntityID E DefaultProjectSlug) plan else plan in
      let plan := if bool_decide (pCreatedAt plan = 0%Z) then set_pCreatedAt t plan else plan in
      let plan := match pContract plan with
                  | Some _ => plan
                  | None => EnsureContractPacket plan
                      (if pContext plan =? "" then pTitle plan else pContext plan) t
                  end in
      let plan := ensureRuntimeContractFacts plan in
      save (set_pApproved false (set_pAutoRejectOnExhaustion autoReject
              (set_pQALevel (default_level qaLevel) plan)))
  end.

Definition approve (plan : Plan) : M (option store_error) :=
  let current := EffectiveStatus plan in
  if negb (Status_CanTransitionTo current StatusApproved) then
    mret (Some (if pApproved plan then PlanErr ErrAlreadyApproved
                else TransitionErr current StatusApproved))
  else
    t ← now;
    save (set_pStatus StatusApproved (set_pApprovedAt (Some t) (set_pApproved true plan))).

(** [delete]; a failed delete in the bucket is ignored. *)
Definition delete_plan (slug : string) : M (option store_error) :=
  p ← get slug;
  match p with
  | None => mret (Some (PlanErr ErrPlanNotFound))
  | Some _ =>
      o ← tick;
      if ioGraphErr o then mret (Some GraphErr) else
      del_cache slug;;
      (if ioKvPutErr o then mret () else del_kv slug);;
      mret None
  end.

(** [setPlanStatusCached] also returns the plan, which the code updates in
    place, before saving and whatever the save answers. *)
Definition setPlanStatusCached (plan : Plan) (target : Status) : M (Plan * option store_error) :=
  let current := EffectiveStatus plan in
  if negb (Status_CanTransitionTo current target)
  then mret (plan, Some (TransitionErr current target))
  else
    let plan := set_pStatus target plan in
    err ← save plan;
    mret (plan, err).
End store.

(** ** What a reader sees *)

(** The plan [get] finds when the bucket answers. *)
Definition visible (w : World) (slug : string) : option Plan :=
  match wCache w !! slug with
  | Some p => Some p
  | None => kv ← wKV w; kv !! slug
  end.

(** A copy of the plan is kept under the slug. *)
Definition stored (w : World) (slug : string) (p : Plan) : Prop :=
  wCache w !! slug = Some p ∨ ∃ kv, wKV w = Some kv ∧ kv !! slug = Some p.

(** Every copy is kept under its own, valid slug. *)
Definition store_wf (w : World) : Prop :=
  ∀ s p, stored w s p → pSlug p = s ∧ ValidateSlug s = None.

Definition same_store (w w' : World) : Prop := wCache w' = wCache w ∧ wKV w' = wKV w.

(** [w'] comes from [w] by storing plans that satisfy [P] only. *)
Definition evolves (P : Plan → Prop) (w w' : World) : Prop :=
  store_wf w → store_wf w' ∧
  (∀ s p, stored w' s p → stored w s p ∨ P p) ∧
  (∀ s, visible w' s = visible w s ∨ ∃ p, visible w' s = Some p ∧ pSlug p = s ∧ P p).

(** ** Lemmas *)

Lemma visible_stored w s p : visible w s = Some p → stored w s p.
Proof.
  unfold visible, stored. destruct (wCache w !! s) eqn:E; [by left; simplify_eq|].
  destruct (wKV w) as [kv|] eqn:Ekv; simpl; [|done]. eauto.
Qed.

Lemma visible_slug w s p : store_wf w → visible w s = Some p → pSlug p = s.
Proof. intros Hwf H%visible_stored. by apply Hwf in H as [? _]. Qed.

Lemma evolves_same P w w' : same_store w w' → evolves P w w'.
Proof.
  intros [Hc Hk] Hwf.
  assert (Hst : ∀ s p, stored w' s p ↔ stored w s p) by (unfold stored; by rewrite Hc, Hk).
  split_and!.
  - intros s p ?%Hst. by apply Hwf.
  - intros s p ?%Hst. by left.
  - intros s. left. unfold visible. by rewrite Hc, Hk.
Qed.

Lemma evolves_refl P w : evolves P w w.
Proof. by apply evolves_same. Qed.

Lemma evolves_trans P w1 w2 w3 : evolves P w1 w2 → evolves P w2 w3 → evolves P w1 w3.
Proof.
  intros H12 H23 Hwf. destruct (H12 Hwf) as (Hwf2 & Hs2 & Hv2).
  destruct (H23 Hwf2) as (Hwf3 & Hs3 & Hv3). split_and!; [done| |].
  - intros s p [H|H]%Hs3; auto.
  - intros s. destruct (Hv3 s) as [->|]; auto.
Qed.

Lemma evolves_mono (P Q : Plan → Prop) w w' :
  (∀ p, P p → Q p) → evolves P w w' → evolves Q w w'.
Proof.
  intros HPQ H Hwf. destruct (H Hwf) as (? & Hs & Hv). split_and!; [done| |].
  - intros s p [?|?]%Hs; auto.
  - intros s. destruct (Hv s) as [?|(p & ? & ? & ?)]; eauto 6.
Qed.

(** Storing a plan in the cache, and in the bucket or not. *)
Lemma evolves_put (P : Plan → Prop) w w' p (inKV : bool) :
  P p → ValidateSlug (pSlug p) = None →
  wCache w' = <[pSlug p := p]> (wCache w) →
  wKV w' = (if inKV then (λ kv, <[pSlug p := p]> kv) <$> wKV w else wKV w) →
  evolves P w w'.
Proof.
  intros HP Hslug Hc Hk Hwf.
  assert (Hst : ∀ s q, stored w' s q → stored w s q ∨ (q = p ∧ s = pSlug p)).
  { intros s q. unfold stored. rewrite Hc, Hk. intros [[[<- <-]|[_ ?]]%lookup_insert_Some|(kv & Hkv & Hq)]; auto.
    destruct inKV; [|eauto]. destruct (wKV w) as [kv0|]; simplify_eq/=.
    apply lookup_insert_Some in Hq as [[<- <-]|[_ ?]]; eauto. }
  split_and!.
  - intros s q [?|[-> ->]]%Hst; [by apply Hwf|done].
  - intros s q [?|[-> ->]]%Hst; auto.
  - intros s. unfold visible. rewrite Hc, Hk.
    destruct (decide (s = pSlug p)) as [->|Hne].
    + rewrite lookup_insert_eq. eauto.
    + rewrite lookup_insert_ne by done. left. destruct (wCache w !! s); [done|].
      destruct inKV; [|done]. destruct (wKV w); simpl; [|done]. by rewrite lookup_insert_ne.
Qed.

(** A program that stores only plans satisfying [P]. *)
Definition writes {A} (P : Plan → Prop) (m : M A) : Prop := ∀ w, evolves P w (m w).1.

Lemma writes_ret {A} P (x : A) : writes P (mret x : M A).
Proof. intros w. apply evolves_refl. Qed.

Lemma writes_bind {A B} P (m : M A) (f : A → M B) :
  writes P m → (∀ x, writes P (f x)) → writes P (m ≫= f).
Proof.
  intros Hm Hf w. specialize (Hm w). unfold mbind, M_bind.
  destruct (m w) as [w1 x]. eapply evolves_trans; [done|]. apply Hf.
Qed.

Lemma writes_same {A} P (m : M A) : (∀ w, same_store w (m w).1) → writes P m.
Proof. intros H w. by apply evolves_same. Qed.

Definition ticked (w : World) : World :=
  MkWorld (wCache w) (wKV w) (S (wTick w)) (wOut w) (wSandbox w).

Section store_lemmas.
Context (E : Env).

Lemma exists_bind {A} slug (f : bool → M A) w :
  (exists_ slug ≫= f) w = f (bool_decide (is_Some (wCache w !! slug))) w.
Proof. done. Qed.

Lemma now_bind {A} (f : Z → M A) w :
  (now E ≫= f) w = f (ioNow (envIO E (wTick w))) (ticked w).
Proof. done. Qed.

Lemma save_cases plan w w' r : save E plan w = (w', r) →
  (same_store w w' ∧ is_Some r) ∨
  (ValidateSlug (pSlug plan) = None ∧ wCache w' = <[pSlug plan := plan]> (wCache w) ∧
   ∃ inKV : bool, wKV w' = if inKV then (λ kv, <[pSlug plan := plan]> kv) <$> wKV w else wKV w).
Proof.
  unfold save, tick, put_cache, put_kv, read, mbind, M_bind, mret, M_ret, same_store.
  intros H. destruct (ValidateSlug (pSlug plan)) as [e|] eqn:Hs; simplify_eq; [by left|].
  destruct (ioCtxErr _); simplify_eq; [by left|]. right. split; [done|].
  destruct (_ && ioMarshalErr _); simplify_eq; [by split; [|exists false]|].
  destruct (ioKvPutErr _), (ioGraphErr _); simplify_eq; split; try done;
    first [by exists false | by exists true].
Qed.

Lemma writes_save P plan : P plan → writes P (save E plan).
Proof.
  intros HP w. destruct (save E plan w) as [w' r] eqn:H.
  apply save_cases in H as [[? _]|(? & ? & inKV & ?)].
  - by apply evolves_same.
  - by eapply evolves_put.
Qed.

Lemma get_cases slug w w' r : store_wf w → get E slug w = (w', r) →
  (∀ s p, stored w' s p → stored w s p) ∧ (∀ s, visible w' s = visible w s) ∧
  match r with
  | Some p => visible w slug = Some p
  | None => wCache w !! slug = None
  end.
Proof.
  intros Hwf. unfold get, tick, put_cache, read, mbind, M_bind, mret, M_ret, visible, stored. simpl.
  destruct (wCache w !! slug) as [p|] eqn:Ec; [by intros; simplify_eq/=|].
  destruct (wKV w) as [kv|] eqn:Ekv; [|by intros; simplify_eq/=; rewrite ?Ekv].
  destruct (ioKvGetErr _); [by intros; simplify_eq/=; rewrite ?Ekv|].
  destruct (kv !! slug) as [p|] eqn:Ep; intros; simplify_eq/=; [|by rewrite ?Ekv].
  destruct (Hwf slug p) as [<- _]; [right; eauto|].
  split_and!; [| |done].
  - intros s q [[[<- <-]|[_ ?]]%lookup_insert_Some|]; eauto.
  - intros s. destruct (decide (s = pSlug p)) as [->|?].
    + by rewrite lookup_insert_eq, Ec.
    + by rewrite lookup_insert_ne.
Qed.

Lemma get_evolves P slug w : evolves P w (get E slug w).1.
Proof.
  intros Hwf. destruct (get E slug w) as [w' r] eqn:H. destruct (get_cases _ _ _ _ Hwf H) as (Hs & Hv & _).
  split_and!; simpl; [|by auto|by auto]. intros s p ?%Hs. by apply Hwf.
Qed.

Lemma writes_setStatus P plan target :
  (Status_CanTransitionTo (EffectiveStatus plan) target = true → P (set_pStatus target plan)) →
  writes P (setPlanStatusCached E plan target).
Proof.
  intros HP. unfold setPlanStatusCached. case_match eqn:H; [apply writes_ret|].
  apply negb_false_iff in H. apply writes_bind; [by apply writes_save, HP|]. intros. apply writes_ret.
Qed.
End store_lemmas.

(** ** Claims *)

(** A successful save is read back: the plan is served from the cache
    until its entry expires, and after that from the bucket, provided the
    bucket took the write.  A refused bucket write is only logged, so then
    the reader falls back to the version the bucket still holds, and the
    successful save is lost.  Other slugs are untouched. *)
Theorem save_read_back E E' plan w w1 :
  save E plan w = (w1, None) → ioKvGetErr (envIO E' (wTick w1)) = false →
  (get E' (pSlug plan) w1).2 = Some plan ∧
  (get E' (pSlug plan) (expire (pSlug plan) w1)).2 =
    (kv ← wKV w; if ioKvPutErr (envIO E (wTick w)) then kv !! pSlug plan else Some plan) ∧
  ∀ s, s ≠ pSlug plan → visible w1 s = visible w s.
Proof.
  unfold save, get, tick, put_cache, put_kv, read, visible, mbind, M_bind, mret, M_ret. intros H Hg.
  destruct (ValidateSlug (pSlug plan)); simplify_eq. destruct (ioCtxErr _); simplify_eq.
  destruct (_ && ioMarshalErr _); simplify_eq.
  destruct (ioKvPutErr _), (ioGraphErr _); simplify_eq; simpl in *;
    rewrite lookup_insert_eq, Hg, lookup_delete_eq; simpl.
  - split_and!; [done| |by intros s ?; rewrite lookup_insert_ne].
    destruct (wKV w) as [kv|]; simpl; [|done]. by destruct (kv !! pSlug plan).
  - split_and!; [done| |].
    + destruct (wKV w) as [kv|]; simpl; [|done]. by rewrite lookup_insert_eq.
    + intros s ?. rewrite lookup_insert_ne by done. destruct (wCache w !! s); [done|].
      destruct (wKV w); simpl; [|done]. by rewrite lookup_insert_ne.
Qed.

(** A concrete environment and world for the witnesses. *)
Definition quiet_io : io_outcome := MkIO 7 false false false false false false "id".
Definition sample_env (io : nat → io_outcome) (sb : option SandboxClient) : Env :=
  MkEnv io (λ s, "plan." +:+ s) (λ s, "project." +:+ s) (λ s, "contract." +:+ s) "" (λ _, None)
    (λ _, Some "{}") (λ s, s) (λ _, "merge failed") (λ _ _ X, elements X) 3 None true sb.
Definition world_with (ps : list Plan) : World :=
  MkWorld (map_of ((λ p, (pSlug p, p)) <$> ps)) (Some (map_of ((λ p, (pSlug p, p)) <$> ps))) 0 [] [].
Definition demo_plan (st : Status) : Plan :=
  set_pStatus st (new_plan (sample_env (λ _, quiet_io) None) "demo" "Demo" QALevelUnit None 1).

Lemma world_with_wf ps :
  Forall (λ p, ValidateSlug (pSlug p) = None) ps → store_wf (world_with ps).
Proof.
  rewrite Forall_forall. intros Hps s p Hst.
  assert (Hp : map_of ((λ p, (pSlug p, p)) <$> ps) !! s = Some p).
  { destruct Hst as [Hst|(kv & Hkv & Hst)]; [done|]. by injection Hkv as <-. }
  apply map_of_lookup_some in Hp. apply list_elem_of_fmap in Hp as (q & Hq & Hin).
  injection Hq as -> ->. by split; [|apply Hps].
Qed.

Lemma save_read_back_witness :
  let E := sample_env (λ _, MkIO 7 false false false true false false "id") None in
  let w := world_with [demo_plan StatusDrafted] in
  let p := demo_plan StatusReviewed in
  (get E "demo" (save E p w).1).2 = Some p ∧
  (get E "demo" (expire "demo" (save E p w).1)).2 = Some (demo_plan StatusDrafted).
Proof.
  intros E w p.
  destruct (save_read_back E E p w (save E p w).1) as (H1 & H2 & _).
  - vm_compute. reflexivity.
  - vm_compute. reflexivity.
  - split; [exact H1|]. refine (eq_trans H2 _). vm_compute. reflexivity.
Defined.

(** [create] looks for an existing plan in the cache only.  A cached slug
    is refused and nothing changes; but a plan whose cache entry has expired
    is silently replaced: [create] succeeds and the fresh, empty plan is all
    a reader sees, whatever the bucket held under that slug. *)
Theorem create_checks_cache_only E slug title brief level auto w :
  ValidateSlug slug = None → title ≠ "" →
  let o := envIO E (S (wTick w)) in
  ioCtxErr o = false → ioMarshalErr o = false → ioGraphErr o = false →
  match wCache w !! slug with
  | Some _ => create E slug title brief level auto w = (w, inr (PlanErr ErrPlanExists))
  | None => ∃ w' plan, create E slug title brief level auto w = (w', inl plan) ∧
      visible w' slug = Some plan ∧ pRequirements plan = [] ∧ pStories plan = [] ∧
      EffectiveStatus plan = StatusCreated
  end.
Proof.
  intros Hslug Htitle o Hc Hm Hg. apply (eqb_false title) in Htitle.
  unfold create. rewrite Hslug, Htitle, exists_bind.
  destruct (wCache w !! slug) as [p|] eqn:Ec.
  { by rewrite bool_decide_true by (by eexists). }
  rewrite bool_decide_false by (by intros [? ?]). rewrite now_bind.
  set (plan := ensureRuntimeContractFacts _ _).
  assert (Hp : pSlug plan = slug ∧ pRequirements plan = [] ∧ pStories plan = [] ∧
    EffectiveStatus plan = StatusCreated).
  { unfold plan, ensureRuntimeContractFacts. repeat case_match; done. }
  destruct Hp as (Hs & Hr & Hst & He). simpl.
  unfold save, tick, put_cache, put_kv, read, mbind, M_bind, mret, M_ret. rewrite Hs, Hslug.
  fold o. simpl. fold o. rewrite Hc, Hm, Hg, andb_false_r.
  exists (if ioKvPutErr o then
            MkWorld (<[slug := plan]> (wCache w)) (wKV w) (S (S (wTick w))) (wOut w) (wSandbox w)
          else MkWorld (<[slug := plan]> (wCache w)) ((λ kv, <[slug := plan]> kv) <$> wKV w)
                 (S (S (wTick w))) (wOut w) (wSandbox w)), plan.
  destruct (ioKvPutErr o); unfold visible; simpl; rewrite lookup_insert_eq; done.
Qed.

Lemma create_checks_cache_only_witness :
  let E := sample_env (λ _, quiet_io) None in
  let w := expire "demo" (world_with [set_pGoal "built" (demo_plan StatusComplete)]) in
  (pGoal <$> visible w "demo") = Some "built" ∧
  ∃ w' plan, create E "demo" "Demo again" "" QALevelUnit None w = (w', inl plan) ∧
    visible w' "demo" = Some plan ∧ pRequirements plan = [] ∧ pStories plan = [] ∧
    EffectiveStatus plan = StatusCreated.
Proof.
  intros E w. split; [vm_compute; reflexivity|].
  exact (create_checks_cache_only E "demo" "Demo again" "" QALevelUnit None w
    ltac:(vm_compute; reflexivity) ltac:(discriminate) ltac:(vm_compute; reflexivity)
    ltac:(vm_compute; reflexivity) ltac:(vm_compute; reflexivity)).
Defined.

(** A save that reports a graph or encoding error has already replaced the
    plan a reader sees. *)
Theorem failed_save_visible E plan w w1 e :
  save E plan w = (w1, Some e) → e = GraphErr ∨ e = MarshalErr →
  visible w1 (pSlug plan) = Some plan.
Proof.
  intros H He. destruct (save_cases _ _ _ _ _ H) as [[_ _]|(_ & Hc & _)].
  - revert H. unfold save, tick, put_cache, put_kv, read, visible, mbind, M_bind, mret, M_ret.
    destruct (ValidateSlug (pSlug plan)) as [err|]; [intros; simplify_eq; by destruct He|].
    destruct (ioCtxErr _); [intros; simplify_eq; by destruct He|].
    destruct (_ && ioMarshalErr _);
      [|destruct (ioKvPutErr _), (ioGraphErr _)]; intros; simplify_eq; simpl; by rewrite lookup_insert_eq.
  - unfold visible. by rewrite Hc, lookup_insert_eq.
Qed.
