(* ===== verification/Reviews.v ===== *)
(** * Review findings

    workflow/plan_review_result.go and the review helpers of
    processor/plan-manager/mutations.go: rendering, accumulation across
    revision rounds, and the re-entry points of a rejected review. *)

From S2P Require Import Prelude Status Paths Types PlanStore.

Local Open Scope string_scope.
Local Open Scope go_scope.

#[export] Instance PlanReviewFinding_eq_dec : EqDecision PlanReviewFinding.
Proof. solve_decision. Defined.

(** ** Results *)

Record PlanReviewResult := MkPlanReviewResult {
  rvVerdict : string;
  rvSummary : string;
  rvFindings : list PlanReviewFinding }.

Definition error_finding (f : PlanReviewFinding) : bool :=
  (prfSeverity f =? "error") && (prfStatus f =? "violation").

Definition ErrorFindings (r : PlanReviewResult) : list PlanReviewFinding :=
  filter (λ f, error_finding f = true) (rvFindings r).

Definition NormalizeVerdict (r : PlanReviewResult) : PlanReviewResult :=
  if negb (is_nil (ErrorFindings r))
  then MkPlanReviewResult "needs_changes" (rvSummary r) (rvFindings r)
  else if rvVerdict r =? "needs_changes"
  then MkPlanReviewResult "approved" (rvSummary r) (rvFindings r)
  else r.

(** ** Rendering *)

Definition nl : string := String (byte 10) "".

Definition findingHeader (f : PlanReviewFinding) : string :=
  let parts :=
    ((if (prfSOPTitle f !=? "") && (prfSOPTitle f !=? "n/a") then [prfSOPTitle f]
     else if prfCategory f !=? "" then ["category=" +:+ prfCategory f] else [])
    ++ (if prfPhase f !=? "" then ["phase=" +:+ prfPhase f] else [])
    ++ (if prfTargetID f !=? "" then ["target=" +:+ prfTargetID f] else []))%list in
  if is_nil parts then "(no detail)" else Join parts " ".

Section render.
Context (ToUpper : string → string).

Definition formatActionDirective (f : PlanReviewFinding) : string :=
  let verb := ToUpper (TrimSpace (prfAction f)) in
  let value := TrimSpace (prfTargetValue f) in
  let field := TrimSpace (prfTargetField f) in
  if (value !=? "") && (field !=? "") then
    if (verb =? "ADD") || (verb =? "MOVE")
    then verb +:+ " `" +:+ value +:+ "` TO `" +:+ field +:+ "`"
    else if verb =? "REMOVE"
    then "REMOVE `" +:+ value +:+ "` FROM `" +:+ field +:+ "`"
    else verb +:+ " `" +:+ value +:+ "` IN `" +:+ field +:+ "`"
  else if value !=? "" then verb +:+ " `" +:+ value +:+ "`"
  else if field !=? "" then verb +:+ " in `" +:+ field +:+ "`"
  else verb.

Definition line_if (field label text : string) : string :=
  if field !=? "" then "  - " +:+ label +:+ ": " +:+ text +:+ nl else "".

Definition writeViolationFinding (f : PlanReviewFinding) : string :=
  "- **[" +:+ ToUpper (prfSeverity f) +:+ "]** " +:+ findingHeader f +:+ nl
  +:+ line_if (prfAction f) "Action" (formatActionDirective f)
  +:+ line_if (prfIssue f) "Issue" (prfIssue f)
  +:+ line_if (prfEvidence f) "Evidence" (prfEvidence f)
  +:+ line_if (prfSuggestion f) "Suggestion" (prfSuggestion f)
  +:+ nl.

Definition FormatFindings (findings : list PlanReviewFinding) : string :=
  if is_nil findings then "No findings." else
  let violations := filter (λ f, prfStatus f = "violation") findings in
  let compliant := filter (λ f, prfStatus f = "compliant") findings in
  (if is_nil violations then ""
   else "### Violations" +:+ nl +:+ nl +:+ Join (writeViolationFinding <$> violations) "")
  +:+ (if is_nil compliant then ""
       else "### Compliant" +:+ nl +:+ nl
              +:+ Join ((λ f, "- " +:+ findingHeader f +:+ nl) <$> compliant) "" +:+ nl).

(** Text that does not parse is replaced by the summary. *)
Definition formatReviewFindings (findings : RawFindings) (summary : string) : string :=
  match findings with
  | RawArray fs => FormatFindings fs
  | _ => summary
  end.
End render.

(** ** Accumulation across rounds *)

Definition roundPhases (round : Z) : option (gset string) :=
  if bool_decide (round = 1%Z) then Some {["plan"]}
  else if bool_decide (round = 2%Z) then Some {["scenarios"; "stories"]}
  else if bool_decide (round = 3%Z) then Some {["architecture"]}
  else if bool_decide (round = 4%Z) then Some {["requirements"]}
  else None.

(** The identity of a finding: its free text is blanked. *)
Definition keyOf (f : PlanReviewFinding) : PlanReviewFinding :=
  set_prfIssue "" (set_prfSuggestion "" (set_prfEvidence "" f)).

Definition merge_one (merged : list PlanReviewFinding) (f : PlanReviewFinding) :
    list PlanReviewFinding :=
  if bool_decide (keyOf f ∈ keyOf <$> merged) then merged else (merged ++ [f])%list.

Definition in_round (phases : option (gset string)) (f : PlanReviewFinding) : bool :=
  match phases with
  | None => true
  | Some ps => bool_decide (prfPhase f ∈ ps)
  end.

Definition prior_of (existing : RawFindings) : list PlanReviewFinding :=
  match existing with RawArray fs => fs | _ => [] end.

Definition mergeReviewFindings (existing incoming : RawFindings) (round : Z) : RawFindings :=
  match incoming with
  | RawArray next =>
      let prior := filter (λ f, in_round (roundPhases round) f = true) (prior_of existing) in
      RawArray (foldl merge_one (foldl merge_one [] prior) next)
  | _ => existing
  end.

(** ** Re-entry *)

Definition clear_all (p : Plan) : Plan :=
  set_pScenarios [] (set_pStories [] (set_pArchitecture None (set_pRequirements [] p))).

Section reentry.
Context (E : Env).

Definition reenterArchitecturePhase (p : Plan) : Plan * Status :=
  let p := match pArchitecture p with
           | Some a => match envMarshalArch E a with
                       | Some b => set_pPreviousArchitectureJSON b p
                       | None => p
                       end
           | None => set_pPreviousArchitectureJSON "" p
           end in
  (set_pScenarios [] (set_pStories [] (set_pArchitecture None p)), StatusRequirementsGenerated).

Definition reenterRequirementsPhase (p : Plan) : Plan * Status :=
  (clear_all p, StatusApproved).

Definition determineR2ReentryPoint (p : Plan) (findings : RawFindings) : Plan * Status :=
  let p := set_pPreviousArchitectureJSON "" p in
  match findings with
  | RawArray fs =>
      let phaseHit := prfPhase <$> filter (λ f, error_finding f = true ∧ prfPhase f ≠ "") fs in
      if is_nil phaseHit then (clear_all p, StatusApproved)
      else if bool_decide ("plan" ∈ phaseHit) then (clear_all p, StatusCreated)
      else if bool_decide ("requirements" ∈ phaseHit) then reenterRequirementsPhase p
      else if bool_decide ("architecture" ∈ phaseHit) then reenterArchitecturePhase p
      else if bool_decide ("stories" ∈ phaseHit)
      then (set_pScenarios [] (set_pStories [] p), StatusArchitectureGenerated)
      else if bool_decide ("scenarios" ∈ phaseHit)
      then (set_pScenarios [] p, StatusArchitectureGenerated)
      else (clear_all p, StatusApproved)
  | _ => (clear_all p, StatusApproved)
  end.
End reentry.

(** [refreshApprovedReviewMetadata] *)
Definition refreshApprovedReviewMetadata (p : Plan) (summary : string) (t : Z) : Plan :=
  let p := set_pReviewVerdict "approved" p in
  let p := if summary !=? "" then set_pReviewSummary summary p else p in
  set_pReviewedAt (Some t) (set_pReviewFormattedFindings "" (set_pReviewFindings RawNil p)).

Definition planHasAcceptedStoryReprepareDecision (p : Plan) : bool :=
  existsb (λ d, (dStatus d =? PlanDecisionStatusAccepted) && (dKind d =? PlanDecisionKindStoryReprepare))
    (pPlanDecisions p).

(** ** Lemmas *)

Lemma foldl_merge_keys l merged :
  NoDup (keyOf <$> merged) →
  NoDup (keyOf <$> foldl merge_one merged l) ∧
  (∃ extra, foldl merge_one merged l = (merged ++ extra)%list ∧ extra ⊆ l) ∧
  (∀ f, f ∈ l → keyOf f ∈ keyOf <$> foldl merge_one merged l).
Proof.
  revert merged. induction l as [|f l IH]; intros merged Hnd; simpl.
  - split_and!; [done|exists []; by rewrite app_nil_r|by intros f ?%not_elem_of_nil].
  - assert (Hm : NoDup (keyOf <$> merge_one merged f) ∧ (keyOf f ∈ keyOf <$> merge_one merged f) ∧
      ∃ x, merge_one merged f = (merged ++ x)%list ∧ x ⊆ [f]).
    { unfold merge_one. case_bool_decide as Hin.
      - split_and!; [done|done|]. exists []. rewrite app_nil_r. split; [done|]. intros z Hz. by apply not_elem_of_nil in Hz.
      - rewrite fmap_app. split_and!; [|by apply elem_of_app; right; left|by exists [f]].
        apply NoDup_app. split_and!; [done| |apply NoDup_singleton].
        intros k Hk1 Hk2. simpl in Hk2. apply list_elem_of_singleton in Hk2. by subst k. }
    destruct Hm as (Hnd1 & Hf & x & Hx & Hxf).
    destruct (IH _ Hnd1) as (H1 & (extra & H2 & H3) & H4). split_and!; [done| |].
    + exists (x ++ extra)%list. rewrite H2, Hx, <- app_assoc. split; [done|].
      intros z [Hz|Hz]%elem_of_app; [|right; auto]. apply Hxf in Hz. apply list_elem_of_singleton in Hz as ->. left.
    + intros g [->|Hg]%elem_of_cons; [|auto]. rewrite H2, fmap_app. apply elem_of_app. by left.
Qed.

(** ** Claims *)

(** Findings accumulate within a review phase: after merging a parsable
    round, every incoming finding and every prior finding of the round's own
    phases is present (up to its free text), the prior ones first and in
    order, no identity twice, and nothing else: a finding leaked from another
    phase disappears.  Unparsable input leaves the accumulated set alone. *)
Theorem mergeReviewFindings_spec existing incoming round :
  match incoming with
  | RawArray next => ∃ merged, mergeReviewFindings existing incoming round = RawArray merged ∧
      NoDup (keyOf <$> merged) ∧
      (∀ f, f ∈ next → keyOf f ∈ keyOf <$> merged) ∧
      (∀ f, f ∈ prior_of existing → in_round (roundPhases round) f = true →
         keyOf f ∈ keyOf <$> merged) ∧
      (∃ kept new, merged = (kept ++ new)%list ∧ new ⊆ next ∧
         ∀ f, f ∈ kept → f ∈ prior_of existing ∧ in_round (roundPhases round) f = true)
  | _ => mergeReviewFindings existing incoming round = existing
  end.
Proof.
  destruct incoming as [|raw|next]; [done|done|]. simpl.
  set (prior := filter _ (prior_of existing)).
  destruct (foldl_merge_keys prior [] (NoDup_nil_2)) as (Hnd1 & (e1 & He1 & Hs1) & Hk1).
  destruct (foldl_merge_keys next _ Hnd1) as (Hnd2 & (e2 & He2 & Hs2) & Hk2).
  eexists. split; [done|]. split_and!; [done|done| |].
  - intros f Hf Hr. rewrite He2, fmap_app. apply elem_of_app. left. apply Hk1.
    by apply list_elem_of_filter.
  - exists (foldl merge_one [] prior), e2. split_and!; [done|done|].
    intros f Hf. rewrite He1 in Hf. simpl in Hf. apply Hs1, list_elem_of_filter in Hf. tauto.
Qed.

(** A normalized verdict agrees with the findings: it is [needs_changes]
    exactly when some finding is an error-severity violation, so a review can
    neither approve over its own errors nor reject without one; normalizing
    twice changes nothing. *)
Theorem NormalizeVerdict_consistent r :
  (rvVerdict (NormalizeVerdict r) = "needs_changes" ↔
     ∃ f, f ∈ rvFindings r ∧ prfSeverity f = "error" ∧ prfStatus f = "violation") ∧
  rvFindings (NormalizeVerdict r) = rvFindings r ∧
  NormalizeVerdict (NormalizeVerdict r) = NormalizeVerdict r.
Proof.
  assert (Herr : is_nil (ErrorFindings r) = false ↔
    ∃ f, f ∈ rvFindings r ∧ prfSeverity f = "error" ∧ prfStatus f = "violation").
  { rewrite is_nil_false. unfold ErrorFindings. split.
    - intros Hne. destruct (filter _ (rvFindings r)) as [|f fs] eqn:E; [done|].
      assert (Hf : f ∈ filter (λ f, error_finding f = true) (rvFindings r)) by (rewrite E; left).
      apply list_elem_of_filter in Hf as [Hf ?]. exists f. unfold error_finding in Hf. by breflect.
    - intros (f & Hf & H1 & H2) E.
      assert (Hin : f ∈ filter (λ f, error_finding f = true) (rvFindings r)).
      { apply list_elem_of_filter. split; [|done]. unfold error_finding. by rewrite H1, H2. }
      rewrite E in Hin. by apply not_elem_of_nil in Hin. }
  rewrite <- Herr. unfold NormalizeVerdict.
  destruct (is_nil (ErrorFindings r)) eqn:E; simpl.
  - destruct (rvVerdict r =? "needs_changes") eqn:Ev; simpl.
    + unfold ErrorFindings in *. simpl. rewrite E. done.
    + rewrite E, Ev. apply (proj1 (eqb_false _ _)) in Ev. done.
  - unfold ErrorFindings in *. simpl. rewrite E. done.
Qed.
