(* ===== verification/Mutations.v ===== *)
(** * Mutation handlers of the plan manager

    processor/plan-manager/mutations.go: the plan manager is the single
    writer of plans; every other component sends it a mutation.  A handler
    validates the request, takes the slug's lock, reads the plan, checks the
    status transition, updates its copy and saves it.  The lock makes a
    handler one step with respect to its slug, so a handler is a function of
    the world; a request is [None] when its JSON does not parse. *)

From stdpp Require Import pretty.
From S2P Require Import Prelude Status Paths Types Stories Scheduling Assembly PlanStore Reviews.

Local Open Scope string_scope.
Local Open Scope go_scope.

(** ** Requests *)

Record RequirementsMutationRequest := MkRequirementsReq {
  rqSlug : string; rqRequirements : list Requirement; rqTraceID : string }.

Record ScenariosMutationRequest := MkScenariosReq {
  sqSlug : string; sqRequirementID : string; sqStoryID : string;
  sqScenarios : list Scenario; sqTraceID : string }.

Record ExploredMutationRequest := MkExploredReq {
  eqSlug : string; eqExploration : Exploration; eqTraceID : string }.

Record DraftedMutationRequest := MkDraftedReq {
  dqSlug : string; dqTitle : string; dqGoal : string; dqContext : string;
  dqConstraints : list string; dqScope : option Scope; dqSkipArchitecture : bool;
  dqTraceID : string }.

Record architectureMutationRequest := MkArchitectureReq {
  aqSlug : string; aqArchitecture : option ArchitectureDocument; aqTraceID : string }.

Record storiesMutationRequest := MkStoriesReq {
  tqSlug : string; tqStories : list Story; tqStoryCount : Z; tqTraceID : string }.

Record ReviewedMutationRequest := MkReviewedReq {
  vqSlug : string; vqVerdict : string; vqSummary : string; vqTraceID : string }.

Record ApprovedMutationRequest := MkApprovedReq { pqSlug : string; pqTraceID : string }.

Record GenerationFailedRequest := MkGenerationFailedReq {
  gqSlug : string; gqPhase : string; gqError : string; gqTraceID : string }.

Record StoryStatusMutationRequest := MkStoryStatusReq {
  ssqSlug : string; ssqStoryID : string; ssqTarget : StoryStatus; ssqTraceID : string }.

Record ClaimMutationRequest := MkClaimReq { cqSlug : string; cqStatus : Status }.

Record RevisionMutationRequest := MkRevisionReq {
  nqSlug : string; nqRound : Z; nqVerdict : string; nqSummary : string;
  nqFindings : RawFindings; nqTraceID : string }.

(** The anonymous request of the three [*_reviewed] mutations. *)
Record reviewedRequest := MkPhaseReviewedReq { wqSlug : string; wqSummary : string }.

Record ReadyForExecutionMutationRequest := MkReadyReq { yqSlug : string; yqTraceID : string }.

Record qaStartRequest := MkQAStartReq {
  qsSlug : string; qsPlanID : string; qsQARun : option QARun }.

Record QAVerdictEvent := MkQAVerdictEvent {
  qvSlug : string; qvPlanID : string; qvLevel : QALevel; qvVerdict : QAVerdict;
  qvSummary : string; qvDimensions : QAVerdictDimensions; qvPlanDecisions : list PlanDecision;
  qvPlanDecisionIDs : list string; qvReviewerError : string; qvTraceID : string }.

Record reviewApproveRequest := MkReviewApproveReq { zqSlug : string; zqReviewer : string }.

(** ** Replies *)

(** [MutationResponse]: [None] is success, and an error says which guard of
    the handler refused. *)
Inductive scoped_merge_error :=
| ScopeEmpty
| StoryOutsideScope (story : string) (outside : list string)
| NoScopedStories (reqs : list string)
| MergedScheduling (e : story_error)
| MergedStories (e : story_error).

Inductive exec_error :=
| ExecReady (e : store_error)
| ExecNoRequirements
| ExecNoScenarios
| ExecImplementing (e : store_error)
| ExecTrigger.

Inductive mutation_error :=
| Unmarshal
| MissingFields
| PlanNotFound
| InvalidTransition (from to : Status)
| InvalidStories (e : story_error)
| InvalidCapabilities (e : cap_error)
| ScopedMerge (e : scoped_merge_error)
| ScopeShrinkage (missing : list string)
| InvalidTarget
| StoryNotFound (id : string)
| InvalidStoryTransition (from to : StoryStatus)
| NotClaimable (target : Status)
| BadRound
| BadVerdict
| WrongStatus (got : Status)
| SaveFailed (e : store_error)
| AdvanceFailed (e : exec_error)
| MergeFailed (e : assembly_error).

Definition reply : Type := option mutation_error.

(** The handler said no before it stored anything. *)
Definition refused (r : reply) : bool :=
  match r with
  | None | Some (SaveFailed _) | Some (AdvanceFailed _) | Some (MergeFailed _) => false
  | Some _ => true
  end.

(** ** Pure helpers *)

Definition stringSet (ids : list string) : gset string :=
  list_to_set (filter (λ id, id ≠ "") ids).

Definition storyTouchesRequirements (story : Story) (reqSet : gset string) : bool :=
  existsb (λ id, bool_decide (id ∈ reqSet)) (sRequirementIDs story).

Definition storyRequirementsOutsideScope (story : Story) (reqSet : gset string) : list string :=
  sort_strings (filter (λ id, id ≠ "" ∧ (id ∉ reqSet)) (sRequirementIDs story)).

Definition dropOrphanScenarios (scenarios : list Scenario) (stories : list Story) :
    list Scenario :=
  let valid := stringSet (sID <$> stories) in
  filter (λ sc, scStoryID sc = "" ∨ scStoryID sc ∈ valid) scenarios.

(** The emitted stories kept for a scoped revision: those in scope. *)
Fixpoint accept_stories (reqSet : gset string) (emitted : list Story) :
    list Story + scoped_merge_error :=
  match emitted with
  | [] => inl []
  | story :: emitted =>
      if negb (storyTouchesRequirements story reqSet) then accept_stories reqSet emitted
      else
        let outside := storyRequirementsOutsideScope story reqSet in
        if negb (is_nil outside) then inr (StoryOutsideScope (sID story) outside)
        else match accept_stories reqSet emitted with
             | inl accepted => inl (story :: accepted)
             | inr e => inr e
             end
  end.

Definition in_revision (scope : ArchitectureRevisionScope) (story : Story) : bool :=
  bool_decide (sID story ∈ stringSet (arsStoryIDs scope)) ||
  storyTouchesRequirements story (stringSet (arsRequirementIDs scope)).

Definition mergeStoriesForScopedArchitectureRevision (range : nat → gset string → list string)
    (plan : Plan) (scope : ArchitectureRevisionScope) (emitted : list Story) :
    list Story * list string + scoped_merge_error :=
  let reqSet := stringSet (arsRequirementIDs scope) in
  if bool_decide (size reqSet = 0) then inr ScopeEmpty else
  let removed := sID <$> filter (λ s, in_revision scope s = true) (pStories plan) in
  let kept := filter (λ s, in_revision scope s = false) (pStories plan) in
  match accept_stories reqSet emitted with
  | inr e => inr e
  | inl accepted =>
      if is_nil accepted then inr (NoScopedStories (arsRequirementIDs scope)) else
      match DeriveStoryScheduling range (kept ++ accepted)%list (pRequirements plan) with
      | (_, Some e) => inr (MergedScheduling e)
      | (merged, None) =>
          match ValidateStories merged with
          | Some e => inr (MergedStories e)
          | None => inl (merged, sort_strings removed)
          end
      end
  end.

Definition removeScenariosForScopedArchitectureRevision (scenarios : list Scenario)
    (scope : ArchitectureRevisionScope) (storyIDs : list string) : list Scenario :=
  let reqSet := stringSet (arsRequirementIDs scope) in
  let storySet := stringSet storyIDs ∪ stringSet (arsStoryIDs scope) in
  filter (λ sc, (scStoryID sc ∉ storySet) ∧ (scRequirementID sc ∉ reqSet)) scenarios.

(** One path of [ensureScopeCreateCoversStories]: [have] grows with [Create]. *)
Definition cover_path (st : gset string * list string) (p : string) : gset string * list string :=
  let '(have, create) := st in
  if p =? "" then st
  else if bool_decide (p ∈ have) then st
  else ({[p]} ∪ have, (create ++ [p])%list).

Definition ensureScopeCreateCoversStories (scope : Scope) (stories : list Story) : Scope :=
  let have : gset string := list_to_set (scpInclude scope) ∪ list_to_set (scpCreate scope) in
  let create := (foldl cover_path (have, scpCreate scope) (stories ≫= sFilesOwned)).2 in
  if bool_decide (length create = length (scpCreate scope)) then scope
  else set_scpCreate (sort_strings create) scope.

Definition scenarioMatchesMutationScope (existing : Scenario) (req : ScenariosMutationRequest) :
    bool :=
  (scRequirementID existing =? sqRequirementID req) &&
  ((sqStoryID req =? "") || (scStoryID existing =? sqStoryID req)).

Definition merge_scenarios (plan : Plan) (req : ScenariosMutationRequest) : Plan :=
  if is_nil (sqScenarios req) then plan
  else set_pScenarios (filter (λ s, scenarioMatchesMutationScope s req = false) (pScenarios plan)
                       ++ sqScenarios req)%list plan.

Definition all_covered (plan : Plan) : bool :=
  forallb (λ r, existsb (λ s, scRequirementID s =? rID r) (pScenarios plan)) (pRequirements plan).

Definition uniqueSortedStrings (values : list string) : list string :=
  sorted_elements (stringSet values).

(** ** Contract scope *)

Definition contractScopeSnapshotEmpty (scope : ContractScopeSnapshot) : bool :=
  is_nil (cssInclude scope) && is_nil (cssExclude scope) && is_nil (cssDoNotTouch scope) &&
  is_nil (cssCreate scope).

Definition scopePathSet (paths : list string) : gset string := list_to_set (NormalizeFilePaths paths).

Definition scopeActiveSet (create include : list string) : gset string :=
  scopePathSet (create ++ include)%list.

(** An obligation: its origin and its normalized path. *)
Definition add_obligation (out : list (string * string)) (o : string * string) :
    list (string * string) :=
  let p := NormalizeFilePath o.2 in
  if p =? "" then out
  else if bool_decide ((o.1, p) ∈ out) then out
  else (out ++ [(o.1, p)])%list.

Definition contractScopeDropObligations (scope : ContractScopeSnapshot) : list (string * string) :=
  foldl add_obligation []
    ((pair "create" <$> cssCreate scope) ++ (pair "include" <$> cssInclude scope)
     ++ (pair "do_not_touch" <$> cssDoNotTouch scope))%list.

Definition scope_prefixes : list string :=
  ["scope:"; "scope.create:"; "scope.include:"; "scope.do_not_touch:"; "contract.scope:";
   "contract.scope.create:"; "contract.scope.include:"; "contract.scope.do_not_touch:"].

Definition addChangedScopeID (out : gset string) (raw : string) : gset string :=
  let id := TrimSpace raw in
  if id =? "" then out else
  out ∪ {[id]} ∪ scopePathSet [id]
    ∪ scopePathSet ((λ prefix, TrimPrefix id prefix)
                      <$> filter (λ prefix, HasPrefix id prefix = true) scope_prefixes).

Definition contractChangedScopeIDs (contract : ContractPacket) : gset string :=
  foldl addChangedScopeID ∅
    (am ← filter (λ am, ciKind (caImpact am) = ContractImpactChange) (cpAmendments contract);
     ciAffectedIDs (caImpact am)).

Definition contractScopeDropAmended (origin path : string) (amended : gset string) : bool :=
  existsb (λ c, bool_decide (c ∈ amended))
    [path; "scope:" +:+ path; "scope." +:+ origin +:+ ":" +:+ path; "contract.scope:" +:+ path;
     "contract.scope." +:+ origin +:+ ":" +:+ path].

Definition obligation_present (next : Scope) (o : string * string) : bool :=
  if o.1 =? "do_not_touch" then bool_decide (o.2 ∈ scopePathSet (scpDoNotTouch next))
  else bool_decide (o.2 ∈ scopeActiveSet (scpCreate next) (scpInclude next)).

Definition unauthorizedContractScopeDrops (contract : option ContractPacket) (next : Scope) :
    list string :=
  match contract with
  | None => []
  | Some c =>
      let amended := contractChangedScopeIDs c in
      sort_strings ((λ o, "contract.scope." +:+ o.1 +:+ ":" +:+ o.2) <$>
        filter (λ o, contractScopeDropAmended o.1 o.2 amended = false ∧
                     obligation_present next o = false)
          (contractScopeDropObligations (cpScope c)))
  end.

(** The part of [handleDraftedMutation] that reconciles the contract with the
    drafted scope: the updated plan, or the dropped obligations. *)
Definition draft_scope (req : DraftedMutationRequest) (plan : Plan) : Plan + list string :=
  match dqScope req with
  | None => inl plan
  | Some scope =>
      match pContract plan with
      | Some c =>
          if contractScopeSnapshotEmpty (cpScope c)
          then inl (set_pScope scope
                      (set_pContract (Some (set_cpScope (NewContractScopeSnapshot scope) c)) plan))
          else
            let missing := unauthorizedContractScopeDrops (pContract plan) scope in
            if is_nil missing then inl (set_pScope scope plan) else inr missing
      | None => inl (set_pScope scope plan)
      end
  end.

(** ** Handlers *)

Definition QALevel_String (l : QALevel) : string :=
  match l with
  | QALevelNone => "none" | QALevelSynthesis => "synthesis" | QALevelUnit => "unit"
  | QALevelIntegration => "integration" | QALevelOther raw => raw
  end.

Definition QAVerdict_String (v : QAVerdict) : string :=
  match v with
  | QAVerdictApproved => "approved" | QAVerdictConditionallyApproved => "conditionally_approved"
  | QAVerdictNeedsChanges => "needs_changes" | QAVerdictRejected => "rejected"
  | QAVerdictOther raw => raw
  end.

Definition can (plan : Plan) (target : Status) : bool :=
  Status_CanTransitionTo (EffectiveStatus plan) target.

Section handlers.
Context (E : Env).

(** Take the lock, read the plan, go on. *)
Definition with_plan (slug : string) (k : Plan → M reply) : M reply :=
  p ← get E slug;
  match p with
  | None => mret (Some PlanNotFound)
  | Some plan => k plan
  end.

Definition save_reply (plan : Plan) : M reply :=
  err ← save E plan; mret (SaveFailed <$> err).

(** [if !current.CanTransitionTo(target) { return invalid transition }] *)
Definition guard_transition (plan : Plan) (target : Status) (k : M reply) : M reply :=
  if can plan target then k
  else mret (Some (InvalidTransition (EffectiveStatus plan) target)).

Definition handleExploredMutation (data : option ExploredMutationRequest) : M reply :=
  match data with
  | None => mret (Some Unmarshal)
  | Some req =>
      if eqSlug req =? "" then mret (Some MissingFields)
      else if is_nil (exCapabilities (eqExploration req)) then mret (Some MissingFields)
      else match ValidateCapabilitySet (exCapabilities (eqExploration req)) with
      | Some e => mret (Some (InvalidCapabilities e))
      | None =>
          with_plan (eqSlug req) (λ plan,
            guard_transition plan StatusExplored
              (save_reply (set_pStatus StatusExplored (set_pExploration (Some (eqExploration req)) plan))))
      end
  end.

(** The fields of the draft before its scope is reconciled. *)
Definition drafted_fields (req : DraftedMutationRequest) (t : Z) (plan : Plan) : Plan :=
  let plan := if dqTitle req !=? "" then set_pTitle (dqTitle req) plan else plan in
  let plan := set_pConstraints (dqConstraints req)
                (set_pContext (dqContext req) (set_pGoal (dqGoal req) plan)) in
  let brief := if dqContext req =? "" then dqGoal req else dqContext req in
  let plan := EnsureContractPacket E plan brief t in
  match pContract plan with
  | Some c =>
      if is_nil (cpConstraints c) && negb (is_nil (dqConstraints req))
      then set_pContract (Some (set_cpConstraints (dqConstraints req) c)) plan else plan
  | None => plan
  end.

Definition handleDraftedMutation (data : option DraftedMutationRequest) : M reply :=
  match data with
  | None => mret (Some Unmarshal)
  | Some req =>
      if (dqSlug req =? "") || (dqGoal req =? "") then mret (Some MissingFields) else
      with_plan (dqSlug req) (λ plan,
        guard_transition plan StatusDrafted (
          t ← now E;
          match draft_scope req (drafted_fields req t plan) with
          | inr missing => mret (Some (ScopeShrinkage missing))
          | inl plan =>
              save_reply (set_pStatus StatusDrafted
                            (set_pSkipArchitecture (dqSkipArchitecture req) plan))
          end))
  end.

Definition handleReviewedMutation (data : option ReviewedMutationRequest) : M reply :=
  match data with
  | None => mret (Some Unmarshal)
  | Some req =>
      if vqSlug req =? "" then mret (Some MissingFields) else
      with_plan (vqSlug req) (λ plan,
        guard_transition plan StatusReviewed (
          t ← now E;
          save_reply (set_pStatus StatusReviewed (set_pReviewedAt (Some t)
            (set_pReviewSummary (vqSummary req) (set_pReviewVerdict (vqVerdict req) plan))))))
  end.

Definition handleApprovedMutation (data : option ApprovedMutationRequest) : M reply :=
  match data with
  | None => mret (Some Unmarshal)
  | Some req =>
      if pqSlug req =? "" then mret (Some MissingFields) else
      with_plan (pqSlug req) (λ plan,
        guard_transition plan StatusApproved (
          t ← now E;
          save_reply (set_pStatus StatusApproved (set_pApprovedAt (Some t) (set_pApproved true plan)))))
  end.

Definition handleRequirementsMutation (data : option RequirementsMutationRequest) : M reply :=
  match data with
  | None => mret (Some Unmarshal)
  | Some req =>
      if (rqSlug req =? "") || is_nil (rqRequirements req) then mret (Some MissingFields) else
      match ValidateRequirementDAG (rqRequirements req) with
      | Some e => mret (Some (InvalidStories e))
      | None =>
          with_plan (rqSlug req) (λ plan,
            let reqs := (λ r, if rPlanID r =? "" then set_rPlanID (envPlanEntityID E (rqSlug req)) r
                              else r) <$> rqRequirements req in
            guard_transition plan StatusRequirementsGenerated (
              match ValidateRequirementCapabilityCoverage (pExploration plan) reqs with
              | Some e => mret (Some (InvalidCapabilities e))
              | None => save_reply (set_pStatus StatusRequirementsGenerated (set_pRequirements reqs plan))
              end))
      end
  end.

Definition handleArchitectureMutation (data : option architectureMutationRequest) : M reply :=
  match data with
  | None => mret (Some Unmarshal)
  | Some req =>
      if aqSlug req =? "" then mret (Some MissingFields) else
      with_plan (aqSlug req) (λ plan,
        guard_transition plan StatusArchitectureGenerated (
          let plan := match aqArchitecture req with
                      | Some a => set_pArchitecture (Some a) plan
                      | None => plan
                      end in
          save_reply (set_pStatus StatusArchitectureGenerated (set_pPreviousArchitectureJSON "" plan))))
  end.

(** What [handleStoriesMutation] does to the plan's stories and scenarios. *)
Definition place_stories (range : nat → gset string → list string) (plan : Plan)
    (stories : list Story) : Plan + scoped_merge_error :=
  match pPendingArchitectureRevision plan with
  | Some scope =>
      if is_nil (arsRequirementIDs scope) then inl (set_pStories stories plan) else
      match mergeStoriesForScopedArchitectureRevision range plan scope stories with
      | inr e => inr e
      | inl (merged, removed) =>
          inl (set_pStories merged (set_pScenarios
                 (removeScenariosForScopedArchitectureRevision (pScenarios plan) scope removed) plan))
      end
  | None =>
      let plan := set_pStories stories plan in
      inl (set_pScenarios (dropOrphanScenarios (pScenarios plan) (pStories plan)) plan)
  end.

Definition handleStoriesMutation (data : option storiesMutationRequest) : M reply :=
  match data with
  | None => mret (Some Unmarshal)
  | Some req =>
      if tqSlug req =? "" then mret (Some MissingFields) else
      match ValidateStories (tqStories req) with
      | Some e => mret (Some (InvalidStories e))
      | None =>
          with_plan (tqSlug req) (λ plan,
            guard_transition plan StatusStoriesGenerated (
              w ← read;
              match place_stories (envRange E (wTick w)) plan (tqStories req) with
              | inr e => mret (Some (ScopedMerge e))
              | inl plan =>
                  let plan := set_pStatus StatusStoriesGenerated plan in
                  save_reply (set_pScope (ensureScopeCreateCoversStories (pScope plan) (pStories plan)) plan)
              end))
      end
  end.

Definition handleScenariosMutation (data : option ScenariosMutationRequest) : M reply :=
  match data with
  | None => mret (Some Unmarshal)
  | Some req =>
      if (sqSlug req =? "") || (sqRequirementID req =? "") then mret (Some MissingFields) else
      with_plan (sqSlug req) (λ plan,
        let plan := merge_scenarios plan req in
        if is_nil (pRequirements plan) then save_reply plan
        else if all_covered plan then
          guard_transition plan StatusScenariosGenerated
            (save_reply (set_pStatus StatusScenariosGenerated (set_pPendingArchitectureRevision None plan)))
        else save_reply plan)
  end.

Definition handleGenerationFailedMutation (data : option GenerationFailedRequest) : M reply :=
  match data with
  | None => mret (Some Unmarshal)
  | Some req =>
      with_plan (gqSlug req) (λ plan,
        guard_transition plan StatusRejected (
          t ← now E;
          save_reply (set_pStatus StatusRejected (set_pLastErrorAt (Some t)
            (set_pLastError (gqError req) plan)))))
  end.

Definition handleClaimMutation (data : option ClaimMutationRequest) : M reply :=
  match data with
  | None => mret (Some Unmarshal)
  | Some req =>
      if (cqSlug req =? "") || (cqStatus req =? StatusOther "") then mret (Some MissingFields)
      else if negb (Status_IsInProgress (cqStatus req)) then mret (Some (NotClaimable (cqStatus req)))
      else with_plan (cqSlug req) (λ plan,
        guard_transition plan (cqStatus req) (save_reply (set_pStatus (cqStatus req) plan)))
  end.

(** *** Messages *)

Definition scenarioOrchestrationTriggerForPlan (plan : Plan) (traceID : string)
    (force : list string) : ScenarioOrchestrationTrigger :=
  {| trPlanSlug := pSlug plan; trTraceID := traceID; trRequirements := pRequirements plan;
     trScenarios := pScenarios plan; trStories := pStories plan;
     trForceRequirementIDs := uniqueSortedStrings force;
     trPlanBranch := match pGitHub plan with Some g => ghPlanBranch g | None => "" end |}.

(** [true] when the trigger was published. *)
Definition publishScenarioOrchestrator (plan : Plan) (force : list string) : M bool :=
  o ← tick E;
  if ioPublishErr o then mret false
  else send (MsgOrchestrate (scenarioOrchestrationTriggerForPlan plan (ioUUID o) force));; mret true.

(** A request that does not validate, or that cannot be published, is dropped. *)
Definition emitRecoveryRequested (mk : string → RecoveryRequested) : M () :=
  o ← tick E;
  let r := mk (ioUUID o) in
  if ioPublishErr o || negb (RecoveryRequested_Validate r) then mret () else send (MsgRecovery r).

(** *** Story status *)

Definition story_current (s : Story) : StoryStatus :=
  if sStatus s =? StoryStatusOther "" then StoryStatusReady else sStatus s.

Definition handleStoryStatusMutation (data : option StoryStatusMutationRequest) : M reply :=
  match data with
  | None => mret (Some Unmarshal)
  | Some req =>
      if (ssqSlug req =? "") || (ssqStoryID req =? "") || (ssqTarget req =? StoryStatusOther "")
      then mret (Some MissingFields)
      else if negb (StoryStatus_IsValid (ssqTarget req)) then mret (Some InvalidTarget)
      else with_plan (ssqSlug req) (λ plan,
        match FindStory plan (ssqStoryID req) with
        | None => mret (Some (StoryNotFound (ssqStoryID req)))
        | Some (i, story) =>
            if negb (StoryStatus_CanTransitionTo (story_current story) (ssqTarget req))
            then mret (Some (InvalidStoryTransition (story_current story) (ssqTarget req)))
            else
              t ← now E;
              let plan := set_pStories (<[i := set_sUpdatedAt t (set_sStatus (ssqTarget req) story)]>
                                          (pStories plan)) plan in
              err ← save E plan;
              match err with
              | Some e => mret (Some (SaveFailed e))
              | None =>
                  (if ((ssqTarget req =? StoryStatusComplete) || (ssqTarget req =? StoryStatusFailed)) &&
                      (EffectiveStatus plan =? StatusImplementing)
                   then publishScenarioOrchestrator plan [];; mret ()
                   else mret ());;
                  mret None
              end
        end)
  end.

(** *** Starting execution *)

Definition startExecutionFromReady (plan : Plan) (force : list string) : M (option exec_error) :=
  if is_nil (pRequirements plan) then mret (Some ExecNoRequirements)
  else if is_nil (pScenarios plan) then mret (Some ExecNoScenarios)
  else
    r ← setPlanStatusCached E plan StatusImplementing;
    match r with
    | (_, Some e) => mret (Some (ExecImplementing e))
    | (plan, None) =>
        published ← publishScenarioOrchestrator plan force;
        if published : bool then mret None
        else
          (* roll back; its error is discarded *)
          setPlanStatusCached E plan StatusReadyForExecution;;
          mret (Some ExecTrigger)
    end.

Definition transitionToReadyForExecution (plan : Plan) (force : list string) :
    M (option exec_error) :=
  r ← setPlanStatusCached E plan StatusReadyForExecution;
  match r with
  | (_, Some e) => mret (Some (ExecReady e))
  | (plan, None) =>
      if envAutoStart E then startExecutionFromReady plan force else mret None
  end.

Definition handleReadyForExecutionMutation (data : option ReadyForExecutionMutationRequest) :
    M reply :=
  match data with
  | None => mret (Some Unmarshal)
  | Some req =>
      if yqSlug req =? "" then mret (Some MissingFields) else
      with_plan (yqSlug req) (λ plan,
        guard_transition plan StatusReadyForExecution (
          t ← now E;
          let plan := refreshApprovedReviewMetadata plan "Plan approved; ready for execution." t in
          err ← transitionToReadyForExecution plan [];
          mret (AdvanceFailed <$> err)))
  end.

(** *** Phase reviews *)

(** [handleArchitectureReviewedMutation], [handleRequirementsReviewedMutation]
    and the first half of [handleScenariosReviewedMutation] differ in the
    target status only. *)
Definition reviewed_plan (target : Status) (summary : string) (t : Z) (plan : Plan) : Plan :=
  refreshApprovedReviewMetadata (set_pStatus target plan) summary t.

Definition handleArchitectureReviewedMutation (data : option reviewedRequest) : M reply :=
  match data with
  | None => mret (Some Unmarshal)
  | Some req =>
      if wqSlug req =? "" then mret (Some MissingFields) else
      with_plan (wqSlug req) (λ plan,
        guard_transition plan StatusArchitectureReviewed (
          t ← now E; save_reply (reviewed_plan StatusArchitectureReviewed (wqSummary req) t plan)))
  end.

Definition handleRequirementsReviewedMutation (data : option reviewedRequest) : M reply :=
  match data with
  | None => mret (Some Unmarshal)
  | Some req =>
      if wqSlug req =? "" then mret (Some MissingFields) else
      with_plan (wqSlug req) (λ plan,
        guard_transition plan StatusRequirementsReviewed (
          t ← now E; save_reply (reviewed_plan StatusRequirementsReviewed (wqSummary req) t plan)))
  end.

Definition handleScenariosReviewedMutation (data : option reviewedRequest) : M reply :=
  match data with
  | None => mret (Some Unmarshal)
  | Some req =>
      if wqSlug req =? "" then mret (Some MissingFields) else
      with_plan (wqSlug req) (λ plan,
        guard_transition plan StatusScenariosReviewed (
          t ← now E;
          let plan := reviewed_plan StatusScenariosReviewed (wqSummary req) t plan in
          err ← save E plan;
          match err with
          | Some e => mret (Some (SaveFailed e))
          | None =>
              if planHasAcceptedStoryReprepareDecision plan then
                err ← transitionToReadyForExecution plan [];
                mret (AdvanceFailed <$> err)
              else mret None
          end))
  end.

(** *** Revision *)

Definition max_iterations : Z :=
  if bool_decide (envMaxReviewIterations E ≤ 0)%Z then 1%Z else envMaxReviewIterations E.

(** The plan with the round's review recorded. *)
Definition record_review (req : RevisionMutationRequest) (plan : Plan) : Plan :=
  let merged := mergeReviewFindings (pReviewFindings plan) (nqFindings req) (nqRound req) in
  set_pReviewFormattedFindings (formatReviewFindings (envToUpper E) merged (nqSummary req))
    (set_pReviewVerdict (nqVerdict req) (set_pReviewSummary (nqSummary req)
      (set_pReviewFindings merged (set_pReviewIteration (pReviewIteration plan + 1)%Z plan)))).

Definition escalated_plan (req : RevisionMutationRequest) (t : Z) (plan : Plan) : Plan :=
  set_pStatus StatusRejected (set_pReviewedAt (Some t) (set_pLastErrorAt (Some t)
    (set_pLastError ("review revision cap reached (" +:+ pretty (pReviewIteration plan) +:+ "/"
                       +:+ pretty max_iterations +:+ "): " +:+ nqSummary req)
      (set_pReviewSummary ("Max revisions exceeded after " +:+ pretty max_iterations
                             +:+ " attempts: " +:+ nqSummary req)
        (set_pReviewVerdict "escalated" plan))))).

Definition phase_local_request (slug reason feedback trace : string) (affected : list string)
    (id : string) : RecoveryRequested :=
  {| rrRecoveryID := id; rrLayer := "phase_local"; rrSlug := slug; rrRequirementID := "";
     rrAffectedRequirementIDs := affected; rrAffectedStoryIDs := []; rrTaskID := "";
     rrLoopID := ""; rrEscalationReason := reason; rrLastFailureFeedback := feedback;
     rrPriorRecoveryID := ""; rrTraceID := trace |}.

Definition escalateRevision (plan : Plan) (req : RevisionMutationRequest) (current : Status) :
    M reply :=
  if negb (Status_CanTransitionTo current StatusRejected)
  then mret (Some (InvalidTransition current StatusRejected)) else
  t ← now E;
  let plan := escalated_plan req t plan in
  err ← save E plan;
  match err with
  | Some e => mret (Some (SaveFailed e))
  | None =>
      emitRecoveryRequested (phase_local_request (nqSlug req) (pLastError plan)
        (pReviewFormattedFindings plan) (nqTraceID req) []);;
      mret None
  end.

Definition expected_status (round : Z) : Status :=
  if bool_decide (round = 2%Z) then StatusReviewingScenarios
  else if bool_decide (round = 3%Z) then StatusReviewingArchitecture
  else if bool_decide (round = 4%Z) then StatusReviewingRequirements
  else StatusReviewingDraft.

Definition reentry (req : RevisionMutationRequest) (plan : Plan) : Plan * Status :=
  if bool_decide (nqRound req = 1%Z) then (plan, StatusCreated)
  else if bool_decide (nqRound req = 2%Z) then determineR2ReentryPoint E plan (nqFindings req)
  else if bool_decide (nqRound req = 3%Z) then reenterArchitecturePhase E plan
  else reenterRequirementsPhase plan.

Definition revision_body (req : RevisionMutationRequest) (plan : Plan) : M reply :=
  let current := EffectiveStatus plan in
  if current !=? expected_status (nqRound req) then mret (Some (WrongStatus current)) else
  let plan := record_review req plan in
  if bool_decide (max_iterations ≤ pReviewIteration plan)%Z then escalateRevision plan req current else
  let '(plan, target) := reentry req plan in
  if negb (Status_CanTransitionTo current target)
  then mret (Some (InvalidTransition current target)) else
  let plan := set_pStatus target plan in
  save_reply (if target =? StatusCreated
                then set_pApprovedAt None (set_pApproved false plan) else plan).

Definition handleRevisionMutation (data : option RevisionMutationRequest) : M reply :=
  match data with
  | None => mret (Some Unmarshal)
  | Some req =>
      if (nqSlug req =? "") || bool_decide (nqRound req < 1)%Z || bool_decide (4 < nqRound req)%Z
      then mret (Some BadRound)
      else if nqVerdict req !=? "needs_changes" then mret (Some BadVerdict)
      else with_plan (nqSlug req) (revision_body req)
  end.

(** *** QA *)

Definition handleQAStartMutation (data : option qaStartRequest) : M reply :=
  match data with
  | None => mret (Some Unmarshal)
  | Some req =>
      if qsSlug req =? "" then mret (Some MissingFields) else
      with_plan (qsSlug req) (λ plan,
        let current := EffectiveStatus plan in
        if (current !=? StatusReadyForQA) && (current !=? StatusReviewingQA)
        then mret (Some (WrongStatus current)) else
        let alreadyReviewing := current =? StatusReviewingQA in
        if negb alreadyReviewing && negb (Status_CanTransitionTo current StatusReviewingQA)
        then mret (Some (InvalidTransition current StatusReviewingQA)) else
        let plan := match qsQARun req with Some r => set_pQARun (Some r) plan | None => plan end in
        let plan := if alreadyReviewing then plan else set_pStatus StatusReviewingQA plan in
        err ← save E plan;
        match err with
        | Some e => mret (Some (SaveFailed e))
        | None =>
            w ← read;
            (if alreadyReviewing then mret ()
             else set_sandbox (ensureQAWorktree (envSandbox E) plan (wSandbox w)));;
            mret None
        end)
  end.

Definition shouldGateReview (plan : Plan) : bool :=
  match pGitHub plan with
  | Some _ => true
  | None => negb (default true (envAutoApproveReview E))
  end.

Definition collectActiveRequirementIDsForRecovery (plan : Plan) : list string :=
  rID <$> filter (λ r, rStatus r = RequirementStatusOther "" ∨ rStatus r = RequirementStatusActive)
    (pRequirements plan).

Definition fireQAVerdictRecovery (plan : Plan) (req : QAVerdictEvent) : M () :=
  if (qvVerdict req !=? QAVerdictNeedsChanges) && (qvVerdict req !=? QAVerdictRejected) then mret ()
  else emitRecoveryRequested (phase_local_request (qvSlug req)
         ("QA verdict " +:+ QAVerdict_String (qvVerdict req) +:+ " at level "
            +:+ QALevel_String (qvLevel req))
         (qvSummary req) (qvTraceID req) (collectActiveRequirementIDsForRecovery plan)).

(** The tail of [handleQAVerdictMutation]: save, drop the worktree, recover. *)
Definition finish_verdict (plan : Plan) (req : QAVerdictEvent) : M reply :=
  err ← save E plan;
  match err with
  | Some e => mret (Some (SaveFailed e))
  | None =>
      w ← read;
      set_sandbox (deleteQAWorktree (envSandbox E) (qvSlug req) (wSandbox w));;
      fireQAVerdictRecovery plan req;;
      mret None
  end.

(** The approved branches: assemble, then complete or wait for review. *)
Definition verdict_accepted (req : QAVerdictEvent) (current target : Status) (plan : Plan) : M reply :=
  if negb (Status_CanTransitionTo current target)
  then mret (Some (InvalidTransition current target)) else
  w ← read;
  let '(plan, log, err) := assembleRequirementBranches (envSandbox E) plan (wSandbox w) in
  set_sandbox log;;
  match err with
  | Some e =>
      t ← now E;
      save E (set_pLastErrorAt (Some t)
                (set_pLastError ("plan-level merge failed: " +:+ envErrorText E e) plan));;
      mret (Some (MergeFailed e))
  | None => finish_verdict (set_pStatus target plan) req
  end.

Definition verdict_refused (req : QAVerdictEvent) (current : Status) (plan : Plan) : M reply :=
  if negb (Status_CanTransitionTo current StatusRejected)
  then mret (Some (InvalidTransition current StatusRejected)) else
  t ← now E;
  let plan := set_pStatus StatusRejected (set_pLastErrorAt (Some t)
                (set_pLastError (qvSummary req) plan)) in
  finish_verdict (set_pPlanDecisions (pPlanDecisions plan ++ qvPlanDecisions req)%list plan) req.

Definition verdict_body (req : QAVerdictEvent) (plan : Plan) : M reply :=
  let current := EffectiveStatus plan in
  if (current !=? StatusReviewingRollup) && (current !=? StatusReviewingQA)
  then mret (Some (WrongStatus current)) else
  t ← now E;
  let plan := set_pQAVerdictSummary (Some (MkQAVerdictSummary (qvVerdict req) (qvLevel req)
                (qvSummary req) (qvDimensions req) t)) plan in
  match qvVerdict req with
  | QAVerdictApproved | QAVerdictConditionallyApproved =>
      verdict_accepted req current
        (if shouldGateReview plan then StatusAwaitingReview else StatusComplete) plan
  | _ => verdict_refused req current plan
  end.

Definition handleQAVerdictMutation (data : option QAVerdictEvent) : M reply :=
  match data with
  | None => mret (Some Unmarshal)
  | Some req =>
      if qvSlug req =? "" then mret (Some MissingFields) else
      match qvVerdict req with
      | QAVerdictOther _ => mret (Some BadVerdict)
      | _ => with_plan (qvSlug req) (verdict_body req)
      end
  end.

Definition handleReviewApproveMutation (data : option reviewApproveRequest) : M reply :=
  match data with
  | None => mret (Some Unmarshal)
  | Some req =>
      if zqSlug req =? "" then mret (Some MissingFields) else
      with_plan (zqSlug req) (λ plan,
        if EffectiveStatus plan !=? StatusAwaitingReview
        then mret (Some (WrongStatus (EffectiveStatus plan))) else
        guard_transition plan StatusComplete (save_reply (set_pStatus StatusComplete plan)))
  end.
End handlers.

(** ** Dispatch *)

(** The subjects [startMutationHandler] subscribes to, the GitHub and
    plan-decision ones apart. *)
Inductive mutation :=
| MExplored (req : option ExploredMutationRequest)
| MDrafted (req : option DraftedMutationRequest)
| MReviewed (req : option ReviewedMutationRequest)
| MApproved (req : option ApprovedMutationRequest)
| MRequirements (req : option RequirementsMutationRequest)
| MArchitecture (req : option architectureMutationRequest)
| MStories (req : option storiesMutationRequest)
| MStoryStatus (req : option StoryStatusMutationRequest)
| MScenarios (req : option ScenariosMutationRequest)
| MScenariosReviewed (req : option reviewedRequest)
| MArchitectureReviewed (req : option reviewedRequest)
| MRequirementsReviewed (req : option reviewedRequest)
| MReadyForExecution (req : option ReadyForExecutionMutationRequest)
| MGenerationFailed (req : option GenerationFailedRequest)
| MClaim (req : option ClaimMutationRequest)
| MRevision (req : option RevisionMutationRequest)
| MQAStart (req : option qaStartRequest)
| MQAVerdict (req : option QAVerdictEvent)
| MReviewApprove (req : option reviewApproveRequest).

Definition handle (E : Env) (m : mutation) : M reply :=
  match m with
  | MExplored r => handleExploredMutation E r
  | MDrafted r => handleDraftedMutation E r
  | MReviewed r => handleReviewedMutation E r
  | MApproved r => handleApprovedMutation E r
  | MRequirements r => handleRequirementsMutation E r
  | MArchitecture r => handleArchitectureMutation E r
  | MStories r => handleStoriesMutation E r
  | MStoryStatus r => handleStoryStatusMutation E r
  | MScenarios r => handleScenariosMutation E r
  | MScenariosReviewed r => handleScenariosReviewedMutation E r
  | MArchitectureReviewed r => handleArchitectureReviewedMutation E r
  | MRequirementsReviewed r => handleRequirementsReviewedMutation E r
  | MReadyForExecution r => handleReadyForExecutionMutation E r
  | MGenerationFailed r => handleGenerationFailedMutation E r
  | MClaim r => handleClaimMutation E r
  | MRevision r => handleRevisionMutation E r
  | MQAStart r => handleQAStartMutation E r
  | MQAVerdict r => handleQAVerdictMutation E r
  | MReviewApprove r => handleReviewApproveMutation E r
  end.

(** The slug a mutation addresses. *)
Definition slug_of (m : mutation) : option string :=
  match m with
  | MExplored r => eqSlug <$> r
  | MDrafted r => dqSlug <$> r
  | MReviewed r => vqSlug <$> r
  | MApproved r => pqSlug <$> r
  | MRequirements r => rqSlug <$> r
  | MArchitecture r => aqSlug <$> r
  | MStories r => tqSlug <$> r
  | MStoryStatus r => ssqSlug <$> r
  | MScenarios r => sqSlug <$> r
  | MScenariosReviewed r | MArchitectureReviewed r | MRequirementsReviewed r => wqSlug <$> r
  | MReadyForExecution r => yqSlug <$> r
  | MGenerationFailed r => gqSlug <$> r
  | MClaim r => cqSlug <$> r
  | MRevision r => nqSlug <$> r
  | MQAStart r => qsSlug <$> r
  | MQAVerdict r => qvSlug <$> r
  | MReviewApprove r => zqSlug <$> r
  end.

(** ** Lemmas: what a handler may store *)

(** The accepted decisions of a plan. *)
Definition settled (p : Plan) : list (string * PlanDecisionKind) :=
  (λ d, (dID d, dKind d)) <$> filter (λ d, dStatus d = PlanDecisionStatusAccepted) (pPlanDecisions p).

(** [q] is a later version of [plan]: same slug, a status reached along the
    status machine, a review budget that is not refunded, and no accepted
    decision withdrawn. *)
Record tracks (plan q : Plan) : Prop := {
  tracks_slug : pSlug q = pSlug plan;
  tracks_status : rtc plan_step (EffectiveStatus plan) (EffectiveStatus q);
  tracks_iteration : (pReviewIteration plan ≤ pReviewIteration q)%Z;
  tracks_settled : settled plan `sublist_of` settled q }.

(** Nothing but the interaction counter changes. *)
Definition untouched (w w' : World) : Prop :=
  same_store w w' ∧ wOut w' = wOut w ∧ wSandbox w' = wSandbox w.

(** A handler body on [plan] stores only later versions of it, and when it
    refuses it changes nothing. *)
Definition body_ok (plan : Plan) (m : M reply) : Prop :=
  writes (tracks plan) m ∧ ∀ w, refused (m w).2 = true → untouched w (m w).1.

Lemma tracks_refl plan : tracks plan plan.
Proof. by split. Qed.

Lemma tracks_to plan q target :
  can plan target = true → pSlug q = pSlug plan → pStatus q = target →
  (pReviewIteration plan ≤ pReviewIteration q)%Z → settled plan `sublist_of` settled q →
  tracks plan q.
Proof.
  intros Hcan Hs Ht Hi Hd. split; [done| |done|done]. apply rtc_once. unfold plan_step.
  assert (EffectiveStatus q = target) as ->; [|done].
  apply Status_can_valid in Hcan as [_ Hv]. unfold EffectiveStatus. rewrite Ht.
  destruct (target !=? StatusOther "") eqn:E; [done|]. breflect. by subst target; rewrite E in Hv.
Qed.

Lemma tracks_same plan q :
  pSlug q = pSlug plan → EffectiveStatus q = EffectiveStatus plan →
  pReviewIteration q = pReviewIteration plan → settled plan `sublist_of` settled q →
  tracks plan q.
Proof. intros Hs He Hi Hd. split; [done|by rewrite He|lia|done]. Qed.

Lemma settled_same plan q : pPlanDecisions q = pPlanDecisions plan → settled plan `sublist_of` settled q.
Proof. unfold settled. by intros ->. Qed.

Lemma settled_app plan q ds : pPlanDecisions q = (pPlanDecisions plan ++ ds)%list →
  settled plan `sublist_of` settled q.
Proof. unfold settled. intros ->. rewrite filter_app, fmap_app. by apply sublist_inserts_r. Qed.

Lemma untouched_refl w : untouched w w.
Proof. done. Qed.

Lemma untouched_trans w1 w2 w3 : untouched w1 w2 → untouched w2 w3 → untouched w1 w3.
Proof. unfold untouched, same_store. naive_solver congruence. Qed.

(** A program that only looks. *)
Definition looks {A} (m : M A) : Prop := ∀ w, untouched w (m w).1.

Lemma looks_now E : looks (now E).
Proof. by intros w. Qed.
Lemma looks_tick E : looks (tick E).
Proof. by intros w. Qed.
Lemma looks_read : looks read.
Proof. by intros w. Qed.

Lemma looks_writes {A} P (m : M A) : looks m → writes P m.
Proof. intros H. apply writes_same. intros w. apply H. Qed.

Lemma body_err plan e : body_ok plan (mret (Some e)).
Proof. split; [apply writes_ret|done]. Qed.

Lemma body_bind {A} plan (m : M A) f : looks m → (∀ x, body_ok plan (f x)) → body_ok plan (m ≫= f).
Proof.
  intros Hm Hf. split.
  - apply writes_bind; [by apply looks_writes|]. intros x. apply Hf.
  - intros w. specialize (Hm w). unfold mbind, M_bind. destruct (m w) as [w1 x]. simpl in Hm.
    intros Hr. eapply untouched_trans; [done|]. by apply Hf.
Qed.

Lemma body_writes plan m :
  writes (tracks plan) m → (∀ w, refused (m w).2 = false) → body_ok plan m.
Proof. intros Hw Hr. split; [done|]. intros w H. by rewrite Hr in H. Qed.

Lemma body_guard plan plan' target k :
  EffectiveStatus plan' = EffectiveStatus plan →
  (can plan target = true → body_ok plan k) → body_ok plan (guard_transition plan' target k).
Proof.
  intros He Hk. unfold guard_transition, can in *. rewrite He. case_match; [by apply Hk|apply body_err].
Qed.

Lemma save_reply_refused E q w : refused (save_reply E q w).2 = false.
Proof.
  unfold save_reply, mbind, M_bind, mret, M_ret. destruct (save E q w) as [w' [e|]]; done.
Qed.

Lemma body_save E plan q : tracks plan q → body_ok plan (save_reply E q).
Proof.
  intros Hq. apply body_writes; [|apply save_reply_refused].
  apply writes_bind; [by apply writes_save|]. intros. apply writes_ret.
Qed.

(** Saving, then more work that never refuses. *)
Lemma body_save_then E plan q k :
  tracks plan q → body_ok plan k → (∀ w, refused (k w).2 = false) →
  body_ok plan (err ← save E q; match err with Some e => mret (Some (SaveFailed e)) | None => k end).
Proof.
  intros Hq [Hk _] Hr. apply body_writes.
  - apply writes_bind; [by apply writes_save|]. intros [e|]; [apply writes_ret|done].
  - intros w. unfold mbind, M_bind. destruct (save E q w) as [w' [e|]]; [done|apply Hr].
Qed.

#[export] Hint Resolve looks_now looks_tick looks_read : semspec.

Lemma looks_bind {A B} (m : M A) (f : A → M B) : looks m → (∀ x, looks (f x)) → looks (m ≫= f).
Proof.
  intros Hm Hf w. specialize (Hm w). unfold mbind, M_bind. destruct (m w) as [w1 x].
  eapply untouched_trans; [done|]. apply Hf.
Qed.

Lemma writes_publish E P plan force : writes P (publishScenarioOrchestrator E plan force).
Proof. apply writes_same. intros w. unfold publishScenarioOrchestrator, mbind, M_bind. simpl. by destruct (ioPublishErr _). Qed.

Lemma writes_emit E P mk : writes P (emitRecoveryRequested E mk).
Proof. apply writes_same. intros w. unfold emitRecoveryRequested, mbind, M_bind. simpl. by destruct (_ || _). Qed.

Lemma writes_sandbox P log : writes P (set_sandbox log).
Proof. by apply writes_same. Qed.

#[export] Hint Resolve writes_ret writes_publish writes_emit writes_sandbox : semspec.

Section handler_lemmas.
Context (E : Env).

Lemma body_explored plan exp :
  body_ok plan (guard_transition plan StatusExplored
    (save_reply E (set_pStatus StatusExplored (set_pExploration exp plan)))).
Proof. apply body_guard; [done|]. intros H. apply body_save. by eapply tracks_to. Qed.

Lemma drafted_fields_frame req t plan :
  pSlug (drafted_fields E req t plan) = pSlug plan ∧
  pReviewIteration (drafted_fields E req t plan) = pReviewIteration plan ∧
  pPlanDecisions (drafted_fields E req t plan) = pPlanDecisions plan.
Proof.
  unfold drafted_fields, EnsureContractPacket.
  destruct (dqTitle req !=? ""); destruct (pContract plan) as [c|] eqn:Ec;
    repeat (progress (cbn [pContract set_pConstraints set_pContext set_pGoal set_pTitle set_pContract];
                      rewrite ?Ec));
    match goal with |- context [if ?b then _ else _] => destruct b end; done.
Qed.

Lemma draft_scope_frame req plan q : draft_scope req plan = inl q →
  pSlug q = pSlug plan ∧ pReviewIteration q = pReviewIteration plan ∧
  pPlanDecisions q = pPlanDecisions plan.
Proof.
  unfold draft_scope. intros H. repeat case_in H; try discriminate H; inversion H; done.
Qed.

Lemma place_stories_frame range plan stories q : place_stories range plan stories = inl q →
  pSlug q = pSlug plan ∧ pReviewIteration q = pReviewIteration plan ∧
  pPlanDecisions q = pPlanDecisions plan.
Proof.
  unfold place_stories. intros H. repeat case_in H; try discriminate H; inversion H; done.
Qed.

Lemma body_drafted plan req :
  body_ok plan (guard_transition plan StatusDrafted (
    t ← now E;
    match draft_scope req (drafted_fields E req t plan) with
    | inr missing => mret (Some (ScopeShrinkage missing))
    | inl plan => save_reply E (set_pStatus StatusDrafted (set_pSkipArchitecture (dqSkipArchitecture req) plan))
    end)).
Proof.
  apply body_guard; [done|]. intros H. apply body_bind; [auto with semspec|]. intros t.
  destruct (draft_scope req _) as [q|missing] eqn:Eq; [|apply body_err].
  assert (Hq : pSlug q = pSlug plan ∧ pReviewIteration q = pReviewIteration plan ∧
               pPlanDecisions q = pPlanDecisions plan).
  { apply draft_scope_frame in Eq as (-> & -> & ->). apply drafted_fields_frame. }
  apply body_save. eapply tracks_to; [done|apply Hq|done|simpl; lia|apply settled_same, Hq].
Qed.

Lemma body_stories plan stories :
  body_ok plan (guard_transition plan StatusStoriesGenerated (
    w ← read;
    match place_stories (envRange E (wTick w)) plan stories with
    | inr e => mret (Some (ScopedMerge e))
    | inl plan =>
        let plan := set_pStatus StatusStoriesGenerated plan in
        save_reply E (set_pScope (ensureScopeCreateCoversStories (pScope plan) (pStories plan)) plan)
    end)).
Proof.
  apply body_guard; [done|]. intros H. apply body_bind; [auto with semspec|]. intros w.
  destruct (place_stories _ plan stories) as [q|e] eqn:Eq; [|apply body_err].
  apply place_stories_frame in Eq as (Hs & Hi & Hd).
  apply body_save. eapply tracks_to; [done|done|done|simpl; lia|by apply settled_same].
Qed.

Lemma merge_scenarios_frame plan req :
  pSlug (merge_scenarios plan req) = pSlug plan ∧
  EffectiveStatus (merge_scenarios plan req) = EffectiveStatus plan ∧
  pReviewIteration (merge_scenarios plan req) = pReviewIteration plan ∧
  pRequirements (merge_scenarios plan req) = pRequirements plan ∧
  pStories (merge_scenarios plan req) = pStories plan ∧
  pPlanDecisions (merge_scenarios plan req) = pPlanDecisions plan.
Proof. unfold merge_scenarios. by case_match. Qed.

Lemma body_scenarios plan req :
  body_ok plan (
    let plan := merge_scenarios plan req in
    if is_nil (pRequirements plan) then save_reply E plan
    else if all_covered plan then
      guard_transition plan StatusScenariosGenerated
        (save_reply E (set_pStatus StatusScenariosGenerated (set_pPendingArchitectureRevision None plan)))
    else save_reply E plan).
Proof.
  destruct (merge_scenarios_frame plan req) as (Hs & He & Hi & _ & _ & Hd). simpl.
  apply settled_same in Hd.
  assert (tracks plan (merge_scenarios plan req)) by (by apply tracks_same).
  repeat case_match; try (by apply body_save). apply body_guard; [done|]. intros Hc.
  apply body_save. eapply tracks_to; [done|done|done|simpl; lia|done].
Qed.

Lemma body_setStatus P plan target :
  (can plan target = true → P (set_pStatus target plan)) →
  writes P (setPlanStatusCached E plan target).
Proof. apply writes_setStatus. Qed.

Lemma setStatus_plan plan target w w' q e :
  setPlanStatusCached E plan target w = (w', (q, e)) →
  (q = plan ∧ is_Some e) ∨ (can plan target = true ∧ q = set_pStatus target plan).
Proof.
  unfold setPlanStatusCached, can, mbind, M_bind, mret, M_ret. case_match eqn:Hc; simpl; intros H.
  - simplify_eq. by left.
  - apply negb_false_iff in Hc. destruct (save E _ w) as [w1 r]. simplify_eq. by right.
Qed.

Lemma tracks_trans p q r : tracks p q → tracks q r → tracks p r.
Proof. intros [? ? ? ?] [? ? ? ?]. split; [congruence|by etrans|lia|by etrans]. Qed.

Lemma tracks_step plan target :
  can plan target = true → tracks plan (set_pStatus target plan).
Proof. intros. by eapply tracks_to. Qed.

(** A bind on [setPlanStatusCached]: the continuation works on the new plan. *)
Lemma writes_setStatus_bind {A} plan0 plan target (f : Plan * option store_error → M A) :
  tracks plan0 plan →
  (∀ q e, tracks plan0 q → writes (tracks plan0) (f (q, e))) →
  writes (tracks plan0) (setPlanStatusCached E plan target ≫= f).
Proof.
  intros Ht Hf w. unfold mbind, M_bind.
  destruct (setPlanStatusCached E plan target w) as [w1 [q e]] eqn:H.
  apply evolves_trans with w1.
  - change w1 with (w1, (q, e)).1. rewrite <- H. apply body_setStatus.
    intros Hc. eapply tracks_trans; [done|]. by apply tracks_step.
  - apply Hf. destruct (setStatus_plan _ _ _ _ _ _ H) as [[-> _]|[Hc ->]]; [done|].
    eapply tracks_trans; [done|]. by apply tracks_step.
Qed.

Lemma writes_start plan0 plan force :
  tracks plan0 plan → writes (tracks plan0) (startExecutionFromReady E plan force).
Proof.
  intros Ht. unfold startExecutionFromReady. repeat case_match; auto with semspec.
  apply writes_setStatus_bind; [done|]. intros q [e|] Hq; auto with semspec.
  apply writes_bind; [auto with semspec|]. intros [|]; auto with semspec.
  apply writes_setStatus_bind; [done|]. intros. auto with semspec.
Qed.

Lemma writes_ready plan0 plan force :
  tracks plan0 plan → writes (tracks plan0) (transitionToReadyForExecution E plan force).
Proof.
  intros Ht. unfold transitionToReadyForExecution. apply writes_setStatus_bind; [done|].
  intros q [e|] Hq; auto with semspec. case_match; [by apply writes_start|auto with semspec].
Qed.

(** The continuation [err ← m; mret (AdvanceFailed <$> err)] never refuses. *)
Lemma advance_body plan0 (m : M (option exec_error)) :
  writes (tracks plan0) m → body_ok plan0 (err ← m; mret (AdvanceFailed <$> err)).
Proof.
  intros Hm. apply body_writes.
  - apply writes_bind; [done|]. intros. auto with semspec.
  - intros w. unfold mbind, M_bind. by destruct (m w) as [w1 [e|]].
Qed.

Lemma bind_ret_refused {A} (m : M A) w : refused ((m;; mret None) w).2 = false.
Proof. unfold mbind, M_bind. by destruct (m w). Qed.

Lemma advance_refused (m : M (option exec_error)) w :
  refused ((err ← m; mret (AdvanceFailed <$> err)) w).2 = false.
Proof. unfold mbind, M_bind. by destruct (m w) as [w1 [e|]]. Qed.

Lemma body_refresh plan0 plan summary s t :
  tracks plan0 plan → pStatus plan = s → s ≠ StatusOther "" →
  tracks plan0 (refreshApprovedReviewMetadata plan summary t).
Proof.
  intros Ht Hs Hne. eapply tracks_trans; [done|]. unfold refreshApprovedReviewMetadata.
  assert (Hneb : (pStatus plan !=? StatusOther "") = true) by (rewrite Hs; by apply neqb_true).
  case_match; (split; [done| |done|done]); unfold EffectiveStatus; simpl; rewrite Hneb; done.
Qed.

Lemma tracks_reviewed plan target summary t :
  can plan target = true → tracks plan (reviewed_plan target summary t plan).
Proof.
  intros Hc. apply body_refresh with target; [by apply tracks_step|done|].
  apply Status_can_valid in Hc as [_ Hv]. by intros ->.
Qed.

Lemma body_reviewed plan target summary :
  body_ok plan (guard_transition plan target
    (t ← now E; save_reply E (reviewed_plan target summary t plan))).
Proof.
  apply body_guard; [done|]. intros Hc. apply body_bind; [auto with semspec|]. intros t.
  apply body_save. by apply tracks_reviewed.
Qed.

Lemma body_scenarios_reviewed plan summary :
  body_ok plan (guard_transition plan StatusScenariosReviewed (
    t ← now E;
    let plan := reviewed_plan StatusScenariosReviewed summary t plan in
    err ← save E plan;
    match err with
    | Some e => mret (Some (SaveFailed e))
    | None =>
        if planHasAcceptedStoryReprepareDecision plan then
          err ← transitionToReadyForExecution E plan [];
          mret (AdvanceFailed <$> err)
        else mret None
    end)).
Proof.
  apply body_guard; [done|]. intros Hc. apply body_bind; [auto with semspec|]. intros t.
  pose proof (tracks_reviewed plan StatusScenariosReviewed summary t Hc) as Ht.
  eapply (body_save_then E plan); [done| |].
  - case_match; [|apply body_writes; [auto with semspec|done]].
    apply advance_body. by apply writes_ready.
  - intros w. case_match; [apply advance_refused|done].
Qed.

(** A plan whose explicit status allows a transition keeps its effective
    status when its review data change. *)
Lemma EffectiveStatus_explicit plan : pStatus plan ≠ StatusOther "" → EffectiveStatus plan = pStatus plan.
Proof. intros H. unfold EffectiveStatus. by rewrite (proj2 (neqb_true _ _) H). Qed.

Lemma body_ready plan :
  body_ok plan (guard_transition plan StatusReadyForExecution (
    t ← now E;
    let plan := refreshApprovedReviewMetadata plan "Plan approved; ready for execution." t in
    err ← transitionToReadyForExecution E plan [];
    mret (AdvanceFailed <$> err))).
Proof.
  apply body_guard; [done|]. intros Hc. apply body_bind; [auto with semspec|]. intros t.
  assert (Hne : pStatus plan ≠ StatusOther "" ∨ pApproved plan = true).
  { destruct (decide (pStatus plan = StatusOther "")) as [E0|]; [right|by left].
    unfold can, EffectiveStatus in Hc. rewrite E0, eqb_refl in Hc. simpl in Hc.
    destruct (pApproved plan); [done|]. by repeat case_match. }
  apply advance_body, writes_ready. destruct Hne as [Hne|Ha].
  - by eapply body_refresh; [apply tracks_refl|done|].
  - unfold refreshApprovedReviewMetadata. case_match; (split; [done| |done|done]); unfold EffectiveStatus; simpl;
      rewrite Ha; by case_match.
Qed.

Lemma body_story_status plan req :
  body_ok plan (
    match FindStory plan (ssqStoryID req) with
    | None => mret (Some (StoryNotFound (ssqStoryID req)))
    | Some (i, story) =>
        if negb (StoryStatus_CanTransitionTo (story_current story) (ssqTarget req))
        then mret (Some (InvalidStoryTransition (story_current story) (ssqTarget req)))
        else
          t ← now E;
          let plan := set_pStories (<[i := set_sUpdatedAt t (set_sStatus (ssqTarget req) story)]>
                                      (pStories plan)) plan in
          err ← save E plan;
          match err with
          | Some e => mret (Some (SaveFailed e))
          | None =>
              (if ((ssqTarget req =? StoryStatusComplete) || (ssqTarget req =? StoryStatusFailed)) &&
                  (EffectiveStatus plan =? StatusImplementing)
               then publishScenarioOrchestrator E plan [];; mret ()
               else mret ());;
              mret None
          end
    end).
Proof.
  destruct (FindStory plan (ssqStoryID req)) as [[i story]|]; [|apply body_err].
  case_match; [apply body_err|]. apply body_bind; [auto with semspec|]. intros t. cbv zeta.
  set (q := set_pStories _ _).
  eapply (body_save_then E plan q); [by apply tracks_same| |].
  - apply body_writes.
    + apply writes_bind; [|auto with semspec]. case_match; [|auto with semspec].
      apply writes_bind; auto with semspec.
    + intros w. apply bind_ret_refused.
  - intros w. apply bind_ret_refused.
Qed.

(** Only these statuses are inferred from the legacy fields. *)
Definition inferred (s : Status) : bool :=
  match s with
  | StatusApproved | StatusReviewed | StatusDrafted | StatusExplored | StatusCreated => true
  | _ => false
  end.

Lemma EffectiveStatus_inferred plan s :
  EffectiveStatus plan = s → inferred s = false → pStatus plan = s.
Proof.
  unfold EffectiveStatus. destruct (pStatus plan !=? StatusOther "") eqn:H; [done|].
  intros <-. by repeat case_match.
Qed.

Lemma expected_not_inferred round : inferred (expected_status round) = false.
Proof. unfold expected_status. by repeat case_match. Qed.

Lemma expected_can round target :
  (1 ≤ round ≤ 4)%Z →
  target = StatusRejected ∨ (round = 1%Z ∧ target = StatusCreated) ∨
  (round = 3%Z ∧ target = StatusRequirementsGenerated) ∨ (round = 4%Z ∧ target = StatusApproved) ∨
  (round = 2%Z ∧ target ∈ [StatusApproved; StatusCreated; StatusRequirementsGenerated;
                           StatusArchitectureGenerated]) →
  Status_CanTransitionTo (expected_status round) target = true.
Proof.
  intros Hr H. assert (round = 1 ∨ round = 2 ∨ round = 3 ∨ round = 4)%Z as Hc by lia.
  destruct Hc as [-> | [-> | [-> | ->]]];
    destruct H as [-> | [[? ->] | [[? ->] | [[? ->] | [? Ht]]]]]; try done; try lia.
  repeat (apply elem_of_cons in Ht as [-> | Ht]; [done|]). by apply not_elem_of_nil in Ht.
Qed.

Lemma reentry_frame req plan :
  pSlug (reentry E req plan).1 = pSlug plan ∧
  pReviewIteration (reentry E req plan).1 = pReviewIteration plan ∧
  pStatus (reentry E req plan).1 = pStatus plan ∧
  pPlanDecisions (reentry E req plan).1 = pPlanDecisions plan.
Proof.
  unfold reentry, determineR2ReentryPoint, reenterArchitecturePhase, reenterRequirementsPhase, clear_all.
  repeat match goal with
  | |- context [if ?b then _ else _] => destruct b; try done
  | |- context [match nqFindings req with _ => _ end] => destruct (nqFindings req); try done
  | |- context [match pArchitecture ?p with _ => _ end] => destruct (pArchitecture p); try done
  | |- context [match envMarshalArch E ?a with _ => _ end] => destruct (envMarshalArch E a); try done
  end.
Qed.

Lemma reentry_target req plan : (1 ≤ nqRound req ≤ 4)%Z →
  Status_CanTransitionTo (expected_status (nqRound req)) (reentry E req plan).2 = true.
Proof.
  intros Hr. apply expected_can; [done|]. right.
  unfold reentry, determineR2ReentryPoint, reenterArchitecturePhase, reenterRequirementsPhase.
  repeat case_bool_decide; try (simpl; lia); simpl; try tauto.
  - right. right. right. split; [done|]. repeat case_match; simpl;
      repeat first [by left | right].
  - assert (nqRound req = 4%Z) by lia. tauto.
Qed.

(** The plan a revision stores under the limit. *)
Definition revised_plan (req : RevisionMutationRequest) (plan : Plan) : Plan :=
  let '(q, target) := reentry E req (record_review E req plan) in
  let q := set_pStatus target q in
  if target =? StatusCreated then set_pApprovedAt None (set_pApproved false q) else q.

Lemma revised_plan_fields req plan :
  pSlug (revised_plan req plan) = pSlug plan ∧
  pStatus (revised_plan req plan) = (reentry E req (record_review E req plan)).2 ∧
  pReviewIteration (revised_plan req plan) = (pReviewIteration plan + 1)%Z ∧
  pPlanDecisions (revised_plan req plan) = pPlanDecisions plan.
Proof.
  unfold revised_plan. destruct (reentry_frame req (record_review E req plan)) as (H1 & H2 & _ & H3).
  destruct (reentry E req (record_review E req plan)) as [q target]. simpl in *.
  case_match; simpl; by rewrite H1, H2, H3.
Qed.

Lemma body_revision req plan : (1 ≤ nqRound req ≤ 4)%Z → body_ok plan (revision_body E req plan).
Proof.
  intros Hr. unfold revision_body. case_match eqn:Hst; [apply body_err|].
  apply negb_false_iff in Hst. apply (proj1 (eqb_true _ _)) in Hst.
  case_bool_decide.
  - unfold escalateRevision. case_match eqn:Hc; [apply body_err|]. apply negb_false_iff in Hc.
    apply body_bind; [auto with semspec|]. intros t. cbv zeta.
    assert (Ht : tracks plan (escalated_plan E req t (record_review E req plan))).
    { eapply tracks_to; [exact Hc|done|done|simpl; lia|done]. }
    eapply (body_save_then E plan); [done| |].
    + apply body_writes; [|intros; apply bind_ret_refused]. apply writes_bind; auto with semspec.
    + intros. apply bind_ret_refused.
  - pose proof (revised_plan_fields req plan) as (H1 & H2 & H3 & H4). apply settled_same in H4.
    pose proof (reentry_target req (record_review E req plan) Hr) as Hcan.
    unfold revised_plan in *. destruct (reentry E req (record_review E req plan)) as [q target].
    simpl in Hcan. rewrite Hst, Hcan. simpl. apply body_save. eapply tracks_to; [|done|done|lia|done].
    unfold can. by rewrite Hst.
Qed.

Lemma body_qa_start plan req :
  body_ok plan (
    let current := EffectiveStatus plan in
    if (current !=? StatusReadyForQA) && (current !=? StatusReviewingQA)
    then mret (Some (WrongStatus current)) else
    let alreadyReviewing := current =? StatusReviewingQA in
    if negb alreadyReviewing && negb (Status_CanTransitionTo current StatusReviewingQA)
    then mret (Some (InvalidTransition current StatusReviewingQA)) else
    let plan := match qsQARun req with Some r => set_pQARun (Some r) plan | None => plan end in
    let plan := if alreadyReviewing then plan else set_pStatus StatusReviewingQA plan in
    err ← save E plan;
    match err with
    | Some e => mret (Some (SaveFailed e))
    | None =>
        w ← read;
        (if alreadyReviewing then mret ()
         else set_sandbox (ensureQAWorktree (envSandbox E) plan (wSandbox w)));;
        mret None
    end).
Proof.
  cbv zeta. case_match; [apply body_err|]. case_match eqn:Hc; [apply body_err|].
  set (q0 := match qsQARun req with Some _ => _ | None => _ end).
  assert (Hq0 : tracks plan q0 ∧ pSlug q0 = pSlug plan ∧ pReviewIteration q0 = pReviewIteration plan ∧
                settled plan `sublist_of` settled q0).
  { unfold q0. case_match; split_and!; try done; by apply tracks_same. }
  destruct Hq0 as (Ht & Hs & Hi & Hd).
  eapply (body_save_then E plan).
  - case_match; [done|]. simpl in Hc. apply negb_false_iff in Hc.
    eapply tracks_to; [exact Hc|done|done|simpl; lia|done].
  - apply body_writes; [|intros w'; unfold read, mbind, M_bind; by case_match].
    apply writes_bind; [apply looks_writes; auto with semspec|]. intros w.
    apply writes_bind; [case_match; auto with semspec|auto with semspec].
  - intros w. unfold read, mbind, M_bind. by case_match.
Qed.

Lemma writes_recovery P plan req : writes P (fireQAVerdictRecovery E plan req).
Proof. unfold fireQAVerdictRecovery. case_match; auto with semspec. Qed.

Lemma finish_ok plan0 plan req : tracks plan0 plan →
  writes (tracks plan0) (finish_verdict E plan req) ∧
  ∀ w, refused (finish_verdict E plan req w).2 = false.
Proof.
  intros Ht. unfold finish_verdict. split.
  - apply writes_bind; [by apply writes_save|]. intros [e|]; [auto with semspec|].
    apply writes_bind; [apply looks_writes; auto with semspec|]. intros w.
    apply writes_bind; [auto with semspec|]. intros _.
    apply writes_bind; [apply writes_recovery|auto with semspec].
  - intros w. unfold mbind at 1, M_bind at 1. destruct (save E plan w) as [w1 [e|]]; [done|].
    unfold read. unfold mbind at 1, M_bind at 1. unfold mbind at 1, M_bind at 1. simpl.
    apply bind_ret_refused.
Qed.

Lemma body_accepted req plan q target :
  tracks plan q → pSlug q = pSlug plan → pReviewIteration q = pReviewIteration plan →
  EffectiveStatus q = EffectiveStatus plan →
  body_ok plan (verdict_accepted E req (EffectiveStatus plan) target q).
Proof.
  intros Htq Hs Hi He. pose proof (tracks_settled _ _ Htq) as Hd. unfold verdict_accepted. case_match eqn:Hc; [apply body_err|].
  apply negb_false_iff in Hc. apply body_bind; [auto with semspec|]. intros w.
  destruct (assembleRequirementBranches (envSandbox E) q (wSandbox w)) as [[p log] e] eqn:Ea.
  destruct (assemble_cases _ _ _ _ _ _ Ea) as ((b & c & ->) & _).
  assert (Hdone : tracks plan (set_pStatus target (set_pAssembledMergeCommit c (set_pAssembledBranch b q)))).
  { eapply tracks_to; [exact Hc|done|done|simpl; lia|done]. }
  apply body_writes.
  - apply writes_bind; [auto with semspec|]. intros _. destruct e as [e|]; [|by apply finish_ok].
    apply writes_bind; [apply looks_writes; auto with semspec|]. intros t'.
    apply writes_bind; [|auto with semspec]. apply writes_save. by apply tracks_same.
  - intros w'. unfold mbind at 1, M_bind at 1. simpl. destruct e as [e|]; [|by apply (finish_ok plan)].
    unfold now, tick, mbind, M_bind. simpl. by destruct (save E _ _).
Qed.

Lemma body_refused req plan q :
  pSlug q = pSlug plan → pReviewIteration q = pReviewIteration plan →
  pPlanDecisions q = pPlanDecisions plan →
  body_ok plan (verdict_refused E req (EffectiveStatus plan) q).
Proof.
  intros Hs Hi Hd. unfold verdict_refused. case_match eqn:Hc; [apply body_err|].
  apply negb_false_iff in Hc. apply body_bind; [auto with semspec|]. intros t.
  apply body_writes; apply (finish_ok plan);
    (eapply tracks_to; [exact Hc|done|done|simpl; lia|]); apply (settled_app plan _ (qvPlanDecisions req));
    simpl; by rewrite Hd.
Qed.

Lemma body_verdict req plan : body_ok plan (verdict_body E req plan).
Proof.
  unfold verdict_body. cbv zeta. case_match; [apply body_err|].
  apply body_bind; [auto with semspec|]. intros t.
  destruct (qvVerdict req); first [by apply body_refused | by apply body_accepted; [apply tracks_same|..]].
Qed.
End handler_lemmas.

(** ** One handler *)

(** What every handler promises about the store, for the slug it serves. *)
Record handler_ok (slug : option string) (w w' : World) (no : bool) : Prop := {
  ho_wf : store_wf w';
  ho_other s : Some s ≠ slug → visible w' s = visible w s;
  ho_slug s : visible w' s = visible w s ∨
    ∃ p q, visible w s = Some p ∧ visible w' s = Some q ∧ tracks p q;
  ho_stored s q : stored w' s q → stored w s q ∨ ∃ p, visible w s = Some p ∧ tracks p q;
  ho_refused : no = true →
    (∀ s, visible w' s = visible w s) ∧ wKV w' = wKV w ∧ wOut w' = wOut w ∧ wSandbox w' = wSandbox w }.

Lemma err_ok slug w e : store_wf w → handler_ok slug w w (refused (Some e)).
Proof. intros Hwf. split; auto. Qed.

Lemma get_untouched E slug w : let w' := (get E slug w).1 in
  wKV w' = wKV w ∧ wOut w' = wOut w ∧ wSandbox w' = wSandbox w.
Proof.
  unfold get, tick, read, put_cache, mbind, M_bind, mret, M_ret. simpl.
  by repeat case_match.
Qed.

(** The plan was not found. *)
Lemma unserved_ok E slug w w1 no : store_wf w → get E slug w = (w1, None) →
  handler_ok (Some slug) w w1 no.
Proof.
  intros Hwf Eg. pose proof (get_untouched E slug w) as (Gk & Go & Gs).
  pose proof (get_evolves E (λ _, True) slug w Hwf) as (Hwf1 & _).
  destruct (get_cases _ _ _ _ _ Hwf Eg) as (Hs & Hv & _). rewrite Eg in *. simpl in *.
  split; [done|by auto|by auto|by auto|]. by intros _.
Qed.

(** The plan was found, and only later versions of it were stored. *)
Lemma served_ok E slug plan w w1 w2 no : store_wf w → get E slug w = (w1, Some plan) →
  evolves (tracks plan) w1 w2 → (no = true → untouched w1 w2) →
  handler_ok (Some slug) w w2 no.
Proof.
  intros Hwf Eg Hw Hq. pose proof (get_untouched E slug w) as (Gk & Go & Gs).
  pose proof (get_evolves E (λ _, True) slug w Hwf) as (Hwf1 & _).
  destruct (get_cases _ _ _ _ _ Hwf Eg) as (Hs & Hv & Hr). rewrite Eg in *. simpl in *.
  destruct (Hw Hwf1) as (Hwf2 & Hst2 & Hv2). pose proof (visible_slug _ _ _ Hwf Hr) as Hps.
  split; [done| | | |].
  - intros s Hne. rewrite <- Hv. destruct (Hv2 s) as [->|(q & _ & Hqs & [Hqp _ _ _])]; [done|].
    exfalso. apply Hne. congruence.
  - intros s. destruct (Hv2 s) as [->|(q & Hq' & Hqs & Ht)]; [by left|]. right. exists plan, q.
    split_and!; [|done|done]. destruct Ht as [Hqp _ _ _]. by replace s with slug by congruence.
  - intros s q Hsq. pose proof (Hwf2 _ _ Hsq) as [Hqs _].
    destruct (Hst2 _ _ Hsq) as [?|Ht]; [by left; apply Hs|]. right. exists plan.
    split; [|done]. destruct Ht as [Hqp _ _ _]. by replace s with slug by congruence.
  - intros Hrf. destruct (Hq Hrf) as ([Hc Hkv] & Ho & Hsb). rewrite Hkv, Ho, Hsb.
    split; [|done]. intros s. rewrite <- Hv. unfold visible. by rewrite Hc, Hkv.
Qed.

Lemma with_plan_ok E slug k w :
  (∀ plan, pSlug plan = slug → body_ok plan (k plan)) → store_wf w →
  handler_ok (Some slug) w (with_plan E slug k w).1 (refused (with_plan E slug k w).2).
Proof.
  intros Hk Hwf. unfold with_plan, mbind, M_bind.
  destruct (get E slug w) as [w1 [plan|]] eqn:Eg; [|by apply (unserved_ok E)].
  destruct (get_cases _ _ _ _ _ Hwf Eg) as (_ & _ & Hr).
  destruct (Hk plan (visible_slug _ _ _ Hwf Hr)) as [Hw Hq].
  apply (served_ok E slug plan w w1); [done|done|apply Hw|apply Hq].
Qed.

(** Unfold a handler, and case on the checks it makes before it reads the
    plan. *)
Ltac unfold_handlers :=
  unfold handleExploredMutation, handleDraftedMutation, handleReviewedMutation,
    handleApprovedMutation, handleRequirementsMutation, handleArchitectureMutation,
    handleStoriesMutation, handleStoryStatusMutation, handleScenariosMutation,
    handleScenariosReviewedMutation, handleArchitectureReviewedMutation,
    handleRequirementsReviewedMutation, handleReadyForExecutionMutation,
    handleGenerationFailedMutation, handleClaimMutation, handleRevisionMutation,
    handleQAStartMutation, handleReviewApproveMutation.

Ltac request_guards :=
  repeat match goal with
  | |- handler_ok _ _ (?f ?w).1 (refused (?f ?w).2) =>
      match f with
      | if ?b then _ else _ => destruct b eqn:?
      | match ValidateCapabilitySet ?x with _ => _ end => destruct (ValidateCapabilitySet x)
      | match ValidateRequirementDAG ?x with _ => _ end => destruct (ValidateRequirementDAG x)
      | match ValidateStories ?x with _ => _ end => destruct (ValidateStories x)
      end
  end.

Lemma handle_ok E m w : store_wf w →
  handler_ok (slug_of m) w (handle E m w).1 (refused (handle E m w).2).
Proof.
  intros Hwf. destruct m as [r|r|r|r|r|r|r|r|r|r|r|r|r|r|r|r|r|r|r]; destruct r as [req|];
    try (by apply err_ok); simpl slug_of; cbn [fmap option_fmap option_map handle];
    unfold_handlers.
  all: request_guards; try (by apply err_ok).
  all: try (apply with_plan_ok; [|done]; intros plan Hplan).
  - apply body_explored.
  - apply body_drafted.
  - apply body_guard; [done|]. intros Hc. apply body_bind; [auto with semspec|]. intros t.
    apply body_save. by eapply tracks_to.
  - apply body_guard; [done|]. intros Hc. apply body_bind; [auto with semspec|]. intros t.
    apply body_save. by eapply tracks_to.
  - apply body_guard; [done|]. intros Hc. case_match; [apply body_err|].
    apply body_save. by eapply tracks_to.
  - apply body_guard; [done|]. intros Hc. apply body_save. case_match; by eapply tracks_to.
  - apply body_stories.
  - apply body_story_status.
  - apply body_scenarios.
  - apply body_scenarios_reviewed.
  - apply body_reviewed.
  - apply body_reviewed.
  - apply body_ready.
  - apply body_guard; [done|]. intros Hc. apply body_bind; [auto with semspec|]. intros t.
    apply body_save. by eapply tracks_to.
  - apply body_guard; [done|]. intros Hc. apply body_save. by eapply tracks_to.
  - apply body_revision. breflect. lia.
  - apply body_qa_start.
  - unfold handleQAVerdictMutation. case_match; [by apply err_ok|].
    destruct (qvVerdict req); try (by apply err_ok);
      (apply with_plan_ok; [|done]; intros; apply body_verdict).
  - case_match; [apply body_err|]. apply body_guard; [done|]. intros Hc. apply body_save.
    by eapply tracks_to.
Qed.

(** ** Success *)

Lemma get_cached E slug w p :
  wCache w !! slug = Some p → get E slug w = (ticked w, Some p).
Proof. intros H. unfold get, tick, read, mbind, M_bind, mret, M_ret. simpl. by rewrite H. Qed.

Lemma with_plan_cached E slug k w p :
  wCache w !! slug = Some p → with_plan E slug k w = k p (ticked w).
Proof. intros H. unfold with_plan, mbind, M_bind. by rewrite (get_cached _ _ _ _ H). Qed.

Lemma with_plan_inv E slug k w w' r : store_wf w → with_plan E slug k w = (w', r) →
  r ≠ Some PlanNotFound →
  ∃ p w1, visible w slug = Some p ∧ pSlug p = slug ∧ store_wf w1 ∧
    (∀ s, visible w1 s = visible w s) ∧ wOut w1 = wOut w ∧ wSandbox w1 = wSandbox w ∧
    k p w1 = (w', r).
Proof.
  intros Hwf H Hr. pose proof (get_untouched E slug w) as (_ & Ho & Hs).
  pose proof (get_evolves E (λ _, True) slug w Hwf) as (Hwf1 & _).
  unfold with_plan, mbind, M_bind, mret, M_ret in H.
  destruct (get E slug w) as [w1 [p|]] eqn:Eg; [|by simplify_eq].
  destruct (get_cases _ _ _ _ _ Hwf Eg) as (_ & Hv & Hp). simpl in *.
  exists p, w1. split_and!; try done. by apply (visible_slug w).
Qed.

(** After a successful save the plan is in the cache. *)
Lemma save_None E q w w' : save E q w = (w', None) →
  wCache w' !! pSlug q = Some q ∧ visible w' (pSlug q) = Some q ∧ wOut w' = wOut w ∧
  wSandbox w' = wSandbox w.
Proof.
  unfold save, tick, put_cache, put_kv, read, mbind, M_bind, mret, M_ret, visible. intros H.
  repeat case_in H; simplify_eq; simpl; rewrite lookup_insert_eq; done.
Qed.

Lemma save_reply_None E q w w' : save_reply E q w = (w', None) →
  wCache w' !! pSlug q = Some q ∧ visible w' (pSlug q) = Some q ∧ wOut w' = wOut w ∧
  wSandbox w' = wSandbox w.
Proof.
  unfold save_reply, mbind, M_bind, mret, M_ret. destruct (save E q w) as [w1 [e|]] eqn:H; simpl; [done|].
  intros; simplify_eq. by apply (save_None E).
Qed.

Lemma guard_transition_None plan target k w w' : guard_transition plan target k w = (w', None) →
  can plan target = true ∧ k w = (w', None).
Proof. unfold guard_transition, mret, M_ret. case_match; intros; by simplify_eq. Qed.

(** Run mutations one after the other. *)
Fixpoint run (E : Env) (ms : list mutation) (w : World) : World * list reply :=
  match ms with
  | [] => (w, [])
  | m :: ms =>
      let (w1, r) := handle E m w in
      let (w2, rs) := run E ms w1 in (w2, r :: rs)
  end.

(** Everything that changes the store: a mutation, a creation, a deletion, an
    expiry, each with its own behaviour of the outside. *)
Inductive world_step : World → World → Prop :=
| step_handle E m w : world_step w (handle E m w).1
| step_create E slug title brief level auto w :
    world_step w (create E slug title brief level auto w).1
| step_delete E slug w : world_step w (delete_plan E slug w).1
| step_expire slug w : world_step w (expire slug w).

Definition plans_ok (w : World) : Prop :=
  store_wf w ∧ ∀ s p, stored w s p → Status_IsValid (EffectiveStatus p) = true.

Lemma plan_step_valid s t : rtc plan_step s t → Status_IsValid s = true → Status_IsValid t = true.
Proof. induction 1 as [|s u t Hsu _ IH]; [done|]. intros _. apply IH. by apply Status_can_valid in Hsu as [_ ?]. Qed.

Lemma stored_shrinks w w' :
  (∀ s p, stored w' s p → stored w s p) → plans_ok w → plans_ok w'.
Proof. intros Hs [Hwf Hv]. split; intros s p ?%Hs; [by apply Hwf|by eapply Hv]. Qed.

Lemma expire_stored slug w s p : stored (expire slug w) s p → stored w s p.
Proof.
  intros [H|H]; [left|by right]. simpl in H. by apply lookup_delete_Some in H as [_ ?].
Qed.

Lemma delete_stored E slug w s p : store_wf w →
  stored (delete_plan E slug w).1 s p → stored w s p.
Proof.
  intros Hwf. unfold delete_plan, mbind, M_bind.
  destruct (get E slug w) as [w1 r] eqn:Eg. destruct (get_cases _ _ _ _ _ Hwf Eg) as (Hs & _ & _).
  destruct r as [q|]; [|apply Hs]. unfold tick, del_cache, del_kv, mret, M_ret. simpl.
  destruct (ioGraphErr _); [intros H; by apply Hs|].
  destruct (ioKvPutErr _); simpl; intros H; apply Hs.
  - by apply expire_stored in H.
  - destruct H as [H|(kv & Hkv & H)]; [by left; simpl in H; apply lookup_delete_Some in H as [_ ?]|].
    right. simpl in Hkv. destruct (wKV w1) as [kv1|]; simplify_eq/=.
    apply lookup_delete_Some in H as [_ ?]. eauto.
Qed.

Lemma create_ok E slug title brief level auto w :
  plans_ok w → plans_ok (create E slug title brief level auto w).1.
Proof.
  intros [Hwf Hv]. unfold create. destruct (ValidateSlug slug); [done|].
  destruct (title =? ""); [done|]. rewrite exists_bind.
  case_bool_decide; [done|]. rewrite now_bind.
  set (plan := ensureRuntimeContractFacts _ _).
  assert (Hp : EffectiveStatus plan = StatusCreated).
  { unfold plan, ensureRuntimeContractFacts. repeat case_match; done. }
  unfold mbind, M_bind. pose proof (writes_save E (λ q, q = plan) plan eq_refl (ticked w)) as He.
  destruct (save E plan (ticked w)) as [w1 r]. simpl in *.
  destruct (He Hwf) as (Hwf1 & Hs & _). split; [done|].
  intros s p [Hsp| ->]%Hs; [by eapply Hv|by rewrite Hp].
Qed.

(** Replacing the element a search finds keeps the search at its place. *)
Lemma list_find_insert_same {A} (P : A → Prop) `{∀ x, Decision (P x)} l i x y :
  list_find P l = Some (i, x) → P y → list_find P (<[i := y]> l) = Some (i, y).
Proof.
  revert i. induction l as [|a l IH]; intros i; simpl; [done|].
  destruct (decide (P a)) as [Ha|Ha].
  - intros [= <- ->] Hy. simpl. by rewrite decide_True.
  - destruct (list_find P l) as [[j z]|] eqn:El; simpl; [|done].
    intros [= <- ->] Hy. simpl. rewrite decide_False by done. by rewrite (IH j eq_refl Hy).
Qed.

(** *** Accepted revisions and the review budget *)

Definition is_revision (slug : string) (m : mutation) : bool :=
  match m with
  | MRevision (Some req) => nqSlug req =? slug
  | _ => false
  end.

(** The number of revisions of the plan a run accepted. *)
Definition accepted_revision (slug : string) (m : mutation) (r : reply) : bool :=
  match r with None => is_revision slug m | Some _ => false end.

Fixpoint accepted_revisions (slug : string) (ms : list mutation) (rs : list reply) : nat :=
  match ms, rs with
  | m :: ms, r :: rs =>
      (if accepted_revision slug m r then 1 else 0) + accepted_revisions slug ms rs
  | _, _ => 0
  end.

Lemma record_review_fields E req plan :
  pSlug (record_review E req plan) = pSlug plan ∧
  pReviewIteration (record_review E req plan) = (pReviewIteration plan + 1)%Z.
Proof. done. Qed.

Lemma escalated_plan_fields E req t plan :
  pSlug (escalated_plan E req t plan) = pSlug plan ∧
  pReviewIteration (escalated_plan E req t plan) = pReviewIteration plan ∧
  EffectiveStatus (escalated_plan E req t plan) = StatusRejected.
Proof. done. Qed.

Lemma emit_visible E mk w s : visible (emitRecoveryRequested E mk w).1 s = visible w s.
Proof.
  unfold emitRecoveryRequested, mbind, M_bind. simpl. by destruct (_ || _).
Qed.

Lemma escalate_success E p q req current w w' : escalateRevision E q req current w = (w', None) →
  q = record_review E req p →
  ∃ q', visible w' (pSlug p) = Some q' ∧ pReviewIteration q' = (pReviewIteration p + 1)%Z ∧
    EffectiveStatus q' = StatusRejected.
Proof.
  intros H Hq. destruct (record_review_fields E req p) as [Hs Hi]. rewrite <- Hq in Hs, Hi. clear Hq.
  unfold escalateRevision in H. case_match; [done|]. rewrite now_bind in H. cbv zeta in H.
  destruct (escalated_plan_fields E req (ioNow (envIO E (wTick w))) q) as (Hs' & Hi' & He).
  revert Hs' Hi' He H. generalize (escalated_plan E req (ioNow (envIO E (wTick w))) q) as q'.
  intros q' Hs' Hi' He H. unfold mbind at 1, M_bind at 1 in H.
  destruct (save E q' (ticked w)) as [w2 [e|]] eqn:Es; [done|].
  apply save_None in Es as (_ & Hv & _). exists q'. rewrite Hs', Hs in Hv. split_and!; [|lia|done].
  revert H. generalize (phase_local_request (nqSlug req) (pLastError q')
    (pReviewFormattedFindings q') (nqTraceID req) []) as mk. intros mk H.
  pose proof (emit_visible E mk w2 (pSlug p)) as Hem. unfold mbind, M_bind in H.
  destruct (emitRecoveryRequested E mk w2) as [w3 u]. injection H as <-. simpl in Hem. congruence.
Qed.

Lemma revise_success E p q req target w w' :
  save_reply E q w = (w', None) → q = revised_plan E req p → (1 ≤ nqRound req ≤ 4)%Z →
  ∃ q', visible w' (pSlug p) = Some q' ∧ pReviewIteration q' = (pReviewIteration p + 1)%Z ∧
    (target = (reentry E req (record_review E req p)).2 → EffectiveStatus q' = target).
Proof.
  intros H Hq Hr. destruct (revised_plan_fields E req p) as (H1 & H2 & H3 & _).
  rewrite <- Hq in H1, H2, H3. clear Hq. apply save_reply_None in H as (_ & Hv & _).
  exists q. rewrite H1 in Hv. split_and!; [done|done|]. intros ->.
  pose proof (reentry_target E req (record_review E req p) Hr) as Hcan.
  rewrite EffectiveStatus_explicit, H2; [done|].
  apply Status_can_valid in Hcan as [_ Hv2]. intros E2. rewrite H2 in E2. by rewrite E2 in Hv2.
Qed.

(** An accepted revision spends one iteration and either rejects the plan, at
    the limit, or sends it back to an earlier phase. *)
Lemma revision_success E req w w' : store_wf w →
  handle E (MRevision (Some req)) w = (w', None) →
  ∃ p q, visible w (nqSlug req) = Some p ∧ visible w' (nqSlug req) = Some q ∧
    pReviewIteration q = (pReviewIteration p + 1)%Z ∧
    EffectiveStatus p = expected_status (nqRound req) ∧
    if bool_decide (max_iterations E ≤ pReviewIteration q)%Z then EffectiveStatus q = StatusRejected
    else EffectiveStatus q = (reentry E req (record_review E req p)).2.
Proof.
  intros Hwf H. simpl in H. unfold handleRevisionMutation in H.
  destruct (_ || _ || _) eqn:Hg in H; [done|]. destruct (nqVerdict req !=? _) in H; [done|].
  apply with_plan_inv in H as (p & w1 & Hp & Hps & _ & _ & _ & _ & H); [|done|done].
  exists p. unfold revision_body in H. case_match eqn:Hst; [done|]. apply negb_false_iff in Hst.
  apply (proj1 (eqb_true _ _)) in Hst.
  assert (Hr : (1 ≤ nqRound req ≤ 4)%Z) by (breflect; lia). clear Hg.
  destruct (record_review_fields E req p) as [_ Hi]. rewrite Hi in H.
  destruct (bool_decide (max_iterations E ≤ pReviewIteration p + 1)%Z) eqn:Hmax.
  - eapply escalate_success in H as (q & Hq & Hiq & He); [|done].
    exists q. rewrite Hps in Hq. rewrite Hiq, Hmax. done.
  - pose proof (reentry_target E req (record_review E req p) Hr) as Hcan.
    pose proof (revise_success E p (revised_plan E req p) req
      (reentry E req (record_review E req p)).2 w1 w') as Hrev. unfold revised_plan in Hrev.
    destruct (reentry E req (record_review E req p)) as [q0 target]. simpl in Hcan, Hrev.
    rewrite Hst, Hcan in H. simpl in H.
    destruct (Hrev H eq_refl Hr) as (q & Hq & Hiq & He). exists q. rewrite Hps in Hq.
    rewrite Hiq, Hmax. split_and!; try done. by apply He.
Qed.

Lemma run_iterations E ms slug w p : store_wf w → visible w slug = Some p →
  let '(w', rs) := run E ms w in store_wf w' ∧ ∃ q, visible w' slug = Some q ∧
    (pReviewIteration p + Z.of_nat (accepted_revisions slug ms rs) ≤ pReviewIteration q)%Z.
Proof.
  revert w p. induction ms as [|m ms IH]; intros w p Hwf Hp; simpl.
  - split; [done|]. exists p. split; [done|]. lia.
  - pose proof (handle_ok E m w Hwf) as [Hwf1 _ Hs _ _].
    destruct (handle E m w) as [w1 r] eqn:Eh. simpl in *.
    assert (H1 : ∃ q, visible w1 slug = Some q ∧ (pReviewIteration p +
      (if accepted_revision slug m r then 1 else 0) ≤ pReviewIteration q)%Z).
    { destruct (accepted_revision slug m r) eqn:Hm.
      - destruct r; [done|]. destruct m; try done. destruct req as [req|]; [|done]. simpl in Hm.
        apply (proj1 (eqb_true _ _)) in Hm. subst slug.
        destruct (revision_success E req w w1 Hwf Eh) as (p' & q & Hp' & Hq & Hi & _).
        exists q. split; [done|]. rewrite Hp in Hp'. injection Hp' as <-. lia.
      - destruct (Hs slug) as [Hv|(p' & q & Hp' & Hq & [_ _ Hi])].
        + exists p. rewrite Hv. split; [done|lia].
        + exists q. split; [done|]. rewrite Hp in Hp'. injection Hp' as <-. lia. }
    destruct H1 as (q1 & Hq1 & Hi1). specialize (IH w1 q1 Hwf1 Hq1).
    destruct (run E ms w1) as [w2 rs]. destruct IH as (Hwf2 & q & Hq & Hi). split; [done|].
    exists q. split; [done|]. destruct (accepted_revision slug m r); lia.
Qed.

(** What an accepted batch of scenarios leaves in the store. *)
Lemma scenarios_accepted E req w w' : store_wf w →
  handle E (MScenarios (Some req)) w = (w', None) →
  ∃ p, visible w (sqSlug req) = Some p ∧ pSlug p = sqSlug req ∧
    ∃ q, wCache w' !! sqSlug req = Some q ∧ visible w' (sqSlug req) = Some q ∧
      let m := merge_scenarios p req in
      if negb (is_nil (pRequirements m)) && all_covered m
      then q = set_pStatus StatusScenariosGenerated (set_pPendingArchitectureRevision None m)
      else q = m.
Proof.
  intros Hwf H. simpl in H. unfold handleScenariosMutation in H. destruct (_ || _); [done|].
  apply with_plan_inv in H as (p & w0 & Hp & Hps & _ & _ & _ & _ & H); [|done|done].
  exists p. split_and!; [done|done|]. destruct (merge_scenarios_frame p req) as (Hs & _).
  rewrite Hps in Hs. revert Hs H. generalize (merge_scenarios p req) as m. intros m Hs H. cbv zeta.
  destruct (is_nil (pRequirements m)); simpl.
  - apply save_reply_None in H as (Hc & Hv & _). rewrite Hs in Hc, Hv. eauto.
  - destruct (all_covered m).
    + apply guard_transition_None in H as [_ H]. apply save_reply_None in H as (Hc & Hv & _).
      cbn [pSlug set_pStatus set_pPendingArchitectureRevision] in Hc, Hv. rewrite Hs in Hc, Hv. eauto.
    + apply save_reply_None in H as (Hc & Hv & _). rewrite Hs in Hc, Hv. eauto.
Qed.

Lemma merge_scenarios_batch p req : sqScenarios req ≠ [] →
  pScenarios (merge_scenarios p req) =
    (filter (λ s, ¬ (scRequirementID s = sqRequirementID req ∧
        (sqStoryID req = "" ∨ scStoryID s = sqStoryID req))) (pScenarios p) ++ sqScenarios req)%list.
Proof.
  intros Hne. unfold merge_scenarios. rewrite (proj2 (is_nil_false _) Hne). simpl. f_equal.
  apply list_filter_iff. intros s. unfold scenarioMatchesMutationScope.
  rewrite <- not_true_iff_false. breflect. tauto.
Qed.

Lemma all_covered_spec plan : all_covered plan = true ↔
  ∀ r, r ∈ pRequirements plan → ∃ s, s ∈ pScenarios plan ∧ scRequirementID s = rID r.
Proof.
  unfold all_covered. rewrite forallb_forall. split.
  - intros H r Hr%list_elem_of_In. apply H, existsb_exists in Hr as (s & Hs%list_elem_of_In & He).
    breflect. eauto.
  - intros H r Hr%list_elem_of_In. apply existsb_exists. destruct (H r Hr) as (s & Hs & He).
    exists s. split; [by apply list_elem_of_In|]. by breflect.
Qed.

(** A batch with a scenario of its own requirement uncovers nothing. *)
Lemma merge_keeps_covered p req s : all_covered p = true →
  s ∈ sqScenarios req → scRequirementID s = sqRequirementID req →
  all_covered (merge_scenarios p req) = true.
Proof.
  rewrite !all_covered_spec. intros Hp Hs Hown r. destruct (merge_scenarios_frame p req) as (_ & _ & _ & -> & _).
  intros Hr. assert (Hne : sqScenarios req ≠ []) by (by destruct (sqScenarios req); [apply not_elem_of_nil in Hs|]).
  rewrite (merge_scenarios_batch _ _ Hne). setoid_rewrite elem_of_app.
  destruct (decide (rID r = sqRequirementID req)) as [E|E]; [exists s; split; [by right|congruence]|].
  destruct (Hp r Hr) as (s' & Hs' & He). exists s'. split; [left|done].
  apply list_elem_of_filter. split; [|done]. intros [? _]. congruence.
Qed.

Lemma save_out E q w : wOut (save E q w).1 = wOut w ∧ wSandbox (save E q w).1 = wSandbox w.
Proof.
  unfold save, tick, put_cache, put_kv, read, mbind, M_bind, mret, M_ret.
  destruct (ValidateSlug _); [done|]. destruct (ioCtxErr _); [done|].
  destruct (_ && ioMarshalErr _); [done|]. by destruct (ioKvPutErr _), (ioGraphErr _).
Qed.

Lemma setStatus_out E q target w : wOut (setPlanStatusCached E q target w).1 = wOut w.
Proof.
  unfold setPlanStatusCached, mbind, M_bind, mret, M_ret. case_match; [done|].
  pose proof (save_out E (set_pStatus target q) w) as [<- _]. by destruct (save E _ w).
Qed.

Lemma setStatus_None E q target w w' q' : setPlanStatusCached E q target w = (w', (q', None)) →
  can q target = true ∧ q' = set_pStatus target q ∧ visible w' (pSlug q) = Some q' ∧ wOut w' = wOut w.
Proof.
  unfold setPlanStatusCached, can. case_match eqn:Hc; [done|]. apply negb_false_iff in Hc. cbv zeta.
  assert (Hs : pSlug (set_pStatus target q) = pSlug q) by done. revert Hs.
  generalize (set_pStatus target q) as q1. intros q1 Hs. unfold mbind, M_bind, mret, M_ret.
  destruct (save E q1 w) as [w1 [e|]] eqn:Es; intros; simplify_eq.
  apply save_None in Es as (_ & Hv & Ho & _). rewrite Hs in Hv. done.
Qed.

(** A rollback to ready_for_execution is refused: the status machine does not
    allow it from implementing. *)
Lemma rollback_refused E q w : pStatus q = StatusImplementing →
  setPlanStatusCached E q StatusReadyForExecution w
    = (w, (q, Some (TransitionErr StatusImplementing StatusReadyForExecution))).
Proof.
  intros Hq. unfold setPlanStatusCached. by rewrite (EffectiveStatus_explicit q), Hq by (by rewrite Hq).
Qed.

Lemma publish_cases E q force w : let (w', published) := publishScenarioOrchestrator E q force w in
  (∀ s, visible w' s = visible w s) ∧
  wOut w' = (if published : bool
             then wOut w ++ [MsgOrchestrate (scenarioOrchestrationTriggerForPlan q
                               (ioUUID (envIO E (wTick w))) force)] else wOut w)%list.
Proof. unfold publishScenarioOrchestrator, tick, send, mbind, M_bind, mret, M_ret. simpl. by destruct (ioPublishErr _). Qed.

Lemma start_cases E q force w w' r :
  startExecutionFromReady E q force w = (w', r) →
  match r with
  | None => pRequirements q ≠ [] ∧ pScenarios q ≠ [] ∧
      visible w' (pSlug q) = Some (set_pStatus StatusImplementing q) ∧
      ∃ id, wOut w' = (wOut w ++ [MsgOrchestrate (scenarioOrchestrationTriggerForPlan
                                (set_pStatus StatusImplementing q) id force)])%list
  | Some ExecTrigger =>
      visible w' (pSlug q) = Some (set_pStatus StatusImplementing q) ∧ wOut w' = wOut w
  | Some _ => wOut w' = wOut w
  end.
Proof.
  unfold startExecutionFromReady. destruct (is_nil (pRequirements q)) eqn:Hr; [by intros [= <- <-]|].
  destruct (is_nil (pScenarios q)) eqn:Hs; [by intros [= <- <-]|].
  apply is_nil_false in Hr, Hs. unfold mbind at 1, M_bind at 1.
  pose proof (setStatus_out E q StatusImplementing w) as Ho.
  destruct (setPlanStatusCached E q StatusImplementing w) as [w1 [q1 [e|]]] eqn:Es.
  { intros [= <- <-]. done. }
  apply setStatus_None in Es as (_ & Hq1 & Hv & _). simpl in Ho.
  assert (Hst : pStatus q1 = StatusImplementing) by (by rewrite Hq1). rewrite <- Hq1. clear Hq1.
  unfold mbind at 1, M_bind at 1. pose proof (publish_cases E q1 force w1) as Hp.
  destruct (publishScenarioOrchestrator E q1 force w1) as [w2 [|]]; destruct Hp as [Hv2 Ho2].
  - intros [= <- <-]. rewrite Hv2, Ho2, Ho. eauto.
  - unfold mbind, M_bind, mret, M_ret. rewrite (rollback_refused _ _ _ Hst). intros [= <- <-].
    rewrite Hv2, Ho2. done.
Qed.

Lemma ready_cases E q force w w' r :
  transitionToReadyForExecution E q force w = (w', r) →
  match r with
  | None =>
      if envAutoStart E then
        pRequirements q ≠ [] ∧ pScenarios q ≠ [] ∧
        visible w' (pSlug q) = Some (set_pStatus StatusImplementing q) ∧
        ∃ id, wOut w' = (wOut w ++ [MsgOrchestrate (scenarioOrchestrationTriggerForPlan q id force)])%list
      else visible w' (pSlug q) = Some (set_pStatus StatusReadyForExecution q) ∧ wOut w' = wOut w
  | Some ExecTrigger =>
      visible w' (pSlug q) = Some (set_pStatus StatusImplementing q) ∧ wOut w' = wOut w
  | Some _ => wOut w' = wOut w
  end.
Proof.
  unfold transitionToReadyForExecution, mbind, M_bind.
  pose proof (setStatus_out E q StatusReadyForExecution w) as Ho.
  destruct (setPlanStatusCached E q StatusReadyForExecution w) as [w1 [q1 [e|]]] eqn:Es.
  { intros [= <- <-]. done. }
  apply setStatus_None in Es as (_ & -> & Hv & _). simpl in Ho.
  destruct (envAutoStart E); [|by intros [= <- <-]].
  intros H. apply start_cases in H. rewrite Ho in H. exact H.
Qed.

(** The plan a ready_for_execution mutation advances differs in review data only. *)
Lemma refresh_frame plan summary t :
  let q := refreshApprovedReviewMetadata plan summary t in
  pSlug q = pSlug plan ∧ pRequirements q = pRequirements plan ∧ pStories q = pStories plan ∧
  pScenarios q = pScenarios plan.
Proof. unfold refreshApprovedReviewMetadata. by case_match. Qed.

Lemma ready_mutation_cases E req w w' r : store_wf w →
  handle E (MReadyForExecution (Some req)) w = (w', r) → refused r = false →
  ∃ p q w1 e, visible w (yqSlug req) = Some p ∧ pSlug p = yqSlug req ∧ wOut w1 = wOut w ∧
    pSlug q = pSlug p ∧ pRequirements q = pRequirements p ∧ pStories q = pStories p ∧
    pScenarios q = pScenarios p ∧
    transitionToReadyForExecution E q [] w1 = (w', e) ∧ r = AdvanceFailed <$> e.
Proof.
  intros Hwf H Hr. simpl in H. unfold handleReadyForExecutionMutation in H.
  destruct (yqSlug req =? ""); [by injection H as _ <-|].
  apply with_plan_inv in H as (p & w1 & Hp & Hps & _ & _ & Ho & _ & H); [|done|by intros ->].
  unfold guard_transition in H. destruct (can p StatusReadyForExecution); [|by injection H as _ <-].
  rewrite now_bind in H. cbv zeta in H.
  destruct (refresh_frame p "Plan approved; ready for execution." (ioNow (envIO E (wTick w1))))
    as (H1 & H2 & H3 & H4). revert H1 H2 H3 H4 H.
  generalize (refreshApprovedReviewMetadata p "Plan approved; ready for execution."
    (ioNow (envIO E (wTick w1)))) as q. intros q H1 H2 H3 H4 H.
  unfold mbind, M_bind, mret, M_ret in H.
  destruct (transitionToReadyForExecution E q [] (ticked w1)) as [w2 e] eqn:Et.
  injection H as <- <-. exists p, q, (ticked w1), e. by split_and!.
Qed.

Lemma reentry_open E req plan : (reentry E req plan).2 ≠ StatusRejected.
Proof.
  unfold reentry, determineR2ReentryPoint, reenterArchitecturePhase, reenterRequirementsPhase.
  by repeat case_match.
Qed.

(** *** The QA verdict *)

Definition accepting (v : QAVerdict) : bool :=
  (v =? QAVerdictApproved) || (v =? QAVerdictConditionallyApproved).

Lemma recovery_cases E q req w : let w' := (fireQAVerdictRecovery E q req w).1 in
  (∀ s, visible w' s = visible w s) ∧ wSandbox w' = wSandbox w ∧
  (wOut w' = wOut w ∨
   (qvVerdict req = QAVerdictNeedsChanges ∨ qvVerdict req = QAVerdictRejected) ∧
   ∃ rr, wOut w' = (wOut w ++ [MsgRecovery rr])%list ∧ rrSlug rr = qvSlug req ∧
     rrAffectedRequirementIDs rr = collectActiveRequirementIDsForRecovery q).
Proof.
  unfold fireQAVerdictRecovery. destruct (_ && _) eqn:Hv; [by split_and!; [| |left]|].
  assert (Hv' : qvVerdict req = QAVerdictNeedsChanges ∨ qvVerdict req = QAVerdictRejected).
  { apply andb_false_iff in Hv as [Hv|Hv]; apply negb_false_iff in Hv; breflect; auto. }
  split; [intros s; apply emit_visible|]. unfold emitRecoveryRequested, tick, send, mbind, M_bind, mret, M_ret. simpl.
  destruct (_ || _); simpl; (split; [done|]); [by left|]. right. split; [done|]. eexists. split; [done|]. done.
Qed.

Lemma finish_None E q req w w' : finish_verdict E q req w = (w', None) →
  visible w' (pSlug q) = Some q ∧
  wSandbox w' = deleteQAWorktree (envSandbox E) (qvSlug req) (wSandbox w) ∧
  (wOut w' = wOut w ∨
   (qvVerdict req = QAVerdictNeedsChanges ∨ qvVerdict req = QAVerdictRejected) ∧
   ∃ rr, wOut w' = (wOut w ++ [MsgRecovery rr])%list ∧ rrSlug rr = qvSlug req ∧
     rrAffectedRequirementIDs rr = collectActiveRequirementIDsForRecovery q).
Proof.
  unfold finish_verdict. unfold mbind at 1, M_bind at 1.
  destruct (save E q w) as [w1 [e|]] eqn:Es; [done|]. apply save_None in Es as (_ & Hv & Ho & Hs).
  unfold read, set_sandbox, mbind, M_bind, mret, M_ret.
  set (w2 := MkWorld _ _ _ _ _). pose proof (recovery_cases E q req w2) as Hr.
  destruct (fireQAVerdictRecovery E q req w2) as [w3 u]. simpl in Hr. destruct Hr as (Hv3 & Hs3 & Ho3).
  intros [= <-]. rewrite Hv3, Hs3. unfold w2. simpl. rewrite Hs. split_and!; [done|done|].
  revert Ho3. unfold w2. simpl. by rewrite Ho.
Qed.

Lemma finish_not_merge E q req w w' e : finish_verdict E q req w = (w', Some (MergeFailed e)) → False.
Proof.
  unfold finish_verdict, mbind, M_bind, mret, M_ret.
  destruct (save E q w) as [w1 [err|]]; simpl; [by intros [= _ ?]|].
  by destruct (fireQAVerdictRecovery _ _ _ _).
Qed.

Lemma accepted_cases E req current target q w w' r :
  verdict_accepted E req current target q w = (w', r) → accepting (qvVerdict req) = true →
  match r with
  | None => ∃ q0 log, assembleRequirementBranches (envSandbox E) q (wSandbox w) = (q0, log, None) ∧
      visible w' (pSlug q) = Some (set_pStatus target q0) ∧ wOut w' = wOut w ∧
      wSandbox w' = deleteQAWorktree (envSandbox E) (qvSlug req) log
  | Some (MergeFailed e) => ∃ q0 log,
      assembleRequirementBranches (envSandbox E) q (wSandbox w) = (q0, log, Some e) ∧
      wOut w' = wOut w ∧
      (visible w' (pSlug q) = visible w (pSlug q) ∨ ∃ q', visible w' (pSlug q) = Some q' ∧ EffectiveStatus q' = EffectiveStatus q)
  | Some _ => True
  end.
Proof.
  intros H Hv. unfold verdict_accepted in H. destruct (negb _); [by injection H as _ <-|].
  unfold read in H. unfold mbind at 1, M_bind at 1 in H.
  destruct (assembleRequirementBranches (envSandbox E) q (wSandbox w)) as [[q0 log] e] eqn:Ea.
  destruct (assemble_cases _ _ _ _ _ _ Ea) as ((b & c & Hq0) & _).
  assert (Hslug : pSlug q0 = pSlug q ∧ EffectiveStatus q0 = EffectiveStatus q) by (by subst q0).
  clear Hq0 Ea. destruct Hslug as [Hslug Heff].
  unfold mbind at 1, M_bind at 1, set_sandbox in H. destruct e as [e|].
  - rewrite now_bind in H. revert H.
    set (w2 := ticked _). set (q1 := set_pLastErrorAt _ _).
    assert (Hq1 : pSlug q1 = pSlug q ∧ EffectiveStatus q1 = EffectiveStatus q) by (by split).
    destruct Hq1 as [Hs1 He1]. clearbody q1. unfold mbind, M_bind, mret, M_ret.
    pose proof (save_out E q1 w2) as [Ho _].
    destruct (save E q1 w2) as [w3 r3] eqn:Es. intros [= <- <-]. exists q0, log.
    split; [done|]. split; [done|].
    apply save_cases in Es as [[[Hc Hk] _]|(_ & Hc & _)].
    + left. unfold visible. by rewrite Hc, Hk.
    + right. exists q1. split; [|done]. unfold visible. by rewrite Hc, Hs1, lookup_insert_eq.
  - destruct r as [r|].
    + destruct r; try done. by apply finish_not_merge in H.
    + exists q0, log. split; [done|]. apply finish_None in H as (Hvis & Hs & Ho).
      split; [by rewrite <- Hslug|]. split; [|done].
      destruct Ho as [Ho|[[Hn|Hn] _]]; [done|by rewrite Hn in Hv|by rewrite Hn in Hv].
Qed.

Lemma refused_cases E req current q w w' :
  verdict_refused E req current q w = (w', None) →
  ∃ q', visible w' (pSlug q) = Some q' ∧ EffectiveStatus q' = StatusRejected ∧
    pPlanDecisions q' = (pPlanDecisions q ++ qvPlanDecisions req)%list ∧
    (wOut w' = wOut w ∨ ∃ rr, wOut w' = (wOut w ++ [MsgRecovery rr])%list ∧ rrSlug rr = qvSlug req ∧
      rrAffectedRequirementIDs rr = collectActiveRequirementIDsForRecovery q).
Proof.
  intros H. unfold verdict_refused in H. destruct (negb _); [done|]. rewrite now_bind in H.
  apply finish_None in H as (Hvis & _ & Ho). eexists. split_and!; [exact Hvis|done|done|].
  destruct Ho as [Ho|(_ & rr & Ho)]; [by left|right]. exists rr. exact Ho.
Qed.

(** *** Stories *)

Lemma elem_of_stringSet x ids : x ∈ stringSet ids ↔ x ∈ ids ∧ x ≠ "".
Proof. unfold stringSet. rewrite elem_of_list_to_set, list_elem_of_filter. tauto. Qed.

(** Every path is covered afterwards; what is new was appended. *)
Lemma cover_paths (ps : list string) (have : gset string) create :
  let st := foldl cover_path (have, create) ps in
  (∃ extra, st.2 = (create ++ extra)%list ∧ ∀ p, p ∈ st.1 → p ∈ have ∨ p ∈ extra) ∧
  have ⊆ st.1 ∧ ∀ p, p ∈ ps → p ≠ "" → p ∈ st.1.
Proof.
  revert have create. induction ps as [|a ps IH]; intros have create; cbn [foldl].
  - split_and!; [|done|by intros p ?%not_elem_of_nil]. exists []. rewrite app_nil_r. auto.
  - assert (Hstep : ∃ have' extra, cover_path (have, create) a = (have', (create ++ extra)%list) ∧
      have ⊆ have' ∧ (a ≠ "" → a ∈ have') ∧ ∀ p, p ∈ have' → p ∈ have ∨ p ∈ extra).
    { unfold cover_path. destruct (a =? "") eqn:Ea.
      - exists have, []. rewrite app_nil_r. breflect. subst a. split_and!; [done|done|done|auto].
      - case_bool_decide.
        + exists have, []. rewrite app_nil_r. split_and!; auto.
        + exists ({[a]} ∪ have), [a]. split_and!; [done|set_solver|set_solver|set_solver]. }
    destruct Hstep as (have' & ex & Heq & Hsub & Ha & Hin). rewrite Heq. clear Heq.
    destruct (IH have' (create ++ ex)%list) as ((ex' & He & Hex) & Hs & Hps). split_and!.
    + exists (ex ++ ex')%list. rewrite He, app_assoc. split; [done|]. intros p [Hp|Hp]%Hex.
      * destruct (Hin p Hp); [by left|right; apply elem_of_app; by left].
      * right. apply elem_of_app. by right.
    + set_solver.
    + intros p [->|Hp]%elem_of_cons Hne; [by apply Hs, Ha|by apply Hps].
Qed.

Lemma ensureScope_spec scope stories :
  let scope' := ensureScopeCreateCoversStories scope stories in
  scpInclude scope' = scpInclude scope ∧ scpExclude scope' = scpExclude scope ∧
  scpDoNotTouch scope' = scpDoNotTouch scope ∧ scpCreate scope ⊆ scpCreate scope' ∧
  ∀ s f, s ∈ stories → f ∈ sFilesOwned s → f ≠ "" → f ∈ scpInclude scope' ∨ f ∈ scpCreate scope'.
Proof.
  unfold ensureScopeCreateCoversStories. cbv zeta.
  set (have := (_ : gset string) ∪ _).
  destruct (cover_paths (stories ≫= sFilesOwned) have (scpCreate scope)) as ((ex & He & Hex) & _ & Hps).
  destruct (foldl cover_path (have, scpCreate scope) _) as [have' create] eqn:Ef. simpl in *. subst create.
  assert (Hall : ∀ s f, s ∈ stories → f ∈ sFilesOwned s → f ≠ "" →
    f ∈ scpInclude scope ∨ f ∈ (scpCreate scope ++ ex)%list).
  { intros s f Hs Hf Hne. assert (Hin : f ∈ have') by (apply Hps; [apply list_elem_of_bind; eauto|done]).
    apply Hex in Hin as [Hin|Hin]; [|right; apply elem_of_app; by right].
    unfold have in Hin. rewrite elem_of_union, !elem_of_list_to_set in Hin.
    destruct Hin; [by left|right; apply elem_of_app; by left]. }
  case_bool_decide as Hlen; simpl.
  - assert (ex = []) as -> by (apply length_zero_iff_nil; rewrite length_app in Hlen; lia).
    rewrite app_nil_r in Hall. by split_and!.
  - split_and!; try done.
    + intros f Hf. apply elem_of_sort_strings, elem_of_app. by left.
    + intros s f Hs Hf Hne. rewrite elem_of_sort_strings. by eapply Hall.
Qed.

(** Whatever it answers, the derivation only appends dependencies. *)
Lemma derive_grows range stories reqs :
  Forall2 grows stories (DeriveStoryScheduling range stories reqs).1.
Proof.
  unfold DeriveStoryScheduling. destruct (is_nil stories); [simpl; reflexivity|].
  pose proof (pass1_grows range stories reqs) as H1. revert H1. generalize (pass1 range stories reqs) as p1.
  intros p1 H1.
  assert (H2 : Forall2 grows stories (applyResourceEdges p1).1).
  { unfold applyResourceEdges. generalize (buildStoryClosure p1) as cl.
    generalize (map_of ((λ s, (sID s, normalized_files s)) <$> p1)) as files.
    generalize (index_pairs (length p1)) as pairs. intros pairs files cl.
    assert (Hst : Forall2 grows stories (p1, @None story_error).1) by done. revert Hst.
    generalize (p1, @None story_error) as st. induction pairs as [|ij pairs IH]; [done|].
    intros [ss e] Hst. apply IH. unfold resource_step. simpl in Hst.
    repeat case_match; try done; by apply add_dep_grows. }
  destruct (applyResourceEdges p1) as [ss [e|]]; [done|]. by destruct (detectSchedulerCycle ss).
Qed.

(** A scoped merge keeps the stories outside the revision, up to the
    dependencies the scheduler adds. *)
Lemma merge_kept range plan scope emitted merged removed :
  mergeStoriesForScopedArchitectureRevision range plan scope emitted = inl (merged, removed) →
  ValidateStories merged = None ∧
  ∀ s, s ∈ pStories plan → in_revision scope s = false → ∃ s', s' ∈ merged ∧ grows s s'.
Proof.
  unfold mergeStoriesForScopedArchitectureRevision. case_bool_decide; [done|].
  destruct (accept_stories _ emitted) as [acc|]; [|done]. destruct (is_nil acc); [done|].
  set (kept := filter _ _). pose proof (derive_grows range (kept ++ acc)%list (pRequirements plan)) as Hg.
  destruct (DeriveStoryScheduling range (kept ++ acc)%list (pRequirements plan)) as [m [e|]]; [done|].
  destruct (ValidateStories m) eqn:Hv; [done|]. intros [= <- <-]. split; [done|]. intros s Hs Hin.
  assert (Hk : s ∈ (kept ++ acc)%list) by (apply elem_of_app; left; by apply list_elem_of_filter).
  apply list_elem_of_lookup in Hk as [i Hi].
  destruct (Forall2_lookup_l _ _ _ _ _ Hg Hi) as (s' & Hs' & Hgs). exists s'.
  split; [|done]. by eapply list_elem_of_lookup_2.
Qed.

(** What [place_stories] stores. *)
Lemma place_stories_spec range plan stories q :
  place_stories range plan stories = inl q → ValidateStories stories = None →
  ValidateStories (pStories q) = None ∧ pScope q = pScope plan ∧
  match pPendingArchitectureRevision plan with
  | None => pStories q = stories ∧ ∀ sc, sc ∈ pScenarios q →
      sc ∈ pScenarios plan ∧ (scStoryID sc = "" ∨ scStoryID sc ∈ sID <$> stories)
  | Some scope => arsRequirementIDs scope ≠ [] →
      (∀ s, s ∈ pStories plan → in_revision scope s = false → ∃ s', s' ∈ pStories q ∧ grows s s') ∧
      ∀ sc, sc ∈ pScenarios q → sc ∈ pScenarios plan ∧ (scRequirementID sc = "" ∨ scRequirementID sc ∉ arsRequirementIDs scope)
  end.
Proof.
  unfold place_stories. intros H Hv. destruct (pPendingArchitectureRevision plan) as [scope|].
  - destruct (is_nil (arsRequirementIDs scope)) eqn:En.
    + injection H as <-. split_and!; [done|done|]. intros Hne. by apply is_nil_true in En.
    + destruct (mergeStoriesForScopedArchitectureRevision _ _ _ _) as [[merged removed]|] eqn:Em; [|done].
      injection H as <-. destruct (merge_kept _ _ _ _ _ _ Em) as [Hvm Hk]. split_and!; [done|done|].
      intros _. split; [done|]. intros sc. simpl. unfold removeScenariosForScopedArchitectureRevision.
      rewrite list_elem_of_filter, elem_of_stringSet. intros [[_ Hr] Hin]. split; [done|].
      destruct (decide (scRequirementID sc = "")); [by left|right]. tauto.
  - injection H as <-. split_and!; [done|done|done|]. intros sc. simpl. unfold dropOrphanScenarios.
    rewrite list_elem_of_filter, elem_of_stringSet. tauto.
Qed.

(** *** The contract's scope *)

Lemma elem_of_obligations l out o p :
  (o, p) ∈ foldl add_obligation out l ↔
  (o, p) ∈ out ∨ ∃ raw, (o, raw) ∈ l ∧ p = NormalizeFilePath raw ∧ p ≠ "".
Proof.
  revert out. induction l as [|[o' raw] l IH]; intros out; cbn [foldl].
  { setoid_rewrite elem_of_nil. naive_solver. }
  rewrite IH. setoid_rewrite elem_of_cons. unfold add_obligation. simpl.
  destruct (NormalizeFilePath raw =? "") eqn:En; breflect.
  - naive_solver.
  - case_bool_decide; [naive_solver|]. rewrite elem_of_app, list_elem_of_singleton. naive_solver.
Qed.

(** Each path of the contract's scope that must not be dropped. *)
Definition obliged (scope : ContractScopeSnapshot) (origin raw : string) : Prop :=
  (origin = "create" ∧ raw ∈ cssCreate scope) ∨ (origin = "include" ∧ raw ∈ cssInclude scope) ∨
  (origin = "do_not_touch" ∧ raw ∈ cssDoNotTouch scope).

Lemma obligations_spec scope origin raw :
  obliged scope origin raw → NormalizeFilePath raw ≠ "" →
  (origin, NormalizeFilePath raw) ∈ contractScopeDropObligations scope.
Proof.
  intros Ho Hne. apply elem_of_obligations. right. exists raw. split; [|done].
  rewrite !elem_of_app, !list_elem_of_fmap. destruct Ho as [[-> ?]|[[-> ?]|[-> ?]]]; eauto 10.
Qed.

Lemma no_drops c next : unauthorizedContractScopeDrops (Some c) next = [] →
  ∀ o, o ∈ contractScopeDropObligations (cpScope c) →
    contractScopeDropAmended o.1 o.2 (contractChangedScopeIDs c) = true ∨ obligation_present next o = true.
Proof.
  unfold unauthorizedContractScopeDrops. intros H o Ho.
  destruct (contractScopeDropAmended _ _ _) eqn:Ha; [by left|].
  destruct (obligation_present next o) eqn:Hp; [by right|]. exfalso.
  eapply not_elem_of_nil. rewrite <- H. apply elem_of_sort_strings, list_elem_of_fmap.
  exists o. split; [done|]. by apply list_elem_of_filter.
Qed.

Lemma drafted_contract E req t plan c : pContract plan = Some c →
  ∃ c', pContract (drafted_fields E req t plan) = Some c' ∧ cpScope c' = cpScope c ∧
    cpAmendments c' = cpAmendments c.
Proof.
  intros Hc. unfold drafted_fields, EnsureContractPacket.
  destruct (dqTitle req !=? "");
    repeat (progress (cbn [pContract set_pConstraints set_pContext set_pGoal set_pTitle set_pContract];
                      rewrite ?Hc));
    match goal with |- context [if ?b then _ else _] => destruct b end;
    cbn [pContract set_pConstraints set_pContext set_pGoal set_pTitle set_pContract]; rewrite ?Hc; eauto.
Qed.

(** ** Claims *)

Lemma demo_world_wf p : pSlug p = "demo" → store_wf (world_with [p]).
Proof. intros Hp. apply world_with_wf. constructor; [by rewrite Hp|constructor]. Qed.

(** C2: The plan manager respects the status machine: whatever mutation it
    handles, whatever fails outside, it stores plans under their own slug
    only, changes no plan but the one addressed, neither creates nor loses
    one, and takes that one to a status reached by allowed transitions (most
    often none or one; starting execution takes two). *)
Theorem mutation_follows_status_machine E m w w' r :
  store_wf w → handle E m w = (w', r) →
  store_wf w' ∧
  (∀ s, Some s ≠ slug_of m → visible w' s = visible w s) ∧
  (∀ s, visible w s = None ↔ visible w' s = None) ∧
  ∀ s p q, visible w s = Some p → visible w' s = Some q →
    pSlug q = s ∧ rtc plan_step (EffectiveStatus p) (EffectiveStatus q) ∧
    (pReviewIteration p ≤ pReviewIteration q)%Z.
Proof.
  intros Hwf H. pose proof (handle_ok E m w Hwf) as [Hwf' Ho Hs _ _]. rewrite H in *. simpl in *.
  split_and!; [done|done| |].
  - intros s. destruct (Hs s) as [->|(p & q & -> & -> & _)]; done.
  - intros s p q Hp Hq. split; [by apply (visible_slug w')|].
    destruct (Hs s) as [Hv|(p' & q' & Hp' & Hq' & [_ ? ?])].
    + rewrite Hv, Hp in Hq. injection Hq as <-. by split; [constructor|].
    + rewrite Hp in Hp'. rewrite Hq in Hq'. by simplify_eq.
Qed.

Lemma mutation_follows_status_machine_witness :
  let E := sample_env (λ _, quiet_io) None in
  let w := world_with [demo_plan StatusReviewed] in
  let w' := (handle E (MApproved (Some (MkApprovedReq "demo" ""))) w).1 in
  (EffectiveStatus <$> visible w' "demo") = Some StatusApproved ∧ store_wf w'.
Proof.
  intros E w w'. split; [vm_compute; reflexivity|].
  refine (proj1 (mutation_follows_status_machine E (MApproved (Some (MkApprovedReq "demo" ""))) w w' None _ _)).
  - by apply demo_world_wf.
  - vm_compute. reflexivity.
Defined.

(** C25: A refused mutation has no effect: when the handler answers with a
    malformed request, an unknown plan, a failed validation or a forbidden
    transition, every reader still sees the plan it saw before, nothing was
    written to the bucket, no message was sent and the sandbox was not
    called. *)
Theorem refused_mutation_no_effect E m w w' e :
  store_wf w → handle E m w = (w', Some e) → refused (Some e) = true →
  (∀ s, visible w' s = visible w s) ∧ wKV w' = wKV w ∧ wOut w' = wOut w ∧ wSandbox w' = wSandbox w.
Proof.
  intros Hwf H Hr. pose proof (handle_ok E m w Hwf) as [_ _ _ _ Ho]. rewrite H in Ho. by apply Ho.
Qed.

Lemma refused_mutation_no_effect_witness :
  let E := sample_env (λ _, quiet_io) None in
  let w := world_with [demo_plan StatusDrafted] in
  let w' := (handle E (MApproved (Some (MkApprovedReq "demo" ""))) w).1 in
  wKV w' = wKV w.
Proof.
  intros E w w'.
  refine (proj1 (proj2 (refused_mutation_no_effect E (MApproved (Some (MkApprovedReq "demo" ""))) w w'
    (InvalidTransition StatusDrafted StatusApproved) (demo_world_wf (demo_plan StatusDrafted) eq_refl) _ _))); vm_compute; reflexivity.
Defined.

(** C7: In every world reached from a sound one by mutations, creations,
    deletions and cache expiries, in any order and with any failures, every
    stored copy of a plan is kept under its own valid slug and has a declared
    status. *)
Theorem stored_plans_stay_sound w w' :
  plans_ok w → rtc world_step w w' → plans_ok w'.
Proof.
  intros Hok Hsteps. revert Hok. induction Hsteps as [|w w1 w2 Hstep _ IH]; [done|].
  intros Hok. apply IH. destruct Hstep as [E m w|E slug title brief level auto w|E slug w|slug w].
  - destruct Hok as [Hwf Hv]. pose proof (handle_ok E m w Hwf) as [Hwf' _ _ Hs _]. split; [done|].
    intros s q [Hq|(p & Hp & [_ Ht _])]%Hs; [by eapply Hv|].
    eapply plan_step_valid; [done|]. eapply Hv. by apply visible_stored.
  - by apply create_ok.
  - eapply stored_shrinks; [|done]. intros s p. by apply delete_stored, Hok.
  - eapply stored_shrinks; [|done]. apply expire_stored.
Qed.

Lemma stored_plans_stay_sound_witness :
  let E := sample_env (λ _, quiet_io) None in
  plans_ok (handle E (MClaim (Some (MkClaimReq "demo" StatusDrafting)))
             (create E "demo" "Demo" "" QALevelUnit None (world_with [])).1).1.
Proof.
  intros E. apply (stored_plans_stay_sound (world_with [])).
  - split; [by apply world_with_wf|]. intros s p [Hp|(kv & Hkv & Hp)].
    + discriminate Hp.
    + injection Hkv as <-. discriminate Hp.
  - eapply rtc_l; [apply step_create|]. apply rtc_once. apply step_handle.
Defined.

(** A phase is claimed once: after a successful claim, the same claim by
    any other worker, under any behaviour of the outside, is refused. *)
Theorem claim_succeeds_once E E' req w w1 :
  store_wf w → handle E (MClaim (Some req)) w = (w1, None) →
  (handle E' (MClaim (Some req)) w1).2 = Some (InvalidTransition (cqStatus req) (cqStatus req)).
Proof.
  intros Hwf H. simpl in *. unfold handleClaimMutation in *.
  destruct (_ || _) eqn:Hf; [done|]. destruct (negb _) eqn:Hp; [done|].
  apply with_plan_inv in H as (p & w0 & _ & Hps & _ & _ & _ & _ & H); [|done|done].
  apply guard_transition_None in H as [Hc H]. apply save_reply_None in H as (Hcache & _).
  change (pSlug (set_pStatus (cqStatus req) p)) with (pSlug p) in Hcache. rewrite Hps in Hcache.
  rewrite (with_plan_cached _ _ _ _ _ Hcache). unfold guard_transition, can.
  apply Status_can_valid in Hc as [_ Hv]. rewrite EffectiveStatus_set by done.
  by rewrite Status_can_irrefl.
Qed.

Lemma claim_succeeds_once_witness :
  let E := sample_env (λ _, quiet_io) None in
  let w := world_with [demo_plan StatusDrafted] in
  let req := MkClaimReq "demo" StatusReviewingDraft in
  (handle E (MClaim (Some req)) (handle E (MClaim (Some req)) w).1).2
    = Some (InvalidTransition StatusReviewingDraft StatusReviewingDraft).
Proof.
  intros E w req. refine (claim_succeeds_once E E req w _ _ _).
  - by apply demo_world_wf.
  - vm_compute. reflexivity.
Defined.

(** A story is reserved once: after an executor moved a story to a status
    (executing, say), a second request for the same move is refused, so of the
    requirements that share a story one only runs it. *)
Theorem story_reserved_once E E' req w w1 :
  store_wf w → handle E (MStoryStatus (Some req)) w = (w1, None) →
  (handle E' (MStoryStatus (Some req)) w1).2
    = Some (InvalidStoryTransition (ssqTarget req) (ssqTarget req)).
Proof.
  intros Hwf H. simpl in *. unfold handleStoryStatusMutation in *.
  destruct (_ || _ || _) eqn:Hf; [done|]. destruct (negb (StoryStatus_IsValid _)) eqn:Hv; [done|].
  apply negb_false_iff in Hv.
  apply with_plan_inv in H as (p & w0 & _ & Hps & _ & _ & _ & _ & H); [|done|done].
  destruct (FindStory p (ssqStoryID req)) as [[i s]|] eqn:Ef; [|done].
  destruct (negb (StoryStatus_CanTransitionTo _ _)) eqn:Hc; [done|].
  rewrite now_bind in H. cbv zeta in H.
  set (s' := set_sUpdatedAt _ _) in H. set (q := set_pStories _ p) in H.
  assert (Hq : FindStory q (ssqStoryID req) = Some (i, s')).
  { apply (list_find_insert_same _ _ _ s); [done|]. change (sID s = ssqStoryID req).
    by apply find_by_Some in Ef as (_ & ? & _). }
  assert (Hs' : story_current s' = ssqTarget req).
  { unfold story_current, s'. simpl. by destruct (ssqTarget req). }
  assert (Hqs : pSlug q = ssqSlug req) by done. clearbody q s'.
  unfold mbind at 1, M_bind at 1 in H. destruct (save E q (ticked w0)) as [w2 [e|]] eqn:Es; [done|].
  apply save_None in Es as (Hcache & _).
  assert (Hc1 : wCache w1 = wCache w2).
  { revert H. case_match; unfold publishScenarioOrchestrator, mbind, M_bind, mret, M_ret; simpl.
    - destruct (ioPublishErr _); simpl; by intros [= <-].
    - by intros [= <-]. }
  rewrite <- Hc1, Hqs in Hcache. rewrite (with_plan_cached _ _ _ _ _ Hcache), Hq, Hs'.
  by rewrite StoryStatus_can_irrefl.
Qed.

Definition demo_stories : list Story :=
  [sample_story "s1" "core" ["r1"; "r2"] ["a.go"] []; sample_story "s2" "web" ["r1"] ["b.go"] []].
Definition demo_execution : Plan :=
  set_pStories demo_stories (set_pRequirements [sample_req "r1" []; sample_req "r2" []]
    (demo_plan StatusGeneratingScenarios)).

Lemma story_reserved_once_witness :
  let E := sample_env (λ _, quiet_io) None in
  let w := world_with [demo_execution] in
  let req := MkStoryStatusReq "demo" "s1" StoryStatusExecuting "" in
  (handle E (MStoryStatus (Some req)) (handle E (MStoryStatus (Some req)) w).1).2
    = Some (InvalidStoryTransition StoryStatusExecuting StoryStatusExecuting).
Proof.
  intros E w req. refine (story_reserved_once E E req w _ _ _).
  - by apply demo_world_wf.
  - vm_compute. reflexivity.
Defined.

(** An accepted batch of scenarios replaces exactly the scenarios of its
    own (requirement, story) pair, or of its requirement when it names no
    story; every other scenario is kept, in order, so batches of sibling
    stories preserve each other.  The plan advances to scenarios_generated
    exactly when every requirement has a scenario. *)
Theorem scenarios_batch_replaces_own E req w w' :
  store_wf w → handle E (MScenarios (Some req)) w = (w', None) → sqScenarios req ≠ [] →
  ∃ p q, visible w (sqSlug req) = Some p ∧ visible w' (sqSlug req) = Some q ∧
    pScenarios q = (filter (λ s, ¬ (scRequirementID s = sqRequirementID req ∧
                               (sqStoryID req = "" ∨ scStoryID s = sqStoryID req))) (pScenarios p)
                    ++ sqScenarios req)%list ∧
    pRequirements q = pRequirements p ∧ pStories q = pStories p ∧
    EffectiveStatus q =
      if negb (is_nil (pRequirements q)) && all_covered q then StatusScenariosGenerated
      else EffectiveStatus p.
Proof.
  intros Hwf H Hne. destruct (scenarios_accepted _ _ _ _ Hwf H) as (p & Hp & _ & q & _ & Hq & Hcase).
  destruct (merge_scenarios_frame p req) as (_ & He & _ & Hr & Hst & _).
  pose proof (merge_scenarios_batch p req Hne) as Hsc.
  exists p, q. revert He Hr Hst Hsc Hcase. generalize (merge_scenarios p req) as m. cbv zeta.
  intros m He Hr Hst Hsc Hcase.
  destruct (negb (is_nil (pRequirements m)) && all_covered m) eqn:Hc; subst q.
  - split_and!; [done|done|done|done|done|].
    change (StatusScenariosGenerated =
      if negb (is_nil (pRequirements m)) && all_covered m then StatusScenariosGenerated else EffectiveStatus p).
    by rewrite Hc.
  - rewrite Hc. by split_and!.
Qed.

Definition demo_scenario (id req story : string) : Scenario :=
  set_scStoryID story (MkScenario id req "" "" "" "" [] (ScenarioStatusOther "") ["@unit"] [] ∅ [] 0 0).
Definition demo_batch (req story id : string) : ScenariosMutationRequest :=
  MkScenariosReq "demo" req story [demo_scenario id req story] "".

Lemma scenarios_batch_replaces_own_witness :
  let E := sample_env (λ _, quiet_io) None in
  let w := world_with [set_pScenarios [demo_scenario "x" "r1" "s2"] demo_execution] in
  ∃ p q, visible w "demo" = Some p ∧
    visible (handle E (MScenarios (Some (demo_batch "r1" "s1" "y"))) w).1 "demo" = Some q ∧
    pScenarios q = (filter (λ s, ¬ (scRequirementID s = "r1" ∧ ("s1" = "" ∨ scStoryID s = "s1")))
                      (pScenarios p) ++ [demo_scenario "y" "r1" "s1"])%list ∧
    pRequirements q = pRequirements p ∧ pStories q = pStories p ∧
    EffectiveStatus q =
      if negb (is_nil (pRequirements q)) && all_covered q then StatusScenariosGenerated
      else EffectiveStatus p.
Proof.
  intros E w. refine (scenarios_batch_replaces_own E (demo_batch "r1" "s1" "y") w _ _ _ _).
  - by apply demo_world_wf.
  - vm_compute. reflexivity.
  - discriminate.
Defined.

(** The batch that covers the last requirement closes the phase: when it
    took the plan to scenarios_generated, every later batch of the plan that
    brings scenarios of its own requirement is refused and lost, also one of
    a sibling story whose scenarios nobody delivered yet. *)
Theorem late_sibling_batch_lost E E' req req' w w1 p q s :
  store_wf w → handle E (MScenarios (Some req)) w = (w1, None) →
  visible w (sqSlug req) = Some p → EffectiveStatus p ≠ StatusScenariosGenerated →
  visible w1 (sqSlug req) = Some q → EffectiveStatus q = StatusScenariosGenerated →
  sqSlug req' = sqSlug req → sqSlug req ≠ "" → sqRequirementID req' ≠ "" →
  s ∈ sqScenarios req' → scRequirementID s = sqRequirementID req' →
  handle E' (MScenarios (Some req')) w1
    = (ticked w1, Some (InvalidTransition StatusScenariosGenerated StatusScenariosGenerated)).
Proof.
  intros Hwf H Hp Hst Hq Hg Hslug Hne Hr' Hs Hown.
  destruct (scenarios_accepted _ _ _ _ Hwf H) as (p' & Hp' & _ & q' & Hc & Hq' & Hcase).
  rewrite Hp in Hp'. injection Hp' as <-. rewrite Hq in Hq'. injection Hq' as <-.
  destruct (merge_scenarios_frame p req) as (_ & He & _).
  revert He Hcase. generalize (merge_scenarios p req) as m. cbv zeta. intros m He Hcase.
  assert (Hcov : is_nil (pRequirements q) = false ∧ all_covered q = true).
  { destruct (negb (is_nil (pRequirements m)) && all_covered m) eqn:Hm; [|by subst q; rewrite He in Hg].
    subst q. by apply andb_true_iff in Hm as [?%negb_true_iff ?]. }
  destruct Hcov as [Hnil Hcov]. pose proof (merge_keeps_covered q req' s Hcov Hs Hown) as Hcov'.
  destruct (merge_scenarios_frame q req') as (_ & He' & _ & Hr & _).
  simpl. unfold handleScenariosMutation. rewrite Hslug.
  rewrite (proj2 (eqb_false _ _) Hne), (proj2 (eqb_false _ _) Hr'). simpl.
  rewrite (with_plan_cached _ _ _ _ _ Hc). cbv zeta. rewrite Hr, Hnil, Hcov'.
  unfold guard_transition, can. by rewrite He', Hg.
Qed.

Lemma late_sibling_batch_lost_witness :
  let E := sample_env (λ _, quiet_io) None in
  let w := world_with [set_pScenarios [demo_scenario "x" "r1" "s1"] demo_execution] in
  let w1 := (handle E (MScenarios (Some (demo_batch "r2" "s1" "y"))) w).1 in
  handle E (MScenarios (Some (demo_batch "r1" "s2" "z"))) w1
    = (ticked w1, Some (InvalidTransition StatusScenariosGenerated StatusScenariosGenerated)).
Proof.
  intros E w w1.
  refine (late_sibling_batch_lost E E (demo_batch "r2" "s1" "y") (demo_batch "r1" "s2" "z") w w1
    (set_pScenarios [demo_scenario "x" "r1" "s1"] demo_execution) _ (demo_scenario "z" "r1" "s2")
    _ _ _ _ _ _ _ _ _ _ _).
  - by apply demo_world_wf.
  - vm_compute. reflexivity.
  - vm_compute. reflexivity.
  - discriminate.
  - vm_compute. reflexivity.
  - vm_compute. reflexivity.
  - reflexivity.
  - discriminate.
  - discriminate.
  - by left.
  - reflexivity.
Defined.

(** Approving a plan for execution starts it exactly once: on success with
    automatic start the plan has requirements and scenarios, is implementing,
    and one orchestration trigger with its requirements, stories and scenarios
    was sent; without automatic start it waits in ready_for_execution and
    nothing was sent.  On any failure nothing was sent. *)
Theorem execution_start_publishes_once E req w w' r :
  store_wf w → handle E (MReadyForExecution (Some req)) w = (w', r) →
  match r with
  | Some _ => wOut w' = wOut w
  | None => ∃ p q, visible w (yqSlug req) = Some p ∧ visible w' (yqSlug req) = Some q ∧
      if envAutoStart E then
        EffectiveStatus q = StatusImplementing ∧ pRequirements p ≠ [] ∧ pScenarios p ≠ [] ∧
        ∃ t, wOut w' = (wOut w ++ [MsgOrchestrate t])%list ∧ trPlanSlug t = yqSlug req ∧
          trRequirements t = pRequirements p ∧ trStories t = pStories p ∧
          trScenarios t = pScenarios p ∧ trForceRequirementIDs t = []
      else EffectiveStatus q = StatusReadyForExecution ∧ wOut w' = wOut w
  end.
Proof.
  intros Hwf H. destruct (refused r) eqn:Hr.
  { pose proof (handle_ok E (MReadyForExecution (Some req)) w Hwf) as [_ _ _ _ Ho].
    rewrite H in Ho. destruct r; [|done]. by apply Ho in Hr as (_ & _ & ? & _). }
  destruct (ready_mutation_cases _ _ _ _ _ Hwf H Hr)
    as (p & q & w1 & e & Hp & Hps & Ho & H1 & H2 & H3 & H4 & Ht & ->).
  apply ready_cases in Ht. rewrite Ho, H1, Hps in Ht. destruct e as [e|]; simpl.
  { by destruct e; try apply Ht. }
  exists p. destruct (envAutoStart E).
  - destruct Ht as (Hr1 & Hs1 & Hv & id & Hid). rewrite H2 in Hr1. rewrite H4 in Hs1.
    eexists. split_and!; [done|done|done|done|done|]. eexists. split; [done|].
    simpl. rewrite H1, H2, H3, H4. done.
  - destruct Ht as (Hv & Hid). eexists. by split_and!.
Qed.

Definition demo_ready : Plan :=
  set_pStatus StatusReviewingScenarios
    (set_pScenarios [demo_scenario "x" "r1" "s1"; demo_scenario "y" "r2" "s1"] demo_execution).

Lemma execution_start_publishes_once_witness :
  let E := sample_env (λ _, quiet_io) None in
  let w := world_with [demo_ready] in
  let w' := (handle E (MReadyForExecution (Some (MkReadyReq "demo" ""))) w).1 in
  ∃ p q, visible w "demo" = Some p ∧ visible w' "demo" = Some q ∧
    EffectiveStatus q = StatusImplementing ∧ pRequirements p ≠ [] ∧ pScenarios p ≠ [] ∧
    ∃ t, wOut w' = [MsgOrchestrate t] ∧ trPlanSlug t = "demo" ∧ trRequirements t = pRequirements p ∧
      trStories t = pStories p ∧ trScenarios t = pScenarios p ∧ trForceRequirementIDs t = [].
Proof.
  intros E w w'.
  refine (execution_start_publishes_once E (MkReadyReq "demo" "") w w' None _ _).
  - by apply demo_world_wf.
  - vm_compute. reflexivity.
Defined.

(** When the orchestration trigger cannot be published, the handler
    reports failure but the plan stays implementing, with no message sent:
    the rollback to ready_for_execution the code attempts is a transition the
    status machine forbids. *)
Theorem failed_trigger_not_rolled_back E req w w' :
  store_wf w →
  handle E (MReadyForExecution (Some req)) w = (w', Some (AdvanceFailed ExecTrigger)) →
  ∃ q, visible w' (yqSlug req) = Some q ∧ EffectiveStatus q = StatusImplementing ∧
    wOut w' = wOut w ∧ can q StatusReadyForExecution = false.
Proof.
  intros Hwf H. destruct (ready_mutation_cases _ _ _ _ _ Hwf H eq_refl)
    as (p & q & w1 & e & Hp & Hps & Ho & H1 & _ & _ & _ & Ht & He).
  destruct e as [e|]; [|done]. simpl in He. injection He as <-. apply ready_cases in Ht as [Hv Hout].
  rewrite H1, Hps in Hv. rewrite Ho in Hout. eexists. by split_and!.
Qed.

Lemma failed_trigger_not_rolled_back_witness :
  let E := sample_env (λ _, MkIO 7 false false false false false true "id") None in
  let w := world_with [demo_ready] in
  let w' := (handle E (MReadyForExecution (Some (MkReadyReq "demo" ""))) w).1 in
  ∃ q, visible w' "demo" = Some q ∧ EffectiveStatus q = StatusImplementing ∧
    wOut w' = wOut w ∧ can q StatusReadyForExecution = false.
Proof.
  intros E w w'. refine (failed_trigger_not_rolled_back E (MkReadyReq "demo" "") w w' _ _).
  - by apply demo_world_wf.
  - vm_compute. reflexivity.
Defined.

(** The review budget is hard: along any run, the number of revisions
    accepted for a plan adds up, and an accepted revision that sends the plan
    back instead of rejecting it leaves the total below the limit.  So at
    most [max_iterations - 1] revisions send a plan back, whatever other
    mutations come between, and the next one rejects it. *)
Theorem revision_budget E ms req w p w1 rs w2 :
  store_wf w → visible w (nqSlug req) = Some p → run E ms w = (w1, rs) →
  handle E (MRevision (Some req)) w1 = (w2, None) →
  ∃ q, visible w2 (nqSlug req) = Some q ∧
    (pReviewIteration p + Z.of_nat (accepted_revisions (nqSlug req) ms rs) + 1 ≤ pReviewIteration q)%Z ∧
    if bool_decide (max_iterations E ≤ pReviewIteration q)%Z
    then EffectiveStatus q = StatusRejected
    else EffectiveStatus q ≠ StatusRejected ∧
      (pReviewIteration p + Z.of_nat (accepted_revisions (nqSlug req) ms rs) + 1 < max_iterations E)%Z.
Proof.
  intros Hwf Hp Hrun H. pose proof (run_iterations E ms (nqSlug req) w p Hwf Hp) as Hit.
  rewrite Hrun in Hit. destruct Hit as (Hwf1 & p1 & Hp1 & Hle).
  destruct (revision_success E req w1 w2 Hwf1 H) as (p2 & q & Hp2 & Hq & Hi & Hst & Hcase).
  rewrite Hp1 in Hp2. injection Hp2 as <-. exists q. split; [done|]. split; [lia|].
  case_bool_decide; [done|]. split; [|lia]. rewrite Hcase.
  apply reentry_open.
Qed.

(** C36: A QA verdict decides the plan as it says.  Approved, with or without
    conditions: the requirement branches were assembled without conflict, the
    plan is complete, or awaits review when a gate is configured, and no
    recovery is asked for.  Needs changes or rejected: the plan is rejected,
    the verdict's proposals are appended to its decisions, and at most one
    recovery request is sent, for the active requirements.  A failed merge
    completes nothing: the plan keeps its status and no message is sent. *)
Theorem qa_verdict_outcome E req w w' r p :
  store_wf w → visible w (qvSlug req) = Some p → handle E (MQAVerdict (Some req)) w = (w', r) →
  match r with
  | None => ∃ q, visible w' (qvSlug req) = Some q ∧
      if accepting (qvVerdict req) then
        EffectiveStatus q = (if shouldGateReview E p then StatusAwaitingReview else StatusComplete) ∧
        wOut w' = wOut w ∧ ∃ s q0 log,
          assembleRequirementBranches (envSandbox E) (set_pQAVerdictSummary s p) (wSandbox w)
            = (q0, log, None) ∧
          pAssembledBranch q = pAssembledBranch q0 ∧
          wSandbox w' = deleteQAWorktree (envSandbox E) (qvSlug req) log
      else
        EffectiveStatus q = StatusRejected ∧
        pPlanDecisions q = (pPlanDecisions p ++ qvPlanDecisions req)%list ∧
        (wOut w' = wOut w ∨ ∃ rr, wOut w' = (wOut w ++ [MsgRecovery rr])%list ∧
           rrSlug rr = qvSlug req ∧
           rrAffectedRequirementIDs rr = collectActiveRequirementIDsForRecovery p)
  | Some (MergeFailed e) =>
      wOut w' = wOut w ∧ (EffectiveStatus <$> visible w' (qvSlug req)) = Some (EffectiveStatus p) ∧
      ∃ s q0 log, assembleRequirementBranches (envSandbox E) (set_pQAVerdictSummary s p) (wSandbox w)
                    = (q0, log, Some e)
  | Some _ => True
  end.
Proof.
  intros Hwf Hp H.
  destruct (refused r) eqn:Hr; [by destruct r as [[]|]|].
  simpl in H. unfold handleQAVerdictMutation in H. destruct (qvSlug req =? ""); [by injection H as _ <-|].
  assert (Hw : with_plan E (qvSlug req) (verdict_body E req) w = (w', r)).
  { destruct (qvVerdict req); try done. by injection H as _ <-. }
  clear H. apply with_plan_inv in Hw as (p' & w1 & Hp' & Hps & _ & Hv1 & Ho & Hs & H); [|done|by intros ->].
  rewrite Hp in Hp'. injection Hp' as <-. rewrite <- Ho, <- Hs, <- Hps.
  rewrite <- Hv1, <- Hps in Hp. clear Hv1 Ho Hs Hwf.
  unfold verdict_body in H. cbv zeta in H. destruct (_ && _) in H; [by injection H as _ <-|].
  rewrite now_bind in H. revert H. set (s := Some (MkQAVerdictSummary _ _ _ _ _)).
  destruct (accepting (qvVerdict req)) eqn:Ha.
  - intros H. set (target := if shouldGateReview E p then StatusAwaitingReview else StatusComplete).
    assert (H' : verdict_accepted E req (EffectiveStatus p) target (set_pQAVerdictSummary s p) (ticked w1) = (w', r)).
    { revert Ha H. by destruct (qvVerdict req). }
    clear H. apply accepted_cases in H'; [|done]. destruct r as [e|].
    + destruct e; try done. destruct H' as (q0 & log & Has & Hout & Hvis). split; [done|]. split; [|eauto].
      change (pSlug (set_pQAVerdictSummary s p)) with (pSlug p) in Hvis.
      destruct Hvis as [->|(q' & -> & He)]; [by rewrite (Hp : visible (ticked w1) (pSlug p) = Some p)|]. simpl. by rewrite He.
    + destruct H' as (q0 & log & Has & Hvis & Hout & Hsb). eexists. split; [exact Hvis|].
      split_and!; [|done|exists s, q0, log; by rewrite Hps]. rewrite EffectiveStatus_explicit; [done|].
      simpl. unfold target. by case_match.
  - intros H.
    assert (H' : verdict_refused E req (EffectiveStatus p) (set_pQAVerdictSummary s p) (ticked w1) = (w', r)).
    { revert Ha H. by destruct (qvVerdict req). }
    clear H. destruct r as [e|].
    + destruct e; try done. exfalso. revert H'. unfold verdict_refused.
      destruct (negb _); [by intros [= _ ?]|]. rewrite now_bind. apply finish_not_merge.
    + apply refused_cases in H' as (q & Hvis & He & Hd & Hout). exists q. split; [exact Hvis|].
      split_and!; [done|exact Hd|]. rewrite Hps. exact Hout.
Qed.

Definition demo_sandbox (status : string) : SandboxClient :=
  MkSandboxClient (λ _ req, inl (MkMergeBranchesResult status (mqTarget req)
                             [MkMergeBranchesCommit "semspec/requirement-r1" "abc"] "" [] ""))
    (λ _ _, inl false) (λ _ _, None) (λ _ _ _, None) (λ _ _, None).
Definition demo_verdict (v : QAVerdict) : QAVerdictEvent :=
  MkQAVerdictEvent "demo" "" QALevelUnit v "done" (MkQAVerdictDimensions "" "" "" "" "" "") [] [] "" "".

Lemma qa_verdict_outcome_witness :
  let E := sample_env (λ _, quiet_io) (Some (demo_sandbox "merged")) in
  let p := set_pStatus StatusReviewingQA demo_ready in
  let w := world_with [p] in
  let w' := (handle E (MQAVerdict (Some (demo_verdict QAVerdictApproved))) w).1 in
  ∃ q, visible w' "demo" = Some q ∧ EffectiveStatus q = StatusComplete ∧ wOut w' = wOut w ∧
    ∃ s q0 log, assembleRequirementBranches (envSandbox E) (set_pQAVerdictSummary s p) (wSandbox w)
        = (q0, log, None) ∧
      pAssembledBranch q = pAssembledBranch q0 ∧
      wSandbox w' = deleteQAWorktree (envSandbox E) "demo" log.
Proof.
  intros E p w w'.
  refine (qa_verdict_outcome E (demo_verdict QAVerdictApproved) w w' None p _ _ _).
  - by apply demo_world_wf.
  - vm_compute. reflexivity.
  - vm_compute. reflexivity.
Defined.

Lemma revision_budget_witness :
  let E := sample_env (λ _, quiet_io) None in
  let p := demo_plan StatusReviewingDraft in
  let w := world_with [p] in
  let req := MkRevisionReq "demo" 1 "needs_changes" "again" RawNil "" in
  let ms := [MRevision (Some req); MDrafted (Some (MkDraftedReq "demo" "" "g" "" [] None false ""));
             MClaim (Some (MkClaimReq "demo" StatusReviewingDraft))] in
  let w1 := (run E ms w).1 in
  let w2 := (handle E (MRevision (Some req)) w1).1 in
  ∃ q, visible w2 "demo" = Some q ∧ (2 ≤ pReviewIteration q)%Z ∧
    if bool_decide (max_iterations E ≤ pReviewIteration q)%Z
    then EffectiveStatus q = StatusRejected
    else EffectiveStatus q ≠ StatusRejected ∧ (2 < max_iterations E)%Z.
Proof.
  intros E p w req ms w1 w2.
  refine (revision_budget E ms req w p w1 [None; None; None] w2 _ _ _ _).
  - by apply demo_world_wf.
  - vm_compute. reflexivity.
  - vm_compute. reflexivity.
  - vm_compute. reflexivity.
Defined.

(** Accepted stories leave a coherent plan: the stored stories pass
    [ValidateStories]; every file a story owns is in scope.include or
    scope.create, which only grows, and the rest of the scope is kept.  A
    full regeneration stores the stories as emitted and keeps no scenario of
    a story that is gone.  A scoped architecture revision keeps every story
    outside its scope, up to added dependencies, and drops the scenarios of
    the requirements in scope. *)
Theorem stories_saved_coherent E req w w' p :
  store_wf w → visible w (tqSlug req) = Some p → handle E (MStories (Some req)) w = (w', None) →
  ∃ q, visible w' (tqSlug req) = Some q ∧ EffectiveStatus q = StatusStoriesGenerated ∧
    ValidateStories (pStories q) = None ∧
    scpInclude (pScope q) = scpInclude (pScope p) ∧ scpExclude (pScope q) = scpExclude (pScope p) ∧
    scpDoNotTouch (pScope q) = scpDoNotTouch (pScope p) ∧ scpCreate (pScope p) ⊆ scpCreate (pScope q) ∧
    (∀ s f, s ∈ pStories q → f ∈ sFilesOwned s → f ≠ "" →
       f ∈ scpInclude (pScope q) ∨ f ∈ scpCreate (pScope q)) ∧
    match pPendingArchitectureRevision p with
    | None => pStories q = tqStories req ∧ ∀ sc, sc ∈ pScenarios q →
        sc ∈ pScenarios p ∧ (scStoryID sc = "" ∨ scStoryID sc ∈ sID <$> tqStories req)
    | Some scope => arsRequirementIDs scope ≠ [] →
        (∀ s, s ∈ pStories p → in_revision scope s = false → ∃ s', s' ∈ pStories q ∧ grows s s') ∧
        ∀ sc, sc ∈ pScenarios q → sc ∈ pScenarios p ∧
          (scRequirementID sc = "" ∨ scRequirementID sc ∉ arsRequirementIDs scope)
    end.
Proof.
  intros Hwf Hp H. simpl in H. unfold handleStoriesMutation in H. destruct (tqSlug req =? ""); [done|].
  destruct (ValidateStories (tqStories req)) eqn:Hv; [done|].
  apply with_plan_inv in H as (p' & w1 & Hp' & Hps & _ & _ & _ & _ & H); [|done|done].
  rewrite Hp in Hp'. injection Hp' as <-. apply guard_transition_None in H as [_ H].
  unfold read in H. unfold mbind at 1, M_bind at 1 in H.
  destruct (place_stories _ p (tqStories req)) as [q|e] eqn:Eq; [|done].
  destruct (place_stories_spec _ _ _ _ Eq Hv) as (Hvq & Hsc & Hrest).
  destruct (place_stories_frame _ _ _ _ Eq) as [Hs _]. apply save_reply_None in H as (_ & Hvis & _).
  pose proof (ensureScope_spec (pScope q) (pStories q)) as Hcov. cbv zeta in Hcov. rewrite Hsc in Hcov.
  eexists. split; [rewrite <- Hps, <- Hs; exact Hvis|]. clear Eq Hvis.
  rewrite <- Hsc in Hcov |- *. destruct Hcov as (H1 & H2 & H3 & H4 & H5). by split_and!.
Qed.

Lemma stories_saved_coherent_witness :
  let E := sample_env (λ _, quiet_io) None in
  let p := set_pStatus StatusPreparingStories demo_execution in
  let w := world_with [p] in
  let w' := (handle E (MStories (Some (MkStoriesReq "demo" demo_stories 2 ""))) w).1 in
  (λ q, scpCreate (pScope q)) <$> visible w' "demo" = Some ["a.go"; "b.go"] ∧
  (EffectiveStatus <$> visible w' "demo") = Some StatusStoriesGenerated.
Proof.
  intros E p w w'. split; [vm_compute; reflexivity|].
  destruct (stories_saved_coherent E (MkStoriesReq "demo" demo_stories 2 "") w w' p) as (q & Hq & Hst & _).
  - by apply demo_world_wf.
  - vm_compute. reflexivity.
  - vm_compute. reflexivity.
  - change (visible w' "demo" = Some q) in Hq. rewrite Hq. simpl. by rewrite Hst.
Defined.

(** Drafting cannot shrink an agreed scope.  Once the contract of a plan
    has a scope, an accepted draft stores the drafted scope, keeps the
    contract's, and every path the contract obliges to create or include is
    in the new create or include lists, every do-not-touch path is still
    protected, except those an accepted contract change names. *)
Theorem draft_keeps_contract_scope E req w w' p c scope :
  store_wf w → visible w (dqSlug req) = Some p → pContract p = Some c →
  contractScopeSnapshotEmpty (cpScope c) = false → dqScope req = Some scope →
  handle E (MDrafted (Some req)) w = (w', None) →
  ∃ q, visible w' (dqSlug req) = Some q ∧ EffectiveStatus q = StatusDrafted ∧ pScope q = scope ∧
    (cpScope <$> pContract q) = Some (cpScope c) ∧
    ∀ origin raw, obliged (cpScope c) origin raw → NormalizeFilePath raw ≠ "" →
      contractScopeDropAmended origin (NormalizeFilePath raw) (contractChangedScopeIDs c) = true ∨
      NormalizeFilePath raw ∈ NormalizeFilePaths
        (if origin =? "do_not_touch" then scpDoNotTouch scope else scpCreate scope ++ scpInclude scope)%list.
Proof.
  intros Hwf Hp Hc Hne Hscope H. simpl in H. unfold handleDraftedMutation in H.
  destruct (_ || _); [done|].
  apply with_plan_inv in H as (p' & w1 & Hp' & Hps & _ & _ & _ & _ & H); [|done|done].
  rewrite Hp in Hp'. injection Hp' as <-. apply guard_transition_None in H as [_ H]. rewrite now_bind in H.
  destruct (drafted_contract E req (ioNow (envIO E (wTick w1))) p c Hc) as (c' & Hc' & Hs' & Ha').
  destruct (drafted_fields_frame E req (ioNow (envIO E (wTick w1))) p) as [Hslug _].
  revert Hc' Hslug H. generalize (drafted_fields E req (ioNow (envIO E (wTick w1))) p) as p1.
  intros p1 Hc' Hslug H. unfold draft_scope in H. rewrite Hscope, Hc', Hs', Hne in H.
  destruct (is_nil _) eqn:En in H; [|done]. apply is_nil_true in En.
  apply save_reply_None in H as (_ & Hv & _). eexists.
  split; [rewrite <- Hps, <- Hslug; exact Hv|]. clear Hv.
  split; [done|]. split; [done|]. split; [simpl; rewrite Hc'; simpl; by rewrite Hs'|].
  intros origin raw Ho Hraw. pose proof (no_drops _ _ En (origin, NormalizeFilePath raw)) as Hd.
  rewrite Hs' in Hd. destruct (Hd (obligations_spec _ _ _ Ho Hraw)) as [Hd'|Hd'].
  - left. revert Hd'. unfold contractChangedScopeIDs. by rewrite Ha'.
  - right. unfold obligation_present, scopeActiveSet, scopePathSet in Hd'. simpl in Hd'.
    destruct (origin =? "do_not_touch"); by apply bool_decide_eq_true, elem_of_list_to_set in Hd'.
Qed.

Lemma draft_keeps_contract_scope_witness :
  let E := sample_env (λ _, quiet_io) None in
  let c := NewContractPacket E "demo" "brief" (MkScope ["a.go"] [] ["lock.go"] ["b.go"]) [] 1 in
  let p := set_pContract (Some c) (demo_plan StatusCreated) in
  let w := world_with [p] in
  let scope := MkScope ["./b.go"; "x.go"] [] ["lock.go"] ["a.go"] in
  let req := MkDraftedReq "demo" "" "goal" "" [] (Some scope) false "" in
  ∃ q, visible (handle E (MDrafted (Some req)) w).1 "demo" = Some q ∧
    EffectiveStatus q = StatusDrafted ∧ pScope q = scope ∧
    (cpScope <$> pContract q) = Some (cpScope c) ∧
    NormalizeFilePath "b.go" ∈ NormalizeFilePaths (scpCreate scope ++ scpInclude scope)%list.
Proof.
  intros E c p w scope req.
  destruct (draft_keeps_contract_scope E req w (handle E (MDrafted (Some req)) w).1 p c scope)
    as (q & H1 & H2 & H3 & H4 & H5).
  - by apply demo_world_wf.
  - vm_compute. reflexivity.
  - reflexivity.
  - reflexivity.
  - reflexivity.
  - vm_compute. reflexivity.
  - exists q. split_and!; [exact H1|done|done|done|].
    destruct (H5 "create" "b.go") as [Ha|Hb].
    + left. by split; [|left].
    + vm_compute. discriminate.
    + vm_compute in Ha. discriminate Ha.
    + exact Hb.
Defined.
