(* ===== verification/ExecTypes.v ===== *)
(** * Execution records

    The rows of the EXECUTION_STATES bucket (workflow/execution.go), the
    requests of processor/execution-manager/mutations.go, the results the
    pipeline reads (workflow/payloads) and the snapshot of a finished cycle
    (execution_state.go), with the conventions of Types.v: the initials of
    the struct prefix the fields, a pointer is an [option], an [int] and a
    [time.Time] are a [Z], raw JSON is a [string]. *)

From S2P Require Import Prelude Paths Types.

Local Open Scope string_scope.

(** [FileIntent] (workflow/payloads/types.go) *)
Record FileIntent := MkFileIntent {
  fiPath : string;
  fiIntent : string;
  fiRationale : string }.

(** [CheckResult] (workflow/payloads/results.go) *)
Record CheckResult := MkCheckResult {
  ckName : string;
  ckPassed : bool;
  ckRequired : bool;
  ckCommand : string;
  ckExitCode : Z;
  ckStdout : string;
  ckStderr : string;
  ckDuration : string }.

(** [ValidationResult] (workflow/payloads/results.go) *)
Record ValidationResult := MkValidationResult {
  vrSlug : string;
  vrPassed : bool;
  vrChecksRun : Z;
  vrCheckResults : list CheckResult;
  vrWarning : string }.

(** [DeveloperResult] (workflow/payloads/results.go) *)
Record DeveloperResult := MkDeveloperResult {
  drRequestID : string;
  drSlug : string;
  drTaskID : string;
  drStatus : string;
  drSummary : string;
  drFilesModified : list string;
  drFileIntents : list FileIntent;
  drOutput : string;
  drLLMRequestIDs : list string }.

(** [TaskCodeReviewResult] (workflow/payloads/results.go) *)
Record TaskCodeReviewResult := MkTaskCodeReviewResult {
  crRequestID : string;
  crSlug : string;
  crVerdict : string;
  crRejectionType : string;
  crFeedback : string;
  crPatterns : string;
  crLLMRequestIDs : list string;
  crQ1Correctness : Z;
  crQ2Quality : Z;
  crQ3Completeness : Z;
  crRedAccuracy : Z;
  crRedThoroughness : Z;
  crRedFairness : Z;
  crRedFeedback : string }.

Definition set_crVerdict (v : string) (x : TaskCodeReviewResult) : TaskCodeReviewResult :=
  {| crRequestID := crRequestID x; crSlug := crSlug x; crVerdict := v;
     crRejectionType := crRejectionType x; crFeedback := crFeedback x;
     crPatterns := crPatterns x; crLLMRequestIDs := crLLMRequestIDs x;
     crQ1Correctness := crQ1Correctness x; crQ2Quality := crQ2Quality x;
     crQ3Completeness := crQ3Completeness x; crRedAccuracy := crRedAccuracy x;
     crRedThoroughness := crRedThoroughness x; crRedFairness := crRedFairness x;
     crRedFeedback := crRedFeedback x |}.

Definition set_crRejectionType (v : string) (x : TaskCodeReviewResult) : TaskCodeReviewResult :=
  {| crRequestID := crRequestID x; crSlug := crSlug x; crVerdict := crVerdict x;
     crRejectionType := v; crFeedback := crFeedback x; crPatterns := crPatterns x;
     crLLMRequestIDs := crLLMRequestIDs x; crQ1Correctness := crQ1Correctness x;
     crQ2Quality := crQ2Quality x; crQ3Completeness := crQ3Completeness x;
     crRedAccuracy := crRedAccuracy x; crRedThoroughness := crRedThoroughness x;
     crRedFairness := crRedFairness x; crRedFeedback := crRedFeedback x |}.

Definition set_crFeedback (v : string) (x : TaskCodeReviewResult) : TaskCodeReviewResult :=
  {| crRequestID := crRequestID x; crSlug := crSlug x; crVerdict := crVerdict x;
     crRejectionType := crRejectionType x; crFeedback := v; crPatterns := crPatterns x;
     crLLMRequestIDs := crLLMRequestIDs x; crQ1Correctness := crQ1Correctness x;
     crQ2Quality := crQ2Quality x; crQ3Completeness := crQ3Completeness x;
     crRedAccuracy := crRedAccuracy x; crRedThoroughness := crRedThoroughness x;
     crRedFairness := crRedFairness x; crRedFeedback := crRedFeedback x |}.

(** [TaskExecution] (workflow/execution.go) *)
Record TaskExecution := MkTaskExecution {
  teEntityID : string;
  teSlug : string;
  teTaskID : string;
  teRequirementID : string;
  teStage : string;
  teTDDCycle : Z;
  teMaxTDDCycles : Z;
  teTitle : string;
  teDescription : string;
  teProjectID : string;
  tePrompt : string;
  teModel : string;
  teTraceID : string;
  teLoopID : string;
  teRequestID : string;
  teTaskType : string;
  teAgentID : string;
  teWorktreePath : string;
  teWorktreeBranch : string;
  teScenarioBranch : string;
  teFileScope : list string;
  teScenarios : list Scenario;
  teFilesModified : list string;
  teTestsPassed : bool;
  teValidationPassed : bool;
  teMergeCommit : string;
  teDeveloperTaskID : string;
  teValidatorTaskID : string;
  teReviewerTaskID : string;
  teVerdict : string;
  teRejectionType : string;
  teFeedback : string;
  teReviewRetryCount : Z;
  teErrorReason : string;
  teErrorClass : string;
  teEscalationReason : string;
  teCreatedAt : Z;
  teUpdatedAt : Z }.

Definition set_teEntityID (v : string) (x : TaskExecution) : TaskExecution :=
  {| teEntityID := v; teSlug := teSlug x; teTaskID := teTaskID x;
     teRequirementID := teRequirementID x; teStage := teStage x; teTDDCycle := teTDDCycle x;
     teMaxTDDCycles := teMaxTDDCycles x; teTitle := teTitle x; teDescription := teDescription x;
     teProjectID := teProjectID x; tePrompt := tePrompt x; teModel := teModel x;
     teTraceID := teTraceID x; teLoopID := teLoopID x; teRequestID := teRequestID x;
     teTaskType := teTaskType x; teAgentID := teAgentID x; teWorktreePath := teWorktreePath x;
     teWorktreeBranch := teWorktreeBranch x; teScenarioBranch := teScenarioBranch x;
     teFileScope := teFileScope x; teScenarios := teScenarios x;
     teFilesModified := teFilesModified x; teTestsPassed := teTestsPassed x;
     teValidationPassed := teValidationPassed x; teMergeCommit := teMergeCommit x;
     teDeveloperTaskID := teDeveloperTaskID x; teValidatorTaskID := teValidatorTaskID x;
     teReviewerTaskID := teReviewerTaskID x; teVerdict := teVerdict x;
     teRejectionType := teRejectionType x; teFeedback := teFeedback x;
     teReviewRetryCount := teReviewRetryCount x; teErrorReason := teErrorReason x;
     teErrorClass := teErrorClass x; teEscalationReason := teEscalationReason x;
     teCreatedAt := teCreatedAt x; teUpdatedAt := teUpdatedAt x |}.

Definition set_teStage (v : string) (x : TaskExecution) : TaskExecution :=
  {| teEntityID := teEntityID x; teSlug := teSlug x; teTaskID := teTaskID x;
     teRequirementID := teRequirementID x; teStage := v; teTDDCycle := teTDDCycle x;
     teMaxTDDCycles := teMaxTDDCycles x; teTitle := teTitle x; teDescription := teDescription x;
     teProjectID := teProjectID x; tePrompt := tePrompt x; teModel := teModel x;
     teTraceID := teTraceID x; teLoopID := teLoopID x; teRequestID := teRequestID x;
     teTaskType := teTaskType x; teAgentID := teAgentID x; teWorktreePath := teWorktreePath x;
     teWorktreeBranch := teWorktreeBranch x; teScenarioBranch := teScenarioBranch x;
     teFileScope := teFileScope x; teScenarios := teScenarios x;
     teFilesModified := teFilesModified x; teTestsPassed := teTestsPassed x;
     teValidationPassed := teValidationPassed x; teMergeCommit := teMergeCommit x;
     teDeveloperTaskID := teDeveloperTaskID x; teValidatorTaskID := teValidatorTaskID x;
     teReviewerTaskID := teReviewerTaskID x; teVerdict := teVerdict x;
     teRejectionType := teRejectionType x; teFeedback := teFeedback x;
     teReviewRetryCount := teReviewRetryCount x; teErrorReason := teErrorReason x;
     teErrorClass := teErrorClass x; teEscalationReason := teEscalationReason x;
     teCreatedAt := teCreatedAt x; teUpdatedAt := teUpdatedAt x |}.

Definition set_teTDDCycle (v : Z) (x : TaskExecution) : TaskExecution :=
  {| teEntityID := teEntityID x; teSlug := teSlug x; teTaskID := teTaskID x;
     teRequirementID := teRequirementID x; teStage := teStage x; teTDDCycle := v;
     teMaxTDDCycles := teMaxTDDCycles x; teTitle := teTitle x; teDescription := teDescription x;
     teProjectID := teProjectID x; tePrompt := tePrompt x; teModel := teModel x;
     teTraceID := teTraceID x; teLoopID := teLoopID x; teRequestID := teRequestID x;
     teTaskType := teTaskType x; teAgentID := teAgentID x; teWorktreePath := teWorktreePath x;
     teWorktreeBranch := teWorktreeBranch x; teScenarioBranch := teScenarioBranch x;
     teFileScope := teFileScope x; teScenarios := teScenarios x;
     teFilesModified := teFilesModified x; teTestsPassed := teTestsPassed x;
     teValidationPassed := teValidationPassed x; teMergeCommit := teMergeCommit x;
     teDeveloperTaskID := teDeveloperTaskID x; teValidatorTaskID := teValidatorTaskID x;
     teReviewerTaskID := teReviewerTaskID x; teVerdict := teVerdict x;
     teRejectionType := teRejectionType x; teFeedback := teFeedback x;
     teReviewRetryCount := teReviewRetryCount x; teErrorReason := teErrorReason x;
     teErrorClass := teErrorClass x; teEscalationReason := teEscalationReason x;
     teCreatedAt := teCreatedAt x; teUpdatedAt := teUpdatedAt x |}.

Definition set_teMaxTDDCycles (v : Z) (x : TaskExecution) : TaskExecution :=
  {| teEntityID := teEntityID x; teSlug := teSlug x; teTaskID := teTaskID x;
     teRequirementID := teRequirementID x; teStage := teStage x; teTDDCycle := teTDDCycle x;
     teMaxTDDCycles := v; teTitle := teTitle x; teDescription := teDescription x;
     teProjectID := teProjectID x; tePrompt := tePrompt x; teModel := teModel x;
     teTraceID := teTraceID x; teLoopID := teLoopID x; teRequestID := teRequestID x;
     teTaskType := teTaskType x; teAgentID := teAgentID x; teWorktreePath := teWorktreePath x;
     teWorktreeBranch := teWorktreeBranch x; teScenarioBranch := teScenarioBranch x;
     teFileScope := teFileScope x; teScenarios := teScenarios x;
     teFilesModified := teFilesModified x; teTestsPassed := teTestsPassed x;
     teValidationPassed := teValidationPassed x; teMergeCommit := teMergeCommit x;
     teDeveloperTaskID := teDeveloperTaskID x; teValidatorTaskID := teValidatorTaskID x;
     teReviewerTaskID := teReviewerTaskID x; teVerdict := teVerdict x;
     teRejectionType := teRejectionType x; teFeedback := teFeedback x;
     teReviewRetryCount := teReviewRetryCount x; teErrorReason := teErrorReason x;
     teErrorClass := teErrorClass x; teEscalationReason := teEscalationReason x;
     teCreatedAt := teCreatedAt x; teUpdatedAt := teUpdatedAt x |}.

Definition set_teWorktreePath (v : string) (x : TaskExecution) : TaskExecution :=
  {| teEntityID := teEntityID x; teSlug := teSlug x; teTaskID := teTaskID x;
     teRequirementID := teRequirementID x; teStage := teStage x; teTDDCycle := teTDDCycle x;
     teMaxTDDCycles := teMaxTDDCycles x; teTitle := teTitle x; teDescription := teDescription x;
     teProjectID := teProjectID x; tePrompt := tePrompt x; teModel := teModel x;
     teTraceID := teTraceID x; teLoopID := teLoopID x; teRequestID := teRequestID x;
     teTaskType := teTaskType x; teAgentID := teAgentID x; teWorktreePath := v;
     teWorktreeBranch := teWorktreeBranch x; teScenarioBranch := teScenarioBranch x;
     teFileScope := teFileScope x; teScenarios := teScenarios x;
     teFilesModified := teFilesModified x; teTestsPassed := teTestsPassed x;
     teValidationPassed := teValidationPassed x; teMergeCommit := teMergeCommit x;
     teDeveloperTaskID := teDeveloperTaskID x; teValidatorTaskID := teValidatorTaskID x;
     teReviewerTaskID := teReviewerTaskID x; teVerdict := teVerdict x;
     teRejectionType := teRejectionType x; teFeedback := teFeedback x;
     teReviewRetryCount := teReviewRetryCount x; teErrorReason := teErrorReason x;
     teErrorClass := teErrorClass x; teEscalationReason := teEscalationReason x;
     teCreatedAt := teCreatedAt x; teUpdatedAt := teUpdatedAt x |}.

Definition set_teWorktreeBranch (v : string) (x : TaskExecution) : TaskExecution :=
  {| teEntityID := teEntityID x; teSlug := teSlug x; teTaskID := teTaskID x;
     teRequirementID := teRequirementID x; teStage := teStage x; teTDDCycle := teTDDCycle x;
     teMaxTDDCycles := teMaxTDDCycles x; teTitle := teTitle x; teDescription := teDescription x;
     teProjectID := teProjectID x; tePrompt := tePrompt x; teModel := teModel x;
     teTraceID := teTraceID x; teLoopID := teLoopID x; teRequestID := teRequestID x;
     teTaskType := teTaskType x; teAgentID := teAgentID x; teWorktreePath := teWorktreePath x;
     teWorktreeBranch := v; teScenarioBranch := teScenarioBranch x; teFileScope := teFileScope x;
     teScenarios := teScenarios x; teFilesModified := teFilesModified x;
     teTestsPassed := teTestsPassed x; teValidationPassed := teValidationPassed x;
     teMergeCommit := teMergeCommit x; teDeveloperTaskID := teDeveloperTaskID x;
     teValidatorTaskID := teValidatorTaskID x; teReviewerTaskID := teReviewerTaskID x;
     teVerdict := teVerdict x; teRejectionType := teRejectionType x; teFeedback := teFeedback x;
     teReviewRetryCount := teReviewRetryCount x; teErrorReason := teErrorReason x;
     teErrorClass := teErrorClass x; teEscalationReason := teEscalationReason x;
     teCreatedAt := teCreatedAt x; teUpdatedAt := teUpdatedAt x |}.

Definition set_teFilesModified (v : list string) (x : TaskExecution) : TaskExecution :=
  {| teEntityID := teEntityID x; teSlug := teSlug x; teTaskID := teTaskID x;
     teRequirementID := teRequirementID x; teStage := teStage x; teTDDCycle := teTDDCycle x;
     teMaxTDDCycles := teMaxTDDCycles x; teTitle := teTitle x; teDescription := teDescription x;
     teProjectID := teProjectID x; tePrompt := tePrompt x; teModel := teModel x;
     teTraceID := teTraceID x; teLoopID := teLoopID x; teRequestID := teRequestID x;
     teTaskType := teTaskType x; teAgentID := teAgentID x; teWorktreePath := teWorktreePath x;
     teWorktreeBranch := teWorktreeBranch x; teScenarioBranch := teScenarioBranch x;
     teFileScope := teFileScope x; teScenarios := teScenarios x; teFilesModified := v;
     teTestsPassed := teTestsPassed x; teValidationPassed := teValidationPassed x;
     teMergeCommit := teMergeCommit x; teDeveloperTaskID := teDeveloperTaskID x;
     teValidatorTaskID := teValidatorTaskID x; teReviewerTaskID := teReviewerTaskID x;
     teVerdict := teVerdict x; teRejectionType := teRejectionType x; teFeedback := teFeedback x;
     teReviewRetryCount := teReviewRetryCount x; teErrorReason := teErrorReason x;
     teErrorClass := teErrorClass x; teEscalationReason := teEscalationReason x;
     teCreatedAt := teCreatedAt x; teUpdatedAt := teUpdatedAt x |}.

Definition set_teTestsPassed (v : bool) (x : TaskExecution) : TaskExecution :=
  {| teEntityID := teEntityID x; teSlug := teSlug x; teTaskID := teTaskID x;
     teRequirementID := teRequirementID x; teStage := teStage x; teTDDCycle := teTDDCycle x;
     teMaxTDDCycles := teMaxTDDCycles x; teTitle := teTitle x; teDescription := teDescription x;
     teProjectID := teProjectID x; tePrompt := tePrompt x; teModel := teModel x;
     teTraceID := teTraceID x; teLoopID := teLoopID x; teRequestID := teRequestID x;
     teTaskType := teTaskType x; teAgentID := teAgentID x; teWorktreePath := teWorktreePath x;
     teWorktreeBranch := teWorktreeBranch x; teScenarioBranch := teScenarioBranch x;
     teFileScope := teFileScope x; teScenarios := teScenarios x;
     teFilesModified := teFilesModified x; teTestsPassed := v;
     teValidationPassed := teValidationPassed x; teMergeCommit := teMergeCommit x;
     teDeveloperTaskID := teDeveloperTaskID x; teValidatorTaskID := teValidatorTaskID x;
     teReviewerTaskID := teReviewerTaskID x; teVerdict := teVerdict x;
     teRejectionType := teRejectionType x; teFeedback := teFeedback x;
     teReviewRetryCount := teReviewRetryCount x; teErrorReason := teErrorReason x;
     teErrorClass := teErrorClass x; teEscalationReason := teEscalationReason x;
     teCreatedAt := teCreatedAt x; teUpdatedAt := teUpdatedAt x |}.

Definition set_teValidationPassed (v : bool) (x : TaskExecution) : TaskExecution :=
  {| teEntityID := teEntityID x; teSlug := teSlug x; teTaskID := teTaskID x;
     teRequirementID := teRequirementID x; teStage := teStage x; teTDDCycle := teTDDCycle x;
     teMaxTDDCycles := teMaxTDDCycles x; teTitle := teTitle x; teDescription := teDescription x;
     teProjectID := teProjectID x; tePrompt := tePrompt x; teModel := teModel x;
     teTraceID := teTraceID x; teLoopID := teLoopID x; teRequestID := teRequestID x;
     teTaskType := teTaskType x; teAgentID := teAgentID x; teWorktreePath := teWorktreePath x;
     teWorktreeBranch := teWorktreeBranch x; teScenarioBranch := teScenarioBranch x;
     teFileScope := teFileScope x; teScenarios := teScenarios x;
     teFilesModified := teFilesModified x; teTestsPassed := teTestsPassed x;
     teValidationPassed := v; teMergeCommit := teMergeCommit x;
     teDeveloperTaskID := teDeveloperTaskID x; teValidatorTaskID := teValidatorTaskID x;
     teReviewerTaskID := teReviewerTaskID x; teVerdict := teVerdict x;
     teRejectionType := teRejectionType x; teFeedback := teFeedback x;
     teReviewRetryCount := teReviewRetryCount x; teErrorReason := teErrorReason x;
     teErrorClass := teErrorClass x; teEscalationReason := teEscalationReason x;
     teCreatedAt := teCreatedAt x; teUpdatedAt := teUpdatedAt x |}.

Definition set_teMergeCommit (v : string) (x : TaskExecution) : TaskExecution :=
  {| teEntityID := teEntityID x; teSlug := teSlug x; teTaskID := teTaskID x;
     teRequirementID := teRequirementID x; teStage := teStage x; teTDDCycle := teTDDCycle x;
     teMaxTDDCycles := teMaxTDDCycles x; teTitle := teTitle x; teDescription := teDescription x;
     teProjectID := teProjectID x; tePrompt := tePrompt x; teModel := teModel x;
     teTraceID := teTraceID x; teLoopID := teLoopID x; teRequestID := teRequestID x;
     teTaskType := teTaskType x; teAgentID := teAgentID x; teWorktreePath := teWorktreePath x;
     teWorktreeBranch := teWorktreeBranch x; teScenarioBranch := teScenarioBranch x;
     teFileScope := teFileScope x; teScenarios := teScenarios x;
     teFilesModified := teFilesModified x; teTestsPassed := teTestsPassed x;
     teValidationPassed := teValidationPassed x; teMergeCommit := v;
     teDeveloperTaskID := teDeveloperTaskID x; teValidatorTaskID := teValidatorTaskID x;
     teReviewerTaskID := teReviewerTaskID x; teVerdict := teVerdict x;
     teRejectionType := teRejectionType x; teFeedback := teFeedback x;
     teReviewRetryCount := teReviewRetryCount x; teErrorReason := teErrorReason x;
     teErrorClass := teErrorClass x; teEscalationReason := teEscalationReason x;
     teCreatedAt := teCreatedAt x; teUpdatedAt := teUpdatedAt x |}.

Definition set_teDeveloperTaskID (v : string) (x : TaskExecution) : TaskExecution :=
  {| teEntityID := teEntityID x; teSlug := teSlug x; teTaskID := teTaskID x;
     teRequirementID := teRequirementID x; teStage := teStage x; teTDDCycle := teTDDCycle x;
     teMaxTDDCycles := teMaxTDDCycles x; teTitle := teTitle x; teDescription := teDescription x;
     teProjectID := teProjectID x; tePrompt := tePrompt x; teModel := teModel x;
     teTraceID := teTraceID x; teLoopID := teLoopID x; teRequestID := teRequestID x;
     teTaskType := teTaskType x; teAgentID := teAgentID x; teWorktreePath := teWorktreePath x;
     teWorktreeBranch := teWorktreeBranch x; teScenarioBranch := teScenarioBranch x;
     teFileScope := teFileScope x; teScenarios := teScenarios x;
     teFilesModified := teFilesModified x; teTestsPassed := teTestsPassed x;
     teValidationPassed := teValidationPassed x; teMergeCommit := teMergeCommit x;
     teDeveloperTaskID := v; teValidatorTaskID := teValidatorTaskID x;
     teReviewerTaskID := teReviewerTaskID x; teVerdict := teVerdict x;
     teRejectionType := teRejectionType x; teFeedback := teFeedback x;
     teReviewRetryCount := teReviewRetryCount x; teErrorReason := teErrorReason x;
     teErrorClass := teErrorClass x; teEscalationReason := teEscalationReason x;
     teCreatedAt := teCreatedAt x; teUpdatedAt := teUpdatedAt x |}.

Definition set_teValidatorTaskID (v : string) (x : TaskExecution) : TaskExecution :=
  {| teEntityID := teEntityID x; teSlug := teSlug x; teTaskID := teTaskID x;
     teRequirementID := teRequirementID x; teStage := teStage x; teTDDCycle := teTDDCycle x;
     teMaxTDDCycles := teMaxTDDCycles x; teTitle := teTitle x; teDescription := teDescription x;
     teProjectID := teProjectID x; tePrompt := tePrompt x; teModel := teModel x;
     teTraceID := teTraceID x; teLoopID := teLoopID x; teRequestID := teRequestID x;
     teTaskType := teTaskType x; teAgentID := teAgentID x; teWorktreePath := teWorktreePath x;
     teWorktreeBranch := teWorktreeBranch x; teScenarioBranch := teScenarioBranch x;
     teFileScope := teFileScope x; teScenarios := teScenarios x;
     teFilesModified := teFilesModified x; teTestsPassed := teTestsPassed x;
     teValidationPassed := teValidationPassed x; teMergeCommit := teMergeCommit x;
     teDeveloperTaskID := teDeveloperTaskID x; teValidatorTaskID := v;
     teReviewerTaskID := teReviewerTaskID x; teVerdict := teVerdict x;
     teRejectionType := teRejectionType x; teFeedback := teFeedback x;
     teReviewRetryCount := teReviewRetryCount x; teErrorReason := teErrorReason x;
     teErrorClass := teErrorClass x; teEscalationReason := teEscalationReason x;
     teCreatedAt := teCreatedAt x; teUpdatedAt := teUpdatedAt x |}.

Definition set_teReviewerTaskID (v : string) (x : TaskExecution) : TaskExecution :=
  {| teEntityID := teEntityID x; teSlug := teSlug x; teTaskID := teTaskID x;
     teRequirementID := teRequirementID x; teStage := teStage x; teTDDCycle := teTDDCycle x;
     teMaxTDDCycles := teMaxTDDCycles x; teTitle := teTitle x; teDescription := teDescription x;
     teProjectID := teProjectID x; tePrompt := tePrompt x; teModel := teModel x;
     teTraceID := teTraceID x; teLoopID := teLoopID x; teRequestID := teRequestID x;
     teTaskType := teTaskType x; teAgentID := teAgentID x; teWorktreePath := teWorktreePath x;
     teWorktreeBranch := teWorktreeBranch x; teScenarioBranch := teScenarioBranch x;
     teFileScope := teFileScope x; teScenarios := teScenarios x;
     teFilesModified := teFilesModified x; teTestsPassed := teTestsPassed x;
     teValidationPassed := teValidationPassed x; teMergeCommit := teMergeCommit x;
     teDeveloperTaskID := teDeveloperTaskID x; teValidatorTaskID := teValidatorTaskID x;
     teReviewerTaskID := v; teVerdict := teVerdict x; teRejectionType := teRejectionType x;
     teFeedback := teFeedback x; teReviewRetryCount := teReviewRetryCount x;
     teErrorReason := teErrorReason x; teErrorClass := teErrorClass x;
     teEscalationReason := teEscalationReason x; teCreatedAt := teCreatedAt x;
     teUpdatedAt := teUpdatedAt x |}.

Definition set_teVerdict (v : string) (x : TaskExecution) : TaskExecution :=
  {| teEntityID := teEntityID x; teSlug := teSlug x; teTaskID := teTaskID x;
     teRequirementID := teRequirementID x; teStage := teStage x; teTDDCycle := teTDDCycle x;
     teMaxTDDCycles := teMaxTDDCycles x; teTitle := teTitle x; teDescription := teDescription x;
     teProjectID := teProjectID x; tePrompt := tePrompt x; teModel := teModel x;
     teTraceID := teTraceID x; teLoopID := teLoopID x; teRequestID := teRequestID x;
     teTaskType := teTaskType x; teAgentID := teAgentID x; teWorktreePath := teWorktreePath x;
     teWorktreeBranch := teWorktreeBranch x; teScenarioBranch := teScenarioBranch x;
     teFileScope := teFileScope x; teScenarios := teScenarios x;
     teFilesModified := teFilesModified x; teTestsPassed := teTestsPassed x;
     teValidationPassed := teValidationPassed x; teMergeCommit := teMergeCommit x;
     teDeveloperTaskID := teDeveloperTaskID x; teValidatorTaskID := teValidatorTaskID x;
     teReviewerTaskID := teReviewerTaskID x; teVerdict := v;
     teRejectionType := teRejectionType x; teFeedback := teFeedback x;
     teReviewRetryCount := teReviewRetryCount x; teErrorReason := teErrorReason x;
     teErrorClass := teErrorClass x; teEscalationReason := teEscalationReason x;
     teCreatedAt := teCreatedAt x; teUpdatedAt := teUpdatedAt x |}.

Definition set_teRejectionType (v : string) (x : TaskExecution) : TaskExecution :=
  {| teEntityID := teEntityID x; teSlug := teSlug x; teTaskID := teTaskID x;
     teRequirementID := teRequirementID x; teStage := teStage x; teTDDCycle := teTDDCycle x;
     teMaxTDDCycles := teMaxTDDCycles x; teTitle := teTitle x; teDescription := teDescription x;
     teProjectID := teProjectID x; tePrompt := tePrompt x; teModel := teModel x;
     teTraceID := teTraceID x; teLoopID := teLoopID x; teRequestID := teRequestID x;
     teTaskType := teTaskType x; teAgentID := teAgentID x; teWorktreePath := teWorktreePath x;
     teWorktreeBranch := teWorktreeBranch x; teScenarioBranch := teScenarioBranch x;
     teFileScope := teFileScope x; teScenarios := teScenarios x;
     teFilesModified := teFilesModified x; teTestsPassed := teTestsPassed x;
     teValidationPassed := teValidationPassed x; teMergeCommit := teMergeCommit x;
     teDeveloperTaskID := teDeveloperTaskID x; teValidatorTaskID := teValidatorTaskID x;
     teReviewerTaskID := teReviewerTaskID x; teVerdict := teVerdict x; teRejectionType := v;
     teFeedback := teFeedback x; teReviewRetryCount := teReviewRetryCount x;
     teErrorReason := teErrorReason x; teErrorClass := teErrorClass x;
     teEscalationReason := teEscalationReason x; teCreatedAt := teCreatedAt x;
     teUpdatedAt := teUpdatedAt x |}.

Definition set_teFeedback (v : string) (x : TaskExecution) : TaskExecution :=
  {| teEntityID := teEntityID x; teSlug := teSlug x; teTaskID := teTaskID x;
     teRequirementID := teRequirementID x; teStage := teStage x; teTDDCycle := teTDDCycle x;
     teMaxTDDCycles := teMaxTDDCycles x; teTitle := teTitle x; teDescription := teDescription x;
     teProjectID := teProjectID x; tePrompt := tePrompt x; teModel := teModel x;
     teTraceID := teTraceID x; teLoopID := teLoopID x; teRequestID := teRequestID x;
     teTaskType := teTaskType x; teAgentID := teAgentID x; teWorktreePath := teWorktreePath x;
     teWorktreeBranch := teWorktreeBranch x; teScenarioBranch := teScenarioBranch x;
     teFileScope := teFileScope x; teScenarios := teScenarios x;
     teFilesModified := teFilesModified x; teTestsPassed := teTestsPassed x;
     teValidationPassed := teValidationPassed x; teMergeCommit := teMergeCommit x;
     teDeveloperTaskID := teDeveloperTaskID x; teValidatorTaskID := teValidatorTaskID x;
     teReviewerTaskID := teReviewerTaskID x; teVerdict := teVerdict x;
     teRejectionType := teRejectionType x; teFeedback := v;
     teReviewRetryCount := teReviewRetryCount x; teErrorReason := teErrorReason x;
     teErrorClass := teErrorClass x; teEscalationReason := teEscalationReason x;
     teCreatedAt := teCreatedAt x; teUpdatedAt := teUpdatedAt x |}.

Definition set_teReviewRetryCount (v : Z) (x : TaskExecution) : TaskExecution :=
  {| teEntityID := teEntityID x; teSlug := teSlug x; teTaskID := teTaskID x;
     teRequirementID := teRequirementID x; teStage := teStage x; teTDDCycle := teTDDCycle x;
     teMaxTDDCycles := teMaxTDDCycles x; teTitle := teTitle x; teDescription := teDescription x;
     teProjectID := teProjectID x; tePrompt := tePrompt x; teModel := teModel x;
     teTraceID := teTraceID x; teLoopID := teLoopID x; teRequestID := teRequestID x;
     teTaskType := teTaskType x; teAgentID := teAgentID x; teWorktreePath := teWorktreePath x;
     teWorktreeBranch := teWorktreeBranch x; teScenarioBranch := teScenarioBranch x;
     teFileScope := teFileScope x; teScenarios := teScenarios x;
     teFilesModified := teFilesModified x; teTestsPassed := teTestsPassed x;
     teValidationPassed := teValidationPassed x; teMergeCommit := teMergeCommit x;
     teDeveloperTaskID := teDeveloperTaskID x; teValidatorTaskID := teValidatorTaskID x;
     teReviewerTaskID := teReviewerTaskID x; teVerdict := teVerdict x;
     teRejectionType := teRejectionType x; teFeedback := teFeedback x; teReviewRetryCount := v;
     teErrorReason := teErrorReason x; teErrorClass := teErrorClass x;
     teEscalationReason := teEscalationReason x; teCreatedAt := teCreatedAt x;
     teUpdatedAt := teUpdatedAt x |}.

Definition set_teErrorReason (v : string) (x : TaskExecution) : TaskExecution :=
  {| teEntityID := teEntityID x; teSlug := teSlug x; teTaskID := teTaskID x;
     teRequirementID := teRequirementID x; teStage := teStage x; teTDDCycle := teTDDCycle x;
     teMaxTDDCycles := teMaxTDDCycles x; teTitle := teTitle x; teDescription := teDescription x;
     teProjectID := teProjectID x; tePrompt := tePrompt x; teModel := teModel x;
     teTraceID := teTraceID x; teLoopID := teLoopID x; teRequestID := teRequestID x;
     teTaskType := teTaskType x; teAgentID := teAgentID x; teWorktreePath := teWorktreePath x;
     teWorktreeBranch := teWorktreeBranch x; teScenarioBranch := teScenarioBranch x;
     teFileScope := teFileScope x; teScenarios := teScenarios x;
     teFilesModified := teFilesModified x; teTestsPassed := teTestsPassed x;
     teValidationPassed := teValidationPassed x; teMergeCommit := teMergeCommit x;
     teDeveloperTaskID := teDeveloperTaskID x; teValidatorTaskID := teValidatorTaskID x;
     teReviewerTaskID := teReviewerTaskID x; teVerdict := teVerdict x;
     teRejectionType := teRejectionType x; teFeedback := teFeedback x;
     teReviewRetryCount := teReviewRetryCount x; teErrorReason := v;
     teErrorClass := teErrorClass x; teEscalationReason := teEscalationReason x;
     teCreatedAt := teCreatedAt x; teUpdatedAt := teUpdatedAt x |}.

Definition set_teErrorClass (v : string) (x : TaskExecution) : TaskExecution :=
  {| teEntityID := teEntityID x; teSlug := teSlug x; teTaskID := teTaskID x;
     teRequirementID := teRequirementID x; teStage := teStage x; teTDDCycle := teTDDCycle x;
     teMaxTDDCycles := teMaxTDDCycles x; teTitle := teTitle x; teDescription := teDescription x;
     teProjectID := teProjectID x; tePrompt := tePrompt x; teModel := teModel x;
     teTraceID := teTraceID x; teLoopID := teLoopID x; teRequestID := teRequestID x;
     teTaskType := teTaskType x; teAgentID := teAgentID x; teWorktreePath := teWorktreePath x;
     teWorktreeBranch := teWorktreeBranch x; teScenarioBranch := teScenarioBranch x;
     teFileScope := teFileScope x; teScenarios := teScenarios x;
     teFilesModified := teFilesModified x; teTestsPassed := teTestsPassed x;
     teValidationPassed := teValidationPassed x; teMergeCommit := teMergeCommit x;
     teDeveloperTaskID := teDeveloperTaskID x; teValidatorTaskID := teValidatorTaskID x;
     teReviewerTaskID := teReviewerTaskID x; teVerdict := teVerdict x;
     teRejectionType := teRejectionType x; teFeedback := teFeedback x;
     teReviewRetryCount := teReviewRetryCount x; teErrorReason := teErrorReason x;
     teErrorClass := v; teEscalationReason := teEscalationReason x; teCreatedAt := teCreatedAt x;
     teUpdatedAt := teUpdatedAt x |}.

Definition set_teEscalationReason (v : string) (x : TaskExecution) : TaskExecution :=
  {| teEntityID := teEntityID x; teSlug := teSlug x; teTaskID := teTaskID x;
     teRequirementID := teRequirementID x; teStage := teStage x; teTDDCycle := teTDDCycle x;
     teMaxTDDCycles := teMaxTDDCycles x; teTitle := teTitle x; teDescription := teDescription x;
     teProjectID := teProjectID x; tePrompt := tePrompt x; teModel := teModel x;
     teTraceID := teTraceID x; teLoopID := teLoopID x; teRequestID := teRequestID x;
     teTaskType := teTaskType x; teAgentID := teAgentID x; teWorktreePath := teWorktreePath x;
     teWorktreeBranch := teWorktreeBranch x; teScenarioBranch := teScenarioBranch x;
     teFileScope := teFileScope x; teScenarios := teScenarios x;
     teFilesModified := teFilesModified x; teTestsPassed := teTestsPassed x;
     teValidationPassed := teValidationPassed x; teMergeCommit := teMergeCommit x;
     teDeveloperTaskID := teDeveloperTaskID x; teValidatorTaskID := teValidatorTaskID x;
     teReviewerTaskID := teReviewerTaskID x; teVerdict := teVerdict x;
     teRejectionType := teRejectionType x; teFeedback := teFeedback x;
     teReviewRetryCount := teReviewRetryCount x; teErrorReason := teErrorReason x;
     teErrorClass := teErrorClass x; teEscalationReason := v; teCreatedAt := teCreatedAt x;
     teUpdatedAt := teUpdatedAt x |}.

Definition set_teUpdatedAt (v : Z) (x : TaskExecution) : TaskExecution :=
  {| teEntityID := teEntityID x; teSlug := teSlug x; teTaskID := teTaskID x;
     teRequirementID := teRequirementID x; teStage := teStage x; teTDDCycle := teTDDCycle x;
     teMaxTDDCycles := teMaxTDDCycles x; teTitle := teTitle x; teDescription := teDescription x;
     teProjectID := teProjectID x; tePrompt := tePrompt x; teModel := teModel x;
     teTraceID := teTraceID x; teLoopID := teLoopID x; teRequestID := teRequestID x;
     teTaskType := teTaskType x; teAgentID := teAgentID x; teWorktreePath := teWorktreePath x;
     teWorktreeBranch := teWorktreeBranch x; teScenarioBranch := teScenarioBranch x;
     teFileScope := teFileScope x; teScenarios := teScenarios x;
     teFilesModified := teFilesModified x; teTestsPassed := teTestsPassed x;
     teValidationPassed := teValidationPassed x; teMergeCommit := teMergeCommit x;
     teDeveloperTaskID := teDeveloperTaskID x; teValidatorTaskID := teValidatorTaskID x;
     teReviewerTaskID := teReviewerTaskID x; teVerdict := teVerdict x;
     teRejectionType := teRejectionType x; teFeedback := teFeedback x;
     teReviewRetryCount := teReviewRetryCount x; teErrorReason := teErrorReason x;
     teErrorClass := teErrorClass x; teEscalationReason := teEscalationReason x;
     teCreatedAt := teCreatedAt x; teUpdatedAt := v |}.

(** [NodeResult] (workflow/execution.go) *)
Record NodeResult := MkNodeResult {
  nrNodeID : string;
  nrFilesModified : list string;
  nrSummary : string;
  nrCommitSHA : string }.

(** [ScenarioVerdict] (workflow/execution.go) *)
Record ScenarioVerdict := MkScenarioVerdict {
  svScenarioID : string;
  svPassed : bool;
  svFeedback : string }.

(** [PrereqContext] (workflow/execution.go) *)
Record PrereqContext := MkPrereqContext {
  pqRequirementID : string;
  pqTitle : string;
  pqDescription : string;
  pqFilesModified : list string;
  pqSummary : string }.

(** [RequirementExecution] (workflow/execution.go) *)
Record RequirementExecution := MkRequirementExecution {
  reEntityID : string;
  reSlug : string;
  reRequirementID : string;
  reStage : string;
  reTitle : string;
  reDescription : string;
  reProjectID : string;
  reTraceID : string;
  reLoopID : string;
  reRequestID : string;
  reModel : string;
  reScenarios : list Scenario;
  reDependsOn : list PrereqContext;
  rePrompt : string;
  reRole : string;
  rePlanBranch : string;
  reBaseBranch : string;
  reSortedStoryIDs : list string;
  reCurrentStoryIdx : Z;
  reNodeCount : Z;
  reCurrentNodeIdx : Z;
  reDAGRaw : string;
  reSortedNodeIDs : list string;
  reNodeResults : list NodeResult;
  reScenarioVerdicts : list ScenarioVerdict;
  reCurrentNodeTaskID : string;
  reReviewerTaskID : string;
  reRequirementBranch : string;
  reReviewVerdict : string;
  reReviewFeedback : string;
  reErrorReason : string;
  reErrorClass : string;
  reRetryCount : Z;
  reMaxRetries : Z;
  reCreatedAt : Z;
  reUpdatedAt : Z }.

Definition set_reEntityID (v : string) (x : RequirementExecution) : RequirementExecution :=
  {| reEntityID := v; reSlug := reSlug x; reRequirementID := reRequirementID x;
     reStage := reStage x; reTitle := reTitle x; reDescription := reDescription x;
     reProjectID := reProjectID x; reTraceID := reTraceID x; reLoopID := reLoopID x;
     reRequestID := reRequestID x; reModel := reModel x; reScenarios := reScenarios x;
     reDependsOn := reDependsOn x; rePrompt := rePrompt x; reRole := reRole x;
     rePlanBranch := rePlanBranch x; reBaseBranch := reBaseBranch x;
     reSortedStoryIDs := reSortedStoryIDs x; reCurrentStoryIdx := reCurrentStoryIdx x;
     reNodeCount := reNodeCount x; reCurrentNodeIdx := reCurrentNodeIdx x;
     reDAGRaw := reDAGRaw x; reSortedNodeIDs := reSortedNodeIDs x;
     reNodeResults := reNodeResults x; reScenarioVerdicts := reScenarioVerdicts x;
     reCurrentNodeTaskID := reCurrentNodeTaskID x; reReviewerTaskID := reReviewerTaskID x;
     reRequirementBranch := reRequirementBranch x; reReviewVerdict := reReviewVerdict x;
     reReviewFeedback := reReviewFeedback x; reErrorReason := reErrorReason x;
     reErrorClass := reErrorClass x; reRetryCount := reRetryCount x;
     reMaxRetries := reMaxRetries x; reCreatedAt := reCreatedAt x; reUpdatedAt := reUpdatedAt x |}.

Definition set_reStage (v : string) (x : RequirementExecution) : RequirementExecution :=
  {| reEntityID := reEntityID x; reSlug := reSlug x; reRequirementID := reRequirementID x;
     reStage := v; reTitle := reTitle x; reDescription := reDescription x;
     reProjectID := reProjectID x; reTraceID := reTraceID x; reLoopID := reLoopID x;
     reRequestID := reRequestID x; reModel := reModel x; reScenarios := reScenarios x;
     reDependsOn := reDependsOn x; rePrompt := rePrompt x; reRole := reRole x;
     rePlanBranch := rePlanBranch x; reBaseBranch := reBaseBranch x;
     reSortedStoryIDs := reSortedStoryIDs x; reCurrentStoryIdx := reCurrentStoryIdx x;
     reNodeCount := reNodeCount x; reCurrentNodeIdx := reCurrentNodeIdx x;
     reDAGRaw := reDAGRaw x; reSortedNodeIDs := reSortedNodeIDs x;
     reNodeResults := reNodeResults x; reScenarioVerdicts := reScenarioVerdicts x;
     reCurrentNodeTaskID := reCurrentNodeTaskID x; reReviewerTaskID := reReviewerTaskID x;
     reRequirementBranch := reRequirementBranch x; reReviewVerdict := reReviewVerdict x;
     reReviewFeedback := reReviewFeedback x; reErrorReason := reErrorReason x;
     reErrorClass := reErrorClass x; reRetryCount := reRetryCount x;
     reMaxRetries := reMaxRetries x; reCreatedAt := reCreatedAt x; reUpdatedAt := reUpdatedAt x |}.

Definition set_reNodeCount (v : Z) (x : RequirementExecution) : RequirementExecution :=
  {| reEntityID := reEntityID x; reSlug := reSlug x; reRequirementID := reRequirementID x;
     reStage := reStage x; reTitle := reTitle x; reDescription := reDescription x;
     reProjectID := reProjectID x; reTraceID := reTraceID x; reLoopID := reLoopID x;
     reRequestID := reRequestID x; reModel := reModel x; reScenarios := reScenarios x;
     reDependsOn := reDependsOn x; rePrompt := rePrompt x; reRole := reRole x;
     rePlanBranch := rePlanBranch x; reBaseBranch := reBaseBranch x;
     reSortedStoryIDs := reSortedStoryIDs x; reCurrentStoryIdx := reCurrentStoryIdx x;
     reNodeCount := v; reCurrentNodeIdx := reCurrentNodeIdx x; reDAGRaw := reDAGRaw x;
     reSortedNodeIDs := reSortedNodeIDs x; reNodeResults := reNodeResults x;
     reScenarioVerdicts := reScenarioVerdicts x; reCurrentNodeTaskID := reCurrentNodeTaskID x;
     reReviewerTaskID := reReviewerTaskID x; reRequirementBranch := reRequirementBranch x;
     reReviewVerdict := reReviewVerdict x; reReviewFeedback := reReviewFeedback x;
     reErrorReason := reErrorReason x; reErrorClass := reErrorClass x;
     reRetryCount := reRetryCount x; reMaxRetries := reMaxRetries x;
     reCreatedAt := reCreatedAt x; reUpdatedAt := reUpdatedAt x |}.

Definition set_reCurrentNodeIdx (v : Z) (x : RequirementExecution) : RequirementExecution :=
  {| reEntityID := reEntityID x; reSlug := reSlug x; reRequirementID := reRequirementID x;
     reStage := reStage x; reTitle := reTitle x; reDescription := reDescription x;
     reProjectID := reProjectID x; reTraceID := reTraceID x; reLoopID := reLoopID x;
     reRequestID := reRequestID x; reModel := reModel x; reScenarios := reScenarios x;
     reDependsOn := reDependsOn x; rePrompt := rePrompt x; reRole := reRole x;
     rePlanBranch := rePlanBranch x; reBaseBranch := reBaseBranch x;
     reSortedStoryIDs := reSortedStoryIDs x; reCurrentStoryIdx := reCurrentStoryIdx x;
     reNodeCount := reNodeCount x; reCurrentNodeIdx := v; reDAGRaw := reDAGRaw x;
     reSortedNodeIDs := reSortedNodeIDs x; reNodeResults := reNodeResults x;
     reScenarioVerdicts := reScenarioVerdicts x; reCurrentNodeTaskID := reCurrentNodeTaskID x;
     reReviewerTaskID := reReviewerTaskID x; reRequirementBranch := reRequirementBranch x;
     reReviewVerdict := reReviewVerdict x; reReviewFeedback := reReviewFeedback x;
     reErrorReason := reErrorReason x; reErrorClass := reErrorClass x;
     reRetryCount := reRetryCount x; reMaxRetries := reMaxRetries x;
     reCreatedAt := reCreatedAt x; reUpdatedAt := reUpdatedAt x |}.

Definition set_reReviewVerdict (v : string) (x : RequirementExecution) : RequirementExecution :=
  {| reEntityID := reEntityID x; reSlug := reSlug x; reRequirementID := reRequirementID x;
     reStage := reStage x; reTitle := reTitle x; reDescription := reDescription x;
     reProjectID := reProjectID x; reTraceID := reTraceID x; reLoopID := reLoopID x;
     reRequestID := reRequestID x; reModel := reModel x; reScenarios := reScenarios x;
     reDependsOn := reDependsOn x; rePrompt := rePrompt x; reRole := reRole x;
     rePlanBranch := rePlanBranch x; reBaseBranch := reBaseBranch x;
     reSortedStoryIDs := reSortedStoryIDs x; reCurrentStoryIdx := reCurrentStoryIdx x;
     reNodeCount := reNodeCount x; reCurrentNodeIdx := reCurrentNodeIdx x;
     reDAGRaw := reDAGRaw x; reSortedNodeIDs := reSortedNodeIDs x;
     reNodeResults := reNodeResults x; reScenarioVerdicts := reScenarioVerdicts x;
     reCurrentNodeTaskID := reCurrentNodeTaskID x; reReviewerTaskID := reReviewerTaskID x;
     reRequirementBranch := reRequirementBranch x; reReviewVerdict := v;
     reReviewFeedback := reReviewFeedback x; reErrorReason := reErrorReason x;
     reErrorClass := reErrorClass x; reRetryCount := reRetryCount x;
     reMaxRetries := reMaxRetries x; reCreatedAt := reCreatedAt x; reUpdatedAt := reUpdatedAt x |}.

Definition set_reReviewFeedback (v : string) (x : RequirementExecution) : RequirementExecution :=
  {| reEntityID := reEntityID x; reSlug := reSlug x; reRequirementID := reRequirementID x;
     reStage := reStage x; reTitle := reTitle x; reDescription := reDescription x;
     reProjectID := reProjectID x; reTraceID := reTraceID x; reLoopID := reLoopID x;
     reRequestID := reRequestID x; reModel := reModel x; reScenarios := reScenarios x;
     reDependsOn := reDependsOn x; rePrompt := rePrompt x; reRole := reRole x;
     rePlanBranch := rePlanBranch x; reBaseBranch := reBaseBranch x;
     reSortedStoryIDs := reSortedStoryIDs x; reCurrentStoryIdx := reCurrentStoryIdx x;
     reNodeCount := reNodeCount x; reCurrentNodeIdx := reCurrentNodeIdx x;
     reDAGRaw := reDAGRaw x; reSortedNodeIDs := reSortedNodeIDs x;
     reNodeResults := reNodeResults x; reScenarioVerdicts := reScenarioVerdicts x;
     reCurrentNodeTaskID := reCurrentNodeTaskID x; reReviewerTaskID := reReviewerTaskID x;
     reRequirementBranch := reRequirementBranch x; reReviewVerdict := reReviewVerdict x;
     reReviewFeedback := v; reErrorReason := reErrorReason x; reErrorClass := reErrorClass x;
     reRetryCount := reRetryCount x; reMaxRetries := reMaxRetries x;
     reCreatedAt := reCreatedAt x; reUpdatedAt := reUpdatedAt x |}.

Definition set_reErrorReason (v : string) (x : RequirementExecution) : RequirementExecution :=
  {| reEntityID := reEntityID x; reSlug := reSlug x; reRequirementID := reRequirementID x;
     reStage := reStage x; reTitle := reTitle x; reDescription := reDescription x;
     reProjectID := reProjectID x; reTraceID := reTraceID x; reLoopID := reLoopID x;
     reRequestID := reRequestID x; reModel := reModel x; reScenarios := reScenarios x;
     reDependsOn := reDependsOn x; rePrompt := rePrompt x; reRole := reRole x;
     rePlanBranch := rePlanBranch x; reBaseBranch := reBaseBranch x;
     reSortedStoryIDs := reSortedStoryIDs x; reCurrentStoryIdx := reCurrentStoryIdx x;
     reNodeCount := reNodeCount x; reCurrentNodeIdx := reCurrentNodeIdx x;
     reDAGRaw := reDAGRaw x; reSortedNodeIDs := reSortedNodeIDs x;
     reNodeResults := reNodeResults x; reScenarioVerdicts := reScenarioVerdicts x;
     reCurrentNodeTaskID := reCurrentNodeTaskID x; reReviewerTaskID := reReviewerTaskID x;
     reRequirementBranch := reRequirementBranch x; reReviewVerdict := reReviewVerdict x;
     reReviewFeedback := reReviewFeedback x; reErrorReason := v; reErrorClass := reErrorClass x;
     reRetryCount := reRetryCount x; reMaxRetries := reMaxRetries x;
     reCreatedAt := reCreatedAt x; reUpdatedAt := reUpdatedAt x |}.

Definition set_reErrorClass (v : string) (x : RequirementExecution) : RequirementExecution :=
  {| reEntityID := reEntityID x; reSlug := reSlug x; reRequirementID := reRequirementID x;
     reStage := reStage x; reTitle := reTitle x; reDescription := reDescription x;
     reProjectID := reProjectID x; reTraceID := reTraceID x; reLoopID := reLoopID x;
     reRequestID := reRequestID x; reModel := reModel x; reScenarios := reScenarios x;
     reDependsOn := reDependsOn x; rePrompt := rePrompt x; reRole := reRole x;
     rePlanBranch := rePlanBranch x; reBaseBranch := reBaseBranch x;
     reSortedStoryIDs := reSortedStoryIDs x; reCurrentStoryIdx := reCurrentStoryIdx x;
     reNodeCount := reNodeCount x; reCurrentNodeIdx := reCurrentNodeIdx x;
     reDAGRaw := reDAGRaw x; reSortedNodeIDs := reSortedNodeIDs x;
     reNodeResults := reNodeResults x; reScenarioVerdicts := reScenarioVerdicts x;
     reCurrentNodeTaskID := reCurrentNodeTaskID x; reReviewerTaskID := reReviewerTaskID x;
     reRequirementBranch := reRequirementBranch x; reReviewVerdict := reReviewVerdict x;
     reReviewFeedback := reReviewFeedback x; reErrorReason := reErrorReason x; reErrorClass := v;
     reRetryCount := reRetryCount x; reMaxRetries := reMaxRetries x;
     reCreatedAt := reCreatedAt x; reUpdatedAt := reUpdatedAt x |}.

Definition set_reCurrentNodeTaskID (v : string) (x : RequirementExecution) : RequirementExecution :=
  {| reEntityID := reEntityID x; reSlug := reSlug x; reRequirementID := reRequirementID x;
     reStage := reStage x; reTitle := reTitle x; reDescription := reDescription x;
     reProjectID := reProjectID x; reTraceID := reTraceID x; reLoopID := reLoopID x;
     reRequestID := reRequestID x; reModel := reModel x; reScenarios := reScenarios x;
     reDependsOn := reDependsOn x; rePrompt := rePrompt x; reRole := reRole x;
     rePlanBranch := rePlanBranch x; reBaseBranch := reBaseBranch x;
     reSortedStoryIDs := reSortedStoryIDs x; reCurrentStoryIdx := reCurrentStoryIdx x;
     reNodeCount := reNodeCount x; reCurrentNodeIdx := reCurrentNodeIdx x;
     reDAGRaw := reDAGRaw x; reSortedNodeIDs := reSortedNodeIDs x;
     reNodeResults := reNodeResults x; reScenarioVerdicts := reScenarioVerdicts x;
     reCurrentNodeTaskID := v; reReviewerTaskID := reReviewerTaskID x;
     reRequirementBranch := reRequirementBranch x; reReviewVerdict := reReviewVerdict x;
     reReviewFeedback := reReviewFeedback x; reErrorReason := reErrorReason x;
     reErrorClass := reErrorClass x; reRetryCount := reRetryCount x;
     reMaxRetries := reMaxRetries x; reCreatedAt := reCreatedAt x; reUpdatedAt := reUpdatedAt x |}.

Definition set_reReviewerTaskID (v : string) (x : RequirementExecution) : RequirementExecution :=
  {| reEntityID := reEntityID x; reSlug := reSlug x; reRequirementID := reRequirementID x;
     reStage := reStage x; reTitle := reTitle x; reDescription := reDescription x;
     reProjectID := reProjectID x; reTraceID := reTraceID x; reLoopID := reLoopID x;
     reRequestID := reRequestID x; reModel := reModel x; reScenarios := reScenarios x;
     reDependsOn := reDependsOn x; rePrompt := rePrompt x; reRole := reRole x;
     rePlanBranch := rePlanBranch x; reBaseBranch := reBaseBranch x;
     reSortedStoryIDs := reSortedStoryIDs x; reCurrentStoryIdx := reCurrentStoryIdx x;
     reNodeCount := reNodeCount x; reCurrentNodeIdx := reCurrentNodeIdx x;
     reDAGRaw := reDAGRaw x; reSortedNodeIDs := reSortedNodeIDs x;
     reNodeResults := reNodeResults x; reScenarioVerdicts := reScenarioVerdicts x;
     reCurrentNodeTaskID := reCurrentNodeTaskID x; reReviewerTaskID := v;
     reRequirementBranch := reRequirementBranch x; reReviewVerdict := reReviewVerdict x;
     reReviewFeedback := reReviewFeedback x; reErrorReason := reErrorReason x;
     reErrorClass := reErrorClass x; reRetryCount := reRetryCount x;
     reMaxRetries := reMaxRetries x; reCreatedAt := reCreatedAt x; reUpdatedAt := reUpdatedAt x |}.

Definition set_reRequirementBranch (v : string) (x : RequirementExecution) : RequirementExecution :=
  {| reEntityID := reEntityID x; reSlug := reSlug x; reRequirementID := reRequirementID x;
     reStage := reStage x; reTitle := reTitle x; reDescription := reDescription x;
     reProjectID := reProjectID x; reTraceID := reTraceID x; reLoopID := reLoopID x;
     reRequestID := reRequestID x; reModel := reModel x; reScenarios := reScenarios x;
     reDependsOn := reDependsOn x; rePrompt := rePrompt x; reRole := reRole x;
     rePlanBranch := rePlanBranch x; reBaseBranch := reBaseBranch x;
     reSortedStoryIDs := reSortedStoryIDs x; reCurrentStoryIdx := reCurrentStoryIdx x;
     reNodeCount := reNodeCount x; reCurrentNodeIdx := reCurrentNodeIdx x;
     reDAGRaw := reDAGRaw x; reSortedNodeIDs := reSortedNodeIDs x;
     reNodeResults := reNodeResults x; reScenarioVerdicts := reScenarioVerdicts x;
     reCurrentNodeTaskID := reCurrentNodeTaskID x; reReviewerTaskID := reReviewerTaskID x;
     reRequirementBranch := v; reReviewVerdict := reReviewVerdict x;
     reReviewFeedback := reReviewFeedback x; reErrorReason := reErrorReason x;
     reErrorClass := reErrorClass x; reRetryCount := reRetryCount x;
     reMaxRetries := reMaxRetries x; reCreatedAt := reCreatedAt x; reUpdatedAt := reUpdatedAt x |}.

Definition set_reDAGRaw (v : string) (x : RequirementExecution) : RequirementExecution :=
  {| reEntityID := reEntityID x; reSlug := reSlug x; reRequirementID := reRequirementID x;
     reStage := reStage x; reTitle := reTitle x; reDescription := reDescription x;
     reProjectID := reProjectID x; reTraceID := reTraceID x; reLoopID := reLoopID x;
     reRequestID := reRequestID x; reModel := reModel x; reScenarios := reScenarios x;
     reDependsOn := reDependsOn x; rePrompt := rePrompt x; reRole := reRole x;
     rePlanBranch := rePlanBranch x; reBaseBranch := reBaseBranch x;
     reSortedStoryIDs := reSortedStoryIDs x; reCurrentStoryIdx := reCurrentStoryIdx x;
     reNodeCount := reNodeCount x; reCurrentNodeIdx := reCurrentNodeIdx x; reDAGRaw := v;
     reSortedNodeIDs := reSortedNodeIDs x; reNodeResults := reNodeResults x;
     reScenarioVerdicts := reScenarioVerdicts x; reCurrentNodeTaskID := reCurrentNodeTaskID x;
     reReviewerTaskID := reReviewerTaskID x; reRequirementBranch := reRequirementBranch x;
     reReviewVerdict := reReviewVerdict x; reReviewFeedback := reReviewFeedback x;
     reErrorReason := reErrorReason x; reErrorClass := reErrorClass x;
     reRetryCount := reRetryCount x; reMaxRetries := reMaxRetries x;
     reCreatedAt := reCreatedAt x; reUpdatedAt := reUpdatedAt x |}.

Definition set_reSortedNodeIDs (v : list string) (x : RequirementExecution) : RequirementExecution :=
  {| reEntityID := reEntityID x; reSlug := reSlug x; reRequirementID := reRequirementID x;
     reStage := reStage x; reTitle := reTitle x; reDescription := reDescription x;
     reProjectID := reProjectID x; reTraceID := reTraceID x; reLoopID := reLoopID x;
     reRequestID := reRequestID x; reModel := reModel x; reScenarios := reScenarios x;
     reDependsOn := reDependsOn x; rePrompt := rePrompt x; reRole := reRole x;
     rePlanBranch := rePlanBranch x; reBaseBranch := reBaseBranch x;
     reSortedStoryIDs := reSortedStoryIDs x; reCurrentStoryIdx := reCurrentStoryIdx x;
     reNodeCount := reNodeCount x; reCurrentNodeIdx := reCurrentNodeIdx x;
     reDAGRaw := reDAGRaw x; reSortedNodeIDs := v; reNodeResults := reNodeResults x;
     reScenarioVerdicts := reScenarioVerdicts x; reCurrentNodeTaskID := reCurrentNodeTaskID x;
     reReviewerTaskID := reReviewerTaskID x; reRequirementBranch := reRequirementBranch x;
     reReviewVerdict := reReviewVerdict x; reReviewFeedback := reReviewFeedback x;
     reErrorReason := reErrorReason x; reErrorClass := reErrorClass x;
     reRetryCount := reRetryCount x; reMaxRetries := reMaxRetries x;
     reCreatedAt := reCreatedAt x; reUpdatedAt := reUpdatedAt x |}.

Definition set_reSortedStoryIDs (v : list string) (x : RequirementExecution) : RequirementExecution :=
  {| reEntityID := reEntityID x; reSlug := reSlug x; reRequirementID := reRequirementID x;
     reStage := reStage x; reTitle := reTitle x; reDescription := reDescription x;
     reProjectID := reProjectID x; reTraceID := reTraceID x; reLoopID := reLoopID x;
     reRequestID := reRequestID x; reModel := reModel x; reScenarios := reScenarios x;
     reDependsOn := reDependsOn x; rePrompt := rePrompt x; reRole := reRole x;
     rePlanBranch := rePlanBranch x; reBaseBranch := reBaseBranch x; reSortedStoryIDs := v;
     reCurrentStoryIdx := reCurrentStoryIdx x; reNodeCount := reNodeCount x;
     reCurrentNodeIdx := reCurrentNodeIdx x; reDAGRaw := reDAGRaw x;
     reSortedNodeIDs := reSortedNodeIDs x; reNodeResults := reNodeResults x;
     reScenarioVerdicts := reScenarioVerdicts x; reCurrentNodeTaskID := reCurrentNodeTaskID x;
     reReviewerTaskID := reReviewerTaskID x; reRequirementBranch := reRequirementBranch x;
     reReviewVerdict := reReviewVerdict x; reReviewFeedback := reReviewFeedback x;
     reErrorReason := reErrorReason x; reErrorClass := reErrorClass x;
     reRetryCount := reRetryCount x; reMaxRetries := reMaxRetries x;
     reCreatedAt := reCreatedAt x; reUpdatedAt := reUpdatedAt x |}.

Definition set_reCurrentStoryIdx (v : Z) (x : RequirementExecution) : RequirementExecution :=
  {| reEntityID := reEntityID x; reSlug := reSlug x; reRequirementID := reRequirementID x;
     reStage := reStage x; reTitle := reTitle x; reDescription := reDescription x;
     reProjectID := reProjectID x; reTraceID := reTraceID x; reLoopID := reLoopID x;
     reRequestID := reRequestID x; reModel := reModel x; reScenarios := reScenarios x;
     reDependsOn := reDependsOn x; rePrompt := rePrompt x; reRole := reRole x;
     rePlanBranch := rePlanBranch x; reBaseBranch := reBaseBranch x;
     reSortedStoryIDs := reSortedStoryIDs x; reCurrentStoryIdx := v;
     reNodeCount := reNodeCount x; reCurrentNodeIdx := reCurrentNodeIdx x;
     reDAGRaw := reDAGRaw x; reSortedNodeIDs := reSortedNodeIDs x;
     reNodeResults := reNodeResults x; reScenarioVerdicts := reScenarioVerdicts x;
     reCurrentNodeTaskID := reCurrentNodeTaskID x; reReviewerTaskID := reReviewerTaskID x;
     reRequirementBranch := reRequirementBranch x; reReviewVerdict := reReviewVerdict x;
     reReviewFeedback := reReviewFeedback x; reErrorReason := reErrorReason x;
     reErrorClass := reErrorClass x; reRetryCount := reRetryCount x;
     reMaxRetries := reMaxRetries x; reCreatedAt := reCreatedAt x; reUpdatedAt := reUpdatedAt x |}.

Definition set_reNodeResults (v : list NodeResult) (x : RequirementExecution) : RequirementExecution :=
  {| reEntityID := reEntityID x; reSlug := reSlug x; reRequirementID := reRequirementID x;
     reStage := reStage x; reTitle := reTitle x; reDescription := reDescription x;
     reProjectID := reProjectID x; reTraceID := reTraceID x; reLoopID := reLoopID x;
     reRequestID := reRequestID x; reModel := reModel x; reScenarios := reScenarios x;
     reDependsOn := reDependsOn x; rePrompt := rePrompt x; reRole := reRole x;
     rePlanBranch := rePlanBranch x; reBaseBranch := reBaseBranch x;
     reSortedStoryIDs := reSortedStoryIDs x; reCurrentStoryIdx := reCurrentStoryIdx x;
     reNodeCount := reNodeCount x; reCurrentNodeIdx := reCurrentNodeIdx x;
     reDAGRaw := reDAGRaw x; reSortedNodeIDs := reSortedNodeIDs x; reNodeResults := v;
     reScenarioVerdicts := reScenarioVerdicts x; reCurrentNodeTaskID := reCurrentNodeTaskID x;
     reReviewerTaskID := reReviewerTaskID x; reRequirementBranch := reRequirementBranch x;
     reReviewVerdict := reReviewVerdict x; reReviewFeedback := reReviewFeedback x;
     reErrorReason := reErrorReason x; reErrorClass := reErrorClass x;
     reRetryCount := reRetryCount x; reMaxRetries := reMaxRetries x;
     reCreatedAt := reCreatedAt x; reUpdatedAt := reUpdatedAt x |}.

Definition set_reScenarioVerdicts (v : list ScenarioVerdict) (x : RequirementExecution) : RequirementExecution :=
  {| reEntityID := reEntityID x; reSlug := reSlug x; reRequirementID := reRequirementID x;
     reStage := reStage x; reTitle := reTitle x; reDescription := reDescription x;
     reProjectID := reProjectID x; reTraceID := reTraceID x; reLoopID := reLoopID x;
     reRequestID := reRequestID x; reModel := reModel x; reScenarios := reScenarios x;
     reDependsOn := reDependsOn x; rePrompt := rePrompt x; reRole := reRole x;
     rePlanBranch := rePlanBranch x; reBaseBranch := reBaseBranch x;
     reSortedStoryIDs := reSortedStoryIDs x; reCurrentStoryIdx := reCurrentStoryIdx x;
     reNodeCount := reNodeCount x; reCurrentNodeIdx := reCurrentNodeIdx x;
     reDAGRaw := reDAGRaw x; reSortedNodeIDs := reSortedNodeIDs x;
     reNodeResults := reNodeResults x; reScenarioVerdicts := v;
     reCurrentNodeTaskID := reCurrentNodeTaskID x; reReviewerTaskID := reReviewerTaskID x;
     reRequirementBranch := reRequirementBranch x; reReviewVerdict := reReviewVerdict x;
     reReviewFeedback := reReviewFeedback x; reErrorReason := reErrorReason x;
     reErrorClass := reErrorClass x; reRetryCount := reRetryCount x;
     reMaxRetries := reMaxRetries x; reCreatedAt := reCreatedAt x; reUpdatedAt := reUpdatedAt x |}.

Definition set_reUpdatedAt (v : Z) (x : RequirementExecution) : RequirementExecution :=
  {| reEntityID := reEntityID x; reSlug := reSlug x; reRequirementID := reRequirementID x;
     reStage := reStage x; reTitle := reTitle x; reDescription := reDescription x;
     reProjectID := reProjectID x; reTraceID := reTraceID x; reLoopID := reLoopID x;
     reRequestID := reRequestID x; reModel := reModel x; reScenarios := reScenarios x;
     reDependsOn := reDependsOn x; rePrompt := rePrompt x; reRole := reRole x;
     rePlanBranch := rePlanBranch x; reBaseBranch := reBaseBranch x;
     reSortedStoryIDs := reSortedStoryIDs x; reCurrentStoryIdx := reCurrentStoryIdx x;
     reNodeCount := reNodeCount x; reCurrentNodeIdx := reCurrentNodeIdx x;
     reDAGRaw := reDAGRaw x; reSortedNodeIDs := reSortedNodeIDs x;
     reNodeResults := reNodeResults x; reScenarioVerdicts := reScenarioVerdicts x;
     reCurrentNodeTaskID := reCurrentNodeTaskID x; reReviewerTaskID := reReviewerTaskID x;
     reRequirementBranch := reRequirementBranch x; reReviewVerdict := reReviewVerdict x;
     reReviewFeedback := reReviewFeedback x; reErrorReason := reErrorReason x;
     reErrorClass := reErrorClass x; reRetryCount := reRetryCount x;
     reMaxRetries := reMaxRetries x; reCreatedAt := reCreatedAt x; reUpdatedAt := v |}.

(** [TaskCreateRequest] (processor/execution-manager/mutations.go) *)
Record TaskCreateRequest := MkTaskCreateRequest {
  tcSlug : string;
  tcTaskID : string;
  tcRequirementID : string;
  tcTitle : string;
  tcDescription : string;
  tcProjectID : string;
  tcPrompt : string;
  tcModel : string;
  tcTraceID : string;
  tcLoopID : string;
  tcRequestID : string;
  tcTaskType : string;
  tcMaxTDDCycles : Z;
  tcAgentID : string;
  tcWorktreePath : string;
  tcWorktreeBranch : string;
  tcScenarioBranch : string;
  tcFileScope : list string;
  tcScenarios : list Scenario }.

(** [TaskPhaseRequest] (processor/execution-manager/mutations.go) *)
Record TaskPhaseRequest := MkTaskPhaseRequest {
  tpKey : string;
  tpStage : string;
  tpTDDCycle : option Z;
  tpVerdict : string;
  tpRejectionType : string;
  tpFeedback : string;
  tpFilesModified : list string;
  tpTestsPassed : option bool;
  tpValidationPassed : option bool;
  tpErrorReason : string;
  tpErrorClass : string;
  tpEscalationReason : string;
  tpDeveloperTaskID : string;
  tpValidatorTaskID : string;
  tpReviewerTaskID : string }.

(** [TaskCompleteRequest] (processor/execution-manager/mutations.go) *)
Record TaskCompleteRequest := MkTaskCompleteRequest {
  tkKey : string;
  tkStage : string;
  tkVerdict : string;
  tkFeedback : string;
  tkErrorReason : string;
  tkEscalationReason : string }.

(** [ReqCreateRequest] (processor/execution-manager/mutations.go) *)
Record ReqCreateRequest := MkReqCreateRequest {
  rcSlug : string;
  rcRequirementID : string;
  rcTitle : string;
  rcDescription : string;
  rcProjectID : string;
  rcTraceID : string;
  rcLoopID : string;
  rcRequestID : string;
  rcModel : string;
  rcScenarios : list Scenario;
  rcDependsOn : list PrereqContext;
  rcPrompt : string;
  rcRole : string;
  rcPlanBranch : string;
  rcBaseBranch : string;
  rcForce : bool }.

(** [ReqPhaseRequest] (processor/execution-manager/mutations.go) *)
Record ReqPhaseRequest := MkReqPhaseRequest {
  rpKey : string;
  rpStage : string;
  rpNodeCount : option Z;
  rpCurrentNodeIdx : option Z;
  rpReviewVerdict : string;
  rpReviewFeedback : string;
  rpErrorReason : string;
  rpErrorClass : string;
  rpCurrentNodeTaskID : string;
  rpReviewerTaskID : string;
  rpRequirementBranch : string;
  rpDAGRaw : string;
  rpSortedNodeIDs : list string;
  rpSortedStoryIDs : list string;
  rpCurrentStoryIdx : option Z;
  rpNodeResults : list NodeResult;
  rpScenarioVerdicts : list ScenarioVerdict }.

(** [ReqResetRequest] (processor/execution-manager/mutations.go) *)
Record ReqResetRequest := MkReqResetRequest {
  rsKey : string;
  rsSlug : string;
  rsRequirementID : string }.

(** [ReqResetNodeResultsRequest] (processor/execution-manager/mutations.go) *)
Record ReqResetNodeResultsRequest := MkReqResetNodeResultsRequest {
  rxKey : string;
  rxNodeResults : list NodeResult }.

(** [ReqNodeRequest] (processor/execution-manager/mutations.go) *)
Record ReqNodeRequest := MkReqNodeRequest {
  rnKey : string;
  rnCurrentNodeIdx : option Z;
  rnNodeResult : option NodeResult;
  rnCurrentNodeTaskID : string }.

(** [ExecClaimRequest] (processor/execution-manager/mutations.go) *)
Record ExecClaimRequest := MkExecClaimRequest {
  ecKey : string;
  ecStage : string;
  ecExpectedFromStage : string }.

(** [cycleSnapshot] (processor/execution-manager/execution_state.go) *)
Record cycleSnapshot := MkcycleSnapshot {
  csCycle : Z;
  csLoopID : string;
  csVerdict : string;
  csRejectionType : string;
  csFeedback : string;
  csFilesModified : list string }.

(** ** Keys and terminal stages *)

Definition TaskExecutionKey (slug taskID : string) : string := "task." ++ slug ++ "." ++ taskID.

Definition RequirementExecutionKey (slug requirementID : string) : string :=
  "req." ++ slug ++ "." ++ requirementID.

Definition IsTerminalTaskStage (phase : string) : bool :=
  (phase =? "approved") || (phase =? "escalated") || (phase =? "error") || (phase =? "rejected").

Definition IsTerminalReqStage (phase : string) : bool :=
  (phase =? "completed") || (phase =? "failed") || (phase =? "error").

(** workflow/error_class.go *)
Definition ErrorClassAgent : string := "agent".
Definition ErrorClassInfrastructure : string := "infrastructure".
Definition infrastructureErrorPrefix : string := "INFRASTRUCTURE:".

Definition ClassifyErrorReason (reason : string) : string :=
  if HasPrefix reason infrastructureErrorPrefix then ErrorClassInfrastructure
  else ErrorClassAgent.
