(* ===== verification/Feedback.v ===== *)
(** * What a retrying developer is told

    The feedback a rejected cycle carries into the next one:
    [buildLoopFailureFeedback], [buildValidationFailureFeedback] and
    [tailTruncate] (processor/execution-manager/loop_completions.go), the
    history of cycles (cycle_history.go, [appendCycleSnapshot]), the
    guidance of the error categories, and the checks of component.go that
    tell where claimed work went. *)

From stdpp Require Import pretty.
From Stdlib Require Import Ascii.
From S2P Require Import Prelude Paths Types ExecTypes.

Local Open Scope string_scope.
Local Open Scope go_scope.

(** A newline and a double quote. *)
Definition nl : string := String (ascii_of_nat 10) "".
Definition dq : string := String (ascii_of_nat 34) "".

(** ** Failed loops *)

(** [agentic.LoopCompletedEvent]; [lcMetadata] holds the error and
    [max_iterations], when the map was built. *)
Record LoopCompletedEvent := MkLoopCompleted {
  lcLoopID : string;
  lcTaskID : string;
  lcOutcome : string;
  lcResult : string;
  lcIterations : Z;
  lcMetadata : option (string * Z) }.

Definition OutcomeSuccess : string := "success".

Definition buildLoopFailureFeedback (event : LoopCompletedEvent) : string :=
  let errMsg := default "" (fst <$> lcMetadata event) in
  let maxIter := default 0%Z (snd <$> lcMetadata event) in
  if Contains errMsg "max iterations" then
    let budget := if bool_decide (maxIter = 0%Z) then lcIterations event else maxIter in
    "Your previous attempt exhausted its iteration budget (" +:+ pretty (lcIterations event) +:+
    " of " +:+ pretty budget +:+ " iterations) without calling submit_work. " +:+
    "You MUST call submit_work to terminate the loop. If your " +:+
    "code in the worktree is correct, call submit_work now " +:+
    "with summary, files_modified listing what you changed, " +:+
    "file_intents classifying each changed path, and any output. " +:+
    "If you are stuck or uncertain, call submit_work with a partial summary that explicitly " +:+
    "describes the obstacle — do not keep refining."
  else if errMsg !=? "" then
    "Your previous attempt failed: " +:+ errMsg +:+ nl +:+ nl +:+
    "Review the error and try a different approach. If you " +:+
    "have working code in the worktree, call submit_work to terminate."
  else
    "Your previous attempt failed (outcome=" +:+ lcOutcome event +:+ "). Review the prior " +:+
    "output and try again — and remember to call submit_work to terminate the loop.".

(** ** Failed validation *)

Definition maxValidationOutputBytes : nat := 2048.

(** [s\[:n\]] and [s\[n:\]] *)
Definition str_take (n : nat) (s : string) : string := String.substring 0 n s.
Definition str_drop (n : nat) (s : string) : string :=
  String.substring n (String.length s - n) s.

Definition tailTruncate (s : string) (n : nat) : string :=
  if bool_decide (String.length s ≤ n)%nat then s
  else "[...truncated " +:+ pretty (String.length s - n) +:+ " bytes from start...]" +:+ nl +:+
       str_drop (String.length s - n) s.

Definition untrusted (name out : string) : string :=
  if out =? "" then "" else
  nl +:+ name +:+ ":" +:+ nl +:+ "<validation-output trust=" +:+ dq +:+ "untrusted" +:+ dq +:+
  ">" +:+ nl +:+ tailTruncate out maxValidationOutputBytes +:+ nl +:+ "</validation-output>" +:+ nl.

Definition renderFailedCheck (r : CheckResult) : string :=
  "## Check: " +:+ ckName r +:+ " (FAILED, required)" +:+ nl +:+ nl +:+
  (if ckCommand r !=? "" then "Command: `" +:+ ckCommand r +:+ "`" +:+ nl else "") +:+
  (if bool_decide (ckExitCode r = 0%Z) then "" else "Exit code: " +:+ pretty (ckExitCode r) +:+ nl) +:+
  (if ckDuration r !=? "" then "Duration: " +:+ ckDuration r +:+ nl else "") +:+
  untrusted "stderr" (ckStderr r) +:+ untrusted "stdout" (ckStdout r) +:+ nl.

(** A failing check that gates the retry. *)
Definition gating (r : CheckResult) : bool := negb (ckPassed r || negb (ckRequired r)).

Definition concat_strings (l : list string) : string := foldr String.append "" l.

Definition buildValidationFailureFeedback (results : list CheckResult) : string :=
  let failed := filter (λ r, gating r = true) results in
  if is_nil failed then
    "Structural validation failed but no required check reported a failure. " +:+
    "This indicates a validation result wiring issue — escalate rather than retry blindly."
  else
    "Structural validation failed. Fix the following issues:" +:+ nl +:+ nl +:+
    concat_strings (renderFailedCheck <$> failed).

Definition CheckFileOwnershipPlanningGap : string := "file-ownership-planning-gap".

(** The detail and [true], or [None]. *)
Fixpoint ownershipPlanningGap (results : list CheckResult) : option string :=
  match results with
  | [] => None
  | r :: rs =>
      if (ckName r =? CheckFileOwnershipPlanningGap) && ckRequired r && negb (ckPassed r) then
        let detail := TrimSpace (ckStderr r) in
        Some (if detail =? "" then "new source/test file created outside the story's declared file scope"
              else detail)
      else ownershipPlanningGap rs
  end.

(** ** The history of cycles *)

Definition priorCyclesCap : nat := 10.
Definition snapshotFeedbackCap : nat := 1500.

Definition pluralS (n : nat) : string := if bool_decide (n = 1) then "" else "s".

Definition commonRejectionType (cycles : list cycleSnapshot) : string :=
  let fix go (common : string) (cs : list cycleSnapshot) : string :=
    match cs with
    | [] => common
    | c :: cs =>
        if (csVerdict c !=? "rejected") || (csRejectionType c =? "") then go common cs
        else if common =? "" then go (csRejectionType c) cs
        else if csRejectionType c !=? common then "" else go common cs
    end in
  go "" cycles.

(** [nil] and an empty list are told apart by nobody. *)
Definition allCyclesSameFiles (cycles : list cycleSnapshot) : list string :=
  match cycles with
  | [] => []
  | c0 :: cs =>
      let want : gset string := list_to_set (csFilesModified c0) in
      if is_nil (csFilesModified c0) then [] else
      if forallb (λ c, bool_decide (length (csFilesModified c) = size want) &&
                       forallb (λ f, bool_decide (f ∈ want)) (csFilesModified c)) cs
      then csFilesModified c0 else []
  end.

Definition detectPatterns (cycles : list cycleSnapshot) : list string :=
  if bool_decide (length cycles < 2)%nat then [] else
  let sameFiles := allCyclesSameFiles cycles in
  let rt := commonRejectionType cycles in
  ((if forallb (λ c, csVerdict c =? "rejected") cycles
    then ["All " +:+ pretty (length cycles) +:+ " prior cycles were rejected."] else []) ++
   (if is_nil sameFiles then []
    else ["All cycles modified the same files: " +:+ Join sameFiles ", "]) ++
   (if rt !=? "" then ["All rejections were rejection_type=" +:+ rt +:+ "."] else []))%list.

Definition render_cycle (c : cycleSnapshot) : string :=
  let verdict := if csRejectionType c !=? "" then csVerdict c +:+ " (" +:+ csRejectionType c +:+ ")"
                 else csVerdict c in
  "  Cycle " +:+ pretty (csCycle c) +:+ ": " +:+ verdict +:+ nl +:+
  (if is_nil (csFilesModified c) then ""
   else "    Files changed: " +:+ Join (csFilesModified c) ", " +:+ nl) +:+
  (if csFeedback c !=? "" then "    Reviewer said: " +:+ csFeedback c +:+ nl else "").

Definition summarizeCycleHistory (cycles : list cycleSnapshot) : string :=
  if is_nil cycles then "" else
  let patterns := detectPatterns cycles in
  "PRIOR ATTEMPTS (" +:+ pretty (length cycles) +:+ " cycle" +:+ pluralS (length cycles) +:+
  " before this one):" +:+ nl +:+ concat_strings (render_cycle <$> cycles) +:+
  (if is_nil patterns then ""
   else nl +:+ "Pattern across attempts:" +:+ nl +:+
        concat_strings ((λ p, "  - " +:+ p +:+ nl) <$> patterns)) +:+
  nl +:+ "Do not repeat any approach above. If the same approach keeps failing for the same reason, change tactics (try a different tool, decompose differently, ask via submit_work).".

(** The part of [appendCycleSnapshot] on the slice. *)
Definition clip_feedback (feedback : string) : string :=
  if bool_decide (snapshotFeedbackCap < String.length feedback)%nat
  then str_take snapshotFeedbackCap feedback +:+ "…" else feedback.

Definition push_cycle (snap : cycleSnapshot) (prior : list cycleSnapshot) : list cycleSnapshot :=
  let l := (prior ++ [snap])%list in
  if bool_decide (priorCyclesCap < length l)%nat then drop (length l - priorCyclesCap) l else l.

(** ** Where claimed work went *)

(** The paths of [git status --porcelain]. *)
Definition dirty_paths (output : string) : gset string :=
  list_to_set (omap (λ line,
    if bool_decide (String.length line < 4)%nat then None else
    let path := TrimSpace (str_drop 3 line) in
    if path !=? "" then Some path else None) (split_on (ascii_of_nat 10) output)).

(** The part of [developerLeakedToWorkspace] after the query. *)
Definition leaked_files (output : string) (claimed : list string) : list string :=
  if TrimSpace output =? "" then [] else
  let dirty := dirty_paths output in
  filter (λ f, f ∈ dirty ∨
    Exists (λ d, HasSuffix d "/" = true ∧ HasPrefix f d = true) (elements dirty)) claimed.

(** [classifyFeedback] and [enrichFeedbackWithGuidance]; the registry gives
    the categories whose signals match and their label and guidance. *)
Definition enrichFeedback
    (categories : option ((string → list string) * (string → option (string * string))))
    (feedback : string) : string :=
  match categories with
  | None => feedback
  | Some (matchSignals, get) =>
      let ids := if feedback =? "" then [] else matchSignals feedback in
      if is_nil ids then feedback else
      feedback +:+ nl +:+ nl +:+ "--- REMEDIATION GUIDANCE ---" +:+ nl +:+
      concat_strings ((λ id, match get id with
                             | Some (label, guidance) => "- " +:+ label +:+ ": " +:+ guidance +:+ nl
                             | None => ""
                             end) <$> ids)
  end.
