(* ===== verification/ExecStore.v ===== *)
(** * The execution store of the execution manager

    processor/execution-manager/execution_store.go and execution_state.go.
    Rows of tasks and requirements live in two caches with a time to live
    and in one key-value bucket, EXECUTION_STATES, told apart by the prefix
    of the key.  [saveTask] puts the caller's pointer in the cache, so a
    live execution and the cache share one struct: task rows are cells of a
    heap and the cache holds their addresses.  Requirement rows are never
    written in place and are values.  What is written to the graph is
    computed by [taskTriples] and [reqTriples]; a failed graph write is only
    logged. *)

From stdpp Require Import pretty.
From Stdlib Require Import Ascii.
From S2P Require Import Prelude Status Paths Types PlanStore ExecTypes.

Local Open Scope string_scope.
Local Open Scope go_scope.

(** ** The outside *)

(** tools/sandbox/client.go: what the pipeline reads of the answers. *)
Record FileEntry := MkFileEntry { feName : string; feIsDir : bool; feSize : Z }.

Record MergeResult := MkMergeResult {
  mgCommit : string;
  mgNothingToCommit : bool;
  mgFilesChanged : list string }.

Inductive merge_answer :=
| Merged (r : MergeResult)
| MergeFailed (needsReconciliation : bool) (text : string).

(** A loop of the agent runtime, as AGENT_LOOPS stores it. *)
Record LoopEntity := MkLoopEntity {
  leID : string;
  leTaskID : string;
  leTerminal : bool;
  leOutcome : string;
  leResult : string;
  leIterations : Z;
  leMaxIterations : Z;
  leError : string;
  leWorkflowSlug : string;
  leWorkflowStep : string }.

(** One interaction: the clock, a fresh identifier, which calls fail, what
    the sandbox, the plan bucket and AGENT_LOOPS answer, and whether the
    component is shutting down. *)
Record exec_io := MkExecIO {
  xNow : Z;
  xUUID : string;
  xMarshalErr : bool;
  xKvGetErr : bool;
  xKvPutErr : bool;
  xKvDelErr : option string;
  xKeysErr : bool;
  xPublishErr : bool;
  xPlan : Plan + string;
  xLoops : option (list LoopEntity);
  xWorktree : (string * string) + string;
  xWorktreeLost : option string;
  xGitStatus : option string;
  xFiles : option (list FileEntry);
  xMerge : merge_answer;
  xShutdown : bool }.

(** The environment and the configuration.  [xeDecodeReqAsTask] and
    [xeDecodeTaskAsReq] are what [json.Unmarshal] makes of the other kind of
    row; [xeKeys] is the order in which a cache or the bucket lists keys;
    [xeModel] and [xeReviewerModel] are the models the registry resolves;
    [xeUnmarshalDeveloper] and [xeUnmarshalReview] are what [json.Unmarshal]
    makes of an agent's answer; [xeTruncateRunes] and [xeQuote] are [truncateInsight]
    on UTF-8 and the verb [%q]. *)
Record ExecEnv := MkExecEnv {
  xeIO : nat → exec_io;
  xeTaskEntityID : string → string → string;
  xeReqEntityID : string → string → string;
  xeDecodeReqAsTask : RequirementExecution → option TaskExecution;
  xeDecodeTaskAsReq : TaskExecution → option RequirementExecution;
  xeKeys : nat → gset string → list string;
  xeMaxTDDCycles : Z;
  xeMaxReviewRetries : Z;
  xeTimeout : string;
  xeSandboxURL : string;
  xeEnablePositiveLessons : bool;
  xeRequireMergeObservation : option bool;
  xeRequireDeveloperDiff : option bool;
  xeModel : string;
  xeReviewerModel : string;
  xeSystemPrompt : string → TaskExecution → Plan → string → string;
  xeUnmarshalDeveloper : string → option DeveloperResult;
  xeUnmarshalReview : string → TaskCodeReviewResult * bool;
  xeCategories : option ((string → list string) * (string → option (string * string)));
  xeTruncateRunes : string → Z → string;
  xeQuote : string → string }.

(** ** The world of the execution manager *)

(** The bucket keeps JSON, written from one struct or the other. *)
Inductive exec_row :=
| TaskRow (t : TaskExecution)
| ReqRow (r : RequirementExecution).

(** [taskExecution]: [lTask] is the address of the embedded row and names
    the execution; [lTimer] is the timer [timeoutTimer] can stop. *)
Record taskExecution := MkLive {
  lTerminated : bool;
  lKey : string;
  lTask : nat;
  lDeveloperOutput : string;
  lDeveloperLLMRequestIDs : list string;
  lDeveloperFileIntents : list FileIntent;
  lValidationResults : list CheckResult;
  lReviewerLLMRequestIDs : list string;
  lReviewerParseError : string;
  lDeveloperLoopID : string;
  lPriorCycles : list cycleSnapshot;
  lTimer : option nat }.

(** [agentic.RoleGeneral], [agentic.RoleReviewer] *)
Inductive agent_role := RoleGeneral | RoleReviewer.

Record TaskMessage := MkTaskMessage {
  tmTaskID : string;
  tmRole : agent_role;
  tmModel : string;
  tmWorkflowSlug : string;
  tmWorkflowStep : string;
  tmPrompt : string;
  tmContext : string;
  tmPlanSlug : string;
  tmMetaTaskID : string }.

Record LessonRequest := MkLessonRequest {
  lrSlug : string;
  lrTaskID : string;
  lrRequirementID : string;
  lrScenarioID : string;
  lrLoopID : string;
  lrDeveloperLoopID : string;
  lrReviewerLoopID : string;
  lrVerdict : string;
  lrFeedback : string }.

(** What the component does outside.  An agent task, a validation request
    and a merge carry the execution they are for. *)
Inductive exec_event :=
| EvAgentTask (o : nat) (subject : string) (m : TaskMessage)
| EvValidate (o : nat) (files filesOwned : list string) (worktree : string)
| EvRecovery (r : RecoveryRequested)
| EvLesson (r : LessonRequest)
| EvCancel (loopID reason : string)
| EvCreateWorktree (taskID base : string)
| EvDeleteWorktree (taskID : string)
| EvMergeWorktree (o : nat) (taskID target message : string)
    (trailers : list (string * string)) (ok : bool).

(** [xwStarting]: executions whose [initTaskExecution] has been spawned;
    [xwValidating]: executions waiting, unlocked, for the validator;
    [xwTimers]: armed timers with the execution each one ends. *)
Record XWorld := MkXWorld {
  xwCells : gmap nat TaskExecution;
  xwNext : nat;
  xwTaskCache : gmap string nat;
  xwReqCache : gmap string RequirementExecution;
  xwKV : option (gmap string exec_row);
  xwExecs : gmap nat taskExecution;
  xwActive : gmap string nat;
  xwRouting : gmap string string;
  xwTimers : gmap nat nat;
  xwStarting : list nat;
  xwValidating : list nat;
  xwTick : nat;
  xwOut : list exec_event }.

Definition set_xwCells (v : gmap nat TaskExecution) (w : XWorld) : XWorld :=
  MkXWorld v (xwNext w) (xwTaskCache w) (xwReqCache w) (xwKV w) (xwExecs w) (xwActive w)
    (xwRouting w) (xwTimers w) (xwStarting w) (xwValidating w) (xwTick w) (xwOut w).

Definition set_xwNext (v : nat) (w : XWorld) : XWorld :=
  MkXWorld (xwCells w) v (xwTaskCache w) (xwReqCache w) (xwKV w) (xwExecs w) (xwActive w)
    (xwRouting w) (xwTimers w) (xwStarting w) (xwValidating w) (xwTick w) (xwOut w).

Definition set_xwTaskCache (v : gmap string nat) (w : XWorld) : XWorld :=
  MkXWorld (xwCells w) (xwNext w) v (xwReqCache w) (xwKV w) (xwExecs w) (xwActive w)
    (xwRouting w) (xwTimers w) (xwStarting w) (xwValidating w) (xwTick w) (xwOut w).

Definition set_xwReqCache (v : gmap string RequirementExecution) (w : XWorld) : XWorld :=
  MkXWorld (xwCells w) (xwNext w) (xwTaskCache w) v (xwKV w) (xwExecs w) (xwActive w)
    (xwRouting w) (xwTimers w) (xwStarting w) (xwValidating w) (xwTick w) (xwOut w).

Definition set_xwKV (v : option (gmap string exec_row)) (w : XWorld) : XWorld :=
  MkXWorld (xwCells w) (xwNext w) (xwTaskCache w) (xwReqCache w) v (xwExecs w) (xwActive w)
    (xwRouting w) (xwTimers w) (xwStarting w) (xwValidating w) (xwTick w) (xwOut w).

Definition set_xwExecs (v : gmap nat taskExecution) (w : XWorld) : XWorld :=
  MkXWorld (xwCells w) (xwNext w) (xwTaskCache w) (xwReqCache w) (xwKV w) v (xwActive w)
    (xwRouting w) (xwTimers w) (xwStarting w) (xwValidating w) (xwTick w) (xwOut w).

Definition set_xwActive (v : gmap string nat) (w : XWorld) : XWorld :=
  MkXWorld (xwCells w) (xwNext w) (xwTaskCache w) (xwReqCache w) (xwKV w) (xwExecs w) v
    (xwRouting w) (xwTimers w) (xwStarting w) (xwValidating w) (xwTick w) (xwOut w).

Definition set_xwRouting (v : gmap string string) (w : XWorld) : XWorld :=
  MkXWorld (xwCells w) (xwNext w) (xwTaskCache w) (xwReqCache w) (xwKV w) (xwExecs w)
    (xwActive w) v (xwTimers w) (xwStarting w) (xwValidating w) (xwTick w) (xwOut w).

Definition set_xwTimers (v : gmap nat nat) (w : XWorld) : XWorld :=
  MkXWorld (xwCells w) (xwNext w) (xwTaskCache w) (xwReqCache w) (xwKV w) (xwExecs w)
    (xwActive w) (xwRouting w) v (xwStarting w) (xwValidating w) (xwTick w) (xwOut w).

Definition set_xwStarting (v : list nat) (w : XWorld) : XWorld :=
  MkXWorld (xwCells w) (xwNext w) (xwTaskCache w) (xwReqCache w) (xwKV w) (xwExecs w)
    (xwActive w) (xwRouting w) (xwTimers w) v (xwValidating w) (xwTick w) (xwOut w).

Definition set_xwValidating (v : list nat) (w : XWorld) : XWorld :=
  MkXWorld (xwCells w) (xwNext w) (xwTaskCache w) (xwReqCache w) (xwKV w) (xwExecs w)
    (xwActive w) (xwRouting w) (xwTimers w) (xwStarting w) v (xwTick w) (xwOut w).

Definition set_xwTick (v : nat) (w : XWorld) : XWorld :=
  MkXWorld (xwCells w) (xwNext w) (xwTaskCache w) (xwReqCache w) (xwKV w) (xwExecs w)
    (xwActive w) (xwRouting w) (xwTimers w) (xwStarting w) (xwValidating w) v (xwOut w).

Definition set_xwOut (v : list exec_event) (w : XWorld) : XWorld :=
  MkXWorld (xwCells w) (xwNext w) (xwTaskCache w) (xwReqCache w) (xwKV w) (xwExecs w)
    (xwActive w) (xwRouting w) (xwTimers w) (xwStarting w) (xwValidating w) (xwTick w) v.

(** ** The handler monad *)

Definition X (A : Type) : Type := XWorld → XWorld * A.

#[export] Instance X_ret : MRet X := λ A x w, (w, x).
#[export] Instance X_bind : MBind X := λ A B f m w, let (w', x) := m w in f x w'.

Definition xread : X XWorld := λ w, (w, w).
Definition modify (f : XWorld → XWorld) : X () := λ w, (f w, ()).
Definition emit (e : exec_event) : X () := modify (λ w, set_xwOut (xwOut w ++ [e])%list w).

(** [if c { body }] *)
Definition xwhen (c : bool) (body : X ()) : X () := if c then body else mret ().

(** [for _, x := range l { body(x) }] *)
Fixpoint xfor {A} (l : list A) (body : A → X ()) : X () :=
  match l with
  | [] => mret ()
  | x :: l => body x;; xfor l body
  end.

(** A loop that collects, [continue]ing where [body] answers [None]. *)
Fixpoint xcollect {A B} (l : list A) (body : A → X (option B)) : X (list B) :=
  match l with
  | [] => mret []
  | x :: l =>
      r ← body x; rs ← xcollect l body;
      mret (match r with Some y => y :: rs | None => rs end)
  end.

(** A loop that counts and returns at the first error. *)
Fixpoint xcount {A Err} (l : list A) (n : Z) (body : A → X (bool + Err)) : X (Z + Err) :=
  match l with
  | [] => mret (inl n)
  | x :: l =>
      r ← body x;
      match r with
      | inr e => mret (inr e)
      | inl counted => xcount l (if counted : bool then n + 1 else n)%Z body
      end
  end.

(** ** Cells *)

(** The zero value of the structs. *)
Definition zero_task : TaskExecution :=
  MkTaskExecution "" "" "" "" "" 0 0 "" "" "" "" "" "" "" "" "" "" "" "" "" [] [] [] false false
    "" "" "" "" "" "" "" 0 "" "" "" 0 0.

Definition zero_req : RequirementExecution :=
  MkRequirementExecution "" "" "" "" "" "" "" "" "" "" "" [] [] "" "" "" "" [] 0 0 0 "" [] [] []
    "" "" "" "" "" "" "" 0 0 0 0.

Definition deref (w : XWorld) (a : nat) : TaskExecution := default zero_task (xwCells w !! a).

Definition put_cell (a : nat) (t : TaskExecution) (w : XWorld) : XWorld :=
  set_xwCells (<[a := t]> (xwCells w)) w.

(** [&T{...}] *)
Definition alloc (t : TaskExecution) : X nat := λ w,
  (set_xwNext (S (xwNext w)) (put_cell (xwNext w) t w), xwNext w).

Inductive exec_error :=
| XMarshalErr
| XDeleteErr (key text : string).

Section store.
Context (E : ExecEnv).

Definition xtick : X exec_io :=
  λ w, (set_xwTick (S (xwTick w)) w, xeIO E (xwTick w)).

(** [json.Unmarshal] into a task or a requirement row. *)
Definition decodeTask (r : exec_row) : option TaskExecution :=
  match r with TaskRow t => Some t | ReqRow q => xeDecodeReqAsTask E q end.
Definition decodeReq (r : exec_row) : option RequirementExecution :=
  match r with ReqRow q => Some q | TaskRow t => xeDecodeTaskAsReq E t end.

(** [kvStore.Get]: nothing when the store is absent or the call fails. *)
Definition kvGet (key : string) : X (option exec_row) :=
  o ← xtick; w ← xread;
  mret (if xKvGetErr o then None else kv ← xwKV w; kv !! key).

Definition kvPut (key : string) (r : exec_row) : X () :=
  modify (λ w, set_xwKV ((λ kv, <[key := r]> kv) <$> xwKV w) w).

Definition cacheTask (key : string) (a : nat) : X () :=
  modify (λ w, set_xwTaskCache (<[key := a]> (xwTaskCache w)) w).
Definition cacheReq (key : string) (r : RequirementExecution) : X () :=
  modify (λ w, set_xwReqCache (<[key := r]> (xwReqCache w)) w).

Definition getTask (key : string) : X (option TaskExecution) :=
  if negb (HasPrefix key "task.") then mret None else
  w ← xread;
  match xwTaskCache w !! key with
  | Some a => mret (Some (deref w a))
  | None =>
      entry ← kvGet key;
      match entry ≫= decodeTask with
      | Some t => a ← alloc t; cacheTask key a;; mret (Some t)
      | None => mret None
      end
  end.

Definition saveTask (key : string) (a : nat) : X (option exec_error) :=
  o ← xtick;
  modify (λ w, put_cell a (set_teUpdatedAt (xNow o) (deref w a)) w);;
  cacheTask key a;;
  w ← xread;
  match xwKV w with
  | None => mret None
  | Some _ =>
      if xMarshalErr o then mret (Some XMarshalErr) else
      (if xKvPutErr o then mret () else kvPut key (TaskRow (deref w a)));;
      mret None
  end.

Definition getReq (key : string) : X (option RequirementExecution) :=
  if negb (HasPrefix key "req.") then mret None else
  w ← xread;
  match xwReqCache w !! key with
  | Some r => mret (Some r)
  | None =>
      entry ← kvGet key;
      match entry ≫= decodeReq with
      | Some r => cacheReq key r;; mret (Some r)
      | None => mret None
      end
  end.

Definition saveReq (key : string) (r : RequirementExecution) : X (option exec_error) :=
  o ← xtick;
  let r := set_reUpdatedAt (xNow o) r in
  cacheReq key r;;
  w ← xread;
  match xwKV w with
  | None => mret None
  | Some _ =>
      if xMarshalErr o then mret (Some XMarshalErr) else
      (if xKvPutErr o then mret () else kvPut key (ReqRow r));;
      mret None
  end.

(** A key that is not in the bucket is not an error. *)
Definition deleteReq (key : string) : X (option exec_error) :=
  modify (λ w, set_xwReqCache (delete key (xwReqCache w)) w);;
  modify (λ w, set_xwTaskCache (delete key (xwTaskCache w)) w);;
  w ← xread;
  match xwKV w with
  | None => mret None
  | Some kv =>
      o ← xtick;
      match xKvDelErr o with
      | Some text => mret (Some (XDeleteErr key text))
      | None => modify (set_xwKV (Some (delete key kv)));; mret None
      end
  end.

(** The keys a cache or the bucket lists. *)
Definition keys_of {V} (w : XWorld) (m : gmap string V) : list string :=
  xeKeys E (xwTick w) (dom m).

Definition kvKeys (prefix : string) : X (list string) :=
  o ← xtick; w ← xread;
  mret (match xwKV w with
        | Some kv => if xKeysErr o then []
                     else filter (λ k, HasPrefix k prefix = true) (keys_of w kv)
        | None => []
        end).

Definition listTasksForSlug (slug : string) : X (list TaskExecution) :=
  let prefix := "task." +:+ slug +:+ "." in
  w ← xread;
  let out := omap (λ key, if HasPrefix key prefix then deref w <$> xwTaskCache w !! key else None)
                  (keys_of w (xwTaskCache w)) in
  if negb (is_nil out) then mret out else
  keys ← kvKeys prefix;
  xcollect keys (λ key,
    entry ← kvGet key;
    match entry ≫= decodeTask with
    | Some t => a ← alloc t; cacheTask key a;; mret (Some t)
    | None => mret None
    end).

Definition listReqsForSlug (slug : string) : X (list RequirementExecution) :=
  let prefix := "req." +:+ slug +:+ "." in
  w ← xread;
  let out := omap (λ key, if HasPrefix key prefix then xwReqCache w !! key else None)
                  (keys_of w (xwReqCache w)) in
  if negb (is_nil out) then mret out else
  keys ← kvKeys prefix;
  xcollect keys (λ key,
    entry ← kvGet key;
    match entry ≫= decodeReq with
    | Some r => cacheReq key r;; mret (Some r)
    | None => mret None
    end).
End store.

(** ** The graph *)

(** vocabulary/workflow/predicates.go *)
Module wf.
Definition Type_ : string := "workflow.execution.type".
Definition Phase : string := "workflow.execution.phase".
Definition Slug : string := "workflow.execution.slug".
Definition Title : string := "workflow.execution.title".
Definition ProjectID : string := "workflow.execution.project_id".
Definition TDDCycle : string := "workflow.execution.tdd_cycle".
Definition MaxTDDCycles : string := "workflow.execution.max_tdd_cycles".
Definition Prompt : string := "workflow.execution.prompt".
Definition TraceID : string := "workflow.execution.trace_id".
Definition ErrorReason : string := "workflow.execution.error_reason".
Definition AgentID : string := "workflow.execution.agent_id".
Definition Model : string := "workflow.execution.model".
Definition Verdict : string := "workflow.review.verdict".
Definition EscalationReason : string := "workflow.review.escalation_reason".
Definition TaskID : string := "workflow.task.task_id".
Definition FilesModified : string := "workflow.task.files_modified".
Definition ValidationPassed : string := "workflow.task.validation_passed".
Definition Feedback : string := "workflow.task.feedback".
Definition RejectionType : string := "workflow.task.rejection_type".
Definition WorktreePath : string := "workflow.task.worktree_path".
Definition WorktreeBranch : string := "workflow.task.worktree_branch".
Definition RequirementID : string := "workflow.requirement.requirement_id".
Definition NodeCount : string := "workflow.scenario.node_count".
End wf.

Inductive object := ObjStr (s : string) | ObjInt (z : Z).

(** A triple of the entity being written: predicate and object. *)
Definition triple : Type := string * object.

Definition opt_triple (p v : string) : list triple := if v !=? "" then [(p, ObjStr v)] else [].

Definition writeTaskTriples (t : TaskExecution) : list triple :=
  ([(wf.Type_, ObjStr "task-execution"); (wf.Slug, ObjStr (teSlug t));
   (wf.TaskID, ObjStr (teTaskID t)); (wf.Title, ObjStr (teTitle t));
   (wf.ProjectID, ObjStr (teProjectID t)); (wf.Phase, ObjStr (teStage t));
   (wf.TDDCycle, ObjInt (teTDDCycle t)); (wf.MaxTDDCycles, ObjInt (teMaxTDDCycles t))] ++
  opt_triple wf.TraceID (teTraceID t) ++ opt_triple wf.Model (teModel t) ++
  opt_triple wf.AgentID (teAgentID t) ++ opt_triple wf.WorktreePath (teWorktreePath t) ++
  opt_triple wf.WorktreeBranch (teWorktreeBranch t) ++
  (if teValidationPassed t then [(wf.ValidationPassed, ObjStr "true")] else []) ++
  opt_triple wf.Verdict (teVerdict t) ++ opt_triple wf.RejectionType (teRejectionType t) ++
  opt_triple wf.Feedback (teFeedback t) ++ opt_triple wf.ErrorReason (teErrorReason t) ++
  opt_triple wf.EscalationReason (teEscalationReason t) ++
  ((λ f, (wf.FilesModified, ObjStr f)) <$> teFilesModified t))%list.

Definition writeReqTriples (r : RequirementExecution) : list triple :=
  ([(wf.Type_, ObjStr "requirement-execution"); (wf.Slug, ObjStr (reSlug r));
   (wf.RequirementID, ObjStr (reRequirementID r)); (wf.ProjectID, ObjStr (reProjectID r));
   (wf.Phase, ObjStr (reStage r))] ++
  opt_triple wf.TraceID (reTraceID r) ++
  (if (0 <? reNodeCount r)%Z then [(wf.NodeCount, ObjInt (reNodeCount r))] else []) ++
  opt_triple wf.ErrorReason (reErrorReason r) ++ opt_triple wf.Verdict (reReviewVerdict r))%list.

(** The float64 that [json.Unmarshal] makes of a whole number, itself a whole
    number: 53 bits, ties to even. *)
Definition float64_of (z : Z) : Z :=
  let a := Z.abs z in
  if (a <=? 2 ^ 53)%Z then z else
  let ulp := (2 ^ (Z.log2 a - 52))%Z in
  let q := (a / ulp)%Z in
  let up := (if 2 * (a mod ulp) =? ulp then Z.odd q else ulp <? 2 * (a mod ulp))%Z in
  (Z.sgn z * ((if up then q + 1 else q) * ulp))%Z.

(** [ReadEntitiesByPrefix] (workflow/graphutil/triple.go) reads an entity
    back as a map of strings; the last value of a predicate wins.  A number
    comes back as a float64; the conversion to int64 of the one value that does
    not fit, 2^63, is not the same number again (on amd64), and it is printed
    with the verb [%g]. *)
Definition object_string (o : object) : string :=
  match o with
  | ObjStr s => s
  | ObjInt z =>
      let v := float64_of z in
      if (v =? 2 ^ 63)%Z then "9.223372036854776e+18" else pretty v
  end.

Definition read_triples (ts : list triple) : gmap string string :=
  map_of (prod_map id object_string <$> ts).

(** [fmt.Sscanf(v, "%d", &n)] for a decimal: the sign and the digits at the
    front; [None] leaves [n] alone. *)
Definition digit_of (c : ascii) : option Z :=
  let n := Z.of_nat (nat_of_ascii c) in
  if ((48 <=? n) && (n <=? 57))%Z%bool then Some (n - 48)%Z else None.

Fixpoint scan_digits (acc : Z) (s : string) : Z :=
  match s with
  | String c s => match digit_of c with Some d => scan_digits (acc * 10 + d)%Z s | None => acc end
  | EmptyString => acc
  end.

Definition scan_unsigned (s : string) : option Z :=
  match s with
  | String c _ => match digit_of c with Some _ => Some (scan_digits 0 s) | None => None end
  | EmptyString => None
  end.

Definition Sscanf_d (s : string) : option Z :=
  match s with
  | String "-"%char s => Z.opp <$> scan_unsigned s
  | String "+"%char s => scan_unsigned s
  | _ => scan_unsigned s
  end.

(** [triples[p]] *)
Definition field (m : gmap string string) (p : string) : string := default "" (m !! p).

Section reconcile.
Context (E : ExecEnv).

Definition taskFromTripleMap (m : gmap string string) : TaskExecution :=
  let slug := field m wf.Slug in
  let taskID := field m wf.TaskID in
  {| teEntityID := if (slug !=? "") && (taskID !=? "") then xeTaskEntityID E slug taskID else "";
     teSlug := slug; teTaskID := taskID; teRequirementID := ""; teStage := field m wf.Phase;
     teTDDCycle := default 0%Z (Sscanf_d (field m wf.TDDCycle));
     teMaxTDDCycles := default 0%Z (Sscanf_d (field m wf.MaxTDDCycles));
     teTitle := field m wf.Title; teDescription := ""; teProjectID := field m wf.ProjectID;
     tePrompt := ""; teModel := field m wf.Model; teTraceID := field m wf.TraceID;
     teLoopID := ""; teRequestID := ""; teTaskType := ""; teAgentID := field m wf.AgentID;
     teWorktreePath := field m wf.WorktreePath; teWorktreeBranch := field m wf.WorktreeBranch;
     teScenarioBranch := ""; teFileScope := []; teScenarios := []; teFilesModified := [];
     teTestsPassed := false; teValidationPassed := false; teMergeCommit := "";
     teDeveloperTaskID := ""; teValidatorTaskID := ""; teReviewerTaskID := "";
     teVerdict := field m wf.Verdict; teRejectionType := field m wf.RejectionType;
     teFeedback := field m wf.Feedback; teReviewRetryCount := 0;
     teErrorReason := field m wf.ErrorReason; teErrorClass := "";
     teEscalationReason := field m wf.EscalationReason; teCreatedAt := 0; teUpdatedAt := 0 |}.

Definition reqFromTripleMap (m : gmap string string) : RequirementExecution :=
  let slug := field m wf.Slug in
  let reqID := field m wf.RequirementID in
  {| reEntityID := if (slug !=? "") && (reqID !=? "") then xeReqEntityID E slug reqID else "";
     reSlug := slug; reRequirementID := reqID; reStage := field m wf.Phase; reTitle := "";
     reDescription := ""; reProjectID := field m wf.ProjectID; reTraceID := field m wf.TraceID;
     reLoopID := ""; reRequestID := ""; reModel := ""; reScenarios := []; reDependsOn := [];
     rePrompt := ""; reRole := ""; rePlanBranch := ""; reBaseBranch := "";
     reSortedStoryIDs := []; reCurrentStoryIdx := 0;
     reNodeCount := default 0%Z (Sscanf_d (field m wf.NodeCount)); reCurrentNodeIdx := 0;
     reDAGRaw := ""; reSortedNodeIDs := []; reNodeResults := []; reScenarioVerdicts := [];
     reCurrentNodeTaskID := ""; reReviewerTaskID := ""; reRequirementBranch := "";
     reReviewVerdict := field m wf.Verdict; reReviewFeedback := "";
     reErrorReason := field m wf.ErrorReason; reErrorClass := ""; reRetryCount := 0;
     reMaxRetries := 0; reCreatedAt := 0; reUpdatedAt := 0 |}.

(** The entities the graph answers with; [None] is an error. *)
Definition reconcileTasksFromGraph (entities : option (list (gmap string string))) : X () :=
  xfor (default [] entities) (λ m,
    if IsTerminalTaskStage (field m wf.Phase) then mret () else
    let t := taskFromTripleMap m in
    if (teSlug t =? "") || (teTaskID t =? "") then mret () else
    a ← alloc t; cacheTask (TaskExecutionKey (teSlug t) (teTaskID t)) a).

Definition reconcileReqsFromGraph (entities : option (list (gmap string string))) : X () :=
  xfor (default [] entities) (λ m,
    if IsTerminalReqStage (field m wf.Phase) then mret () else
    let r := reqFromTripleMap m in
    if (reSlug r =? "") || (reRequirementID r =? "") then mret () else
    cacheReq (RequirementExecutionKey (reSlug r) (reRequirementID r)) r).

(** One key of the bucket; whether an active row was loaded. *)
Definition reconcileKey (key : string) : X (bool + exec_error) :=
  entry ← kvGet E key;
  match entry with
  | None => mret (inl false)
  | Some row =>
      if HasPrefix key "task." then
        match decodeTask E row with
        | Some t => if IsTerminalTaskStage (teStage t) then mret (inl false)
                    else a ← alloc t; cacheTask key a;; mret (inl true)
        | None => mret (inl false)
        end
      else if HasPrefix key "req." then
        match decodeReq E row with
        | Some r => if IsTerminalReqStage (reStage r) then mret (inl false)
                    else cacheReq key r;; mret (inl true)
        | None => mret (inl false)
        end
      else mret (inl false)
  end.

Definition reconcile (tasks reqs : option (list (gmap string string))) : X () :=
  keys ← kvKeys E "";
  loaded ← xcount keys 0%Z reconcileKey;
  match loaded with
  | inl n => if (0 <? n)%Z then mret ()
             else reconcileTasksFromGraph tasks;; reconcileReqsFromGraph reqs
  | inr _ => mret ()
  end.
End reconcile.

(** ** Programs that keep an invariant *)

Definition keeps {A} (I : XWorld → Prop) (m : X A) : Prop := ∀ w, I w → I (m w).1.

Lemma keeps_ret {A} I (x : A) : keeps I (mret x : X A).
Proof. by intros w. Qed.

Lemma keeps_bind {A B} I (m : X A) (f : A → X B) :
  keeps I m → (∀ x, keeps I (f x)) → keeps I (m ≫= f).
Proof.
  intros Hm Hf w Hw. specialize (Hm w Hw). unfold mbind, X_bind.
  destruct (m w) as [w1 x]. by apply Hf.
Qed.

Lemma keeps_modify I f : (∀ w, I w → I (f w)) → keeps I (modify f).
Proof. done. Qed.

Lemma keeps_read I : keeps I xread.
Proof. by intros w. Qed.

Lemma keeps_if {A} I (b : bool) (m m' : X A) : keeps I m → keeps I m' → keeps I (if b then m else m').
Proof. by destruct b. Qed.

Lemma keeps_when I b m : keeps I m → keeps I (xwhen b m).
Proof. intros. apply keeps_if; [done|apply keeps_ret]. Qed.

Lemma keeps_for {A} I (l : list A) body : (∀ x, keeps I (body x)) → keeps I (xfor l body).
Proof.
  intros H. induction l as [|x l IH]; simpl; [apply keeps_ret|].
  apply keeps_bind; [apply H|by intros _].
Qed.

Lemma keeps_collect {A B} I (l : list A) (body : A → X (option B)) :
  (∀ x, x ∈ l → keeps I (body x)) → keeps I (xcollect l body).
Proof.
  induction l as [|x l IH]; simpl; intros H; [apply keeps_ret|].
  apply keeps_bind; [apply H; set_solver|]. intros r.
  apply keeps_bind; [apply IH; set_solver|]. intros rs. apply keeps_ret.
Qed.

Lemma keeps_count {A Err} I (l : list A) n (body : A → X (bool + Err)) :
  (∀ x, keeps I (body x)) → keeps I (xcount l n body).
Proof.
  intros H. revert n. induction l as [|x l IH]; intros n; simpl; [apply keeps_ret|].
  apply keeps_bind; [apply H|]. intros [c|e]; [apply IH|apply keeps_ret].
Qed.

(** A bind whose first program answers only values in [P]. *)
Lemma keeps_bind_post {A B} I (P : A → Prop) (m : X A) (f : A → X B) :
  keeps I m → (∀ w, P (m w).2) → (∀ x, P x → keeps I (f x)) → keeps I (m ≫= f).
Proof.
  intros Hm HP Hf w Hw. specialize (Hm w Hw). specialize (HP w). unfold mbind, X_bind.
  destruct (m w) as [w1 x]. by apply Hf.
Qed.

(** The invariant looks at no clock, so the outside may be asked. *)
Lemma keeps_tick E I : (∀ w n, I w → I (set_xwTick n w)) → keeps I (xtick E).
Proof. intros H w Hw. by apply H. Qed.

(** Reading the world and continuing. *)
Lemma keeps_read_bind {A} I (f : XWorld → X A) :
  (∀ w, I w → I (f w w).1) → keeps I (xread ≫= f).
Proof. intros H w Hw. by apply H. Qed.

Create HintDb keeps.
#[export] Hint Resolve keeps_ret keeps_read keeps_if keeps_when keeps_for keeps_collect
  keeps_count : keeps.

(** Split a program at its binds and branches; what is left are the
    primitive writes. *)
Ltac keeps_step :=
  lazymatch goal with
  | |- keeps _ (mret _) => apply keeps_ret
  | |- keeps _ xread => apply keeps_read
  | |- keeps _ (mbind _ _) => apply keeps_bind; [|intros ?]
  | |- keeps _ (xwhen _ _) => apply keeps_when
  | |- keeps _ (xfor _ _) => apply keeps_for; intros ?
  | |- keeps _ (xcollect _ _) => apply keeps_collect; intros ? ?
  | |- keeps _ (xcount _ _ _) => apply keeps_count; intros ?
  | |- keeps _ (if ?b then _ else _) => destruct b
  | |- keeps _ (match ?x with _ => _ end) => destruct x
  end.
Ltac keeps_auto := repeat (keeps_step; auto 2 with keeps).

(** ** Keys tell the two kinds of rows apart *)

Definition row_typed (key : string) (r : exec_row) : Prop :=
  match r with
  | TaskRow _ => HasPrefix key "task." = true
  | ReqRow _ => HasPrefix key "req." = true
  end.

(** Each cache holds keys of its family, the bucket rows of the kind of
    their key. *)
Definition rows_typed (w : XWorld) : Prop :=
  (∀ k a, xwTaskCache w !! k = Some a → HasPrefix k "task." = true) ∧
  (∀ k r, xwReqCache w !! k = Some r → HasPrefix k "req." = true) ∧
  (∀ kv k r, xwKV w = Some kv → kv !! k = Some r → row_typed k r).

Lemma prefixes_disjoint k : HasPrefix k "task." = true → HasPrefix k "req." = true → False.
Proof. rewrite !HasPrefix_spec. intros [r ->] [r' [=]]. Qed.

Lemma TaskExecutionKey_prefix slug id : HasPrefix (TaskExecutionKey slug id) "task." = true.
Proof. apply HasPrefix_spec. by eexists. Qed.

Lemma RequirementExecutionKey_prefix slug id :
  HasPrefix (RequirementExecutionKey slug id) "req." = true.
Proof. apply HasPrefix_spec. by eexists. Qed.

#[export] Hint Resolve TaskExecutionKey_prefix RequirementExecutionKey_prefix : keeps.

Lemma rows_typed_ext w w' :
  xwTaskCache w' = xwTaskCache w → xwReqCache w' = xwReqCache w → xwKV w' = xwKV w →
  rows_typed w → rows_typed w'.
Proof. unfold rows_typed. by intros -> -> ->. Qed.

(** What the operations of the store ask of an invariant: it survives the
    writes that put a row under a key of its kind. *)
Class StoreInv (I : XWorld → Prop) : Prop := {
  si_tick E : keeps I (xtick E);
  si_alloc t : keeps I (alloc t);
  si_stamp a t w : I w → I (put_cell a t w);
  si_cacheTask k a : HasPrefix k "task." = true → keeps I (cacheTask k a);
  si_cacheReq k r : HasPrefix k "req." = true → keeps I (cacheReq k r);
  si_kvPut k r : row_typed k r → keeps I (kvPut k r);
  si_dropTask k w : I w → I (set_xwTaskCache (delete k (xwTaskCache w)) w);
  si_dropReq k w : I w → I (set_xwReqCache (delete k (xwReqCache w)) w);
  si_dropKV k kv w : I w → xwKV w = Some kv → I (set_xwKV (Some (delete k kv)) w) }.

#[export] Instance rows_typed_store : StoreInv rows_typed.
Proof.
  split.
  - by intros E w.
  - by intros t w.
  - done.
  - intros k a Hk w (H1 & H2 & H3). split_and!; simpl; [|done|done].
    intros k' a' [[<- _]|[_ ?]]%lookup_insert_Some; eauto.
  - intros k r Hk w (H1 & H2 & H3). split_and!; simpl; [done| |done].
    intros k' a' [[<- _]|[_ ?]]%lookup_insert_Some; eauto.
  - intros k r Hk w (H1 & H2 & H3). split_and!; simpl; [done..|].
    intros kv k' r' Hkv Hr. destruct (xwKV w) as [kv0|]; simplify_eq/=.
    apply lookup_insert_Some in Hr as [[<- <-]|[_ ?]]; eauto.
  - intros k w (H & ? & ?). split_and!; simpl; [|done|done].
    intros k' r [_ ?]%lookup_delete_Some. eauto.
  - intros k w (? & H & ?). split_and!; simpl; [done| |done].
    intros k' r [_ ?]%lookup_delete_Some. eauto.
  - intros k kv w (H1 & H2 & H3) Hkv. split_and!; simpl; [done..|].
    intros kv' k' r [= <-] [_ ?]%lookup_delete_Some. eauto.
Qed.

(** The store keeps every such invariant. *)
Section store_inv.
Context (E : ExecEnv) (I : XWorld → Prop) {HI : StoreInv I}.

#[local] Hint Resolve si_tick si_alloc si_cacheTask si_cacheReq si_kvPut : keeps.

Lemma kvGet_keeps k : keeps I (kvGet E k).
Proof. unfold kvGet. apply keeps_bind; [apply si_tick|intros o]. keeps_auto. Qed.

#[local] Hint Resolve kvGet_keeps : keeps.

Lemma getTask_keeps k : keeps I (getTask E k).
Proof.
  unfold getTask. destruct (HasPrefix k "task.") eqn:Hk; simpl; [|apply keeps_ret]. keeps_auto.
Qed.

Lemma getReq_keeps k : keeps I (getReq E k).
Proof.
  unfold getReq. destruct (HasPrefix k "req.") eqn:Hk; simpl; [|apply keeps_ret]. keeps_auto.
Qed.

Lemma saveTask_keeps k a : HasPrefix k "task." = true → keeps I (saveTask E k a).
Proof.
  intros Hk. unfold saveTask. apply keeps_bind; [apply si_tick|intros o].
  apply keeps_bind; [apply keeps_modify; intros w; apply si_stamp|intros _]. keeps_auto.
Qed.

Lemma saveReq_keeps k r : HasPrefix k "req." = true → keeps I (saveReq E k r).
Proof. intros Hk. unfold saveReq. keeps_auto. Qed.

Lemma deleteReq_keeps k : keeps I (deleteReq E k).
Proof.
  unfold deleteReq. apply keeps_bind; [apply keeps_modify; intros w; apply si_dropReq|intros _].
  apply keeps_bind; [apply keeps_modify; intros w; apply si_dropTask|intros _].
  apply keeps_read_bind. intros w Hw. destruct (xwKV w) as [kv|] eqn:Ekv; [|done].
  assert (Ht : I (xtick E w).1) by (by apply si_tick).
  unfold mbind, X_bind. simpl in *. destruct (xKvDelErr _); [done|]. simpl. by apply si_dropKV.
Qed.

Lemma kvKeys_keeps p : keeps I (kvKeys E p).
Proof. unfold kvKeys. apply keeps_bind; [apply si_tick|intros o]. keeps_auto. Qed.

Lemma kvKeys_prefix p w k : k ∈ (kvKeys E p w).2 → HasPrefix k p = true.
Proof.
  unfold kvKeys, mbind, X_bind. simpl. destruct (xwKV w); [|set_solver].
  destruct (xKeysErr _); [set_solver|]. by intros [? _]%list_elem_of_filter.
Qed.

Lemma HasPrefix_app k p q : HasPrefix k (p +:+ q) = true → HasPrefix k p = true.
Proof.
  rewrite !HasPrefix_spec. intros [r ->]. exists (q +:+ r). by rewrite string_app_assoc.
Qed.

Lemma listTasksForSlug_keeps slug : keeps I (listTasksForSlug E slug).
Proof.
  unfold listTasksForSlug. apply keeps_bind; [apply keeps_read|intros w]. keeps_step; [apply keeps_ret|].
  eapply (keeps_bind_post _ (λ ks, ∀ k, k ∈ ks → HasPrefix k "task." = true)); [apply kvKeys_keeps| |].
  - intros w' k Hk%kvKeys_prefix. by apply HasPrefix_app in Hk.
  - intros ks Hks. apply keeps_collect. intros k Hk%Hks. keeps_auto.
Qed.

Lemma listReqsForSlug_keeps slug : keeps I (listReqsForSlug E slug).
Proof.
  unfold listReqsForSlug. apply keeps_bind; [apply keeps_read|intros w]. keeps_step; [apply keeps_ret|].
  eapply (keeps_bind_post _ (λ ks, ∀ k, k ∈ ks → HasPrefix k "req." = true)); [apply kvKeys_keeps| |].
  - intros w' k Hk%kvKeys_prefix. by apply HasPrefix_app in Hk.
  - intros ks Hks. apply keeps_collect. intros k Hk%Hks. keeps_auto.
Qed.

Lemma reconcile_keeps tasks reqs : keeps I (reconcile E tasks reqs).
Proof.
  unfold reconcile, reconcileTasksFromGraph, reconcileReqsFromGraph.
  apply keeps_bind; [apply kvKeys_keeps|intros ks]. apply keeps_bind; [|intros r; keeps_auto].
  apply keeps_count. intros k. unfold reconcileKey. apply keeps_bind; [apply kvGet_keeps|].
  intros [row|]; [|apply keeps_ret].
  destruct (HasPrefix k "task.") eqn:?, (HasPrefix k "req.") eqn:?; keeps_auto.
Qed.

(** The answers of the store are rows of the kind asked for. *)
Lemma getTask_prefix k w : is_Some (getTask E k w).2 → HasPrefix k "task." = true.
Proof. unfold getTask. destruct (HasPrefix k "task."); [done|]. by intros []. Qed.

Lemma getReq_prefix k w : is_Some (getReq E k w).2 → HasPrefix k "req." = true.
Proof. unfold getReq. destruct (HasPrefix k "req."); [done|]. by intros []. Qed.
End store_inv.

#[export] Hint Extern 0 (StoreInv _) => typeclasses eauto : keeps.
#[export] Hint Resolve si_tick si_alloc si_cacheTask si_cacheReq si_kvPut kvGet_keeps getTask_keeps
  getReq_keeps saveTask_keeps saveReq_keeps deleteReq_keeps kvKeys_keeps listTasksForSlug_keeps
  listReqsForSlug_keeps : keeps.

(** ** Writing a row to the graph and reading it back *)

Lemma digit_of_pretty x : (x < 10)%N → digit_of (pretty_N_char x) = Some (Z.of_N x).
Proof.
  intros Hx. assert (∃ n, x = N.of_nat n ∧ n < 10) as (n & -> & Hn).
  { exists (N.to_nat x). rewrite N2Nat.id. split; [done|lia]. }
  do 10 (destruct n as [|n]; [done|]). lia.
Qed.

Lemma scan_pretty_go x s : scan_digits 0 (pretty_N_go x s) = scan_digits (Z.of_N x) s.
Proof.
  revert s. induction (N.lt_wf_0 x) as [x _ IH]. intros s.
  destruct (decide (x = 0)%N) as [->|Hx]; [by rewrite pretty_N_go_0|].
  rewrite pretty_N_go_step by lia. rewrite IH by (apply N.div_lt; lia). simpl.
  rewrite digit_of_pretty by (apply N.mod_lt; lia). f_equal.
  rewrite (N.div_mod x 10) at 3 by lia. lia.
Qed.

(** A decimal starts with a digit. *)
Lemma pretty_go_head x s : (0 < x)%N → ∃ d s', (d < 10)%N ∧ pretty_N_go x s = String (pretty_N_char d) s'.
Proof.
  revert s. induction (N.lt_wf_0 x) as [x _ IH]. intros s Hx. rewrite pretty_N_go_step by done.
  destruct (decide (x `div` 10 = 0)%N) as [->|Hq].
  - rewrite pretty_N_go_0. exists (x mod 10)%N, s. split; [apply N.mod_lt; lia|done].
  - apply IH; [apply N.div_lt; lia|by apply N.neq_0_lt_0].
Qed.

Lemma Sscanf_pretty_pos p : scan_unsigned (pretty p) = Some (Z.pos p) ∧
  ∃ d s, (d < 10)%N ∧ pretty p = String (pretty_N_char d) s.
Proof.
  change (pretty p) with (pretty_N (N.pos p)). unfold pretty_N.
  destruct (decide _) as [|_]; [done|].
  destruct (pretty_go_head (N.pos p) "") as (d & s & Hd & Hs); [lia|]. split; [|eauto].
  unfold scan_unsigned. rewrite Hs, digit_of_pretty, <- Hs by done. by rewrite scan_pretty_go.
Qed.

(** [%d] reads what [%d] printed. *)
Lemma Sscanf_pretty (z : Z) : Sscanf_d (pretty z) = Some z.
Proof.
  destruct z as [|p|p]; [done| |].
  - change (pretty (Z.pos p)) with (pretty p). destruct (Sscanf_pretty_pos p) as [H (d & s & Hd & Hs)].
    rewrite <- H. rewrite Hs. unfold Sscanf_d.
    assert (∃ n, d = N.of_nat n ∧ n < 10) as (n & -> & Hn).
    { exists (N.to_nat d). rewrite N2Nat.id. split; [done|lia]. }
    do 10 (destruct n as [|n]; [done|]). lia.
  - change (pretty (Z.neg p)) with ("-" +:+ pretty p). destruct (Sscanf_pretty_pos p) as [H _].
    change (Z.opp <$> scan_unsigned (pretty p) = Some (Z.neg p)). by rewrite H.
Qed.

(** A field of an entity after some more triples. *)
Lemma field_app_other l l' p : p ∉ l'.*1 → field (read_triples (l ++ l')%list) p = field (read_triples l) p.
Proof.
  unfold field, read_triples. rewrite fmap_app. intros Hp. f_equal.
  revert Hp. induction l' as [|[q o] l' IH] using rev_ind; intros Hp; [by rewrite app_nil_r|].
  rewrite fmap_app, (assoc (++)%list). unfold map_of in *. rewrite list_fmap_singleton, foldl_snoc. simpl.
  rewrite fmap_app in Hp. rewrite lookup_insert_ne by set_solver. apply IH. set_solver.
Qed.

(** Scan the triples from the last one for the predicate. *)
Definition pick (p q v rest : string) : string :=
  if q =? p then (if v =? "" then rest else v) else rest.
Definition pick1 (p q v rest : string) : string := if q =? p then v else rest.

Lemma field_opt l q v p :
  field (read_triples (l ++ opt_triple q v)%list) p =
  pick p q v (field (read_triples l) p).
Proof.
  unfold pick, opt_triple. destruct (v =? "") eqn:Hv; simpl.
  { rewrite app_nil_r. by destruct (q =? p). }
  destruct (q =? p) eqn:Hq.
  - apply (proj1 (eqb_true _ _)) in Hq as ->. unfold field, read_triples. rewrite fmap_app.
    unfold map_of. rewrite list_fmap_singleton, foldl_snoc. simpl. by rewrite lookup_insert_eq.
  - apply field_app_other. apply (proj1 (eqb_false _ _)) in Hq. set_solver.
Qed.

Lemma field_snoc l q o p :
  field (read_triples (l ++ [(q, o)])%list) p =
  pick1 p q (object_string o) (field (read_triples l) p).
Proof.
  unfold pick1.
  destruct (q =? p) eqn:Hq.
  - apply (proj1 (eqb_true _ _)) in Hq as ->. unfold field, read_triples. rewrite fmap_app.
    unfold map_of. rewrite list_fmap_singleton, foldl_snoc. simpl. by rewrite lookup_insert_eq.
  - apply field_app_other. apply (proj1 (eqb_false _ _)) in Hq. set_solver.
Qed.

Lemma field_bool l (b : bool) q p :
  q ≠ p → field (read_triples (l ++ (if b then [(q, ObjStr "true")] else []))%list) p = field (read_triples l) p.
Proof. intros. apply field_app_other. destruct b; set_solver. Qed.

Lemma field_files l fs p :
  wf.FilesModified ≠ p →
  field (read_triples (l ++ ((λ f, (wf.FilesModified, ObjStr f)) <$> fs))%list) p = field (read_triples l) p.
Proof.
  intros Hp. apply field_app_other. rewrite <- list_fmap_compose. intros (f & -> & _)%list_elem_of_fmap.
  done.
Qed.

(** A counter within the 53 bits of a float64 comes back as it was. *)
Lemma int_string z : (Z.abs z ≤ 2 ^ 53)%Z → object_string (ObjInt z) = pretty z.
Proof.
  intros Hz. unfold object_string, float64_of. rewrite (proj2 (Z.leb_le _ _) Hz).
  destruct (Z.eqb_spec z (2 ^ 63)) as [->|]; [|done]. lia.
Qed.

(** What survives.  The entity is computed again; the rest of the row is
    lost, even what was written (the modified files and the passed
    validation). *)
Definition graph_view (E : ExecEnv) (t : TaskExecution) : TaskExecution :=
  {| teEntityID := if (teSlug t !=? "") && (teTaskID t !=? "")
                   then xeTaskEntityID E (teSlug t) (teTaskID t) else "";
     teSlug := teSlug t; teTaskID := teTaskID t; teRequirementID := ""; teStage := teStage t;
     teTDDCycle := teTDDCycle t; teMaxTDDCycles := teMaxTDDCycles t; teTitle := teTitle t;
     teDescription := ""; teProjectID := teProjectID t; tePrompt := ""; teModel := teModel t;
     teTraceID := teTraceID t; teLoopID := ""; teRequestID := ""; teTaskType := "";
     teAgentID := teAgentID t; teWorktreePath := teWorktreePath t;
     teWorktreeBranch := teWorktreeBranch t; teScenarioBranch := ""; teFileScope := [];
     teScenarios := []; teFilesModified := []; teTestsPassed := false; teValidationPassed := false;
     teMergeCommit := ""; teDeveloperTaskID := ""; teValidatorTaskID := ""; teReviewerTaskID := "";
     teVerdict := teVerdict t; teRejectionType := teRejectionType t; teFeedback := teFeedback t;
     teReviewRetryCount := 0; teErrorReason := teErrorReason t; teErrorClass := "";
     teEscalationReason := teEscalationReason t; teCreatedAt := 0; teUpdatedAt := 0 |}.


Lemma if_empty (v : string) : (if v =? "" then "" else v) = v.
Proof. destruct (v =? "") eqn:H; [|done]. by apply (proj1 (eqb_true _ _)) in H. Qed.

Lemma task_field t p :
  wf.FilesModified ≠ p → wf.ValidationPassed ≠ p →
  field (read_triples (writeTaskTriples t)) p =
    pick p wf.EscalationReason (teEscalationReason t) (pick p wf.ErrorReason (teErrorReason t)
    (pick p wf.Feedback (teFeedback t) (pick p wf.RejectionType (teRejectionType t)
    (pick p wf.Verdict (teVerdict t) (pick p wf.WorktreeBranch (teWorktreeBranch t)
    (pick p wf.WorktreePath (teWorktreePath t) (pick p wf.AgentID (teAgentID t)
    (pick p wf.Model (teModel t) (pick p wf.TraceID (teTraceID t)
    (pick1 p wf.MaxTDDCycles (object_string (ObjInt (teMaxTDDCycles t)))
    (pick1 p wf.TDDCycle (object_string (ObjInt (teTDDCycle t)))
    (pick1 p wf.Phase (teStage t) (pick1 p wf.ProjectID (teProjectID t)
    (pick1 p wf.Title (teTitle t) (pick1 p wf.TaskID (teTaskID t) (pick1 p wf.Slug (teSlug t)
    (pick1 p wf.Type_ "task-execution" ""))))))))))))))))).
Proof.
  intros Hf Hv. unfold writeTaskTriples.
  repeat match goal with |- context [?a :: ?b :: ?l] => change (a :: b :: l) with ([a] ++ b :: l)%list end.
  rewrite !(assoc (++)%list), field_files by done. rewrite !field_opt, field_bool, !field_opt by done.
  rewrite <- (app_nil_l [(wf.Type_, _)]), !field_snoc. done.
Qed.

Lemma pick_ne p q v r : (q =? p) = false → pick p q v r = r.
Proof. unfold pick. by intros ->. Qed.
Lemma pick1_ne p q v r : (q =? p) = false → pick1 p q v r = r.
Proof. unfold pick1. by intros ->. Qed.
Lemma pick_eq p v : pick p p v "" = v.
Proof. unfold pick. rewrite Prelude.eqb_refl. apply if_empty. Qed.
Lemma pick1_eq p v r : pick1 p p v r = v.
Proof. unfold pick1. by rewrite Prelude.eqb_refl. Qed.

(** Look a predicate up among the triples. *)
Ltac look_up :=
  rewrite ?task_field by done;
  repeat first [rewrite pick1_eq | rewrite pick_eq
               | rewrite pick_ne by (vm_compute; reflexivity)
               | rewrite pick1_ne by (vm_compute; reflexivity)].

(** C38: Reading back the triples that were written for a task row whose two
    counters of cycles are at most 2^53 in absolute value gives exactly its
    [graph_view]: slug, task, stage, cycle and budget, title, project, model,
    trace, agent, worktree, verdict, rejection, feedback, error and escalation
    reasons as they were, the entity computed again from slug and task, and
    everything else empty: requirement, prompt, description, scenarios, file
    scope, modified files, test and validation results, merge commit, the
    loop, request and stage tasks, task type, review retries, scenario branch,
    error class and times. *)
Theorem task_graph_roundtrip E t :
  (Z.abs (teTDDCycle t) ≤ 2 ^ 53)%Z → (Z.abs (teMaxTDDCycles t) ≤ 2 ^ 53)%Z →
  taskFromTripleMap E (read_triples (writeTaskTriples t)) = graph_view E t.
Proof.
  intros H1 H2. unfold taskFromTripleMap, graph_view. cbv zeta.
  f_equal; look_up; by rewrite ?int_string, ?Sscanf_pretty by done.
Qed.

(** Beyond 2^53 a counter may come back as another number. *)
Example large_counter_rounded :
  Sscanf_d (object_string (ObjInt (2 ^ 53 + 1))) = Some (2 ^ 53)%Z ∧
  Sscanf_d (object_string (ObjInt (2 ^ 53 + 3))) = Some (2 ^ 53 + 4)%Z ∧
  Sscanf_d (object_string (ObjInt (2 ^ 63 - 1))) = Some 9%Z.
Proof. by vm_compute. Qed.

(** ** A concrete environment *)

(** Every call succeeds, and each identifier is new. *)
Definition sample_io (plan : Plan) (n : nat) : exec_io :=
  {| xNow := Z.of_nat n; xUUID := pretty n; xMarshalErr := false; xKvGetErr := false;
     xKvPutErr := false; xKvDelErr := None; xKeysErr := false; xPublishErr := false;
     xPlan := inl plan; xLoops := None; xWorktree := inl ("/worktrees/t1", "agent/t1");
     xWorktreeLost := None; xGitStatus := Some " M main.go"; xFiles := None;
     xMerge := Merged (MkMergeResult "c0ffee" false ["main.go"]); xShutdown := false |}.

(** What is between the braces. *)
Definition unbraced (s : string) : string := String.substring 1 (String.length s - 2) s.

(** [xeUnmarshalReview] reads the verdict alone. *)
Definition sample_env (plan : Plan) : ExecEnv :=
  {| xeIO := sample_io plan;
     xeTaskEntityID := λ slug id, "task-execution." +:+ slug +:+ "." +:+ id;
     xeReqEntityID := λ slug id, "requirement-execution." +:+ slug +:+ "." +:+ id;
     xeDecodeReqAsTask := λ _, None; xeDecodeTaskAsReq := λ _, None;
     xeKeys := λ _ ks, elements ks; xeMaxTDDCycles := 3; xeMaxReviewRetries := 1;
     xeTimeout := "30m0s"; xeSandboxURL := "http://sandbox"; xeEnablePositiveLessons := false;
     xeRequireMergeObservation := None; xeRequireDeveloperDiff := None; xeModel := "m";
     xeReviewerModel := "m"; xeSystemPrompt := λ _ _ _ _, "";
     xeUnmarshalDeveloper := λ s,
       if s =? "" then None else Some (MkDeveloperResult "" "" "" "" "" ["main.go"] [] (unbraced s) []);
     xeUnmarshalReview := λ s, (MkTaskCodeReviewResult "" "" (unbraced s) "fixable" "" "" [] 0 0 0 0 0 0 "", negb (s =? ""));
     xeCategories := None; xeTruncateRunes := λ s _, s; xeQuote := λ s, s |}.

(** A bucket with the given rows, and nothing else. *)
Definition stored_world (kv : gmap string exec_row) : XWorld :=
  MkXWorld ∅ 0 ∅ ∅ (Some kv) ∅ ∅ ∅ ∅ [] [] 0 [].

(** A row in its second cycle. *)
Definition graph_row : TaskExecution :=
  MkTaskExecution "" "demo" "t1" "r1" "reviewing" 1 3 "Read" "" "project" "do it" "m" "trace" "" "" "" "a1" "/w" "agent/t1" ""
    ["main.go"] [] ["main.go"] true true "" "dev-1" "" "rev-1" "" "" "" 1 "" "" "" 0 0.

Lemma task_graph_roundtrip_witness :
  let t := taskFromTripleMap (sample_env (demo_plan StatusImplementing)) (read_triples (writeTaskTriples graph_row)) in
  teTDDCycle t = 1%Z ∧ teStage t = "reviewing" ∧ teRequirementID t = "" ∧ teReviewerTaskID t = "".
Proof.
  cbv zeta. rewrite (task_graph_roundtrip (sample_env (demo_plan StatusImplementing)) graph_row);
    [split_and!; reflexivity|vm_compute; discriminate|vm_compute; discriminate].
Defined.
