(* ===== verification/TddPipeline.v ===== *)
(** * The TDD pipeline of the execution manager

    processor/execution-manager/component.go: a task is developed, validated
    and reviewed, and a rejection sends it back to the developer until its
    budget of cycles is spent.  One definition per function; a function
    whose Go name ends in [Locked] runs under the lock of the execution it is
    given, here by the address [o] of its row.  [dispatchValidatorLocked]
    gives the lock up while it waits, so it is two definitions, up to the
    wait and after it.  Triples and the entity published with them are left
    out: the graph is written but read only at start-up. *)

From stdpp Require Import pretty.
From S2P Require Import Prelude Paths JsonUtil Types PlanStore ExecTypes Feedback ExecStore.

Local Open Scope string_scope.
Local Open Scope go_scope.

Definition set_lTerminated (v : bool) (x : taskExecution) : taskExecution :=
  {| lTerminated := v; lKey := lKey x; lTask := lTask x; lDeveloperOutput := lDeveloperOutput x;
     lDeveloperLLMRequestIDs := lDeveloperLLMRequestIDs x;
     lDeveloperFileIntents := lDeveloperFileIntents x;
     lValidationResults := lValidationResults x;
     lReviewerLLMRequestIDs := lReviewerLLMRequestIDs x;
     lReviewerParseError := lReviewerParseError x; lDeveloperLoopID := lDeveloperLoopID x;
     lPriorCycles := lPriorCycles x; lTimer := lTimer x |}.

Definition set_lDeveloperOutput (v : string) (x : taskExecution) : taskExecution :=
  {| lTerminated := lTerminated x; lKey := lKey x; lTask := lTask x; lDeveloperOutput := v;
     lDeveloperLLMRequestIDs := lDeveloperLLMRequestIDs x;
     lDeveloperFileIntents := lDeveloperFileIntents x;
     lValidationResults := lValidationResults x;
     lReviewerLLMRequestIDs := lReviewerLLMRequestIDs x;
     lReviewerParseError := lReviewerParseError x; lDeveloperLoopID := lDeveloperLoopID x;
     lPriorCycles := lPriorCycles x; lTimer := lTimer x |}.

Definition set_lDeveloperLLMRequestIDs (v : list string) (x : taskExecution) : taskExecution :=
  {| lTerminated := lTerminated x; lKey := lKey x; lTask := lTask x;
     lDeveloperOutput := lDeveloperOutput x; lDeveloperLLMRequestIDs := v;
     lDeveloperFileIntents := lDeveloperFileIntents x;
     lValidationResults := lValidationResults x;
     lReviewerLLMRequestIDs := lReviewerLLMRequestIDs x;
     lReviewerParseError := lReviewerParseError x; lDeveloperLoopID := lDeveloperLoopID x;
     lPriorCycles := lPriorCycles x; lTimer := lTimer x |}.

Definition set_lDeveloperFileIntents (v : list FileIntent) (x : taskExecution) : taskExecution :=
  {| lTerminated := lTerminated x; lKey := lKey x; lTask := lTask x;
     lDeveloperOutput := lDeveloperOutput x;
     lDeveloperLLMRequestIDs := lDeveloperLLMRequestIDs x; lDeveloperFileIntents := v;
     lValidationResults := lValidationResults x;
     lReviewerLLMRequestIDs := lReviewerLLMRequestIDs x;
     lReviewerParseError := lReviewerParseError x; lDeveloperLoopID := lDeveloperLoopID x;
     lPriorCycles := lPriorCycles x; lTimer := lTimer x |}.

Definition set_lValidationResults (v : list CheckResult) (x : taskExecution) : taskExecution :=
  {| lTerminated := lTerminated x; lKey := lKey x; lTask := lTask x;
     lDeveloperOutput := lDeveloperOutput x;
     lDeveloperLLMRequestIDs := lDeveloperLLMRequestIDs x;
     lDeveloperFileIntents := lDeveloperFileIntents x; lValidationResults := v;
     lReviewerLLMRequestIDs := lReviewerLLMRequestIDs x;
     lReviewerParseError := lReviewerParseError x; lDeveloperLoopID := lDeveloperLoopID x;
     lPriorCycles := lPriorCycles x; lTimer := lTimer x |}.

Definition set_lReviewerLLMRequestIDs (v : list string) (x : taskExecution) : taskExecution :=
  {| lTerminated := lTerminated x; lKey := lKey x; lTask := lTask x;
     lDeveloperOutput := lDeveloperOutput x;
     lDeveloperLLMRequestIDs := lDeveloperLLMRequestIDs x;
     lDeveloperFileIntents := lDeveloperFileIntents x;
     lValidationResults := lValidationResults x; lReviewerLLMRequestIDs := v;
     lReviewerParseError := lReviewerParseError x; lDeveloperLoopID := lDeveloperLoopID x;
     lPriorCycles := lPriorCycles x; lTimer := lTimer x |}.

Definition set_lReviewerParseError (v : string) (x : taskExecution) : taskExecution :=
  {| lTerminated := lTerminated x; lKey := lKey x; lTask := lTask x;
     lDeveloperOutput := lDeveloperOutput x;
     lDeveloperLLMRequestIDs := lDeveloperLLMRequestIDs x;
     lDeveloperFileIntents := lDeveloperFileIntents x;
     lValidationResults := lValidationResults x;
     lReviewerLLMRequestIDs := lReviewerLLMRequestIDs x; lReviewerParseError := v;
     lDeveloperLoopID := lDeveloperLoopID x; lPriorCycles := lPriorCycles x; lTimer := lTimer x |}.

Definition set_lDeveloperLoopID (v : string) (x : taskExecution) : taskExecution :=
  {| lTerminated := lTerminated x; lKey := lKey x; lTask := lTask x;
     lDeveloperOutput := lDeveloperOutput x;
     lDeveloperLLMRequestIDs := lDeveloperLLMRequestIDs x;
     lDeveloperFileIntents := lDeveloperFileIntents x;
     lValidationResults := lValidationResults x;
     lReviewerLLMRequestIDs := lReviewerLLMRequestIDs x;
     lReviewerParseError := lReviewerParseError x; lDeveloperLoopID := v;
     lPriorCycles := lPriorCycles x; lTimer := lTimer x |}.

Definition set_lPriorCycles (v : list cycleSnapshot) (x : taskExecution) : taskExecution :=
  {| lTerminated := lTerminated x; lKey := lKey x; lTask := lTask x;
     lDeveloperOutput := lDeveloperOutput x;
     lDeveloperLLMRequestIDs := lDeveloperLLMRequestIDs x;
     lDeveloperFileIntents := lDeveloperFileIntents x;
     lValidationResults := lValidationResults x;
     lReviewerLLMRequestIDs := lReviewerLLMRequestIDs x;
     lReviewerParseError := lReviewerParseError x; lDeveloperLoopID := lDeveloperLoopID x;
     lPriorCycles := v; lTimer := lTimer x |}.

Definition set_lTimer (v : option nat) (x : taskExecution) : taskExecution :=
  {| lTerminated := lTerminated x; lKey := lKey x; lTask := lTask x;
     lDeveloperOutput := lDeveloperOutput x;
     lDeveloperLLMRequestIDs := lDeveloperLLMRequestIDs x;
     lDeveloperFileIntents := lDeveloperFileIntents x;
     lValidationResults := lValidationResults x;
     lReviewerLLMRequestIDs := lReviewerLLMRequestIDs x;
     lReviewerParseError := lReviewerParseError x; lDeveloperLoopID := lDeveloperLoopID x;
     lPriorCycles := lPriorCycles x; lTimer := v |}.

(** ** Access to an execution *)

Definition zero_live (o : nat) : taskExecution := MkLive false "" o "" [] [] [] [] "" "" [] None.

Definition live (w : XWorld) (o : nat) : taskExecution := default (zero_live o) (xwExecs w !! o).

(** [exec.Field = v] for a field of the embedded row, and for the others. *)
Definition upd (o : nat) (f : TaskExecution → TaskExecution) : X () :=
  modify (λ w, put_cell o (f (deref w o)) w).
Definition updl (o : nat) (f : taskExecution → taskExecution) : X () :=
  modify (λ w, set_xwExecs (<[o := f (live w o)]> (xwExecs w)) w).

Definition row (o : nat) : X TaskExecution := w ← xread; mret (deref w o).
Definition exec (o : nat) : X taskExecution := w ← xread; mret (live w o).

Definition unroute (taskID : string) : X () :=
  modify (λ w, set_xwRouting (delete taskID (xwRouting w)) w).
Definition route (taskID entityID : string) : X () :=
  modify (λ w, set_xwRouting (<[taskID := entityID]> (xwRouting w)) w).

(** ** Constants *)

Definition WorkflowSlugTaskExecution : string := "semspec-task-execution".
Definition stageDevelop : string := "develop".
Definition stageReview : string := "review".
Definition phaseDeveloping : string := "developing".
Definition phaseValidating : string := "validating".
Definition phaseReviewing : string := "reviewing".
Definition phaseApproved : string := "approved".
Definition phaseEscalated : string := "escalated".
Definition phaseError : string := "error".
Definition phaseValidationFailed : string := "validation_failed".
Definition phaseRejected : string := "rejected".
Definition rejectionTypeRestructure : string := "restructure".

(** How the attempts to merge ended. *)
Inductive merge_outcome :=
| MergeDone (r : MergeResult)
| MergeShutdown
| MergeGaveUp (needsReconciliation : bool) (text : string).

Section pipeline.
Context (E : ExecEnv).

Definition requireMergeObservation : bool := default true (xeRequireMergeObservation E).
Definition requireDeveloperDiff : bool := default true (xeRequireDeveloperDiff E).

(** [c.sandbox == nil]: [newWorktreeManager] makes a client of a non-empty
    URL. *)
Definition no_sandbox : bool := xeSandboxURL E =? "".

Definition syncToStore (o : nat) : X () :=
  x ← exec o; _ ← saveTask E (lKey x) o; mret ().

(** ** Timers *)

Definition stop_timer (o : nat) : X () :=
  modify (λ w, match lTimer (live w o) with
               | Some t => set_xwTimers (delete t (xwTimers w)) w
               | None => w
               end).

Definition startExecutionTimeout (o : nat) : X () :=
  w ← xread;
  let t := xwNext w in
  modify (λ w, set_xwNext (S t) (set_xwTimers (<[t := o]> (xwTimers w)) w));;
  updl o (set_lTimer (Some t)).

Definition resetTimeoutLocked (o : nat) : X () := stop_timer o;; startExecutionTimeout o.

Definition cleanupExecutionLocked (o : nat) : X () :=
  stop_timer o;;
  t ← row o;
  unroute (teDeveloperTaskID t);; unroute (teValidatorTaskID t);; unroute (teReviewerTaskID t);;
  modify (λ w, set_xwActive (delete (teEntityID t) (xwActive w)) w).

(** ** Worktrees *)

Definition createWorktree (o : nat) : X (option string) :=
  t ← row o; io ← xtick E;
  emit (EvCreateWorktree (teTaskID t) (teScenarioBranch t));;
  match xWorktree io with
  | inr err => mret (Some ("create worktree for task " +:+ teTaskID t +:+ ": " +:+ err))
  | inl (path, branch) =>
      upd o (λ t, set_teWorktreeBranch branch (set_teWorktreePath path t));; mret None
  end.

(** The error when the request cannot be built or the sandbox answers that
    the worktree is gone; not reaching it is no error. *)
Definition checkWorktreeExists (o : nat) : X (option string) :=
  t ← row o;
  if (xeSandboxURL E =? "") || (teWorktreePath t =? "") then mret None
  else io ← xtick E; mret (xWorktreeLost io).

Definition discardWorktree (o : nat) : X () :=
  t ← row o;
  if no_sandbox || (teWorktreePath t =? "") then mret ()
  else emit (EvDeleteWorktree (teTaskID t)).

(** ** Terminal states *)

Definition markErrorLocked (o : nat) (reason : string) : X () :=
  x ← exec o;
  if lTerminated x then mret () else
  updl o (set_lTerminated true);;
  discardWorktree o;;
  upd o (λ t, set_teErrorClass (ClassifyErrorReason reason)
                (set_teErrorReason reason (set_teStage phaseError t)));;
  syncToStore o;;
  cleanupExecutionLocked o.

(** [publishRecoveryRequested] *)
Definition emitRecoveryRequested (r : RecoveryRequested) : X () :=
  io ← xtick E;
  if RecoveryRequested_Validate r && negb (xMarshalErr io) && negb (xPublishErr io)
  then emit (EvRecovery r) else mret ().

Definition markEscalatedLocked (o : nat) (reason : string) : X () :=
  x ← exec o;
  if lTerminated x then mret () else
  updl o (set_lTerminated true);;
  discardWorktree o;;
  upd o (λ t, set_teEscalationReason reason (set_teStage phaseEscalated t));;
  syncToStore o;;
  t ← row o;
  reqExec ← getReq E (RequirementExecutionKey (teSlug t) (teRequirementID t));
  io ← xtick E;
  emitRecoveryRequested
    {| rrRecoveryID := xUUID io; rrLayer := "phase_local"; rrSlug := teSlug t;
       rrRequirementID := teRequirementID t; rrAffectedRequirementIDs := [];
       rrAffectedStoryIDs := default [] (reSortedStoryIDs <$> reqExec); rrTaskID := teTaskID t;
       rrLoopID := lDeveloperLoopID x; rrEscalationReason := reason;
       rrLastFailureFeedback := teFeedback t; rrPriorRecoveryID := ""; rrTraceID := teTraceID t |};;
  cleanupExecutionLocked o.

(** The trailers of the merge commit. *)
Definition merge_trailers (t : TaskExecution) : list (string * string) :=
  ([("Task-ID", teTaskID t); ("Plan-Slug", teSlug t)] ++
   (if teRequirementID t !=? "" then [("Requirement-ID", teRequirementID t)] else []) ++
   (if teLoopID t !=? "" then [("Loop-ID", teLoopID t)] else []) ++
   (if teTraceID t !=? "" then [("Trace-ID", teTraceID t)] else []))%list.

(** [for attempt := range 3] *)
Fixpoint merge_attempts (n : nat) (o : nat) (t : TaskExecution) (last : merge_outcome) :
    X merge_outcome :=
  match n with
  | O => mret last
  | S n =>
      io ← xtick E;
      let ok := match xMerge io with Merged _ => true | MergeFailed _ _ => false end in
      emit (EvMergeWorktree o (teTaskID t) (teScenarioBranch t)
              ("feat(" +:+ teSlug t +:+ "): " +:+ teTaskID t) (merge_trailers t) ok);;
      match xMerge io with
      | Merged r => mret (MergeDone r)
      | MergeFailed needsReconciliation text =>
          if xShutdown io then mret MergeShutdown
          else if needsReconciliation then mret (MergeGaveUp true text)
          else merge_attempts n o t (MergeGaveUp false text)
      end
  end.

(** [None] is success; the flag of an error is
    [errors.Is(err, sandbox.ErrNeedsReconciliation)]. *)
Definition mergeWorktree (o : nat) : X (option (bool * string)) :=
  t ← row o;
  if no_sandbox || (teWorktreePath t =? "") then mret None else
  lost ← checkWorktreeExists o;
  match lost with
  | Some err => mret (Some (false, "merge worktree: " +:+ err))
  | None =>
  r ← merge_attempts 3 o t (MergeGaveUp false "");
  match r with
  | MergeShutdown => mret None
  | MergeGaveUp rec text => mret (Some (rec, "merge worktree after retries: " +:+ text))
  | MergeDone r =>
      if requireMergeObservation && negb (is_nil (teFilesModified t)) &&
         (mgNothingToCommit r || (mgCommit r =? ""))
      then mret (Some (false, "merge claim/observation mismatch: developer reported " +:+
             pretty (length (teFilesModified t)) +:+
             " files but sandbox produced no commit (nothing_to_commit=" +:+
             (if mgNothingToCommit r then "true" else "false") +:+ ")"))
      else
        upd o (λ t, set_teMergeCommit (mgCommit r)
                      (if is_nil (mgFilesChanged r) then t
                       else set_teFilesModified (mgFilesChanged r) t));;
        mret None
  end
  end.

Definition markApprovedLocked (o : nat) : X () :=
  x ← exec o;
  if lTerminated x then mret () else
  err ← mergeWorktree o;
  match err with
  | Some (needsReconciliation, text) =>
      let reason := "merge_failed: " +:+ text in
      markErrorLocked o (if needsReconciliation : bool then "INFRASTRUCTURE: " +:+ reason else reason)
  | None =>
      updl o (set_lTerminated true);;
      upd o (set_teStage phaseApproved);;
      syncToStore o;;
      cleanupExecutionLocked o
  end.

(** ** Dispatch *)

(** The terminal stage of the parent requirement, if it is terminal. *)
Definition parentRequirementTerminated (o : nat) : X (option string) :=
  t ← row o;
  if teRequirementID t =? "" then mret None else
  req ← getReq E (RequirementExecutionKey (teSlug t) (teRequirementID t));
  mret (match req with
        | Some r => if IsTerminalReqStage (reStage r) then Some (reStage r) else None
        | None => None
        end).

Definition readPlan (slug : string) : X (Plan + string) :=
  if slug =? "" then mret (inr "plan slug is empty")
  else io ← xtick E; mret (xPlan io).

Definition lookupRecoveryHint (slug requirementID : string) : X string :=
  if (slug =? "") || (requirementID =? "") then mret "" else
  plan ← readPlan slug;
  mret (match plan with
        | inl p => match find_by rID (pRequirements p) requirementID with
                   | Some (_, r) => rRecoveryHint r
                   | None => ""
                   end
        | inr _ => ""
        end).

(** The publication of a task fails silently. *)
Definition publishTask (o : nat) (subject : string) (m : TaskMessage) : X () :=
  io ← xtick E;
  if xMarshalErr io || xPublishErr io then mret () else emit (EvAgentTask o subject m).

(** The two guards in front of every dispatch; [true]: the execution was
    ended here. *)
Definition dispatch_refused (o : nat) : X bool :=
  stage ← parentRequirementTerminated o;
  match stage with
  | Some stage => markErrorLocked o ("parent_requirement_" +:+ stage);; mret true
  | None =>
      lost ← checkWorktreeExists o;
      match lost with
      | Some _ => markErrorLocked o "worktree_lost";; mret true
      | None => mret false
      end
  end.

Definition developer_prompt (t : TaskExecution) (prior : list cycleSnapshot) (hint : string) :
    string :=
  let history := summarizeCycleHistory prior in
  let sep := nl +:+ nl +:+ "---" +:+ nl +:+ nl in
  tePrompt t +:+
  (if (0 <? teTDDCycle t)%Z && (teFeedback t !=? "")
   then sep +:+ "REVISION REQUEST: Your previous implementation was rejected." +:+ nl +:+ nl +:+
        teFeedback t else "") +:+
  (if history !=? "" then sep +:+ history else "") +:+
  (if hint !=? ""
   then sep +:+ "MANAGER RECOVERY GUIDANCE (from a manager-role analysis of your prior cycle's wedge — apply this BEFORE re-attempting the same approach):" +:+ nl +:+ nl +:+ hint
   else "").

Definition dispatchDeveloperLocked (o : nat) : X () :=
  refused ← dispatch_refused o;
  if refused : bool then mret () else
  t ← row o;
  plan ← readPlan (teSlug t);
  match plan with
  | inr err => markErrorLocked o ("developer prompt plan context unavailable: " +:+ err)
  | inl plan =>
      x ← exec o;
      hint ← lookupRecoveryHint (teSlug t) (teRequirementID t);
      io ← xtick E;
      let taskID := "dev-" +:+ teEntityID t +:+ "-" +:+ xUUID io in
      upd o (set_teDeveloperTaskID taskID);;
      route taskID (teEntityID t);;
      publishTask o "agent.task.development"
        {| tmTaskID := taskID; tmRole := RoleGeneral; tmModel := xeModel E;
           tmWorkflowSlug := WorkflowSlugTaskExecution; tmWorkflowStep := stageDevelop;
           tmPrompt := developer_prompt t (lPriorCycles x) hint;
           tmContext := xeSystemPrompt E "developer" t plan (xeModel E);
           tmPlanSlug := teSlug t; tmMetaTaskID := teTaskID t |}
  end.

Definition reviewer_prompt (t : TaskExecution) (parseError : string) : string :=
  (if parseError !=? "" then
     "## Previous attempt failed" +:+ nl +:+ nl +:+ "Your previous response could not be parsed:" +:+
     nl +:+ nl +:+ "```" +:+ nl +:+ parseError +:+ nl +:+ "```" +:+ nl +:+ nl +:+
     "Produce a valid response this time. Address the parse failure above; the review subject below has not changed."
     +:+ nl +:+ nl
   else "") +:+
  "Task: " +:+ teTitle t +:+
  (if is_nil (teFilesModified t) then ""
   else nl +:+ "Files modified: " +:+ Join (teFilesModified t) ", ").

Definition dispatchReviewerLocked (o : nat) : X () :=
  refused ← dispatch_refused o;
  if refused : bool then mret () else
  t ← row o;
  plan ← readPlan (teSlug t);
  match plan with
  | inr err => markErrorLocked o ("reviewer prompt plan context unavailable: " +:+ err)
  | inl plan =>
      x ← exec o;
      io ← xtick E;
      let taskID := "rev-" +:+ teEntityID t +:+ "-" +:+ xUUID io in
      upd o (set_teReviewerTaskID taskID);;
      route taskID (teEntityID t);;
      publishTask o "agent.task.reviewer"
        {| tmTaskID := taskID; tmRole := RoleReviewer; tmModel := xeReviewerModel E;
           tmWorkflowSlug := WorkflowSlugTaskExecution; tmWorkflowStep := stageReview;
           tmPrompt := reviewer_prompt t (lReviewerParseError x);
           tmContext := xeSystemPrompt E "reviewer" t plan (xeReviewerModel E);
           tmPlanSlug := teSlug t; tmMetaTaskID := teTaskID t |}
  end.

(** [dispatchFirstStage] *)
Definition dispatchFirstStage (o : nat) : X () := dispatchDeveloperLocked o.

(** ** Retry *)

Definition render_listing (files : list FileEntry) : string :=
  nl +:+ nl +:+ "Files in your working directory from previous iterations:" +:+ nl +:+
  concat_strings ((λ f, if feIsDir f then "  " +:+ feName f +:+ "/ (directory)" +:+ nl
                        else "  " +:+ feName f +:+ " (" +:+ pretty (feSize f) +:+ " bytes)" +:+ nl)
                  <$> files).

Definition startDeveloperRetryLocked (o : nat) (feedback : string) : X () :=
  upd o (λ t, set_teReviewRetryCount 0 (set_teRejectionType "" (set_teVerdict ""
    (set_teValidationPassed false (set_teFilesModified []
      (set_teTDDCycle (teTDDCycle t + 1)%Z t))))));;
  updl o (λ x, set_lReviewerLLMRequestIDs [] (set_lValidationResults []
    (set_lDeveloperLLMRequestIDs [] (set_lDeveloperFileIntents [] (set_lDeveloperOutput "" x)))));;
  t ← row o;
  listing ← (if no_sandbox || (teWorktreePath t =? "") then mret ""
             else io ← xtick E;
                  mret (match xFiles io with
                        | Some files => if is_nil files then "" else render_listing files
                        | None => ""
                        end));
  upd o (λ t, set_teStage phaseDeveloping (set_teFeedback (feedback +:+ listing) t));;
  syncToStore o;;
  dispatchDeveloperLocked o.

Definition routeFixableRejection (o : nat) (feedback : string) : X () :=
  t ← row o;
  if (teTDDCycle t + 1 <? teMaxTDDCycles t)%Z
  then startDeveloperRetryLocked o feedback
  else markEscalatedLocked o "fixable rejections exceeded TDD cycle budget".

(** ** Validation *)

Definition handleValidationFailedLocked (o : nat) : X () :=
  upd o (set_teStage phaseValidationFailed);;
  syncToStore o;;
  x ← exec o;
  match ownershipPlanningGap (lValidationResults x) with
  | Some detail => markEscalatedLocked o ("planning gap (ADR-049 ownership): " +:+ detail)
  | None =>
      t ← row o;
      if (teTDDCycle t + 1 <? teMaxTDDCycles t)%Z
      then startDeveloperRetryLocked o (buildValidationFailureFeedback (lValidationResults x))
      else markEscalatedLocked o "validation failures exceeded TDD cycle budget"
  end.

(** Up to [exec.mu.Unlock()]: the request is out and the execution waits. *)
Definition dispatchValidatorLocked (o : nat) : X () :=
  refused ← dispatch_refused o;
  if refused : bool then mret () else
  t ← row o;
  emit (EvValidate o (teFilesModified t) (teFileScope t) (teWorktreePath t));;
  modify (λ w, set_xwValidating (o :: xwValidating w) w).

(** From [exec.mu.Lock()]: the validator has answered, or not. *)
Definition validationDoneLocked (o : nat) (answer : ValidationResult + string) : X () :=
  modify (λ w, set_xwValidating (filter (λ a, a ≠ o) (xwValidating w)) w);;
  x ← exec o;
  if lTerminated x then mret () else
  match answer with
  | inr err => markEscalatedLocked o ("structural validation error: " +:+ err)
  | inl result =>
      upd o (set_teValidationPassed (vrPassed result));;
      updl o (set_lValidationResults (vrCheckResults result));;
      if negb (vrPassed result) then handleValidationFailedLocked o else
      upd o (set_teStage phaseReviewing);;
      syncToStore o;;
      dispatchReviewerLocked o
  end.

(** ** Developer complete *)

Definition developerWorkClean (o : nat) : X bool :=
  t ← row o;
  if no_sandbox || (teTaskID t =? "") then mret false else
  io ← xtick E;
  mret (match xGitStatus io with
        | Some output => TrimSpace output =? ""
        | None => false
        end).

Definition developerLeakedToWorkspace (o : nat) : X (list string) :=
  t ← row o;
  if no_sandbox || is_nil (teFilesModified t) then mret [] else
  io ← xtick E;
  mret (match xGitStatus io with
        | Some output => leaked_files output (teFilesModified t)
        | None => []
        end).

Definition scope_hint (t : TaskExecution) : string :=
  if is_nil (teFileScope t) then ""
  else " Work only inside the declared file scope: " +:+ Join (teFileScope t) ", " +:+ ".".

Definition no_submission (t : TaskExecution) : string :=
  "Your previous attempt ended without a valid submit_work call. You must call submit_work with a summary, a non-empty files_modified array, and one file_intents entry for every files_modified path before stopping. If you asked a question and did not get an answer, make reasonable assumptions from the plan and scenarios and continue — do not stop the loop waiting for an answer."
  +:+ scope_hint t.

Definition empty_submission (t : TaskExecution) : string :=
  "Your previous submit_work had an empty files_modified array. You must write at least one file before calling submit_work. Create the implementation and test files called for by the scenarios, then submit again with the list of files you created or modified and one file_intents entry for each path."
  +:+ scope_hint t.

Definition leaked_feedback (leaked : list string) : string :=
  "Your `git status` in your worktree is empty, but the parent fixture root (`/workspace`) has uncommitted changes to: "
  +:+ Join leaked ", " +:+
  ". You likely ran `cd /workspace && cat > <file>` or similar — those writes land in the parent fixture, NOT your worktree, so they do NOT count as your contribution. Your bash starts with cwd=your worktree. Use relative paths or paths inside your worktree. Do NOT `cd /workspace` to write files.".

Definition mismatch_feedback (files : list string) : string :=
  "Your submit_work claimed to modify " +:+ pretty (length files) +:+ " file(s) (" +:+
  Join files ", " +:+
  ") but `git status` against your worktree shows NO changes. Reading a file with `cat` is not modifying it. You must use bash to actually write the files before calling submit_work — for example: `cat > main.go << 'EOF' ... EOF`, or `tee path < input`, or `sed -i 's/old/new/' path`. Verify with `bash('git status')` BEFORE submit_work — if the output is empty, you have not written anything yet. Re-implement the work and submit again.".

Definition handleDeveloperCompleteLocked (event : LoopCompletedEvent) (o : nat) : X () :=
  resetTimeoutLocked o;;
  t ← row o;
  unroute (teDeveloperTaskID t);;
  (if lcLoopID event !=? "" then updl o (set_lDeveloperLoopID (lcLoopID event)) else mret ());;
  if lcOutcome event !=? OutcomeSuccess
  then routeFixableRejection o (buildLoopFailureFeedback event) else
  let parsed := xeUnmarshalDeveloper E (ExtractJSON (lcResult event)) in
  match parsed with
  | Some result =>
      upd o (set_teFilesModified (drFilesModified result));;
      updl o (λ x, set_lDeveloperLLMRequestIDs (drLLMRequestIDs result)
        (set_lDeveloperOutput (drOutput result)
          (set_lDeveloperFileIntents (drFileIntents result) x)))
  | None => mret ()
  end;;
  t ← row o;
  if bool_decide (parsed = None) || is_nil (teFilesModified t) then
    routeFixableRejection o
      (if bool_decide (parsed = None) then no_submission t else empty_submission t)
  else
  clean ← (if requireDeveloperDiff then developerWorkClean o else mret false);
  if clean : bool then
    leaked ← developerLeakedToWorkspace o;
    routeFixableRejection o
      (if is_nil leaked then mismatch_feedback (teFilesModified t) else leaked_feedback leaked)
  else
  upd o (set_teStage phaseValidating);;
  syncToStore o;;
  dispatchValidatorLocked o.

(** ** Reviewer complete *)

(** [phases.ValidateVerdict]: [None] for a recognised verdict. *)
Definition ValidateVerdict (verdict : string) : option string :=
  let expected := "must be " +:+ dq +:+ "approved" +:+ dq +:+ ", " +:+ dq +:+ "rejected" +:+ dq +:+
                  ", or " +:+ dq +:+ "needs_changes" +:+ dq in
  if (verdict =? "approved") || (verdict =? "rejected") || (verdict =? "needs_changes") then None
  else if verdict =? "" then Some ("verdict is empty — " +:+ expected)
  else Some ("invalid verdict " +:+ xeQuote E verdict +:+ " — " +:+ expected).

(** The result, and whether the answer could be used. *)
Definition parseCodeReviewResult (raw : string) : TaskCodeReviewResult * bool :=
  let '(result, parsed) := xeUnmarshalReview E (ExtractJSON raw) in
  let rejected feedback := set_crFeedback feedback (set_crRejectionType "fixable"
                             (set_crVerdict "rejected" result)) in
  if negb parsed then (rejected "parse failure — could not read reviewer response", false)
  else match ValidateVerdict (crVerdict result) with
       | Some err => (rejected ("invalid verdict from reviewer: " +:+ err), false)
       | None => (result, true)
       end.

Definition appendCycleSnapshot (o : nat) (result : TaskCodeReviewResult) : X () :=
  t ← row o;
  updl o (λ x, set_lPriorCycles (push_cycle
    {| csCycle := teTDDCycle t; csLoopID := lDeveloperLoopID x; csVerdict := crVerdict result;
       csRejectionType := crRejectionType result; csFeedback := clip_feedback (crFeedback result);
       csFilesModified := teFilesModified t |} (lPriorCycles x)) x).

Definition handleRejectionLocked (o : nat) (result : TaskCodeReviewResult) : X () :=
  upd o (set_teStage phaseRejected);;
  appendCycleSnapshot o result;;
  if crRejectionType result =? rejectionTypeRestructure
  then markEscalatedLocked o ("restructure rejection: " +:+ crRejectionType result)
  else routeFixableRejection o (enrichFeedback (xeCategories E) (crFeedback result)).

Definition shouldDispatchPositiveLesson (t : TaskExecution) : bool :=
  xeEnablePositiveLessons E && bool_decide (teTDDCycle t = 0%Z) &&
  bool_decide (teReviewRetryCount t = 0%Z).

(** With the request's own [Validate] as a guard. *)
Definition publishLessonDecomposeRequest (o : nat) (verdict feedback reviewerLoopID : string) :
    X () :=
  t ← row o; x ← exec o; io ← xtick E;
  if (teSlug t =? "") || (verdict =? "") ||
     ((teLoopID t =? "") && (lDeveloperLoopID x =? "") && (reviewerLoopID =? "")) ||
     xMarshalErr io || xPublishErr io then mret () else
  emit (EvLesson
    {| lrSlug := teSlug t; lrTaskID := teTaskID t; lrRequirementID := teRequirementID t;
       lrScenarioID := teTaskID t; lrLoopID := teLoopID t; lrDeveloperLoopID := lDeveloperLoopID x;
       lrReviewerLoopID := reviewerLoopID; lrVerdict := verdict; lrFeedback := feedback |}).

Definition summarizeReviewerParseFailure (rawResult : string) : string :=
  if rawResult =? ""
  then "Reviewer agent returned an empty response. Emit a verdict object with the required fields."
  else xeTruncateRunes E rawResult 800.

Definition max_review_retries : Z :=
  if bool_decide (xeMaxReviewRetries E = 0%Z) then 3%Z else xeMaxReviewRetries E.

Definition handleReviewerCompleteLocked (event : LoopCompletedEvent) (o : nat) : X () :=
  resetTimeoutLocked o;;
  t ← row o;
  unroute (teReviewerTaskID t);;
  if lcOutcome event !=? OutcomeSuccess
  then routeFixableRejection o (buildLoopFailureFeedback event) else
  let '(result, ok) := parseCodeReviewResult (lcResult event) in
  if negb ok && (teReviewRetryCount t <? max_review_retries)%Z then
    upd o (λ t, set_teReviewRetryCount (teReviewRetryCount t + 1)%Z t);;
    updl o (set_lReviewerParseError (summarizeReviewerParseFailure (lcResult event)));;
    syncToStore o;;
    startExecutionTimeout o;;
    dispatchReviewerLocked o
  else
  updl o (set_lReviewerParseError "");;
  upd o (λ t, set_teFeedback (crFeedback result) (set_teRejectionType (crRejectionType result)
                (set_teVerdict (crVerdict result) t)));;
  updl o (set_lReviewerLLMRequestIDs (crLLMRequestIDs result));;
  if crVerdict result =? "approved" then
    t ← row o;
    (if shouldDispatchPositiveLesson t
     then publishLessonDecomposeRequest o (crVerdict result) (crFeedback result) (lcLoopID event)
     else mret ());;
    markApprovedLocked o
  else
    publishLessonDecomposeRequest o (crVerdict result) (crFeedback result) (lcLoopID event);;
    handleRejectionLocked o result.

(** ** Start and cancellation *)

(** [initTaskExecution] (task_watcher.go) *)
Definition initTaskExecution (o : nat) : X () :=
  modify (λ w, set_xwStarting (filter (λ a, a ≠ o) (xwStarting w)) w);;
  syncToStore o;;
  err ← createWorktree o;
  match err with
  | Some err => markErrorLocked o ("worktree_creation_failed: " +:+ err)
  | None => startExecutionTimeout o;; dispatchFirstStage o
  end.

(** [currentStageTaskID] (loop_completions.go) *)
Definition currentStageTaskID (t : TaskExecution) : string :=
  if (teStage t =? phaseDeveloping) || (teStage t =? "testing") || (teStage t =? "building")
  then teDeveloperTaskID t
  else if teStage t =? phaseReviewing then teReviewerTaskID t else "".

(** [findLoopIDForTask] (req_watcher.go) on the loops that could be read. *)
Fixpoint findLoopIDForTask (loops : list LoopEntity) (taskID : string) : option string :=
  match loops with
  | [] => None
  | l :: loops =>
      if leTaskID l !=? taskID then findLoopIDForTask loops taskID
      else if leTerminal l then None else Some (leID l)
  end.

Definition cancelChild (slug requirementID reason : string) (entityID : string) : X () :=
  w ← xread;
  match xwActive w !! entityID with
  | None => mret ()
  | Some o =>
      let t := deref w o in
      if lTerminated (live w o) then mret () else
      if (teRequirementID t !=? requirementID) || (teSlug t !=? slug) then mret () else
      (let taskID := currentStageTaskID t in
       if taskID =? "" then mret () else
       io ← xtick E;
       match xLoops io ≫= λ loops, findLoopIDForTask loops taskID with
       | None => mret ()
       | Some loopID =>
           io ← xtick E;
           if xMarshalErr io || xPublishErr io then mret () else emit (EvCancel loopID reason)
       end);;
      markErrorLocked o reason
  end.

(** [cancelChildrenForRequirement] (req_watcher.go) *)
Definition cancelChildrenForRequirement (slug requirementID reason : string) : X () :=
  if requirementID =? "" then mret () else
  w ← xread;
  xfor (keys_of E w (xwActive w)) (cancelChild slug requirementID reason).
End pipeline.
