(* ===== verification/ExecMutations.v ===== *)
(** * Mutations of the execution states

    processor/execution-manager/mutations.go: the nine request handlers
    through which other components change EXECUTION_STATES, whole.  A handler
    is given the decoded request and answers an [exec_reply]. *)

From S2P Require Import Prelude Paths Types PlanStore ExecTypes Feedback ExecStore TddPipeline.

Local Open Scope string_scope.
Local Open Scope go_scope.

(** Why a request was refused. *)
Inductive exec_refusal :=
| RMissingFields
| RTaskExists (key : string)
| RReqExists (key : string)
| RTaskNotFound (key : string)
| RReqNotFound (key : string)
| RNotFound (key : string)
| RNotTerminalStage (stage : string)
| RSaveFailed (e : exec_error)
| RDeleteFailed (e : exec_error)
| RExpectedSource (expected found : string)
| RAlreadyAtStage (stage : string).

(** [ExecMutationResponse] *)
Inductive exec_reply :=
| ExecOK (key : string) (resetCount : Z)
| ExecRefused (r : exec_refusal).

Definition ok_reply : exec_reply := ExecOK "" 0.

Definition saved (err : option exec_error) (reply : exec_reply) : exec_reply :=
  match err with Some e => ExecRefused (RSaveFailed e) | None => reply end.

(** [if v != "" { field = v }] and [if p != nil { field = *p }] *)
Definition when_set {T} (v : string) (f : string → T → T) (x : T) : T :=
  if v !=? "" then f v x else x.
Definition when_some {A T} (v : option A) (f : A → T → T) (x : T) : T :=
  match v with Some a => f a x | None => x end.
Definition when_any {A T} (v : list A) (f : list A → T → T) (x : T) : T :=
  if is_nil v then x else f v x.

Section handlers.
Context (E : ExecEnv).

(** ** Tasks *)

Definition new_task (req : TaskCreateRequest) (now : Z) : TaskExecution :=
  {| teEntityID := xeTaskEntityID E (tcSlug req) (tcTaskID req); teSlug := tcSlug req;
     teTaskID := tcTaskID req; teRequirementID := tcRequirementID req; teStage := "pending";
     teTDDCycle := 0;
     teMaxTDDCycles := if bool_decide (tcMaxTDDCycles req = 0%Z) then xeMaxTDDCycles E
                       else tcMaxTDDCycles req;
     teTitle := tcTitle req; teDescription := tcDescription req; teProjectID := tcProjectID req;
     tePrompt := tcPrompt req; teModel := tcModel req; teTraceID := tcTraceID req;
     teLoopID := tcLoopID req; teRequestID := tcRequestID req; teTaskType := tcTaskType req;
     teAgentID := tcAgentID req; teWorktreePath := tcWorktreePath req;
     teWorktreeBranch := tcWorktreeBranch req; teScenarioBranch := tcScenarioBranch req;
     teFileScope := tcFileScope req; teScenarios := tcScenarios req; teFilesModified := [];
     teTestsPassed := false; teValidationPassed := false; teMergeCommit := "";
     teDeveloperTaskID := ""; teValidatorTaskID := ""; teReviewerTaskID := ""; teVerdict := "";
     teRejectionType := ""; teFeedback := ""; teReviewRetryCount := 0; teErrorReason := "";
     teErrorClass := ""; teEscalationReason := ""; teCreatedAt := now; teUpdatedAt := now |}.

Definition handleTaskCreateMutation (req : TaskCreateRequest) : X exec_reply :=
  if (tcSlug req =? "") || (tcTaskID req =? "") then mret (ExecRefused RMissingFields) else
  let key := TaskExecutionKey (tcSlug req) (tcTaskID req) in
  existing ← getTask E key;
  match existing with
  | Some _ => mret (ExecRefused (RTaskExists key))
  | None =>
      io ← xtick E;
      a ← alloc (new_task req (xNow io));
      err ← saveTask E key a;
      mret (saved err (ExecOK key 0))
  end.

(** A handler that changes the copy [getTask] returns and saves it. *)
Definition change_task (key : string) (f : TaskExecution → TaskExecution) : X exec_reply :=
  exec ← getTask E key;
  match exec with
  | None => mret (ExecRefused (RTaskNotFound key))
  | Some t => a ← alloc (f t); err ← saveTask E key a; mret (saved err ok_reply)
  end.

Definition apply_task_phase (req : TaskPhaseRequest) (t : TaskExecution) : TaskExecution :=
  when_set (tpReviewerTaskID req) set_teReviewerTaskID
  (when_set (tpValidatorTaskID req) set_teValidatorTaskID
  (when_set (tpDeveloperTaskID req) set_teDeveloperTaskID
  (when_set (tpEscalationReason req) set_teEscalationReason
  (when_set (tpErrorClass req) set_teErrorClass
  (when_set (tpErrorReason req) set_teErrorReason
  (when_some (tpValidationPassed req) set_teValidationPassed
  (when_some (tpTestsPassed req) set_teTestsPassed
  (when_any (tpFilesModified req) set_teFilesModified
  (when_set (tpFeedback req) set_teFeedback
  (when_set (tpRejectionType req) set_teRejectionType
  (when_set (tpVerdict req) set_teVerdict
  (when_some (tpTDDCycle req) set_teTDDCycle
  (set_teStage (tpStage req) t))))))))))))).

Definition handleTaskPhaseMutation (req : TaskPhaseRequest) : X exec_reply :=
  if (tpKey req =? "") || (tpStage req =? "") then mret (ExecRefused RMissingFields) else
  change_task (tpKey req) (apply_task_phase req).

Definition apply_task_complete (req : TaskCompleteRequest) (t : TaskExecution) : TaskExecution :=
  when_set (tkEscalationReason req) set_teEscalationReason
  (when_set (tkErrorReason req) set_teErrorReason
  (when_set (tkFeedback req) set_teFeedback
  (when_set (tkVerdict req) set_teVerdict (set_teStage (tkStage req) t)))).

Definition handleTaskCompleteMutation (req : TaskCompleteRequest) : X exec_reply :=
  if (tkKey req =? "") || (tkStage req =? "") then mret (ExecRefused RMissingFields) else
  if negb (IsTerminalTaskStage (tkStage req))
  then mret (ExecRefused (RNotTerminalStage (tkStage req))) else
  change_task (tkKey req) (apply_task_complete req).

(** ** Requirements *)

Definition new_req (req : ReqCreateRequest) (now : Z) : RequirementExecution :=
  {| reEntityID := xeReqEntityID E (rcSlug req) (rcRequirementID req); reSlug := rcSlug req;
     reRequirementID := rcRequirementID req; reStage := "pending"; reTitle := rcTitle req;
     reDescription := rcDescription req; reProjectID := rcProjectID req;
     reTraceID := rcTraceID req; reLoopID := rcLoopID req; reRequestID := rcRequestID req;
     reModel := rcModel req; reScenarios := rcScenarios req; reDependsOn := rcDependsOn req;
     rePrompt := rcPrompt req; reRole := rcRole req; rePlanBranch := rcPlanBranch req;
     reBaseBranch := rcBaseBranch req; reSortedStoryIDs := []; reCurrentStoryIdx := 0;
     reNodeCount := 0; reCurrentNodeIdx := -1; reDAGRaw := ""; reSortedNodeIDs := [];
     reNodeResults := []; reScenarioVerdicts := []; reCurrentNodeTaskID := "";
     reReviewerTaskID := ""; reRequirementBranch := ""; reReviewVerdict := "";
     reReviewFeedback := ""; reErrorReason := ""; reErrorClass := ""; reRetryCount := 0;
     reMaxRetries := 0; reCreatedAt := now; reUpdatedAt := now |}.

Definition handleReqCreateMutation (req : ReqCreateRequest) : X exec_reply :=
  if (rcSlug req =? "") || (rcRequirementID req =? "") then mret (ExecRefused RMissingFields) else
  let key := RequirementExecutionKey (rcSlug req) (rcRequirementID req) in
  existing ← getReq E key;
  refused ← (match existing with
             | None => mret None
             | Some _ =>
                 if negb (rcForce req) then mret (Some (RReqExists key)) else
                 err ← deleteReq E key;
                 mret (RDeleteFailed <$> err)
             end);
  match refused with
  | Some r => mret (ExecRefused r)
  | None =>
      io ← xtick E;
      err ← saveReq E key (new_req req (xNow io));
      mret (saved err (ExecOK key 0))
  end.

Definition change_req (key : string) (f : RequirementExecution → RequirementExecution) :
    X exec_reply :=
  exec ← getReq E key;
  match exec with
  | None => mret (ExecRefused (RReqNotFound key))
  | Some r => err ← saveReq E key (f r); mret (saved err ok_reply)
  end.

Definition apply_req_phase (req : ReqPhaseRequest) (r : RequirementExecution) :
    RequirementExecution :=
  when_any (rpScenarioVerdicts req) set_reScenarioVerdicts
  (when_any (rpNodeResults req) set_reNodeResults
  (when_some (rpCurrentStoryIdx req) set_reCurrentStoryIdx
  (when_any (rpSortedStoryIDs req) set_reSortedStoryIDs
  (when_any (rpSortedNodeIDs req) set_reSortedNodeIDs
  (when_set (rpDAGRaw req) set_reDAGRaw
  (when_set (rpRequirementBranch req) set_reRequirementBranch
  (when_set (rpReviewerTaskID req) set_reReviewerTaskID
  (when_set (rpCurrentNodeTaskID req) set_reCurrentNodeTaskID
  (when_set (rpErrorClass req) set_reErrorClass
  (when_set (rpErrorReason req) set_reErrorReason
  (when_set (rpReviewFeedback req) set_reReviewFeedback
  (when_set (rpReviewVerdict req) set_reReviewVerdict
  (when_some (rpCurrentNodeIdx req) set_reCurrentNodeIdx
  (when_some (rpNodeCount req) set_reNodeCount
  (set_reStage (rpStage req) r))))))))))))))).

Definition handleReqPhaseMutation (req : ReqPhaseRequest) : X exec_reply :=
  if (rpKey req =? "") || (rpStage req =? "") then mret (ExecRefused RMissingFields) else
  change_req (rpKey req) (apply_req_phase req).

Definition apply_req_node (req : ReqNodeRequest) (r : RequirementExecution) :
    RequirementExecution :=
  when_some (rnNodeResult req) (λ n r, set_reNodeResults (reNodeResults r ++ [n])%list r)
  (when_set (rnCurrentNodeTaskID req) set_reCurrentNodeTaskID
  (when_some (rnCurrentNodeIdx req) set_reCurrentNodeIdx r)).

Definition handleReqNodeMutation (req : ReqNodeRequest) : X exec_reply :=
  if rnKey req =? "" then mret (ExecRefused RMissingFields) else
  change_req (rnKey req) (apply_req_node req).

Definition handleReqResetNodeResultsMutation (req : ReqResetNodeResultsRequest) : X exec_reply :=
  if rxKey req =? "" then mret (ExecRefused RMissingFields) else
  exec ← getReq E (rxKey req);
  match exec with
  | None => mret ok_reply
  | Some r =>
      err ← saveReq E (rxKey req) (set_reNodeResults (rxNodeResults req) r);
      mret (saved err ok_reply)
  end.

(** ** Reset *)

Definition resetRequirementFamily (slug reqID : string) : X exec_reply :=
  cancelChildrenForRequirement E slug reqID "requirement_reset";;
  tasks ← listTasksForSlug E slug;
  n ← xcount tasks 0 (λ t,
        if teRequirementID t !=? reqID then mret (inl false) else
        err ← deleteReq E (TaskExecutionKey slug (teTaskID t));
        mret (match err with Some e => inr e | None => inl true end));
  match n with
  | inr e => mret (ExecRefused (RDeleteFailed e))
  | inl n =>
      let reqKey := RequirementExecutionKey slug reqID in
      req ← getReq E reqKey;
      match req with
      | None => mret (ExecOK "" n)
      | Some _ =>
          err ← deleteReq E reqKey;
          mret (match err with
                | Some e => ExecRefused (RDeleteFailed e)
                | None => ExecOK "" (n + 1)
                end)
      end
  end.

Definition handleReqResetMutation (req : ReqResetRequest) : X exec_reply :=
  if (rsSlug req !=? "") && (rsRequirementID req !=? "")
  then resetRequirementFamily (rsSlug req) (rsRequirementID req) else
  if rsKey req =? "" then mret (ExecRefused RMissingFields) else
  reqExec ← getReq E (rsKey req);
  match reqExec with
  | Some r => cancelChildrenForRequirement E (reSlug r) (reRequirementID r) "requirement_reset"
  | None => mret ()
  end;;
  err ← deleteReq E (rsKey req);
  mret (match err with Some e => ExecRefused (RDeleteFailed e) | None => ok_reply end).

(** ** Claim *)

(** [None]: the claim may go on. *)
Definition claimStageGuard (req : ExecClaimRequest) (current : string) : option exec_refusal :=
  if (ecExpectedFromStage req !=? "") && (current !=? ecExpectedFromStage req)
  then Some (RExpectedSource (ecExpectedFromStage req) current)
  else if current =? ecStage req then Some (RAlreadyAtStage (ecStage req))
  else None.

Definition handleExecClaimMutation (req : ExecClaimRequest) : X exec_reply :=
  if (ecKey req =? "") || (ecStage req =? "") then mret (ExecRefused RMissingFields) else
  task ← getTask E (ecKey req);
  match task with
  | Some t =>
      match claimStageGuard req (teStage t) with
      | Some r => mret (ExecRefused r)
      | None =>
          a ← alloc (set_teStage (ecStage req) t);
          err ← saveTask E (ecKey req) a; mret (saved err ok_reply)
      end
  | None =>
      q ← getReq E (ecKey req);
      match q with
      | Some r =>
          match claimStageGuard req (reStage r) with
          | Some e => mret (ExecRefused e)
          | None =>
              err ← saveReq E (ecKey req) (set_reStage (ecStage req) r);
              mret (saved err ok_reply)
          end
      | None => mret (ExecRefused (RNotFound (ecKey req)))
      end
  end.
End handlers.

(** The subjects and their handlers. *)
Inductive exec_mutation :=
| MTaskCreate (r : TaskCreateRequest)
| MTaskPhase (r : TaskPhaseRequest)
| MTaskComplete (r : TaskCompleteRequest)
| MReqCreate (r : ReqCreateRequest)
| MReqPhase (r : ReqPhaseRequest)
| MReqNode (r : ReqNodeRequest)
| MReqReset (r : ReqResetRequest)
| MReqResetNodeResults (r : ReqResetNodeResultsRequest)
| MClaim (r : ExecClaimRequest).

(** [startExecMutationHandler] *)
Definition handle_exec (E : ExecEnv) (m : exec_mutation) : X exec_reply :=
  match m with
  | MTaskCreate r => handleTaskCreateMutation E r
  | MTaskPhase r => handleTaskPhaseMutation E r
  | MTaskComplete r => handleTaskCompleteMutation E r
  | MReqCreate r => handleReqCreateMutation E r
  | MReqPhase r => handleReqPhaseMutation E r
  | MReqNode r => handleReqNodeMutation E r
  | MReqReset r => handleReqResetMutation E r
  | MReqResetNodeResults r => handleReqResetNodeResultsMutation E r
  | MClaim r => handleExecClaimMutation E r
  end.
