(* ===== verification/ExecManager.v ===== *)
(** * The watchers of the execution manager

    What drives the pipeline: pending rows (task_watcher.go), loops that end
    (loop_completions.go), requirements that end (req_watcher.go), timers,
    and start-up (component.go [reconcileFromGraph]).  The relation [xstep]
    interleaves them with the mutations of other components. *)

From S2P Require Import Prelude Status Paths Types Stories PlanStore ExecTypes Feedback ExecStore.
From S2P Require Import TddPipeline ExecMutations.

Local Open Scope string_scope.
Local Open Scope go_scope.

Section watchers.
Context (E : ExecEnv).

(** ** Pending tasks *)

Definition claimTaskExecution (key fromStage toStage : string) : X bool :=
  r ← handleExecClaimMutation E (MkExecClaimRequest key toStage fromStage);
  mret (match r with ExecOK _ _ => true | ExecRefused _ => false end).

(** The execution built from a claimed row. *)
Definition claimed_row (t : TaskExecution) : TaskExecution :=
  {| teEntityID := xeTaskEntityID E (teSlug t) (teTaskID t); teSlug := teSlug t;
     teTaskID := teTaskID t; teRequirementID := teRequirementID t; teStage := phaseDeveloping;
     teTDDCycle := 0;
     teMaxTDDCycles := if bool_decide (teMaxTDDCycles t = 0%Z) then xeMaxTDDCycles E
                       else teMaxTDDCycles t;
     teTitle := teTitle t; teDescription := teDescription t; teProjectID := teProjectID t;
     tePrompt := tePrompt t; teModel := teModel t; teTraceID := teTraceID t;
     teLoopID := teLoopID t; teRequestID := teRequestID t; teTaskType := teTaskType t;
     teAgentID := teAgentID t; teWorktreePath := teWorktreePath t;
     teWorktreeBranch := teWorktreeBranch t; teScenarioBranch := teScenarioBranch t;
     teFileScope := teFileScope t; teScenarios := teScenarios t; teFilesModified := [];
     teTestsPassed := false; teValidationPassed := false; teMergeCommit := "";
     teDeveloperTaskID := ""; teValidatorTaskID := ""; teReviewerTaskID := ""; teVerdict := "";
     teRejectionType := ""; teFeedback := ""; teReviewRetryCount := 0; teErrorReason := "";
     teErrorClass := ""; teEscalationReason := ""; teCreatedAt := 0; teUpdatedAt := 0 |}.

(** A live execution under its entity. *)
Definition activate (key : string) (t : TaskExecution) : X nat :=
  o ← alloc t;
  modify (λ w, set_xwExecs (<[o := MkLive false key o "" [] [] [] [] "" "" [] None]> (xwExecs w)) w);;
  modify (λ w, set_xwActive (<[teEntityID t := o]> (xwActive w)) w);;
  mret o.

(** [handleTaskPending]; the initialisation it spawns is a step of its own. *)
Definition handleTaskPending (key : string) (t : TaskExecution) : X () :=
  if teStage t !=? "pending" then mret () else
  claimed ← claimTaskExecution key "pending" phaseDeveloping;
  if negb claimed then mret () else
  let t := claimed_row t in
  w ← xread;
  match xwActive w !! teEntityID t with
  | Some _ => mret ()
  | None =>
      o ← activate key t;
      modify (λ w, set_xwStarting (o :: xwStarting w) w)
  end.

(** ** Loops that end *)

Definition loop_event (l : LoopEntity) : LoopCompletedEvent :=
  {| lcLoopID := leID l; lcTaskID := leTaskID l; lcOutcome := leOutcome l; lcResult := leResult l;
     lcIterations := leIterations l;
     lcMetadata := if (leError l !=? "") || (0 <? leMaxIterations l)%Z
                   then Some (leError l, leMaxIterations l) else None |}.

Definition ours (l : LoopEntity) : bool :=
  leTerminal l && (leWorkflowSlug l =? WorkflowSlugTaskExecution) && (leTaskID l !=? "").

Definition handleLoopEntityUpdate (l : LoopEntity) : X () :=
  if negb (ours l) then mret () else
  w ← xread;
  match xwRouting w !! leTaskID l ≫= (xwActive w !!.) with
  | None => mret ()
  | Some o =>
      if lTerminated (live w o) then mret () else
      let step := leWorkflowStep l in
      if (step =? stageDevelop) || (step =? "test") || (step =? "build")
      then handleDeveloperCompleteLocked E (loop_event l) o
      else if step =? stageReview then handleReviewerCompleteLocked E (loop_event l) o
      else mret ()
  end.

(** [handleLoopEntityUpdateReplay], before the replay is complete; the loops
    it keeps are [replayLoops]. *)
Definition handleLoopEntityUpdateReplay (l : LoopEntity) (replayLoops : gmap string LoopEntity) :
    X (gmap string LoopEntity) :=
  if negb (ours l) then mret replayLoops else
  w ← xread;
  match xwRouting w !! leTaskID l with
  | Some _ => mret replayLoops
  | None =>
      let owner := list_find (λ e, (λ o, currentStageTaskID (deref w o)) <$> xwActive w !! e
                                  = Some (leTaskID l))
                             (keys_of E w (xwActive w)) in
      match owner with
      | None => mret replayLoops
      | Some (_, entityID) =>
          route (leTaskID l) entityID;; mret (<[leTaskID l := l]> replayLoops)
      end
  end.

Definition resumeStuckExecution (replayLoops : gmap string LoopEntity) (entityID : string) : X () :=
  w ← xread;
  match xwActive w !! entityID with
  | None => mret ()
  | Some o =>
      if lTerminated (live w o) then mret () else
      let t := deref w o in
      let taskID := currentStageTaskID t in
      if (taskID =? "") || (default "" (xwRouting w !! taskID) =? "") then mret () else
      let event := match replayLoops !! taskID with
                   | Some l => MkLoopCompleted (leID l) taskID (leOutcome l) (leResult l) 0 None
                   | None => MkLoopCompleted "" taskID "" "" 0 None
                   end in
      if teStage t =? phaseReviewing then handleReviewerCompleteLocked E event o
      else handleDeveloperCompleteLocked E event o
  end.

Definition resumeStuckExecutions (replayLoops : gmap string LoopEntity) : X () :=
  w ← xread; xfor (keys_of E w (xwActive w)) (resumeStuckExecution replayLoops).

(** ** Requirements that end, timers, start-up *)

Definition handleRequirementUpdate (r : RequirementExecution) : X () :=
  if negb (IsTerminalReqStage (reStage r)) || (reStage r =? "completed") then mret () else
  cancelChildrenForRequirement E (reSlug r) (reRequirementID r)
    ("parent_requirement_" +:+ reStage r).

(** The function [startExecutionTimeout] gives to [time.AfterFunc]. *)
Definition timer_fires (t : nat) : X () :=
  w ← xread;
  match xwTimers w !! t with
  | None => mret ()
  | Some o =>
      modify (λ w, set_xwTimers (delete t (xwTimers w)) w);;
      markErrorLocked E o ("execution timed out after " +:+ xeTimeout E)
  end.

Definition recovered_row (entityID : string) (m : gmap string string) : TaskExecution :=
  set_teMaxTDDCycles (default 0%Z (Sscanf_d (field m wf.MaxTDDCycles)))
  (set_teTDDCycle (default 0%Z (Sscanf_d (field m wf.TDDCycle)))
    {| teEntityID := entityID; teSlug := field m wf.Slug; teTaskID := field m wf.TaskID;
       teRequirementID := ""; teStage := field m wf.Phase; teTDDCycle := 0; teMaxTDDCycles := 0;
       teTitle := field m wf.Title; teDescription := ""; teProjectID := field m wf.ProjectID;
       tePrompt := field m wf.Prompt; teModel := field m wf.Model; teTraceID := field m wf.TraceID;
       teLoopID := ""; teRequestID := ""; teTaskType := ""; teAgentID := field m wf.AgentID;
       teWorktreePath := field m wf.WorktreePath; teWorktreeBranch := field m wf.WorktreeBranch;
       teScenarioBranch := ""; teFileScope := []; teScenarios := []; teFilesModified := [];
       teTestsPassed := false; teValidationPassed := false; teMergeCommit := "";
       teDeveloperTaskID := ""; teValidatorTaskID := ""; teReviewerTaskID := ""; teVerdict := "";
       teRejectionType := ""; teFeedback := ""; teReviewRetryCount := 0; teErrorReason := "";
       teErrorClass := ""; teEscalationReason := ""; teCreatedAt := 0; teUpdatedAt := 0 |}).

(** The entities of the graph, or an error. *)
Definition reconcileFromGraph (entities : option (list (string * gmap string string))) : X () :=
  xfor (default [] entities) (λ '(entityID, m),
    if IsTerminalTaskStage (field m wf.Phase) then mret () else
    let t := recovered_row entityID m in
    o ← activate (TaskExecutionKey (teSlug t) (teTaskID t)) t;
    syncToStore E o).
End watchers.

(** ** Runs *)

(** What the agent runtime tells of a loop: it echoes the task it was given. *)
Definition echoes (w : XWorld) (l : LoopEntity) : Prop :=
  ∃ o subject m, EvAgentTask o subject m ∈ xwOut w ∧
    tmTaskID m = leTaskID l ∧ tmWorkflowStep m = leWorkflowStep l.

(** A step, with the entities it disturbs: an execution that is initialised
    although it has been cancelled, one that drops out of the cache of active
    executions when its time to live ends, and the ones that are recovered at
    start-up.  The watcher of pending tasks is given the keys ["task.>"].  A
    loop that the routing table does not know may be anybody's; one that it
    knows echoes its task.  A row leaves a cache, and a route the routing table,
    when its time to live ends.  Recovery and replay run at start-up, beside
    the other watchers. *)
Inductive xstep (E : ExecEnv) : list string → XWorld → XWorld → Prop :=
| step_mutation m w : xstep E [] w (handle_exec E m w).1
| step_pending key t w :
    HasPrefix key "task." = true → xstep E [] w (handleTaskPending E key t w).1
| step_start o w : o ∈ xwStarting w →
    xstep E (if lTerminated (live w o) then [teEntityID (deref w o)] else []) w (initTaskExecution E o w).1
| step_loop l w :
    xwRouting w !! leTaskID l = None ∨ echoes w l → xstep E [] w (handleLoopEntityUpdate E l w).1
| step_validated o answer w :
    o ∈ xwValidating w → xstep E [] w (validationDoneLocked E o answer w).1
| step_timer t w : xstep E [] w (timer_fires E t w).1
| step_requirement r w : xstep E [] w (handleRequirementUpdate E r w).1
| step_recover entities w : xstep E (default [] entities).*1 w (reconcileFromGraph E entities w).1
| step_replay l replayLoops w : xstep E [] w (handleLoopEntityUpdateReplay E l replayLoops w).1
| step_resume replayLoops w : xstep E [] w (resumeStuckExecutions E replayLoops w).1
| step_expire_task k w : xstep E [] w (set_xwTaskCache (delete k (xwTaskCache w)) w)
| step_expire_req k w : xstep E [] w (set_xwReqCache (delete k (xwReqCache w)) w)
| step_expire_route t w : xstep E [] w (set_xwRouting (delete t (xwRouting w)) w)
| step_expire_active e w : xstep E [e] w (set_xwActive (delete e (xwActive w)) w).

(** A run, with the entities it disturbs. *)
Inductive xrun (E : ExecEnv) : list string → XWorld → XWorld → Prop :=
| xrun_nil w : xrun E [] w w
| xrun_cons d ds w w' w'' : xstep E d w w' → xrun E ds w' w'' → xrun E (d ++ ds)%list w w''.

Lemma xrun_snoc E ds d w w' w'' : xrun E ds w w' → xstep E d w' w'' → xrun E (ds ++ d)%list w w''.
Proof.
  induction 1 as [w|d1 ds w1 w2 w3 H12 _ IH]; intros Hs.
  - rewrite <- (app_nil_r d). cbn [app]. rewrite app_nil_r. rewrite <- (app_nil_r d). econstructor; [done|constructor].
  - rewrite <- app_assoc. econstructor; [done|by apply IH].
Qed.

(** A store that may hold rows of earlier runs, and no live execution. *)
Definition start_world (w : XWorld) : Prop :=
  xwExecs w = ∅ ∧ xwActive w = ∅ ∧ xwRouting w = ∅ ∧ xwTimers w = ∅ ∧ xwStarting w = [] ∧
  xwValidating w = [] ∧ xwOut w = [].

(** ** A run *)

Definition run_env : ExecEnv := sample_env (sample_plan StatusImplementing [] [] None).
Definition run_key : string := TaskExecutionKey "demo" "t1".
Definition run_request : TaskCreateRequest :=
  {| tcSlug := "demo"; tcTaskID := "t1"; tcRequirementID := "r1"; tcTitle := "t"; tcDescription := "";
     tcProjectID := ""; tcPrompt := "p"; tcModel := ""; tcTraceID := ""; tcLoopID := "";
     tcRequestID := ""; tcTaskType := ""; tcAgentID := ""; tcWorktreePath := ""; tcWorktreeBranch := "";
     tcScenarioBranch := ""; tcFileScope := []; tcScenarios := []; tcMaxTDDCycles := 0 |}.
Definition run_task : TaskExecution := new_task run_env run_request 0.

Definition run_loop (id step result : string) : LoopEntity :=
  MkLoopEntity "loop" id true OutcomeSuccess ("{" +:+ result +:+ "}") 1 10 "" WorkflowSlugTaskExecution step.

Definition run_routed (w : XWorld) : string := default "" (head (map_to_list (xwRouting w)).*1).

(** A task that is developed, validated, reviewed and approved. *)
Definition run0 : XWorld := (handle_exec run_env (MTaskCreate run_request) (stored_world ∅)).1.
Definition run1 : XWorld := (handleTaskPending run_env run_key run_task run0).1.
Definition run2 : XWorld := (initTaskExecution run_env 2 run1).1.
Definition run3 : XWorld :=
  (handleLoopEntityUpdate run_env (run_loop (run_routed run2) stageDevelop "done") run2).1.
Definition run4 : XWorld :=
  (validationDoneLocked run_env 2 (inl (MkValidationResult "" true 0 [] "")) run3).1.
Definition run5 : XWorld :=
  (handleLoopEntityUpdate run_env (run_loop (run_routed run4) stageReview "approved") run4).1.

(** [echoes] can be computed. *)
Definition told (l : LoopEntity) (ev : exec_event) : bool :=
  match ev with
  | EvAgentTask _ _ m => (tmTaskID m =? leTaskID l) && (tmWorkflowStep m =? leWorkflowStep l)
  | _ => false
  end.

Lemma told_echoes w l : existsb (told l) (xwOut w) = true → echoes w l.
Proof.
  intros (ev & Hin & Ht)%existsb_exists. destruct ev as [o subject m| | | | | | |]; try done.
  simpl in Ht. apply andb_true_iff in Ht as [H1 H2]. breflect. exists o, subject, m.
  split; [by apply list_elem_of_In|done].
Qed.

Lemma run00 : xstep run_env [] (stored_world ∅) run0.
Proof. apply step_mutation. Qed.
Lemma run01 : xstep run_env [] run0 run1.
Proof. by apply step_pending. Qed.
Lemma run12 : xstep run_env [] run1 run2.
Proof.
  assert (lTerminated (live run1 2) = false) as Hl by (by vm_compute).
  pose proof (step_start run_env 2 run1) as Hs. rewrite Hl in Hs. apply Hs. apply (bool_decide_unpack _). by vm_compute.
Qed.
Lemma run23 : xstep run_env [] run2 run3.
Proof. apply step_loop. right. apply told_echoes. by vm_compute. Qed.
Lemma run34 : xstep run_env [] run3 run4.
Proof. apply step_validated. apply (bool_decide_unpack _). by vm_compute. Qed.
Lemma run45 : xstep run_env [] run4 run5.
Proof. apply step_loop. right. apply told_echoes. by vm_compute. Qed.

Lemma calm_step E w w' w'' : xstep E [] w w' → xrun E [] w' w'' → xrun E [] w w''.
Proof. apply (xrun_cons E [] []). Qed.

Lemma run15 : xrun run_env [] run1 run5.
Proof. eauto 10 using xrun_nil, calm_step, run12, run23, run34, run45. Qed.
Lemma run_whole : xrun run_env [] (stored_world ∅) run5.
Proof. eauto 10 using xrun_nil, calm_step, run00, run01, run15. Qed.
