(* ===== verification/ExecTyping.v ===== *)
(** * The execution manager keeps the kinds of rows apart

    EXECUTION_STATES and its caches hold task rows and requirement rows, told
    apart by their keys alone.  Every step of the manager leaves task rows
    under ["task."] keys and requirement rows under ["req."] keys, so that no
    row is decoded as the other struct.  The proof carries an invariant
    through every operation of the pipeline. *)

From S2P Require Import Prelude Paths Types PlanStore ExecTypes Feedback ExecStore TddPipeline.
From S2P Require Import ExecMutations ExecManager.

Local Open Scope string_scope.
Local Open Scope go_scope.

(** The rows are typed, the key of every live execution is a task key, and
    everything that refers to an execution refers to a live one. *)
Record typed (w : XWorld) : Prop := {
  ty_rows : rows_typed w;
  ty_keys : ∀ o x, xwExecs w !! o = Some x → HasPrefix (lKey x) "task." = true;
  ty_active : ∀ e o, xwActive w !! e = Some o → is_Some (xwExecs w !! o);
  ty_timers : ∀ t o, xwTimers w !! t = Some o → is_Some (xwExecs w !! o);
  ty_queues : ∀ o, o ∈ xwStarting w ∨ o ∈ xwValidating w → is_Some (xwExecs w !! o) }.

(** The same, for a program that works on [o]. *)
Definition typed_at (o : nat) (w : XWorld) : Prop := typed w ∧ is_Some (xwExecs w !! o).

(** A write to the store keeps what looks at the live part only. *)
Lemma typed_ext w w' :
  xwExecs w' = xwExecs w → xwActive w' = xwActive w → xwTimers w' = xwTimers w →
  xwStarting w' = xwStarting w → xwValidating w' = xwValidating w →
  (rows_typed w → rows_typed w') → typed w → typed w'.
Proof. intros He Ha Ht Hs Hv Hr []. split; rewrite ?He, ?Ha, ?Ht, ?Hs, ?Hv; auto. Qed.

#[export] Instance typed_store : StoreInv typed.
Proof.
  split.
  - intros E w Hw. apply (typed_ext w); [done..| |done]. apply (si_tick (I := rows_typed)).
  - intros t w Hw. apply (typed_ext w); [done..| |done]. apply (si_alloc (I := rows_typed)).
  - intros a t w Hw. by apply (typed_ext w).
  - intros k a Hk w Hw. apply (typed_ext w); [done..| |done]. by apply (si_cacheTask (I := rows_typed)).
  - intros k r Hk w Hw. apply (typed_ext w); [done..| |done]. by apply (si_cacheReq (I := rows_typed)).
  - intros k r Hk w Hw. apply (typed_ext w); [done..| |done]. by apply (si_kvPut (I := rows_typed)).
  - intros k w Hw. apply (typed_ext w); [done..| |done]. by apply (si_dropTask (I := rows_typed)).
  - intros k w Hw. apply (typed_ext w); [done..| |done]. by apply (si_dropReq (I := rows_typed)).
  - intros k kv w Hw Hkv. apply (typed_ext w); [done..| |done]. intros. by apply (si_dropKV (I := rows_typed)).
Qed.

#[export] Instance typed_at_store o : StoreInv (typed_at o).
Proof.
  split.
  - intros E w [? ?]. split; [by apply si_tick|done].
  - intros t w [? ?]. split; [by apply si_alloc|done].
  - intros a t w [? ?]. split; [by apply si_stamp|done].
  - intros k a ? w [? ?]. split; [by apply si_cacheTask|done].
  - intros k r ? w [? ?]. split; [by apply si_cacheReq|done].
  - intros k r ? w [? ?]. split; [by apply si_kvPut|done].
  - intros k w [? ?]. split; [by apply si_dropTask|done].
  - intros k w [? ?]. split; [by apply si_dropReq|done].
  - intros k kv w [? ?] ?. split; [by apply si_dropKV|done].
Qed.

(** ** The primitive steps of the pipeline *)

Definition keeps_key (f : taskExecution → taskExecution) : Prop := ∀ x, lKey (f x) = lKey x.

Section pipeline_typed.
Context (E : ExecEnv) (o : nat).

Lemma emit_typed ev : keeps (typed_at o) (emit ev).
Proof. intros w [? ?]. split; [by apply (typed_ext w)|done]. Qed.
Lemma route_typed t e : keeps (typed_at o) (route t e).
Proof. intros w [? ?]. split; [by apply (typed_ext w)|done]. Qed.
Lemma unroute_typed t : keeps (typed_at o) (unroute t).
Proof. intros w [? ?]. split; [by apply (typed_ext w)|done]. Qed.
Lemma upd_typed f : keeps (typed_at o) (upd o f).
Proof. apply keeps_modify. intros w. apply si_stamp. Qed.
Lemma row_typed_at : keeps (typed_at o) (row o).
Proof. by intros w. Qed.
Lemma exec_typed : keeps (typed_at o) (exec o).
Proof. by intros w. Qed.

Lemma known_insert (m : gmap nat taskExecution) x a : is_Some (m !! a) → is_Some (<[o := x]> m !! a).
Proof. intros. apply lookup_insert_is_Some'. by right. Qed.

Lemma updl_typed f : keeps_key f → keeps (typed_at o) (updl o f).
Proof.
  intros Hf w [[Hr Hk Ha Ht Hq] [x Hx]]. split; [split; simpl|by apply known_insert; eexists].
  - done.
  - intros a y [[<- <-]|[_ ?]]%lookup_insert_Some; [|by eapply Hk].
    rewrite Hf. unfold live. rewrite Hx. by eapply Hk.
  - intros e a ?%Ha. by apply known_insert.
  - intros t a ?%Ht. by apply known_insert.
  - intros a ?%Hq. by apply known_insert.
Qed.

Lemma stop_timer_typed : keeps (typed_at o) (stop_timer o).
Proof.
  apply keeps_modify. intros w [[Hr Hk Ha Ht Hq] ?]. destruct (lTimer _) as [t|]; [|by split].
  split; [split; simpl; try done|done]. intros t' a [_ ?]%lookup_delete_Some. by eapply Ht.
Qed.

Lemma startExecutionTimeout_typed : keeps (typed_at o) (startExecutionTimeout o).
Proof.
  unfold startExecutionTimeout. apply keeps_bind; [apply keeps_read|intros w0].
  apply keeps_bind; [|intros _; by apply updl_typed].
  apply keeps_modify. intros w [[Hr Hk Ha Ht Hq] ?]. split; [split; simpl; try done|done].
  intros t' a [[<- <-]|[_ ?]]%lookup_insert_Some; [done|by eapply Ht].
Qed.

Lemma leave_active_typed e :
  keeps (typed_at o) (modify (λ w, set_xwActive (delete e (xwActive w)) w)).
Proof.
  apply keeps_modify. intros w [[Hr Hk Ha Ht Hq] ?]. split; [split; simpl; try done|done].
  intros e' a [_ ?]%lookup_delete_Some. by eapply Ha.
Qed.

Lemma validating_typed : keeps (typed_at o) (modify (λ w, set_xwValidating (o :: xwValidating w) w)).
Proof.
  apply keeps_modify. intros w [[Hr Hk Ha Ht Hq] ?]. split; [split; simpl; try done|done]. set_solver.
Qed.

Lemma validated_typed :
  keeps (typed_at o) (modify (λ w, set_xwValidating (filter (λ a, a ≠ o) (xwValidating w)) w)).
Proof.
  apply keeps_modify. intros w [[Hr Hk Ha Ht Hq] ?]. split; [split; simpl; try done|done].
  intros a. rewrite list_elem_of_filter. naive_solver.
Qed.

Lemma started_typed :
  keeps (typed_at o) (modify (λ w, set_xwStarting (filter (λ a, a ≠ o) (xwStarting w)) w)).
Proof.
  apply keeps_modify. intros w [[Hr Hk Ha Ht Hq] ?]. split; [split; simpl; try done|done].
  intros a. rewrite list_elem_of_filter. naive_solver.
Qed.

(** The key under which an execution is saved is its own. *)
Lemma syncToStore_typed : keeps (typed_at o) (syncToStore E o).
Proof.
  intros w [Hw [x Hx]]. unfold syncToStore, exec, mbind, X_bind, xread, mret, X_ret. cbv beta iota.
  unfold live. rewrite Hx. simpl.
  assert (Hs : typed_at o (saveTask E (lKey x) o w).1).
  { apply saveTask_keeps; [apply typed_at_store|by eapply (ty_keys _ Hw)|by split; [|eexists]]. }
  by destruct (saveTask E (lKey x) o w).
Qed.
End pipeline_typed.

#[export] Hint Resolve emit_typed route_typed unroute_typed upd_typed row_typed_at exec_typed
  stop_timer_typed startExecutionTimeout_typed leave_active_typed validating_typed validated_typed
  started_typed syncToStore_typed : keeps.
#[export] Hint Extern 1 (keeps (typed_at _) (updl _ _)) => by apply updl_typed; intros ? : keeps.

(** ** The operations of the pipeline *)

Section operations_typed.
Context (E : ExecEnv) (o : nat).

Lemma merge_attempts_typed n t last : keeps (typed_at o) (merge_attempts E n o t last).
Proof.
  revert last. induction n as [|n IH]; intros last; simpl; [apply keeps_ret|]. keeps_auto.
Qed.
#[local] Hint Resolve merge_attempts_typed : keeps.

Lemma cleanup_typed : keeps (typed_at o) (cleanupExecutionLocked o).
Proof. unfold cleanupExecutionLocked. keeps_auto. Qed.
Lemma discardWorktree_typed : keeps (typed_at o) (discardWorktree E o).
Proof. unfold discardWorktree. keeps_auto. Qed.
#[local] Hint Resolve cleanup_typed discardWorktree_typed : keeps.

Lemma markError_typed reason : keeps (typed_at o) (markErrorLocked E o reason).
Proof. unfold markErrorLocked. keeps_auto. Qed.
Lemma markEscalated_typed reason : keeps (typed_at o) (markEscalatedLocked E o reason).
Proof. unfold markEscalatedLocked, emitRecoveryRequested. keeps_auto. Qed.
#[local] Hint Resolve markError_typed markEscalated_typed : keeps.

Lemma mergeWorktree_typed : keeps (typed_at o) (mergeWorktree E o).
Proof. unfold mergeWorktree, checkWorktreeExists. keeps_auto. Qed.
#[local] Hint Resolve mergeWorktree_typed : keeps.

Lemma markApproved_typed : keeps (typed_at o) (markApprovedLocked E o).
Proof. unfold markApprovedLocked. keeps_auto. Qed.

Lemma readPlan_typed slug : keeps (typed_at o) (readPlan E slug).
Proof. unfold readPlan. keeps_auto. Qed.
#[local] Hint Resolve markApproved_typed readPlan_typed : keeps.

Lemma dispatch_refused_typed : keeps (typed_at o) (dispatch_refused E o).
Proof. unfold dispatch_refused, parentRequirementTerminated, checkWorktreeExists. keeps_auto. Qed.
#[local] Hint Resolve dispatch_refused_typed : keeps.

Lemma dispatchDeveloper_typed : keeps (typed_at o) (dispatchDeveloperLocked E o).
Proof. unfold dispatchDeveloperLocked, lookupRecoveryHint, publishTask. keeps_auto. Qed.
Lemma dispatchReviewer_typed : keeps (typed_at o) (dispatchReviewerLocked E o).
Proof. unfold dispatchReviewerLocked, publishTask. keeps_auto. Qed.
Lemma dispatchValidator_typed : keeps (typed_at o) (dispatchValidatorLocked E o).
Proof. unfold dispatchValidatorLocked. keeps_auto. Qed.
#[local] Hint Resolve dispatchDeveloper_typed dispatchReviewer_typed dispatchValidator_typed : keeps.

Lemma startDeveloperRetry_typed f : keeps (typed_at o) (startDeveloperRetryLocked E o f).
Proof. unfold startDeveloperRetryLocked. keeps_auto. Qed.
#[local] Hint Resolve startDeveloperRetry_typed : keeps.

Lemma routeFixable_typed f : keeps (typed_at o) (routeFixableRejection E o f).
Proof. unfold routeFixableRejection. keeps_auto. Qed.
#[local] Hint Resolve routeFixable_typed : keeps.

Lemma validationDone_typed answer : keeps (typed_at o) (validationDoneLocked E o answer).
Proof. unfold validationDoneLocked, handleValidationFailedLocked. keeps_auto. Qed.

Lemma developerComplete_typed ev : keeps (typed_at o) (handleDeveloperCompleteLocked E ev o).
Proof.
  unfold handleDeveloperCompleteLocked, resetTimeoutLocked, developerWorkClean,
    developerLeakedToWorkspace. keeps_auto.
Qed.

Lemma publishLesson_typed v f l : keeps (typed_at o) (publishLessonDecomposeRequest E o v f l).
Proof. unfold publishLessonDecomposeRequest. keeps_auto. Qed.
#[local] Hint Resolve publishLesson_typed : keeps.

Lemma reviewerComplete_typed ev : keeps (typed_at o) (handleReviewerCompleteLocked E ev o).
Proof.
  unfold handleReviewerCompleteLocked, resetTimeoutLocked, handleRejectionLocked,
    appendCycleSnapshot. keeps_auto.
Qed.

Lemma initTask_typed : keeps (typed_at o) (initTaskExecution E o).
Proof. unfold initTaskExecution, createWorktree, dispatchFirstStage. keeps_auto. Qed.
End operations_typed.

(** ** Requests and watchers *)

Section steps_typed.
Context (E : ExecEnv).

(** A program on a known execution, from the invariant of the manager. *)
Lemma at_known {A} o (m : X A) w :
  keeps (typed_at o) m → typed w → is_Some (xwExecs w !! o) → typed (m w).1.
Proof. intros Hm Hw Hk. by apply (Hm w). Qed.

Lemma cancelChild_typed slug id reason e : keeps typed (cancelChild E slug id reason e).
Proof.
  unfold cancelChild. apply keeps_read_bind. intros w Hw.
  destruct (xwActive w !! e) as [o|] eqn:Ho; [|done].
  refine (at_known o _ w _ Hw (ty_active _ Hw _ _ Ho)).
  assert (H := markError_typed E o reason). keeps_auto.
Qed.

Lemma cancelChildren_typed slug id reason :
  keeps typed (cancelChildrenForRequirement E slug id reason).
Proof.
  assert (H := cancelChild_typed slug id reason).
  unfold cancelChildrenForRequirement. keeps_auto.
Qed.

(** A handler that changes a row it has found. *)
Lemma found_task_typed {B} k (f : option TaskExecution → X B) :
  keeps typed (f None) → (HasPrefix k "task." = true → ∀ t, keeps typed (f (Some t))) →
  keeps typed (getTask E k ≫= f).
Proof.
  intros Hn Hs. apply (keeps_bind_post _ (λ r, is_Some r → HasPrefix k "task." = true)).
  - auto with keeps.
  - intros w. apply getTask_prefix.
  - intros [t|] Hr; [apply Hs, Hr; by eexists|done].
Qed.

Lemma found_req_typed {B} k (f : option RequirementExecution → X B) :
  keeps typed (f None) → (HasPrefix k "req." = true → ∀ t, keeps typed (f (Some t))) →
  keeps typed (getReq E k ≫= f).
Proof.
  intros Hn Hs. apply (keeps_bind_post _ (λ r, is_Some r → HasPrefix k "req." = true)).
  - auto with keeps.
  - intros w. apply getReq_prefix.
  - intros [t|] Hr; [apply Hs, Hr; by eexists|done].
Qed.

Lemma change_task_typed k f : keeps typed (change_task E k f).
Proof. unfold change_task. apply found_task_typed; [apply keeps_ret|intros Hk t]. keeps_auto. Qed.

Lemma change_req_typed k f : keeps typed (change_req E k f).
Proof. unfold change_req. apply found_req_typed; [apply keeps_ret|intros Hk t]. keeps_auto. Qed.

Lemma claim_typed req : keeps typed (handleExecClaimMutation E req).
Proof.
  unfold handleExecClaimMutation. keeps_step; [apply keeps_ret|].
  apply found_task_typed; [|intros Hk t; keeps_auto].
  apply found_req_typed; [apply keeps_ret|intros Hk r; keeps_auto].
Qed.

#[local] Hint Resolve change_task_typed change_req_typed claim_typed cancelChildren_typed : keeps.

Lemma reset_typed req : keeps typed (handleReqResetMutation E req).
Proof. unfold handleReqResetMutation, resetRequirementFamily. keeps_auto. Qed.

Lemma handle_exec_typed m : keeps typed (handle_exec E m).
Proof.
  destruct m; simpl; [..|apply reset_typed| |apply claim_typed].
  - unfold handleTaskCreateMutation. keeps_auto.
  - unfold handleTaskPhaseMutation. keeps_auto.
  - unfold handleTaskCompleteMutation. keeps_auto.
  - unfold handleReqCreateMutation. keeps_auto.
  - unfold handleReqPhaseMutation. keeps_auto.
  - unfold handleReqNodeMutation. keeps_auto.
  - unfold handleReqResetNodeResultsMutation. keeps_step; [apply keeps_ret|].
    apply found_req_typed; [apply keeps_ret|intros Hk r'; keeps_auto].
Qed.

Lemma activate_typed key t :
  HasPrefix key "task." = true →
  keeps typed (o ← activate key t; modify (λ w, set_xwStarting (o :: xwStarting w) w)).
Proof.
  intros Hk w [Hr Hke Ha Ht Hq]. split; simpl; [done|..].
  - intros a x [[_ <-]|[_ ?]]%lookup_insert_Some; [done|by eapply Hke].
  - intros e a [[_ <-]|[_ ?%Ha]]%lookup_insert_Some; apply lookup_insert_is_Some'; auto.
  - intros t' a ?%Ht. apply lookup_insert_is_Some'. auto.
  - intros a H. apply lookup_insert_is_Some'. destruct (decide (xwNext w = a)); [by left|right].
    apply Hq. set_solver.
Qed.

Lemma pending_typed key t :
  HasPrefix key "task." = true → keeps typed (handleTaskPending E key t).
Proof.
  intros Hk. unfold handleTaskPending, claimTaskExecution. keeps_step; [apply keeps_ret|].
  apply keeps_bind; [keeps_auto|intros claimed]. keeps_step; [apply keeps_ret|].
  apply keeps_read_bind. intros w Hw. destruct (xwActive w !! _); [done|]. by apply activate_typed.
Qed.

Lemma loop_typed l : keeps typed (handleLoopEntityUpdate E l).
Proof.
  unfold handleLoopEntityUpdate. keeps_step; [apply keeps_ret|]. apply keeps_read_bind. intros w Hw.
  destruct (xwRouting w !! leTaskID l) as [e|]; [|done]. cbn [mbind option_bind].
  destruct (xwActive w !! e) as [o|] eqn:Ho; [|done].
  refine (at_known o _ w _ Hw (ty_active _ Hw _ _ Ho)).
  assert (H1 := developerComplete_typed E o). assert (H2 := reviewerComplete_typed E o). keeps_auto.
Qed.

Lemma timer_typed t : keeps typed (timer_fires E t).
Proof.
  unfold timer_fires. apply keeps_read_bind. intros w Hw.
  destruct (xwTimers w !! t) as [o|] eqn:Ho; [|done].
  refine (at_known o _ w _ Hw (ty_timers _ Hw _ _ Ho)).
  apply keeps_bind; [|intros []; apply markError_typed].
  apply keeps_modify. intros w0 [[Hr Hk Ha Ht Hq] ?]. split; [split; simpl; try done|done].
  intros t' a [_ ?]%lookup_delete_Some. by eapply Ht.
Qed.

Lemma replay_typed l replayLoops : keeps typed (handleLoopEntityUpdateReplay E l replayLoops).
Proof.
  unfold handleLoopEntityUpdateReplay. keeps_step; [apply keeps_ret|]. apply keeps_read_bind. intros w Hw.
  destruct (xwRouting w !! _); [done|]. destruct (list_find _ _) as [[i e]|]; [|done]. by apply (typed_ext w).
Qed.

Lemma resume_typed replayLoops : keeps typed (resumeStuckExecutions E replayLoops).
Proof.
  unfold resumeStuckExecutions. apply keeps_bind; [apply keeps_read|intros w0]. apply keeps_for. intros e.
  unfold resumeStuckExecution. apply keeps_read_bind. intros w Hw.
  destruct (xwActive w !! e) as [o|] eqn:Ho; [|done].
  refine (at_known o _ w _ Hw (ty_active _ Hw _ _ Ho)).
  assert (H1 := developerComplete_typed E o). assert (H2 := reviewerComplete_typed E o). keeps_auto.
Qed.

(** A recovered execution is saved under a task key. *)
Lemma recover_typed entities : keeps typed (reconcileFromGraph E entities).
Proof.
  unfold reconcileFromGraph. apply keeps_for. intros [e m]. keeps_step; [apply keeps_ret|]. intros w Hw.
  set (t := recovered_row e m). set (k := TaskExecutionKey (teSlug t) (teTaskID t)).
  assert (Hk : HasPrefix k "task." = true) by apply TaskExecutionKey_prefix.
  assert (Ha : typed_at (xwNext w) (activate k t w).1).
  { split; [|by apply lookup_insert_is_Some'; left]. destruct Hw as [Hr Hke Ha Ht Hq]. split; simpl; [done|..].
    - intros a x [[_ <-]|[_ ?]]%lookup_insert_Some; [done|by eapply Hke].
    - intros e' a [[_ <-]|[_ ?%Ha]]%lookup_insert_Some; apply lookup_insert_is_Some'; auto.
    - intros t' a ?%Ht. apply lookup_insert_is_Some'. auto.
    - intros a ?%Hq. apply lookup_insert_is_Some'. auto. }
  by destruct (syncToStore_typed E (xwNext w) _ Ha).
Qed.

Lemma xstep_typed d w w' : xstep E d w w' → typed w → typed w'.
Proof.
  intros [] Hw.
  - by apply handle_exec_typed.
  - by apply pending_typed.
  - eapply at_known; [apply initTask_typed|done|]. apply (ty_queues _ Hw). by left.
  - by apply loop_typed.
  - eapply at_known; [apply validationDone_typed|done|]. apply (ty_queues _ Hw). by right.
  - by apply timer_typed.
  - unfold handleRequirementUpdate. destruct (_ || _); [done|]. by apply cancelChildren_typed.
  - by apply recover_typed.
  - by apply replay_typed.
  - by apply resume_typed.
  - by apply si_dropTask.
  - by apply si_dropReq.
  - by apply (typed_ext w0).
  - destruct Hw as [Hr Hk Ha Ht Hq]. split; simpl; try done. intros e' a [_ ?]%lookup_delete_Some. by eapply Ha.
Qed.

(** C35: From a start at which the caches and the bucket hold task rows under
    ["task."] keys and requirement rows under ["req."] keys only, along every
    run of the manager, whatever it disturbs (start-up recovery and replay,
    cancelled executions that start, expiry of every cache), task rows stay
    under ["task."] keys and requirement rows under ["req."] keys, in the caches
    and in the bucket, every live execution has a task key, and every timer,
    queue entry and active entry belongs to a live execution. *)
Theorem rows_stay_typed ds w0 w :
  start_world w0 → rows_typed w0 → xrun E ds w0 w → typed w.
Proof.
  intros (He & Ha & _ & Ht & Hs & Hv & _) Hr Hrun.
  assert (H0 : typed w0).
  { split; [done|..]; rewrite ?He, ?Ha, ?Ht, ?Hs, ?Hv.
    - intros o x H. by rewrite lookup_empty in H.
    - intros o x H. by rewrite lookup_empty in H.
    - intros o x H. by rewrite lookup_empty in H.
    - intros o [H|H]; by apply not_elem_of_nil in H. }
  clear He Ha Ht Hs Hv Hr. induction Hrun as [|d ds w1 w2 w3 H12 _ IH]; [done|]. apply IH. by eapply xstep_typed.
Qed.
End steps_typed.

Lemma rows_stay_typed_witness : rows_typed (stored_world ∅) ∧ typed run5.
Proof.
  assert (Hr : rows_typed (stored_world ∅)).
  { split_and!; simpl; [intros k a H; by rewrite lookup_empty in H..|].
    intros kv k r [= <-] H. by rewrite lookup_empty in H. }
  split; [exact Hr|]. apply (rows_stay_typed run_env [] (stored_world ∅) run5); [|exact Hr|exact run_whole].
  by repeat split.
Defined.
