(* ===== verification/ExecFacts.v ===== *)
(** * What the mutations of the execution states promise

    A claim is a compare-and-set: it succeeds once.  A row that exists is
    not created again.  A reset of a requirement removes the rows it owns,
    as far as the cache shows them. *)

From S2P Require Import Prelude Status Paths Types Stories PlanStore ExecTypes Feedback ExecStore.
From S2P Require Import TddPipeline ExecMutations ExecManager.

Local Open Scope string_scope.
Local Open Scope go_scope.

Section facts.
Context (E : ExecEnv).

(** ** Reading what was written *)

Lemma bind_eq {A B} (m : X A) (f : A → X B) w : (m ≫= f) w = f (m w).2 (m w).1.
Proof. unfold mbind, X_bind. by destruct (m w). Qed.

Lemma getTask_cached k a w :
  HasPrefix k "task." = true → xwTaskCache w !! k = Some a → getTask E k w = (w, Some (deref w a)).
Proof. intros Hp Hk. unfold getTask. rewrite Hp. simpl. unfold mbind, X_bind. simpl. by rewrite Hk. Qed.

Lemma getReq_cached k r w :
  HasPrefix k "req." = true → xwReqCache w !! k = Some r → getReq E k w = (w, Some r).
Proof. intros Hp Hk. unfold getReq. rewrite Hp. simpl. unfold mbind, X_bind. simpl. by rewrite Hk. Qed.

(** After a save, the cache has the row, stamped. *)
Lemma saveTask_cached k a w :
  let w' := (saveTask E k a w).1 in
  xwTaskCache w' !! k = Some a ∧ ∃ u, deref w' a = set_teUpdatedAt u (deref w a).
Proof.
  assert (H : xwTaskCache (saveTask E k a w).1 = <[k := a]> (xwTaskCache w) ∧
              xwCells (saveTask E k a w).1 =
                <[a := set_teUpdatedAt (xNow (xeIO E (xwTick w))) (deref w a)]> (xwCells w)).
  { unfold saveTask, mbind, X_bind, mret, X_ret. simpl. destruct (xwKV w) eqn:Hk; [|done].
    destruct (xMarshalErr _); [done|]. by destruct (xKvPutErr _). }
  destruct H as [Hc Hd]. simpl. split; [by rewrite Hc, lookup_insert_eq|].
  eexists. unfold deref at 1. rewrite Hd, lookup_insert_eq. done.
Qed.

Lemma saveReq_cached k r w : ∃ u, xwReqCache (saveReq E k r w).1 !! k = Some (set_reUpdatedAt u r).
Proof.
  exists (xNow (xeIO E (xwTick w))).
  assert (H : xwReqCache (saveReq E k r w).1 = <[k := set_reUpdatedAt (xNow (xeIO E (xwTick w))) r]> (xwReqCache w)).
  { unfold saveReq, mbind, X_bind, mret, X_ret. simpl. destruct (xwKV w) eqn:Hk; [|done].
    destruct (xMarshalErr _); [done|]. by destruct (xKvPutErr _). }
  by rewrite H, lookup_insert_eq.
Qed.

(** ** Claims *)

(** The stage under a key, in whichever cache the key belongs to. *)
Definition cached_stage (k : string) (w : XWorld) : option string :=
  if HasPrefix k "task." then (λ a, teStage (deref w a)) <$> xwTaskCache w !! k
  else if HasPrefix k "req." then reStage <$> xwReqCache w !! k else None.

Lemma claim_cached req s w :
  ecKey req ≠ "" → ecStage req ≠ "" → cached_stage (ecKey req) w = Some s →
  (handleExecClaimMutation E req w).2 =
    match claimStageGuard req s with
    | Some r => ExecRefused r
    | None => (handleExecClaimMutation E req w).2
    end.
Proof.
  intros Hk Hs Hc. destruct (claimStageGuard req s) as [r|] eqn:Hg; [|done].
  unfold handleExecClaimMutation. rewrite (proj2 (eqb_false _ _) Hk), (proj2 (eqb_false _ _) Hs). simpl.
  rewrite bind_eq. unfold cached_stage in Hc. destruct (HasPrefix (ecKey req) "task.") eqn:Hp.
  - apply fmap_Some in Hc as (a & Ha & ->). rewrite (getTask_cached _ _ _ Hp Ha). simpl. by rewrite Hg.
  - destruct (HasPrefix (ecKey req) "req.") eqn:Hq; [|done]. apply fmap_Some in Hc as (r' & Hr & ->).
    assert (Hn : getTask E (ecKey req) w = (w, None)) by (unfold getTask; by rewrite Hp).
    rewrite Hn. simpl. rewrite bind_eq, (getReq_cached _ _ _ Hq Hr). simpl. by rewrite Hg.
Qed.

(** A claim that succeeded left the claimed stage under the key. *)
Lemma claim_ok_stage req w k n :
  (handleExecClaimMutation E req w).2 = ExecOK k n →
  ecKey req ≠ "" ∧ ecStage req ≠ "" ∧
  cached_stage (ecKey req) (handleExecClaimMutation E req w).1 = Some (ecStage req).
Proof.
  unfold handleExecClaimMutation. destruct (_ || _) eqn:Hm; [done|].
  apply orb_false_iff in Hm as [H1 H2]. breflect.
  rewrite bind_eq. destruct (getTask E (ecKey req) w) as [w1 [t|]] eqn:Hg; simpl.
  - assert (Hp : HasPrefix (ecKey req) "task." = true) by (eapply getTask_prefix; rewrite Hg; by eexists).
    destruct (claimStageGuard _ _); [done|]. rewrite !bind_eq. simpl. intros _. split_and!; [done..|].
    destruct (saveTask_cached (ecKey req) (xwNext w1) (alloc (set_teStage (ecStage req) t) w1).1) as [Hc [u Hu]].
    unfold cached_stage. rewrite Hp. simpl in *. rewrite Hc. simpl. rewrite Hu.
    unfold deref. simpl. by rewrite lookup_insert_eq.
  - rewrite bind_eq. destruct (getReq E (ecKey req) w1) as [w2 [r|]] eqn:Hr; simpl; [|done].
    assert (Hq : HasPrefix (ecKey req) "req." = true) by (eapply getReq_prefix; rewrite Hr; by eexists).
    destruct (claimStageGuard _ _); [done|]. rewrite !bind_eq. simpl. intros _. split_and!; [done..|].
    unfold cached_stage. rewrite Hq.
    destruct (HasPrefix (ecKey req) "task.") eqn:Ht; [by destruct (prefixes_disjoint _ Ht Hq)|].
    destruct (saveReq_cached (ecKey req) (set_reStage (ecStage req) r) w2) as [u Hu]. by rewrite Hu.
Qed.

(** A claim is a compare-and-set.  After a claim of a row has succeeded the
    row is at the claimed stage, and every further claim of the row for that
    stage, whatever source stage it names, is refused. *)
Theorem exec_claim_once req req' w k n :
  (handleExecClaimMutation E req w).2 = ExecOK k n →
  ecKey req' = ecKey req → ecStage req' = ecStage req →
  let w' := (handleExecClaimMutation E req w).1 in
  cached_stage (ecKey req) w' = Some (ecStage req) ∧
  ∃ r, (handleExecClaimMutation E req' w').2 = ExecRefused r ∧
       (r = RAlreadyAtStage (ecStage req) ∨
        r = RExpectedSource (ecExpectedFromStage req') (ecStage req)).
Proof.
  intros Hok Hk Hs. destruct (claim_ok_stage req w k n Hok) as (Hk0 & Hs0 & Hc). intros w'.
  split; [done|]. rewrite <- Hk, <- Hs in *.
  assert (H := claim_cached req' (ecStage req') w' Hk0 Hs0 Hc). unfold claimStageGuard in H.
  rewrite Prelude.eqb_refl in H. destruct (_ && _); rewrite H; eauto.
Qed.

(** ** Reset *)

(** What is stored under a key of the bucket. *)
Definition kv_at (k : string) (w : XWorld) : option exec_row := xwKV w ≫= (.!! k).

(** A row that no cache shows and the bucket holds. *)
Definition expired_row (k : string) (r : exec_row) (w : XWorld) : Prop :=
  kv_at k w = Some r ∧ xwTaskCache w !! k = None ∧ xwReqCache w !! k = None.

Lemma deleteReq_other k k' r w :
  k ≠ k' → expired_row k r w → expired_row k r (deleteReq E k' w).1.
Proof.
  intros Hne (Hkv & Ht & Hr). unfold expired_row, kv_at in *.
  unfold deleteReq, mbind, X_bind, mret, X_ret. simpl.
  destruct (xwKV w) as [kv|] eqn:Hw; simpl in *; [|done].
  destruct (xKvDelErr _); simpl; rewrite ?Hw; simpl; rewrite !lookup_delete_ne by done; done.
Qed.

Lemma getReq_other k k' r w :
  k ≠ k' → expired_row k r w → expired_row k r (getReq E k' w).1.
Proof.
  intros Hne (Hkv & Ht & Hr). unfold expired_row, kv_at in *.
  unfold getReq, kvGet. destruct (negb _); [done|]. unfold mbind, X_bind, mret, X_ret. simpl.
  destruct (xwReqCache w !! k'); [done|]. simpl.
  match goal with |- context [match ?x with Some _ => _ | None => _ end] => destruct x end; [|done].
  simpl. by rewrite lookup_insert_ne.
Qed.

Lemma count_keeps {A Err} I (l : list A) n (body : A → X (bool + Err)) :
  (∀ x, x ∈ l → keeps I (body x)) → keeps I (xcount l n body).
Proof.
  revert n. induction l as [|x l IH]; intros n H; simpl; [apply keeps_ret|].
  apply keeps_bind; [apply H; set_solver|]. intros [c|e]; [apply IH; set_solver|apply keeps_ret].
Qed.

Lemma create_finds_row req t w :
  let k := TaskExecutionKey (tcSlug req) (tcTaskID req) in
  expired_row k (TaskRow t) w → tcSlug req ≠ "" → tcTaskID req ≠ "" →
  xKvGetErr (xeIO E (xwTick w)) = false →
  (handleTaskCreateMutation E req w).2 = ExecRefused (RTaskExists k).
Proof.
  intros k (Hkv & Ht & _) Hs Hid Hok. unfold handleTaskCreateMutation.
  rewrite (proj2 (eqb_false _ _) Hs), (proj2 (eqb_false _ _) Hid). simpl. fold k.
  assert (Hp : HasPrefix k "task." = true) by apply TaskExecutionKey_prefix.
  rewrite bind_eq. unfold getTask. rewrite Hp. simpl.
  rewrite bind_eq. simpl. rewrite Ht. unfold kvGet. rewrite !bind_eq. simpl.
  rewrite Hok. unfold kv_at in Hkv. destruct (xwKV w) as [kv|]; [|done]. simpl in *. by rewrite Hkv.
Qed.

(** A reset enumerates the rows of a requirement from the cache alone as soon
    as the cache shows one task of the plan: a row that has expired from the
    cache stays in the bucket, and its task is then refused as already
    existing. *)
Theorem reset_misses_expired_row slug reqID k k' a t w req :
  xwActive w = ∅ → (∀ n d, xeKeys E n d ≡ₚ elements d) →
  expired_row k (TaskRow t) w → teRequirementID t = reqID →
  k = TaskExecutionKey (tcSlug req) (tcTaskID req) → tcSlug req ≠ "" → tcTaskID req ≠ "" →
  xwTaskCache w !! k' = Some a → HasPrefix k' ("task." +:+ slug +:+ ".") = true →
  (∀ k2 b, xwTaskCache w !! k2 = Some b → TaskExecutionKey slug (teTaskID (deref w b)) = k2) →
  (∀ n, xKvGetErr (xeIO E n) = false) →
  let w' := (resetRequirementFamily E slug reqID w).1 in
  kv_at k w' = Some (TaskRow t) ∧
  (handleTaskCreateMutation E req w').2 = ExecRefused (RTaskExists k).
Proof.
  intros Hact Hkeys Hex Hreq Hk Hs Hid Hc Hp Hself Hget w'.
  assert (Hkp : HasPrefix k "task." = true) by (rewrite Hk; apply TaskExecutionKey_prefix).
  enough (Hex' : expired_row k (TaskRow t) w').
  { split; [apply Hex'|]. rewrite Hk in *. by apply (create_finds_row req t). }
  assert (Hcancel : cancelChildrenForRequirement E slug reqID "requirement_reset" w = (w, ())).
  { unfold cancelChildrenForRequirement. destruct (_ =? _); [done|]. rewrite bind_eq. simpl.
    unfold keys_of. rewrite Hact, dom_empty_L.
    assert (Hnil : xeKeys E (xwTick w) ∅ = []) by (apply Permutation_nil_r; rewrite Hkeys; done).
    by rewrite Hnil. }
  set (f := λ key, if HasPrefix key ("task." +:+ slug +:+ ".") then deref w <$> xwTaskCache w !! key else None).
  set (out := omap f (keys_of E w (xwTaskCache w))).
  assert (Hin : deref w a ∈ out).
  { apply list_elem_of_omap. exists k'. split; [|unfold f; by rewrite Hp, Hc].
    unfold keys_of. rewrite Hkeys, elem_of_elements, elem_of_dom. by eexists. }
  assert (Hlist : listTasksForSlug E slug w = (w, out)).
  { unfold listTasksForSlug. rewrite bind_eq. simpl. change (omap _ _) with out.
    destruct out; [by apply not_elem_of_nil in Hin|done]. }
  unfold w', resetRequirementFamily. rewrite bind_eq, Hcancel. simpl. rewrite bind_eq, Hlist. simpl.
  assert (Hne : k ≠ RequirementExecutionKey slug reqID).
  { intros ->. eapply prefixes_disjoint; [done|apply RequirementExecutionKey_prefix]. }
  apply (keeps_bind (expired_row k (TaskRow t))); [|intros [n|e]; [|apply keeps_ret]|done].
  - apply count_keeps. intros task Ht. destruct (_ !=? _); [apply keeps_ret|].
    apply keeps_bind; [|intros; apply keeps_ret]. intros w0. apply deleteReq_other.
    apply list_elem_of_omap in Ht as (key & _ & Hf). unfold f in Hf.
    destruct (HasPrefix key _); [|done]. apply fmap_Some in Hf as (b & Hb & ->).
    rewrite (Hself _ _ Hb). intros ->. destruct Hex as (_ & Hn & _). congruence.
  - apply keeps_bind; [intros w0; by apply getReq_other|]. intros [r|]; [|apply keeps_ret].
    apply keeps_bind; [intros w0; by apply deleteReq_other|intros; apply keeps_ret].
Qed.

(** ** Start-up *)

(** What start-up leaves: live executions with no task outstanding, and
    nothing that could move them. *)
Record dormant (w : XWorld) : Prop := {
  dm_timers : xwTimers w = ∅;
  dm_routing : xwRouting w = ∅;
  dm_out : xwOut w = [];
  dm_execs : ∀ o x, xwExecs w !! o = Some x → o < xwNext w ∧ lTerminated x = false;
  dm_ids : ∀ o x, xwExecs w !! o = Some x →
    teDeveloperTaskID (deref w o) = "" ∧ teReviewerTaskID (deref w o) = "";
  dm_active : ∀ e o, xwActive w !! e = Some o → is_Some (xwExecs w !! o) }.

Lemma dormant_stage w e o :
  dormant w → xwActive w !! e = Some o → currentStageTaskID (deref w o) = "".
Proof.
  intros Hd [x Hx]%(dm_active _ Hd). destruct (dm_ids _ Hd _ _ Hx) as [H1 H2].
  unfold currentStageTaskID. rewrite H1, H2. by repeat case_match.
Qed.

(** A row saved by its own execution changes its time only. *)
Lemma syncToStore_dormant o : keeps dormant (syncToStore E o).
Proof.
  intros w Hd. unfold syncToStore. rewrite !bind_eq. simpl.
  set (k := lKey (live w o)).
  assert (H : ∀ w', xwTimers w' = xwTimers w → xwRouting w' = xwRouting w → xwOut w' = xwOut w →
    xwExecs w' = xwExecs w → xwActive w' = xwActive w → xwNext w' = xwNext w →
    (∃ u, xwCells w' = <[o := set_teUpdatedAt u (deref w o)]> (xwCells w)) → dormant w').
  { intros w' H1 H2 H3 H4 H5 H6 [u H7]. destruct Hd as [? ? ? Hx Hid ?].
    split; rewrite ?H1, ?H2, ?H3, ?H4, ?H5, ?H6; try done.
    intros a x Ha. unfold deref. rewrite H7. destruct (decide (o = a)) as [->|Hne].
    - rewrite lookup_insert_eq. simpl. by eapply Hid.
    - rewrite lookup_insert_ne by done. by apply (Hid a x). }
  apply H; unfold saveTask, mbind, X_bind, mret, X_ret; simpl;
    (destruct (xwKV w) as [kv|] eqn:Hkv; [destruct (xMarshalErr _); [|destruct (xKvPutErr _)]|]);
    simpl; try done; by eexists.
Qed.

Lemma activate_dormant key t :
  teDeveloperTaskID t = "" → teReviewerTaskID t = "" → keeps dormant (activate key t).
Proof.
  intros H1 H2 w [? ? ? Hx Hid Ha]. split; simpl; try done.
  - intros o x [[<- <-]|[_ [? ?]%Hx]]%lookup_insert_Some; simpl; split; (done || lia).
  - intros o x [[<- <-]|[Hne Ho]]%lookup_insert_Some; unfold deref; simpl.
    + by rewrite lookup_insert_eq.
    + rewrite lookup_insert_ne by done. by apply (Hid o x).
  - intros e o [[_ <-]|[_ ?%Ha]]%lookup_insert_Some; apply lookup_insert_is_Some'; auto.
Qed.

Lemma reconcileFromGraph_dormant entities : keeps dormant (reconcileFromGraph E entities).
Proof.
  unfold reconcileFromGraph. apply keeps_for. intros [e m]. destruct (IsTerminalTaskStage _); [apply keeps_ret|].
  apply keeps_bind; [by apply activate_dormant|intros o]. apply syncToStore_dormant.
Qed.

(** The loops replayed from the bucket, one after the other. *)
Fixpoint replay (loops : list LoopEntity) (kept : gmap string LoopEntity) : X (gmap string LoopEntity) :=
  match loops with
  | [] => mret kept
  | l :: loops => kept ← handleLoopEntityUpdateReplay E l kept; replay loops kept
  end.

Lemma replay_dormant loops kept w : dormant w → replay loops kept w = (w, kept).
Proof.
  intros Hd. induction loops as [|l loops IH]; simpl; [done|]. rewrite bind_eq.
  assert (Hl : handleLoopEntityUpdateReplay E l kept w = (w, kept)); [|by rewrite Hl].
  unfold handleLoopEntityUpdateReplay. destruct (negb (ours l)) eqn:Ho; [done|].
  rewrite bind_eq. simpl. rewrite (dm_routing _ Hd), lookup_empty.
  destruct (list_find _ _) as [[i e]|] eqn:Hf; [|done]. exfalso.
  apply list_find_Some in Hf as (_ & He & _). apply fmap_Some in He as (o & Ha & Hid).
  rewrite (dormant_stage _ _ _ Hd Ha) in Hid. unfold ours in Ho.
  apply negb_false_iff, andb_true_iff in Ho as [_ Ho]. by rewrite Hid in Ho.
Qed.

Lemma resume_dormant kept w : dormant w → resumeStuckExecutions E kept w = (w, ()).
Proof.
  intros Hd. unfold resumeStuckExecutions. rewrite bind_eq. simpl.
  induction (keys_of E w (xwActive w)) as [|e l IH]; simpl; [done|]. rewrite bind_eq.
  assert (He : resumeStuckExecution E kept e w = (w, ())); [|by rewrite He].
  unfold resumeStuckExecution. rewrite bind_eq. simpl.
  destruct (xwActive w !! e) as [o|] eqn:Ha; [|done]. destruct (lTerminated _); [done|].
  by rewrite (dormant_stage _ _ _ Hd Ha).
Qed.

(** Start-up does not bring recovered executions back to life.  After
    [reconcileFromGraph], the replay of any loops and
    [resumeStuckExecutions], every recovered execution is active and not
    ended, and there is no timer, no route and no message that could ever
    move it. *)
Theorem recovered_never_resumed entities loops w :
  start_world w →
  let w1 := (reconcileFromGraph E entities w).1 in
  let '(w2, kept) := replay loops ∅ w1 in
  let w3 := (resumeStuckExecutions E kept w2).1 in
  w3 = w1 ∧ xwTimers w3 = ∅ ∧ xwRouting w3 = ∅ ∧ xwOut w3 = [] ∧
  (∀ e o, xwActive w3 !! e = Some o → lTerminated (live w3 o) = false).
Proof.
  intros (He & Ha & Hr & Ht & _ & _ & Ho) w1.
  assert (Hd : dormant w1).
  { apply reconcileFromGraph_dormant. split; rewrite ?He, ?Ha; try done; intros k x H; by rewrite lookup_empty in H. }
  rewrite replay_dormant by done. simpl. rewrite resume_dormant by done. simpl.
  split_and!; [done|apply Hd..|]. intros e o [x Hx]%(dm_active _ Hd). unfold live. rewrite Hx.
  by apply (dm_execs _ Hd o x).
Qed.
End facts.

Lemma exec_claim_once_witness :
  let req := MkExecClaimRequest run_key "developing" "pending" in
  let w' := (handleExecClaimMutation run_env req run0).1 in
  (handleExecClaimMutation run_env req run0).2 = ok_reply ∧
  ∃ r, (handleExecClaimMutation run_env req w').2 = ExecRefused r.
Proof.
  intros req w'.
  assert (Hok : (handleExecClaimMutation run_env req run0).2 = ok_reply) by (by vm_compute).
  split; [exact Hok|].
  destruct (exec_claim_once run_env req req run0 "" 0 Hok eq_refl eq_refl) as [_ (r & Hr & _)].
  exists r. exact Hr.
Defined.

(** Two tasks of one requirement; the row of the second has left the cache. *)
Definition second_request : TaskCreateRequest :=
  {| tcSlug := "demo"; tcTaskID := "t2"; tcRequirementID := "r1"; tcTitle := "t"; tcDescription := "";
     tcProjectID := ""; tcPrompt := "p"; tcModel := ""; tcTraceID := ""; tcLoopID := "";
     tcRequestID := ""; tcTaskType := ""; tcAgentID := ""; tcWorktreePath := ""; tcWorktreeBranch := "";
     tcScenarioBranch := ""; tcFileScope := []; tcScenarios := []; tcMaxTDDCycles := 0 |}.
Definition second_key : string := TaskExecutionKey "demo" "t2".
Definition half_expired : XWorld :=
  (getTask run_env run_key (stored_world {[ run_key := TaskRow run_task;
     second_key := TaskRow (new_task run_env second_request 0) ]})).1.

Lemma reset_misses_expired_row_witness :
  let w' := (resetRequirementFamily run_env "demo" "r1" half_expired).1 in
  (resetRequirementFamily run_env "demo" "r1" half_expired).2 = ExecOK "" 1 ∧
  (handleTaskCreateMutation run_env second_request w').2 = ExecRefused (RTaskExists second_key).
Proof.
  split; [by vm_compute|].
  apply (reset_misses_expired_row run_env "demo" "r1" second_key run_key 0
           (new_task run_env second_request 0) half_expired second_request).
  - by vm_compute.
  - by intros n d.
  - split_and!; by vm_compute.
  - done.
  - done.
  - done.
  - done.
  - by vm_compute.
  - by vm_compute.
  - intros k b H.
    assert (Hc : xwTaskCache half_expired = {[ run_key := 0%nat ]}) by (by vm_compute).
    rewrite Hc in H. apply lookup_singleton_Some in H as [<- <-]. by vm_compute.
  - done.
Defined.

(** An execution that was developing when the manager stopped. *)
Definition recovered_entity : string * gmap string string :=
  ("task-execution.demo.t1",
   {[ wf.Phase := phaseDeveloping; wf.Slug := "demo"; wf.TaskID := "t1"; wf.MaxTDDCycles := "3" ]}).

Lemma recovered_never_resumed_witness :
  let w1 := (reconcileFromGraph run_env (Some [recovered_entity]) (stored_world ∅)).1 in
  xwActive w1 !! "task-execution.demo.t1" = Some 0%nat ∧
  xwTimers (resumeStuckExecutions run_env ∅ w1).1 = ∅.
Proof.
  intros w1. split; [by vm_compute|].
  assert (H := recovered_never_resumed run_env (Some [recovered_entity]) [] (stored_world ∅)
                 ltac:(by repeat split)).
  exact (proj1 (proj2 H)).
Defined.
