(* ===== verification/TddRefinement.v ===== *)
(** * The TDD pipeline refines a small state machine

    The abstract machine [tdd_step] says what a task goes through: it is
    developed, validated and reviewed in cycles, a reviewer that cannot be
    understood is asked again a bounded number of times, and the end is an
    approval, an escalation or an error.  Every step of the execution
    manager moves every live execution along the machine ([xstep_simulates]).
    The machine ends, so the number of agents an execution may start is
    bounded, and an execution that has not ended has a timer that will end
    it. *)

From S2P Require Import Prelude Paths Types PlanStore ExecTypes Feedback ExecStore TddPipeline.
From S2P Require Import ExecMutations ExecManager.

Local Open Scope string_scope.
Local Open Scope Z_scope.
Local Open Scope go_scope.

(** ** The abstract machine *)

Inductive tdd_state :=
| TStarting
| TDeveloping (cycle : Z)
| TValidating (cycle : Z)
| TReviewing (cycle retries : Z)
| TDone (stage : string).

#[export] Instance tdd_state_eq_dec : EqDecision tdd_state.
Proof. solve_decision. Defined.

(** [M] is the budget of cycles, [R] of reviewer retries per cycle. *)
Inductive tdd_step (M R : Z) : tdd_state → tdd_state → Prop :=
| ts_start : tdd_step M R TStarting (TDeveloping 0)
| ts_retry c : c + 1 < M → tdd_step M R (TDeveloping c) (TDeveloping (c + 1))
| ts_exhausted c : M ≤ c + 1 → tdd_step M R (TDeveloping c) (TDone phaseEscalated)
| ts_submit c : tdd_step M R (TDeveloping c) (TValidating c)
| ts_valid c : tdd_step M R (TValidating c) (TReviewing c 0)
| ts_invalid c : c + 1 < M → tdd_step M R (TValidating c) (TDeveloping (c + 1))
| ts_gap c : tdd_step M R (TValidating c) (TDone phaseEscalated)
| ts_reparse c r : r < R → tdd_step M R (TReviewing c r) (TReviewing c (r + 1))
| ts_reject c r : c + 1 < M → tdd_step M R (TReviewing c r) (TDeveloping (c + 1))
| ts_escalate c r : tdd_step M R (TReviewing c r) (TDone phaseEscalated)
| ts_approve c r : tdd_step M R (TReviewing c r) (TDone phaseApproved)
| ts_abort s : (∀ stage, s ≠ TDone stage) → tdd_step M R s (TDone phaseError).

(** What is left to do at most. *)
Definition tdd_measure (M R : Z) (s : tdd_state) : Z :=
  let left c := Z.max 0 (M - 1 - c) * (R + 3) in
  match s with
  | TStarting => R + 4 + left 0
  | TDeveloping c => R + 3 + left c
  | TValidating c => R + 2 + left c
  | TReviewing c r => R - r + 1 + left c
  | TDone _ => 0
  end.

(** The states a run can be in. *)
Definition tdd_ok (M R : Z) (s : tdd_state) : Prop :=
  match s with
  | TReviewing _ r => 0 ≤ r ≤ R
  | _ => True
  end.

Lemma tdd_step_ok M R s s' : 0 ≤ R → tdd_step M R s s' → tdd_ok M R s → tdd_ok M R s'.
Proof. intros ?. destruct 1; simpl; try done; lia. Qed.

Lemma tdd_step_measure M R s s' :
  0 ≤ R → tdd_ok M R s → tdd_step M R s s' →
  0 ≤ tdd_measure M R s' < tdd_measure M R s.
Proof.
  intros HR Hok Hs. destruct Hs; cbn [tdd_measure tdd_ok] in *; try nia.
  destruct s; cbn [tdd_measure tdd_ok] in *; try nia. by destruct (H stage).
Qed.

(** A run of the machine takes no more steps than its measure. *)
Lemma tdd_nsteps M R n s s' :
  0 ≤ R → tdd_ok M R s → nsteps (tdd_step M R) n s s' → Z.of_nat n ≤ tdd_measure M R s.
Proof.
  intros HR Hok Hn. revert Hok. induction Hn as [s|n s s1 s' Hs Hn IH]; intros Hok.
  { destruct s; cbn [tdd_measure tdd_ok] in *; nia. }
  assert (Hm := tdd_step_measure _ _ _ _ HR Hok Hs).
  specialize (IH (tdd_step_ok _ _ _ _ HR Hs Hok)). lia.
Qed.

(** ** What an execution has been given to do *)

(** An agent task of the execution for a step of the workflow. *)
Definition agent_task (step : string) (o : nat) (ev : exec_event) : bool :=
  match ev with EvAgentTask a _ m => bool_decide (a = o) && (tmWorkflowStep m =? step) | _ => false end.

Definition tasks_of (step : string) (w : XWorld) (o : nat) : Z :=
  Z.of_nat (length (filter (λ ev, agent_task step o ev = true) (xwOut w))).

(** Not an agent task, or one of the execution. *)
Definition no_agent (ev : exec_event) : Prop :=
  match ev with EvAgentTask _ _ _ => False | _ => True end.
Definition tagged (o : nat) (ev : exec_event) : Prop :=
  match ev with EvAgentTask a _ _ => a = o | _ => True end.

Lemma tasks_app step w w' o evs :
  xwOut w' = (xwOut w ++ evs)%list →
  tasks_of step w' o = tasks_of step w o +
    Z.of_nat (length (filter (λ ev, agent_task step o ev = true) evs)).
Proof. intros H. unfold tasks_of. rewrite H, filter_app, length_app. lia. Qed.

Lemma no_agent_none step o evs :
  Forall no_agent evs → filter (λ ev, agent_task step o ev = true) evs = [].
Proof.
  induction 1 as [|ev evs H _ IH]; [done|]. rewrite filter_cons_False, IH; [done|].
  by destruct ev.
Qed.

Lemma tagged_none step o a evs :
  Forall (tagged o) evs → a ≠ o → filter (λ ev, agent_task step a ev = true) evs = [].
Proof.
  intros Hf Ha. induction Hf as [|ev evs H _ IH]; [done|]. rewrite filter_cons_False, IH; [done|].
  destruct ev; simpl in *; try done. subst. by rewrite bool_decide_eq_false_2.
Qed.

(** ** Programs that do not touch the pipeline *)

(** Only the store, the clock and events that start no agent have changed,
    and of the execution's row only the time of the last save. *)
Record quiet (o : nat) (w w' : XWorld) : Prop := Quiet {
  q_next : (xwNext w ≤ xwNext w')%nat;
  q_cells : ∀ a, (a < xwNext w)%nat → a ≠ o → xwCells w' !! a = xwCells w !! a;
  q_row : ∃ u, deref w' o = set_teUpdatedAt u (deref w o);
  q_execs : xwExecs w' = xwExecs w;
  q_active : xwActive w' = xwActive w;
  q_routing : xwRouting w' = xwRouting w;
  q_timers : xwTimers w' = xwTimers w;
  q_starting : xwStarting w' = xwStarting w;
  q_validating : xwValidating w' = xwValidating w;
  q_out : ∃ evs, xwOut w' = (xwOut w ++ evs)%list ∧ Forall no_agent evs }.

Definition quietp {A} (o : nat) (m : X A) : Prop :=
  ∀ w, (o < xwNext w)%nat → quiet o w (m w).1.

Lemma row_same t : set_teUpdatedAt (teUpdatedAt t) t = t.
Proof. by destruct t. Qed.

Lemma quiet_same o w w' :
  xwNext w' = xwNext w → xwCells w' = xwCells w → xwExecs w' = xwExecs w →
  xwActive w' = xwActive w → xwRouting w' = xwRouting w → xwTimers w' = xwTimers w →
  xwStarting w' = xwStarting w → xwValidating w' = xwValidating w → xwOut w' = xwOut w →
  quiet o w w'.
Proof.
  intros Hn Hc ?????? Ho. split; try done; [lia|by rewrite Hc| |].
  - exists (teUpdatedAt (deref w o)). unfold deref. by rewrite Hc, row_same.
  - exists []. rewrite Ho. by rewrite app_nil_r.
Qed.

Lemma quiet_refl o w : quiet o w w.
Proof. by apply quiet_same. Qed.

Lemma quiet_trans o w1 w2 w3 : (o < xwNext w1)%nat → quiet o w1 w2 → quiet o w2 w3 → quiet o w1 w3.
Proof.
  intros Ho [] []. split; [lia| |..].
  - intros a Ha Hne. rewrite q_cells1 by (done || lia). by apply q_cells0.
  - destruct q_row0 as [u Hu], q_row1 as [u' Hu']. exists u'. by rewrite Hu', Hu.
  - congruence.
  - congruence.
  - congruence.
  - congruence.
  - congruence.
  - congruence.
  - destruct q_out0 as (e1 & H1 & F1), q_out1 as (e2 & H2 & F2). exists (e1 ++ e2)%list.
    rewrite H2, H1, (assoc (++)%list). split; [done|]. by apply Forall_app.
Qed.

Lemma quietp_ret {A} o (x : A) : quietp o (mret x : X A).
Proof. intros w _. apply quiet_refl. Qed.

Lemma quietp_bind {A B} o (m : X A) (f : A → X B) :
  quietp o m → (∀ x, quietp o (f x)) → quietp o (m ≫= f).
Proof.
  intros Hm Hf w Ho. specialize (Hm w Ho). unfold mbind, X_bind.
  destruct (m w) as [w1 x]. simpl in Hm. eapply quiet_trans; [done..|]. apply Hf.
  assert (H := q_next _ _ _ Hm). lia.
Qed.

Lemma quietp_read o : quietp o xread.
Proof. intros w _. apply quiet_refl. Qed.

Lemma quietp_row o a : quietp o (row a).
Proof. intros w _. apply quiet_refl. Qed.

Lemma quietp_exec o a : quietp o (exec a).
Proof. intros w _. apply quiet_refl. Qed.

Lemma quietp_tick E o : quietp o (xtick E).
Proof. intros w _. by apply quiet_same. Qed.

Lemma quietp_emit o ev : no_agent ev → quietp o (emit ev).
Proof.
  intros Hev w _. split; try done.
  - exists (teUpdatedAt (deref w o)). by rewrite row_same.
  - exists [ev]. simpl. split; [done|]. by repeat constructor.
Qed.

Lemma quietp_alloc o t : quietp o (alloc t).
Proof.
  intros w Ho. split; try done; simpl; [lia| | |].
  - intros a Ha _. rewrite lookup_insert_ne by lia. done.
  - exists (teUpdatedAt (deref w o)). unfold deref. simpl. rewrite lookup_insert_ne by lia.
    by rewrite row_same.
  - exists []. by rewrite app_nil_r.
Qed.

Lemma quietp_cacheTask o k a : quietp o (cacheTask k a).
Proof. intros w _. by apply quiet_same. Qed.
Lemma quietp_cacheReq o k r : quietp o (cacheReq k r).
Proof. intros w _. by apply quiet_same. Qed.
Lemma quietp_kvPut o k r : quietp o (kvPut k r).
Proof. intros w _. by apply quiet_same. Qed.

Lemma quietp_if {A} o (b : bool) (m m' : X A) :
  quietp o m → quietp o m' → quietp o (if b then m else m').
Proof. by destruct b. Qed.

Create HintDb quiet.
#[export] Hint Resolve quietp_ret quietp_read quietp_row quietp_exec quietp_tick quietp_alloc
  quietp_cacheTask quietp_cacheReq quietp_kvPut : quiet.
#[export] Hint Extern 1 (quietp _ (emit _)) => apply quietp_emit; exact I : quiet.

Ltac quiet_step :=
  lazymatch goal with
  | |- quietp _ (mbind _ _) => apply quietp_bind; [|intros ?]
  | |- quietp _ (if ?b then _ else _) => destruct b
  | |- quietp _ (match ?x with _ => _ end) => destruct x
  end.
Ltac quiet_auto := repeat (quiet_step || (solve [auto 2 with quiet])).

Section quiet_ops.
Context (E : ExecEnv).

Lemma kvGet_quiet o k : quietp o (kvGet E k).
Proof. unfold kvGet. quiet_auto. Qed.
#[local] Hint Resolve kvGet_quiet : quiet.

Lemma getReq_quiet o k : quietp o (getReq E k).
Proof. unfold getReq. quiet_auto. Qed.

(** Saving the row of the execution itself. *)
Lemma saveTask_quiet o k : quietp o (saveTask E k o).
Proof.
  unfold saveTask. apply quietp_bind; [apply quietp_tick|intros io].
  apply quietp_bind; [|intros _; quiet_auto].
  intros w Ho. split; try done; simpl.
  - intros a Ha Hne. by rewrite lookup_insert_ne.
  - exists (xNow io). unfold deref. simpl. by rewrite lookup_insert_eq.
  - exists []. by rewrite app_nil_r.
Qed.

Lemma syncToStore_quiet o : quietp o (syncToStore E o).
Proof.
  unfold syncToStore. quiet_step; [apply quietp_exec|]. quiet_step; [apply saveTask_quiet|].
  apply quietp_ret.
Qed.
#[local] Hint Resolve getReq_quiet saveTask_quiet syncToStore_quiet : quiet.

Lemma discardWorktree_quiet o : quietp o (discardWorktree E o).
Proof. unfold discardWorktree. quiet_auto. Qed.
Lemma checkWorktreeExists_quiet o : quietp o (checkWorktreeExists E o).
Proof. unfold checkWorktreeExists. quiet_auto. Qed.
Lemma emitRecoveryRequested_quiet o r : quietp o (emitRecoveryRequested E r).
Proof. unfold emitRecoveryRequested. quiet_auto. Qed.
Lemma parentRequirementTerminated_quiet o : quietp o (parentRequirementTerminated E o).
Proof. unfold parentRequirementTerminated. quiet_auto. Qed.
Lemma readPlan_quiet o slug : quietp o (readPlan E slug).
Proof. unfold readPlan. quiet_auto. Qed.
#[local] Hint Resolve readPlan_quiet : quiet.
Lemma lookupRecoveryHint_quiet o slug id : quietp o (lookupRecoveryHint E slug id).
Proof. unfold lookupRecoveryHint. quiet_auto. Qed.
Lemma merge_attempts_quiet n o t last : quietp o (merge_attempts E n o t last).
Proof. revert last. induction n as [|n IH]; intros last; simpl; quiet_auto; apply IH. Qed.
Lemma developerWorkClean_quiet o : quietp o (developerWorkClean E o).
Proof. unfold developerWorkClean. quiet_auto. Qed.
Lemma developerLeakedToWorkspace_quiet o : quietp o (developerLeakedToWorkspace E o).
Proof. unfold developerLeakedToWorkspace. quiet_auto. Qed.
Lemma publishLesson_quiet o v f l : quietp o (publishLessonDecomposeRequest E o v f l).
Proof. unfold publishLessonDecomposeRequest. quiet_auto. Qed.
End quiet_ops.

#[export] Hint Resolve kvGet_quiet getReq_quiet saveTask_quiet syncToStore_quiet
  discardWorktree_quiet checkWorktreeExists_quiet emitRecoveryRequested_quiet
  parentRequirementTerminated_quiet readPlan_quiet lookupRecoveryHint_quiet merge_attempts_quiet
  developerWorkClean_quiet developerLeakedToWorkspace_quiet publishLesson_quiet : quiet.

(** ** Well-formed worlds *)

Definition ent (w : XWorld) (o : nat) : string := teEntityID (deref w o).

(** The identifier of a task tells its step. *)
Definition dev_id (id : string) : Prop := id = "" ∨ HasPrefix id "dev-" = true.
Definition rev_id (id : string) : Prop := id = "" ∨ HasPrefix id "rev-" = true.

Definition task_shape (m : TaskMessage) : Prop :=
  (HasPrefix (tmTaskID m) "dev-" = true ∧ tmWorkflowStep m = stageDevelop) ∨
  (HasPrefix (tmTaskID m) "rev-" = true ∧ tmWorkflowStep m = stageReview).

Record WF (w : XWorld) : Prop := {
  wf_exec : ∀ o x, xwExecs w !! o = Some x → (o < xwNext w)%nat;
  wf_active : ∀ e o, xwActive w !! e = Some o → is_Some (xwExecs w !! o) ∧ ent w o = e;
  wf_timers : ∀ t o, xwTimers w !! t = Some o → (t < xwNext w)%nat ∧ is_Some (xwExecs w !! o);
  wf_timer : ∀ o x t, xwExecs w !! o = Some x → lTimer x = Some t →
    (t < xwNext w)%nat ∧ ∀ o', xwTimers w !! t = Some o' → o' = o;
  wf_ids : ∀ o x, xwExecs w !! o = Some x →
    dev_id (teDeveloperTaskID (deref w o)) ∧ rev_id (teReviewerTaskID (deref w o));
  wf_out : ∀ o s m, EvAgentTask o s m ∈ xwOut w → is_Some (xwExecs w !! o) ∧ task_shape m }.

(** What a program working on the execution [o] leaves alone. *)
Record acts (o : nat) (w w' : XWorld) : Prop := {
  a_next : (xwNext w ≤ xwNext w')%nat;
  a_cells : ∀ a, (a < xwNext w)%nat → a ≠ o → xwCells w' !! a = xwCells w !! a;
  a_execs : ∀ a, a ≠ o → xwExecs w' !! a = xwExecs w !! a;
  a_known : is_Some (xwExecs w' !! o) ↔ is_Some (xwExecs w !! o);
  a_ent : ent w' o = ent w o;
  a_max : teMaxTDDCycles (deref w' o) = teMaxTDDCycles (deref w o);
  a_active : ∀ e, xwActive w' !! e = xwActive w !! e ∨ (e = ent w o ∧ xwActive w' !! e = None);
  a_routing : ∀ t e, xwRouting w' !! t = Some e → xwRouting w !! t = Some e ∨ e = ent w o;
  a_timers : ∀ t a, a ≠ o → xwTimers w' !! t = Some a ↔ xwTimers w !! t = Some a;
  a_starting : ∀ a, a ≠ o → a ∈ xwStarting w' ↔ a ∈ xwStarting w;
  a_validating : ∀ a, a ≠ o → a ∈ xwValidating w' ↔ a ∈ xwValidating w;
  a_out : ∃ evs, xwOut w' = (xwOut w ++ evs)%list ∧ Forall (tagged o) evs }.

Lemma acts_refl o w : acts o w w.
Proof. split; try done; [by left|by left|]. exists []. by rewrite app_nil_r. Qed.

Lemma acts_trans o w1 w2 w3 : acts o w1 w2 → acts o w2 w3 → acts o w1 w3.
Proof.
  intros [] []. split.
  - lia.
  - intros a Ha Hne. rewrite a_cells1 by (done || lia). by apply a_cells0.
  - intros a Hne. rewrite a_execs1 by done. by apply a_execs0.
  - by rewrite a_known1.
  - congruence.
  - congruence.
  - intros e. destruct (a_active1 e) as [->|[He ->]]; [apply a_active0|]. right. by rewrite He.
  - intros t e [H|H]%a_routing1; [by apply a_routing0|]. right. congruence.
  - intros t a Hne. by rewrite a_timers1, a_timers0.
  - intros a Hne. by rewrite a_starting1, a_starting0.
  - intros a Hne. by rewrite a_validating1, a_validating0.
  - destruct a_out0 as (e1 & H1 & F1), a_out1 as (e2 & H2 & F2). exists (e1 ++ e2)%list.
    rewrite H2, H1, (assoc (++)%list). split; [done|]. by apply Forall_app.
Qed.

Lemma quiet_acts o w w' : quiet o w w' → acts o w w'.
Proof.
  intros [? ? [u Hu] He Ha Hr Ht Hs Hv (evs & Ho & Hf)]. unfold ent. split; unfold ent.
  - done.
  - done.
  - by intros; rewrite He.
  - by rewrite He.
  - by rewrite Hu.
  - by rewrite Hu.
  - intros e. left. by rewrite Ha.
  - intros t e. rewrite Hr. auto.
  - intros. by rewrite Ht.
  - intros. by rewrite Hs.
  - intros. by rewrite Hv.
  - exists evs. split; [done|]. eapply Forall_impl; [done|]. by intros [].
Qed.

Lemma deref_cells w w' a : xwCells w' !! a = xwCells w !! a → deref w' a = deref w a.
Proof. unfold deref. by intros ->. Qed.

Lemma acts_deref o w w' a x :
  WF w → acts o w w' → a ≠ o → xwExecs w !! a = Some x → deref w' a = deref w a.
Proof. intros Hw H Hne Ha. apply deref_cells, (a_cells _ _ _ H); [|done]. by eapply wf_exec. Qed.

(** Well-formedness looks at the live part of the world only. *)
Lemma frame_wf w w' :
  (xwNext w ≤ xwNext w')%nat → xwExecs w' = xwExecs w → xwActive w' = xwActive w →
  xwTimers w' = xwTimers w →
  (∀ a x, xwExecs w !! a = Some x → ∃ u, deref w' a = set_teUpdatedAt u (deref w a)) →
  (∃ evs, xwOut w' = (xwOut w ++ evs)%list ∧ Forall no_agent evs) → WF w → WF w'.
Proof.
  intros Hn He Ha Ht Hd (evs & Ho & Hf) []. split.
  - intros a x. rewrite He. intros ?%wf_exec0. lia.
  - intros e a. rewrite Ha, He. intros [Hx <-]%wf_active0. split; [done|].
    destruct Hx as [x Hx]. destruct (Hd a x Hx) as [u' Hu']. unfold ent. by rewrite Hu'.
  - intros t a. rewrite Ht, He. intros [? ?]%wf_timers0. split; [lia|done].
  - intros a x t. rewrite He, Ht. intros Hx Hl. destruct (wf_timer0 a x t Hx Hl). split; [lia|done].
  - intros a x. rewrite He. intros Hx. destruct (Hd a x Hx) as [u' Hu']. rewrite Hu'. by apply (wf_ids0 a x).
  - intros a s m. rewrite He, Ho, elem_of_app. intros [Hin|Hin]; [by apply (wf_out0 _ _ _ Hin)|].
    rewrite Forall_forall in Hf. by apply Hf in Hin.
Qed.

Lemma quiet_wf o w w' : quiet o w w' → WF w → WF w'.
Proof.
  intros Hq Hw. assert (Hac := quiet_acts _ _ _ Hq). destruct Hq. eapply frame_wf; try done.
  intros a x Hx. destruct (decide (a = o)) as [->|Hne]; [eauto|].
  exists (teUpdatedAt (deref w a)). rewrite row_same. by eapply acts_deref.
Qed.

(** ** Where an execution stands *)

Section refinement.
Context (E : ExecEnv).

(** The entities that something outside the machine has disturbed: an
    execution of theirs was started after it had been cancelled, was
    recovered at start-up, or dropped out of the cache of active executions. *)
Context (ds : list string).

(** The number of times a reviewer may be asked again in a cycle. *)
Definition retry_budget : Z := Z.max 0 (max_review_retries E).

(** Routes to the entity of an execution lead to one of [ids]. *)
Definition routes_in (w : XWorld) (o : nat) (ids : list string) : Prop :=
  ∀ t, xwRouting w !! t = Some (ent w o) → t ∈ ids.

Definition armed (w : XWorld) (o : nat) : Prop :=
  ∃ t, lTimer (live w o) = Some t ∧ xwTimers w !! t = Some o.

(** A live execution in cycle [c] with [r] reviewer retries, given at most
    [d] developer tasks and [v] reviewer tasks. *)
Record core (w : XWorld) (o : nat) (c r d v : Z) : Prop := {
  c_known : is_Some (xwExecs w !! o);
  c_live : lTerminated (live w o) = false;
  c_active : xwActive w !! ent w o = Some o;
  c_cycle : teTDDCycle (deref w o) = c;
  c_cycle_nonneg : 0 ≤ c;
  c_cycle_bound : c = 0 ∨ c < teMaxTDDCycles (deref w o);
  c_retry : teReviewRetryCount (deref w o) = r;
  c_retry_bound : 0 ≤ r ≤ retry_budget;
  c_devs : tasks_of stageDevelop w o ≤ d;
  c_revs : tasks_of stageReview w o ≤ v }.

(** Between two stages: nothing is outstanding. *)
Record mid (w : XWorld) (o : nat) (c r d v : Z) : Prop := {
  m_core : core w o c r d v;
  m_started : o ∉ xwStarting w;
  m_armed : armed w o;
  m_idle : o ∉ xwValidating w;
  m_routes : routes_in w o [] }.

(** The work of the execution has been merged, or there was nothing to
    merge with, or the component was shutting down. *)
Definition merged (w : XWorld) (o : nat) : Prop :=
  (∃ id target msg trailers, EvMergeWorktree o id target msg trailers true ∈ xwOut w) ∨
  no_sandbox E = true ∨ teWorktreePath (deref w o) = "" ∨ (∃ n, xShutdown (xeIO E n) = true).

Lemma merged_mono w w' o :
  (∀ ev, ev ∈ xwOut w → ev ∈ xwOut w') → teWorktreePath (deref w' o) = teWorktreePath (deref w o) →
  merged w o → merged w' o.
Proof. unfold merged. intros Ho ->. naive_solver. Qed.

Lemma merged_quiet o w w' : quiet o w w' → merged w o → merged w' o.
Proof.
  intros Hq. apply merged_mono; [|by destruct (q_row _ _ _ Hq) as [u ->]].
  destruct (q_out _ _ _ Hq) as (evs & -> & _). set_solver.
Qed.

(** Ended: no longer active, its row in a terminal stage. *)
Record ended (w : XWorld) (o : nat) (stage : string) : Prop := {
  e_known : is_Some (xwExecs w !! o);
  e_terminated : lTerminated (live w o) = true;
  e_inactive : ∀ e, xwActive w !! e ≠ Some o;
  e_stage : teStage (deref w o) = stage;
  e_terminal : stage = phaseApproved ∨ stage = phaseEscalated ∨ stage = phaseError;
  e_merged : stage = phaseApproved → merged w o;
  e_cycle : 0 ≤ teTDDCycle (deref w o);
  e_cycle_bound : teTDDCycle (deref w o) = 0 ∨ teTDDCycle (deref w o) < teMaxTDDCycles (deref w o);
  e_devs : tasks_of stageDevelop w o ≤ teTDDCycle (deref w o) + 1;
  e_revs : tasks_of stageReview w o ≤ (teTDDCycle (deref w o) + 1) * (1 + retry_budget) }.

(** The state of the machine an execution is in; its row names the stage. *)
Definition stands (w : XWorld) (o : nat) (s : tdd_state) : Prop :=
  match s with
  | TStarting =>
      core w o 0 0 0 0 ∧ teStage (deref w o) = phaseDeveloping ∧
      o ∈ xwStarting w ∧ (o ∉ xwValidating w) ∧ routes_in w o [] ∧ teDeveloperTaskID (deref w o) = ""
  | TDeveloping c =>
      core w o c 0 (c + 1) (c * (1 + retry_budget)) ∧ teStage (deref w o) = phaseDeveloping ∧
      (o ∉ xwStarting w) ∧ armed w o ∧ (o ∉ xwValidating w) ∧
      routes_in w o [teDeveloperTaskID (deref w o)]
  | TValidating c =>
      core w o c 0 (c + 1) (c * (1 + retry_budget)) ∧ teStage (deref w o) = phaseValidating ∧
      (o ∉ xwStarting w) ∧ armed w o ∧ o ∈ xwValidating w ∧ routes_in w o []
  | TReviewing c r =>
      core w o c r (c + 1) (c * (1 + retry_budget) + 1 + r) ∧
      teStage (deref w o) = phaseReviewing ∧
      (o ∉ xwStarting w) ∧ armed w o ∧ (o ∉ xwValidating w) ∧
      routes_in w o [teReviewerTaskID (deref w o)]
  | TDone stage => ended w o stage
  end.

(** Routes to the entity, if any are left, find an active execution. *)
Definition closed (w : XWorld) (o : nat) : Prop :=
  ∀ t, xwRouting w !! t = Some (ent w o) → is_Some (xwActive w !! ent w o).

Record Inv (w : XWorld) : Prop := {
  inv_wf : WF w;
  inv_stands : ∀ o, is_Some (xwExecs w !! o) → (ent w o ∉ ds) → ∃ s, stands w o s;
  inv_routes : ∀ t e, xwRouting w !! t = Some e → (e ∉ ds) → is_Some (xwActive w !! e);
  inv_queues : ∀ o, o ∈ xwStarting w ∨ o ∈ xwValidating w → is_Some (xwExecs w !! o) }.

(** The assertions look at nothing a quiet program changes. *)
Lemma tasks_same step o w w' a :
  acts o w w' → a ≠ o → tasks_of step w' a = tasks_of step w a.
Proof.
  intros H Hne. destruct (a_out _ _ _ H) as (evs & Ho & Hf).
  rewrite (tasks_app _ _ _ _ _ Ho), (tagged_none _ o) by done. simpl. lia.
Qed.

Lemma tasks_quiet step o w w' a : quiet o w w' → tasks_of step w' a = tasks_of step w a.
Proof.
  intros H. destruct (q_out _ _ _ H) as (evs & Ho & Hf).
  rewrite (tasks_app _ _ _ _ _ Ho), no_agent_none by done. simpl. lia.
Qed.

Lemma live_execs w w' o : xwExecs w' !! o = xwExecs w !! o → live w' o = live w o.
Proof. unfold live. by intros ->. Qed.

Ltac quiet_rewrite H :=
  let u := fresh "u" in let Hu := fresh "Hu" in
  destruct (q_row _ _ _ H) as [u Hu];
  unfold routes_in, armed, ent in *;
  rewrite ?(live_execs _ _ _ (f_equal (.!! _) (q_execs _ _ _ H))), ?Hu,
    ?(q_execs _ _ _ H), ?(q_active _ _ _ H), ?(q_routing _ _ _ H), ?(q_timers _ _ _ H),
    ?(q_starting _ _ _ H), ?(q_validating _ _ _ H), ?(tasks_quiet _ _ _ _ _ H).

Lemma core_quiet o w w' c r d v : quiet o w w' → core w o c r d v → core w' o c r d v.
Proof. intros H []. split; quiet_rewrite H; done. Qed.

Lemma mid_quiet o w w' c r d v : quiet o w w' → mid w o c r d v → mid w' o c r d v.
Proof.
  intros H []. split; [by eapply core_quiet|..]; quiet_rewrite H; done.
Qed.

(** Work on one execution does not move another. *)
Lemma ent_other o w w' a :
  WF w → acts o w w' → a ≠ o → is_Some (xwExecs w !! a) → ent w' a = ent w a.
Proof. intros Hw H Hne [x Hx]. unfold ent. by erewrite acts_deref. Qed.

Lemma core_acts o w w' a c r d v :
  WF w → acts o w w' → xwActive w !! ent w o = Some o ∨ ent w a ≠ ent w o → a ≠ o →
  core w a c r d v → core w' a c r d v ∧ ent w a ≠ ent w o.
Proof.
  intros Hw H Ho Hne []. assert (Hd : deref w' a = deref w a).
  { destruct c_known0. by eapply acts_deref. }
  assert (Hl : live w' a = live w a) by (by apply live_execs, (a_execs _ _ _ H)).
  assert (He : ent w a ≠ ent w o) by (destruct Ho as [Ho|?]; [intros He; rewrite He in c_active0; congruence|done]).
  split; [|done]. split.
  - by rewrite (a_execs _ _ _ H).
  - by rewrite Hl.
  - unfold ent in *. rewrite Hd. destruct (a_active _ _ _ H (teEntityID (deref w a))) as [->|[? _]]; done.
  - by rewrite Hd.
  - done.
  - by rewrite Hd.
  - by rewrite Hd.
  - done.
  - by rewrite (tasks_same _ o w).
  - by rewrite (tasks_same _ o w).
Qed.

Lemma stands_acts o w w' a s :
  WF w → acts o w w' → xwActive w !! ent w o = Some o ∨ ent w a ≠ ent w o → a ≠ o → stands w a s → stands w' a s.
Proof.
  intros Hw H Ho Hne Hs.
  assert (Hk : is_Some (xwExecs w !! a)).
  { destruct s; simpl in Hs; try apply Hs; by destruct Hs as [[] _]. }
  assert (Hd : deref w' a = deref w a) by (destruct Hk; by eapply acts_deref).
  assert (Hl : live w' a = live w a) by (by apply live_execs, (a_execs _ _ _ H)).
  assert (Hroutes : ∀ ids, ent w a ≠ ent w o → routes_in w a ids → routes_in w' a ids).
  { intros ids Hent Hr t. rewrite (ent_other o w) by done.
    intros [?|?]%(a_routing _ _ _ H); [by apply Hr|done]. }
  assert (Harmed : armed w a → armed w' a).
  { intros (t & Ht & Ht'). exists t. rewrite Hl. split; [done|]. by apply (a_timers _ _ _ H). }
  assert (Hst := a_starting _ _ _ H a Hne). assert (Hva := a_validating _ _ _ H a Hne).
  destruct s; simpl in Hs |- *.
  - destruct Hs as (Hc & ? & ? & ? & ? & ?). apply (core_acts o w w') in Hc as [? ?]; try done.
    rewrite Hst, Hva, Hd. eauto 10.
  - destruct Hs as (Hc & ? & ? & ? & ? & ?). apply (core_acts o w w') in Hc as [? ?]; try done.
    rewrite Hst, Hva, Hd. eauto 10.
  - destruct Hs as (Hc & ? & ? & ? & ? & ?). apply (core_acts o w w') in Hc as [? ?]; try done.
    rewrite Hst, Hva, Hd. eauto 10.
  - destruct Hs as (Hc & ? & ? & ? & ? & ?). apply (core_acts o w w') in Hc as [? ?]; try done.
    rewrite Hst, Hva, Hd. eauto 10.
  - destruct Hs. split; rewrite ?Hd, ?Hl, ?(tasks_same _ o w) by done; try done.
    + by rewrite (a_execs _ _ _ H).
    + intros e. destruct (a_active _ _ _ H e) as [->|[_ ->]]; [apply e_inactive0|done].
    + intros Hst'. eapply merged_mono; [|by rewrite Hd|by apply e_merged0].
      destruct (a_out _ _ _ H) as (evs & -> & _). set_solver.
Qed.

(** ** Programs that work on one execution *)

Definition trip {A} (o : nat) (P : XWorld → Prop) (m : X A) (Q : A → XWorld → Prop) : Prop :=
  ∀ w, WF w → is_Some (xwExecs w !! o) → P w →
  WF (m w).1 ∧ acts o w (m w).1 ∧ Q (m w).2 (m w).1.

Lemma trip_ret {A} o P (x : A) (Q : A → XWorld → Prop) :
  (∀ w, P w → Q x w) → trip o P (mret x) Q.
Proof. intros H w ???. split_and!; [done|apply acts_refl|by apply H]. Qed.

Lemma trip_bind {A B} o P (m : X A) (f : A → X B) R Q :
  trip o P m R → (∀ x, trip o (R x) (f x) Q) → trip o P (m ≫= f) Q.
Proof.
  intros Hm Hf w Hw Hk HP. destruct (Hm w Hw Hk HP) as (Hw1 & Ha1 & HR). unfold mbind, X_bind.
  destruct (m w) as [w1 x]. simpl in *.
  destruct (Hf x w1) as (? & ? & ?); [done|by apply (a_known _ _ _ Ha1)|done|].
  split_and!; [done|by eapply acts_trans|done].
Qed.

Lemma trip_seq {B} o P (m : X ()) (f : X B) R Q :
  trip o P m (λ _, R) → trip o R f Q → trip o P (m;; f) Q.
Proof. intros Hm Hf. eapply trip_bind; [done|]. by intros []. Qed.

Lemma trip_seq' {B} o P (m1 m2 : X ()) (f : X B) R Q :
  trip o P (m1;; m2) (λ _, R) → trip o R f Q → trip o P (m1;; m2;; f) Q.
Proof.
  intros Hm Hf w Hw Hk HP. apply (trip_seq o P (m1;; m2) f R Q) in Hf; [|done].
  specialize (Hf w Hw Hk HP). revert Hf. unfold mbind, X_bind. by destruct (m1 w).
Qed.

Lemma trip_conseq {A} o (P P' : XWorld → Prop) (m : X A) (Q Q' : A → XWorld → Prop) :
  (∀ w, P' w → P w) → (∀ x w, Q x w → Q' x w) → trip o P m Q → trip o P' m Q'.
Proof. intros HP HQ H w ?? Hp. destruct (H w) as (? & ? & ?); auto. Qed.

Lemma trip_pre {A} o (P P' : XWorld → Prop) (m : X A) Q :
  (∀ w, P' w → P w) → trip o P m Q → trip o P' m Q.
Proof. intros. by eapply trip_conseq. Qed.

Lemma trip_post {A} o (P : XWorld → Prop) (m : X A) (Q Q' : A → XWorld → Prop) :
  (∀ x w, Q x w → Q' x w) → trip o P m Q → trip o P m Q'.
Proof. intros. by eapply trip_conseq. Qed.

Lemma trip_pure {A} o (φ : Prop) (P : XWorld → Prop) (m : X A) Q :
  (∀ w, P w → φ) → (φ → trip o P m Q) → trip o P m Q.
Proof. intros HP H w ?? Hp. apply H; [by eapply HP|done..]. Qed.

(** What was read is not needed any more. *)
Lemma trip_drop {A} o (P φ : XWorld → Prop) (m : X A) Q :
  trip o P m Q → trip o (λ w, P w ∧ φ w) m Q.
Proof. apply trip_pre. by intros w [? _]. Qed.

Definition stable (o : nat) (P : XWorld → Prop) : Prop := ∀ w w', quiet o w w' → P w → P w'.

Lemma trip_quiet {A} o P (m : X A) : quietp o m → stable o P → trip o P m (λ _, P).
Proof.
  intros Hm HP w Hw [x Hx] Hp. assert (Hq := Hm w ltac:(by eapply wf_exec)).
  split_and!; [by eapply quiet_wf|by apply quiet_acts|by eapply HP].
Qed.

(** Reading the row: what the program does then may use it. *)
Lemma trip_row {B} o P (f : TaskExecution → X B) Q :
  (∀ t, trip o (λ w, P w ∧ t = deref w o) (f t) Q) → trip o P (row o ≫= f) Q.
Proof. intros H w ???. apply (H (deref w o)); auto. Qed.

Lemma trip_exec {B} o P (f : taskExecution → X B) Q :
  (∀ x, trip o (λ w, P w ∧ x = live w o) (f x) Q) → trip o P (exec o ≫= f) Q.
Proof. intros H w ???. apply (H (live w o)); auto. Qed.

Lemma trip_quiet_bind {A B} o P (m : X A) (f : A → X B) Q :
  quietp o m → stable o P → (∀ x, trip o P (f x) Q) → trip o P (m ≫= f) Q.
Proof. intros Hm HP Hf. eapply trip_bind; [by apply trip_quiet|done]. Qed.

(** ** Assertions between two stages *)

Record calm (w : XWorld) (o : nat) (c r d v : Z) (ids : list string) : Prop := {
  k_core : core w o c r d v;
  k_started : o ∉ xwStarting w;
  k_idle : o ∉ xwValidating w;
  k_routes : routes_in w o ids }.

(** Waiting for the end of its cleanup. *)
Record dying (w : XWorld) (o : nat) : Prop := {
  d_known : is_Some (xwExecs w !! o);
  d_terminated : lTerminated (live w o) = true;
  d_active : xwActive w !! ent w o = Some o;
  d_cycle : 0 ≤ teTDDCycle (deref w o);
  d_cycle_bound : teTDDCycle (deref w o) = 0 ∨ teTDDCycle (deref w o) < teMaxTDDCycles (deref w o);
  d_devs : tasks_of stageDevelop w o ≤ teTDDCycle (deref w o) + 1;
  d_revs : tasks_of stageReview w o ≤ (teTDDCycle (deref w o) + 1) * (1 + retry_budget);
  d_routes : routes_in w o [teDeveloperTaskID (deref w o); teReviewerTaskID (deref w o)] }.

(** May be ended: at work on one of its tasks at most. *)
Definition endable (w : XWorld) (o : nat) : Prop :=
  ∃ c r, core w o c r (c + 1) ((c + 1) * (1 + retry_budget)) ∧
    routes_in w o [teDeveloperTaskID (deref w o); teReviewerTaskID (deref w o)].

Lemma core_stable o c r d v : stable o (λ w, core w o c r d v).
Proof. intros w w' H. by apply core_quiet. Qed.

Lemma calm_stable o c r d v ids : stable o (λ w, calm w o c r d v ids).
Proof. intros w w' H []. split; [by eapply core_quiet|..]; quiet_rewrite H; done. Qed.

Lemma armed_stable o : stable o (λ w, armed w o).
Proof. intros w w' H. quiet_rewrite H. done. Qed.

Lemma mid_stable o c r d v : stable o (λ w, mid w o c r d v).
Proof. intros w w' H. by apply mid_quiet. Qed.

Lemma dying_stable o : stable o (λ w, dying w o).
Proof. intros w w' H []. split; quiet_rewrite H; done. Qed.

Lemma stage_stable o s : stable o (λ w, teStage (deref w o) = s).
Proof. intros w w' H. quiet_rewrite H. done. Qed.

Lemma endable_stable o : stable o (λ w, endable w o).
Proof.
  intros w w' H (c & r & Hc & Hr). exists c, r. split; [by eapply core_quiet|]. quiet_rewrite H. done.
Qed.

Lemma and_stable o P Q : stable o P → stable o Q → stable o (λ w, P w ∧ Q w).
Proof. intros HP HQ w w' H [? ?]. split; eauto. Qed.

(** A fact about the row that does not depend on the time of the save. *)
Definition timeless (φ : TaskExecution → Prop) : Prop := ∀ t u, φ t → φ (set_teUpdatedAt u t).

Lemma row_stable o φ : timeless φ → stable o (λ w, φ (deref w o)).
Proof. intros Hφ w w' H. quiet_rewrite H. apply Hφ. Qed.

Lemma mid_calm w o c r d v : mid w o c r d v ↔ calm w o c r d v [] ∧ armed w o.
Proof. split; [intros []; split; [by split|done]|intros [[] ?]; by split]. Qed.

(** ** The primitive writes *)

(** The row changes in fields the assertions do not look at. *)
Definition neutral (f : TaskExecution → TaskExecution) : Prop :=
  ∀ t, teEntityID (f t) = teEntityID t ∧ teMaxTDDCycles (f t) = teMaxTDDCycles t ∧
    teTDDCycle (f t) = teTDDCycle t ∧ teReviewRetryCount (f t) = teReviewRetryCount t ∧
    teDeveloperTaskID (f t) = teDeveloperTaskID t ∧ teReviewerTaskID (f t) = teReviewerTaskID t.

Definition neutral_l (g : taskExecution → taskExecution) : Prop :=
  ∀ x, lTerminated (g x) = lTerminated x ∧ lTimer (g x) = lTimer x.

Lemma deref_upd o f w : deref (upd o f w).1 o = f (deref w o).
Proof. unfold deref. simpl. by rewrite lookup_insert_eq. Qed.

Lemma deref_upd_ne o f w a : a ≠ o → deref (upd o f w).1 a = deref w a.
Proof. intros. unfold deref. simpl. by rewrite lookup_insert_ne. Qed.

Lemma live_updl o g w : live (updl o g w).1 o = g (live w o).
Proof. unfold live. simpl. by rewrite lookup_insert_eq. Qed.

Lemma live_updl_ne o g w a : a ≠ o → live (updl o g w).1 a = live w a.
Proof. intros. unfold live. simpl. by rewrite lookup_insert_ne. Qed.

Lemma known_live w o : is_Some (xwExecs w !! o) → xwExecs w !! o = Some (live w o).
Proof. intros [x Hx]. unfold live. by rewrite Hx. Qed.

(** Writing a field of the row that keeps the entity, the budget and the
    shape of the identifiers. *)
Lemma upd_frame o f w :
  (∀ t, teEntityID (f t) = teEntityID t) → (∀ t, teMaxTDDCycles (f t) = teMaxTDDCycles t) →
  (dev_id (teDeveloperTaskID (deref w o)) → dev_id (teDeveloperTaskID (f (deref w o)))) →
  (rev_id (teReviewerTaskID (deref w o)) → rev_id (teReviewerTaskID (f (deref w o)))) →
  WF w → WF (upd o f w).1 ∧ acts o w (upd o f w).1.
Proof.
  intros He Hm Hd Hr [].
  assert (Hent : ∀ a, ent (upd o f w).1 a = ent w a).
  { intros a. unfold ent. destruct (decide (a = o)) as [->|]; [by rewrite deref_upd|by rewrite deref_upd_ne]. }
  split.
  - split; try done.
    + intros e a Ha. rewrite Hent. by apply wf_active0.
    + intros a x Ha. destruct (wf_ids0 a x Ha).
      destruct (decide (a = o)) as [->|]; [rewrite deref_upd; auto|by rewrite deref_upd_ne].
  - split; try done.
    + intros a _ Hne. simpl. by rewrite lookup_insert_ne.
    + by rewrite deref_upd.
    + by left.
    + by left.
    + exists []. by rewrite app_nil_r.
Qed.

Lemma updl_frame o g w :
  (∀ x, lTimer (g x) = lTimer x) → WF w → is_Some (xwExecs w !! o) →
  WF (updl o g w).1 ∧ acts o w (updl o g w).1.
Proof.
  intros Hg [] Hk.
  assert (Hs : ∀ a, is_Some (xwExecs (updl o g w).1 !! a) ↔ is_Some (xwExecs w !! a)).
  { intros a. simpl. destruct (decide (a = o)) as [->|]; [by rewrite lookup_insert_eq|by rewrite lookup_insert_ne]. }
  split.
  - split.
    + intros a x Hx. assert (is_Some (xwExecs w !! a)) as [y Hy] by (apply Hs; eauto). by eapply wf_exec0.
    + intros e a. simpl. intros [? ?]%wf_active0. split; [by apply Hs|done].
    + intros t a. simpl. intros [? ?]%wf_timers0. split; [done|by apply Hs].
    + intros a x t Hx Hl. destruct (decide (a = o)) as [->|Hne].
      * simpl in Hx. rewrite lookup_insert_eq in Hx. simplify_eq. rewrite Hg in Hl.
        apply (wf_timer0 o (live w o)); [by apply known_live|done].
      * simpl in Hx. rewrite lookup_insert_ne in Hx by done. by apply (wf_timer0 a x).
    + intros a x Hx. assert (is_Some (xwExecs w !! a)) as [y Hy] by (apply Hs; eauto). by apply (wf_ids0 a y).
    + intros a s m. simpl. intros [? ?]%wf_out0. split; [by apply Hs|done].
  - split; try done.
    + intros a Hne. simpl. by rewrite lookup_insert_ne.
    + by left.
    + by left.
    + exists []. by rewrite app_nil_r.
Qed.

Ltac neutral_tac := intros ?; by split_and!.

(** What the writes do to the assertions. *)
Lemma upd_core o f w c r d v :
  (∀ t, teEntityID (f t) = teEntityID t) → (∀ t, teMaxTDDCycles (f t) = teMaxTDDCycles t) →
  let c' := teTDDCycle (f (deref w o)) in let r' := teReviewRetryCount (f (deref w o)) in
  0 ≤ c' → c' = 0 ∨ c' < teMaxTDDCycles (deref w o) → 0 ≤ r' ≤ retry_budget →
  core w o c r d v → core (upd o f w).1 o c' r' d v.
Proof.
  intros He Hm c' r' ??? []. split; unfold ent in *; rewrite ?deref_upd, ?He, ?Hm; done.
Qed.

Lemma upd_routes o f w ids :
  (∀ t, teEntityID (f t) = teEntityID t) → routes_in w o ids → routes_in (upd o f w).1 o ids.
Proof. intros He H t. unfold ent. rewrite deref_upd, He. apply H. Qed.

(** A change of other fields of the row keeps everything. *)
Lemma trip_upd o f (P : XWorld → Prop) :
  neutral f → (∀ w, P w → P (upd o f w).1) → trip o P (upd o f) (λ _, P).
Proof.
  intros Hf HP w Hw _ Hp. destruct (upd_frame o f w) as [? ?]; try done; try (intros t; apply Hf).
  - destruct (Hf (deref w o)) as (_ & _ & _ & _ & -> & _). done.
  - destruct (Hf (deref w o)) as (_ & _ & _ & _ & _ & ->). done.
  - split_and!; auto.
Qed.

Lemma calm_upd o f w c r d v ids : neutral f → calm w o c r d v ids → calm (upd o f w).1 o c r d v ids.
Proof.
  intros Hf [Hc ???]. assert (Hf' := Hf (deref w o)). destruct Hf' as (_ & Hm & Ht & Hr & _ & _).
  split; [|done|done|apply upd_routes; [apply Hf|done]].
  destruct Hc. rewrite <- c_cycle0, <- c_retry0, <- Ht, <- Hr.
  eapply upd_core; try (intros t; apply Hf); rewrite ?Ht, ?Hr, ?c_cycle0, ?c_retry0; done.
Qed.

Lemma armed_upd o f w : armed w o → armed (upd o f w).1 o.
Proof. done. Qed.

Lemma trip_upd_calm o f c r d v ids :
  neutral f → trip o (λ w, calm w o c r d v ids ∧ armed w o) (upd o f)
                     (λ _ w, calm w o c r d v ids ∧ armed w o).
Proof.
  intros Hf. apply trip_upd; [done|]. intros w [? ?]. split; [by apply calm_upd|done].
Qed.

Lemma trip_updl o g (P : XWorld → Prop) :
  neutral_l g → (∀ w, is_Some (xwExecs w !! o) → P w → P (updl o g w).1) →
  trip o P (updl o g) (λ _, P).
Proof.
  intros Hg HP w Hw Hk Hp. destruct (updl_frame o g w) as [? ?]; try done; [intros x; apply Hg|].
  split_and!; auto.
Qed.

Lemma calm_updl o g w c r d v ids :
  neutral_l g → calm w o c r d v ids ∧ armed w o → calm (updl o g w).1 o c r d v ids ∧ armed (updl o g w).1 o.
Proof.
  intros Hg [[[] ? ? ?] (t & Ht & Htt)]. destruct (Hg (live w o)) as [Hgt Hgl]. split; [split|]; try done.
  - split; try done.
    + simpl. by rewrite lookup_insert_eq.
    + by rewrite live_updl, Hgt.
  - exists t. by rewrite live_updl, Hgl.
Qed.

Lemma trip_updl_calm o g c r d v ids :
  neutral_l g → trip o (λ w, calm w o c r d v ids ∧ armed w o) (updl o g)
                       (λ _ w, calm w o c r d v ids ∧ armed w o).
Proof. intros Hg. apply trip_updl; [done|]. intros w _. by apply calm_updl. Qed.

(** Timers. *)
Lemma stop_timer_trip o P :
  (∀ w ts, P w → P (set_xwTimers ts w)) → trip o P (stop_timer o) (λ _, P).
Proof.
  intros HP w Hw Hk Hp. unfold stop_timer, modify. simpl.
  destruct (lTimer (live w o)) as [t|] eqn:Ht; [|split_and!; [done|apply acts_refl|done]].
  destruct (wf_timer w Hw o (live w o) t (known_live _ _ Hk) Ht) as [Hlt Hown].
  split_and!; [| |by apply HP].
  - destruct Hw. split; try done; simpl.
    + intros t' a [_ ?]%lookup_delete_Some. by apply wf_timers0.
    + intros a x t' Hx Hl. destruct (wf_timer0 a x t' Hx Hl) as [? Ho]. split; [done|].
      intros o' [_ ?]%lookup_delete_Some. by apply Ho.
  - split; try done; simpl.
    + by left.
    + by left.
    + intros t' a Hne. rewrite lookup_delete_Some. split; [by intros [_ ?]|]. intros Ht'. split; [|done].
      intros <-. by apply Hown in Ht'.
    + exists []. by rewrite app_nil_r.
Qed.

(** The world with a new timer armed. *)
Definition arm (o : nat) (w : XWorld) : XWorld := (startExecutionTimeout o w).1.

Lemma arm_eq o w :
  arm o w = (updl o (set_lTimer (Some (xwNext w)))
               (set_xwNext (S (xwNext w)) (set_xwTimers (<[xwNext w := o]> (xwTimers w)) w))).1.
Proof. done. Qed.

Lemma arm_armed o w : armed (arm o w) o.
Proof. exists (xwNext w). rewrite arm_eq, live_updl. simpl. by rewrite lookup_insert_eq. Qed.

Lemma startExecutionTimeout_trip o P :
  (∀ w, P w → P (arm o w)) → trip o P (startExecutionTimeout o) (λ _ w, P w ∧ armed w o).
Proof.
  intros HP w Hw Hk Hp. change (startExecutionTimeout o w) with (arm o w, ()). simpl.
  split_and!; [| |by apply HP|apply arm_armed].
  - rewrite arm_eq. set (w1 := set_xwNext _ _).
    assert (Hwf : WF w1 ∧ (∀ x, xwExecs w !! o = Some x → True)).
    { split; [|done]. destruct Hw. split; try done; simpl.
      - intros a x ?%wf_exec0. lia.
      - intros t a [[<- <-]|[_ [? ?]%wf_timers0]]%lookup_insert_Some; split; try done; lia.
      - intros a x t Hx Hl. destruct (wf_timer0 a x t Hx Hl) as [? Ho]. split; [lia|].
        intros o'. rewrite lookup_insert_ne by lia. apply Ho. }
    destruct Hwf as [Hwf _]. destruct Hwf. split.
    + intros a x Hx. simpl in Hx. apply lookup_insert_Some in Hx as [[<- _]|[_ Hx]].
      * destruct Hk as [y Hy]. by eapply wf_exec0.
      * by eapply wf_exec0.
    + intros e a Ha. apply wf_active0 in Ha as [Hx ?]. split; [|done]. simpl.
      rewrite lookup_insert_is_Some'. by right.
    + intros t a Ha. apply wf_timers0 in Ha as [? Hx]. split; [done|]. simpl.
      rewrite lookup_insert_is_Some'. by right.
    + intros a x t Hx Hl. simpl in Hx. apply lookup_insert_Some in Hx as [[<- <-]|[_ Hx]].
      * simpl in Hl. simplify_eq. simpl. split; [lia|]. intros o'. rewrite lookup_insert_eq. by intros [= <-].
      * by apply (wf_timer0 a x).
    + intros a x Hx. simpl in Hx. apply lookup_insert_Some in Hx as [[<- _]|[_ Hx]].
      * destruct Hk as [y Hy]. by apply (wf_ids0 o y).
      * by apply (wf_ids0 a x).
    + intros a s m Ha. apply wf_out0 in Ha as [Hx ?]. split; [|done]. simpl.
      rewrite lookup_insert_is_Some'. by right.
  - unfold arm, startExecutionTimeout, mbind, X_bind, modify. simpl. split; try done; simpl.
    + lia.
    + intros a Hne. by rewrite lookup_insert_ne.
    + rewrite lookup_insert_is_Some'. split; [done|by right].
    + by left.
    + by left.
    + intros t a Hne. rewrite lookup_insert_Some. split; [by intros [[_ ->]|[_ ?]]|]. intros Ht. right.
      split; [|done]. destruct (wf_timers w Hw t a Ht). lia.
    + exists []. by rewrite app_nil_r.
Qed.

Lemma core_arm o w c r d v : core w o c r d v → core (arm o w) o c r d v.
Proof.
  intros []. rewrite arm_eq. split; try done.
  - simpl. by rewrite lookup_insert_eq.
  - by rewrite live_updl.
Qed.

Lemma calm_arm o w c r d v ids : calm w o c r d v ids → calm (arm o w) o c r d v ids.
Proof. intros []. split; [by apply core_arm|done..]. Qed.

Lemma resetTimeout_trip o c r d v ids (φ : TaskExecution → Prop) :
  trip o (λ w, calm w o c r d v ids ∧ φ (deref w o)) (resetTimeoutLocked o)
         (λ _ w, (calm w o c r d v ids ∧ φ (deref w o)) ∧ armed w o).
Proof.
  unfold resetTimeoutLocked. eapply trip_seq.
  - apply stop_timer_trip. intros w ts [[] ?]. split; [|done]. split; try done. by destruct k_core0.
  - apply startExecutionTimeout_trip. intros w [? ?]. split; [by apply calm_arm|done].
Qed.

(** Routes. *)
Lemma unroute_frame o t w : WF w → WF (unroute t w).1 ∧ acts o w (unroute t w).1.
Proof.
  intros []. split; [by split|]. split; try done; simpl.
  - by left.
  - intros t' e [_ ?]%lookup_delete_Some. by left.
  - exists []. by rewrite app_nil_r.
Qed.

Lemma unroute_trip o t c r d v :
  trip o (λ w, calm w o c r d v [t] ∧ armed w o) (unroute t) (λ _ w, mid w o c r d v).
Proof.
  intros w Hw _ [[Hc ? ? Hr] ?]. destruct (unroute_frame o t w Hw) as [? ?]. split_and!; [done..|].
  apply mid_calm. split; [|done]. split; try done; [by destruct Hc|].
  intros t' Ht. simpl in Ht. apply lookup_delete_Some in Ht as [Hne Ht]. apply Hr in Ht. set_solver.
Qed.

(** ** The end of an execution *)

Lemma cleanup_trip o stage :
  stage = phaseApproved ∨ stage = phaseEscalated ∨ stage = phaseError →
  trip o (λ w, (dying w o ∧ teStage (deref w o) = stage) ∧ (stage = phaseApproved → merged w o))
         (cleanupExecutionLocked o) (λ _ w, ended w o stage ∧ closed w o).
Proof.
  intros Hstage. unfold cleanupExecutionLocked. eapply trip_seq.
  { apply stop_timer_trip. intros w ts [[[] ?] ?]. split; [split; [by split|done]|done]. }
  apply trip_row. intros t w Hw Hk [[[Hd Hst] Hmg] ->].
  set (w1 := (unroute (teDeveloperTaskID (deref w o)) w).1). set (w2 := (unroute (teValidatorTaskID (deref w o)) w1).1).
  set (w3 := (unroute (teReviewerTaskID (deref w o)) w2).1).
  change (WF (set_xwActive (delete (ent w o) (xwActive w3)) w3) ∧
    acts o w (set_xwActive (delete (ent w o) (xwActive w3)) w3) ∧
    (ended (set_xwActive (delete (ent w o) (xwActive w3)) w3) o stage ∧
     closed (set_xwActive (delete (ent w o) (xwActive w3)) w3) o)).
  destruct (unroute_frame o (teDeveloperTaskID (deref w o)) w Hw) as [Hw1 Ha1]; fold w1 in Hw1, Ha1.
  destruct (unroute_frame o (teValidatorTaskID (deref w o)) w1 Hw1) as [Hw2 Ha2]; fold w2 in Hw2, Ha2.
  destruct (unroute_frame o (teReviewerTaskID (deref w o)) w2 Hw2) as [Hw3 Ha3]; fold w3 in Hw3, Ha3.
  assert (Hacts : acts o w w3) by (eapply acts_trans; [eapply acts_trans|]; done).
  assert (Hroutes : ∀ t, xwRouting w3 !! t ≠ Some (ent w o)).
  { intros t. unfold w3, w2, w1. simpl. intros Ht.
    apply lookup_delete_Some in Ht as [H3 Ht]. apply lookup_delete_Some in Ht as [H2 Ht].
    apply lookup_delete_Some in Ht as [H1 Ht]. apply (d_routes _ _ Hd) in Ht. set_solver. }
  split_and!.
  - destruct Hw3. split; try done. simpl. intros e a [_ ?]%lookup_delete_Some. by apply wf_active0.
  - eapply acts_trans; [exact Hacts|]. split; try done; simpl.
    + intros e. destruct (decide (e = ent w o)) as [->|Hne].
      * right. by rewrite lookup_delete_eq.
      * left. by rewrite lookup_delete_ne.
    + by left.
    + exists []. by rewrite app_nil_r.
  - destruct Hd. split; try done. simpl. intros e [Hne He]%lookup_delete_Some.
    apply (wf_active _ Hw3) in He as [_ He]. by apply Hne.
  - intros t Ht. exfalso. by apply (Hroutes t).
Qed.

Lemma core_dying o w :
  endable w o → dying (updl o (set_lTerminated true) w).1 o.
Proof.
  intros (c & r & [] & Hr). split; try done.
  - simpl. by rewrite lookup_insert_eq.
  - by rewrite live_updl.
  - simpl. change (0 ≤ teTDDCycle (deref w o)). lia.
  - change (teTDDCycle (deref w o) = 0 ∨ teTDDCycle (deref w o) < teMaxTDDCycles (deref w o)).
    by rewrite c_cycle0.
  - change (tasks_of stageDevelop w o ≤ teTDDCycle (deref w o) + 1). by rewrite c_cycle0.
  - change (tasks_of stageReview w o ≤ (teTDDCycle (deref w o) + 1) * (1 + retry_budget)).
    by rewrite c_cycle0.
Qed.

Lemma terminate_trip o :
  trip o (λ w, endable w o) (updl o (set_lTerminated true)) (λ _ w, dying w o).
Proof.
  intros w Hw Hk Hp. destruct (updl_frame o (set_lTerminated true) w) as [? ?]; try done.
  split_and!; [done..|]. by apply core_dying.
Qed.

(** A neutral write that sets the stage. *)
Lemma stage_trip o f stage :
  neutral f → (∀ t, teStage (f t) = stage) →
  trip o (λ w, dying w o) (upd o f) (λ _ w, dying w o ∧ teStage (deref w o) = stage).
Proof.
  intros Hf Hs w Hw Hk Hd.
  destruct (trip_upd o f (λ w, dying w o) Hf) with w as (? & ? & ?); try done.
  - clear dependent w. intros w []. destruct (Hf (deref w o)) as (He & Hm & Ht & Hr & Hdv & Hrv).
    split; unfold ent, routes_in in *; rewrite ?deref_upd, ?He, ?Hm, ?Ht, ?Hdv, ?Hrv; try done.
    unfold ent. by rewrite deref_upd, He.
  - split_and!; [done..|]. by rewrite deref_upd.
Qed.

Lemma live_of_endable w o : endable w o → lTerminated (live w o) = false.
Proof. by intros (c & r & [] & _). Qed.

Lemma markError_trip o reason :
  trip o (λ w, endable w o) (markErrorLocked E o reason)
         (λ _ w, ended w o phaseError ∧ closed w o).
Proof.
  unfold markErrorLocked. apply trip_exec. intros x.
  eapply (trip_pure _ (lTerminated x = false)).
  { intros w [H ->]. by apply live_of_endable. }
  intros ->. apply trip_drop.
  eapply trip_seq; [apply terminate_trip|].
  apply trip_quiet_bind; [auto with quiet|apply dying_stable|intros _].
  eapply trip_seq; [apply (stage_trip _ _ phaseError); by try neutral_tac|].
  apply trip_quiet_bind; [auto with quiet|apply and_stable; [apply dying_stable|apply stage_stable]|].
  intros _. eapply trip_pre; [|apply cleanup_trip; auto]. by intros w.
Qed.

Lemma markEscalated_trip o reason :
  trip o (λ w, endable w o) (markEscalatedLocked E o reason)
         (λ _ w, ended w o phaseEscalated ∧ closed w o).
Proof.
  unfold markEscalatedLocked. apply trip_exec. intros x.
  eapply (trip_pure _ (lTerminated x = false)).
  { intros w [H ->]. by apply live_of_endable. }
  intros ->. apply trip_drop.
  eapply trip_seq; [apply terminate_trip|].
  apply trip_quiet_bind; [auto with quiet|apply dying_stable|intros _].
  eapply trip_seq; [apply (stage_trip _ _ phaseEscalated); by try neutral_tac|].
  do 5 (apply trip_quiet_bind;
    [auto with quiet|apply and_stable; [apply dying_stable|apply stage_stable]|intros ?]).
  eapply trip_pre; [|apply cleanup_trip; auto]. by intros w.
Qed.

(** ** Approval *)

Lemma endable_upd o f w : neutral f → endable w o → endable (upd o f w).1 o.
Proof.
  intros Hf (c & r & Hc & Hr). destruct (Hf (deref w o)) as (He & Hm & Ht & Hrr & Hd & Hv).
  exists c, r. split.
  - destruct Hc. split; unfold ent in *; rewrite ?deref_upd, ?He, ?Hm, ?Ht, ?Hrr; done.
  - unfold routes_in, ent in *. rewrite deref_upd, He, Hd, Hv. done.
Qed.

(** What the attempts to merge tell. *)
Definition merge_told (o : nat) (r : merge_outcome) (w : XWorld) : Prop :=
  match r with
  | MergeDone _ => ∃ id target msg trailers, EvMergeWorktree o id target msg trailers true ∈ xwOut w
  | MergeShutdown => ∃ n, xShutdown (xeIO E n) = true
  | MergeGaveUp _ _ => True
  end.

Lemma merge_attempts_told n o t rec text w :
  merge_told o (merge_attempts E n o t (MergeGaveUp rec text) w).2
               (merge_attempts E n o t (MergeGaveUp rec text) w).1.
Proof.
  revert rec text w. induction n as [|n IH]; intros rec text w; simpl; [done|].
  unfold mbind, X_bind, emit. simpl. destruct (xMerge _) as [r|b txt] eqn:Hm; simpl.
  - exists (teTaskID t), (teScenarioBranch t), ("feat(" +:+ teSlug t +:+ "): " +:+ teTaskID t), (merge_trailers t).
    set_solver.
  - destruct (xShutdown _) eqn:Hs; simpl; [by eexists|]. destruct b; simpl; [done|]. apply IH.
Qed.

Lemma mergeWorktree_trip o :
  trip o (λ w, endable w o) (mergeWorktree E o)
         (λ r w, endable w o ∧ (r = None → merged w o)).
Proof.
  unfold mergeWorktree. apply trip_row. intros t.
  destruct (_ || _) eqn:Hno.
  { apply trip_ret. intros w [? ->]. split; [done|]. intros _. right.
    apply orb_true_iff in Hno as [?|?]; [by left|]. right; left. by breflect. }
  apply trip_drop.
  apply trip_quiet_bind; [auto with quiet|apply endable_stable|intros []]; [by apply trip_ret|].
  apply (trip_bind _ _ _ _ (λ r w, endable w o ∧ merge_told o r w)).
  { intros w Hw Hk He. assert (Ht := merge_attempts_told 3 o t false "" w).
    destruct (trip_quiet o _ _ (merge_attempts_quiet E 3 o t (MergeGaveUp false "")) (endable_stable o) w)
      as (? & ? & ?); try done. }
  intros [r| |rec text].
  - destruct (_ && _); [by apply trip_ret; intros w [? _]|].
    apply (trip_seq _ _ _ _ (λ w, endable w o ∧ merge_told o (MergeDone r) w)).
    2: { apply trip_ret. intros w [? ?]. split; [done|]. by left. }
    assert (neutral (λ t, set_teMergeCommit (mgCommit r)
      (if is_nil (mgFilesChanged r) then t else set_teFilesModified (mgFilesChanged r) t))).
    { intros t'. destruct (is_nil _); by split_and!. }
    apply trip_upd; [done|]. intros w [? ?]. split; [by apply endable_upd|done].
  - apply trip_ret. intros w [? ?]. split; [done|]. intros _. by do 3 right.
  - apply trip_ret. by intros w [? _].
Qed.

(** An assertion a program keeps may be carried along. *)
Lemma trip_frame o (P : XWorld → Prop) (m : X ()) (Q φ : XWorld → Prop) :
  (∀ w, φ w → φ (m w).1) → trip o P m (λ _, Q) → trip o (λ w, P w ∧ φ w) m (λ _ w, Q w ∧ φ w).
Proof. intros Hφ Hm w Hw Hk [HP ?]. destruct (Hm w Hw Hk HP) as (? & ? & ?). auto. Qed.

(** The program leaves the execution in one of the states [S]. *)
Definition settles (o : nat) (S : tdd_state → Prop) (w : XWorld) : Prop :=
  ∃ s, S s ∧ stands w o s ∧ closed w o.

Lemma settles_mono o (S S' : tdd_state → Prop) w :
  (∀ s, S s → S' s) → settles o S w → settles o S' w.
Proof. intros H (s & ? & ?). exists s. auto. Qed.

Lemma settles_done o (S : tdd_state → Prop) stage w :
  S (TDone stage) → ended w o stage ∧ closed w o → settles o S w.
Proof. intros HS [? ?]. by exists (TDone stage). Qed.

Lemma closed_core w o c r d v : core w o c r d v → closed w o.
Proof. intros H t ?. rewrite (c_active _ _ _ _ _ _ H). eauto. Qed.

Lemma settles_error o (S : tdd_state → Prop) reason :
  S (TDone phaseError) →
  trip o (λ w, endable w o) (markErrorLocked E o reason) (λ _, settles o S).
Proof. intros. eapply trip_post; [|apply markError_trip]. intros [] w. by apply settles_done. Qed.

Lemma settles_escalated o (S : tdd_state → Prop) reason :
  S (TDone phaseEscalated) →
  trip o (λ w, endable w o) (markEscalatedLocked E o reason) (λ _, settles o S).
Proof. intros. eapply trip_post; [|apply markEscalated_trip]. intros [] w. by apply settles_done. Qed.

Lemma markApproved_trip o (S : tdd_state → Prop) :
  S (TDone phaseError) → S (TDone phaseApproved) →
  trip o (λ w, endable w o) (markApprovedLocked E o) (λ _, settles o S).
Proof.
  intros Herr Happ. unfold markApprovedLocked. apply trip_exec. intros x.
  eapply (trip_pure _ (lTerminated x = false)).
  { intros w [H ->]. by apply live_of_endable. }
  intros ->. apply trip_drop. eapply trip_bind; [apply mergeWorktree_trip|].
  intros [[rec text]|]; [apply trip_drop; by apply settles_error|].
  apply (trip_pre _ (λ w, endable w o ∧ merged w o)); [naive_solver|].
  apply (trip_seq _ _ _ _ (λ w, dying w o ∧ merged w o)).
  { apply trip_frame; [done|apply terminate_trip]. }
  apply (trip_seq _ _ _ _ (λ w, (dying w o ∧ teStage (deref w o) = phaseApproved) ∧ merged w o)).
  { apply trip_frame; [|apply (stage_trip _ _ phaseApproved); by try neutral_tac].
    intros w. apply merged_mono; [done|]. by rewrite deref_upd. }
  apply trip_quiet_bind; [auto with quiet| |].
  { apply and_stable; [apply and_stable; [apply dying_stable|apply stage_stable]|].
    intros w w'. apply merged_quiet. }
  intros _. eapply trip_conseq; [| |apply (cleanup_trip o phaseApproved); auto].
  - by intros w [? ?].
  - intros [] w. by apply settles_done.
Qed.

(** ** Dispatch *)

Lemma core_weaken w o c r d v d' v' : core w o c r d v → d ≤ d' → v ≤ v' → core w o c r d' v'.
Proof. intros [] ? ?. split; try done; lia. Qed.

Lemma calm_endable w o c r d v ids :
  calm w o c r d v ids → d ≤ c + 1 → v ≤ (c + 1) * (1 + retry_budget) →
  (∀ t, t ∈ ids → t = teDeveloperTaskID (deref w o) ∨ t = teReviewerTaskID (deref w o)) →
  endable w o.
Proof.
  intros [] ? ? Hids. exists c, r. split; [by eapply core_weaken|].
  intros t Ht. apply k_routes0, Hids in Ht. set_solver.
Qed.

Lemma mid_endable w o c r d v :
  mid w o c r d v → d ≤ c + 1 → v ≤ (c + 1) * (1 + retry_budget) → endable w o.
Proof. intros [? _]%mid_calm ? ?. eapply calm_endable; [done..|]. set_solver. Qed.

Lemma retry_budget_nonneg : 0 ≤ retry_budget.
Proof. unfold retry_budget. lia. Qed.

Lemma dispatch_refused_trip o c r d v φ (S : tdd_state → Prop) :
  S (TDone phaseError) → d ≤ c + 1 → v ≤ (c + 1) * (1 + retry_budget) → timeless φ →
  trip o (λ w, mid w o c r d v ∧ φ (deref w o)) (dispatch_refused E o)
         (λ b w, if b : bool then settles o S w else mid w o c r d v ∧ φ (deref w o)).
Proof.
  intros HS Hd Hv Hφ. unfold dispatch_refused.
  assert (Hst := and_stable _ _ _ (mid_stable o c r d v) (row_stable o φ Hφ)).
  apply trip_quiet_bind; [auto with quiet|done|intros [stage|]].
  { apply trip_drop, (trip_seq _ _ _ _ (settles o S)); [|by apply trip_ret].
    eapply trip_pre; [|by apply settles_error]. intros w H. by eapply mid_endable. }
  apply trip_quiet_bind; [auto with quiet|done|intros []]; [|by apply trip_ret].
  apply trip_drop, (trip_seq _ _ _ _ (settles o S)); [|by apply trip_ret].
  eapply trip_pre; [|by apply settles_error]. intros w H. by eapply mid_endable.
Qed.

(** An identifier is assigned and routed. *)
Lemma assign_trip o f (ψ φ : TaskExecution → Prop) id e c r d v :
  (∀ t, teEntityID (f t) = teEntityID t) → (∀ t, teMaxTDDCycles (f t) = teMaxTDDCycles t) →
  (∀ t, teTDDCycle (f t) = teTDDCycle t) → (∀ t, teReviewRetryCount (f t) = teReviewRetryCount t) →
  (∀ t, dev_id (teDeveloperTaskID t) → dev_id (teDeveloperTaskID (f t))) →
  (∀ t, rev_id (teReviewerTaskID t) → rev_id (teReviewerTaskID (f t))) →
  (∀ t, ψ t → φ (f t)) →
  trip o (λ w, mid w o c r d v ∧ ent w o = e ∧ ψ (deref w o)) (upd o f;; route id e)
         (λ _ w, (calm w o c r d v [id] ∧ armed w o) ∧ φ (deref w o)).
Proof.
  intros He Hm Hc Hr Hdv Hrv Hsel w Hw Hk [[Hcore ? ? ? Hroutes] [<- Hψ]].
  destruct (upd_frame o f w) as [Hw1 Ha1]; auto.
  unfold mbind, X_bind. set (w1 := (upd o f w).1) in *.
  change (WF (route id (ent w o) w1).1 ∧ acts o w (route id (ent w o) w1).1 ∧
    (calm (route id (ent w o) w1).1 o c r d v [id] ∧ armed (route id (ent w o) w1).1 o) ∧
    φ (deref w1 o)).
  assert (Hent : ent w1 o = ent w o) by (unfold ent, w1; by rewrite deref_upd).
  split_and!.
  - destruct Hw1. by split.
  - eapply acts_trans; [exact Ha1|]. split; try done; simpl.
    + by left.
    + intros t e [[_ <-]|[_ ?]]%lookup_insert_Some; [by right|by left].
    + exists []. by rewrite app_nil_r.
  - split; try done.
    + assert (Hcore1 : core w1 o c r d v); [|by destruct Hcore1].
      unfold w1. destruct Hcore. split; unfold ent in *; rewrite ?deref_upd, ?He, ?Hm, ?Hc, ?Hr; done.
    + intros t. simpl. change (ent (set_xwRouting _ w1) o) with (ent w1 o). rewrite Hent.
      intros [[<- _]|[_ Ht]]%lookup_insert_Some; [set_solver|]. exfalso. apply Hroutes in Ht. set_solver.
  - done.
  - unfold w1. rewrite deref_upd. by apply Hsel.
Qed.

Definition is_step (step : string) (m : TaskMessage) : Z := if tmWorkflowStep m =? step then 1 else 0.

Lemma publishTask_trip o subject m c r d v ids φ :
  task_shape m → timeless φ →
  trip o (λ w, (calm w o c r d v ids ∧ armed w o) ∧ φ (deref w o)) (publishTask E o subject m)
         (λ _ w, (calm w o c r (d + is_step stageDevelop m) (v + is_step stageReview m) ids ∧
                  armed w o) ∧ φ (deref w o)).
Proof.
  intros Hm Hφ. unfold publishTask. apply trip_quiet_bind; [auto with quiet| |intros io].
  { apply and_stable; [apply and_stable; [apply calm_stable|apply armed_stable]|by apply row_stable]. }
  assert (Hs : ∀ step, 0 ≤ is_step step m) by (intros step; unfold is_step; by destruct (_ =? _)).
  destruct (_ || _).
  { apply trip_ret. intros w [[[] ?] ?]. split; [split; [split|]|]; try done.
    eapply core_weaken; [done|..]; pose proof (Hs stageDevelop); pose proof (Hs stageReview); lia. }
  intros w Hw Hk [[[Hc ???] ?] ?].
  assert (Htasks : ∀ step, tasks_of step (emit (EvAgentTask o subject m) w).1 o =
    tasks_of step w o + is_step step m).
  { intros step. rewrite (tasks_app step w _ o [EvAgentTask o subject m]) by done.
    unfold is_step. rewrite filter_cons. simpl. rewrite bool_decide_eq_true_2 by done. simpl.
    by destruct (tmWorkflowStep m =? step). }
  split_and!; [| |split| |]; try done.
  - destruct Hw. split; try done. simpl. intros a s m' Hin. apply elem_of_app in Hin as [Hin|Hin].
    + by apply (wf_out0 _ _ _ Hin).
    + apply list_elem_of_singleton in Hin as [= -> -> ->]. done.
  - split; try done; simpl; [by left|by left|]. exists [EvAgentTask o subject m]. split; [done|].
    by repeat constructor.
  - destruct Hc. split; try done; rewrite Htasks; lia.
Qed.

Lemma ent_stable o e : stable o (λ w, ent w o = e).
Proof. intros w w' H. quiet_rewrite H. done. Qed.

(** An execution that is idle can be ended. *)
Lemma settles_error_mid o (S : tdd_state → Prop) reason c r d v :
  S (TDone phaseError) → d ≤ c + 1 → v ≤ (c + 1) * (1 + retry_budget) →
  trip o (λ w, mid w o c r d v) (markErrorLocked E o reason) (λ _, settles o S).
Proof.
  intros. eapply trip_pre; [|by apply settles_error]. intros w Hm. by eapply mid_endable.
Qed.

Lemma settles_escalated_mid o (S : tdd_state → Prop) reason c r d v :
  S (TDone phaseEscalated) → d ≤ c + 1 → v ≤ (c + 1) * (1 + retry_budget) →
  trip o (λ w, mid w o c r d v) (markEscalatedLocked E o reason) (λ _, settles o S).
Proof.
  intros. eapply trip_pre; [|by apply settles_escalated]. intros w Hm. by eapply mid_endable.
Qed.

Lemma HasPrefix_append p s : HasPrefix (p +:+ s) p = true.
Proof. apply HasPrefix_spec. by exists s. Qed.

(** The developer is given a task. *)
Lemma dispatchDeveloper_trip o c (S : tdd_state → Prop) :
  S (TDeveloping c) → S (TDone phaseError) → 0 ≤ c →
  trip o (λ w, mid w o c 0 c (c * (1 + retry_budget)) ∧ teStage (deref w o) = phaseDeveloping)
         (dispatchDeveloperLocked E o) (λ _, settles o S).
Proof.
  intros Hdev Herr Hc. pose proof retry_budget_nonneg. unfold dispatchDeveloperLocked.
  set (ψ := λ t, teStage t = phaseDeveloping). assert (Hψ : timeless ψ) by (by intros ? ?).
  eapply trip_bind; [apply (dispatch_refused_trip _ _ _ _ _ ψ S); [done|lia|nia|done]|].
  intros []; [by apply trip_ret|].
  apply trip_row. intros t. set (P := λ w, mid w o c 0 c (c * (1 + retry_budget))).
  apply (trip_pre _ (λ w, P w ∧ ent w o = teEntityID t ∧ ψ (deref w o))).
  { intros w [[? ?] ->]. by split_and!. }
  assert (Hst : stable o (λ w, P w ∧ ent w o = teEntityID t ∧ ψ (deref w o))).
  { apply and_stable; [apply mid_stable|]. apply and_stable; [apply ent_stable|by apply row_stable]. }
  apply trip_quiet_bind; [auto with quiet|done|intros [plan|err]];
    [|by apply trip_drop, settles_error_mid; [|lia|nia]].
  apply trip_quiet_bind; [auto with quiet|done|intros x].
  apply trip_quiet_bind; [auto with quiet|done|intros hint].
  apply trip_quiet_bind; [auto with quiet|done|intros io].
  set (id := "dev-" +:+ _). assert (Hid : HasPrefix id "dev-" = true) by apply HasPrefix_append.
  set (φ := λ t, teDeveloperTaskID t = id ∧ teStage t = phaseDeveloping).
  eapply trip_seq'; [apply (assign_trip _ _ ψ φ id); try done; by right|].
  eapply trip_post; [|apply publishTask_trip; [by left|by intros t' u [? ?]]].
  intros [] w [[Hk ?] [Hsel ?]]. exists (TDeveloping c). split; [done|]. destruct Hk as [Hcore ? ? ?].
  assert (core w o c 0 (c + 1) (c * (1 + retry_budget))) as Hcore'.
  { eapply core_weaken; [done|..]; unfold is_step; simpl; lia. }
  split; [|by eapply closed_core]. split_and!; try done. by rewrite Hsel.
Qed.

Lemma dispatchReviewer_trip o c r (S : tdd_state → Prop) :
  S (TReviewing c r) → S (TDone phaseError) → 0 ≤ c → 0 ≤ r ≤ retry_budget →
  trip o (λ w, mid w o c r (c + 1) (c * (1 + retry_budget) + r) ∧
               teStage (deref w o) = phaseReviewing)
         (dispatchReviewerLocked E o) (λ _, settles o S).
Proof.
  intros Hrev Herr Hc Hr. pose proof retry_budget_nonneg. unfold dispatchReviewerLocked.
  set (ψ := λ t, teStage t = phaseReviewing). assert (Hψ : timeless ψ) by (by intros ? ?).
  eapply trip_bind; [apply (dispatch_refused_trip _ _ _ _ _ ψ S); [done|lia|nia|done]|].
  intros []; [by apply trip_ret|].
  apply trip_row. intros t. set (P := λ w, mid w o c r (c + 1) (c * (1 + retry_budget) + r)).
  apply (trip_pre _ (λ w, P w ∧ ent w o = teEntityID t ∧ ψ (deref w o))).
  { intros w [[? ?] ->]. by split_and!. }
  assert (Hst : stable o (λ w, P w ∧ ent w o = teEntityID t ∧ ψ (deref w o))).
  { apply and_stable; [apply mid_stable|]. apply and_stable; [apply ent_stable|by apply row_stable]. }
  apply trip_quiet_bind; [auto with quiet|done|intros [plan|err]];
    [|by apply trip_drop, settles_error_mid; [|lia|nia]].
  apply trip_quiet_bind; [auto with quiet|done|intros x].
  apply trip_quiet_bind; [auto with quiet|done|intros io].
  set (id := "rev-" +:+ _). assert (Hid : HasPrefix id "rev-" = true) by apply HasPrefix_append.
  set (φ := λ t, teReviewerTaskID t = id ∧ teStage t = phaseReviewing).
  eapply trip_seq'; [apply (assign_trip _ _ ψ φ id); try done; by right|].
  eapply trip_post; [|apply publishTask_trip; [by right|by intros t' u [? ?]]].
  intros [] w [[Hk ?] [Hsel ?]]. exists (TReviewing c r). split; [done|]. destruct Hk as [Hcore ? ? ?].
  assert (core w o c r (c + 1) (c * (1 + retry_budget) + 1 + r)) as Hcore'.
  { eapply core_weaken; [done|..]; unfold is_step; simpl; lia. }
  split; [|by eapply closed_core]. split_and!; try done. by rewrite Hsel.
Qed.

(** ** Retry *)

Lemma bump_trip o f c r d v :
  (∀ t, teEntityID (f t) = teEntityID t) → (∀ t, teMaxTDDCycles (f t) = teMaxTDDCycles t) →
  (∀ t, teTDDCycle (f t) = teTDDCycle t + 1) → (∀ t, teReviewRetryCount (f t) = 0) →
  (∀ t, teDeveloperTaskID (f t) = teDeveloperTaskID t) →
  (∀ t, teReviewerTaskID (f t) = teReviewerTaskID t) →
  trip o (λ w, mid w o c r d v ∧ c + 1 < teMaxTDDCycles (deref w o)) (upd o f)
         (λ _ w, mid w o (c + 1) 0 d v).
Proof.
  intros He Hm Hc Hr Hdv Hrv w Hw Hk [[Hcore ? ? ? ?] Hlt].
  destruct (upd_frame o f w) as [? ?]; try done; [by rewrite Hdv|by rewrite Hrv|].
  split_and!; [done..|]. split; try done; [|by apply upd_routes].
  pose proof retry_budget_nonneg. assert (Hcc := c_cycle _ _ _ _ _ _ Hcore).
  assert (Hc0 := c_cycle_nonneg _ _ _ _ _ _ Hcore).
  rewrite <- Hcc, <- (Hc (deref w o)), <- (Hr (deref w o)).
  eapply upd_core; try done; rewrite ?Hc, ?Hr, ?Hcc; lia.
Qed.

Lemma trip_upd_mid o f c r d v :
  neutral f → trip o (λ w, mid w o c r d v) (upd o f) (λ _ w, mid w o c r d v).
Proof.
  intros Hf. eapply trip_conseq; [| |by apply (trip_upd_calm o f c r d v [])].
  - intros w. by rewrite mid_calm.
  - intros [] w. by rewrite mid_calm.
Qed.

(** A write that sets the stage, and others. *)
Lemma trip_upd_mid_row o f c r d v (φ : TaskExecution → Prop) :
  neutral f → (∀ t, φ (f t)) →
  trip o (λ w, mid w o c r d v) (upd o f) (λ _ w, mid w o c r d v ∧ φ (deref w o)).
Proof.
  intros Hf Hφ w Hw Hk Hm. destruct (trip_upd_mid o f c r d v Hf w Hw Hk Hm) as (? & ? & ?).
  split_and!; try done. by rewrite deref_upd.
Qed.

Lemma trip_updl_mid o g c r d v :
  neutral_l g → trip o (λ w, mid w o c r d v) (updl o g) (λ _ w, mid w o c r d v).
Proof.
  intros Hg. eapply trip_conseq; [| |by apply (trip_updl_calm o g c r d v [])].
  - intros w. by rewrite mid_calm.
  - intros [] w. by rewrite mid_calm.
Qed.

Lemma mid_weaken w o c r d v d' v' : mid w o c r d v → d ≤ d' → v ≤ v' → mid w o c r d' v'.
Proof. intros [] ? ?. split; try done. by eapply core_weaken. Qed.

Lemma startDeveloperRetry_trip o feedback c r v (S : tdd_state → Prop) :
  S (TDeveloping (c + 1)) → S (TDone phaseError) → 0 ≤ c → v ≤ (c + 1) * (1 + retry_budget) →
  trip o (λ w, mid w o c r (c + 1) v ∧ c + 1 < teMaxTDDCycles (deref w o))
         (startDeveloperRetryLocked E o feedback) (λ _, settles o S).
Proof.
  intros Hdev Herr Hc Hv. unfold startDeveloperRetryLocked.
  eapply trip_seq; [by apply bump_trip|].
  eapply trip_seq; [apply trip_updl_mid; intros x; by split|].
  apply trip_row. intros t. apply trip_drop.
  apply trip_quiet_bind; [|apply mid_stable|intros listing].
  { destruct (_ || _); [apply quietp_ret|]. apply quietp_bind; [auto with quiet|]. intros io. apply quietp_ret. }
  eapply trip_seq.
  { apply (trip_upd_mid_row _ _ _ _ _ _ (λ t, teStage t = phaseDeveloping)); [neutral_tac|done]. }
  apply trip_quiet_bind; [auto with quiet|apply and_stable; [apply mid_stable|apply stage_stable]|].
  intros _. eapply trip_pre; [|by apply (dispatchDeveloper_trip o (c + 1)); [..|lia]].
  intros w [Hm ?]. split; [|done]. eapply mid_weaken; [done|lia|done].
Qed.

(** A rejection: back to the developer, or escalated when the budget is
    spent. *)
Lemma routeFixable_trip o feedback c r v (S : tdd_state → Prop) M :
  (c + 1 < M → S (TDeveloping (c + 1))) → (M ≤ c + 1 → S (TDone phaseEscalated)) →
  S (TDone phaseError) → 0 ≤ c → v ≤ (c + 1) * (1 + retry_budget) →
  trip o (λ w, mid w o c r (c + 1) v ∧ teMaxTDDCycles (deref w o) = M)
         (routeFixableRejection E o feedback) (λ _, settles o S).
Proof.
  intros Hdev Hesc Herr Hc Hv. unfold routeFixableRejection. apply trip_row. intros t.
  eapply (trip_pure _ (teTDDCycle t = c ∧ teMaxTDDCycles t = M)).
  { intros w [[[[] _ _ _ _] ?] ->]. done. }
  intros [Hct HM]. rewrite Hct, HM. destruct (Z.ltb_spec (c + 1) M) as [Hlt|Hge].
  - eapply trip_pre; [|by apply startDeveloperRetry_trip; [auto|..]].
    intros w [[? ?] ->]. split; [done|]. lia.
  - apply trip_drop, trip_drop. apply (settles_escalated_mid _ _ _ c r (c + 1) v); [by apply Hesc|lia|done].
Qed.

(** ** A stage ends *)

(** Idle, with a fact about the row. *)
Definition idle (o : nat) (c r d v : Z) (φ : TaskExecution → Prop) (w : XWorld) : Prop :=
  mid w o c r d v ∧ φ (deref w o).

Lemma idle_stable o c r d v φ : timeless φ → stable o (idle o c r d v φ).
Proof. intros. apply and_stable; [apply mid_stable|by apply row_stable]. Qed.

Lemma trip_upd_idle o f c r d v (φ ψ : TaskExecution → Prop) :
  neutral f → (∀ t, φ t → ψ (f t)) → trip o (idle o c r d v φ) (upd o f) (λ _, idle o c r d v ψ).
Proof.
  intros Hf Hφ w Hw Hk [Hm ?]. destruct (trip_upd_mid o f c r d v Hf w Hw Hk Hm) as (? & ? & ?).
  split_and!; try done. split; [done|]. rewrite deref_upd. auto.
Qed.

Lemma trip_updl_idle o g c r d v φ :
  neutral_l g → trip o (idle o c r d v φ) (updl o g) (λ _, idle o c r d v φ).
Proof.
  intros Hg. apply trip_updl; [done|]. intros w _ [[Hk ?]%mid_calm Hm]. split; [|done].
  apply mid_calm. by apply calm_updl.
Qed.

(** A loop of the execution has ended: the timer starts again and the route
    is gone. *)
Lemma loop_ended_trip {B} o (sel : TaskExecution → string) (f : TaskExecution → X B) c r d v φ Q :
  (∀ t, teReviewRetryCount t = r → trip o (idle o c r d v φ) (f t) Q) →
  trip o (λ w, calm w o c r d v [sel (deref w o)] ∧ φ (deref w o))
         (resetTimeoutLocked o;; t ← row o; unroute (sel t);; f t) Q.
Proof.
  intros Hf w Hw Hk [Hc HM]. set (id := sel (deref w o)) in *.
  assert (Ht : trip o (λ w, calm w o c r d v [id] ∧ sel (deref w o) = id ∧ φ (deref w o))
    (resetTimeoutLocked o;; t ← row o; unroute (sel t);; f t) Q); [|by apply Ht].
  eapply trip_seq; [apply (resetTimeout_trip o c r d v [id] (λ t, sel t = id ∧ φ t))|].
  apply trip_row. intros t. eapply (trip_pure _ (sel t = id ∧ teReviewRetryCount t = r)).
  { intros w' [[[[[] _ _ _] [Hs _]] _] ->]. done. }
  intros [Hsel Hr]. rewrite Hsel. apply trip_drop.
  eapply trip_seq; [|by apply (Hf t)].
  intros w1 Hw1 Hk1 [[Hc1 [_ HM1]] Ha1].
  destruct (unroute_trip o id c r d v w1) as (? & ? & ?); try done.
Qed.

(** The budget of cycles. *)
Definition budget (M : Z) (t : TaskExecution) : Prop := teMaxTDDCycles t = M.

Definition reaches (M : Z) (s s' : tdd_state) : Prop := rtc (tdd_step M retry_budget) s s'.

Lemma handleDeveloperComplete_trip o event c M :
  trip o (λ w, stands w o (TDeveloping c) ∧ budget M (deref w o))
         (handleDeveloperCompleteLocked E event o) (λ _, settles o (reaches M (TDeveloping c))).
Proof.
  eapply (trip_pure _ (0 ≤ c)); [by intros w [[[] _] _]|]. intros Hc.
  pose proof retry_budget_nonneg as HR. assert (HM : timeless (budget M)) by (by intros ? ?).
  set (S := reaches M (TDeveloping c)). set (I := idle o c 0 (c + 1) (c * (1 + retry_budget)) (budget M)).
  assert (Herr : S (TDone phaseError)) by (apply rtc_once; by constructor).
  assert (Hroute : ∀ feedback, trip o I (routeFixableRejection E o feedback) (λ _, settles o S)).
  { intros feedback. apply routeFixable_trip; try done; try nia; intros; apply rtc_once; by constructor. }
  eapply trip_pre; [|apply (loop_ended_trip o teDeveloperTaskID)].
  { intros w [(? & ? & ? & ? & ? & ?) ?]. split; [by split|done]. }
  intros t0 _. apply (trip_seq _ _ _ _ I).
  { destruct (_ !=? _); [apply trip_updl_idle; intros x; by split|by apply trip_ret]. }
  destruct (_ !=? _); [apply Hroute|].
  set (parsed := xeUnmarshalDeveloper E _). apply (trip_seq _ _ _ _ I).
  { destruct parsed as [result|]; [|by apply trip_ret].
    eapply trip_seq; [by apply (trip_upd_idle _ _ _ _ _ _ _ (budget M)); [neutral_tac|]
      |apply trip_updl_idle; intros x; by split]. }
  apply trip_row. intros t. apply trip_drop.
  destruct (_ || _); [apply Hroute|].
  apply trip_quiet_bind; [|by apply idle_stable|intros []].
  { destruct (requireDeveloperDiff E); auto with quiet. }
  { apply trip_quiet_bind; [auto with quiet|by apply idle_stable|intros leaked]. apply Hroute. }
  set (ψ := λ t, teStage t = phaseValidating). assert (Hψ : timeless ψ) by (by intros ? ?).
  eapply trip_seq; [by apply (trip_upd_idle _ _ _ _ _ _ _ ψ); [neutral_tac|]|].
  apply trip_quiet_bind; [auto with quiet|by apply idle_stable|intros _].
  unfold dispatchValidatorLocked.
  eapply trip_bind; [apply (dispatch_refused_trip _ _ _ _ _ ψ S); [done|lia|nia|done]|].
  intros []; [by apply trip_ret|].
  apply trip_row. intros t1. apply trip_drop.
  apply trip_quiet_bind; [auto with quiet|by apply idle_stable|intros _].
  intros w Hw Hk [[Hcore ? ? ? ?] ?]. simpl. split_and!.
  - by destruct Hw.
  - split; try done; simpl; [by left|by left| |exists []; by rewrite app_nil_r].
    intros a Hne. set_solver.
  - assert (Hcore' : core (set_xwValidating (o :: xwValidating w) w) o c 0 (c + 1)
      (c * (1 + retry_budget))) by (by destruct Hcore).
    exists (TValidating c). split; [apply rtc_once; constructor|]. split; [|by eapply closed_core].
    split_and!; try done. simpl. set_solver.
Qed.

Lemma handleRejection_trip o result c r v M :
  v ≤ (c + 1) * (1 + retry_budget) → 0 ≤ c →
  trip o (idle o c r (c + 1) v (budget M)) (handleRejectionLocked E o result)
         (λ _, settles o (reaches M (TReviewing c r))).
Proof.
  intros Hv Hc. unfold handleRejectionLocked.
  eapply trip_seq; [by apply (trip_upd_idle _ _ _ _ _ _ _ (budget M)); [neutral_tac|]|].
  apply (trip_seq _ _ _ _ (idle o c r (c + 1) v (budget M))).
  { unfold appendCycleSnapshot. apply trip_row. intros t. apply trip_drop.
    apply trip_updl_idle; intros x; by split. }
  destruct (_ =? _).
  - apply trip_drop, (settles_escalated_mid _ _ _ c r (c + 1) v); [|lia|done].
    apply rtc_once. constructor.
  - apply routeFixable_trip; try done; try nia; intros; apply rtc_once; by constructor.
Qed.

(** The reviewer is asked again. *)
Lemma reparse_trip o error c r (S : tdd_state → Prop) :
  S (TReviewing c (r + 1)) → S (TDone phaseError) → 0 ≤ c → 0 ≤ r → r < retry_budget →
  trip o (λ w, mid w o c r (c + 1) (c * (1 + retry_budget) + 1 + r) ∧
               teStage (deref w o) = phaseReviewing)
    (upd o (λ t, set_teReviewRetryCount (teReviewRetryCount t + 1) t);;
     updl o (set_lReviewerParseError error);;
     syncToStore E o;; startExecutionTimeout o;; dispatchReviewerLocked E o)
    (λ _, settles o S).
Proof.
  intros Hrev Herr Hc Hr Hlt. set (v := c * (1 + retry_budget) + (r + 1)).
  set (ψ := λ t, teStage t = phaseReviewing). assert (Hψ : timeless ψ) by (by intros ? ?).
  apply (trip_seq _ _ _ _ (idle o c (r + 1) (c + 1) v ψ)).
  { intros w Hw Hk [[Hcore ? ? ? ?] ?].
    match goal with |- context [upd o ?f] => destruct (upd_frame o f w) as [? ?]; try done end.
    split_and!; [done..|]. split; [|by unfold ψ; rewrite deref_upd].
    split; try done; [|by apply upd_routes].
    destruct Hcore. split; unfold ent, v in *; rewrite ?deref_upd; simpl; try done;
      first [lia | etrans; [exact c_revs0|lia]]. }
  eapply trip_seq; [apply trip_updl_idle; intros x; by split|].
  apply trip_quiet_bind; [auto with quiet|by apply idle_stable|intros _].
  apply (trip_seq _ _ _ _ (idle o c (r + 1) (c + 1) v ψ)).
  { eapply trip_conseq; [| |apply (startExecutionTimeout_trip o
      (λ w, calm w o c (r + 1) (c + 1) v [] ∧ ψ (deref w o)))].
    - by intros w [[? _]%mid_calm ?].
    - intros [] w [[? ?] ?]. split; [|done]. by apply mid_calm.
    - intros w [? ?]. split; [by apply calm_arm|done]. }
  apply dispatchReviewer_trip; try done. lia.
Qed.

Lemma handleReviewerComplete_trip o event c r M :
  trip o (λ w, stands w o (TReviewing c r) ∧ budget M (deref w o))
         (handleReviewerCompleteLocked E event o) (λ _, settles o (reaches M (TReviewing c r))).
Proof.
  eapply (trip_pure _ (0 ≤ c ∧ 0 ≤ r ≤ retry_budget)); [by intros w [[[] _] _]|]. intros [Hc Hr].
  pose proof retry_budget_nonneg as HR. set (v := c * (1 + retry_budget) + 1 + r).
  assert (Hv : v ≤ (c + 1) * (1 + retry_budget)) by (unfold v; nia).
  set (φ := λ t, teStage t = phaseReviewing ∧ budget M t).
  set (S := reaches M (TReviewing c r)). set (I := idle o c r (c + 1) v (budget M)).
  assert (HI : ∀ w, idle o c r (c + 1) v φ w → I w) by (by intros w [? [_ ?]]).
  assert (HM : timeless (budget M)) by (by intros ? ?).
  assert (Herr : S (TDone phaseError)) by (apply rtc_once; by constructor).
  eapply trip_pre; [|apply (loop_ended_trip o teReviewerTaskID _ c r (c + 1) v φ)].
  { intros w [(? & ? & ? & ? & ? & ?) ?]. split; [by split|done]. }
  intros t Ht. destruct (_ !=? _).
  { eapply trip_pre; [apply HI|].
    apply routeFixable_trip; try done; intros; apply rtc_once; by constructor. }
  destruct (parseCodeReviewResult E (lcResult event)) as [result ok]. rewrite Ht.
  destruct (negb ok && _) eqn:Hretry.
  - apply andb_true_iff in Hretry as [_ Hlt%Z.ltb_lt].
    assert (Hrr : r < retry_budget) by (unfold retry_budget in *; lia).
    eapply trip_pre; [|apply reparse_trip; [apply rtc_once; by constructor|done|done|lia|done]].
    by intros w [? [? _]].
  - eapply trip_pre; [apply HI|].
    eapply trip_seq; [apply trip_updl_idle; intros x; by split|].
    eapply trip_seq; [by apply (trip_upd_idle _ _ _ _ _ _ _ (budget M)); [neutral_tac|]|].
    eapply trip_seq; [apply trip_updl_idle; intros x; by split|].
    destruct (_ =? _).
    + apply trip_row. intros t'. apply trip_drop.
      apply trip_quiet_bind; [|by apply idle_stable|intros _].
      { destruct (shouldDispatchPositiveLesson E t'); auto with quiet. }
      eapply trip_pre; [|apply markApproved_trip; [done|apply rtc_once; constructor]].
      intros w [? _]. eapply mid_endable; [done|lia|done].
    + apply trip_quiet_bind; [auto with quiet|by apply idle_stable|intros _].
      by apply handleRejection_trip.
Qed.

Lemma handleValidationFailed_trip o c M :
  0 ≤ c →
  trip o (idle o c 0 (c + 1) (c * (1 + retry_budget)) (budget M)) (handleValidationFailedLocked E o)
         (λ _, settles o (reaches M (TValidating c))).
Proof.
  intros Hc. pose proof retry_budget_nonneg as HR. assert (HM : timeless (budget M)) by (by intros ? ?).
  assert (Hesc : reaches M (TValidating c) (TDone phaseEscalated)) by (apply rtc_once; constructor).
  unfold handleValidationFailedLocked.
  eapply trip_seq; [by apply (trip_upd_idle _ _ _ _ _ _ _ (budget M)); [neutral_tac|]|].
  apply trip_quiet_bind; [auto with quiet|by apply idle_stable|intros _].
  apply trip_exec. intros y. apply trip_drop. destruct (ownershipPlanningGap _).
  { apply trip_drop, settles_escalated_mid; [done|lia|nia]. }
  apply trip_row. intros t. eapply (trip_pure _ (teTDDCycle t = c ∧ teMaxTDDCycles t = M)).
  { intros w [[[[] _ _ _ _] ?] ->]. done. }
  intros [Hct HMt]. rewrite Hct, HMt. destruct (Z.ltb_spec (c + 1) M) as [Hlt|Hge].
  - eapply trip_pre; [|apply (startDeveloperRetry_trip _ _ c 0 (c * (1 + retry_budget)));
      [apply rtc_once; by constructor|apply rtc_once; by constructor|done|nia]].
    intros w [[? ?] ->]. split; [done|]. lia.
  - apply trip_drop, trip_drop, settles_escalated_mid; [done|lia|nia].
Qed.

Lemma validationDone_trip o answer c M :
  trip o (λ w, stands w o (TValidating c) ∧ budget M (deref w o))
         (validationDoneLocked E o answer) (λ _, settles o (reaches M (TValidating c))).
Proof.
  eapply (trip_pure _ (0 ≤ c)); [by intros w [[[] _] _]|]. intros Hc.
  pose proof retry_budget_nonneg as HR. assert (HM : timeless (budget M)) by (by intros ? ?).
  unfold validationDoneLocked.
  apply (trip_seq _ _ _ _ (idle o c 0 (c + 1) (c * (1 + retry_budget)) (budget M))).
  { intros w Hw Hk [(Hcore & ? & ? & ? & ? & ?) ?]. simpl. split_and!.
    - by destruct Hw.
    - split; try done; simpl; [by left|by left| |exists []; by rewrite app_nil_r].
      intros a Hne. rewrite list_elem_of_filter. set_solver.
    - split; [|done]. split; try done; [by destruct Hcore|].
      simpl. rewrite list_elem_of_filter. by intros [? _]. }
  apply trip_exec. intros x. eapply (trip_pure _ (lTerminated x = false)).
  { intros w [[[[] _ _ _ _] _] ->]. done. }
  intros ->. apply trip_drop. destruct answer as [result|err].
  2: { apply trip_drop, settles_escalated_mid; [|lia|nia]. apply rtc_once. constructor. }
  eapply trip_seq; [by apply (trip_upd_idle _ _ _ _ _ _ _ (budget M)); [neutral_tac|]|].
  eapply trip_seq; [apply trip_updl_idle; intros y; by split|].
  destruct (negb (vrPassed result)); [by apply handleValidationFailed_trip|].
  set (ψ := λ t, teStage t = phaseReviewing). assert (Hψ : timeless ψ) by (by intros ? ?).
  eapply trip_seq; [by apply (trip_upd_idle _ _ _ _ _ _ _ ψ); [neutral_tac|]|].
  apply trip_quiet_bind; [auto with quiet|by apply idle_stable|intros _].
  eapply trip_pre; [|apply (dispatchReviewer_trip o c 0);
    [apply rtc_once; by constructor|apply rtc_once; by constructor|done|lia]].
  intros w [Hm ?]. split; [|done]. eapply mid_weaken; [done|lia|lia].
Qed.

(** ** Start *)

Lemma createWorktree_trip o c r d v ids φ :
  timeless φ → (∀ t p b, φ t → φ (set_teWorktreeBranch b (set_teWorktreePath p t))) →
  trip o (λ w, calm w o c r d v ids ∧ φ (deref w o)) (createWorktree E o)
         (λ _ w, calm w o c r d v ids ∧ φ (deref w o)).
Proof.
  intros Hφ Hset. assert (Hst := and_stable _ _ _ (calm_stable o c r d v ids) (row_stable o φ Hφ)).
  unfold createWorktree. apply trip_row. intros t. apply trip_drop.
  apply trip_quiet_bind; [auto with quiet|done|intros io].
  apply trip_quiet_bind; [auto with quiet|done|intros _].
  destruct (xWorktree io) as [[path branch]|err]; [|by apply trip_ret].
  apply (trip_seq _ _ _ _ (λ w, calm w o c r d v ids ∧ φ (deref w o))); [|by apply trip_ret].
  assert (neutral (λ t, set_teWorktreeBranch branch (set_teWorktreePath path t))) by neutral_tac.
  apply trip_upd; [done|]. intros w [? ?]. split; [by apply calm_upd|]. rewrite deref_upd. auto.
Qed.

Lemma initTaskExecution_trip o M :
  trip o (λ w, stands w o TStarting ∧ budget M (deref w o)) (initTaskExecution E o)
         (λ _, settles o (reaches M TStarting)).
Proof.
  pose proof retry_budget_nonneg as HR.
  assert (Herr : reaches M TStarting (TDone phaseError)) by (apply rtc_once; by constructor).
  set (ψ := λ t, teStage t = phaseDeveloping). assert (Hψ : timeless ψ) by (by intros ? ?).
  set (P := λ w, calm w o 0 0 0 0 [] ∧ ψ (deref w o)).
  assert (Hst : stable o P) by (apply and_stable; [apply calm_stable|by apply row_stable]).
  unfold initTaskExecution. apply (trip_seq _ _ _ _ P).
  { intros w Hw Hk [(Hcore & ? & ? & ? & ? & _) _]. simpl. split_and!.
    - by destruct Hw.
    - split; try done; simpl; [by left|by left| |exists []; by rewrite app_nil_r].
      intros a Hne. rewrite list_elem_of_filter. set_solver.
    - split; [|done]. split; try done; [by destruct Hcore|].
      simpl. rewrite list_elem_of_filter. by intros [? _]. }
  apply trip_quiet_bind; [auto with quiet|done|intros _].
  eapply trip_bind; [by apply createWorktree_trip|]. intros [err|].
  - eapply trip_pre; [|by apply settles_error]. intros w [Hk _].
    eapply calm_endable; [done|lia|lia|set_solver].
  - eapply trip_seq.
    { apply (startExecutionTimeout_trip o P). intros w [? ?]. split; [by apply calm_arm|done]. }
    eapply trip_pre; [|apply (dispatchDeveloper_trip o 0); [apply rtc_once; by constructor|done|done]].
    intros w [[? ?] ?]. split; [|done]. eapply mid_weaken; [by apply mid_calm|lia|lia].
Qed.

(** ** Any execution

    What the handlers do to an execution, wherever it stands: they keep the
    world well formed and touch nothing of another one. *)

Definition safe {A} (o : nat) (e : string) (m : X A) : Prop :=
  trip o (λ w, ent w o = e) m (λ _ w, ent w o = e).

Lemma safe_frame {A} o e (m : X A) :
  (∀ w, WF w → is_Some (xwExecs w !! o) → ent w o = e → WF (m w).1 ∧ acts o w (m w).1) → safe o e m.
Proof.
  intros H w Hw Hk He. destruct (H w Hw Hk He) as [? Ha]. split_and!; [done..|]. by rewrite (a_ent _ _ _ Ha).
Qed.

Lemma safe_ret {A} o e (x : A) : safe o e (mret x).
Proof. by apply trip_ret. Qed.

Lemma safe_bind {A B} o e (m : X A) (f : A → X B) : safe o e m → (∀ x, safe o e (f x)) → safe o e (m ≫= f).
Proof. apply trip_bind. Qed.

Lemma safe_quiet {A} o e (m : X A) : quietp o m → safe o e m.
Proof. intros Hm. apply trip_quiet; [done|]. intros w w' H. quiet_rewrite H. done. Qed.

Lemma safe_row {B} o e (f : TaskExecution → X B) : (∀ t, teEntityID t = e → safe o e (f t)) → safe o e (row o ≫= f).
Proof. intros H w Hw Hk He. by apply (H (deref w o)). Qed.

Lemma safe_exec {B} o e (f : taskExecution → X B) : (∀ x, safe o e (f x)) → safe o e (exec o ≫= f).
Proof. intros H w Hw Hk He. by apply (H (live w o)). Qed.

Lemma safe_upd o e f :
  (∀ t, teEntityID (f t) = teEntityID t ∧ teMaxTDDCycles (f t) = teMaxTDDCycles t) →
  (∀ t, dev_id (teDeveloperTaskID t) → dev_id (teDeveloperTaskID (f t))) →
  (∀ t, rev_id (teReviewerTaskID t) → rev_id (teReviewerTaskID (f t))) → safe o e (upd o f).
Proof. intros He Hd Hr. apply safe_frame. intros w Hw _ _. apply upd_frame; try done; [intros t; apply He..|apply Hd|apply Hr]. Qed.

Lemma safe_updl o e g : (∀ x, lTimer (g x) = lTimer x) → safe o e (updl o g).
Proof. intros Hg. apply safe_frame. intros w Hw Hk _. by apply updl_frame. Qed.

Lemma safe_stop o e : safe o e (stop_timer o).
Proof. by apply stop_timer_trip. Qed.

Lemma safe_arm o e : safe o e (startExecutionTimeout o).
Proof. eapply trip_post; [|by apply (startExecutionTimeout_trip o (λ w, ent w o = e))]. by intros [] w [? _]. Qed.

Lemma safe_unroute o e t : safe o e (unroute t).
Proof. apply safe_frame. intros w Hw _ _. by apply unroute_frame. Qed.

Lemma safe_route o e t : safe o e (route t e).
Proof.
  apply safe_frame. intros w [] _ He. split; [by split|]. split; try done; simpl; [by left| |exists []; by rewrite app_nil_r].
  intros t' e' [[_ <-]|[_ ?]]%lookup_insert_Some; [by right|by left].
Qed.

Lemma safe_leave o e : safe o e (modify (λ w, set_xwActive (delete e (xwActive w)) w)).
Proof.
  apply safe_frame. intros w [] _ He. split.
  - split; try done. simpl. intros e' a [_ ?]%lookup_delete_Some. by apply wf_active0.
  - split; try done; simpl; [|by left|exists []; by rewrite app_nil_r].
    intros e'. destruct (decide (e' = e)) as [->|Hne]; [right; by rewrite lookup_delete_eq|left; by rewrite lookup_delete_ne].
Qed.

Lemma safe_queue o e (f : XWorld → XWorld) :
  (∀ w, ∃ st va, f w = set_xwStarting st (set_xwValidating va w) ∧
     (∀ a, a ≠ o → a ∈ st ↔ a ∈ xwStarting w) ∧ (∀ a, a ≠ o → a ∈ va ↔ a ∈ xwValidating w)) →
  safe o e (modify f).
Proof.
  intros Hf. apply safe_frame. intros w Hw _ _. unfold modify. simpl. destruct (Hf w) as (st & va & -> & Hs & Hv).
  split; [by destruct Hw|]. split; try done; simpl; [by left|by left|exists []; by rewrite app_nil_r].
Qed.

Lemma safe_publish o e subject m : task_shape m → safe o e (publishTask E o subject m).
Proof.
  intros Hm. unfold publishTask. apply safe_bind; [apply safe_quiet, quietp_tick|intros io]. destruct (_ || _); [apply safe_ret|].
  apply safe_frame. intros w [] Hk _. split.
  - split; try done. simpl. intros a s m' Hin. apply elem_of_app in Hin as [Hin|Hin]; [by apply (wf_out0 _ _ _ Hin)|].
    apply list_elem_of_singleton in Hin as [= -> -> ->]. done.
  - split; try done; simpl; [by left|by left|]. exists [EvAgentTask o subject m]. split; [done|]. by repeat constructor.
Qed.

Create HintDb safe.
#[local] Hint Resolve safe_ret safe_stop safe_arm safe_unroute safe_route safe_leave : safe.

Ltac safe_step :=
  lazymatch goal with
  | |- safe _ _ (row _ ≫= _) => apply safe_row; intros ? ?
  | |- safe _ _ (exec _ ≫= _) => apply safe_exec; intros ?
  | |- safe _ _ (mbind _ _) => apply safe_bind; [|intros ?]
  | |- safe _ _ (updl _ _) => apply safe_updl; by intros ?
  | |- safe _ _ (upd _ _) => apply safe_upd; [by intros ?|by intros ?|by intros ?]
  | |- safe _ _ (let '(_, _) := ?x in _) => destruct x
  | |- safe _ _ (if ?b then _ else _) => destruct b
  | |- safe _ _ (match ?x with _ => _ end) => destruct x
  | |- safe _ _ (let _ := _ in _) => cbv zeta
  end.
Ltac safe_auto := repeat first [solve [auto 2 with safe] | solve [apply safe_quiet; auto 2 with quiet] | safe_step].

Lemma safe_cleanup o e : safe o e (cleanupExecutionLocked o).
Proof. unfold cleanupExecutionLocked. apply safe_bind; [apply safe_stop|intros _]. apply safe_row. intros t <-. safe_auto. Qed.
#[local] Hint Resolve safe_cleanup : safe.

Lemma safe_markError o e reason : safe o e (markErrorLocked E o reason).
Proof. unfold markErrorLocked. safe_auto. Qed.
Lemma safe_markEscalated o e reason : safe o e (markEscalatedLocked E o reason).
Proof. unfold markEscalatedLocked. safe_auto. Qed.
#[local] Hint Resolve safe_markError safe_markEscalated : safe.

Lemma safe_merge o e : safe o e (mergeWorktree E o).
Proof.
  unfold mergeWorktree. safe_auto; apply safe_upd; intros ?; by destruct (is_nil _).
Qed.
#[local] Hint Resolve safe_merge : safe.

Lemma safe_markApproved o e : safe o e (markApprovedLocked E o).
Proof. unfold markApprovedLocked. safe_auto. Qed.

Lemma safe_refused o e : safe o e (dispatch_refused E o).
Proof. unfold dispatch_refused. safe_auto. Qed.
#[local] Hint Resolve safe_markApproved safe_refused : safe.

Lemma safe_developer o e : safe o e (dispatchDeveloperLocked E o).
Proof.
  unfold dispatchDeveloperLocked. apply safe_bind; [apply safe_refused|intros []]; [apply safe_ret|].
  apply safe_row. intros t He. apply safe_bind; [apply safe_quiet; auto with quiet|intros [plan|err]]; [|apply safe_markError].
  apply safe_exec. intros x. do 2 (apply safe_bind; [apply safe_quiet; auto with quiet|intros ?]). rewrite He.
  apply safe_bind; [apply safe_upd; [done| |done]; intros ? _; right; apply HasPrefix_append|intros _].
  apply safe_bind; [apply safe_route|intros _]. apply safe_publish. left. split; [apply HasPrefix_append|done].
Qed.

Lemma safe_reviewer o e : safe o e (dispatchReviewerLocked E o).
Proof.
  unfold dispatchReviewerLocked. apply safe_bind; [apply safe_refused|intros []]; [apply safe_ret|].
  apply safe_row. intros t He. apply safe_bind; [apply safe_quiet; auto with quiet|intros [plan|err]]; [|apply safe_markError].
  apply safe_exec. intros x. apply safe_bind; [apply safe_quiet; auto with quiet|intros ?]. rewrite He.
  apply safe_bind; [apply safe_upd; [done|done|]; intros ? _; right; apply HasPrefix_append|intros _].
  apply safe_bind; [apply safe_route|intros _]. apply safe_publish. right. split; [apply HasPrefix_append|done].
Qed.
#[local] Hint Resolve safe_developer safe_reviewer : safe.

Lemma safe_retry o e feedback : safe o e (startDeveloperRetryLocked E o feedback).
Proof. unfold startDeveloperRetryLocked. safe_auto. Qed.
#[local] Hint Resolve safe_retry : safe.

Lemma safe_fixable o e feedback : safe o e (routeFixableRejection E o feedback).
Proof. unfold routeFixableRejection. safe_auto. Qed.

Lemma safe_failed o e : safe o e (handleValidationFailedLocked E o).
Proof. unfold handleValidationFailedLocked. safe_auto. Qed.
#[local] Hint Resolve safe_fixable safe_failed : safe.

Lemma safe_validator o e : safe o e (dispatchValidatorLocked E o).
Proof.
  unfold dispatchValidatorLocked. safe_auto. apply safe_queue. intros w. exists (xwStarting w), (o :: xwValidating w).
  split_and!; [by destruct w|done|set_solver].
Qed.

Lemma safe_reset o e : safe o e (resetTimeoutLocked o).
Proof. unfold resetTimeoutLocked. safe_auto. Qed.
#[local] Hint Resolve safe_validator safe_reset : safe.

Lemma safe_developed o e event : safe o e (handleDeveloperCompleteLocked E event o).
Proof. unfold handleDeveloperCompleteLocked. safe_auto. Qed.

Lemma safe_reviewed o e event : safe o e (handleReviewerCompleteLocked E event o).
Proof. unfold handleReviewerCompleteLocked, handleRejectionLocked, appendCycleSnapshot. safe_auto. Qed.

Lemma safe_validated o e answer : safe o e (validationDoneLocked E o answer).
Proof.
  unfold validationDoneLocked. apply safe_bind; [|intros _; safe_auto]. apply safe_queue. intros w.
  exists (xwStarting w), (filter (λ a, a ≠ o) (xwValidating w)). split_and!; [by destruct w|done|].
  intros a Hne. rewrite list_elem_of_filter. tauto.
Qed.

Lemma safe_started o e : safe o e (initTaskExecution E o).
Proof.
  unfold initTaskExecution, createWorktree, dispatchFirstStage. apply safe_bind; [|intros _; safe_auto]. apply safe_queue. intros w.
  exists (filter (λ a, a ≠ o) (xwStarting w)), (xwValidating w). split_and!; [by destruct w| |done].
  intros a Hne. rewrite list_elem_of_filter. tauto.
Qed.

(** ** Steps of the whole manager *)

(** Every execution whose entity is not disturbed moves along the machine, a
    new one from its start. *)
Definition moves (w w' : XWorld) : Prop :=
  Inv w → Inv w' ∧
  (∀ o, is_Some (xwExecs w !! o) → is_Some (xwExecs w' !! o) ∧ ent w' o = ent w o) ∧
  (∀ o s, (ent w o ∉ ds) → stands w o s →
    teMaxTDDCycles (deref w' o) = teMaxTDDCycles (deref w o) ∧
    ∃ s', reaches (teMaxTDDCycles (deref w o)) s s' ∧ stands w' o s') ∧
  (∀ o, xwExecs w !! o = None → is_Some (xwExecs w' !! o) → (ent w' o ∉ ds) →
    ∃ s', reaches (teMaxTDDCycles (deref w' o)) TStarting s' ∧ stands w' o s').

(** The executions stay where they are and none is new. *)
Lemma moves_same w w' :
  xwExecs w' = xwExecs w → (Inv w → ∀ o, is_Some (xwExecs w !! o) → ent w' o = ent w o) → (Inv w → Inv w') →
  (Inv w → ∀ o s, (ent w o ∉ ds) → stands w o s → teMaxTDDCycles (deref w' o) = teMaxTDDCycles (deref w o) ∧ stands w' o s) →
  moves w w'.
Proof.
  intros He Hent HI Hs Hi. split_and!; [by apply HI| | |].
  - intros o Ho. rewrite He. split; [done|by apply Hent].
  - intros o s Hd H. destruct (Hs Hi o s Hd H). split; [done|]. exists s. split; [by apply rtc_refl|done].
  - rewrite He. intros o ->. by intros [].
Qed.

Lemma moves_refl w : moves w w.
Proof. by apply moves_same. Qed.

Lemma moves_trans w1 w2 w3 : moves w1 w2 → moves w2 w3 → moves w1 w3.
Proof.
  intros H12 H23 Hi. destruct (H12 Hi) as (Hi2 & He2 & Hm2 & Hb2). destruct (H23 Hi2) as (Hi3 & He3 & Hm3 & Hb3).
  assert (∀ o s, stands w1 o s → is_Some (xwExecs w1 !! o)) as Hkn.
  { intros o s H. destruct s; simpl in H; [by destruct H as [[] _]..|by destruct H]. }
  split_and!; [done| | |].
  - intros o [H2 E2]%He2. destruct (He3 o H2). split; [done|congruence].
  - intros o s Hd Hs. destruct (Hm2 o s Hd Hs) as (Hm & s2 & Hr2 & Hs2). destruct (He2 o (Hkn o s Hs)) as [_ E2].
    destruct (Hm3 o s2) as (Hm' & s3 & Hr3 & Hs3); [by rewrite E2|done|]. split; [congruence|].
    exists s3. split; [|done]. unfold reaches in *. rewrite Hm in Hr3. by etrans.
  - intros o Hn Hk Hd. destruct (xwExecs w2 !! o) as [x|] eqn:Hx; [|by apply Hb3].
    destruct (He3 o ltac:(eauto)) as [_ E3]. destruct (Hb2 o Hn ltac:(eauto)) as (s2 & Hr2 & Hs2); [by rewrite <- E3|].
    destruct (Hm3 o s2) as (Hm' & s3 & Hr3 & Hs3); [by rewrite <- E3|done|]. exists s3. split; [|done].
    unfold reaches in *. rewrite Hm'. by etrans.
Qed.

Lemma stands_known w o s : stands w o s → is_Some (xwExecs w !! o).
Proof. intros H. destruct s; simpl in H; [by destruct H as [[] _]..|by destruct H]. Qed.

Lemma stands_quiet o w w' s : quiet o w w' → stands w o s → stands w' o s.
Proof.
  intros H Hs. assert (Hc := core_quiet o w w'). destruct s; simpl in *.
  1-4: destruct Hs as [Hcore Hs]; split; [by apply Hc|]; quiet_rewrite H; done.
  destruct Hs. split; try (quiet_rewrite H; done).
  intros ?. eapply merged_quiet; [done|auto].
Qed.

(** An execution stands in one state only. *)
Lemma stands_inj w o s s' : stands w o s → stands w o s' → s = s'.
Proof.
  intros H H'. destruct s, s'; simpl in H, H';
    repeat match goal with
    | H : core _ _ _ _ _ _ ∧ _ |- _ => destruct H as [[] ?]
    | H : ended _ _ _ |- _ => destruct H
    end; destruct_and?; try done; try congruence; exfalso;
    match goal with H : teStage ?t = _, H' : teStage ?t = _ |- _ => rewrite H in H'; done end.
Qed.

(** A program has worked on one execution, which is disturbed or has moved
    along the machine. *)
Lemma acts_moves o w w' :
  WF w' → acts o w w' → is_Some (xwExecs w !! o) →
  ent w o ∈ ds ∨ (xwActive w !! ent w o = Some o ∧
    ∃ s s', stands w o s ∧ reaches (teMaxTDDCycles (deref w o)) s s' ∧ stands w' o s' ∧ closed w' o) →
  moves w w'.
Proof.
  intros Hw' Ha Hk Ho Hi. assert (Hw := inv_wf _ Hi).
  assert (Hent : ∀ a, is_Some (xwExecs w !! a) → ent w' a = ent w a).
  { intros a H. destruct (decide (a = o)) as [->|Hne]; [apply (a_ent _ _ _ Ha)|by eapply ent_other]. }
  assert (Hknown : ∀ a, is_Some (xwExecs w' !! a) ↔ is_Some (xwExecs w !! a)).
  { intros a. destruct (decide (a = o)) as [->|Hne]; [apply (a_known _ _ _ Ha)|by rewrite (a_execs _ _ _ Ha)]. }
  assert (Hother : ∀ a s1, (ent w a ∉ ds) → a ≠ o → stands w a s1 → stands w' a s1).
  { intros a s1 Hd Hne H1. apply (stands_acts o w); try done. destruct Ho as [Ho|[Ho _]]; [right; congruence|by left]. }
  split_and!.
  - split; [done| | |].
    + intros a Hx%Hknown. rewrite Hent by done. intros Hd. destruct (decide (a = o)) as [->|Hne].
      * destruct Ho as [?|(_ & s & s' & _ & _ & ? & _)]; [done|by exists s'].
      * destruct (inv_stands _ Hi a Hx Hd) as [s1 Hs1]. eauto.
    + intros t e Hte Hd. destruct (decide (e = ent w o)) as [->|Hne].
      * destruct Ho as [?|(_ & s & s' & _ & _ & _ & Hcl)]; [done|]. rewrite <- (a_ent _ _ _ Ha) in *. by eapply Hcl.
      * apply (a_routing _ _ _ Ha) in Hte as [Hte|]; [|done].
        destruct (a_active _ _ _ Ha e) as [->|[? _]]; [by eapply inv_routes|done].
    + intros a Hin. apply Hknown. destruct (decide (a = o)) as [->|Hne]; [done|].
      rewrite (a_starting _ _ _ Ha), (a_validating _ _ _ Ha) in Hin by done. by apply inv_queues.
  - intros a Hx. split; [by apply Hknown|by apply Hent].
  - intros a s1 Hd Hs1. destruct (decide (a = o)) as [->|Hne].
    + destruct Ho as [?|(_ & s & s' & Hs & Hr & Hs' & _)]; [done|]. rewrite (stands_inj w o s1 s) by done.
      split; [apply (a_max _ _ _ Ha)|eauto].
    + destruct (stands_known _ _ _ Hs1) as [x Hx]. split; [by erewrite acts_deref|].
      exists s1. split; [by apply rtc_refl|]. by apply Hother.
  - intros a Hn Hk'. apply Hknown in Hk'. rewrite Hn in Hk'. by destruct Hk'.
Qed.

(** A program working on one execution that stood in [s]. *)
Lemma trip_moves {A} o s (m : X A) M w :
  stands w o s → xwActive w !! ent w o = Some o → teMaxTDDCycles (deref w o) = M →
  trip o (λ w', w' = w) m (λ _, settles o (reaches M s)) →
  moves w (m w).1.
Proof.
  intros Hs Hact <- Ht Hi. assert (Hk := stands_known _ _ _ Hs).
  destruct (Ht w (inv_wf _ Hi) Hk) as (Hw' & Ha & s' & Hr & Hs' & Hcl); [done|].
  eapply acts_moves; [done..| |done]. right. eauto 10.
Qed.

(** A program working on a disturbed execution. *)
Lemma safe_moves {A} o (m : X A) w :
  is_Some (xwExecs w !! o) → ent w o ∈ ds → safe o (ent w o) m → moves w (m w).1.
Proof.
  intros Hk Hd Hm Hi. destruct (Hm w (inv_wf _ Hi) Hk eq_refl) as (? & ? & _).
  eapply acts_moves; [done..| |done]. by left.
Qed.
End refinement.
