(* ===== verification/TddRuns.v ===== *)
(** * Runs of the execution manager

    Every step of [xstep] moves every execution along the machine of
    TddRefinement.v, whatever the order in which requests, loops, validators
    and timers come.  The consequences: no execution starts more agents than
    its budget allows, an execution that has ended stays ended, and one that
    has not ended has a timer that ends it. *)

From S2P Require Import Prelude Status Paths Types Stories PlanStore ExecTypes Feedback ExecStore.
From S2P Require Import TddPipeline ExecMutations ExecManager TddRefinement.

Local Open Scope string_scope.
Local Open Scope Z_scope.
Local Open Scope go_scope.

Section runs.
Context (E : ExecEnv) (ds : list string).

(** ** Programs that touch no execution *)

Record still (w w' : XWorld) : Prop := {
  st_next : (xwNext w ≤ xwNext w')%nat;
  st_cells : ∀ a, (a < xwNext w)%nat → xwCells w' !! a = xwCells w !! a;
  st_execs : xwExecs w' = xwExecs w;
  st_active : xwActive w' = xwActive w;
  st_routing : xwRouting w' = xwRouting w;
  st_timers : xwTimers w' = xwTimers w;
  st_starting : xwStarting w' = xwStarting w;
  st_validating : xwValidating w' = xwValidating w;
  st_out : ∃ evs, xwOut w' = (xwOut w ++ evs)%list ∧ Forall no_agent evs }.

Lemma still_trans w1 w2 w3 : still w1 w2 → still w2 w3 → still w1 w3.
Proof.
  intros [] []. split; try congruence; [lia| |].
  - intros a Ha. rewrite st_cells1 by lia. by apply st_cells0.
  - destruct st_out0 as (e1 & H1 & F1), st_out1 as (e2 & H2 & F2). exists (e1 ++ e2)%list.
    rewrite H2, H1, (assoc (++)%list). split; [done|]. by apply Forall_app.
Qed.

Lemma no_events w w' :
  xwOut w' = xwOut w → ∃ evs, xwOut w' = (xwOut w ++ evs)%list ∧ Forall no_agent evs.
Proof. exists []. by rewrite app_nil_r. Qed.

Ltac still_tac := split; try done; by apply no_events.

Lemma still_refl w : still w w.
Proof. still_tac. Qed.

Lemma still_quiet o w w' : (o < xwNext w)%nat → still w w' → quiet o w w'.
Proof.
  intros Ho []. split; try done; [auto|].
  exists (teUpdatedAt (deref w o)). by rewrite row_same, (deref_cells w w' o) by auto.
Qed.

Lemma still_moves w w' : still w w' → moves E ds w w'.
Proof.
  intros [Hn Hc He Ha Hrt Ht Hsta Hv Ho].
  assert (Hd : ∀ o, WF w → is_Some (xwExecs w !! o) → deref w' o = deref w o).
  { intros o Hw [x Hx]. apply deref_cells, Hc. by eapply wf_exec. }
  assert (Hq : Inv E ds w → ∀ o s, stands E w o s → stands E w' o s).
  { intros Hi o s H. destruct (stands_known _ _ _ _ H) as [x Hx]. eapply stands_quiet; [|done].
    apply still_quiet; [by eapply wf_exec, Hx; apply Hi|by split]. }
  assert (Hent : Inv E ds w → ∀ o, is_Some (xwExecs w !! o) → ent w' o = ent w o).
  { intros Hi o Hx. unfold ent. by rewrite Hd; [|apply Hi|]. }
  apply moves_same; [done|done|intros Hi; assert (Hw := inv_wf _ _ _ Hi); split|].
  - eapply frame_wf; try done.
    intros a x Hx. exists (teUpdatedAt (deref w a)). rewrite row_same. apply Hd; [done|eauto].
  - intros o. rewrite He. intros Hx. rewrite Hent by done. intros Hnd.
    destruct (inv_stands _ _ _ Hi o Hx Hnd) as [s ?]. exists s. by apply Hq.
  - intros t e. rewrite Hrt, Ha. apply (inv_routes _ _ _ Hi).
  - intros o. rewrite Hsta, Hv, He. apply (inv_queues _ _ _ Hi).
  - intros Hi o s _ H. split; [|by apply Hq]. rewrite Hd; [done|apply Hi|by eapply stands_known].
Qed.

Definition stillp {A} (m : X A) : Prop := ∀ w, still w (m w).1.

Lemma stillp_ret {A} (x : A) : stillp (mret x : X A).
Proof. intros w. apply still_refl. Qed.

Lemma stillp_bind {A B} (m : X A) (f : A → X B) :
  stillp m → (∀ x, stillp (f x)) → stillp (m ≫= f).
Proof.
  intros Hm Hf w. specialize (Hm w). unfold mbind, X_bind. destruct (m w) as [w1 x]. simpl in Hm.
  eapply still_trans; [done|]. apply Hf.
Qed.

Lemma stillp_read : stillp xread.
Proof. intros w. apply still_refl. Qed.
Lemma stillp_tick : stillp (xtick E).
Proof. intros w. still_tac. Qed.
Lemma stillp_cacheTask k a : stillp (cacheTask k a).
Proof. intros w. still_tac. Qed.
Lemma stillp_cacheReq k r : stillp (cacheReq k r).
Proof. intros w. still_tac. Qed.
Lemma stillp_kvPut k r : stillp (kvPut k r).
Proof. intros w. still_tac. Qed.
Lemma stillp_alloc t : stillp (alloc t).
Proof.
  intros w. split; try done; simpl; [lia| |by apply no_events].
  intros a Ha. by rewrite lookup_insert_ne by lia.
Qed.
Lemma stillp_emit ev : no_agent ev → stillp (emit ev).
Proof. intros Hev w. split; try done. exists [ev]. split; [done|]. by repeat constructor. Qed.

Ltac still_step :=
  lazymatch goal with
  | |- stillp (mret _) => apply stillp_ret
  | |- stillp xread => apply stillp_read
  | |- stillp (xtick _) => apply stillp_tick
  | |- stillp (alloc _) => apply stillp_alloc
  | |- stillp (cacheTask _ _) => apply stillp_cacheTask
  | |- stillp (cacheReq _ _) => apply stillp_cacheReq
  | |- stillp (kvPut _ _) => apply stillp_kvPut
  | |- stillp (emit _) => apply stillp_emit; exact I
  | |- stillp (mbind _ _) => apply stillp_bind; [|intros ?]
  | |- stillp (if ?b then _ else _) => destruct b
  | |- stillp (match ?x with _ => _ end) => destruct x
  end.

Lemma stillp_getTask k : stillp (getTask E k).
Proof. unfold getTask, kvGet. repeat still_step. Qed.
Lemma stillp_getReq k : stillp (getReq E k).
Proof. unfold getReq, kvGet. repeat still_step. Qed.
Lemma stillp_saveReq k r : stillp (saveReq E k r).
Proof. unfold saveReq. repeat still_step. Qed.

Lemma stillp_deleteReq k : stillp (deleteReq E k).
Proof.
  unfold deleteReq. apply stillp_bind; [by intros w; still_tac|intros _].
  apply stillp_bind; [by intros w; still_tac|intros _]. repeat still_step. by intros w; still_tac.
Qed.

(** A new cell is filled and saved. *)
Lemma stillp_save t k (f : option exec_error → X exec_reply) :
  (∀ e, stillp (f e)) → stillp (a ← alloc t; err ← saveTask E k a; f err).
Proof.
  intros Hf w.
  assert (Hs : still w (let '(w1, a) := alloc t w in saveTask E k a w1).1).
  { set (w1 := (alloc t w).1). change (still w (saveTask E k (xwNext w) w1).1).
    assert (H := saveTask_quiet E (xwNext w) k w1 ltac:(simpl; lia)).
    destruct H as [Hn Hc]. split; try done; simpl in *; [lia|]. intros a Ha.
    rewrite Hc by lia. by rewrite lookup_insert_ne by lia. }
  revert Hs. unfold mbind, X_bind. destruct (alloc t w) as [w1 a]. destruct (saveTask E k a w1) as [w2 e].
  simpl. intros Hs. eapply still_trans; [done|]. apply Hf.
Qed.

(** ** Handlers that touch no execution *)

Lemma stillp_collect {A B} (l : list A) (body : A → X (option B)) :
  (∀ x, stillp (body x)) → stillp (xcollect l body).
Proof.
  intros H. induction l as [|x l IH]; simpl; [apply stillp_ret|].
  repeat (apply stillp_bind; [done|intros ?]). apply stillp_ret.
Qed.

Lemma stillp_count {A Err} (l : list A) n (body : A → X (bool + Err)) :
  (∀ x, stillp (body x)) → stillp (xcount l n body).
Proof.
  intros H. revert n. induction l as [|x l IH]; intros n; simpl; [apply stillp_ret|].
  apply stillp_bind; [done|intros []]; [apply IH|apply stillp_ret].
Qed.

Lemma stillp_listTasks slug : stillp (listTasksForSlug E slug).
Proof.
  unfold listTasksForSlug, kvKeys. repeat still_step.
  apply stillp_collect. intros key. unfold kvGet. repeat still_step.
Qed.

Lemma stillp_change_task key f : stillp (change_task E key f).
Proof.
  unfold change_task. apply stillp_bind; [apply stillp_getTask|intros [t|]; [|apply stillp_ret]].
  apply stillp_save. intros e. apply stillp_ret.
Qed.

Lemma stillp_change_req key f : stillp (change_req E key f).
Proof.
  unfold change_req. apply stillp_bind; [apply stillp_getReq|intros [r|]; [|apply stillp_ret]].
  apply stillp_bind; [apply stillp_saveReq|intros e; apply stillp_ret].
Qed.

Create HintDb still.
Hint Resolve stillp_getTask stillp_getReq stillp_saveReq stillp_deleteReq stillp_change_task
  stillp_change_req stillp_listTasks stillp_ret : still.
Ltac still_auto := repeat (solve [auto 1 with still] || still_step).

Lemma stillp_claim req : stillp (handleExecClaimMutation E req).
Proof.
  unfold handleExecClaimMutation. still_step; [apply stillp_ret|].
  apply stillp_bind; [apply stillp_getTask|intros [t|]].
  - case_match; [apply stillp_ret|]. apply stillp_save. intros. apply stillp_ret.
  - still_auto.
Qed.

Lemma stillp_create req : stillp (handleTaskCreateMutation E req).
Proof.
  unfold handleTaskCreateMutation. still_step; [apply stillp_ret|].
  apply stillp_bind; [apply stillp_getTask|intros [t|]; [apply stillp_ret|]].
  still_step; [apply stillp_tick|]. apply stillp_save. intros. apply stillp_ret.
Qed.

(** ** Programs along the machine *)

Definition movesp {A} (m : X A) : Prop := ∀ w, moves E ds w (m w).1.

Lemma movesp_still {A} (m : X A) : stillp m → movesp m.
Proof. intros H w. apply still_moves, H. Qed.

Lemma movesp_bind {A B} (m : X A) (f : A → X B) :
  movesp m → (∀ x, movesp (f x)) → movesp (m ≫= f).
Proof.
  intros Hm Hf w. specialize (Hm w). unfold mbind, X_bind. destruct (m w) as [w1 x].
  simpl in Hm. eapply moves_trans; [done|]. apply Hf.
Qed.

Lemma movesp_for {A} (l : list A) body : (∀ x, movesp (body x)) → movesp (xfor l body).
Proof.
  intros H. induction l as [|x l IH]; simpl; [by apply movesp_still, stillp_ret|].
  apply movesp_bind; [done|by intros []].
Qed.

Lemma movesp_for_in {A} (l : list A) body : (∀ x, x ∈ l → movesp (body x)) → movesp (xfor l body).
Proof.
  induction l as [|x l IH]; intros H; simpl; [by apply movesp_still, stillp_ret|].
  apply movesp_bind; [apply H; by left|intros []]. apply IH. intros y Hy. apply H. by right.
Qed.

Lemma moves_inv w w' : (Inv E ds w → moves E ds w w') → moves E ds w w'.
Proof. intros H Hi. by apply H. Qed.

(** A live execution may be ended in any state. *)
Lemma stands_endable w o s :
  stands E w o s → (∀ stage, s ≠ TDone stage) → endable E w o ∧ xwActive w !! ent w o = Some o.
Proof.
  intros Hs Hn. pose proof (retry_budget_nonneg E) as HR.
  destruct s as [|c|c|c r|stage]; simpl in Hs; [..|by destruct (Hn stage)];
    destruct Hs as (Hc & ? & Hs); (split; [|apply Hc]);
    [exists 0, 0|exists c, 0|exists c, 0|exists c, r]; destruct Hc;
    (split; [split; try done; nia|]); destruct_and?; intros t Ht;
    match goal with Hr : routes_in _ _ _ |- _ => apply Hr in Ht end; set_solver.
Qed.

Lemma stands_ended w o s :
  stands E w o s → lTerminated (live w o) = true ↔ ∃ stage, s = TDone stage.
Proof.
  intros Hs. split.
  - intros Ht. destruct s; simpl in Hs; [..|by eauto]; destruct Hs as [[] _]; congruence.
  - intros [stage ->]. apply Hs.
Qed.

(** A handler of one execution: it is disturbed, or it stands somewhere. *)
Lemma known_moves {A} o (m : X A) w : is_Some (xwExecs w !! o) → safe o (ent w o) m →
  (Inv E ds w → ∀ s, stands E w o s → moves E ds w (m w).1) → moves E ds w (m w).1.
Proof.
  intros Hk Hm Hs. apply moves_inv. intros Hi. destruct (decide (ent w o ∈ ds)) as [Hd|Hd]; [by apply (safe_moves E ds o)|].
  destruct (inv_stands _ _ _ Hi o Hk Hd) as [s ?]. by apply (Hs Hi s).
Qed.

Lemma markError_moves o reason w :
  is_Some (xwExecs w !! o) → moves E ds w (markErrorLocked E o reason w).1.
Proof.
  intros Hk. apply (known_moves o); [done|apply safe_markError|]. intros Hi s Hs.
  destruct (lTerminated (live w o)) eqn:Ht.
  { replace (markErrorLocked E o reason w) with (w, ()); [apply moves_refl|].
    unfold markErrorLocked, mbind, X_bind. simpl. by rewrite Ht. }
  assert (Hn : ∀ stage, s ≠ TDone stage).
  { intros stage ->. apply (stands_ended _ _ _) in Hs as [_ H]. rewrite H in Ht; [done|eauto]. }
  apply (trip_moves E ds o s _ (teMaxTDDCycles (deref w o))); [done|by eapply stands_endable|done|].
  eapply trip_pre; [|apply (settles_error E o)].
  - intros w' ->. by eapply stands_endable.
  - apply rtc_once. by constructor.
Qed.

Lemma active_known w e o : Inv E ds w → xwActive w !! e = Some o → is_Some (xwExecs w !! o).
Proof. intros Hi Ha. by apply (wf_active _ (inv_wf _ _ _ Hi) e). Qed.

Lemma movesp_read {A} (f : XWorld → X A) : (∀ w, moves E ds w (f w w).1) → movesp (xread ≫= f).
Proof. intros H w. apply H. Qed.

Lemma cancelChild_moves slug requirementID reason entityID :
  movesp (cancelChild E slug requirementID reason entityID).
Proof.
  unfold cancelChild. apply movesp_read. intros w. apply moves_inv. intros Hi.
  destruct (xwActive w !! entityID) as [o|] eqn:Ho; [|apply moves_refl].
  destruct (lTerminated _); [apply moves_refl|]. destruct (_ || _); [apply moves_refl|].
  assert (Hk := active_known _ _ _ Hi Ho).
  match goal with |- moves _ _ _ ((mbind ?f ?m) w).1 => assert (Hm : stillp m) by still_auto end.
  specialize (Hm w). unfold mbind at 1, X_bind at 1.
  match goal with |- context [let (_, _) := ?p in _] => destruct p as [w1 []] end.
  simpl in Hm. eapply moves_trans; [by apply still_moves|]. apply markError_moves.
  by rewrite (st_execs _ _ Hm).
Qed.

Lemma cancelChildren_moves slug requirementID reason :
  movesp (cancelChildrenForRequirement E slug requirementID reason).
Proof.
  unfold cancelChildrenForRequirement. destruct (_ =? _); [by apply movesp_still, stillp_ret|].
  apply movesp_bind; [apply movesp_still, stillp_read|intros w0].
  apply movesp_for. intros e. apply cancelChild_moves.
Qed.

(** ** Requests *)

Lemma reset_moves req : movesp (handleReqResetMutation E req).
Proof.
  unfold handleReqResetMutation, resetRequirementFamily.
  destruct (_ && _).
  - apply movesp_bind; [apply cancelChildren_moves|intros []]. apply movesp_still.
    apply stillp_bind; [apply stillp_listTasks|intros tasks].
    apply stillp_bind; [|intros []; still_auto].
    apply stillp_count. intros t. still_auto.
  - destruct (_ =? _); [by apply movesp_still, stillp_ret|].
    apply movesp_bind; [apply movesp_still, stillp_getReq|intros r].
    apply movesp_bind; [destruct r; [apply cancelChildren_moves|by apply movesp_still, stillp_ret]|].
    intros []. apply movesp_still. still_auto.
Qed.

Lemma handle_exec_moves m : movesp (handle_exec E m).
Proof.
  destruct m as [| | | | | |r| |]; [..|apply reset_moves| |]; apply movesp_still; simpl.
  - apply stillp_create.
  - unfold handleTaskPhaseMutation. still_auto.
  - unfold handleTaskCompleteMutation. still_auto.
  - unfold handleReqCreateMutation. still_auto.
  - unfold handleReqPhaseMutation. still_auto.
  - unfold handleReqNodeMutation. still_auto.
  - unfold handleReqResetNodeResultsMutation. still_auto.
  - apply stillp_claim.
Qed.

(** ** A new execution *)

(** The world with one more live execution. *)
Definition grown (st : list nat) (key : string) (t : TaskExecution) (w : XWorld) : XWorld :=
  set_xwStarting st (activate key t w).1.

Lemma grown_deref st key t w a :
  deref (grown st key t w) a = if bool_decide (a = xwNext w) then t else deref w a.
Proof.
  unfold deref. simpl. case_bool_decide as Ha; [by subst; rewrite lookup_insert_eq|].
  by rewrite lookup_insert_ne.
Qed.

Lemma grown_old st key t w a : (a < xwNext w)%nat → deref (grown st key t w) a = deref w a.
Proof. intros Ha. rewrite grown_deref, bool_decide_eq_false_2; [done|lia]. Qed.

Lemma grown_live st key t w a : a ≠ xwNext w → live (grown st key t w) a = live w a.
Proof. intros Ha. apply live_execs. simpl. by rewrite lookup_insert_ne. Qed.

Lemma grown_wf st key t w :
  teDeveloperTaskID t = "" → teReviewerTaskID t = "" → WF w → WF (grown st key t w).
Proof.
  intros Hd Hr [Hexec Hactive Htimers Htimer Hids Hout]. split; simpl.
  - intros o x [[<- _]|[_ H%Hexec]]%lookup_insert_Some; lia.
  - intros e o [[<- <-]|[Hne H]]%lookup_insert_Some.
    { rewrite lookup_insert_eq. split; [done|]. unfold ent. by rewrite grown_deref, bool_decide_eq_true_2. }
    destruct (Hactive _ _ H) as [[x Hx] He]. assert (Ho := Hexec _ _ Hx).
    rewrite lookup_insert_ne by lia. split; [done|]. unfold ent. by rewrite grown_old.
  - intros t' o H. destruct (Htimers _ _ H) as [? [x Hx]]. assert (Ho := Hexec _ _ Hx).
    rewrite lookup_insert_ne by lia. split; [lia|done].
  - intros o x t' [[<- <-]|[_ H]]%lookup_insert_Some; [done|]. intros Ht.
    destruct (Htimer _ _ _ H Ht). split; [lia|done].
  - intros o x [[<- <-]|[Hne H]]%lookup_insert_Some.
    { rewrite grown_deref, bool_decide_eq_true_2 by done. rewrite Hd, Hr. by split; left. }
    rewrite grown_old by (by eapply Hexec). by eapply Hids.
  - intros o s m H. destruct (Hout _ _ _ H) as [[x Hx] ?]. split; [|done].
    assert (Ho := Hexec _ _ Hx). rewrite lookup_insert_ne by lia. done.
Qed.

(** The executions that were there stand where they stood. *)
Lemma grown_stands st key t w o s :
  WF w → (∀ a, a ≠ xwNext w → a ∈ st ↔ a ∈ xwStarting w) →
  xwActive w !! teEntityID t = None ∨ ent w o ≠ teEntityID t →
  stands E w o s → stands E (grown st key t w) o s.
Proof.
  intros Hw Hsts Hn Hs. destruct (stands_known _ _ _ _ Hs) as [x Hx].
  assert (Ho : (o < xwNext w)%nat) by (by eapply wf_exec). assert (Hne : o ≠ xwNext w) by lia.
  assert (Hk : xwExecs (grown st key t w) !! o = xwExecs w !! o) by (simpl; by rewrite lookup_insert_ne).
  assert (Hd := grown_old st key t w o Ho). assert (Hl := grown_live st key t w o Hne).
  assert (Hst : o ∈ xwStarting (grown st key t w) ↔ o ∈ xwStarting w) by (by apply Hsts).
  assert (Hcore : ∀ c r d v, core E w o c r d v → core E (grown st key t w) o c r d v).
  { intros c r d v []. split; unfold ent in *; rewrite ?Hd, ?Hl, ?Hk; try done.
    simpl. rewrite lookup_insert_ne; [done|]. destruct Hn as [Hn|Hn]; congruence. }
  destruct s; simpl in Hs |- *.
  1-4: destruct Hs as (Hc & ? & Hs); rewrite Hd, Hst; split; [by apply Hcore|split; [done|]];
       unfold routes_in, armed, ent in *; rewrite Hd; by rewrite ?Hl.
  destruct Hs as [? ? Hin]. split; rewrite ?Hd, ?Hl, ?Hk; try done.
  - intros e. simpl. intros [[_ <-]|[_ H]]%lookup_insert_Some; [lia|by eapply Hin].
  - intros Hst'. apply (merged_mono E w); [done|by rewrite Hd|auto].
Qed.

Lemma not_given step w o :
  (∀ s m, EvAgentTask o s m ∉ xwOut w) → tasks_of step w o = 0.
Proof.
  unfold tasks_of. induction (xwOut w) as [|ev evs IH]; intros H; [done|].
  rewrite filter_cons_False; [apply IH; set_solver|]. destruct ev as [a s m| | | | | | |]; try done.
  simpl. case_bool_decide; [|done]. subst. set_solver.
Qed.

(** A row that has just been claimed. *)
Definition fresh (t : TaskExecution) : Prop :=
  teStage t = phaseDeveloping ∧ teTDDCycle t = 0 ∧ teReviewRetryCount t = 0 ∧
  teDeveloperTaskID t = "" ∧ teReviewerTaskID t = "".

Lemma grown_new st key t w :
  Inv E ds w → xwActive w !! teEntityID t = None → (teEntityID t ∉ ds) → fresh t → xwNext w ∈ st →
  stands E (grown st key t w) (xwNext w) TStarting.
Proof.
  intros Hi Hn Hnd (Hst & Hc & Hr & Hdv & _) Hin. set (o := xwNext w) in *.
  assert (Hnew : ¬ is_Some (xwExecs w !! o)).
  { intros [x Hx%(wf_exec _ (inv_wf _ _ _ Hi))]. unfold o in Hx. lia. } pose proof (retry_budget_nonneg E) as HR.
  assert (Hd : deref (grown st key t w) o = t) by (by rewrite grown_deref, bool_decide_eq_true_2).
  assert (Hnone : ∀ step, tasks_of step (grown st key t w) o = 0).
  { intros step. apply not_given. intros s m Hx.
    by apply (wf_out _ (inv_wf _ _ _ Hi)) in Hx as [? _]. }
  simpl. split_and!.
  - split; unfold ent, live; rewrite ?Hd, ?Hnone; simpl; rewrite ?lookup_insert_eq; try done; lia.
  - by rewrite Hd.
  - done.
  - intros Hv. apply Hnew, (inv_queues _ _ _ Hi). by right.
  - intros t' Ht'. unfold ent in Ht'. rewrite Hd in Ht'. simpl in Ht'.
    destruct (inv_routes _ _ _ Hi _ _ Ht' Hnd). congruence.
  - by rewrite Hd.
Qed.

(** A new execution starts the machine, or its entity is disturbed. *)
Lemma grown_moves st key t w :
  (∀ a, a ≠ xwNext w → a ∈ st ↔ a ∈ xwStarting w) → teDeveloperTaskID t = "" → teReviewerTaskID t = "" →
  teEntityID t ∈ ds ∨ (xwActive w !! teEntityID t = None ∧ fresh t ∧ xwNext w ∈ st) →
  moves E ds w (grown st key t w).
Proof.
  intros Hsts Hdv Hrv Hcase Hi. assert (Hw := inv_wf _ _ _ Hi).
  assert (Hent : ∀ o, is_Some (xwExecs w !! o) → ent (grown st key t w) o = ent w o).
  { intros o [x Hx%(wf_exec _ Hw)]. unfold ent. by rewrite grown_old. }
  assert (Hnew : ent (grown st key t w) (xwNext w) = teEntityID t)
    by (unfold ent; by rewrite grown_deref, bool_decide_eq_true_2).
  assert (Hold : ∀ o s, (ent w o ∉ ds) → stands E w o s → stands E (grown st key t w) o s).
  { intros o s Hnd Hs. apply grown_stands; [done..| |done]. destruct Hcase as [?|[? _]]; [right; congruence|by left]. }
  assert (Hborn : (teEntityID t ∉ ds) → stands E (grown st key t w) (xwNext w) TStarting).
  { intros Hnd. destruct Hcase as [?|(? & ? & ?)]; [done|by apply grown_new]. }
  split_and!.
  - split.
    + by apply grown_wf.
    + intros o Ho. simpl in Ho. destruct Ho as [x [[<- _]|[_ Hx]]%lookup_insert_Some].
      { rewrite Hnew. intros Hnd. exists TStarting. by apply Hborn. }
      rewrite Hent by eauto. intros Hnd. destruct (inv_stands _ _ _ Hi o) as [s Hs]; [eauto|done|]. exists s. by apply Hold.
    + intros t' e H Hnd. apply (inv_routes _ _ _ Hi) in H; [|done]. simpl. by apply lookup_insert_is_Some'; right.
    + intros o. simpl. intros Hin. apply lookup_insert_is_Some'.
      destruct (decide (xwNext w = o)) as [->|Hne]; [by left|right].
      apply (inv_queues _ _ _ Hi). rewrite <- Hsts by congruence. done.
  - intros o Ho. split; [simpl; apply lookup_insert_is_Some'; by right|by apply Hent].
  - intros o s Hnd Hs. destruct (stands_known _ _ _ _ Hs) as [x Hx%(wf_exec _ Hw)].
    rewrite grown_old by done. split; [done|]. exists s. split; [by apply rtc_refl|]. by apply Hold.
  - intros o Ho. simpl. rewrite lookup_insert_is_Some', Ho. intros [<-|[]]; [|done]. rewrite Hnew. intros Hnd.
    exists TStarting. split; [by apply rtc_refl|by apply Hborn].
Qed.

Lemma handleTaskPending_moves key t : movesp (handleTaskPending E key t).
Proof.
  unfold handleTaskPending, claimTaskExecution. destruct (_ !=? _); [by apply movesp_still, stillp_ret|].
  apply movesp_bind; [apply movesp_still; still_auto; apply stillp_claim|intros claimed].
  destruct (negb claimed); [by apply movesp_still, stillp_ret|].
  apply movesp_read. intros w.
  destruct (xwActive w !! _) eqn:Ha; [apply moves_refl|].
  apply (grown_moves (xwNext w :: xwStarting w) key (claimed_row E t) w); [set_solver|done|done|].
  right. split_and!; [done|done|set_solver].
Qed.

(** ** Start-up *)

Lemma recover_moves entities :
  (∀ e, e ∈ (default [] entities).*1 → e ∈ ds) → movesp (reconcileFromGraph E entities).
Proof.
  intros Hds. unfold reconcileFromGraph. apply movesp_for_in. intros [e m] Hin.
  destruct (IsTerminalTaskStage _); [by apply movesp_still, stillp_ret|].
  assert (He : e ∈ ds) by (apply Hds; apply list_elem_of_fmap; by exists (e, m)).
  intros w. set (t := recovered_row e m). set (w1 := grown (xwStarting w) (TaskExecutionKey (teSlug t) (teTaskID t)) t w).
  change (moves E ds w (syncToStore E (xwNext w) w1).1). eapply (moves_trans _ _ _ w1).
  - apply grown_moves; [done|done|done|by left].
  - apply (safe_moves E ds (xwNext w)); [simpl; by rewrite lookup_insert_eq| |apply safe_quiet; auto with quiet].
    unfold ent, w1. by rewrite grown_deref, bool_decide_eq_true_2.
Qed.

(** The task an execution waits for. *)
Lemma current_task w o s : stands E w o s → lTerminated (live w o) = false → currentStageTaskID (deref w o) ≠ "" →
  (∃ c, s = TDeveloping c ∧ teStage (deref w o) = phaseDeveloping ∧ currentStageTaskID (deref w o) = teDeveloperTaskID (deref w o)) ∨
  (∃ c r, s = TReviewing c r ∧ teStage (deref w o) = phaseReviewing ∧ currentStageTaskID (deref w o) = teReviewerTaskID (deref w o)).
Proof.
  intros Hs Hl. unfold currentStageTaskID. destruct s; simpl in Hs.
  - destruct Hs as (_ & -> & _ & _ & _ & ->). by intros [].
  - destruct Hs as (_ & -> & _). intros _. left. eauto.
  - destruct Hs as (_ & -> & _). by intros [].
  - destruct Hs as (_ & -> & _). intros _. right. eauto.
  - destruct Hs. congruence.
Qed.

(** ** Loops that end *)

Lemma HasPrefix_clash id : HasPrefix id "dev-" = true → HasPrefix id "rev-" = true → False.
Proof.
  intros [s ->]%HasPrefix_spec H. by vm_compute in H.
Qed.

(** The loop found by the routing table is the one the execution waits for:
    the step it reports is the one the execution is in. *)
Lemma loop_expected w l e o s :
  Inv E ds w → echoes w l → xwRouting w !! leTaskID l = Some e → xwActive w !! e = Some o →
  stands E w o s → lTerminated (live w o) = false →
  (∃ c, s = TDeveloping c ∧ leWorkflowStep l = stageDevelop) ∨
  (∃ c r, s = TReviewing c r ∧ leWorkflowStep l = stageReview).
Proof.
  intros Hi (o' & subj & m & Hin & Hid & Hstep) Hr Ha Hs Hl. assert (Hw := inv_wf _ _ _ Hi).
  destruct (wf_active _ Hw _ _ Ha) as [[x Hx] <-]. destruct (wf_ids _ Hw _ _ Hx) as [Hdev Hrev].
  destruct (wf_out _ Hw _ _ _ Hin) as [_ Hshape]. unfold task_shape in Hshape. rewrite Hid, Hstep in Hshape.
  assert (Hne : leTaskID l ≠ "") by (intros H0; rewrite H0 in Hshape; by destruct Hshape as [[]|[]]).
  destruct s; simpl in Hs; destruct_and?;
    try (match goal with H : routes_in _ _ _ |- _ => apply H in Hr end;
         try (by apply not_elem_of_nil in Hr); apply list_elem_of_singleton in Hr; rewrite Hr in * ).
  - left. exists cycle. split; [done|]. destruct Hshape as [[_ ?]|[Hp _]]; [done|].
    destruct Hdev as [?|Hdev]; [done|]. by destruct (HasPrefix_clash _ Hdev Hp).
  - right. exists cycle, retries. split; [done|]. destruct Hshape as [[Hp _]|[_ ?]]; [|done].
    destruct Hrev as [?|Hrev]; [done|]. by destruct (HasPrefix_clash _ Hp Hrev).
  - destruct Hs. congruence.
Qed.

(** A handler given an execution where it expects it. *)
Lemma handler_moves {A} o s (m : X A) w :
  stands E w o s → (∀ stage, s ≠ TDone stage) →
  (∀ M, trip o (λ w, stands E w o s ∧ budget M (deref w o)) m (λ _, settles E o (reaches E M s))) →
  moves E ds w (m w).1.
Proof.
  intros Hs Hn Ht. eapply trip_moves; [done|by eapply stands_endable|done|].
  eapply trip_pre; [|apply Ht]. by intros w' ->.
Qed.

Lemma loop_moves l w : xwRouting w !! leTaskID l = None ∨ echoes w l → moves E ds w (handleLoopEntityUpdate E l w).1.
Proof.
  intros Hecho. apply moves_inv. intros Hi. unfold handleLoopEntityUpdate.
  destruct (negb _); [apply moves_refl|].
  match goal with |- moves _ _ _ ((xread ≫= ?f) w).1 => change (moves E ds w (f w w).1) end.
  destruct (xwRouting w !! leTaskID l) as [e|] eqn:Hr; rewrite Hr; [|apply moves_refl].
  cbn [mbind option_bind].
  destruct (xwActive w !! e) as [o|] eqn:Ha; [|apply moves_refl].
  destruct (lTerminated _) eqn:Hl; [apply moves_refl|]. destruct Hecho as [?|Hecho]; [congruence|].
  apply (known_moves o); [by eapply active_known| |intros _ s Hs].
  { destruct (_ || _); [apply safe_developed|]. destruct (_ =? _); [apply safe_reviewed|apply safe_ret]. }
  destruct (loop_expected w l e o s) as [(c & -> & Hst)|(c & r & -> & Hst)]; try done; rewrite Hst; simpl.
  - eapply handler_moves; [done..|]. intros M. apply handleDeveloperComplete_trip.
  - eapply handler_moves; [done..|]. intros M. apply handleReviewerComplete_trip.
Qed.

(** ** Initialisation, validation, timers *)

Lemma start_moves o w :
  o ∈ xwStarting w → lTerminated (live w o) = false ∨ teEntityID (deref w o) ∈ ds →
  moves E ds w (initTaskExecution E o w).1.
Proof.
  intros Hin Hl. apply moves_inv. intros Hi.
  assert (Hk : is_Some (xwExecs w !! o)) by (apply (inv_queues _ _ _ Hi); by left).
  destruct Hl as [Hl|Hd]; [|by apply (safe_moves E ds o); [done|done|apply safe_started]].
  apply (known_moves o); [done|apply safe_started|intros _ s Hs].
  destruct s; [|by destruct Hs as (_ & _ & ? & _)..|destruct Hs; congruence].
  eapply handler_moves; [done..|]. intros M. apply initTaskExecution_trip.
Qed.

(** Worlds that differ where an execution that has ended does not care. *)
Lemma ended_moves w w' o :
  xwNext w' = xwNext w → xwCells w' = xwCells w → xwExecs w' = xwExecs w →
  xwActive w' = xwActive w → xwRouting w' = xwRouting w → xwStarting w' = xwStarting w →
  xwOut w' = xwOut w → (∀ t a, a ≠ o → xwTimers w' !! t = Some a ↔ xwTimers w !! t = Some a) →
  (∀ t, xwTimers w !! t = None → xwTimers w' !! t = None) →
  (∀ a, a ≠ o → a ∈ xwValidating w' ↔ a ∈ xwValidating w) →
  (∀ a, a ∈ xwValidating w' → a ∈ xwValidating w) →
  lTerminated (live w o) = true → moves E ds w w'.
Proof.
  intros Hn Hc He Ha Hr Hst Ho Ht Htn Hv Hvs Hl.
  assert (Hd : ∀ a, deref w' a = deref w a) by (intros a; unfold deref; by rewrite Hc).
  assert (Hlv : ∀ a, live w' a = live w a) by (intros a; unfold live; by rewrite He).
  assert (Htm : ∀ t a, xwTimers w' !! t = Some a → xwTimers w !! t = Some a).
  { intros t a H. destruct (decide (a = o)) as [->|Hne]; [|by apply Ht].
    destruct (xwTimers w !! t) as [b|] eqn:Hb; [|rewrite Htn in H; done].
    destruct (decide (b = o)) as [->|Hne]; [done|]. apply Ht in Hb; [|done]. congruence. }
  assert (Hend : ∀ a stage, ended E w a stage → ended E w' a stage).
  { intros a stage []. split; unfold tasks_of; rewrite ?Hd, ?Hlv, ?He, ?Ha, ?Ho; try done.
    intros ?. apply (merged_mono E w); [by rewrite Ho|by rewrite Hd|auto]. }
  assert (Hs : ∀ a s, stands E w a s → stands E w' a s).
  { intros a s H. destruct (decide (a = o)) as [->|Hne].
    - apply (stands_ended _ _ _) in H as Hs. apply Hs in Hl as [stage ->]. by apply Hend.
    - assert (Hcore : ∀ c r d v, core E w a c r d v → core E w' a c r d v).
      { intros c r d v []. split; unfold ent, tasks_of; rewrite ?Hd, ?Hlv, ?He, ?Ha, ?Ho; done. }
      assert (Harm : armed w a → armed w' a).
      { intros (t & ? & ?). exists t. rewrite Hlv. split; [done|]. by apply Ht. }
      assert (Hrt : ∀ ids, routes_in w a ids → routes_in w' a ids).
      { intros ids. unfold routes_in, ent. by rewrite Hr, Hd. }
      destruct s; simpl in H |- *.
      1-4: rewrite Hd, Hst, (Hv a Hne); destruct_and?; split_and?; auto.
      by apply Hend. }
  assert (Hent : ∀ a, ent w' a = ent w a) by (intros a; unfold ent; by rewrite Hd).
  apply moves_same; [done|done| |intros _ a s _ H; rewrite Hd; by split; [|apply Hs]].
  intros [[Hex Hac Hti Htr Hid Hout] Hin Hro Hq]. split.
  - split; unfold ent in *; rewrite ?He, ?Ha, ?Ho, ?Hn; try setoid_rewrite Hd; try done.
    + intros t a H%Htm. by apply Hti.
    + intros a x t Hx Htt. destruct (Htr a x t Hx Htt) as [? H]. split; [done|].
      intros b Hb%Htm. by apply H.
  - intros a. rewrite He, Hent. intros Hx Hnd. destruct (Hin a Hx Hnd) as [s H]. eauto.
  - intros t e. rewrite Hr, Ha. apply Hro.
  - intros a. rewrite Hst, He. intros [?|H%Hvs]; apply Hq; auto.
Qed.

Lemma validated_moves o answer w :
  o ∈ xwValidating w → moves E ds w (validationDoneLocked E o answer w).1.
Proof.
  intros Hin. apply moves_inv. intros Hi.
  apply (known_moves o); [by apply (inv_queues _ _ _ Hi); right|apply safe_validated|intros _ s Hs].
  destruct (lTerminated (live w o)) eqn:Hl.
  - set (w' := set_xwValidating (filter (λ a, a ≠ o) (xwValidating w)) w).
    replace (validationDoneLocked E o answer w) with (w', ()).
    { apply (ended_moves w w' o); try done; simpl; intros a; rewrite list_elem_of_filter; naive_solver. }
    unfold validationDoneLocked, exec, modify, mbind, X_bind, mret, X_ret.
    unfold live in *. simpl. by rewrite Hl.
  - destruct s; try (by destruct Hs as (_ & _ & _ & _ & ? & _)).
    + by destruct Hs as (_ & _ & _ & ? & _).
    + eapply handler_moves; [done..|]. intros M. apply validationDone_trip.
    + destruct Hs. congruence.
Qed.

(** A timer that fires is gone, and its execution is ended. *)
Lemma timer_taken t o w : xwTimers w !! t = Some o → WF w →
  let w' := set_xwTimers (delete t (xwTimers w)) w in
  timer_fires E t w = markErrorLocked E o ("execution timed out after " +:+ xeTimeout E) w' ∧ WF w' ∧ acts o w w'.
Proof.
  intros Ht Hw w'. split_and!.
  - unfold timer_fires, mbind, X_bind, xread. cbv beta iota. by rewrite Ht.
  - destruct Hw as [? ? Hti Htr]. split; try done; simpl.
    + intros t' a [_ H]%lookup_delete_Some. by apply Hti.
    + intros a x t' Hx Hxt. destruct (Htr a x t' Hx Hxt) as [? H]. split; [done|].
      intros a' [_ Ha']%lookup_delete_Some. by apply H.
  - split; try done; [by left|by left| |exists []; by rewrite app_nil_r].
    intros t' a Hne. simpl. destruct (decide (t = t')) as [->|Hd].
    + rewrite lookup_delete_eq, Ht. naive_solver.
    + by rewrite lookup_delete_ne.
Qed.

Lemma timer_trip t o s w :
  xwTimers w !! t = Some o → stands E w o s → (∀ stage, s ≠ TDone stage) →
  trip o (λ w', w' = w) (timer_fires E t) (λ _ w', ended E w' o phaseError ∧ closed w' o).
Proof.
  intros Ht Hs Hn w0 Hw Hk ->. destruct (timer_taken t o w Ht Hw) as (-> & Hw' & Hac). set (w' := set_xwTimers _ w) in *.
  destruct (markError_trip E o ("execution timed out after " +:+ xeTimeout E) w') as (? & ? & ?); [done..| |].
  { destruct (stands_endable _ _ _ Hs Hn) as [(c & r & [] & ?) _]. exists c, r. by split. }
  split_and!; [done|by eapply acts_trans|apply H1..].
Qed.

Lemma timer_moves t : movesp (timer_fires E t).
Proof.
  intros w. destruct (xwTimers w !! t) as [o|] eqn:Ht.
  2: { replace (timer_fires E t w) with (w, ()); [apply moves_refl|].
       unfold timer_fires, mbind, X_bind. simpl. by rewrite Ht. }
  apply moves_inv. intros Hi.
  assert (Hk : is_Some (xwExecs w !! o)) by (by apply (wf_timers _ (inv_wf _ _ _ Hi)) in Ht as [_ ?]).
  destruct (decide (ent w o ∈ ds)) as [Hd|Hd].
  { destruct (timer_taken t o w Ht (inv_wf _ _ _ Hi)) as (-> & Hw' & Hac).
    destruct (safe_markError E o (ent w o) ("execution timed out after " +:+ xeTimeout E) _ Hw') as (? & ? & _);
      [by apply (a_known _ _ _ Hac)|apply (a_ent _ _ _ Hac)|].
    apply (acts_moves E ds o); [done|by eapply acts_trans|done|by left]. }
  destruct (inv_stands _ _ _ Hi o Hk Hd) as [s Hs].
  destruct (lTerminated (live w o)) eqn:Hl.
  - set (w' := set_xwTimers (delete t (xwTimers w)) w).
    replace (timer_fires E t w) with (w', ()).
    { apply (ended_moves w w' o); try done; simpl.
      - intros t' a Hne. destruct (decide (t = t')) as [->|Hn].
        + rewrite lookup_delete_eq, Ht. naive_solver.
        + by rewrite lookup_delete_ne.
      - intros t' Hn. rewrite lookup_delete_None. auto. }
    unfold timer_fires, markErrorLocked, exec, modify, mbind, X_bind, mret, X_ret. simpl. rewrite Ht.
    unfold live in *. simpl. by rewrite Hl.
  - assert (Hn : ∀ stage, s ≠ TDone stage) by (intros stage ->; destruct Hs; congruence).
    eapply trip_moves; [done|by eapply stands_endable|done|].
    eapply trip_post; [|by apply (timer_trip t o s w)].
    intros [] w' H. eapply settles_done; [|done]. apply rtc_once. by constructor.
Qed.

(** A route that expires makes the routing table smaller. *)
Lemma expire_moves t w : moves E ds w (set_xwRouting (delete t (xwRouting w)) w).
Proof.
  set (w' := set_xwRouting _ w).
  assert (Hrt : ∀ a ids, routes_in w a ids → routes_in w' a ids).
  { intros a ids Hr t'. unfold w'. simpl. intros [_ H]%lookup_delete_Some. by apply Hr. }
  assert (Hs : ∀ a s, stands E w a s → stands E w' a s).
  { intros a s H.
    assert (Hcore : ∀ c r d v, core E w a c r d v → core E w' a c r d v) by (by intros ???? []).
    destruct s; simpl in H |- *; [destruct_and?; split_and?; auto..|by destruct H]. }
  apply moves_same; [done|done| |intros _ a s _ H; split; [done|by apply Hs]].
  intros [[] Hst Hr Hq]. split; try done.
  - intros a Hx Hnd. destruct (Hst a Hx Hnd) as [s ?]. eauto.
  - intros t' e. simpl. intros [_ H]%lookup_delete_Some. by eapply Hr.
Qed.

(** An execution that drops out of the cache. *)
Lemma dropped_moves e w : e ∈ ds → moves E ds w (set_xwActive (delete e (xwActive w)) w).
Proof.
  intros Hd. set (w' := set_xwActive _ w).
  assert (Hs : ∀ a s, (ent w a ∉ ds) → stands E w a s → stands E w' a s).
  { intros a s Hnd H.
    assert (Hcore : ∀ c r d v, core E w a c r d v → core E w' a c r d v).
    { intros c r d v []. split; try done. simpl. rewrite lookup_delete_ne; [done|]. intros He. apply Hnd. by replace (ent w a) with e. }
    destruct s; simpl in H |- *; [destruct_and?; split_and?; auto..|]. destruct H. split; try done.
    simpl. intros e' [_ He']%lookup_delete_Some. by eapply e_inactive. }
  apply moves_same; [done|done| |intros _ a s Hnd H; split; [done|by apply Hs]].
  intros [[] Hst Hr Hq]. split; try done.
  - split; try done. simpl. intros e' o [_ H]%lookup_delete_Some. by apply wf_active.
  - intros a Hx Hnd. destruct (Hst a Hx Hnd) as [s ?]. exists s. by apply Hs.
  - intros t' e' H Hnd. simpl. rewrite lookup_delete_ne by congruence. by eapply Hr.
Qed.

(** The replay routes a task to the execution that waits for it. *)
Lemma replay_moves l rl : movesp (handleLoopEntityUpdateReplay E l rl).
Proof.
  unfold handleLoopEntityUpdateReplay. destruct (negb _) eqn:Ho; [by apply movesp_still, stillp_ret|].
  apply negb_false_iff in Ho. unfold ours in Ho. apply andb_true_iff in Ho as [_ Ho]. apply neqb_true in Ho.
  apply movesp_read. intros w. apply moves_inv. intros Hi. destruct (xwRouting w !! leTaskID l) eqn:Hr; [apply moves_refl|].
  destruct (list_find _ _) as [[i e]|] eqn:Hf; [|apply moves_refl].
  apply list_find_Some in Hf as (_ & Hf & _). destruct (xwActive w !! e) as [o|] eqn:Ha; [|done].
  cbn [fmap option_fmap option_map] in Hf. injection Hf as Hf. destruct (wf_active _ (inv_wf _ _ _ Hi) _ _ Ha) as [Hk <-].
  set (w' := (route (leTaskID l) (ent w o) w).1). change (moves E ds w w').
  destruct (safe_route o (ent w o) (leTaskID l) w (inv_wf _ _ _ Hi) Hk eq_refl) as (Hw' & Hac & _). fold w' in Hw', Hac.
  apply (acts_moves E ds o); [done..|]. destruct (decide (ent w o ∈ ds)) as [Hd|Hd]; [by left|right]. split; [done|].
  destruct (inv_stands _ _ _ Hi o Hk Hd) as [s Hs]. exists s, s. split; [done|]. split; [by apply rtc_refl|].
  assert (Hl : lTerminated (live w o) = false).
  { destruct (lTerminated (live w o)) eqn:Hl; [|done]. apply (stands_ended _ _ _ Hs) in Hl as [stage ->].
    by destruct (e_inactive _ _ _ _ Hs (ent w o)). }
  assert (Hcore : ∀ c r d v, core E w o c r d v → core E w' o c r d v) by (by intros c r d v []).
  assert (Hroutes : ∀ id, routes_in w o [id] → id = leTaskID l → routes_in w' o [id]).
  { intros id Hin -> t. unfold w'. simpl. intros [[<- _]|[_ Ht]]%lookup_insert_Some; [set_solver|by apply Hin]. }
  destruct (current_task w o s Hs Hl) as [(c & -> & _ & Hc)|(c & r & -> & _ & Hc)]; [by rewrite Hf| |].
  - split; [|intros t _; unfold w'; change (is_Some (xwActive w !! ent w o)); eauto].
    destruct Hs as (? & ? & ? & ? & ? & ?). split_and!; try done; [by apply Hcore|apply (Hroutes _); [done|exact (eq_trans (eq_sym Hc) Hf)]].
  - split; [|intros t _; unfold w'; change (is_Some (xwActive w !! ent w o)); eauto].
    destruct Hs as (? & ? & ? & ? & ? & ?). split_and!; try done; [by apply Hcore|apply (Hroutes _); [done|exact (eq_trans (eq_sym Hc) Hf)]].
Qed.

(** An execution whose loop ended before the start is told so. *)
Lemma resume_moves rl : movesp (resumeStuckExecutions E rl).
Proof.
  unfold resumeStuckExecutions. apply movesp_read. intros w0. refine (movesp_for _ _ _ w0). intros e.
  unfold resumeStuckExecution. apply movesp_read. intros w. apply moves_inv. intros Hi.
  destruct (xwActive w !! e) as [o|] eqn:Ha; [|apply moves_refl].
  destruct (lTerminated _) eqn:Hl; [apply moves_refl|]. cbv zeta. destruct (_ || _) eqn:Ht; [apply moves_refl|].
  apply orb_false_iff in Ht as [Ht _]. apply eqb_false in Ht.
  apply (known_moves o); [by eapply active_known| |intros _ s Hs].
  { destruct (_ =? _); [apply safe_reviewed|apply safe_developed]. }
  destruct (current_task w o s Hs Hl Ht) as [(c & -> & Hst & _)|(c & r & -> & Hst & _)]; rewrite Hst; cbn match.
  - eapply handler_moves; [done..|]. intros M. apply handleDeveloperComplete_trip.
  - eapply handler_moves; [done..|]. intros M. apply handleReviewerComplete_trip.
Qed.

Lemma xstep_moves d w w' : d ⊆ ds → xstep E d w w' → moves E ds w w'.
Proof.
  intros Hd Hs. destruct Hs as [| |o w Ho| | | | |es w| | | | | |e w]; [apply handle_exec_moves|apply handleTaskPending_moves| |
    by apply loop_moves|by apply validated_moves|apply timer_moves| | |apply replay_moves|apply resume_moves| | |apply expire_moves|].
  - apply start_moves; [done|]. destruct (lTerminated (live w o)); [right; set_solver|by left].
  - unfold handleRequirementUpdate. destruct (_ || _); [apply moves_refl|]. apply cancelChildren_moves.
  - apply recover_moves. set_solver.
  - apply still_moves. still_tac.
  - apply still_moves. still_tac.
  - apply dropped_moves. set_solver.
Qed.

Lemma start_inv w : start_world w → Inv E ds w.
Proof.
  intros (He & Ha & Hr & Ht & Hs & Hv & Ho). split.
  - split; rewrite ?He, ?Ha, ?Ht, ?Ho; try by intros; rewrite ?lookup_empty in *.
    intros o s m Hin. by apply not_elem_of_nil in Hin.
  - rewrite He. intros o. rewrite lookup_empty. by intros [].
  - rewrite Hr. intros t e. by rewrite lookup_empty.
  - rewrite Hs, Hv. set_solver.
Qed.

Lemma run_moves ls w w' : xrun E ls w w' → ls ⊆ ds → moves E ds w w'.
Proof.
  induction 1 as [|d ls w1 w2 w3 H12 _ IH]; intros Hls; [apply moves_refl|].
  eapply moves_trans; [eapply xstep_moves; [|done]; set_solver|apply IH; set_solver].
Qed.
End runs.

(** ** What holds of every run *)

Section theorems.
Context (E : ExecEnv).

(** The manager has come here from a start, by steps that disturbed [ds]. *)
Definition reachable (ds : list string) (w : XWorld) : Prop := ∃ w0, start_world w0 ∧ xrun E ds w0 w.

Lemma reachable_inv ds ds' w : reachable ds w → ds ⊆ ds' → Inv E ds' w.
Proof. intros (w0 & H0 & Hr) Hd. by apply (run_moves E ds' ds w0 w Hr Hd), start_inv. Qed.

(** A run in which the execution [o] changes its state [n] times. *)
Inductive changes (o : nat) : list string → nat → XWorld → XWorld → Prop :=
| changes_none w : changes o [] 0 w w
| changes_same d ls n s w w' w'' :
    xstep E d w w' → stands E w o s → stands E w' o s → changes o ls n w' w'' → changes o (d ++ ls)%list n w w''
| changes_moved d ls n s s' w w' w'' :
    xstep E d w w' → stands E w o s → stands E w' o s' → s ≠ s' → changes o ls n w' w'' →
    changes o (d ++ ls)%list (S n) w w''.

Lemma reaches_measure M s s' :
  reaches E M s s' → tdd_ok M (retry_budget E) s →
  tdd_ok M (retry_budget E) s' ∧
  0 ≤ tdd_measure M (retry_budget E) s' ≤ tdd_measure M (retry_budget E) s ∧
  (s ≠ s' → tdd_measure M (retry_budget E) s' < tdd_measure M (retry_budget E) s).
Proof.
  pose proof (retry_budget_nonneg E) as HR. intros Hr Hok.
  apply rtc_nsteps in Hr as [n Hn]. revert Hok. induction Hn as [s|n s s1 s' H1 _ IH]; intros Hok.
  - split; [done|]. assert (H := tdd_nsteps _ _ 0 s s HR Hok). split; [split; [apply H; constructor|lia]|done].
  - assert (Hm := tdd_step_measure _ _ _ _ HR Hok H1).
    destruct (IH (tdd_step_ok _ _ _ _ HR H1 Hok)) as (? & ? & _). split; [done|lia].
Qed.

Lemma stands_ok w o s : stands E w o s → tdd_ok (teMaxTDDCycles (deref w o)) (retry_budget E) s.
Proof. destruct s; simpl; try done. intros [[] _]. lia. Qed.

(** A step that leaves the entity of an execution undisturbed. *)
Lemma step_moved ds d w w' o s : Inv E ds w → (ent w o ∉ (ds ++ d)%list) → xstep E d w w' → stands E w o s →
  Inv E (ds ++ d)%list w' ∧ ent w' o = ent w o ∧ teMaxTDDCycles (deref w' o) = teMaxTDDCycles (deref w o) ∧
  ∃ s', reaches E (teMaxTDDCycles (deref w o)) s s' ∧ stands E w' o s'.
Proof.
  intros Hi Hn Hst Hs. assert (Hi' : Inv E (ds ++ d)%list w).
  { destruct Hi as [? Ha Hb ?]. split; [done| | |done]; [intros a Hx Hd; apply Ha; [done|]|intros t e Ht Hd; eapply Hb; [done|]]; set_solver. }
  destruct (xstep_moves E (ds ++ d)%list d w w' ltac:(set_solver) Hst Hi') as (? & He & Hm & _).
  destruct (Hm o s Hn Hs) as (? & ?). destruct (He o) as [_ ?]; [by eapply stands_known|done].
Qed.

Lemma changes_bounded ds o ls n w w' s :
  Inv E ds w → stands E w o s → changes o ls n w w' → (ent w o ∉ (ds ++ ls)%list) →
  Z.of_nat n ≤ tdd_measure (teMaxTDDCycles (deref w o)) (retry_budget E) s.
Proof.
  intros Hi Hs Hc. revert ds s Hi Hs.
  induction Hc as [w|d ls n s0 w w1 w2 Hst Hs0 Hs1 _ IH|d ls n s0 s1 w w1 w2 Hst Hs0 Hs1 Hne _ IH];
    intros ds s Hi Hs Hn.
  - by destruct (reaches_measure (teMaxTDDCycles (deref w o)) s s) as (_ & [? _] & _);
      [apply rtc_refl|by apply stands_ok|].
  - rewrite (stands_inj E w o s s0) by done.
    destruct (step_moved ds d w w1 o s0) as (Hi1 & He & <- & _); try done; [set_solver|].
    apply (IH (ds ++ d)%list); [done..|]. rewrite He. set_solver.
  - rewrite (stands_inj E w o s s0) by done.
    destruct (step_moved ds d w w1 o s0) as (Hi1 & He & HM & s' & Hr & Hs'); try done; [set_solver|].
    rewrite (stands_inj E w1 o s' s1) in Hr by done.
    apply reaches_measure in Hr as (_ & _ & Hlt); [|by apply stands_ok].
    specialize (IH (ds ++ d)%list s1 Hi1 Hs1). rewrite HM, He in IH. specialize (Hlt Hne). specialize (IH ltac:(set_solver)). lia.
Qed.

Lemma run_changes ds o ls w w' s :
  Inv E ds w → stands E w o s → xrun E ls w w' → (ent w o ∉ (ds ++ ls)%list) → ∃ n, changes o ls n w w'.
Proof.
  intros Hi Hs Hr. revert ds s Hi Hs. induction Hr as [w|d ls w w1 w2 Hst _ IH]; intros ds s Hi Hs Hn; [by eexists; constructor|].
  destruct (step_moved ds d w w1 o s) as (Hi1 & He & _ & s1 & _ & Hs1); try done; [set_solver|].
  destruct (IH (ds ++ d)%list s1 Hi1 Hs1) as [n Hc]; [rewrite He; set_solver|].
  destruct (decide (s = s1)) as [<-|Hne]; eexists; [by eapply changes_same|by eapply changes_moved].
Qed.

(** C3: Every step of the execution manager moves every execution whose entity is
    undisturbed along the TDD machine, whatever happens to the others.  The
    steps are all of them, in any order: requests, pending rows, initialisation,
    loops, validators, timers, requirements that end, recovery and replay at
    start-up, expiry of every cache.  Disturbed are the entities of which a
    cancelled execution was initialised all the same, that were recovered at
    start-up, or whose execution dropped out of the cache.  An undisturbed
    execution stands in exactly one state of the machine, reaches the next
    within its own budget of cycles, and a new one comes from the start
    state. *)
Theorem execution_refines_machine ds d w w' :
  reachable ds w → xstep E d w w' →
  (∀ o, is_Some (xwExecs w !! o) → (ent w o ∉ ds) → ∃ s, stands E w o s ∧ ∀ s2, stands E w o s2 → s2 = s) ∧
  (∀ o s, (ent w o ∉ (ds ++ d)%list) → stands E w o s →
     ∃ s', rtc (tdd_step (teMaxTDDCycles (deref w o)) (retry_budget E)) s s' ∧ stands E w' o s') ∧
  (∀ o, xwExecs w !! o = None → is_Some (xwExecs w' !! o) → (ent w' o ∉ (ds ++ d)%list) →
     ∃ s', rtc (tdd_step (teMaxTDDCycles (deref w' o)) (retry_budget E)) TStarting s' ∧
           stands E w' o s').
Proof.
  intros Hr Hst. assert (Hi : Inv E ds w) by (by eapply reachable_inv). split_and!.
  - intros o Hx Hn. destruct (inv_stands _ _ _ Hi o Hx Hn) as [s Hs]. exists s. split; [done|]. intros s2 H2. by eapply stands_inj.
  - intros o s Hn Hs. by destruct (step_moved ds d w w' o s) as (_ & _ & _ & ?).
  - destruct (xstep_moves E (ds ++ d)%list d w w' ltac:(set_solver) Hst) as (_ & _ & _ & Hb); [|done].
    eapply reachable_inv; [done|set_solver].
Qed.

Lemma stands_cycle w o s :
  stands E w o s → 0 ≤ teTDDCycle (deref w o) ∧
  (teTDDCycle (deref w o) = 0 ∨ teTDDCycle (deref w o) < teMaxTDDCycles (deref w o)) ∧
  tasks_of stageDevelop w o ≤ teTDDCycle (deref w o) + 1 ∧
  tasks_of stageReview w o ≤ (teTDDCycle (deref w o) + 1) * (1 + retry_budget E).
Proof.
  pose proof (retry_budget_nonneg E) as HR. intros Hs.
  destruct s; simpl in Hs; [destruct Hs as [[] _]..|by destruct Hs]; subst; split_and!; try done; nia.
Qed.

(** C34: No run gives an execution whose entity is undisturbed more than
    [max 1 M] developer tasks, nor more than [max 1 M * (1 + R)] reviewer
    tasks, where [M] is its budget of cycles and [R] the budget of reviewer
    retries. *)
Theorem agents_bounded ds w o :
  reachable ds w → is_Some (xwExecs w !! o) → (ent w o ∉ ds) →
  tasks_of stageDevelop w o ≤ Z.max 1 (teMaxTDDCycles (deref w o)) ∧
  tasks_of stageReview w o ≤ Z.max 1 (teMaxTDDCycles (deref w o)) * (1 + retry_budget E).
Proof.
  pose proof (retry_budget_nonneg E) as HR. intros Hr Hx Hn.
  destruct (inv_stands _ _ _ (reachable_inv ds ds w Hr ltac:(set_solver)) o Hx Hn) as [s Hs].
  apply stands_cycle in Hs as (? & ? & ? & ?). nia.
Qed.

Lemma measure_start w o s :
  stands E w o s →
  tdd_measure (teMaxTDDCycles (deref w o)) (retry_budget E) s ≤
  tdd_measure (teMaxTDDCycles (deref w o)) (retry_budget E) TStarting.
Proof.
  pose proof (retry_budget_nonneg E) as HR. intros Hs.
  destruct s; simpl in Hs; try (destruct Hs as [[] _]; subst); unfold tdd_measure; nia.
Qed.

(** C10: An execution whose entity is undisturbed changes its state only finitely
    often: in any run it moves at most [R + 4 + max 0 (M - 1) * (R + 3)]
    times. *)
Theorem execution_terminates ds ls w w' o :
  reachable ds w → is_Some (xwExecs w !! o) → xrun E ls w w' → (ent w o ∉ (ds ++ ls)%list) →
  let M := teMaxTDDCycles (deref w o) in let R := retry_budget E in
  (∃ n, changes o ls n w w') ∧
  (∀ n, changes o ls n w w' → Z.of_nat n ≤ R + 4 + Z.max 0 (M - 1) * (R + 3)).
Proof.
  intros Hre Hx Hr Hn M R. assert (Hi : Inv E ds w) by (by eapply reachable_inv).
  destruct (inv_stands _ _ _ Hi o Hx) as [s Hs]; [set_solver|]. split; [by eapply run_changes|].
  intros n Hc. assert (H1 := changes_bounded _ _ _ _ _ _ _ Hi Hs Hc Hn).
  assert (H2 := measure_start _ _ _ Hs). unfold tdd_measure at 2 in H2. fold M R in H1, H2.
  rewrite Z.sub_0_r in H2. lia.
Qed.

(** An active execution of an undisturbed entity whose initialisation has run
    has an armed timer, and when that timer fires the execution ends: its row is
    in the stage error, it is no longer active and no route leads to it. *)
Theorem execution_times_out ds w e o :
  reachable ds w → xwActive w !! e = Some o → (e ∉ ds) → (o ∉ xwStarting w) →
  ∃ t, xwTimers w !! t = Some o ∧
    let w' := (timer_fires E t w).1 in
    lTerminated (live w' o) = true ∧ teStage (deref w' o) = phaseError ∧
    xwActive w' !! e = None ∧ (∀ id, xwRouting w' !! id ≠ Some e).
Proof.
  intros Hre Ha Hnd Hns. assert (Hi : Inv E ds w) by (by eapply reachable_inv). assert (Hw := inv_wf _ _ _ Hi).
  destruct (wf_active _ Hw _ _ Ha) as [Hk He]. destruct (inv_stands _ _ _ Hi o Hk) as [s Hs]; [by rewrite He|].
  assert (Hn : ∀ stage, s ≠ TDone stage) by (intros stage ->; by destruct (e_inactive _ _ _ _ Hs e)).
  assert (Harm : armed w o).
  { destruct s; [by destruct Hs as (_ & _ & ? & _)|apply Hs..|by destruct (Hn stage)]. }
  destruct Harm as (t & _ & Ht). exists t. split; [done|].
  destruct (timer_trip E t o s w Ht Hs Hn w Hw Hk eq_refl) as (_ & Hac & [] & Hcl). intros w'.
  assert (Hnone : xwActive w' !! e = None).
  { destruct (a_active _ _ _ Hac e) as [H|[_ ?]]; [|done]. by destruct (e_inactive e); rewrite H. }
  split_and!; [done..|]. intros id Hid. destruct (Hcl id) as [a Hx].
  - by rewrite (a_ent _ _ _ Hac), He.
  - rewrite (a_ent _ _ _ Hac), He in Hx. unfold w' in Hnone. congruence.
Qed.

(** An execution of an undisturbed entity that has ended stays ended: its row
    keeps its terminal stage and it is never active again. *)
Theorem ended_stays_ended ds ls w w' o :
  reachable ds w → is_Some (xwExecs w !! o) → lTerminated (live w o) = true → xrun E ls w w' →
  (ent w o ∉ (ds ++ ls)%list) →
  lTerminated (live w' o) = true ∧ teStage (deref w' o) = teStage (deref w o) ∧
  IsTerminalTaskStage (teStage (deref w' o)) = true ∧ ∀ e, xwActive w' !! e ≠ Some o.
Proof.
  intros Hre Hx Hl Hr Hn. assert (Hi : Inv E (ds ++ ls)%list w) by (eapply reachable_inv; [done|set_solver]).
  destruct (inv_stands _ _ _ Hi o Hx Hn) as [s Hs].
  apply (stands_ended _ _ _ _ Hs) in Hl as [stage ->].
  destruct (run_moves E (ds ++ ls)%list ls w w' Hr ltac:(set_solver) Hi) as (_ & _ & Hm & _).
  destruct (Hm o _ Hn Hs) as (_ & s' & Hrs & Hs').
  inversion Hrs as [|? s1 ? Hst]; subst.
  - destruct Hs as [_ _ _ Hst], Hs' as [_ ? ? Hst' Hterm]. rewrite Hst, Hst'. split_and!; [done..| |done].
    by destruct Hterm as [-> | [-> | ->]].
  - inversion Hst; subst. match goal with H : ∀ stage, _ ≠ _ |- _ => by destruct (H stage) end.
Qed.

(** C37: With a sandbox, a worktree and no shutdown, the row of an execution whose
    entity is undisturbed is in the stage approved only if the worktree of the
    execution has been merged. *)
Theorem approved_after_merge ds w o :
  reachable ds w → is_Some (xwExecs w !! o) → (ent w o ∉ ds) → teStage (deref w o) = phaseApproved →
  no_sandbox E = false → teWorktreePath (deref w o) ≠ "" → (∀ n, xShutdown (xeIO E n) = false) →
  ∃ id target msg trailers, EvMergeWorktree o id target msg trailers true ∈ xwOut w.
Proof.
  intros Hre Hx Hn Hst Hno Hwt Hsh.
  destruct (inv_stands _ _ _ (reachable_inv ds ds w Hre ltac:(set_solver)) o Hx Hn) as [s Hs].
  assert (Hm : merged E w o).
  { destruct s; simpl in Hs; [by destruct Hs as (_ & H & _); rewrite H in Hst..|].
    destruct Hs as [_ _ _ Hst']. apply e_merged. congruence. }
  destruct Hm as [?|[?|[?|[n Hn']]]]; [done|congruence|done|]. by rewrite Hsh in Hn'.
Qed.
End theorems.

(** ** The sample run *)

Lemma run_reachable w :
  w ∈ [run0; run1; run2; run3; run4; run5] → reachable run_env [] w.
Proof.
  intros Hin. exists (stored_world ∅). split; [by repeat split|].
  repeat (apply elem_of_cons in Hin as [->|Hin]; [|]); [..|by apply not_elem_of_nil in Hin];
    eauto 10 using xrun_nil, calm_step, run00, run01, run12, run23, run34, run45.
Qed.

Lemma stands_developing E w o s c :
  stands E w o s → teStage (deref w o) = phaseDeveloping → xwStarting w = [] →
  teTDDCycle (deref w o) = c → s = TDeveloping c.
Proof.
  intros Hs Hst Hni <-. destruct s; simpl in Hs.
  - destruct Hs as (_ & _ & Hin & _). rewrite Hni in Hin. by apply not_elem_of_nil in Hin.
  - by destruct Hs as [[_ _ _ -> _ _ _ _ _ _] _].
  - destruct Hs as (_ & H & _). by rewrite Hst in H.
  - destruct Hs as (_ & H & _). by rewrite Hst in H.
  - destruct Hs as [_ _ _ H Hterm]. rewrite Hst in H. subst. by destruct Hterm as [H|[H|H]].
Qed.

Ltac run_tac := apply run_reachable; repeat (first [left; reflexivity | right]).

(** The developer of the sample has submitted: the machine went from
    developing to validating. *)
Lemma execution_refines_machine_witness :
  reachable run_env [] run2 ∧ xstep run_env [] run2 run3 ∧ stands run_env run2 2 (TDeveloping 0) ∧
  ∃ s', rtc (tdd_step 3 (retry_budget run_env)) (TDeveloping 0) s' ∧ stands run_env run3 2 s'.
Proof.
  assert (Hr : reachable run_env [] run2) by run_tac.
  assert (Hx : xstep run_env [] run2 run3) by exact run23.
  destruct (execution_refines_machine run_env [] [] run2 run3 Hr Hx) as (Hall & Hsim & _).
  assert (Hs : stands run_env run2 2 (TDeveloping 0)).
  { destruct (Hall 2%nat) as (s & Hs & _); [by vm_compute; eexists|by apply not_elem_of_nil|].
    assert (s = TDeveloping 0) as <-; [|exact Hs].
    apply (stands_developing run_env run2 2 s 0 Hs); by vm_compute. }
  split; [exact Hr|split; [exact Hx|split; [exact Hs|]]].
  destruct (Hsim 2%nat _ (not_elem_of_nil _) Hs) as (s' & Hrs & Hs'). exists s'. exact (conj Hrs Hs').
Defined.

Lemma agents_bounded_witness :
  tasks_of stageDevelop run5 2 = 1 ∧
  tasks_of stageDevelop run5 2 ≤ Z.max 1 (teMaxTDDCycles (deref run5 2)) ∧
  tasks_of stageReview run5 2 ≤ Z.max 1 (teMaxTDDCycles (deref run5 2)) * (1 + retry_budget run_env).
Proof.
  split; [by vm_compute|]. apply (agents_bounded run_env [] run5 2); [run_tac|by vm_compute; eexists|by apply not_elem_of_nil].
Defined.

Lemma execution_terminates_witness :
  is_Some (xwExecs run1 !! 2%nat) ∧
  ∃ n, changes run_env 2 [] n run1 run5 ∧ Z.of_nat n ≤ 1 + 4 + Z.max 0 (3 - 1) * (1 + 3).
Proof.
  assert (Hk : is_Some (xwExecs run1 !! 2%nat)) by (by vm_compute; eexists).
  split; [done|].
  destruct (execution_terminates run_env [] [] run1 run5 2 ltac:(run_tac) Hk run15 (not_elem_of_nil _)) as [[n Hn] Hb].
  exists n. split; [done|]. exact (Hb n Hn).
Defined.

Lemma execution_times_out_witness :
  xwActive run2 !! "task-execution.demo.t1" = Some 2%nat ∧
  ∃ t, xwTimers run2 !! t = Some 2%nat ∧
    teStage (deref (timer_fires run_env t run2).1 2) = phaseError.
Proof.
  split; [by vm_compute|].
  destruct (execution_times_out run_env [] run2 "task-execution.demo.t1" 2) as (t & Ht & _ & Hs & _);
    [run_tac|by vm_compute|by apply not_elem_of_nil|apply (bool_decide_unpack _); by vm_compute|exists t; exact (conj Ht Hs)].
Defined.

Lemma ended_stays_ended_witness :
  lTerminated (live run5 2) = true ∧
  teStage (deref (handle_exec run_env (MTaskCreate run_request) run5).1 2) = phaseApproved.
Proof.
  assert (Hl : lTerminated (live run5 2) = true) by (by vm_compute).
  split; [done|].
  destruct (ended_stays_ended run_env [] [] run5 (handle_exec run_env (MTaskCreate run_request) run5).1 2)
    as (_ & -> & _); [run_tac|by vm_compute; eexists|done| |by apply not_elem_of_nil|by vm_compute].
  eapply calm_step; [apply step_mutation|apply xrun_nil].
Defined.

Lemma approved_after_merge_witness :
  teStage (deref run5 2) = phaseApproved ∧
  ∃ id target msg trailers, EvMergeWorktree 2 id target msg trailers true ∈ xwOut run5.
Proof.
  split; [by vm_compute|].
  apply (approved_after_merge run_env [] run5 2);
    [run_tac|by vm_compute; eexists|by apply not_elem_of_nil|by vm_compute|by vm_compute|by vm_compute|done].
Defined.

(** ** Cancelled before it starts *)

Definition run_reset : ReqResetRequest := MkReqResetRequest "" "demo" "r1".

(** An execution that a reset cancels between its claim and its
    initialisation is initialised all the same: the row the reset deleted is
    written again and a developer is given a task, for an execution that is
    not active. *)
Theorem cancelled_execution_still_starts :
  let w := (handle_exec run_env (MReqReset run_reset) run1).1 in
  let w' := (initTaskExecution run_env 2 w).1 in
  lTerminated (live w 2) = true ∧ (2%nat ∈ xwStarting w) ∧ (xwKV w ≫= (.!! run_key)) = None ∧
  tasks_of stageDevelop w' 2 = 1 ∧ is_Some (xwKV w' ≫= (.!! run_key)) ∧ xwActive w' = ∅.
Proof.
  split_and!; [by vm_compute|apply (bool_decide_unpack _); by vm_compute|by vm_compute|by vm_compute| |by vm_compute].
  vm_compute. by eexists.
Qed.
