(* ===== verification/Decisions.v ===== *)
(** * Plan decisions: the effects of accepting one

    The plan-decision handlers of processor/plan-manager/mutations.go, with
    the reset helpers of http.go and the recovery hints of
    http_plan_decision.go.  A decision proposed by the recovery agent, by the
    completeness gate or by a user is accepted; accepting it rewinds the plan
    to an earlier phase and clears the executions of the requirements it
    touches.  Those executions belong to the execution manager, which the
    plan manager reaches by requests and by reading the bucket: [ExecPort] is
    that interface, and the handlers are programs over the plan manager's
    world and whatever state the port has. *)

From stdpp Require Import pretty.
From S2P Require Import Prelude Graphs Status Paths Types Stories Cascade Assembly PlanStore Reviews Mutations.

Local Open Scope string_scope.
Local Open Scope go_scope.

(** ** The execution manager, seen from the plan manager *)

(** Listing the keys of EXECUTION_STATES. *)
Inductive key_listing :=
| NoBucket
| NoKeysFound
| KeysErr
| Keys (keys : list string).

(** The fields the plan manager decodes from a row. *)
Record exec_entry := MkExecEntry {
  eeRequirementID : string;
  eeStage : string;
  eeNodeFiles : list (list string) }.

(** [px_entry] is nothing when the row cannot be read or decoded,
    [px_reset_family] when the request fails or is rejected (else the number
    of rows deleted), [px_reset_key] says whether the key was reset. *)
Class ExecPort (S : Type) := {
  px_keys : S → S * key_listing;
  px_entry : string → S → S * option exec_entry;
  px_reset_family : string → string → S → S * option Z;
  px_reset_key : string → S → S * bool }.

(** What the plan manager relies on: a family reset that is answered with
    success clears the requirement, and no request brings a cleared
    requirement back.  The execution manager keeps this while the reads of its
    bucket do not fail, as PlanExec.v shows; when one fails it takes the row for
    missing and reports success all the same ([unread_row_survives_reset]
    there), so the theorems over [ExecPortLaws] are about healthy reads. *)
Class ExecPortLaws (S : Type) `{ExecPort S} := {
  px_inv : S → Prop;
  px_cleared : string → string → S → Prop;
  px_keys_inv s : px_inv s → px_inv (px_keys s).1;
  px_entry_inv key s : px_inv s → px_inv (px_entry key s).1;
  px_family_inv slug id s : px_inv s → px_inv (px_reset_family slug id s).1;
  px_family_clears slug id s s' n : px_inv s →
    px_reset_family slug id s = (s', Some n) → px_cleared slug id s';
  px_family_keeps slug id slug' id' s : px_inv s →
    px_cleared slug' id' s → px_cleared slug' id' (px_reset_family slug id s).1 }.

(** ** Handlers over both worlds *)

Definition D (S A : Type) : Type := World * S → (World * S) * A.

#[export] Instance D_ret {S} : MRet (D S) := λ A x ws, (ws, x).
#[export] Instance D_bind {S} : MBind (D S) := λ A B f m ws, let (ws', x) := m ws in f x ws'.

#[export] Instance D_fmap {S} : FMap (D S) := λ A B f m ws, let (ws', x) := m ws in (ws', f x).

Definition in_plans {S A} (m : M A) : D S A :=
  λ ws, let (w', x) := m ws.1 in ((w', ws.2), x).
Definition in_execs {S A} (m : S → S * A) : D S A :=
  λ ws, let (s', x) := m ws.2 in ((ws.1, s'), x).

(** ** Requests and errors *)

Record planDecisionAddRequest := MkDecisionAddReq {
  daSlug : string;
  daDecision : PlanDecision }.

Record planDecisionAcceptRequest := MkDecisionAcceptReq {
  dqSlug : string;
  dqProposalID : string;
  dqAcceptedBy : string }.

Inductive reset_error :=
| ResetFamily (slug id : string)
| ListExecutionKeys
| ResetEntry (key : string).

Inductive accept_error :=
| NeedsContractChange (k : PlanDecisionKind)
| NoAffectedRequirements
| CannotRetryScope (s : Status)
| NoResetScope (phase : string)
| ResetFailed (e : reset_error).

Inductive decision_error :=
| DUnmarshal
| DInvalidPayload
| DMissingFields
| DInvalidKind (k : PlanDecisionKind)
| DInvalidImpact (k : ContractImpactKind)
| DPlanNotFound
| DNotFound
| DCannotAccept (s : PlanDecisionStatus)
| DEffects (e : accept_error)
| DWrongStatus (s : Status)
| DNoGitHub
| DReset (e : reset_error)
| DNothingReset
| DSave (e : store_error)
| DAdvance (e : exec_error)
| DTrigger
| DCreate (e : store_error).

(** The handler said no before it stored anything. *)
Definition drefused (r : option decision_error) : bool :=
  match r with
  | None | Some (DSave _) | Some (DAdvance _) | Some DTrigger | Some (DCreate _) => false
  | Some _ => true
  end.

(** ** Pure helpers *)

Definition isFailedRetryStage (stage : string) : bool :=
  (stage =? "failed") || (stage =? "error") || (stage =? "escalated") || (stage =? "rejected").

Definition storyCoversAnyRequirement (story : Story) (reqSet : gset string) : bool :=
  existsb (λ id, bool_decide (id ∈ reqSet)) (sRequirementIDs story).

Definition story_started (s : Story) : bool :=
  match sStatus s with
  | StoryStatusExecuting | StoryStatusComplete | StoryStatusFailed => true
  | _ => false
  end.

(** The plan and the number of stories put back to ready at time [t]. *)
Definition resetStoriesForRetry (plan : Plan) (requirementIDs : list string) (t : Z) : Plan * Z :=
  if is_nil requirementIDs then (plan, 0%Z) else
  let reqSet := stringSet requirementIDs in
  let hit s := storyCoversAnyRequirement s reqSet && story_started s in
  (set_pStories ((λ s, if hit s then set_sUpdatedAt t (set_sStatus StoryStatusReady s) else s) <$>
                 pStories plan) plan,
   Z.of_nat (length (filter (λ s, hit s = true) (pStories plan)))).

Definition hint_story (hint : string) (t : Z) (s : Story) : Story :=
  set_sUpdatedAt t (set_sRecoveryHint hint s).
Definition hint_requirement (hint : string) (t : Z) (r : Requirement) : Requirement :=
  set_rUpdatedAt t (set_rRecoveryHint hint r).

Definition applyRecoveryHintToStories (plan : Plan) (proposal : PlanDecision) (t : Z) : Plan :=
  let target : gset string := list_to_set (dAffectedStoryIDs proposal) in
  let reqs : gset string := list_to_set (dAffectedReqIDs proposal) in
  let hit s := if bool_decide (size target = 0)
               then existsb (λ rid, bool_decide (rid ∈ reqs)) (sRequirementIDs s)
               else bool_decide (sID s ∈ target) in
  set_pStories ((λ s, if hit s then hint_story (dRationale proposal) t s else s) <$> pStories plan) plan.

Definition applyRecoveryHint (plan : Plan) (proposal : PlanDecision) (t : Z) : Plan :=
  if dRationale proposal =? "" then plan else
  if dKind proposal =? PlanDecisionKindStoryReprepare then applyRecoveryHintToStories plan proposal t else
  let affected : gset string := list_to_set (dAffectedReqIDs proposal) in
  set_pRequirements
    ((λ r, if bool_decide (rID r ∈ affected) then hint_requirement (dRationale proposal) t r else r) <$>
     pRequirements plan) plan.

Definition planDecisionMentionsRecoveryAction (proposal : PlanDecision) (action : string) : bool :=
  let haystack := ToLower (dTitle proposal +:+ String (byte 10) "" +:+ dRationale proposal) in
  let action := ToLower (TrimSpace action) in
  if action =? "" then false
  else Contains haystack action || Contains haystack (replace_byte (byte 95) (byte 32) action).

Definition planDecisionRequiresContractChange (proposal : PlanDecision) : bool :=
  match dKind proposal with
  | PlanDecisionKindArchitectureRevise => true
  | PlanDecisionKindRequirementChange => planDecisionMentionsRecoveryAction proposal "narrow_scope"
  | _ => false
  end.

Definition impact_kind (proposal : PlanDecision) : option ContractImpactKind :=
  ciKind <$> dContractImpact proposal.

Definition validatePlanDecisionAcceptContractImpact (proposal : PlanDecision) : option accept_error :=
  if negb (planDecisionRequiresContractChange proposal) then None
  else if bool_decide (impact_kind proposal = Some ContractImpactChange) then None
  else Some (NeedsContractChange (dKind proposal)).

Definition affectedRequirementIDsForScopeIncomplete (plan : Plan) (proposal : PlanDecision) : list string :=
  if negb (is_nil (dAffectedReqIDs proposal)) then dAffectedReqIDs proposal
  else filter (λ id, id ≠ "") (rID <$> pRequirements plan).

Definition nl : string := String (byte 10) "".

Definition scopeIncompleteRecoveryGuidance (proposal : PlanDecision) : string :=
  let rationale := TrimSpace (dRationale proposal) in
  if rationale =? "" then "" else
  "Scope completeness recovery:" +:+ nl +:+ rationale +:+ nl +:+ nl +:+
  "The declared scope.create files above remain required deliverables. Deliver the missing files in the existing project topology, or propose an explicit scope/architecture recovery if the declared scope is wrong. Do not silently omit them.".

(** The requirements of the decision and of the stories it names, sorted. *)
Definition affectedRequirementIDsForStoryReprepare (plan : Plan) (proposal : PlanDecision) : list string :=
  let storySet : gset string := list_to_set (dAffectedStoryIDs proposal) in
  sorted_elements (stringSet (dAffectedReqIDs proposal ++
    mjoin (sRequirementIDs <$> filter (λ s, sID s ∈ storySet) (pStories plan)))%list).

Definition whole_phase_ids : list string :=
  ["phase:*"; "phase:all"; "contract.phase:*"; "contract.phase:all"; "reset:*"; "reset:all"].

Definition contractImpactAllowsWholePhaseReset (proposal : PlanDecision) (phase : string) : bool :=
  match dContractImpact proposal with
  | None => false
  | Some impact =>
      if ciKind impact !=? ContractImpactChange then false else
      let phase := ToLower (TrimSpace phase) in
      existsb (λ raw,
        let id := ToLower (TrimSpace raw) in
        existsb (eqb id) whole_phase_ids ||
        ((phase !=? "") &&
         existsb (eqb id) ["phase:" +:+ phase; "contract.phase:" +:+ phase; "reset:" +:+ phase]))
        (ciAffectedIDs impact)
  end.

(** The scope and the requirements to reset. *)
Definition resetScopeFromRequirements (range : gset string → list string) (plan : Plan)
    (affectedReqIDs : list string) (proposal : PlanDecision) (phase : string) :
    (string * list string) + accept_error :=
  let closure := default [] (ExpandRequirementStoryClosure (pRequirements plan) (pStories plan)
                               range affectedReqIDs) in
  if is_nil closure then
    if contractImpactAllowsWholePhaseReset proposal phase then inl ("all", [])
    else inr (NoResetScope phase)
  else inl ("requirements", closure).

Definition planDecisionResetScope (range : gset string → list string) (plan : Plan)
    (proposal : PlanDecision) : (string * list string) + accept_error :=
  resetScopeFromRequirements range plan (affectedRequirementIDsForStoryReprepare plan proposal)
    proposal "architecture".

Definition removeScenariosForStoryReprepare (scenarios : list Scenario) (proposal : PlanDecision)
    (affectedReqIDs : list string) : list Scenario :=
  let storySet := stringSet (dAffectedStoryIDs proposal) in
  let reqSet : gset string := list_to_set affectedReqIDs in
  filter (λ s, (if bool_decide (0 < size storySet)%nat then bool_decide (scStoryID s ∈ storySet)
                else bool_decide (scRequirementID s ∈ reqSet)) = false) scenarios.

Definition storyIDsForRequirements (stories : list Story) (reqIDs : list string) : list string :=
  sort_strings (sID <$> filter (λ s, sID s ≠ "" ∧
    storyTouchesRequirements s (stringSet reqIDs) = true) stories).

Definition applyArchitectureRevisionHintToStories (plan : Plan) (storyIDs : list string)
    (hint : string) (t : Z) : Plan :=
  if (hint =? "") || is_nil storyIDs then plan else
  let target := stringSet storyIDs in
  set_pStories ((λ s, if bool_decide (sID s ∈ target) then hint_story hint t s else s) <$>
                pStories plan) plan.

Section effects.
Context (E : Env) (hashInstanceID : string → string → string).

Definition prepareArchitectureRevisionBase (plan : Plan) (proposal : PlanDecision) : Plan :=
  let plan := if dRationale proposal =? "" then plan
              else set_pReviewFormattedFindings (dRationale proposal) plan in
  let previous := default "" (pArchitecture plan ≫= envMarshalArch E) in
  set_pArchitecture None (set_pPreviousArchitectureJSON previous plan).

(** The plan, whether it moved, and the status it was in. *)
Definition reviseArchitectureState (plan : Plan) (proposal : PlanDecision) : Plan * (bool * Status) :=
  let from := EffectiveStatus plan in
  if negb (Status_CanTransitionTo from StatusRequirementsGenerated) then (plan, (false, from)) else
  let plan := prepareArchitectureRevisionBase plan proposal in
  let plan := set_pPendingArchitectureRevision None (set_pScenarios [] (set_pStories [] plan)) in
  (set_pStatus StatusRequirementsGenerated plan, (true, from)).

Definition reviseScopedArchitectureState (plan : Plan) (proposal : PlanDecision)
    (affectedReqIDs : list string) (t : Z) : Plan * (bool * Status) :=
  let from := EffectiveStatus plan in
  if negb (Status_CanTransitionTo from StatusRequirementsGenerated) then (plan, (false, from)) else
  let plan := prepareArchitectureRevisionBase plan proposal in
  let storyIDs := storyIDsForRequirements (pStories plan) affectedReqIDs in
  let plan := applyArchitectureRevisionHintToStories plan storyIDs (dRationale proposal) t in
  let plan := set_pPendingArchitectureRevision
    (Some (MkArchitectureRevisionScope (dID proposal) affectedReqIDs storyIDs)) plan in
  (set_pStatus StatusRequirementsGenerated plan, (true, from)).

Definition applyAcceptedContractAmendment (plan : Plan) (proposal : PlanDecision) (t : Z) : Plan :=
  match dContractImpact proposal with
  | None => plan
  | Some impact =>
      if ciKind impact !=? ContractImpactChange then plan else
      let t := default t (dDecidedAt proposal) in
      let plan := match pContract plan with
                  | Some _ => plan
                  | None => EnsureContractPacket E plan
                      (if pContext plan =? "" then pGoal plan else pContext plan) t
                  end in
      match pContract plan with
      | None => plan
      | Some c =>
          if existsb (λ a, caPlanDecisionID a =? dID proposal) (cpAmendments c) then plan else
          let amendment := MkContractAmendment
            ("contract-amendment." +:+ hashInstanceID (pSlug plan) (dID proposal))
            (dID proposal) impact t in
          set_pContract (Some (set_cpAmendments (cpAmendments c ++ [amendment])%list c)) plan
      end
  end.

(** *** Resets *)

Context {S : Type} `{ExecPort S}.

Definition dnow : D S Z := in_plans (now E).

Fixpoint reset_families (slug : string) (ids : list string) (total : Z) : D S (Z + reset_error) :=
  match ids with
  | [] => mret (inl total)
  | id :: ids =>
      n ← in_execs (px_reset_family slug id);
      match n with
      | None => mret (inr (ResetFamily slug id))
      | Some n => reset_families slug ids (total + n)%Z
      end
  end.

Definition resetRequirementFamilies (slug : string) (requirementIDs : list string) :
    D S (Z + reset_error) :=
  reset_families slug (uniqueSortedStrings requirementIDs) 0.

Definition shouldResetExecutionEntry (key scope : string) : D S bool :=
  if scope =? "failed" then
    entry ← in_execs (px_entry key);
    mret (match entry with Some e => isFailedRetryStage (eeStage e) | None => false end)
  else mret true.

Fixpoint reset_keys (slug scope : string) (keys : list string) (count : Z) : D S (Z + reset_error) :=
  match keys with
  | [] => mret (inl count)
  | key :: keys =>
      if HasPrefix key ("req." +:+ slug +:+ ".") || HasPrefix key ("task." +:+ slug +:+ ".") then
        wanted ← shouldResetExecutionEntry key scope;
        if wanted : bool then
          ok ← in_execs (px_reset_key key);
          if ok : bool then reset_keys slug scope keys (count + 1)%Z
          else mret (inr (ResetEntry key))
        else reset_keys slug scope keys count
      else reset_keys slug scope keys count
  end.

Definition resetRequirementExecutions (slug scope : string) (requirementIDs : list string) :
    D S (Z + reset_error) :=
  if scope =? "requirements" then resetRequirementFamilies slug requirementIDs else
  listing ← in_execs px_keys;
  match listing with
  | NoBucket | NoKeysFound => mret (inl 0%Z)
  | KeysErr => mret (inr ListExecutionKeys)
  | Keys keys => reset_keys slug scope keys 0
  end.

(** *** The kinds of decision *)

(** The order Go ranges over the closure's set. *)
Definition closure_range : D S (gset string → list string) :=
  w ← in_plans read; mret (envRange E (wTick w) 0).

Definition applyArchitectureRevise (plan : Plan) (proposal : PlanDecision) : D S (Plan + accept_error) :=
  if negb (can plan StatusRequirementsGenerated) then mret (inl plan) else
  range ← closure_range;
  match planDecisionResetScope range plan proposal with
  | inr e => mret (inr e)
  | inl (scope, ids) =>
      reset ← resetRequirementExecutions (pSlug plan) scope ids;
      match reset with
      | inr e => mret (inr (ResetFailed e))
      | inl _ =>
          if scope =? "all" then mret (inl (reviseArchitectureState plan proposal).1) else
          t ← dnow;
          mret (inl (reviseScopedArchitectureState plan proposal ids t).1)
      end
  end.

Definition applyScopeIncompleteRecovery (plan : Plan) (proposal : PlanDecision) (slug : string) :
    D S (Plan + accept_error) :=
  let reqIDs := affectedRequirementIDsForScopeIncomplete plan proposal in
  if is_nil reqIDs then mret (inr NoAffectedRequirements) else
  let current := EffectiveStatus plan in
  if (current !=? StatusImplementing) && negb (Status_CanTransitionTo current StatusReadyForExecution)
  then mret (inr (CannotRetryScope current)) else
  reset ← resetRequirementExecutions slug "requirements" reqIDs;
  match reset with
  | inr e => mret (inr (ResetFailed e))
  | inl _ =>
      t ← dnow;
      let plan := (resetStoriesForRetry plan reqIDs t).1 in
      t ← dnow;
      let plan := if dRationale proposal =? "" then plan
                  else applyRecoveryHint plan
                         (set_dRationale (scopeIncompleteRecoveryGuidance proposal) proposal) t in
      mret (inl (if current =? StatusImplementing then plan
                 else if Status_CanTransitionTo current StatusReadyForExecution
                 then set_pStatus StatusReadyForExecution plan else plan))
  end.

Definition applyStoryReprepare (plan : Plan) (proposal : PlanDecision) (slug : string) :
    D S (Plan + accept_error) :=
  let current := EffectiveStatus plan in
  if negb (Status_CanTransitionTo current StatusPreparingStories) then mret (inl plan) else
  range ← closure_range;
  match resetScopeFromRequirements range plan
          (affectedRequirementIDsForStoryReprepare plan proposal) proposal "stories" with
  | inr e => mret (inr e)
  | inl (scope, ids) =>
      reset ← (if current =? StatusImplementing
               then resetRequirementExecutions slug scope ids else mret (inl 0%Z));
      match reset with
      | inr e => mret (inr (ResetFailed e))
      | inl _ =>
          let scenarios := if scope =? "all" then []
            else removeScenariosForStoryReprepare (pScenarios plan) proposal ids in
          mret (inl (set_pStatus StatusPreparingStories (set_pScenarios scenarios plan)))
      end
  end.

Definition applyPlanDecisionAcceptEffects (plan : Plan) (proposal : PlanDecision) (slug : string) :
    D S (Plan + accept_error) :=
  match validatePlanDecisionAcceptContractImpact proposal with
  | Some e => mret (inr e)
  | None =>
      t ← dnow;
      let plan := applyAcceptedContractAmendment plan proposal t in
      match dKind proposal with
      | PlanDecisionKindArchitectureRevise => applyArchitectureRevise plan proposal
      | PlanDecisionKindScopeIncomplete => applyScopeIncompleteRecovery plan proposal slug
      | kind =>
          t ← dnow;
          let plan := if (dProposedBy proposal =? "recovery-agent") && (dRationale proposal !=? "")
                      then applyRecoveryHint plan proposal t else plan in
          if kind =? PlanDecisionKindStoryReprepare then applyStoryReprepare plan proposal slug
          else mret (inl plan)
      end
  end.

(** *** Accepting and adding *)

(** The saved plan starts execution again for an accepted [scope_incomplete]. *)
Definition startAcceptedPlanDecisionRetry (plan : Plan) (proposal : PlanDecision) :
    M (option decision_error) :=
  if dKind proposal !=? PlanDecisionKindScopeIncomplete then mret None else
  if negb (envAutoStart E) then mret None else
  match EffectiveStatus plan with
  | StatusReadyForExecution =>
      err ← startExecutionFromReady E plan (dAffectedReqIDs proposal); mret (DAdvance <$> err)
  | StatusImplementing =>
      published ← publishScenarioOrchestrator E plan (dAffectedReqIDs proposal);
      mret (if published : bool then None else Some DTrigger)
  | _ => mret None
  end.

(** Without a NATS client there is nobody to tell; a failure is logged. *)
Definition publishCascade (proposalID slug : string) : M () :=
  if negb (envAutoStart E) then mret () else
  o ← tick E;
  if ioMarshalErr o || ioPublishErr o then mret () else send (MsgCascade proposalID slug).

Definition set_decision (i : nat) (d : PlanDecision) (plan : Plan) : Plan :=
  set_pPlanDecisions (<[i := d]> (pPlanDecisions plan)) plan.

(** The part the mutation and the HTTP handler share: from the plan to the
    publication of the cascade, with the accepted proposal. *)
Definition accept_body (slug proposalID : string) (plan : Plan) :
    D S (option decision_error * option PlanDecision) :=
  match FindPlanDecision plan proposalID with
  | None => mret (Some DNotFound, None)
  | Some (i, proposal) =>
      if negb (PlanDecisionStatus_CanTransitionTo (dStatus proposal) PlanDecisionStatusAccepted)
      then mret (Some (DCannotAccept (dStatus proposal)), None) else
      match validatePlanDecisionAcceptContractImpact proposal with
      | Some e => mret (Some (DEffects e), None)
      | None =>
          t ← dnow;
          let proposal := set_dDecidedAt (Some t) (set_dStatus PlanDecisionStatusAccepted proposal) in
          r ← applyPlanDecisionAcceptEffects (set_decision i proposal plan) proposal slug;
          match r with
          | inr e => mret (Some (DEffects e), None)
          | inl plan =>
              in_plans (
                err ← save E plan;
                match err with
                | Some e => mret (Some (DSave e), None)
                | None =>
                    err ← startAcceptedPlanDecisionRetry plan proposal;
                    match err with
                    | Some e => mret (Some e, None)
                    | None => publishCascade proposalID slug;; mret (None, Some proposal)
                    end
                end)
          end
      end
  end.

Definition with_plan_d {A} (slug : string) (missing : A) (k : Plan → D S A) : D S A :=
  p ← in_plans (get E slug);
  match p with
  | None => mret missing
  | Some plan => k plan
  end.

Definition handlePlanDecisionAcceptMutation (data : option planDecisionAcceptRequest) :
    D S (option decision_error) :=
  match data with
  | None => mret (Some DUnmarshal)
  | Some req =>
      if (dqSlug req =? "") || (dqProposalID req =? "") then mret (Some DMissingFields) else
      with_plan_d (dqSlug req) (Some DPlanNotFound) (λ plan,
        r ← accept_body (dqSlug req) (dqProposalID req) plan; mret r.1)
  end.
End effects.

Definition open_exhaustion (wanted : gset string) (d : PlanDecision) : bool :=
  (dKind d =? PlanDecisionKindExecutionExhausted) &&
  ((dStatus d =? PlanDecisionStatusProposed) || (dStatus d =? PlanDecisionStatusUnderReview)) &&
  existsb (λ id, bool_decide (id ∈ wanted)) (dAffectedReqIDs d).

(** The plan and the identifiers superseded. *)
Definition archiveOpenExhaustionDecisionsLocked (plan : Plan) (reqIDs : list string) (t : Z) :
    Plan * list string :=
  if is_nil reqIDs then (plan, []) else
  let wanted : gset string := list_to_set reqIDs in
  (set_pPlanDecisions
     ((λ d, if open_exhaustion wanted d
            then set_dDecidedAt (Some t) (set_dStatus PlanDecisionStatusArchived d) else d) <$>
      pPlanDecisions plan) plan,
   dID <$> filter (λ d, open_exhaustion wanted d = true) (pPlanDecisions plan)).

(** The defaults for the fields a request may leave empty. *)
Definition default_decision (d : PlanDecision) (t : Z) : PlanDecision :=
  let d := if dStatus d =? PlanDecisionStatusOther "" then set_dStatus PlanDecisionStatusProposed d else d in
  if bool_decide (dCreatedAt d = 0%Z) then set_dCreatedAt t d else d.

(** The part under the lock, on a decision whose fields are valid. *)
Definition add_decision (E : Env) (slug : string) (d : PlanDecision) : M (option decision_error) :=
  t ← now E;
  let d := default_decision d t in
  p ← get E slug;
  match p with
  | None => mret (Some DPlanNotFound)
  | Some plan =>
      t ← now E;
      let plan := if dKind d =? PlanDecisionKindExecutionExhausted
                  then (archiveOpenExhaustionDecisionsLocked plan (dAffectedReqIDs d) t).1 else plan in
      err ← save E (set_pPlanDecisions (pPlanDecisions plan ++ [d])%list plan);
      mret (DSave <$> err)
  end.

Definition handlePlanDecisionAddMutation (E : Env) (data : option planDecisionAddRequest) :
    M (option decision_error) :=
  match data with
  | None => mret (Some DUnmarshal)
  | Some req =>
      let d := daDecision req in
      if (daSlug req =? "") || (dID d =? "") || (dPlanID d =? "") then mret (Some DMissingFields) else
      let d := if dKind d =? PlanDecisionKindOther "" then set_dKind PlanDecisionKindRequirementChange d else d in
      if negb (PlanDecisionKind_IsValid (dKind d)) then mret (Some (DInvalidKind (dKind d))) else
      match dContractImpact d with
      | Some impact =>
          if ContractImpactKind_IsValid (ciKind impact) then add_decision E (daSlug req) d
          else mret (Some (DInvalidImpact (ciKind impact)))
      | None => add_decision E (daSlug req) d
      end
  end.

(** ** Lemmas: programs over both worlds *)

Section programs.
Context {S : Type}.

(** What the program does to the plan manager's world: it only looks, or it
    stores only plans that satisfy [P]. *)
Definition dlooks {A} (m : D S A) : Prop := ∀ ws, untouched ws.1 (m ws).1.1.
Definition dwrites {A} (P : Plan → Prop) (m : D S A) : Prop := ∀ ws, evolves P ws.1 (m ws).1.1.

(** It only looks, and its answer satisfies [Q]. *)
Definition answers {A} (Q : A → Prop) (m : D S A) : Prop := dlooks m ∧ ∀ ws, Q (m ws).2.

Lemma dbind_eq {A B} (m : D S A) (f : A → D S B) ws : (m ≫= f) ws = f (m ws).2 (m ws).1.
Proof. unfold mbind, D_bind. by destruct (m ws). Qed.

Lemma dfmap_eq {A B} (f : A → B) (m : D S A) ws : (f <$> m) ws = ((m ws).1, f (m ws).2).
Proof. unfold fmap, D_fmap. by destruct (m ws). Qed.

Lemma in_plans_eq {A} (m : M A) (ws : World * S) : in_plans m ws = (((m ws.1).1, ws.2), (m ws.1).2).
Proof. unfold in_plans. by destruct (m ws.1). Qed.

Lemma dlooks_ret {A} (x : A) : dlooks (mret x : D S A).
Proof. intros ws. apply untouched_refl. Qed.

Lemma dlooks_bind {A B} (m : D S A) (f : A → D S B) :
  dlooks m → (∀ x, dlooks (f x)) → dlooks (m ≫= f).
Proof. intros Hm Hf ws. rewrite dbind_eq. eapply untouched_trans; [apply Hm|apply Hf]. Qed.

Lemma dlooks_in_plans {A} (m : M A) : looks m → dlooks (in_plans m : D S A).
Proof. intros Hm ws. unfold in_plans. specialize (Hm ws.1). by destruct (m ws.1). Qed.

Lemma dlooks_in_execs {A} (m : S → S * A) : dlooks (in_execs m).
Proof. intros ws. unfold in_execs. destruct (m ws.2). apply untouched_refl. Qed.

Lemma answers_ret {A} (Q : A → Prop) (x : A) : Q x → answers Q (mret x : D S A).
Proof. intros. split; [apply dlooks_ret|done]. Qed.

Lemma answers_bind {A B} (Q : B → Prop) (m : D S A) (f : A → D S B) :
  dlooks m → (∀ x, answers Q (f x)) → answers Q (m ≫= f).
Proof.
  intros Hm Hf. split; [apply dlooks_bind; [done|]; intros x; apply Hf|].
  intros ws. rewrite dbind_eq. apply Hf.
Qed.

Lemma dwrites_looks {A} P (m : D S A) : dlooks m → dwrites P m.
Proof. intros H ws. apply evolves_same, H. Qed.

Lemma dwrites_bind {A B} P (m : D S A) (f : A → D S B) :
  dwrites P m → (∀ x, dwrites P (f x)) → dwrites P (m ≫= f).
Proof. intros Hm Hf ws. rewrite dbind_eq. eapply evolves_trans; [apply Hm|apply Hf]. Qed.

Lemma dwrites_in_plans {A} P (m : M A) : writes P m → dwrites P (in_plans m : D S A).
Proof. intros Hm ws. unfold in_plans. specialize (Hm ws.1). by destruct (m ws.1). Qed.
End programs.

Create HintDb decisions.
#[export] Hint Resolve dlooks_ret dlooks_in_execs answers_ret : decisions.
#[export] Hint Extern 1 (dlooks (in_plans _)) => apply dlooks_in_plans; auto with semspec : decisions.

(** Take a program apart at its binds, its tests and its matches. *)
Ltac look_step :=
  match goal with
  | |- dlooks (_ ≫= _) => apply dlooks_bind; [|intros ?]
  | |- answers _ (_ ≫= _) => apply answers_bind; [|intros ?]
  | |- dlooks (if ?b then _ else _) => destruct b eqn:?
  | |- answers _ (if ?b then _ else _) => destruct b eqn:?
  | |- dlooks (match ?x with _ => _ end) => destruct x eqn:?
  | |- answers _ (match ?x with _ => _ end) => destruct x eqn:?
  end.
Ltac look_auto := repeat (solve [auto 2 with decisions] || look_step).

Section accept_lemmas.
Context (E : Env) (hash : string → string → string) {S : Type} `{ExecPort S}.

Lemma dlooks_now : dlooks (dnow E : D S _).
Proof. apply dlooks_in_plans, looks_now. Qed.
Hint Resolve dlooks_now : decisions.

Lemma dlooks_families slug ids total : dlooks (reset_families slug ids total : D S _).
Proof. revert total. induction ids as [|id ids IH]; intros total; simpl; look_auto. Qed.

Lemma dlooks_wanted key scope : dlooks (shouldResetExecutionEntry key scope : D S _).
Proof. unfold shouldResetExecutionEntry. look_auto. Qed.
Hint Resolve dlooks_families dlooks_wanted : decisions.

Lemma dlooks_keys slug scope keys count : dlooks (reset_keys slug scope keys count : D S _).
Proof. revert count. induction keys as [|k keys IH]; intros count; simpl; look_auto. Qed.
Hint Resolve dlooks_keys : decisions.

Lemma dlooks_reset slug scope ids : dlooks (resetRequirementExecutions slug scope ids : D S _).
Proof. unfold resetRequirementExecutions, resetRequirementFamilies. look_auto. Qed.

Lemma dlooks_range : dlooks (closure_range E (S := S)).
Proof. unfold closure_range. look_auto. Qed.
Hint Resolve dlooks_reset dlooks_range : decisions.

(** An accepted decision's effect on the plan: a later version with the same
    decisions, or an error. *)
Definition later (plan : Plan) (r : Plan + accept_error) : Prop :=
  match r with inl q => tracks plan q ∧ pPlanDecisions q = pPlanDecisions plan | inr _ => True end.
Arguments later : simpl never.

Lemma later_refl plan : later plan (inl plan).
Proof. split; [apply tracks_refl|done]. Qed.

Lemma later_to plan q target : can plan target = true → pSlug q = pSlug plan → pStatus q = target →
  pReviewIteration q = pReviewIteration plan → pPlanDecisions q = pPlanDecisions plan → later plan (inl q).
Proof. intros. split; [|done]. eapply tracks_to; try done; [lia|by apply settled_same]. Qed.

Lemma later_same plan q : pSlug q = pSlug plan → EffectiveStatus q = EffectiveStatus plan →
  pReviewIteration q = pReviewIteration plan → pPlanDecisions q = pPlanDecisions plan → later plan (inl q).
Proof. intros. split; [|done]. apply tracks_same; try done. by apply settled_same. Qed.

Lemma later_trans plan q r : later plan (inl q) → later q r → later plan r.
Proof.
  destruct r as [r|]; [|done]. intros [? Hd] [? Hd']. split; [by eapply tracks_trans|congruence].
Qed.

Lemma hint_frame plan q t : let p := applyRecoveryHint plan q t in
  pSlug p = pSlug plan ∧ pStatus p = pStatus plan ∧ EffectiveStatus p = EffectiveStatus plan ∧
  pReviewIteration p = pReviewIteration plan ∧ pPlanDecisions p = pPlanDecisions plan ∧
  pScenarios p = pScenarios plan.
Proof.
  unfold applyRecoveryHint, applyRecoveryHintToStories. destruct (dRationale q =? ""); [done|].
  by destruct (dKind q =? _).
Qed.

Lemma revise_later plan q : later plan (inl (reviseArchitectureState E plan q).1).
Proof.
  unfold reviseArchitectureState. destruct (Status_CanTransitionTo _ _) eqn:Hc; simpl; [|apply later_refl].
  eapply later_to; [exact Hc|..]; unfold prepareArchitectureRevisionBase; by destruct (dRationale q =? "").
Qed.

Lemma revise_scoped_later plan q ids t : later plan (inl (reviseScopedArchitectureState E plan q ids t).1).
Proof.
  unfold reviseScopedArchitectureState.
  destruct (Status_CanTransitionTo _ _) eqn:Hc; simpl; [|apply later_refl].
  eapply later_to; [exact Hc|..];
    unfold applyArchitectureRevisionHintToStories, prepareArchitectureRevisionBase;
    destruct (dRationale q =? ""); simpl; by repeat case_match.
Qed.

Lemma architecture_later plan q : answers (later plan) (applyArchitectureRevise E plan q : D S _).
Proof.
  unfold applyArchitectureRevise. look_auto; apply answers_ret;
    first [apply later_refl|apply revise_later|apply revise_scoped_later|done].
Qed.

Lemma stories_retry_frame plan ids t : let p := (resetStoriesForRetry plan ids t).1 in
  pSlug p = pSlug plan ∧ pStatus p = pStatus plan ∧ EffectiveStatus p = EffectiveStatus plan ∧
  pReviewIteration p = pReviewIteration plan ∧ pPlanDecisions p = pPlanDecisions plan ∧
  pRequirements p = pRequirements plan ∧ pScenarios p = pScenarios plan.
Proof. unfold resetStoriesForRetry. by destruct (is_nil ids). Qed.

Lemma scope_incomplete_later plan q slug :
  answers (later plan) (applyScopeIncompleteRecovery E plan q slug : D S _).
Proof.
  unfold applyScopeIncompleteRecovery.
  do 2 (look_step; [apply answers_ret; done|]). look_step; [apply dlooks_reset|].
  destruct x as [n|e]; [|by apply answers_ret]. do 2 (look_step; [apply dlooks_now|]).
  apply answers_ret.
  set (p := (resetStoriesForRetry _ _ _).1). set (p' := if dRationale q =? "" then p else _).
  assert (Hp : pSlug p' = pSlug plan ∧ EffectiveStatus p' = EffectiveStatus plan ∧
    pReviewIteration p' = pReviewIteration plan ∧ pPlanDecisions p' = pPlanDecisions plan).
  { destruct (stories_retry_frame plan (affectedRequirementIDsForScopeIncomplete plan q) x)
      as (H1 & _ & H2 & H3 & H4 & _). unfold p'. case_match; [done|].
    destruct (hint_frame p (set_dRationale (scopeIncompleteRecoveryGuidance q) q) x0)
      as (-> & _ & -> & -> & -> & _). done. }
  destruct Hp as (H1 & H2 & H3 & H4). case_match; [by apply later_same|].
  case_match eqn:Hc; [|by apply later_same]. by eapply later_to.
Qed.

Lemma reprepare_later plan q slug : answers (later plan) (applyStoryReprepare E plan q slug : D S _).
Proof.
  unfold applyStoryReprepare. look_step; [apply answers_ret, later_refl|].
  look_step; [apply dlooks_range|]. look_step; [|by apply answers_ret]. destruct p as [scope ids].
  look_step; [look_auto|]. look_step; apply answers_ret; [|done].
  eapply later_to; [|done..]. by apply negb_false_iff.
Qed.

Lemma amendment_frame plan q t : let p := applyAcceptedContractAmendment E hash plan q t in
  pSlug p = pSlug plan ∧ EffectiveStatus p = EffectiveStatus plan ∧
  pReviewIteration p = pReviewIteration plan ∧ pPlanDecisions p = pPlanDecisions plan ∧
  pRequirements p = pRequirements plan ∧ pStories p = pStories plan ∧ pScenarios p = pScenarios plan ∧
  pArchitecture p = pArchitecture plan.
Proof.
  unfold applyAcceptedContractAmendment, EnsureContractPacket.
  destruct (dContractImpact q) as [i|]; [|done]. case_match; [done|].
  destruct (pContract plan) as [c|] eqn:Hc; simpl; rewrite ?Hc; by case_match.
Qed.

Lemma effects_later plan q slug :
  answers (later plan) (applyPlanDecisionAcceptEffects E hash plan q slug : D S _).
Proof.
  unfold applyPlanDecisionAcceptEffects. look_step; [by apply answers_ret|].
  look_step; [apply dlooks_now|]. set (p := applyAcceptedContractAmendment _ _ _ _ _).
  assert (Hp : later plan (inl p)).
  { destruct (amendment_frame plan q x) as (H1 & H2 & H3 & H4 & _). by apply later_same. }
  assert (Hmono : ∀ (p' : Plan) (m : D S (Plan + accept_error)),
    later plan (inl p') → answers (later p') m → answers (later plan) m).
  { intros p' m Hp' [Hl Hm]. split; [done|]. intros ws. by eapply later_trans. }
  clearbody p. destruct (dKind q).
  4: by eapply Hmono, architecture_later.
  5: by eapply Hmono, scope_incomplete_later.
  all: look_step; [apply dlooks_now|]; set (p' := if _ && _ then _ else p);
    assert (Hp' : later plan (inl p'))
      by (eapply later_trans; [exact Hp|]; destruct (hint_frame p q x0) as (? & _ & ? & ? & ? & _);
          unfold p'; case_match; [by apply later_same|apply later_refl]);
    clearbody p'; look_step; [by eapply Hmono, reprepare_later|by apply answers_ret].
Qed.

(** *** Accepting *)

Lemma decision_at plan id i d : FindPlanDecision plan id = Some (i, d) →
  pPlanDecisions plan !! i = Some d ∧ dID d = id.
Proof. intros (Hi & Hd & _)%list_find_Some. done. Qed.

Lemma can_accept d : PlanDecisionStatus_CanTransitionTo (dStatus d) PlanDecisionStatusAccepted = true →
  dStatus d = PlanDecisionStatusProposed ∨ dStatus d = PlanDecisionStatusUnderReview.
Proof. destruct (dStatus d); simpl; auto; done. Qed.

(** Replacing a decision that is not accepted withdraws none. *)
Lemma settled_set plan i d d' : pPlanDecisions plan !! i = Some d →
  dStatus d ≠ PlanDecisionStatusAccepted → settled plan `sublist_of` settled (set_decision i d' plan).
Proof.
  intros Hi Hd. unfold settled, set_decision. simpl.
  rewrite (insert_take_drop _ _ _ (lookup_lt_Some _ _ _ Hi)).
  rewrite <- (take_drop_middle _ _ _ Hi) at 1. rewrite !filter_app, !fmap_app, !filter_cons.
  rewrite (decide_False (P := dStatus d = _)) by done. apply sublist_app; [done|].
  case_decide; [|done]. by apply sublist_cons.
Qed.

Lemma tracks_set plan i d d' : pPlanDecisions plan !! i = Some d →
  dStatus d ≠ PlanDecisionStatusAccepted → tracks plan (set_decision i d' plan).
Proof. intros. apply tracks_same; [done..|]. by eapply settled_set. Qed.

Lemma writes_retry plan0 plan q : tracks plan0 plan →
  writes (tracks plan0) (startAcceptedPlanDecisionRetry E plan q).
Proof.
  intros Ht. unfold startAcceptedPlanDecisionRetry.
  destruct (_ !=? _); [apply writes_ret|]. destruct (negb _); [apply writes_ret|].
  destruct (EffectiveStatus plan); try apply writes_ret; apply writes_bind; auto with semspec.
  by apply writes_start.
Qed.

Lemma writes_cascade P id slug : writes P (publishCascade E id slug).
Proof.
  apply writes_same. intros w. unfold publishCascade, tick, mbind, M_bind. by repeat case_match.
Qed.

Definition accepted_at (t : Z) (d : PlanDecision) : PlanDecision :=
  set_dDecidedAt (Some t) (set_dStatus PlanDecisionStatusAccepted d).

Lemma accept_body_ok slug id plan :
  dwrites (tracks plan) (accept_body E hash slug id plan : D S _) ∧
  ∀ ws, drefused (accept_body E hash slug id plan ws).2.1 = true →
    untouched ws.1 (accept_body E hash slug id plan ws).1.1.
Proof.
  unfold accept_body. destruct (FindPlanDecision plan id) as [[i d]|] eqn:Hf;
    [|split; [apply dwrites_looks, dlooks_ret|by intros]].
  destruct (negb _) eqn:Hc; [split; [apply dwrites_looks, dlooks_ret|by intros]|].
  destruct (validatePlanDecisionAcceptContractImpact d); [split; [apply dwrites_looks, dlooks_ret|by intros]|].
  apply decision_at in Hf as [Hi _]. apply negb_false_iff, can_accept in Hc.
  assert (Ht : ∀ t, tracks plan (set_decision i (accepted_at t d) plan)).
  { intros t. eapply tracks_set; [done|]. by destruct Hc as [-> | ->]. }
  pose proof (λ t, effects_later (set_decision i (accepted_at t d) plan) (accepted_at t d) slug) as He.
  split.
  - apply dwrites_bind; [apply dwrites_looks, dlooks_now|]. intros t ws. rewrite dbind_eq.
    destruct (He t) as [Hl Ha]. specialize (Hl ws). specialize (Ha ws). fold (accepted_at t d).
    destruct (applyPlanDecisionAcceptEffects _ _ _ _ _ ws) as [ws1 [q|e]]; simpl in *;
      [|apply evolves_same, Hl].
    eapply evolves_trans; [apply evolves_same, Hl|]. destruct Ha as [Ha _].
    assert (Htq : tracks plan q) by (eapply tracks_trans; [apply Ht|done]).
    apply dwrites_in_plans. apply writes_bind; [by apply writes_save|]. intros [e|]; [apply writes_ret|].
    apply writes_bind; [by apply writes_retry|]. intros [e|]; [apply writes_ret|].
    apply writes_bind; [apply writes_cascade|]. intros _. apply writes_ret.
  - intros ws. rewrite dbind_eq. rewrite dbind_eq. set (t := (dnow E ws).2). fold (accepted_at t d).
    destruct (He t) as [Hl _]. specialize (Hl (dnow E ws).1).
    destruct (applyPlanDecisionAcceptEffects _ _ _ _ _ _) as [ws1 [q|e]]; simpl in *; [|intros _; exact Hl].
    unfold in_plans, mbind, M_bind. destruct (save E q ws1.1) as [w2 [e|]]; [done|].
    unfold startAcceptedPlanDecisionRetry, mbind, M_bind, mret, M_ret.
    repeat match goal with
    | |- context [if ?b then _ else _] => destruct b
    | |- context [match EffectiveStatus q with _ => _ end] => destruct (EffectiveStatus q)
    | |- context [startExecutionFromReady ?e ?p ?f ?w] =>
        destruct (startExecutionFromReady e p f w) as [? [?|]]
    | |- context [publishScenarioOrchestrator ?e ?p ?f ?w] =>
        destruct (publishScenarioOrchestrator e p f w) as [? [|]]
    | |- context [publishCascade ?e ?i ?s ?w] => destruct (publishCascade e i s w) as [? ?]
    end; try done; simpl; by destruct (publishCascade _ _ _ _).
Qed.

Lemma still_ok slug w no : store_wf w → handler_ok slug w w no.
Proof. intros Hwf. split; auto. Qed.

Lemma accept_ok data ws : store_wf ws.1 →
  let r := handlePlanDecisionAcceptMutation E hash data ws in
  handler_ok (dqSlug <$> data) ws.1 r.1.1 (drefused r.2).
Proof.
  intros Hwf. destruct data as [req|]; simpl; [|by apply still_ok].
  case_match; [by apply still_ok|]. unfold with_plan_d. rewrite dbind_eq. unfold in_plans.
  destruct (get E (dqSlug req) ws.1) as [w1 [plan|]] eqn:Eg; simpl; [|by apply (unserved_ok E)].
  rewrite dbind_eq. simpl.
  destruct (accept_body_ok (dqSlug req) (dqProposalID req) plan) as [Hw Hr].
  apply (served_ok E (dqSlug req) plan ws.1 w1); [done|done|apply (Hw (w1, ws.2))|apply (Hr (w1, ws.2))].
Qed.

(** The steps of an accept that succeeds. *)
Lemma accept_success req ws ws' : store_wf ws.1 →
  handlePlanDecisionAcceptMutation E hash (Some req) ws = (ws', None) →
  ∃ p i d t w1 ws1 q w2 w3,
    visible ws.1 (dqSlug req) = Some p ∧ pSlug p = dqSlug req ∧
    FindPlanDecision p (dqProposalID req) = Some (i, d) ∧
    PlanDecisionStatus_CanTransitionTo (dStatus d) PlanDecisionStatusAccepted = true ∧
    applyPlanDecisionAcceptEffects E hash (set_decision i (accepted_at t d) p) (accepted_at t d)
      (dqSlug req) (w1, ws.2) = (ws1, inl q) ∧
    save E q ws1.1 = (w2, None) ∧
    startAcceptedPlanDecisionRetry E q (accepted_at t d) w2 = (w3, None) ∧
    ws' = ((publishCascade E (dqProposalID req) (dqSlug req) w3).1, ws1.2).
Proof.
  intros Hwf. unfold handlePlanDecisionAcceptMutation. case_match; [done|].
  unfold with_plan_d. rewrite dbind_eq. unfold in_plans.
  destruct (get E (dqSlug req) ws.1) as [w1 [p|]] eqn:Eg; simpl; [|done]. rewrite dbind_eq. simpl.
  destruct (get_cases _ _ _ _ _ Hwf Eg) as (_ & _ & Hp). simpl in Hp. unfold accept_body.
  destruct (FindPlanDecision p (dqProposalID req)) as [[i d]|] eqn:Hf; [|done].
  destruct (negb _) eqn:Hc; [done|]. apply negb_false_iff in Hc.
  destruct (validatePlanDecisionAcceptContractImpact d); [done|].
  rewrite dbind_eq. set (t := (dnow E (w1, ws.2)).2). fold (accepted_at t d). rewrite dbind_eq.
  change (dnow E (w1, ws.2)).1 with (ticked w1, ws.2).
  destruct (applyPlanDecisionAcceptEffects _ _ _ _ _ _) as [ws1 [q|e]] eqn:Ee; simpl; [|done].
  unfold in_plans, mbind, M_bind. destruct (save E q ws1.1) as [w2 [e|]] eqn:Es; [done|].
  destruct (startAcceptedPlanDecisionRetry E q (accepted_at t d) w2) as [w3 [e|]] eqn:Er; [done|].
  unfold mret, M_ret. destruct (publishCascade _ _ _ w3) as [w4 u] eqn:Ep. simpl. intros [= <-].
  exists p, i, d, t, (ticked w1), ws1, q, w2, w3. rewrite Ep. split_and!; try done. by apply (visible_slug ws.1).
Qed.
End accept_lemmas.

(** ** Lemmas: what is cleared *)

Section cleared.
Context (E : Env) {S : Type} `{ExecPortLaws S}.

Lemma in_execs_inl {A} (m : S → S * A) ws : in_execs m ws = ((ws.1, (m ws.2).1), (m ws.2).2).
Proof. unfold in_execs. by destruct (m ws.2). Qed.

Lemma families_clear slug ids total ws ws' n : px_inv ws.2 →
  reset_families slug ids total ws = (ws', inl n) →
  ws'.1 = ws.1 ∧ px_inv ws'.2 ∧ (∀ id, id ∈ ids → px_cleared slug id ws'.2) ∧
  (∀ slug' id', px_cleared slug' id' ws.2 → px_cleared slug' id' ws'.2).
Proof.
  revert total ws. induction ids as [|id ids IH]; intros total ws Hinv; simpl.
  { intros [= <- <-]. split_and!; [done|done| |done]. set_solver. }
  rewrite dbind_eq, in_execs_inl. simpl.
  destruct (px_reset_family slug id ws.2) as [s1 [k|]] eqn:Ef; simpl; [|done]. intros Hr.
  pose proof (px_family_inv slug id ws.2 Hinv) as Hinv1. rewrite Ef in Hinv1. simpl in Hinv1.
  destruct (IH _ (ws.1, s1) Hinv1 Hr) as (H1 & H2 & H3 & H4). split_and!; [done|done| |].
  - intros x [->|Hx]%elem_of_cons; [|by apply H3].
    apply H4. simpl. by apply (px_family_clears slug id ws.2 s1 k).
  - intros slug' id' Hc. apply H4. simpl.
    pose proof (px_family_keeps slug id slug' id' ws.2 Hinv Hc) as Hk. by rewrite Ef in Hk.
Qed.

Lemma requirements_clear slug ids ws ws' n : px_inv ws.2 →
  resetRequirementExecutions slug "requirements" ids ws = (ws', inl n) →
  ws'.1 = ws.1 ∧ px_inv ws'.2 ∧ ∀ id, id ∈ ids → id ≠ "" → px_cleared slug id ws'.2.
Proof.
  intros Hinv Hr. destruct (families_clear _ _ _ _ _ _ Hinv Hr) as (H1 & H2 & H3 & _).
  split_and!; [done..|]. intros id Hid Hne. apply H3. unfold uniqueSortedStrings.
  rewrite elem_of_sorted_elements, elem_of_stringSet. done.
Qed.

(** The requirements a decision names, directly or through its stories. *)
Definition named (plan : Plan) (d : PlanDecision) (id : string) : Prop :=
  id ≠ "" ∧ (id ∈ dAffectedReqIDs d ∨
    ∃ s, s ∈ pStories plan ∧ sID s ∈ dAffectedStoryIDs d ∧ id ∈ sRequirementIDs s).

(** What becomes dirty: the named requirements and whatever depends on a
    dirty one or shares a story with it. *)
Definition dirty (plan : Plan) (d : PlanDecision) (id : string) : Prop :=
  ∃ s, named plan d s ∧ rtc (taints (pRequirements plan) (pStories plan)) s id.

Lemma named_spec plan d id :
  id ∈ affectedRequirementIDsForStoryReprepare plan d ↔ named plan d id.
Proof.
  unfold affectedRequirementIDsForStoryReprepare, named.
  rewrite elem_of_sorted_elements, elem_of_stringSet, elem_of_app, list_elem_of_join.
  setoid_rewrite list_elem_of_fmap. setoid_rewrite list_elem_of_filter.
  setoid_rewrite elem_of_list_to_set. naive_solver.
Qed.

(** A scope of requirements is exactly the dirty ones; the other scope needs
    evidence. *)
Lemma reset_scope_spec range plan d phase : (∀ X, range X ≡ₚ elements X) →
  match resetScopeFromRequirements range plan (affectedRequirementIDsForStoryReprepare plan d) d phase with
  | inl (scope, ids) =>
      (scope = "requirements" ∧ ids ≠ [] ∧ NoDup ids ∧ ∀ x, x ∈ ids ↔ dirty plan d x) ∨
      (scope = "all" ∧ (∀ x, ¬ named plan d x) ∧ contractImpactAllowsWholePhaseReset d phase = true)
  | inr e => e = NoResetScope phase ∧ (∀ x, ¬ named plan d x) ∧
      contractImpactAllowsWholePhaseReset d phase = false
  end.
Proof.
  intros Hr. unfold resetScopeFromRequirements.
  destruct (ExpandRequirementStoryClosure_ok (pRequirements plan) (pStories plan) range Hr
    (affectedRequirementIDsForStoryReprepare plan d)) as (out & -> & _ & Hnd & Hout). simpl.
  assert (Hdirty : ∀ x, x ∈ out ↔ dirty plan d x).
  { intros x. rewrite Hout. unfold dirty. setoid_rewrite named_spec. unfold named. naive_solver. }
  assert (Hnone : out = [] → ∀ x, ¬ named plan d x).
  { intros -> x Hx. apply (not_elem_of_nil x), Hdirty. exists x. by split; [|apply rtc_refl]. }
  destruct (is_nil out) eqn:En; breflect.
  - destruct (contractImpactAllowsWholePhaseReset d phase); [right|]; auto.
  - by left.
Qed.

Lemma retry_other q d w : dKind d ≠ PlanDecisionKindScopeIncomplete →
  startAcceptedPlanDecisionRetry E q d w = (w, None).
Proof. intros Hk. unfold startAcceptedPlanDecisionRetry. by rewrite (proj2 (neqb_true _ _) Hk). Qed.

Lemma cascade_visible id slug w s : visible (publishCascade E id slug w).1 s = visible w s.
Proof. unfold publishCascade, tick, mbind, M_bind, mret, M_ret. by repeat case_match. Qed.

(** What the scoped revision does to the plan. *)
Lemma revise_scoped_spec plan d ids t : can plan StatusRequirementsGenerated = true →
  let q := (reviseScopedArchitectureState E plan d ids t).1 in
  pStatus q = StatusRequirementsGenerated ∧ pSlug q = pSlug plan ∧
  pPlanDecisions q = pPlanDecisions plan ∧
  pRequirements q = pRequirements plan ∧ pScenarios q = pScenarios plan ∧ pArchitecture q = None ∧
  pPreviousArchitectureJSON q = default "" (pArchitecture plan ≫= envMarshalArch E) ∧
  (∃ storyIDs, pPendingArchitectureRevision q = Some (MkArchitectureRevisionScope (dID d) ids storyIDs)) ∧
  (NoDup (sID <$> pStories plan) → ∀ s, s ∈ pStories plan →
     (∀ id, id ∈ sRequirementIDs s → id ∉ ids) → s ∈ pStories q).
Proof.
  unfold can, reviseScopedArchitectureState. intros ->. cbn [negb fst]. cbv zeta.
  unfold applyArchitectureRevisionHintToStories.
  set (base := prepareArchitectureRevisionBase E plan d). set (sids := storyIDsForRequirements _ _).
  assert (Hb : pSlug base = pSlug plan ∧ pPlanDecisions base = pPlanDecisions plan ∧
    pRequirements base = pRequirements plan ∧ pScenarios base = pScenarios plan ∧
    pArchitecture base = None ∧
    pPreviousArchitectureJSON base = default "" (pArchitecture plan ≫= envMarshalArch E) ∧
    pStories base = pStories plan).
  { unfold base, prepareArchitectureRevisionBase. by destruct (dRationale d =? ""). }
  clearbody base. destruct Hb as (H1 & H2 & H3 & H4 & H5 & H6 & H7).
  split_and!; try done; try (by destruct (_ || _)).
  - by eexists.
  - intros Hnd s Hs Hout. destruct (_ || _); simpl; rewrite H7; [done|].
    apply list_elem_of_fmap. exists s. split; [|done].
    case_bool_decide as Hin; [|done]. exfalso. apply elem_of_stringSet in Hin as [Hin _].
    unfold sids, storyIDsForRequirements in Hin. rewrite H7, elem_of_sort_strings in Hin.
    apply list_elem_of_fmap in Hin as (s' & He & [[_ Ht] Hs']%list_elem_of_filter).
    apply list_elem_of_lookup in Hs as [i Hi], Hs' as [j Hj].
    assert (i = j) as -> by (eapply NoDup_lookup; [done|by rewrite list_lookup_fmap, Hi|
      rewrite list_lookup_fmap, Hj; simpl; by rewrite He]). simplify_eq.
    apply existsb_exists in Ht as (id & Hid & Hx). apply bool_decide_eq_true in Hx.
    apply elem_of_stringSet in Hx as [Hx _]. apply (Hout id); [by apply list_elem_of_In|done].
Qed.

Lemma named_ext p q d t x : pStories q = pStories p → named q (accepted_at t d) x ↔ named p d x.
Proof. unfold named. simpl. by intros ->. Qed.

Lemma dirty_ext p q d t x : pStories q = pStories p → pRequirements q = pRequirements p →
  dirty q (accepted_at t d) x ↔ dirty p d x.
Proof.
  intros Hs Hr. unfold dirty. rewrite Hr, Hs. split; intros (s & Hn & Ht); exists s; (split; [|done]).
  - by apply (named_ext p q d t).
  - by apply (named_ext p q d t).
Qed.

(** The effects of an architecture revision that the plan's status allows. *)
Lemma architecture_effects plan d ws ws' q : px_inv ws.2 → (∀ n k X, envRange E n k X ≡ₚ elements X) →
  can plan StatusRequirementsGenerated = true → (∃ x, named plan d x) →
  applyArchitectureRevise E plan d ws = (ws', inl q) →
  ∃ ids t, NoDup ids ∧ (∀ x, x ∈ ids ↔ dirty plan d x) ∧
    q = (reviseScopedArchitectureState E plan d ids t).1 ∧
    ∀ x, dirty plan d x → x ≠ "" → px_cleared (pSlug plan) x ws'.2.
Proof.
  intros Hinv Hrange Hc [y Hy]. unfold applyArchitectureRevise. rewrite Hc. simpl.
  rewrite dbind_eq. set (range := (closure_range E ws).2). set (ws0 := (closure_range E ws).1).
  assert (Hr : ∀ X, range X ≡ₚ elements X) by (intros X; apply Hrange).
  pose proof (reset_scope_spec range plan d "architecture" Hr) as Hs.
  fold (planDecisionResetScope range plan d) in Hs.
  destruct (planDecisionResetScope range plan d) as [[scope ids]|e]; [|done].
  destruct Hs as [(-> & _ & Hnd & Hids)|(-> & Hn & _)]; [|by destruct (Hn y)].
  rewrite dbind_eq. destruct (resetRequirementExecutions _ _ _ ws0) as [ws1 [n|e]] eqn:Ereset; [|done].
  apply requirements_clear in Ereset as (_ & _ & Hcl); [|done]. simpl.
  rewrite dbind_eq. intros Heq. exists ids, (dnow E ws1).2. inversion Heq. subst. clear Heq.
  split_and!; [done|done|done|]. intros x Hx Hne. by apply Hcl; [apply Hids|].
Qed.
End cleared.

(** An execution manager that keeps one row per requirement and answers
    every request. *)
Definition row_table : Type := gset (string * string).

#[export] Instance row_table_port : ExecPort row_table := {
  px_keys s := (s, NoKeysFound);
  px_entry key s := (s, None);
  px_reset_family slug id s := (s ∖ {[(slug, id)]}, Some (if bool_decide ((slug, id) ∈ s) then 1%Z else 0%Z));
  px_reset_key key s := (s, true) }.

#[export] Program Instance row_table_laws : ExecPortLaws row_table := {
  px_inv s := True;
  px_cleared slug id s := (slug, id) ∉ s }.
Next Obligation. done. Qed.
Next Obligation. done. Qed.
Next Obligation. done. Qed.
Next Obligation. intros slug id s s' n _. simpl. intros [= <- _]. set_solver. Qed.
Next Obligation. intros slug id slug' id' s _. simpl. set_solver. Qed.

(** Accepting an architecture revision that names a requirement, on a plan that
    may go back to the requirements phase: the plan goes there, with the old
    architecture kept as text for the architect, and marks as pending exactly
    the requirements that the decision names and those that depend on a dirty
    requirement or share a story with one.  When the accept succeeds the port
    has cleared every one of them; requirements and scenarios are kept, and so
    is every story that covers no dirty requirement. *)
Lemma revise_scoped_state {S} `{ExecPortLaws S} E hash req (ws ws' : World * S) p i d :
  store_wf ws.1 → px_inv ws.2 → (∀ n k X, envRange E n k X ≡ₚ elements X) →
  visible ws.1 (dqSlug req) = Some p → FindPlanDecision p (dqProposalID req) = Some (i, d) →
  dKind d = PlanDecisionKindArchitectureRevise → can p StatusRequirementsGenerated = true →
  (∃ x, named p d x) →
  handlePlanDecisionAcceptMutation E hash (Some req) ws = (ws', None) →
  ∃ q ids storyIDs, visible ws'.1 (dqSlug req) = Some q ∧
    pStatus q = StatusRequirementsGenerated ∧ pArchitecture q = None ∧
    pPreviousArchitectureJSON q = default "" (pArchitecture p ≫= envMarshalArch E) ∧
    pPendingArchitectureRevision q = Some (MkArchitectureRevisionScope (dID d) ids storyIDs) ∧
    NoDup ids ∧ (∀ x, x ∈ ids ↔ dirty p d x) ∧
    (∀ x, dirty p d x → x ≠ "" → px_cleared (dqSlug req) x ws'.2) ∧
    pRequirements q = pRequirements p ∧ pScenarios q = pScenarios p ∧
    (NoDup (sID <$> pStories p) → ∀ s, s ∈ pStories p →
       (∀ x, x ∈ sRequirementIDs s → ¬ dirty p d x) → s ∈ pStories q).
Proof.
  intros Hwf Hinv Hrange Hp Hd Hk Hc Hy Hacc.
  destruct (accept_success E hash req ws ws' Hwf Hacc)
    as (p' & i' & d' & t & w1 & ws1 & q & w2 & w3 & Hp' & Hslug & Hd' & _ & He & Hsave & Hretry & ->).
  rewrite Hp in Hp'. injection Hp' as <-. rewrite Hd in Hd'. injection Hd' as <- <-.
  unfold applyPlanDecisionAcceptEffects in He.
  destruct (validatePlanDecisionAcceptContractImpact _); [done|]. rewrite dbind_eq in He.
  cbn [dKind accepted_at set_dDecidedAt set_dStatus] in He. rewrite Hk in He.
  destruct (amendment_frame E hash (set_decision i (accepted_at t d) p) (accepted_at t d)
    (dnow E (w1, ws.2)).2) as (F1 & F2 & _ & _ & F5 & F6 & F7 & F8).
  set (p1 := applyAcceptedContractAmendment _ _ _ _ _) in *. clearbody p1. simpl in F1, F5, F6, F7, F8.
  assert (Hc1 : can p1 StatusRequirementsGenerated = true) by (unfold can; by rewrite F2).
  assert (Hy1 : ∃ x, named p1 (accepted_at t d) x)
    by (destruct Hy as [y Hy]; exists y; by apply (named_ext p)).
  destruct (architecture_effects E p1 (accepted_at t d) (dnow E (w1, ws.2)).1 ws1 q Hinv Hrange Hc1 Hy1 He)
    as (ids & t' & Hnd & Hids & -> & Hcl).
  destruct (revise_scoped_spec E p1 (accepted_at t d) ids t' Hc1)
    as (G1 & G2 & _ & G4 & G5 & G6 & G7 & (storyIDs & G8) & G9).
  set (q := (reviseScopedArchitectureState _ _ _ _ _).1) in *. clearbody q.
  apply save_None in Hsave as (_ & Hv & _). rewrite retry_other in Hretry by (simpl; by rewrite Hk).
  injection Hretry as <-. exists q, ids, storyIDs. simpl. rewrite cascade_visible.
  assert (Hdirty : ∀ x, dirty p1 (accepted_at t d) x ↔ dirty p d x) by (intros; by apply dirty_ext).
  split_and!; [congruence|done|done|by rewrite G7, F8|done|done| | |congruence|congruence|].
  - intros x. by rewrite Hids, Hdirty.
  - intros x Hx Hne. rewrite <- Hslug, <- F1. by apply Hcl; [apply Hdirty|].
  - rewrite <- F6. intros Hn s Hs Hno. apply G9; [done..|]. intros id Hid Hin.
    apply (Hno id Hid), Hdirty, Hids, Hin.
Qed.

Lemma hint_stories_started q d t : dKind d ≠ PlanDecisionKindStoryReprepare →
  pStories (applyRecoveryHint q d t) = pStories q.
Proof.
  intros Hk. unfold applyRecoveryHint. destruct (_ =? ""); [done|]. by rewrite (proj2 (eqb_false _ _) Hk).
Qed.

Lemma retry_stories plan ids t s x : s ∈ pStories (resetStoriesForRetry plan ids t).1 →
  x ∈ sRequirementIDs s → x ∈ ids → x ≠ "" → story_started s = false.
Proof.
  unfold resetStoriesForRetry. destruct (is_nil ids) eqn:En; [apply is_nil_true in En; subst; set_solver|].
  simpl. intros Hs Hx Hin Hne. apply list_elem_of_fmap in Hs as (s0 & -> & Hs0).
  destruct (storyCoversAnyRequirement s0 (stringSet ids) && story_started s0) eqn:Eh; [done|].
  apply andb_false_iff in Eh as [Eh|Eh]; [|done]. exfalso. apply not_true_iff_false in Eh. apply Eh.
  apply existsb_exists. exists x. split; [by apply list_elem_of_In|].
  apply bool_decide_eq_true, elem_of_stringSet. done.
Qed.

(** The effects of a scope_incomplete decision that is accepted. *)
Lemma scope_effects {S} `{ExecPortLaws S} E plan d slug (ws ws' : World * S) q : px_inv ws.2 →
  dKind d = PlanDecisionKindScopeIncomplete →
  applyScopeIncompleteRecovery E plan d slug ws = (ws', inl q) →
  let ids := affectedRequirementIDsForScopeIncomplete plan d in
  (∀ x, x ∈ ids → x ≠ "" → px_cleared slug x ws'.2) ∧
  EffectiveStatus q = (if EffectiveStatus plan =? StatusImplementing
                       then StatusImplementing else StatusReadyForExecution) ∧
  (∀ s x, s ∈ pStories q → x ∈ sRequirementIDs s → x ∈ ids → x ≠ "" → story_started s = false).
Proof.
  intros Hinv Hk. unfold applyScopeIncompleteRecovery. set (ids := affectedRequirementIDsForScopeIncomplete _ _).
  destruct (is_nil ids); [done|].
  destruct ((EffectiveStatus plan !=? StatusImplementing) &&
    negb (Status_CanTransitionTo (EffectiveStatus plan) StatusReadyForExecution)) eqn:Eg; [done|].
  rewrite dbind_eq. destruct (resetRequirementExecutions slug "requirements" ids ws) as [ws1 [n|e]] eqn:Er; [|done].
  apply requirements_clear in Er as (_ & _ & Hcl); [|done]. cbn [fst snd]. rewrite !dbind_eq. simpl.
  set (t1 := ioNow _). set (t2 := ioNow _). intros [= <- Hq].
  set (p1 := (resetStoriesForRetry plan ids t1).1) in *.
  set (p2 := if dRationale d =? "" then p1 else _) in *.
  destruct (stories_retry_frame plan ids t1) as (_ & _ & S3 & _). fold p1 in S3.
  assert (Hst2 : pStories p2 = pStories p1).
  { unfold p2. destruct (dRationale d =? ""); [reflexivity|]. apply hint_stories_started. simpl. by rewrite Hk. }
  assert (He2 : EffectiveStatus p2 = EffectiveStatus plan).
  { unfold p2. destruct (dRationale d =? ""); [exact S3|].
    destruct (hint_frame p1 (set_dRationale (scopeIncompleteRecoveryGuidance d) d) t2) as (_ & _ & -> & _).
    done. }
  assert (Hst : pStories q = pStories p1).
  { subst q. repeat case_match; done. }
  split_and!; [done| |rewrite Hst; intros s x; apply (retry_stories plan ids t1)].
  subst q. destruct (EffectiveStatus plan =? StatusImplementing) eqn:Ei; simpl in Eg.
  - rewrite He2. by apply (proj1 (eqb_true _ _)).
  - apply negb_false_iff in Eg. rewrite Eg. done.
Qed.

(** What starting the retry leaves behind when it succeeds. *)
Lemma retry_cases E q d w w' : dKind d = PlanDecisionKindScopeIncomplete →
  visible w (pSlug q) = Some q → startAcceptedPlanDecisionRetry E q d w = (w', None) →
  ∃ q', visible w' (pSlug q) = Some q' ∧ pStories q' = pStories q ∧
    if envAutoStart E then
      EffectiveStatus q = StatusImplementing ∨ EffectiveStatus q = StatusReadyForExecution →
      EffectiveStatus q' = StatusImplementing ∧
      ∃ trace, MsgOrchestrate (scenarioOrchestrationTriggerForPlan q' trace (dAffectedReqIDs d)) ∈ wOut w'
    else q' = q.
Proof.
  intros Hk Hv. unfold startAcceptedPlanDecisionRetry. rewrite Hk. simpl.
  destruct (envAutoStart E); simpl; [|intros [= <-]; eauto].
  destruct (EffectiveStatus q) eqn:Hq; try (intros [= <-]; exists q; split_and!; [done..|]; intros [?|?]; done).
  - unfold mbind, M_bind. destruct (startExecutionFromReady E q (dAffectedReqIDs d) w) as [w1 [e|]] eqn:Es; [done|].
    intros [= <-]. apply start_cases in Es as (_ & _ & Hv1 & id & Ho). eexists. split_and!; [done..|].
    intros _. split; [done|]. exists id. rewrite Ho. apply elem_of_app. right. by apply list_elem_of_singleton.
  - unfold mbind, M_bind. pose proof (publish_cases E q (dAffectedReqIDs d) w) as Hp.
    destruct (publishScenarioOrchestrator E q (dAffectedReqIDs d) w) as [w1 [|]]; [|done].
    destruct Hp as [Hv1 Ho]. intros [= <-]. exists q. split_and!; [by rewrite Hv1|done|].
    intros _. split; [done|]. eexists. rewrite Ho. apply elem_of_app. right. by apply list_elem_of_singleton.
Qed.

Lemma cascade_out E id slug w m : m ∈ wOut w → m ∈ wOut (publishCascade E id slug w).1.
Proof.
  intros Hm. unfold publishCascade, tick, send, mbind, M_bind, mret, M_ret. repeat case_match; simpl; set_solver.
Qed.

(** Accepting a scope_incomplete decision clears every requirement it
    concerns from the execution manager, leaves none of their stories
    executing, complete or failed, and puts the plan to work again: with a
    publisher the plan is implementing and the orchestrator has been sent a
    trigger that forces the affected requirements. *)
Theorem scope_incomplete_requeues {S} `{ExecPortLaws S} E hash req (ws ws' : World * S) p i d :
  store_wf ws.1 → px_inv ws.2 →
  visible ws.1 (dqSlug req) = Some p → FindPlanDecision p (dqProposalID req) = Some (i, d) →
  dKind d = PlanDecisionKindScopeIncomplete →
  handlePlanDecisionAcceptMutation E hash (Some req) ws = (ws', None) →
  let ids := affectedRequirementIDsForScopeIncomplete p d in
  (∀ x, x ∈ ids → x ≠ "" → px_cleared (dqSlug req) x ws'.2) ∧
  ∃ q, visible ws'.1 (dqSlug req) = Some q ∧
    (∀ s x, s ∈ pStories q → x ∈ sRequirementIDs s → x ∈ ids → x ≠ "" → story_started s = false) ∧
    (if envAutoStart E then EffectiveStatus q = StatusImplementing ∧
       ∃ trace, MsgOrchestrate (scenarioOrchestrationTriggerForPlan q trace (dAffectedReqIDs d)) ∈ wOut ws'.1
     else EffectiveStatus q = if EffectiveStatus p =? StatusImplementing
                              then StatusImplementing else StatusReadyForExecution).
Proof.
  intros Hwf Hinv Hp Hd Hk Hacc ids.
  destruct (accept_success E hash req ws ws' Hwf Hacc)
    as (p' & i' & d' & t & w1 & ws1 & q & w2 & w3 & Hp' & Hslug & Hd' & _ & He & Hsave & Hretry & ->).
  rewrite Hp in Hp'. injection Hp' as <-. rewrite Hd in Hd'. injection Hd' as <- <-.
  pose proof (effects_later E hash (set_decision i (accepted_at t d) p) (accepted_at t d) (dqSlug req))
    as [_ Hl]. specialize (Hl (w1, ws.2)). rewrite He in Hl. destruct Hl as [Hl _].
  assert (Hqs : pSlug q = dqSlug req) by (rewrite (tracks_slug _ _ Hl); simpl; done). clear Hl.
  unfold applyPlanDecisionAcceptEffects in He.
  destruct (validatePlanDecisionAcceptContractImpact _); [done|]. rewrite dbind_eq in He.
  cbn [dKind accepted_at set_dDecidedAt set_dStatus] in He. rewrite Hk in He.
  destruct (amendment_frame E hash (set_decision i (accepted_at t d) p) (accepted_at t d)
    (dnow E (w1, ws.2)).2) as (_ & F2 & _ & _ & F5 & _).
  set (p1 := applyAcceptedContractAmendment _ _ _ _ _) in *. clearbody p1. simpl in F5.
  destruct (scope_effects E p1 (accepted_at t d) _ (dnow E (w1, ws.2)).1 ws1 q Hinv Hk He) as (Hcl & Hst & Hs).
  assert (Hids : affectedRequirementIDsForScopeIncomplete p1 (accepted_at t d) = ids).
  { unfold ids, affectedRequirementIDsForScopeIncomplete. simpl. by rewrite F5. }
  rewrite Hids in Hcl, Hs. rewrite F2 in Hst. split; [done|].
  apply save_None in Hsave as (_ & Hv & _). rewrite Hqs in Hv.
  apply retry_cases in Hretry as (q' & Hv' & Hst' & Hif); [|done|by rewrite Hqs].
  exists q'. cbn [fst]. rewrite cascade_visible, <- Hqs, Hv'.
  split_and!; [done|by rewrite Hst'|]. destruct (envAutoStart E); [|by rewrite Hif].
  destruct Hif as [Hi (trace & Ht)]; [by case_match; [left|right]|].
  split; [done|]. exists trace. by apply cascade_out.
Qed.

(** The requirements an accepted decision clears from the execution manager. *)
Definition cleared_by (p : Plan) (d : PlanDecision) (x : string) : Prop :=
  x ≠ "" ∧
  match dKind d with
  | PlanDecisionKindArchitectureRevise => can p StatusRequirementsGenerated = true ∧ dirty p d x
  | PlanDecisionKindScopeIncomplete => x ∈ affectedRequirementIDsForScopeIncomplete p d
  | _ => False
  end.

Lemma accepted_clears {S} `{ExecPortLaws S} E hash req (ws ws' : World * S) p i d x :
  store_wf ws.1 → px_inv ws.2 → (∀ n k X, envRange E n k X ≡ₚ elements X) →
  visible ws.1 (dqSlug req) = Some p → FindPlanDecision p (dqProposalID req) = Some (i, d) →
  handlePlanDecisionAcceptMutation E hash (Some req) ws = (ws', None) →
  cleared_by p d x → px_cleared (dqSlug req) x ws'.2.
Proof.
  intros Hwf Hinv Hrange Hp Hd Hacc [Hne Hx].
  destruct (accept_success E hash req ws ws' Hwf Hacc)
    as (p' & i' & d' & t & w1 & ws1 & q & w2 & w3 & Hp' & Hslug & Hd' & _ & He & _ & _ & ->).
  rewrite Hp in Hp'. injection Hp' as <-. rewrite Hd in Hd'. injection Hd' as <- <-.
  unfold applyPlanDecisionAcceptEffects in He.
  destruct (validatePlanDecisionAcceptContractImpact _); [done|]. rewrite dbind_eq in He.
  cbn [dKind accepted_at set_dDecidedAt set_dStatus] in He.
  destruct (amendment_frame E hash (set_decision i (accepted_at t d) p) (accepted_at t d)
    (dnow E (w1, ws.2)).2) as (F1 & F2 & _ & _ & F5 & F6 & _).
  set (p1 := applyAcceptedContractAmendment _ _ _ _ _) in *. clearbody p1. simpl in F1, F5, F6. simpl.
  destruct (dKind d) eqn:Hk; try done.
  - destruct Hx as [Hc Hx].
    assert (Hc1 : can p1 StatusRequirementsGenerated = true) by (unfold can; by rewrite F2).
    assert (Hx1 : dirty p1 (accepted_at t d) x) by (by apply (dirty_ext p)).
    destruct (architecture_effects E p1 (accepted_at t d) (dnow E (w1, ws.2)).1 ws1 q Hinv Hrange Hc1)
      as (ids & t' & _ & _ & _ & Hcl); [|done|rewrite <- Hslug, <- F1; by apply Hcl].
    destruct Hx1 as (y & Hy & _). by exists y.
  - destruct (scope_effects E p1 (accepted_at t d) _ (dnow E (w1, ws.2)).1 ws1 q Hinv Hk He) as (Hcl & _).
    apply Hcl; [|done]. unfold affectedRequirementIDsForScopeIncomplete in *. simpl. by rewrite F5.
Qed.

(** *** Accepting again *)

Lemma retry_decisions E q d w w' : visible w (pSlug q) = Some q →
  startAcceptedPlanDecisionRetry E q d w = (w', None) →
  ∃ q', visible w' (pSlug q) = Some q' ∧ pPlanDecisions q' = pPlanDecisions q.
Proof.
  intros Hv. unfold startAcceptedPlanDecisionRetry.
  destruct (_ !=? _); [intros [= <-]; eauto|]. destruct (negb _); [intros [= <-]; eauto|].
  destruct (EffectiveStatus q); try (intros [= <-]; by eauto); unfold mbind, M_bind.
  - destruct (startExecutionFromReady E q (dAffectedReqIDs d) w) as [w1 [e|]] eqn:Es; [done|].
    intros [= <-]. apply start_cases in Es as (_ & _ & Hv1 & _). eauto.
  - pose proof (publish_cases E q (dAffectedReqIDs d) w) as Hp.
    destruct (publishScenarioOrchestrator E q (dAffectedReqIDs d) w) as [w1 [|]]; [|done].
    destruct Hp as [Hv1 _]. intros [= <-]. exists q. by rewrite Hv1.
Qed.

(** A decision is accepted at most once: after an accept that succeeded, the
    plan shows the decision as accepted, and accepting it again, whatever
    happened to the executions in between, is refused and changes nothing. *)
Theorem decision_accepted_once {S} `{ExecPort S} E E' hash req (ws ws' : World * S) s :
  store_wf ws.1 → handlePlanDecisionAcceptMutation E hash (Some req) ws = (ws', None) →
  (∃ q i d, visible ws'.1 (dqSlug req) = Some q ∧ FindPlanDecision q (dqProposalID req) = Some (i, d) ∧
     dStatus d = PlanDecisionStatusAccepted) ∧
  let r := handlePlanDecisionAcceptMutation E' hash (Some req) (ws'.1, s) in
  drefused r.2 = true ∧ ∀ slug, visible r.1.1 slug = visible ws'.1 slug.
Proof.
  intros Hwf Hacc. pose proof (accept_ok E hash (Some req) ws Hwf) as Hok. rewrite Hacc in Hok.
  pose proof (ho_wf _ _ _ _ Hok) as Hwf'. simpl in Hwf'.
  destruct (accept_success E hash req ws ws' Hwf Hacc)
    as (p & i & d & t & w1 & ws1 & q & w2 & w3 & Hp & Hslug & Hd & _ & He & Hsave & Hretry & Hws').
  pose proof (effects_later E hash (set_decision i (accepted_at t d) p) (accepted_at t d) (dqSlug req))
    as [_ Hl]. specialize (Hl (w1, ws.2)). rewrite He in Hl. destruct Hl as [Ht Hds].
  assert (Hqs : pSlug q = dqSlug req) by (rewrite (tracks_slug _ _ Ht); simpl; done).
  apply save_None in Hsave as (_ & Hv & _).
  destruct (retry_decisions E q (accepted_at t d) w2 w3 Hv Hretry) as (q' & Hv' & Hds').
  assert (Hvis : visible ws'.1 (dqSlug req) = Some q') by (rewrite Hws'; simpl; by rewrite cascade_visible, <- Hqs).
  assert (Hfind : FindPlanDecision q' (dqProposalID req) = Some (i, accepted_at t d)).
  { unfold FindPlanDecision, find_by in *. rewrite Hds', Hds. simpl.
    pose proof (proj1 (list_find_Some _ _ _ _) Hd) as (Hi & Hid & _).
    by eapply list_find_insert_same. }
  split; [by exists q', i, (accepted_at t d)|]. intros r.
  pose proof (accept_ok E' hash (Some req) (ws'.1, s) Hwf') as Hok'. fold r in Hok'.
  enough (Hr : drefused r.2 = true) by (split; [done|]; by apply (ho_refused _ _ _ _ Hok')).
  unfold r, handlePlanDecisionAcceptMutation. case_match; [done|]. unfold with_plan_d.
  rewrite dbind_eq. unfold in_plans. simpl.
  destruct (get E' (dqSlug req) ws'.1) as [w4 [p4|]] eqn:Eg; simpl; [|done].
  destruct (get_cases _ _ _ _ _ Hwf' Eg) as (_ & _ & Hp4). simpl in Hp4. rewrite Hvis in Hp4.
  injection Hp4 as <-. rewrite dbind_eq. unfold accept_body. by rewrite Hfind.
Qed.

(** *** Adding *)

Lemma archive_frame plan ids t : let p := (archiveOpenExhaustionDecisionsLocked plan ids t).1 in
  pSlug p = pSlug plan ∧ EffectiveStatus p = EffectiveStatus plan ∧
  pReviewIteration p = pReviewIteration plan ∧ settled p = settled plan.
Proof.
  unfold archiveOpenExhaustionDecisionsLocked. destruct (is_nil ids); [done|]. split_and!; [done..|].
  unfold settled. simpl. generalize (pPlanDecisions plan). intros ds.
  induction ds as [|d ds IH]; [done|]. rewrite fmap_cons, !filter_cons.
  destruct (open_exhaustion _ d) eqn:Eo; [|by repeat case_decide; rewrite ?fmap_cons, IH].
  rewrite decide_False by done. rewrite IH, decide_False; [done|].
  unfold open_exhaustion in Eo. intros Hd. rewrite Hd in Eo. simpl in Eo. by rewrite andb_false_r in Eo.
Qed.

Lemma ticked_ok slug w w' no : handler_ok slug (ticked w) w' no → handler_ok slug w w' no.
Proof. by intros []; split. Qed.

(** The plan an accepted add stores. *)
Definition with_decision (d : PlanDecision) (t : Z) (plan : Plan) : Plan :=
  let plan := if dKind d =? PlanDecisionKindExecutionExhausted
              then (archiveOpenExhaustionDecisionsLocked plan (dAffectedReqIDs d) t).1 else plan in
  set_pPlanDecisions (pPlanDecisions plan ++ [d])%list plan.

Lemma with_decision_tracks d t plan : tracks plan (with_decision d t plan).
Proof.
  destruct (archive_frame plan (dAffectedReqIDs d) t) as (H1 & H2 & H3 & H4). unfold with_decision.
  set (p := if dKind d =? _ then _ else _).
  assert (Hp : pSlug p = pSlug plan ∧ EffectiveStatus p = EffectiveStatus plan ∧
    pReviewIteration p = pReviewIteration plan ∧ settled p = settled plan) by (unfold p; by case_match).
  clearbody p. destruct Hp as (? & ? & ? & Hs). apply tracks_same; [done..|].
  rewrite <- Hs. by eapply settled_app.
Qed.

Lemma add_decision_ok E slug d w : store_wf w →
  let r := add_decision E slug d w in handler_ok (Some slug) w r.1 (drefused r.2).
Proof.
  intros Hwf. unfold add_decision. rewrite now_bind. apply ticked_ok. unfold mbind, M_bind.
  assert (Hwt : store_wf (ticked w)) by done.
  destruct (get E slug (ticked w)) as [w1 [plan|]] eqn:Eg; [|by apply (unserved_ok E _ _ _ _ Hwt)].
  change (now E w1) with (ticked w1, ioNow (envIO E (wTick w1))). cbv beta iota zeta.
  fold (with_decision (default_decision d (ioNow (envIO E (wTick w)))) (ioNow (envIO E (wTick w1))) plan).
  set (q := with_decision _ _ _).
  pose proof (writes_save E (tracks plan) q (with_decision_tracks _ _ _) (ticked w1)) as Hw.
  destruct (save E q (ticked w1)) as [w2 [e|]]; (apply (served_ok E slug plan (ticked w) w1); done).
Qed.

Lemma add_ok E data w : store_wf w →
  let r := handlePlanDecisionAddMutation E data w in handler_ok (daSlug <$> data) w r.1 (drefused r.2).
Proof.
  intros Hwf. destruct data as [req|]; simpl; [|by apply still_ok].
  case_match; [by apply still_ok|]. set (d := if dKind (daDecision req) =? _ then _ else _).
  case_match; [by apply still_ok|].
  pose proof (add_decision_ok E (daSlug req) d w Hwf) as Hadd.
  destruct (dContractImpact d) as [impact|]; [|exact Hadd]. case_match; [exact Hadd|by apply still_ok].
Qed.

Lemma add_success E req w w' : store_wf w →
  handlePlanDecisionAddMutation E (Some req) w = (w', None) →
  ∃ p d t, visible w (daSlug req) = Some p ∧ visible w' (daSlug req) = Some (with_decision d t p) ∧
    dID d = dID (daDecision req) ∧ dAffectedReqIDs d = dAffectedReqIDs (daDecision req) ∧
    (dKind (daDecision req) = PlanDecisionKindExecutionExhausted → dKind d = PlanDecisionKindExecutionExhausted).
Proof.
  intros Hwf. unfold handlePlanDecisionAddMutation. case_match; [done|].
  set (d0 := if dKind (daDecision req) =? PlanDecisionKindOther "" then _ else _).
  assert (H0 : dID d0 = dID (daDecision req) ∧ dAffectedReqIDs d0 = dAffectedReqIDs (daDecision req) ∧
    (dKind (daDecision req) = PlanDecisionKindExecutionExhausted → dKind d0 = PlanDecisionKindExecutionExhausted)).
  { unfold d0. case_match eqn:E0; [|done]. apply (proj1 (eqb_true _ _)) in E0. rewrite E0. done. }
  clearbody d0. case_match; [done|].
  assert (Hadd : add_decision E (daSlug req) d0 w = (w', None) →
    ∃ p d t, visible w (daSlug req) = Some p ∧ visible w' (daSlug req) = Some (with_decision d t p) ∧
      dID d = dID (daDecision req) ∧ dAffectedReqIDs d = dAffectedReqIDs (daDecision req) ∧
      (dKind (daDecision req) = PlanDecisionKindExecutionExhausted → dKind d = PlanDecisionKindExecutionExhausted)).
  { unfold add_decision. rewrite now_bind. unfold mbind, M_bind.
    destruct (get E (daSlug req) (ticked w)) as [w1 [p|]] eqn:Eg; [|done].
    destruct (get_cases _ _ (ticked w) _ _ Hwf Eg) as (_ & _ & Hp). simpl in Hp.
    change (now E w1) with (ticked w1, ioNow (envIO E (wTick w1))). cbv beta iota zeta.
    set (d := default_decision _ _). set (t := ioNow (envIO E (wTick w1))). fold (with_decision d t p).
    destruct (save E (with_decision d t p) (ticked w1)) as [w2 [e|]] eqn:Es; [done|]. intros [= <-].
    apply save_None in Es as (_ & Hv & _). rewrite (tracks_slug _ _ (with_decision_tracks d t p)) in Hv.
    exists p, d, t. rewrite <- (visible_slug w (daSlug req) p Hwf Hp) at 2. split_and!; [done..| | |];
      unfold d, default_decision; repeat case_match; apply H0. }
  destruct (dContractImpact d0) as [impact|]; [|exact Hadd]. case_match; [exact Hadd|done].
Qed.

(** A new record of an exhausted execution supersedes the open ones: when it
    is added, it is the only open exhaustion decision of the plan that shares
    a requirement with it; the ones it supersedes are archived, no other
    decision changes and none is lost. *)
Theorem exhaustion_supersedes E req w w' p :
  store_wf w → visible w (daSlug req) = Some p →
  dKind (daDecision req) = PlanDecisionKindExecutionExhausted → dAffectedReqIDs (daDecision req) ≠ [] →
  handlePlanDecisionAddMutation E (Some req) w = (w', None) →
  let wanted : gset string := list_to_set (dAffectedReqIDs (daDecision req)) in
  ∃ q d t, visible w' (daSlug req) = Some q ∧ dID d = dID (daDecision req) ∧
    pPlanDecisions q = (((λ x, if open_exhaustion wanted x
        then set_dDecidedAt (Some t) (set_dStatus PlanDecisionStatusArchived x) else x) <$>
        pPlanDecisions p) ++ [d])%list ∧
    ∀ i x, pPlanDecisions q !! i = Some x → open_exhaustion wanted x = true → i = length (pPlanDecisions p).
Proof.
  intros Hwf Hp Hk Hne Hadd wanted.
  destruct (add_success E req w w' Hwf Hadd) as (p' & d & t & Hp' & Hv & Hid & Haff & Hkd).
  rewrite Hp in Hp'. injection Hp' as <-. exists (with_decision d t p), d, t.
  assert (Hds : pPlanDecisions (with_decision d t p) = (((λ x, if open_exhaustion wanted x
        then set_dDecidedAt (Some t) (set_dStatus PlanDecisionStatusArchived x) else x) <$>
        pPlanDecisions p) ++ [d])%list).
  { unfold with_decision. rewrite (Hkd Hk), eqb_refl. unfold archiveOpenExhaustionDecisionsLocked.
    rewrite Haff, (proj2 (is_nil_false _) Hne). done. }
  split_and!; [done|done|done|]. rewrite Hds. intros i x Hi Hopen.
  apply lookup_app_Some in Hi as [Hi|[Hlen Hi]].
  - exfalso. rewrite list_lookup_fmap in Hi. destruct (pPlanDecisions p !! i) as [y|]; [|done].
    simpl in Hi. injection Hi as <-. destruct (open_exhaustion wanted y) eqn:Ey; [|by rewrite Ey in Hopen].
    unfold open_exhaustion in Hopen. simpl in Hopen. by rewrite andb_false_r in Hopen.
  - apply list_lookup_singleton_Some in Hi as [Hi _]. rewrite length_fmap in *. lia.
Qed.

(** ** Witnesses *)

Definition demo_decision (id : string) (kind : PlanDecisionKind) (reqs : list string) : PlanDecision :=
  {| dID := id; dPlanID := "plan.demo"; dKind := kind; dTitle := "t"; dRationale := "because";
     dStatus := PlanDecisionStatusProposed; dProposedBy := "recovery-agent"; dAffectedReqIDs := reqs;
     dAffectedStoryIDs := []; dRejectionReasons := ∅;
     dContractImpact := Some (MkContractImpact ContractImpactChange "" []); dArtifactReferences := [];
     dCreatedAt := 1; dReviewedAt := None; dDecidedAt := None |}.

Definition demo_decided (st : Status) (ds : list PlanDecision) : Plan :=
  set_pPlanDecisions ds (set_pScenarios [demo_scenario "x" "r1" "s1"]
    (set_pStories demo_stories (set_pRequirements [sample_req "r1" []; sample_req "r2" []] (demo_plan st)))).

Definition demo_env : Env := sample_env (λ _, quiet_io) None.
Definition demo_hash (a b : string) : string := a +:+ "/" +:+ b.
Definition demo_rows : row_table := {[ ("demo", "r1"); ("demo", "r2"); ("other", "r1") ]}.

Definition revise_world : World * row_table :=
  (world_with [demo_decided StatusImplementing
     [demo_decision "d1" PlanDecisionKindArchitectureRevise ["r1"]]], demo_rows).
Definition demo_accept : planDecisionAcceptRequest := MkDecisionAcceptReq "demo" "d1" "user".

Lemma revise_scoped_state_witness :
  (handlePlanDecisionAcceptMutation demo_env demo_hash (Some demo_accept) revise_world).2 = None ∧
  ("demo", "r1") ∉ (handlePlanDecisionAcceptMutation demo_env demo_hash (Some demo_accept) revise_world).1.2.
Proof.
  set (r := handlePlanDecisionAcceptMutation demo_env demo_hash (Some demo_accept) revise_world).
  assert (Hr : r.2 = None) by (by vm_compute). split; [done|].
  destruct (revise_scoped_state demo_env demo_hash demo_accept revise_world r.1
    (demo_decided StatusImplementing [demo_decision "d1" PlanDecisionKindArchitectureRevise ["r1"]])
    0 (demo_decision "d1" PlanDecisionKindArchitectureRevise ["r1"]))
    as (q & ids & sids & _ & _ & _ & _ & _ & _ & _ & Hcl & _).
  - by apply demo_world_wf.
  - exact I.
  - done.
  - by vm_compute.
  - by vm_compute.
  - done.
  - by vm_compute.
  - exists "r1". split; [done|]. left. by apply list_elem_of_singleton.
  - unfold r in *. rewrite <- Hr. by destruct (handlePlanDecisionAcceptMutation _ _ _ _).
  - apply (Hcl "r1"); [|done]. exists "r1". split; [|apply rtc_refl]. split; [done|]. left. by apply list_elem_of_singleton.
Defined.

Definition scope_world : World * row_table :=
  (world_with [demo_decided StatusRejected [demo_decision "d1" PlanDecisionKindScopeIncomplete ["r1"]]],
   demo_rows).

Lemma scope_incomplete_requeues_witness :
  (handlePlanDecisionAcceptMutation demo_env demo_hash (Some demo_accept) scope_world).2 = None ∧
  ("demo", "r1") ∉ (handlePlanDecisionAcceptMutation demo_env demo_hash (Some demo_accept) scope_world).1.2.
Proof.
  set (r := handlePlanDecisionAcceptMutation demo_env demo_hash (Some demo_accept) scope_world).
  assert (Hr : r.2 = None) by (by vm_compute). split; [done|].
  destruct (scope_incomplete_requeues demo_env demo_hash demo_accept scope_world r.1
    (demo_decided StatusRejected [demo_decision "d1" PlanDecisionKindScopeIncomplete ["r1"]])
    0 (demo_decision "d1" PlanDecisionKindScopeIncomplete ["r1"])) as [Hcl _].
  - by apply demo_world_wf.
  - exact I.
  - by vm_compute.
  - by vm_compute.
  - done.
  - unfold r in *. rewrite <- Hr. by destruct (handlePlanDecisionAcceptMutation _ _ _ _).
  - apply (Hcl "r1"); [by apply list_elem_of_singleton|done].
Defined.

Lemma decision_accepted_once_witness :
  (handlePlanDecisionAcceptMutation demo_env demo_hash (Some demo_accept) scope_world).2 = None ∧
  drefused (handlePlanDecisionAcceptMutation demo_env demo_hash (Some demo_accept)
    (handlePlanDecisionAcceptMutation demo_env demo_hash (Some demo_accept) scope_world).1).2 = true.
Proof.
  set (r := handlePlanDecisionAcceptMutation demo_env demo_hash (Some demo_accept) scope_world).
  assert (Hr : r.2 = None) by (by vm_compute). split; [done|].
  destruct (decision_accepted_once demo_env demo_env demo_hash demo_accept scope_world r.1 r.1.2)
    as [_ [Hno _]].
  - by apply demo_world_wf.
  - unfold r in *. rewrite <- Hr. by destruct (handlePlanDecisionAcceptMutation _ _ _ _).
  - by rewrite <- surjective_pairing in Hno.
Defined.

Definition exhausted (id : string) : PlanDecision :=
  demo_decision id PlanDecisionKindExecutionExhausted ["r1"].

Lemma exhaustion_supersedes_witness :
  let w := world_with [demo_decided StatusImplementing [exhausted "d1"]] in
  let req := MkDecisionAddReq "demo" (exhausted "d2") in
  (handlePlanDecisionAddMutation demo_env (Some req) w).2 = None ∧
  ∃ q, visible (handlePlanDecisionAddMutation demo_env (Some req) w).1 "demo" = Some q.
Proof.
  intros w req. set (r := handlePlanDecisionAddMutation demo_env (Some req) w).
  assert (Hr : r.2 = None) by (by vm_compute). split; [done|].
  destruct (exhaustion_supersedes demo_env req w r.1 (demo_decided StatusImplementing [exhausted "d1"]))
    as (q & d & t & Hq & _).
  - by apply demo_world_wf.
  - by vm_compute.
  - done.
  - done.
  - unfold r in *. rewrite <- Hr. by destruct (handlePlanDecisionAddMutation _ _ _).
  - exists q. exact Hq.
Defined.
