(* ===== verification/GitHubPlans.v ===== *)
(** * GitHub mutations of the plan manager

    The three GitHub handlers of processor/plan-manager/mutations.go: a plan
    is created from an issue, learns its pull request, and goes back to
    execution when a reviewer asks for changes.  Review comments name files;
    the plan manager maps them to requirements through the files recorded in
    EXECUTION_STATES, which it reads through the port of [Decisions].  The
    payloads are those of workflow/payloads/github.go; [slugify]
    (pkg/paths, a hash) and the QA level of the project file are parameters. *)

From stdpp Require Import pretty.
From S2P Require Import Prelude Graphs Status Paths Types Stories Cascade Assembly PlanStore Reviews Mutations Decisions.

Local Open Scope string_scope.
Local Open Scope go_scope.

(** ** Payloads *)

Record GitHubPlanCreationRequest := MkGitHubPlanCreationRequest {
  gcIssueNumber : Z;
  gcIssueURL : string;
  gcRepository : string;
  gcTitle : string;
  gcDescription : string;
  gcScope : string;
  gcConstraints : string;
  gcPriority : string;
  gcTraceID : string }.

(** [Validate] returns nil. *)
Definition GitHubPlanCreationRequest_Validate (r : GitHubPlanCreationRequest) : bool :=
  negb (bool_decide (gcIssueNumber r = 0%Z)) && (gcTitle r !=? "") && (gcRepository r !=? "").

Record PRReviewComment := MkPRReviewComment {
  rvID : Z;
  rvPath : string;
  rvLine : Z;
  rvBody : string;
  rvDiffHunk : string }.

Record GitHubPRFeedbackRequest := MkGitHubPRFeedbackRequest {
  fbSlug : string;
  fbPRNumber : Z;
  fbReviewID : Z;
  fbReviewer : string;
  fbState : string;
  fbBody : string;
  fbComments : list PRReviewComment;
  fbTraceID : string }.

(** [Validate] returns nil. *)
Definition GitHubPRFeedbackRequest_Validate (r : GitHubPRFeedbackRequest) : bool :=
  (fbSlug r !=? "") && negb (bool_decide (fbPRNumber r = 0%Z)) && negb (bool_decide (fbReviewID r = 0%Z)).

Record prMetadataRequest := MkPRMetadataRequest {
  pmSlug : string;
  pmPRNumber : Z;
  pmPRURL : string }.

(** ** Files and requirements *)

(** [result\[file\] = append(result\[file\], reqID)] *)
Definition add_file (reqID : string) (m : gmap string (list string)) (file : string) :
    gmap string (list string) :=
  <[file := (default [] (m !! file) ++ [reqID])%list]> m.

Definition note_comment (fileMap : gmap string (list string)) (st : gset string * list string)
    (c : PRReviewComment) : gset string * list string :=
  if rvPath c =? "" then st
  else foldl (λ st id, if bool_decide (id ∈ st.1) then st else ({[id]} ∪ st.1, st.2 ++ [id])%list)
             st (default [] (fileMap !! rvPath c)).

Definition mapCommentsToRequirements (comments : list PRReviewComment)
    (fileMap : gmap string (list string)) : list string :=
  if bool_decide (fileMap = ∅) then [] else (foldl (note_comment fileMap) (∅, []) comments).2.

Definition feedback_decision (planID : string) (round : Z) (req : GitHubPRFeedbackRequest) (t : Z)
    (reqID : string) : PlanDecision :=
  {| dID := "plan-decision." +:+ fbSlug req +:+ ".pr-feedback." +:+ pretty (fbReviewID req) +:+ "." +:+ reqID;
     dPlanID := planID; dKind := PlanDecisionKindOther "";
     dTitle := "PR feedback round " +:+ pretty round;
     dRationale := "PR review feedback from @" +:+ fbReviewer req +:+ " (review " +:+
       pretty (fbReviewID req) +:+ ")" +:+ (if fbBody req =? "" then "" else ": " +:+ fbBody req);
     dStatus := PlanDecisionStatusAccepted; dProposedBy := "github-pr-review";
     dAffectedReqIDs := [reqID]; dAffectedStoryIDs := []; dRejectionReasons := ∅;
     dContractImpact := None; dArtifactReferences := []; dCreatedAt := t; dReviewedAt := None;
     dDecidedAt := Some t |}.

Section github.
Context (E : Env) (slugify : string → string) (qaLevel : QALevel).

Definition appendPRFeedbackPlanDecisions (plan : Plan) (g : GitHubMetadata)
    (req : GitHubPRFeedbackRequest) (ids : list string) (t : Z) : Plan :=
  set_pPlanDecisions (pPlanDecisions plan ++
    (feedback_decision (envPlanEntityID E (fbSlug req)) (ghPRRevision g + 1)%Z req t <$> ids))%list plan.

(** ** Handlers *)

Definition github_metadata (req : GitHubPlanCreationRequest) : GitHubMetadata :=
  {| ghIssueNumber := gcIssueNumber req; ghIssueURL := gcIssueURL req; ghRepository := gcRepository req;
     ghPlanBranch := ""; ghPRNumber := 0; ghPRURL := ""; ghPRRevision := 0; ghLastProcessedReviewID := 0;
     ghPRState := ""; ghLatestFeedback := ""; ghLastSynced := 0 |}.

Definition from_issue (req : GitHubPlanCreationRequest) (plan : Plan) : Plan :=
  let plan := set_pGitHub (Some (github_metadata req)) plan in
  let plan := if gcDescription req =? "" then plan else set_pContext (gcDescription req) plan in
  if gcScope req =? "" then plan
  else set_pScope (set_scpInclude (TrimSpace <$> split_on (byte 44) (gcScope req)) (pScope plan)) plan.

Definition issue_slug (req : GitHubPlanCreationRequest) : string :=
  pretty (gcIssueNumber req) +:+ "-" +:+ slugify (gcTitle req).

Definition handleGitHubPlanCreateMutation (data : option GitHubPlanCreationRequest) :
    M (option decision_error) :=
  match data with
  | None => mret (Some DUnmarshal)
  | Some req =>
      if negb (GitHubPlanCreationRequest_Validate req) then mret (Some DInvalidPayload) else
      let slug := issue_slug req in
      ex ← exists_ slug;
      if ex : bool then mret None else
      r ← create E slug (gcTitle req)
            (if gcDescription req =? "" then gcTitle req else gcDescription req) qaLevel None;
      match r with
      | inr e => mret (Some (DCreate e))
      | inl plan => err ← save E (from_issue req plan); mret (DSave <$> err)
      end
  end.

Definition handleGitHubPRMetadataMutation (data : option prMetadataRequest) : M (option decision_error) :=
  match data with
  | None => mret (Some DUnmarshal)
  | Some req =>
      if (pmSlug req =? "") || bool_decide (pmPRNumber req = 0%Z) then mret (Some DMissingFields) else
      p ← get E (pmSlug req);
      match p with
      | None => mret (Some DPlanNotFound)
      | Some plan =>
          match pGitHub plan with
          | None => mret (Some DNoGitHub)
          | Some g =>
              let g := set_ghPRState "open" (set_ghPRURL (pmPRURL req) (set_ghPRNumber (pmPRNumber req) g)) in
              err ← save E (set_pGitHub (Some g) plan); mret (DSave <$> err)
          end
      end
  end.

Context {S : Type} `{ExecPort S}.

Fixpoint index_files (prefix : string) (keys : list string) (m : gmap string (list string)) :
    D S (gmap string (list string)) :=
  match keys with
  | [] => mret m
  | key :: keys =>
      if negb (HasPrefix key prefix) then index_files prefix keys m else
      entry ← in_execs (px_entry key);
      match entry with
      | None => index_files prefix keys m
      | Some e => index_files prefix keys (foldl (add_file (TrimPrefix key prefix)) m (mjoin (eeNodeFiles e)))
      end
  end.

(** Nothing when the keys cannot be listed. *)
Definition buildFileToReqMap (slug : string) : D S (option (gmap string (list string))) :=
  listing ← in_execs px_keys;
  match listing with
  | Keys keys => m ← index_files ("req." +:+ slug +:+ ".") keys ∅; mret (Some m)
  | NoBucket | NoKeysFound | KeysErr => mret None
  end.

Definition active_requirements (plan : Plan) : list string :=
  rID <$> filter (λ r, rStatus r = RequirementStatusActive) (pRequirements plan).

(** The plan and the requirements the review sends back. *)
Definition feedback_scope (req : GitHubPRFeedbackRequest) (fileMap : option (gmap string (list string)))
    (plan : Plan) (g : GitHubMetadata) : GitHubMetadata * list string :=
  let affected := mapCommentsToRequirements (fbComments req) (default ∅ fileMap) in
  if is_nil affected
  then (if fbBody req =? "" then g else set_ghLatestFeedback (fbBody req) g, active_requirements plan)
  else (g, affected).

(** The plan with the round recorded. *)
Definition feedback_plan (req : GitHubPRFeedbackRequest) (plan : Plan) (g : GitHubMetadata)
    (ids : list string) (t : Z) : Plan :=
  set_pGitHub (Some (set_ghLastProcessedReviewID (fbReviewID req)
                       (set_ghPRRevision (ghPRRevision g + 1)%Z g)))
    (appendPRFeedbackPlanDecisions (set_pGitHub (Some g) plan) g req ids t).

Definition feedback_body (req : GitHubPRFeedbackRequest) (plan : Plan) : D S (option decision_error) :=
  if EffectiveStatus plan !=? StatusAwaitingReview then mret (Some (DWrongStatus (EffectiveStatus plan))) else
  match pGitHub plan with
  | None => mret (Some DNoGitHub)
  | Some g =>
      fileMap ← buildFileToReqMap (fbSlug req);
      let '(g, ids) := feedback_scope req fileMap plan g in
      t ← dnow E;
      let plan := feedback_plan req plan g ids t in
      reset ← resetRequirementExecutions (fbSlug req) "requirements" ids;
      match reset with
      | inr e => mret (Some (DReset e))
      | inl n =>
          if bool_decide (n = 0%Z) && negb (is_nil ids) then mret (Some DNothingReset) else
          in_plans (err ← transitionToReadyForExecution E plan ids; mret (DAdvance <$> err))
      end
  end.

Definition handleGitHubPRFeedbackMutation (data : option GitHubPRFeedbackRequest) :
    D S (option decision_error) :=
  match data with
  | None => mret (Some DUnmarshal)
  | Some req =>
      if negb (GitHubPRFeedbackRequest_Validate req) then mret (Some DInvalidPayload) else
      with_plan_d E (fbSlug req) (Some DPlanNotFound) (feedback_body req)
  end.
End github.

(** ** Lemmas *)

Section github_lemmas.
Context (E : Env) {S : Type} `{ExecPort S}.

Lemma dlooks_index prefix keys m : dlooks (index_files prefix keys m : D S _).
Proof. revert m. induction keys as [|k keys IH]; intros m; simpl; look_auto. Qed.

Lemma dlooks_file_map slug : dlooks (buildFileToReqMap slug : D S _).
Proof. assert (Hi := λ p k, dlooks_index p k). unfold buildFileToReqMap. look_auto. Qed.

Lemma feedback_tracks req plan g ids t : tracks plan (feedback_plan E req plan g ids t).
Proof. apply tracks_same; [done..|]. by eapply settled_app. Qed.

Lemma feedback_body_ok req plan :
  dwrites (tracks plan) (feedback_body E req plan : D S _) ∧
  ∀ ws, drefused (feedback_body E req plan ws).2 = true → untouched ws.1 (feedback_body E req plan ws).1.1.
Proof.
  unfold feedback_body. destruct (_ !=? _); [split; [apply dwrites_looks, dlooks_ret|by intros]|].
  destruct (pGitHub plan) as [g0|]; [|split; [apply dwrites_looks, dlooks_ret|by intros]].
  pose proof (dlooks_file_map (fbSlug req)) as Hmap. pose proof (λ ids, dlooks_reset E (S := S) (fbSlug req) "requirements" ids) as Hres.
  split.
  - apply dwrites_bind; [by apply dwrites_looks|]. intros fm. destruct (feedback_scope _ _ _ _) as [g ids].
    apply dwrites_bind; [apply dwrites_looks, dlooks_now|]. intros t.
    apply dwrites_bind; [apply dwrites_looks, Hres|]. intros [n|e]; [|apply dwrites_looks, dlooks_ret].
    case_match; [apply dwrites_looks, dlooks_ret|]. apply dwrites_in_plans.
    apply writes_bind; [apply writes_ready, feedback_tracks|intros; apply writes_ret].
  - intros ws. rewrite dbind_eq. specialize (Hmap ws). destruct (feedback_scope _ _ _ _) as [g ids].
    rewrite dbind_eq. set (ws1 := (buildFileToReqMap (fbSlug req) ws).1) in *.
    pose proof (dlooks_now E (S := S) ws1) as Hn. set (ws2 := (dnow E ws1).1) in *. rewrite dbind_eq.
    specialize (Hres ids ws2). set (r := resetRequirementExecutions (fbSlug req) "requirements" ids ws2) in *.
    assert (Hall : untouched ws.1 r.1.1) by (eapply untouched_trans; [apply Hmap|]; by eapply untouched_trans).
    destruct r.2 as [n|e]; [|by intros _]. destruct (_ && _); [by intros _|].
    unfold in_plans, mbind, M_bind. by destruct (transitionToReadyForExecution _ _ _ _) as [w3 [e|]].
Qed.

Lemma feedback_ok data ws : store_wf ws.1 →
  let r := handleGitHubPRFeedbackMutation E data ws in handler_ok (fbSlug <$> data) ws.1 r.1.1 (drefused r.2).
Proof.
  intros Hwf. destruct data as [req|]; simpl; [|by apply still_ok].
  case_match; [by apply still_ok|]. unfold with_plan_d. rewrite dbind_eq. unfold in_plans.
  destruct (get E (fbSlug req) ws.1) as [w1 [plan|]] eqn:Eg; simpl; [|by apply (unserved_ok E)].
  destruct (feedback_body_ok req plan) as [Hw Hr].
  apply (served_ok E (fbSlug req) plan ws.1 w1); [done|done|apply (Hw (w1, ws.2))|apply (Hr (w1, ws.2))].
Qed.

Lemma metadata_ok data w : store_wf w →
  let r := handleGitHubPRMetadataMutation E data w in handler_ok (pmSlug <$> data) w r.1 (drefused r.2).
Proof.
  intros Hwf. destruct data as [req|]; simpl; [|by apply still_ok].
  case_match; [by apply still_ok|]. unfold mbind at 1, M_bind at 1. unfold mbind at 2, M_bind at 2.
  destruct (get E (pmSlug req) w) as [w1 [plan|]] eqn:Eg; simpl; [|by apply (unserved_ok E)].
  destruct (pGitHub plan) as [g|];
    [|apply (served_ok E (pmSlug req) plan w w1); [done|done|apply evolves_refl|intros _; apply untouched_refl]].
  set (q := set_pGitHub _ plan). assert (Hq : tracks plan q) by (by apply tracks_same).
  pose proof (writes_save E (tracks plan) q Hq w1) as Hw. unfold mbind, M_bind.
  destruct (save E q w1) as [w2 [e|]]; (apply (served_ok E (pmSlug req) plan w w1); done).
Qed.
End github_lemmas.

(** ** Feedback *)

Lemma elem_of_active plan x : x ∈ active_requirements plan ↔
  ∃ r, r ∈ pRequirements plan ∧ rID r = x ∧ rStatus r = RequirementStatusActive.
Proof.
  unfold active_requirements. rewrite list_elem_of_fmap. setoid_rewrite list_elem_of_filter. naive_solver.
Qed.

Lemma note_ids (fm : gmap string (list string)) ids (st : gset string * list string) :
  (∀ x, x ∈ st.1 ↔ x ∈ st.2) → NoDup st.2 →
  let st' := foldl (λ st id, if bool_decide (id ∈ st.1) then st else ({[id]} ∪ st.1, st.2 ++ [id])%list) st ids in
  (∀ x, x ∈ st'.1 ↔ x ∈ st'.2) ∧ NoDup st'.2 ∧ ∀ x, x ∈ st'.2 ↔ x ∈ st.2 ∨ x ∈ ids.
Proof.
  revert st. induction ids as [|id ids IH]; intros st Hs Hn; simpl; [set_solver|].
  case_bool_decide as Hin.
  - destruct (IH st Hs Hn) as (H1 & H2 & H3). split_and!; [done..|]. set_solver.
  - destruct (IH ({[id]} ∪ st.1, st.2 ++ [id])%list) as (H1 & H2 & H3); [set_solver| |].
    + simpl. apply NoDup_app. split_and!; [done| |apply NoDup_singleton]. set_solver.
    + split_and!; [done..|]. intros x. rewrite H3. simpl. set_solver.
Qed.

(** The requirements whose recorded files the comments name, each once. *)
Lemma mapComments_spec comments fm : NoDup (mapCommentsToRequirements comments fm) ∧
  ∀ x, x ∈ mapCommentsToRequirements comments fm ↔
    ∃ c l, c ∈ comments ∧ rvPath c ≠ "" ∧ fm !! rvPath c = Some l ∧ x ∈ l.
Proof.
  unfold mapCommentsToRequirements. case_bool_decide as He.
  { subst fm. split; [constructor|]. intros x. setoid_rewrite lookup_empty. set_solver. }
  enough (H : ∀ st, (∀ x, x ∈ st.1 ↔ x ∈ st.2) → NoDup st.2 →
    NoDup (foldl (note_comment fm) st comments).2 ∧
    ∀ x, x ∈ (foldl (note_comment fm) st comments).2 ↔ x ∈ st.2 ∨
      ∃ c l, c ∈ comments ∧ rvPath c ≠ "" ∧ fm !! rvPath c = Some l ∧ x ∈ l).
  { destruct (H (∅, [])) as [H1 H2]; [set_solver|constructor|]. split; [done|]. intros x. rewrite H2. set_solver. }
  induction comments as [|c comments IH]; intros st Hs Hn; simpl; [set_solver|].
  unfold note_comment at 2 4. destruct (rvPath c =? "") eqn:Ep; breflect.
  - destruct (IH st Hs Hn) as [H1 H2]. split; [done|]. intros x. rewrite H2. set_solver.
  - destruct (note_ids fm (default [] (fm !! rvPath c)) st Hs Hn) as (H1 & H2 & H3).
    destruct (IH _ H1 H2) as [H4 H5]. split; [done|]. intros x. rewrite H5, H3.
    destruct (fm !! rvPath c) as [l|] eqn:El; simpl; set_solver.
Qed.

(** The steps of a feedback request that succeeds. *)
Lemma feedback_success {S} `{ExecPort S} E req (ws ws' : World * S) : store_wf ws.1 →
  handleGitHubPRFeedbackMutation E (Some req) ws = (ws', None) →
  ∃ p g0 g fm ids t ws1 ws2 n,
    visible ws.1 (fbSlug req) = Some p ∧ pSlug p = fbSlug req ∧
    EffectiveStatus p = StatusAwaitingReview ∧ pGitHub p = Some g0 ∧
    feedback_scope req fm p g0 = (g, ids) ∧ (buildFileToReqMap (fbSlug req) ws1).2 = fm ∧ ws1.2 = ws.2 ∧
    resetRequirementExecutions (fbSlug req) "requirements" ids
      (dnow E (buildFileToReqMap (fbSlug req) ws1).1).1 = (ws2, inl n) ∧
    (n ≠ 0%Z ∨ ids = []) ∧
    transitionToReadyForExecution E (feedback_plan E req p g ids t) ids ws2.1 = (ws'.1, None) ∧ ws'.2 = ws2.2.
Proof.
  intros Hwf. unfold handleGitHubPRFeedbackMutation. case_match; [done|].
  unfold with_plan_d. rewrite dbind_eq. unfold in_plans at 1 2.
  destruct (get E (fbSlug req) ws.1) as [w1 [p|]] eqn:Eg; simpl; [|done].
  destruct (get_cases _ _ _ _ _ Hwf Eg) as (_ & _ & Hp). simpl in Hp. unfold feedback_body.
  destruct (EffectiveStatus p !=? StatusAwaitingReview) eqn:Hst; [done|]. apply negb_false_iff in Hst.
  apply (proj1 (eqb_true _ _)) in Hst. destruct (pGitHub p) as [g0|] eqn:Hg; [|done].
  rewrite dbind_eq. set (fm := (buildFileToReqMap (fbSlug req) (w1, ws.2)).2).
  destruct (feedback_scope req fm p g0) as [g ids] eqn:Hsc. rewrite !dbind_eq.
  set (t := (dnow E _).2). destruct (resetRequirementExecutions _ _ _ _) as [ws2 [n|e]] eqn:Hr; [|done].
  simpl. destruct (bool_decide (n = 0%Z) && negb (is_nil ids)) eqn:Hn; [done|].
  unfold in_plans, mbind, M_bind. destruct (transitionToReadyForExecution _ _ _ _) as [w3 [e|]] eqn:Ht; [done|].
  intros [= <-]. exists p, g0, g, fm, ids, t, (w1, ws.2), ws2, n. split_and!; try done.
  - by apply (visible_slug ws.1).
  - apply andb_false_iff in Hn as [Hn|Hn]; [left; by apply bool_decide_eq_false in Hn|right].
    apply negb_false_iff in Hn. by apply is_nil_true.
Qed.

Lemma execs_index {S} `{ExecPort S} (I : S → Prop) prefix keys m ws :
  (∀ key s, I s → I (px_entry key s).1) → I ws.2 → I (index_files prefix keys m ws).1.2.
Proof.
  intros He. revert m ws. induction keys as [|k keys IH]; intros m ws Hi; simpl; [done|].
  case_match; [by apply IH|]. rewrite dbind_eq, in_execs_inl. simpl.
  specialize (He k ws.2 Hi). destruct (px_entry k ws.2).2; by apply IH.
Qed.

Lemma execs_file_map {S} `{ExecPort S} (I : S → Prop) slug ws :
  (∀ s, I s → I (px_keys s).1) → (∀ key s, I s → I (px_entry key s).1) →
  I ws.2 → I (buildFileToReqMap slug ws).1.2.
Proof.
  intros Hk He Hi. unfold buildFileToReqMap. rewrite dbind_eq, in_execs_inl. simpl.
  specialize (Hk ws.2 Hi). destruct (px_keys ws.2).2; [done..|]. rewrite dbind_eq. simpl.
  by apply execs_index.
Qed.

(** A review that asks for changes sends the plan back to work: if the
    request succeeds the plan was awaiting review, the requirements sent back
    are those whose recorded files the comments name, or every active one when
    the comments name none, each of them has been cleared from the execution
    manager, the round is recorded as one accepted decision per requirement,
    and the plan is executing again. *)
Theorem pr_feedback_requeues {S} `{ExecPortLaws S} E req (ws ws' : World * S) :
  store_wf ws.1 → px_inv ws.2 →
  handleGitHubPRFeedbackMutation E (Some req) ws = (ws', None) →
  ∃ p q g g' ids t, visible ws.1 (fbSlug req) = Some p ∧ visible ws'.1 (fbSlug req) = Some q ∧
    EffectiveStatus p = StatusAwaitingReview ∧
    EffectiveStatus q = (if envAutoStart E then StatusImplementing else StatusReadyForExecution) ∧
    ((∃ fm, ids = mapCommentsToRequirements (fbComments req) fm ∧ ids ≠ []) ∨ ids = active_requirements p) ∧
    (∀ x, x ∈ ids → x ≠ "" → px_cleared (fbSlug req) x ws'.2) ∧
    pGitHub p = Some g ∧ pGitHub q = Some g' ∧ ghPRRevision g' = (ghPRRevision g + 1)%Z ∧
    ghLastProcessedReviewID g' = fbReviewID req ∧
    pPlanDecisions q = (pPlanDecisions p ++
      (feedback_decision (envPlanEntityID E (fbSlug req)) (ghPRRevision g') req t <$> ids))%list.
Proof.
  intros Hwf Hinv Hok.
  destruct (feedback_success E req ws ws' Hwf Hok)
    as (p & g0 & g & fm & ids & t & ws1 & ws2 & n & Hp & Hslug & Hst & Hg & Hsc & _ & Hws1 & Hr & _ & Ht & Hws').
  assert (Hinv1 : px_inv (dnow E (buildFileToReqMap (fbSlug req) ws1).1).1.2).
  { unfold dnow, in_plans. destruct (now E _). simpl. apply execs_file_map; [apply px_keys_inv|apply px_entry_inv|]. by rewrite Hws1. }
  apply requirements_clear in Hr as (_ & _ & Hcl); [|done].
  apply ready_cases in Ht. set (q0 := feedback_plan E req p g ids t) in *.
  assert (Hq0 : pSlug q0 = fbSlug req) by done. rewrite Hq0 in Ht.
  assert (Hrev : ghPRRevision g = ghPRRevision g0).
  { unfold feedback_scope in Hsc. destruct (is_nil _); [|by inversion Hsc].
    destruct (fbBody req =? ""); by inversion Hsc. }
  assert (Hids : (∃ fm, ids = mapCommentsToRequirements (fbComments req) fm ∧ ids ≠ []) ∨ ids = active_requirements p).
  { unfold feedback_scope in Hsc. destruct (is_nil _) eqn:Hn; inversion Hsc; [by right|].
    left. eexists. split; [done|]. by apply is_nil_false in Hn. }
  assert (Hv : ∃ s, visible ws'.1 (fbSlug req) = Some (set_pStatus s q0) ∧
    s = if envAutoStart E then StatusImplementing else StatusReadyForExecution).
  { destruct (envAutoStart E); [destruct Ht as (_ & _ & Hv & _)|destruct Ht as [Hv _]]; eauto. }
  destruct Hv as (s & Hv & Hs).
  exists p, (set_pStatus s q0), g0,
    (set_ghLastProcessedReviewID (fbReviewID req) (set_ghPRRevision (ghPRRevision g + 1)%Z g)), ids, t.
  rewrite Hws'. split_and!; try done; [by rewrite Hs; destruct (envAutoStart E)|].
  simpl. by rewrite Hrev.
Qed.

Definition demo_reviewed : Plan :=
  set_pGitHub (Some (github_metadata (MkGitHubPlanCreationRequest 7 "" "r" "t" "" "" "" "" "")))
    (demo_decided StatusAwaitingReview []).
Definition demo_feedback : GitHubPRFeedbackRequest :=
  MkGitHubPRFeedbackRequest "demo" 12 34 "ann" "CHANGES_REQUESTED" "please" [] "".

Lemma pr_feedback_requeues_witness :
  let r := handleGitHubPRFeedbackMutation demo_env (Some demo_feedback) (world_with [demo_reviewed], demo_rows) in
  r.2 = None ∧ ∃ q, visible r.1.1 "demo" = Some q ∧ EffectiveStatus q = StatusImplementing.
Proof.
  intros r. assert (Hr : r.2 = None) by (by vm_compute). split; [exact Hr|].
  destruct (pr_feedback_requeues demo_env demo_feedback (world_with [demo_reviewed], demo_rows) r.1)
    as (p & q & g & g' & ids & t & _ & Hq & _ & Hs & _).
  - by apply demo_world_wf.
  - exact I.
  - exact (eq_trans (surjective_pairing r) (f_equal (pair r.1) Hr)).
  - exists q. split; [exact Hq|exact Hs].
Defined.
