(* ===== verification/DecisionHttp.v ===== *)
(** * The HTTP endpoints for plan decisions and retries

    processor/plan-manager/http_plan_decision.go and the retry endpoint of
    http.go.  A handler answers with a status code and, where the code writes
    one, a decision.  Unlike the mutation handlers these do not hold the lock
    of the slug between reading the plan and saving it, so each is split into
    the read and a body that works on the plan it was given: the theorems at
    the end say what holds when nothing runs in between, and what is lost
    when something does. *)

From stdpp Require Import pretty.
From S2P Require Import Prelude Graphs Status Paths Types Stories Cascade Assembly PlanStore Reviews Mutations Decisions GitHubPlans.

Local Open Scope string_scope.
Local Open Scope go_scope.

(** ** Requests *)

Record RejectionDetail := MkRejectionDetail { rjReason : string; rjRejectScenarios : bool }.

Record CreatePlanDecisionHTTPRequest := MkCreateDecisionHTTP {
  hcTitle : string;
  hcRationale : string;
  hcProposedBy : string;
  hcAffectedReqIDs : list string;
  hcRejections : gmap string RejectionDetail;
  hcAutoAccept : bool }.

Record UpdatePlanDecisionHTTPRequest := MkUpdateDecisionHTTP {
  huTitle : option string;
  huRationale : option string;
  huAffectedReqIDs : option (list string) }.

Record retryPlanRequest := MkRetryPlanRequest {
  rtScope : string;
  rtRequirementIDs : list string }.

(** A status code, and the decision in the body. *)
Record http_reply := MkHttpReply { hrCode : Z; hrDecision : option PlanDecision }.
Definition http_err (code : Z) : http_reply := MkHttpReply code None.
Definition http_ok (code : Z) (d : PlanDecision) : http_reply := MkHttpReply code (Some d).

(** The client was told no: a 4xx answer. *)
Definition hrefused (r : http_reply) : bool := bool_decide (400 ≤ hrCode r < 500)%Z.

(** ** Paths *)

(** What follows the first occurrence of [sub] in [s]. *)
Fixpoint after_first (sub s : string) : option string :=
  match cut_prefix sub s with
  | Some rest => Some rest
  | None => match s with "" => None | String _ s => after_first sub s end
  end.

Definition extractSlugPlanDecisionAndAction (path : string) : string * string * string :=
  match after_first "/plans/" path with
  | None => ("", "", "")
  | Some remainder =>
      match split_on (byte 47) (TrimSuffix remainder "/") with
      | slug :: kind :: proposalID :: rest =>
          if kind !=? "plan-decisions" then ("", "", "")
          else (slug, proposalID, match rest with action :: _ => action | [] => "" end)
      | _ => ("", "", "")
      end
  end.

(** ** Helpers *)

Definition PlanDecisionStatus_String (s : PlanDecisionStatus) : string :=
  match s with
  | PlanDecisionStatusProposed => "proposed"
  | PlanDecisionStatusUnderReview => "under_review"
  | PlanDecisionStatusAccepted => "accepted"
  | PlanDecisionStatusRejected => "rejected"
  | PlanDecisionStatusArchived => "archived"
  | PlanDecisionStatusOther raw => raw
  end.

Definition decision_id (slug : string) (n : nat) : string :=
  "plan-decision." +:+ slug +:+ "." +:+ pretty n.

Definition deprecateAffectedRequirements (plan : Plan) (ids : list string) (t : Z) : Plan * gset string :=
  let affected : gset string := list_to_set ids in
  (set_pRequirements ((λ r, if bool_decide (rID r ∈ affected)
     then set_rUpdatedAt t (set_rStatus RequirementStatusDeprecated r) else r) <$> pRequirements plan) plan,
   affected).

Definition deleteDeprecatedScenarios (plan : Plan) (affected : gset string) : Plan :=
  set_pScenarios (filter (λ s, scRequirementID s ∉ affected) (pScenarios plan)) plan.

Definition open_decision (d : PlanDecision) : bool :=
  (dStatus d =? PlanDecisionStatusProposed) || (dStatus d =? PlanDecisionStatusUnderReview).

Section endpoints.
Context (E : Env).

(** [plan, ok := c.plans.get(slug)], then the body. *)
Definition with_read (slug : string) (body : Plan → M http_reply) : M http_reply :=
  p ← get E slug;
  match p with
  | None => mret (http_err 404)
  | Some plan => body plan
  end.

(** Save, and answer [ok] or 500. *)
Definition save_http (plan : Plan) (ok : http_reply) : M http_reply :=
  err ← save E plan; mret (match err with Some _ => http_err 500 | None => ok end).

(** ** Reading *)

Definition handleListPlanDecisions (slug statusFilter : string) : M (option (list PlanDecision)) :=
  p ← get E slug;
  mret ((λ plan, if statusFilter =? "" then pPlanDecisions plan
                 else filter (λ d, PlanDecisionStatus_String (dStatus d) = statusFilter) (pPlanDecisions plan)) <$> p).

Definition handleGetPlanDecision (slug proposalID : string) : M http_reply :=
  with_read slug (λ plan,
    mret (match FindPlanDecision plan proposalID with
          | Some (_, d) => http_ok 200 d
          | None => http_err 404
          end)).

(** ** Creating *)

Definition new_decision (slug : string) (req : CreatePlanDecisionHTTPRequest) (plan : Plan) (t : Z) : PlanDecision :=
  {| dID := decision_id slug (S (length (pPlanDecisions plan))); dPlanID := envPlanEntityID E slug;
     dKind := PlanDecisionKindOther ""; dTitle := hcTitle req; dRationale := hcRationale req;
     dStatus := PlanDecisionStatusProposed;
     dProposedBy := if hcProposedBy req =? "" then "user" else hcProposedBy req;
     dAffectedReqIDs := hcAffectedReqIDs req; dAffectedStoryIDs := []; dRejectionReasons := ∅;
     dContractImpact := None; dArtifactReferences := []; dCreatedAt := t; dReviewedAt := None;
     dDecidedAt := None |}.

(** The proposal as accepted, with the reasons given. *)
Definition auto_accepted (req : CreatePlanDecisionHTTPRequest) (t : Z) (d : PlanDecision) : PlanDecision :=
  let d := accepted_at t d in
  if bool_decide (hcRejections req = ∅) then d else set_dRejectionReasons (rjReason <$> hcRejections req) d.

(** The plan with the proposal accepted, its requirements deprecated and
    their scenarios removed; also the proposal as the caller sees it. *)
Definition auto_accept_plan (req : CreatePlanDecisionHTTPRequest) (d : PlanDecision) (t t' : Z) (plan : Plan) :
    Plan * PlanDecision :=
  let '(plan, d) := match FindPlanDecision plan (dID d) with
                    | Some (i, x) => (set_decision i (auto_accepted req t x) plan, auto_accepted req t d)
                    | None => (plan, d)
                    end in
  let '(plan, affected) := deprecateAffectedRequirements plan (hcAffectedReqIDs req) t' in
  (deleteDeprecatedScenarios plan affected, d).

Definition autoAcceptPlanDecision (slug : string) (d : PlanDecision) (req : CreatePlanDecisionHTTPRequest) :
    M PlanDecision :=
  p ← get E slug;
  match p with
  | None => mret d
  | Some plan =>
      t ← now E;
      t' ← now E;
      let '(plan, d) := auto_accept_plan req d t t' plan in
      r ← setPlanStatusCached E plan StatusChanged;
      match r with
      | (_, None) => mret d
      | (plan, Some _) => save E plan;; mret d
      end
  end.

Definition create_body (slug : string) (req : CreatePlanDecisionHTTPRequest) (plan : Plan) : M http_reply :=
  if existsb (λ id, negb (bool_decide (is_Some (FindRequirement plan id)))) (hcAffectedReqIDs req)
  then mret (http_err 400) else
  t ← now E;
  let d := new_decision slug req plan t in
  err ← save E (set_pPlanDecisions (pPlanDecisions plan ++ [d])%list plan);
  match err with
  | Some _ => mret (http_err 500)
  | None =>
      if hcAutoAccept req && negb (is_nil (hcAffectedReqIDs req))
      then d ← autoAcceptPlanDecision slug d req; mret (http_ok 201 d)
      else mret (http_ok 201 d)
  end.

Definition handleCreatePlanDecision (slug : string) (data : option CreatePlanDecisionHTTPRequest) : M http_reply :=
  match data with
  | None => mret (http_err 400)
  | Some req => if hcTitle req =? "" then mret (http_err 400) else with_read slug (create_body slug req)
  end.

(** ** Editing *)

(** The body of a handler that looks the proposal up. *)
Definition with_proposal (proposalID : string) (plan : Plan) (k : nat → PlanDecision → M http_reply) :
    M http_reply :=
  match FindPlanDecision plan proposalID with
  | None => mret (http_err 404)
  | Some (i, d) => k i d
  end.

Definition edited (req : UpdatePlanDecisionHTTPRequest) (d : PlanDecision) : PlanDecision :=
  let d := match huTitle req with Some v => set_dTitle v d | None => d end in
  let d := match huRationale req with Some v => set_dRationale v d | None => d end in
  match huAffectedReqIDs req with Some v => set_dAffectedReqIDs v d | None => d end.

Definition update_body (proposalID : string) (req : UpdatePlanDecisionHTTPRequest) (plan : Plan) : M http_reply :=
  with_proposal proposalID plan (λ i d,
    if negb (open_decision d) then mret (http_err 409)
    else save_http (set_decision i (edited req d) plan) (http_ok 200 (edited req d))).

Definition handleUpdatePlanDecision (slug proposalID : string) (data : option UpdatePlanDecisionHTTPRequest) :
    M http_reply :=
  match data with
  | None => mret (http_err 400)
  | Some req => with_read slug (update_body proposalID req)
  end.

Definition delete_body (proposalID : string) (plan : Plan) : M http_reply :=
  with_proposal proposalID plan (λ i d,
    if dStatus d !=? PlanDecisionStatusProposed then mret (http_err 409)
    else save_http (set_pPlanDecisions (delete i (pPlanDecisions plan)) plan) (MkHttpReply 204 None)).

Definition handleDeletePlanDecision (slug proposalID : string) : M http_reply :=
  with_read slug (delete_body proposalID).

(** [handleSubmitPlanDecision] and [handleRejectPlanDecision] move the
    proposal along its own status machine. *)
Definition submit_body (proposalID : string) (plan : Plan) : M http_reply :=
  with_proposal proposalID plan (λ i d,
    if negb (PlanDecisionStatus_CanTransitionTo (dStatus d) PlanDecisionStatusUnderReview)
    then mret (http_err 409) else
    t ← now E;
    let d := set_dReviewedAt (Some t) (set_dStatus PlanDecisionStatusUnderReview d) in
    save_http (set_decision i d plan) (http_ok 200 d)).

Definition handleSubmitPlanDecision (slug proposalID : string) : M http_reply :=
  with_read slug (submit_body proposalID).

Definition reject_body (proposalID : string) (plan : Plan) : M http_reply :=
  with_proposal proposalID plan (λ i d,
    if negb (PlanDecisionStatus_CanTransitionTo (dStatus d) PlanDecisionStatusRejected)
    then mret (http_err 409) else
    t ← now E;
    let d := set_dDecidedAt (Some t) (set_dStatus PlanDecisionStatusRejected d) in
    save_http (set_decision i d plan) (http_ok 200 d)).

Definition handleRejectPlanDecision (slug proposalID : string) : M http_reply :=
  with_read slug (reject_body proposalID).
End endpoints.

(** ** Accepting and retrying *)

Definition InfraHealthCritical : string := "critical".

(** [readRetryPlanRequest]: a body that does not decode is the empty request. *)
Definition readRetryPlanRequest (data : option retryPlanRequest) : retryPlanRequest * bool :=
  let req := default (MkRetryPlanRequest "" []) data in
  let req := if rtScope req =? "" then MkRetryPlanRequest "failed" (rtRequirementIDs req) else req in
  (req, (rtScope req =? "failed") || (rtScope req =? "all") ||
        ((rtScope req =? "requirements") && negb (is_nil (rtRequirementIDs req)))).

Definition retry_eligible (s : Status) : bool :=
  match s with
  | StatusImplementing | StatusRejected | StatusComplete | StatusArchived | StatusAwaitingReview => true
  | _ => false
  end.

Section http_execs.
Context (E : Env) (hash : string → string → string) {S : Type} `{ExecPort S}.

Definition accept_code (r : option decision_error) : Z :=
  match r with
  | None => 202
  | Some DNotFound => 404
  | Some (DCannotAccept _) => 409
  | Some _ => 500
  end.

(** The checks on the proposal answer 409; the same checks repeated by the
    effects do not fail after them. *)
Definition handleAcceptPlanDecision (slug proposalID : string) : D S http_reply :=
  with_plan_d E slug (http_err 404) (λ plan,
    match FindPlanDecision plan proposalID with
    | Some (_, d) =>
        if bool_decide (is_Some (validatePlanDecisionAcceptContractImpact d)) then mret (http_err 409) else
        r ← accept_body E hash slug proposalID plan;
        mret (MkHttpReply (accept_code r.1) r.2)
    | None => mret (http_err 404)
    end).

(** The requirement of a row in a failed stage. *)
Definition failed_requirement (slug key : string) (e : exec_entry) : option string :=
  if negb (isFailedRetryStage (eeStage e)) then None else
  let id := if (eeRequirementID e =? "") && HasPrefix key ("req." +:+ slug +:+ ".")
            then TrimPrefix key ("req." +:+ slug +:+ ".") else eeRequirementID e in
  if id =? "" then None else Some id.

Fixpoint failed_ids (slug : string) (keys : list string) (seen : gset string) : D S (gset string) :=
  match keys with
  | [] => mret seen
  | key :: keys =>
      if HasPrefix key ("req." +:+ slug +:+ ".") || HasPrefix key ("task." +:+ slug +:+ ".") then
        entry ← in_execs (px_entry key);
        failed_ids slug keys
          (match entry ≫= failed_requirement slug key with Some id => {[id]} ∪ seen | None => seen end)
      else failed_ids slug keys seen
  end.

Definition failedRequirementIDsFromExecutions (slug : string) : D S (list string) :=
  listing ← in_execs px_keys;
  match listing with
  | Keys keys => seen ← failed_ids slug keys ∅; mret (sorted_elements seen)
  | NoBucket | NoKeysFound | KeysErr => mret []
  end.

Definition requirementIDsForRetryScope (plan : Plan) (scope : string) (ids : list string) : D S (list string) :=
  if scope =? "all" then mret (sort_strings (filter (λ id, id ≠ "") (rID <$> pRequirements plan)))
  else if scope =? "requirements" then mret (uniqueSortedStrings ids)
  else if scope =? "failed" then failedRequirementIDsFromExecutions (pSlug plan)
  else mret [].

(** The end of a retry, on the plan whose stories are reset. *)
Definition finish_retry (plan : Plan) (storyResets : Z) (ids : list string) (implementing : bool) : M Z :=
  if implementing then
    err ← (if (0 <? storyResets)%Z then save E plan else mret None);
    match err with
    | Some _ => mret 500%Z
    | None =>
        published ← publishScenarioOrchestrator E plan [];
        mret (if published : bool then 200%Z else 500%Z)
    end
  else
    err ← transitionToReadyForExecution E plan ids;
    mret (match err with Some _ => 500%Z | None => 200%Z end).

Definition retry_body (slug : string) (req : retryPlanRequest) (plan : Plan) : D S Z :=
  if negb (retry_eligible (EffectiveStatus plan)) then mret 409%Z else
  if pInfraHealth plan =? InfraHealthCritical then mret 409%Z else
  ids ← requirementIDsForRetryScope plan (rtScope req) (rtRequirementIDs req);
  reset ← resetRequirementExecutions slug (rtScope req) (rtRequirementIDs req);
  match reset with
  | inr _ => mret 500%Z
  | inl _ =>
      t ← dnow E;
      let '(plan', n) := resetStoriesForRetry plan ids t in
      in_plans (finish_retry plan' n ids (EffectiveStatus plan =? StatusImplementing))
  end.

(** [loadPlanCached]: a plan neither the cache nor the bucket shows is looked
    for among the plans decoded from the graph, and put back into the store. *)
Definition loadPlanCached (graph : nat → option (list Plan)) (slug : string) : M (Plan + Z) :=
  p ← get E slug;
  match p with
  | Some plan => mret (inl plan)
  | None =>
      w ← read;
      match graph (wTick w) with
      | None => mret (inr 500%Z)
      | Some plans =>
          match list_find (λ q, pSlug q = slug) plans with
          | None => mret (inr 404%Z)
          | Some (_, plan) => save E plan;; mret (inl plan)
          end
      end
  end.

Definition handleRetryPlan (graph : nat → option (list Plan)) (slug : string)
    (data : option retryPlanRequest) : D S Z :=
  let '(req, ok) := readRetryPlanRequest data in
  if negb ok then mret 400%Z else
  p ← in_plans (loadPlanCached graph slug);
  match p with
  | inr code => mret code
  | inl plan => retry_body slug req plan
  end.
End http_execs.

(** ** Routing *)

Inductive method := GET | POST | PATCH | DELETE | OtherMethod.

Definition method_eq (a b : method) : bool :=
  match a, b with
  | GET, GET | POST, POST | PATCH, PATCH | DELETE, DELETE | OtherMethod, OtherMethod => true
  | _, _ => false
  end.

(** The endpoint of a request on one decision, [None] for 405 and 404. *)
Inductive decision_endpoint := EpGet | EpUpdate | EpDelete | EpSubmit | EpAccept | EpReject.

Definition handlePlanDecisionByID (m : method) (action : string) : decision_endpoint + Z :=
  if action =? "" then
    match m with
    | GET => inl EpGet | PATCH => inl EpUpdate | DELETE => inl EpDelete | _ => inr 405%Z
    end
  else if action =? "submit" then if method_eq m POST then inl EpSubmit else inr 405%Z
  else if action =? "accept" then if method_eq m POST then inl EpAccept else inr 405%Z
  else if action =? "reject" then if method_eq m POST then inl EpReject else inr 405%Z
  else inr 404%Z.

(** ** Lemmas: what the endpoints store *)

Section http_lemmas.
Context (E : Env).

Definition hbody_ok (plan : Plan) (m : M http_reply) : Prop :=
  writes (tracks plan) m ∧ ∀ w, hrefused (m w).2 = true → untouched w (m w).1.

Lemma hbody_ret plan r : hbody_ok plan (mret r).
Proof. split; [apply writes_ret|by intros]. Qed.

Lemma hbody_now plan f : (∀ t, hbody_ok plan (f t)) → hbody_ok plan (now E ≫= f).
Proof.
  intros Hf. split.
  - apply writes_bind; [apply looks_writes, looks_now|]. intros t. apply Hf.
  - intros w. rewrite now_bind. intros Hr. by apply (proj2 (Hf _)) in Hr.
Qed.

Lemma hbody_save plan q ok : tracks plan q → hrefused ok = false → hbody_ok plan (save_http E q ok).
Proof.
  intros Hq Hok. split.
  - apply writes_bind; [by apply writes_save|intros; apply writes_ret].
  - intros w. unfold save_http, mbind, M_bind, mret, M_ret.
    destruct (save E q w) as [w' [e|]]; simpl; [done|]. by rewrite Hok.
Qed.

Lemma hbody_proposal plan id k :
  (∀ i d, pPlanDecisions plan !! i = Some d → hbody_ok plan (k i d)) → hbody_ok plan (with_proposal id plan k).
Proof.
  intros Hk. unfold with_proposal. destruct (FindPlanDecision plan id) as [[i d]|] eqn:Hf; [|apply hbody_ret].
  apply decision_at in Hf as [Hi _]. by apply Hk.
Qed.

Lemma with_read_ok slug body w :
  (∀ plan, pSlug plan = slug → hbody_ok plan (body plan)) → store_wf w →
  let r := with_read E slug body w in handler_ok (Some slug) w r.1 (hrefused r.2).
Proof.
  intros Hb Hwf. unfold with_read, mbind, M_bind.
  destruct (get E slug w) as [w1 [plan|]] eqn:Eg; [|by apply (unserved_ok E)].
  destruct (get_cases _ _ _ _ _ Hwf Eg) as (_ & _ & Hr).
  destruct (Hb plan (visible_slug _ _ _ Hwf Hr)) as [Hw Hq].
  apply (served_ok E slug plan w w1); [done|done|apply Hw|apply Hq].
Qed.

Lemma edited_status req d : dStatus (edited req d) = dStatus d ∧ dID (edited req d) = dID d.
Proof. unfold edited. by repeat case_match. Qed.

Lemma open_not_accepted d : open_decision d = true → dStatus d ≠ PlanDecisionStatusAccepted.
Proof. unfold open_decision. intros H Hd. by rewrite Hd in H. Qed.

Lemma update_ok id req plan : hbody_ok plan (update_body E id req plan).
Proof.
  apply hbody_proposal. intros i d Hi. case_match eqn:Ho; [apply hbody_ret|]. apply negb_false_iff in Ho.
  apply hbody_save; [|done]. eapply tracks_set; [done|by apply open_not_accepted].
Qed.

Lemma settled_delete plan i d : pPlanDecisions plan !! i = Some d → dStatus d ≠ PlanDecisionStatusAccepted →
  settled plan `sublist_of` settled (set_pPlanDecisions (delete i (pPlanDecisions plan)) plan).
Proof.
  intros Hi Hd. unfold settled. simpl. rewrite delete_take_drop.
  rewrite <- (take_drop_middle _ _ _ Hi) at 1. rewrite !filter_app, !fmap_app, filter_cons.
  by rewrite (decide_False (P := dStatus d = _)).
Qed.

Lemma delete_ok id plan : hbody_ok plan (delete_body E id plan).
Proof.
  apply hbody_proposal. intros i d Hi. case_match eqn:Ho; [apply hbody_ret|]. apply negb_false_iff in Ho.
  apply (proj1 (eqb_true _ _)) in Ho. apply hbody_save; [|done].
  apply tracks_same; [done..|]. apply (settled_delete plan i d); [done|by rewrite Ho].
Qed.

Lemma submit_ok id plan : hbody_ok plan (submit_body E id plan).
Proof.
  apply hbody_proposal. intros i d Hi. case_match eqn:Ho; [apply hbody_ret|]. apply negb_false_iff in Ho.
  apply hbody_now. intros t. apply hbody_save; [|done]. eapply tracks_set; [done|].
  intros Hd. by rewrite Hd in Ho.
Qed.

Lemma reject_ok id plan : hbody_ok plan (reject_body E id plan).
Proof.
  apply hbody_proposal. intros i d Hi. case_match eqn:Ho; [apply hbody_ret|]. apply negb_false_iff in Ho.
  apply hbody_now. intros t. apply hbody_save; [|done]. eapply tracks_set; [done|].
  intros Hd. by rewrite Hd in Ho.
Qed.

(** Accepting a decision withdraws none, whatever its status was. *)
Lemma settled_accept plan i d d' : pPlanDecisions plan !! i = Some d →
  dStatus d' = PlanDecisionStatusAccepted → dID d' = dID d → dKind d' = dKind d →
  settled plan `sublist_of` settled (set_decision i d' plan).
Proof.
  intros Hi Hd Hid Hk. unfold settled, set_decision. simpl.
  rewrite (insert_take_drop _ _ _ (lookup_lt_Some _ _ _ Hi)).
  rewrite <- (take_drop_middle _ _ _ Hi) at 1. rewrite !filter_app, !fmap_app, !filter_cons.
  rewrite (decide_True (P := dStatus d' = _)) by done. apply sublist_app; [done|].
  case_decide; simpl; [by rewrite Hid, Hk|by apply sublist_cons].
Qed.

Lemma auto_accept_tracks req d t t' plan : let q := (auto_accept_plan req d t t' plan).1 in
  pSlug q = pSlug plan ∧ EffectiveStatus q = EffectiveStatus plan ∧
  pReviewIteration q = pReviewIteration plan ∧ settled plan `sublist_of` settled q.
Proof.
  unfold auto_accept_plan. destruct (FindPlanDecision plan (dID d)) as [[i x]|] eqn:Hf; simpl; [|done].
  apply decision_at in Hf as [Hi _]. split_and!; [done..|].
  apply (settled_accept plan i x); [done|..]; unfold auto_accepted; by case_match.
Qed.

Lemma writes_auto slug plan0 q d req w : wCache w !! slug = Some q → tracks plan0 q →
  evolves (tracks plan0) w (autoAcceptPlanDecision E slug d req w).1.
Proof.
  intros Hc Hq. unfold autoAcceptPlanDecision. unfold mbind at 1, M_bind at 1.
  rewrite (get_cached E slug w q Hc). rewrite !now_bind.
  set (t := ioNow _). set (t' := ioNow _).
  destruct (auto_accept_tracks req d t t' q) as (H1 & H2 & H3 & H4).
  destruct (auto_accept_plan req d t t' q) as [q1 d1]. simpl in *.
  assert (Hq1 : tracks plan0 q1) by (eapply tracks_trans; [done|by apply tracks_same]).
  apply evolves_trans with (ticked (ticked (ticked w))); [by apply evolves_same|].
  apply (writes_setStatus_bind E plan0 q1); [done|]. intros q2 [e|] Hq2; [|apply writes_ret].
  apply writes_bind; [by apply writes_save|intros; apply writes_ret].
Qed.

Lemma create_http_ok slug req plan : pSlug plan = slug → hbody_ok plan (create_body E slug req plan).
Proof.
  intros Hs. unfold create_body. case_match; [apply hbody_ret|]. apply hbody_now. intros t.
  set (q := set_pPlanDecisions _ plan).
  assert (Hq : tracks plan q) by (apply tracks_same; [done..|]; by eapply settled_app). split.
  - intros w. unfold mbind, M_bind. pose proof (writes_save E (tracks plan) q Hq w) as Hw.
    destruct (save E q w) as [w1 [e|]] eqn:Es; [done|]. simpl in Hw.
    apply save_None in Es as (Hc & _). eapply evolves_trans; [done|].
    case_match; [|apply evolves_refl]. unfold mbind, M_bind.
    replace (pSlug q) with slug in Hc by done.
    pose proof (writes_auto slug plan q (new_decision E slug req plan t) req w1 Hc Hq) as Ha.
    by destruct (autoAcceptPlanDecision _ _ _ _ w1).
  - intros w. unfold mbind, M_bind. destruct (save E q w) as [w1 [e|]]; [done|].
    case_match; [|done]. unfold mbind, M_bind. by destruct (autoAcceptPlanDecision _ _ _ _ w1).
Qed.
End http_lemmas.

(** ** Every request that touches a decision *)

Inductive decision_request :=
| RqAccept (data : option planDecisionAcceptRequest)
| RqAdd (data : option planDecisionAddRequest)
| RqFeedback (data : option GitHubPRFeedbackRequest)
| RqMetadata (data : option prMetadataRequest)
| RqHttpCreate (slug : string) (data : option CreatePlanDecisionHTTPRequest)
| RqHttpUpdate (slug id : string) (data : option UpdatePlanDecisionHTTPRequest)
| RqHttpDelete (slug id : string)
| RqHttpSubmit (slug id : string)
| RqHttpReject (slug id : string)
| RqHttpAccept (slug id : string).

Definition request_slug (r : decision_request) : option string :=
  match r with
  | RqAccept d => dqSlug <$> d
  | RqAdd d => daSlug <$> d
  | RqFeedback d => fbSlug <$> d
  | RqMetadata d => pmSlug <$> d
  | RqHttpCreate slug _ | RqHttpUpdate slug _ _ | RqHttpDelete slug _ | RqHttpSubmit slug _
  | RqHttpReject slug _ | RqHttpAccept slug _ => Some slug
  end.

Section serve.
Context (E : Env) (hash : string → string → string) {S : Type} `{ExecPort S}.

(** The request served alone; the answer is whether it was refused.  This is
    one step, from the read of the plan to its save, which only the mutation
    handlers enforce: they hold the lock of the slug.  The HTTP handlers do not,
    and what another request does between their read and their save is lost
    ([unlocked_edit_reverts_accept] below). *)
Definition serve (r : decision_request) : D S bool :=
  match r with
  | RqAccept d => drefused <$> handlePlanDecisionAcceptMutation E hash d
  | RqAdd d => drefused <$> in_plans (handlePlanDecisionAddMutation E d)
  | RqFeedback d => drefused <$> handleGitHubPRFeedbackMutation E d
  | RqMetadata d => drefused <$> in_plans (handleGitHubPRMetadataMutation E d)
  | RqHttpCreate slug d => hrefused <$> in_plans (handleCreatePlanDecision E slug d)
  | RqHttpUpdate slug id d => hrefused <$> in_plans (handleUpdatePlanDecision E slug id d)
  | RqHttpDelete slug id => hrefused <$> in_plans (handleDeletePlanDecision E slug id)
  | RqHttpSubmit slug id => hrefused <$> in_plans (handleSubmitPlanDecision E slug id)
  | RqHttpReject slug id => hrefused <$> in_plans (handleRejectPlanDecision E slug id)
  | RqHttpAccept slug id => hrefused <$> handleAcceptPlanDecision E hash slug id
  end.

Lemma http_accept_ok slug id ws : store_wf ws.1 →
  let r := handleAcceptPlanDecision E hash slug id ws in
  handler_ok (Some slug) ws.1 r.1.1 (hrefused r.2).
Proof.
  intros Hwf. unfold handleAcceptPlanDecision, with_plan_d. rewrite dbind_eq. unfold in_plans.
  destruct (get E slug ws.1) as [w1 [plan|]] eqn:Eg; simpl; [|by apply (unserved_ok E)].
  destruct (accept_body_ok E hash slug id plan) as [Hw Hr].
  assert (Hstop : handler_ok (Some slug) ws.1 w1 true).
  { apply (served_ok E slug plan ws.1 w1); [done|done|apply evolves_refl|intros _; apply untouched_refl]. }
  destruct (FindPlanDecision plan id) as [[i d]|]; [|exact Hstop].
  case_bool_decide; [exact Hstop|]. rewrite dbind_eq. simpl.
  apply (served_ok E slug plan ws.1 w1); [done|done|apply (Hw (w1, ws.2))|].
  intros Hno. apply (Hr (w1, ws.2)). revert Hno. unfold hrefused. simpl.
  destruct (accept_body E hash slug id plan (w1, ws.2)).2.1 as [e|]; simpl; [|done].
  by destruct e.
Qed.

Lemma serve_ok r ws : store_wf ws.1 →
  handler_ok (request_slug r) ws.1 (serve r ws).1.1 (serve r ws).2.
Proof.
  intros Hwf. destruct r as [d|d|d|d|slug d|slug id d|slug id|slug id|slug id|slug id]; simpl request_slug;
    unfold serve; rewrite dfmap_eq; cbn [fst snd]; rewrite ?in_plans_eq; cbn [fst snd].
  - by apply accept_ok.
  - by apply add_ok.
  - by apply feedback_ok.
  - by apply metadata_ok.
  - destruct d as [req|]; simpl; [|by apply still_ok]. case_match; [by apply still_ok|].
    apply with_read_ok; [|done]. intros plan Hp. by apply create_http_ok.
  - destruct d as [req|]; simpl; [|by apply still_ok]. apply with_read_ok; [|done]. intros. apply update_ok.
  - apply with_read_ok; [|done]. intros. apply delete_ok.
  - apply with_read_ok; [|done]. intros. apply submit_ok.
  - apply with_read_ok; [|done]. intros. apply reject_ok.
  - by apply http_accept_ok.
Qed.
End serve.

(** C23: A request on plan decisions, by mutation, GitHub or HTTP, when no other
    request on the plan is served at the same time: a plan changes only along
    the status machine and only under the slug of the request, no accepted
    decision is withdrawn, and a refused request leaves every plan, the bucket
    of plans and the messages of the plan manager as they were.  Nothing is said
    of the executions, which a request that is refused later may already have
    reset; and the HTTP handlers do not take the lock that would keep others
    away ([unlocked_edit_reverts_accept]). *)
Theorem decision_requests_sound {S} `{ExecPort S} E hash r (ws ws' : World * S) no :
  store_wf ws.1 → serve E hash r ws = (ws', no) →
  store_wf ws'.1 ∧
  (∀ s, Some s ≠ request_slug r → visible ws'.1 s = visible ws.1 s) ∧
  (∀ s, visible ws'.1 s = visible ws.1 s ∨
     ∃ p q, visible ws.1 s = Some p ∧ visible ws'.1 s = Some q ∧
       rtc plan_step (EffectiveStatus p) (EffectiveStatus q) ∧ settled p `sublist_of` settled q) ∧
  (no = true → (∀ s, visible ws'.1 s = visible ws.1 s) ∧ wKV ws'.1 = wKV ws.1 ∧ wOut ws'.1 = wOut ws.1).
Proof.
  intros Hwf Hr. pose proof (serve_ok E hash r ws Hwf) as [Hwf' Ho Hs _ Hn]. rewrite Hr in *. simpl in *.
  split_and!; [done|done| |].
  - intros s. destruct (Hs s) as [?|(p & q & ? & ? & [_ ? _ ?])]; [by left|]. right. eauto 10.
  - intros Hno. by destruct (Hn Hno) as (? & ? & ? & _).
Qed.

Lemma decision_requests_sound_witness :
  let r := serve demo_env demo_hash (RqHttpReject "demo" "d1") revise_world in
  r.2 = true ∧ ∀ s, visible r.1.1 s = visible revise_world.1 s.
Proof.
  intros r. assert (Hr : r.2 = true) by (by vm_compute). split; [exact Hr|].
  destruct (decision_requests_sound demo_env demo_hash (RqHttpReject "demo" "d1") revise_world r.1 true)
    as (_ & _ & _ & Hn).
  - by apply demo_world_wf.
  - exact (eq_trans (surjective_pairing r) (f_equal (pair r.1) Hr)).
  - exact (proj1 (Hn eq_refl)).
Defined.

(** ** Identifiers *)

Lemma with_read_inv E slug body w w' r : store_wf w → with_read E slug body w = (w', r) → hrCode r ≠ 404%Z →
  ∃ p w1, visible w slug = Some p ∧ pSlug p = slug ∧ body p w1 = (w', r).
Proof.
  intros Hwf. unfold with_read, mbind, M_bind. destruct (get E slug w) as [w1 [p|]] eqn:Eg; [|by intros [= <- <-]].
  destruct (get_cases _ _ _ _ _ Hwf Eg) as (_ & _ & Hp). intros H _. exists p, w1. split_and!; [done| |done].
  by apply (visible_slug w).
Qed.

Lemma save_http_ok E q ok w w' r : save_http E q ok w = (w', r) → hrCode r ≠ 500%Z →
  r = ok ∧ visible w' (pSlug q) = Some q.
Proof.
  unfold save_http, mbind, M_bind, mret, M_ret. destruct (save E q w) as [w1 [e|]] eqn:Es; intros [= <- <-]; [done|].
  intros _. by apply save_None in Es as (_ & Hv & _).
Qed.

Lemma delete_http E slug id w w' r p : store_wf w → visible w slug = Some p →
  handleDeletePlanDecision E slug id w = (w', r) → hrCode r = 204%Z →
  ∃ i d, FindPlanDecision p id = Some (i, d) ∧ dStatus d = PlanDecisionStatusProposed ∧
    visible w' slug = Some (set_pPlanDecisions (delete i (pPlanDecisions p)) p).
Proof.
  intros Hwf Hp Hd Hc. unfold handleDeletePlanDecision in Hd.
  destruct (with_read_inv _ _ _ _ _ _ Hwf Hd) as (p' & w1 & Hp' & Hs & Hb); [by rewrite Hc|].
  rewrite Hp in Hp'. injection Hp' as <-. unfold delete_body, with_proposal in Hb.
  destruct (FindPlanDecision p id) as [[i d]|]; [|by inversion Hb; subst].
  destruct (dStatus d !=? PlanDecisionStatusProposed) eqn:Ho; [by inversion Hb; subst|].
  apply negb_false_iff, (proj1 (eqb_true _ _)) in Ho.
  apply save_http_ok in Hb as [_ Hv]; [|by rewrite Hc]. exists i, d. simpl in Hv. by rewrite Hs in Hv.
Qed.

Lemma create_http E slug req w w' r p : store_wf w → visible w slug = Some p →
  handleCreatePlanDecision E slug (Some req) w = (w', r) → hrCode r = 201%Z → hcAutoAccept req = false →
  ∃ t, hrDecision r = Some (new_decision E slug req p t) ∧
    visible w' slug = Some (set_pPlanDecisions (pPlanDecisions p ++ [new_decision E slug req p t])%list p).
Proof.
  intros Hwf Hp Hd Hc Ha. unfold handleCreatePlanDecision in Hd. destruct (hcTitle req =? ""); [by inversion Hd; subst|].
  destruct (with_read_inv _ _ _ _ _ _ Hwf Hd) as (p' & w1 & Hp' & Hs & Hb); [by rewrite Hc|].
  rewrite Hp in Hp'. injection Hp' as <-. unfold create_body in Hb. destruct (existsb _ _); [by inversion Hb; subst|].
  rewrite now_bind in Hb. unfold mbind, M_bind in Hb.
  set (t := ioNow _) in Hb. set (q := set_pPlanDecisions _ p) in Hb.
  destruct (save E q _) as [w2 [e|]] eqn:Es; [by inversion Hb; subst|]. rewrite Ha in Hb. simpl in Hb.
  apply save_None in Es as (_ & Hv & _). simpl in Hv. rewrite Hs in Hv. inversion Hb. subst. by exists t.
Qed.

(** Identifiers of decisions created over HTTP are not unique: when any
    decision but the last one created is deleted, the next create gives out
    the identifier of the last one again, and every lookup by that identifier
    finds the older decision. *)
Theorem delete_then_create_collides E E' slug id req w w1 w2 r1 r2 p d :
  store_wf w → visible w slug = Some p →
  last (pPlanDecisions p) = Some d → dID d = decision_id slug (length (pPlanDecisions p)) → id ≠ dID d →
  handleDeletePlanDecision E slug id w = (w1, r1) → hrCode r1 = 204%Z →
  handleCreatePlanDecision E' slug (Some req) w1 = (w2, r2) → hrCode r2 = 201%Z → hcAutoAccept req = false →
  ∃ q d', hrDecision r2 = Some d' ∧ dID d' = dID d ∧
    visible w2 slug = Some q ∧ last (pPlanDecisions q) = Some d' ∧
    ∃ j x, FindPlanDecision q (dID d') = Some (j, x) ∧ (S j < length (pPlanDecisions q))%nat.
Proof.
  intros Hwf Hp Hlast Hid Hne Hdel H204 Hcr H201 Ha.
  destruct (delete_http E slug id w w1 r1 p Hwf Hp Hdel H204) as (i & x & Hf & _ & Hv1).
  assert (Hwf1 : store_wf w1).
  { change w1 with (w1, r1).1. rewrite <- Hdel. apply (ho_wf (Some slug) w _ (hrefused (handleDeletePlanDecision E slug id w).2)).
    apply with_read_ok; [|done]. intros. apply delete_ok. }
  destruct (create_http E' slug req w1 w2 r2 _ Hwf1 Hv1 Hcr H201 Ha) as (t & Hr2 & Hv2).
  apply decision_at in Hf as [Hi Hx]. set (ds := pPlanDecisions p) in *. simpl in Hv2, Hr2.
  assert (Hlen : (i < length ds)%nat) by (by eapply lookup_lt_Some).
  rewrite last_lookup in Hlast.
  assert (Hil : i ≠ pred (length ds)) by (intros ->; rewrite Hi in Hlast; congruence).
  set (d' := new_decision E' slug req _ t) in *.
  assert (Hd' : dID d' = dID d).
  { rewrite Hid. unfold d', new_decision. simpl. f_equal. rewrite length_delete by (by eexists). lia. }
  assert (Hin : delete i ds !! (length ds - 2)%nat = Some d).
  { rewrite list_lookup_delete_ge by lia. rewrite <- Hlast. f_equal. lia. }
  exists (set_pPlanDecisions (delete i ds ++ [d'])%list (set_pPlanDecisions (delete i ds) p)), d'.
  split_and!; [done|done|done|simpl; by rewrite last_snoc|]. simpl.
  unfold FindPlanDecision, find_by. simpl.
  destruct (list_find (λ y, dID y = dID d') (delete i ds)) as [[j y]|] eqn:Hfind.
  - exists j, y. split; [by apply list_find_app_l|]. apply list_find_Some in Hfind as (Hj & _).
    apply lookup_lt_Some in Hj. rewrite length_app. simpl. lia.
  - exfalso. apply list_find_None in Hfind. rewrite Forall_forall in Hfind.
    apply (Hfind d); [by eapply list_elem_of_lookup_2|done].
Qed.

Definition http_decision (n : nat) : PlanDecision :=
  set_dID (decision_id "demo" n) (demo_decision "" PlanDecisionKindRequirementChange []).
Definition http_create : CreatePlanDecisionHTTPRequest := MkCreateDecisionHTTP "another" "" "" [] ∅ false.

Lemma delete_then_create_collides_witness :
  let p := demo_decided StatusImplementing [http_decision 1; http_decision 2] in
  let r1 := handleDeletePlanDecision demo_env "demo" (decision_id "demo" 1) (world_with [p]) in
  let r2 := handleCreatePlanDecision demo_env "demo" (Some http_create) r1.1 in
  ∃ q d', hrDecision r2.2 = Some d' ∧ dID d' = decision_id "demo" 2 ∧ visible r2.1 "demo" = Some q ∧
    length (pPlanDecisions q) = 2%nat.
Proof.
  intros p r1 r2.
  destruct (delete_then_create_collides demo_env demo_env "demo" (decision_id "demo" 1) http_create
    (world_with [p]) r1.1 r2.1 r1.2 r2.2 p (http_decision 2)) as (q & d' & H1 & H2 & H3 & _).
  - by apply demo_world_wf.
  - by vm_compute.
  - done.
  - done.
  - intros Heq. vm_compute in Heq. discriminate Heq.
  - exact (surjective_pairing r1).
  - by vm_compute.
  - exact (surjective_pairing r2).
  - by vm_compute.
  - done.
  - exists q, d'. split; [exact H1|]. split; [exact H2|]. split; [exact H3|].
    assert (Hv : (length ∘ pPlanDecisions) <$> visible r2.1 "demo" = Some 2%nat) by (by vm_compute).
    rewrite H3 in Hv. injection Hv as Hv. exact Hv.
Defined.

(** ** Without the lock *)

(** The HTTP handlers do not hold the slug's lock: when a decision is
    accepted between the read and the save of an edit, the edit puts the plan
    it had read back, and the decision is open again although its effects on
    the executions have happened. *)
Theorem unlocked_edit_reverts_accept {S} `{ExecPort S} E E' hash req id edit (ws ws' : World * S) p i d w3 r :
  store_wf ws.1 → visible ws.1 (dqSlug req) = Some p →
  FindPlanDecision p (dqProposalID req) = Some (i, d) →
  handlePlanDecisionAcceptMutation E hash (Some req) ws = (ws', None) →
  update_body E' id edit p ws'.1 = (w3, r) → hrCode r = 200%Z →
  (∃ q x, visible ws'.1 (dqSlug req) = Some q ∧ pPlanDecisions q !! i = Some x ∧
     dStatus x = PlanDecisionStatusAccepted) ∧
  ∃ q x, visible w3 (dqSlug req) = Some q ∧ pPlanDecisions q !! i = Some x ∧
    dID x = dqProposalID req ∧ open_decision x = true.
Proof.
  intros Hwf Hp Hd Hacc Hup H200.
  destruct (accept_success E hash req ws ws' Hwf Hacc)
    as (p' & i' & d' & t & w1 & ws1 & q & w2 & w3' & Hp' & Hslug & Hd' & Hopen & He & Hsave & Hretry & ->).
  rewrite Hp in Hp'. injection Hp' as <-. rewrite Hd in Hd'. injection Hd' as <- <-.
  pose proof (effects_later E hash (set_decision i (accepted_at t d) p) (accepted_at t d) (dqSlug req))
    as [_ Hl]. specialize (Hl (w1, ws.2)). rewrite He in Hl. destruct Hl as [Ht Hds].
  assert (Hqs : pSlug q = dqSlug req) by (rewrite (tracks_slug _ _ Ht); simpl; done).
  apply save_None in Hsave as (_ & Hv & _).
  destruct (retry_decisions E q (accepted_at t d) w2 w3' Hv Hretry) as (q' & Hv' & Hds').
  pose proof (decision_at _ _ _ _ Hd) as [Hi Hid]. split.
  - exists q', (accepted_at t d). simpl. rewrite cascade_visible, <- Hqs. split_and!; [done| |done].
    rewrite Hds', Hds. simpl. apply list_lookup_insert_eq. by eapply lookup_lt_Some.
  - unfold update_body, with_proposal in Hup.
    destruct (FindPlanDecision p id) as [[k e]|] eqn:Hk; [|by inversion Hup; subst].
    destruct (negb (open_decision e)) eqn:Ho; [by inversion Hup; subst|]. apply negb_false_iff in Ho.
    apply save_http_ok in Hup as [_ Hv3]; [|by rewrite H200]. simpl in Hv3. rewrite Hslug in Hv3.
    apply decision_at in Hk as [Hk _]. destruct (decide (k = i)) as [->|Hne].
    + exists (set_decision i (edited edit e) p), (edited edit e). rewrite Hi in Hk. injection Hk as ->.
      destruct (edited_status edit e) as [Hst Hid']. split_and!; [done| |congruence|].
      * simpl. apply list_lookup_insert_eq. by eapply lookup_lt_Some.
      * unfold open_decision. by rewrite Hst.
    + exists (set_decision k (edited edit e) p), d. split_and!; [done| |done|].
      * simpl. by rewrite list_lookup_insert_ne.
      * unfold open_decision. by apply can_accept in Hopen as [-> | ->].
Qed.

Definition retitle : UpdatePlanDecisionHTTPRequest := MkUpdateDecisionHTTP (Some "new title") None None.

Lemma unlocked_edit_reverts_accept_witness :
  let p := demo_decided StatusRejected [demo_decision "d1" PlanDecisionKindScopeIncomplete ["r1"]] in
  let a := handlePlanDecisionAcceptMutation demo_env demo_hash (Some demo_accept) scope_world in
  let u := update_body demo_env "d1" retitle p a.1.1 in
  hrCode u.2 = 200%Z ∧ (("demo", "r1") ∉ a.1.2) ∧
  ∃ q x, visible u.1 "demo" = Some q ∧ pPlanDecisions q !! 0%nat = Some x ∧ open_decision x = true.
Proof.
  intros p a u. assert (Ha : a.2 = None) by (by vm_compute). assert (Hu : hrCode u.2 = 200%Z) by (by vm_compute).
  split; [exact Hu|]. split; [apply (bool_decide_unpack _); by vm_compute|].
  destruct (unlocked_edit_reverts_accept demo_env demo_env demo_hash demo_accept "d1" retitle scope_world a.1 p 0
    (demo_decision "d1" PlanDecisionKindScopeIncomplete ["r1"]) u.1 u.2) as [_ (q & x & H1 & H2 & _ & H3)].
  - by apply demo_world_wf.
  - by vm_compute.
  - by vm_compute.
  - exact (eq_trans (surjective_pairing a) (f_equal (pair a.1) Ha)).
  - exact (surjective_pairing u).
  - exact Hu.
  - exists q, x. split; [exact H1|]. split; [exact H2|exact H3].
Defined.

(** ** Retry *)

Lemma load_cached E graph slug w p : wCache w !! slug = Some p →
  loadPlanCached E graph slug w = (ticked w, inl p).
Proof. intros Hc. unfold loadPlanCached, mbind, M_bind. by rewrite (get_cached E slug w p Hc). Qed.

(** How a retry of a plan ends: refused before anything happens, or past the
    reset, when its answer is 200 only if the reset succeeded. *)
Lemma retry_codes {S} `{ExecPort S} E slug req plan (ws : World * S) :
  let r := retry_body E slug req plan ws in
  let gate := retry_eligible (EffectiveStatus plan) = false ∨ pInfraHealth plan = InfraHealthCritical in
  (gate ∧ r.2 = 409%Z ∧ r.1 = ws) ∨
  (¬ gate ∧ (r.2 = 200%Z ∨ r.2 = 500%Z) ∧
   (r.2 = 200%Z → rtScope req = "requirements" →
    ∃ ws1 n, resetRequirementExecutions slug "requirements" (rtRequirementIDs req) ws = (ws1, inl n) ∧
      r.1.2 = ws1.2)).
Proof.
  unfold retry_body. destruct (retry_eligible (EffectiveStatus plan)); simpl; [|by auto].
  destruct (pInfraHealth plan =? InfraHealthCritical) eqn:Hh; simpl; breflect; [by auto|right].
  split; [by intros [?|?]|]. rewrite !dbind_eq.
  set (ids := (requirementIDsForRetryScope plan (rtScope req) (rtRequirementIDs req) ws).2).
  set (ws0 := (requirementIDsForRetryScope plan (rtScope req) (rtRequirementIDs req) ws).1).
  assert (H0 : rtScope req = "requirements" → ws0 = ws).
  { intros Hs. unfold ws0, requirementIDsForRetryScope. rewrite Hs. done. }
  destruct (resetRequirementExecutions slug (rtScope req) (rtRequirementIDs req) ws0) as [ws1 [n|e]] eqn:Er;
    simpl; [|by split; [right|]].
  rewrite dbind_eq. destruct (resetStoriesForRetry _ _ _) as [p' k]. rewrite in_plans_eq. simpl. split.
  - unfold finish_retry, mbind, M_bind, mret, M_ret. destruct (EffectiveStatus plan =? StatusImplementing).
    + destruct (0 <? k)%Z; [destruct (save E p' _) as [w2 [e|]]; [by auto|]|];
        destruct (publishScenarioOrchestrator _ _ _ _) as [? []]; auto.
    + destruct (transitionToReadyForExecution _ _ _ _) as [? [e|]]; auto.
  - intros _ Hs. rewrite (H0 Hs), Hs in Er. eauto.
Qed.

(** A retry that is refused destroys nothing: on a plan whose status is not
    eligible, or whose infrastructure is marked critical, the answer is 409 and
    neither a plan nor an execution changes, since the checks come before the
    resets; and a retry of chosen requirements that succeeds has cleared every
    one of them. *)
Theorem retry_checks_before_reset {S} `{ExecPortLaws S} E graph slug data (ws ws' : World * S) code p :
  wCache ws.1 !! slug = Some p → px_inv ws.2 →
  handleRetryPlan E graph slug data ws = (ws', code) →
  ((code = 400%Z ∨ code = 409%Z) → ws'.2 = ws.2 ∧ ∀ s, visible ws'.1 s = visible ws.1 s) ∧
  (pInfraHealth p = InfraHealthCritical ∨ retry_eligible (EffectiveStatus p) = false →
     code = 400%Z ∨ code = 409%Z) ∧
  (code = 200%Z → ∀ req, data = Some req → rtScope req = "requirements" →
     ∀ id, id ∈ rtRequirementIDs req → id ≠ "" → px_cleared slug id ws'.2).
Proof.
  intros Hc Hinv. unfold handleRetryPlan. destruct (readRetryPlanRequest data) as [req ok] eqn:Hreq.
  destruct ok; simpl.
  2: { intros [= <- <-]. split_and!; [done|by left|done]. }
  rewrite dbind_eq, in_plans_eq. rewrite (load_cached E graph slug ws.1 p Hc). cbn [fst snd]. intros Hb.
  pose proof (retry_codes E slug req p (ticked ws.1, ws.2)) as Hcodes. rewrite Hb in Hcodes. simpl in Hcodes.
  destruct Hcodes as [(Hg & -> & ->)|(Hg & H2 & Hok)].
  { split_and!; [done|by auto|done]. }
  split_and!; [intros [-> | ->]; destruct H2; done|naive_solver|].
  intros H200 req' -> Hs id Hid Hne. assert (req = req') as ->.
  { unfold readRetryPlanRequest in Hreq. simpl in Hreq. rewrite Hs in Hreq. by inversion Hreq. }
  destruct (Hok H200 Hs) as (ws1 & n & Hr & ->).
  destruct (requirements_clear slug _ (ticked ws.1, ws.2) ws1 n Hinv Hr) as (_ & _ & Hcl). by apply Hcl.
Qed.

Lemma retry_checks_before_reset_witness :
  let ws := (world_with [demo_decided StatusComplete []], demo_rows) in
  let r := handleRetryPlan demo_env (λ _, Some []) "demo" (Some (MkRetryPlanRequest "requirements" ["r1"])) ws in
  r.2 = 200%Z ∧ ("demo", "r1") ∉ r.1.2.
Proof.
  intros ws r. assert (Hr : r.2 = 200%Z) by (by vm_compute). split; [exact Hr|].
  destruct (retry_checks_before_reset demo_env (λ _, Some []) "demo" (Some (MkRetryPlanRequest "requirements" ["r1"]))
    ws r.1 200%Z (demo_decided StatusComplete [])) as (_ & _ & Hcl).
  - by vm_compute.
  - exact I.
  - exact (eq_trans (surjective_pairing r) (f_equal (pair r.1) Hr)).
  - apply (Hcl eq_refl _ eq_refl eq_refl "r1"); [by apply list_elem_of_singleton|done].
Defined.
