(* ===== verification/AutoAccept.v ===== *)
(** * The plan-decision handler

    processor/plan-decision-handler.  One half watches the plans in
    PLAN_STATES and accepts the recoverable decisions on its own
    (recovery_autoaccept.go): a filter, three budgets counted on the snapshot
    the watcher delivers, and a memory of what it accepted in the last ten
    minutes; the accept itself is the plan manager's mutation.  The other
    half consumes the trigger the plan manager publishes after an accept
    (component.go): it works out what the decision dirties, cancels the
    running scenario loops and announces the result. *)

From S2P Require Import Prelude Graphs Status Paths Types Stories Cascade Assembly PlanStore Reviews Mutations Decisions.

Local Open Scope string_scope.
Local Open Scope go_scope.

(** ** Configuration *)

Record Config := MkConfig {
  cfMaxAutoArchitectureRevises : Z;
  cfMaxAutoStoryReprepares : Z;
  cfMaxAutoScopeIncompleteRecoveries : Z }.

(** Ten minutes, in nanoseconds. *)
Definition alreadyAcceptedTTL : Z := 600000000000.

(** ** The filter *)

Definition count_accepted (k : PlanDecisionKind) (ds : list PlanDecision) : Z :=
  Z.of_nat (length (filter (λ d, dKind d = k ∧ dStatus d = PlanDecisionStatusAccepted) ds)).

Definition countAcceptedArchitectureRevises := count_accepted PlanDecisionKindArchitectureRevise.
Definition countAcceptedStoryReprepares := count_accepted PlanDecisionKindStoryReprepare.
Definition countAcceptedScopeIncompleteRecoveries := count_accepted PlanDecisionKindScopeIncomplete.

Definition recoveryDecisionMentionsAction (d : PlanDecision) (action : string) : bool :=
  let haystack := ToLower (dTitle d +:+ nl +:+ dRationale d) in
  let action := ToLower (TrimSpace action) in
  if action =? "" then false
  else Contains haystack action || Contains haystack (replace_byte (byte 95) (byte 32) action).

Definition recoveryDecisionRequiresContractChange (d : PlanDecision) : bool :=
  match dKind d with
  | PlanDecisionKindArchitectureRevise => true
  | PlanDecisionKindRequirementChange => recoveryDecisionMentionsAction d "narrow_scope"
  | _ => false
  end.

(** The component that may propose a decision of this kind. *)
Definition auto_proposer (k : PlanDecisionKind) : option string :=
  match k with
  | PlanDecisionKindRequirementChange | PlanDecisionKindStoryReprepare
  | PlanDecisionKindArchitectureRevise => Some "recovery-agent"
  | PlanDecisionKindScopeIncomplete => Some "plan-manager"
  | _ => None
  end.

Definition shouldAutoAcceptRecovery (d : PlanDecision) : bool :=
  if dStatus d !=? PlanDecisionStatusProposed then false else
  if negb (bool_decide (auto_proposer (dKind d) = Some (dProposedBy d))) then false else
  if is_nil (dAffectedReqIDs d) then false else
  match dContractImpact d with
  | None => false
  | Some impact =>
      if negb (ContractImpactKind_IsValid (ciKind impact)) then false else
      if dKind d =? PlanDecisionKindArchitectureRevise then true else
      if recoveryDecisionRequiresContractChange d then false else
      negb (ciKind impact =? ContractImpactChange)
  end.

(** The budget of the kind, if it has one, is used up in the snapshot. *)
Definition budget_exhausted (cfg : Config) (ds : list PlanDecision) (k : PlanDecisionKind) : bool :=
  match k with
  | PlanDecisionKindArchitectureRevise =>
      bool_decide (cfMaxAutoArchitectureRevises cfg ≤ countAcceptedArchitectureRevises ds)%Z
  | PlanDecisionKindStoryReprepare =>
      bool_decide (cfMaxAutoStoryReprepares cfg ≤ countAcceptedStoryReprepares ds)%Z
  | PlanDecisionKindScopeIncomplete =>
      bool_decide (cfMaxAutoScopeIncompleteRecoveries cfg ≤ countAcceptedScopeIncompleteRecoveries ds)%Z
  | _ => false
  end.

(** ** The watcher *)

(** One update of PLAN_STATES as the watcher decodes it. *)
Record plan_view := MkPlanView { pvSlug : string; pvDecisions : list PlanDecision }.

(** The memory of accepted decisions and the accepts to issue. *)
Definition watch_state : Type := gmap string Z * list string.

Definition watch_decision (cfg : Config) (ds : list PlanDecision) (t : Z) (st : watch_state)
    (d : PlanDecision) : watch_state :=
  if negb (shouldAutoAcceptRecovery d) then st
  else if bool_decide (is_Some (st.1 !! dID d)) then st
  else if budget_exhausted cfg ds (dKind d) then st
  else (<[dID d := t]> st.1, st.2 ++ [dID d])%list.

(** The entries older than the limit are forgotten. *)
Definition forget (t : Z) (accepted : gmap string Z) : gmap string Z :=
  filter (λ e, (t - e.2 ≤ alreadyAcceptedTTL)%Z) accepted.

(** One update: the new memory and the decisions to accept, in order. *)
Definition watch_entry (cfg : Config) (t : Z) (view : plan_view) (accepted : gmap string Z) :
    gmap string Z * list string :=
  if (pvSlug view =? "") || is_nil (pvDecisions view) then (accepted, []) else
  foldl (watch_decision cfg (pvDecisions view) t) (forget t accepted, []) (pvDecisions view).

(** The updates of a run, each with the time it is handled at: the accepts
    issued, with their time and plan. *)
Fixpoint watch_run (cfg : Config) (updates : list (Z * plan_view)) (accepted : gmap string Z) :
    gmap string Z * list (Z * string * string) :=
  match updates with
  | [] => (accepted, [])
  | (t, view) :: updates =>
      let (accepted, ids) := watch_entry cfg t view accepted in
      let (accepted, rest) := watch_run cfg updates accepted in
      (accepted, (pair (t, pvSlug view) <$> ids) ++ rest)%list
  end.

Section watcher.
Context (E : Env) (hash : string → string → string) {S : Type} `{ExecPort S}.

(** [invokeAccept]: the request may reach the plan manager several times;
    the answer is only logged. *)
Fixpoint invokeAccept (deliveries : nat) (slug id : string) : D S () :=
  match deliveries with
  | O => mret ()
  | Datatypes.S n =>
      handlePlanDecisionAcceptMutation E hash (Some (MkDecisionAcceptReq slug id "auto:recovery"));;
      invokeAccept n slug id
  end.

Fixpoint invoke_all (deliveries : nat → nat) (slug : string) (ids : list string) : D S () :=
  match ids with
  | [] => mret ()
  | id :: ids =>
      w ← in_plans read;
      invokeAccept (deliveries (wTick w)) slug id;;
      invoke_all deliveries slug ids
  end.

(** The watcher handles one update against the plan manager. *)
Definition watchRecoveryProposals (cfg : Config) (deliveries : nat → nat) (t : Z) (view : plan_view)
    (accepted : gmap string Z) : D S (gmap string Z) :=
  let (accepted, ids) := watch_entry cfg t view accepted in
  invoke_all deliveries (pvSlug view) ids;; mret accepted.
End watcher.

(** ** The cascade *)

Record PlanDecisionCascadeRequest := MkCascadeRequest {
  ccExecutionID : string;
  ccProposalID : string;
  ccSlug : string;
  ccTraceID : string }.

(** [Validate] returns nil. *)
Definition PlanDecisionCascadeRequest_Validate (r : PlanDecisionCascadeRequest) : bool :=
  (ccProposalID r !=? "") && (ccSlug r !=? "").

Record PlanDecisionAcceptedEvent := MkAcceptedEvent {
  aeProposalID : string;
  aeSlug : string;
  aeTraceID : string;
  aeKind : PlanDecisionKind;
  aeAffectedRequirementIDs : list string;
  aeAffectedScenarioIDs : list string }.

Definition mergeScenarioIDsForRequirements (existing : list string) (scenarios : list Scenario)
    (reqIDs : list string) : list string :=
  let reqSet := stringSet reqIDs in
  if bool_decide (size reqSet = 0) then existing else
  (foldl (λ st s,
     if (scID s =? "") || negb (bool_decide (scRequirementID s ∈ reqSet)) || bool_decide (scID s ∈ st.1)
     then st else ({[scID s]} ∪ st.1, st.2 ++ [scID s])%list)
     (stringSet existing, existing) scenarios).2.

Definition expandPlanningReentryClosure (range : gset string → list string) (result : Result)
    (requirements : list Requirement) (stories : list Story) (scenarios : list Scenario) : Result :=
  match resKind result with
  | PlanDecisionKindArchitectureRevise =>
      MkResult (resKind result)
        (default [] (ExpandRequirementStoryClosure requirements stories range (resAffectedRequirementIDs result)))
        (resAffectedStoryIDs result) (resAffectedScenarioIDs result)
  | PlanDecisionKindRequirementChange | PlanDecisionKindStoryReprepare =>
      let ids := default [] (ExpandRequirementClosure requirements (resAffectedRequirementIDs result)) in
      MkResult (resKind result) ids (resAffectedStoryIDs result)
        (mergeScenarioIDsForRequirements (resAffectedScenarioIDs result) scenarios ids)
  | _ => result
  end.

(** What the consumer does with the message. *)
Inductive ack := Term | Nak | NakWithDelay | Ack.

(** What the outside answers while one message is handled: the bucket, the
    row (nothing if it cannot be read or decoded), the publication. *)
Record cascade_io := MkCascadeIO {
  ciPlan : option Plan;
  ciPublishErr : bool;
  ciRange : gset string → list string }.

(** The result, or the error. *)
Definition handleCascadeRequest (io : cascade_io) (req : PlanDecisionCascadeRequest) : option Result :=
  plan ← ciPlan io;
  d ← FindPlanDecision plan (ccProposalID req);
  Some (expandPlanningReentryClosure (ciRange io) (CascadePlanDecision d.2 (pStories plan) (pScenarios plan))
          (pRequirements plan) (pStories plan) (pScenarios plan)).

Definition accepted_event (req : PlanDecisionCascadeRequest) (r : Result) : PlanDecisionAcceptedEvent :=
  MkAcceptedEvent (ccProposalID req) (ccSlug req) (ccTraceID req) (resKind r)
    (resAffectedRequirementIDs r) (resAffectedScenarioIDs r).

(** The disposition of the message, the loops told to stop and the event
    published. *)
Definition handleMessage (io : cascade_io) (data : option PlanDecisionCascadeRequest) :
    ack * list string * option PlanDecisionAcceptedEvent :=
  match data with
  | None => (Term, [], None)
  | Some req =>
      if negb (PlanDecisionCascadeRequest_Validate req) then (Term, [], None) else
      match handleCascadeRequest io req with
      | None => (Nak, [], None)
      | Some r =>
          if ciPublishErr io then (NakWithDelay, resAffectedScenarioIDs r, None)
          else (Ack, resAffectedScenarioIDs r, Some (accepted_event req r))
      end
  end.

(** ** Lemmas: one update *)

(** What may be accepted without a human. *)
Definition acceptable (d : PlanDecision) : Prop :=
  dStatus d = PlanDecisionStatusProposed ∧ auto_proposer (dKind d) = Some (dProposedBy d) ∧
  dAffectedReqIDs d ≠ [] ∧
  ∃ impact, dContractImpact d = Some impact ∧ ContractImpactKind_IsValid (ciKind impact) = true ∧
    (dKind d = PlanDecisionKindArchitectureRevise ∨
     (ciKind impact ≠ ContractImpactChange ∧ recoveryDecisionRequiresContractChange d = false)).

Lemma shouldAutoAccept_spec d : shouldAutoAcceptRecovery d = true ↔ acceptable d.
Proof.
  unfold shouldAutoAcceptRecovery, acceptable.
  destruct (dStatus d !=? _) eqn:E1; breflect; [naive_solver|].
  case_bool_decide as E2; simpl; [|naive_solver].
  destruct (is_nil (dAffectedReqIDs d)) eqn:E3; breflect; [naive_solver|].
  destruct (dContractImpact d) as [impact|]; [|split; [done|]; by intros (_ & _ & _ & i & ? & _)].
  assert (Hex : ∀ P : ContractImpact → Prop, (∃ i, Some impact = Some i ∧ P i) ↔ P impact)
    by (intros P; split; [intros (i & [= <-] & ?); done|by exists impact]).
  rewrite Hex. destruct (ContractImpactKind_IsValid _); simpl; [|split; [done|]; by intros (_ & _ & _ & ? & _)].
  destruct (dKind d =? _) eqn:E5; breflect; [by split; auto 10|].
  destruct (recoveryDecisionRequiresContractChange d); [split; [done|]; by intros (_ & _ & _ & _ & [?|[_ ?]])|].
  destruct (ciKind impact =? _) eqn:E6; breflect; simpl; [|by split; auto 10].
  split; [done|]. by intros (_ & _ & _ & _ & [?|[? _]]).
Qed.

(** The decision may go through: acceptable, and its budget is not used up in
    the snapshot [ds]. *)
Definition within (cfg : Config) (ds : list PlanDecision) (d : PlanDecision) : Prop :=
  acceptable d ∧ budget_exhausted cfg ds (dKind d) = false.

#[export] Instance within_dec cfg ds d : Decision (within cfg ds d).
Proof.
  refine (cast_if (decide (shouldAutoAcceptRecovery d = true ∧ budget_exhausted cfg ds (dKind d) = false)));
    unfold within; by rewrite <- shouldAutoAccept_spec.
Defined.

(** The pass over the decisions of a snapshot: what it issues was not in the
    memory, and the new memory is the old one and what it issued. *)
Lemma watch_fold cfg ds t l m out :
  let st := foldl (watch_decision cfg ds t) (m, out) l in
  ∃ new, st.2 = (out ++ new)%list ∧ NoDup new ∧
    (∀ id, id ∈ new ↔ m !! id = None ∧ ∃ d, d ∈ l ∧ dID d = id ∧ within cfg ds d) ∧
    (∀ id, id ∈ new → st.1 !! id = Some t) ∧ (∀ id, id ∉ new → st.1 !! id = m !! id).
Proof.
  revert m out. induction l as [|d l IH]; intros m out; cbn [foldl].
  { exists []. rewrite app_nil_r. split_and!; [done|constructor|set_solver..]. }
  destruct (decide (within cfg ds d ∧ m !! dID d = None)) as [[Hw Hm]|Hno].
  - assert (Hstep : watch_decision cfg ds t (m, out) d = (<[dID d := t]> m, out ++ [dID d])%list).
    { unfold watch_decision. destruct Hw as [Ha Hb]. apply shouldAutoAccept_spec in Ha. rewrite Ha, Hb. simpl.
      rewrite bool_decide_eq_false_2; [done|]. rewrite Hm. by intros [? ?]. }
    rewrite Hstep. destruct (IH (<[dID d := t]> m) (out ++ [dID d])%list) as (new & H1 & H2 & H3 & H4 & H5).
    exists (dID d :: new). assert (Hd : dID d ∉ new).
    { intros Hin. apply H3 in Hin as [Hin _]. by rewrite lookup_insert_eq in Hin. }
    split_and!.
    + by rewrite H1, <- (assoc_L app).
    + by constructor.
    + intros id. rewrite elem_of_cons, H3. split.
      * intros [->|[Hn (d' & ? & ? & ?)]]; [split; [done|]; exists d; set_solver|].
        split; [|exists d'; set_solver]. destruct (decide (id = dID d)) as [->|]; [done|].
        by rewrite lookup_insert_ne in Hn.
      * intros [Hn (d' & [->|Hd']%elem_of_cons & Hid & Hw')]; [by left|].
        destruct (decide (id = dID d)) as [->|]; [by left|right].
        rewrite lookup_insert_ne by done. eauto.
    + intros id [->|Hid]%elem_of_cons; [|by apply H4]. by rewrite H5, lookup_insert_eq.
    + intros id Hid. rewrite H5 by set_solver. apply lookup_insert_ne. set_solver.
  - assert (Hstep : watch_decision cfg ds t (m, out) d = (m, out)).
    { unfold watch_decision. destruct (shouldAutoAcceptRecovery d) eqn:Ha; [|done]. simpl.
      apply shouldAutoAccept_spec in Ha. case_bool_decide as Hs; [done|].
      destruct (budget_exhausted _ _ _) eqn:Hb; [done|]. destruct Hno. split; [done|].
      destruct (m !! dID d) eqn:Em; [|done]. by destruct Hs. }
    rewrite Hstep. destruct (IH m out) as (new & H1 & H2 & H3 & H4 & H5). exists new.
    split_and!; [done..| |done|done].
    intros id. rewrite H3. split; [intros [? (d' & ? & ? & ?)]; split; [done|]; exists d'; set_solver|].
    intros [Hn (d' & [->|Hd']%elem_of_cons & <- & Hw')]; [by destruct Hno|]. eauto.
Qed.

(** One update issues exactly the decisions of its snapshot that are within
    the policy and not remembered. *)
Lemma watch_entry_ok cfg t view m :
  let r := watch_entry cfg t view m in
  NoDup r.2 ∧
  (∀ id, id ∈ r.2 ↔ pvSlug view ≠ "" ∧ forget t m !! id = None ∧
     ∃ d, d ∈ pvDecisions view ∧ dID d = id ∧ within cfg (pvDecisions view) d) ∧
  (∀ id, id ∈ r.2 → r.1 !! id = Some t) ∧
  (∀ id, id ∉ r.2 → r.1 !! id = m !! id ∨ r.1 !! id = forget t m !! id).
Proof.
  unfold watch_entry. destruct (pvSlug view =? "") eqn:E1; breflect; simpl.
  { split_and!; [constructor|set_solver|set_solver|auto]. }
  destruct (pvDecisions view) as [|d ds] eqn:E2; simpl.
  { split_and!; [constructor|set_solver|set_solver|auto]. }
  change (foldl _ _ ds) with (foldl (watch_decision cfg (d :: ds) t) (forget t m, []) (d :: ds)).
  destruct (watch_fold cfg (d :: ds) t (d :: ds) (forget t m) []) as (new & H1 & H2 & H3 & H4 & H5).
  simpl app in H1. rewrite H1. split_and!; [done| |done|auto].
  intros id. rewrite H3. naive_solver.
Qed.

(** ** Lemmas: runs *)

(** The time of an issued accept is that of an update. *)
Lemma watch_run_times cfg updates m e : e ∈ (watch_run cfg updates m).2 → e.1.1 ∈ updates.*1.
Proof.
  revert m. induction updates as [|[t view] updates IH]; intros m; simpl; [set_solver|].
  destruct (watch_entry cfg t view m) as [m1 ids]. specialize (IH m1).
  destruct (watch_run cfg updates m1) as [m2 rest]. simpl in *.
  rewrite elem_of_app, list_elem_of_fmap, elem_of_cons. intros [(id & -> & _)|Hin]; auto.
Qed.

(** A remembered decision is not issued before its memory expires. *)
Lemma watch_run_fresh cfg updates m e t : StronglySorted Z.le updates.*1 →
  m !! e.2 = Some t → e ∈ (watch_run cfg updates m).2 → (alreadyAcceptedTTL < e.1.1 - t)%Z.
Proof.
  revert m. induction updates as [|[t1 view] updates IH]; intros m Hs Hm He; [by apply not_elem_of_nil in He|].
  pose proof (watch_run_times _ _ _ _ He) as Ht. simpl in Hs, Ht. apply StronglySorted_cons in Hs as [Hle Hs].
  rewrite Forall_forall in Hle.
  destruct (Z.lt_ge_cases alreadyAcceptedTTL (t1 - t)) as [Hold|Hrecent].
  { apply elem_of_cons in Ht as [->|Ht]; [done|]. specialize (Hle _ Ht). lia. }
  assert (Hf : forget t1 m !! e.2 = Some t) by (unfold forget; apply map_lookup_filter_Some; simpl; split; [done|lia]).
  simpl in He. destruct (watch_entry_ok cfg t1 view m) as (_ & H2 & _ & H4).
  destruct (watch_entry cfg t1 view m) as [m1 ids]. simpl in H2, H4.
  assert (Hid : e.2 ∉ ids) by (rewrite H2, Hf; by intros (_ & ? & _)).
  assert (Hm1 : m1 !! e.2 = Some t) by (destruct (H4 _ Hid) as [->| ->]; done).
  specialize (IH m1 Hs Hm1). destruct (watch_run cfg updates m1) as [m2 rest]. simpl in *.
  apply elem_of_app in He as [(id & -> & Hin)%list_elem_of_fmap|He]; [done|by apply IH].
Qed.

Definition spaced (e e' : Z * string * string) : Prop :=
  e.2 = e'.2 → (alreadyAcceptedTTL < e'.1.1 - e.1.1)%Z.

Lemma spaced_nodup t slug ids : NoDup ids → StronglySorted spaced (pair (t, slug) <$> ids).
Proof.
  induction 1 as [|id ids Hid Hnd IH]; simpl; constructor; [done|].
  apply Forall_fmap, Forall_forall. intros x Hx Heq. simpl in Heq. by subst.
Qed.

Lemma watch_run_spaced cfg updates m : StronglySorted Z.le updates.*1 →
  StronglySorted spaced (watch_run cfg updates m).2.
Proof.
  revert m. induction updates as [|[t view] updates IH]; intros m Hs; simpl; [constructor|].
  simpl in Hs. apply StronglySorted_cons in Hs as [Hle Hs].
  destruct (watch_entry_ok cfg t view m) as (H1 & _ & H3 & _).
  destruct (watch_entry cfg t view m) as [m1 ids]. simpl in H1, H3. specialize (IH m1 Hs).
  pose proof (λ e t, watch_run_fresh cfg updates m1 e t Hs) as Hfresh.
  destruct (watch_run cfg updates m1) as [m2 rest]. simpl in *.
  apply StronglySorted_app_2; [|by apply spaced_nodup|done].
  intros e e' (id & -> & Hid)%list_elem_of_fmap He' Heq. simpl in Heq. simpl.
  apply (Hfresh e' t); [rewrite <- Heq; auto|done].
Qed.

(** ** Lemmas: the cascade *)

Lemma merge_fold (scs : list Scenario) (R X : gset string) (out : list string) : (∀ x, x ≠ "" → x ∈ X ↔ x ∈ out) →
  ∀ id, id ∈ (foldl (λ st s,
     if (scID s =? "") || negb (bool_decide (scRequirementID s ∈ R)) || bool_decide (scID s ∈ st.1)
     then st else ({[scID s]} ∪ st.1, st.2 ++ [scID s])%list) (X, out) scs).2 ↔
  id ∈ out ∨ (id ≠ "" ∧ ∃ sc, sc ∈ scs ∧ scID sc = id ∧ scRequirementID sc ∈ R).
Proof.
  revert X out. induction scs as [|sc scs IH]; intros X out HX id; cbn [foldl fst snd]; [set_solver|].
  destruct (scID sc =? "") eqn:E1; breflect; cbn [orb].
  { rewrite IH by done. setoid_rewrite elem_of_cons. naive_solver. }
  destruct (decide (scRequirementID sc ∈ R)) as [E2|E2].
  2:{ rewrite bool_decide_eq_false_2 by done. cbn [negb orb]. rewrite IH by done.
      setoid_rewrite elem_of_cons. naive_solver. }
  rewrite bool_decide_eq_true_2 by done. cbn [negb orb]. case_bool_decide as E3; cbn [fst snd].
  - rewrite IH by done. setoid_rewrite elem_of_cons. apply HX in E3; [|done]. naive_solver.
  - rewrite IH by set_solver. setoid_rewrite elem_of_cons. rewrite elem_of_app, list_elem_of_singleton. naive_solver.
Qed.

Lemma merge_spec existing scs reqs id :
  id ∈ mergeScenarioIDsForRequirements existing scs reqs ↔
  id ∈ existing ∨ (id ≠ "" ∧ ∃ sc, sc ∈ scs ∧ scID sc = id ∧
    scRequirementID sc ∈ reqs ∧ scRequirementID sc ≠ "").
Proof.
  unfold mergeScenarioIDsForRequirements. case_bool_decide as Hz.
  - split; [by left|]. intros [?|(_ & sc & _ & _ & Hin & Hne)]; [done|]. exfalso.
    apply size_empty_iff in Hz. apply (not_elem_of_empty (C := gset string) (scRequirementID sc)), Hz.
    by apply elem_of_stringSet.
  - rewrite merge_fold; [|intros x Hx; rewrite elem_of_stringSet; naive_solver].
    by setoid_rewrite elem_of_stringSet.
Qed.

(** Where the announced closure starts. *)
Definition cascade_seed (plan : Plan) (d : PlanDecision) (s : string) : Prop :=
  s ≠ "" ∧ s ∈ resAffectedRequirementIDs (CascadePlanDecision d (pStories plan) (pScenarios plan)).

Lemma closure_downstream plan d x :
  let r := CascadePlanDecision d (pStories plan) (pScenarios plan) in
  x ∈ default [] (ExpandRequirementClosure (pRequirements plan) (resAffectedRequirementIDs r)) ↔
  ∃ s, cascade_seed plan d s ∧ rtc (downstream (pRequirements plan)) s x.
Proof.
  intros r. destruct (ExpandRequirementClosure_ok (pRequirements plan) (resAffectedRequirementIDs r))
    as (out & -> & _ & _ & Hout). simpl. rewrite Hout. unfold cascade_seed. naive_solver.
Qed.

Lemma downstream_named reqs s x : s ≠ "" → rtc (downstream reqs) s x → x ≠ "".
Proof. intros Hs [<-|(y & _ & [Hx _])]%rtc_inv_r; done. Qed.

Lemma merged_scenarios plan d existing id :
  let r := CascadePlanDecision d (pStories plan) (pScenarios plan) in
  let reqs := default [] (ExpandRequirementClosure (pRequirements plan) (resAffectedRequirementIDs r)) in
  id ≠ "" → id ∈ mergeScenarioIDsForRequirements existing (pScenarios plan) reqs ↔
  id ∈ existing ∨ ∃ sc, sc ∈ pScenarios plan ∧ scID sc = id ∧ scRequirementID sc ∈ reqs.
Proof.
  intros r reqs Hid. rewrite merge_spec. split; [naive_solver|].
  intros [?|(sc & H1 & H2 & H3)]; [by left|right]. split; [done|]. exists sc. split_and!; [done..|].
  apply closure_downstream in H3 as (s & [Hne _] & Ht). by eapply downstream_named.
Qed.

(** ** Theorems *)

(** The watcher of recovery decisions accepts, on every update, exactly the
    decisions of the snapshot that its policy allows and that it does not
    remember: proposed ones, from the component that may propose the kind,
    naming at least one requirement, with a valid contract impact that changes
    no contract unless the decision is an architecture revision, of a kind
    whose budget the accepted decisions of the snapshot have not used up. *)
Theorem auto_accepts_exactly cfg t view m :
  NoDup (watch_entry cfg t view m).2 ∧
  ∀ id, id ∈ (watch_entry cfg t view m).2 ↔
    pvSlug view ≠ "" ∧ (∀ t', m !! id = Some t' → (alreadyAcceptedTTL < t - t')%Z) ∧
    ∃ d, d ∈ pvDecisions view ∧ dID d = id ∧
      dStatus d = PlanDecisionStatusProposed ∧ auto_proposer (dKind d) = Some (dProposedBy d) ∧
      dAffectedReqIDs d ≠ [] ∧
      (∃ impact, dContractImpact d = Some impact ∧ ContractImpactKind_IsValid (ciKind impact) = true ∧
         (dKind d = PlanDecisionKindArchitectureRevise ∨
          (ciKind impact ≠ ContractImpactChange ∧ recoveryDecisionRequiresContractChange d = false))) ∧
      budget_exhausted cfg (pvDecisions view) (dKind d) = false.
Proof.
  destruct (watch_entry_ok cfg t view m) as (H1 & H2 & _). split; [done|]. intros id. rewrite H2.
  assert (Hf : forget t m !! id = None ↔ ∀ t', m !! id = Some t' → (alreadyAcceptedTTL < t - t')%Z).
  { unfold forget. rewrite map_lookup_filter_None. split.
    - intros [Hn|Hn] t' Ht; [congruence|]. specialize (Hn _ Ht). simpl in Hn. lia.
    - intros Hn. destruct (m !! id) as [t'|] eqn:Em; [right|by left]. intros t'' [= <-]. simpl.
      specialize (Hn _ eq_refl). lia. }
  rewrite Hf. unfold within, acceptable. do 2 f_equiv. naive_solver.
Qed.

(** Over a run of the watcher, in the order of its clock, a decision is
    accepted again only when the memory of the earlier accept has expired:
    ten minutes lie between the two. *)
Theorem auto_accept_spaced cfg updates m l1 l2 t1 t2 slug1 slug2 id :
  StronglySorted Z.le updates.*1 →
  (watch_run cfg updates m).2 = (l1 ++ (t1, slug1, id) :: l2)%list → (t2, slug2, id) ∈ l2 →
  (alreadyAcceptedTTL < t2 - t1)%Z.
Proof.
  intros Hs Hrun Hin. pose proof (watch_run_spaced cfg updates m Hs) as Hsp. rewrite Hrun in Hsp.
  apply StronglySorted_app_1_r, StronglySorted_cons in Hsp as [Hall _].
  rewrite Forall_forall in Hall. by apply (Hall _ Hin).
Qed.

(** The three budgets bound what the snapshot shows as accepted, not what
    is accepted: as long as one accept of the kind is left, every acceptable
    decision of the kind that is pending in the snapshot is accepted at
    once, however many there are. *)
Theorem auto_accept_budget_overshoots cfg t view k :
  pvSlug view ≠ "" → budget_exhausted cfg (pvDecisions view) k = false →
  ∀ d, d ∈ pvDecisions view → dKind d = k → shouldAutoAcceptRecovery d = true →
    dID d ∈ (watch_entry cfg t view ∅).2.
Proof.
  intros Hs Hb d Hd Hk Ha. destruct (watch_entry_ok cfg t view ∅) as (_ & H2 & _). apply H2.
  split_and!; [done|by apply map_lookup_filter_None; left|]. exists d. split_and!; [done..|].
  split; [by apply shouldAutoAccept_spec|by rewrite Hk].
Qed.

(** A cascade trigger is acknowledged exactly when the accepted event has
    been published, and the event is right.  For an architecture revision
    that names no story it announces exactly the requirements whose
    executions the accept cleared.  For a requirement change or a story to
    prepare again it announces the downstream closure of the requirements
    concerned, and its scenarios are those the decision itself dirties and
    those of the announced requirements; the loops of exactly the announced
    scenarios were told to stop. *)
Theorem cascade_announces io req : (∀ X, ciRange io X ≡ₚ elements X) →
  let '(a, cancelled, out) := handleMessage io (Some req) in
  (a = Ack ↔ is_Some out) ∧
  ∀ ev, out = Some ev → cancelled = aeAffectedScenarioIDs ev ∧
    aeProposalID ev = ccProposalID req ∧ aeSlug ev = ccSlug req ∧
    ∃ plan i d, ciPlan io = Some plan ∧ FindPlanDecision plan (ccProposalID req) = Some (i, d) ∧
      (dKind d = PlanDecisionKindArchitectureRevise → dAffectedStoryIDs d = [] →
         ∀ x, x ∈ aeAffectedRequirementIDs ev ↔ dirty plan d x) ∧
      (dKind d = PlanDecisionKindRequirementChange ∨ dKind d = PlanDecisionKindStoryReprepare →
         (∀ x, x ∈ aeAffectedRequirementIDs ev ↔
            ∃ s, cascade_seed plan d s ∧ rtc (downstream (pRequirements plan)) s x) ∧
         ∀ id, id ≠ "" → id ∈ aeAffectedScenarioIDs ev ↔
           id ∈ resAffectedScenarioIDs (CascadePlanDecision d (pStories plan) (pScenarios plan)) ∨
           ∃ sc, sc ∈ pScenarios plan ∧ scID sc = id ∧ scRequirementID sc ∈ aeAffectedRequirementIDs ev).
Proof.
  intros Hr. unfold handleMessage.
  assert (Hno : ∀ a, a ≠ Ack → a = Ack ↔ is_Some (None : option PlanDecisionAcceptedEvent))
    by (intros a Ha; split; [done|by intros [? ?]]).
  destruct (negb _); [by split; [apply Hno|]|]. unfold handleCascadeRequest.
  destruct (ciPlan io) as [plan|]; simpl; [|by split; [apply Hno|]].
  destruct (FindPlanDecision plan (ccProposalID req)) as [[i d]|] eqn:Ed; simpl; [|by split; [apply Hno|]].
  destruct (ciPublishErr io); [by split; [apply Hno|]|]. split; [by split; eauto|].
  intros ev [= <-]. simpl. split_and!; [done..|]. exists plan, i, d. split_and!; [done..| |].
  - intros Hk Hs x. unfold expandPlanningReentryClosure.
    destruct (cascade_other_kinds d (pStories plan) (pScenarios plan) ltac:(by rewrite Hk)) as (-> & -> & _).
    rewrite Hk. simpl.
    destruct (ExpandRequirementStoryClosure_ok (pRequirements plan) (pStories plan) (ciRange io) Hr
      (dAffectedReqIDs d)) as (out & -> & _ & _ & Hout). simpl. rewrite Hout. unfold dirty, named. rewrite Hs.
    split; [naive_solver|]. intros (s & [Hne [Hin|(? & _ & Hf & _)]] & Ht); [eauto|].
    by apply not_elem_of_nil in Hf.
  - intros Hk. unfold expandPlanningReentryClosure.
    assert (Hrk : resKind (CascadePlanDecision d (pStories plan) (pScenarios plan)) = dKind d).
    { unfold CascadePlanDecision. destruct Hk as [Hk|Hk]; rewrite Hk; by repeat case_match. }
    rewrite Hrk. destruct Hk as [Hk|Hk]; rewrite Hk; simpl;
      (split; [intros x; apply closure_downstream|apply merged_scenarios]).
Qed.

(** ** Witnesses *)

Definition auto_config : Config := MkConfig 1 1 1.

Definition pending (id : string) : PlanDecision :=
  demo_decision id PlanDecisionKindArchitectureRevise ["r1"].

Definition pending_view : plan_view := MkPlanView "demo" [pending "d1"; pending "d2"].

Definition pending_world : World * row_table :=
  (world_with [demo_decided StatusImplementing [pending "d1"; pending "d2"]], demo_rows).

Lemma auto_accept_spaced_witness :
  (watch_run auto_config [(0%Z, pending_view); (5%Z, pending_view); ((alreadyAcceptedTTL + 1)%Z, pending_view)] ∅).2 =
    ([(0%Z, "demo", "d1")] ++ (0%Z, "demo", "d2") ::
     [((alreadyAcceptedTTL + 1)%Z, "demo", "d1"); ((alreadyAcceptedTTL + 1)%Z, "demo", "d2")])%list ∧
  (alreadyAcceptedTTL < alreadyAcceptedTTL + 1 - 0)%Z.
Proof.
  assert (Hrun : (watch_run auto_config [(0%Z, pending_view); (5%Z, pending_view); ((alreadyAcceptedTTL + 1)%Z, pending_view)] ∅).2 =
    ([(0%Z, "demo", "d1")] ++ (0%Z, "demo", "d2") ::
     [((alreadyAcceptedTTL + 1)%Z, "demo", "d1"); ((alreadyAcceptedTTL + 1)%Z, "demo", "d2")])%list)
    by (vm_compute; reflexivity).
  split; [exact Hrun|]. eapply (auto_accept_spaced auto_config _ ∅ _ _ 0 (alreadyAcceptedTTL + 1) "demo" "demo" "d2").
  2: exact Hrun.
  - apply (bool_decide_unpack _). vm_compute. exact I.
  - apply elem_of_cons. right. by apply list_elem_of_singleton.
Defined.

(** Two revisions are accepted where the budget allows one, also in the plan
    the plan manager stores. *)
Lemma auto_accept_budget_overshoots_witness :
  (∀ id, id ∈ ["d1"; "d2"] → id ∈ (watch_entry auto_config 0 pending_view ∅).2) ∧
  cfMaxAutoArchitectureRevises auto_config = 1%Z ∧
  (countAcceptedArchitectureRevises ∘ pPlanDecisions <$>
     visible (watchRecoveryProposals demo_env demo_hash auto_config (λ _, 1) 0 pending_view ∅ pending_world).1.1
       "demo") = Some 2%Z.
Proof.
  split_and!; [|done|vm_compute; reflexivity].
  intros id Hid. apply elem_of_cons in Hid as [-> |Hid%list_elem_of_singleton].
  - apply (auto_accept_budget_overshoots auto_config 0 pending_view PlanDecisionKindArchitectureRevise
      ltac:(done) eq_refl (pending "d1")); [apply elem_of_cons; by left|done|by vm_compute].
  - subst id. apply (auto_accept_budget_overshoots auto_config 0 pending_view PlanDecisionKindArchitectureRevise
      ltac:(done) eq_refl (pending "d2")); [apply elem_of_cons; right; by apply list_elem_of_singleton|done|by vm_compute].
Defined.

Lemma cascade_announces_witness :
  ∃ ev, handleMessage (MkCascadeIO (Some (demo_decided StatusImplementing [pending "d1"])) false elements)
    (Some (MkCascadeRequest "" "d1" "demo" "t")) = (Ack, [], Some ev) ∧
  "r1" ∈ aeAffectedRequirementIDs ev.
Proof.
  pose proof (cascade_announces
    (MkCascadeIO (Some (demo_decided StatusImplementing [pending "d1"])) false elements)
    (MkCascadeRequest "" "d1" "demo" "t") ltac:(done)) as Hev.
  destruct (handleMessage _ _) as [[a cancelled] out] eqn:Eh. vm_compute in Eh. injection Eh as <- <- <-.
  destruct Hev as [_ Hev]. eexists. split; [reflexivity|].
  destruct (Hev _ eq_refl) as (_ & _ & _ & plan & i & d & [= <-] & Hd & Hreq & _).
  vm_compute in Hd. injection Hd as <- <-. apply Hreq; [done|done|].
  exists "r1". split; [|apply rtc_refl]. split; [done|]. left. by apply list_elem_of_singleton.
Defined.
