(* ===== verification/PlanExec.v ===== *)
(** * The execution manager behind the plan manager's port

    The plan manager clears executions by requests to the execution manager
    (http.go, [sendReqReset] and [sendReqFamilyReset]) and reads the bucket
    itself.  This file makes the world of the execution manager a port of
    [Decisions], with the requests carried by a transport that may deliver
    one several times, or lose it or its answer, and shows that it keeps the
    promises the plan manager's theorems rest on: the requirement a
    successful reset names has no row left, neither in the cache nor in the
    bucket, and no later reset brings one back. *)

From S2P Require Import Prelude Status Paths Types PlanStore Mutations Decisions ExecTypes Feedback ExecStore.
From S2P Require Import TddPipeline ExecMutations ExecManager ExecTyping ExecFacts.

Local Open Scope string_scope.
Local Open Scope go_scope.

Section port.
Context (E : ExecEnv) (transport : nat → nat * bool).

(** The handler runs [n] times; the answer is the last one. *)
Fixpoint deliver {A} (n : nat) (m : X A) : X (option A) :=
  match n with
  | O => mret None
  | S n => r ← m; last ← deliver n m; mret (Some (default r last))
  end.

(** [RequestWithRetry]: how often the request is delivered, and whether an
    answer comes back in time. *)
Definition request (m : X exec_reply) : X (option exec_reply) :=
  w ← xread;
  r ← deliver (transport (xwTick w)).1 m;
  mret (if (transport (xwTick w)).2 then r else None).

Definition sendReqReset (key : string) : X bool :=
  r ← request (handleReqResetMutation E (MkReqResetRequest key "" ""));
  mret (match r with Some (ExecOK _ _) => true | _ => false end).

Definition sendReqFamilyReset (slug reqID : string) : X (option Z) :=
  r ← request (handleReqResetMutation E (MkReqResetRequest "" slug reqID));
  mret (match r with Some (ExecOK _ n) => Some n | _ => None end).

Definition listExecutionKeys : X key_listing :=
  o ← xtick E; w ← xread;
  mret (match xwKV w with
        | None => NoBucket
        | Some kv =>
            if xKeysErr o then KeysErr else
            let keys := keys_of E w kv in if is_nil keys then NoKeysFound else Keys keys
        end).

(** The fields the plan manager decodes are the same in both structs. *)
Definition entry_of (r : exec_row) : exec_entry :=
  match r with
  | TaskRow t => MkExecEntry (teRequirementID t) (teStage t) []
  | ReqRow q => MkExecEntry (reRequirementID q) (reStage q) (nrFilesModified <$> reNodeResults q)
  end.

Definition readExecutionEntry (key : string) : X (option exec_entry) :=
  row ← kvGet E key; mret (entry_of <$> row).

#[export] Instance execution_manager_port : ExecPort XWorld := {
  px_keys := listExecutionKeys;
  px_entry := readExecutionEntry;
  px_reset_family := sendReqFamilyReset;
  px_reset_key := sendReqReset }.
End port.

(** ** Lemmas: an absent requirement row stays absent *)

Definition absent (k : string) (w : XWorld) : Prop :=
  xwReqCache w !! k = None ∧ kv_at k w = None.

(** What a reset keeps: the rows are typed, and [k] is absent. *)
Definition gone (k : string) (w : XWorld) : Prop := typed w ∧ absent k w.
Definition gone_at (o : nat) (k : string) (w : XWorld) : Prop := typed_at o w ∧ absent k w.

Section gone.
Context (E : ExecEnv) (k : string) (Hk : HasPrefix k "req." = true).

(** A program that leaves requirement rows alone. *)
Definition aside {A} (m : X A) : Prop :=
  ∀ w, xwReqCache (m w).1 = xwReqCache w ∧ xwKV (m w).1 = xwKV w.

Lemma gone_aside {A} o (m : X A) : keeps (typed_at o) m → aside m → keeps (gone_at o k) m.
Proof.
  intros Ht Ha w [Hw [Hc Hv]]. destruct (Ha w) as [H1 H2]. split; [by apply Ht|].
  unfold absent, kv_at. by rewrite H1, H2.
Qed.

Lemma saveTask_absent key a w : key ≠ k → absent k w → absent k (saveTask E key a w).1.
Proof.
  intros Hne [Hc Hv]. unfold absent, kv_at in *.
  unfold saveTask, cacheTask, kvPut, modify, xtick, xread, mbind, X_bind, mret, X_ret. simpl.
  destruct (xwKV w) as [kv|] eqn:Hw; simpl; rewrite ?Hw; [|done].
  destruct (xMarshalErr _); simpl; rewrite ?Hw; [done|].
  destruct (xKvPutErr _); simpl; rewrite ?Hw; simpl in *; [done|]. by rewrite lookup_insert_ne.
Qed.

Lemma sync_gone o : keeps (gone_at o k) (syncToStore E o).
Proof.
  intros w [Hw Ha]. split; [by apply syncToStore_typed|]. destruct Hw as [Hw [x Hx]].
  assert (Hne : lKey (live w o) ≠ k).
  { unfold live. rewrite Hx. simpl. intros <-.
    apply (prefixes_disjoint (lKey x)); [by eapply ty_keys|done]. }
  pose proof (saveTask_absent _ o w Hne Ha) as Hs.
  unfold syncToStore, exec, mbind, X_bind, xread, mret, X_ret. cbv beta iota.
  by destruct (saveTask E (lKey (live w o)) o w).
Qed.

Lemma error_gone o reason : keeps (gone_at o k) (markErrorLocked E o reason).
Proof.
  assert (Hs := sync_gone o).
  assert (He : keeps (gone_at o k) (exec o)) by (apply gone_aside; [apply exec_typed|done]).
  assert (Hr : keeps (gone_at o k) (row o)) by (apply gone_aside; [apply row_typed_at|done]).
  assert (Hu : ∀ f, keeps (gone_at o k) (upd o f)) by (intros; apply gone_aside; [apply upd_typed|done]).
  assert (Hl : keeps (gone_at o k) (updl o (set_lTerminated true)))
    by (apply gone_aside; [by apply updl_typed|done]).
  assert (Hem : ∀ ev, keeps (gone_at o k) (emit ev)) by (intros; apply gone_aside; [apply emit_typed|done]).
  assert (Hur : ∀ t, keeps (gone_at o k) (unroute t)) by (intros; apply gone_aside; [apply unroute_typed|done]).
  assert (Hst : keeps (gone_at o k) (stop_timer o)).
  { apply gone_aside; [apply stop_timer_typed|]. intros w. unfold stop_timer, modify. simpl. by case_match. }
  assert (Hla : ∀ e, keeps (gone_at o k) (modify (λ w, set_xwActive (delete e (xwActive w)) w)))
    by (intros; apply gone_aside; [apply leave_active_typed|done]).
  unfold markErrorLocked, discardWorktree, cleanupExecutionLocked. keeps_auto.
Qed.

Lemma at_gone {A} o (m : X A) w : keeps (gone_at o k) m → gone k w → is_Some (xwExecs w !! o) → gone k (m w).1.
Proof. intros Hm [Hw Ha] Ho. destruct (Hm w) as [[Ht _] Ha']; [by split|]. by split. Qed.

Lemma tick_gone o : keeps (gone_at o k) (xtick E).
Proof. intros w [Hw Ha]. split; [by apply si_tick|done]. Qed.

Lemma cancelChild_gone slug id reason e : keeps (gone k) (cancelChild E slug id reason e).
Proof.
  unfold cancelChild. apply keeps_read_bind. intros w Hw.
  destruct (xwActive w !! e) as [o|] eqn:Ho; [|done].
  assert (Hx : is_Some (xwExecs w !! o)) by (destruct Hw as [Hw _]; by eapply ty_active).
  refine (at_gone o _ w _ Hw Hx).
  assert (H1 := error_gone o reason). assert (H2 := tick_gone o).
  assert (H3 : ∀ ev, keeps (gone_at o k) (emit ev)) by (intros; apply gone_aside; [apply emit_typed|done]).
  keeps_auto.
Qed.

Lemma cancelChildren_gone slug id reason : keeps (gone k) (cancelChildrenForRequirement E slug id reason).
Proof.
  assert (H := cancelChild_gone slug id reason). unfold cancelChildrenForRequirement. keeps_auto.
Qed.

(** The store operations a reset uses. *)
Lemma store_gone {A} (m : X A) : keeps typed m → (∀ w, typed w → absent k w → absent k (m w).1) → keeps (gone k) m.
Proof. intros Ht Ha w [Hw Hk']. split; [by apply Ht|by apply Ha]. Qed.

Lemma deleteReq_absent key w : absent k w → absent k (deleteReq E key w).1.
Proof.
  intros [Hc Hv]. unfold absent, kv_at in *. unfold deleteReq, mbind, X_bind, mret, X_ret. simpl.
  destruct (xwKV w) as [kv|] eqn:Hw; simpl; rewrite ?Hw; [|by rewrite lookup_delete_None; auto].
  destruct (xKvDelErr _); simpl; rewrite ?Hw; simpl in *; rewrite ?lookup_delete_None; auto.
Qed.

Lemma getReq_absent key w : absent k w → absent k (getReq E key w).1.
Proof.
  intros [Hc Hv]. unfold absent, kv_at in *. unfold getReq, kvGet. destruct (negb _); [done|].
  unfold mbind, X_bind, mret, X_ret. simpl. destruct (xwReqCache w !! key); [done|]. simpl.
  destruct (decide (key = k)) as [->|Hne].
  - destruct (xKvGetErr _); [done|].
    change (option_bind _ _ (λ kv : gmap string exec_row, kv !! k) (xwKV w)) with (xwKV w ≫= (.!! k)).
    by rewrite Hv.
  - match goal with |- context [match ?x with Some _ => _ | None => _ end] => destruct x end; [|done].
    simpl. by rewrite lookup_insert_ne.
Qed.

Lemma listTasks_aside slug : aside (listTasksForSlug E slug).
Proof.
  assert (Hcol : ∀ keys, aside (xcollect keys (λ key, entry ← kvGet E key;
    match entry ≫= decodeTask E with
    | Some t => a ← alloc t; cacheTask key a;; mret (Some t)
    | None => mret None
    end))).
  { induction keys as [|key keys IH]; intros w; simpl; [done|]. rewrite bind_eq.
    set (m := kvGet E key ≫= _). assert (Hm : aside m).
    { intros w0. unfold m. rewrite bind_eq. simpl.
      match goal with |- context [match ?x with Some _ => _ | None => _ end] => destruct x end; done. }
    destruct (Hm w) as [H1 H2]. rewrite bind_eq. destruct (IH (m w).1) as [H3 H4].
    split; etrans; eassumption. }
  intros w. unfold listTasksForSlug. rewrite bind_eq. simpl. destruct (negb _); [done|].
  rewrite bind_eq. destruct (Hcol (kvKeys E ("task." +:+ slug +:+ ".") w).2
    (kvKeys E ("task." +:+ slug +:+ ".") w).1) as [H1 H2]. rewrite H1, H2. done.
Qed.

Lemma family_gone slug id : keeps (gone k) (resetRequirementFamily E slug id).
Proof.
  unfold resetRequirementFamily. apply keeps_bind; [apply cancelChildren_gone|intros _].
  assert (Hd : ∀ key, keeps (gone k) (deleteReq E key)).
  { intros. apply store_gone; [apply deleteReq_keeps; apply _|]. intros. by apply deleteReq_absent. }
  assert (Hg : ∀ key, keeps (gone k) (getReq E key)).
  { intros. apply store_gone; [apply getReq_keeps; apply _|]. intros. by apply getReq_absent. }
  assert (Hl : keeps (gone k) (listTasksForSlug E slug)).
  { apply store_gone; [apply listTasksForSlug_keeps; apply _|]. intros w _ [H1 H2].
    destruct (listTasks_aside slug w) as [H3 H4]. unfold absent, kv_at. by rewrite H3, H4. }
  keeps_auto.
Qed.
End gone.

(** ** What a reset clears *)

Section clears.
Context (E : ExecEnv) (reads : ∀ n, xKvGetErr (xeIO E n) = false).

(** With a bucket that answers, a row that is not found is not there. *)
Lemma getReq_None k w : HasPrefix k "req." = true → typed w → (getReq E k w).2 = None →
  absent k (getReq E k w).1.
Proof.
  intros Hk Hw. unfold getReq, kvGet. rewrite Hk. simpl. unfold mbind, X_bind, mret, X_ret. simpl.
  destruct (xwReqCache w !! k) as [r|] eqn:Hc; [done|]. rewrite reads. simpl.
  change (option_bind _ _ (λ kv : gmap string exec_row, kv !! k) (xwKV w)) with (kv_at k w).
  destruct (kv_at k w) as [[t|q]|] eqn:Hv; simpl; [|done|done]. exfalso.
  unfold kv_at in Hv. destruct (xwKV w) as [kv|] eqn:Hkv; [|done]. simpl in Hv.
  destruct (ty_rows _ Hw) as (_ & _ & H). specialize (H _ _ _ Hkv Hv). simpl in H.
  by apply (prefixes_disjoint k).
Qed.

Lemma deleteReq_clears k w : (deleteReq E k w).2 = None → absent k (deleteReq E k w).1.
Proof.
  unfold absent, kv_at, deleteReq, mbind, X_bind, mret, X_ret. simpl.
  destruct (xwKV w) as [kv|] eqn:Hw; simpl; rewrite ?Hw; [|by rewrite lookup_delete_eq].
  destruct (xKvDelErr _); simpl; [done|]. by rewrite !lookup_delete_eq.
Qed.

Lemma family_typed slug id : keeps typed (resetRequirementFamily E slug id).
Proof.
  assert (H := cancelChildren_typed E slug id "requirement_reset").
  unfold resetRequirementFamily. keeps_auto.
Qed.

Lemma family_clears slug id w key n : typed w → (resetRequirementFamily E slug id w).2 = ExecOK key n →
  absent (RequirementExecutionKey slug id) (resetRequirementFamily E slug id w).1.
Proof.
  intros Hw. unfold resetRequirementFamily. rewrite bind_eq. set (w1 := (cancelChildrenForRequirement _ _ _ _ w).1).
  assert (H1 : typed w1) by (by apply cancelChildren_typed). rewrite bind_eq.
  set (tasks := (listTasksForSlug E slug w1).2). set (w2 := (listTasksForSlug E slug w1).1).
  assert (H2 : typed w2) by (by apply listTasksForSlug_keeps; [apply _|]). rewrite bind_eq.
  set (m := xcount tasks 0 _).
  assert (H3 : typed (m w2).1) by (unfold m; apply (keeps_count typed); [|done]; intros t; keeps_auto).
  destruct (m w2).2 as [c|e]; [|done]. cbv zeta. rewrite bind_eq.
  set (k := RequirementExecutionKey slug id).
  destruct (getReq E k (m w2).1).2 as [r|] eqn:Hr.
  - rewrite bind_eq. destruct (deleteReq E k _).2 as [e|] eqn:Hd; [done|]. intros _. by apply deleteReq_clears.
  - intros _. apply getReq_None; [apply RequirementExecutionKey_prefix|done|done].
Qed.

Lemma deliver_keeps {A} I n (m : X A) : keeps I m → keeps I (deliver n m).
Proof. intros Hm. induction n as [|n IH]; simpl; [apply keeps_ret|]. keeps_auto. Qed.

Lemma request_keeps transport I m : keeps I m → keeps I (request transport m).
Proof. intros Hm. assert (H := λ n, deliver_keeps I n m Hm). unfold request. keeps_auto. Qed.

(** What holds after each successful run holds after the last. *)
Lemma deliver_last n (m : X exec_reply) (I Q : XWorld → Prop) w r :
  keeps I m → (∀ w, I w → (∃ k c, (m w).2 = ExecOK k c) → Q (m w).1) → I w →
  (deliver n m w).2 = Some r → (∃ k c, r = ExecOK k c) → Q (deliver n m w).1.
Proof.
  intros Hm HQ. revert w r. induction n as [|n IH]; intros w r Hw; simpl; [done|].
  rewrite !bind_eq. simpl. destruct (deliver n m (m w).1).2 as [r'|] eqn:Hd; simpl.
  - intros [= <-] Hok. apply (IH _ r'); [by apply Hm|done|done].
  - intros [= <-] Hok. destruct n as [|n]; [by apply HQ|]. simpl in Hd. rewrite !bind_eq in Hd. done.
Qed.

(** A family reset without a slug or a requirement is refused. *)
Lemma family_request slug id w : handleReqResetMutation E (MkReqResetRequest "" slug id) w =
  if (slug !=? "") && (id !=? "") then resetRequirementFamily E slug id w else (w, ExecRefused RMissingFields).
Proof. unfold handleReqResetMutation. simpl. by destruct (_ && _). Qed.

Lemma sent_family transport slug id w w' n : typed w →
  sendReqFamilyReset E transport slug id w = (w', Some n) → absent (RequirementExecutionKey slug id) w'.
Proof.
  intros Hw. unfold sendReqFamilyReset. rewrite bind_eq. unfold request. rewrite !bind_eq. simpl.
  destruct (transport (xwTick w)) as [times [|]]; [|done]. simpl.
  set (m := handleReqResetMutation E _). destruct (deliver times m w).2 as [[k c|r]|] eqn:Hd; [|done..].
  intros [= <- <-]. apply (deliver_last times m typed _ w (ExecOK k c)); [apply reset_typed| |done|done|eauto].
  intros w0 Hw0 (k0 & c0 & Hok). unfold m in *. rewrite family_request in *.
  destruct (_ && _); [by eapply family_clears|done].
Qed.

#[export] Program Instance execution_manager_laws transport :
    @ExecPortLaws XWorld (execution_manager_port E transport) := {
  px_inv := typed;
  px_cleared slug id w := absent (RequirementExecutionKey slug id) w }.
Next Obligation. intros transport w Hw. by apply (si_tick (I := typed) E). Qed.
Next Obligation.
  intros transport key w Hw. change (typed (readExecutionEntry E key w).1).
  assert (H := kvGet_keeps E typed). assert (Hr : keeps typed (readExecutionEntry E key))
    by (unfold readExecutionEntry; keeps_auto). by apply Hr.
Qed.
Next Obligation.
  intros transport slug id w Hw. simpl. unfold sendReqFamilyReset. rewrite bind_eq. simpl.
  apply request_keeps; [apply reset_typed|done].
Qed.
Next Obligation. intros transport slug id w w' n Hw H. exact (sent_family transport slug id w w' n Hw H). Qed.
Next Obligation.
  intros transport slug id slug' id' w Hw Ha. simpl. unfold sendReqFamilyReset. rewrite bind_eq. simpl.
  set (k := RequirementExecutionKey slug' id'). enough (H : gone k (request transport
    (handleReqResetMutation E (MkReqResetRequest "" slug id)) w).1) by apply H.
  apply request_keeps; [|by split]. intros w0 Hw0. rewrite family_request.
  destruct (_ && _); [|done]. by apply family_gone; [apply RequirementExecutionKey_prefix|].
Qed.
End clears.

(** ** The two components together *)

(** A row that is absent can be created. *)
Lemma create_absent E req w :
  let k := RequirementExecutionKey (rcSlug req) (rcRequirementID req) in
  absent k w → (handleReqCreateMutation E req w).2 ≠ ExecRefused (RReqExists k).
Proof.
  intros k [Hc Hv]. unfold handleReqCreateMutation. destruct (_ || _); [done|]. fold k. rewrite bind_eq.
  assert (Hn : (getReq E k w).2 = None).
  { unfold getReq, kvGet. destruct (negb _); [done|]. unfold mbind, X_bind, mret, X_ret. simpl. rewrite Hc.
    simpl. destruct (xKvGetErr _); [done|].
    change (option_bind _ _ (λ kv : gmap string exec_row, kv !! k) (xwKV w)) with (kv_at k w). by rewrite Hv. }
  rewrite Hn. rewrite bind_eq. simpl. rewrite !bind_eq. simpl.
  destruct (saveReq E k _ _).2; done.
Qed.

(** C12: The plan manager and the execution manager together, as long as the
    reads of the execution manager's bucket do not fail: when the accept of a
    decision succeeds, over a transport that may deliver a request several
    times or lose it, no requirement that the decision clears ([cleared_by]: for
    an architecture revision, on a plan that may go back to the requirements
    phase, the dirty ones; for a scope_incomplete decision, the affected ones)
    has a row left in the execution manager, in its cache or in the bucket,
    and its execution can be created afresh. *)
Theorem accepted_decision_frees_requirement E hash EX transport req ws ws' p i d create :
  (∀ n, xKvGetErr (xeIO EX n) = false) → (∀ n k X, envRange E n k X ≡ₚ elements X) →
  store_wf ws.1 → typed ws.2 →
  visible ws.1 (dqSlug req) = Some p → FindPlanDecision p (dqProposalID req) = Some (i, d) →
  handlePlanDecisionAcceptMutation (H := execution_manager_port EX transport) E hash (Some req) ws = (ws', None) →
  rcSlug create = dqSlug req → cleared_by p d (rcRequirementID create) →
  let k := RequirementExecutionKey (dqSlug req) (rcRequirementID create) in
  xwReqCache ws'.2 !! k = None ∧ kv_at k ws'.2 = None ∧
  (handleReqCreateMutation EX create ws'.2).2 ≠ ExecRefused (RReqExists k).
Proof.
  intros Hget Hrange Hwf Hty Hp Hd Hacc Hslug Hx k.
  pose proof (@accepted_clears XWorld _ (execution_manager_laws EX Hget transport) E hash req ws ws' p i d
    (rcRequirementID create) Hwf Hty Hrange Hp Hd Hacc Hx) as Ha.
  change (absent k ws'.2) in Ha. split_and!; [apply Ha|apply Ha|].
  unfold k in *. rewrite <- Hslug in *. by apply create_absent.
Qed.

(** C22: Accepting an architecture revision that names a requirement, on a plan
    that may go back to the requirements phase, with an execution manager the
    reads of whose bucket do not fail: when the accept succeeds the plan is back
    in the requirements phase, with the old architecture kept as text for the
    architect, and has marked as pending exactly the requirements that the
    decision names and those that depend on a dirty requirement or share a
    story with one.  The execution manager has no row of a dirty requirement
    left, in its cache or in the bucket; requirements and scenarios are kept,
    and so is every story that covers no dirty requirement. *)
Theorem architecture_revise_scoped E hash EX transport req ws ws' p i d :
  (∀ n, xKvGetErr (xeIO EX n) = false) → (∀ n k X, envRange E n k X ≡ₚ elements X) →
  store_wf ws.1 → typed ws.2 →
  visible ws.1 (dqSlug req) = Some p → FindPlanDecision p (dqProposalID req) = Some (i, d) →
  dKind d = PlanDecisionKindArchitectureRevise → can p StatusRequirementsGenerated = true →
  (∃ x, named p d x) →
  handlePlanDecisionAcceptMutation (H := execution_manager_port EX transport) E hash (Some req) ws = (ws', None) →
  ∃ q ids storyIDs, visible ws'.1 (dqSlug req) = Some q ∧
    pStatus q = StatusRequirementsGenerated ∧ pArchitecture q = None ∧
    pPreviousArchitectureJSON q = default "" (pArchitecture p ≫= envMarshalArch E) ∧
    pPendingArchitectureRevision q = Some (MkArchitectureRevisionScope (dID d) ids storyIDs) ∧
    NoDup ids ∧ (∀ x, x ∈ ids ↔ dirty p d x) ∧
    (∀ x, dirty p d x → x ≠ "" →
       let k := RequirementExecutionKey (dqSlug req) x in xwReqCache ws'.2 !! k = None ∧ kv_at k ws'.2 = None) ∧
    pRequirements q = pRequirements p ∧ pScenarios q = pScenarios p ∧
    (NoDup (sID <$> pStories p) → ∀ s, s ∈ pStories p →
       (∀ x, x ∈ sRequirementIDs s → ¬ dirty p d x) → s ∈ pStories q).
Proof.
  intros Hget Hrange Hwf Hty Hp Hd Hk Hc Hy Hacc.
  exact (@revise_scoped_state XWorld _ (execution_manager_laws EX Hget transport) E hash req ws ws' p i d
    Hwf Hty Hrange Hp Hd Hk Hc Hy Hacc).
Qed.

(** A requirement row left over from an earlier run. *)
Definition demo_create : ReqCreateRequest :=
  MkReqCreateRequest "demo" "r1" "t" "" "" "" "" "" "" [] [] "" "" "" "" false.
Definition stale_key : string := RequirementExecutionKey "demo" "r1".
Definition stale_world : World * XWorld :=
  (scope_world.1, stored_world {[ stale_key := ReqRow (new_req run_env demo_create 0) ]}).
Definition twice : nat → nat * bool := λ _, (2%nat, true).

Lemma singleton_typed k row : row_typed k row → typed (stored_world {[ k := row ]}).
Proof.
  intros Hk. split; simpl; [|by intros ? ? ?%lookup_empty_Some..|by intros o [?%not_elem_of_nil|?%not_elem_of_nil]].
  unfold rows_typed. simpl. split_and!; [by intros ? ? ?%lookup_empty_Some..|]. intros kv k' row' [= <-] Hrow.
  by apply lookup_singleton_Some in Hrow as [<- <-].
Qed.

Lemma accepted_decision_frees_requirement_witness :
  let port := execution_manager_port run_env twice in
  let r := handlePlanDecisionAcceptMutation demo_env demo_hash (Some demo_accept) stale_world in
  (handleReqCreateMutation run_env demo_create stale_world.2).2 = ExecRefused (RReqExists stale_key) ∧
  r.2 = None ∧
  (handleReqCreateMutation run_env demo_create r.1.2).2 ≠ ExecRefused (RReqExists stale_key).
Proof.
  intros port r. split; [by vm_compute|]. assert (Hr : r.2 = None) by (by vm_compute). split; [exact Hr|].
  apply (accepted_decision_frees_requirement demo_env demo_hash run_env twice demo_accept stale_world r.1
    (demo_decided StatusRejected [demo_decision "d1" PlanDecisionKindScopeIncomplete ["r1"]])
    0 (demo_decision "d1" PlanDecisionKindScopeIncomplete ["r1"]) demo_create).
  - done.
  - done.
  - by apply demo_world_wf.
  - apply singleton_typed. by vm_compute.
  - by vm_compute.
  - by vm_compute.
  - exact (eq_trans (surjective_pairing r) (f_equal (pair r.1) Hr)).
  - done.
  - split; [done|]. by apply list_elem_of_singleton.
Defined.

(** The same row, and an architecture revision of its requirement. *)
Definition stale_revision : World * XWorld :=
  (revise_world.1, stored_world {[ stale_key := ReqRow (new_req run_env demo_create 0) ]}).

Lemma architecture_revise_scoped_witness :
  let port := execution_manager_port run_env twice in
  let r := handlePlanDecisionAcceptMutation demo_env demo_hash (Some demo_accept) stale_revision in
  is_Some (kv_at stale_key stale_revision.2) ∧ r.2 = None ∧ kv_at stale_key r.1.2 = None.
Proof.
  intros port r. split; [vm_compute; by eexists|]. assert (Hr : r.2 = None) by (by vm_compute). split; [exact Hr|].
  destruct (architecture_revise_scoped demo_env demo_hash run_env twice demo_accept stale_revision r.1
    (demo_decided StatusImplementing [demo_decision "d1" PlanDecisionKindArchitectureRevise ["r1"]])
    0 (demo_decision "d1" PlanDecisionKindArchitectureRevise ["r1"]))
    as (q & ids & sids & _ & _ & _ & _ & _ & _ & _ & Hcl & _).
  - done.
  - done.
  - by apply demo_world_wf.
  - apply singleton_typed. by vm_compute.
  - by vm_compute.
  - by vm_compute.
  - done.
  - by vm_compute.
  - exists "r1". split; [done|]. left. by apply list_elem_of_singleton.
  - exact (eq_trans (surjective_pairing r) (f_equal (pair r.1) Hr)).
  - apply (Hcl "r1"); [|done]. exists "r1". split; [|apply rtc_refl]. split; [done|]. left. by apply list_elem_of_singleton.
Defined.

(** Reads of the bucket fail; everything else works. *)
Definition unread_env : ExecEnv :=
  {| xeIO := λ n, let io := xeIO run_env n in
       {| xNow := xNow io; xUUID := xUUID io; xMarshalErr := xMarshalErr io; xKvGetErr := true;
          xKvPutErr := xKvPutErr io; xKvDelErr := xKvDelErr io; xKeysErr := xKeysErr io; xPublishErr := xPublishErr io;
          xPlan := xPlan io; xLoops := xLoops io; xWorktree := xWorktree io; xWorktreeLost := xWorktreeLost io;
          xGitStatus := xGitStatus io; xFiles := xFiles io; xMerge := xMerge io; xShutdown := xShutdown io |};
     xeTaskEntityID := xeTaskEntityID run_env; xeReqEntityID := xeReqEntityID run_env;
     xeDecodeReqAsTask := xeDecodeReqAsTask run_env; xeDecodeTaskAsReq := xeDecodeTaskAsReq run_env;
     xeKeys := xeKeys run_env; xeMaxTDDCycles := xeMaxTDDCycles run_env; xeMaxReviewRetries := xeMaxReviewRetries run_env;
     xeTimeout := xeTimeout run_env; xeSandboxURL := xeSandboxURL run_env;
     xeEnablePositiveLessons := xeEnablePositiveLessons run_env;
     xeRequireMergeObservation := xeRequireMergeObservation run_env;
     xeRequireDeveloperDiff := xeRequireDeveloperDiff run_env; xeModel := xeModel run_env;
     xeReviewerModel := xeReviewerModel run_env; xeSystemPrompt := xeSystemPrompt run_env;
     xeUnmarshalDeveloper := xeUnmarshalDeveloper run_env; xeUnmarshalReview := xeUnmarshalReview run_env;
     xeCategories := xeCategories run_env; xeTruncateRunes := xeTruncateRunes run_env; xeQuote := xeQuote run_env |}.

(** A family reset whose read of the requirement row fails answers with
    success and has deleted nothing: the row is still in the bucket, and
    refuses the next execution of the requirement once reads work again. *)
Theorem unread_row_survives_reset :
  let r := handleReqResetMutation unread_env (MkReqResetRequest "" "demo" "r1") stale_world.2 in
  (∃ k, r.2 = ExecOK k 0) ∧ is_Some (kv_at stale_key r.1) ∧
  (handleReqCreateMutation run_env demo_create r.1).2 = ExecRefused (RReqExists stale_key).
Proof. cbv zeta. split_and!; [eexists; by vm_compute|vm_compute; by eexists|by vm_compute]. Qed.
