(* ===== verification/Convergence.v ===== *)
(** * When is a plan done executing?

    processor/plan-manager/execution_events.go and completeness_gate.go.  The
    plan manager watches the requirement rows of EXECUTION_STATES.  When one
    reaches a terminal stage it counts the terminal rows of the plan; when the
    count reaches the number of requirements the plan has converged, and it is
    assembled, checked for missing files and sent to QA, rejected, or left
    for the operator.  The bucket is read through the port of [Decisions].
    Like the code, nothing here holds the lock of the slug: a read of the
    plan and the saves that follow are separate steps of the world, so each
    routine is split into the read and a body on the plan that was read. *)

From stdpp Require Import pretty.
From S2P Require Import Prelude Graphs Status Paths Types Stories Cascade Assembly PlanStore Reviews Mutations.
From S2P Require Import ExecTypes Decisions AutoAccept.

Local Open Scope string_scope.
Local Open Scope go_scope.

(** ** Counting *)

Definition isTerminalStage (stage : string) : bool :=
  (stage =? "completed") || (stage =? "failed") || (stage =? "error").

(** [strings.SplitN(key, ".", 3)]: the second part when there are three. *)
Definition slugFromKey (key : string) : string :=
  match split_on (byte 46) key with
  | _ :: slug :: _ :: _ => slug
  | _ => ""
  end.

Record terminal_counts := MkCounts {
  tcCompleted : Z;
  tcFailed : Z;
  tcFailedIDs : gset string }.

Definition count_row (c : terminal_counts) (e : exec_entry) : terminal_counts :=
  if eeStage e =? "completed" then MkCounts (tcCompleted c + 1)%Z (tcFailed c) (tcFailedIDs c)
  else if (eeStage e =? "failed") || (eeStage e =? "error") then
    MkCounts (tcCompleted c) (tcFailed c + 1)%Z
      (if eeRequirementID e =? "" then tcFailedIDs c else {[eeRequirementID e]} ∪ tcFailedIDs c)
  else c.

Definition count_rows (rows : list exec_entry) : terminal_counts :=
  foldl count_row (MkCounts 0 0 ∅) rows.

(** One requirement of the inner loop: the set and the [added] flag. *)
Definition block_req (st : gset string * bool) (req : Requirement) : gset string * bool :=
  if bool_decide (rID req ∈ st.1) then st
  else if bool_decide (Exists (.∈ st.1) (rDependsOn req)) then ({[rID req]} ∪ st.1, true)
  else st.

Fixpoint block_loop (n : nat) (requirements : list Requirement) (blocked : gset string) : gset string :=
  match n with
  | O => blocked
  | S n =>
      let (blocked, added) := foldl block_req (blocked, false) requirements in
      if added : bool then block_loop n requirements blocked else blocked
  end.

Definition countBlockedByFailure (plan : Plan) (failedIDs : gset string) : Z :=
  if bool_decide (size failedIDs = 0) then 0%Z
  else Z.of_nat (size (block_loop (length (pRequirements plan)) (pRequirements plan) failedIDs ∖ failedIDs)).

Definition augmentFailedWithBlocked (plan : Plan) (c : terminal_counts) : Z :=
  (tcFailed c + countBlockedByFailure plan (tcFailedIDs c))%Z.

(** ** The completeness gate *)

(** The declared paths that are not among the delivered ones. *)
Definition undeliveredScopeFiles (declared delivered : list string) : list string :=
  let have : gset string :=
    list_to_set (Clean <$> filter (λ d, d ≠ "") (TrimSpace <$> delivered)) in
  filter (λ d, d ≠ "" ∧ Clean d ∉ have) (TrimSpace <$> declared).

Definition scopeCompletenessAffectedIDs (missing : list string) : list string :=
  (λ f, "contract.scope.create:" +:+ f) <$> filter (λ f, f ≠ "") (TrimSpace <$> missing).

(** [strings.Trim(s, "\x00")] *)
Fixpoint trim_nul_left (s : string) : string :=
  match s with
  | String c r => if c =? byte 0 then trim_nul_left r else s
  | "" => ""
  end.
Definition trim_nul (s : string) : string := rev_string (trim_nul_left (rev_string (trim_nul_left s))).

(** [sandbox.Exec] of [git ls-files -z]: the error, or the exit code and the
    output, if there is a result. *)
Inductive ls_result := LsErr (msg : string) | LsDone (res : option (Z * string)).

Inductive gap_error := ListErr (msg : string) | LsExited (code : Z).

Definition parse_ls (r : ls_result) : list string + gap_error :=
  match r with
  | LsErr msg => inr (ListErr msg)
  | LsDone None => inr (LsExited (-1))
  | LsDone (Some (code, stdout)) =>
      if negb (bool_decide (code = 0%Z)) then inr (LsExited code) else
      let raw := trim_nul stdout in
      inl (if raw =? "" then [] else split_on (byte 0) raw)
  end.

(** ** QA requests *)

(** [Validate] returns nil. *)
Definition QARequestedPayload_Validate (e : QARequestedEvent) : bool :=
  bool_decide (ValidateSlug (qrSlug e) = None) && QALevel_UsesSandboxTests (qrMode e) &&
  ((qrWorkspace e =? "") ||
   negb (Contains (qrWorkspace e) ".." || Contains (qrWorkspace e) "/" ||
         Contains (qrWorkspace e) (String (byte 92) ""))).

(** What the component reads besides the environment: its configuration, the
    project's test command, and the listing of a worktree. *)
Record conv_config := MkConvConfig {
  cvAutoReject : bool;
  cvTestCommand : nat → string;
  cvLsFiles : list sandbox_call → string → ls_result;
  cvGapText : gap_error → string;
  cvListOrder : nat → gset string → list string }.

Definition resolveAutoRejectOnExhaustion (cfg : conv_config) (plan : Plan) : bool :=
  default (cvAutoReject cfg) (pAutoRejectOnExhaustion plan).

Definition with_error (msg : string) (t : Z) (plan : Plan) : Plan :=
  set_pLastErrorAt (Some t) (set_pLastError msg plan).

(** The decisions the convergence check adds by itself. *)
Definition conflict_rationale (text : string) : string :=
  "Execution succeeded but the requirement branches could not be merged: " +:+ text +:+
  ". This is a planning-partition defect — two parallel branches edited the same file with no ownership/DependsOn edge. Re-run with corrected file ownership (the offending file must be declared on exactly one component, or shared owners serialized).".

Definition own_decision (planID : string) (plan : Plan) (kind : PlanDecisionKind) (title rationale : string)
    (impact : option ContractImpact) (t : Z) : PlanDecision :=
  {| dID := "plan-decision." +:+ pSlug plan +:+ "." +:+ pretty (S (length (pPlanDecisions plan)));
     dPlanID := planID; dKind := kind; dTitle := title; dRationale := rationale;
     dStatus := PlanDecisionStatusProposed; dProposedBy := "plan-manager";
     dAffectedReqIDs := rID <$> pRequirements plan; dAffectedStoryIDs := []; dRejectionReasons := ∅;
     dContractImpact := impact; dArtifactReferences := []; dCreatedAt := t; dReviewedAt := None;
     dDecidedAt := None |}.

Definition add_own (d : PlanDecision) (plan : Plan) : Plan :=
  set_pPlanDecisions (pPlanDecisions plan ++ [d])%list plan.

Definition gate_message (plan : Plan) (missing : list string) : string :=
  "Level-0 completeness gate: " +:+ pretty (length missing) +:+ " of " +:+
  pretty (length (scpCreate (pScope plan))) +:+
  " declared scope.create file(s) not delivered on the assembled branch: " +:+ Join missing ", ".

Definition gate_impact (missing : list string) : ContractImpact :=
  MkContractImpact ContractImpactPreserve
    "Declared scope.create files remain required; retry execution must deliver the missing files or propose an explicit scope amendment."
    (scopeCompletenessAffectedIDs missing).

(** An open exhaustion decision on the requirement, archived. *)
Definition auto_archive (reqID reason : string) (t : Z) (d : PlanDecision) : PlanDecision :=
  if open_exhaustion {[reqID]} d
  then set_dRejectionReasons (<["auto_archive" := reason]> (dRejectionReasons d))
         (set_dDecidedAt (Some t) (set_dStatus PlanDecisionStatusArchived d))
  else d.

Section convergence.
Context (E : Env) (cfg : conv_config).

Definition targetForQALevel (level : QALevel) (plan : Plan) : Status :=
  match level with
  | QALevelNone => if shouldGateReview E plan then StatusAwaitingReview else StatusComplete
  | _ => StatusReadyForQA
  end.

Definition publishQARequestIfNeeded (plan : Plan) : M () :=
  if (pStatus plan !=? StatusReadyForQA) || negb (envAutoStart E) then mret () else
  let level := EffectiveQALevel plan in
  if negb (QALevel_UsesSandboxTests level) then mret () else
  w ← read;
  o ← tick E;
  let req := MkQARequestedEvent (pSlug plan) (pID plan) level (QAWorktreeID (pSlug plan))
               (cvTestCommand cfg (wTick w)) 0 (ioUUID o) in
  if negb (QARequestedPayload_Validate req) then mret () else
  if ioMarshalErr o || ioPublishErr o then mret () else send (MsgQARequested req).

(** Transition to rejected; when that fails the plan, as it then is, is saved
    once more. *)
Definition reject_or_save (plan : Plan) : M () :=
  r ← setPlanStatusCached E plan StatusRejected;
  match r with
  | (_, None) => mret ()
  | (plan, Some _) => save E plan;; mret ()
  end.

Definition failPlanOnAssemblyConflict (plan : Plan) (err : assembly_error) (t : Z) : M () :=
  reject_or_save (add_own (own_decision (envPlanEntityID E (pSlug plan)) plan PlanDecisionKindAssemblyConflict
    "Plan-level merge conflict at branch assembly" (conflict_rationale (envErrorText E err)) None t) plan).

(** [errors.Is(err, sandbox.ErrMergeBranchesConflict)] *)
Definition is_conflict (err : assembly_error) : bool :=
  match err with
  | AssemblyConflict _ _ _ | AssemblyConflictBare => true
  | AssemblyFailed _ | StageFailed _ _ _ => false
  end.

Definition routeAssemblyConflict (plan : Plan) (err : assembly_error) : M () :=
  t ← now E;
  let plan := with_error ("pre-QA assembly failed: " +:+ envErrorText E err) t plan in
  if is_conflict err then failPlanOnAssemblyConflict plan err t
  else save E plan;; mret ().

Definition assembledTrackedFiles (plan : Plan) : M (list string + gap_error) :=
  w ← read; mret (parse_ls (cvLsFiles cfg (wSandbox w) (QAWorktreeID (pSlug plan)))).

Definition scopeCompletenessGap (plan : Plan) : M (list string + gap_error) :=
  if negb (bool_decide (is_Some (envSandbox E))) || is_nil (scpCreate (pScope plan)) then mret (inl []) else
  if pAssembledBranch plan =? "" then mret (inl (undeliveredScopeFiles (scpCreate (pScope plan)) [])) else
  r ← assembledTrackedFiles plan;
  mret (match r with
        | inr e => inr e
        | inl delivered => inl (undeliveredScopeFiles (scpCreate (pScope plan)) delivered)
        end).

Definition failPlanOnIncompleteScope (plan : Plan) (missing : list string) : M () :=
  t ← now E;
  let msg := gate_message plan missing in
  let plan := with_error msg t plan in
  reject_or_save (add_own (own_decision (envPlanEntityID E (pSlug plan)) plan PlanDecisionKindScopeIncomplete
    "Declared scope.create files not delivered" msg (Some (gate_impact missing)) t) plan).

(** The end of the success arm: the transition, a fallback when it fails, and
    the request to the executor. *)
Definition advance_converged (plan : Plan) (target : Status) : M () :=
  r ← setPlanStatusCached E plan target;
  match r with
  | (plan, Some _) =>
      setPlanStatusCached E plan (if shouldGateReview E plan then StatusAwaitingReview else StatusComplete);; mret ()
  | (plan, None) => publishQARequestIfNeeded plan
  end.

Definition handleConvergenceAllSucceeded (plan : Plan) : M () :=
  let target := targetForQALevel (EffectiveQALevel plan) plan in
  if target !=? StatusReadyForQA then advance_converged plan target else
  w ← read;
  let '(plan, log, err) := assembleAndStageQAWorktree (envSandbox E) plan (wSandbox w) in
  set_sandbox log;;
  match err with
  | Some e => routeAssemblyConflict plan e
  | None =>
      gap ← scopeCompletenessGap plan;
      match gap with
      | inr e =>
          t ← now E;
          save E (with_error ("Level-0 completeness gate could not run: " +:+ cvGapText cfg e) t plan);; mret ()
      | inl missing =>
          if is_nil missing then advance_converged plan target else failPlanOnIncompleteScope plan missing
      end
  end.

Definition reject_message (failed total : Z) : string :=
  "autonomous mode: " +:+ pretty failed +:+ "/" +:+ pretty total +:+
  " requirements failed; auto-rejecting (production mode would await human decision)".

(** All requirements are terminal, [failed] of them failed. *)
Definition converged (plan : Plan) (failed : Z) : M () :=
  if bool_decide (failed = 0%Z) then handleConvergenceAllSucceeded plan else
  if resolveAutoRejectOnExhaustion cfg plan then
    t ← now E;
    setPlanStatusCached E
      (with_error (reject_message failed (Z.of_nat (length (pRequirements plan)))) t plan) StatusRejected;;
    mret ()
  else save E plan;; mret ().

Definition markPlanInfraCritical (slug : string) : M () :=
  p ← get E slug;
  match p with
  | None => mret ()
  | Some plan => if pInfraHealth plan =? "critical" then mret ()
                 else save E (set_pInfraHealth "critical" plan);; mret ()
  end.

Definition autoArchiveExhaustionDecisions (slug reqID reason : string) : M () :=
  p ← get E slug;
  match p with
  | None => mret ()
  | Some plan =>
      t ← now E;
      if existsb (open_exhaustion {[reqID]}) (pPlanDecisions plan)
      then save E (set_pPlanDecisions (auto_archive reqID reason t <$> pPlanDecisions plan) plan);; mret ()
      else mret ()
  end.

(** The plan is still executing: the orchestrator looks again. *)
Definition refire (slug : string) : M () :=
  p ← get E slug;
  match p with
  | Some plan => if EffectiveStatus plan =? StatusImplementing
                 then publishScenarioOrchestrator E plan [];; mret () else mret ()
  | None => mret ()
  end.

Context {S : Type} `{ExecPort S}.

(** The rows of the plan that can be read and decoded, in the order of the
    keys. *)
Fixpoint read_rows (prefix : string) (keys : list string) : D S (list exec_entry) :=
  match keys with
  | [] => mret []
  | key :: keys =>
      if negb (HasPrefix key prefix) then read_rows prefix keys else
      entry ← in_execs (px_entry key);
      rest ← read_rows prefix keys;
      mret (match entry with Some e => e :: rest | None => rest end)
  end.

(** Nothing when the keys cannot be listed. *)
Definition requirement_rows (slug : string) : D S (option (list exec_entry)) :=
  listing ← in_execs px_keys;
  match listing with
  | NoKeysFound => mret (Some [])
  | Keys keys => rows ← read_rows ("req." +:+ slug +:+ ".") keys; mret (Some rows)
  | NoBucket | KeysErr => mret None
  end.

Definition countTerminalRequirements (slug : string) : D S (option terminal_counts) :=
  rows ← requirement_rows slug; mret (count_rows <$> rows).

Definition converge_body (slug : string) (plan : Plan) : D S () :=
  if EffectiveStatus plan !=? StatusImplementing then mret () else
  if is_nil (pRequirements plan) then mret () else
  counts ← countTerminalRequirements slug;
  match counts with
  | None => mret ()
  | Some c =>
      let failed := augmentFailedWithBlocked plan c in
      if bool_decide (tcCompleted c + failed < Z.of_nat (length (pRequirements plan)))%Z then mret ()
      else in_plans (converged plan failed)
  end.

Definition checkPlanConvergence (slug : string) : D S () :=
  p ← in_plans (get E slug);
  match p with
  | None => mret ()
  | Some plan => converge_body slug plan
  end.

(** ** The watcher *)

(** [entry] is the decoded row and its key. *)
Definition handleRequirementStateChange (key : string) (row : option RequirementExecution) (replayDone : bool) :
    D S () :=
  match row with
  | None => mret ()
  | Some r =>
      if negb (isTerminalStage (reStage r)) then mret () else
      let slug := if reSlug r =? "" then slugFromKey key else reSlug r in
      if slug =? "" then mret () else
      if negb replayDone then mret () else
      (if (reStage r =? "completed") && (reRequirementID r !=? "")
       then in_plans (autoArchiveExhaustionDecisions slug (reRequirementID r)
                        "requirement completed after exhaustion") else mret ());;
      (if (reStage r =? "error") && (reErrorClass r =? ErrorClassInfrastructure)
       then in_plans (markPlanInfraCritical slug) else mret ());;
      checkPlanConvergence slug;;
      (if reStage r =? "completed" then in_plans (refire slug) else mret ())
  end.

(** [list]: the plans of the cache, newest first. *)
Definition newer (p q : Plan) : Prop := (pCreatedAt q ≤ pCreatedAt p)%Z.
#[local] Instance newer_dec p q : Decision (newer p q).
Proof. unfold newer. apply _. Defined.

Definition list_plans : M (list Plan) :=
  w ← read;
  mret (merge_sort newer (omap (λ k, wCache w !! k) (cvListOrder cfg (wTick w) (dom (wCache w))))).

Fixpoint check_all (plans : list Plan) : D S () :=
  match plans with
  | [] => mret ()
  | plan :: plans =>
      (if EffectiveStatus plan =? StatusImplementing then checkPlanConvergence (pSlug plan) else mret ());;
      check_all plans
  end.

Definition checkPostReplayConvergence : D S () :=
  plans ← in_plans list_plans; check_all plans.

(** What the watcher delivers: the end of the replay, a put, or a deletion. *)
Inductive row_event :=
| EvReplayDone
| EvPut (key : string) (row : option RequirementExecution)
| EvDelete (key : string).

Fixpoint watch_events (replayDone : bool) (events : list row_event) : D S () :=
  match events with
  | [] => mret ()
  | EvReplayDone :: events => checkPostReplayConvergence;; watch_events true events
  | EvPut key row :: events => handleRequirementStateChange key row replayDone;; watch_events replayDone events
  | EvDelete _ :: events => watch_events replayDone events
  end.

Definition watchExecutionCompletions : list row_event → D S () := watch_events false.
End convergence.

(** ** Lemmas: requirements blocked by a failure *)

(** [r] depends directly on [d]. *)
Definition depends (requirements : list Requirement) (d r : string) : Prop :=
  ∃ req, req ∈ requirements ∧ rID req = r ∧ d ∈ rDependsOn req.

Lemma depends_app_l reqs reqs' d r : depends reqs d r → depends (reqs ++ reqs') d r.
Proof. intros (q & Hq & ?). exists q. split; [apply elem_of_app; by left|done]. Qed.

(** One pass grows the set, within the requirements, along dependencies, and
    reports whether it did. *)
Lemma block_pass requirements X b :
  let '(Y, b') := foldl block_req (X, b) requirements in
  X ⊆ Y ∧ Y ⊆ X ∪ list_to_set (rID <$> requirements) ∧
  (b' = false → b = false ∧ Y = X ∧ ∀ d r, d ∈ X → depends requirements d r → r ∈ X) ∧
  (b' = true → b = true ∨ ∃ z, z ∈ Y ∧ z ∉ X) ∧
  (∀ z, z ∈ Y → ∃ f, f ∈ X ∧ rtc (depends requirements) f z).
Proof.
  induction requirements as [|req reqs IH] using rev_ind; simpl.
  { split_and!; [set_solver..| | |].
    - intros ->. split_and!; [done..|]. intros d r _ (q & Hq & _). by apply not_elem_of_nil in Hq.
    - by left.
    - intros z Hz. exists z. by split. }
  rewrite foldl_snoc. destruct (foldl block_req (X, b) reqs) as [Y b1].
  destruct IH as (H1 & H2 & H3 & H4 & H5). rewrite fmap_app, list_to_set_app_L. simpl.
  assert (H2' : Y ⊆ X ∪ (list_to_set (rID <$> reqs) ∪ ({[rID req]} ∪ ∅))) by (clear -H2; set_solver).
  assert (Hm : ∀ f z, rtc (depends reqs) f z → rtc (depends (reqs ++ [req])) f z).
  { intros f z. apply rtc_subrel. intros x y. apply depends_app_l. }
  assert (Hold : ∀ z, z ∈ Y → ∃ f, f ∈ X ∧ rtc (depends (reqs ++ [req])) f z) by naive_solver.
  assert (Hstay : ∀ P : Prop, (∀ d r, d ∈ Y → depends [req] d r → r ∈ Y) →
    (b1 = false → b = false ∧ Y = X ∧ ∀ d r, d ∈ X → depends (reqs ++ [req]) d r → r ∈ X)).
  { intros _ Hl Hb. destruct (H3 Hb) as (? & -> & Hc). split_and!; [done..|].
    intros d r Hd (q & [Hq|Hq]%elem_of_app & Hqr & Hqd); [apply (Hc d); [done|by exists q]|].
    apply (Hl d); [done|by exists q]. }
  unfold block_req. simpl. case_bool_decide as E1; simpl.
  { split_and!; [done|exact H2'| |done|done]. apply (Hstay True).
    intros d r _ (q & ->%list_elem_of_singleton & <- & _). done. }
  case_bool_decide as E2; simpl.
  - apply Exists_exists in E2 as (d & Hd & HdY). split_and!; [clear -H1; set_solver|clear -H2; set_solver|done| |].
    + intros _. right. exists (rID req). clear -H1 E1. set_solver.
    + intros z [->%elem_of_singleton|Hz]%elem_of_union; [|by apply Hold].
      destruct (Hold d HdY) as (f & Hf & Hr). exists f. split; [done|]. eapply rtc_r; [done|].
      exists req. split_and!; [apply elem_of_app; right; by apply list_elem_of_singleton|done|done].
  - split_and!; [done|exact H2'| |done|done]. apply (Hstay True).
    intros d r HdY (q & ->%list_elem_of_singleton & _ & Hdq). destruct E2. apply Exists_exists. eauto.
Qed.

Lemma block_loop_spec (n : nat) (requirements : list Requirement) (X : gset string) :
  (size (list_to_set (rID <$> requirements) ∖ X) ≤ n)%nat →
  ∀ x, x ∈ block_loop n requirements X ↔ ∃ f, f ∈ X ∧ rtc (depends requirements) f x.
Proof.
  revert X. induction n as [|n IH]; intros X Hn x; simpl.
  - assert (Hsub : list_to_set (rID <$> requirements) ∖ X ≡ ∅) by (apply size_empty_inv; lia).
    split; [intros Hx; exists x; by split|]. intros (f & Hf & Hr).
    apply rtc_inv_r in Hr as [->|(y & _ & (q & Hq & <- & _))]; [done|].
    destruct (decide (rID q ∈ X)) as [?|Hno]; [done|]. exfalso.
    apply (not_elem_of_empty (C := gset string) (rID q)), Hsub, elem_of_difference. split; [|done].
    apply elem_of_list_to_set, list_elem_of_fmap. eauto.
  - pose proof (block_pass requirements X false) as Hp.
    destruct (foldl block_req (X, false) requirements) as [Y [|]]; destruct Hp as (H1 & H2 & H3 & H4 & H5).
    + destruct (H4 eq_refl) as [?|(z & HzY & HzX)]; [done|]. rewrite IH.
      * split.
        -- intros (f & Hf & Hr). destruct (H5 _ Hf) as (g & Hg & Hgr). exists g. split; [done|]. by etrans.
        -- intros (f & Hf & Hr). exists f. split; [by apply H1|done].
      * assert (Hsub : list_to_set (rID <$> requirements) ∖ Y ⊂ list_to_set (rID <$> requirements) ∖ X)
          by (clear -H1 H2 HzY HzX; set_solver).
        apply subset_size in Hsub. lia.
    + destruct (H3 eq_refl) as (_ & -> & Hc). split; [intros Hx; exists x; by split|].
      intros (f & Hf & Hr). clear -Hf Hr Hc. induction Hr as [y|y z t Hyz Hr IHr]; [done|]. eauto.
Qed.

Lemma size_missing (requirements : list Requirement) (X : gset string) :
  (size (list_to_set (rID <$> requirements) ∖ X : gset string) ≤ length requirements)%nat.
Proof.
  pose proof (subseteq_size (list_to_set (rID <$> requirements) ∖ X) (list_to_set (rID <$> requirements))
    ltac:(set_solver)).
  pose proof (size_list_to_set_le (rID <$> requirements)) as Hl. rewrite length_fmap in Hl. lia.
Qed.

Lemma blocked_spec plan (failed : gset string) :
  ∃ B : gset string, countBlockedByFailure plan failed = Z.of_nat (size B) ∧
    ∀ x, x ∈ B ↔ (x ∉ failed) ∧ ∃ f, f ∈ failed ∧ rtc (depends (pRequirements plan)) f x.
Proof.
  unfold countBlockedByFailure. case_bool_decide as Hz.
  - exists ∅. split; [done|]. apply size_empty_inv in Hz. intros x. split; [set_solver|].
    intros (_ & f & Hf & _). exfalso. apply Hz in Hf. by apply not_elem_of_empty in Hf.
  - eexists. split; [done|]. intros x. rewrite elem_of_difference. rewrite block_loop_spec by apply size_missing. naive_solver.
Qed.

(** ** Lemmas: the counts *)

Definition completed_row (e : exec_entry) : Prop := eeStage e = "completed".
Definition failed_row (e : exec_entry) : Prop := eeStage e = "failed" ∨ eeStage e = "error".
#[export] Instance completed_row_dec e : Decision (completed_row e).
Proof. unfold completed_row. apply _. Defined.
#[export] Instance failed_row_dec e : Decision (failed_row e).
Proof. unfold failed_row. apply _. Defined.

Lemma count_rows_spec rows :
  tcCompleted (count_rows rows) = Z.of_nat (length (filter completed_row rows)) ∧
  tcFailed (count_rows rows) = Z.of_nat (length (filter failed_row rows)) ∧
  ∀ x, x ∈ tcFailedIDs (count_rows rows) ↔ x ≠ "" ∧ ∃ e, e ∈ rows ∧ failed_row e ∧ eeRequirementID e = x.
Proof.
  unfold count_rows. induction rows as [|e rows IH] using rev_ind; [split_and!; [done..|set_solver]|].
  rewrite foldl_snoc. destruct (foldl count_row _ rows) as [c f ids].
  cbn [tcCompleted tcFailed tcFailedIDs] in IH. destruct IH as (-> & -> & Hids).
  rewrite !filter_app, !length_app. unfold count_row. cbn [tcCompleted tcFailed tcFailedIDs] in *.
  setoid_rewrite elem_of_app. setoid_rewrite list_elem_of_singleton.
  destruct (eeStage e =? "completed") eqn:E1; breflect.
  { rewrite filter_cons_True by done. rewrite (filter_cons_False failed_row) by (unfold failed_row; rewrite E1; by intros [?|?]).
    cbn [tcCompleted tcFailed tcFailedIDs length]. split_and!; [simpl; lia|simpl; lia|].
    intros x. rewrite Hids. split; [naive_solver|]. intros (Hx & e' & [?| ->] & Hf & ?); [eauto|].
    unfold failed_row in Hf. rewrite E1 in Hf. by destruct Hf. }
  rewrite (filter_cons_False completed_row) by done.
  destruct (decide (failed_row e)) as [Hf|Hf].
  - assert ((eeStage e =? "failed") || (eeStage e =? "error") = true) as -> by (breflect; exact Hf).
    rewrite filter_cons_True by done. cbn [tcCompleted tcFailed tcFailedIDs length].
    split_and!; [simpl; lia|simpl; lia|]. intros x.
    destruct (eeRequirementID e =? "") eqn:E2; breflect.
    + rewrite Hids. split; [naive_solver|]. intros (Hx & e' & [?| ->] & ? & ?); [eauto|congruence].
    + rewrite elem_of_union, elem_of_singleton, Hids. split; [naive_solver|].
      intros (Hx & e' & [?| ->] & ? & <-); [right; eauto|by left].
  - assert ((eeStage e =? "failed") || (eeStage e =? "error") = false) as ->.
    { unfold failed_row in Hf. destruct (_ || _) eqn:Eo; [|done]. breflect. by destruct Hf. }
    rewrite filter_cons_False by done. cbn [tcCompleted tcFailed tcFailedIDs length].
    split_and!; [simpl; lia|simpl; lia|]. intros x. rewrite Hids. split; [naive_solver|].
    intros (Hx & e' & [?| ->] & ? & ?); [eauto|done].
Qed.

(** The rows are those of the plan: requirements have identifiers of their
    own, no two terminal rows are of one requirement, each is of a requirement
    of the plan, and nothing completed depends on a failure. *)
Record honest (plan : Plan) (rows : list exec_entry) : Prop := {
  hon_reqs : NoDup (rID <$> pRequirements plan);
  hon_rows : NoDup (eeRequirementID <$> filter (λ e, completed_row e ∨ failed_row e) rows);
  hon_named e : e ∈ rows → completed_row e ∨ failed_row e →
    eeRequirementID e ≠ "" ∧ eeRequirementID e ∈ (rID <$> pRequirements plan);
  hon_order e f : e ∈ rows → f ∈ rows → completed_row e → failed_row f →
    ¬ rtc (depends (pRequirements plan)) (eeRequirementID f) (eeRequirementID e) }.

(** The requirement has a terminal row, or will never be dispatched. *)
Definition finished (plan : Plan) (rows : list exec_entry) (id : string) : Prop :=
  (∃ e, e ∈ rows ∧ completed_row e ∧ eeRequirementID e = id) ∨
  (∃ f, f ∈ rows ∧ failed_row f ∧ rtc (depends (pRequirements plan)) (eeRequirementID f) id).

Definition ids_of (P : exec_entry → Prop) `{∀ e, Decision (P e)} (rows : list exec_entry) : gset string :=
  list_to_set (eeRequirementID <$> filter P rows).

Lemma elem_of_ids_of P `{∀ e, Decision (P e)} rows x :
  x ∈ ids_of P rows ↔ ∃ e, e ∈ rows ∧ P e ∧ eeRequirementID e = x.
Proof.
  unfold ids_of. rewrite elem_of_list_to_set, list_elem_of_fmap.
  setoid_rewrite list_elem_of_filter. naive_solver.
Qed.

Lemma size_ids_of P `{∀ e, Decision (P e)} rows :
  NoDup (eeRequirementID <$> filter P rows) → size (ids_of P rows) = length (filter P rows).
Proof. intros Hnd. unfold ids_of. rewrite size_list_to_set by done. by rewrite length_fmap. Qed.

Lemma NoDup_filter_sub (P Q : exec_entry → Prop) `{∀ e, Decision (P e), ∀ e, Decision (Q e)} rows :
  (∀ e, P e → Q e) → NoDup (eeRequirementID <$> filter Q rows) → NoDup (eeRequirementID <$> filter P rows).
Proof.
  intros HPQ Hnd. eapply sublist_NoDup; [exact Hnd|]. clear Hnd. induction rows as [|e rows IH]; [done|].
  rewrite !filter_cons. destruct (decide (P e)), (decide (Q e)); simpl; try naive_solver.
  - by constructor.
  - by constructor.
Qed.

Section counted.
Context (plan : Plan) (rows : list exec_entry) (Hh : honest plan rows).

Lemma honest_failed_ids x : x ∈ tcFailedIDs (count_rows rows) ↔ x ∈ ids_of failed_row rows.
Proof.
  destruct (count_rows_spec rows) as (_ & _ & ->). rewrite elem_of_ids_of. split; [naive_solver|].
  intros (e & He & Hf & <-). split; [|eauto]. apply (hon_named _ _ Hh e); auto.
Qed.

(** The count reaches the number of requirements exactly when every one is
    finished. *)
Lemma counts_reach :
  (Z.of_nat (length (pRequirements plan)) ≤
     tcCompleted (count_rows rows) + augmentFailedWithBlocked plan (count_rows rows))%Z ↔
  ∀ r, r ∈ pRequirements plan → finished plan rows (rID r).
Proof.
  destruct (count_rows_spec rows) as (Hc & Hf & _). unfold augmentFailedWithBlocked. rewrite Hc, Hf.
  destruct (blocked_spec plan (tcFailedIDs (count_rows rows))) as (B & -> & HB).
  setoid_rewrite honest_failed_ids in HB.
  set (C := ids_of completed_row rows). set (F := ids_of failed_row rows) in *.
  set (R := list_to_set (rID <$> pRequirements plan) : gset string).
  assert (HC : size C = length (filter completed_row rows)).
  { apply size_ids_of, (NoDup_filter_sub _ (λ e, completed_row e ∨ failed_row e)); [by left|apply Hh]. }
  assert (HF : size F = length (filter failed_row rows)).
  { apply size_ids_of, (NoDup_filter_sub _ (λ e, completed_row e ∨ failed_row e)); [by right|apply Hh]. }
  assert (HR : size R = length (pRequirements plan)).
  { unfold R. rewrite size_list_to_set by apply Hh. by rewrite length_fmap. }
  assert (HCF : C ## F).
  { intros x (e & He & Hec & <-)%elem_of_ids_of (f & Hfr & Hff & Hx)%elem_of_ids_of.
    apply (hon_order _ _ Hh e f); [done..|]. by rewrite Hx. }
  assert (HB1 : B ## C).
  { intros x (_ & f & Hfx & Hr)%HB (e & He & Hec & <-)%elem_of_ids_of.
    apply elem_of_ids_of in Hfx as (g & Hg & Hgf & <-). by apply (hon_order _ _ Hh e g). }
  assert (HB2 : B ## F) by (intros x [? _]%HB ?; done).
  assert (Hsub : C ∪ F ∪ B ⊆ R).
  { intros x. rewrite !elem_of_union. unfold R. rewrite elem_of_list_to_set.
    intros [[(e & He & Hec & <-)%elem_of_ids_of|(e & He & Hec & <-)%elem_of_ids_of]|(Hnf & f & Hfx & Hr)%HB];
      [apply (hon_named _ _ Hh e); auto..|].
    apply rtc_inv_r in Hr as [->|(y & _ & (q & Hq & <- & _))]; [done|]. apply list_elem_of_fmap. eauto. }
  assert (Hsize : size (C ∪ F ∪ B) = (length (filter completed_row rows) + length (filter failed_row rows) + size B)%nat).
  { rewrite size_union by set_solver. rewrite size_union by done. lia. }
  assert (Hfin : ∀ x, x ∈ C ∪ F ∪ B ↔ finished plan rows x).
  { intros x. rewrite !elem_of_union, HB. unfold finished. rewrite <- elem_of_ids_of. fold C.
    split.
    - intros [[Hx|Hx]|(_ & f & Hfx & Hr)]; [by left| |]; right.
      + apply elem_of_ids_of in Hx as (e & ? & ? & <-). exists e. split_and!; [done..|apply rtc_refl].
      + apply elem_of_ids_of in Hfx as (e & ? & ? & <-). eauto.
    - intros [Hx|(f & Hfr & Hff & Hr)]; [by auto|]. destruct (decide (x ∈ F)) as [?|?]; [by auto|right].
      split; [done|]. exists (eeRequirementID f). split; [apply elem_of_ids_of; eauto|done]. }
  split.
  - intros Hle r Hr. apply Hfin. assert (Heq : C ∪ F ∪ B = R).
    { apply set_subseteq_size_eq; [done|]. rewrite Hsize, HR. lia. }
    rewrite Heq. unfold R. apply elem_of_list_to_set, list_elem_of_fmap. eauto.
  - intros Hall. assert (R ⊆ C ∪ F ∪ B) as Hge%subseteq_size; [|lia].
    intros x (r & -> & Hr)%elem_of_list_to_set%list_elem_of_fmap. by apply Hfin, Hall.
Qed.

(** With no failure counted, every requirement is completed. *)
Lemma counts_all_completed :
  (Z.of_nat (length (pRequirements plan)) ≤
     tcCompleted (count_rows rows) + augmentFailedWithBlocked plan (count_rows rows))%Z →
  augmentFailedWithBlocked plan (count_rows rows) = 0%Z →
  ∀ r, r ∈ pRequirements plan → ∃ e, e ∈ rows ∧ completed_row e ∧ eeRequirementID e = rID r.
Proof.
  intros Hle Hz r Hr. destruct (proj1 counts_reach Hle r Hr) as [?|(f & Hfr & Hff & _)]; [done|exfalso].
  unfold augmentFailedWithBlocked in Hz. destruct (count_rows_spec rows) as (_ & Hf & _). rewrite Hf in Hz.
  destruct (blocked_spec plan (tcFailedIDs (count_rows rows))) as (B & HB & _). rewrite HB in Hz.
  assert (f ∈ filter failed_row rows) as Hin by (by apply list_elem_of_filter).
  destruct (filter failed_row rows); [by apply not_elem_of_nil in Hin|]. simpl in Hz. lia.
Qed.
End counted.

(** ** Lemmas: what the watcher stores *)

Lemma tracks_error plan msg t : tracks plan (with_error msg t plan).
Proof. by apply tracks_same. Qed.

Lemma tracks_own plan d : tracks plan (add_own d plan).
Proof. apply tracks_same; [done..|]. by apply (settled_app _ _ [d]). Qed.

Lemma assembled_plan sb plan log p log' e :
  assembleAndStageQAWorktree sb plan log = (p, log', e) →
  ∃ b c, p = set_pAssembledMergeCommit c (set_pAssembledBranch b plan).
Proof.
  unfold assembleAndStageQAWorktree. destruct (assembleRequirementBranches sb plan log) as [[q l] e'] eqn:Ea.
  destruct (assemble_cases _ _ _ _ _ _ Ea) as ((b & c & ->) & _). intros H. exists b, c.
  destruct e', sb; simplify_eq; try done. destruct (_ =? _); [by simplify_eq|].
  destruct (restage _ _ _). by simplify_eq.
Qed.

Lemma tracks_assembled sb plan log p log' e :
  assembleAndStageQAWorktree sb plan log = (p, log', e) → tracks plan p.
Proof. intros (b & c & ->)%assembled_plan. by apply tracks_same. Qed.

Lemma tracks_archived plan id reason t :
  tracks plan (set_pPlanDecisions (auto_archive id reason t <$> pPlanDecisions plan) plan).
Proof.
  apply tracks_same; [done..|]. unfold settled. simpl. induction (pPlanDecisions plan) as [|d ds IH]; [done|].
  simpl. rewrite !filter_cons. destruct (open_exhaustion {[id]} d) eqn:Eo.
  - assert (auto_archive id reason t d = set_dRejectionReasons (<["auto_archive" := reason]> (dRejectionReasons d))
      (set_dDecidedAt (Some t) (set_dStatus PlanDecisionStatusArchived d))) as -> by (unfold auto_archive; by rewrite Eo).
    rewrite decide_False; [by rewrite decide_False|].
    unfold open_exhaustion in Eo. breflect. destruct Eo as [[_ [-> | ->]] _]; done.
  - assert (auto_archive id reason t d = d) as -> by (unfold auto_archive; by rewrite Eo).
    destruct (decide _); simpl; [by constructor|done].
Qed.

#[export] Hint Resolve tracks_refl tracks_error tracks_own tracks_archived : semspec.

Section sound.
Context (E : Env) (cfg : conv_config).

Lemma writes_save_unit plan0 q : tracks plan0 q → writes (tracks plan0) (save E q;; mret ()).
Proof. intros. apply writes_bind; [by apply writes_save|auto with semspec]. Qed.

Lemma writes_now {A} plan0 (f : Z → M A) :
  (∀ t, writes (tracks plan0) (f t)) → writes (tracks plan0) (now E ≫= f).
Proof. intros. apply writes_bind; [apply looks_writes, looks_now|done]. Qed.

Lemma writes_reject plan0 q : tracks plan0 q → writes (tracks plan0) (reject_or_save E q).
Proof.
  intros Hq. apply writes_setStatus_bind; [done|]. intros p [e|] Hp; [by apply writes_save_unit|auto with semspec].
Qed.

Lemma writes_route plan0 q e : tracks plan0 q → writes (tracks plan0) (routeAssemblyConflict E q e).
Proof.
  intros Hq. apply writes_now. intros t. assert (Hq' := tracks_trans _ _ _ Hq (tracks_error q ("pre-QA assembly failed: " +:+ envErrorText E e) t)).
  destruct (is_conflict e); [|by apply writes_save_unit].
  apply writes_reject. eapply tracks_trans; [exact Hq'|apply tracks_own].
Qed.

Lemma writes_scope plan0 q missing : tracks plan0 q →
  writes (tracks plan0) (failPlanOnIncompleteScope E q missing).
Proof.
  intros Hq. apply writes_now. intros t. apply writes_reject. eapply tracks_trans; [exact Hq|].
  eapply tracks_trans; [apply tracks_error|apply tracks_own].
Qed.

Lemma looks_gap q : looks (scopeCompletenessGap E cfg q).
Proof.
  unfold scopeCompletenessGap. destruct (_ || _); [done|]. destruct (_ =? _); done.
Qed.

Lemma writes_qa P q : writes P (publishQARequestIfNeeded E cfg q).
Proof.
  apply writes_same. intros w. unfold publishQARequestIfNeeded, read, tick, send, mbind, M_bind, mret, M_ret.
  simpl. by repeat case_match.
Qed.

Lemma writes_advance plan0 q target : tracks plan0 q →
  writes (tracks plan0) (advance_converged E cfg q target).
Proof.
  intros Hq. apply writes_setStatus_bind; [done|]. intros p [e|] Hp; [|apply writes_qa].
  apply writes_setStatus_bind; [done|]. auto with semspec.
Qed.

Lemma writes_converged plan failed : writes (tracks plan) (converged E cfg plan failed).
Proof.
  unfold converged. case_bool_decide.
  - unfold handleConvergenceAllSucceeded. destruct (_ !=? _); [apply writes_advance, tracks_refl|].
    intros w. unfold mbind at 1, M_bind at 1, read. cbv beta iota.
    destruct (assembleAndStageQAWorktree _ _ _) as [[q log] e] eqn:Ea. apply tracks_assembled in Ea.
    revert w. change (writes (tracks plan) (set_sandbox log;; match e with
      | Some e => routeAssemblyConflict E q e
      | None => gap ← scopeCompletenessGap E cfg q; match gap with
        | inr e => t ← now E; save E (with_error ("Level-0 completeness gate could not run: " +:+ cvGapText cfg e) t q);; mret ()
        | inl missing => if is_nil missing then advance_converged E cfg q (targetForQALevel E (EffectiveQALevel plan) plan)
                         else failPlanOnIncompleteScope E q missing
        end
      end)).
    apply writes_bind; [auto with semspec|]. intros _. destruct e as [e|]; [by apply writes_route|].
    apply writes_bind; [apply looks_writes, looks_gap|]. intros [missing|g].
    + destruct (is_nil missing); [by apply writes_advance|by apply writes_scope].
    + apply writes_now. intros t. apply writes_save_unit. eapply tracks_trans; [done|apply tracks_error].
  - destruct (resolveAutoRejectOnExhaustion cfg plan); [|apply writes_save_unit, tracks_refl].
    apply writes_now. intros t. apply writes_setStatus_bind; [apply tracks_error|auto with semspec].
Qed.

Context {S : Type} `{ExecPort S}.

(** Every plan a reader sees is the one seen before or a later version. *)
Definition lawful (w w' : World) : Prop :=
  store_wf w → store_wf w' ∧ ∀ s, visible w' s = visible w s ∨
    ∃ p q, visible w s = Some p ∧ visible w' s = Some q ∧ tracks p q.

Lemma lawful_refl w : lawful w w.
Proof. intros Hwf. auto. Qed.

Lemma lawful_trans w1 w2 w3 : lawful w1 w2 → lawful w2 w3 → lawful w1 w3.
Proof.
  intros H12 H23 Hwf. destruct (H12 Hwf) as [Hwf2 Hv2]. destruct (H23 Hwf2) as [Hwf3 Hv3]. split; [done|].
  intros s. destruct (Hv3 s) as [->|(p & q & Hp & Hq & Ht)]; [done|].
  destruct (Hv2 s) as [Heq|(p' & q' & Hp' & Hq' & Ht')]; right.
  - rewrite Heq in Hp. eauto.
  - rewrite Hp in Hq'. injection Hq' as <-. exists p', q. split_and!; [done..|]. by eapply tracks_trans.
Qed.

Lemma lawful_ok slug w w' no : (store_wf w → handler_ok slug w w' no) → lawful w w'.
Proof. intros Hok Hwf. destruct (Hok Hwf) as [? _ ? _ _]. auto. Qed.

(** Reading a plan and storing only later versions of it. *)
Lemma lawful_with_plan {A} slug (dflt : A) (k : Plan → M A) w : (∀ plan, writes (tracks plan) (k plan)) →
  lawful w ((p ← get E slug; match p with None => mret dflt | Some plan => k plan end) w).1.
Proof.
  intros Hk. apply (lawful_ok (Some slug) _ _ false). intros Hwf. unfold mbind, M_bind.
  destruct (get E slug w) as [w1 [plan|]] eqn:Eg; [|by apply (unserved_ok E)].
  by apply (served_ok E slug plan w w1); [..|apply (Hk plan)|].
Qed.

Lemma lawful_archive slug id reason w : lawful w (autoArchiveExhaustionDecisions E slug id reason w).1.
Proof.
  apply (lawful_with_plan slug ()). intros plan. apply writes_now. intros t.
  destruct (existsb _ _); auto with semspec. apply writes_save_unit, tracks_archived.
Qed.

Lemma lawful_infra slug w : lawful w (markPlanInfraCritical E slug w).1.
Proof.
  apply (lawful_with_plan slug ()). intros plan. destruct (_ =? _); auto with semspec.
  apply writes_save_unit. by apply tracks_same.
Qed.

Lemma lawful_refire slug w : lawful w (refire E slug w).1.
Proof.
  apply (lawful_with_plan slug ()). intros plan. destruct (_ =? _); [|auto with semspec].
  apply writes_bind; auto with semspec.
Qed.

Lemma dlooks_rows prefix keys : dlooks (read_rows prefix keys : D S _).
Proof. induction keys as [|key keys IH]; cbn [read_rows]; look_auto. Qed.

Lemma dlooks_requirement_rows slug : dlooks (requirement_rows slug : D S _).
Proof. unfold requirement_rows. look_auto. apply dlooks_rows. Qed.

Lemma dlooks_counts slug : dlooks (countTerminalRequirements slug : D S _).
Proof. unfold countTerminalRequirements. look_auto. apply dlooks_requirement_rows. Qed.

Lemma dwrites_converge slug plan : dwrites (tracks plan) (converge_body E cfg slug plan : D S _).
Proof.
  unfold converge_body. destruct (_ !=? _); [apply dwrites_looks, dlooks_ret|].
  destruct (is_nil _); [apply dwrites_looks, dlooks_ret|].
  apply dwrites_bind; [apply dwrites_looks, dlooks_counts|]. intros [c|]; [|apply dwrites_looks, dlooks_ret].
  case_bool_decide; [apply dwrites_looks, dlooks_ret|]. apply dwrites_in_plans, writes_converged.
Qed.

Lemma lawful_check slug (ws : World * S) : lawful ws.1 (checkPlanConvergence E cfg slug ws).1.1.
Proof.
  apply (lawful_ok (Some slug) _ _ false). intros Hwf. unfold checkPlanConvergence. rewrite dbind_eq, in_plans_eq.
  cbn [fst snd]. destruct (get E slug ws.1) as [w1 [plan|]] eqn:Eg; cbn [fst snd]; [|by apply (unserved_ok E)].
  apply (served_ok E slug plan ws.1 w1); [done|done|apply (dwrites_converge slug plan (w1, ws.2))|done].
Qed.

Definition dlawful {A} (m : D S A) : Prop := ∀ ws, lawful ws.1 (m ws).1.1.

Lemma dlawful_ret {A} (x : A) : dlawful (mret x).
Proof. intros ws. apply lawful_refl. Qed.
Lemma dlawful_bind {A B} (m : D S A) (f : A → D S B) : dlawful m → (∀ x, dlawful (f x)) → dlawful (m ≫= f).
Proof. intros Hm Hf ws. rewrite dbind_eq. eapply lawful_trans; [apply Hm|apply Hf]. Qed.
Lemma dlawful_in_plans {A} (m : M A) : (∀ w, lawful w (m w).1) → dlawful (in_plans m).
Proof. intros Hm ws. rewrite in_plans_eq. apply Hm. Qed.

Lemma lawful_change key row replayDone : dlawful (handleRequirementStateChange E cfg key row replayDone : D S _).
Proof.
  unfold handleRequirementStateChange. destruct row as [r|]; [|apply dlawful_ret].
  destruct (negb _); [apply dlawful_ret|]. set (slug := if reSlug r =? "" then _ else _). clearbody slug.
  destruct (slug =? ""); [apply dlawful_ret|]. destruct (negb replayDone); [apply dlawful_ret|].
  apply dlawful_bind; [destruct (_ && _); [|apply dlawful_ret]; apply dlawful_in_plans; intros; apply lawful_archive|].
  intros _. apply dlawful_bind; [destruct (_ && _); [|apply dlawful_ret]; apply dlawful_in_plans; intros; apply lawful_infra|].
  intros _. apply dlawful_bind; [intros ws; apply lawful_check|]. intros _.
  destruct (_ =? _); [|apply dlawful_ret]. apply dlawful_in_plans. intros. apply lawful_refire.
Qed.

Lemma lawful_all plans : dlawful (check_all E cfg plans : D S _).
Proof.
  induction plans as [|p plans IH]; cbn [check_all]; [apply dlawful_ret|].
  apply dlawful_bind; [|done]. destruct (_ =? _); [|apply dlawful_ret]. intros ws. apply lawful_check.
Qed.

Lemma lawful_events replayDone events : dlawful (watch_events E cfg replayDone events : D S _).
Proof.
  revert replayDone. induction events as [|[|key row|key] events IH]; intros b; cbn [watch_events];
    [apply dlawful_ret| | |by apply IH].
  - apply dlawful_bind; [|by intros; apply IH]. apply dlawful_bind; [|intros; apply lawful_all].
    apply dlawful_in_plans. intros. apply lawful_refl.
  - apply dlawful_bind; [apply lawful_change|by intros; apply IH].
Qed.

Lemma get_keeps slug w : store_wf w →
  let w' := (get E slug w).1 in
  store_wf w' ∧ (∀ s, visible w' s = visible w s) ∧ wSandbox w' = wSandbox w.
Proof.
  intros Hwf w'. destruct (get E slug w) as [w1 r] eqn:Eg. subst w'. simpl.
  destruct (get_cases E slug w w1 r Hwf Eg) as (Hst & Hv & _). split_and!; [|done|].
  - intros s p Hs. by apply Hwf, Hst.
  - revert Eg. unfold get, tick, put_cache, read, mbind, M_bind, mret, M_ret. simpl.
    repeat case_match; by intros; simplify_eq/=.
Qed.

(** The check either leaves the world as its read found it, or the counts
    have reached the number of requirements. *)
Lemma check_cases slug (ws : World * S) p : store_wf ws.1 → visible ws.1 slug = Some p →
  let w1 := (get E slug ws.1).1 in
  let ws' := (checkPlanConvergence E cfg slug ws).1 in
  visible ws'.1 slug = Some p ∨
  ∃ ws2 rows, EffectiveStatus p = StatusImplementing ∧
    requirement_rows slug (w1, ws.2) = (ws2, Some rows) ∧ untouched w1 ws2.1 ∧
    (Z.of_nat (length (pRequirements p)) ≤
       tcCompleted (count_rows rows) + augmentFailedWithBlocked p (count_rows rows))%Z ∧
    ws' = ((converged E cfg p (augmentFailedWithBlocked p (count_rows rows)) ws2.1).1, ws2.2).
Proof.
  intros Hwf Hp w1 ws'. unfold ws', checkPlanConvergence. rewrite dbind_eq, in_plans_eq. cbn [fst snd].
  destruct (get E slug ws.1) as [w1' r] eqn:Eg. subst w1. cbn [fst snd].
  destruct (get_cases _ _ _ _ _ Hwf Eg) as (_ & Hv & Hr).
  assert (Hp1 : visible w1' slug = Some p) by (by rewrite Hv). destruct r as [plan|]; [|by left].
  rewrite Hp in Hr. injection Hr as <-. unfold converge_body.
  destruct (_ !=? _) eqn:Est; [by left|]. destruct (is_nil _); [by left|]. breflect.
  rewrite dbind_eq. unfold countTerminalRequirements. rewrite dbind_eq.
  pose proof (dlooks_requirement_rows slug (w1', ws.2)) as Hl.
  destruct (requirement_rows slug (w1', ws.2)) as [ws2 [rows|]] eqn:Er; cbn [fst snd] in *.
  2:{ left. destruct Hl as [[Hc Hk] _]. cbn. unfold visible in *. by rewrite Hc, Hk. }
  cbn [fmap option_fmap option_map mret D_ret fst snd]. case_bool_decide as Hlt.
  { left. destruct Hl as [[Hc Hk] _]. cbn. unfold visible in *. by rewrite Hc, Hk. }
  right. exists ws2, rows. rewrite in_plans_eq. split_and!; [done|done|done|lia|done].
Qed.

(** During the replay nothing is touched. *)
Lemma replay_inert events (ws : World * S) : EvReplayDone ∉ events →
  watch_events E cfg false events ws = (ws, ()).
Proof.
  induction events as [|[|key row|key] events IH]; intros Hno; cbn [watch_events];
    [done|set_solver| |apply IH; set_solver].
  rewrite dbind_eq. assert (Hr : handleRequirementStateChange E cfg key row false ws = (ws, ())).
  { unfold handleRequirementStateChange. destruct row; [|done]. destruct (negb (isTerminalStage _)); [done|].
    by destruct (_ =? ""). }
  rewrite Hr. apply IH. set_solver.
Qed.
End sound.

(** ** Lemmas: the way to QA *)

Section to_qa.
Context (E : Env) (cfg : conv_config).

Definition off_qa (p : Plan) : Prop := EffectiveStatus p ≠ StatusReadyForQA.

Lemma off_qa_status p target : target ≠ StatusReadyForQA → Status_IsValid target = true →
  off_qa (set_pStatus target p).
Proof.
  intros Hne Hv. unfold off_qa, EffectiveStatus. simpl. destruct (target !=? StatusOther "") eqn:Et; [done|].
  breflect. by subst.
Qed.

Lemma off_qa_set {A} p target (f : Plan * option store_error → M A) :
  target ≠ StatusReadyForQA → Status_IsValid target = true → off_qa p →
  (∀ q e, off_qa q → writes off_qa (f (q, e))) → writes off_qa (setPlanStatusCached E p target ≫= f).
Proof.
  intros Hne Hv Hp Hf w. unfold mbind, M_bind. destruct (setPlanStatusCached E p target w) as [w1 [q e]] eqn:Hs.
  apply evolves_trans with w1.
  - change w1 with (w1, (q, e)).1. rewrite <- Hs. apply writes_setStatus. intros _. by apply off_qa_status.
  - apply Hf. destruct (setStatus_plan _ _ _ _ _ _ _ Hs) as [[-> _]|[_ ->]]; [done|by apply off_qa_status].
Qed.

Lemma off_qa_reject p : off_qa p → writes off_qa (reject_or_save E p).
Proof.
  intros Hp. apply off_qa_set; [done..|]. intros q [e|] Hq; [|auto with semspec].
  apply writes_bind; [by apply writes_save|auto with semspec].
Qed.

Lemma off_qa_route p e : off_qa p → writes off_qa (routeAssemblyConflict E p e).
Proof.
  intros Hp. apply writes_bind; [apply looks_writes, looks_now|]. intros t. destruct (is_conflict e).
  - by apply off_qa_reject.
  - apply writes_bind; [by apply writes_save|auto with semspec].
Qed.

Lemma sandbox_save p w : wSandbox (save E p w).1 = wSandbox w.
Proof.
  unfold save, tick, put_cache, put_kv, read, mbind, M_bind, mret, M_ret.
  destruct (ValidateSlug _); [done|]. destruct (ioCtxErr _); [done|]. simpl. destruct (_ && _); [done|].
  by destruct (ioKvPutErr _), (ioGraphErr _).
Qed.

Lemma sandbox_setStatus p target w : wSandbox (setPlanStatusCached E p target w).1 = wSandbox w.
Proof.
  unfold setPlanStatusCached, mbind, M_bind, mret, M_ret. destruct (negb _); [done|].
  pose proof (sandbox_save (set_pStatus target p) w) as Hs. by destruct (save E _ w).
Qed.

Lemma sandbox_advance p target w : wSandbox (advance_converged E cfg p target w).1 = wSandbox w.
Proof.
  unfold advance_converged, mbind at 1, M_bind at 1. pose proof (sandbox_setStatus p target w) as Hs.
  destruct (setPlanStatusCached E p target w) as [w1 [q [e|]]]; simpl in Hs.
  - unfold mbind, M_bind, mret, M_ret.
    pose proof (sandbox_setStatus q (if shouldGateReview E q then StatusAwaitingReview else StatusComplete) w1) as Hs'.
    destruct (setPlanStatusCached E q _ w1). simpl in *. congruence.
  - rewrite <- Hs. unfold publishQARequestIfNeeded, read, tick, send, mbind, M_bind, mret, M_ret. simpl.
    by repeat case_match.
Qed.

(** What the gate has seen when it finds nothing missing. *)
Definition delivered (p : Plan) (log : list sandbox_call) : Prop :=
  is_Some (envSandbox E) → ∀ d, d ∈ scpCreate (pScope p) → TrimSpace d ≠ "" →
    pAssembledBranch p ≠ "" ∧
    ∃ files f, parse_ls (cvLsFiles cfg log (QAWorktreeID (pSlug p))) = inl files ∧ f ∈ files ∧
      Clean (TrimSpace f) = Clean (TrimSpace d).

Lemma undelivered_nil declared delivered : undeliveredScopeFiles declared delivered = [] →
  ∀ d, d ∈ declared → TrimSpace d ≠ "" → ∃ f, f ∈ delivered ∧ Clean (TrimSpace f) = Clean (TrimSpace d).
Proof.
  unfold undeliveredScopeFiles. intros Hnil d Hd Hne.
  destruct (decide (Clean (TrimSpace d) ∈ (list_to_set (Clean <$> filter (λ d, d ≠ "") (TrimSpace <$> delivered)) : gset string)))
    as [Hin|Hno].
  - apply elem_of_list_to_set, list_elem_of_fmap in Hin as (x & Hx & Hin).
    apply list_elem_of_filter in Hin as [_ Hin]. apply list_elem_of_fmap in Hin as (f & -> & Hf). eauto.
  - exfalso. apply (not_elem_of_nil (TrimSpace d)). rewrite <- Hnil. apply list_elem_of_filter.
    split; [done|]. apply list_elem_of_fmap. eauto.
Qed.

Lemma gap_nil p w : (scopeCompletenessGap E cfg p w).2 = inl [] → delivered p (wSandbox w).
Proof.
  unfold scopeCompletenessGap, delivered. intros Hg [sb Hsb] d Hd Hne. rewrite Hsb in Hg. simpl in Hg.
  destruct (is_nil (scpCreate (pScope p))) eqn:En; breflect; [rewrite En in Hd; by apply not_elem_of_nil in Hd|].
  destruct (pAssembledBranch p =? "") eqn:Eb; breflect; simpl in Hg.
  - injection Hg as Hg. destruct (undelivered_nil _ _ Hg d Hd Hne) as (f & Hf & _). by apply not_elem_of_nil in Hf.
  - unfold mbind, M_bind, assembledTrackedFiles, read, mret, M_ret in Hg. simpl in Hg.
    destruct (parse_ls _) as [files|]; [|done]. injection Hg as Hg.
    destruct (undelivered_nil _ _ Hg d Hd Hne) as (f & Hf & Heq). eauto 10.
Qed.

Lemma off_qa_save p : off_qa p → writes off_qa (save E p;; mret ()).
Proof. intros. apply writes_bind; [by apply writes_save|auto with semspec]. Qed.

Lemma off_qa_now {A} (f : Z → M A) : (∀ t, writes off_qa (f t)) → writes off_qa (now E ≫= f).
Proof. intros. apply writes_bind; [apply looks_writes, looks_now|done]. Qed.

Lemma off_qa_failed plan failed : off_qa plan → failed ≠ 0%Z → writes off_qa (converged E cfg plan failed).
Proof.
  intros Hp Hf. unfold converged. rewrite bool_decide_eq_false_2 by done.
  destruct (resolveAutoRejectOnExhaustion cfg plan); [|by apply off_qa_save].
  apply off_qa_now. intros t. apply off_qa_set; [done..| |auto with semspec]. exact Hp.
Qed.

Lemma off_qa_no_qa plan target : off_qa plan → target ≠ StatusReadyForQA → Status_IsValid target = true →
  writes off_qa (advance_converged E cfg plan target).
Proof.
  intros Hp Hne Hv. apply off_qa_set; [done..|]. intros p [e|] Hp'; [|apply writes_qa].
  apply off_qa_set; [by case_match..|done|]. auto with semspec.
Qed.

(** Storing only plans that are off QA leaves the plan off QA. *)
Lemma stays_off_qa slug plan q w0 w1 : visible w0 slug = Some plan → off_qa plan → store_wf w0 →
  evolves off_qa w0 w1 → visible w1 slug = Some q → EffectiveStatus q = StatusReadyForQA → False.
Proof.
  intros Hv0 Hoff Hwf0 Hev Hv1 Hst. destruct (Hev Hwf0) as (_ & _ & Hv).
  destruct (Hv slug) as [Heq|(p & Hp' & _ & Hop)].
  - rewrite Heq, Hv0 in Hv1. by injection Hv1 as <-.
  - rewrite Hv1 in Hp'. by injection Hp' as <-.
Qed.

(** The arm after a successful assembly. *)
Definition after_assembly (a : Plan) (target : Status) : M () :=
  gap ← scopeCompletenessGap E cfg a;
  match gap with
  | inr e => t ← now E; save E (with_error ("Level-0 completeness gate could not run: " +:+ cvGapText cfg e) t a);; mret ()
  | inl missing => if is_nil missing then advance_converged E cfg a target else failPlanOnIncompleteScope E a missing
  end.

Lemma M_bind_eq {A B} (m : M A) (f : A → M B) w : (m ≫= f) w = f (m w).2 (m w).1.
Proof. unfold mbind, M_bind. by destruct (m w). Qed.

Lemma after_assembly_qa slug plan a w q : store_wf w → visible w slug = Some plan → off_qa plan → off_qa a →
  let w' := (after_assembly a StatusReadyForQA w).1 in
  visible w' slug = Some q → EffectiveStatus q = StatusReadyForQA →
  wSandbox w' = wSandbox w ∧ delivered a (wSandbox w).
Proof.
  intros Hwf Hp Hoff Hoa w' Hq Hst. revert Hq. unfold w', after_assembly. rewrite M_bind_eq.
  pose proof (looks_gap E cfg a w) as Hl. pose proof (gap_nil a w) as Hg.
  destruct (scopeCompletenessGap E cfg a w) as [w2 gap]; cbn [fst snd] in *. destruct Hl as ([Hc Hk] & _ & Hs).
  assert (Hp2 : visible w2 slug = Some plan) by (unfold visible; by rewrite Hc, Hk).
  assert (Hwf2 : store_wf w2) by (intros s p; unfold stored; rewrite Hc, Hk; apply Hwf).
  destruct gap as [missing|g].
  - destruct (is_nil missing) eqn:Em; breflect.
    + intros _. rewrite sandbox_advance. split; [done|]. apply Hg. by subst.
    + intros Hq. exfalso. eapply (stays_off_qa slug plan q w2); [done..| |exact Hq|done].
      apply off_qa_now. intros t. by apply off_qa_reject.
  - intros Hq. exfalso. eapply (stays_off_qa slug plan q w2); [done..| |exact Hq|done].
    apply off_qa_now. intros t. by apply off_qa_save.
Qed.

Lemma converged_to_qa slug plan failed w q :
  store_wf w → visible w slug = Some plan → off_qa plan →
  let w' := (converged E cfg plan failed w).1 in
  visible w' slug = Some q → EffectiveStatus q = StatusReadyForQA →
  failed = 0%Z ∧ ∃ a log, assembleAndStageQAWorktree (envSandbox E) plan (wSandbox w) = (a, log, None) ∧
    wSandbox w' = log ∧ delivered a log.
Proof.
  intros Hwf Hp Hoff w' Hq Hst. destruct (decide (failed = 0%Z)) as [->|Hf].
  2:{ exfalso. eapply (stays_off_qa slug plan q w); [done..|by apply (off_qa_failed plan failed)|exact Hq|done]. }
  split; [done|]. revert Hq. unfold w', converged. rewrite bool_decide_eq_true_2 by done.
  unfold handleConvergenceAllSucceeded. destruct (_ !=? _) eqn:Et; breflect.
  { intros Hq. exfalso. eapply (stays_off_qa slug plan q w); [done..| |exact Hq|done].
    apply off_qa_no_qa; [done..|]. unfold targetForQALevel. by repeat case_match. }
  rewrite Et, M_bind_eq. cbn [fst snd read].
  destruct (assembleAndStageQAWorktree (envSandbox E) plan (wSandbox w)) as [[a log] e] eqn:Ea.
  assert (Hoa : off_qa a) by (destruct (assembled_plan _ _ _ _ _ _ Ea) as (b & c & ->); exact Hoff).
  rewrite M_bind_eq. cbn [fst snd set_sandbox]. set (w1 := MkWorld _ _ _ _ log).
  destruct e as [e|].
  { intros Hq. exfalso. eapply (stays_off_qa slug plan q w1); [exact Hp|done|exact Hwf| |exact Hq|done].
    by apply off_qa_route. }
  intros Hq. exists a, log. split; [done|].
  exact (after_assembly_qa slug plan a w1 q Hwf Hp Hoff Hoa Hq Hst).
Qed.
End to_qa.

Lemma save_cached E q w : ValidateSlug (pSlug q) = None → ioCtxErr (envIO E (wTick w)) = false →
  wCache (save E q w).1 !! pSlug q = Some q.
Proof.
  intros Hs Hc. unfold save, tick, put_cache, put_kv, read, mbind, M_bind, mret, M_ret. rewrite Hs, Hc. simpl.
  destruct (_ && _); [apply lookup_insert_eq|]. destruct (ioKvPutErr _), (ioGraphErr _); apply lookup_insert_eq.
Qed.

(** A rejection whose save is not cancelled is visible, whether or not the
    save reports an error. *)
Lemma reject_visible E q w : ValidateSlug (pSlug q) = None → ioCtxErr (envIO E (wTick w)) = false →
  Status_CanTransitionTo (EffectiveStatus q) StatusRejected = true →
  wCache (reject_or_save E q w).1 !! pSlug q = Some (set_pStatus StatusRejected q).
Proof.
  intros Hs Hc Ht. unfold reject_or_save. rewrite M_bind_eq. unfold setPlanStatusCached. rewrite Ht. cbn [negb].
  rewrite M_bind_eq. pose proof (save_cached E (set_pStatus StatusRejected q) w Hs Hc) as Hw.
  destruct (save E (set_pStatus StatusRejected q) w) as [w1 [e|]]; cbn [fst snd mret M_ret] in *; [|done].
  rewrite M_bind_eq. cbn [fst snd mret M_ret].
  destruct (save E (set_pStatus StatusRejected q) w1) as [w2 r] eqn:E2.
  apply save_cases in E2 as [[[Hc2 _] _]|(_ & Hc2 & _)]; cbn [fst]; rewrite Hc2; [done|].
  by rewrite lookup_insert_eq.
Qed.

(** ** Theorems *)

(** The blocked count is the number of requirements that are not failed
    themselves and lie downstream of a failed one, along any chain of
    dependencies and also when the dependencies form a cycle: the passes of
    the loop, at most one per requirement, compute the whole transitive
    closure, and more passes would add nothing. *)
Theorem blocked_is_closure plan (failed : gset string) :
  (∃ B : gset string, countBlockedByFailure plan failed = Z.of_nat (size B) ∧
    ∀ x, x ∈ B ↔ (x ∉ failed) ∧ ∃ f, f ∈ failed ∧ rtc (depends (pRequirements plan)) f x) ∧
  ∀ n, (length (pRequirements plan) ≤ n)%nat →
    block_loop n (pRequirements plan) failed =
    block_loop (length (pRequirements plan)) (pRequirements plan) failed.
Proof.
  split; [apply blocked_spec|]. intros n Hn. apply set_eq. intros x.
  pose proof (size_missing (pRequirements plan) failed).
  rewrite !block_loop_spec by lia. done.
Qed.

(** The convergence count is exact when the rows are the plan's own (each
    terminal row is of one of its requirements, no requirement has two, and
    nothing completed sits downstream of a failure): it reaches the number
    of requirements exactly when every requirement has a completed row, a
    failed one, or depends on a failed one and will never be dispatched. *)
Theorem convergence_exact plan rows : honest plan rows →
  (Z.of_nat (length (pRequirements plan)) ≤
     tcCompleted (count_rows rows) + augmentFailedWithBlocked plan (count_rows rows))%Z ↔
  ∀ r, r ∈ pRequirements plan → finished plan rows (rID r).
Proof. apply counts_reach. Qed.

(** C21: A plan the convergence check makes ready for QA has passed its checks.
    It was implementing and the rows could be read.  With a sandbox the
    requirement branches were merged and the QA worktree was staged without an
    error, no sandbox call came after, and every file its scope promises to
    create is tracked in that worktree (up to [path.Clean]); without a sandbox
    assembly does nothing and no file is looked for.  In both cases, when the
    rows are the plan's own, every requirement has a completed row. *)
Theorem plan_sent_to_qa_checked E cfg {S} `{ExecPort S} slug (ws : World * S) p q :
  store_wf ws.1 → visible ws.1 slug = Some p → EffectiveStatus p ≠ StatusReadyForQA →
  let w' := (checkPlanConvergence E cfg slug ws).1.1 in
  visible w' slug = Some q → EffectiveStatus q = StatusReadyForQA →
  EffectiveStatus p = StatusImplementing ∧
  ∃ rows a, (requirement_rows slug ((get E slug ws.1).1, ws.2)).2 = Some rows ∧
    assembleAndStageQAWorktree (envSandbox E) p (wSandbox ws.1) = (a, wSandbox w', None) ∧
    delivered E cfg a (wSandbox w') ∧
    (honest p rows → ∀ r, r ∈ pRequirements p → ∃ e, e ∈ rows ∧ completed_row e ∧ eeRequirementID e = rID r).
Proof.
  intros Hwf Hp Hoff w' Hq Hst.
  destruct (check_cases E cfg slug ws p Hwf Hp) as [Hsame|(ws2 & rows & Himp & Hrows & Hun & Hge & Hws)].
  { unfold w' in Hq. rewrite Hsame in Hq. by injection Hq as <-. }
  split; [done|]. unfold w' in *. rewrite Hws in *. cbn [fst snd] in *.
  destruct (get_keeps E slug ws.1 Hwf) as (Hwf1 & Hv1 & Hsb1).
  destruct Hun as ([Hc Hk] & _ & Hsb).
  assert (Hp2 : visible ws2.1 slug = Some p) by (unfold visible in *; by rewrite Hc, Hk, Hv1).
  assert (Hwf2 : store_wf ws2.1) by (intros s x; unfold stored; rewrite Hc, Hk; apply Hwf1).
  destruct (converged_to_qa E cfg slug p _ ws2.1 q Hwf2 Hp2 Hoff Hq Hst) as (Hz & a & log & Ha & Hlog & Hd).
  exists rows, a. rewrite Hrows, Hlog, <- Hsb1, <- Hsb. split_and!; [done..|].
  intros Hh. by apply counts_all_completed.
Qed.

(** Everything the watcher of the execution rows does to the plans is
    lawful.  Before the replay of the bucket has ended it changes nothing;
    afterwards, whatever rows it sees and whatever fails, the store stays
    well-formed, every plan a reader sees is the one seen before or a later
    version of it (its status moved along the plan's state machine, what was
    decided stayed decided), and no plan appears or disappears. *)
Theorem execution_events_sound E cfg {S} `{ExecPort S} replay events (ws : World * S) :
  EvReplayDone ∉ replay → store_wf ws.1 →
  watchExecutionCompletions E cfg replay ws = (ws, ()) ∧
  let w' := (watchExecutionCompletions E cfg (replay ++ EvReplayDone :: events)%list ws).1.1 in
  store_wf w' ∧ ∀ s, visible w' s = visible ws.1 s ∨
    ∃ p q, visible ws.1 s = Some p ∧ visible w' s = Some q ∧ tracks p q.
Proof. intros Hno Hwf. split; [by apply replay_inert|]. by apply lawful_events. Qed.

(** The blocked count does not leave out requirements that have a row of
    their own: a requirement completed before the requirement it depends on
    failed is counted twice, once as completed and once as blocked.  In a
    plan where A failed after B, which depends on A, had completed, the
    count of three is reached while C is still running, and in autonomous
    mode the plan is rejected under it. *)
Theorem completed_dependents_counted_twice E cfg {S} `{ExecPort S} slug p (ws ws2 : World * S) rows :
  rID <$> pRequirements p = ["A"; "B"; "C"] → rDependsOn <$> pRequirements p = [[]; ["A"]; []] →
  EffectiveStatus p = StatusImplementing → resolveAutoRejectOnExhaustion cfg p = true →
  requirement_rows slug ws = (ws2, Some rows) →
  (λ e, (eeRequirementID e, eeStage e)) <$> rows = [("A", "failed"); ("B", "completed"); ("C", "executing")] →
  ∃ t, converge_body E cfg slug p ws =
    in_plans (setPlanStatusCached E (with_error (reject_message 2 3) t p) StatusRejected;; mret ())
      ((now E ws2.1).1, ws2.2).
Proof.
  intros Hids Hdeps Hst Hauto Hrows Hstages. unfold converge_body.
  destruct p.(pRequirements) as [|a [|b [|c [|? ?]]]] eqn:Er; try done. injection Hids as Ha Hb Hc.
  injection Hdeps as HA HB HC. destruct rows as [|f [|g [|h [|? ?]]]]; try done.
  injection Hstages as Hf1 Hf2 Hg1 Hg2 Hh1 Hh2. rewrite Hst.
  change (StatusImplementing !=? StatusImplementing) with false. cbn [is_nil]. cbv iota.
  rewrite dbind_eq. unfold countTerminalRequirements. rewrite dbind_eq, Hrows. cbn [fst snd mret D_ret fmap option_fmap option_map].
  assert (Hcount : count_rows [f; g; h] = MkCounts 1 1 {["A"]}).
  { unfold count_rows, count_row. cbn. rewrite Hf1, Hf2, Hg2, Hh2. cbn. by rewrite union_empty_r_L. }
  rewrite Hcount. assert (Haug : augmentFailedWithBlocked p (MkCounts 1 1 {["A"]}) = 2%Z).
  { unfold augmentFailedWithBlocked, countBlockedByFailure. rewrite Er. cbn [tcFailed tcFailedIDs length].
    rewrite size_singleton. cbn [bool_decide]. unfold block_loop, foldl, block_req. rewrite Ha, Hb, Hc, HA, HB, HC.
    by vm_compute. }
  rewrite Haug. cbn [tcCompleted length]. rewrite bool_decide_eq_false_2 by lia.
  exists (now E ws2.1).2. rewrite !in_plans_eq. unfold converged.
  rewrite bool_decide_eq_false_2 by lia. by rewrite Hauto, Er, M_bind_eq.
Qed.

(** When the graph write of the transition to ready_for_qa fails, the plan
    is stuck: the store keeps the new status, the fallback to complete or
    awaiting_review is refused because the state machine has no such
    transition, no QA request goes out, and every later convergence check
    returns at once without storing or sending anything. *)
Theorem qa_request_lost E cfg plan w :
  store_wf w → ValidateSlug (pSlug plan) = None → EffectiveStatus plan = StatusImplementing →
  (let o := envIO E (wTick w) in ioCtxErr o = false ∧ ioMarshalErr o = false ∧ ioGraphErr o = true) →
  let w' := (advance_converged E cfg plan StatusReadyForQA w).1 in
  visible w' (pSlug plan) = Some (set_pStatus StatusReadyForQA plan) ∧ wOut w' = wOut w ∧
  ∀ S (P : ExecPort S) (s : S),
    let ws' := (checkPlanConvergence E cfg (pSlug plan) (w', s)).1 in
    visible ws'.1 (pSlug plan) = Some (set_pStatus StatusReadyForQA plan) ∧ wOut ws'.1 = wOut w.
Proof.
  intros Hwf Hslug Hst (Hctx & Hmar & Hgr) w'.
  assert (Hset : ∃ w1, setPlanStatusCached E plan StatusReadyForQA w =
            (w1, (set_pStatus StatusReadyForQA plan, Some GraphErr)) ∧
          wCache w1 !! pSlug plan = Some (set_pStatus StatusReadyForQA plan) ∧ wOut w1 = wOut w).
  { unfold setPlanStatusCached. rewrite Hst. change (negb _) with false. cbv iota.
    unfold save, put_cache, put_kv, read, tick, mbind, M_bind, mret, M_ret.
    change (pSlug (set_pStatus StatusReadyForQA plan)) with (pSlug plan).
    rewrite Hslug, Hctx, Hmar, Hgr, andb_false_r.
    destruct (ioKvPutErr _); eexists; (split_and!; [reflexivity|apply lookup_insert_eq|done]). }
  destruct Hset as (w1 & Hset & Hc & Hout).
  assert (Heq : w' = w1).
  { unfold w', advance_converged. rewrite M_bind_eq, Hset. cbn [fst snd]. rewrite M_bind_eq.
    unfold setPlanStatusCached. by destruct (shouldGateReview E _). }
  clearbody w'. subst w'. unfold visible. rewrite Hc. split_and!; [done..|].
  intros S P s. cbv zeta. unfold checkPlanConvergence. rewrite dbind_eq, in_plans_eq. cbn [fst snd].
  assert (Hget : ∃ w2, get E (pSlug plan) w1 = (w2, Some (set_pStatus StatusReadyForQA plan)) ∧
    wCache w2 = wCache w1 ∧ wOut w2 = wOut w1).
  { unfold get, tick, read, mbind, M_bind, mret, M_ret. cbn [wCache]. rewrite Hc. by eexists. }
  destruct Hget as (w2 & -> & Hc2 & Ho2). cbn [fst snd]. unfold converge_body.
  change (EffectiveStatus _ !=? _) with true. cbn. by rewrite Hc2, Hc, Ho2.
Qed.

(** The completeness gate's verdict reaches the recovery.  When files are
    missing, the plan a reader sees afterwards is rejected and carries one
    decision more, of kind scope_incomplete, that lists the missing files as
    contract terms to preserve; and the decision handler that then sees the
    plan for the first time accepts this decision by itself as long as the
    budget for the kind lasts. *)
Theorem gate_decision_recovers E acfg plan missing w t :
  ValidateSlug (pSlug plan) = None → EffectiveStatus plan = StatusImplementing → pRequirements plan ≠ [] →
  ioCtxErr (envIO E (S (wTick w))) = false →
  let w' := (failPlanOnIncompleteScope E plan missing w).1 in
  ∃ q d, visible w' (pSlug plan) = Some q ∧ EffectiveStatus q = StatusRejected ∧
    pPlanDecisions q = (pPlanDecisions plan ++ [d])%list ∧ dKind d = PlanDecisionKindScopeIncomplete ∧
    (ciAffectedIDs <$> dContractImpact d) = Some (scopeCompletenessAffectedIDs missing) ∧
    (budget_exhausted acfg (pPlanDecisions q) PlanDecisionKindScopeIncomplete = false →
     dID d ∈ (watch_entry acfg t (MkPlanView (pSlug q) (pPlanDecisions q)) ∅).2).
Proof.
  intros Hslug Hst Hreqs Hctx w'.
  set (t0 := ioNow (envIO E (wTick w))). set (p1 := with_error (gate_message plan missing) t0 plan).
  set (d := own_decision (envPlanEntityID E (pSlug plan)) p1 PlanDecisionKindScopeIncomplete
    "Declared scope.create files not delivered" (gate_message plan missing) (Some (gate_impact missing)) t0).
  set (q := set_pStatus StatusRejected (add_own d p1)).
  assert (Hv : wCache w' !! pSlug plan = Some q).
  { unfold w', failPlanOnIncompleteScope, now. rewrite !M_bind_eq. cbn [fst snd tick mret M_ret].
    apply (reject_visible E (add_own d p1)); [done..|]. change (EffectiveStatus _) with (EffectiveStatus plan). by rewrite Hst. }
  exists q, d. unfold visible. rewrite Hv. split_and!; [done..|]. intros Hb.
  destruct (watch_entry_ok acfg t (MkPlanView (pSlug q) (pPlanDecisions q)) ∅) as (_ & H2 & _). apply H2.
  split_and!; [|by apply map_lookup_filter_None; left|].
  - cbn. intros Hno. by rewrite Hno in Hslug.
  - exists d. split_and!; [apply elem_of_app; right; by apply list_elem_of_singleton|done|].
    split; [|done]. apply shouldAutoAccept_spec. unfold shouldAutoAcceptRecovery. cbn.
    destruct (pRequirements plan); [done|]. by vm_compute.
Qed.

(** ** Witnesses *)

(** A bucket with the given rows. *)
Definition exec_table : Type := list (string * exec_entry).
#[export] Instance exec_table_port : ExecPort exec_table := {
  px_keys t := (t, Keys t.*1);
  px_entry key t := (t, list_to_map (M := gmap string exec_entry) t !! key);
  px_reset_family _ _ t := (t, None);
  px_reset_key _ t := (t, false) }.

Definition row (id stage : string) : string * exec_entry := ("req.demo." +:+ id, MkExecEntry id stage []).

Definition listing_config (files : string) : conv_config :=
  MkConvConfig true (λ _, "go test ./...") (λ _ _, LsDone (Some (0%Z, files))) (λ _, "gap") (λ _ X, elements X).

Definition chain_plan : Plan :=
  set_pRequirements [sample_req "A" []; sample_req "B" ["A"]; sample_req "C" []] (demo_plan StatusImplementing).

Lemma blocked_is_closure_witness :
  countBlockedByFailure chain_plan {["A"]} = 1%Z ∧
  block_loop 7 (pRequirements chain_plan) {["A"]} = block_loop 3 (pRequirements chain_plan) {["A"]}.
Proof. split; [by vm_compute|]. apply (blocked_is_closure chain_plan {["A"]}). simpl. lia. Defined.

Definition chain_rows : list exec_entry := [(row "C" "completed").2; (row "A" "failed").2].

Lemma chain_honest : honest chain_plan chain_rows.
Proof.
  split.
  - apply (bool_decide_unpack _). by vm_compute.
  - apply (bool_decide_unpack _). by vm_compute.
  - intros e He _. repeat (apply elem_of_cons in He as [->|He]); [..|by apply not_elem_of_nil in He];
      (split; [done|]); apply (bool_decide_unpack _); by vm_compute.
  - intros e f He Hf Hce Hff. repeat (apply elem_of_cons in He as [->|He]); [|done|by apply not_elem_of_nil in He].
    repeat (apply elem_of_cons in Hf as [->|Hf]); [by destruct Hff| |by apply not_elem_of_nil in Hf].
    intros Hr. apply rtc_inv_r in Hr as [?|(y & _ & (q & Hq & Hid & Hd))]; [done|].
    repeat (apply elem_of_cons in Hq as [->|Hq]); [done|done| |by apply not_elem_of_nil in Hq].
    by apply not_elem_of_nil in Hd.
Qed.

Lemma convergence_exact_witness : finished chain_plan chain_rows "B".
Proof.
  apply (proj1 (convergence_exact chain_plan chain_rows chain_honest) ltac:(vm_compute; discriminate) (sample_req "B" ["A"])).
  apply elem_of_cons. right. apply elem_of_cons. by left.
Defined.

Definition qa_plan : Plan :=
  set_pScope (MkScope [] [] [] ["a.go"]) (set_pRequirements [sample_req "r1" []] (demo_plan StatusImplementing)).
Definition qa_env : Env := sample_env (λ _, quiet_io) (Some (demo_sandbox "merged")).
Definition qa_world : World * exec_table := (world_with [qa_plan], [row "r1" "completed"]).

Lemma qa_world_wf : store_wf qa_world.1.
Proof. apply world_with_wf. repeat constructor. Qed.

Lemma plan_sent_to_qa_checked_witness :
  let cfg := listing_config ("b.go" +:+ String (byte 0) "./a.go") in
  let w' := (checkPlanConvergence qa_env cfg "demo" qa_world).1.1 in
  ∃ a, assembleAndStageQAWorktree (envSandbox qa_env) qa_plan (wSandbox qa_world.1) = (a, wSandbox w', None) ∧
    delivered qa_env cfg a (wSandbox w') ∧ length (wOut w') = 1.
Proof.
  intros cfg w'.
  assert (Hq : ∃ q, visible w' "demo" = Some q ∧ EffectiveStatus q = StatusReadyForQA)
    by (eexists; split; [vm_compute; reflexivity|reflexivity]).
  destruct Hq as (q & Hq & Hst).
  destruct (plan_sent_to_qa_checked qa_env cfg "demo" qa_world qa_plan q qa_world_wf ltac:(vm_compute; reflexivity)
    ltac:(done) Hq Hst) as (_ & rows & a & _ & Ha & Hd & _).
  exists a. split_and!; [exact Ha|exact Hd|]. vm_compute. reflexivity.
Defined.

Lemma execution_events_sound_witness :
  let run := watchExecutionCompletions qa_env (listing_config "a.go") in
  run [EvDelete "req.demo.r1"] qa_world = (qa_world, ()) ∧
  store_wf (run ([EvDelete "req.demo.r1"] ++ EvReplayDone :: [])%list qa_world).1.1.
Proof.
  intros run.
  destruct (execution_events_sound qa_env (listing_config "a.go") [EvDelete "req.demo.r1"] [] qa_world) as (H1 & H2 & _).
  - intros H%list_elem_of_singleton. discriminate H.
  - exact qa_world_wf.
  - split; [exact H1|exact H2].
Defined.

Definition twice_world : World * exec_table :=
  (world_with [chain_plan], [row "A" "failed"; row "B" "completed"; row "C" "executing"]).

Lemma completed_dependents_counted_twice_witness :
  EffectiveStatus <$> visible (converge_body demo_env (listing_config "") "demo" chain_plan twice_world).1.1 "demo" =
    Some StatusRejected.
Proof.
  assert (Hrows : requirement_rows "demo" twice_world =
    (twice_world, Some [(row "A" "failed").2; (row "B" "completed").2; (row "C" "executing").2]))
    by (vm_compute; reflexivity).
  destruct (completed_dependents_counted_twice demo_env (listing_config "") "demo" chain_plan _ _ _
    eq_refl eq_refl eq_refl eq_refl Hrows eq_refl) as [t ->].
  vm_compute. reflexivity.
Defined.

Definition lossy_env : Env := sample_env (λ _, MkIO 7 false false false false true false "id") None.

Lemma qa_request_lost_witness :
  visible (advance_converged lossy_env (listing_config "") qa_plan StatusReadyForQA qa_world.1).1 "demo" =
    Some (set_pStatus StatusReadyForQA qa_plan) ∧
  ioGraphErr (envIO lossy_env 0) = true.
Proof.
  split; [|reflexivity].
  apply (qa_request_lost lossy_env (listing_config "") qa_plan qa_world.1 qa_world_wf); [done..|by vm_compute].
Defined.

Lemma gate_decision_recovers_witness :
  let w' := (failPlanOnIncompleteScope qa_env qa_plan ["a.go"] qa_world.1).1 in
  ∃ q d, visible w' "demo" = Some q ∧ EffectiveStatus q = StatusRejected ∧
    dID d ∈ (watch_entry auto_config 0 (MkPlanView (pSlug q) (pPlanDecisions q)) ∅).2.
Proof.
  intros w'.
  destruct (gate_decision_recovers qa_env auto_config qa_plan ["a.go"] qa_world.1 0 ltac:(vm_compute; reflexivity)
    eq_refl ltac:(done) eq_refl) as (q & d & Hv & Hst & Hds & _ & _ & Ha).
  exists q, d. split_and!; [exact Hv|exact Hst|]. apply Ha. vm_compute in Hv. injection Hv as <-.
  vm_compute. reflexivity.
Defined.
