(* ===== verification/ReqTypes.v ===== *)
(** * The state of the requirement executor

    processor/requirement-executor: the execution of one requirement in
    memory (execution_state.go), the active executions, the armed timers and
    what was sent, with the state monad [R] the handlers are written in.  An
    execution is a cell of a heap, because the cache of active executions,
    the timers and the goroutine that initialises it share it by pointer.
    Messages to the execution manager are the requests of ExecTypes.v; the
    fields of a request for which the receiver has no field (retry_count,
    dirty_nodes, restructure, recovery_restart, resumed_from and
    awaiting_recovery_reason) are dropped by its JSON decoder and are not in
    the message here.  Whatever the outside decides is an answer indexed by
    the number of interactions so far. *)

From stdpp Require Import pretty.
From S2P Require Import Prelude Paths Status Types Stories TaskDag PlanStore ExecTypes ExecStore Convergence.

Local Open Scope string_scope.
Local Open Scope go_scope.

(** [requirementExecution]: the timers are the ones [stop] can stop. *)
Record requirementExecution := MkReqExec {
  qTerminated : bool;
  qStoreKey : string;
  qEntityID : string;
  qSlug : string;
  qRequirementID : string;
  qTitle : string;
  qDescription : string;
  qScenarios : list Scenario;
  qDependsOn : list PrereqContext;
  qScope : option Scope;
  qPrompt : string;
  qRole : string;
  qModel : string;
  qProjectID : string;
  qTraceID : string;
  qLoopID : string;
  qRequestID : string;
  qSortedStoryIDs : list string;
  qCurrentStoryIdx : Z;
  qDAG : option (list TaskNode);
  qSortedNodeIDs : list string;
  qNodeIndex : gmap string TaskNode;
  qCurrentNodeIdx : Z;
  qCurrentNodeTaskID : string;
  qVisitedNodes : gset string;
  qNodeResults : list NodeResult;
  qNodeTaskIDs : list string;
  qRequirementBranch : string;
  qBaseBranch : string;
  qReviewerTaskID : string;
  qReviewVerdict : string;
  qReviewFeedback : string;
  qReviewRetryCount : Z;
  qRetryCount : Z;
  qMaxRetries : Z;
  qDirtyNodeIDs : list string;
  qLastReviewFeedback : string;
  qScenarioVerdicts : list ScenarioVerdict;
  qTimeoutTimer : option nat;
  qAwaitingRecovery : bool;
  qRecoveryTimer : option nat;
  qRecoveryReason : string;
  qRecoveryRestarts : Z;
  qRecoveryInfraRetries : Z }.

Definition set_qTerminated (v : bool) (x : requirementExecution) : requirementExecution :=
  {| qTerminated := v; qStoreKey := qStoreKey x; qEntityID := qEntityID x; qSlug := qSlug x;
     qRequirementID := qRequirementID x; qTitle := qTitle x; qDescription := qDescription x;
     qScenarios := qScenarios x; qDependsOn := qDependsOn x; qScope := qScope x;
     qPrompt := qPrompt x; qRole := qRole x; qModel := qModel x; qProjectID := qProjectID x;
     qTraceID := qTraceID x; qLoopID := qLoopID x; qRequestID := qRequestID x;
     qSortedStoryIDs := qSortedStoryIDs x; qCurrentStoryIdx := qCurrentStoryIdx x;
     qDAG := qDAG x; qSortedNodeIDs := qSortedNodeIDs x; qNodeIndex := qNodeIndex x;
     qCurrentNodeIdx := qCurrentNodeIdx x; qCurrentNodeTaskID := qCurrentNodeTaskID x;
     qVisitedNodes := qVisitedNodes x; qNodeResults := qNodeResults x;
     qNodeTaskIDs := qNodeTaskIDs x; qRequirementBranch := qRequirementBranch x;
     qBaseBranch := qBaseBranch x; qReviewerTaskID := qReviewerTaskID x;
     qReviewVerdict := qReviewVerdict x; qReviewFeedback := qReviewFeedback x;
     qReviewRetryCount := qReviewRetryCount x; qRetryCount := qRetryCount x;
     qMaxRetries := qMaxRetries x; qDirtyNodeIDs := qDirtyNodeIDs x;
     qLastReviewFeedback := qLastReviewFeedback x; qScenarioVerdicts := qScenarioVerdicts x;
     qTimeoutTimer := qTimeoutTimer x; qAwaitingRecovery := qAwaitingRecovery x;
     qRecoveryTimer := qRecoveryTimer x; qRecoveryReason := qRecoveryReason x;
     qRecoveryRestarts := qRecoveryRestarts x; qRecoveryInfraRetries := qRecoveryInfraRetries x |}.

Definition set_qScope (v : option Scope) (x : requirementExecution) : requirementExecution :=
  {| qTerminated := qTerminated x; qStoreKey := qStoreKey x; qEntityID := qEntityID x;
     qSlug := qSlug x; qRequirementID := qRequirementID x; qTitle := qTitle x;
     qDescription := qDescription x; qScenarios := qScenarios x; qDependsOn := qDependsOn x;
     qScope := v; qPrompt := qPrompt x; qRole := qRole x; qModel := qModel x;
     qProjectID := qProjectID x; qTraceID := qTraceID x; qLoopID := qLoopID x;
     qRequestID := qRequestID x; qSortedStoryIDs := qSortedStoryIDs x;
     qCurrentStoryIdx := qCurrentStoryIdx x; qDAG := qDAG x; qSortedNodeIDs := qSortedNodeIDs x;
     qNodeIndex := qNodeIndex x; qCurrentNodeIdx := qCurrentNodeIdx x;
     qCurrentNodeTaskID := qCurrentNodeTaskID x; qVisitedNodes := qVisitedNodes x;
     qNodeResults := qNodeResults x; qNodeTaskIDs := qNodeTaskIDs x;
     qRequirementBranch := qRequirementBranch x; qBaseBranch := qBaseBranch x;
     qReviewerTaskID := qReviewerTaskID x; qReviewVerdict := qReviewVerdict x;
     qReviewFeedback := qReviewFeedback x; qReviewRetryCount := qReviewRetryCount x;
     qRetryCount := qRetryCount x; qMaxRetries := qMaxRetries x;
     qDirtyNodeIDs := qDirtyNodeIDs x; qLastReviewFeedback := qLastReviewFeedback x;
     qScenarioVerdicts := qScenarioVerdicts x; qTimeoutTimer := qTimeoutTimer x;
     qAwaitingRecovery := qAwaitingRecovery x; qRecoveryTimer := qRecoveryTimer x;
     qRecoveryReason := qRecoveryReason x; qRecoveryRestarts := qRecoveryRestarts x;
     qRecoveryInfraRetries := qRecoveryInfraRetries x |}.

Definition set_qSortedStoryIDs (v : list string) (x : requirementExecution) : requirementExecution :=
  {| qTerminated := qTerminated x; qStoreKey := qStoreKey x; qEntityID := qEntityID x;
     qSlug := qSlug x; qRequirementID := qRequirementID x; qTitle := qTitle x;
     qDescription := qDescription x; qScenarios := qScenarios x; qDependsOn := qDependsOn x;
     qScope := qScope x; qPrompt := qPrompt x; qRole := qRole x; qModel := qModel x;
     qProjectID := qProjectID x; qTraceID := qTraceID x; qLoopID := qLoopID x;
     qRequestID := qRequestID x; qSortedStoryIDs := v; qCurrentStoryIdx := qCurrentStoryIdx x;
     qDAG := qDAG x; qSortedNodeIDs := qSortedNodeIDs x; qNodeIndex := qNodeIndex x;
     qCurrentNodeIdx := qCurrentNodeIdx x; qCurrentNodeTaskID := qCurrentNodeTaskID x;
     qVisitedNodes := qVisitedNodes x; qNodeResults := qNodeResults x;
     qNodeTaskIDs := qNodeTaskIDs x; qRequirementBranch := qRequirementBranch x;
     qBaseBranch := qBaseBranch x; qReviewerTaskID := qReviewerTaskID x;
     qReviewVerdict := qReviewVerdict x; qReviewFeedback := qReviewFeedback x;
     qReviewRetryCount := qReviewRetryCount x; qRetryCount := qRetryCount x;
     qMaxRetries := qMaxRetries x; qDirtyNodeIDs := qDirtyNodeIDs x;
     qLastReviewFeedback := qLastReviewFeedback x; qScenarioVerdicts := qScenarioVerdicts x;
     qTimeoutTimer := qTimeoutTimer x; qAwaitingRecovery := qAwaitingRecovery x;
     qRecoveryTimer := qRecoveryTimer x; qRecoveryReason := qRecoveryReason x;
     qRecoveryRestarts := qRecoveryRestarts x; qRecoveryInfraRetries := qRecoveryInfraRetries x |}.

Definition set_qCurrentStoryIdx (v : Z) (x : requirementExecution) : requirementExecution :=
  {| qTerminated := qTerminated x; qStoreKey := qStoreKey x; qEntityID := qEntityID x;
     qSlug := qSlug x; qRequirementID := qRequirementID x; qTitle := qTitle x;
     qDescription := qDescription x; qScenarios := qScenarios x; qDependsOn := qDependsOn x;
     qScope := qScope x; qPrompt := qPrompt x; qRole := qRole x; qModel := qModel x;
     qProjectID := qProjectID x; qTraceID := qTraceID x; qLoopID := qLoopID x;
     qRequestID := qRequestID x; qSortedStoryIDs := qSortedStoryIDs x; qCurrentStoryIdx := v;
     qDAG := qDAG x; qSortedNodeIDs := qSortedNodeIDs x; qNodeIndex := qNodeIndex x;
     qCurrentNodeIdx := qCurrentNodeIdx x; qCurrentNodeTaskID := qCurrentNodeTaskID x;
     qVisitedNodes := qVisitedNodes x; qNodeResults := qNodeResults x;
     qNodeTaskIDs := qNodeTaskIDs x; qRequirementBranch := qRequirementBranch x;
     qBaseBranch := qBaseBranch x; qReviewerTaskID := qReviewerTaskID x;
     qReviewVerdict := qReviewVerdict x; qReviewFeedback := qReviewFeedback x;
     qReviewRetryCount := qReviewRetryCount x; qRetryCount := qRetryCount x;
     qMaxRetries := qMaxRetries x; qDirtyNodeIDs := qDirtyNodeIDs x;
     qLastReviewFeedback := qLastReviewFeedback x; qScenarioVerdicts := qScenarioVerdicts x;
     qTimeoutTimer := qTimeoutTimer x; qAwaitingRecovery := qAwaitingRecovery x;
     qRecoveryTimer := qRecoveryTimer x; qRecoveryReason := qRecoveryReason x;
     qRecoveryRestarts := qRecoveryRestarts x; qRecoveryInfraRetries := qRecoveryInfraRetries x |}.

Definition set_qDAG (v : option (list TaskNode)) (x : requirementExecution) : requirementExecution :=
  {| qTerminated := qTerminated x; qStoreKey := qStoreKey x; qEntityID := qEntityID x;
     qSlug := qSlug x; qRequirementID := qRequirementID x; qTitle := qTitle x;
     qDescription := qDescription x; qScenarios := qScenarios x; qDependsOn := qDependsOn x;
     qScope := qScope x; qPrompt := qPrompt x; qRole := qRole x; qModel := qModel x;
     qProjectID := qProjectID x; qTraceID := qTraceID x; qLoopID := qLoopID x;
     qRequestID := qRequestID x; qSortedStoryIDs := qSortedStoryIDs x;
     qCurrentStoryIdx := qCurrentStoryIdx x; qDAG := v; qSortedNodeIDs := qSortedNodeIDs x;
     qNodeIndex := qNodeIndex x; qCurrentNodeIdx := qCurrentNodeIdx x;
     qCurrentNodeTaskID := qCurrentNodeTaskID x; qVisitedNodes := qVisitedNodes x;
     qNodeResults := qNodeResults x; qNodeTaskIDs := qNodeTaskIDs x;
     qRequirementBranch := qRequirementBranch x; qBaseBranch := qBaseBranch x;
     qReviewerTaskID := qReviewerTaskID x; qReviewVerdict := qReviewVerdict x;
     qReviewFeedback := qReviewFeedback x; qReviewRetryCount := qReviewRetryCount x;
     qRetryCount := qRetryCount x; qMaxRetries := qMaxRetries x;
     qDirtyNodeIDs := qDirtyNodeIDs x; qLastReviewFeedback := qLastReviewFeedback x;
     qScenarioVerdicts := qScenarioVerdicts x; qTimeoutTimer := qTimeoutTimer x;
     qAwaitingRecovery := qAwaitingRecovery x; qRecoveryTimer := qRecoveryTimer x;
     qRecoveryReason := qRecoveryReason x; qRecoveryRestarts := qRecoveryRestarts x;
     qRecoveryInfraRetries := qRecoveryInfraRetries x |}.

Definition set_qSortedNodeIDs (v : list string) (x : requirementExecution) : requirementExecution :=
  {| qTerminated := qTerminated x; qStoreKey := qStoreKey x; qEntityID := qEntityID x;
     qSlug := qSlug x; qRequirementID := qRequirementID x; qTitle := qTitle x;
     qDescription := qDescription x; qScenarios := qScenarios x; qDependsOn := qDependsOn x;
     qScope := qScope x; qPrompt := qPrompt x; qRole := qRole x; qModel := qModel x;
     qProjectID := qProjectID x; qTraceID := qTraceID x; qLoopID := qLoopID x;
     qRequestID := qRequestID x; qSortedStoryIDs := qSortedStoryIDs x;
     qCurrentStoryIdx := qCurrentStoryIdx x; qDAG := qDAG x; qSortedNodeIDs := v;
     qNodeIndex := qNodeIndex x; qCurrentNodeIdx := qCurrentNodeIdx x;
     qCurrentNodeTaskID := qCurrentNodeTaskID x; qVisitedNodes := qVisitedNodes x;
     qNodeResults := qNodeResults x; qNodeTaskIDs := qNodeTaskIDs x;
     qRequirementBranch := qRequirementBranch x; qBaseBranch := qBaseBranch x;
     qReviewerTaskID := qReviewerTaskID x; qReviewVerdict := qReviewVerdict x;
     qReviewFeedback := qReviewFeedback x; qReviewRetryCount := qReviewRetryCount x;
     qRetryCount := qRetryCount x; qMaxRetries := qMaxRetries x;
     qDirtyNodeIDs := qDirtyNodeIDs x; qLastReviewFeedback := qLastReviewFeedback x;
     qScenarioVerdicts := qScenarioVerdicts x; qTimeoutTimer := qTimeoutTimer x;
     qAwaitingRecovery := qAwaitingRecovery x; qRecoveryTimer := qRecoveryTimer x;
     qRecoveryReason := qRecoveryReason x; qRecoveryRestarts := qRecoveryRestarts x;
     qRecoveryInfraRetries := qRecoveryInfraRetries x |}.

Definition set_qNodeIndex (v : gmap string TaskNode) (x : requirementExecution) : requirementExecution :=
  {| qTerminated := qTerminated x; qStoreKey := qStoreKey x; qEntityID := qEntityID x;
     qSlug := qSlug x; qRequirementID := qRequirementID x; qTitle := qTitle x;
     qDescription := qDescription x; qScenarios := qScenarios x; qDependsOn := qDependsOn x;
     qScope := qScope x; qPrompt := qPrompt x; qRole := qRole x; qModel := qModel x;
     qProjectID := qProjectID x; qTraceID := qTraceID x; qLoopID := qLoopID x;
     qRequestID := qRequestID x; qSortedStoryIDs := qSortedStoryIDs x;
     qCurrentStoryIdx := qCurrentStoryIdx x; qDAG := qDAG x; qSortedNodeIDs := qSortedNodeIDs x;
     qNodeIndex := v; qCurrentNodeIdx := qCurrentNodeIdx x;
     qCurrentNodeTaskID := qCurrentNodeTaskID x; qVisitedNodes := qVisitedNodes x;
     qNodeResults := qNodeResults x; qNodeTaskIDs := qNodeTaskIDs x;
     qRequirementBranch := qRequirementBranch x; qBaseBranch := qBaseBranch x;
     qReviewerTaskID := qReviewerTaskID x; qReviewVerdict := qReviewVerdict x;
     qReviewFeedback := qReviewFeedback x; qReviewRetryCount := qReviewRetryCount x;
     qRetryCount := qRetryCount x; qMaxRetries := qMaxRetries x;
     qDirtyNodeIDs := qDirtyNodeIDs x; qLastReviewFeedback := qLastReviewFeedback x;
     qScenarioVerdicts := qScenarioVerdicts x; qTimeoutTimer := qTimeoutTimer x;
     qAwaitingRecovery := qAwaitingRecovery x; qRecoveryTimer := qRecoveryTimer x;
     qRecoveryReason := qRecoveryReason x; qRecoveryRestarts := qRecoveryRestarts x;
     qRecoveryInfraRetries := qRecoveryInfraRetries x |}.

Definition set_qCurrentNodeIdx (v : Z) (x : requirementExecution) : requirementExecution :=
  {| qTerminated := qTerminated x; qStoreKey := qStoreKey x; qEntityID := qEntityID x;
     qSlug := qSlug x; qRequirementID := qRequirementID x; qTitle := qTitle x;
     qDescription := qDescription x; qScenarios := qScenarios x; qDependsOn := qDependsOn x;
     qScope := qScope x; qPrompt := qPrompt x; qRole := qRole x; qModel := qModel x;
     qProjectID := qProjectID x; qTraceID := qTraceID x; qLoopID := qLoopID x;
     qRequestID := qRequestID x; qSortedStoryIDs := qSortedStoryIDs x;
     qCurrentStoryIdx := qCurrentStoryIdx x; qDAG := qDAG x; qSortedNodeIDs := qSortedNodeIDs x;
     qNodeIndex := qNodeIndex x; qCurrentNodeIdx := v;
     qCurrentNodeTaskID := qCurrentNodeTaskID x; qVisitedNodes := qVisitedNodes x;
     qNodeResults := qNodeResults x; qNodeTaskIDs := qNodeTaskIDs x;
     qRequirementBranch := qRequirementBranch x; qBaseBranch := qBaseBranch x;
     qReviewerTaskID := qReviewerTaskID x; qReviewVerdict := qReviewVerdict x;
     qReviewFeedback := qReviewFeedback x; qReviewRetryCount := qReviewRetryCount x;
     qRetryCount := qRetryCount x; qMaxRetries := qMaxRetries x;
     qDirtyNodeIDs := qDirtyNodeIDs x; qLastReviewFeedback := qLastReviewFeedback x;
     qScenarioVerdicts := qScenarioVerdicts x; qTimeoutTimer := qTimeoutTimer x;
     qAwaitingRecovery := qAwaitingRecovery x; qRecoveryTimer := qRecoveryTimer x;
     qRecoveryReason := qRecoveryReason x; qRecoveryRestarts := qRecoveryRestarts x;
     qRecoveryInfraRetries := qRecoveryInfraRetries x |}.

Definition set_qCurrentNodeTaskID (v : string) (x : requirementExecution) : requirementExecution :=
  {| qTerminated := qTerminated x; qStoreKey := qStoreKey x; qEntityID := qEntityID x;
     qSlug := qSlug x; qRequirementID := qRequirementID x; qTitle := qTitle x;
     qDescription := qDescription x; qScenarios := qScenarios x; qDependsOn := qDependsOn x;
     qScope := qScope x; qPrompt := qPrompt x; qRole := qRole x; qModel := qModel x;
     qProjectID := qProjectID x; qTraceID := qTraceID x; qLoopID := qLoopID x;
     qRequestID := qRequestID x; qSortedStoryIDs := qSortedStoryIDs x;
     qCurrentStoryIdx := qCurrentStoryIdx x; qDAG := qDAG x; qSortedNodeIDs := qSortedNodeIDs x;
     qNodeIndex := qNodeIndex x; qCurrentNodeIdx := qCurrentNodeIdx x; qCurrentNodeTaskID := v;
     qVisitedNodes := qVisitedNodes x; qNodeResults := qNodeResults x;
     qNodeTaskIDs := qNodeTaskIDs x; qRequirementBranch := qRequirementBranch x;
     qBaseBranch := qBaseBranch x; qReviewerTaskID := qReviewerTaskID x;
     qReviewVerdict := qReviewVerdict x; qReviewFeedback := qReviewFeedback x;
     qReviewRetryCount := qReviewRetryCount x; qRetryCount := qRetryCount x;
     qMaxRetries := qMaxRetries x; qDirtyNodeIDs := qDirtyNodeIDs x;
     qLastReviewFeedback := qLastReviewFeedback x; qScenarioVerdicts := qScenarioVerdicts x;
     qTimeoutTimer := qTimeoutTimer x; qAwaitingRecovery := qAwaitingRecovery x;
     qRecoveryTimer := qRecoveryTimer x; qRecoveryReason := qRecoveryReason x;
     qRecoveryRestarts := qRecoveryRestarts x; qRecoveryInfraRetries := qRecoveryInfraRetries x |}.

Definition set_qVisitedNodes (v : gset string) (x : requirementExecution) : requirementExecution :=
  {| qTerminated := qTerminated x; qStoreKey := qStoreKey x; qEntityID := qEntityID x;
     qSlug := qSlug x; qRequirementID := qRequirementID x; qTitle := qTitle x;
     qDescription := qDescription x; qScenarios := qScenarios x; qDependsOn := qDependsOn x;
     qScope := qScope x; qPrompt := qPrompt x; qRole := qRole x; qModel := qModel x;
     qProjectID := qProjectID x; qTraceID := qTraceID x; qLoopID := qLoopID x;
     qRequestID := qRequestID x; qSortedStoryIDs := qSortedStoryIDs x;
     qCurrentStoryIdx := qCurrentStoryIdx x; qDAG := qDAG x; qSortedNodeIDs := qSortedNodeIDs x;
     qNodeIndex := qNodeIndex x; qCurrentNodeIdx := qCurrentNodeIdx x;
     qCurrentNodeTaskID := qCurrentNodeTaskID x; qVisitedNodes := v;
     qNodeResults := qNodeResults x; qNodeTaskIDs := qNodeTaskIDs x;
     qRequirementBranch := qRequirementBranch x; qBaseBranch := qBaseBranch x;
     qReviewerTaskID := qReviewerTaskID x; qReviewVerdict := qReviewVerdict x;
     qReviewFeedback := qReviewFeedback x; qReviewRetryCount := qReviewRetryCount x;
     qRetryCount := qRetryCount x; qMaxRetries := qMaxRetries x;
     qDirtyNodeIDs := qDirtyNodeIDs x; qLastReviewFeedback := qLastReviewFeedback x;
     qScenarioVerdicts := qScenarioVerdicts x; qTimeoutTimer := qTimeoutTimer x;
     qAwaitingRecovery := qAwaitingRecovery x; qRecoveryTimer := qRecoveryTimer x;
     qRecoveryReason := qRecoveryReason x; qRecoveryRestarts := qRecoveryRestarts x;
     qRecoveryInfraRetries := qRecoveryInfraRetries x |}.

Definition set_qNodeResults (v : list NodeResult) (x : requirementExecution) : requirementExecution :=
  {| qTerminated := qTerminated x; qStoreKey := qStoreKey x; qEntityID := qEntityID x;
     qSlug := qSlug x; qRequirementID := qRequirementID x; qTitle := qTitle x;
     qDescription := qDescription x; qScenarios := qScenarios x; qDependsOn := qDependsOn x;
     qScope := qScope x; qPrompt := qPrompt x; qRole := qRole x; qModel := qModel x;
     qProjectID := qProjectID x; qTraceID := qTraceID x; qLoopID := qLoopID x;
     qRequestID := qRequestID x; qSortedStoryIDs := qSortedStoryIDs x;
     qCurrentStoryIdx := qCurrentStoryIdx x; qDAG := qDAG x; qSortedNodeIDs := qSortedNodeIDs x;
     qNodeIndex := qNodeIndex x; qCurrentNodeIdx := qCurrentNodeIdx x;
     qCurrentNodeTaskID := qCurrentNodeTaskID x; qVisitedNodes := qVisitedNodes x;
     qNodeResults := v; qNodeTaskIDs := qNodeTaskIDs x;
     qRequirementBranch := qRequirementBranch x; qBaseBranch := qBaseBranch x;
     qReviewerTaskID := qReviewerTaskID x; qReviewVerdict := qReviewVerdict x;
     qReviewFeedback := qReviewFeedback x; qReviewRetryCount := qReviewRetryCount x;
     qRetryCount := qRetryCount x; qMaxRetries := qMaxRetries x;
     qDirtyNodeIDs := qDirtyNodeIDs x; qLastReviewFeedback := qLastReviewFeedback x;
     qScenarioVerdicts := qScenarioVerdicts x; qTimeoutTimer := qTimeoutTimer x;
     qAwaitingRecovery := qAwaitingRecovery x; qRecoveryTimer := qRecoveryTimer x;
     qRecoveryReason := qRecoveryReason x; qRecoveryRestarts := qRecoveryRestarts x;
     qRecoveryInfraRetries := qRecoveryInfraRetries x |}.

Definition set_qNodeTaskIDs (v : list string) (x : requirementExecution) : requirementExecution :=
  {| qTerminated := qTerminated x; qStoreKey := qStoreKey x; qEntityID := qEntityID x;
     qSlug := qSlug x; qRequirementID := qRequirementID x; qTitle := qTitle x;
     qDescription := qDescription x; qScenarios := qScenarios x; qDependsOn := qDependsOn x;
     qScope := qScope x; qPrompt := qPrompt x; qRole := qRole x; qModel := qModel x;
     qProjectID := qProjectID x; qTraceID := qTraceID x; qLoopID := qLoopID x;
     qRequestID := qRequestID x; qSortedStoryIDs := qSortedStoryIDs x;
     qCurrentStoryIdx := qCurrentStoryIdx x; qDAG := qDAG x; qSortedNodeIDs := qSortedNodeIDs x;
     qNodeIndex := qNodeIndex x; qCurrentNodeIdx := qCurrentNodeIdx x;
     qCurrentNodeTaskID := qCurrentNodeTaskID x; qVisitedNodes := qVisitedNodes x;
     qNodeResults := qNodeResults x; qNodeTaskIDs := v;
     qRequirementBranch := qRequirementBranch x; qBaseBranch := qBaseBranch x;
     qReviewerTaskID := qReviewerTaskID x; qReviewVerdict := qReviewVerdict x;
     qReviewFeedback := qReviewFeedback x; qReviewRetryCount := qReviewRetryCount x;
     qRetryCount := qRetryCount x; qMaxRetries := qMaxRetries x;
     qDirtyNodeIDs := qDirtyNodeIDs x; qLastReviewFeedback := qLastReviewFeedback x;
     qScenarioVerdicts := qScenarioVerdicts x; qTimeoutTimer := qTimeoutTimer x;
     qAwaitingRecovery := qAwaitingRecovery x; qRecoveryTimer := qRecoveryTimer x;
     qRecoveryReason := qRecoveryReason x; qRecoveryRestarts := qRecoveryRestarts x;
     qRecoveryInfraRetries := qRecoveryInfraRetries x |}.

Definition set_qRequirementBranch (v : string) (x : requirementExecution) : requirementExecution :=
  {| qTerminated := qTerminated x; qStoreKey := qStoreKey x; qEntityID := qEntityID x;
     qSlug := qSlug x; qRequirementID := qRequirementID x; qTitle := qTitle x;
     qDescription := qDescription x; qScenarios := qScenarios x; qDependsOn := qDependsOn x;
     qScope := qScope x; qPrompt := qPrompt x; qRole := qRole x; qModel := qModel x;
     qProjectID := qProjectID x; qTraceID := qTraceID x; qLoopID := qLoopID x;
     qRequestID := qRequestID x; qSortedStoryIDs := qSortedStoryIDs x;
     qCurrentStoryIdx := qCurrentStoryIdx x; qDAG := qDAG x; qSortedNodeIDs := qSortedNodeIDs x;
     qNodeIndex := qNodeIndex x; qCurrentNodeIdx := qCurrentNodeIdx x;
     qCurrentNodeTaskID := qCurrentNodeTaskID x; qVisitedNodes := qVisitedNodes x;
     qNodeResults := qNodeResults x; qNodeTaskIDs := qNodeTaskIDs x; qRequirementBranch := v;
     qBaseBranch := qBaseBranch x; qReviewerTaskID := qReviewerTaskID x;
     qReviewVerdict := qReviewVerdict x; qReviewFeedback := qReviewFeedback x;
     qReviewRetryCount := qReviewRetryCount x; qRetryCount := qRetryCount x;
     qMaxRetries := qMaxRetries x; qDirtyNodeIDs := qDirtyNodeIDs x;
     qLastReviewFeedback := qLastReviewFeedback x; qScenarioVerdicts := qScenarioVerdicts x;
     qTimeoutTimer := qTimeoutTimer x; qAwaitingRecovery := qAwaitingRecovery x;
     qRecoveryTimer := qRecoveryTimer x; qRecoveryReason := qRecoveryReason x;
     qRecoveryRestarts := qRecoveryRestarts x; qRecoveryInfraRetries := qRecoveryInfraRetries x |}.

Definition set_qReviewerTaskID (v : string) (x : requirementExecution) : requirementExecution :=
  {| qTerminated := qTerminated x; qStoreKey := qStoreKey x; qEntityID := qEntityID x;
     qSlug := qSlug x; qRequirementID := qRequirementID x; qTitle := qTitle x;
     qDescription := qDescription x; qScenarios := qScenarios x; qDependsOn := qDependsOn x;
     qScope := qScope x; qPrompt := qPrompt x; qRole := qRole x; qModel := qModel x;
     qProjectID := qProjectID x; qTraceID := qTraceID x; qLoopID := qLoopID x;
     qRequestID := qRequestID x; qSortedStoryIDs := qSortedStoryIDs x;
     qCurrentStoryIdx := qCurrentStoryIdx x; qDAG := qDAG x; qSortedNodeIDs := qSortedNodeIDs x;
     qNodeIndex := qNodeIndex x; qCurrentNodeIdx := qCurrentNodeIdx x;
     qCurrentNodeTaskID := qCurrentNodeTaskID x; qVisitedNodes := qVisitedNodes x;
     qNodeResults := qNodeResults x; qNodeTaskIDs := qNodeTaskIDs x;
     qRequirementBranch := qRequirementBranch x; qBaseBranch := qBaseBranch x;
     qReviewerTaskID := v; qReviewVerdict := qReviewVerdict x;
     qReviewFeedback := qReviewFeedback x; qReviewRetryCount := qReviewRetryCount x;
     qRetryCount := qRetryCount x; qMaxRetries := qMaxRetries x;
     qDirtyNodeIDs := qDirtyNodeIDs x; qLastReviewFeedback := qLastReviewFeedback x;
     qScenarioVerdicts := qScenarioVerdicts x; qTimeoutTimer := qTimeoutTimer x;
     qAwaitingRecovery := qAwaitingRecovery x; qRecoveryTimer := qRecoveryTimer x;
     qRecoveryReason := qRecoveryReason x; qRecoveryRestarts := qRecoveryRestarts x;
     qRecoveryInfraRetries := qRecoveryInfraRetries x |}.

Definition set_qReviewVerdict (v : string) (x : requirementExecution) : requirementExecution :=
  {| qTerminated := qTerminated x; qStoreKey := qStoreKey x; qEntityID := qEntityID x;
     qSlug := qSlug x; qRequirementID := qRequirementID x; qTitle := qTitle x;
     qDescription := qDescription x; qScenarios := qScenarios x; qDependsOn := qDependsOn x;
     qScope := qScope x; qPrompt := qPrompt x; qRole := qRole x; qModel := qModel x;
     qProjectID := qProjectID x; qTraceID := qTraceID x; qLoopID := qLoopID x;
     qRequestID := qRequestID x; qSortedStoryIDs := qSortedStoryIDs x;
     qCurrentStoryIdx := qCurrentStoryIdx x; qDAG := qDAG x; qSortedNodeIDs := qSortedNodeIDs x;
     qNodeIndex := qNodeIndex x; qCurrentNodeIdx := qCurrentNodeIdx x;
     qCurrentNodeTaskID := qCurrentNodeTaskID x; qVisitedNodes := qVisitedNodes x;
     qNodeResults := qNodeResults x; qNodeTaskIDs := qNodeTaskIDs x;
     qRequirementBranch := qRequirementBranch x; qBaseBranch := qBaseBranch x;
     qReviewerTaskID := qReviewerTaskID x; qReviewVerdict := v;
     qReviewFeedback := qReviewFeedback x; qReviewRetryCount := qReviewRetryCount x;
     qRetryCount := qRetryCount x; qMaxRetries := qMaxRetries x;
     qDirtyNodeIDs := qDirtyNodeIDs x; qLastReviewFeedback := qLastReviewFeedback x;
     qScenarioVerdicts := qScenarioVerdicts x; qTimeoutTimer := qTimeoutTimer x;
     qAwaitingRecovery := qAwaitingRecovery x; qRecoveryTimer := qRecoveryTimer x;
     qRecoveryReason := qRecoveryReason x; qRecoveryRestarts := qRecoveryRestarts x;
     qRecoveryInfraRetries := qRecoveryInfraRetries x |}.

Definition set_qReviewFeedback (v : string) (x : requirementExecution) : requirementExecution :=
  {| qTerminated := qTerminated x; qStoreKey := qStoreKey x; qEntityID := qEntityID x;
     qSlug := qSlug x; qRequirementID := qRequirementID x; qTitle := qTitle x;
     qDescription := qDescription x; qScenarios := qScenarios x; qDependsOn := qDependsOn x;
     qScope := qScope x; qPrompt := qPrompt x; qRole := qRole x; qModel := qModel x;
     qProjectID := qProjectID x; qTraceID := qTraceID x; qLoopID := qLoopID x;
     qRequestID := qRequestID x; qSortedStoryIDs := qSortedStoryIDs x;
     qCurrentStoryIdx := qCurrentStoryIdx x; qDAG := qDAG x; qSortedNodeIDs := qSortedNodeIDs x;
     qNodeIndex := qNodeIndex x; qCurrentNodeIdx := qCurrentNodeIdx x;
     qCurrentNodeTaskID := qCurrentNodeTaskID x; qVisitedNodes := qVisitedNodes x;
     qNodeResults := qNodeResults x; qNodeTaskIDs := qNodeTaskIDs x;
     qRequirementBranch := qRequirementBranch x; qBaseBranch := qBaseBranch x;
     qReviewerTaskID := qReviewerTaskID x; qReviewVerdict := qReviewVerdict x;
     qReviewFeedback := v; qReviewRetryCount := qReviewRetryCount x;
     qRetryCount := qRetryCount x; qMaxRetries := qMaxRetries x;
     qDirtyNodeIDs := qDirtyNodeIDs x; qLastReviewFeedback := qLastReviewFeedback x;
     qScenarioVerdicts := qScenarioVerdicts x; qTimeoutTimer := qTimeoutTimer x;
     qAwaitingRecovery := qAwaitingRecovery x; qRecoveryTimer := qRecoveryTimer x;
     qRecoveryReason := qRecoveryReason x; qRecoveryRestarts := qRecoveryRestarts x;
     qRecoveryInfraRetries := qRecoveryInfraRetries x |}.

Definition set_qReviewRetryCount (v : Z) (x : requirementExecution) : requirementExecution :=
  {| qTerminated := qTerminated x; qStoreKey := qStoreKey x; qEntityID := qEntityID x;
     qSlug := qSlug x; qRequirementID := qRequirementID x; qTitle := qTitle x;
     qDescription := qDescription x; qScenarios := qScenarios x; qDependsOn := qDependsOn x;
     qScope := qScope x; qPrompt := qPrompt x; qRole := qRole x; qModel := qModel x;
     qProjectID := qProjectID x; qTraceID := qTraceID x; qLoopID := qLoopID x;
     qRequestID := qRequestID x; qSortedStoryIDs := qSortedStoryIDs x;
     qCurrentStoryIdx := qCurrentStoryIdx x; qDAG := qDAG x; qSortedNodeIDs := qSortedNodeIDs x;
     qNodeIndex := qNodeIndex x; qCurrentNodeIdx := qCurrentNodeIdx x;
     qCurrentNodeTaskID := qCurrentNodeTaskID x; qVisitedNodes := qVisitedNodes x;
     qNodeResults := qNodeResults x; qNodeTaskIDs := qNodeTaskIDs x;
     qRequirementBranch := qRequirementBranch x; qBaseBranch := qBaseBranch x;
     qReviewerTaskID := qReviewerTaskID x; qReviewVerdict := qReviewVerdict x;
     qReviewFeedback := qReviewFeedback x; qReviewRetryCount := v; qRetryCount := qRetryCount x;
     qMaxRetries := qMaxRetries x; qDirtyNodeIDs := qDirtyNodeIDs x;
     qLastReviewFeedback := qLastReviewFeedback x; qScenarioVerdicts := qScenarioVerdicts x;
     qTimeoutTimer := qTimeoutTimer x; qAwaitingRecovery := qAwaitingRecovery x;
     qRecoveryTimer := qRecoveryTimer x; qRecoveryReason := qRecoveryReason x;
     qRecoveryRestarts := qRecoveryRestarts x; qRecoveryInfraRetries := qRecoveryInfraRetries x |}.

Definition set_qRetryCount (v : Z) (x : requirementExecution) : requirementExecution :=
  {| qTerminated := qTerminated x; qStoreKey := qStoreKey x; qEntityID := qEntityID x;
     qSlug := qSlug x; qRequirementID := qRequirementID x; qTitle := qTitle x;
     qDescription := qDescription x; qScenarios := qScenarios x; qDependsOn := qDependsOn x;
     qScope := qScope x; qPrompt := qPrompt x; qRole := qRole x; qModel := qModel x;
     qProjectID := qProjectID x; qTraceID := qTraceID x; qLoopID := qLoopID x;
     qRequestID := qRequestID x; qSortedStoryIDs := qSortedStoryIDs x;
     qCurrentStoryIdx := qCurrentStoryIdx x; qDAG := qDAG x; qSortedNodeIDs := qSortedNodeIDs x;
     qNodeIndex := qNodeIndex x; qCurrentNodeIdx := qCurrentNodeIdx x;
     qCurrentNodeTaskID := qCurrentNodeTaskID x; qVisitedNodes := qVisitedNodes x;
     qNodeResults := qNodeResults x; qNodeTaskIDs := qNodeTaskIDs x;
     qRequirementBranch := qRequirementBranch x; qBaseBranch := qBaseBranch x;
     qReviewerTaskID := qReviewerTaskID x; qReviewVerdict := qReviewVerdict x;
     qReviewFeedback := qReviewFeedback x; qReviewRetryCount := qReviewRetryCount x;
     qRetryCount := v; qMaxRetries := qMaxRetries x; qDirtyNodeIDs := qDirtyNodeIDs x;
     qLastReviewFeedback := qLastReviewFeedback x; qScenarioVerdicts := qScenarioVerdicts x;
     qTimeoutTimer := qTimeoutTimer x; qAwaitingRecovery := qAwaitingRecovery x;
     qRecoveryTimer := qRecoveryTimer x; qRecoveryReason := qRecoveryReason x;
     qRecoveryRestarts := qRecoveryRestarts x; qRecoveryInfraRetries := qRecoveryInfraRetries x |}.

Definition set_qDirtyNodeIDs (v : list string) (x : requirementExecution) : requirementExecution :=
  {| qTerminated := qTerminated x; qStoreKey := qStoreKey x; qEntityID := qEntityID x;
     qSlug := qSlug x; qRequirementID := qRequirementID x; qTitle := qTitle x;
     qDescription := qDescription x; qScenarios := qScenarios x; qDependsOn := qDependsOn x;
     qScope := qScope x; qPrompt := qPrompt x; qRole := qRole x; qModel := qModel x;
     qProjectID := qProjectID x; qTraceID := qTraceID x; qLoopID := qLoopID x;
     qRequestID := qRequestID x; qSortedStoryIDs := qSortedStoryIDs x;
     qCurrentStoryIdx := qCurrentStoryIdx x; qDAG := qDAG x; qSortedNodeIDs := qSortedNodeIDs x;
     qNodeIndex := qNodeIndex x; qCurrentNodeIdx := qCurrentNodeIdx x;
     qCurrentNodeTaskID := qCurrentNodeTaskID x; qVisitedNodes := qVisitedNodes x;
     qNodeResults := qNodeResults x; qNodeTaskIDs := qNodeTaskIDs x;
     qRequirementBranch := qRequirementBranch x; qBaseBranch := qBaseBranch x;
     qReviewerTaskID := qReviewerTaskID x; qReviewVerdict := qReviewVerdict x;
     qReviewFeedback := qReviewFeedback x; qReviewRetryCount := qReviewRetryCount x;
     qRetryCount := qRetryCount x; qMaxRetries := qMaxRetries x; qDirtyNodeIDs := v;
     qLastReviewFeedback := qLastReviewFeedback x; qScenarioVerdicts := qScenarioVerdicts x;
     qTimeoutTimer := qTimeoutTimer x; qAwaitingRecovery := qAwaitingRecovery x;
     qRecoveryTimer := qRecoveryTimer x; qRecoveryReason := qRecoveryReason x;
     qRecoveryRestarts := qRecoveryRestarts x; qRecoveryInfraRetries := qRecoveryInfraRetries x |}.

Definition set_qLastReviewFeedback (v : string) (x : requirementExecution) : requirementExecution :=
  {| qTerminated := qTerminated x; qStoreKey := qStoreKey x; qEntityID := qEntityID x;
     qSlug := qSlug x; qRequirementID := qRequirementID x; qTitle := qTitle x;
     qDescription := qDescription x; qScenarios := qScenarios x; qDependsOn := qDependsOn x;
     qScope := qScope x; qPrompt := qPrompt x; qRole := qRole x; qModel := qModel x;
     qProjectID := qProjectID x; qTraceID := qTraceID x; qLoopID := qLoopID x;
     qRequestID := qRequestID x; qSortedStoryIDs := qSortedStoryIDs x;
     qCurrentStoryIdx := qCurrentStoryIdx x; qDAG := qDAG x; qSortedNodeIDs := qSortedNodeIDs x;
     qNodeIndex := qNodeIndex x; qCurrentNodeIdx := qCurrentNodeIdx x;
     qCurrentNodeTaskID := qCurrentNodeTaskID x; qVisitedNodes := qVisitedNodes x;
     qNodeResults := qNodeResults x; qNodeTaskIDs := qNodeTaskIDs x;
     qRequirementBranch := qRequirementBranch x; qBaseBranch := qBaseBranch x;
     qReviewerTaskID := qReviewerTaskID x; qReviewVerdict := qReviewVerdict x;
     qReviewFeedback := qReviewFeedback x; qReviewRetryCount := qReviewRetryCount x;
     qRetryCount := qRetryCount x; qMaxRetries := qMaxRetries x;
     qDirtyNodeIDs := qDirtyNodeIDs x; qLastReviewFeedback := v;
     qScenarioVerdicts := qScenarioVerdicts x; qTimeoutTimer := qTimeoutTimer x;
     qAwaitingRecovery := qAwaitingRecovery x; qRecoveryTimer := qRecoveryTimer x;
     qRecoveryReason := qRecoveryReason x; qRecoveryRestarts := qRecoveryRestarts x;
     qRecoveryInfraRetries := qRecoveryInfraRetries x |}.

Definition set_qScenarioVerdicts (v : list ScenarioVerdict) (x : requirementExecution) : requirementExecution :=
  {| qTerminated := qTerminated x; qStoreKey := qStoreKey x; qEntityID := qEntityID x;
     qSlug := qSlug x; qRequirementID := qRequirementID x; qTitle := qTitle x;
     qDescription := qDescription x; qScenarios := qScenarios x; qDependsOn := qDependsOn x;
     qScope := qScope x; qPrompt := qPrompt x; qRole := qRole x; qModel := qModel x;
     qProjectID := qProjectID x; qTraceID := qTraceID x; qLoopID := qLoopID x;
     qRequestID := qRequestID x; qSortedStoryIDs := qSortedStoryIDs x;
     qCurrentStoryIdx := qCurrentStoryIdx x; qDAG := qDAG x; qSortedNodeIDs := qSortedNodeIDs x;
     qNodeIndex := qNodeIndex x; qCurrentNodeIdx := qCurrentNodeIdx x;
     qCurrentNodeTaskID := qCurrentNodeTaskID x; qVisitedNodes := qVisitedNodes x;
     qNodeResults := qNodeResults x; qNodeTaskIDs := qNodeTaskIDs x;
     qRequirementBranch := qRequirementBranch x; qBaseBranch := qBaseBranch x;
     qReviewerTaskID := qReviewerTaskID x; qReviewVerdict := qReviewVerdict x;
     qReviewFeedback := qReviewFeedback x; qReviewRetryCount := qReviewRetryCount x;
     qRetryCount := qRetryCount x; qMaxRetries := qMaxRetries x;
     qDirtyNodeIDs := qDirtyNodeIDs x; qLastReviewFeedback := qLastReviewFeedback x;
     qScenarioVerdicts := v; qTimeoutTimer := qTimeoutTimer x;
     qAwaitingRecovery := qAwaitingRecovery x; qRecoveryTimer := qRecoveryTimer x;
     qRecoveryReason := qRecoveryReason x; qRecoveryRestarts := qRecoveryRestarts x;
     qRecoveryInfraRetries := qRecoveryInfraRetries x |}.

Definition set_qTimeoutTimer (v : option nat) (x : requirementExecution) : requirementExecution :=
  {| qTerminated := qTerminated x; qStoreKey := qStoreKey x; qEntityID := qEntityID x;
     qSlug := qSlug x; qRequirementID := qRequirementID x; qTitle := qTitle x;
     qDescription := qDescription x; qScenarios := qScenarios x; qDependsOn := qDependsOn x;
     qScope := qScope x; qPrompt := qPrompt x; qRole := qRole x; qModel := qModel x;
     qProjectID := qProjectID x; qTraceID := qTraceID x; qLoopID := qLoopID x;
     qRequestID := qRequestID x; qSortedStoryIDs := qSortedStoryIDs x;
     qCurrentStoryIdx := qCurrentStoryIdx x; qDAG := qDAG x; qSortedNodeIDs := qSortedNodeIDs x;
     qNodeIndex := qNodeIndex x; qCurrentNodeIdx := qCurrentNodeIdx x;
     qCurrentNodeTaskID := qCurrentNodeTaskID x; qVisitedNodes := qVisitedNodes x;
     qNodeResults := qNodeResults x; qNodeTaskIDs := qNodeTaskIDs x;
     qRequirementBranch := qRequirementBranch x; qBaseBranch := qBaseBranch x;
     qReviewerTaskID := qReviewerTaskID x; qReviewVerdict := qReviewVerdict x;
     qReviewFeedback := qReviewFeedback x; qReviewRetryCount := qReviewRetryCount x;
     qRetryCount := qRetryCount x; qMaxRetries := qMaxRetries x;
     qDirtyNodeIDs := qDirtyNodeIDs x; qLastReviewFeedback := qLastReviewFeedback x;
     qScenarioVerdicts := qScenarioVerdicts x; qTimeoutTimer := v;
     qAwaitingRecovery := qAwaitingRecovery x; qRecoveryTimer := qRecoveryTimer x;
     qRecoveryReason := qRecoveryReason x; qRecoveryRestarts := qRecoveryRestarts x;
     qRecoveryInfraRetries := qRecoveryInfraRetries x |}.

Definition set_qAwaitingRecovery (v : bool) (x : requirementExecution) : requirementExecution :=
  {| qTerminated := qTerminated x; qStoreKey := qStoreKey x; qEntityID := qEntityID x;
     qSlug := qSlug x; qRequirementID := qRequirementID x; qTitle := qTitle x;
     qDescription := qDescription x; qScenarios := qScenarios x; qDependsOn := qDependsOn x;
     qScope := qScope x; qPrompt := qPrompt x; qRole := qRole x; qModel := qModel x;
     qProjectID := qProjectID x; qTraceID := qTraceID x; qLoopID := qLoopID x;
     qRequestID := qRequestID x; qSortedStoryIDs := qSortedStoryIDs x;
     qCurrentStoryIdx := qCurrentStoryIdx x; qDAG := qDAG x; qSortedNodeIDs := qSortedNodeIDs x;
     qNodeIndex := qNodeIndex x; qCurrentNodeIdx := qCurrentNodeIdx x;
     qCurrentNodeTaskID := qCurrentNodeTaskID x; qVisitedNodes := qVisitedNodes x;
     qNodeResults := qNodeResults x; qNodeTaskIDs := qNodeTaskIDs x;
     qRequirementBranch := qRequirementBranch x; qBaseBranch := qBaseBranch x;
     qReviewerTaskID := qReviewerTaskID x; qReviewVerdict := qReviewVerdict x;
     qReviewFeedback := qReviewFeedback x; qReviewRetryCount := qReviewRetryCount x;
     qRetryCount := qRetryCount x; qMaxRetries := qMaxRetries x;
     qDirtyNodeIDs := qDirtyNodeIDs x; qLastReviewFeedback := qLastReviewFeedback x;
     qScenarioVerdicts := qScenarioVerdicts x; qTimeoutTimer := qTimeoutTimer x;
     qAwaitingRecovery := v; qRecoveryTimer := qRecoveryTimer x;
     qRecoveryReason := qRecoveryReason x; qRecoveryRestarts := qRecoveryRestarts x;
     qRecoveryInfraRetries := qRecoveryInfraRetries x |}.

Definition set_qRecoveryTimer (v : option nat) (x : requirementExecution) : requirementExecution :=
  {| qTerminated := qTerminated x; qStoreKey := qStoreKey x; qEntityID := qEntityID x;
     qSlug := qSlug x; qRequirementID := qRequirementID x; qTitle := qTitle x;
     qDescription := qDescription x; qScenarios := qScenarios x; qDependsOn := qDependsOn x;
     qScope := qScope x; qPrompt := qPrompt x; qRole := qRole x; qModel := qModel x;
     qProjectID := qProjectID x; qTraceID := qTraceID x; qLoopID := qLoopID x;
     qRequestID := qRequestID x; qSortedStoryIDs := qSortedStoryIDs x;
     qCurrentStoryIdx := qCurrentStoryIdx x; qDAG := qDAG x; qSortedNodeIDs := qSortedNodeIDs x;
     qNodeIndex := qNodeIndex x; qCurrentNodeIdx := qCurrentNodeIdx x;
     qCurrentNodeTaskID := qCurrentNodeTaskID x; qVisitedNodes := qVisitedNodes x;
     qNodeResults := qNodeResults x; qNodeTaskIDs := qNodeTaskIDs x;
     qRequirementBranch := qRequirementBranch x; qBaseBranch := qBaseBranch x;
     qReviewerTaskID := qReviewerTaskID x; qReviewVerdict := qReviewVerdict x;
     qReviewFeedback := qReviewFeedback x; qReviewRetryCount := qReviewRetryCount x;
     qRetryCount := qRetryCount x; qMaxRetries := qMaxRetries x;
     qDirtyNodeIDs := qDirtyNodeIDs x; qLastReviewFeedback := qLastReviewFeedback x;
     qScenarioVerdicts := qScenarioVerdicts x; qTimeoutTimer := qTimeoutTimer x;
     qAwaitingRecovery := qAwaitingRecovery x; qRecoveryTimer := v;
     qRecoveryReason := qRecoveryReason x; qRecoveryRestarts := qRecoveryRestarts x;
     qRecoveryInfraRetries := qRecoveryInfraRetries x |}.

Definition set_qRecoveryReason (v : string) (x : requirementExecution) : requirementExecution :=
  {| qTerminated := qTerminated x; qStoreKey := qStoreKey x; qEntityID := qEntityID x;
     qSlug := qSlug x; qRequirementID := qRequirementID x; qTitle := qTitle x;
     qDescription := qDescription x; qScenarios := qScenarios x; qDependsOn := qDependsOn x;
     qScope := qScope x; qPrompt := qPrompt x; qRole := qRole x; qModel := qModel x;
     qProjectID := qProjectID x; qTraceID := qTraceID x; qLoopID := qLoopID x;
     qRequestID := qRequestID x; qSortedStoryIDs := qSortedStoryIDs x;
     qCurrentStoryIdx := qCurrentStoryIdx x; qDAG := qDAG x; qSortedNodeIDs := qSortedNodeIDs x;
     qNodeIndex := qNodeIndex x; qCurrentNodeIdx := qCurrentNodeIdx x;
     qCurrentNodeTaskID := qCurrentNodeTaskID x; qVisitedNodes := qVisitedNodes x;
     qNodeResults := qNodeResults x; qNodeTaskIDs := qNodeTaskIDs x;
     qRequirementBranch := qRequirementBranch x; qBaseBranch := qBaseBranch x;
     qReviewerTaskID := qReviewerTaskID x; qReviewVerdict := qReviewVerdict x;
     qReviewFeedback := qReviewFeedback x; qReviewRetryCount := qReviewRetryCount x;
     qRetryCount := qRetryCount x; qMaxRetries := qMaxRetries x;
     qDirtyNodeIDs := qDirtyNodeIDs x; qLastReviewFeedback := qLastReviewFeedback x;
     qScenarioVerdicts := qScenarioVerdicts x; qTimeoutTimer := qTimeoutTimer x;
     qAwaitingRecovery := qAwaitingRecovery x; qRecoveryTimer := qRecoveryTimer x;
     qRecoveryReason := v; qRecoveryRestarts := qRecoveryRestarts x;
     qRecoveryInfraRetries := qRecoveryInfraRetries x |}.

Definition set_qRecoveryRestarts (v : Z) (x : requirementExecution) : requirementExecution :=
  {| qTerminated := qTerminated x; qStoreKey := qStoreKey x; qEntityID := qEntityID x;
     qSlug := qSlug x; qRequirementID := qRequirementID x; qTitle := qTitle x;
     qDescription := qDescription x; qScenarios := qScenarios x; qDependsOn := qDependsOn x;
     qScope := qScope x; qPrompt := qPrompt x; qRole := qRole x; qModel := qModel x;
     qProjectID := qProjectID x; qTraceID := qTraceID x; qLoopID := qLoopID x;
     qRequestID := qRequestID x; qSortedStoryIDs := qSortedStoryIDs x;
     qCurrentStoryIdx := qCurrentStoryIdx x; qDAG := qDAG x; qSortedNodeIDs := qSortedNodeIDs x;
     qNodeIndex := qNodeIndex x; qCurrentNodeIdx := qCurrentNodeIdx x;
     qCurrentNodeTaskID := qCurrentNodeTaskID x; qVisitedNodes := qVisitedNodes x;
     qNodeResults := qNodeResults x; qNodeTaskIDs := qNodeTaskIDs x;
     qRequirementBranch := qRequirementBranch x; qBaseBranch := qBaseBranch x;
     qReviewerTaskID := qReviewerTaskID x; qReviewVerdict := qReviewVerdict x;
     qReviewFeedback := qReviewFeedback x; qReviewRetryCount := qReviewRetryCount x;
     qRetryCount := qRetryCount x; qMaxRetries := qMaxRetries x;
     qDirtyNodeIDs := qDirtyNodeIDs x; qLastReviewFeedback := qLastReviewFeedback x;
     qScenarioVerdicts := qScenarioVerdicts x; qTimeoutTimer := qTimeoutTimer x;
     qAwaitingRecovery := qAwaitingRecovery x; qRecoveryTimer := qRecoveryTimer x;
     qRecoveryReason := qRecoveryReason x; qRecoveryRestarts := v;
     qRecoveryInfraRetries := qRecoveryInfraRetries x |}.

Definition set_qRecoveryInfraRetries (v : Z) (x : requirementExecution) : requirementExecution :=
  {| qTerminated := qTerminated x; qStoreKey := qStoreKey x; qEntityID := qEntityID x;
     qSlug := qSlug x; qRequirementID := qRequirementID x; qTitle := qTitle x;
     qDescription := qDescription x; qScenarios := qScenarios x; qDependsOn := qDependsOn x;
     qScope := qScope x; qPrompt := qPrompt x; qRole := qRole x; qModel := qModel x;
     qProjectID := qProjectID x; qTraceID := qTraceID x; qLoopID := qLoopID x;
     qRequestID := qRequestID x; qSortedStoryIDs := qSortedStoryIDs x;
     qCurrentStoryIdx := qCurrentStoryIdx x; qDAG := qDAG x; qSortedNodeIDs := qSortedNodeIDs x;
     qNodeIndex := qNodeIndex x; qCurrentNodeIdx := qCurrentNodeIdx x;
     qCurrentNodeTaskID := qCurrentNodeTaskID x; qVisitedNodes := qVisitedNodes x;
     qNodeResults := qNodeResults x; qNodeTaskIDs := qNodeTaskIDs x;
     qRequirementBranch := qRequirementBranch x; qBaseBranch := qBaseBranch x;
     qReviewerTaskID := qReviewerTaskID x; qReviewVerdict := qReviewVerdict x;
     qReviewFeedback := qReviewFeedback x; qReviewRetryCount := qReviewRetryCount x;
     qRetryCount := qRetryCount x; qMaxRetries := qMaxRetries x;
     qDirtyNodeIDs := qDirtyNodeIDs x; qLastReviewFeedback := qLastReviewFeedback x;
     qScenarioVerdicts := qScenarioVerdicts x; qTimeoutTimer := qTimeoutTimer x;
     qAwaitingRecovery := qAwaitingRecovery x; qRecoveryTimer := qRecoveryTimer x;
     qRecoveryReason := qRecoveryReason x; qRecoveryRestarts := qRecoveryRestarts x;
     qRecoveryInfraRetries := v |}.

(** ** Messages and answers *)

(** [RequirementExecutionCompleteEvent] (workflow/subjects.go) *)
Record RequirementExecutionCompleteEvent := MkReqComplete {
  rvSlug : string;
  rvRequirementID : string;
  rvTitle : string;
  rvDescription : string;
  rvProjectID : string;
  rvTraceID : string;
  rvOutcome : string;
  rvNodeCount : Z;
  rvFilesModified : list string;
  rvSummary : string;
  rvScenariosTotal : Z;
  rvScenariosPassed : Z }.

(** Requests, publications and calls of the sandbox. *)
Inductive req_message :=
| QPhase (r : ReqPhaseRequest)
| QNode (r : ReqNodeRequest)
| QNodeResults (r : ReqResetNodeResultsRequest)
| QReset (key : string)
| QTask (r : TaskCreateRequest)
| QClaim (r : ExecClaimRequest)
| QStory (slug id : string) (target : StoryStatus)
| QDecision (slug : string) (d : PlanDecision)
| QRecovery (r : RecoveryRequested)
| QReviewer (t : TaskMessage)
| QComplete (e : RequirementExecutionCompleteEvent)
| QCreateBranch (branch base : string)
| QDeleteBranch (branch : string)
| QCreateWorktree (id base : string)
| QDeleteWorktree (id : string)
| QListFiles (id : string).

(** A read of PLAN_STATES. *)
Inductive plan_read :=
| PlanUnreachable
| PlanMissing
| PlanGarbled (msg : string)
| PlanAt (p : Plan).

(** A read of EXECUTION_STATES. *)
Inductive row_read :=
| RowUnreachable
| RowMissing
| RowGarbled
| RowAt (r : RequirementExecution).

Inductive branch_answer := BranchMade | BranchElsewhere (msg : string) | BranchFailed (msg : string).

(** One interaction: the clock, a fresh identifier, the error of a request,
    and what is answered to a read of the plan of a slug, to a read of the row
    of a key, by the sandbox for a branch, and for the files of a worktree. *)
Record req_io := MkReqIO {
  qiNow : Z;
  qiUUID : string;
  qiErr : option string;
  qiPlan : string → plan_read;
  qiRow : string → row_read;
  qiBranch : branch_answer;
  qiLs : string → ls_result }.

(** A verdict of the reviewer, as decoded. *)
Record requirementReviewScenarioItem := MkReviewItem {
  riScenarioID : string;
  riPassed : option bool;
  riFeedback : string }.

Record requirementReviewResult := MkReviewResult {
  rrvVerdict : string;
  rrvRejectionType : string;
  rrvFeedback : string;
  rrvScenarioVerdicts : list requirementReviewScenarioItem }.

Definition set_rrvRejectionType (v : string) (r : requirementReviewResult) : requirementReviewResult :=
  MkReviewResult (rrvVerdict r) v (rrvFeedback r) (rrvScenarioVerdicts r).

Definition toScenarioVerdicts (r : requirementReviewResult) : list ScenarioVerdict :=
  (λ i, MkScenarioVerdict (riScenarioID i) (default false (riPassed i)) (riFeedback i)) <$> rrvScenarioVerdicts r.

(** The environment.  [rqNats] and [rqSandbox] say whether the client is not
    nil.  The JSON of a task graph, the decoding of a review, the quoting of
    [%q], the hash of an identifier, the assembled system prompt and the
    texts of errors are given. *)
Record ReqEnv := MkReqEnv {
  rqIO : nat → req_io;
  rqNats : bool;
  rqSandbox : bool;
  rqKeys : nat → gset string → list string;
  rqEntityPrefix : string;
  rqPlanEntityID : string → string;
  rqHash : string → string → string;
  rqQuote : string → string;
  rqMarshalDAG : list TaskNode → string;
  rqUnmarshalDAG : string → option (list TaskNode);
  rqUnmarshalReview : string → requirementReviewResult + string;
  rqReviewContext : requirementExecution → string → list Scenario → string;
  rqDagText : dag_invalid → string;
  rqGapText : gap_error → string;
  rqModel : string;
  rqReviewerModel : string;
  rqTimeoutText : string;
  rqMaxRequirementRetries : Z;
  rqMaxReviewRetries : Z;
  rqDeferTerminalOnRecovery : bool;
  rqMaxRecoveryRestarts : Z;
  rqRequireCommitObservation : option bool }.

(** What an armed timer does when it fires. *)
Inductive req_timer := TimeoutOf (o : nat) | RecoveryOf (o : nat).

(** The active executions are a cache from entity IDs to addresses;
    [rwStarting] are the claimed executions whose initialisation has not run
    yet, with the plan branch and the base branch; a message is logged with
    whether it succeeded. *)
Record RWorld := MkRWorld {
  rwHeap : gmap nat requirementExecution;
  rwNext : nat;
  rwActive : gmap string nat;
  rwTimers : gmap nat req_timer;
  rwStarting : list (nat * string * string);
  rwTick : nat;
  rwOut : list (req_message * bool) }.

Definition set_rwHeap (v : gmap nat requirementExecution) (w : RWorld) : RWorld :=
  MkRWorld v (rwNext w) (rwActive w) (rwTimers w) (rwStarting w) (rwTick w) (rwOut w).

Definition set_rwNext (v : nat) (w : RWorld) : RWorld :=
  MkRWorld (rwHeap w) v (rwActive w) (rwTimers w) (rwStarting w) (rwTick w) (rwOut w).

Definition set_rwActive (v : gmap string nat) (w : RWorld) : RWorld :=
  MkRWorld (rwHeap w) (rwNext w) v (rwTimers w) (rwStarting w) (rwTick w) (rwOut w).

Definition set_rwTimers (v : gmap nat req_timer) (w : RWorld) : RWorld :=
  MkRWorld (rwHeap w) (rwNext w) (rwActive w) v (rwStarting w) (rwTick w) (rwOut w).

Definition set_rwStarting (v : list (nat * string * string)) (w : RWorld) : RWorld :=
  MkRWorld (rwHeap w) (rwNext w) (rwActive w) (rwTimers w) v (rwTick w) (rwOut w).

Definition set_rwTick (v : nat) (w : RWorld) : RWorld :=
  MkRWorld (rwHeap w) (rwNext w) (rwActive w) (rwTimers w) (rwStarting w) v (rwOut w).

Definition set_rwOut (v : list (req_message * bool)) (w : RWorld) : RWorld :=
  MkRWorld (rwHeap w) (rwNext w) (rwActive w) (rwTimers w) (rwStarting w) (rwTick w) v.

(** ** The monad *)

Definition R (A : Type) : Type := RWorld → RWorld * A.

#[export] Instance R_ret : MRet R := λ A x w, (w, x).
#[export] Instance R_bind : MBind R := λ A B f m w, let (w', x) := m w in f x w'.

Lemma R_bind_eq {A B} (m : R A) (f : A → R B) w : (m ≫= f) w = f (m w).2 (m w).1.
Proof. unfold mbind, R_bind. by destruct (m w). Qed.

Definition rread : R RWorld := λ w, (w, w).
Definition rmodify (f : RWorld → RWorld) : R () := λ w, (f w, ()).

Definition zero_req : requirementExecution :=
  {| qTerminated := false; qStoreKey := ""; qEntityID := ""; qSlug := ""; qRequirementID := ""; qTitle := "";
     qDescription := ""; qScenarios := []; qDependsOn := []; qScope := None; qPrompt := ""; qRole := "";
     qModel := ""; qProjectID := ""; qTraceID := ""; qLoopID := ""; qRequestID := ""; qSortedStoryIDs := [];
     qCurrentStoryIdx := 0; qDAG := None; qSortedNodeIDs := []; qNodeIndex := ∅; qCurrentNodeIdx := 0;
     qCurrentNodeTaskID := ""; qVisitedNodes := ∅; qNodeResults := []; qNodeTaskIDs := [];
     qRequirementBranch := ""; qBaseBranch := ""; qReviewerTaskID := ""; qReviewVerdict := "";
     qReviewFeedback := ""; qReviewRetryCount := 0; qRetryCount := 0; qMaxRetries := 0; qDirtyNodeIDs := [];
     qLastReviewFeedback := ""; qScenarioVerdicts := []; qTimeoutTimer := None; qAwaitingRecovery := false;
     qRecoveryTimer := None; qRecoveryReason := ""; qRecoveryRestarts := 0; qRecoveryInfraRetries := 0 |}.

Definition cell (w : RWorld) (o : nat) : requirementExecution := default zero_req (rwHeap w !! o).

Definition rexec (o : nat) : R requirementExecution := λ w, (w, cell w o).
Definition updr (o : nat) (f : requirementExecution → requirementExecution) : R () :=
  rmodify (λ w, set_rwHeap (<[o := f (cell w o)]> (rwHeap w)) w).

Definition alloc (x : requirementExecution) : R nat :=
  λ w, (set_rwNext (S (rwNext w)) (set_rwHeap (<[rwNext w := x]> (rwHeap w)) w), rwNext w).

(** [time.AfterFunc] and [timer.Stop] *)
Definition arm (t : req_timer) : R nat :=
  λ w, (set_rwNext (S (rwNext w)) (set_rwTimers (<[rwNext w := t]> (rwTimers w)) w), rwNext w).
Definition stop (t : option nat) : R () :=
  match t with
  | None => mret ()
  | Some t => rmodify (λ w, set_rwTimers (delete t (rwTimers w)) w)
  end.

Section interaction.
Context (E : ReqEnv).

Definition rtick : R req_io :=
  λ w, (set_rwTick (S (rwTick w)) w, rqIO E (rwTick w)).

(** A request or call with its error. *)
Definition rsend (m : req_message) : R (option string) :=
  io ← rtick;
  rmodify (λ w, set_rwOut (rwOut w ++ [(m, bool_decide (qiErr io = None))])%list w);;
  mret (qiErr io).

(** [sendMutation], whose caller only logs the error; without a client
    nothing is sent. *)
Definition sendMutation (m : req_message) : R () :=
  if rqNats E then rsend m;; mret () else mret ().

(** [sendTaskCreate] *)
Definition sendTaskCreate (r : TaskCreateRequest) : R (option string) :=
  if rqNats E then rsend (QTask r) else mret None.

(** A call of the sandbox whose error is only logged. *)
Definition call_sandbox (m : req_message) : R () :=
  if rqSandbox E then rsend m;; mret () else mret ().

(** [ClaimStoryStatus]: whether the plan manager made the transition. *)
Definition ClaimStoryStatus (slug storyID : string) (target : StoryStatus) : R bool :=
  err ← rsend (QStory slug storyID target); mret (bool_decide (err = None)).

(** [loadPlanFromKV]: no plan, a plan, or the error of the decoder. *)
Definition loadPlanFromKV (slug : string) : R (option Plan + string) :=
  if negb (rqNats E) then mret (inl None) else
  io ← rtick;
  mret (match qiPlan io slug with
        | PlanUnreachable | PlanMissing => inl None
        | PlanGarbled msg => inr msg
        | PlanAt p => inl (Some p)
        end).
End interaction.

(** ** Messages with the fields the executor sets *)

Definition phase_request (key stage : string) : ReqPhaseRequest :=
  {| rpKey := key; rpStage := stage; rpNodeCount := None; rpCurrentNodeIdx := None; rpReviewVerdict := "";
     rpReviewFeedback := ""; rpErrorReason := ""; rpErrorClass := ""; rpCurrentNodeTaskID := "";
     rpReviewerTaskID := ""; rpRequirementBranch := ""; rpDAGRaw := ""; rpSortedNodeIDs := [];
     rpSortedStoryIDs := []; rpCurrentStoryIdx := None; rpNodeResults := []; rpScenarioVerdicts := [] |}.

Definition fail_request (key stage reason class : string) : ReqPhaseRequest :=
  {| rpKey := key; rpStage := stage; rpNodeCount := None; rpCurrentNodeIdx := None; rpReviewVerdict := "";
     rpReviewFeedback := ""; rpErrorReason := reason; rpErrorClass := class; rpCurrentNodeTaskID := "";
     rpReviewerTaskID := ""; rpRequirementBranch := ""; rpDAGRaw := ""; rpSortedNodeIDs := [];
     rpSortedStoryIDs := []; rpCurrentStoryIdx := None; rpNodeResults := []; rpScenarioVerdicts := [] |}.

Definition review_request (key taskID : string) : ReqPhaseRequest :=
  {| rpKey := key; rpStage := "reviewing"; rpNodeCount := None; rpCurrentNodeIdx := None; rpReviewVerdict := "";
     rpReviewFeedback := ""; rpErrorReason := ""; rpErrorClass := ""; rpCurrentNodeTaskID := "";
     rpReviewerTaskID := taskID; rpRequirementBranch := ""; rpDAGRaw := ""; rpSortedNodeIDs := [];
     rpSortedStoryIDs := []; rpCurrentStoryIdx := None; rpNodeResults := []; rpScenarioVerdicts := [] |}.

(** The story cursor goes along when there are stories. *)
Definition dag_request (x : requirementExecution) (dagRaw : string) (sorted : list string) : ReqPhaseRequest :=
  {| rpKey := qStoreKey x; rpStage := "executing"; rpNodeCount := Some (Z.of_nat (length sorted));
     rpCurrentNodeIdx := None; rpReviewVerdict := ""; rpReviewFeedback := ""; rpErrorReason := "";
     rpErrorClass := ""; rpCurrentNodeTaskID := ""; rpReviewerTaskID := ""; rpRequirementBranch := "";
     rpDAGRaw := dagRaw; rpSortedNodeIDs := sorted;
     rpSortedStoryIDs := if is_nil (qSortedStoryIDs x) then [] else qSortedStoryIDs x;
     rpCurrentStoryIdx := if is_nil (qSortedStoryIDs x) then None else Some (qCurrentStoryIdx x);
     rpNodeResults := []; rpScenarioVerdicts := [] |}.

Definition node_count (x : requirementExecution) : Z :=
  if is_nil (qNodeResults x) then Z.of_nat (size (qVisitedNodes x)) else Z.of_nat (length (qNodeResults x)).

Definition complete_request (x : requirementExecution) : ReqPhaseRequest :=
  {| rpKey := qStoreKey x; rpStage := "completed"; rpNodeCount := Some (node_count x); rpCurrentNodeIdx := None;
     rpReviewVerdict := qReviewVerdict x; rpReviewFeedback := qReviewFeedback x; rpErrorReason := "";
     rpErrorClass := ""; rpCurrentNodeTaskID := ""; rpReviewerTaskID := ""; rpRequirementBranch := "";
     rpDAGRaw := ""; rpSortedNodeIDs := []; rpSortedStoryIDs := []; rpCurrentStoryIdx := None;
     rpNodeResults := qNodeResults x; rpScenarioVerdicts := qScenarioVerdicts x |}.
