(* ===== verification/ReqEvidence.v ===== *)
(** * What a requirement execution knows about its work

    The pure part of processor/requirement-executor: the order of a task
    graph (topo_sort.go), the scenarios of the current story, the evidence a
    requirement borrows from the owner of a shared story and the verdicts it
    keeps (component.go), the files a story has promised
    (deliverable_gate.go), the walk of a story back to ready
    (recover_completed.go), and the texts given to the developer
    (binding_context.go) and the reviewer (component.go). *)

From stdpp Require Import pretty.
From S2P Require Import Prelude Graphs Status Paths Types Stories Branches TaskDag PlanStore ExecTypes Feedback ExecStore.
From S2P Require Import Convergence ReqTypes.

Local Open Scope string_scope.
Local Open Scope go_scope.

(** ** The order of a task graph *)

Inductive topo_error := TopoEmpty | TopoCycle (sorted total : nat).

Section topo.
Context (nodes : list TaskNode).

(** [inDegree] and [dependents]: a dependency listed twice counts twice. *)
Definition in_degrees : gmap string Z :=
  foldl (λ m n, <[nID n := Z.of_nat (length (nDependsOn n))]> m) ∅ nodes.

Definition dependents_of (id : string) : list string :=
  mjoin ((λ n, replicate (length (filter (λ d, d = id) (nDependsOn n))) (nID n)) <$> nodes).

(** The edges out of the node taken from the queue. *)
Fixpoint relax (inDegree : gmap string Z) (queue deps : list string) : gmap string Z * list string :=
  match deps with
  | [] => (inDegree, queue)
  | dep :: deps =>
      let d := (default 0 (inDegree !! dep) - 1)%Z in
      relax (<[dep := d]> inDegree) (if bool_decide (d = 0%Z) then queue ++ [dep] else queue)%list deps
  end.

Fixpoint topo_loop (fuel : nat) (inDegree : gmap string Z) (queue sorted : list string) : list string :=
  match fuel, queue with
  | _, [] | O, _ => sorted
  | S fuel, id :: queue =>
      let (inDegree, queue) := relax inDegree queue (dependents_of id) in
      topo_loop fuel inDegree queue (sorted ++ [id])%list
  end.

(** A node enters the queue when its degree reaches zero, so at most once:
    one round per node is enough. *)
Definition topoSort : list string + topo_error :=
  if is_nil nodes then inr TopoEmpty else
  let queue := filter (λ id, default 0%Z (in_degrees !! id) = 0%Z) (nID <$> nodes) in
  let sorted := topo_loop (S (length nodes)) in_degrees queue [] in
  if bool_decide (length sorted = length nodes) then inl sorted
  else inr (TopoCycle (length sorted) (length nodes)).
End topo.

Definition topo_text (e : topo_error) : string :=
  match e with
  | TopoEmpty => "empty DAG"
  | TopoCycle sorted total => "cycle detected: sorted " +:+ pretty sorted +:+ " of " +:+ pretty total +:+ " nodes"
  end.

(** ** Scenarios *)

Definition filterScenariosByIDs (scenarios : list Scenario) (ids : list string) : list Scenario :=
  filter (λ s, scID s ∈ ids) scenarios.

(** The story at the cursor, when the cursor is in range. *)
Definition current_story (x : requirementExecution) : option string :=
  if bool_decide (0 ≤ qCurrentStoryIdx x)%Z then qSortedStoryIDs x !! Z.to_nat (qCurrentStoryIdx x) else None.

Definition scopeScenariosToCurrentStory (x : requirementExecution) : list Scenario :=
  match current_story x with
  | None => qScenarios x
  | Some "" => qScenarios x
  | Some id =>
      let out := filter (λ s, scStoryID s = id) (qScenarios x) in
      let legacy := filter (λ s, scStoryID s ≠ id ∧ scStoryID s = "") (qScenarios x) in
      if is_nil out && negb (is_nil legacy) then legacy else out
  end.

Definition scenarioIDs (scenarios : list Scenario) : list string :=
  foldl appendUnique [] (filter (λ id, id ≠ "") (scID <$> scenarios)).

Definition scenarioIDSet (scenarios : list Scenario) : gset string := list_to_set (scenarioIDs scenarios).

(** Whether the last verdict on the scenario is a pass. *)
Definition passed (verdicts : list ScenarioVerdict) (id : string) : bool :=
  default false (map_of ((λ v, (svScenarioID v, svPassed v)) <$> filter (λ v, svScenarioID v ≠ "") verdicts) !! id).

Definition validateApprovedScenarioVerdicts (required : list Scenario) (verdicts : list ScenarioVerdict) : string :=
  let missingOrFailed := filter (λ id, passed verdicts id = false) (scenarioIDs required) in
  if is_nil missingOrFailed then ""
  else "approved review missing passing scenario verdicts for: " +:+ Join missingOrFailed ", ".

(** The verdicts of the review that replace or join the ones kept: the last
    for each scenario in scope, at the place of the first. *)
Definition replacements (scoped : gset string) (verdicts : list ScenarioVerdict) : gmap string ScenarioVerdict :=
  map_of ((λ v, (svScenarioID v, v)) <$>
    filter (λ v, svScenarioID v ≠ "" ∧ (scoped = ∅ ∨ svScenarioID v ∈ scoped)) verdicts).

Definition mergeCurrentStoryScenarioVerdicts (x : requirementExecution) (verdicts : list ScenarioVerdict) :
    requirementExecution :=
  let new := replacements (scenarioIDSet (scopeScenariosToCurrentStory x)) verdicts in
  if bool_decide (new = ∅) then x else
  let kept := filter (λ v, svScenarioID v = "" ∨ new !! svScenarioID v = None) (qScenarioVerdicts x) in
  let ids := foldl appendUnique [] (filter (λ id, id ≠ "") (svScenarioID <$> verdicts)) in
  set_qScenarioVerdicts (kept ++ omap (λ id, new !! id) ids)%list x.

Definition countPassedScenarios (scenarios : list Scenario) (verdicts : list ScenarioVerdict) : Z :=
  if is_nil scenarios then 0%Z
  else if is_nil verdicts then Z.of_nat (length scenarios)
  else Z.of_nat (length (filter (λ s, passed verdicts (scID s) = true) scenarios)).

(** ** Evidence of a shared story *)

Definition findStoryByID (plan : Plan) (storyID : string) : option Story := snd <$> FindStory plan storyID.

Definition storyTaskIDSet (story : Story) : gset string :=
  list_to_set (filter (λ id, id ≠ "") (tID <$> sTasks story)).

(** The results of the story's tasks; all of them when it lists none. *)
Definition of_story (story : Story) (nr : NodeResult) : bool :=
  bool_decide (storyTaskIDSet story = ∅) || bool_decide (nrNodeID nr ∈ storyTaskIDSet story).

Definition hasCommittedStoryNodeEvidence (owner : requirementExecution) (story : Story) : bool :=
  existsb (λ nr, of_story story nr && negb (is_nil (nrFilesModified nr)) && (nrCommitSHA nr !=? ""))
    (qNodeResults owner).

Definition requiredScenariosForBorrowedStory (x : requirementExecution) (storyID : string) : list Scenario :=
  let matched := filter (λ s, storyID ≠ "" ∧ scStoryID s = storyID) (qScenarios x) in
  let legacy := filter (λ s, ¬ (storyID ≠ "" ∧ scStoryID s = storyID) ∧ scStoryID s = "") (qScenarios x) in
  if is_nil matched then legacy else matched.

Definition executionHasStoryEvidence (x : requirementExecution) (story : Story) : bool :=
  existsb (of_story story) (qNodeResults x).

Definition validateBorrowedStoryEvidence (x : requirementExecution) (story : Story) (owner : requirementExecution) :
    string :=
  if negb (hasCommittedStoryNodeEvidence owner story) then "owner has no committed node evidence for the Story" else
  let required := requiredScenariosForBorrowedStory x (sID story) in
  if is_nil required then "borrowing requirement has no scenarios linked to the completed Story"
  else validateApprovedScenarioVerdicts required (qScenarioVerdicts owner).

Definition nodeEvidenceKey (nr : NodeResult) : string := nrNodeID nr +:+ String (byte 0) (nrCommitSHA nr).

Definition copy_result (story : Story) (st : gset string * requirementExecution) (nr : NodeResult) :
    gset string * requirementExecution :=
  if negb (of_story story nr) || bool_decide (nodeEvidenceKey nr ∈ st.1) then st
  else ({[nodeEvidenceKey nr]} ∪ st.1,
        set_qVisitedNodes ({[nrNodeID nr]} ∪ qVisitedNodes st.2)
          (set_qNodeResults (qNodeResults st.2 ++ [nr])%list st.2)).

(** The execution with the owner's results, and whether it has evidence
    now: something was copied, or it had some before. *)
Definition copyStoryEvidence (x : requirementExecution) (story : Story) (owner : requirementExecution) :
    requirementExecution * bool :=
  if is_nil (qNodeResults owner) then (x, false) else
  let x' := (foldl (copy_result story) (list_to_set (nodeEvidenceKey <$> qNodeResults x), x) (qNodeResults owner)).2 in
  (x', negb (bool_decide (length (qNodeResults x') = length (qNodeResults x))) || executionHasStoryEvidence x' story).

Definition copy_verdict (required : gset string) (st : gset string * list ScenarioVerdict) (v : ScenarioVerdict) :
    gset string * list ScenarioVerdict :=
  if bool_decide (svScenarioID v ∉ required) || bool_decide (svScenarioID v ∈ st.1) then st
  else ({[svScenarioID v]} ∪ st.1, (st.2 ++ [v])%list).

Definition copyScenarioVerdictEvidence (x : requirementExecution) (story : Story) (owner : requirementExecution) :
    requirementExecution :=
  let required := requiredScenariosForBorrowedStory x (sID story) in
  if is_nil required || is_nil (qScenarioVerdicts owner) then x else
  let ids : gset string := list_to_set (filter (λ id, id ≠ "") (scID <$> required)) in
  let seen : gset string := list_to_set (filter (λ id, id ≠ "") (svScenarioID <$> qScenarioVerdicts x)) in
  set_qScenarioVerdicts (foldl (copy_verdict ids) (seen, qScenarioVerdicts x) (qScenarioVerdicts owner)).2 x.

(** ** Retries *)

(** Results of other stories; none when there is no current graph. *)
Definition nodeResultsOutsideCurrentStory (x : requirementExecution) : list NodeResult :=
  let current := filter (λ id, id ≠ "") (qSortedNodeIDs x) in
  if is_nil current then [] else filter (λ nr, nrNodeID nr ∉ current) (qNodeResults x).

Definition isNodeDirty (x : requirementExecution) (nodeID : string) : bool :=
  bool_decide (qRetryCount x = 0%Z) || is_nil (qDirtyNodeIDs x) || bool_decide (nodeID ∈ qDirtyNodeIDs x).

Definition resetPerStoryExecutionState (x : requirementExecution) : requirementExecution :=
  set_qDirtyNodeIDs [] (set_qRetryCount 0 (set_qReviewRetryCount 0 (set_qReviewFeedback ""
  (set_qReviewVerdict "" (set_qVisitedNodes ∅ (set_qCurrentNodeTaskID "" (set_qCurrentNodeIdx (-1)
  (set_qNodeIndex ∅ (set_qSortedNodeIDs [] (set_qDAG None x)))))))))).

(** ** Promised files *)

Definition owned_files (stories : list Story) : gset string :=
  list_to_set (filter (λ p, p ≠ "") (NormalizeFilePath <$> mjoin (sFilesOwned <$> stories))).

Definition scope_obligations (plan : Plan) (stories : list Story) : list string :=
  foldl appendUnique []
    (filter (λ p, p ≠ "" ∧ p ∈ owned_files stories) (NormalizeFilePath <$> scpCreate (pScope plan))).

Definition storyScopeCreateObligations (plan : Plan) (story : Story) : list string :=
  scope_obligations plan [story].

Definition requirementScopeCreateObligations (plan : Plan) (storyIDs : list string) : list string :=
  scope_obligations plan (filter (λ s, sID s ≠ "" ∧ sID s ∈ storyIDs) (pStories plan)).

Definition missingDeliverableFiles (expected delivered : list string) : list string :=
  let have := NormalizeFilePath <$> delivered in
  filter (λ p, p ∉ have) (foldl appendUnique [] (filter (λ p, p ≠ "") (NormalizeFilePath <$> expected))).

(** ** Completion *)

Definition aggregateFiles (x : requirementExecution) : list string :=
  foldl appendUnique [] (mjoin (nrFilesModified <$> qNodeResults x)).

Definition aggregateNodeSummaries (x : requirementExecution) : string :=
  Join ((λ nr, "[" +:+ nrNodeID nr +:+ "] " +:+ nrSummary nr) <$>
        filter (λ nr, nrSummary nr ≠ "") (qNodeResults x)) "; ".

Definition complete_event (x : requirementExecution) (outcome : string) : RequirementExecutionCompleteEvent :=
  {| rvSlug := qSlug x; rvRequirementID := qRequirementID x; rvTitle := qTitle x; rvDescription := qDescription x;
     rvProjectID := qProjectID x; rvTraceID := qTraceID x; rvOutcome := outcome; rvNodeCount := node_count x;
     rvFilesModified := aggregateFiles x; rvSummary := aggregateNodeSummaries x;
     rvScenariosTotal := Z.of_nat (length (qScenarios x));
     rvScenariosPassed := if outcome !=? "completed" then 0%Z
                          else countPassedScenarios (qScenarios x) (qScenarioVerdicts x) |}.

(** Nodes that claim files and have no commit. *)
Definition unobserved (x : requirementExecution) : list string :=
  nrNodeID <$> filter (λ nr, nrFilesModified nr ≠ [] ∧ nrCommitSHA nr = "") (qNodeResults x).

(** ** Reopening stories *)

Definition storyStatusWalkToReady (from : StoryStatus) : list StoryStatus :=
  match from with
  | StoryStatusReady => []
  | StoryStatusPending | StoryStatusComplete => [StoryStatusReady]
  | StoryStatusFailed => [StoryStatusPending; StoryStatusReady]
  | StoryStatusExecuting => [StoryStatusFailed; StoryStatusPending; StoryStatusReady]
  | StoryStatusOther _ => []
  end.

Definition storiesToReopenForRecovery (plan : Plan) (reqID : string) : list string :=
  sID <$> filter (λ s, DeterministicStoryOwner s = reqID ∧
      sStatus s ∈ [StoryStatusComplete; StoryStatusExecuting; StoryStatusFailed; StoryStatusPending])
    (StoriesForRequirement plan reqID).

Record storyReopenResult := MkReopen { candidates : Z; reopened : Z }.

Definition allReady (r : storyReopenResult) : bool :=
  bool_decide (candidates r = 0%Z) || bool_decide (reopened r = candidates r).

(** The affected requirements that derive from another affected one. *)
Definition coAffectedDependentSet (affected : list string) (reqs : list Requirement) (stories : list Story) :
    gset string :=
  list_to_set (filter (λ dep, dep ∈ affected)
    (mjoin ((λ owner, DependentBranchSubtree owner reqs stories) <$> affected))).

Definition countAcceptedRecoveryCycles (plan : Plan) (reqID : string) : Z :=
  Z.of_nat (length (filter (λ d, dProposedBy d = "recovery-agent" ∧ dStatus d = PlanDecisionStatusAccepted ∧
    reqID ∈ dAffectedReqIDs d) (pPlanDecisions plan))).

Definition isPendingRecoveryDecisionForRequirement (dec : PlanDecision) (requirementID : string) : bool :=
  if negb ((dStatus dec =? PlanDecisionStatusProposed) || (dStatus dec =? PlanDecisionStatusUnderReview)) then false
  else if negb ((dKind dec =? PlanDecisionKindRequirementChange) || (dKind dec =? PlanDecisionKindStoryReprepare) ||
                (dKind dec =? PlanDecisionKindArchitectureRevise) || (dKind dec =? PlanDecisionKindScopeIncomplete))
  then false
  else is_nil (dAffectedReqIDs dec) || bool_decide (requirementID ∈ dAffectedReqIDs dec).

Definition selectReqBranchBase (planBranch baseBranch : string) : string :=
  if baseBranch !=? "" then baseBranch else if planBranch !=? "" then planBranch else "HEAD".

(** ** The reviewer's prompt *)

Definition firstTierTag (tags : list string) : string := default "" (head (filter (λ t, IsTierTag t = true) tags)).

Record scenarioTierGroups := MkTierGroups {
  tgUnit : list Scenario;
  tgIntegration : list Scenario;
  tgSmoke : list Scenario;
  tgE2E : list Scenario;
  tgUntagged : list Scenario }.

Definition groupScenariosByTier (scenarios : list Scenario) : scenarioTierGroups :=
  let tier t := filter (λ s, firstTierTag (scTags s) = t) scenarios in
  MkTierGroups (tier "@unit") (tier "@integration") (tier "@smoke") (tier "@e2e")
    (filter (λ s, firstTierTag (scTags s) ∉ ["@unit"; "@integration"; "@smoke"; "@e2e"]) scenarios).

Fixpoint writeScenarioList_from (i : nat) (scenarios : list Scenario) : string :=
  match scenarios with
  | [] => ""
  | sc :: scenarios =>
      pretty (S i) +:+ ". [" +:+ scID sc +:+ "] Given " +:+ scGiven sc +:+ ", When " +:+ scWhen sc +:+
      ", Then " +:+ Join (scThen sc) ", " +:+
      (if is_nil (scHarnessProfileIDs sc) then ""
       else "  (harness: " +:+ Join (scHarnessProfileIDs sc) ", " +:+ ")") +:+ nl +:+
      writeScenarioList_from (S i) scenarios
  end.

Definition writeScenarioList : list Scenario → string := writeScenarioList_from 0.

(** A section of the prompt, left out when the tier has no scenario. *)
Definition tier_section (title instructions : string) (scenarios : list Scenario) : string :=
  if is_nil scenarios then ""
  else nl +:+ "### " +:+ title +:+ nl +:+ instructions +:+ nl +:+ nl +:+ writeScenarioList scenarios.

Definition scenario_sections (g : scenarioTierGroups) : string :=
  tier_section "@unit scenarios" "Verify each has a unit test method exercising the behavior with fakes / in-process state. The unit test MUST run and pass at dev-completion (no external dependencies). Reject if missing or if the test references real services / SITL / databases / peer processes (category error — flag for planner to retire the scenario)." (tgUnit g) +:+
  tier_section "@integration scenarios" "Verify each has an integration test or documented integration-test plan that (a) declares the tier using the project's test framework idiom, (b) binds to the scenario's harness_profile_ids where project tooling consumes such bindings, (c) reads harness endpoints from environment variables declared by the bound catalog profile (NOT a hardcoded host/port), and (d) asserts on each required_assertion of every bound profile. The test does NOT need to PASS here — the harness may not be up in the dev sandbox. Approve when AUTHORING is correct; qa_level=integration is the runtime evidence gate when the project selects it, while full/e2e orchestration remains operator CI for MVP." (tgIntegration g) +:+
  tier_section "@smoke scenarios" "Verify each has at least a stub test file OR a documented release-gating plan. Do NOT block dev approval — smoke is gated at scheduled tiers downstream." (tgSmoke g) +:+
  tier_section "@e2e scenarios" "Verify each has at least a stub test file OR a documented release-gating plan. Do NOT block dev approval — e2e is observed in full-system deployments downstream." (tgE2E g) +:+
  tier_section "Untagged scenarios (legacy / pre-ADR-041)" "These scenarios lack tier tags (plan was drafted before ADR-041 lands). Apply the legacy contract: verify each scenario's Given/When/Then is exercised by the implementation. If you find yourself wanting to demand integration-tier behavior from these, surface that as planner feedback rather than rejecting the dev." (tgUntagged g).

Definition result_line (nr : NodeResult) : string :=
  "- " +:+ nrNodeID nr +:+
  (if is_nil (nrFilesModified nr) then "" else " (files: " +:+ Join (nrFilesModified nr) ", " +:+ ")") +:+
  (if nrSummary nr =? "" then "" else ": " +:+ nrSummary nr) +:+ nl.

Definition buildReviewPrompt (x : requirementExecution) (scenarios : list Scenario) : string :=
  "Requirement: " +:+ qTitle x +:+ nl +:+
  (if qDescription x =? "" then "" else "Description: " +:+ qDescription x +:+ nl) +:+
  (if is_nil scenarios then "" else
   nl +:+ "## Scenarios to verify (grouped by test pyramid tier)" +:+ nl +:+
   nl +:+ "Apply tier-appropriate verification per ADR-041. The harness is not guaranteed to run in the dev sandbox — @integration scenarios are verified for AUTHORING CORRECTNESS here, not runtime behavior. Runtime proof is enforced later by qa_level=integration when the project selects that level; full/e2e orchestration remains operator CI for MVP." +:+ nl +:+
   scenario_sections (groupScenariosByTier scenarios)) +:+
  (if is_nil (qNodeResults x) then "" else
   nl +:+ "## Completed Implementation Nodes" +:+ nl +:+ String.concat "" (result_line <$> qNodeResults x)).

(** ** The developer's binding block *)

Definition maxAssertionsPerScenario : nat := 10.

Definition integration_tag (t : string) : bool := (t =? "@integration") || (t =? "@smoke") || (t =? "@e2e").

Definition hasIntegrationTierSignal (sc : Scenario) : bool :=
  negb (is_nil (scHarnessProfileIDs sc)) || existsb integration_tag (scTags sc).

Definition filterIntegrationTierScenarios (scenarios : list Scenario) : list Scenario :=
  filter (λ sc, hasIntegrationTierSignal sc = true) scenarios.

Definition pickTierTag (tags : list string) : string := default "" (head (filter (λ t, integration_tag t = true) tags)).

(** [strings.TrimPrefix(tag, "@")] *)
Definition trim_at (tag : string) : string :=
  match tag with
  | String c r => if c =? byte 64 then r else tag
  | "" => ""
  end.

Section binding.
Context (quote : string → string).

Definition quotedJoined (items : list string) : string := Join (quote <$> items) ", ".

Definition formatScenarioBinding (sc : Scenario) : string :=
  "- **" +:+ scID sc +:+ "**" +:+ (if is_nil (scTags sc) then "" else " " +:+ Join (scTags sc) " ") +:+ nl +:+
  (let tag := pickTierTag (scTags sc) in
   if tag =? "" then ""
   else "  - Tag tests for the " +:+ tag +:+ " tier (e.g. JUnit5 `@Tag(" +:+ quote (trim_at tag) +:+
        ")`, pytest `pytest.mark." +:+ trim_at tag +:+ "`)." +:+ nl) +:+
  (if is_nil (scHarnessProfileIDs sc) then ""
   else "  - Harness profile ID(s) for integration evidence traceability: " +:+
        quotedJoined (scHarnessProfileIDs sc) +:+ "." +:+ nl) +:+
  (let keys := sorted_elements (dom (scEnv sc)) in
   if is_nil keys then ""
   else "  - Env vars provided by the integration test environment (read at test runtime, do not hardcode): " +:+
        quotedJoined keys +:+ "." +:+ nl) +:+
  (let dropped := (length (scRequiredAssertions sc) - maxAssertionsPerScenario)%nat in
   if is_nil (scRequiredAssertions sc) then ""
   else "  - Behavior the test must demonstrate (reviewer judges actual coverage, not text match):" +:+ nl +:+
        String.concat "" ((λ a, "    * " +:+ a +:+ nl) <$> take maxAssertionsPerScenario (scRequiredAssertions sc)) +:+
        (if bool_decide (dropped = O) then ""
         else "    * (+" +:+ pretty dropped +:+ " more — see harness catalog entry)" +:+ nl)) +:+
  nl.

Definition binding_intro : string :=
  "The scenarios below target integration-tier evidence beyond pure unit scope. For MVP, this block is authoring and review context: write tests so they can participate in the project's own integration-test protocol, usually by declaring the tier, reading environment-provided endpoints, and asserting the catalog's required behavior. qa_level=integration runs the configured project QA command as the runtime evidence gate; full/e2e orchestration remains operator CI for MVP.".

Definition buildBindingContextBlock (scenarios : list Scenario) : string :=
  let relevant := filterIntegrationTierScenarios scenarios in
  if is_nil relevant then ""
  else "## Integration Test Context" +:+ nl +:+ nl +:+ binding_intro +:+ nl +:+ nl +:+
       String.concat "" (formatScenarioBinding <$> relevant).
End binding.

(** ** Lemmas: the order of a task graph *)

Definition count_of (x : string) (l : list string) : Z := Z.of_nat (length (filter (λ d, d = x) l)).

Definition degree (m : gmap string Z) (x : string) : Z := default 0%Z (m !! x).

Lemma count_of_cons x y l : count_of x (y :: l) = ((if bool_decide (y = x) then 1 else 0) + count_of x l)%Z.
Proof.
  unfold count_of. case_bool_decide.
  - rewrite filter_cons_True by done. simpl. lia.
  - rewrite filter_cons_False by done. lia.
Qed.

Lemma count_of_nonneg x l : (0 ≤ count_of x l)%Z.
Proof. unfold count_of. lia. Qed.

Lemma count_of_pos x l : (0 < count_of x l)%Z ↔ x ∈ l.
Proof.
  induction l as [|y l IH]; [split; [done|set_solver]|].
  rewrite count_of_cons, elem_of_cons, <- IH. pose proof (count_of_nonneg x l).
  case_bool_decide; split; intros; [naive_solver|lia|right; lia|naive_solver].
Qed.

Lemma count_of_app x l1 l2 : count_of x (l1 ++ l2)%list = (count_of x l1 + count_of x l2)%Z.
Proof. unfold count_of. rewrite filter_app, length_app. lia. Qed.

Lemma count_of_replicate x y n : count_of x (replicate n y) = (if bool_decide (y = x) then Z.of_nat n else 0)%Z.
Proof.
  induction n as [|n IH]; [by case_bool_decide|]. cbn [replicate]. rewrite count_of_cons, IH.
  case_bool_decide; lia.
Qed.

(** Relaxing the edges of a node lowers the degrees by their number; the
    nodes that reach zero join the queue, once. *)
Lemma relax_spec deps deg queue :
  (∀ x, x ∈ deps → count_of x deps ≤ degree deg x)%Z →
  ∃ added, (relax deg queue deps).2 = (queue ++ added)%list ∧
    (∀ x, degree (relax deg queue deps).1 x = degree deg x - count_of x deps)%Z ∧
    NoDup added ∧ (∀ x, x ∈ added ↔ x ∈ deps ∧ degree deg x = count_of x deps).
Proof.
  revert deg queue. induction deps as [|d deps IH]; intros deg queue Hle; cbn [relax].
  { exists []. rewrite app_nil_r. split_and!; [done|by intros x; unfold count_of; simpl; lia|constructor|set_solver]. }
  set (deg' := <[d := (degree deg d - 1)%Z]> deg).
  assert (Hdeg : ∀ x, degree deg' x = (degree deg x - (if bool_decide (d = x) then 1 else 0))%Z).
  { intros x. unfold deg', degree. case_bool_decide as E; [subst; by rewrite lookup_insert_eq|].
    rewrite lookup_insert_ne by done. lia. }
  destruct (IH deg' (if bool_decide (degree deg d - 1 = 0)%Z then queue ++ [d] else queue)%list)
    as (added & Eq & Ed & Hnd & Hin).
  { intros x Hx. rewrite Hdeg. specialize (Hle x ltac:(set_solver)). rewrite count_of_cons in Hle. lia. }
  pose proof (Hle d ltac:(set_solver)) as Hd. rewrite count_of_cons, bool_decide_true in Hd by done.
  exists (if bool_decide (degree deg d - 1 = 0)%Z then d :: added else added). split_and!.
  - change (default 0%Z (deg !! d)) with (degree deg d). fold deg'. rewrite Eq.
    case_bool_decide; [by rewrite <- app_assoc|done].
  - intros x. change (default 0%Z (deg !! d)) with (degree deg d). fold deg'.
    rewrite Ed, Hdeg, count_of_cons. lia.
  - case_bool_decide as E; [|done]. constructor; [|done]. intros [Hx _]%Hin.
    apply count_of_pos in Hx. lia.
  - intros x. rewrite count_of_cons, elem_of_cons. specialize (Hin x). rewrite Hdeg in Hin.
    pose proof (count_of_nonneg x deps). pose proof (count_of_pos x deps) as Hp.
    destruct (decide (d = x)) as [->|Hne].
    + rewrite (bool_decide_true (x = x)) in * by done. case_bool_decide as E.
      * rewrite elem_of_cons. split; [intros _; split; [by left|lia]|by left].
      * rewrite Hin. split; [intros [? ?]; split; [by right|lia]|intros [_ Hx]; split; [apply Hp; lia|lia]].
    + rewrite (bool_decide_false (d = x)) in * by done.
      assert (x ∈ (if bool_decide (degree deg d - 1 = 0)%Z then d :: added else added) ↔ x ∈ added) as ->.
      { case_bool_decide; [|done]. rewrite elem_of_cons. naive_solver. }
      rewrite Hin. split; [intros [? ?]; split; [by right|lia]|].
      intros [[->|?] ?]; [done|]. split; [done|lia].
Qed.

(** Every node comes after the nodes it depends on. *)
Definition deps_first (nodes : list TaskNode) (sorted : list string) : Prop :=
  ∀ l1 x l2, sorted = (l1 ++ x :: l2)%list → ∀ n d, n ∈ nodes → nID n = x → d ∈ nDependsOn n → d ∈ l1.

Section topo_lemmas.
Context (nodes : list TaskNode).
Context (Hnd : NoDup (nID <$> nodes)).
Context (Hknown : ∀ n d, n ∈ nodes → d ∈ nDependsOn n → d ∈ nID <$> nodes).

(** What a node still waits for. *)
Definition open_deps (sorted : list string) (n : TaskNode) : list string :=
  filter (λ d, d ∉ sorted) (nDependsOn n).

Record topo_inv (deg : gmap string Z) (queue sorted : list string) : Prop := {
  ti_nodup : NoDup (sorted ++ queue)%list;
  ti_sub : ∀ x, x ∈ (sorted ++ queue)%list → x ∈ nID <$> nodes;
  ti_deg : ∀ n, n ∈ nodes → degree deg (nID n) = Z.of_nat (length (open_deps sorted n));
  ti_ready : ∀ n, n ∈ nodes → nID n ∈ (sorted ++ queue)%list ↔ open_deps sorted n = [];
  ti_order : deps_first nodes sorted }.

Lemma node_unique n m : n ∈ nodes → m ∈ nodes → nID n = nID m → n = m.
Proof.
  intros [i Hi]%list_elem_of_lookup_1 [j Hj]%list_elem_of_lookup_1 E.
  assert (i = j) as ->; [|congruence]. eapply (NoDup_lookup (nID <$> nodes)); [done|..];
    rewrite list_lookup_fmap; [by rewrite Hi|by rewrite Hj; simpl; rewrite E].
Qed.

Lemma dependents_cons m ns id :
  dependents_of (m :: ns) id =
    (replicate (length (filter (λ d, d = id) (nDependsOn m))) (nID m) ++ dependents_of ns id)%list.
Proof. reflexivity. Qed.

Lemma elem_of_dependents ns x id : x ∈ dependents_of ns id → ∃ n, n ∈ ns ∧ nID n = x ∧ id ∈ nDependsOn n.
Proof.
  unfold dependents_of. intros (l & Hl & H)%list_elem_of_join.
  apply list_elem_of_fmap in H as (n & -> & Hn). apply elem_of_replicate in Hl as [-> Hpos].
  exists n. split_and!; [done..|]. apply count_of_pos. unfold count_of. lia.
Qed.

Lemma dependents_count ns n id :
  NoDup (nID <$> ns) → n ∈ ns → count_of (nID n) (dependents_of ns id) = count_of id (nDependsOn n).
Proof.
  induction ns as [|m ns IH]; [set_solver|].
  rewrite fmap_cons, NoDup_cons, dependents_cons. intros [Hm Hns] [->|Hn]%elem_of_cons.
  - rewrite count_of_app, count_of_replicate, bool_decide_true by done.
    enough (count_of (nID m) (dependents_of ns id) = 0%Z) as -> by (unfold count_of; lia).
    destruct (decide (nID m ∈ dependents_of ns id)) as [Hin|Hout].
    + destruct Hm. apply elem_of_dependents in Hin as (k & Hk & <- & _). by apply list_elem_of_fmap_2.
    + pose proof (count_of_nonneg (nID m) (dependents_of ns id)). rewrite <- count_of_pos in Hout. lia.
  - rewrite count_of_app, count_of_replicate, IH by done. rewrite bool_decide_false; [lia|].
    intros E. destruct Hm. rewrite E. by apply list_elem_of_fmap_2.
Qed.

(** Finishing [id] removes its occurrences from what a node waits for. *)
Lemma open_deps_snoc sorted id n :
  (id ∉ sorted) →
  Z.of_nat (length (open_deps (sorted ++ [id])%list n)) =
    (Z.of_nat (length (open_deps sorted n)) - count_of id (nDependsOn n))%Z.
Proof.
  intros Hid. unfold open_deps. induction (nDependsOn n) as [|d ds IH]; [done|].
  rewrite count_of_cons. destruct (decide (d = id)) as [->|Hne].
  - rewrite filter_cons_False by set_solver. rewrite filter_cons_True by done.
    rewrite bool_decide_true by done. cbn [length]. lia.
  - rewrite bool_decide_false by done. destruct (decide (d ∈ sorted)).
    + rewrite !filter_cons_False by set_solver. lia.
    + rewrite !filter_cons_True by set_solver. cbn [length]. lia.
Qed.

Lemma deps_first_snoc sorted n :
  deps_first nodes sorted → n ∈ nodes → open_deps sorted n = [] → deps_first nodes (sorted ++ [nID n])%list.
Proof.
  intros Ho Hn Hopen l1 x l2 E m d Hm Hx Hd.
  destruct l2 as [|y l2 _] using rev_ind.
  - apply app_inj_tail in E as [-> <-]. rewrite (node_unique m n) in Hd by done.
    destruct (decide (d ∈ l1)) as [|Hout]; [done|].
    assert (d ∈ open_deps l1 n) as H by (apply list_elem_of_filter; done). rewrite Hopen in H. set_solver.
  - rewrite app_comm_cons, app_assoc in E. apply app_inj_tail in E as [-> _]. by eapply Ho.
Qed.

Lemma open_deps_count sorted id n :
  (id ∉ sorted) → (count_of id (nDependsOn n) ≤ Z.of_nat (length (open_deps sorted n)))%Z.
Proof. intros H. pose proof (open_deps_snoc sorted id n H). lia. Qed.

Lemma topo_inv_step deg id queue sorted :
  topo_inv deg (id :: queue) sorted →
  topo_inv (relax deg queue (dependents_of nodes id)).1 (relax deg queue (dependents_of nodes id)).2
    (sorted ++ [id])%list.
Proof.
  intros [Hn Hs Hd Hr Ho].
  assert (id ∉ sorted) as Hid by (apply NoDup_app in Hn as (_ & Hx & _); intros Hin; by apply (Hx id Hin), list_elem_of_here).
  destruct (relax_spec (dependents_of nodes id) deg queue) as (added & -> & Edeg & Hadd & Hin).
  { intros x (n & Hx & <- & _)%elem_of_dependents. rewrite dependents_count, Hd by done. by apply open_deps_count. }
  set (deg' := (relax deg queue (dependents_of nodes id)).1) in *.
  assert (Hdeg' : ∀ n, n ∈ nodes → degree deg' (nID n) = Z.of_nat (length (open_deps (sorted ++ [id])%list n))).
  { intros n Hx. rewrite Edeg, Hd, dependents_count, open_deps_snoc by done. lia. }
  assert (Hadd' : ∀ x, x ∈ added → x ∉ (sorted ++ id :: queue)%list).
  { intros x [Hx E]%Hin Hold. pose proof (proj2 (count_of_pos x _) Hx).
    apply elem_of_dependents in Hx as (n & Hx & <- & _). apply Hr in Hold; [|done].
    rewrite Hd, Hold in E by done. simpl in E. lia. }
  split.
  - rewrite <- !app_assoc. cbn [app]. rewrite app_comm_cons, app_assoc. apply NoDup_app.
    split_and!; [done| |done]. intros x Hx Hx'. by destruct (Hadd' x Hx').
  - intros x. rewrite <- !app_assoc. cbn [app]. rewrite app_comm_cons, app_assoc, elem_of_app.
    intros [Hx|Hx]; [by apply Hs|]. apply Hin in Hx as [(n & Hx & <- & _)%elem_of_dependents _].
    by apply list_elem_of_fmap_2.
  - done.
  - intros n Hx. rewrite <- !app_assoc. cbn [app]. rewrite app_comm_cons, app_assoc, elem_of_app, Hr by done.
    pose proof (open_deps_snoc sorted id n Hid) as Es. rewrite Hin, dependents_count, Hd by done.
    rewrite <- count_of_pos, dependents_count by done. pose proof (count_of_nonneg id (nDependsOn n)).
    rewrite <- !length_zero_iff_nil. lia.
  - assert (id ∈ nID <$> nodes) as Hi by (apply Hs; set_solver).
    apply list_elem_of_fmap in Hi as (n & -> & Hx).
    apply deps_first_snoc; [done..|]. apply Hr; [done|set_solver].
Qed.

(** One round per node is enough: the loop ends with an empty queue. *)
Lemma topo_loop_inv fuel deg queue sorted :
  topo_inv deg queue sorted → (length nodes < fuel + length sorted)%nat →
  ∃ deg', topo_inv deg' [] (topo_loop nodes fuel deg queue sorted).
Proof.
  revert deg queue sorted. induction fuel as [|fuel IH]; intros deg queue sorted Hinv Hfuel.
  - assert (length sorted ≤ length nodes)%nat; [|lia]. rewrite <- (length_fmap nID nodes).
    destruct Hinv as [Hn Hs _ _ _]. apply NoDup_app in Hn as (Hn & _ & _).
    apply submseteq_length, NoDup_submseteq; [done|]. intros x Hx. apply Hs, elem_of_app. by left.
  - destruct queue as [|id queue]; cbn [topo_loop]; [by exists deg|].
    apply topo_inv_step in Hinv. destruct (relax _ _ _) as [deg' queue'] eqn:E. cbn [fst snd] in Hinv.
    apply (IH _ _ _ Hinv). rewrite length_app. simpl. lia.
Qed.

Lemma degree_in_degrees n : n ∈ nodes → degree (in_degrees nodes) (nID n) = Z.of_nat (length (nDependsOn n)).
Proof.
  intros Hn. unfold degree, in_degrees. apply list_elem_of_split in Hn as (l1 & l2 & E).
  rewrite E in Hnd |- *. rewrite foldl_app. cbn [foldl].
  rewrite fmap_app, fmap_cons in Hnd. apply NoDup_app in Hnd as (_ & _ & Hl2%NoDup_cons).
  destruct Hl2 as [Hl2 _]. clear -Hl2.
  generalize (foldl (λ m n0, <[nID n0:=Z.of_nat (length (nDependsOn n0))]> m) ∅ l1 : gmap string Z). intros m.
  assert (H : default 0%Z (<[nID n:=Z.of_nat (length (nDependsOn n))]> m !! nID n) =
              Z.of_nat (length (nDependsOn n))) by (by rewrite lookup_insert_eq).
  revert H. generalize (<[nID n:=Z.of_nat (length (nDependsOn n))]> m). clear m.
  induction l2 as [|k l2 IH]; intros m H; [done|]. cbn [foldl]. apply IH; [set_solver|].
  rewrite lookup_insert_ne; [done|]. set_solver.
Qed.

Lemma topo_inv_start :
  topo_inv (in_degrees nodes) (filter (λ id, degree (in_degrees nodes) id = 0%Z) (nID <$> nodes)) [].
Proof.
  assert (Hopen : ∀ n, open_deps [] n = nDependsOn n).
  { intros n. unfold open_deps. induction (nDependsOn n) as [|d ds IH]; [done|].
    rewrite filter_cons_True by set_solver. by rewrite IH. }
  split; cbn [app].
  - by apply NoDup_filter.
  - intros x Hx. by apply list_elem_of_filter in Hx as [_ ?].
  - intros n Hn. by rewrite Hopen, degree_in_degrees.
  - intros n Hn. rewrite Hopen, list_elem_of_filter, degree_in_degrees, <- length_zero_iff_nil by done.
    split; [intros [? _]; lia|]. intros ->. split; [done|by apply list_elem_of_fmap_2].
  - intros [|] ? ? E; discriminate.
Qed.

Lemma node_edge n d : n ∈ nodes → edge (adj_of (node_of <$> nodes)) (nID n) d ↔ d ∈ nDependsOn n.
Proof.
  intros Hn. unfold edge, succs. rewrite (adj_of_lookup _ (nID n) (nDependsOn n)); [done| |].
  - by rewrite <- list_fmap_compose.
  - apply list_elem_of_fmap. by exists n.
Qed.

Lemma edge_node x y :
  edge (adj_of (node_of <$> nodes)) x y → ∃ n, n ∈ nodes ∧ nID n = x ∧ y ∈ nDependsOn n.
Proof.
  unfold edge, succs. destruct (adj_of _ !! x) as [ds|] eqn:E; simpl; [|set_solver].
  apply adj_of_lookup_some, list_elem_of_fmap in E as (n & [= -> ->] & Hn). eauto.
Qed.

(** An order in which dependencies come first rules out cycles. *)
Lemma ordered_acyclic sorted :
  NoDup sorted → sorted ≡ₚ nID <$> nodes → deps_first nodes sorted → acyclic (adj_of (node_of <$> nodes)).
Proof.
  intros Hs Hp Ho x Hx.
  assert (Htc : ∀ x y, tc (edge (adj_of (node_of <$> nodes))) x y →
            ∀ l1 l2, sorted = (l1 ++ x :: l2)%list → y ∈ l1).
  { intros a b Htc. induction Htc as [a b He|a b c He _ IH]; intros l1 l2 E;
      apply edge_node in He as (n & Hn & Ha & Hd); pose proof (Ho l1 a l2 E n b Hn Ha Hd) as Hb; [done|].
    apply list_elem_of_split in Hb as (k1 & k2 & ->). apply elem_of_app. left.
    apply (IH k1 (k2 ++ a :: l2)%list). by rewrite E, <- app_assoc. }
  assert (x ∈ sorted) as Hin.
  { rewrite Hp. apply tc_inv_l in Hx as (y & (n & Hn & <- & _)%edge_node & _). by apply list_elem_of_fmap_2. }
  apply list_elem_of_split in Hin as (l1 & l2 & E). rewrite E in Hs.
  apply NoDup_app in Hs as (_ & Hdis & _). apply (Hdis x); [by eapply Htc|by left].
Qed.

(** A node left over waits for another one left over. *)
Lemma left_over_cyclic deg sorted :
  topo_inv deg [] sorted → acyclic (adj_of (node_of <$> nodes)) → sorted ≡ₚ nID <$> nodes.
Proof.
  intros [Hn Hs Hd Hr Ho] Hac. rewrite app_nil_r in Hn, Hs. apply NoDup_Permutation; [done..|].
  intros x. split; [apply Hs|]. intros Hx.
  set (X := list_to_set (filter (λ id, id ∉ sorted) (nID <$> nodes)) : gset string).
  destruct (decide (X = ∅)) as [E|Hne].
  { destruct (decide (x ∈ sorted)) as [|Hout]; [done|]. assert (x ∈ X) as H; [|rewrite E in H; set_solver].
    apply elem_of_list_to_set, list_elem_of_filter. done. }
  destruct (acyclic_minimal (adj_of (node_of <$> nodes)) X) as (y & Hy & Hmin); [done|set_solver|].
  apply elem_of_list_to_set, list_elem_of_filter in Hy as [Hout Hy].
  apply list_elem_of_fmap in Hy as (n & -> & Hy). destruct Hout.
  rewrite <- (app_nil_r sorted). apply Hr; [done|]. destruct (open_deps sorted n) as [|d ds] eqn:E; [done|].
  assert (d ∈ open_deps sorted n) as Hopen by (rewrite E; by left).
  apply list_elem_of_filter in Hopen as [Hout Hdep]. destruct (Hmin d); [|by apply node_edge].
  apply elem_of_list_to_set, list_elem_of_filter. split; [done|by eapply Hknown].
Qed.
End topo_lemmas.

Lemma topoSort_spec nodes :
  nodes ≠ [] →
  NoDup (nID <$> nodes) →
  (∀ n d, n ∈ nodes → d ∈ nDependsOn n → d ∈ nID <$> nodes) →
  match topoSort nodes with
  | inl sorted => acyclic (adj_of (node_of <$> nodes)) ∧ sorted ≡ₚ nID <$> nodes ∧ deps_first nodes sorted
  | inr (TopoCycle k n) => ¬ acyclic (adj_of (node_of <$> nodes)) ∧ n = length nodes ∧ (k < n)%nat
  | inr TopoEmpty => False
  end.
Proof.
  intros Hne Hnd Hknown. unfold topoSort. apply is_nil_false in Hne as ->.
  destruct (topo_loop_inv nodes Hnd Hknown (S (length nodes)) _ _ []
    (topo_inv_start nodes Hnd Hknown)) as [deg Hinv]; [simpl; lia|].
  unfold degree in Hinv. set (sorted := topo_loop _ _ _ _ _) in *.
  pose proof Hinv as [Hn Hs _ _ Ho]. rewrite app_nil_r in Hn, Hs.
  assert (Hsub : sorted ⊆+ (nID <$> nodes)) by (by apply NoDup_submseteq).
  case_bool_decide as E.
  - assert (sorted ≡ₚ nID <$> nodes) as Hp.
    { apply submseteq_length_Permutation; [done|]. rewrite length_fmap. lia. }
    split_and!; [by eapply ordered_acyclic|done|done].
  - apply submseteq_length in Hsub as Hlen. rewrite length_fmap in Hlen.
    split_and!; [|done|lia]. intros Hac. apply E. rewrite <- (length_fmap nID nodes).
    by apply Permutation_length, (left_over_cyclic nodes Hnd Hknown deg).
Qed.

(** On nodes with distinct identifiers whose dependencies are nodes of
    the graph, [topoSort] decides whether the graph has a cycle: the order it
    returns lists every node once and after all it depends on, and it reports
    a cycle, with fewer nodes sorted than there are, only when there is one. *)
Theorem topoSort_decides nodes :
  nodes ≠ [] →
  NoDup (nID <$> nodes) →
  (∀ n d, n ∈ nodes → d ∈ nDependsOn n → d ∈ nID <$> nodes) →
  match topoSort nodes with
  | inl sorted => acyclic (adj_of (node_of <$> nodes)) ∧ sorted ≡ₚ nID <$> nodes ∧ deps_first nodes sorted
  | inr (TopoCycle k n) => ¬ acyclic (adj_of (node_of <$> nodes)) ∧ n = length nodes ∧ (k < n)%nat
  | inr TopoEmpty => False
  end.
Proof. apply topoSort_spec. Qed.

Lemma topoSort_decides_witness :
  let nodes := [MkTaskNode "b" "" "" ["a"; "c"] [] []; MkTaskNode "a" "" "" [] [] []; MkTaskNode "c" "" "" ["a"] [] []] in
  topoSort nodes = inl ["a"; "c"; "b"] ∧ deps_first nodes ["a"; "c"; "b"].
Proof.
  intros nodes. split; [reflexivity|].
  refine (proj2 (proj2 (topoSort_decides nodes _ _ _))); [discriminate|apply (bool_decide_unpack _); by vm_compute|].
  intros n d [->|[->|[->|[]%not_elem_of_nil]%elem_of_cons]%elem_of_cons]%elem_of_cons; simpl; set_solver.
Defined.

Example topoSort_cycle :
  topoSort [MkTaskNode "a" "" "" [] [] []; MkTaskNode "b" "" "" ["c"] [] []; MkTaskNode "c" "" "" ["b"] [] []]
    = inr (TopoCycle 1 3).
Proof. reflexivity. Qed.
