(* ===== verification/ReqPipeline.v ===== *)
(** * The pipeline of a requirement

    processor/requirement-executor/component.go, deliverable_gate.go and
    awaiting_recovery.go: the stories of a requirement one after the other;
    per story a task graph, its nodes one after the other, each carried out
    by the execution manager; then the reviewer, whose verdict completes the
    story, starts a retry, or ends the requirement, possibly after waiting
    for a recovery.  One definition per function; a function whose Go name
    ends in [Locked] runs under the lock of the execution, here given by its
    address.  The entities published for observers and the metrics are left
    out. *)

From stdpp Require Import pretty.
From S2P Require Import Prelude Graphs Status Paths JsonUtil Types Stories Branches TaskDag PlanStore ExecTypes Feedback ExecStore.
From S2P Require Import Convergence ReqTypes ReqEvidence.

Local Open Scope string_scope.
Local Open Scope go_scope.

Section pipeline.
Context (E : ReqEnv).

(** ** Terminal states *)

Fixpoint delete_worktrees (ids : list string) : R () :=
  match ids with
  | [] => mret ()
  | id :: ids => call_sandbox E (QDeleteWorktree id);; delete_worktrees ids
  end.

Definition cleanupExecutionLocked (o : nat) (success : bool) : R () :=
  x ← rexec o;
  stop (qTimeoutTimer x);;
  stop (qRecoveryTimer x);;
  updr o (set_qRecoveryTimer None);;
  delete_worktrees ((if success then qNodeTaskIDs x else []) ++
    (if qReviewerTaskID x =? "" then [] else [qReviewerTaskID x]))%list;;
  rmodify (λ w, set_rwActive (delete (qEntityID x) (rwActive w)) w).

Definition markCompletedLocked (o : nat) : R () :=
  x ← rexec o;
  if qTerminated x then mret () else
  updr o (set_qTerminated true);;
  sendMutation E (QPhase (complete_request x));;
  sendMutation E (QComplete (complete_event x "completed"));;
  cleanupExecutionLocked o true.

(** The reservation of the current story is released. *)
Definition release_story (x : requirementExecution) : R () :=
  match current_story x with
  | Some id => sendMutation E (QStory (qSlug x) id StoryStatusFailed)
  | None => mret ()
  end.

Definition markFailedLocked (o : nat) (reason : string) : R () :=
  x ← rexec o;
  if qTerminated x then mret () else
  updr o (set_qTerminated true);;
  sendMutation E (QPhase (fail_request (qStoreKey x) "failed" reason ""));;
  release_story x;;
  sendMutation E (QComplete (complete_event x "failed"));;
  cleanupExecutionLocked o false.

Definition markErrorLocked (o : nat) (reason : string) : R () :=
  x ← rexec o;
  if qTerminated x then mret () else
  updr o (set_qTerminated true);;
  sendMutation E (QPhase (fail_request (qStoreKey x) "error" reason (ClassifyErrorReason reason)));;
  sendMutation E (QComplete (complete_event x "error"));;
  cleanupExecutionLocked o false.

Definition startExecutionTimeoutLocked (o : nat) : R () :=
  t ← arm (TimeoutOf o); updr o (set_qTimeoutTimer (Some t)).

(** ** Waiting for a recovery *)

(** Whether the execution now waits. *)
Definition deferToAwaitingRecoveryLocked (o : nat) (reason : string) : R bool :=
  if negb (rqDeferTerminalOnRecovery E) then mret false else
  x ← rexec o;
  if qTerminated x then mret false else
  if bool_decide (rqMaxRecoveryRestarts E ≤ qRecoveryRestarts x)%Z then mret false else
  stop (qRecoveryTimer x);;
  updr o (λ x, set_qRecoveryReason reason (set_qAwaitingRecovery true (set_qRecoveryTimer None x)));;
  sendMutation E (QPhase (phase_request (qStoreKey x) "awaiting-recovery"));;
  t ← arm (RecoveryOf o);
  updr o (set_qRecoveryTimer (Some t));;
  mret true.

(** Wait for a recovery, or fail. *)
Definition defer_or_fail (o : nat) (reason : string) : R () :=
  deferred ← deferToAwaitingRecoveryLocked o reason;
  if deferred : bool then mret () else markFailedLocked o reason.

(** The last sixteen bytes. *)
Definition short_id (id : string) : string :=
  if bool_decide (16 < String.length id)%nat then String.substring (String.length id - 16) 16 id else id.

Definition exhaustion_decision (x : requirementExecution) (verdict feedback : string) (t : Z) : PlanDecision :=
  {| dID := "plan-decision." +:+ qSlug x +:+ ".exhaust." +:+ short_id (qRequirementID x) +:+ "." +:+ pretty t;
     dPlanID := rqPlanEntityID E (qSlug x); dKind := PlanDecisionKindExecutionExhausted;
     dTitle := "Requirement " +:+ qRequirementID x +:+ " exhausted retries";
     dRationale := "retries=" +:+ pretty (qRetryCount x) +:+ "/" +:+ pretty (qMaxRetries x) +:+
       " last_verdict=" +:+ rqQuote E verdict +:+ " last_feedback=" +:+ feedback;
     dStatus := PlanDecisionStatusProposed; dProposedBy := "requirement-executor";
     dAffectedReqIDs := [qRequirementID x]; dAffectedStoryIDs := []; dRejectionReasons := ∅;
     dContractImpact := None;
     dArtifactReferences :=
       if qLoopID x =? "" then []
       else [MkArtifactRef ("/trajectories/" +:+ qLoopID x) "trajectory"
               ("Final loop on requirement " +:+ qRequirementID x)];
     dCreatedAt := t; dReviewedAt := None; dDecidedAt := None |}.

Definition publishRecoveryRequested (r : RecoveryRequested) : R () :=
  if negb (RecoveryRequested_Validate r) then mret () else sendMutation E (QRecovery r).

Definition emitExhaustionDecision (o : nat) (verdict feedback : string) : R () :=
  if negb (rqNats E) then mret () else
  x ← rexec o;
  io ← rtick E;
  err ← rsend E (QDecision (qSlug x) (exhaustion_decision x verdict feedback (qiNow io)));
  if bool_decide (is_Some err) then mret () else
  io ← rtick E;
  publishRecoveryRequested
    {| rrRecoveryID := qiUUID io; rrLayer := "phase_local"; rrSlug := qSlug x; rrRequirementID := qRequirementID x;
       rrAffectedRequirementIDs := []; rrAffectedStoryIDs := qSortedStoryIDs x; rrTaskID := ""; rrLoopID := qLoopID x;
       rrEscalationReason := "requirement retries exhausted (" +:+ pretty (qRetryCount x) +:+ "/" +:+
         pretty (qMaxRetries x) +:+ "); last verdict=" +:+ rqQuote E verdict;
       rrLastFailureFeedback := feedback; rrPriorRecoveryID := ""; rrTraceID := "" |}.

(** ** Dispatching the reviewer and the nodes *)

Definition reviewer_task (x : requirementExecution) (taskID : string) : TaskMessage :=
  let scoped := scopeScenariosToCurrentStory x in
  MkTaskMessage taskID RoleReviewer (rqReviewerModel E) "semspec-requirement-execution" "requirement-review"
    (buildReviewPrompt x scoped) (rqReviewContext E x (rqReviewerModel E) scoped) (qSlug x) taskID.

(** [publishTask] on agent.task.reviewer *)
Definition publish_reviewer (t : TaskMessage) : R (option string) :=
  if rqNats E then rsend E (QReviewer t) else mret None.

Definition dispatchRequirementReviewerLocked (o : nat) : R () :=
  io ← rtick E;
  x ← rexec o;
  let taskID := "requirement-rev-" +:+ qEntityID x +:+ "-" +:+ qiUUID io in
  updr o (set_qReviewerTaskID taskID);;
  (if qRequirementBranch x =? "" then mret () else call_sandbox E (QCreateWorktree taskID (qRequirementBranch x)));;
  sendMutation E (QPhase (review_request (qStoreKey x) taskID));;
  x ← rexec o;
  err ← publish_reviewer (reviewer_task x taskID);
  match err with
  | Some e => markErrorLocked o ("dispatch requirement reviewer: publish to agent.task.reviewer: " +:+ e)
  | None => mret ()
  end.

(** The first dirty node at or after [i]; [ids] are the nodes from [i] on. *)
Fixpoint skip_clean (x : requirementExecution) (ids : list string) (i : Z) : Z :=
  match ids with
  | [] => i
  | id :: ids => if isNodeDirty x id then i else skip_clean x ids (i + 1)
  end.

Definition revision_text : string :=
  nl +:+ nl +:+ "---" +:+ nl +:+ nl +:+
  "REVISION REQUEST: The requirement reviewer rejected the previous attempt." +:+ nl +:+ nl.

Definition workspace_text : string :=
  nl +:+ nl +:+ "Your workspace contains files from the previous attempt. Review what exists before making changes.".

Definition node_prompt (x : requirementExecution) (node : TaskNode) : string :=
  if bool_decide (0 < qRetryCount x)%Z && (qLastReviewFeedback x !=? "")
  then nPrompt node +:+ revision_text +:+ qLastReviewFeedback x +:+ workspace_text
  else nPrompt node.

Definition task_request (x : requirementExecution) (node : TaskNode) (nodeID taskID : string) : TaskCreateRequest :=
  {| tcSlug := qSlug x; tcTaskID := taskID; tcRequirementID := qRequirementID x; tcTitle := nPrompt node;
     tcDescription := ""; tcProjectID := qProjectID x; tcPrompt := node_prompt x node; tcModel := "";
     tcTraceID := qTraceID x; tcLoopID := qLoopID x;
     tcRequestID := "node-" +:+ qRequirementID x +:+ "-" +:+ nodeID; tcTaskType := ""; tcMaxTDDCycles := 0;
     tcAgentID := ""; tcWorktreePath := ""; tcWorktreeBranch := ""; tcScenarioBranch := qRequirementBranch x;
     tcFileScope := nFileScope node; tcScenarios := filterScenariosByIDs (qScenarios x) (nScenarioIDs node) |}.

Definition node_at (x : requirementExecution) (i : Z) : option string :=
  if bool_decide (0 ≤ i)%Z then qSortedNodeIDs x !! Z.to_nat i else None.

(** [beginRequirementReviewLocked] only dispatches the reviewer, and
    [checkRequirementBranch] never fails. *)
Definition dispatchNextNodeLocked (o : nat) : R () :=
  x ← rexec o;
  let next := (qCurrentNodeIdx x + 1)%Z in
  let i := skip_clean x (drop (Z.to_nat next) (qSortedNodeIDs x)) next in
  updr o (set_qCurrentNodeIdx i);;
  match node_at x i with
  | None => dispatchRequirementReviewerLocked o
  | Some nodeID =>
      match qNodeIndex x !! nodeID with
      | None => markErrorLocked o ("node " +:+ rqQuote E nodeID +:+ " not found in index")
      | Some node =>
          io ← rtick E;
          let taskID := "node-" +:+ rqHash E (qEntityID x) nodeID +:+ "-" +:+ qiUUID io in
          updr o (λ x, set_qNodeTaskIDs (qNodeTaskIDs x ++ [taskID])%list (set_qCurrentNodeTaskID taskID x));;
          sendMutation E (QNode (MkReqNodeRequest (qStoreKey x) (Some i) None taskID));;
          err ← sendTaskCreate E (task_request x node nodeID taskID);
          match err with
          | Some e => markErrorLocked o ("dispatch node " +:+ rqQuote E nodeID +:+ " failed: " +:+ e)
          | None => mret ()
          end
      end
  end.

Definition applyParsedDAGLocked (o : nat) (dag : list TaskNode) : R () :=
  match topoSort dag with
  | inr e => markFailedLocked o ("topological sort failed: " +:+ topo_text e)
  | inl sorted =>
      updr o (λ x, set_qNodeIndex (map_of ((λ n, (nID n, n)) <$> dag)) (set_qSortedNodeIDs sorted
                     (set_qDAG (Some dag) x)));;
      x ← rexec o;
      sendMutation E (QPhase (dag_request x (rqMarshalDAG E dag) sorted));;
      dispatchNextNodeLocked o
  end.

(** ** Executions read back from the bucket *)

Definition rebuildExecFromKV (key : string) (r : RequirementExecution) : requirementExecution :=
  let dag := if reDAGRaw r =? "" then None else rqUnmarshalDAG E (reDAGRaw r) in
  let mine nr := bool_decide (reSortedNodeIDs r = []) || bool_decide (nrNodeID nr ∈ reSortedNodeIDs r) in
  {| qTerminated := false; qStoreKey := key; qEntityID := reEntityID r; qSlug := reSlug r;
     qRequirementID := reRequirementID r; qTitle := reTitle r; qDescription := reDescription r;
     qScenarios := reScenarios r; qDependsOn := []; qScope := None; qPrompt := ""; qRole := "";
     qModel := reModel r; qProjectID := reProjectID r; qTraceID := reTraceID r; qLoopID := reLoopID r;
     qRequestID := reRequestID r; qSortedStoryIDs := reSortedStoryIDs r;
     qCurrentStoryIdx := reCurrentStoryIdx r; qDAG := dag; qSortedNodeIDs := reSortedNodeIDs r;
     qNodeIndex := match dag with Some dag => map_of ((λ n, (nID n, n)) <$> dag) | None => ∅ end;
     qCurrentNodeIdx := reCurrentNodeIdx r; qCurrentNodeTaskID := reCurrentNodeTaskID r;
     qVisitedNodes := list_to_set (nrNodeID <$> filter (λ nr, mine nr = true) (reNodeResults r));
     qNodeResults := reNodeResults r; qNodeTaskIDs := []; qRequirementBranch := reRequirementBranch r;
     qBaseBranch := reBaseBranch r; qReviewerTaskID := reReviewerTaskID r; qReviewVerdict := "";
     qReviewFeedback := ""; qReviewRetryCount := 0; qRetryCount := reRetryCount r;
     qMaxRetries := if bool_decide (reMaxRetries r = 0%Z) then rqMaxRequirementRetries E else reMaxRetries r;
     qDirtyNodeIDs := []; qLastReviewFeedback := ""; qScenarioVerdicts := reScenarioVerdicts r;
     qTimeoutTimer := None; qAwaitingRecovery := false; qRecoveryTimer := None; qRecoveryReason := "";
     qRecoveryRestarts := 0; qRecoveryInfraRetries := 0 |}.

(** A row of the requirement whose stage satisfies [want]; the error of the
    bucket and a missing row both end the caller's attempt. *)
Definition load_row (want : string → bool) (slug requirementID : string) : R (option requirementExecution) :=
  if negb (rqNats E) then mret None else
  io ← rtick E;
  mret (match qiRow io (RequirementExecutionKey slug requirementID) with
        | RowAt r => if want (reStage r)
                     then Some (rebuildExecFromKV (RequirementExecutionKey slug requirementID) r) else None
        | _ => None
        end).

Definition loadCompletedReqExecFromKV := load_row (λ stage, stage =? "completed").
Definition loadTerminalReqExecFromKV := load_row IsTerminalReqStage.
Definition loadNonTerminalReqExecFromKV := load_row (λ stage, negb (IsTerminalReqStage stage)).

(** ** Promised files *)

Definition deliveredFilesForReviewerWorktree (o : nat) : R (list string + string) :=
  x ← rexec o;
  if qReviewerTaskID x =? "" then mret (inr "reviewer worktree id is empty") else
  io ← rtick E;
  rmodify (λ w, set_rwOut (rwOut w ++ [(QListFiles (qReviewerTaskID x), true)])%list w);;
  mret (match parse_ls (qiLs io (qReviewerTaskID x)) with
        | inl files => inl files
        | inr e => inr (rqGapText E e)
        end).

Definition startFixableRetryLocked (o : nat) (feedback : string) : R () :=
  updr o (λ x, set_qCurrentNodeIdx (-1) (set_qNodeResults (nodeResultsOutsideCurrentStory x)
    (set_qVisitedNodes ∅ (set_qDirtyNodeIDs [] (set_qTerminated false (set_qReviewRetryCount 0
    (set_qLastReviewFeedback feedback (set_qRetryCount (qRetryCount x + 1) x))))))));;
  x ← rexec o;
  sendMutation E (QNodeResults (MkReqResetNodeResultsRequest (qStoreKey x) (qNodeResults x)));;
  sendMutation E (QPhase (phase_request (qStoreKey x) "executing"));;
  dispatchNextNodeLocked o.

Definition may_retry (x : requirementExecution) : bool :=
  bool_decide (qRetryCount x < qMaxRetries x)%Z && bool_decide (0 < qMaxRetries x)%Z.

Definition story_gap_text (story : Story) (missing : list string) : string :=
  "Reviewer approved scenarios, but Story " +:+ sID story +:+ " has not delivered " +:+ pretty (length missing) +:+
  " accepted scope.create file(s): " +:+ Join missing ", " +:+
  ". These paths remain required by the plan contract. Implement the missing files inside the declared Story file scope and resubmit.".

(** The gates return whether they have dealt with the execution. *)
Definition handleApprovedDeliverableGapForPlanLocked (o : nat) (plan : Plan) : R bool :=
  x ← rexec o;
  if negb (rqSandbox E) || is_nil (qSortedStoryIDs x) then mret false else
  match current_story x with
  | None =>
      markFailedLocked o ("deliverable closure gate could not resolve CurrentStoryIdx " +:+
        pretty (qCurrentStoryIdx x) +:+ " in " +:+ pretty (length (qSortedStoryIDs x)) +:+ " stories");;
      mret true
  | Some storyID =>
      match findStoryByID plan storyID with
      | None =>
          markFailedLocked o ("deliverable closure gate could not find Story " +:+ storyID +:+ " on plan");;
          mret true
      | Some story =>
          let expected := storyScopeCreateObligations plan story in
          if is_nil expected then mret false else
          delivered ← deliveredFilesForReviewerWorktree o;
          match delivered with
          | inr e =>
              markFailedLocked o ("deliverable closure gate could not inspect requirement branch: " +:+ e);; mret true
          | inl delivered =>
              let missing := missingDeliverableFiles expected delivered in
              if is_nil missing then mret false else
              let feedback := story_gap_text story missing in
              (if may_retry x then startFixableRetryLocked o feedback
               else emitExhaustionDecision o "scope_incomplete" feedback;;
                    defer_or_fail o ("deliverable closure gate retries exhausted: " +:+ feedback));;
              mret true
          end
      end
  end.

Definition handleApprovedDeliverableGapLocked (o : nat) : R bool :=
  x ← rexec o;
  if negb (rqSandbox E) || negb (rqNats E) || is_nil (qSortedStoryIDs x) then mret false else
  plan ← loadPlanFromKV E (qSlug x);
  match plan with
  | inr e => markFailedLocked o ("deliverable closure gate could not load plan: " +:+ e);; mret true
  | inl None => markFailedLocked o "deliverable closure gate could not load plan from PLAN_STATES";; mret true
  | inl (Some plan) => handleApprovedDeliverableGapForPlanLocked o plan
  end.

Definition req_gap_text (x : requirementExecution) (missing : list string) : string :=
  "Requirement " +:+ qRequirementID x +:+ " cannot complete because " +:+ pretty (length missing) +:+
  " accepted scope.create file(s) assigned to its Stories are still missing from the requirement branch: " +:+
  Join missing ", " +:+ ".".

Definition handleRequirementDeliverableGapForPlanLocked (o : nat) (plan : Plan) : R bool :=
  x ← rexec o;
  if negb (rqSandbox E) || is_nil (qSortedStoryIDs x) || (qReviewerTaskID x =? "") then mret false else
  let expected := requirementScopeCreateObligations plan (qSortedStoryIDs x) in
  if is_nil expected then mret false else
  delivered ← deliveredFilesForReviewerWorktree o;
  match delivered with
  | inr e =>
      markFailedLocked o ("requirement deliverable closure gate could not inspect requirement branch: " +:+ e);;
      mret true
  | inl delivered =>
      let missing := missingDeliverableFiles expected delivered in
      if is_nil missing then mret false else
      let feedback := req_gap_text x missing in
      emitExhaustionDecision o "scope_incomplete" feedback;;
      defer_or_fail o ("requirement deliverable closure gate failed: " +:+ feedback);;
      mret true
  end.

Definition handleRequirementDeliverableGapLocked (o : nat) : R bool :=
  x ← rexec o;
  if negb (rqSandbox E) || negb (rqNats E) || is_nil (qSortedStoryIDs x) || (qReviewerTaskID x =? "")
  then mret false else
  plan ← loadPlanFromKV E (qSlug x);
  match plan with
  | inr e => markFailedLocked o ("requirement deliverable closure gate could not load plan: " +:+ e);; mret true
  | inl None =>
      markFailedLocked o "requirement deliverable closure gate could not load plan from PLAN_STATES";; mret true
  | inl (Some plan) => handleRequirementDeliverableGapForPlanLocked o plan
  end.

(** ** Stories *)

(** The evidence of the owner of a completed story; [false] refuses the
    skip. *)
Definition applyCompletedStoryEvidenceLocked (o : nat) (story : Story) : R bool :=
  if negb (rqNats E) then mret true else
  x ← rexec o;
  let ownerID := DeterministicStoryOwner story in
  if ownerID =? "" then mret false else
  if ownerID =? qRequirementID x then mret (executionHasStoryEvidence x story) else
  owner ← loadCompletedReqExecFromKV (qSlug x) ownerID;
  match owner with
  | None => mret false
  | Some owner =>
      if validateBorrowedStoryEvidence x story owner !=? "" then mret false else
      let (x', found) := copyStoryEvidence x story owner in
      updr o (λ _, if found : bool then copyScenarioVerdictEvidence x' story owner else x');;
      mret found
  end.

(** [dispatchCurrentStoryLocked] and [advancePastSkippedStoryLocked] call
    each other with the cursor one further, so the stories left bound the
    calls. *)
Section skip.
Context (dispatch : nat → Plan → R ()).

Definition advancePastSkippedStoryLocked (o : nat) (plan : Plan) : R () :=
  x ← rexec o;
  if bool_decide (qCurrentStoryIdx x + 1 < Z.of_nat (length (qSortedStoryIDs x)))%Z then
    updr o (λ x, resetPerStoryExecutionState (set_qCurrentStoryIdx (qCurrentStoryIdx x + 1) x));;
    dispatch o plan
  else
    gap ← handleRequirementDeliverableGapForPlanLocked o plan;
    if gap : bool then mret () else markCompletedLocked o.

(** Skip the story if there is evidence for it, else fail. *)
Definition skip_story (o : nat) (plan : Plan) (story : Story) (reason : string) : R () :=
  ok ← applyCompletedStoryEvidenceLocked o story;
  if ok : bool then advancePastSkippedStoryLocked o plan else markFailedLocked o reason.

Definition claim_and_dispatch (o : nat) (plan : Plan) (story : Story) : R () :=
  x ← rexec o;
  claimed ← (if rqNats E then ClaimStoryStatus E (pSlug plan) (sID story) StoryStatusExecuting else mret true);
  if negb claimed then
    skip_story o plan story ("Story " +:+ sID story +:+
      " reservation was unavailable and no completed owner execution evidence exists for requirement " +:+
      qRequirementID x)
  else
  match synthesizeTaskDAGForStory (buildBindingContextBlock (rqQuote E)) (Some plan) story with
  | inr e =>
      markFailedLocked o ("synthesize DAG for story " +:+ sID story +:+ " failed: " +:+ rqDagText E e)
  | inl dag => applyParsedDAGLocked o dag
  end.

Definition dispatch_story_step (o : nat) (plan : Plan) : R () :=
  x ← rexec o;
  match current_story x with
  | None =>
      markFailedLocked o ("CurrentStoryIdx " +:+ pretty (qCurrentStoryIdx x) +:+ " out of range [0, " +:+
        pretty (length (qSortedStoryIDs x)) +:+ ")")
  | Some storyID =>
      match findStoryByID plan storyID with
      | None =>
          markFailedLocked o ("story " +:+ rqQuote E storyID +:+
            " not found on plan (planning regression — Sarah output drifted from SortedStoryIDs)")
      | Some story =>
          if sStatus story =? StoryStatusComplete then
            skip_story o plan story ("completed Story " +:+ storyID +:+
              " has no completed owner execution evidence for requirement " +:+ qRequirementID x)
          else claim_and_dispatch o plan story
      end
  end.
End skip.

Fixpoint dispatch_story (fuel : nat) (o : nat) (plan : Plan) : R () :=
  match fuel with
  | O => mret ()
  | S fuel => dispatch_story_step (dispatch_story fuel) o plan
  end.

Definition dispatchCurrentStoryLocked (o : nat) (plan : Plan) : R () :=
  x ← rexec o; dispatch_story (S (length (qSortedStoryIDs x))) o plan.

Definition dispatchSynthesizerLocked (o : nat) : R () :=
  x ← rexec o;
  plan ← loadPlanFromKV E (qSlug x);
  match plan with
  | inr e => markFailedLocked o ("load plan from KV failed: " +:+ e)
  | inl None => markFailedLocked o "plan not found in PLAN_STATES — cannot synthesize DAG without Stories"
  | inl (Some plan) =>
      if negb (is_nil (qSortedStoryIDs x)) then dispatchCurrentStoryLocked o plan else
      let stories := StoriesForRequirement plan (qRequirementID x) in
      if is_nil stories then
        markFailedLocked o ("no Stories on plan for requirement " +:+ qRequirementID x +:+
          " — story-preparer must run before execution")
      else
      match topoSortStoryIDs stories with
      | inr e => markFailedLocked o ("topo-sort stories failed: " +:+ rqDagText E e)
      | inl sorted =>
          updr o (λ x, set_qCurrentStoryIdx 0 (set_qSortedStoryIDs sorted x));;
          dispatchCurrentStoryLocked o plan
      end
  end.

Definition advanceToNextStoryLocked (o : nat) : R () :=
  updr o (λ x, resetPerStoryExecutionState (set_qCurrentStoryIdx (qCurrentStoryIdx x + 1) x));;
  x ← rexec o;
  plan ← loadPlanFromKV E (qSlug x);
  match plan with
  | inr e => markFailedLocked o ("load plan from KV failed mid-requirement: " +:+ e)
  | inl None => markFailedLocked o "plan disappeared from PLAN_STATES mid-requirement"
  | inl (Some plan) => dispatchCurrentStoryLocked o plan
  end.

(** ** A node has ended *)

(** The payload [handleTaskStateChange] puts into the event. *)
Record node_payload := MkNodePayload {
  npFilesModified : list string;
  npFilesCreated : list string;
  npSummary : string;
  npMergeCommit : string;
  npTaskStage : string;
  npEscalationReason : string }.

(** [event.Result]: empty, not decodable, or a payload. *)
Inductive event_result := NoResult | BadResult (msg : string) | HasResult (p : node_payload).

Definition parseNodeResultPayload (r : event_result) : option (node_payload + string) :=
  match r with
  | NoResult => None
  | BadResult msg => Some (inr msg)
  | HasResult p =>
      Some (if is_nil (npFilesModified p) && is_nil (npFilesCreated p) && (npSummary p =? "") && (npMergeCommit p =? "")
            then inr "payload has no files_modified, files_created, changes_summary, or merge_commit — node produced no recordable output"
            else inl p)
  end.

Definition retryNodeAtRequirementLevelLocked (o : nat) (nodeID feedback : string) : R () :=
  updr o (λ x, set_qVisitedNodes (qVisitedNodes x ∖ {[nodeID]}) (set_qDirtyNodeIDs [nodeID]
    (set_qTerminated false (set_qLastReviewFeedback feedback (set_qRetryCount (qRetryCount x + 1) x)))));;
  x ← rexec o;
  sendMutation E (QPhase (phase_request (qStoreKey x) "executing"));;
  updr o (λ x, set_qCurrentNodeIdx (qCurrentNodeIdx x - 1) x);;
  dispatchNextNodeLocked o.

Definition handleNodeFailureLocked (o : nat) (outcome : string) (result : event_result) (nodeID : string) : R () :=
  x ← rexec o;
  let stage := match result with HasResult p => npTaskStage p | _ => "" end in
  let why := match result with HasResult p => npEscalationReason p | _ => "" end in
  let tddExhausted := stage =? "escalated" in
  if negb tddExhausted && may_retry x then
    retryNodeAtRequirementLevelLocked o nodeID
      ("Node " +:+ rqQuote E nodeID +:+ " failed (outcome=" +:+ outcome +:+ "). Retry the implementation.")
  else if tddExhausted then
    defer_or_fail o ("node " +:+ rqQuote E nodeID +:+ " TDD budget exhausted at task level: " +:+ why)
  else markFailedLocked o ("node " +:+ rqQuote E nodeID +:+ " failed: outcome=" +:+ outcome).

Definition node_result (nodeID : string) (parsed : option node_payload) : NodeResult :=
  match parsed with
  | None => MkNodeResult nodeID [] "" ""
  | Some p => MkNodeResult nodeID (npFilesModified p ++ npFilesCreated p)%list (npSummary p) (npMergeCommit p)
  end.

Definition recordNodeSuccessLocked (o : nat) (nodeID : string) (parsed : option node_payload) : R () :=
  updr o (λ x, set_qNodeResults (qNodeResults x ++ [node_result nodeID parsed])%list x);;
  x ← rexec o;
  sendMutation E (QNode (MkReqNodeRequest (qStoreKey x) (Some (qCurrentNodeIdx x))
    (Some (node_result nodeID parsed)) ""));;
  if bool_decide (length (qSortedNodeIDs x) ≤ size (qVisitedNodes x))%nat
  then dispatchRequirementReviewerLocked o else dispatchNextNodeLocked o.

Definition parse_feedback (nodeID err : string) : string :=
  "Node " +:+ rqQuote E nodeID +:+ " completed but its result payload was unrecoverable: " +:+ err +:+
  ". Re-run the same scope; ensure submit_work returns valid JSON containing files_modified (and/or files_created), changes_summary, and merge_commit fields.".

Definition handleNodeCompleteLocked (o : nat) (outcome : string) (result : event_result) : R () :=
  x ← rexec o;
  match node_at x (qCurrentNodeIdx x) with
  | None => markErrorLocked o "node completion received but no active node"
  | Some nodeID =>
      updr o (λ x, set_qVisitedNodes ({[nodeID]} ∪ qVisitedNodes x) x);;
      if outcome !=? OutcomeSuccess then handleNodeFailureLocked o outcome result nodeID else
      match parseNodeResultPayload result with
      | None => recordNodeSuccessLocked o nodeID None
      | Some (inl p) => recordNodeSuccessLocked o nodeID (Some p)
      | Some (inr err) =>
          if may_retry x then retryNodeAtRequirementLevelLocked o nodeID (parse_feedback nodeID err)
          else markFailedLocked o ("node " +:+ rqQuote E nodeID +:+
                 " result parse failed and retries exhausted: " +:+ err)
      end
  end.

(** ** The review *)

Definition requireCommitObservation : bool := default true (rqRequireCommitObservation E).

Definition handleApprovedClaimMismatchLocked (o : nat) : R bool :=
  if negb requireCommitObservation then mret false else
  x ← rexec o;
  if is_nil (unobserved x) then mret false else
  markFailedLocked o ("requirement claim/observation mismatch: nodes [" +:+ Join (unobserved x) " " +:+
    "] claimed files_modified but produced no commit observation");;
  mret true.

Definition publishStoryCompleteLocked (o : nat) : R () :=
  x ← rexec o;
  match current_story x with
  | Some id => sendMutation E (QStory (qSlug x) id StoryStatusComplete)
  | None => mret ()
  end.

Definition handleApprovedVerdictLocked (o : nat) : R () :=
  mismatch ← handleApprovedClaimMismatchLocked o;
  if mismatch : bool then mret () else
  gap ← handleApprovedDeliverableGapLocked o;
  if gap : bool then mret () else
  publishStoryCompleteLocked o;;
  x ← rexec o;
  if bool_decide (qCurrentStoryIdx x + 1 < Z.of_nat (length (qSortedStoryIDs x)))%Z
  then advanceToNextStoryLocked o
  else
    gap ← handleRequirementDeliverableGapLocked o;
    if gap : bool then mret () else markCompletedLocked o.

Definition handleInvalidRequirementReviewResultLocked (o : nat) (reason : string) : R () :=
  let maxRetries := if bool_decide (rqMaxReviewRetries E = 0%Z) then 3%Z else rqMaxReviewRetries E in
  x ← rexec o;
  if bool_decide (qReviewRetryCount x < maxRetries)%Z then
    updr o (λ x, set_qReviewRetryCount (qReviewRetryCount x + 1) x);;
    dispatchRequirementReviewerLocked o
  else markFailedLocked o ("requirement reviewer returned invalid result after max retries: " +:+ reason).

(** [phases.ValidateVerdict] *)
Definition verdict_valid (verdict : string) : bool :=
  (verdict =? "approved") || (verdict =? "rejected") || (verdict =? "needs_changes").

Definition parseRequirementReviewResult (raw : string) : requirementReviewResult + string :=
  if raw =? "" then inr "empty review result" else
  match rqUnmarshalReview E (ExtractJSON raw) with
  | inr e => inr ("parse review JSON: " +:+ e)
  | inl r =>
      if negb (verdict_valid (rrvVerdict r)) then inr ("invalid verdict: " +:+ rrvVerdict r) else
      if rrvVerdict r =? "approved" then inl r else
      let r := if rrvRejectionType r =? "" then set_rrvRejectionType "fixable" r else r in
      if (rrvRejectionType r =? "fixable") || (rrvRejectionType r =? "restructure") then inl r
      else inr ("invalid rejection_type: " +:+ rrvRejectionType r)
  end.

(** The story is walked to ready, step by step, until a step is refused. *)
Fixpoint walk_story (slug storyID : string) (steps : list StoryStatus) : R bool :=
  match steps with
  | [] => mret true
  | step :: steps =>
      ok ← ClaimStoryStatus E slug storyID step;
      if ok : bool then walk_story slug storyID steps else mret false
  end.

Fixpoint reopen_stories (slug : string) (plan : Plan) (ids : list string) (reopened : Z) : R Z :=
  match ids with
  | [] => mret reopened
  | id :: ids =>
      match findStoryByID plan id with
      | None => reopen_stories slug plan ids reopened
      | Some story =>
          ok ← walk_story slug id (storyStatusWalkToReady (sStatus story));
          reopen_stories slug plan ids (if ok : bool then reopened + 1 else reopened)%Z
      end
  end.

Definition reopenStoriesFromPlan (slug : string) (plan : Plan) (ids : list string) : R storyReopenResult :=
  n ← reopen_stories slug plan ids 0; mret (MkReopen (Z.of_nat (length ids)) n).

Definition resetCurrentStoryForRestructureLocked (o : nat) : R storyReopenResult :=
  x ← rexec o;
  match current_story x with
  | None => mret (MkReopen 0 0)
  | Some storyID =>
      if storyID =? "" then mret (MkReopen 0 0) else
      plan ← loadPlanFromKV E (qSlug x);
      match plan with
      | inr _ | inl None => mret (MkReopen 1 0)
      | inl (Some plan) =>
          match findStoryByID plan storyID with
          | None => mret (MkReopen 1 0)
          | Some story =>
              if (sStatus story !=? StoryStatusOther "") && negb (StoryStatus_IsValid (sStatus story))
              then mret (MkReopen 1 0) else
              let owner := DeterministicStoryOwner story in
              if (owner !=? "") && (owner !=? qRequirementID x) then mret (MkReopen 1 0)
              else reopenStoriesFromPlan (qSlug x) plan [storyID]
          end
      end
  end.

(** The branch is deleted and made again on the base it derives from. *)
Definition recreate_branch (o : nat) : R () :=
  x ← rexec o;
  if qRequirementBranch x =? "" then mret () else
  call_sandbox E (QDeleteBranch (qRequirementBranch x));;
  call_sandbox E (QCreateBranch (qRequirementBranch x) (selectReqBranchBase "" (qBaseBranch x))).

Definition reset_graph (x : requirementExecution) : requirementExecution :=
  set_qNodeResults [] (set_qVisitedNodes ∅ (set_qCurrentNodeTaskID "" (set_qCurrentNodeIdx (-1)
  (set_qNodeIndex ∅ (set_qSortedNodeIDs [] (set_qDAG None x)))))).

Definition reset_review (x : requirementExecution) : requirementExecution :=
  set_qScenarioVerdicts [] (set_qReviewRetryCount 0 (set_qReviewFeedback "" (set_qReviewVerdict ""
  (set_qDirtyNodeIDs [] x)))).

Definition startRestructureRetryLocked (o : nat) (feedback : string) : R () :=
  updr o (λ x, set_qTerminated false (set_qLastReviewFeedback feedback (set_qRetryCount (qRetryCount x + 1) x)));;
  result ← resetCurrentStoryForRestructureLocked o;
  if negb (allReady result) then
    markFailedLocked o ("restructure retry could not reset Story reservation (" +:+ pretty (reopened result) +:+
      "/" +:+ pretty (candidates result) +:+ " stories ready)")
  else
  recreate_branch o;;
  updr o reset_graph;;
  x ← rexec o;
  sendMutation E (QNodeResults (MkReqResetNodeResultsRequest (qStoreKey x) []));;
  updr o reset_review;;
  sendMutation E (QPhase (phase_request (qStoreKey x) "decomposing"));;
  dispatchSynthesizerLocked o.

Definition handleRequirementReviewerCompleteLocked (o : nat) (outcome raw : string) : R () :=
  if outcome !=? OutcomeSuccess then markFailedLocked o ("requirement reviewer failed: outcome=" +:+ outcome) else
  match parseRequirementReviewResult raw with
  | inr e => handleInvalidRequirementReviewResultLocked o e
  | inl r =>
      updr o (λ x, set_qReviewFeedback (rrvFeedback r) (set_qReviewVerdict (rrvVerdict r) x));;
      if rrvVerdict r =? "approved" then
        updr o (λ x, mergeCurrentStoryScenarioVerdicts x (toScenarioVerdicts r));;
        handleApprovedVerdictLocked o
      else
      x ← rexec o;
      if bool_decide (qMaxRetries x ≤ qRetryCount x)%Z || bool_decide (qMaxRetries x = 0%Z) then
        emitExhaustionDecision o (rrvVerdict r) (rrvFeedback r);;
        defer_or_fail o ("requirement rejected (retries exhausted): " +:+ rrvFeedback r)
      else if rrvRejectionType r =? "restructure" then startRestructureRetryLocked o (rrvFeedback r)
      else startFixableRetryLocked o (rrvFeedback r)
  end.
End pipeline.
