(* ===== verification/ReqRecovery.v ===== *)
(** * Recovery, watchers and restarts of the requirement executor

    processor/requirement-executor: the wait for a recovery and its end
    (awaiting_recovery.go), the return of a completed requirement
    (recover_completed.go), the watchers of ended loops and tasks
    (req_completions.go) and of pending requirements (req_watcher.go), and
    the recovery at start-up (component.go).  A handler holds the lock of the
    execution it works on, so each is one step of [rstep]; the goroutine that
    initialises a claimed execution is a step of its own.  The lengths of the
    delays are left out: a timer that is armed may fire at any time. *)

From stdpp Require Import pretty.
From S2P Require Import Prelude Graphs Status Paths Types Stories Branches TaskDag PlanStore ExecTypes Feedback ExecStore.
From S2P Require Import AutoAccept Convergence ReqTypes ReqEvidence ReqPipeline.

Local Open Scope string_scope.
Local Open Scope go_scope.

Section recovery.
Context (E : ReqEnv).

(** ** The end of the wait *)

Definition maxRecoveryInfraRetries : Z := 6.

(** Nothing when the plan cannot be reached. *)
Definition hasPendingRecoveryDecision (slug requirementID : string) : R (option bool) :=
  if negb (rqNats E) then mret (Some false) else
  io ← rtick E;
  mret (match qiPlan io slug with
        | PlanUnreachable => None
        | PlanMissing | PlanGarbled _ => Some false
        | PlanAt p => Some (existsb (λ d, isPendingRecoveryDecisionForRequirement d requirementID) (pPlanDecisions p))
        end).

Definition arm_recovery (o : nat) : R () :=
  t ← arm (RecoveryOf o); updr o (set_qRecoveryTimer (Some t)).

Definition stop_waiting (o : nat) : R () :=
  x ← rexec o;
  updr o (λ x, set_qRecoveryTimer None (set_qAwaitingRecovery false x));;
  markFailedLocked E o (qRecoveryReason x).

Definition handleRecoveryTimeout (o : nat) : R () :=
  x ← rexec o;
  if negb (qAwaitingRecovery x) then mret () else
  pending ← hasPendingRecoveryDecision (qSlug x) (qRequirementID x);
  match pending with
  | None =>
      updr o (λ x, set_qRecoveryInfraRetries (qRecoveryInfraRetries x + 1) x);;
      if bool_decide (maxRecoveryInfraRetries < qRecoveryInfraRetries x + 1)%Z then stop_waiting o else arm_recovery o
  | Some pending =>
      updr o (set_qRecoveryInfraRetries 0);;
      if pending : bool then arm_recovery o else stop_waiting o
  end.

(** ** Resuming *)

Definition reopenOwnedStoriesForRecoveryLocked (o : nat) : R storyReopenResult :=
  if negb (rqNats E) then mret (MkReopen 0 0) else
  x ← rexec o;
  plan ← loadPlanFromKV E (qSlug x);
  match plan with
  | inr _ | inl None => mret (MkReopen 0 0)
  | inl (Some plan) =>
      let ids := storiesToReopenForRecovery plan (qRequirementID x) in
      if is_nil ids then mret (MkReopen 0 0) else reopenStoriesFromPlan E (qSlug x) plan ids
  end.

(** When the walk of the stories is incomplete the execution waits again;
    the timer it had stays armed. *)
Definition resumeFromRecoveryLocked (o : nat) : R () :=
  result ← reopenOwnedStoriesForRecoveryLocked o;
  if rqNats E && negb (allReady result) then
    updr o (set_qAwaitingRecovery true);; arm_recovery o
  else
  x ← rexec o;
  stop (qRecoveryTimer x);;
  updr o (λ x, set_qRecoveryRestarts (qRecoveryRestarts x + 1) (set_qTerminated false
    (set_qAwaitingRecovery false (set_qRecoveryTimer None x))));;
  updr o (λ x, set_qSortedStoryIDs [] (set_qCurrentStoryIdx 0 (reset_graph x)));;
  sendMutation E (QNodeResults (MkReqResetNodeResultsRequest (qStoreKey x) []));;
  updr o (λ x, set_qRetryCount 0 (reset_review x));;
  recreate_branch E o;;
  sendMutation E (QPhase (phase_request (qStoreKey x) "decomposing"));;
  dispatchSynthesizerLocked E o.

(** ** Abandoning executions *)

(** The active executions in the order of the cache. *)
Definition active_keys : R (list string) :=
  λ w, (w, rqKeys E (rwTick w) (dom (rwActive w))).

Fixpoint find_among (keys : list string) (p : requirementExecution → bool) : R (option nat) :=
  match keys with
  | [] => mret None
  | key :: keys =>
      w ← rread;
      match rwActive w !! key with
      | None => find_among keys p
      | Some o => if p (cell w o) then mret (Some o) else find_among keys p
      end
  end.

Definition find_active (p : requirementExecution → bool) : R (option nat) :=
  keys ← active_keys; find_among keys p.

Definition abandon (o : nat) : R () :=
  updr o (λ x, set_qAwaitingRecovery false (set_qTerminated true x));;
  cleanupExecutionLocked E o false.

Definition of_requirement (slug reqID : string) (x : requirementExecution) : bool :=
  (qSlug x =? slug) && (qRequirementID x =? reqID).

Definition abandonLiveExecForRequirement (slug reqID : string) : R bool :=
  found ← find_active (of_requirement slug reqID);
  match found with
  | Some o => abandon o;; mret true
  | None => mret false
  end.

Fixpoint abandon_keys (slug : string) (keys : list string) : R () :=
  match keys with
  | [] => mret ()
  | key :: keys =>
      w ← rread;
      match rwActive w !! key with
      | Some o => if qSlug (cell w o) =? slug then abandon o else mret ()
      | None => mret ()
      end;;
      abandon_keys slug keys
  end.

Definition abandonExecsForSlug (slug : string) : R () :=
  keys ← active_keys; abandon_keys slug keys.

Fixpoint abandon_requirements (slug : string) (reqIDs : list string) : R () :=
  match reqIDs with
  | [] => mret ()
  | id :: reqIDs => abandonLiveExecForRequirement slug id;; abandon_requirements slug reqIDs
  end.

Definition abandonExecsForRequirements (slug : string) (reqIDs : list string) : R () :=
  if is_nil reqIDs then abandonExecsForSlug slug
  else abandon_requirements slug (foldl appendUnique [] (filter (λ id, id ≠ "") reqIDs)).

(** ** A completed requirement comes back *)

Fixpoint reset_dependents (slug : string) (deps : list string) : R () :=
  match deps with
  | [] => mret ()
  | dep :: deps =>
      abandonLiveExecForRequirement slug dep;;
      sendMutation E (QReset (RequirementExecutionKey slug dep));;
      call_sandbox E (QDeleteBranch ("semspec/requirement-" +:+ dep));;
      call_sandbox E (QDeleteBranch ("semspec/reqbase-" +:+ dep));;
      reset_dependents slug deps
  end.

Definition resetDependentBranchSubtree (slug reopenedID : string) (plan : Plan) : R () :=
  reset_dependents slug (DependentBranchSubtree reopenedID (pRequirements plan) (pStories plan)).

Definition invalidateDependentBranchSubtreeLocked (o : nat) : R () :=
  if negb (rqNats E) then mret () else
  x ← rexec o;
  plan ← loadPlanFromKV E (qSlug x);
  match plan with
  | inr _ | inl None => mret ()
  | inl (Some plan) => resetDependentBranchSubtree (qSlug x) (qRequirementID x) plan
  end.

Definition resumeTerminalForRecoveryLocked (o : nat) (proposalID : string) : R () :=
  updr o (λ x, set_qRecoveryReason ("QA-recovery: completed req re-dispatched (proposal " +:+ proposalID +:+ ")")
    (set_qAwaitingRecovery true x));;
  resumeFromRecoveryLocked o;;
  invalidateDependentBranchSubtreeLocked o.

Definition countAcceptedRecoveryCyclesForReq (slug requirementID : string) : R Z :=
  if negb (rqNats E) then mret 0%Z else
  io ← rtick E;
  mret (match qiPlan io slug with
        | PlanAt p => countAcceptedRecoveryCycles p requirementID
        | _ => 0%Z
        end).

Definition coAffectedDependents (slug : string) (affected : list string) : R (gset string) :=
  if bool_decide (length affected < 2)%nat then mret ∅ else
  plan ← loadPlanFromKV E slug;
  mret (match plan with
        | inl (Some plan) => coAffectedDependentSet affected (pRequirements plan) (pStories plan)
        | _ => ∅
        end).

(** ** An accepted decision *)

Definition awaiting_for (slug reqID : string) (x : requirementExecution) : bool :=
  qAwaitingRecovery x && of_requirement slug reqID x.

Definition resume_requirement (slug proposalID reqID : string) : R () :=
  found ← find_active (awaiting_for slug reqID);
  match found with
  | Some o => resumeFromRecoveryLocked o
  | None =>
      exec ← loadTerminalReqExecFromKV E slug reqID;
      match exec with
      | None => mret ()
      | Some x =>
          cycles ← countAcceptedRecoveryCyclesForReq slug reqID;
          if bool_decide (rqMaxRecoveryRestarts E < cycles)%Z then mret () else
          o ← alloc x;
          rmodify (λ w, set_rwActive (<[qEntityID x := o]> (rwActive w)) w);;
          resumeTerminalForRecoveryLocked o proposalID
      end
  end.

Fixpoint resume_requirements (slug proposalID : string) (skip : gset string) (reqIDs : list string) : R () :=
  match reqIDs with
  | [] => mret ()
  | id :: reqIDs =>
      (if bool_decide (id ∈ skip) then mret () else resume_requirement slug proposalID id);;
      resume_requirements slug proposalID skip reqIDs
  end.

Definition replans (k : PlanDecisionKind) : bool :=
  (k =? PlanDecisionKindArchitectureRevise) || (k =? PlanDecisionKindStoryReprepare) ||
  (k =? PlanDecisionKindScopeIncomplete).

(** [evt] is the decoded event. *)
Definition handlePlanDecisionAccepted (evt : PlanDecisionAcceptedEvent) : R () :=
  if aeProposalID evt =? "" then mret () else
  if replans (aeKind evt) then abandonExecsForRequirements (aeSlug evt) (aeAffectedRequirementIDs evt) else
  skip ← coAffectedDependents (aeSlug evt) (aeAffectedRequirementIDs evt);
  resume_requirements (aeSlug evt) (aeProposalID evt) skip (aeAffectedRequirementIDs evt).

(** ** Ended loops and tasks *)

Definition findExecByTaskID (taskID : string) : R (option nat) :=
  find_active (λ x, (qCurrentNodeTaskID x =? taskID) || (qReviewerTaskID x =? taskID)).

Definition handleLoopEntityUpdate (loop : LoopEntity) : R () :=
  if negb (leTerminal loop) || (leTaskID loop =? "") then mret () else
  found ← findExecByTaskID (leTaskID loop);
  match found with
  | None => mret ()
  | Some o =>
      x ← rexec o;
      if qTerminated x then mret () else
      if leTaskID loop =? qReviewerTaskID x
      then handleRequirementReviewerCompleteLocked E o (leOutcome loop) (leResult loop) else mret ()
  end.

Fixpoint evict_same (o : nat) (keys : list string) : R () :=
  match keys with
  | [] => mret ()
  | key :: keys =>
      w ← rread;
      match rwActive w !! key with
      | Some o' =>
          let x := cell w o' in
          if negb (bool_decide (o' = o)) && of_requirement (qSlug (cell w o)) (qRequirementID (cell w o)) x then
            updr o' (set_qTerminated true);;
            stop (qTimeoutTimer x);;
            stop (qRecoveryTimer x);;
            rmodify (λ w, set_rwActive (delete key (rwActive w)) w)
          else mret ()
      | None => mret ()
      end;;
      evict_same o keys
  end.

Definition replaceActiveExecForRequirement (o : nat) : R () :=
  keys ← active_keys;
  evict_same o keys;;
  x ← rexec o;
  rmodify (λ w, set_rwActive (<[qEntityID x := o]> (rwActive w)) w).

Definition recoverExecForTerminalTaskCompletion (t : TaskExecution) : R (option nat) :=
  if (teSlug t =? "") || (teRequirementID t =? "") then mret None else
  exec ← loadNonTerminalReqExecFromKV E (teSlug t) (teRequirementID t);
  match exec with
  | None => mret None
  | Some x =>
      if qCurrentNodeTaskID x !=? teTaskID t then mret None else
      o ← alloc x;
      replaceActiveExecForRequirement o;;
      mret (Some o)
  end.

Definition OutcomeFailed : string := "failed".

Definition task_outcome (t : TaskExecution) : string :=
  if teStage t =? "approved" then OutcomeSuccess else OutcomeFailed.

Definition task_payload (t : TaskExecution) : event_result :=
  HasResult (MkNodePayload (teFilesModified t) [] "" (teMergeCommit t) (teStage t) (teEscalationReason t)).

Definition handleTaskStateChange (t : TaskExecution) : R () :=
  if negb (IsTerminalTaskStage (teStage t)) || (teTaskID t =? "") then mret () else
  found ← findExecByTaskID (teTaskID t);
  found ← (match found with
           | Some o => mret (Some o)
           | None => recoverExecForTerminalTaskCompletion t
           end);
  match found with
  | None => mret ()
  | Some o =>
      x ← rexec o;
      if qTerminated x then mret () else
      if teTaskID t !=? qCurrentNodeTaskID x then mret ()
      else handleNodeCompleteLocked E o (task_outcome t) (task_payload t)
  end.

(** ** Pending requirements *)

Definition claimExecution (key from to : string) : R bool :=
  if negb (rqNats E) then mret false else
  err ← rsend E (QClaim (MkExecClaimRequest key to from));
  mret (bool_decide (err = None)).

Definition new_execution (key : string) (r : RequirementExecution) : requirementExecution :=
  {| qTerminated := false; qStoreKey := key;
     qEntityID := rqEntityPrefix E +:+ ".exec.req.run." +:+
       replace_byte (byte 46) (byte 45) (reSlug r +:+ "-" +:+ reRequirementID r);
     qSlug := reSlug r; qRequirementID := reRequirementID r; qTitle := reTitle r; qDescription := reDescription r;
     qScenarios := reScenarios r; qDependsOn := reDependsOn r; qScope := None; qPrompt := rePrompt r;
     qRole := reRole r; qModel := if reModel r =? "" then rqModel E else reModel r; qProjectID := reProjectID r;
     qTraceID := reTraceID r; qLoopID := reLoopID r; qRequestID := reRequestID r; qSortedStoryIDs := [];
     qCurrentStoryIdx := 0; qDAG := None; qSortedNodeIDs := []; qNodeIndex := ∅; qCurrentNodeIdx := -1;
     qCurrentNodeTaskID := ""; qVisitedNodes := ∅; qNodeResults := []; qNodeTaskIDs := [];
     qRequirementBranch := ""; qBaseBranch := reBaseBranch r; qReviewerTaskID := ""; qReviewVerdict := "";
     qReviewFeedback := ""; qReviewRetryCount := 0; qRetryCount := 0; qMaxRetries := rqMaxRequirementRetries E;
     qDirtyNodeIDs := []; qLastReviewFeedback := ""; qScenarioVerdicts := []; qTimeoutTimer := None;
     qAwaitingRecovery := false; qRecoveryTimer := None; qRecoveryReason := ""; qRecoveryRestarts := 0;
     qRecoveryInfraRetries := 0 |}.

Definition handleReqPending (key : string) (r : RequirementExecution) : R () :=
  if reStage r !=? "pending" then mret () else
  claimed ← claimExecution key "pending" "decomposing";
  if negb claimed then mret () else
  let x := new_execution key r in
  w ← rread;
  if bool_decide (is_Some (rwActive w !! qEntityID x)) then mret () else
  o ← alloc x;
  rmodify (λ w, set_rwStarting (rwStarting w ++ [(o, rePlanBranch r, reBaseBranch r)])%list
                  (set_rwActive (<[qEntityID x := o]> (rwActive w)) w)).

Definition CreateBranch (branch base : string) : R branch_answer :=
  io ← rtick E;
  rmodify (λ w, set_rwOut (rwOut w ++
    [(QCreateBranch branch base, match qiBranch io with BranchMade => true | _ => false end)])%list w);;
  mret (qiBranch io).

(** A stale branch is deleted and made again. *)
Definition create_fresh (branch base : string) : R branch_answer :=
  r ← CreateBranch branch base;
  match r with
  | BranchElsewhere _ => call_sandbox E (QDeleteBranch branch);; CreateBranch branch base
  | _ => mret r
  end.

Definition loadPlanScope (slug : string) : R (option Scope) :=
  if negb (rqNats E) then mret None else
  io ← rtick E;
  mret (match qiPlan io slug with PlanAt p => Some (pScope p) | _ => None end).

Definition start_execution (o : nat) : R () :=
  x ← rexec o;
  scope ← loadPlanScope (qSlug x);
  updr o (λ x, match scope with Some s => set_qScope (Some s) x | None => x end);;
  startExecutionTimeoutLocked o;;
  dispatchSynthesizerLocked E o.

Definition initReqExecution (o : nat) (planBranch baseBranch : string) : R () :=
  if negb (rqSandbox E) then start_execution o else
  x ← rexec o;
  let branch := "semspec/requirement-" +:+ qRequirementID x in
  r ← create_fresh branch (selectReqBranchBase planBranch baseBranch);
  match r with
  | BranchMade => updr o (set_qRequirementBranch branch);; start_execution o
  | BranchElsewhere e | BranchFailed e =>
      markErrorLocked E o ("create requirement branch " +:+ rqQuote E branch +:+ ": " +:+ e)
  end.

(** ** Start-up *)

(** One key of the bucket. *)
Definition reconcile_key (key : string) : R bool :=
  if negb (HasPrefix key "req.") then mret false else
  io ← rtick E;
  match qiRow io key with
  | RowAt r =>
      if IsTerminalReqStage (reStage r) then mret false else
      let x := rebuildExecFromKV E key r in
      o ← alloc x;
      rmodify (λ w, set_rwActive (<[qEntityID x := o]> (rwActive w)) w);;
      mret true
  | _ => mret false
  end.

Fixpoint reconcile_keys (keys : list string) : R bool :=
  match keys with
  | [] => mret false
  | key :: keys => found ← reconcile_key key; more ← reconcile_keys keys; mret (found || more)
  end.

(** [keys] is empty when the bucket cannot be listed. *)
Definition reconcileFromKV (keys : list string) : R bool :=
  if negb (rqNats E) then mret false else reconcile_keys keys.

(** An execution as the graph has it. *)
Record graph_execution := MkGraphExec { geEntityID : string; gePhase : string; geSlug : string; geTraceID : string }.

Definition graph_terminal (phase : string) : bool :=
  (phase =? "completed") || (phase =? "failed") || (phase =? "error") || (phase =? "awaiting-recovery").

Definition graph_exec (g : graph_execution) : requirementExecution :=
  {| qTerminated := false; qStoreKey := ""; qEntityID := geEntityID g; qSlug := geSlug g; qRequirementID := "";
     qTitle := ""; qDescription := ""; qScenarios := []; qDependsOn := []; qScope := None; qPrompt := "";
     qRole := ""; qModel := ""; qProjectID := ""; qTraceID := geTraceID g; qLoopID := ""; qRequestID := "";
     qSortedStoryIDs := []; qCurrentStoryIdx := 0; qDAG := None; qSortedNodeIDs := []; qNodeIndex := ∅;
     qCurrentNodeIdx := -1; qCurrentNodeTaskID := ""; qVisitedNodes := ∅; qNodeResults := []; qNodeTaskIDs := [];
     qRequirementBranch := ""; qBaseBranch := ""; qReviewerTaskID := ""; qReviewVerdict := "";
     qReviewFeedback := ""; qReviewRetryCount := 0; qRetryCount := 0; qMaxRetries := 0; qDirtyNodeIDs := [];
     qLastReviewFeedback := ""; qScenarioVerdicts := []; qTimeoutTimer := None; qAwaitingRecovery := false;
     qRecoveryTimer := None; qRecoveryReason := ""; qRecoveryRestarts := 0; qRecoveryInfraRetries := 0 |}.

Fixpoint reconcile_graph (entities : list graph_execution) : R () :=
  match entities with
  | [] => mret ()
  | g :: entities =>
      (if graph_terminal (gePhase g) then mret () else
       o ← alloc (graph_exec g);
       rmodify (λ w, set_rwActive (<[geEntityID g := o]> (rwActive w)) w));;
      reconcile_graph entities
  end.

(** [entities] is empty when the graph cannot be read. *)
Definition reconcileFromGraph (keys : list string) (entities : list graph_execution) : R () :=
  found ← reconcileFromKV keys;
  if found : bool then mret () else reconcile_graph entities.

Definition resume_interrupted (o : nat) : R () :=
  x ← rexec o;
  if qTerminated x then mret () else
  match qDAG x with
  | None => startExecutionTimeoutLocked o;; dispatchSynthesizerLocked E o
  | Some _ =>
      if bool_decide (qCurrentNodeIdx x < Z.of_nat (length (qSortedNodeIDs x)))%Z then
        match node_at x (qCurrentNodeIdx x) with
        | Some nodeID =>
            if bool_decide (nodeID ∈ qVisitedNodes x) then dispatchNextNodeLocked E o else
            if qCurrentNodeTaskID x !=? "" then mret () else
            startExecutionTimeoutLocked o;; dispatchNextNodeLocked E o
        | None => startExecutionTimeoutLocked o;; dispatchNextNodeLocked E o
        end
      else if qReviewerTaskID x =? "" then
        startExecutionTimeoutLocked o;; dispatchRequirementReviewerLocked E o
      else mret ()
  end.

Fixpoint resume_keys (keys : list string) : R () :=
  match keys with
  | [] => mret ()
  | key :: keys =>
      w ← rread;
      match rwActive w !! key with
      | Some o => resume_interrupted o
      | None => mret ()
      end;;
      resume_keys keys
  end.

Definition resumeInterruptedExecutions : R () := keys ← active_keys; resume_keys keys.

(** ** Steps *)

Definition timer_fires (t : nat) : R () :=
  w ← rread;
  rmodify (λ w, set_rwTimers (delete t (rwTimers w)) w);;
  match rwTimers w !! t with
  | Some (TimeoutOf o) => markErrorLocked E o ("execution timed out after " +:+ rqTimeoutText E)
  | Some (RecoveryOf o) => handleRecoveryTimeout o
  | None => mret ()
  end.

Definition start_next (i : nat) : R () :=
  w ← rread;
  match rwStarting w !! i with
  | Some (o, planBranch, baseBranch) =>
      rmodify (λ w, set_rwStarting (take i (rwStarting w) ++ drop (S i) (rwStarting w))%list w);;
      initReqExecution o planBranch baseBranch
  | None => mret ()
  end.

(** The cache forgets an entry. *)
Definition expire_active (key : string) : R () :=
  rmodify (λ w, set_rwActive (delete key (rwActive w)) w).

Inductive req_event :=
| REvPending (key : string) (r : RequirementExecution)
| REvStart (i : nat)
| REvLoop (loop : LoopEntity)
| REvTask (t : TaskExecution)
| REvAccepted (evt : PlanDecisionAcceptedEvent)
| REvTimer (t : nat)
| REvResume
| REvExpire (key : string).

Definition req_step (ev : req_event) : R () :=
  match ev with
  | REvPending key r => handleReqPending key r
  | REvStart i => start_next i
  | REvLoop loop => handleLoopEntityUpdate loop
  | REvTask t => handleTaskStateChange t
  | REvAccepted evt => handlePlanDecisionAccepted evt
  | REvTimer t => timer_fires t
  | REvResume => resumeInterruptedExecutions
  | REvExpire key => expire_active key
  end.

Definition rstep (w w' : RWorld) : Prop := ∃ ev, w' = (req_step ev w).1.

Definition start_world (keys : list string) (entities : list graph_execution) : RWorld :=
  (reconcileFromGraph keys entities (MkRWorld ∅ 0 ∅ ∅ [] 0 [])).1.
End recovery.
