(* ===== verification/ReqRuns.v ===== *)
(** * Runs of the requirement executor

    What holds of the requirement executor after any sequence of steps of
    ReqRecovery.v: who is active, which timers are armed, how often an
    execution has been restarted, and what its messages never say.  The
    invariant [rinv] is kept by every function of ReqPipeline.v and
    ReqRecovery.v ([keeps]), by composition along the monad. *)

From stdpp Require Import pretty.
From S2P Require Import Prelude Graphs Status Paths Types Stories Branches TaskDag PlanStore ExecTypes Feedback ExecStore.
From S2P Require Import AutoAccept ExecMutations Convergence ReqTypes ReqEvidence ReqPipeline ReqRecovery.

Local Open Scope string_scope.
Local Open Scope go_scope.

Section runs.
Context (E : ReqEnv).

(** ** The invariant *)

(** No request carries the branch of the requirement. *)
Definition msg_ok (m : req_message * bool) : Prop :=
  match m.1 with QPhase r => rpRequirementBranch r = "" | _ => True end.

(** A restart is possible: none was made, or fewer than the limit. *)
Definition may_restart (n : Z) : Prop := (n = 0 ∨ n < rqMaxRecoveryRestarts E)%Z.

Definition restart_limit : Z := (1 `max` rqMaxRecoveryRestarts E)%Z.

(** A timer of an execution is gone or still its own. *)
Definition own_timer (w : RWorld) (r : option nat) (mine : req_timer) : Prop :=
  ∀ t, r = Some t → (t < rwNext w)%nat ∧ (rwTimers w !! t = None ∨ rwTimers w !! t = Some mine).

Definition armed (w : RWorld) (r : option nat) (mine : req_timer) : Prop :=
  ∃ t, r = Some t ∧ rwTimers w !! t = Some mine.

Record cell_ok (w : RWorld) (o : nat) (x : requirementExecution) : Prop := {
  co_next : (o < rwNext w)%nat;
  co_timeout : own_timer w (qTimeoutTimer x) (TimeoutOf o);
  co_recovery : own_timer w (qRecoveryTimer x) (RecoveryOf o);
  co_restarts : (0 ≤ qRecoveryRestarts x ≤ restart_limit)%Z }.

(** An active execution is live and under its identifier; the timeout it was
    given is armed, and while it waits for a recovery that timer is armed
    and it may be restarted. *)
Record active_ok (w : RWorld) (k : string) (o : nat) (x : requirementExecution) : Prop := {
  ao_key : qEntityID x = k;
  ao_live : qTerminated x = false;
  ao_timeout : ∀ t, qTimeoutTimer x = Some t → rwTimers w !! t = Some (TimeoutOf o);
  ao_awaiting : qAwaitingRecovery x = true →
    armed w (qRecoveryTimer x) (RecoveryOf o) ∧ may_restart (qRecoveryRestarts x) }.

(** [skip] is exempt from [active_ok], apart from its key. *)
Record rinv_but (skip : option nat) (w : RWorld) : Prop := {
  ri_cells : ∀ o x, rwHeap w !! o = Some x → cell_ok w o x;
  ri_active : ∀ k o, rwActive w !! k = Some o →
    ∃ x, rwHeap w !! o = Some x ∧ qEntityID x = k ∧ (skip = Some o ∨ active_ok w k o x);
  ri_starting : ∀ o pb bb, (o, pb, bb) ∈ rwStarting w → is_Some (rwHeap w !! o);
  ri_timers : ∀ t m, rwTimers w !! t = Some m → (t < rwNext w)%nat;
  ri_timed : ∀ t o, rwTimers w !! t = Some (TimeoutOf o) ∨ rwTimers w !! t = Some (RecoveryOf o) →
    is_Some (rwHeap w !! o);
  ri_out : Forall msg_ok (rwOut w) }.

Definition rinv : RWorld → Prop := rinv_but None.

Definition has (o : nat) (w : RWorld) : Prop := is_Some (rwHeap w !! o).

Definition of_timer (m : req_timer) : nat := match m with TimeoutOf o | RecoveryOf o => o end.

(** The two conditions depend on the timers only. *)
Lemma own_timer_ext w w' r m :
  (rwNext w ≤ rwNext w')%nat →
  (∀ t, (t < rwNext w)%nat → rwTimers w' !! t = None ∨ rwTimers w' !! t = rwTimers w !! t) →
  own_timer w r m → own_timer w' r m.
Proof.
  intros Hn Ht H t E'. destruct (H t E') as [Hlt Hm]. split; [lia|].
  destruct (Ht t Hlt) as [?| ->]; [by left|done].
Qed.

Lemma cell_ok_ext w w' o x :
  (rwNext w ≤ rwNext w')%nat →
  (∀ t, (t < rwNext w)%nat → rwTimers w' !! t = None ∨ rwTimers w' !! t = rwTimers w !! t) →
  cell_ok w o x → cell_ok w' o x.
Proof. intros Hn Ht [? ? ? ?]. split; [lia|by eapply own_timer_ext..|done]. Qed.

Lemma active_ok_ext w w' k o x :
  (∀ t m, of_timer m = o → rwTimers w !! t = Some m → rwTimers w' !! t = Some m) →
  active_ok w k o x → active_ok w' k o x.
Proof.
  intros Hm [? ? ? Haw]. split; [done|done|auto|]. intros Hx. destruct (Haw Hx) as [(t & ? & ?) ?].
  split; [|done]. exists t. auto.
Qed.

Lemma rinv_weaken o w : rinv w → rinv_but (Some o) w.
Proof.
  intros [H1 H2 H3 H4 H5]. split; try done. intros k o' Hk.
  destruct (H2 k o' Hk) as (x & Hx & Hk' & [?|?]); [done|]. eauto 6.
Qed.

Lemma has_cell o w : has o w → rwHeap w !! o = Some (cell w o).
Proof. intros [x Hx]. unfold cell. by rewrite Hx. Qed.

(** ** Programs that keep the invariant *)

(** While [skip] may be in an intermediate state. *)
Definition keeps_but (skip : option nat) {A} (o : nat) (m : R A) : Prop :=
  ∀ w, rinv_but skip w → has o w → rinv_but skip (m w).1 ∧ has o (m w).1.

Local Abbreviation keeps := (keeps_but None).

Lemma keeps_rret s {A} o (x : A) : keeps_but s o (mret x).
Proof. by intros w. Qed.

Lemma keeps_rbind s {A B} o (m : R A) (f : A → R B) :
  keeps_but s o m → (∀ x, keeps_but s o (f x)) → keeps_but s o (m ≫= f).
Proof. intros Hm Hf w Hi Ho. rewrite R_bind_eq. destruct (Hm w Hi Ho). by apply Hf. Qed.

Lemma keeps_rexec s o' o : keeps_but s o (rexec o').
Proof. by intros w. Qed.

Lemma keeps_rread s o : keeps_but s o rread.
Proof. by intros w. Qed.

(** Worlds that differ in the number of interactions and in good messages. *)
Lemma rinv_same s w w' :
  rwHeap w' = rwHeap w → rwNext w' = rwNext w → rwActive w' = rwActive w → rwTimers w' = rwTimers w →
  rwStarting w' = rwStarting w → Forall msg_ok (rwOut w') → rinv_but s w → rinv_but s w'.
Proof.
  intros Eh En Ea Et Es Ho [H1 H2 H3 H4 H5 _]. split; rewrite ?Eh, ?En, ?Ea, ?Et, ?Es; try done.
  - intros o x Hx. apply (cell_ok_ext w); [..|by apply H1]; [lia|]. rewrite Et. by right.
  - intros k o Hk. destruct (H2 k o Hk) as (x & Hx & Hk' & Hd). exists x. split_and!; [done..|].
    destruct Hd as [?|?]; [by left|right]. apply (active_ok_ext w); [|done]. by rewrite Et.
Qed.

Lemma keeps_rtick s o : keeps_but s o (rtick E).
Proof. intros w Hi Ho. split; [|done]. eapply rinv_same; [..|done]; try done. by destruct Hi. Qed.

Lemma keeps_log s o m : msg_ok m → keeps_but s o (rmodify (λ w, set_rwOut (rwOut w ++ [m])%list w)).
Proof.
  intros Hm w Hi Ho. split; [|done]. eapply rinv_same; [..|done]; try done.
  destruct Hi. apply Forall_app. by repeat constructor.
Qed.

Lemma keeps_rsend s o m : msg_ok (m, true) → keeps_but s o (rsend E m).
Proof.
  intros Hm. apply keeps_rbind; [apply keeps_rtick|intros io].
  apply keeps_rbind; [by apply keeps_log|intros _; apply keeps_rret].
Qed.

Lemma keeps_sendMutation s o m : msg_ok (m, true) → keeps_but s o (sendMutation E m).
Proof.
  intros Hm. unfold sendMutation. destruct (rqNats E); [|apply keeps_rret].
  apply keeps_rbind; [by apply keeps_rsend|intros _; apply keeps_rret].
Qed.

Lemma keeps_call_sandbox s o m : msg_ok (m, true) → keeps_but s o (call_sandbox E m).
Proof.
  intros Hm. unfold call_sandbox. destruct (rqSandbox E); [|apply keeps_rret].
  apply keeps_rbind; [by apply keeps_rsend|intros _; apply keeps_rret].
Qed.

(** ** Programs that only read, send and wait for answers *)

Record logged (w w' : RWorld) : Prop := {
  lg_heap : rwHeap w' = rwHeap w;
  lg_next : rwNext w' = rwNext w;
  lg_active : rwActive w' = rwActive w;
  lg_timers : rwTimers w' = rwTimers w;
  lg_starting : rwStarting w' = rwStarting w;
  lg_out : Forall msg_ok (rwOut w) → Forall msg_ok (rwOut w') }.

Definition logs {A} (m : R A) : Prop := ∀ w, logged w (m w).1.

Lemma logs_bind {A B} (m : R A) (f : A → R B) : logs m → (∀ x, logs (f x)) → logs (m ≫= f).
Proof.
  intros Hm Hf w. rewrite R_bind_eq. destruct (Hm w), (Hf (m w).2 (m w).1). split; try congruence. auto.
Qed.

Lemma logs_ret {A} (x : A) : logs (mret x).
Proof. by intros w. Qed.
Lemma logs_rexec o : logs (rexec o).
Proof. by intros w. Qed.
Lemma logs_rtick : logs (rtick E).
Proof. by intros w. Qed.
Lemma logs_log m : msg_ok m → logs (rmodify (λ w, set_rwOut (rwOut w ++ [m])%list w)).
Proof. intros Hm w. split; try done. intros H. apply Forall_app. by repeat constructor. Qed.
Lemma logs_rsend m : msg_ok (m, true) → logs (rsend E m).
Proof.
  intros Hm. apply logs_bind; [apply logs_rtick|intros io].
  apply logs_bind; [by apply logs_log|intros _; apply logs_ret].
Qed.

Lemma logged_rinv s w w' : logged w w' → rinv_but s w → rinv_but s w'.
Proof. intros [] Hi. eapply rinv_same; [..|done]; try done. destruct Hi. auto. Qed.

Lemma logged_has o w w' : logged w w' → has o w → has o w'.
Proof. intros [Hh _ _ _ _ _]. unfold has. by rewrite Hh. Qed.

Lemma logged_cell o w w' : logged w w' → cell w' o = cell w o.
Proof. intros [Hh _ _ _ _ _]. unfold cell. by rewrite Hh. Qed.

Lemma logs_keeps s {A} o (m : R A) : logs m → keeps_but s o m.
Proof. intros Hm w Hi Ho. split; [by eapply logged_rinv|by eapply logged_has]. Qed.

(** ** Changing an execution *)

(** A change of one cell: its key, timers and restarts stay, it is not ended
    and does not begin to wait. *)
Record mild (x y : requirementExecution) : Prop := {
  md_key : qEntityID y = qEntityID x;
  md_timeout : qTimeoutTimer y = qTimeoutTimer x;
  md_recovery : qRecoveryTimer y = qRecoveryTimer x;
  md_restarts : qRecoveryRestarts y = qRecoveryRestarts x;
  md_live : qTerminated x = false → qTerminated y = false;
  md_awaiting : qAwaitingRecovery y = true → qAwaitingRecovery x = true }.

Lemma mild_refl x : mild x x.
Proof. by split. Qed.

Lemma mild_trans x y z : mild x y → mild y z → mild x z.
Proof. intros [] []. split; try congruence; auto. Qed.

(** The cell of [o] after an update. *)
Lemma heap_updr o f w o' x :
  has o w → rwHeap (updr o f w).1 !! o' = Some x →
  (o' = o ∧ x = f (cell w o)) ∨ (o' ≠ o ∧ rwHeap w !! o' = Some x).
Proof.
  intros Ho. cbn. rewrite lookup_insert_Some. naive_solver.
Qed.

Lemma has_updr o f w o' : has o' w → has o' (updr o f w).1.
Proof. unfold has. cbn. intros H. apply lookup_insert_is_Some. destruct (decide (o = o')); auto. Qed.

(** An update of [o] after which its cell is as it has to be. *)
Lemma rinv_updr s o f w :
  rinv_but s w → has o w → qEntityID (f (cell w o)) = qEntityID (cell w o) →
  (cell_ok w o (cell w o) → cell_ok w o (f (cell w o))) →
  (∀ k, rwActive w !! k = Some o → s = Some o ∨
     (active_ok w k o (cell w o) → active_ok w k o (f (cell w o)))) →
  rinv_but s (updr o f w).1.
Proof.
  intros [H1 H2 H3 H4 H5 H6] Ho Hkey Hc Ha.
  split; try done.
  - intros o' x Hx. apply (cell_ok_ext w); [done|by right|].
    apply heap_updr in Hx as [[-> ->]|[? Hx]]; [|by apply H1|done]. apply Hc, H1. by apply has_cell.
  - intros k o' Hk. destruct (H2 k o' Hk) as (x & Hx & Hk' & Hd). destruct (decide (o' = o)) as [->|Hne].
    + exists (f (cell w o)). cbn. rewrite lookup_insert_eq. rewrite has_cell in Hx by done. injection Hx as <-.
      split_and!; [done|congruence|]. destruct Hd as [?|Hd]; [by left|].
      destruct (Ha k Hk) as [?|Hact]; [by left|right]. apply (active_ok_ext w); [|by apply Hact]. done.
    + exists x. cbn. rewrite lookup_insert_ne by done. split_and!; [done..|].
      destruct Hd as [?|Hd]; [by left|right]. apply (active_ok_ext w); [|done]. done.
  - intros o' pb bb Hin. apply has_updr. by eapply H3.
  - intros t o' Ht. apply has_updr. by eapply H5.
Qed.

Lemma keeps_updr s o f :
  (∀ x, mild x (f x)) → keeps_but s o (updr o f).
Proof.
  intros Hf w Hi Ho. split; [|by apply has_updr]. destruct (Hf (cell w o)) as [Ek Et Er Es El Ea].
  apply rinv_updr; [done..| |].
  - intros [? ? ? ?]. split; rewrite ?Et, ?Er, ?Es; done.
  - intros k Hk. right. intros [? ? ? Haw]. split; rewrite ?Et, ?Er, ?Es, ?Ek; auto.
Qed.

(** The update of an execution with a value computed from the one read. *)
Lemma keeps_updr_const s o y w :
  mild (cell w o) y → rinv_but s w → has o w → rinv_but s (updr o (λ _, y) w).1 ∧ has o (updr o (λ _, y) w).1.
Proof.
  intros [Ek Et Er Es El Ea] Hi Ho. split; [|by apply has_updr]. apply rinv_updr; [done..| |].
  - intros [? ? ? ?]. split; rewrite ?Et, ?Er, ?Es; done.
  - intros k Hk. right. intros [? ? ? Haw]. split; rewrite ?Et, ?Er, ?Es, ?Ek; auto.
Qed.

(** ** Timers *)

(** A new timer is fresh: nobody's timer changes. *)
Lemma rinv_arm s m w : rinv_but s w → has (of_timer m) w → rinv_but s (arm m w).1.
Proof.
  intros [H1 H2 H3 H4 H5 H6] Ho.
  assert (Hlt : ∀ t, (t < rwNext w)%nat → <[rwNext w := m]> (rwTimers w) !! t = rwTimers w !! t)
    by (intros t Ht; rewrite lookup_insert_ne; [done|lia]).
  assert (Hmono : ∀ t m', rwTimers w !! t = Some m' → <[rwNext w := m]> (rwTimers w) !! t = Some m')
    by (intros t m' Ht; rewrite Hlt; eauto).
  split; cbn; try done.
  - intros o x Hx. apply (cell_ok_ext w); [..|by apply H1]; cbn; [lia|auto].
  - intros k o Hk. destruct (H2 k o Hk) as (x & Hx & Hk' & Hd). exists x. split_and!; [done..|].
    destruct Hd as [?|?]; [by left|right]. apply (active_ok_ext w); [|done]. cbn. auto.
  - intros t m'. rewrite lookup_insert_Some. intros [[<- _]|[_ ?%H4]]; lia.
  - intros t o. rewrite !lookup_insert_Some. intros Ht.
    destruct (decide (t = rwNext w)) as [->|Hne].
    + assert (m = TimeoutOf o ∨ m = RecoveryOf o) as [-> | ->] by naive_solver; done.
    + apply (H5 t). naive_solver.
Qed.

(** Stopping the timer of [o] concerns no other execution. *)
Lemma rinv_stop o r w :
  rinv_but (Some o) w → has o w →
  own_timer w r (TimeoutOf o) ∨ own_timer w r (RecoveryOf o) →
  rinv_but (Some o) (stop r w).1.
Proof.
  intros [H1 H2 H3 H4 H5 H6] Ho Hown. destruct r as [t|]; [|by split].
  assert (Hsub : ∀ t' m, delete t (rwTimers w) !! t' = Some m → rwTimers w !! t' = Some m)
    by (intros t' m; rewrite lookup_delete_Some; naive_solver).
  assert (Hkeep : ∀ o' t' m, o' ≠ o → m = TimeoutOf o' ∨ m = RecoveryOf o' →
            rwTimers w !! t' = Some m → delete t (rwTimers w) !! t' = Some m).
  { intros o' t' m Hne Hm Ht. rewrite lookup_delete_ne; [done|]. intros <-.
    destruct Hown as [Hown|Hown]; destruct (Hown t eq_refl) as [_ [?|?]]; destruct Hm; congruence. }
  split; cbn; try done.
  - intros o' x Hx. apply (cell_ok_ext w); [done| |by apply H1]. cbn. intros t' _.
    destruct (decide (t = t')) as [->|]; [left; apply lookup_delete_eq|right; by rewrite lookup_delete_ne].
  - intros k o' Hk. destruct (H2 k o' Hk) as (x & Hx & Hk' & Hd). exists x. split_and!; [done..|].
    destruct (decide (o' = o)) as [->|Hne]; [by left|].
    destruct Hd as [?|Hd]; [by left|right]. apply (active_ok_ext w); [|done]. cbn. intros t' m <- Ht.
    eapply (Hkeep (of_timer m)); [done|destruct m; auto|done].
  - intros t' m Ht. eauto.
  - intros t' o' Ht. apply (H5 t'). destruct Ht; eauto.
Qed.

(** ** The end of an execution *)

Lemma keeps_delete_worktrees s o ids : keeps_but s o (delete_worktrees E ids).
Proof.
  induction ids as [|id ids IH]; [apply keeps_rret|]. cbn [delete_worktrees].
  apply keeps_rbind; [by apply keeps_call_sandbox|done].
Qed.

Lemma heap_call_sandbox m w : rwHeap (call_sandbox E m w).1 = rwHeap w.
Proof. unfold call_sandbox. by destruct (rqSandbox E). Qed.

Lemma heap_delete_worktrees ids w : rwHeap (delete_worktrees E ids w).1 = rwHeap w.
Proof.
  revert w. induction ids as [|id ids IH]; intros w; [done|]. cbn [delete_worktrees].
  rewrite R_bind_eq, IH. apply heap_call_sandbox.
Qed.

Lemma heap_stop r w : rwHeap (stop r w).1 = rwHeap w.
Proof. by destruct r. Qed.

Lemma cell_heap w w' o : rwHeap w' = rwHeap w → cell w' o = cell w o.
Proof. unfold cell. by intros ->. Qed.

Lemma cell_updr w o f : cell (updr o f w).1 o = f (cell w o).
Proof. unfold cell at 1. cbn. by rewrite lookup_insert_eq. Qed.

Lemma own_timer_stop w r r' m : own_timer w r m → own_timer (stop r' w).1 r m.
Proof.
  intros H. apply (own_timer_ext w); [by destruct r'| |done]. intros t _. destruct r' as [t'|]; [|by right].
  cbn. destruct (decide (t' = t)) as [->|]; [left; apply lookup_delete_eq|right; by rewrite lookup_delete_ne].
Qed.

(** Once [o] is off the cache, nothing is exempt any more. *)
Lemma rinv_evict o w :
  rinv_but (Some o) w → has o w →
  rinv (set_rwActive (delete (qEntityID (cell w o)) (rwActive w)) w).
Proof.
  intros [H1 H2 H3 H4 H5 H6] Ho. split; cbn; try done.
  - intros o' x Hx. apply (cell_ok_ext w); [done|by right|by apply H1].
  - intros k o' [Hne Hk]%lookup_delete_Some. destruct (H2 k o' Hk) as (x & Hx & Hk' & Hd).
    exists x. split_and!; [done..|right]. destruct Hd as [[= <-]|Hd].
    + rewrite has_cell in Hx by done. congruence.
    + by apply (active_ok_ext w).
Qed.

(** [cleanupExecutionLocked] may be called on an execution that is ended. *)
Lemma cleanup_ends o success w :
  rinv_but (Some o) w → has o w →
  rinv (cleanupExecutionLocked E o success w).1 ∧ has o (cleanupExecutionLocked E o success w).1 ∧
  qTerminated (cell (cleanupExecutionLocked E o success w).1 o) = qTerminated (cell w o).
Proof.
  intros Hi Ho. unfold cleanupExecutionLocked. rewrite R_bind_eq. cbn [rexec fst snd]. set (x := cell w o).
  assert (Hcell := ri_cells _ _ Hi o x (has_cell o w Ho)).
  rewrite R_bind_eq. set (w1 := (stop (qTimeoutTimer x) w).1).
  assert (H1 : rinv_but (Some o) w1) by (apply rinv_stop; [done..|left; apply Hcell]).
  assert (E1 : rwHeap w1 = rwHeap w) by apply heap_stop.
  rewrite R_bind_eq. set (w2 := (stop (qRecoveryTimer x) w1).1).
  assert (Ho1 : has o w1) by (unfold has; by rewrite E1).
  assert (H2 : rinv_but (Some o) w2) by (apply rinv_stop; [done..|right; apply own_timer_stop, Hcell]).
  assert (E2 : rwHeap w2 = rwHeap w) by (unfold w2; by rewrite heap_stop).
  assert (Ho2 : has o w2) by (unfold has; by rewrite E2).
  rewrite R_bind_eq. set (w3 := (updr o (set_qRecoveryTimer None) w2).1).
  assert (H3 : rinv_but (Some o) w3).
  { apply rinv_updr; [done..| |by left]. intros [? ? ? ?]. by split. }
  assert (Ho3 : has o w3) by (by apply has_updr).
  rewrite R_bind_eq.
  destruct (keeps_delete_worktrees (Some o) o ((if success then qNodeTaskIDs x else []) ++
     (if qReviewerTaskID x =? "" then [] else [qReviewerTaskID x]))%list w3 H3 Ho3) as [H4 Ho4].
  set (w4 := (delete_worktrees E _ w3).1) in *.
  assert (Ec : cell w4 o = set_qRecoveryTimer None x).
  { rewrite (cell_heap w3) by apply heap_delete_worktrees. unfold w3. rewrite cell_updr.
    by rewrite (cell_heap w) by done. }
  cbn [rmodify fst snd]. split_and!.
  - pose proof (rinv_evict o w4 H4 Ho4) as H5. by rewrite Ec in H5.
  - done.
  - rewrite (cell_heap w4) by done. by rewrite Ec.
Qed.

(** From a live execution to its end. *)
Lemma rinv_terminate o w :
  rinv_but (Some o) w → has o w → rinv_but (Some o) (updr o (set_qTerminated true) w).1.
Proof. intros Hi Ho. apply rinv_updr; [done..| |by left]. intros [? ? ? ?]. by split. Qed.

(** The common part of the three ends: the execution is marked, messages
    are sent, and it is cleaned up. *)
Lemma ending o success (m : R ()) w :
  keeps_but (Some o) o m → (∀ w', rwHeap (m w').1 = rwHeap w') → rinv_but (Some o) w → has o w →
  let w' := ((updr o (set_qTerminated true);; m;; cleanupExecutionLocked E o success) w).1 in
  rinv w' ∧ has o w' ∧ qTerminated (cell w' o) = true.
Proof.
  intros Hm Hheap Hi Ho w'. subst w'. rewrite !R_bind_eq.
  destruct (Hm (updr o (set_qTerminated true) w).1) as [H1 Ho1]; [by apply rinv_terminate|by apply has_updr|].
  destruct (cleanup_ends o success _ H1 Ho1) as (H2 & Ho2 & E2). split_and!; [done..|].
  rewrite E2, (cell_heap _ _ o (Hheap _)), cell_updr. done.
Qed.

Definition ends (o : nat) {A} (m : R A) : Prop :=
  ∀ w, rinv w → has o w → rinv (m w).1 ∧ has o (m w).1 ∧ qTerminated (cell (m w).1 o) = true.

Lemma ends_keeps o {A} (m : R A) : ends o m → keeps o m.
Proof. intros H w Hi Ho. by destruct (H w Hi Ho) as (? & ? & ?). Qed.

Lemma heap_sendMutation m w : rwHeap (sendMutation E m w).1 = rwHeap w.
Proof. unfold sendMutation. by destruct (rqNats E). Qed.

Lemma heap_release x w : rwHeap (release_story E x w).1 = rwHeap w.
Proof. unfold release_story. destruct (current_story x); [apply heap_sendMutation|done]. Qed.

Lemma keeps_release s o x : keeps_but s o (release_story E x).
Proof. unfold release_story. destruct (current_story x); [by apply keeps_sendMutation|apply keeps_rret]. Qed.

Lemma markCompleted_ends o : ends o (markCompletedLocked E o).
Proof.
  intros w Hi Ho. unfold markCompletedLocked. rewrite R_bind_eq. cbn [rexec fst snd].
  destruct (qTerminated (cell w o)) eqn:Et; [done|].
  pose proof (ending o true (sendMutation E (QPhase (complete_request (cell w o)));;
    sendMutation E (QComplete (complete_event (cell w o) "completed"))) w) as H. cbv zeta in H.
  rewrite !R_bind_eq in H |- *. apply H; [|intros w'; rewrite R_bind_eq, !heap_sendMutation; done|by apply rinv_weaken|done].
  apply keeps_rbind; [by apply keeps_sendMutation|intros _; by apply keeps_sendMutation].
Qed.

Lemma markFailed_ends o reason : ends o (markFailedLocked E o reason).
Proof.
  intros w Hi Ho. unfold markFailedLocked. rewrite R_bind_eq. cbn [rexec fst snd].
  destruct (qTerminated (cell w o)) eqn:Et; [done|].
  pose proof (ending o false (sendMutation E (QPhase (fail_request (qStoreKey (cell w o)) "failed" reason ""));;
    release_story E (cell w o);; sendMutation E (QComplete (complete_event (cell w o) "failed"))) w) as H.
  cbv zeta in H. rewrite !R_bind_eq in H |- *.
  apply H; [|intros w'; rewrite !R_bind_eq, heap_sendMutation, heap_release, heap_sendMutation; done|by apply rinv_weaken|done].
  apply keeps_rbind; [by apply keeps_sendMutation|intros _].
  apply keeps_rbind; [apply keeps_release|intros _; by apply keeps_sendMutation].
Qed.

(** The end after a timeout: the timer that fired is gone. *)
Lemma markError_ends_but o reason w :
  rinv_but (Some o) w → has o w → qTerminated (cell w o) = false →
  let w' := (markErrorLocked E o reason w).1 in rinv w' ∧ has o w' ∧ qTerminated (cell w' o) = true.
Proof.
  intros Hi Ho Et. unfold markErrorLocked. rewrite R_bind_eq. cbn [rexec fst snd]. rewrite Et.
  pose proof (ending o false
    (sendMutation E (QPhase (fail_request (qStoreKey (cell w o)) "error" reason (ClassifyErrorReason reason)));;
     sendMutation E (QComplete (complete_event (cell w o) "error"))) w) as H. cbv zeta in H |- *.
  rewrite !R_bind_eq in H |- *. apply H; [|intros w'; rewrite R_bind_eq, !heap_sendMutation; done|done..].
  apply keeps_rbind; [by apply keeps_sendMutation|intros _; by apply keeps_sendMutation].
Qed.

Lemma markError_ends o reason : ends o (markErrorLocked E o reason).
Proof.
  intros w Hi Ho. destruct (qTerminated (cell w o)) eqn:Et; [|by apply markError_ends_but; [apply rinv_weaken|..]].
  unfold markErrorLocked. rewrite R_bind_eq. cbn [rexec fst snd]. by rewrite Et.
Qed.

Lemma keeps_markCompleted o : keeps o (markCompletedLocked E o).
Proof. apply ends_keeps, markCompleted_ends. Qed.
Lemma keeps_markFailed o reason : keeps o (markFailedLocked E o reason).
Proof. apply ends_keeps, markFailed_ends. Qed.
Lemma keeps_markError o reason : keeps o (markErrorLocked E o reason).
Proof. apply ends_keeps, markError_ends. Qed.

(** ** New timers *)

(** A new timer recorded in the execution. *)
Lemma keeps_startTimeout o : keeps o (startExecutionTimeoutLocked o).
Proof.
  intros w Hi Ho. unfold startExecutionTimeoutLocked. rewrite R_bind_eq.
  assert (H1 : rinv (arm (TimeoutOf o) w).1) by (by apply rinv_arm).
  split; [|by apply has_updr]. apply rinv_updr; [done..| |].
  - intros [? ? ? ?]. split; try done. intros t [= <-]. cbn. rewrite lookup_insert_eq. split; [lia|by right].
  - intros k Hk. right. intros [? ? ? ?]. split; try done. intros t [= <-]. cbn. apply lookup_insert_eq.
Qed.

Lemma rinv_arm_recovery s o w :
  rinv_but s w → has o w → s = Some o ∨ s = None →
  (∀ k, rwActive w !! k = Some o → qAwaitingRecovery (cell w o) = true → may_restart (qRecoveryRestarts (cell w o))) →
  (s = Some o → ∀ k, rwActive w !! k = Some o → qTerminated (cell w o) = false ∧
     ∀ t, qTimeoutTimer (cell w o) = Some t → rwTimers w !! t = Some (TimeoutOf o)) →
  rinv (arm_recovery o w).1 ∧ has o (arm_recovery o w).1.
Proof.
  intros Hi Ho Hs Hmay Hact. unfold arm_recovery. rewrite R_bind_eq.
  assert (H1 : rinv_but s (arm (RecoveryOf o) w).1) by (by apply rinv_arm).
  set (w1 := (arm (RecoveryOf o) w).1) in *. cbn [arm snd].
  assert (Hc : cell w1 o = cell w o) by done.
  split; [|by apply has_updr].
  assert (H2 : rinv_but s (updr o (set_qRecoveryTimer (Some (rwNext w))) w1).1).
  { apply rinv_updr; [done..| |].
    - intros [? ? ? ?]. split; try done. unfold w1. intros t [= <-]. cbn. rewrite lookup_insert_eq. split; [lia|by right].
    - intros k Hk. destruct Hs as [-> | ->]; [by left|right]. intros [? ? ? ?]. split; try done.
      unfold w1. cbn. intros Haw. split; [|by eauto]. exists (rwNext w). split; [done|apply lookup_insert_eq]. }
  destruct Hs as [-> | ->]; [|done]. destruct H2 as [G1 G2 G3 G4 G5 G6]. split; try done.
  intros k o' Hk. destruct (G2 k o' Hk) as (x & Hx & Hk' & Hd). exists x. split_and!; [done..|right].
  destruct Hd as [[= <-]|?]; [|done]. cbn in Hk. destruct (Hact eq_refl k Hk) as [Hlive Htime].
  apply heap_updr in Hx as [[_ ->]|[? _]]; [|done..]. rewrite Hc. split; [by rewrite Hc in Hk'|done| |].
  - unfold w1. cbn. intros t Ht. rewrite lookup_insert_ne; [by apply Htime|].
    destruct (ri_cells _ _ Hi o _ (has_cell o w Ho)) as [_ Hown _ _]. destruct (Hown t Ht). lia.
  - unfold w1. cbn. intros Haw. split; [|by eauto]. exists (rwNext w). split; [done|apply lookup_insert_eq].
Qed.

(** Stopping the recovery timer leaves the timeout of the execution armed. *)
Lemma timeout_survives o w k t :
  rinv w → has o w → rwActive w !! k = Some o → qTimeoutTimer (cell w o) = Some t →
  rwTimers (stop (qRecoveryTimer (cell w o)) w).1 !! t = Some (TimeoutOf o).
Proof.
  intros Hi Ho Hk Ht. destruct (ri_active _ _ Hi k o Hk) as (x & Hx & _ & [?|Ha]); [done|].
  rewrite has_cell in Hx by done. injection Hx as <-. pose proof (ao_timeout _ _ _ _ Ha t Ht) as Hm.
  destruct (qRecoveryTimer (cell w o)) as [t'|] eqn:Er; [|done]. cbn. rewrite lookup_delete_ne; [done|].
  intros ->. destruct (ri_cells _ _ Hi o _ (has_cell o w Ho)) as [_ _ Hr _].
  rewrite Er in Hr. destruct (Hr t eq_refl) as [_ [?|?]]; congruence.
Qed.

Lemma active_sendMutation m w : rwActive (sendMutation E m w).1 = rwActive w.
Proof. unfold sendMutation. by destruct (rqNats E). Qed.
Lemma timers_sendMutation m w : rwTimers (sendMutation E m w).1 = rwTimers w.
Proof. unfold sendMutation. by destruct (rqNats E). Qed.
Lemma active_stop r w : rwActive (stop r w).1 = rwActive w.
Proof. by destruct r. Qed.

Lemma keeps_defer o reason : keeps o (deferToAwaitingRecoveryLocked E o reason).
Proof.
  intros w Hi Ho. unfold deferToAwaitingRecoveryLocked. destruct (rqDeferTerminalOnRecovery E); [|done]. cbn [negb].
  rewrite R_bind_eq. cbn [rexec fst snd]. destruct (qTerminated (cell w o)) eqn:Elive; [done|].
  case_bool_decide as Hmax; [done|]. rewrite R_bind_eq. set (w1 := (stop (qRecoveryTimer (cell w o)) w).1).
  assert (E1 : rwHeap w1 = rwHeap w) by apply heap_stop.
  assert (Ho1 : has o w1) by (unfold has; by rewrite E1).
  assert (H1 : rinv_but (Some o) w1).
  { apply rinv_stop; [by apply rinv_weaken|done|right]. apply (ri_cells _ _ Hi o). by apply has_cell. }
  rewrite R_bind_eq.
  set (w2 := (updr o (λ x, set_qRecoveryReason reason (set_qAwaitingRecovery true (set_qRecoveryTimer None x))) w1).1).
  assert (H2 : rinv_but (Some o) w2).
  { apply rinv_updr; [done..| |by left]. intros [? ? ? ?]. by split. }
  assert (Ho2 : has o w2) by (by apply has_updr).
  rewrite R_bind_eq.
  destruct (keeps_sendMutation (Some o) o (QPhase (phase_request (qStoreKey (cell w o)) "awaiting-recovery"))
              eq_refl w2 H2 Ho2) as [H3 Ho3].
  set (w3 := (sendMutation E _ w2).1) in *.
  assert (Ec : cell w3 o = set_qRecoveryReason reason (set_qAwaitingRecovery true (set_qRecoveryTimer None (cell w o)))).
  { rewrite (cell_heap w2) by apply heap_sendMutation. unfold w2. rewrite cell_updr. by rewrite (cell_heap w). }
  rewrite R_bind_eq, R_bind_eq. cbn [mret R_ret fst].
  destruct (rinv_arm_recovery (Some o) o w3 H3 Ho3) as [H4 Ho4]; [by left| |..].
  - rewrite Ec. intros. right. cbn. lia.
  - intros _ k Hk. rewrite Ec. cbn. split; [done|]. intros t Ht.
    unfold w3. rewrite timers_sendMutation. unfold w2. cbn. apply (timeout_survives o w k); [done|done| |done].
    unfold w3, w2 in Hk. rewrite active_sendMutation in Hk. cbn in Hk. unfold w1 in Hk. by rewrite active_stop in Hk.
  - unfold arm_recovery in H4, Ho4. rewrite R_bind_eq in H4, Ho4. done.
Qed.

(** ** The pipeline *)

Lemma keeps_publish_reviewer o t : keeps o (publish_reviewer E t).
Proof. unfold publish_reviewer. destruct (rqNats E); [by apply keeps_rsend|apply keeps_rret]. Qed.

Lemma keeps_sendTaskCreate o r : keeps o (sendTaskCreate E r).
Proof. unfold sendTaskCreate. destruct (rqNats E); [by apply keeps_rsend|apply keeps_rret]. Qed.
End runs.

Create HintDb rkeeps discriminated.

#[export] Hint Resolve keeps_rret keeps_rexec keeps_rread keeps_rtick keeps_rsend keeps_sendMutation
  keeps_call_sandbox keeps_markCompleted keeps_markFailed keeps_markError keeps_startTimeout keeps_defer
  keeps_publish_reviewer keeps_sendTaskCreate : rkeeps.

(** An update that touches neither the identity, nor the timers, nor the
    restarts. *)
Ltac mild_tac := intros; first [solve [auto 1 with rkeeps] | split; try done; repeat case_match; done].

(** Follows the program: binds, branches and updates. *)
Ltac keeps_step :=
  first
    [ solve [eauto 1 with rkeeps]
    | match goal with
      | |- keeps_but _ _ _ (rsend _ _) => by apply keeps_rsend
      | |- keeps_but _ _ _ (sendMutation _ _) => by apply keeps_sendMutation
      | |- keeps_but _ _ _ (call_sandbox _ _) => by apply keeps_call_sandbox
      | |- keeps_but _ _ _ (rmodify _) => by apply keeps_log
      | |- keeps_but _ _ _ (updr _ _) => apply keeps_updr; mild_tac
      | |- keeps_but _ _ _ (_ ≫= _) => apply keeps_rbind; [|intros ?]
      | |- keeps_but _ _ _ (if ?b then _ else _) => destruct b
      | |- keeps_but _ _ _ (match ?x with _ => _ end) => destruct x
      | |- keeps_but _ _ _ (let _ := _ in _) => cbv zeta
      end ].

Ltac keeps_auto := repeat keeps_step.

Section pipeline.
Context (E : ReqEnv).

Local Abbreviation keeps := (keeps_but E None).

Lemma keeps_defer_or_fail o reason : keeps o (defer_or_fail E o reason).
Proof. unfold defer_or_fail. keeps_auto. Qed.

Lemma keeps_emitExhaustion o verdict feedback : keeps o (emitExhaustionDecision E o verdict feedback).
Proof. unfold emitExhaustionDecision, publishRecoveryRequested. keeps_auto. Qed.

Lemma keeps_dispatchReviewer o : keeps o (dispatchRequirementReviewerLocked E o).
Proof. unfold dispatchRequirementReviewerLocked. keeps_auto. Qed.
#[local] Hint Resolve keeps_defer_or_fail keeps_emitExhaustion keeps_dispatchReviewer : rkeeps.

Lemma keeps_dispatchNextNode o : keeps o (dispatchNextNodeLocked E o).
Proof. unfold dispatchNextNodeLocked. keeps_auto. Qed.
#[local] Hint Resolve keeps_dispatchNextNode : rkeeps.

Lemma keeps_applyParsedDAG o dag : keeps o (applyParsedDAGLocked E o dag).
Proof. unfold applyParsedDAGLocked. keeps_auto. Qed.
#[local] Hint Resolve keeps_applyParsedDAG : rkeeps.

Lemma keeps_load_row want o slug id : keeps o (load_row E want slug id).
Proof. unfold load_row. keeps_auto. Qed.

Lemma keeps_loadPlan o slug : keeps o (loadPlanFromKV E slug).
Proof. unfold loadPlanFromKV. keeps_auto. Qed.

Lemma keeps_delivered o : keeps o (deliveredFilesForReviewerWorktree E o).
Proof. unfold deliveredFilesForReviewerWorktree. keeps_auto. Qed.

Lemma keeps_startFixableRetry o feedback : keeps o (startFixableRetryLocked E o feedback).
Proof. unfold startFixableRetryLocked. keeps_auto. Qed.
#[local] Hint Resolve keeps_load_row keeps_loadPlan keeps_delivered keeps_startFixableRetry : rkeeps.

Lemma keeps_storyGap o plan : keeps o (handleApprovedDeliverableGapForPlanLocked E o plan).
Proof. unfold handleApprovedDeliverableGapForPlanLocked. keeps_auto. Qed.

Lemma keeps_reqGap o plan : keeps o (handleRequirementDeliverableGapForPlanLocked E o plan).
Proof. unfold handleRequirementDeliverableGapForPlanLocked. keeps_auto. Qed.
#[local] Hint Resolve keeps_storyGap keeps_reqGap : rkeeps.

Lemma keeps_storyGapLocked o : keeps o (handleApprovedDeliverableGapLocked E o).
Proof. unfold handleApprovedDeliverableGapLocked. keeps_auto. Qed.

Lemma keeps_reqGapLocked o : keeps o (handleRequirementDeliverableGapLocked E o).
Proof. unfold handleRequirementDeliverableGapLocked. keeps_auto. Qed.
#[local] Hint Resolve keeps_storyGapLocked keeps_reqGapLocked : rkeeps.

(** Borrowed evidence changes results, visited nodes and verdicts only. *)
Lemma copy_result_mild story l st : mild st.2 (foldl (copy_result story) st l).2.
Proof.
  revert st. induction l as [|nr l IH]; intros st; [apply mild_refl|]. cbn [foldl].
  eapply mild_trans; [|apply IH]. unfold copy_result. destruct (_ || _); by split.
Qed.

Lemma copyStoryEvidence_mild x story owner : mild x (copyStoryEvidence x story owner).1.
Proof.
  unfold copyStoryEvidence. destruct (is_nil _); [apply mild_refl|]. apply (copy_result_mild story _ (_, x)).
Qed.

Lemma copyScenarioVerdict_mild x story owner : mild x (copyScenarioVerdictEvidence x story owner).
Proof. unfold copyScenarioVerdictEvidence. destruct (_ || _); by split. Qed.

Lemma heap_load_row want slug id w : rwHeap (load_row E want slug id w).1 = rwHeap w.
Proof. unfold load_row. by destruct (rqNats E). Qed.

Lemma keeps_evidence o story : keeps o (applyCompletedStoryEvidenceLocked E o story).
Proof.
  intros w Hi Ho. unfold applyCompletedStoryEvidenceLocked. destruct (rqNats E); [|done]. cbn [negb].
  rewrite R_bind_eq. cbn [rexec fst snd]. case_match; [done|]. case_match; [done|]. rewrite R_bind_eq.
  destruct (keeps_load_row (λ stage, stage =? "completed") o (qSlug (cell w o)) (DeterministicStoryOwner story) w Hi Ho)
    as [H1 Ho1].
  pose proof (heap_load_row (λ stage, stage =? "completed") (qSlug (cell w o)) (DeterministicStoryOwner story) w) as Eh.
  fold (loadCompletedReqExecFromKV E) in *.
  set (r := loadCompletedReqExecFromKV E _ _ w) in *. destruct r.2 as [owner|]; [|done]. case_match; [done|].
  destruct (copyStoryEvidence (cell w o) story owner) as [x' found] eqn:Ec.
  pose proof (copyStoryEvidence_mild (cell w o) story owner) as Hm. rewrite Ec in Hm. cbn [fst] in Hm.
  rewrite R_bind_eq. apply keeps_updr_const; [|done..]. rewrite (cell_heap w _ o Eh).
  destruct found; [|done]. eapply mild_trans; [done|apply copyScenarioVerdict_mild].
Qed.
#[local] Hint Resolve keeps_evidence : rkeeps.

Lemma keeps_ClaimStory o slug id target : keeps o (ClaimStoryStatus E slug id target).
Proof. unfold ClaimStoryStatus. keeps_auto. Qed.
#[local] Hint Resolve keeps_ClaimStory : rkeeps.

Lemma keeps_dispatch_story fuel o plan : keeps o (dispatch_story E fuel o plan).
Proof.
  induction fuel as [|fuel IH]; [apply keeps_rret|]. cbn [dispatch_story].
  unfold dispatch_story_step, claim_and_dispatch, skip_story, advancePastSkippedStoryLocked. keeps_auto.
Qed.
#[local] Hint Resolve keeps_dispatch_story : rkeeps.

Lemma keeps_dispatchSynthesizer o : keeps o (dispatchSynthesizerLocked E o).
Proof. unfold dispatchSynthesizerLocked, dispatchCurrentStoryLocked. keeps_auto. Qed.

Lemma keeps_advance o : keeps o (advanceToNextStoryLocked E o).
Proof. unfold advanceToNextStoryLocked, dispatchCurrentStoryLocked. keeps_auto. Qed.
#[local] Hint Resolve keeps_dispatchSynthesizer keeps_advance : rkeeps.

Lemma keeps_nodeComplete o outcome result : keeps o (handleNodeCompleteLocked E o outcome result).
Proof.
  unfold handleNodeCompleteLocked, handleNodeFailureLocked, retryNodeAtRequirementLevelLocked,
    recordNodeSuccessLocked. keeps_auto.
Qed.

Lemma keeps_approved o : keeps o (handleApprovedVerdictLocked E o).
Proof. unfold handleApprovedVerdictLocked, handleApprovedClaimMismatchLocked, publishStoryCompleteLocked. keeps_auto. Qed.

Lemma keeps_walk o slug id steps : keeps o (walk_story E slug id steps).
Proof. induction steps as [|s steps IH]; cbn [walk_story]; keeps_auto. Qed.
#[local] Hint Resolve keeps_approved keeps_walk : rkeeps.

Lemma keeps_reopen_stories o slug plan ids n : keeps o (reopen_stories E slug plan ids n).
Proof. revert n. induction ids as [|id ids IH]; intros n; cbn [reopen_stories]; keeps_auto. Qed.
#[local] Hint Resolve keeps_reopen_stories : rkeeps.

Lemma keeps_recreate_branch o : keeps o (recreate_branch E o).
Proof. unfold recreate_branch. keeps_auto. Qed.
#[local] Hint Resolve keeps_recreate_branch : rkeeps.

Lemma keeps_restructure o feedback : keeps o (startRestructureRetryLocked E o feedback).
Proof.
  unfold startRestructureRetryLocked, resetCurrentStoryForRestructureLocked, reopenStoriesFromPlan. keeps_auto.
Qed.
#[local] Hint Resolve keeps_restructure : rkeeps.

Lemma merge_mild x verdicts : mild x (mergeCurrentStoryScenarioVerdicts x verdicts).
Proof. unfold mergeCurrentStoryScenarioVerdicts. destruct (bool_decide _); by split. Qed.
#[local] Hint Resolve merge_mild : rkeeps.

Lemma keeps_reviewerComplete o outcome raw : keeps o (handleRequirementReviewerCompleteLocked E o outcome raw).
Proof.
  unfold handleRequirementReviewerCompleteLocked, handleInvalidRequirementReviewResultLocked. keeps_auto.
Qed.
End pipeline.

(** ** Recovery *)

Ltac logs_step :=
  first
    [ match goal with
      | |- logs (mret _) => apply logs_ret
      | |- logs (rexec _) => apply logs_rexec
      | |- logs (rtick _) => apply logs_rtick
      | |- logs (rsend _ _) => by apply logs_rsend
      | |- logs (rmodify _) => by apply logs_log
      | |- logs (_ ≫= _) => apply logs_bind; [|intros ?]
      | |- logs (if ?b then _ else _) => destruct b
      | |- logs (match ?x with _ => _ end) => destruct x
      end
    | assumption ].

Ltac logs_auto := repeat logs_step.

Section recovery.
Context (E : ReqEnv).

Lemma logs_loadPlan slug : logs (loadPlanFromKV E slug).
Proof. unfold loadPlanFromKV. logs_auto. Qed.

Lemma logs_load_row want slug id : logs (load_row E want slug id).
Proof. unfold load_row. logs_auto. Qed.

Lemma logs_walk slug id steps : logs (walk_story E slug id steps).
Proof. induction steps as [|st steps IH]; cbn [walk_story]; unfold ClaimStoryStatus; logs_auto. Qed.

Lemma logs_reopen slug plan ids n : logs (reopen_stories E slug plan ids n).
Proof.
  revert n. induction ids as [|id ids IH]; intros n; cbn [reopen_stories]; [apply logs_ret|].
  destruct (findStoryByID plan id); [|done]. apply logs_bind; [apply logs_walk|done].
Qed.

Lemma logs_reopenOwned o : logs (reopenOwnedStoriesForRecoveryLocked E o).
Proof.
  unfold reopenOwnedStoriesForRecoveryLocked, reopenStoriesFromPlan. destruct (negb _); [apply logs_ret|].
  apply logs_bind; [apply logs_rexec|intros x]. apply logs_bind; [apply logs_loadPlan|intros r].
  destruct r as [[plan|]|]; try apply logs_ret. case_match; [apply logs_ret|].
  apply logs_bind; [apply logs_reopen|intros; apply logs_ret].
Qed.

Lemma logs_pending slug id : logs (hasPendingRecoveryDecision E slug id).
Proof. unfold hasPendingRecoveryDecision. logs_auto. Qed.

Lemma logs_cycles slug id : logs (countAcceptedRecoveryCyclesForReq E slug id).
Proof. unfold countAcceptedRecoveryCyclesForReq. logs_auto. Qed.

Lemma logs_coAffected slug affected : logs (coAffectedDependents E slug affected).
Proof.
  unfold coAffectedDependents. destruct (bool_decide _); [apply logs_ret|].
  apply logs_bind; [apply logs_loadPlan|intros; apply logs_ret].
Qed.

(** An execution that is about to be resumed or to wait again: all is well
    but the timer of its recovery. *)
Record resumable (o : nat) (w : RWorld) : Prop := {
  rs_inv : rinv_but E (Some o) w;
  rs_has : has o w;
  rs_active : ∀ k, rwActive w !! k = Some o → qTerminated (cell w o) = false ∧
    ∀ t, qTimeoutTimer (cell w o) = Some t → rwTimers w !! t = Some (TimeoutOf o) }.

Lemma logged_resumable o w w' : logged w w' → resumable o w → resumable o w'.
Proof.
  intros Hl [H1 H2 H3]. split; [by eapply logged_rinv|by eapply logged_has|].
  rewrite (logged_cell o w w') by done. destruct Hl as [_ _ -> -> _ _]. done.
Qed.

Lemma rinv_resumable o w : rinv E w → has o w → resumable o w.
Proof.
  intros Hi Ho. split; [by apply rinv_weaken|done|]. intros k Hk.
  destruct (ri_active _ _ _ Hi k o Hk) as (x & Hx & _ & [?|[? ? ? ?]]); [done|].
  rewrite has_cell in Hx by done. injection Hx as <-. done.
Qed.

(** Updates that keep the identity and the timers and do not end it. *)
Lemma resumable_updr o f w :
  resumable o w → qEntityID (f (cell w o)) = qEntityID (cell w o) →
  qTimeoutTimer (f (cell w o)) = qTimeoutTimer (cell w o) →
  qRecoveryTimer (f (cell w o)) = qRecoveryTimer (cell w o) ∨ qRecoveryTimer (f (cell w o)) = None →
  (0 ≤ qRecoveryRestarts (f (cell w o)) ≤ restart_limit E)%Z →
  (qTerminated (cell w o) = false → qTerminated (f (cell w o)) = false) →
  resumable o (updr o f w).1.
Proof.
  intros [H1 H2 H3] Ek Et Er Hs Hl. split; [|by apply has_updr|].
  - apply rinv_updr; [done..| |by left]. intros [? ? ? ?]. split; [done|by rewrite Et| |done].
    destruct Er as [-> | ->]; done.
  - intros k Hk. rewrite cell_updr, Et. destruct (H3 k Hk). auto.
Qed.

(** Not waiting, it is as it should be. *)
Lemma resumable_rinv o w : resumable o w → qAwaitingRecovery (cell w o) = false → rinv E w.
Proof.
  intros [[H1 H2 H3 H4 H5 H6] Ho Ha] Hw. split; try done. intros k o' Hk.
  destruct (H2 k o' Hk) as (x & Hx & Hk' & Hd). exists x. split_and!; [done..|right].
  destruct Hd as [[= <-]|?]; [|done]. destruct (Ha k Hk) as [Hl Ht].
  rewrite has_cell in Hx by done. injection Hx as <-. split; [done..|]. by rewrite Hw.
Qed.

Lemma resumable_arm o w :
  resumable o w →
  (∀ k, rwActive w !! k = Some o → qAwaitingRecovery (cell w o) = true → may_restart E (qRecoveryRestarts (cell w o))) →
  rinv E (arm_recovery o w).1 ∧ has o (arm_recovery o w).1.
Proof. intros [H1 H2 H3] Hm. by apply (rinv_arm_recovery E (Some o)); [..|by left| |]. Qed.

Lemma resumable_cell o w : resumable o w → cell_ok E w o (cell w o).
Proof. intros [H1 H2 _]. apply (ri_cells _ _ _ H1). by apply has_cell. Qed.

Lemma resumable_stop o w : resumable o w → resumable o (stop (qRecoveryTimer (cell w o)) w).1.
Proof.
  intros Hr. pose proof (resumable_cell o w Hr) as [_ Ht Hrec _]. destruct Hr as [H1 H2 H3].
  split; [by apply rinv_stop; [..|right]|by unfold has; rewrite heap_stop|].
  rewrite active_stop, (cell_heap w) by apply heap_stop. intros k Hk. destruct (H3 k Hk) as [Hl Hm].
  split; [done|]. intros t Et. destruct (qRecoveryTimer (cell w o)) as [t'|] eqn:Er; [|auto].
  cbn. rewrite lookup_delete_ne; [auto|]. intros ->. specialize (Hm t Et).
  destruct (Hrec t eq_refl) as [_ [?|?]]; congruence.
Qed.

Lemma may_restart_bound n : (0 ≤ n)%Z → may_restart E n → (0 ≤ n + 1 ≤ restart_limit E)%Z.
Proof. unfold may_restart, restart_limit. lia. Qed.

Lemma keeps_resume_rest o key :
  keeps_but E None o (
    updr o (λ x, set_qSortedStoryIDs [] (set_qCurrentStoryIdx 0 (reset_graph x)));;
    sendMutation E (QNodeResults (MkReqResetNodeResultsRequest key []));;
    updr o (λ x, set_qRetryCount 0 (reset_review x));;
    recreate_branch E o;;
    sendMutation E (QPhase (phase_request key "decomposing"));;
    dispatchSynthesizerLocked E o).
Proof.
  pose proof (keeps_recreate_branch E o). pose proof (keeps_dispatchSynthesizer E o). keeps_auto.
Qed.

Lemma resume_ok o w :
  resumable o w → may_restart E (qRecoveryRestarts (cell w o)) →
  rinv E (resumeFromRecoveryLocked E o w).1 ∧ has o (resumeFromRecoveryLocked E o w).1.
Proof.
  intros Hr Hm. unfold resumeFromRecoveryLocked. rewrite R_bind_eq.
  pose proof (logs_reopenOwned o w) as Hl. set (w1 := (reopenOwnedStoriesForRecoveryLocked E o w).1) in *.
  pose proof (logged_resumable o w w1 Hl Hr) as H1. pose proof (logged_cell o w w1 Hl) as Ec.
  pose proof (co_restarts _ _ _ _ (resumable_cell o w1 H1)) as Hs.
  destruct (rqNats E && _).
  - rewrite R_bind_eq. apply resumable_arm.
    + apply resumable_updr; auto.
    + intros k _ _. rewrite cell_updr, Ec. done.
  - rewrite R_bind_eq. cbn [rexec fst snd]. rewrite R_bind_eq. apply resumable_stop in H1 as H2.
    set (w2 := (stop _ w1).1) in *. rewrite R_bind_eq.
    apply keeps_resume_rest; [|by apply has_updr, H2]. apply (resumable_rinv o); [|by rewrite cell_updr].
    assert (Ec2 : cell w2 o = cell w1 o) by (apply cell_heap, heap_stop).
    apply resumable_updr; auto. cbn. rewrite Ec2. apply may_restart_bound; [lia|by rewrite Ec].
Qed.

(** The recovery timer of [o] has fired: it is gone, the rest is as before. *)
Lemma recovery_timeout_ok o w :
  resumable o w →
  (∀ k, rwActive w !! k = Some o → qAwaitingRecovery (cell w o) = true → may_restart E (qRecoveryRestarts (cell w o))) →
  rinv E (handleRecoveryTimeout E o w).1.
Proof.
  intros Hr Hm. unfold handleRecoveryTimeout. rewrite R_bind_eq. cbn [rexec fst snd].
  destruct (qAwaitingRecovery (cell w o)) eqn:Ew; [|by eapply resumable_rinv]. cbn [negb]. rewrite R_bind_eq.
  pose proof (logs_pending (qSlug (cell w o)) (qRequirementID (cell w o)) w) as Hl.
  set (r := hasPendingRecoveryDecision E _ _ w) in *.
  pose proof (logged_resumable o w r.1 Hl Hr) as H1. pose proof (logged_cell o w r.1 Hl) as Ec.
  pose proof (co_restarts _ _ _ _ (resumable_cell o r.1 H1)) as Hs.
  assert (Hgive : ∀ w', resumable o w' → rinv E (stop_waiting E o w').1).
  { intros w' Hr'. unfold stop_waiting. rewrite !R_bind_eq. cbn [rexec fst snd].
    pose proof (co_restarts _ _ _ _ (resumable_cell o w' Hr')) as Hs'.
    apply (keeps_markFailed E); [|by apply has_updr, Hr'].
    apply (resumable_rinv o); [by apply resumable_updr; auto|by rewrite cell_updr]. }
  assert (Harm : ∀ f, (∀ x, qEntityID (f x) = qEntityID x ∧ qTimeoutTimer (f x) = qTimeoutTimer x ∧
      qRecoveryTimer (f x) = qRecoveryTimer x ∧ qRecoveryRestarts (f x) = qRecoveryRestarts x ∧
      qTerminated (f x) = qTerminated x) → resumable o (updr o f r.1).1 ∧ rinv E (arm_recovery o (updr o f r.1).1).1).
  { intros f Hf. destruct (Hf (cell r.1 o)) as (E1 & E2 & E3 & E4 & E5).
    assert (H2 : resumable o (updr o f r.1).1) by (apply resumable_updr; rewrite ?E3, ?E4, ?E5; auto).
    split; [done|]. apply resumable_arm; [done|]. intros k Hk _. rewrite cell_updr, E4, Ec.
    apply (Hm k); [|done]. cbn in Hk. by rewrite (lg_active _ _ Hl) in Hk. }
  destruct r.2 as [[]|]; rewrite R_bind_eq; [by apply Harm|by apply Hgive, Harm|].
  case_bool_decide; [by apply Hgive, Harm|by apply Harm].
Qed.

(** ** Programs on all executions *)

Definition keepsw {A} (m : R A) : Prop := ∀ w, rinv E w → rinv E (m w).1.

Lemma keepsw_bind {A B} (m : R A) (f : A → R B) : keepsw m → (∀ x, keepsw (f x)) → keepsw (m ≫= f).
Proof. intros Hm Hf w Hi. rewrite R_bind_eq. apply Hf, Hm, Hi. Qed.

Lemma keepsw_ret {A} (x : A) : keepsw (mret x).
Proof. by intros w. Qed.

Lemma keepsw_rread : keepsw rread.
Proof. by intros w. Qed.

Lemma keepsw_logs {A} (m : R A) : logs m → keepsw m.
Proof. intros Hm w. by apply logged_rinv. Qed.

Lemma logs_sendMutation m : msg_ok (m, true) → logs (sendMutation E m).
Proof. intros. unfold sendMutation. logs_auto. Qed.

Lemma logs_call_sandbox m : msg_ok (m, true) → logs (call_sandbox E m).
Proof. intros. unfold call_sandbox. logs_auto. Qed.

(** An active execution exists. *)
Lemma active_has w k o : rinv E w → rwActive w !! k = Some o → has o w.
Proof. intros Hi Hk. destruct (ri_active _ _ _ Hi k o Hk) as (x & Hx & _). by exists x. Qed.

Lemma active_cell w k o : rinv E w → rwActive w !! k = Some o → active_ok E w k o (cell w o).
Proof.
  intros Hi Hk. pose proof (active_has w k o Hi Hk) as Ho.
  destruct (ri_active _ _ _ Hi k o Hk) as (x & Hx & _ & [?|?]); [done|].
  rewrite has_cell in Hx by done. by injection Hx as <-.
Qed.

Lemma abandon_ends o : ends E o (abandon E o).
Proof.
  intros w Hi Ho. unfold abandon. rewrite R_bind_eq.
  set (w1 := (updr o (λ x, set_qAwaitingRecovery false (set_qTerminated true x)) w).1).
  assert (H1 : rinv_but E (Some o) w1).
  { apply rinv_updr; [by apply rinv_weaken|done|done| |by left]. intros [? ? ? ?]. by split. }
  destruct (cleanup_ends E o false w1 H1) as (H2 & Ho2 & E2); [by apply has_updr|].
  split_and!; [done..|]. rewrite E2. unfold w1. by rewrite cell_updr.
Qed.

(** A search changes nothing and finds what it looks for. *)
Lemma find_among_spec keys p w :
  (find_among keys p w).1 = w ∧
  match (find_among keys p w).2 with
  | Some o => ∃ k, k ∈ keys ∧ rwActive w !! k = Some o ∧ p (cell w o) = true
  | None => ∀ k o, k ∈ keys → rwActive w !! k = Some o → p (cell w o) = false
  end.
Proof.
  induction keys as [|key keys IH]; cbn [find_among]; [split; [done|set_solver]|].
  rewrite R_bind_eq. cbn [rread fst snd]. destruct (rwActive w !! key) as [o|] eqn:Ek.
  - destruct (p (cell w o)) eqn:Ep; cbn.
    + split; [done|]. exists key. set_solver.
    + destruct IH as [E1 IH]. split; [done|]. destruct (find_among keys p w).2 as [o'|]; [set_solver|].
      intros k o' [->|Hk]%elem_of_cons Ha; [congruence|eauto].
  - destruct IH as [E1 IH]. split; [done|]. destruct (find_among keys p w).2 as [o'|]; [set_solver|].
    intros k o' [->|Hk]%elem_of_cons Ha; [congruence|eauto].
Qed.

Lemma find_active_spec p w :
  (find_active E p w).1 = w ∧
  match (find_active E p w).2 with
  | Some o => ∃ k, rwActive w !! k = Some o ∧ p (cell w o) = true
  | None => ∀ k o, k ∈ rqKeys E (rwTick w) (dom (rwActive w)) → rwActive w !! k = Some o → p (cell w o) = false
  end.
Proof.
  unfold find_active, active_keys. rewrite R_bind_eq. cbn [fst snd].
  destruct (find_among_spec (rqKeys E (rwTick w) (dom (rwActive w))) p w) as [E1 H].
  split; [done|]. destruct (find_among _ p w).2; [naive_solver|done].
Qed.

(** A found execution is handed to a program that keeps the invariant. *)
Lemma keepsw_found {A} p (f : option nat → R A) :
  keepsw (f None) → (∀ o w, rinv E w → has o w → p (cell w o) = true → (∃ k, rwActive w !! k = Some o) →
    rinv E (f (Some o) w).1) → keepsw (find_active E p ≫= f).
Proof.
  intros Hn Hs w Hi. rewrite R_bind_eq. destruct (find_active_spec p w) as [-> H].
  destruct (find_active E p w).2 as [o|]; [|by apply Hn].
  destruct H as (k & Hk & Hp). apply Hs; [done|by eapply active_has|done|eauto].
Qed.

Lemma keepsw_abandonLive slug id : keepsw (abandonLiveExecForRequirement E slug id).
Proof.
  apply keepsw_found; [apply keepsw_ret|]. intros o w Hi Ho _ _. rewrite R_bind_eq. by apply abandon_ends.
Qed.

Lemma keepsw_abandon_keys slug keys : keepsw (abandon_keys E slug keys).
Proof.
  induction keys as [|key keys IH]; cbn [abandon_keys]; [apply keepsw_ret|].
  intros w Hi. rewrite R_bind_eq. cbn [rread fst snd]. rewrite R_bind_eq. apply IH.
  destruct (rwActive w !! key) as [o|] eqn:Ek; [|done]. destruct (qSlug (cell w o) =? slug); [|done].
  apply abandon_ends; [done|by eapply active_has].
Qed.

Lemma keepsw_active_keys : keepsw (active_keys E).
Proof. by intros w. Qed.

Lemma keepsw_abandon_requirements slug ids : keepsw (abandon_requirements E slug ids).
Proof.
  induction ids as [|id ids IH]; cbn [abandon_requirements]; [apply keepsw_ret|].
  apply keepsw_bind; [apply keepsw_abandonLive|done].
Qed.

Lemma keepsw_abandonExecs slug ids : keepsw (abandonExecsForRequirements E slug ids).
Proof.
  unfold abandonExecsForRequirements, abandonExecsForSlug. destruct (is_nil ids).
  - apply keepsw_bind; [apply keepsw_active_keys|intros; apply keepsw_abandon_keys].
  - apply keepsw_abandon_requirements.
Qed.

Lemma keepsw_reset_dependents slug deps : keepsw (reset_dependents E slug deps).
Proof.
  induction deps as [|d deps IH]; cbn [reset_dependents]; [apply keepsw_ret|].
  apply keepsw_bind; [apply keepsw_abandonLive|intros _].
  apply keepsw_bind; [by apply keepsw_logs, logs_sendMutation|intros _].
  apply keepsw_bind; [by apply keepsw_logs, logs_call_sandbox|intros _].
  apply keepsw_bind; [by apply keepsw_logs, logs_call_sandbox|done].
Qed.

Lemma keepsw_invalidate o : keepsw (invalidateDependentBranchSubtreeLocked E o).
Proof.
  unfold invalidateDependentBranchSubtreeLocked. destruct (negb _); [apply keepsw_ret|].
  apply keepsw_bind; [apply keepsw_logs, logs_rexec|intros x].
  apply keepsw_bind; [apply keepsw_logs, logs_loadPlan|intros r].
  destruct r as [[plan|]|]; try apply keepsw_ret. apply keepsw_reset_dependents.
Qed.

(** ** New executions *)

Record fresh_req (x : requirementExecution) : Prop := {
  fr_live : qTerminated x = false;
  fr_timeout : qTimeoutTimer x = None;
  fr_recovery : qRecoveryTimer x = None;
  fr_awaiting : qAwaitingRecovery x = false;
  fr_restarts : qRecoveryRestarts x = 0%Z }.

Lemma rinv_alloc x w : rinv E w → fresh_req x → rinv E (alloc x w).1.
Proof.
  intros [H1 H2 H3 H4 H5 H6] [F1 F2 F3 F4 F5].
  assert (Hold : ∀ o y, rwHeap w !! o = Some y → <[rwNext w := x]> (rwHeap w) !! o = Some y).
  { intros o y Hy. rewrite lookup_insert_ne; [done|]. pose proof (co_next _ _ _ _ (H1 o y Hy)). lia. }
  assert (Hhas : ∀ o, is_Some (rwHeap w !! o) → is_Some (<[rwNext w := x]> (rwHeap w) !! o)).
  { intros o [y Hy]. exists y. auto. }
  split; cbn; try done.
  - intros o y [[<- <-]|[Hne Hy]]%lookup_insert_Some.
    + split; cbn; [lia|by rewrite F2|by rewrite F3|rewrite F5; unfold restart_limit; lia].
    + apply (cell_ok_ext E w); cbn; [lia|by right|by apply H1].
  - intros k o Hk. destruct (H2 k o Hk) as (y & Hy & Hk' & [?|Hd]); [done|]. exists y. split_and!; [by apply Hold|done|right].
    by apply (active_ok_ext E w).
  - eauto.
  - intros t m Ht. specialize (H4 t m Ht). lia.
  - eauto.
Qed.

Lemma cell_alloc x w : cell (alloc x w).1 (rwNext w) = x.
Proof. unfold cell. cbn. by rewrite lookup_insert_eq. Qed.

Lemma has_alloc x w o : has o w → has o (alloc x w).1.
Proof. unfold has. cbn. intros H. apply lookup_insert_is_Some. destruct (decide (rwNext w = o)); auto. Qed.

Lemma rinv_activate o w k :
  rinv E w → has o w → active_ok E w k o (cell w o) → rinv E (set_rwActive (<[k := o]> (rwActive w)) w).
Proof.
  intros [H1 H2 H3 H4 H5 H6] Ho Ha. split; cbn; try done.
  - intros o' x Hx. apply (cell_ok_ext E w); [done|by right|by apply H1].
  - intros k' o' [[<- <-]|[Hne Hk]]%lookup_insert_Some.
    + exists (cell w o). split_and!; [by apply has_cell|apply Ha|right]. by apply (active_ok_ext E w).
    + destruct (H2 k' o' Hk) as (x & Hx & Hk' & [?|Hd]); [done|]. exists x. split_and!; [done..|right].
      by apply (active_ok_ext E w).
Qed.

Lemma fresh_active w o x : fresh_req x → active_ok E w (qEntityID x) o x.
Proof. intros [F1 F2 F3 F4 F5]. split; [done..|by rewrite F2|by rewrite F4]. Qed.

(** A new execution enters the cache. *)
Lemma rinv_enter x w :
  rinv E w → fresh_req x →
  let w' := set_rwActive (<[qEntityID x := rwNext w]> (rwActive w)) (alloc x w).1 in
  rinv E w' ∧ has (rwNext w) w' ∧ cell w' (rwNext w) = x.
Proof.
  intros Hi Hf w'. assert (Ho : has (rwNext w) (alloc x w).1) by (exists x; cbn; apply lookup_insert_eq).
  split_and!; [|done|apply cell_alloc].
  apply (rinv_activate (rwNext w) (alloc x w).1 (qEntityID x)); [by apply rinv_alloc|done|].
  rewrite cell_alloc. by apply fresh_active.
Qed.

Lemma rebuild_fresh key r : fresh_req (rebuildExecFromKV E key r).
Proof. by split. Qed.
Lemma new_fresh key r : fresh_req (new_execution E key r).
Proof. by split. Qed.
Lemma graph_fresh g : fresh_req (graph_exec g).
Proof. by split. Qed.

Lemma load_row_fresh want slug id w x : (load_row E want slug id w).2 = Some x → fresh_req x.
Proof.
  unfold load_row. destruct (negb _); [done|]. rewrite R_bind_eq. cbn. case_match; [done..|].
  case_match; [|done]. intros [= <-]. apply rebuild_fresh.
Qed.

(** ** The handlers *)

Lemma resume_terminal_ok o proposal w :
  rinv E w → has o w → fresh_req (cell w o) → rinv E (resumeTerminalForRecoveryLocked E o proposal w).1.
Proof.
  intros Hi Ho [F1 F2 F3 F4 F5]. unfold resumeTerminalForRecoveryLocked. rewrite !R_bind_eq.
  apply keepsw_invalidate, resume_ok.
  - apply resumable_updr; [by apply rinv_resumable|done..|by left| |done].
    cbn. rewrite F5. unfold restart_limit. lia.
  - rewrite cell_updr. cbn. left. done.
Qed.

Lemma keepsw_resume_requirement slug proposal id : keepsw (resume_requirement E slug proposal id).
Proof.
  apply keepsw_found.
  - intros w Hi. rewrite R_bind_eq. pose proof (load_row_fresh IsTerminalReqStage slug id w) as Hf.
    pose proof (logs_load_row IsTerminalReqStage slug id w) as Hl. fold (loadTerminalReqExecFromKV E) in *.
    set (r := loadTerminalReqExecFromKV E slug id w) in *. pose proof (logged_rinv _ _ _ _ Hl Hi) as H1.
    destruct r.2 as [x|]; [|done]. specialize (Hf x eq_refl). rewrite R_bind_eq.
    pose proof (logged_rinv _ _ _ _ (logs_cycles slug id r.1) H1) as H2.
    set (r2 := countAcceptedRecoveryCyclesForReq E slug id r.1) in *. case_bool_decide; [done|].
    rewrite !R_bind_eq. cbn [rmodify fst snd]. destruct (rinv_enter x r2.1 H2 Hf) as (H3 & Ho3 & E3).
    pose proof (resume_terminal_ok _ proposal _ H3 Ho3) as G. rewrite E3 in G. exact (G Hf).
  - intros o w Hi Ho Hp [k Hk]. unfold awaiting_for in Hp. apply andb_true_iff in Hp as [Hp _].
    apply resume_ok; [by apply rinv_resumable|]. by apply (ao_awaiting _ _ _ _ _ (active_cell w k o Hi Hk)).
Qed.

Lemma keepsw_resume_requirements slug proposal skip ids : keepsw (resume_requirements E slug proposal skip ids).
Proof.
  induction ids as [|id ids IH]; cbn [resume_requirements]; [apply keepsw_ret|].
  apply keepsw_bind; [|done]. case_bool_decide; [apply keepsw_ret|apply keepsw_resume_requirement].
Qed.

Lemma keepsw_accepted evt : keepsw (handlePlanDecisionAccepted E evt).
Proof.
  unfold handlePlanDecisionAccepted. destruct (_ =? _); [apply keepsw_ret|].
  destruct (replans _); [apply keepsw_abandonExecs|].
  apply keepsw_bind; [apply keepsw_logs, logs_coAffected|intros; apply keepsw_resume_requirements].
Qed.

Lemma keepsw_loop loop : keepsw (handleLoopEntityUpdate E loop).
Proof.
  unfold handleLoopEntityUpdate, findExecByTaskID. destruct (_ || _); [apply keepsw_ret|].
  apply keepsw_found; [apply keepsw_ret|]. intros o w Hi Ho _ _. rewrite R_bind_eq. cbn [rexec fst snd].
  destruct (qTerminated _); [done|]. destruct (_ =? _); [|done]. by apply (keeps_reviewerComplete E).
Qed.

(** The execution at a key is ended without more ado. *)
Lemma evict_ok key o' w :
  rinv E w → rwActive w !! key = Some o' →
  let x := cell w o' in
  let w' := ((updr o' (set_qTerminated true);; stop (qTimeoutTimer x);; stop (qRecoveryTimer x);;
              rmodify (λ w, set_rwActive (delete key (rwActive w)) w)) w).1 in
  rinv E w' ∧ ∀ o, has o w → has o w'.
Proof.
  intros Hi Hk x w'. subst w'. pose proof (active_has w key o' Hi Hk) as Ho.
  pose proof (ri_cells _ _ _ Hi o' x (has_cell o' w Ho)) as [_ Ht Hr _].
  rewrite !R_bind_eq. cbn [rmodify fst snd]. set (w1 := (updr o' (set_qTerminated true) w).1).
  assert (H1 : rinv_but E (Some o') w1) by (apply rinv_terminate; [by apply rinv_weaken|done]).
  assert (Ho1 : has o' w1) by (by apply has_updr).
  assert (H2 : rinv_but E (Some o') (stop (qTimeoutTimer x) w1).1) by (apply rinv_stop; [done..|by left]).
  set (w2 := (stop (qTimeoutTimer x) w1).1) in *.
  assert (E2 : rwHeap w2 = rwHeap w1) by apply heap_stop.
  assert (Ho2 : has o' w2) by (unfold has; by rewrite E2).
  assert (Hr2 : own_timer w2 (qRecoveryTimer x) (RecoveryOf o')) by (by apply own_timer_stop).
  assert (H3 : rinv_but E (Some o') (stop (qRecoveryTimer x) w2).1) by (apply rinv_stop; [done..|by right]).
  set (w3 := (stop (qRecoveryTimer x) w2).1) in *.
  assert (E3 : rwHeap w3 = rwHeap w1) by (unfold w3; by rewrite heap_stop).
  assert (Ho3 : has o' w3) by (unfold has; by rewrite E3).
  split.
  - pose proof (rinv_evict E o' w3 H3 Ho3) as H4. rewrite (cell_heap w1 w3 o' E3) in H4.
    unfold w1 in H4 at 1. rewrite cell_updr in H4. cbn [qEntityID set_qTerminated] in H4.
    by rewrite (ao_key _ _ _ _ _ (active_cell w key o' Hi Hk)) in H4.
  - intros o Hh. unfold has. cbn. rewrite E3. by apply has_updr.
Qed.

Lemma evict_same_ok o keys w :
  rinv E w → has o w → rinv E (evict_same o keys w).1 ∧ has o (evict_same o keys w).1.
Proof.
  revert w. induction keys as [|key keys IH]; intros w Hi Ho; cbn [evict_same]; [done|].
  rewrite R_bind_eq. cbn [rread fst snd]. rewrite R_bind_eq.
  destruct (rwActive w !! key) as [o'|] eqn:Ek; [|by apply IH]. cbv zeta. destruct (negb _ && _); [|by apply IH].
  destruct (evict_ok key o' w Hi Ek) as [H1 H2]. apply IH; [done|by apply H2].
Qed.

(** The other executions of the requirement go; the cell of [o] stays. *)
Lemma evict_same_cell o keys w : cell (evict_same o keys w).1 o = cell w o.
Proof.
  revert w. induction keys as [|key keys IH]; intros w; cbn [evict_same]; [done|].
  rewrite R_bind_eq. cbn [rread fst snd]. rewrite R_bind_eq.
  destruct (rwActive w !! key) as [o'|] eqn:Ek; [|by apply IH]. cbv zeta.
  destruct (negb (bool_decide (o' = o))) eqn:En; [|by apply IH]. cbn [andb].
  destruct (of_requirement _ _ _); [|by apply IH]. rewrite IH. rewrite !R_bind_eq. cbn [rmodify fst snd].
  unfold cell at 1. cbn. rewrite !heap_stop. cbn. rewrite lookup_insert_ne; [done|].
  intros ->. by rewrite bool_decide_true in En.
Qed.

Lemma recoverExec_ok t w :
  rinv E w →
  rinv E (recoverExecForTerminalTaskCompletion E t w).1 ∧
  ∀ o, (recoverExecForTerminalTaskCompletion E t w).2 = Some o → has o (recoverExecForTerminalTaskCompletion E t w).1.
Proof.
  intros Hi. unfold recoverExecForTerminalTaskCompletion. destruct (_ || _); [done|]. rewrite R_bind_eq.
  pose proof (load_row_fresh (λ stage, negb (IsTerminalReqStage stage)) (teSlug t) (teRequirementID t) w) as Hf.
  pose proof (logs_load_row (λ stage, negb (IsTerminalReqStage stage)) (teSlug t) (teRequirementID t) w) as Hl.
  fold (loadNonTerminalReqExecFromKV E) in *. set (r := loadNonTerminalReqExecFromKV E _ _ w) in *.
  pose proof (logged_rinv _ _ _ _ Hl Hi) as H1. destruct r.2 as [x|]; [|done]. specialize (Hf x eq_refl).
  destruct (_ !=? _); [done|]. rewrite R_bind_eq.
  assert (H2 : rinv E (alloc x r.1).1) by (by apply rinv_alloc).
  assert (Ho2 : has (rwNext r.1) (alloc x r.1).1) by (exists x; cbn; apply lookup_insert_eq).
  pose proof (cell_alloc x r.1) as E2. set (w2 := (alloc x r.1).1) in *. cbn [alloc snd]. set (o := rwNext r.1) in *.
  unfold replaceActiveExecForRequirement. rewrite !R_bind_eq. cbn [active_keys fst snd].
  destruct (evict_same_ok o (rqKeys E (rwTick w2) (dom (rwActive w2))) w2 H2 Ho2) as [H3 Ho3].
  pose proof (evict_same_cell o (rqKeys E (rwTick w2) (dom (rwActive w2))) w2) as E3.
  set (w3 := (evict_same o _ w2).1) in *. rewrite E2 in E3. cbn [rexec rmodify mret R_ret fst snd].
  split; [|by intros ? [= <-]]. apply rinv_activate; [done..|]. rewrite E3. by apply fresh_active.
Qed.

Lemma keepsw_task t : keepsw (handleTaskStateChange E t).
Proof.
  intros w Hi. unfold handleTaskStateChange, findExecByTaskID. destruct (_ || _); [done|].
  rewrite R_bind_eq. destruct (find_active_spec (λ x, (qCurrentNodeTaskID x =? teTaskID t) || (qReviewerTaskID x =? teTaskID t)) w)
    as [-> Hfound].
  assert (Hrest : ∀ o w', rinv E w' → has o w' → rinv E ((x ← rexec o;
      if qTerminated x then mret () else
      if teTaskID t !=? qCurrentNodeTaskID x then mret ()
      else handleNodeCompleteLocked E o (task_outcome t) (task_payload t)) w').1).
  { intros o w' Hi' Ho'. rewrite R_bind_eq. cbn [rexec fst snd]. destruct (qTerminated _); [done|].
    destruct (_ !=? _); [done|]. by apply (keeps_nodeComplete E). }
  destruct (find_active E _ w).2 as [o|]; rewrite R_bind_eq.
  - destruct Hfound as (k & Hk & _). apply Hrest; [done|by eapply active_has].
  - destruct (recoverExec_ok t w Hi) as [H1 H2].
    destruct (recoverExecForTerminalTaskCompletion E t w).2 as [o|] eqn:Er; [|done]. apply Hrest; auto.
Qed.

Lemma logs_claim key from to : logs (claimExecution E key from to).
Proof. unfold claimExecution. logs_auto. Qed.

Lemma keepsw_pending key r : keepsw (handleReqPending E key r).
Proof.
  intros w Hi. unfold handleReqPending. destruct (_ !=? _); [done|].
  rewrite R_bind_eq. pose proof (logs_claim key "pending" "decomposing" w) as Hl.
  set (c := claimExecution E key "pending" "decomposing" w) in *.
  pose proof (logged_rinv _ _ _ _ Hl Hi) as H1. destruct (negb c.2); [done|].
  rewrite R_bind_eq. cbn [rread fst snd]. case_bool_decide; [done|]. rewrite R_bind_eq. cbn [alloc rmodify fst snd].
  destruct (rinv_enter (new_execution E key r) c.1 H1 (new_fresh key r)) as (H2 & Ho2 & E2). cbv zeta in *.
  set (w2 := set_rwActive _ _) in *. destruct H2 as [G1 G2 G3 G4 G5 G6]. split; try done.
  - intros o x Hx. apply (cell_ok_ext E w2); [done|by right|by apply G1].
  - intros k o Hk. destruct (G2 k o Hk) as (x & Hx & Hk' & [?|Hd]); [done|]. exists x. split_and!; [done..|right].
    by apply (active_ok_ext E w2).
  - intros o pb bb [Hin|[= -> -> ->]%list_elem_of_singleton]%elem_of_app; [by eapply (G3 o pb bb)|done].
Qed.

Lemma keeps_create_fresh o branch base : keeps_but E None o (create_fresh E branch base).
Proof.
  apply logs_keeps. unfold create_fresh, CreateBranch.
  assert (Hc : logs (call_sandbox E (QDeleteBranch branch))) by (by apply logs_call_sandbox). logs_auto.
Qed.

Lemma keeps_loadScope o slug : keeps_but E None o (loadPlanScope E slug).
Proof. apply logs_keeps. unfold loadPlanScope. logs_auto. Qed.

Lemma keeps_init o planBranch baseBranch : keeps_but E None o (initReqExecution E o planBranch baseBranch).
Proof.
  pose proof (keeps_dispatchSynthesizer E o). pose proof (λ s, keeps_loadScope o s).
  pose proof (λ b b', keeps_create_fresh o b b').
  unfold initReqExecution, start_execution. repeat (keeps_step || auto).
Qed.

Lemma keeps_resume_interrupted o : keeps_but E None o (resume_interrupted E o).
Proof.
  pose proof (keeps_dispatchSynthesizer E o). pose proof (keeps_dispatchNextNode E o).
  pose proof (keeps_dispatchReviewer E o). unfold resume_interrupted. repeat (keeps_step || auto).
Qed.

Lemma keepsw_resume_keys keys : keepsw (resume_keys E keys).
Proof.
  induction keys as [|key keys IH]; cbn [resume_keys]; [apply keepsw_ret|].
  intros w Hi. rewrite R_bind_eq. cbn [rread fst snd]. rewrite R_bind_eq. apply IH.
  destruct (rwActive w !! key) as [o|] eqn:Ek; [|done]. apply keeps_resume_interrupted; [done|by eapply active_has].
Qed.

Lemma rinv_starting l w : rinv E w → l ⊆ rwStarting w → rinv E (set_rwStarting l w).
Proof.
  intros [G1 G2 G3 G4 G5 G6] Hl. split; try done.
  - intros o x Hx. apply (cell_ok_ext E w); [done|by right|by apply G1].
  - intros k o Hk. destruct (G2 k o Hk) as (x & Hx & Hk' & [?|Hd]); [done|]. exists x. split_and!; [done..|right].
    by apply (active_ok_ext E w).
  - intros o pb bb Hin. by eapply (G3 o pb bb), Hl.
Qed.

Lemma keepsw_start i : keepsw (start_next E i).
Proof.
  intros w Hi. unfold start_next. rewrite R_bind_eq. cbn [rread fst snd].
  destruct (rwStarting w !! i) as [[[o pb] bb]|] eqn:Ei; [|done]. rewrite R_bind_eq. cbn [rmodify fst snd].
  apply keeps_init.
  - apply rinv_starting; [done|]. intros e [He|He]%elem_of_app; [by eapply subseteq_take|by eapply subseteq_drop].
  - by eapply (ri_starting _ _ _ Hi o pb bb), list_elem_of_lookup_2.
Qed.

Lemma rinv_fired t m w :
  rinv E w → rwTimers w !! t = Some m →
  let w' := set_rwTimers (delete t (rwTimers w)) w in
  rinv_but E (Some (of_timer m)) w' ∧ has (of_timer m) w'.
Proof.
  intros Hi Ht w'. assert (Ho : has (of_timer m) w) by (apply (ri_timed _ _ _ Hi t); destruct m; auto).
  split; [|done]. apply (rinv_stop E (of_timer m) (Some t) w); [by apply rinv_weaken|done|].
  pose proof (ri_timers _ _ _ Hi t m Ht). destruct m; [left|right]; intros t' [= <-]; auto.
Qed.

Lemma fired_recovery t o w :
  rinv E w → rwTimers w !! t = Some (RecoveryOf o) → resumable o (set_rwTimers (delete t (rwTimers w)) w).
Proof.
  intros Hi Ht. destruct (rinv_fired t _ w Hi Ht) as [H1 Ho1]. cbn [of_timer] in *. split; [done..|].
  intros k Hk. cbn in Hk. pose proof (active_cell w k o Hi Hk) as [_ Hl Hm _]. split; [done|].
  intros t' Et. cbn. rewrite lookup_delete_ne; [by apply Hm|]. intros <-. specialize (Hm t Et). congruence.
Qed.

Lemma keepsw_timer t : keepsw (timer_fires E t).
Proof.
  intros w Hi. unfold timer_fires. rewrite R_bind_eq. cbn [rread fst snd]. rewrite R_bind_eq. cbn [rmodify fst snd].
  destruct (rwTimers w !! t) as [[o|o]|] eqn:Et.
  - destruct (rinv_fired t _ w Hi Et) as [H1 Ho1]. cbn [of_timer] in *.
    set (w1 := set_rwTimers _ _) in *. destruct (qTerminated (cell w1 o)) eqn:El.
    + unfold markErrorLocked. rewrite R_bind_eq. cbn [rexec fst snd]. rewrite El. cbn [mret R_ret fst].
      destruct H1 as [G1 G2 G3 G4 G5 G6]. split; try done. intros k o' Hk.
      destruct (G2 k o' Hk) as (x & Hx & Hk' & Hd). exists x. split_and!; [done..|right].
      destruct Hd as [[= <-]|?]; [|done]. pose proof (ao_live _ _ _ _ _ (active_cell w k o Hi Hk)) as Hl.
      change (cell w1 o) with (cell w o) in El. congruence.
    + by apply markError_ends_but.
  - apply recovery_timeout_ok; [by apply fired_recovery|]. intros k Hk Hw. cbn in Hk.
    by apply (ao_awaiting _ _ _ _ _ (active_cell w k o Hi Hk)).
  - rewrite (delete_id _ _ Et). by destruct w.
Qed.

Lemma keepsw_expire key : keepsw (expire_active key).
Proof.
  intros w [G1 G2 G3 G4 G5 G6]. split; cbn; try done.
  - intros o x Hx. apply (cell_ok_ext E w); [done|by right|by apply G1].
  - intros k o [_ Hk]%lookup_delete_Some. destruct (G2 k o Hk) as (x & Hx & Hk' & [?|Hd]); [done|].
    exists x. split_and!; [done..|right]. by apply (active_ok_ext E w).
Qed.

Lemma rinv_step ev : keepsw (req_step E ev).
Proof.
  destruct ev; cbn [req_step].
  - apply keepsw_pending.
  - apply keepsw_start.
  - apply keepsw_loop.
  - apply keepsw_task.
  - apply keepsw_accepted.
  - apply keepsw_timer.
  - apply keepsw_bind; [apply keepsw_active_keys|intros; apply keepsw_resume_keys].
  - apply keepsw_expire.
Qed.

(** ** Start-up *)

Lemma keepsw_reconcile_key key : keepsw (reconcile_key E key).
Proof.
  intros w Hi. unfold reconcile_key. destruct (negb _); [done|]. rewrite R_bind_eq. cbn [rtick fst snd].
  assert (H1 : rinv E (set_rwTick (S (rwTick w)) w)) by (by eapply logged_rinv; [apply (logs_rtick E)|]).
  destruct (qiRow _ _) as [| | |r]; [done..|]. destruct (IsTerminalReqStage _); [done|]. rewrite !R_bind_eq.
  exact (proj1 (rinv_enter (rebuildExecFromKV E key r) _ H1 (rebuild_fresh key r))).
Qed.

Lemma keepsw_reconcile_keys keys : keepsw (reconcile_keys E keys).
Proof.
  induction keys as [|key keys IH]; cbn [reconcile_keys]; [apply keepsw_ret|].
  apply keepsw_bind; [apply keepsw_reconcile_key|intros; apply keepsw_bind; [done|intros; apply keepsw_ret]].
Qed.

Lemma keepsw_reconcile_graph entities : keepsw (reconcile_graph entities).
Proof.
  induction entities as [|g entities IH]; cbn [reconcile_graph]; [apply keepsw_ret|].
  intros w Hi. rewrite R_bind_eq. apply IH. destruct (graph_terminal _); [done|]. rewrite !R_bind_eq.
  exact (proj1 (rinv_enter (graph_exec g) _ Hi (graph_fresh g))).
Qed.

Lemma rinv_empty : rinv E (MkRWorld ∅ 0 ∅ ∅ [] 0 []).
Proof.
  split; cbn [rwHeap rwActive rwTimers rwStarting rwOut]; [| | | |intros t o [H|H]|constructor];
    try (intros ? ? H); try (by rewrite lookup_empty in H). by intros ?%not_elem_of_nil.
Qed.

Lemma rinv_start_world keys entities : rinv E (start_world E keys entities).
Proof.
  unfold start_world, reconcileFromGraph. apply (keepsw_bind (reconcileFromKV E keys)); [| |apply rinv_empty].
  - unfold reconcileFromKV. destruct (negb _); [apply keepsw_ret|apply keepsw_reconcile_keys].
  - intros []; [apply keepsw_ret|apply keepsw_reconcile_graph].
Qed.

(** The worlds of a run. *)
Definition req_reachable (w : RWorld) : Prop :=
  ∃ keys entities, rtc (rstep E) (start_world E keys entities) w.

Lemma rinv_reachable w : req_reachable w → rinv E w.
Proof.
  intros (keys & entities & Hr). eapply (rtc_closed (rstep E) (rinv E)); [|apply rinv_start_world|done].
  intros w1 w2 Hi [ev ->]. by apply rinv_step.
Qed.
End recovery.

(** ** What is sent stays sent *)

Definition grows {A} (m : R A) : Prop := ∀ w e, e ∈ rwOut w → e ∈ rwOut (m w).1.

Section sent.
Context (E : ReqEnv).

Lemma grows_bind {A B} (m : R A) (f : A → R B) : grows m → (∀ x, grows (f x)) → grows (m ≫= f).
Proof. intros Hm Hf w e He. rewrite R_bind_eq. by apply Hf, Hm. Qed.

Lemma grows_same {A} (m : R A) : (∀ w, rwOut (m w).1 = rwOut w) → grows m.
Proof. intros Hm w e He. by rewrite Hm. Qed.

Lemma grows_rsend m : grows (rsend E m).
Proof. intros w e He. unfold rsend. rewrite !R_bind_eq. cbn. apply elem_of_app. by left. Qed.

Lemma grows_sendMutation m : grows (sendMutation E m).
Proof.
  unfold sendMutation. destruct (rqNats E); [|by apply grows_same].
  apply grows_bind; [apply grows_rsend|intros; by apply grows_same].
Qed.

Lemma grows_call_sandbox m : grows (call_sandbox E m).
Proof.
  unfold call_sandbox. destruct (rqSandbox E); [|by apply grows_same].
  apply grows_bind; [apply grows_rsend|intros; by apply grows_same].
Qed.

Lemma grows_cleanup o success : grows (cleanupExecutionLocked E o success).
Proof.
  unfold cleanupExecutionLocked. apply grows_bind; [by apply grows_same|intros x].
  apply grows_bind; [apply grows_same; intros w; by destruct (qTimeoutTimer x)|intros _].
  apply grows_bind; [apply grows_same; intros w; by destruct (qRecoveryTimer x)|intros _].
  apply grows_bind; [by apply grows_same|intros _]. apply grows_bind; [|intros _; by apply grows_same].
  generalize ((if success then qNodeTaskIDs x else []) ++ if qReviewerTaskID x =? "" then [] else [qReviewerTaskID x])%list.
  intros ids. induction ids as [|id ids IH]; cbn [delete_worktrees]; [by apply grows_same|].
  apply grows_bind; [apply grows_call_sandbox|done].
Qed.

(** A request sent with a client is on record. *)
Lemma sent_sendMutation m w : rqNats E = true → ∃ ok, (m, ok) ∈ rwOut (sendMutation E m w).1.
Proof.
  intros Hn. unfold sendMutation. rewrite Hn. unfold rsend. rewrite !R_bind_eq. cbn. eexists.
  apply elem_of_app. right. by apply list_elem_of_singleton.
Qed.

Lemma markError_sent o reason w :
  rqNats E = true → qTerminated (cell w o) = false →
  ∃ ok, (QPhase (fail_request (qStoreKey (cell w o)) "error" reason (ClassifyErrorReason reason)), ok)
          ∈ rwOut (markErrorLocked E o reason w).1.
Proof.
  intros Hn Hl. unfold markErrorLocked. rewrite R_bind_eq. cbn [rexec fst snd]. rewrite Hl, !R_bind_eq.
  edestruct (sent_sendMutation (QPhase (fail_request (qStoreKey (cell w o)) "error" reason (ClassifyErrorReason reason))))
    as [ok Hok]; [done|]. exists ok. apply grows_cleanup, grows_sendMutation. exact Hok.
Qed.

Lemma markFailed_sent o reason w :
  rqNats E = true → qTerminated (cell w o) = false →
  ∃ ok, (QPhase (fail_request (qStoreKey (cell w o)) "failed" reason ""), ok) ∈ rwOut (markFailedLocked E o reason w).1.
Proof.
  intros Hn Hl. unfold markFailedLocked. rewrite R_bind_eq. cbn [rexec fst snd]. rewrite Hl, !R_bind_eq.
  edestruct (sent_sendMutation (QPhase (fail_request (qStoreKey (cell w o)) "failed" reason ""))) as [ok Hok]; [done|].
  exists ok. apply grows_cleanup, grows_sendMutation. unfold release_story.
  destruct (current_story (cell w o)); [apply grows_sendMutation|]; exact Hok.
Qed.
End sent.

(** ** Theorems: runs *)

Section run_theorems.
Context (E : ReqEnv).

(** The execution is over: marked, and under no key of the cache. *)
Definition over (o : nat) (w : RWorld) : Prop :=
  qTerminated (cell w o) = true ∧ ∀ k, rwActive w !! k ≠ Some o.

Lemma ended_over o w : rinv E w → qTerminated (cell w o) = true → over o w.
Proof.
  intros Hi Ht. split; [done|]. intros k Hk.
  pose proof (ao_live _ _ _ _ _ (active_cell E w k o Hi Hk)). congruence.
Qed.

(** C11: Along every run, each active execution is live and cached under its
    own identifier, and every execution has been restarted by recoveries at
    most as often as configured (once where the configuration allows none). *)
Theorem active_requirements_sound w :
  req_reachable E w →
  (∀ k o, rwActive w !! k = Some o → qTerminated (cell w o) = false ∧ qEntityID (cell w o) = k) ∧
  (∀ o x, rwHeap w !! o = Some x → 0 ≤ qRecoveryRestarts x ≤ 1 `max` rqMaxRecoveryRestarts E)%Z.
Proof.
  intros Hi%rinv_reachable. split.
  - intros k o Hk. pose proof (active_cell E w k o Hi Hk) as [? ? _ _]. done.
  - intros o x Hx. apply (ri_cells _ _ _ Hi o x Hx).
Qed.

(** C31: A requirement that was given a timeout keeps it armed while it is
    active, whatever happens to it: retries, restarts, waiting.  When the
    timer fires the execution is over, and the execution manager is told. *)
Theorem requirement_times_out w k o t :
  req_reachable E w → rwActive w !! k = Some o → qTimeoutTimer (cell w o) = Some t →
  rwTimers w !! t = Some (TimeoutOf o) ∧
  let w' := (req_step E (REvTimer t) w).1 in
  over o w' ∧
  (rqNats E = true →
   let reason := "execution timed out after " +:+ rqTimeoutText E in
   ∃ ok, (QPhase (fail_request (qStoreKey (cell w o)) "error" reason (ClassifyErrorReason reason)), ok) ∈ rwOut w').
Proof.
  intros Hi%rinv_reachable Hk Ht. pose proof (active_cell E w k o Hi Hk) as [_ Hl Hm _]. specialize (Hm t Ht).
  split; [done|]. cbv zeta. cbn [req_step]. pose proof (keepsw_timer E t w Hi) as H1.
  unfold timer_fires in *. rewrite R_bind_eq in *. cbn [rread fst snd] in *. rewrite R_bind_eq in *.
  cbn [rmodify fst snd] in *. rewrite Hm in *. split.
  - apply ended_over; [done|]. destruct (rinv_fired E t _ w Hi Hm) as [H2 Ho2]. by apply markError_ends_but.
  - intros Hn. exact (markError_sent E o _ (set_rwTimers _ w) Hn Hl).
Qed.

(** The plan as the executor last tried to read it. *)
Definition pending_read (io : req_io) (slug requirementID : string) : option bool :=
  match qiPlan io slug with
  | PlanUnreachable => None
  | PlanMissing | PlanGarbled _ => Some false
  | PlanAt p => Some (existsb (λ d, isPendingRecoveryDecisionForRequirement d requirementID) (pPlanDecisions p))
  end.

Lemma stop_waiting_over o w :
  resumable E o w → qTerminated (cell w o) = false → rqNats E = true →
  let w' := (stop_waiting E o w).1 in
  over o w' ∧
  ∃ ok, (QPhase (fail_request (qStoreKey (cell w o)) "failed" (qRecoveryReason (cell w o)) ""), ok) ∈ rwOut w'.
Proof.
  intros Hr Hl Hn. cbv zeta. unfold stop_waiting. rewrite !R_bind_eq. cbn [rexec fst snd].
  set (w1 := (updr o _ w).1). assert (Ec : cell w1 o = set_qRecoveryTimer None (set_qAwaitingRecovery false (cell w o)))
    by (unfold w1; by rewrite cell_updr).
  pose proof (co_restarts _ _ _ _ (resumable_cell E o w Hr)) as Hs.
  assert (Hi : rinv E w1).
  { apply (resumable_rinv E o); [by apply resumable_updr; auto|by rewrite Ec]. }
  destruct (markFailed_ends E o (qRecoveryReason (cell w o)) w1 Hi) as (H2 & _ & H3); [by apply has_updr, Hr|].
  split; [by apply (ended_over)|].
  destruct (markFailed_sent E o (qRecoveryReason (cell w o)) w1 Hn) as [ok Hok]; [by rewrite Ec|].
  exists ok. by rewrite Ec in Hok.
Qed.

Lemma arm_recovery_waits o w :
  let w' := (arm_recovery o w).1 in
  rwActive w' = rwActive w ∧ cell w' o = set_qRecoveryTimer (Some (rwNext w)) (cell w o) ∧
  rwTimers w' !! rwNext w = Some (RecoveryOf o).
Proof.
  cbv zeta. unfold arm_recovery. rewrite R_bind_eq. split_and!; [done|by rewrite cell_updr|].
  cbn. apply lookup_insert_eq.
Qed.

(** C33: An active execution that waits for a recovery has a timer for it, in
    every reachable state.  When that fires it waits on, with a new timer,
    only if the plan holds an open recovery decision for it or could not be
    reached, the latter at most six times in a row; else it fails with the
    reason it waited for. *)
Theorem waiting_requirement_resolved w k o :
  req_reachable E w → rqNats E = true →
  rwActive w !! k = Some o → qAwaitingRecovery (cell w o) = true →
  ∃ t, qRecoveryTimer (cell w o) = Some t ∧ rwTimers w !! t = Some (RecoveryOf o) ∧
    let w' := (req_step E (REvTimer t) w).1 in
    let waits n := rwActive w' !! k = Some o ∧ qAwaitingRecovery (cell w' o) = true ∧
      qRecoveryInfraRetries (cell w' o) = n ∧ armed w' (qRecoveryTimer (cell w' o)) (RecoveryOf o) in
    let fails := over o w' ∧ ∃ ok,
      (QPhase (fail_request (qStoreKey (cell w o)) "failed" (qRecoveryReason (cell w o)) ""), ok) ∈ rwOut w' in
    match pending_read (rqIO E (rwTick w)) (qSlug (cell w o)) (qRequirementID (cell w o)) with
    | Some true => waits 0%Z
    | Some false => fails
    | None => let n := (qRecoveryInfraRetries (cell w o) + 1)%Z in if bool_decide (n ≤ 6)%Z then waits n else fails
    end.
Proof.
  intros Hi%rinv_reachable Hn Hk Hw. pose proof (active_cell E w k o Hi Hk) as [_ Hl _ Haw].
  destruct (Haw Hw) as [(t & Et & Hm) _]. exists t. split_and!; [done..|]. cbv zeta. cbn [req_step].
  unfold timer_fires. rewrite R_bind_eq. cbn [rread fst snd]. rewrite R_bind_eq. cbn [rmodify fst snd]. rewrite Hm.
  pose proof (fired_recovery E t o w Hi Hm) as Hr. set (w1 := set_rwTimers _ w) in *.
  unfold handleRecoveryTimeout. rewrite R_bind_eq. cbn [rexec fst snd].
  change (cell w1 o) with (cell w o). rewrite Hw. cbn [negb]. rewrite R_bind_eq.
  unfold hasPendingRecoveryDecision. rewrite Hn. cbn [negb]. rewrite R_bind_eq. cbn [rtick mret R_ret fst snd].
  assert (Hr2 : resumable E o (set_rwTick (S (rwTick w1)) w1)) by (eapply logged_resumable, Hr; apply (logs_rtick E w1)).
  set (w2 := set_rwTick _ w1) in *. change (rwTick w1) with (rwTick w).
  fold (pending_read (rqIO E (rwTick w)) (qSlug (cell w o)) (qRequirementID (cell w o))).
  pose proof (co_restarts _ _ _ _ (resumable_cell E o w2 Hr2)) as Hs.
  assert (Hwaits : ∀ n, let w' := (arm_recovery o (updr o (set_qRecoveryInfraRetries n) w2).1).1 in
     rwActive w' !! k = Some o ∧ qAwaitingRecovery (cell w' o) = true ∧ qRecoveryInfraRetries (cell w' o) = n ∧
     armed w' (qRecoveryTimer (cell w' o)) (RecoveryOf o)).
  { intros n. destruct (arm_recovery_waits o (updr o (set_qRecoveryInfraRetries n) w2).1) as (Ea & Ec & Ht).
    cbv zeta in *. rewrite Ea, Ec, cell_updr. split_and!; [done..|]. eexists. split; [done|exact Ht]. }
  assert (Hfails : ∀ n, let w' := (stop_waiting E o (updr o (set_qRecoveryInfraRetries n) w2).1).1 in
     over o w' ∧ ∃ ok,
      (QPhase (fail_request (qStoreKey (cell w o)) "failed" (qRecoveryReason (cell w o)) ""), ok) ∈ rwOut w').
  { intros n. pose proof (stop_waiting_over o (updr o (set_qRecoveryInfraRetries n) w2).1) as H.
    rewrite cell_updr in H. apply H; [|done..]. apply resumable_updr; auto. }
  destruct (pending_read _ _ _) as [[]|]; rewrite R_bind_eq; [apply Hwaits|apply Hfails|].
  rewrite (bool_decide_ext (qRecoveryInfraRetries (cell w o) + 1 ≤ 6)%Z (¬ (maxRecoveryInfraRetries < qRecoveryInfraRetries (cell w o) + 1))%Z)
    by (unfold maxRecoveryInfraRetries; lia). rewrite bool_decide_not.
  destruct (bool_decide _); [apply Hfails|apply Hwaits].
Qed.
End run_theorems.

(** ** A concrete run *)

Definition demo_task (id : string) (deps : list string) : Task :=
  {| tID := id; tStoryID := "s1"; tDescription := "do " +:+ id; tDependsOn := deps;
     tStatus := TaskStatusPending; tCreatedAt := 0; tUpdatedAt := 0 |}.

Definition two_tasks : Story :=
  {| sID := "s1"; sComponentName := "core"; sRequirementIDs := ["r1"]; sCapabilityNames := []; sTitle := "s1";
     sIntent := ""; sFilesOwned := ["src/a.go"]; sDependsOn := []; sTasks := [demo_task "t2" ["t1"]; demo_task "t1" []];
     sStatus := StoryStatusReady; sPreparedBy := "sarah"; sPreparedAt := None; sRecoveryHint := "";
     sCreatedAt := 0; sUpdatedAt := 0 |}.

Definition exec_plan : Plan :=
  set_pScope (sample_scope [] [] ["src/a.go"]) (sample_plan StatusImplementing [sample_req "r1" []] [two_tasks] None).

Definition exec_row : RequirementExecution :=
  new_req (ExecStore.sample_env exec_plan)
    (MkReqCreateRequest "demo" "r1" "t" "" "" "" "" "" "" [] [] "" "" "main" "" false) 0.

(** Every request succeeds; the reviewer's worktree has the promised file. *)
Definition exec_io (row : RequirementExecution) (n : nat) : req_io :=
  MkReqIO (Z.of_nat n) (pretty n) None (λ _, PlanAt exec_plan) (λ _, RowAt row) BranchMade
    (λ _, LsDone (Some (0%Z, "src/a.go" +:+ String (byte 0) ""))).

Definition exec_env (row : RequirementExecution) : ReqEnv :=
  {| rqIO := exec_io row; rqNats := true; rqSandbox := true; rqKeys := λ _ ks, elements ks;
     rqEntityPrefix := "org"; rqPlanEntityID := λ s, "plan." +:+ s; rqHash := λ a b, b; rqQuote := λ s, s;
     rqMarshalDAG := λ _, "dag"; rqUnmarshalDAG := λ _, Some [MkTaskNode "t1" "" "" [] [] []; MkTaskNode "t2" "" "" ["t1"] [] []];
     rqUnmarshalReview := λ s, inl (MkReviewResult (unbraced s) "fixable" "" []); rqReviewContext := λ _ _ _, "";
     rqDagText := λ _, "bad graph"; rqGapText := λ _, "no listing"; rqModel := "m"; rqReviewerModel := "m";
     rqTimeoutText := "1h0m0s"; rqMaxRequirementRetries := 2; rqMaxReviewRetries := 1;
     rqDeferTerminalOnRecovery := true; rqMaxRecoveryRestarts := 1; rqRequireCommitObservation := None |}.

Definition run_req (E : ReqEnv) (evs : list req_event) (w : RWorld) : RWorld :=
  foldl (λ w ev, (req_step E ev w).1) w evs.

Lemma run_req_reachable E evs keys entities : req_reachable E (run_req E evs (start_world E keys entities)).
Proof.
  exists keys, entities. generalize (start_world E keys entities). induction evs as [|ev evs IH]; intros w; [done|].
  eapply rtc_l; [by exists ev|]. apply IH.
Qed.

(** The requirement is claimed and started: its first node is under way. *)
Definition started : RWorld :=
  run_req (exec_env exec_row) [REvPending "req.demo.r1" exec_row; REvStart 0] (start_world (exec_env exec_row) [] []).

Definition the_key : string := "org.exec.req.run.demo-r1".

Lemma requirement_times_out_witness :
  over 0 (req_step (exec_env exec_row) (REvTimer 1) started).1.
Proof.
  refine (proj1 (proj2 (requirement_times_out (exec_env exec_row) started the_key 0 1 _ _ _))).
  - apply run_req_reachable.
  - vm_compute. reflexivity.
  - vm_compute. reflexivity.
Defined.

Lemma active_requirements_sound_witness : qEntityID (cell started 0) = the_key.
Proof.
  refine (proj2 (proj1 (active_requirements_sound (exec_env exec_row) started _) the_key 0 _)).
  - apply run_req_reachable.
  - vm_compute. reflexivity.
Defined.

(** The task of the first node gives up. *)
Definition escalated : TaskExecution :=
  MkTaskExecution "" "demo" "node-t1-6" "r1" "escalated" 0 0 "" "" "" "" "" "" "" "" "" "" "" "" "" [] [] [] false false
    "" "" "" "" "" "" "" 0 "" "" "budget spent" 0 0.

Definition waiting : RWorld := (req_step (exec_env exec_row) (REvTask escalated) started).1.

(** The plan has no open recovery decision: the wait ends in failure. *)
Lemma waiting_requirement_resolved_witness :
  ∃ t, qRecoveryTimer (cell waiting 0) = Some t ∧ over 0 (req_step (exec_env exec_row) (REvTimer t) waiting).1.
Proof.
  destruct (waiting_requirement_resolved (exec_env exec_row) waiting the_key 0) as (t & Ht & _ & H).
  - apply (run_req_reachable _ [_; _; _]).
  - reflexivity.
  - vm_compute. reflexivity.
  - vm_compute. reflexivity.
  - exists t. split; [exact Ht|]. exact (proj1 H).
Defined.
