(* ===== verification/ReqNodes.v ===== *)
(** * From nodes to the review, and across restarts

    The nodes of a task graph run one after the other in its order, and the
    reviewer comes last; a retried node changes that.  What the execution
    manager keeps of an execution, and what a restarted executor makes of
    it. *)

From stdpp Require Import pretty.
From S2P Require Import Prelude Graphs Status Paths Types Stories Branches TaskDag PlanStore ExecTypes Feedback ExecStore.
From S2P Require Import AutoAccept ExecMutations Convergence ReqTypes ReqEvidence ReqPipeline ReqRecovery ReqRuns.

Local Open Scope string_scope.
Local Open Scope go_scope.

(** ** What is given to agents *)

Inductive work := NodeWork (requestID : string) | ReviewWork.

Definition work_of (m : req_message * bool) : option work :=
  match m.1 with
  | QTask r => Some (NodeWork (tcRequestID r))
  | QReviewer _ => Some ReviewWork
  | _ => None
  end.

Definition dispatched (w : RWorld) : list work := omap work_of (rwOut w).

Definition node_work (x : requirementExecution) (nodeID : string) : work :=
  NodeWork ("node-" +:+ qRequirementID x +:+ "-" +:+ nodeID).

Section nodes.
Context (E : ReqEnv).
Context (Hnats : rqNats E = true) (Hok : ∀ n, qiErr (rqIO E n) = None).

(** A message that gives no work to an agent. *)
Lemma dispatched_send m w : work_of (m, true) = None → dispatched (sendMutation E m w).1 = dispatched w.
Proof.
  intros Hm. unfold sendMutation. rewrite Hnats. unfold rsend. rewrite !R_bind_eq. cbn.
  unfold dispatched. cbn. rewrite omap_app. cbn. rewrite Hok. unfold work_of in *. cbn in *.
  rewrite Hm. by rewrite app_nil_r.
Qed.

Lemma dispatched_sandbox m w : work_of (m, true) = None → dispatched (call_sandbox E m w).1 = dispatched w.
Proof.
  intros Hm. unfold call_sandbox. destruct (rqSandbox E); [|done]. unfold rsend. rewrite !R_bind_eq. cbn.
  unfold dispatched. cbn. rewrite omap_app. cbn. unfold work_of in *. cbn in *. rewrite Hm. by rewrite app_nil_r.
Qed.

(** The reviewer is given its task, and the rest of the execution stays. *)
Lemma reviewer_dispatched o w :
  let w' := (dispatchRequirementReviewerLocked E o w).1 in
  dispatched w' = (dispatched w ++ [ReviewWork])%list ∧
  ∃ taskID, cell w' o = set_qReviewerTaskID taskID (cell w o).
Proof.
  cbv zeta. unfold dispatchRequirementReviewerLocked. rewrite R_bind_eq. cbn [rtick fst snd].
  rewrite R_bind_eq. cbn [rexec fst snd]. cbv zeta. set (w0 := set_rwTick _ w).
  change (cell w0 o) with (cell w o). set (taskID := _ +:+ _ +:+ _ +:+ _). rewrite R_bind_eq.
  set (w1 := (updr o _ w0).1). assert (E1 : cell w1 o = set_qReviewerTaskID taskID (cell w o))
    by (unfold w1; by rewrite cell_updr).
  assert (D1 : dispatched w1 = dispatched w) by done. rewrite R_bind_eq.
  match goal with |- context [(?m w1).1] => set (w2 := (m w1).1) end.
  assert (E2 : rwHeap w2 = rwHeap w1) by (unfold w2; case_match; [done|apply heap_call_sandbox]).
  assert (D2 : dispatched w2 = dispatched w) by (unfold w2; case_match; [done|by rewrite dispatched_sandbox]).
  rewrite R_bind_eq. match goal with |- context [(sendMutation E ?m w2).1] => set (w3 := (sendMutation E m w2).1) end.
  assert (E3 : cell w3 o = set_qReviewerTaskID taskID (cell w o)).
  { rewrite (cell_heap w2) by apply heap_sendMutation. by rewrite (cell_heap w1). }
  assert (D3 : dispatched w3 = dispatched w) by (unfold w3; by rewrite dispatched_send).
  rewrite R_bind_eq. cbn [rexec fst snd]. rewrite R_bind_eq. unfold publish_reviewer. rewrite Hnats.
  unfold rsend. rewrite !R_bind_eq. cbn [rtick rmodify mret R_ret fst snd]. rewrite Hok. cbn [fst].
  split; [|exists taskID; exact E3]. unfold dispatched in *. cbn. rewrite omap_app. by rewrite D3.
Qed.

(** ** One node after the other *)

Context (o : nat).

(** The execution works on the [k]-th node of its order; nothing was
    retried. *)
Record at_node (w : RWorld) (ids : list string) (k : nat) : Prop := {
  an_ids : qSortedNodeIDs (cell w o) = ids;
  an_nodup : NoDup ids;
  an_known : ∀ id, id ∈ ids → is_Some (qNodeIndex (cell w o) !! id);
  an_idx : qCurrentNodeIdx (cell w o) = Z.of_nat k;
  an_range : (k < length ids)%nat;
  an_visited : qVisitedNodes (cell w o) = list_to_set (take k ids) }.

Lemma size_visited (ids : list string) k : NoDup ids → (k ≤ length ids)%nat →
  size (list_to_set (take k ids) : gset string) = k.
Proof.
  intros Hnd Hk. rewrite size_list_to_set; [|by eapply sublist_NoDup, sublist_take]. rewrite length_take. lia.
Qed.

(** The index [dispatchNextNodeLocked] moves to. *)
Definition next_index (x : requirementExecution) : Z :=
  let next := (qCurrentNodeIdx x + 1)%Z in skip_clean x (drop (Z.to_nat next) (qSortedNodeIDs x)) next.

Lemma next_reviews w :
  node_at (cell w o) (next_index (cell w o)) = None →
  let w' := (dispatchNextNodeLocked E o w).1 in
  dispatched w' = (dispatched w ++ [ReviewWork])%list ∧
  ∃ t, cell w' o = set_qReviewerTaskID t (set_qCurrentNodeIdx (next_index (cell w o)) (cell w o)).
Proof.
  intros Hn. cbv zeta. unfold dispatchNextNodeLocked. rewrite R_bind_eq. cbn [rexec fst snd]. cbv zeta.
  fold (next_index (cell w o)). rewrite R_bind_eq, Hn.
  destruct (reviewer_dispatched o (updr o (set_qCurrentNodeIdx (next_index (cell w o))) w).1) as (D & t & Ec).
  split; [done|]. exists t. by rewrite cell_updr in Ec.
Qed.

Lemma next_dispatched w id node :
  node_at (cell w o) (next_index (cell w o)) = Some id → qNodeIndex (cell w o) !! id = Some node →
  let w' := (dispatchNextNodeLocked E o w).1 in
  dispatched w' = (dispatched w ++ [node_work (cell w o) id])%list ∧
  ∃ t, cell w' o = set_qNodeTaskIDs (qNodeTaskIDs (cell w o) ++ [t])%list
    (set_qCurrentNodeTaskID t (set_qCurrentNodeIdx (next_index (cell w o)) (cell w o))).
Proof.
  intros Hn Hi. cbv zeta. unfold dispatchNextNodeLocked. rewrite R_bind_eq. cbn [rexec fst snd]. cbv zeta.
  fold (next_index (cell w o)). rewrite R_bind_eq, Hn, Hi. set (w1 := (updr o _ w).1).
  assert (E1 : cell w1 o = set_qCurrentNodeIdx (next_index (cell w o)) (cell w o)) by (unfold w1; by rewrite cell_updr).
  rewrite R_bind_eq. cbn [rtick fst snd]. cbv zeta. set (taskID := _ +:+ _ +:+ _ +:+ _).
  rewrite R_bind_eq. set (w2 := (updr o _ _).1).
  assert (E2 : cell w2 o = set_qNodeTaskIDs (qNodeTaskIDs (cell w o) ++ [taskID])%list
    (set_qCurrentNodeTaskID taskID (set_qCurrentNodeIdx (next_index (cell w o)) (cell w o)))).
  { unfold w2. rewrite cell_updr. change (cell (set_rwTick _ w1) o) with (cell w1 o). by rewrite E1. }
  rewrite R_bind_eq. match goal with |- context [(sendMutation E ?m w2).1] => set (w3 := (sendMutation E m w2).1) end.
  assert (E3 : cell w3 o = cell w2 o) by (apply cell_heap, heap_sendMutation).
  assert (D3 : dispatched w3 = dispatched w) by (unfold w3; by rewrite dispatched_send).
  rewrite R_bind_eq. unfold sendTaskCreate. rewrite Hnats. unfold rsend. rewrite !R_bind_eq.
  cbn [rtick rmodify mret R_ret fst snd]. rewrite Hok. cbn [fst].
  split; [|exists taskID; by rewrite <- E2, <- E3]. unfold dispatched in *. cbn. rewrite omap_app. by rewrite D3.
Qed.

Lemma next_index_all x :
  (∀ id, isNodeDirty x id = true) → next_index x = (qCurrentNodeIdx x + 1)%Z.
Proof. intros Hd. unfold next_index. destruct (drop _ _); [done|]. cbn [skip_clean]. by rewrite Hd. Qed.

Lemma skip_all x ids i : (∀ id, id ∈ ids → isNodeDirty x id = false) → skip_clean x ids i = (i + Z.of_nat (length ids))%Z.
Proof.
  revert i. induction ids as [|id ids IH]; intros i Hc; cbn [skip_clean length]; [lia|].
  rewrite (Hc id) by set_solver. rewrite IH by set_solver. lia.
Qed.

Lemma node_at_nat x k : node_at x (Z.of_nat k) = qSortedNodeIDs x !! k.
Proof. unfold node_at. rewrite bool_decide_true by lia. by rewrite Nat2Z.id. Qed.

(** The completion of a node whose result can be recorded. *)
Definition recordable (r : event_result) : Prop :=
  match parseNodeResultPayload r with Some (inr _) => False | _ => True end.

(** The result recorded for the node. *)
Definition recorded (nodeID : string) (r : event_result) : NodeResult :=
  node_result nodeID (match parseNodeResultPayload r with Some (inl p) => Some p | _ => None end).

(** The execution once the result is recorded, before it goes on. *)
Definition after_success (x : requirementExecution) (id : string) (r : event_result) : requirementExecution :=
  set_qNodeResults (qNodeResults x ++ [recorded id r])%list (set_qVisitedNodes ({[id]} ∪ qVisitedNodes x) x).

Lemma node_success w ids k r id :
  at_node w ids k → ids !! k = Some id → recordable r →
  ∃ w1, cell w1 o = after_success (cell w o) id r ∧ dispatched w1 = dispatched w ∧
    (handleNodeCompleteLocked E o OutcomeSuccess r w).1 =
      (if bool_decide (length ids ≤ S k)%nat then dispatchRequirementReviewerLocked E o w1
       else dispatchNextNodeLocked E o w1).1.
Proof.
  intros [Hids Hnd Hkn Hidx Hr Hv] Hid Hrec. unfold handleNodeCompleteLocked. rewrite R_bind_eq. cbn [rexec fst snd].
  rewrite Hidx, node_at_nat, Hids, Hid. rewrite R_bind_eq. change (OutcomeSuccess !=? OutcomeSuccess) with false.
  cbv iota. set (w1 := (updr o _ w).1).
  assert (E1 : cell w1 o = set_qVisitedNodes ({[id]} ∪ qVisitedNodes (cell w o)) (cell w o))
    by (unfold w1; by rewrite cell_updr).
  assert (Hgo : ∀ parsed, node_result id parsed = recorded id r → ∃ w', cell w' o = after_success (cell w o) id r ∧
    dispatched w' = dispatched w ∧ (recordNodeSuccessLocked E o id parsed w1).1 =
      (if bool_decide (length ids ≤ S k)%nat then dispatchRequirementReviewerLocked E o w'
       else dispatchNextNodeLocked E o w').1).
  { intros parsed Hp. unfold recordNodeSuccessLocked. rewrite R_bind_eq. set (w2 := (updr o _ w1).1).
    assert (E2 : cell w2 o = after_success (cell w o) id r)
      by (unfold w2; rewrite cell_updr, E1, Hp; done).
    rewrite R_bind_eq. cbn [rexec fst snd]. rewrite R_bind_eq.
    match goal with |- context [(sendMutation E ?m w2).1] => set (w3 := (sendMutation E m w2).1) end.
    assert (E3 : cell w3 o = after_success (cell w o) id r)
      by (rewrite (cell_heap w2) by apply heap_sendMutation; done).
    exists w3. split_and!; [done|unfold w3; by rewrite dispatched_send|].
    rewrite E2. unfold after_success. cbn [qSortedNodeIDs qVisitedNodes set_qNodeResults set_qVisitedNodes].
    rewrite Hids, Hv.
    assert (({[id]} ∪ list_to_set (take k ids) : gset string) = list_to_set (take (S k) ids)) as ->.
    { rewrite (take_S_r ids k id) by done. rewrite list_to_set_app_L. cbn. set_solver. }
    rewrite size_visited by (done || lia). destruct (bool_decide _); done. }
  unfold recordable, recorded in *. destruct (parseNodeResultPayload r) as [[p|e]|]; [by apply Hgo|done|by apply Hgo].
Qed.

Lemma dirty_all x : qDirtyNodeIDs x = [] → ∀ id, isNodeDirty x id = true.
Proof. intros Hd id. unfold isNodeDirty. rewrite Hd. cbn. by destruct (bool_decide _). Qed.

(** A node ends and the next one starts. *)
Lemma node_step w ids k r id id' :
  at_node w ids k → qDirtyNodeIDs (cell w o) = [] → ids !! k = Some id → ids !! S k = Some id' → recordable r →
  let w' := (handleNodeCompleteLocked E o OutcomeSuccess r w).1 in
  at_node w' ids (S k) ∧ qDirtyNodeIDs (cell w' o) = [] ∧ qRequirementID (cell w' o) = qRequirementID (cell w o) ∧
  dispatched w' = (dispatched w ++ [node_work (cell w o) id'])%list ∧
  qNodeResults (cell w' o) = (qNodeResults (cell w o) ++ [recorded id r])%list.
Proof.
  intros Hat Hd Hid Hid' Hrec. cbv zeta. destruct (node_success w ids k r id Hat Hid Hrec) as (w1 & E1 & D1 & ->).
  destruct Hat as [Hids Hnd Hkn Hidx Hr Hv]. pose proof (lookup_lt_Some _ _ _ Hid') as Hlt.
  rewrite bool_decide_false by lia.
  assert (Hidx1 : next_index (cell w1 o) = Z.of_nat (S k)).
  { rewrite next_index_all by (apply dirty_all; by rewrite E1). rewrite E1. cbn. lia. }
  destruct (Hkn id') as [node Hnode]; [by eapply list_elem_of_lookup_2|].
  destruct (next_dispatched w1 id' node) as (D2 & t & E2).
  { rewrite Hidx1, node_at_nat, E1. cbn. by rewrite Hids. }
  { by rewrite E1. }
  rewrite D2, D1, E2, E1. split_and!; [|done..]. split.
  - rewrite E2, E1. done.
  - done.
  - rewrite E2, E1. done.
  - rewrite E2. cbn. exact Hidx1.
  - done.
  - rewrite E2, E1. cbn. rewrite Hv, (take_S_r ids k id) by done. rewrite list_to_set_app_L. cbn. set_solver.
Qed.

(** The last node ends and the reviewer starts. *)
Lemma node_last w ids k r id :
  at_node w ids k → ids !! k = Some id → length ids = S k → recordable r →
  let w' := (handleNodeCompleteLocked E o OutcomeSuccess r w).1 in
  dispatched w' = (dispatched w ++ [ReviewWork])%list ∧
  qNodeResults (cell w' o) = (qNodeResults (cell w o) ++ [recorded id r])%list.
Proof.
  intros Hat Hid Hlen Hrec. cbv zeta. destruct (node_success w ids k r id Hat Hid Hrec) as (w1 & E1 & D1 & ->).
  rewrite bool_decide_true by lia. destruct (reviewer_dispatched o w1) as (D2 & t & E2). cbv zeta in *.
  rewrite D2, D1, E2, E1. done.
Qed.

(** Successful completions, one after the other. *)
Fixpoint complete_all (rs : list event_result) (w : RWorld) : RWorld :=
  match rs with
  | [] => w
  | r :: rs => complete_all rs (handleNodeCompleteLocked E o OutcomeSuccess r w).1
  end.

Lemma rest_in_order rs w ids k :
  at_node w ids k → qDirtyNodeIDs (cell w o) = [] → Forall recordable rs → length ids = (k + length rs)%nat →
  dispatched (complete_all rs w) =
    (dispatched w ++ (node_work (cell w o) <$> drop (S k) ids) ++ [ReviewWork])%list ∧
  qNodeResults (cell (complete_all rs w) o) = (qNodeResults (cell w o) ++ zip_with recorded (drop k ids) rs)%list.
Proof.
  revert w k. induction rs as [|r rs IH]; intros w k Hat Hd Hrs Hlen.
  { pose proof (an_range _ _ _ Hat). cbn in Hlen. lia. }
  apply Forall_cons in Hrs as [Hr Hrs]. cbn [complete_all length] in *.
  destruct (lookup_lt_is_Some_2 ids k) as [id Hid]; [lia|]. rewrite (drop_S ids id k) by done. cbn [zip_with].
  destruct (ids !! S k) as [id'|] eqn:Hid'.
  - destruct (node_step w ids k r id id' Hat Hd Hid Hid' Hr) as (Hat' & Hd' & Eq & D & Er).
    destruct (IH _ (S k) Hat' Hd' Hrs) as [D2 Er2]; [lia|]. rewrite D2, Er2, D, Er. unfold node_work at 2. rewrite Eq.
    rewrite (drop_S ids id' (S k)) by done. split; [by rewrite <- app_assoc|by rewrite <- app_assoc].
  - apply lookup_ge_None in Hid'. assert (rs = []) as -> by (destruct rs; [done|cbn in *; lia]). cbn in *.
    destruct (node_last w ids k r id Hat Hid) as [D Er]; [lia|done|]. rewrite D, Er.
    rewrite (drop_ge ids (S k)) by lia. done.
Qed.

(** A task graph is taken up: the first node of its order starts. *)
Lemma dag_started w dag sorted :
  NoDup (nID <$> dag) → topoSort dag = inl sorted → sorted ≡ₚ nID <$> dag →
  qCurrentNodeIdx (cell w o) = (-1)%Z → qVisitedNodes (cell w o) = ∅ → qDirtyNodeIDs (cell w o) = [] →
  let w' := (applyParsedDAGLocked E o dag w).1 in
  at_node w' sorted 0 ∧ qDirtyNodeIDs (cell w' o) = [] ∧ qRequirementID (cell w' o) = qRequirementID (cell w o) ∧
  qNodeResults (cell w' o) = qNodeResults (cell w o) ∧
  dispatched w' = (dispatched w ++ (node_work (cell w o) <$> take 1 sorted))%list.
Proof.
  intros Hnd Htopo Hp Hidx Hv Hd. cbv zeta. unfold applyParsedDAGLocked. rewrite Htopo, R_bind_eq.
  set (w1 := (updr o _ w).1).
  assert (E1 : cell w1 o = set_qNodeIndex (map_of ((λ n, (nID n, n)) <$> dag)) (set_qSortedNodeIDs sorted
    (set_qDAG (Some dag) (cell w o)))) by (unfold w1; by rewrite cell_updr).
  rewrite R_bind_eq. cbn [rexec fst snd]. rewrite R_bind_eq.
  match goal with |- context [(sendMutation E ?m w1).1] => set (w2 := (sendMutation E m w1).1) end.
  assert (E2 : cell w2 o = cell w1 o) by (apply cell_heap, heap_sendMutation). rewrite E1 in E2.
  assert (D2 : dispatched w2 = dispatched w) by (unfold w2; by rewrite dispatched_send).
  assert (Hkeys : ((λ n, (nID n, n)) <$> dag).*1 = nID <$> dag) by (by rewrite <- list_fmap_compose).
  assert (Hindex : ∀ id, id ∈ sorted → is_Some (map_of ((λ n, (nID n, n)) <$> dag) !! id)).
  { intros id. rewrite Hp. intros (n & -> & Hn)%list_elem_of_fmap. exists n. apply map_of_lookup; [by rewrite Hkeys|].
    apply list_elem_of_fmap. by exists n. }
  destruct sorted as [|id sorted].
  { unfold topoSort in Htopo. destruct dag as [|n dag]; [done|]. symmetry in Hp. by apply Permutation_nil_r in Hp. }
  assert (Hnext : next_index (cell w2 o) = Z.of_nat 0).
  { rewrite next_index_all by (apply dirty_all; by rewrite E2). rewrite E2. cbn. rewrite Hidx. done. }
  destruct (Hindex id) as [node Hnode]; [by left|].
  destruct (next_dispatched w2 id node) as (D3 & t & E3); [by rewrite Hnext, node_at_nat, E2|by rewrite E2|].
  cbv zeta in *. rewrite D3, D2, E3, E2. split_and!; [|done..]. split; rewrite ?E3, ?E2.
  - done.
  - by rewrite Hp.
  - done.
  - cbn. rewrite E2 in Hnext. exact Hnext.
  - cbn. lia.
  - cbn. by rewrite Hv.
Qed.

(** C24: When the execution manager carries out every node, the nodes of a
    task graph run one at a time in an order that respects the dependencies,
    each once, then the reviewer is called; the results are recorded in that
    order. *)
Theorem nodes_run_in_order w dag rs :
  dag ≠ [] → NoDup (nID <$> dag) → (∀ n d, n ∈ dag → d ∈ nDependsOn n → d ∈ nID <$> dag) →
  acyclic (adj_of (node_of <$> dag)) →
  qCurrentNodeIdx (cell w o) = (-1)%Z → qVisitedNodes (cell w o) = ∅ → qDirtyNodeIDs (cell w o) = [] →
  Forall recordable rs → length rs = length dag →
  ∃ sorted, sorted ≡ₚ nID <$> dag ∧ deps_first dag sorted ∧
    let w' := complete_all rs (applyParsedDAGLocked E o dag w).1 in
    dispatched w' = (dispatched w ++ (node_work (cell w o) <$> sorted) ++ [ReviewWork])%list ∧
    qNodeResults (cell w' o) = (qNodeResults (cell w o) ++ zip_with recorded sorted rs)%list.
Proof.
  intros Hne Hnd Hkn Hac Hidx Hv Hd Hrs Hlen.
  destruct (topoSort dag) as [sorted|[|k n]] eqn:Ht; pose proof (topoSort_spec dag Hne Hnd Hkn) as H; rewrite Ht in H;
    [|done|by destruct H as [? _]].
  destruct H as (_ & Hp & Ho). exists sorted. split_and!; [done..|].
  destruct (dag_started w dag sorted Hnd Ht Hp Hidx Hv Hd) as (Hat & Hd' & Eq & Er & D). cbv zeta in *.
  assert (length sorted = length rs) as Hl by (rewrite Hp, length_fmap; lia).
  destruct (rest_in_order rs _ sorted 0 Hat Hd' Hrs) as [D2 Er2]; [lia|].
  rewrite D2, Er2, D, Er. split; [|done]. unfold node_work. rewrite Eq, <- app_assoc. f_equal.
  destruct sorted as [|id sorted]; [by apply Permutation_nil in Hp; destruct dag|]. done.
Qed.

(** ** A retry in the middle *)

Definition failing (outcome : string) (r : event_result) : Prop :=
  outcome ≠ OutcomeSuccess ∧ match r with HasResult p => npTaskStage p ≠ "escalated" | _ => True end.

Lemma node_retried w ids k outcome r id :
  at_node w ids k → ids !! k = Some id → failing outcome r → may_retry (cell w o) = true →
  let w' := (handleNodeCompleteLocked E o outcome r w).1 in
  at_node w' ids k ∧ qDirtyNodeIDs (cell w' o) = [id] ∧ qRetryCount (cell w' o) = (qRetryCount (cell w o) + 1)%Z ∧
  qRequirementID (cell w' o) = qRequirementID (cell w o) ∧
  dispatched w' = (dispatched w ++ [node_work (cell w o) id])%list.
Proof.
  intros [Hids Hnd Hkn Hidx Hr Hv] Hid [Hout Hst] Hmay. cbv zeta. unfold handleNodeCompleteLocked. rewrite R_bind_eq.
  cbn [rexec fst snd]. rewrite Hidx, node_at_nat, Hids, Hid. rewrite R_bind_eq.
  apply neqb_true in Hout as ->. cbv iota. set (w1 := (updr o _ w).1).
  assert (E1 : cell w1 o = set_qVisitedNodes ({[id]} ∪ qVisitedNodes (cell w o)) (cell w o))
    by (unfold w1; by rewrite cell_updr).
  unfold handleNodeFailureLocked. rewrite R_bind_eq. cbn [rexec fst snd]. cbv zeta.
  assert ((match r with HasResult p => npTaskStage p | _ => "" end =? "escalated") = false) as ->.
  { apply eqb_false. by destruct r. }
  cbn [negb andb]. assert (may_retry (cell w1 o) = true) as -> by (by rewrite E1).
  unfold retryNodeAtRequirementLevelLocked. rewrite R_bind_eq. set (w2 := (updr o _ w1).1).
  assert (E2 : ∃ fb, cell w2 o = set_qVisitedNodes (({[id]} ∪ qVisitedNodes (cell w o)) ∖ {[id]}) (set_qDirtyNodeIDs [id]
    (set_qTerminated false (set_qLastReviewFeedback fb (set_qRetryCount (qRetryCount (cell w o) + 1) (cell w1 o))))))
    by (unfold w2; rewrite cell_updr, E1; eexists; done).
  destruct E2 as [fb E2]. rewrite E1 in E2. rewrite R_bind_eq. cbn [rexec fst snd]. rewrite R_bind_eq.
  match goal with |- context [(sendMutation E ?m w2).1] => set (w3 := (sendMutation E m w2).1) end.
  assert (E3 : cell w3 o = cell w2 o) by (apply cell_heap, heap_sendMutation). rewrite E2 in E3.
  assert (D3 : dispatched w3 = dispatched w) by (unfold w3; by rewrite dispatched_send).
  rewrite R_bind_eq. set (w4 := (updr o _ w3).1).
  assert (Ei : qCurrentNodeIdx (cell w3 o) = qCurrentNodeIdx (cell w o)) by (rewrite E3; reflexivity).
  assert (E4 : cell w4 o = set_qCurrentNodeIdx (qCurrentNodeIdx (cell w o) - 1) (cell w3 o))
    by (unfold w4; rewrite cell_updr, Ei; reflexivity).
  rewrite E3 in E4. clear E3 E2 E1.
  assert (Hvis : (({[id]} ∪ qVisitedNodes (cell w o)) ∖ {[id]} : gset string) = list_to_set (take k ids)).
  { rewrite Hv. assert (id ∉ take k ids); [|set_solver]. rewrite <- (take_drop_middle ids k id Hid) in Hnd.
    apply NoDup_app in Hnd as (_ & Hdis & _). intros Hin. apply (Hdis id Hin). by left. }
  assert (Hnext : next_index (cell w4 o) = Z.of_nat k).
  { unfold next_index. rewrite E4. cbn. rewrite Hidx, Hids.
    replace (Z.of_nat k - 1 + 1)%Z with (Z.of_nat k) by lia. rewrite Nat2Z.id, (drop_S ids id k Hid). cbn [skip_clean].
    unfold isNodeDirty. cbn. rewrite (bool_decide_true (id ∈ [id])) by set_solver. by rewrite orb_true_r. }
  destruct (Hkn id) as [node Hnode]; [by eapply list_elem_of_lookup_2|].
  destruct (next_dispatched w4 id node) as (D5 & t & E5);
    [rewrite Hnext, node_at_nat, E4; cbn; by rewrite Hids|by rewrite E4|].
  cbv zeta in *. rewrite D5. change (dispatched w4) with (dispatched w3). rewrite D3, E5, E4.
  split_and!; [|done..]. split; rewrite ?E5, ?E4; try done. cbn. rewrite E4 in Hnext. exact Hnext.
Qed.

(** A node that is retried in the middle of a task graph cuts the rest
    off: when the retry succeeds, the nodes after it are skipped as clean,
    although none of them has run, and the reviewer is called. *)
Theorem node_retry_skips_rest w ids k outcome r r' id :
  at_node w ids k → ids !! k = Some id → (S k < length ids)%nat → (0 ≤ qRetryCount (cell w o))%Z →
  may_retry (cell w o) = true → failing outcome r → recordable r' →
  let w1 := (handleNodeCompleteLocked E o outcome r w).1 in
  let w2 := (handleNodeCompleteLocked E o OutcomeSuccess r' w1).1 in
  dispatched w2 = (dispatched w ++ [node_work (cell w o) id; ReviewWork])%list ∧
  qVisitedNodes (cell w2 o) = list_to_set (take (S k) ids) ∧ (∀ id', id' ∈ drop (S k) ids → id' ∉ qVisitedNodes (cell w2 o)).
Proof.
  intros Hat Hid Hlt Hpos Hmay Hfail Hrec. cbv zeta.
  destruct (node_retried w ids k outcome r id Hat Hid Hfail Hmay) as (Hat1 & Hd1 & Hr1 & Eq1 & D1). cbv zeta in *.
  set (w1 := (handleNodeCompleteLocked E o outcome r w).1) in *.
  destruct (node_success w1 ids k r' id Hat1 Hid Hrec) as (w2 & E2 & D2 & ->).
  rewrite bool_decide_false by lia. destruct Hat1 as [Hids Hnd Hkn Hidx Hr Hv].
  assert (Hlater : ∀ id', id' ∈ drop (S k) ids → id' ∉ take (S k) ids).
  { intros id' Hin Hin'. rewrite <- (take_drop (S k) ids) in Hnd. apply NoDup_app in Hnd as (_ & Hdis & _).
    by apply (Hdis id'). }
  assert (Hclean : ∀ id', id' ∈ drop (S k) ids → isNodeDirty (cell w2 o) id' = false).
  { intros id' Hin. unfold isNodeDirty. rewrite E2. cbn. rewrite Hd1, Hr1, bool_decide_false by lia.
    cbn. apply bool_decide_false. intros ->%list_elem_of_singleton. apply (Hlater id Hin).
    rewrite (take_S_r ids k id Hid). set_solver. }
  assert (Hnext : next_index (cell w2 o) = Z.of_nat (length ids)).
  { unfold next_index. replace (qCurrentNodeIdx (cell w2 o) + 1)%Z with (Z.of_nat (S k)) by (rewrite E2; cbn; lia).
    rewrite Nat2Z.id. replace (qSortedNodeIDs (cell w2 o)) with ids by (by rewrite E2). rewrite skip_all by done.
    rewrite length_drop. lia. }
  destruct (next_reviews w2) as (D3 & t & E3).
  { rewrite Hnext, node_at_nat, E2. cbn. rewrite Hids. apply lookup_ge_None. lia. }
  cbv zeta in *. rewrite D3, D2, D1, E3, E2. split; [by rewrite <- app_assoc|]. cbn.
  assert ({[id]} ∪ qVisitedNodes (cell w1 o) = list_to_set (take (S k) ids)) as ->.
  { rewrite Hv, (take_S_r ids k id) by done. rewrite list_to_set_app_L. cbn. set_solver. }
  split; [done|]. intros id' Hin. rewrite elem_of_list_to_set. by apply Hlater.
Qed.
End nodes.

(** ** The branch of a requirement *)

(** What the execution manager does to a requirement's row for a request of
    the executor. *)
Definition row_after (m : req_message) (r : RequirementExecution) : RequirementExecution :=
  match m with
  | QPhase q => apply_req_phase q r
  | QNode q => apply_req_node q r
  | QNodeResults q => set_reNodeResults (rxNodeResults q) r
  | QClaim c => set_reStage (ecStage c) r
  | _ => r
  end.

Definition rows_after (ms : list (req_message * bool)) (r : RequirementExecution) : RequirementExecution :=
  foldl (λ r m, row_after m.1 r) r ms.

(** Optional fields leave the others alone. *)
Lemma when_set_keeps {T A} (g : T → A) v f x : (∀ a y, g (f a y) = g y) → g (when_set v f x) = g x.
Proof. intros H. unfold when_set. destruct (v !=? ""); [apply H|done]. Qed.
Lemma when_some_keeps {T A B} (g : T → A) (v : option B) f x : (∀ a y, g (f a y) = g y) → g (when_some v f x) = g x.
Proof. intros H. destruct v; [apply H|done]. Qed.
Lemma when_any_keeps {T A B} (g : T → A) (v : list B) f x : (∀ a y, g (f a y) = g y) → g (when_any v f x) = g x.
Proof. intros H. unfold when_any. destruct (is_nil v); [done|apply H]. Qed.

Lemma row_after_branch m ok r :
  msg_ok (m, ok) → reRequirementBranch r = "" → reRequirementBranch (row_after m r) = "".
Proof.
  intros Hm Hr. destruct m; cbn in *; try done.
  - unfold apply_req_phase. rewrite Hm.
    repeat first [rewrite (when_any_keeps reRequirementBranch) by done | rewrite (when_some_keeps reRequirementBranch) by done
      | rewrite (when_set_keeps reRequirementBranch) by done | progress change (when_set "" set_reRequirementBranch) with (@id RequirementExecution); cbn [id] ].
    done.
  - unfold apply_req_node.
    rewrite (when_some_keeps reRequirementBranch), (when_set_keeps reRequirementBranch), (when_some_keeps reRequirementBranch) by done.
    done.
Qed.

Lemma rows_after_branch ms r :
  Forall msg_ok ms → reRequirementBranch r = "" → reRequirementBranch (rows_after ms r) = "".
Proof.
  revert r. induction ms as [|[m ok] ms IH]; intros r Hm Hr; [done|]. apply Forall_cons in Hm as [? ?].
  apply IH; [done|]. by eapply row_after_branch.
Qed.

(** The branch of a requirement is never recorded.  Whatever requests of
    a run reach the execution manager, in whatever order and however often,
    the row created for a requirement has no branch; so an execution restored
    from it gives its tasks no branch to work on and never makes its branch
    anew, although the executor made one when the requirement started. *)
Theorem branch_never_recorded E XE w req now ms key x :
  req_reachable E w → ms ⊆ rwOut w →
  x = rebuildExecFromKV E key (rows_after ms (new_req XE req now)) →
  qRequirementBranch x = "" ∧
  (∀ node id task, tcScenarioBranch (task_request x node id task) = "") ∧
  (∀ w' o, cell w' o = x → recreate_branch E o w' = (w', ())).
Proof.
  intros Hr Hms ->. apply rinv_reachable in Hr as [_ _ _ _ _ Hout].
  assert (Hb : reRequirementBranch (rows_after ms (new_req XE req now)) = "").
  { apply rows_after_branch; [|done]. rewrite Forall_forall in Hout |- *. eauto. }
  split_and!; [done..|]. intros w' o Hc. unfold recreate_branch. unfold mbind, R_bind, rexec. rewrite Hc.
  cbn [qRequirementBranch rebuildExecFromKV]. by rewrite Hb.
Qed.

(** ** Restarts *)

(** Programs after which no timer is armed if none was. *)
Definition timerless {A} (m : R A) : Prop := ∀ w, rwTimers w = ∅ → rwTimers (m w).1 = ∅.

Lemma timerless_bind {A B} (m : R A) (f : A → R B) : timerless m → (∀ x, timerless (f x)) → timerless (m ≫= f).
Proof. intros Hm Hf w Hw. rewrite R_bind_eq. by apply Hf, Hm. Qed.

Lemma timerless_same {A} (m : R A) : (∀ w, rwTimers (m w).1 = rwTimers w) → timerless m.
Proof. intros Hm w Hw. by rewrite Hm. Qed.

Lemma timerless_logs {A} (m : R A) : logs m → timerless m.
Proof. intros Hm. apply timerless_same. intros w. apply Hm. Qed.

Section restart.
Context (E : ReqEnv).

Lemma timerless_stop r : timerless (stop r).
Proof. intros w Hw. destruct r as [t|]; [|done]. cbn. rewrite Hw. apply delete_empty. Qed.

Lemma timerless_cleanup o success : timerless (cleanupExecutionLocked E o success).
Proof.
  unfold cleanupExecutionLocked. apply timerless_bind; [by apply timerless_same|intros x].
  do 2 (apply timerless_bind; [apply timerless_stop|intros _]).
  apply timerless_bind; [by apply timerless_same|intros _].
  apply timerless_bind; [|intros _; by apply timerless_same].
  generalize ((if success then qNodeTaskIDs x else []) ++ if qReviewerTaskID x =? "" then [] else [qReviewerTaskID x])%list.
  intros ids. induction ids as [|id ids IH]; cbn [delete_worktrees]; [by apply timerless_same|].
  apply timerless_bind; [by apply timerless_logs, logs_call_sandbox|done].
Qed.

Lemma timerless_markError o reason : timerless (markErrorLocked E o reason).
Proof.
  unfold markErrorLocked. apply timerless_bind; [by apply timerless_same|intros x].
  destruct (qTerminated x); [by apply timerless_same|]. apply timerless_bind; [by apply timerless_same|intros _].
  do 2 (apply timerless_bind; [by apply timerless_logs, logs_sendMutation|intros _]). apply timerless_cleanup.
Qed.

Lemma timerless_reviewer o : timerless (dispatchRequirementReviewerLocked E o).
Proof.
  unfold dispatchRequirementReviewerLocked. apply timerless_bind; [by apply timerless_same|intros io].
  apply timerless_bind; [by apply timerless_same|intros x]. apply timerless_bind; [by apply timerless_same|intros _].
  apply timerless_bind; [case_match; [by apply timerless_same|by apply timerless_logs, logs_call_sandbox]|intros _].
  apply timerless_bind; [by apply timerless_logs, logs_sendMutation|intros _].
  apply timerless_bind; [by apply timerless_same|intros y]. apply timerless_bind.
  - apply timerless_logs. unfold publish_reviewer. destruct (rqNats E); [by apply logs_rsend|apply logs_ret].
  - intros [e|]; [apply timerless_markError|by apply timerless_same].
Qed.

Lemma timerless_next o : timerless (dispatchNextNodeLocked E o).
Proof.
  unfold dispatchNextNodeLocked. apply timerless_bind; [by apply timerless_same|intros x].
  apply timerless_bind; [by apply timerless_same|intros _]. case_match; [|apply timerless_reviewer].
  case_match; [|apply timerless_markError]. apply timerless_bind; [by apply timerless_same|intros io].
  apply timerless_bind; [by apply timerless_same|intros _].
  apply timerless_bind; [by apply timerless_logs, logs_sendMutation|intros _]. apply timerless_bind.
  - apply timerless_logs. unfold sendTaskCreate. destruct (rqNats E); [by apply logs_rsend|apply logs_ret].
  - intros [e|]; [apply timerless_markError|by apply timerless_same].
Qed.

(** A row of a requirement at work on a node. *)
Record mid_graph (r : RequirementExecution) (dag : list TaskNode) (id : string) : Prop := {
  mg_live : IsTerminalReqStage (reStage r) = false;
  mg_dag : reDAGRaw r ≠ "" ∧ rqUnmarshalDAG E (reDAGRaw r) = Some dag;
  mg_node : (0 ≤ reCurrentNodeIdx r)%Z ∧ reSortedNodeIDs r !! Z.to_nat (reCurrentNodeIdx r) = Some id;
  mg_task : reCurrentNodeTaskID r ≠ "" }.

Lemma resume_mid_graph o w key r dag id :
  mid_graph r dag id → cell w o = rebuildExecFromKV E key r →
  (resume_interrupted E o w).1 =
    (if bool_decide (id ∈ qVisitedNodes (rebuildExecFromKV E key r)) then (dispatchNextNodeLocked E o w).1 else w).
Proof.
  intros [Hl [Hd1 Hd2] [Hn1 Hn2] Ht] Hc. unfold resume_interrupted. rewrite R_bind_eq. cbn [rexec fst snd]. rewrite Hc.
  pose proof (lookup_lt_Some _ _ _ Hn2) as Hlt. cbn [qTerminated qDAG qCurrentNodeIdx qSortedNodeIDs rebuildExecFromKV].
  apply eqb_false in Hd1 as ->. rewrite Hd2, bool_decide_true by lia.
  assert (node_at (rebuildExecFromKV E key r) (reCurrentNodeIdx r) = Some id) as ->.
  { unfold node_at. rewrite bool_decide_true by lia. done. }
  case_bool_decide; [done|]. cbn [qCurrentNodeTaskID rebuildExecFromKV]. by apply neqb_true in Ht as ->.
Qed.

(** The world after the restart and the resumption. *)
Definition restored (key : string) (r : RequirementExecution) : RWorld :=
  set_rwActive {[reEntityID r := 0%nat]}
    (alloc (rebuildExecFromKV E key r) (set_rwTick 1 (MkRWorld ∅ 0 ∅ ∅ [] 0 []))).1.

Lemma restart_mid_graph key r dag id :
  rqNats E = true → HasPrefix key "req." = true → qiRow (rqIO E 0) key = RowAt r → mid_graph r dag id →
  (∀ n s, rqKeys E n s ≡ₚ elements s) →
  (req_step E REvResume (start_world E [key] [])).1 =
    (if bool_decide (id ∈ qVisitedNodes (rebuildExecFromKV E key r))
     then (dispatchNextNodeLocked E 0 (restored key r)).1 else restored key r).
Proof.
  intros Hn Hp Hrow Hmid Hkeys. set (x := rebuildExecFromKV E key r).
  assert (Hw0 : start_world E [key] [] = restored key r).
  { unfold start_world, reconcileFromGraph, reconcileFromKV. rewrite Hn. cbn [negb]. rewrite R_bind_eq.
    cbn [reconcile_keys]. rewrite !R_bind_eq. unfold reconcile_key. rewrite Hp. cbn [negb].
    rewrite !R_bind_eq. cbn [rtick fst snd rwTick]. rewrite Hrow, (mg_live _ _ _ Hmid). rewrite !R_bind_eq.
    cbn [rmodify mret R_ret fst snd orb]. cbn. rewrite insert_empty. reflexivity. }
  rewrite Hw0. set (w0 := restored key r). cbn [req_step]. unfold resumeInterruptedExecutions.
  rewrite R_bind_eq. cbn [active_keys fst snd].
  assert (rqKeys E (rwTick w0) (dom (rwActive w0)) = [reEntityID r]) as ->.
  { apply Permutation_singleton_r. rewrite Hkeys. cbn. rewrite dom_singleton_L, elements_singleton. done. }
  cbn [resume_keys]. rewrite R_bind_eq. cbn [rread fst snd]. rewrite !R_bind_eq. cbn [mret R_ret fst].
  assert (rwActive w0 !! reEntityID r = Some 0%nat) as -> by apply lookup_singleton_eq.
  exact (resume_mid_graph 0 w0 key r dag id Hmid eq_refl).
Qed.

(** A restarted executor arms no timer for a requirement that was at
    work on a node: a node in flight is left alone, to be ended by its
    completion or a timeout, but there is no timeout any more.  When the last
    node had ended the reviewer is called, a second time if a review was
    under way. *)
Theorem resumed_requirement_unguarded key r dag id :
  rqNats E = true → HasPrefix key "req." = true → qiRow (rqIO E 0) key = RowAt r → mid_graph r dag id →
  (∀ n s, rqKeys E n s ≡ₚ elements s) →
  let w := (req_step E REvResume (start_world E [key] [])).1 in
  let visited := qVisitedNodes (rebuildExecFromKV E key r) in
  rwTimers w = ∅ ∧
  ((id ∉ visited) → rwOut w = [] ∧ rwActive w = {[reEntityID r := 0%nat]}) ∧
  (id ∈ visited → (reCurrentNodeIdx r + 1 = Z.of_nat (length (reSortedNodeIDs r)))%Z →
   (∀ n, qiErr (rqIO E n) = None) → dispatched w = [ReviewWork]).
Proof.
  intros Hn Hp Hrow Hmid Hkeys. cbv zeta. rewrite (restart_mid_graph key r dag id Hn Hp Hrow Hmid Hkeys).
  set (w0 := restored key r). set (x := rebuildExecFromKV E key r). assert (Hc : cell w0 0 = x) by reflexivity. split_and!.
  - case_bool_decide; [|done]. by apply timerless_next.
  - intros Hv. by rewrite bool_decide_false.
  - intros Hv Hlast Hok. rewrite bool_decide_true by done.
    assert (Hnext : next_index (cell w0 0) = Z.of_nat (length (reSortedNodeIDs r))).
    { unfold next_index. rewrite Hc. cbn [qCurrentNodeIdx qSortedNodeIDs x rebuildExecFromKV].
      rewrite Hlast, Nat2Z.id, drop_all. done. }
    destruct (next_reviews E Hn Hok 0 w0) as [D _]; [|exact D].
    rewrite Hnext, node_at_nat, Hc. apply lookup_ge_None. cbn. lia.
Qed.

(** A requirement that waits for a recovery when the executor restarts
    is lost: it is restored as if its node were in flight, with no timer, and
    when the recovery decision it waited for is accepted nothing resumes it,
    for it neither waits any more nor has it ended. *)
Theorem waiting_lost_on_restart key r dag id evt :
  rqNats E = true → HasPrefix key "req." = true → (∀ n, qiRow (rqIO E n) key = RowAt r) → mid_graph r dag id →
  (∀ n s, rqKeys E n s ≡ₚ elements s) → reStage r = "awaiting-recovery" →
  id ∉ qVisitedNodes (rebuildExecFromKV E key r) →
  aeProposalID evt ≠ "" → replans (aeKind evt) = false → aeAffectedRequirementIDs evt = [reRequirementID r] →
  key = RequirementExecutionKey (aeSlug evt) (reRequirementID r) →
  let w := (req_step E REvResume (start_world E [key] [])).1 in
  let w' := (req_step E (REvAccepted evt) w).1 in
  rwOut w' = [] ∧ rwTimers w' = ∅ ∧ rwHeap w' = rwHeap w ∧ rwActive w' = {[reEntityID r := 0%nat]} ∧
  qAwaitingRecovery (cell w' 0) = false.
Proof.
  intros Hn Hp Hrow Hmid Hkeys Hst Hv Hprop Hkind Haff Hkey. cbv zeta.
  rewrite (restart_mid_graph key r dag id Hn Hp (Hrow 0%nat) Hmid Hkeys), bool_decide_false by done.
  set (w := restored key r). cbn [req_step]. unfold handlePlanDecisionAccepted.
  apply eqb_false in Hprop as ->. rewrite Hkind, Haff. unfold coAffectedDependents.
  rewrite R_bind_eq. cbn [length]. rewrite bool_decide_true by lia. cbn [mret R_ret fst snd resume_requirements].
  rewrite R_bind_eq. rewrite bool_decide_false by set_solver. unfold resume_requirement. rewrite R_bind_eq.
  destruct (find_active_spec E (awaiting_for (aeSlug evt) (reRequirementID r)) w) as [-> Hf].
  destruct (find_active E _ w).2 as [o|].
  { destruct Hf as (k & Hk & Ha). change (({[reEntityID r := 0%nat]} : gmap string nat) !! k = Some o) in Hk. apply lookup_singleton_Some in Hk as [_ <-]. discriminate Ha. }
  rewrite R_bind_eq. unfold loadTerminalReqExecFromKV, load_row. rewrite Hn. cbn [negb]. rewrite R_bind_eq.
  cbn [rtick mret R_ret fst snd]. rewrite <- Hkey, Hrow, Hst. change (IsTerminalReqStage "awaiting-recovery") with false.
  cbv iota. cbn. done.
Qed.
End restart.

(** ** Concrete runs *)

Definition payload : event_result := HasResult (MkNodePayload ["src/a.go"] [] "done" "c0ffee" "approved" "").

(** A requirement that has not started. *)
Definition idle : RWorld :=
  (alloc (new_execution (exec_env exec_row) "req.demo.r1" exec_row) (MkRWorld ∅ 0 ∅ ∅ [] 0 [])).1.

Definition two_nodes : list TaskNode := [MkTaskNode "t2" "" "" ["t1"] ["src/a.go"] []; MkTaskNode "t1" "" "" [] ["src/a.go"] []].

Lemma nodes_run_in_order_witness :
  ∃ sorted, deps_first two_nodes sorted ∧
    dispatched (complete_all (exec_env exec_row) 0 [payload; payload]
      (applyParsedDAGLocked (exec_env exec_row) 0 two_nodes idle).1) =
    ((node_work (cell idle 0) <$> sorted) ++ [ReviewWork])%list.
Proof.
  destruct (nodes_run_in_order (exec_env exec_row) eq_refl (λ _, eq_refl) 0 idle two_nodes [payload; payload])
    as (sorted & _ & Ho & Hd & _); try (vm_compute; reflexivity).
  - discriminate.
  - apply (bool_decide_unpack _). vm_compute. exact I.
  - intros n d [->|[->|[]%not_elem_of_nil]%elem_of_cons]%elem_of_cons; simpl; set_solver.
  - apply detect_cycle_None. vm_compute. reflexivity.
  - repeat constructor.
  - exists sorted. split; [exact Ho|]. rewrite Hd. reflexivity.
Defined.

Lemma started_at_first : at_node 0 started ["t1"; "t2"] 0.
Proof.
  split; try (vm_compute; reflexivity).
  - apply (bool_decide_unpack _). vm_compute. exact I.
  - intros id [->|[->|[]%not_elem_of_nil]%elem_of_cons]%elem_of_cons; vm_compute; eauto.
  - simpl. lia.
Qed.

Lemma node_retry_skips_rest_witness :
  let w1 := (handleNodeCompleteLocked (exec_env exec_row) 0 OutcomeFailed NoResult started).1 in
  let w2 := (handleNodeCompleteLocked (exec_env exec_row) 0 OutcomeSuccess payload w1).1 in
  dispatched w2 = [NodeWork "node-r1-t1"; NodeWork "node-r1-t1"; ReviewWork].
Proof.
  intros w1 w2.
  destruct (node_retry_skips_rest (exec_env exec_row) eq_refl (λ _, eq_refl) 0 started ["t1"; "t2"] 0
    OutcomeFailed NoResult payload "t1") as [H _].
  - exact started_at_first.
  - reflexivity.
  - simpl. lia.
  - vm_compute. discriminate.
  - vm_compute. reflexivity.
  - split; [discriminate|exact I].
  - exact I.
  - subst w1 w2. rewrite H. vm_compute. reflexivity.
Defined.

Lemma branch_never_recorded_witness :
  qRequirementBranch (cell started 0) = "semspec/requirement-r1" ∧
  qRequirementBranch (rebuildExecFromKV (exec_env exec_row) "req.demo.r1" (rows_after (rwOut started)
    (new_req (ExecStore.sample_env exec_plan)
       (MkReqCreateRequest "demo" "r1" "t" "" "" "" "" "" "" [] [] "" "" "main" "" false) 0))) = "".
Proof.
  split; [vm_compute; reflexivity|].
  refine (proj1 (branch_never_recorded (exec_env exec_row) _ started _ _ (rwOut started) _ _ _ _ eq_refl)).
  - apply run_req_reachable.
  - done.
Defined.

(** The row of the requirement at work on its first node. *)
Definition busy_row : RequirementExecution := rows_after (rwOut started) exec_row.

Lemma resumed_requirement_unguarded_witness :
  rwTimers (req_step (exec_env busy_row) REvResume (start_world (exec_env busy_row) ["req.demo.r1"] [])).1 = ∅.
Proof.
  refine (proj1 (resumed_requirement_unguarded (exec_env busy_row) "req.demo.r1" busy_row
    [MkTaskNode "t1" "" "" [] [] []; MkTaskNode "t2" "" "" ["t1"] [] []] "t1" _ _ _ _ _)).
  - reflexivity.
  - reflexivity.
  - reflexivity.
  - split; [vm_compute; reflexivity|split; [vm_compute; discriminate|reflexivity]|split; vm_compute; [discriminate|reflexivity]|vm_compute; discriminate].
  - reflexivity.
Defined.

Definition revise : PlanDecisionAcceptedEvent :=
  MkAcceptedEvent "d1" "demo" "" PlanDecisionKindArchitectureRevise ["r1"] [].

(** Claimed, then abandoned by an accepted revision before it has started. *)
Definition abandoned : RWorld :=
  run_req (exec_env exec_row) [REvPending "req.demo.r1" exec_row; REvAccepted revise] (start_world (exec_env exec_row) [] []).

(** An accepted revision does not stop a requirement that is claimed but
    not yet initialised: the execution is ended and off the cache, and its
    initialisation still creates the branch and gives the first node to the
    execution manager. *)
Theorem abandoned_requirement_still_starts :
  let w' := (req_step (exec_env exec_row) (REvStart 0) abandoned).1 in
  over 0 abandoned ∧ dispatched abandoned = [] ∧ over 0 w' ∧ dispatched w' = [NodeWork "node-r1-t1"].
Proof.
  cbv zeta. split_and!; [|vm_compute; reflexivity| |vm_compute; reflexivity].
  - apply (ended_over (exec_env exec_row)); [apply rinv_reachable, run_req_reachable|vm_compute; reflexivity].
  - apply (ended_over (exec_env exec_row)); [|vm_compute; reflexivity].
    apply rinv_step, rinv_reachable, run_req_reachable.
Qed.

(** The first node gives up; the requirement waits, and the executor restarts. *)
Definition waiting_row : RequirementExecution := rows_after (rwOut waiting) exec_row.

Lemma waiting_lost_on_restart_witness :
  reStage waiting_row = "awaiting-recovery" ∧
  qAwaitingRecovery (cell (req_step (exec_env waiting_row)
    (REvAccepted (MkAcceptedEvent "d1" "demo" "" PlanDecisionKindRequirementChange ["r1"] []))
    (req_step (exec_env waiting_row) REvResume (start_world (exec_env waiting_row) ["req.demo.r1"] [])).1).1 0) = false.
Proof.
  split; [vm_compute; reflexivity|].
  refine (proj2 (proj2 (proj2 (proj2 (waiting_lost_on_restart (exec_env waiting_row) "req.demo.r1" waiting_row
    [MkTaskNode "t1" "" "" [] [] []; MkTaskNode "t2" "" "" ["t1"] [] []] "t1" _ _ _ _ _ _ _ _ _ _ _ _))))).
  - reflexivity.
  - reflexivity.
  - intros n. reflexivity.
  - split; [vm_compute; reflexivity|split; [vm_compute; discriminate|reflexivity]|split; vm_compute; [discriminate|reflexivity]|vm_compute; discriminate].
  - intros n s. reflexivity.
  - vm_compute. reflexivity.
  - apply (bool_decide_unpack _). vm_compute. exact I.
  - discriminate.
  - reflexivity.
  - vm_compute. reflexivity.
  - vm_compute. reflexivity.
Defined.
