(* ===== verification/ReqGate.v ===== *)
(** * What a completed requirement has shown

    An approved review completes a requirement only when its nodes' claims
    are backed by commits and the files its stories promise are there; a
    story is skipped only on evidence; skipping ends.  An accepted decision
    that sends the plan back ends the executions it concerns. *)

From stdpp Require Import pretty.
From S2P Require Import Prelude Graphs Status Paths Types Stories Branches TaskDag PlanStore ExecTypes Feedback ExecStore.
From S2P Require Import AutoAccept ExecMutations Convergence ReqTypes ReqEvidence ReqPipeline ReqRecovery ReqRuns.

Local Open Scope string_scope.
Local Open Scope go_scope.

(** ** Programs that complete nothing *)

Definition completing (m : req_message * bool) : bool :=
  match m.1 with QPhase r => rpStage r =? "completed" | _ => false end.

(** How often a completion was announced. *)
Definition completions (w : RWorld) : list (req_message * bool) := filter (λ m, completing m = true) (rwOut w).

(** [m] interacts with its surroundings in the order of the clock. *)
Definition timely {A} (m : R A) : Prop := ∀ w, (rwTick w ≤ rwTick (m w).1)%nat.

Lemma timely_bind {A B} (m : R A) (f : A → R B) : timely m → (∀ x, timely (f x)) → timely (m ≫= f).
Proof. intros Hm Hf w. rewrite R_bind_eq. etrans; [apply Hm|apply Hf]. Qed.

Definition silent {A} (m : R A) : Prop := timely m ∧ ∀ w, completions (m w).1 = completions w.

Lemma silent_bind {A B} (m : R A) (f : A → R B) : silent m → (∀ x, silent (f x)) → silent (m ≫= f).
Proof.
  intros [Ht Hm] Hf. split; [apply timely_bind; [done|apply Hf]|]. intros w.
  by rewrite R_bind_eq, (proj2 (Hf _)), Hm.
Qed.

Lemma silent_same {A} (m : R A) : (∀ w, rwOut (m w).1 = rwOut w ∧ (rwTick w ≤ rwTick (m w).1)%nat) → silent m.
Proof. intros Hm. split; intros w; [apply Hm|]. unfold completions. by rewrite (proj1 (Hm w)). Qed.

Lemma silent_log m : completing m = false → silent (rmodify (λ w, set_rwOut (rwOut w ++ [m])%list w)).
Proof.
  intros Hm. split; [by intros w|]. intros w. unfold completions. cbn.
  rewrite filter_app, filter_cons_False by (by rewrite Hm). apply app_nil_r.
Qed.

Lemma silent_tick E : silent (rtick E).
Proof. apply silent_same. intros w. split; [done|cbn; lia]. Qed.

Lemma silent_stop r : silent (stop r).
Proof. apply silent_same. intros w. by destruct r. Qed.

Section silence.
Context (E : ReqEnv).

Lemma silent_rsend m : completing (m, true) = false → silent (rsend E m).
Proof.
  intros Hm. apply silent_bind; [apply silent_tick|intros io].
  apply silent_bind; [by apply silent_log|intros _; by apply silent_same].
Qed.

Lemma silent_sendMutation m : completing (m, true) = false → silent (sendMutation E m).
Proof.
  intros Hm. unfold sendMutation. destruct (rqNats E); [|by apply silent_same].
  apply silent_bind; [by apply silent_rsend|intros _; by apply silent_same].
Qed.

Lemma silent_call_sandbox m : completing (m, true) = false → silent (call_sandbox E m).
Proof.
  intros Hm. unfold call_sandbox. destruct (rqSandbox E); [|by apply silent_same].
  apply silent_bind; [by apply silent_rsend|intros _; by apply silent_same].
Qed.
End silence.

Create HintDb silent discriminated.
#[export] Hint Resolve silent_stop : silent.

Ltac silent_step :=
  first
    [ solve [eauto 1 with silent]
    | assumption
    | match goal with
      | |- silent (rsend _ _) => by apply silent_rsend
      | |- silent (sendMutation _ _) => by apply silent_sendMutation
      | |- silent (call_sandbox _ _) => by apply silent_call_sandbox
      | |- silent (mret _) => by apply silent_same
      | |- silent (rexec _) => by apply silent_same
      | |- silent (rtick _) => apply silent_tick
      | |- silent (updr _ _) => by apply silent_same
      | |- silent (arm _) => by apply silent_same
      | |- silent (rmodify _) => first [by apply silent_same | by apply silent_log]
      | |- silent (_ ≫= _) => apply silent_bind; [|intros ?]
      | |- silent (if ?b then _ else _) => destruct b
      | |- silent (match ?x with _ => _ end) => destruct x
      | |- silent (let _ := _ in _) => cbv zeta
      end ].

Ltac silent_auto := repeat silent_step.

Section gate.
Context (E : ReqEnv).

Lemma silent_cleanup o success : silent (cleanupExecutionLocked E o success).
Proof.
  assert (Hd : ∀ ids, silent (delete_worktrees E ids)).
  { induction ids as [|id ids IH]; cbn [delete_worktrees]; silent_auto. }
  unfold cleanupExecutionLocked. silent_auto.
Qed.
#[local] Hint Resolve silent_cleanup : silent.

Lemma silent_markFailed o reason : silent (markFailedLocked E o reason).
Proof. unfold markFailedLocked, release_story. silent_auto. Qed.

Lemma silent_markError o reason : silent (markErrorLocked E o reason).
Proof. unfold markErrorLocked. silent_auto. Qed.

Lemma silent_defer o reason : silent (deferToAwaitingRecoveryLocked E o reason).
Proof. unfold deferToAwaitingRecoveryLocked. silent_auto. Qed.
#[local] Hint Resolve silent_markFailed silent_markError silent_defer : silent.

Lemma silent_defer_or_fail o reason : silent (defer_or_fail E o reason).
Proof. unfold defer_or_fail. silent_auto. Qed.

Lemma silent_emit o verdict feedback : silent (emitExhaustionDecision E o verdict feedback).
Proof. unfold emitExhaustionDecision, publishRecoveryRequested. silent_auto. Qed.

Lemma silent_reviewer o : silent (dispatchRequirementReviewerLocked E o).
Proof. unfold dispatchRequirementReviewerLocked, publish_reviewer. silent_auto. Qed.
#[local] Hint Resolve silent_defer_or_fail silent_emit silent_reviewer : silent.

Lemma silent_next o : silent (dispatchNextNodeLocked E o).
Proof. unfold dispatchNextNodeLocked, sendTaskCreate. silent_auto. Qed.
#[local] Hint Resolve silent_next : silent.

Lemma silent_dag o dag : silent (applyParsedDAGLocked E o dag).
Proof. unfold applyParsedDAGLocked. silent_auto. Qed.

Lemma silent_fixable o feedback : silent (startFixableRetryLocked E o feedback).
Proof. unfold startFixableRetryLocked. silent_auto. Qed.

Lemma silent_loadPlan slug : silent (loadPlanFromKV E slug).
Proof. unfold loadPlanFromKV. silent_auto. Qed.

Lemma silent_load_row want slug id : silent (load_row E want slug id).
Proof. unfold load_row. silent_auto. Qed.

Lemma silent_delivered o : silent (deliveredFilesForReviewerWorktree E o).
Proof. unfold deliveredFilesForReviewerWorktree. silent_auto. Qed.
#[local] Hint Resolve silent_dag silent_fixable silent_loadPlan silent_load_row silent_delivered : silent.

Lemma silent_evidence o story : silent (applyCompletedStoryEvidenceLocked E o story).
Proof. unfold applyCompletedStoryEvidenceLocked, loadCompletedReqExecFromKV. silent_auto. Qed.

Lemma silent_storyGap o : silent (handleApprovedDeliverableGapLocked E o).
Proof. unfold handleApprovedDeliverableGapLocked, handleApprovedDeliverableGapForPlanLocked. silent_auto. Qed.

Lemma silent_reqGapForPlan o plan : silent (handleRequirementDeliverableGapForPlanLocked E o plan).
Proof. unfold handleRequirementDeliverableGapForPlanLocked. silent_auto. Qed.

Lemma silent_mismatch o : silent (handleApprovedClaimMismatchLocked E o).
Proof. unfold handleApprovedClaimMismatchLocked. silent_auto. Qed.

Lemma silent_publishStory o : silent (publishStoryCompleteLocked E o).
Proof. unfold publishStoryCompleteLocked. silent_auto. Qed.
#[local] Hint Resolve silent_evidence silent_storyGap silent_reqGapForPlan silent_mismatch silent_publishStory : silent.

(** ** The gate of the promised files *)

Lemma elem_of_uniques x l ids : x ∈ foldl appendUnique l ids ↔ x ∈ l ∨ x ∈ ids.
Proof.
  revert l. induction ids as [|id ids IH]; intros l; cbn [foldl]; [set_solver|].
  rewrite IH, elem_of_appendUnique. set_solver.
Qed.

Lemma missing_none expected delivered :
  missingDeliverableFiles expected delivered = [] →
  ∀ p, p ∈ expected → NormalizeFilePath p ≠ "" → NormalizeFilePath p ∈ NormalizeFilePath <$> delivered.
Proof.
  intros Hm p Hp Hne. destruct (decide (NormalizeFilePath p ∈ NormalizeFilePath <$> delivered)) as [|Hout]; [done|].
  assert (NormalizeFilePath p ∈ missingDeliverableFiles expected delivered) as H; [|rewrite Hm in H; set_solver].
  apply list_elem_of_filter. split; [done|]. apply elem_of_uniques. right. apply list_elem_of_filter.
  split; [done|]. by apply list_elem_of_fmap_2.
Qed.

(** A file that the plan wants created and that one of the stories owns, by its
    normalized path. *)
Definition promised (plan : Plan) (ids : list string) (p : string) : Prop :=
  p ≠ "" ∧ (∃ f, f ∈ scpCreate (pScope plan) ∧ NormalizeFilePath f = p) ∧
  ∃ s f, s ∈ pStories plan ∧ sID s ≠ "" ∧ sID s ∈ ids ∧ f ∈ sFilesOwned s ∧ NormalizeFilePath f = p.

(** Between two ticks, every promised file was listed in the worktree.  The
    comparison normalizes the path once more, which can change a path with
    blanks next to its separators. *)
Definition promises_kept (lo hi : nat) (worktree : string) (plan : Plan) (ids : list string) : Prop :=
  ∀ p, promised plan ids p → NormalizeFilePath p ≠ "" → ∃ n files f, (lo ≤ n < hi)%nat ∧
    parse_ls (qiLs (rqIO E n) worktree) = inl files ∧ f ∈ files ∧ NormalizeFilePath f = NormalizeFilePath p.

Lemma promised_obligation plan ids p : promised plan ids p → p ∈ requirementScopeCreateObligations plan ids.
Proof.
  intros (Hne & (f & Hf & <-) & s & g & Hs & Hid & Hin & Hg & Hp). apply elem_of_uniques. right. apply list_elem_of_filter.
  split; [split; [done|]|by apply list_elem_of_fmap_2]. apply elem_of_list_to_set, list_elem_of_filter. split; [done|].
  rewrite <- Hp. apply list_elem_of_fmap_2, list_elem_of_join. exists (sFilesOwned s). split; [done|].
  apply list_elem_of_fmap_2. by apply list_elem_of_filter.
Qed.

Context (o : nat).

Section gated.
(** The plan and the reviewer's worktree of the execution. *)
Context (slug worktree : string) (Hrev : worktree ≠ "").

Definition reviewed (ids : list string) (w : RWorld) : Prop :=
  qSortedStoryIDs (cell w o) = ids ∧ qSlug (cell w o) = slug ∧ qReviewerTaskID (cell w o) = worktree.

Lemma gate_open plan ids w :
  rqSandbox E = true → ids ≠ [] → reviewed ids w →
  let r := handleRequirementDeliverableGapForPlanLocked E o plan w in
  r.2 = false → promises_kept (rwTick w) (rwTick r.1) worktree plan ids.
Proof.
  intros Hs Hne (Hids & _ & Hrid). cbv zeta. unfold handleRequirementDeliverableGapForPlanLocked. rewrite R_bind_eq.
  cbn [rexec fst snd]. rewrite Hs, Hids, Hrid. apply is_nil_false in Hne as ->. apply eqb_false in Hrev as Er. rewrite Er.
  cbn [negb orb]. destruct (is_nil (requirementScopeCreateObligations plan ids)) eqn:Ee.
  { intros _ p Hp%promised_obligation _. apply is_nil_true in Ee. rewrite Ee in Hp. set_solver. }
  rewrite R_bind_eq. unfold deliveredFilesForReviewerWorktree. rewrite R_bind_eq. cbn [rexec fst snd]. rewrite Hrid, Er.
  rewrite !R_bind_eq. cbn [rtick rmodify mret R_ret fst snd].
  destruct (parse_ls (qiLs (rqIO E (rwTick w)) worktree)) as [files|e] eqn:El; [|by rewrite !R_bind_eq].
  destruct (is_nil (missingDeliverableFiles _ files)) eqn:Em; [|by rewrite !R_bind_eq].
  intros _ p Hp Hnp. cbn [fst]. apply is_nil_true in Em.
  destruct (proj1 (list_elem_of_fmap _ _ _) (missing_none _ _ Em p (promised_obligation _ _ _ Hp) Hnp)) as (f & Hf & Hin).
  exists (rwTick w), files, f. split; [cbn; lia|]. split_and!; congruence.
Qed.

(** What [m], run from the tick [lo] on, completes has passed the gate by the
    time it is done. *)
Definition completes_if (lo : nat) (P : nat → Prop) (ids : list string) (m : R ()) : Prop :=
  ∀ w, reviewed ids w → (lo ≤ rwTick w)%nat → completions (m w).1 = completions w ∨ P (rwTick (m w).1).

Lemma silent_completes lo P ids m : silent m → completes_if lo P ids m.
Proof. intros [_ Hm] w _ _. left. apply Hm. Qed.

Lemma completes_bind {A} lo P ids (m : R A) (f : A → R ()) :
  silent m → (∀ w, reviewed ids w → reviewed ids (m w).1) → (∀ x, completes_if lo P ids (f x)) →
  completes_if lo P ids (m ≫= f).
Proof.
  intros [Ht Hm] Hp Hf w Hw Hlo. rewrite R_bind_eq. specialize (Ht w).
  destruct (Hf (m w).2 (m w).1) as [->|?]; [by apply Hp|lia|left; apply Hm|by right].
Qed.

Lemma reviewed_logs {A} ids (m : R A) w : logs m → reviewed ids w → reviewed ids (m w).1.
Proof. intros Hm. unfold reviewed. by rewrite (logged_cell o w (m w).1 (Hm w)). Qed.

Lemma reviewed_updr ids f w :
  qSortedStoryIDs (f (cell w o)) = qSortedStoryIDs (cell w o) → qSlug (f (cell w o)) = qSlug (cell w o) →
  qReviewerTaskID (f (cell w o)) = qReviewerTaskID (cell w o) →
  reviewed ids w → reviewed ids (updr o f w).1.
Proof. unfold reviewed. rewrite cell_updr. by intros -> -> ->. Qed.

(** Evidence leaves the stories and the cursor. *)
Lemma copy_result_frame story l st :
  let y := (foldl (copy_result story) st l).2 in
  qSortedStoryIDs y = qSortedStoryIDs st.2 ∧ qReviewerTaskID y = qReviewerTaskID st.2 ∧
  qCurrentStoryIdx y = qCurrentStoryIdx st.2 ∧ qSlug y = qSlug st.2.
Proof.
  revert st. induction l as [|nr l IH]; intros st; [done|]. cbn [foldl]. destruct (IH (copy_result story st nr)) as (-> & -> & -> & ->).
  unfold copy_result. by destruct (_ || _).
Qed.

Lemma evidence_frame story w :
  let y := cell (applyCompletedStoryEvidenceLocked E o story w).1 o in
  qSortedStoryIDs y = qSortedStoryIDs (cell w o) ∧ qReviewerTaskID y = qReviewerTaskID (cell w o) ∧
  qCurrentStoryIdx y = qCurrentStoryIdx (cell w o) ∧ qSlug y = qSlug (cell w o).
Proof.
  cbv zeta. unfold applyCompletedStoryEvidenceLocked. destruct (negb _); [done|]. rewrite R_bind_eq. cbn [rexec fst snd].
  case_match; [done|]. case_match; [done|]. rewrite R_bind_eq.
  pose proof (logged_cell o w _ (logs_load_row E (λ stage, stage =? "completed") (qSlug (cell w o))
    (DeterministicStoryOwner story) w)) as Ec. fold (loadCompletedReqExecFromKV E) in *.
  destruct (loadCompletedReqExecFromKV E _ _ w) as [w1 [owner|]]; cbn [fst snd] in *; [|cbn [mret R_ret fst]; by rewrite Ec].
  case_match; [cbn [mret R_ret fst]; by rewrite Ec|].
  destruct (copyStoryEvidence (cell w o) story owner) as [x' found] eqn:Ex. rewrite R_bind_eq. cbn [mret R_ret fst].
  rewrite cell_updr. pose proof (copy_result_frame story (qNodeResults owner)
    (list_to_set (nodeEvidenceKey <$> qNodeResults (cell w o)), cell w o)) as Hf.
  assert (Hx' : qSortedStoryIDs x' = qSortedStoryIDs (cell w o) ∧ qReviewerTaskID x' = qReviewerTaskID (cell w o) ∧
    qCurrentStoryIdx x' = qCurrentStoryIdx (cell w o) ∧ qSlug x' = qSlug (cell w o)).
  { unfold copyStoryEvidence in Ex. destruct (is_nil _); [by injection Ex as <- <-|]. cbv zeta in Ex, Hf.
    injection Ex as <- _. exact Hf. }
  destruct found; [|done]. unfold copyScenarioVerdictEvidence. by destruct (_ || _).
Qed.

Lemma reviewed_evidence ids story w :
  reviewed ids w → reviewed ids (applyCompletedStoryEvidenceLocked E o story w).1.
Proof. unfold reviewed. destruct (evidence_frame story w) as (-> & -> & _ & ->). done. Qed.

Lemma timely_complete : timely (markCompletedLocked E o).
Proof.
  assert (Hsend : ∀ m, timely (sendMutation E m)).
  { intros m w. unfold sendMutation. destruct (rqNats E); [|done]. unfold rsend. rewrite !R_bind_eq. cbn. lia. }
  unfold markCompletedLocked. apply timely_bind; [by intros w|intros x]. destruct (qTerminated x); [by intros w|].
  apply timely_bind; [by intros w|intros _]. apply timely_bind; [apply Hsend|intros _].
  apply timely_bind; [apply Hsend|intros _]. apply (silent_cleanup o true).
Qed.

(** Completing after the gate. *)
Lemma gated_completion lo (P : nat → Prop) ids plan :
  rqSandbox E = true → ids ≠ [] → (∀ lo' hi, (lo ≤ lo')%nat → promises_kept lo' hi worktree plan ids → P hi) →
  completes_if lo P ids (gap ← handleRequirementDeliverableGapForPlanLocked E o plan;
                         if gap : bool then mret () else markCompletedLocked E o).
Proof.
  intros Hs Hne HP w Hw Hlo. rewrite R_bind_eq. pose proof (gate_open plan ids w Hs Hne Hw) as Hg. cbv zeta in Hg.
  destruct (handleRequirementDeliverableGapForPlanLocked E o plan w) as [w1 gap] eqn:Eg. cbn [fst snd] in *.
  pose proof (proj2 (silent_reqGapForPlan o plan) w) as Hsil. rewrite Eg in Hsil.
  destruct gap; [left; exact Hsil|]. right. apply (HP (rwTick w)); [done|]. intros p Hp Hnp.
  destruct (Hg eq_refl p Hp Hnp) as (n & files & f & ? & ?). exists n, files, f. split; [|done].
  pose proof (timely_complete w1). lia.
Qed.

Lemma completes_dispatch lo (P : nat → Prop) ids plan fuel :
  rqSandbox E = true → ids ≠ [] → (∀ lo' hi, (lo ≤ lo')%nat → promises_kept lo' hi worktree plan ids → P hi) →
  completes_if lo P ids (dispatch_story E fuel o plan).
Proof.
  intros Hs Hne HP. induction fuel as [|fuel IH]; [by apply silent_completes, silent_same|]. cbn [dispatch_story].
  assert (Hadv : completes_if lo P ids (advancePastSkippedStoryLocked E (dispatch_story E fuel) o plan)).
  { unfold advancePastSkippedStoryLocked. apply completes_bind; [by apply silent_same|done|intros x].
    case_bool_decide; [|by apply gated_completion].
    apply completes_bind; [by apply silent_same|intros w Hw; by apply reviewed_updr|done]. }
  assert (Hskip : ∀ story reason, completes_if lo P ids (skip_story E (dispatch_story E fuel) o plan story reason)).
  { intros story reason. unfold skip_story. apply completes_bind; [apply silent_evidence|intros w; apply reviewed_evidence|].
    intros []; [done|apply silent_completes, silent_markFailed]. }
  unfold dispatch_story_step. apply completes_bind; [by apply silent_same|done|intros x].
  destruct (current_story x); [|apply silent_completes, silent_markFailed].
  destruct (findStoryByID plan s) as [story|]; [|apply silent_completes, silent_markFailed].
  destruct (sStatus story =? StoryStatusComplete); [apply Hskip|].
  unfold claim_and_dispatch. apply completes_bind; [by apply silent_same|done|intros y].
  apply completes_bind.
  - unfold ClaimStoryStatus. destruct (rqNats E); silent_auto.
  - intros w Hw. destruct (rqNats E); [|done]. apply reviewed_logs; [|done]. unfold ClaimStoryStatus. logs_auto.
  - intros []; cbn [negb]; [|apply Hskip].
    destruct (synthesizeTaskDAGForStory _ _ _); [apply silent_completes, silent_dag|apply silent_completes, silent_markFailed].
Qed.

(** ** Theorems *)

(** Between two ticks the executor read the plan of the slug and then found
    every file it promises in the worktree. *)
Definition plan_satisfied (lo hi : nat) (ids : list string) : Prop :=
  ∃ n plan, (lo ≤ n)%nat ∧ qiPlan (rqIO E n) slug = PlanAt plan ∧ promises_kept (S n) hi worktree plan ids.

Lemma loadPlan_read w plan :
  (loadPlanFromKV E slug w).2 = inl (Some plan) →
  qiPlan (rqIO E (rwTick w)) slug = PlanAt plan ∧ rwTick (loadPlanFromKV E slug w).1 = S (rwTick w).
Proof.
  unfold loadPlanFromKV. destruct (negb _); [done|]. rewrite R_bind_eq. cbn. by destruct (qiPlan _ _); intros [= ->].
Qed.

Lemma storyGap_passed w :
  (handleApprovedDeliverableGapLocked E o w).2 = false → logged w (handleApprovedDeliverableGapLocked E o w).1.
Proof.
  unfold handleApprovedDeliverableGapLocked. rewrite R_bind_eq. cbn [rexec fst snd]. case_match; [done|].
  rewrite R_bind_eq. pose proof (logs_loadPlan E (qSlug (cell w o)) w) as Hl.
  destruct (loadPlanFromKV E (qSlug (cell w o)) w) as [w1 r]. cbn [fst snd] in *.
  destruct r as [[plan|]|e]; [|by rewrite R_bind_eq..].
  unfold handleApprovedDeliverableGapForPlanLocked. rewrite R_bind_eq. cbn [rexec fst snd]. case_match; [done|].
  destruct (current_story (cell w1 o)); [|by rewrite R_bind_eq].
  destruct (findStoryByID plan s) as [story|]; [|by rewrite R_bind_eq]. cbv zeta. case_match; [done|].
  rewrite R_bind_eq. assert (Hd : logs (deliveredFilesForReviewerWorktree E o)).
  { unfold deliveredFilesForReviewerWorktree. logs_auto. }
  specialize (Hd w1). destruct (deliveredFilesForReviewerWorktree E o w1) as [w2 [files|e]]; cbn [fst snd] in *;
    [|by rewrite R_bind_eq]. case_match; [|by rewrite R_bind_eq]. intros _. cbn [mret R_ret fst].
  destruct Hl, Hd. split; try congruence. auto.
Qed.

Lemma completes_final lo ids :
  rqNats E = true → rqSandbox E = true → ids ≠ [] →
  completes_if lo (λ hi, plan_satisfied lo hi ids) ids (gap ← handleRequirementDeliverableGapLocked E o;
                                                     if gap : bool then mret () else markCompletedLocked E o).
Proof.
  intros Hn Hs Hne w Hw Hlo. destruct (Hw) as (Hids & Hslug & Hrid).
  unfold handleRequirementDeliverableGapLocked. rewrite R_bind_eq. rewrite R_bind_eq. cbn [rexec fst snd].
  rewrite Hs, Hn, Hids, Hslug, Hrid. pose proof (proj2 (is_nil_false ids) Hne) as ->.
  rewrite (proj2 (eqb_false _ _) Hrev). cbn [negb orb].
  rewrite R_bind_eq. pose proof (loadPlan_read w) as Hread.
  pose proof (logs_loadPlan E slug) as Hl. pose proof (proj2 (silent_loadPlan slug) w) as Hsil.
  pose proof (reviewed_logs ids _ w Hl Hw) as Hw1.
  destruct (loadPlanFromKV E slug w) as [w1 r]. cbn [fst snd] in *.
  destruct r as [[plan|]|e].
  - destruct (Hread plan eq_refl) as [Hp Ht].
    destruct (gated_completion (S (rwTick w)) (λ hi, plan_satisfied lo hi ids) ids plan Hs Hne) with w1 as [Hc|HP]; [|done|lia| |].
    + intros lo' hi Hlo' Hk. exists (rwTick w), plan. split; [done|split; [done|]]. intros p Hpp Hnp.
      destruct (Hk p Hpp Hnp) as (n & files & f & ? & ?). exists n, files, f. split; [lia|done].
    + left. rewrite R_bind_eq in Hc. by rewrite Hc.
    + right. by rewrite R_bind_eq in HP.
  - left. rewrite R_bind_eq. cbn [mret R_ret fst snd]. by rewrite (proj2 (silent_markFailed _ _)).
  - left. rewrite R_bind_eq. cbn [mret R_ret fst snd]. by rewrite (proj2 (silent_markFailed _ _)).
Qed.

Lemma completes_advance lo ids :
  rqSandbox E = true → ids ≠ [] →
  completes_if lo (λ hi, plan_satisfied lo hi ids) ids (advanceToNextStoryLocked E o).
Proof.
  intros Hs Hne. unfold advanceToNextStoryLocked.
  apply completes_bind; [by apply silent_same|intros w Hw; by apply reviewed_updr|intros _].
  intros w Hw Hlo. rewrite R_bind_eq. cbn [rexec fst snd]. rewrite (proj1 (proj2 Hw)). rewrite R_bind_eq.
  pose proof (loadPlan_read w) as Hread.
  pose proof (logs_loadPlan E slug) as Hl. pose proof (proj2 (silent_loadPlan slug) w) as Hsil.
  pose proof (reviewed_logs ids _ w Hl Hw) as Hw1.
  destruct (loadPlanFromKV E slug w) as [w1 r]. cbn [fst snd] in *. destruct r as [[plan|]|e].
  - destruct (Hread plan eq_refl) as [Hp Ht]. unfold dispatchCurrentStoryLocked. rewrite R_bind_eq. cbn [rexec fst snd].
    destruct (completes_dispatch (S (rwTick w)) (λ hi, plan_satisfied lo hi ids) ids plan
      (S (length (qSortedStoryIDs (cell w1 o)))) Hs Hne) with w1 as [Hc|HP]; [|done|lia|left; by rewrite Hc|by right].
    intros lo' hi Hlo' Hk. exists (rwTick w), plan. split; [done|split; [done|]]. intros p Hpp Hnp.
    destruct (Hk p Hpp Hnp) as (n & files & f & ? & ?). exists n, files, f. split; [lia|done].
  - left. by rewrite (proj2 (silent_markFailed _ _)).
  - left. by rewrite (proj2 (silent_markFailed _ _)).
Qed.

End gated.

(** C4: With a sandbox and commit observation, an approved review completes
    the requirement only when every node that claims files has a commit and,
    during the very call that completes it, the plan of the requirement's slug
    was read and every file that this plan wants created and one of the
    requirement's stories owns, the skipped stories included, was then found
    in a listing of the reviewer's worktree. *)
Theorem approved_completion_checked w ids :
  rqNats E = true → rqSandbox E = true → requireCommitObservation E = true →
  qSortedStoryIDs (cell w o) = ids → ids ≠ [] → qReviewerTaskID (cell w o) ≠ "" →
  let w' := (handleApprovedVerdictLocked E o w).1 in
  completions w' ≠ completions w →
  (∀ nr, nr ∈ qNodeResults (cell w o) → nrFilesModified nr ≠ [] → nrCommitSHA nr ≠ "") ∧
  plan_satisfied (qSlug (cell w o)) (qReviewerTaskID (cell w o)) (rwTick w) (rwTick w') ids.
Proof.
  intros Hn Hs Hc Hids Hne Hrev. set (slug := qSlug (cell w o)). set (worktree := qReviewerTaskID (cell w o)) in *. cbv zeta.
  assert (Hw : reviewed slug worktree ids w) by done.
  unfold handleApprovedVerdictLocked. rewrite R_bind_eq.
  pose proof (proj2 (silent_mismatch o) w) as Hsm. unfold handleApprovedClaimMismatchLocked in *. rewrite Hc in *. cbn [negb] in *.
  rewrite R_bind_eq in *. cbn [rexec fst snd] in *. destruct (is_nil (unobserved (cell w o))) eqn:Eu.
  2:{ rewrite R_bind_eq in *. cbn [mret R_ret fst snd] in *. intros Hd. by destruct Hd. }
  cbn [mret R_ret fst snd] in *. cbv iota. intros Hd. split.
  { apply is_nil_true in Eu. intros nr Hin Hf Hsha. unfold unobserved in Eu. apply fmap_nil_inv in Eu.
    assert (nr ∈ filter (λ nr, nrFilesModified nr ≠ [] ∧ nrCommitSHA nr = "") (qNodeResults (cell w o))) as H
      by (by apply list_elem_of_filter). rewrite Eu in H. set_solver. }
  revert Hd. rewrite R_bind_eq. destruct (silent_storyGap o) as [Htg Hsg]. specialize (Htg w). specialize (Hsg w).
  pose proof (storyGap_passed w) as Hpass.
  destruct (handleApprovedDeliverableGapLocked E o w) as [w1 gap]. cbn [fst snd] in *.
  destruct gap; [intros Hd; by destruct Hd|]. specialize (Hpass eq_refl). cbv iota.
  assert (Hw1 : reviewed slug worktree ids w1) by (unfold reviewed; by rewrite (logged_cell o w w1)).
  rewrite R_bind_eq. destruct (silent_publishStory o) as [Htp Hsp]. specialize (Htp w1). specialize (Hsp w1).
  assert (Hlp : logs (publishStoryCompleteLocked E o)).
  { unfold publishStoryCompleteLocked. apply logs_bind; [apply logs_rexec|intros x].
    destruct (current_story x); [by apply logs_sendMutation|apply logs_ret]. }
  pose proof (reviewed_logs slug worktree ids _ w1 Hlp Hw1) as Hw2. set (w2 := (publishStoryCompleteLocked E o w1).1) in *.
  rewrite R_bind_eq. cbn [rexec fst snd]. rewrite <- Hsg, <- Hsp. case_bool_decide; intros Hd.
  - destruct (completes_advance slug worktree Hrev (rwTick w) ids Hs Hne w2 Hw2) as [He|?]; [lia|by destruct Hd|done].
  - destruct (completes_final slug worktree Hrev (rwTick w) ids Hn Hs Hne w2 Hw2) as [He|?]; [lia|by destruct Hd|done].
Qed.

(** The stories the dispatch may still go through. *)
Definition stories_left (x : requirementExecution) : nat :=
  Z.to_nat (Z.of_nat (length (qSortedStoryIDs x)) - qCurrentStoryIdx x).

Lemma dispatch_fuel f1 f2 plan w :
  (stories_left (cell w o) < f1)%nat → (stories_left (cell w o) < f2)%nat →
  dispatch_story E f1 o plan w = dispatch_story E f2 o plan w.
Proof.
  revert f2 w. induction f1 as [|f1 IH]; intros [|f2] w H1 H2; [lia..|]. cbn [dispatch_story].
  assert (Hskip : ∀ story reason w', (0 ≤ qCurrentStoryIdx (cell w o))%Z →
    qSortedStoryIDs (cell w' o) = qSortedStoryIDs (cell w o) → qCurrentStoryIdx (cell w' o) = qCurrentStoryIdx (cell w o) →
    skip_story E (dispatch_story E f1) o plan story reason w' = skip_story E (dispatch_story E f2) o plan story reason w').
  { intros story reason w' Hpos Hs Hi. unfold skip_story. rewrite !R_bind_eq.
    destruct (evidence_frame story w') as (Es & _ & Ei & _). set (r := applyCompletedStoryEvidenceLocked E o story w') in *.
    destruct r.2; [|done]. unfold advancePastSkippedStoryLocked. rewrite !R_bind_eq. cbn [rexec fst snd].
    case_bool_decide as Hlt; [|done]. rewrite !R_bind_eq. rewrite Es, Ei, Hs, Hi in Hlt.
    apply IH; rewrite cell_updr; unfold stories_left in *; cbn; rewrite Es, Ei, Hs, Hi; lia. }
  unfold dispatch_story_step. rewrite !R_bind_eq. cbn [rexec fst snd].
  destruct (current_story (cell w o)) as [id|] eqn:Ec; [|done].
  assert (0 ≤ qCurrentStoryIdx (cell w o))%Z as Hpos by (unfold current_story in Ec; by case_bool_decide).
  destruct (findStoryByID plan id) as [story|]; [|done]. case_match; [by apply Hskip|].
  unfold claim_and_dispatch. rewrite !R_bind_eq. cbn [rexec fst snd].
  assert (Hl : logs (if rqNats E then ClaimStoryStatus E (pSlug plan) (sID story) StoryStatusExecuting else mret true)).
  { unfold ClaimStoryStatus. logs_auto. }
  pose proof (logged_cell o w _ (Hl w)) as El.
  match goal with |- context [(?m w).2] => set (r := m w) in * end.
  destruct (negb r.2); [|done]. apply Hskip; [done|by rewrite El..].
Qed.

(** Going through the stories of a requirement ends: each skipped story
    moves the cursor on, so the calls between [dispatchCurrentStoryLocked] and
    [advancePastSkippedStoryLocked] are at most one more than the stories
    left, and more would change nothing. *)
Theorem story_dispatch_terminates fuel plan w :
  (0 ≤ qCurrentStoryIdx (cell w o))%Z → (stories_left (cell w o) < fuel)%nat →
  dispatch_story E fuel o plan w = dispatchCurrentStoryLocked E o plan w.
Proof.
  intros Hpos Hf. unfold dispatchCurrentStoryLocked. rewrite R_bind_eq. cbn [rexec fst snd].
  apply dispatch_fuel; [done|]. unfold stories_left. lia.
Qed.

(** ** Evidence of a shared story *)

(** After the copy every result of the story is there. *)
Lemma copy_result_covers story l st :
  st.1 = list_to_set (nodeEvidenceKey <$> qNodeResults st.2) →
  let st' := foldl (copy_result story) st l in
  st'.1 = list_to_set (nodeEvidenceKey <$> qNodeResults st'.2) ∧ st.1 ⊆ st'.1 ∧
  ∀ nr, nr ∈ l → of_story story nr = true → nodeEvidenceKey nr ∈ st'.1.
Proof.
  revert st. induction l as [|nr l IH]; intros st Hst; [split_and!; [done|done|set_solver]|]. cbn [foldl].
  assert (H1 : (copy_result story st nr).1 = list_to_set (nodeEvidenceKey <$> qNodeResults (copy_result story st nr).2)).
  { unfold copy_result. destruct (_ || _); [done|]. cbn. rewrite fmap_app, list_to_set_app_L, Hst. cbn. set_solver. }
  assert (H2 : st.1 ⊆ (copy_result story st nr).1) by (unfold copy_result; destruct (_ || _); set_solver).
  assert (H3 : of_story story nr = true → nodeEvidenceKey nr ∈ (copy_result story st nr).1).
  { intros Ho. unfold copy_result. rewrite Ho. cbn [negb orb]. case_bool_decide; [done|]. cbn. set_solver. }
  destruct (IH _ H1) as (E1 & S1 & C1). cbv zeta in *. split_and!; [done|set_solver|].
  intros nr' [->|Hin]%elem_of_cons Ho; [apply S1; auto|auto].
Qed.

Lemma validate_verdicts_ok required verdicts :
  validateApprovedScenarioVerdicts required verdicts = "" →
  ∀ s, s ∈ required → scID s ≠ "" → passed verdicts (scID s) = true.
Proof.
  unfold validateApprovedScenarioVerdicts. destruct (is_nil _) eqn:En; [|discriminate]. intros _ s Hs Hne.
  apply is_nil_true in En. destruct (passed verdicts (scID s)) eqn:Ep; [done|].
  assert (scID s ∈ filter (λ id, passed verdicts id = false) (scenarioIDs required)) as H; [|rewrite En in H; set_solver].
  apply list_elem_of_filter. split; [done|]. apply elem_of_uniques. right. apply list_elem_of_filter. split; [done|].
  by apply list_elem_of_fmap_2.
Qed.

(** A result of the story that names files and a commit. *)
Definition committed_result (story : Story) (nr : NodeResult) : Prop :=
  of_story story nr = true ∧ nrFilesModified nr ≠ [] ∧ nrCommitSHA nr ≠ "".

(** A completed story that another requirement owns is skipped only on
    evidence: the row of the owner, read as completed, has a result of the
    story with files and a commit, its verdicts pass every scenario the
    borrowing requirement has for the story, of which there is one, and
    afterwards the requirement has all the results of the story. *)
Theorem skipped_story_has_evidence w story :
  rqNats E = true → DeterministicStoryOwner story ≠ qRequirementID (cell w o) →
  (applyCompletedStoryEvidenceLocked E o story w).2 = true →
  ∃ r, qiRow (rqIO E (rwTick w)) (RequirementExecutionKey (qSlug (cell w o)) (DeterministicStoryOwner story)) = RowAt r ∧ reStage r = "completed" ∧
    let required := requiredScenariosForBorrowedStory (cell w o) (sID story) in
    required ≠ [] ∧
    (∃ nr, nr ∈ reNodeResults r ∧ committed_result story nr) ∧
    (∀ s, s ∈ required → scID s ≠ "" → passed (reScenarioVerdicts r) (scID s) = true) ∧
    (∀ nr, nr ∈ reNodeResults r → of_story story nr = true →
       ∃ nr', nr' ∈ qNodeResults (cell (applyCompletedStoryEvidenceLocked E o story w).1 o) ∧
         nodeEvidenceKey nr' = nodeEvidenceKey nr).
Proof.
  intros Hn Hown. unfold applyCompletedStoryEvidenceLocked. rewrite Hn. cbn [negb]. rewrite R_bind_eq. cbn [rexec fst snd].
  case_match; [done|]. apply eqb_false in Hown as ->. rewrite R_bind_eq. unfold loadCompletedReqExecFromKV, load_row.
  rewrite Hn. cbn [negb]. rewrite R_bind_eq. cbn [rtick mret R_ret fst snd].
  destruct (qiRow (rqIO E (rwTick w)) _) as [| | |r] eqn:Er; [done..|].
  destruct (reStage r =? "completed") eqn:Est; [|done]. apply (proj1 (eqb_true _ _)) in Est.
  set (owner := rebuildExecFromKV E _ r). destruct (validateBorrowedStoryEvidence (cell w o) story owner !=? "") eqn:Ev; [done|].
  apply negb_false_iff, (proj1 (eqb_true _ _)) in Ev.
  destruct (copyStoryEvidence (cell w o) story owner) as [x' found] eqn:Ex. rewrite R_bind_eq. cbn [mret R_ret fst snd].
  intros ->. exists r. split; [done|]. split; [done|]. cbv zeta. unfold validateBorrowedStoryEvidence in Ev.
  destruct (hasCommittedStoryNodeEvidence owner story) eqn:Eh; [|discriminate]. cbn [negb] in Ev.
  destruct (is_nil (requiredScenariosForBorrowedStory (cell w o) (sID story))) eqn:Eq; [discriminate|].
  split_and!; [by apply is_nil_false| | |].
  - unfold hasCommittedStoryNodeEvidence in Eh. apply existsb_exists in Eh as (nr & Hin & Hnr).
    apply andb_true_iff in Hnr as [[Ho Hf]%andb_true_iff Hc]. exists nr. unfold committed_result. split_and!.
    + by apply list_elem_of_In.
    + done.
    + apply is_nil_false. by apply negb_true_iff.
    + by apply neqb_true.
  - by apply validate_verdicts_ok.
  - intros nr Hin Ho. rewrite cell_updr.
    assert (nodeEvidenceKey nr ∈ nodeEvidenceKey <$> qNodeResults x') as Hk.
    { unfold copyStoryEvidence in Ex. destruct (is_nil (qNodeResults owner)); [discriminate|]. cbv zeta in Ex.
      injection Ex as <- _. destruct (copy_result_covers story (qNodeResults owner)
        (list_to_set (nodeEvidenceKey <$> qNodeResults (cell w o)), cell w o) eq_refl) as (E1 & _ & C1). cbv zeta in *.
      specialize (C1 nr Hin Ho). rewrite E1 in C1. by apply elem_of_list_to_set in C1. }
    apply list_elem_of_fmap in Hk as (nr' & -> & Hnr'). exists nr'. split; [|done].
    unfold copyScenarioVerdictEvidence. by destruct (_ || _).
Qed.
End gate.

(** ** Abandoned executions *)

Section abandoned.
Context (E : ReqEnv).
Context (Hkeys : ∀ n s, rqKeys E n s ≡ₚ elements s).

Lemma active_delete_worktrees ids w : rwActive (delete_worktrees E ids w).1 = rwActive w.
Proof.
  revert w. induction ids as [|id ids IH]; intros w; [done|]. cbn [delete_worktrees].
  rewrite R_bind_eq, IH. unfold call_sandbox. by destruct (rqSandbox E).
Qed.

Lemma cleanup_frame o success w :
  let w' := (cleanupExecutionLocked E o success w).1 in
  rwActive w' = delete (qEntityID (cell w o)) (rwActive w) ∧ ∀ o', o' ≠ o → cell w' o' = cell w o'.
Proof.
  cbv zeta. unfold cleanupExecutionLocked. rewrite !R_bind_eq. cbn [rexec rmodify fst snd]. split.
  - cbn. rewrite active_delete_worktrees. cbn. by rewrite !active_stop.
  - intros o' Hne. unfold cell. cbn. rewrite heap_delete_worktrees. cbn. rewrite lookup_insert_ne by done.
    by rewrite !heap_stop.
Qed.

(** Executions only leave the cache, and those that stay are untouched. *)
Record shrinks (w w' : RWorld) : Prop := {
  sh_active : rwActive w' ⊆ rwActive w;
  sh_cells : ∀ k o, rwActive w' !! k = Some o → cell w' o = cell w o;
  sh_starting : rwStarting w' = rwStarting w }.

Lemma shrinks_refl w : shrinks w w.
Proof. by split. Qed.

Lemma shrinks_trans w1 w2 w3 : shrinks w1 w2 → shrinks w2 w3 → shrinks w1 w3.
Proof.
  intros [A1 C1 S1] [A2 C2 S2]. split; [by etrans| |congruence]. intros k o Hk. rewrite (C2 k o Hk).
  apply (C1 k). eapply lookup_weaken; done.
Qed.

Lemma starting_cleanup o success w : rwStarting (cleanupExecutionLocked E o success w).1 = rwStarting w.
Proof.
  assert (Hd : ∀ ids w, rwStarting (delete_worktrees E ids w).1 = rwStarting w).
  { induction ids as [|id ids IH]; intros w'; [done|]. cbn [delete_worktrees]. rewrite R_bind_eq, IH.
    unfold call_sandbox. by destruct (rqSandbox E). }
  unfold cleanupExecutionLocked. rewrite !R_bind_eq. cbn. rewrite Hd. cbn.
  by destruct (qTimeoutTimer _), (qRecoveryTimer _).
Qed.

Lemma abandon_shrinks w k o :
  rinv E w → rwActive w !! k = Some o →
  let w' := (abandon E o w).1 in
  shrinks w w' ∧ rinv E w' ∧ rwActive w' = delete k (rwActive w).
Proof.
  intros Hi Hk. cbv zeta. pose proof (active_has E w k o Hi Hk) as Ho.
  destruct (abandon_ends E o w Hi Ho) as (H1 & _ & Hterm). unfold abandon in *. rewrite R_bind_eq in *.
  set (w1 := (updr o _ w).1) in *. destruct (cleanup_frame o false w1) as [Ea Ec]. cbv zeta in *.
  assert (Hkey : qEntityID (cell w1 o) = k).
  { unfold w1. rewrite cell_updr. apply (ao_key _ _ _ _ _ (active_cell E w k o Hi Hk)). }
  rewrite Hkey in Ea. change (rwActive w1) with (rwActive w) in Ea. split_and!; [|done..]. split.
  - rewrite Ea. apply delete_subseteq.
  - intros k' o' Hk'. assert (o' ≠ o) as Hne.
    { intros ->. pose proof (ao_live _ _ _ _ _ (active_cell E _ k' o H1 Hk')). congruence. }
    rewrite Ec by done. unfold w1, cell. cbn. by rewrite lookup_insert_ne.
  - by rewrite starting_cleanup.
Qed.

(** No active execution of the requirement. *)
Definition none_active (slug reqID : string) (w : RWorld) : Prop :=
  ∀ k o, rwActive w !! k = Some o → of_requirement slug reqID (cell w o) = false.

(** No two active executions of one requirement. *)
Definition one_each (w : RWorld) : Prop :=
  ∀ k1 k2 o1 o2, rwActive w !! k1 = Some o1 → rwActive w !! k2 = Some o2 →
    qSlug (cell w o1) = qSlug (cell w o2) → qRequirementID (cell w o1) = qRequirementID (cell w o2) → k1 = k2.

Lemma shrinks_none slug id w w' : shrinks w w' → none_active slug id w → none_active slug id w'.
Proof.
  intros [A C _] Hn k o Hk. rewrite (C k o Hk). apply (Hn k). by eapply lookup_weaken.
Qed.

Lemma shrinks_one w w' : shrinks w w' → one_each w → one_each w'.
Proof.
  intros [A C _] Hu k1 k2 o1 o2 H1 H2. rewrite (C k1 o1 H1), (C k2 o2 H2).
  apply (Hu k1 k2 o1 o2); by eapply lookup_weaken.
Qed.

Lemma abandonLive_none slug id w :
  rinv E w → one_each w →
  let w' := (abandonLiveExecForRequirement E slug id w).1 in
  shrinks w w' ∧ rinv E w' ∧ none_active slug id w' ∧
  ∀ k o, rwActive w !! k = Some o → of_requirement slug id (cell w o) = false → rwActive w' !! k = Some o.
Proof.
  intros Hi Hu. cbv zeta. unfold abandonLiveExecForRequirement. rewrite R_bind_eq.
  destruct (find_active_spec E (of_requirement slug id) w) as [-> Hf].
  destruct (find_active E _ w).2 as [o|]; rewrite ?R_bind_eq.
  - destruct Hf as (k & Hk & Hp). cbn [mret R_ret fst].
    destruct (abandon_shrinks w k o Hi Hk) as (Hs & H1 & Ea). cbv zeta in *. split_and!; [done..| |].
    + intros k' o' Hk'. destruct (of_requirement slug id (cell _ o')) eqn:Er; [|done].
      pose proof Hk' as Hk2. rewrite Ea in Hk2. apply lookup_delete_Some in Hk2 as [Hne Hk2].
      rewrite (sh_cells _ _ Hs k' o' Hk') in Er. destruct Hne.
      unfold of_requirement in Hp, Er. apply andb_true_iff in Hp as [Hp1 Hp2], Er as [Er1 Er2].
      breflect. apply (Hu k k' o o' Hk Hk2); congruence.
    + intros k' o' Hk' Hr. rewrite Ea. rewrite lookup_delete_ne; [done|]. intros <-.
      rewrite Hk in Hk'. injection Hk' as <-. congruence.
  - cbn [mret R_ret fst]. split_and!; [apply shrinks_refl|done| |done]. intros k o Hk. apply (Hf k); [|done].
    rewrite Hkeys. apply elem_of_elements. by eapply elem_of_dom_2.
Qed.

Lemma abandon_all slug ids w :
  rinv E w → one_each w →
  let w' := (abandon_requirements E slug ids w).1 in
  shrinks w w' ∧ rinv E w' ∧ (∀ id, id ∈ ids → none_active slug id w') ∧
  ∀ k o, rwActive w !! k = Some o → (∀ id, id ∈ ids → of_requirement slug id (cell w o) = false) → rwActive w' !! k = Some o.
Proof.
  revert w. induction ids as [|id ids IH]; intros w Hi Hu; cbv zeta; cbn [abandon_requirements].
  { split_and!; [apply shrinks_refl|done|set_solver|done]. }
  rewrite R_bind_eq. destruct (abandonLive_none slug id w Hi Hu) as (S1 & H1 & N1 & K1). cbv zeta in *.
  set (w1 := (abandonLiveExecForRequirement E slug id w).1) in *.
  destruct (IH w1 H1 (shrinks_one _ _ S1 Hu)) as (S2 & H2 & N2 & K2). cbv zeta in *. split_and!.
  - by eapply shrinks_trans.
  - done.
  - intros id' [->|Hin]%elem_of_cons; [by eapply shrinks_none|auto].
  - intros k o Hk Hr. assert (Hk1 : rwActive w1 !! k = Some o) by (apply K1; [done|apply Hr; by left]).
    apply K2; [done|]. intros id' Hin. rewrite (sh_cells _ _ S1 k o Hk1). apply Hr. by right.
Qed.

(** When a decision that sends the plan back is accepted, the executions
    of the requirements it names leave the cache, ended, and no other one is
    touched.  Executions that are claimed but not yet initialised are still
    due to start afterwards. *)
Theorem revision_abandons_executions w evt :
  req_reachable E w → one_each w → aeProposalID evt ≠ "" → replans (aeKind evt) = true →
  aeAffectedRequirementIDs evt ≠ [] →
  let w' := (req_step E (REvAccepted evt) w).1 in
  let named x := qSlug x = aeSlug evt ∧ qRequirementID x ∈ aeAffectedRequirementIDs evt ∧ qRequirementID x ≠ "" in
  (∀ k o, rwActive w' !! k = Some o ↔ rwActive w !! k = Some o ∧ ¬ named (cell w o)) ∧
  (∀ k o, rwActive w' !! k = Some o → cell w' o = cell w o) ∧
  rwStarting w' = rwStarting w.
Proof.
  intros Hi%rinv_reachable Hu Hp Hk Ha. cbv zeta. cbn [req_step]. unfold handlePlanDecisionAccepted.
  apply eqb_false in Hp as ->. rewrite Hk. unfold abandonExecsForRequirements. apply is_nil_false in Ha as ->.
  set (ids := foldl appendUnique [] _).
  assert (Hids : ∀ id, id ∈ ids ↔ id ∈ aeAffectedRequirementIDs evt ∧ id ≠ "").
  { intros id. unfold ids. rewrite elem_of_uniques, list_elem_of_filter. set_solver. }
  destruct (abandon_all (aeSlug evt) ids w Hi Hu) as (Hs & H1 & Hn & Hkeep). cbv zeta in *. split_and!.
  - intros k o. split.
    + intros Hk'. split; [eapply lookup_weaken, sh_active; done|]. intros (Hsl & Hin & Hne).
      pose proof (Hn (qRequirementID (cell w o)) (proj2 (Hids _) (conj Hin Hne)) k o Hk') as Hf.
      rewrite (sh_cells _ _ Hs k o Hk') in Hf. unfold of_requirement in Hf. rewrite Hsl, !eqb_refl in Hf. done.
    + intros [Hk' Hnamed]. apply Hkeep; [done|]. intros id [Hin Hne]%Hids. unfold of_requirement.
      apply andb_false_iff. destruct (decide (qSlug (cell w o) = aeSlug evt)) as [Hsl|Hsl]; [right|left; by apply eqb_false].
      apply eqb_false. intros <-. by destruct Hnamed.
  - apply (sh_cells _ _ Hs).
  - apply (sh_starting _ _ Hs).
Qed.
End abandoned.

(** ** Concrete runs *)

(** The execution manager has carried out the node with the given task. *)
Definition approved_task (id : string) : TaskExecution :=
  MkTaskExecution "" "demo" id "r1" "approved" 0 0 "" "" "" "" "" "" "" "" "" "" "" "" "" [] [] ["src/a.go"] true true
    "c0ffee" "" "" "" "" "" "" 0 "" "" "" 0 0.

Definition node_done (w : RWorld) : RWorld :=
  (req_step (exec_env exec_row) (REvTask (approved_task (qCurrentNodeTaskID (cell w 0)))) w).1.

(** Both nodes are done and the reviewer is at work. *)
Definition in_review : RWorld := node_done (node_done started).

Lemma approved_completion_checked_witness :
  let w' := (handleApprovedVerdictLocked (exec_env exec_row) 0 in_review).1 in
  completions w' ≠ completions in_review ∧
  plan_satisfied (exec_env exec_row) (qSlug (cell in_review 0)) (qReviewerTaskID (cell in_review 0))
    (rwTick in_review) (rwTick w') ["s1"].
Proof.
  cbv zeta. assert (Hd : completions (handleApprovedVerdictLocked (exec_env exec_row) 0 in_review).1 ≠ completions in_review)
    by (vm_compute; discriminate).
  split; [exact Hd|].
  refine (proj2 (approved_completion_checked (exec_env exec_row) 0 in_review ["s1"] _ _ _ _ _ _ Hd)).
  - reflexivity.
  - reflexivity.
  - reflexivity.
  - vm_compute. reflexivity.
  - discriminate.
  - vm_compute. discriminate.
Defined.

Lemma story_dispatch_terminates_witness :
  dispatch_story (exec_env exec_row) 5 0 exec_plan started = dispatchCurrentStoryLocked (exec_env exec_row) 0 exec_plan started.
Proof.
  apply story_dispatch_terminates.
  - vm_compute. discriminate.
  - vm_compute. lia.
Defined.

Lemma started_active k o : rwActive started !! k = Some o → k = the_key.
Proof.
  assert (rwActive started = {[the_key := 0%nat]}) as -> by (vm_compute; reflexivity).
  by intros [<- _]%lookup_singleton_Some.
Qed.

(** An accepted revision of another requirement leaves this one alone. *)
Lemma revision_abandons_executions_witness :
  rwActive (req_step (exec_env exec_row) (REvAccepted
    (MkAcceptedEvent "d1" "demo" "" PlanDecisionKindArchitectureRevise ["r2"] [])) started).1 !! the_key = Some 0%nat.
Proof.
  refine (proj2 (proj1 (revision_abandons_executions (exec_env exec_row) _ started
    (MkAcceptedEvent "d1" "demo" "" PlanDecisionKindArchitectureRevise ["r2"] []) _ _ _ _ _) the_key 0%nat) _).
  - intros n s. reflexivity.
  - apply run_req_reachable.
  - intros k1 k2 o1 o2 ->%started_active ->%started_active _ _. reflexivity.
  - discriminate.
  - reflexivity.
  - discriminate.
  - split; [vm_compute; reflexivity|]. intros (_ & H & _). vm_compute in H.
    apply list_elem_of_singleton in H. discriminate.
Defined.

(** The other requirement of the story, completed with a commit and a pass. *)
Definition shared_scenario : Scenario :=
  {| scID := "sc1"; scRequirementID := "r1"; scStoryID := "s1"; scTitle := ""; scGiven := ""; scWhen := ""; scThen := [];
     scStatus := ScenarioStatusPending; scTags := []; scHarnessProfileIDs := []; scEnv := ∅; scRequiredAssertions := [];
     scCreatedAt := 0; scUpdatedAt := 0 |}.

Definition owner_row : RequirementExecution :=
  set_reStage "completed" (set_reScenarioVerdicts [MkScenarioVerdict "sc1" true ""]
    (set_reNodeResults [MkNodeResult "t1" ["src/a.go"] "" "c0ffee"] exec_row)).

Definition borrower : RWorld :=
  (alloc (new_execution (exec_env owner_row) "req.demo.r2" (new_req (ExecStore.sample_env exec_plan)
     (MkReqCreateRequest "demo" "r2" "t" "" "" "" "" "" "" [shared_scenario] [] "" "" "main" "" false) 0)) (MkRWorld ∅ 0 ∅ ∅ [] 0 [])).1.

Lemma skipped_story_has_evidence_witness :
  ∃ r, qiRow (exec_io owner_row 0) (RequirementExecutionKey "demo" "r1") = RowAt r ∧ reStage r = "completed".
Proof.
  destruct (skipped_story_has_evidence (exec_env owner_row) 0 borrower two_tasks) as (r & H1 & H2 & _).
  - reflexivity.
  - vm_compute. discriminate.
  - vm_compute. reflexivity.
  - exists r. split; [exact H1|exact H2].
Defined.
