(* ===== verification/RuleFindings.v ===== *)
(** * The findings of the plan reviewer

    processor/plan-reviewer (architecture_rules.go, capability_rules.go,
    story_rules.go, scenario_tag_rules.go): the findings its deterministic
    rules report, field by field with their texts.  [%q] is the parameter
    [quote]; [%v] of a slice of strings prints its elements between brackets. *)

From stdpp Require Import pretty.
From S2P Require Import Prelude Paths Types.

Local Open Scope string_scope.

Definition dquote : string := String (byte 34) "".

(** [%v] of a [[]string] *)
Definition print_strings (l : list string) : string := "[" +:+ Join l " " +:+ "]".

Section findings.
Context (quote : string → string).

(** ** Architecture *)

Definition missing_files_finding (name : string) : PlanReviewFinding :=
  {| prfSOPID := "architecture.component_missing_implementation_files";
     prfSOPTitle := "Component declares no implementation files (ADR-043 Move 1)";
     prfSeverity := "error";
     prfStatus := "violation";
     prfCategory := "structural";
     prfPhase := "architecture";
     prfTargetID := name;
     prfAction := "add";
     prfTargetField := "component_boundaries." +:+ name +:+ ".implementation_files";
     prfTargetValue := "≥1 workspace-relative source-code path";
     prfIssue := "Component " +:+ quote name +:+ " has an empty implementation_files list. Every component must own at least one workspace-relative path — Sarah cannot shard a requirement into a story without knowing which files implement it.";
     prfSuggestion := "Populate component_boundaries[" +:+ quote name +:+ "].implementation_files with the source paths this component owns. Source these from plan.scope.create for new components or the existing project tree for modified components.";
     prfEvidence := "" |}.

Definition doc_only_finding (name : string) (files : list string) : PlanReviewFinding :=
  {| prfSOPID := "architecture.component_implementation_files_doc_only";
     prfSOPTitle := "Component implementation_files contain only documentation (ADR-043 Move 1)";
     prfSeverity := "error";
     prfStatus := "violation";
     prfCategory := "structural";
     prfPhase := "architecture";
     prfTargetID := name;
     prfAction := "add";
     prfTargetField := "component_boundaries." +:+ name +:+ ".implementation_files";
     prfTargetValue := "at least one source-code file (.go/.java/.ts/.py/.rs/etc.)";
     prfIssue := "Component " +:+ quote name +:+ " has implementation_files " +:+ print_strings (files) +:+
       " containing only documentation (*.md, *.txt, README*). A component without source code is a documentation artifact, not a unit of dispatch.";
     prfSuggestion := "Add the source-code files component " +:+ quote name +:+ " implements. Documentation companion files may remain alongside the source but never alone.";
     prfEvidence := "" |}.

Definition stub_risk_finding (name : string) (capabilities unevidenced : list string) : PlanReviewFinding :=
  {| prfSOPID := "architecture.component_stub_risk";
     prfSOPTitle := "Multi-capability component has capabilities with no test evidence (ADR-049)";
     prfSeverity := "error";
     prfStatus := "violation";
     prfCategory := "structural";
     prfPhase := "architecture";
     prfTargetID := name;
     prfAction := "add";
     prfTargetField := "component_boundaries." +:+ name +:+ ".capabilities";
     prfTargetValue := "a scenario (forcing test) for every capability the component maps";
     prfIssue := "Component " +:+ quote name +:+ " maps " +:+ pretty (length capabilities) +:+ " capabilities but " +:+
       pretty (length unevidenced) +:+ " of them have no scenario evidence (" +:+ print_strings (unevidenced) +:+
       "). A capability with no scenario has no failing test forcing the dev to implement it, so a single dev loop builds the evidenced capabilities and stubs the rest (the 2026-06-13 stub trap). A cohesive component with FEWER files than capabilities is fine — the gate is missing EVIDENCE, not file count.";
     prfSuggestion := "Ensure every capability mapped to " +:+ quote name +:+ " has at least one scenario (via a requirement whose capability_name matches it), so each becomes a forcing test the dev cannot stub. If a capability belongs to a different component, move it; if it needs no behavior, remove it from this component's capabilities.";
     prfEvidence := "" |}.

Definition cohesion_finding (names : list string) (target : string) : PlanReviewFinding :=
  {| prfSOPID := "architecture.components_share_entry_point";
     prfSOPTitle := "Components integrate into one target but declare no shared entry file (ADR-049)";
     prfSeverity := "warning";
     prfStatus := "violation";
     prfCategory := "structural";
     prfPhase := "architecture";
     prfTargetID := target;
     prfAction := "review";
     prfTargetField := "component_boundaries[].implementation_files";
     prfTargetValue := "merge the components, or declare the shared framework entry file on each component's implementation_files";
     prfIssue := "Components " +:+ print_strings (names) +:+ " all integrate into " +:+ quote target +:+
       " (an integration_target) but declare fully disjoint implementation_files. If they implement one framework entry class registered into " +:+
       quote target +:+ ", each parallel story may independently create that same undeclared entry file and collide at assembly (the 2026-06-14 over-split wedge).";
     prfSuggestion := "If these are facets of one cohesive unit, merge them into a single component so one Story builds the shared entry class. If they are genuinely separate but share an entry file, declare that file in each component's implementation_files so DeriveStoryScheduling serializes the sharing stories. This is a warning, not a block — the dev-review ownership gate (ADR-049 move 3) is the hard backstop if the collision actually occurs.";
     prfEvidence := "" |}.

Definition namespace_finding (name file seg owner : string) : PlanReviewFinding :=
  {| prfSOPID := "architecture.file_under_foreign_component_namespace";
     prfSOPTitle := "Implementation file sits under another component's package namespace (#237)";
     prfSeverity := "warning";
     prfStatus := "violation";
     prfCategory := "structural";
     prfPhase := "architecture";
     prfTargetID := file;
     prfAction := "move";
     prfTargetField := "component_boundaries[" +:+ name +:+ "].implementation_files";
     prfTargetValue := file +:+ " → " +:+ owner;
     prfIssue := "File " +:+ quote file +:+ " is owned by component " +:+ quote name +:+ " but its path lies under the " +:+
       quote seg +:+ " namespace, which uniquely identifies component " +:+ quote owner +:+ ". It likely belongs to " +:+
       quote owner +:+ " (the 2026-06-19 #237 misplacement class). If " +:+ quote file +:+ " genuinely shares a cohesive entry class with " +:+
       quote name +:+ "'s other files, ignore this warning.";
     prfSuggestion := "Move " +:+ quote file +:+ " to component " +:+ quote owner +:+ "'s implementation_files, or confirm the placement is intentional (cohesive shared entry class). Warning, not a block — the LLM reviewer's placement-coherence criterion (6a) and the dev-review ownership gate are the deeper checks.";
     prfEvidence := "" |}.

Definition unresolved_capability_finding (name : string) : PlanReviewFinding :=
  {| prfSOPID := "capability.unresolved_in_architecture";
     prfSOPTitle := "Capability has no implementing component (ADR-043 Move 1)";
     prfSeverity := "error";
     prfStatus := "violation";
     prfCategory := "structural";
     prfPhase := "architecture";
     prfTargetID := name;
     prfAction := "add";
     prfTargetField := "component_boundaries[].capabilities";
     prfTargetValue := "capability " +:+ quote name +:+ " on ≥1 component";
     prfIssue := "Capability " +:+ quote name +:+ " is declared in Plan.Exploration but no ComponentDef's capabilities list contains it. Winston must map every capability to at least one component.";
     prfSuggestion := "Either extend an existing component_boundaries[].capabilities to include " +:+
       quote name +:+ ", or declare a new component that implements it. If the capability cannot be mapped to any component, flag it back to the analyst sub-phase rather than emitting an implementation-less abstract.";
     prfEvidence := "" |}.

Definition unowned_finding (file origin : string) : PlanReviewFinding :=
  {| prfSOPID := "architecture.scoped_file_unowned";
     prfSOPTitle := "Scoped deliverable file has no owning component (issue #175)";
     prfSeverity := "error";
     prfStatus := "violation";
     prfCategory := "structural";
     prfPhase := "architecture";
     prfTargetID := file;
     prfAction := "add";
     prfTargetField := "component_boundaries[].implementation_files";
     prfTargetValue := file;
     prfIssue := "Scoped file " +:+ quote file +:+ " is a deliverable (scope." +:+ origin +:+ ") but appears in no component's implementation_files. Every file the build writes must have at least one owning component; an unowned file is written by every parallel story and produces an unmergeable conflict at assembly (the 2026-06-13 README wedge).";
     prfSuggestion := "Add " +:+ quote file +:+ " to the implementation_files of the single source component that produces it (a README/doc may ride as a companion alongside source — it cannot be its own docs-only component). If " +:+
       quote file +:+ " is a read-only reference, move it to scope.do_not_touch instead.";
     prfEvidence := "" |}.

Definition topology_finding (name targetField file : string) : PlanReviewFinding :=
  {| prfSOPID := "architecture.topology_unapproved_build_root";
     prfSOPTitle := "Architecture introduces an unapproved build/workspace root";
     prfSeverity := "error";
     prfStatus := "violation";
     prfCategory := "structural";
     prfPhase := "architecture";
     prfTargetID := file;
     prfAction := "remove";
     prfTargetField := targetField;
     prfTargetValue := file;
     prfIssue := "Component " +:+ quote name +:+ " declares topology-controlled file " +:+ quote file +:+
       ", but the root contract has no detected topology fact and no scope.create/include entry authorizing that build/workspace/package manifest. This is the standalone clean-room project failure class: the architecture replaces or forks the brownfield build shape instead of integrating with it.";
     prfSuggestion := "Remove " +:+ quote file +:+ " from " +:+ targetField +:+ " and integrate through an existing topology fact path, or route an explicit contract amendment/scope.create entry before declaring a new build root.";
     prfEvidence := "contract.topology_facts does not contain " +:+ quote file |}.

(** ** Capabilities *)

Definition orphan_finding (name : string) : PlanReviewFinding :=
  {| prfSOPID := "capability.orphan";
     prfSOPTitle := "Capability without implementing Requirement (ADR-040)";
     prfSeverity := "error";
     prfStatus := "violation";
     prfCategory := "structural";
     prfPhase := "requirements";
     prfTargetID := name;
     prfAction := "add";
     prfTargetField := "requirements";
     prfTargetValue := "requirement for capability `" +:+ name +:+ "`";
     prfIssue := "Capability " +:+ quote name +:+ " is declared in Plan.Exploration but no Requirement claims it via capability_name. Every capability must own at least one implementation Requirement.";
     prfSuggestion := "Generate one Requirement with capability_name=" +:+ quote name +:+ " that owns the implementation files for this capability.";
     prfEvidence := "" |}.

Definition requirement_orphan_finding (id capability : string) : PlanReviewFinding :=
  {| prfSOPID := "capability.requirement_orphan";
     prfSOPTitle := "Requirement references a capability not in Plan.Exploration (ADR-040)";
     prfSeverity := "error";
     prfStatus := "violation";
     prfCategory := "structural";
     prfPhase := "requirements";
     prfTargetID := id;
     prfAction := "rename";
     prfTargetField := "requirement." +:+ id +:+ ".capability_name";
     prfTargetValue := capability +:+ " → <one of Plan.Exploration.Capabilities[].Name>";
     prfIssue := "Requirement " +:+ id +:+ " has capability_name=" +:+ quote capability +:+ " but no capability with that name is declared in Plan.Exploration.";
     prfSuggestion := "Either rename the Requirement's capability_name to one of the declared capabilities, or flag a missing capability back to the analyst sub-phase.";
     prfEvidence := "" |}.

Definition capability_cycle_finding (err : string) : PlanReviewFinding :=
  {| prfSOPID := "capability.dependency_cycle";
     prfSOPTitle := "Capability depends_on cycle (ADR-040 hard constraint)";
     prfSeverity := "error";
     prfStatus := "violation";
     prfCategory := "structural";
     prfPhase := "requirements";
     prfTargetID := "";
     prfAction := "remove";
     prfTargetField := "exploration.capabilities[].depends_on";
     prfTargetValue := "edge participating in cycle";
     prfIssue := err;
     prfSuggestion := "Break the cycle by removing one depends_on edge or splitting one capability into two so the dependency graph is acyclic. Cycles never converge under parallel execution.";
     prfEvidence := "" |}.

Definition dependency_orphan_finding (name dep : string) : PlanReviewFinding :=
  {| prfSOPID := "capability.dependency_orphan";
     prfSOPTitle := "Capability depends_on names an undeclared capability (ADR-040)";
     prfSeverity := "error";
     prfStatus := "violation";
     prfCategory := "structural";
     prfPhase := "requirements";
     prfTargetID := name;
     prfAction := "remove";
     prfTargetField := "exploration.capabilities[" +:+ name +:+ "].depends_on";
     prfTargetValue := dep;
     prfIssue := "Capability " +:+ quote name +:+ " declares depends_on=" +:+ quote dep +:+ " but no capability with that name exists in Plan.Exploration.";
     prfSuggestion := "Either remove the depends_on reference, declare the missing capability, or fix the spelling. Common cause: the analyst sub-phase mis-named the dependency.";
     prfEvidence := "" |}.

(** ** Stories and tasks *)

Definition story_requirement_finding (id rid : string) : PlanReviewFinding :=
  {| prfSOPID := "story.requirement_orphan";
     prfSOPTitle := "Story references a requirement that doesn't exist (ADR-044 M:N coverage)";
     prfSeverity := "error";
     prfStatus := "violation";
     prfCategory := "structural";
     prfPhase := "stories";
     prfTargetID := id;
     prfAction := "rename";
     prfTargetField := "story." +:+ id +:+ ".requirement_ids";
     prfTargetValue := rid +:+ " → <existing requirement.id>";
     prfIssue := "Story " +:+ id +:+ " has requirement_id=" +:+ quote rid +:+ " in requirement_ids but no Requirement with that ID exists in the plan.";
     prfSuggestion := "Either remove the orphan entry from the Story's requirement_ids, or flag the missing requirement back to the planner step.";
     prfEvidence := "" |}.

Definition story_component_finding (id component : string) : PlanReviewFinding :=
  {| prfSOPID := "story.unresolved_component";
     prfSOPTitle := "Story references a component not declared in the architecture (ADR-044 anchor)";
     prfSeverity := "error";
     prfStatus := "violation";
     prfCategory := "structural";
     prfPhase := "stories";
     prfTargetID := id;
     prfAction := "rename";
     prfTargetField := "story." +:+ id +:+ ".component_name";
     prfTargetValue := component +:+ " → <one of architecture.component_boundaries[].name>";
     prfIssue := "Story " +:+ id +:+ " anchors to component_name=" +:+ quote component +:+ " but no ComponentDef with that name exists in the architecture.";
     prfSuggestion := "Either rename the Story's component_name to one of the declared component names, or flag a missing component back to the architect.";
     prfEvidence := "" |}.

Definition story_files_finding (id : string) : PlanReviewFinding :=
  {| prfSOPID := "story.missing_files_owned";
     prfSOPTitle := "Story has empty files_owned (ADR-043 Move 2)";
     prfSeverity := "error";
     prfStatus := "violation";
     prfCategory := "structural";
     prfPhase := "stories";
     prfTargetID := id;
     prfAction := "add";
     prfTargetField := "story." +:+ id +:+ ".files_owned";
     prfTargetValue := "union of selected components' implementation_files";
     prfIssue := "Story " +:+ id +:+ " has empty files_owned. Sarah's readiness gate requires the union of the selected components' implementation_files.";
     prfSuggestion := "Populate story." +:+ id +:+ ".files_owned with the workspace-relative paths owned by the components in story." +:+
       id +:+ ".components. At least one entry must be a source-code file.";
     prfEvidence := "" |}.

Definition story_docs_finding (id : string) (files : list string) : PlanReviewFinding :=
  {| prfSOPID := "story.docs_only_files_owned";
     prfSOPTitle := "Story files_owned contains only documentation (ADR-043 Move 2)";
     prfSeverity := "error";
     prfStatus := "violation";
     prfCategory := "structural";
     prfPhase := "stories";
     prfTargetID := id;
     prfAction := "add";
     prfTargetField := "story." +:+ id +:+ ".files_owned";
     prfTargetValue := "at least one source-code file";
     prfIssue := "Story " +:+ id +:+ " files_owned " +:+ print_strings (files) +:+ " contains only documentation (*.md, *.txt, README*). A story without source code is not a unit of dispatch.";
     prfSuggestion := "Either extend story." +:+ id +:+ ".components to select components whose implementation_files include source code, or flag the upstream architecture rule (architecture.component_implementation_files_doc_only) that should have caught this.";
     prfEvidence := "" |}.

Definition story_tasks_finding (id : string) : PlanReviewFinding :=
  {| prfSOPID := "task.missing_within_story";
     prfSOPTitle := "Story has no tasks (ADR-043 Move 2)";
     prfSeverity := "error";
     prfStatus := "violation";
     prfCategory := "structural";
     prfPhase := "stories";
     prfTargetID := id;
     prfAction := "add";
     prfTargetField := "story." +:+ id +:+ ".tasks";
     prfTargetValue := "ordered TDD checklist of 3-5 tasks";
     prfIssue := "Story " +:+ id +:+ " has no tasks. Sarah authors the TDD DAG at plan time; an empty tasks list means execution has no work to dispatch.";
     prfSuggestion := "Populate story." +:+ id +:+ ".tasks with 3-5 ordered tasks (write failing test, implement, integration smoke, verify scenarios).";
     prfEvidence := "" |}.

Definition story_topology_finding (id file : string) : PlanReviewFinding :=
  {| prfSOPID := "story.topology_unapproved_build_root";
     prfSOPTitle := "Story owns an unapproved build/workspace root";
     prfSeverity := "error";
     prfStatus := "violation";
     prfCategory := "structural";
     prfPhase := "stories";
     prfTargetID := id;
     prfAction := "remove";
     prfTargetField := "story." +:+ id +:+ ".files_owned";
     prfTargetValue := file;
     prfIssue := "Story " +:+ id +:+ " owns topology-controlled file " +:+ quote file +:+ ", but the root contract has no detected topology fact and no scope.create/include entry authorizing that build/workspace/package manifest.";
     prfSuggestion := "Remove " +:+ quote file +:+ " from story." +:+ id +:+ ".files_owned and route it back through architecture/contract amendment if a new build root is genuinely required.";
     prfEvidence := "contract.topology_facts does not contain " +:+ quote file |}.

Definition story_outside_finding (id component file : string) : PlanReviewFinding :=
  {| prfSOPID := "story.files_owned_outside_component";
     prfSOPTitle := "Story owns a file outside its selected component";
     prfSeverity := "error";
     prfStatus := "violation";
     prfCategory := "structural";
     prfPhase := "stories";
     prfTargetID := id;
     prfAction := "remove";
     prfTargetField := "story." +:+ id +:+ ".files_owned";
     prfTargetValue := file;
     prfIssue := "Story " +:+ id +:+ " anchors to component " +:+ quote component +:+ " but files_owned includes " +:+
       quote file +:+ ", which is not in that component's implementation_files or deterministic companion-test expansion. Sarah must not widen ownership beyond the architecture component; that erases the brownfield/file-ownership partition before execution.";
     prfSuggestion := "Remove " +:+ quote file +:+ " from story." +:+ id +:+ ".files_owned. If component " +:+
       quote component +:+ " truly owns it, revise architecture.component_boundaries[" +:+ quote component +:+
       "].implementation_files first, then re-prepare stories.";
     prfEvidence := "" |}.

Definition scope_missing_finding (path origin : string) : PlanReviewFinding :=
  {| prfSOPID := "contract.scope_missing";
     prfSOPTitle := "Current plan scope dropped a root contract deliverable";
     prfSeverity := "error";
     prfStatus := "violation";
     prfCategory := "contract";
     prfPhase := "stories";
     prfTargetID := path;
     prfAction := "add";
     prfTargetField := "plan.scope." +:+ origin;
     prfTargetValue := path;
     prfIssue := "Root contract " +:+ origin +:+ " includes deliverable " +:+ quote path +:+ ", but the current plan scope no longer includes it and no accepted contract-changing amendment names that path.";
     prfSuggestion := "Restore " +:+ quote path +:+ " to the current plan scope or accept a PlanDecision whose contract_impact.kind=change and affected_ids names this obligation.";
     prfEvidence := "contract.scope." +:+ origin +:+ "=" +:+ quote path +:+ "; accepted amendment affected_ids did not authorize dropping it" |}.

Definition scope_uncovered_finding (path origin : string) : PlanReviewFinding :=
  {| prfSOPID := "story.contract_scope_uncovered";
     prfSOPTitle := "Story coverage omits a root contract deliverable";
     prfSeverity := "error";
     prfStatus := "violation";
     prfCategory := "contract";
     prfPhase := "stories";
     prfTargetID := path;
     prfAction := "add";
     prfTargetField := "stories[].files_owned";
     prfTargetValue := path;
     prfIssue := "Root contract " +:+ origin +:+ " includes deliverable " +:+ quote path +:+ ", but no Story files_owned entry covers it and no accepted contract-changing amendment names that path.";
     prfSuggestion := "Assign " +:+ quote path +:+ " to the Story/component that owns the work, or accept a contract-changing PlanDecision amendment that explicitly removes the obligation.";
     prfEvidence := "story.files_owned union missing " +:+ quote path |}.

Definition dag_finding (sop title phase targetField msg : string) : PlanReviewFinding :=
  {| prfSOPID := sop;
     prfSOPTitle := title;
     prfSeverity := "error";
     prfStatus := "violation";
     prfCategory := "structural";
     prfPhase := phase;
     prfTargetID := "";
     prfAction := "rename";
     prfTargetField := targetField;
     prfTargetValue := "";
     prfIssue := msg;
     prfSuggestion := "Resolve the DAG violation: either drop the offending depends_on edge, rename to a valid sibling ID, or reshape the dependency to break the cycle.";
     prfEvidence := "" |}.

(** ** Scenario tags *)

Definition tier_tag_finding (id : string) (tierCount : nat) : PlanReviewFinding :=
  {| prfSOPID := "scenario.missing_tier_tag";
     prfSOPTitle := "Scenario missing or duplicating tier tag (ADR-041 Move 4)";
     prfSeverity := "error";
     prfStatus := "violation";
     prfCategory := "structural";
     prfPhase := "scenarios";
     prfTargetID := id;
     prfAction := "replace";
     prfTargetField := "scenario." +:+ id +:+ ".tags";
     prfTargetValue := "[exactly one of @unit / @integration / @smoke / @e2e]";
     prfIssue := "Scenario " +:+ id +:+ " has " +:+ pretty (tierCount) +:+ " tier tags; exactly one is required.";
     prfSuggestion := "Replace the tags with exactly one tier tag. Use @unit for in-process behavior with fakes, @integration when an integration test environment is required, @e2e for full-system UI flows, @smoke only when explicitly directed.";
     prfEvidence := "" |}.

Definition unit_coverage_finding (id title : string) : PlanReviewFinding :=
  {| prfSOPID := "scenario.missing_unit_coverage";
     prfSOPTitle := "Requirement has no @unit scenario (ADR-041 Move 4)";
     prfSeverity := "error";
     prfStatus := "violation";
     prfCategory := "structural";
     prfPhase := "scenarios";
     prfTargetID := id;
     prfAction := "add";
     prfTargetField := "requirement." +:+ id +:+ ".scenarios";
     prfTargetValue := "at least one @unit scenario";
     prfIssue := "Requirement " +:+ id +:+ " (" +:+ quote title +:+ ") has no @unit scenario. Every requirement needs unit coverage as a baseline so the dev tier can observe correct behavior.";
     prfSuggestion := "Add at least one @unit scenario exercising the requirement's logic at function/class boundary with fakes or in-process state. No real services, no SITL, no databases — those belong to @integration.";
     prfEvidence := "" |}.

Definition missing_integration_finding (id profileID : string) : PlanReviewFinding :=
  {| prfSOPID := "scenario.missing_integration_for_services";
     prfSOPTitle := "Requirement bound to testcontainers-class harness lacks @integration scenario (ADR-041 Move 4)";
     prfSeverity := "error";
     prfStatus := "violation";
     prfCategory := "structural";
     prfPhase := "scenarios";
     prfTargetID := id;
     prfAction := "add";
     prfTargetField := "requirement." +:+ id +:+ ".scenarios";
     prfTargetValue := "@integration scenario with harness_profile_ids containing " +:+ quote profileID;
     prfIssue := "Requirement " +:+ id +:+ " has no @integration scenario tagging testcontainers-class harness profile " +:+
       quote profileID +:+ ". This integration environment is sandbox-runnable; without an @integration scenario Murat cannot trace whether runtime proof is present.";
     prfSuggestion := "Add at least one scenario tagged @integration with harness_profile_ids containing " +:+
       quote profileID +:+ ". The scenario's Given assumes the integration environment is available and its endpoint is read from environment variables; the scenario does NOT instruct test code to start external services.";
     prfEvidence := "" |}.

Definition deferred_integration_finding (id profileID : string) : PlanReviewFinding :=
  {| prfSOPID := "scenario.deferred_integration_for_services";
     prfSOPTitle := "Services-class harness integration deferred to operator CI (ADR-045 defer-and-note)";
     prfSeverity := "warning";
     prfStatus := "violation";
     prfCategory := "structural";
     prfPhase := "scenarios";
     prfTargetID := id;
     prfAction := "review";
     prfTargetField := "requirement." +:+ id +:+ ".scenarios";
     prfTargetValue := "@integration scenario with harness_profile_ids containing " +:+ quote profileID +:+
       " (optional — operator-tier)";
     prfIssue := "Requirement " +:+ id +:+ " has no @integration scenario tagging services-class harness profile " +:+
       quote profileID +:+ ". This is recorded, NOT a rejection: services-class environments are un-runnable in the sandbox, so their runtime proof is deferred to the operator's CI via qa.yml (ADR-045).";
     prfSuggestion := "Optional: if a runtime contract is worth pinning, add an @integration scenario tagging " +:+
       quote profileID +:+ " so the operator's CI has an explicit target. Otherwise leave it — the profile already reaches the operator through the emitted qa.yml.";
     prfEvidence := "" |}.

Definition harness_unresolved_finding (id profileID : string) : PlanReviewFinding :=
  {| prfSOPID := "scenario.harness_id_unresolved";
     prfSOPTitle := "Scenario harness_profile_id does not resolve through the catalog (ADR-041 Move 4)";
     prfSeverity := "error";
     prfStatus := "violation";
     prfCategory := "structural";
     prfPhase := "scenarios";
     prfTargetID := id;
     prfAction := "fix";
     prfTargetField := "scenario." +:+ id +:+ ".harness_profile_ids";
     prfTargetValue := profileID;
     prfIssue := "Scenario " +:+ id +:+ " lists harness_profile_id " +:+ quote profileID +:+ ", which is not present in the harness catalog. QA cannot trace runtime evidence to a profile that doesn't exist.";
     prfSuggestion := "Replace " +:+ quote profileID +:+ " with a valid profile_id from the architecture's selected harness_profiles[], or remove the entry. Profile IDs are catalog cross-references (e.g. " +:+
       dquote +:+ "mavlink.px4-sitl.mavsdk-smoke" +:+ dquote +:+ "), not free text.";
     prfEvidence := "" |}.

Definition unit_services_finding (id matched : string) : PlanReviewFinding :=
  {| prfSOPID := "scenario.unit_mentions_services";
     prfSOPTitle := "@unit scenario mentions real services (ADR-041 Move 4 warn)";
     prfSeverity := "warning";
     prfStatus := "violation";
     prfCategory := "structural";
     prfPhase := "scenarios";
     prfTargetID := id;
     prfAction := "review";
     prfTargetField := "scenario." +:+ id +:+ ".{given,when,then,title}";
     prfTargetValue := matched;
     prfIssue := "Scenario " +:+ id +:+ " is tagged @unit but its prose contains " +:+ quote matched +:+
       ", which implies real-service observation. @unit scenarios are observable at function/class boundary with fakes only.";
     prfSuggestion := "Either rewrite the scenario to describe in-process behavior (fakes, fixtures, no peer process), or move the obligation to a separate @integration scenario bound to the relevant harness profile. The " +:+
       quote matched +:+ " reference belongs to the @integration tier.";
     prfEvidence := "" |}.

End findings.
