(* ===== verification/PlanRules.v ===== *)
(** * The deterministic rules of the plan reviewer

    processor/plan-reviewer: the structural rules that run before and after
    the reviewer agent (architecture_rules.go, capability_rules.go,
    story_rules.go, scenario_tag_rules.go) and their merge into a review
    (deterministic_preflight.go), with the condition on a plan that they
    decide.  The findings themselves are in RuleFindings.v.

    [strings.EqualFold] is needed against "integration_target" only, whose
    letters have no fold outside ASCII.  The harness catalogue is a file the
    loader of workflow/harnesscatalog parses: here it is a parameter, [None]
    when the loader fails.  Go's iteration over its profiles is [order]. *)

From Stdlib Require Import Ascii.
From stdpp Require Import pretty.
From S2P Require Import Prelude Graphs Status Paths Types Stories Reviews RuleFindings.

Local Open Scope string_scope.
Local Open Scope go_scope.

(** ** Topology-controlled paths (workflow/topology_path.go) *)

Definition topology_manifests : list string :=
  ["go.mod"; "go.work"; "package.json"; "pnpm-workspace.yaml"; "lerna.json"; "nx.json"; "pyproject.toml";
   "requirements.txt"; "setup.py"; "Pipfile"; "Cargo.toml"; "pom.xml"; "build.gradle"; "build.gradle.kts";
   "settings.gradle"; "settings.gradle.kts"; "composer.json"; "Gemfile"; "gradlew"; "gradlew.bat"].

Definition IsTopologyControlledPath (p : string) : bool :=
  let p := NormalizeFilePath p in
  if p =? "" then false else
  let base := Base p in
  existsb (eqb base) topology_manifests || HasSuffix base ".csproj" ||
  (p =? "gradle/wrapper/gradle-wrapper.properties") || HasSuffix p "/gradle/wrapper/gradle-wrapper.properties".

(** ** The harness catalogue (workflow/harnesscatalog/catalog.go) *)

Record Profile := MkProfile {
  hpID : string;
  hpImages : list string;
  hpEnv : gmap string string;
  hpRequiredAssertions : list string;
  hpOrchestration : string }.

Definition OrchestrationServices : string := "services".
Definition OrchestrationTestcontainers : string := "testcontainers".
Definition OrchestrationPureFixture : string := "pure-fixture".

Definition EffectiveOrchestration (p : Profile) : string :=
  let o := TrimSpace (hpOrchestration p) in
  if o !=? "" then o
  else if negb (is_nil (hpImages p)) then OrchestrationServices
  else OrchestrationPureFixture.

(** ** Tokens of names and paths *)

Definition token_byte (c : ascii) : bool :=
  let n := nat_of_ascii c in bool_decide (97 ≤ n ≤ 122)%nat || bool_decide (48 ≤ n ≤ 57)%nat.

(** [strings.FieldsFunc] with the bytes [f] as separators; a rune outside
    ASCII is a separator, and so is each of its bytes. *)
Fixpoint fields_func (f : ascii → bool) (cur s : string) : list string :=
  match s with
  | "" => if cur =? "" then [] else [cur]
  | String c r =>
      if f c then (if cur =? "" then [] else [cur]) ++ fields_func f "" r
      else fields_func f (cur +:+ String c "") r
  end%list.

(** Lower-case alphanumeric runs of at least five bytes. *)
Definition tokens (s : string) : list string :=
  filter (λ tok, (5 ≤ String.length tok)%nat) (fields_func (λ c, negb (token_byte c)) "" (ToLower s)).

Definition componentNameTokens (name : string) : gset string := list_to_set (tokens name).

Definition pathDirSegments (file : string) : list string :=
  let dir := Dir (replace_byte "\" "/" file) in
  if (dir =? ".") || (dir =? "/") || (dir =? "") then []
  else raw ← split_on "/" dir; tokens raw.

Fixpoint lower_bytes (s : string) : string :=
  match s with "" => "" | String c r => String (lower_ascii c) (lower_bytes r) end.

(** [strings.EqualFold(s, "integration_target")] *)
Definition is_integration_target (s : string) : bool := lower_bytes s =? "integration_target".

(** ** Architecture rules *)

Definition sourceFileCount (paths : list string) : nat :=
  length (filter (λ p, IsDocumentationPath p = false) paths).

(** [hasSourceFile] of architecture_rules.go *)
Definition has_source_file (paths : list string) : bool := bool_decide (0 < sourceFileCount paths)%nat.

Definition capabilityHasScenarioEvidence (plan : Plan) (capName : string) : bool :=
  existsb (λ req, (rCapabilityName req =? capName) && negb (is_nil (ScenariosForRequirement plan (rID req))))
    (pRequirements plan).

(** The closure [add] of [integratingComponents]; its set [seen] holds the
    names in [group]. *)
Definition add_integrating (group : list ComponentDef) (c : ComponentDef) : list ComponentDef :=
  if (cdName c =? "") || is_nil (cdImplementationFiles c) || bool_decide (cdName c ∈ cdName <$> group)
  then group else (group ++ [c])%list.

(** Components by name, the last of a name winning. *)
Definition components_by_name (components : list ComponentDef) : gmap string ComponentDef :=
  map_of ((λ c, (cdName c, c)) <$> filter (λ c, cdName c ≠ "") components).

Definition integratingComponents (r : UpstreamResolution) (all : list ComponentDef)
    (byName : gmap string ComponentDef) : list ComponentDef :=
  let group := foldl (λ g name, match byName !! name with Some c => add_integrating g c | None => g end) []
    (urUsedBy r) in
  foldl (λ g c, foldl (λ g ref, if ref =? urName r then add_integrating g c else g) g (cdUpstreamRefs c)) group all.

(** The files of one component; the result tells whether some count has
    reached two. *)
Fixpoint share_files (count : gmap string nat) (fileSeen : gset string) (files : list string) :
    gmap string nat * bool :=
  match files with
  | [] => (count, false)
  | f :: files =>
      if bool_decide (f ∈ fileSeen) then share_files count fileSeen files
      else
        let n := S (default 0%nat (count !! f)) in
        if bool_decide (2 ≤ n)%nat then (<[f := n]> count, true)
        else share_files (<[f := n]> count) ({[f]} ∪ fileSeen) files
  end.

Fixpoint share_loop (count : gmap string nat) (group : list ComponentDef) : bool :=
  match group with
  | [] => false
  | c :: group =>
      match share_files count ∅ (NormalizeFilePaths (cdImplementationFiles c)) with
      | (_, true) => true
      | (count, false) => share_loop count group
      end
  end.

Definition componentsShareAFile (group : list ComponentDef) : bool := share_loop ∅ group.

(** The names of the components that carry a token. *)
Definition token_owners (components : list ComponentDef) (tok : string) : gset string :=
  list_to_set (cdName <$> filter (λ c, cdName c ≠ "" ∧ tok ∈ componentNameTokens (cdName c)) components).

Definition distinctiveOwner (components : list ComponentDef) (tok : string) : option string :=
  match elements (token_owners components tok) with [n] => Some n | _ => None end.

(** The first segment that identifies another component. *)
Definition foreign_segment (components : list ComponentDef) (c : ComponentDef) (f : string) : option (string * string) :=
  head (omap (λ seg,
    if bool_decide (seg ∈ componentNameTokens (cdName c)) then None
    else match distinctiveOwner components seg with
         | Some owner => if owner =? cdName c then None else Some (seg, owner)
         | None => None
         end) (pathDirSegments f)).

Section rules.
Context (quote : string → string).

Definition architectureImplementationFileFindings (components : list ComponentDef) : list PlanReviewFinding :=
  c ← components;
  if cdName c =? "" then []
  else if is_nil (cdImplementationFiles c) then [missing_files_finding quote (cdName c)]
  else if negb (has_source_file (cdImplementationFiles c))
  then [doc_only_finding quote (cdName c) (cdImplementationFiles c)]
  else [].

Definition componentStubRiskFindings (plan : Plan) : list PlanReviewFinding :=
  match pArchitecture plan with
  | None => []
  | Some arch =>
      if is_nil (pScenarios plan) then [] else
      c ← adComponentBoundaries arch;
      if (cdName c =? "") || bool_decide (length (cdCapabilities c) < 2)%nat then [] else
      let unevidenced := filter (λ n, capabilityHasScenarioEvidence plan n = false) (cdCapabilities c) in
      if is_nil unevidenced then [] else [stub_risk_finding quote (cdName c) (cdCapabilities c) unevidenced]
  end.

Definition componentCohesionViolationFindings (arch : ArchitectureDocument) : list PlanReviewFinding :=
  let byName := components_by_name (adComponentBoundaries arch) in
  r ← adUpstreamResolutions arch;
  if negb (is_integration_target (TrimSpace (urRole r))) then [] else
  let group := integratingComponents r (adComponentBoundaries arch) byName in
  if bool_decide (length group < 2)%nat then []
  else if componentsShareAFile group then []
  else [cohesion_finding quote (cdName <$> group) (urName r)].

Definition componentFileNamespaceFindings (arch : ArchitectureDocument) : list PlanReviewFinding :=
  let components := adComponentBoundaries arch in
  if bool_decide (length components < 2)%nat then [] else
  c ← components;
  if cdName c =? "" then [] else
  f ← cdImplementationFiles c;
  match foreign_segment components c f with
  | Some (seg, owner) => [namespace_finding quote (cdName c) f seg owner]
  | None => []
  end.

Definition capabilityUnresolvedInArchitectureFindings (plan : Plan) : list PlanReviewFinding :=
  match pExploration plan, pArchitecture plan with
  | Some exp, Some arch =>
      let covered : gset string := list_to_set (adComponentBoundaries arch ≫= cdCapabilities) in
      (λ c, unresolved_capability_finding quote (capName c)) <$>
        filter (λ c, capName c ∉ covered) (exCapabilities exp)
  | _, _ => []
  end.

(** The closure [consider]: the paths seen and the findings. *)
Definition consider_scoped (owned doNotTouch : gset string) (origin : string)
    (st : gset string * list PlanReviewFinding) (raw : string) : gset string * list PlanReviewFinding :=
  let f := NormalizeFilePath raw in
  if (f =? "") || negb (IsConcreteScopedFile f) || bool_decide (f ∈ st.1) then st
  else
    let seen := {[f]} ∪ st.1 in
    if bool_decide (f ∈ doNotTouch) || bool_decide (f ∈ owned) then (seen, st.2)
    else (seen, (st.2 ++ [unowned_finding quote f origin])%list).

Definition scopedFileOwnershipFindings (scope : Scope) (components : list ComponentDef) (checkCreate : bool) :
    list PlanReviewFinding :=
  let owned : gset string :=
    list_to_set (c ← components; ExpandFileScopeWithCompanionTests (cdImplementationFiles c)) in
  let doNotTouch : gset string := list_to_set (NormalizeFilePaths (scpDoNotTouch scope)) in
  let st := if checkCreate then foldl (consider_scoped owned doNotTouch "create") (∅, []) (scpCreate scope)
            else (∅, []) in
  (foldl (consider_scoped owned doNotTouch "include") st (scpInclude scope)).2.

Definition contractTopologyManifestPaths (facts : list TopologyFact) : gset string :=
  list_to_set (filter (λ p, p ≠ "") (NormalizeFilePath ∘ tfPath <$>
    filter (λ f, tfKind f ∈ ["build_root"; "package_root"; "workspace_root"]) facts)).

Definition contractExplicitTopologyCreatePaths (scope : ContractScopeSnapshot) : gset string :=
  list_to_set (filter (λ p, p ≠ "" ∧ IsTopologyControlledPath p = true)
    (NormalizeFilePath <$> (cssCreate scope ++ cssInclude scope)%list)).

(** A build manifest that the contract neither knows nor allows. *)
Definition unapproved_manifest (contract : ContractPacket) (file : string) : bool :=
  IsTopologyControlledPath file && negb (bool_decide (file ∈ contractTopologyManifestPaths (cpTopologyFacts contract)))
  && negb (bool_decide (file ∈ contractExplicitTopologyCreatePaths (cpScope contract))).

Definition topology_file (contract : ContractPacket) (c : ComponentDef)
    (st : gset string * list PlanReviewFinding) (raw : string) : gset string * list PlanReviewFinding :=
  let file := NormalizeFilePath raw in
  let key := cdName c +:+ String (byte 0) file in
  if (file =? "") || negb (unapproved_manifest contract file) || bool_decide (key ∈ st.1) then st
  else
    let targetField := if cdName c !=? "" then "component_boundaries." +:+ cdName c +:+ ".implementation_files"
                       else "component_boundaries[].implementation_files" in
    ({[key]} ∪ st.1, (st.2 ++ [topology_finding quote (cdName c) targetField file])%list).

Definition topologyContractFindings (contract : option ContractPacket) (components : list ComponentDef) :
    list PlanReviewFinding :=
  match contract with
  | None => []
  | Some contract =>
      if is_nil (cpTopologyFacts contract) then [] else
      (foldl (λ st c, foldl (topology_file contract c) st (cdImplementationFiles c)) (∅, []) components).2
  end.

Definition architecture_findings (plan : Plan) : list PlanReviewFinding :=
  match pArchitecture plan with
  | None => []
  | Some arch =>
      let components := adComponentBoundaries arch in
      if is_nil components then [] else
      (architectureImplementationFileFindings components ++ componentStubRiskFindings plan ++
       componentCohesionViolationFindings arch ++ componentFileNamespaceFindings arch ++
       capabilityUnresolvedInArchitectureFindings plan ++
       scopedFileOwnershipFindings (pScope plan) components (negb (is_nil (pStories plan))) ++
       topologyContractFindings (pContract plan) components)%list
  end.
(** ** Capability rules *)

Definition lifecycle_text (l : CapabilityLifecycle) : string :=
  match l with
  | CapabilityNew => "new"
  | CapabilityModified => "modified"
  | CapabilityLifecycleOther raw => raw
  end.

Definition surface_text (s : CapabilitySurface) : string :=
  match s with
  | SurfaceUI => "ui"
  | SurfaceAPI => "api"
  | SurfaceBackground => "background"
  | SurfaceOther raw => raw
  end.

(** The texts of the errors of [ValidateCapabilitySet]
    (workflow/plan_capability.go). *)
Definition capability_error_text (e : cap_error) : string :=
  match e with
  | CapMissingName i => "capability[" +:+ pretty i +:+ "] missing name"
  | CapInvalidLifecycle name l => "capability " +:+ quote name +:+ " has invalid lifecycle " +:+ quote (lifecycle_text l)
  | CapDuplicate name => "capability " +:+ quote name +:+ " declared more than once"
  | CapInvalidSurface name i s =>
      "capability " +:+ quote name +:+ " surfaces[" +:+ pretty i +:+ "] " +:+ quote (surface_text s) +:+
      " is not one of ui/api/background"
  | CapDuplicateSurface name s =>
      "capability " +:+ quote name +:+ " declares surface " +:+ quote (surface_text s) +:+ " more than once"
  | CapUnknownDep name dep => "capability " +:+ quote name +:+ " depends_on " +:+ quote dep +:+ " which is not declared"
  | CapCycle stack name => "capability depends_on cycle through " +:+ Join stack " -> " +:+ " -> " +:+ name
  | _ => ""
  end.

(** [FindDocsOnlyCapabilities] always returns nil, so the rule on
    capabilities that own documentation only reports nothing. *)
Definition capabilityOrphanFindings (plan : Plan) : list PlanReviewFinding :=
  ((orphan_finding quote <$> FindUncoveredCapabilities (pExploration plan) (pRequirements plan)) ++
   ((λ r, requirement_orphan_finding quote (rID r) (rCapabilityName r)) <$>
      FindOrphanRequirementCapabilities (pExploration plan) (pRequirements plan)))%list.

Definition capabilityDependencyCycleFindings (exp : Exploration) : list PlanReviewFinding :=
  match ValidateCapabilitySet (exCapabilities exp) with
  | None => []
  | Some e =>
      if negb (Contains (capability_error_text e) "cycle") then []
      else [capability_cycle_finding (capability_error_text e)]
  end.

Definition capabilityDependencyOrphanFindings (exp : Exploration) : list PlanReviewFinding :=
  let declared : gset string := list_to_set (capName <$> exCapabilities exp) in
  c ← exCapabilities exp;
  dependency_orphan_finding quote (capName c) <$> filter (λ dep, dep ∉ declared) (capDependsOn c).

Definition capability_findings (plan : Plan) : list PlanReviewFinding :=
  match pExploration plan with
  | None => []
  | Some exp =>
      ((if is_nil (pRequirements plan) then [] else capabilityOrphanFindings plan) ++
       capabilityDependencyCycleFindings exp ++ capabilityDependencyOrphanFindings exp)%list
  end.

(** ** Story rules *)

Definition architectureComponentNames (plan : Plan) : gset string :=
  match pArchitecture plan with
  | None => ∅
  | Some arch => list_to_set (filter (λ n, n ≠ "") (cdName <$> adComponentBoundaries arch))
  end.

Definition architectureComponentsByName (plan : Plan) : gmap string ComponentDef :=
  match pArchitecture plan with
  | None => ∅
  | Some arch => components_by_name (adComponentBoundaries arch)
  end.

Definition planRequirementIDs (plan : Plan) : gset string := list_to_set (rID <$> pRequirements plan).

Definition story_structure (componentNames requirementIDs : gset string) (s : Story) : list PlanReviewFinding :=
  ((match head (filter (λ rid, rid ∉ requirementIDs) (sRequirementIDs s)) with
    | Some rid => [story_requirement_finding quote (sID s) rid]
    | None => []
    end) ++
   (if (sComponentName s !=? "") && negb (bool_decide (sComponentName s ∈ componentNames))
    then [story_component_finding quote (sID s) (sComponentName s)] else []) ++
   (if sStatus s =? StoryStatusPending then [] else
    (if is_nil (sFilesOwned s) then [story_files_finding (sID s)]
     else if negb (has_source_file (sFilesOwned s)) then [story_docs_finding (sID s) (sFilesOwned s)]
     else []) ++
    (if is_nil (sTasks s) then [story_tasks_finding (sID s)] else [])))%list.

Definition storyStructuralFindings (plan : Plan) : list PlanReviewFinding :=
  pStories plan ≫= story_structure (architectureComponentNames plan) (planRequirementIDs plan).

Definition componentOwnedFiles (component : ComponentDef) : gset string :=
  list_to_set (filter (λ p, p ≠ "")
    (NormalizeFilePath <$> ExpandFileScopeWithCompanionTests (cdImplementationFiles component))).

(** A finding unless its key has been seen. *)
Definition report_once (key : string) (f : PlanReviewFinding) (st : gset string * list PlanReviewFinding) :
    gset string * list PlanReviewFinding :=
  if bool_decide (key ∈ st.1) then st else ({[key]} ∪ st.1, (st.2 ++ [f])%list).

Definition nul : string := String (byte 0) "".

Definition story_file (contract : option ContractPacket) (s : Story) (owned : gset string)
    (st : gset string * list PlanReviewFinding) (raw : string) : gset string * list PlanReviewFinding :=
  let file := NormalizeFilePath raw in
  if file =? "" then st else
  let st :=
    match contract with
    | Some contract =>
        if negb (is_nil (cpTopologyFacts contract)) && unapproved_manifest contract file
        then report_once ("topology" +:+ nul +:+ sID s +:+ nul +:+ file) (story_topology_finding quote (sID s) file) st
        else st
    | None => st
    end in
  if bool_decide (file ∈ owned) then st
  else report_once ("component" +:+ nul +:+ sID s +:+ nul +:+ file)
         (story_outside_finding quote (sID s) (sComponentName s) file) st.

Definition story_ownership (plan : Plan) (st : gset string * list PlanReviewFinding) (s : Story) :
    gset string * list PlanReviewFinding :=
  if sStatus s =? StoryStatusPending then st else
  match architectureComponentsByName plan !! sComponentName s with
  | None => st
  | Some component =>
      foldl (story_file (pContract plan) s (componentOwnedFiles component)) st (sFilesOwned s)
  end.

Definition storyOwnershipFindings (plan : Plan) : list PlanReviewFinding :=
  (foldl (story_ownership plan) (∅, []) (pStories plan)).2.

(** [contractScopeObligation]: a path and the scope list it comes from. *)
Definition add_deliverable (protected : gset string) (origin : string) (obligations : list (string * string))
    (raw : string) : list (string * string) :=
  let p := NormalizeFilePath raw in
  if (p =? "") || negb (IsConcreteScopedFile p) || bool_decide (p ∈ protected) ||
     bool_decide (p ∈ obligations.*1) then obligations
  else (obligations ++ [(p, origin)])%list.

Definition contractScopeDeliverables (scope : ContractScopeSnapshot) : list (string * string) :=
  let protected : gset string := list_to_set (NormalizeFilePaths (cssDoNotTouch scope)) in
  foldl (add_deliverable protected "include")
    (foldl (add_deliverable protected "create") [] (cssCreate scope)) (cssInclude scope).

Definition scopedDeliverableSet (create include doNotTouch : list string) : gset string :=
  let protected : gset string := list_to_set (NormalizeFilePaths doNotTouch) in
  list_to_set (filter (λ p, p ≠ "" ∧ IsConcreteScopedFile p = true ∧ p ∉ protected)
    (NormalizeFilePath <$> (create ++ include)%list)).

Definition storyOwnedFileSet (stories : list Story) : gset string :=
  list_to_set (filter (λ p, p ≠ "")
    (s ← filter (λ s, sStatus s ≠ StoryStatusPending) stories; ExpandFileScopeWithCompanionTests (sFilesOwned s))).

Definition scope_prefixes : list string :=
  ["scope:"; "scope.create:"; "scope.include:"; "contract.scope:"; "contract.scope.create:"; "contract.scope.include:"].

(** [addContractAffectedID]: the names under which an affected identifier is
    entered. *)
Definition contract_affected_names (id : string) : list string :=
  let id := TrimSpace id in
  if id =? "" then [] else
  (id :: filter (λ p, p ≠ "") (NormalizeFilePath id ::
     (NormalizeFilePath ∘ TrimPrefix id <$> filter (λ prefix, HasPrefix id prefix = true) scope_prefixes)))%list.

Definition contractChangedAffectedIDs (contract : ContractPacket) : gset string :=
  list_to_set (a ← filter (λ a, ciKind (caImpact a) = ContractImpactChange) (cpAmendments contract);
               ciAffectedIDs (caImpact a) ≫= contract_affected_names).

Definition contractPathAmended (path : string) (amended : gset string) : bool :=
  existsb (λ candidate, bool_decide (candidate ∈ amended)) (path :: ((λ p, p +:+ path) <$> scope_prefixes)).

Definition obligation_findings (currentScope storyCoverage : gset string) (ob : string * string) :
    list PlanReviewFinding :=
  ((if bool_decide (ob.1 ∈ currentScope) then [] else [scope_missing_finding quote ob.1 ob.2]) ++
   (if bool_decide (ob.1 ∈ storyCoverage) then [] else [scope_uncovered_finding quote ob.1 ob.2]))%list.

Definition storyContractCoverageFindings (plan : Plan) : list PlanReviewFinding :=
  match pContract plan with
  | None => []
  | Some contract =>
      let amended := contractChangedAffectedIDs contract in
      let scope := pScope plan in
      let currentScope := scopedDeliverableSet (scpCreate scope) (scpInclude scope) (scpDoNotTouch scope) in
      let storyCoverage := storyOwnedFileSet (pStories plan) in
      filter (λ ob, contractPathAmended ob.1 amended = false) (contractScopeDeliverables (cpScope contract))
        ≫= obligation_findings currentScope storyCoverage
  end.

(** The texts of the errors of [ValidateStoryDAG] and [ValidateTaskDAG]
    (workflow/plan_story.go). *)
Definition dag_error_text (e : story_error) : string :=
  match e with
  | ErrInvalidStoryDAG (DepSelf id) => "invalid story DAG: story " +:+ quote id +:+ " depends on itself"
  | ErrInvalidStoryDAG (DepUnknown id dep) =>
      "invalid story DAG: story " +:+ quote id +:+ " depends on unknown story " +:+ quote dep
  | ErrInvalidStoryDAG (DepCycle id dep) =>
      "invalid story DAG: cycle detected — story " +:+ quote id +:+ " and story " +:+ quote dep +:+ " are in a cycle"
  | ErrInvalidTaskDAG story (DepSelf id) =>
      "invalid task DAG: task " +:+ quote id +:+ " in story " +:+ quote story +:+ " depends on itself"
  | ErrInvalidTaskDAG story (DepUnknown id dep) =>
      "invalid task DAG: task " +:+ quote id +:+ " in story " +:+ quote story +:+ " depends on unknown task " +:+ quote dep
  | ErrInvalidTaskDAG story (DepCycle id dep) =>
      "invalid task DAG: cycle detected in story " +:+ quote story +:+ " — task " +:+ quote id +:+ " and task " +:+
      quote dep +:+ " are in a cycle"
  | _ => ""
  end.

(** The errors wrap the sentinel they are compared with. *)
Definition dagErrorToFindings (e : story_error) (phase cycleSOP orphanSOP title targetField : string) :
    list PlanReviewFinding :=
  let msg := dag_error_text e in
  let sop := if Contains msg "cycle" || Contains msg "depends on itself" then cycleSOP else orphanSOP in
  [dag_finding sop title phase targetField msg].

Definition storyDependsOnFindings (plan : Plan) : list PlanReviewFinding :=
  match ValidateStoryDAG (pStories plan) with
  | Some e => dagErrorToFindings e "stories" "story.depends_on_cycle" "story.depends_on_orphan"
                "Cross-story DependsOn DAG invalid (ADR-043 Move 2)" "depends_on"
  | None => []
  end.

Definition taskDependsOnFindings (plan : Plan) : list PlanReviewFinding :=
  s ← pStories plan;
  if is_nil (sTasks s) then [] else
  match ValidateTaskDAG (sID s) (sTasks s) with
  | Some e => dagErrorToFindings e "stories" "task.depends_on_cycle" "task.depends_on_orphan"
                ("Intra-story Task DependsOn DAG invalid for story " +:+ sID s +:+ " (ADR-043 Move 2)")
                ("story." +:+ sID s +:+ ".tasks.depends_on")
  | None => []
  end.

Definition story_findings (plan : Plan) : list PlanReviewFinding :=
  if is_nil (pStories plan) then [] else
  (storyStructuralFindings plan ++ storyOwnershipFindings plan ++ storyContractCoverageFindings plan ++
   storyDependsOnFindings plan ++ taskDependsOnFindings plan)%list.

(** ** Scenario rules *)

Definition hasTag (s : Scenario) (tag : string) : bool := existsb (eqb tag) (scTags s).

Definition scenarioMissingTierTagFindings (plan : Plan) : list PlanReviewFinding :=
  s ← pScenarios plan;
  let tierCount := length (filter (λ t, IsTierTag t = true) (scTags s)) in
  if bool_decide (tierCount = 1%nat) then [] else [tier_tag_finding (scID s) tierCount].

Definition hasTierScenario (scenarios : list Scenario) (tier : string) : bool :=
  existsb (λ s, hasTag s tier) scenarios.

Definition scenarioMissingUnitCoverageFindings (plan : Plan) : list PlanReviewFinding :=
  req ← pRequirements plan;
  if hasTierScenario (ScenariosForRequirement plan (rID req)) "@unit" then []
  else [unit_coverage_finding quote (rID req) (rTitle req)].

Definition hasIntegrationScenarioForProfile (scenarios : list Scenario) (profileID : string) : bool :=
  existsb (λ s, hasTag s "@integration" && existsb (eqb profileID) (scHarnessProfileIDs s)) scenarios.

(** The set [seen] holds the identifiers of both classes. *)
Definition classify_profile (catalog : gmap string Profile) (st : list string * list string)
    (sel : HarnessProfileSelection) : list string * list string :=
  let id := hpsProfileID sel in
  if bool_decide (id ∈ st.1) || bool_decide (id ∈ st.2) then st else
  match catalog !! id with
  | None => st
  | Some profile =>
      let o := EffectiveOrchestration profile in
      if o =? OrchestrationTestcontainers then ((st.1 ++ [id])%list, st.2)
      else if o =? OrchestrationServices then (st.1, (st.2 ++ [id])%list)
      else st
  end.

Definition integrationProfileIDsByClass (arch : ArchitectureDocument) (catalog : gmap string Profile) :
    list string * list string :=
  foldl (classify_profile catalog) ([], []) (adHarnessProfiles arch).

Definition scenarioMissingIntegrationForServicesFindings (plan : Plan) (catalog : gmap string Profile) :
    list PlanReviewFinding :=
  match pArchitecture plan with
  | None => []
  | Some arch =>
      let classes := integrationProfileIDsByClass arch catalog in
      req ← pRequirements plan;
      let lacks id := hasIntegrationScenarioForProfile (ScenariosForRequirement plan (rID req)) id = false in
      ((missing_integration_finding quote (rID req) <$> filter lacks classes.1) ++
       (deferred_integration_finding quote (rID req) <$> filter lacks classes.2))%list
  end.

Definition scenarioHarnessIDUnresolvedFindings (plan : Plan) (catalog : gmap string Profile) :
    list PlanReviewFinding :=
  s ← pScenarios plan;
  harness_unresolved_finding quote (scID s) <$> filter (λ id, id ∉ dom catalog) (scHarnessProfileIDs s).

Definition service_tokens : list string :=
  ["SITL"; " sitl"; "container"; "real database"; "real service"; "real network"; "live database"; "live service";
   "live network"; "running service"; "running peer"; "running harness"; "docker run"; "docker compose"].

Definition matchedToken (s : Scenario) (tokens : list string) : string :=
  let corpus := ToLower (Join [scGiven s; scWhen s; Join (scThen s) " "] " ") in
  default "" (head (filter (λ t, t ≠ "" ∧ Contains corpus (ToLower t) = true) tokens)).

Section catalog.
Context (catalog : option (gmap string Profile)) (order : gset string → list string).

Definition scenarioUnitMentionsServicesFindings (plan : Plan) : list PlanReviewFinding :=
  let tokens := (service_tokens ++
    match catalog with Some c => filter (λ id, id ≠ "") (order (dom c)) | None => [] end)%list in
  s ← pScenarios plan;
  if negb (hasTag s "@unit") then [] else
  let matched := matchedToken s tokens in
  if matched =? "" then [] else [unit_services_finding quote (scID s) matched].

Definition scenario_findings (plan : Plan) : list PlanReviewFinding :=
  if is_nil (pScenarios plan) then [] else
  (scenarioMissingTierTagFindings plan ++ scenarioMissingUnitCoverageFindings plan ++
   match catalog with
   | Some catalog =>
       scenarioMissingIntegrationForServicesFindings plan catalog ++ scenarioHarnessIDUnresolvedFindings plan catalog
   | None => []
   end ++ scenarioUnitMentionsServicesFindings plan)%list.

(** ** Merging into a review *)

(** The verdict is normalized when the rules found something. *)
Definition merge_findings (fs : list PlanReviewFinding) (r : PlanReviewResult) : PlanReviewResult :=
  if is_nil fs then r
  else NormalizeVerdict (MkPlanReviewResult (rvVerdict r) (rvSummary r) (rvFindings r ++ fs)%list).

Definition mergeCapabilityFindings (plan : Plan) : PlanReviewResult → PlanReviewResult :=
  merge_findings (capability_findings plan).
Definition mergeArchitectureFindings (plan : Plan) : PlanReviewResult → PlanReviewResult :=
  merge_findings (architecture_findings plan).
Definition mergeStoryFindings (plan : Plan) : PlanReviewResult → PlanReviewResult :=
  merge_findings (story_findings plan).
Definition mergeScenarioTagFindings (plan : Plan) : PlanReviewResult → PlanReviewResult :=
  merge_findings (scenario_findings plan).

Definition mergeDeterministicFindings (plan : Plan) (r : PlanReviewResult) : PlanReviewResult :=
  mergeScenarioTagFindings plan (mergeStoryFindings plan (mergeArchitectureFindings plan (mergeCapabilityFindings plan r))).

Definition deterministicPreflightReview (plan : Plan) : option PlanReviewResult :=
  let r := mergeDeterministicFindings plan
    (MkPlanReviewResult "approved" "Deterministic structural preflight passed." []) in
  let errorCount := length (ErrorFindings r) in
  if bool_decide (errorCount = 0%nat) then None
  else Some (MkPlanReviewResult "needs_changes"
    ("Deterministic structural preflight found " +:+ pretty errorCount +:+
     " blocking issue(s); reviewer LLM was not dispatched.") (rvFindings r)).
End catalog.
End rules.
