(* ===== verification/PlanRuleFacts.v ===== *)
(** * What the rules of the plan reviewer decide

    The hard rules of PlanRules.v report nothing exactly on the plans that
    satisfy [structurally_sound], a condition on the parts of the plan that
    does not run the rules.  One part of it keeps what a rule does with a text:
    the rule on cycles of capabilities looks for the word "cycle" in the error
    of the check of the capabilities ([cs_set]).  The condition shares with
    the rules the functions of the package workflow on single paths and
    profiles ([NormalizeFilePath], [IsDocumentationPath],
    [IsConcreteScopedFile], [IsTopologyControlledPath],
    [ExpandFileScopeWithCompanionTests], [EffectiveOrchestration]).  A merged
    review approves only such plans.  The rules agree with
    the validators of Stories.v that run when the parts of a plan are saved. *)

From stdpp Require Import pretty.
From S2P Require Import Prelude Graphs Status Paths Types Stories PlanStore Reviews RuleFindings PlanRules.

Local Open Scope string_scope.
Local Open Scope go_scope.

(** ** Findings that block *)

Definition clean (fs : list PlanReviewFinding) : Prop := filter (λ f, error_finding f = true) fs = [].

Lemma clean_nil : clean [] ↔ True.
Proof. done. Qed.

Lemma clean_app fs gs : clean (fs ++ gs) ↔ clean fs ∧ clean gs.
Proof. unfold clean. rewrite filter_app. split; [apply app_eq_nil|by intros [-> ->]]. Qed.

Lemma clean_error f : error_finding f = true → clean [f] ↔ False.
Proof. intros H. unfold clean. rewrite filter_cons_True by done. done. Qed.

Lemma clean_other f : error_finding f = false → clean [f] ↔ True.
Proof. intros H. unfold clean. rewrite filter_cons_False by congruence. done. Qed.

Lemma clean_bind {A} (f : A → list PlanReviewFinding) l : clean (l ≫= f) ↔ ∀ x, x ∈ l → clean (f x).
Proof.
  induction l as [|x l IH]; [set_solver|]. rewrite bind_cons, clean_app, IH. set_solver.
Qed.

Lemma clean_fmap_error {A} (f : A → PlanReviewFinding) l : (∀ x, error_finding (f x) = true) → clean (f <$> l) ↔ l = [].
Proof.
  intros H. destruct l as [|x l]; [done|]. rewrite fmap_cons. change (f x :: ?r) with ([f x] ++ r)%list.
  rewrite clean_app, clean_error by done. split; [tauto|done].
Qed.

Lemma clean_fmap_other {A} (f : A → PlanReviewFinding) l : (∀ x, error_finding (f x) = false) → clean (f <$> l).
Proof.
  intros H. induction l as [|x l IH]; [done|]. rewrite fmap_cons. change (f x :: ?r) with ([f x] ++ r)%list.
  by rewrite clean_app, clean_other.
Qed.

Lemma filter_nil {A} (P : A → Prop) `{!∀ x, Decision (P x)} l : filter P l = [] ↔ ∀ x, x ∈ l → ¬ P x.
Proof.
  split.
  - intros Hn x Hx HP. assert (x ∈ filter P l) as Hf by (by apply list_elem_of_filter). rewrite Hn in Hf. set_solver.
  - intros Hn. destruct (filter P l) as [|x k] eqn:E; [done|]. exfalso.
    assert (x ∈ filter P l) as Hx by (rewrite E; set_solver). apply list_elem_of_filter in Hx as [HP Hin]. by eapply Hn.
Qed.

(** ** Rules that report into an accumulator

    [inv] relates the keys seen to the findings while these are clean. *)

Section folds.
Context {A : Type} (step : gset string * list PlanReviewFinding → A → gset string * list PlanReviewFinding).
Context (good : A → Prop) (inv : gset string * list PlanReviewFinding → Prop).

Lemma fold_mono l st : (∀ st x, clean (step st x).2 → clean st.2) → clean (foldl step st l).2 → clean st.2.
Proof. intros Hm. revert st. induction l as [|x l IH]; intros st; cbn [foldl]; [done|]. eauto. Qed.

Lemma fold_clean l st :
  (∀ st x, clean (step st x).2 → clean st.2) →
  (∀ st x, inv st → clean st.2 → (clean (step st x).2 ↔ good x) ∧ (good x → inv (step st x))) →
  inv st → clean st.2 →
  (clean (foldl step st l).2 ↔ ∀ x, x ∈ l → good x) ∧ ((∀ x, x ∈ l → good x) → inv (foldl step st l)).
Proof.
  intros Hm Hs. revert st. induction l as [|x l IH]; intros st Hi Hc; cbn [foldl]; [set_solver|].
  destruct (Hs st x Hi Hc) as [Hx Hi']. split; [split|].
  - intros H. assert (clean (step st x).2) as H1 by (by eapply fold_mono). apply Hx in H1 as Hg.
    intros y [->|Hy]%elem_of_cons; [done|]. destruct (IH (step st x) (Hi' Hg) H1) as [[H2 _] _]. by apply H2.
  - intros H. assert (good x) as Hg by (apply H; left). apply (IH (step st x)); [by apply Hi'|by apply Hx|].
    intros y Hy. apply H. by right.
  - intros H. assert (good x) as Hg by (apply H; left). apply (IH (step st x)); [by apply Hi'|by apply Hx|].
    intros y Hy. apply H. by right.
Qed.
End folds.

(** ** The condition the hard rules decide *)

Section sound.
Context (quote : string → string) (catalog : option (gmap string Profile)).

(** An error of the check of the capabilities that the rule on cycles lets
    pass: neither a cycle of dependencies nor, by the accident of its text, an
    invalid lifecycle, and no other whose text has the word. *)
Definition no_cycle_error (e : cap_error) : Prop :=
  match e with
  | CapCycle _ _ | CapInvalidLifecycle _ _ => False
  | e => Contains (capability_error_text quote e) "cycle" = false
  end.

Record capabilities_sound (plan : Plan) (exp : Exploration) : Prop := {
  cs_covered : pRequirements plan ≠ [] → ∀ c, c ∈ exCapabilities exp →
    capName c ≠ "" ∧ ∃ r, r ∈ pRequirements plan ∧ rCapabilityName r = capName c;
  cs_declared : ∀ r, r ∈ pRequirements plan → rCapabilityName r ≠ "" →
    ∃ c, c ∈ exCapabilities exp ∧ capName c = rCapabilityName r;
  cs_deps : ∀ c dep, c ∈ exCapabilities exp → dep ∈ capDependsOn c → ∃ d, d ∈ exCapabilities exp ∧ capName d = dep;
  cs_set : capabilities_ok (exCapabilities exp) ∨
    ∃ e, ValidateCapabilitySet (exCapabilities exp) = Some e ∧ no_cycle_error e }.

(** A file to be written, given the ones that are not to be touched. *)
Definition to_write (doNotTouch : list string) (raw f : string) : Prop :=
  f = NormalizeFilePath raw ∧ f ≠ "" ∧ IsConcreteScopedFile f = true ∧
  ∀ p, p ∈ doNotTouch → f ≠ NormalizeFilePath p.

(** A file in scope that the plan is to write. *)
Definition deliverable (scope : Scope) : string → string → Prop := to_write (scpDoNotTouch scope).

(** A file that is no build manifest, or one that the contract has as a root or
    has in its scope. *)
Definition approved_manifest (contract : ContractPacket) (f : string) : Prop :=
  IsTopologyControlledPath f = true →
  (∃ fact, fact ∈ cpTopologyFacts contract ∧ tfKind fact ∈ ["build_root"; "package_root"; "workspace_root"] ∧
     NormalizeFilePath (tfPath fact) = f) ∨
  (∃ p, (p ∈ cssCreate (cpScope contract) ∨ p ∈ cssInclude (cpScope contract)) ∧ NormalizeFilePath p = f).

(** The component of the name, the last when there are several. *)
Definition named_component (plan : Plan) (name : string) (c : ComponentDef) : Prop :=
  name ≠ "" ∧ cdName c = name ∧ ∃ arch before after, pArchitecture plan = Some arch ∧
    adComponentBoundaries arch = (before ++ c :: after)%list ∧ ∀ d, d ∈ after → cdName d ≠ name.

(** An affected identifier of an amendment names the path: the path itself, with
    one of the prefixes of a scope, or after one has been cut off. *)
Definition names_path (id path : string) : Prop :=
  id ≠ "" ∧ ∃ name, (name = path ∨ ∃ pre, pre ∈ scope_prefixes ∧ name = pre +:+ path) ∧
    (name = id ∨ name ≠ "" ∧ (name = NormalizeFilePath id ∨
       ∃ pre rest, pre ∈ scope_prefixes ∧ id = pre +:+ rest ∧ name = NormalizeFilePath rest)).

Definition amended (contract : ContractPacket) (path : string) : Prop :=
  ∃ a id, a ∈ cpAmendments contract ∧ ciKind (caImpact a) = ContractImpactChange ∧
    id ∈ ciAffectedIDs (caImpact a) ∧ names_path (TrimSpace id) path.

Record architecture_sound (plan : Plan) (arch : ArchitectureDocument) : Prop := {
  as_files : ∀ c, c ∈ adComponentBoundaries arch → cdName c ≠ "" →
    ∃ f, f ∈ cdImplementationFiles c ∧ IsDocumentationPath f = false;
  as_evidence : pScenarios plan ≠ [] → ∀ c n, c ∈ adComponentBoundaries arch → cdName c ≠ "" →
    (2 ≤ length (cdCapabilities c))%nat → n ∈ cdCapabilities c →
    ∃ r s, r ∈ pRequirements plan ∧ rCapabilityName r = n ∧ s ∈ pScenarios plan ∧ scRequirementID s = rID r;
  as_capabilities : ∀ exp k, pExploration plan = Some exp → k ∈ exCapabilities exp →
    ∃ c, c ∈ adComponentBoundaries arch ∧ capName k ∈ cdCapabilities c;
  as_owned : ∀ raw f, raw ∈ scpInclude (pScope plan) ∨ (pStories plan ≠ [] ∧ raw ∈ scpCreate (pScope plan)) →
    deliverable (pScope plan) raw f →
    ∃ c, c ∈ adComponentBoundaries arch ∧ f ∈ ExpandFileScopeWithCompanionTests (cdImplementationFiles c);
  as_topology : ∀ contract c raw, pContract plan = Some contract → cpTopologyFacts contract ≠ [] →
    c ∈ adComponentBoundaries arch → raw ∈ cdImplementationFiles c →
    approved_manifest contract (NormalizeFilePath raw) }.

(** One story that has been signed off. *)
Record signed_off (plan : Plan) (s : Story) : Prop := {
  sg_source : ∃ f, f ∈ sFilesOwned s ∧ IsDocumentationPath f = false;
  sg_tasks : sTasks s ≠ [];
  sg_owned : ∀ c raw, named_component plan (sComponentName s) c → raw ∈ sFilesOwned s → NormalizeFilePath raw ≠ "" →
    ∃ f, f ∈ ExpandFileScopeWithCompanionTests (cdImplementationFiles c) ∧ NormalizeFilePath f = NormalizeFilePath raw;
  sg_topology : ∀ contract c raw, named_component plan (sComponentName s) c →
    pContract plan = Some contract → cpTopologyFacts contract ≠ [] → raw ∈ sFilesOwned s →
    approved_manifest contract (NormalizeFilePath raw) }.

Record stories_sound (plan : Plan) : Prop := {
  ss_requirements : ∀ s rid, s ∈ pStories plan → rid ∈ sRequirementIDs s → rid ∈ rID <$> pRequirements plan;
  ss_components : ∀ s, s ∈ pStories plan → sComponentName s = "" ∨
    ∃ arch c, pArchitecture plan = Some arch ∧ c ∈ adComponentBoundaries arch ∧ cdName c = sComponentName s;
  ss_signed_off : ∀ s, s ∈ pStories plan → sStatus s ≠ StoryStatusPending → signed_off plan s;
  ss_contract : ∀ contract raw p, pContract plan = Some contract →
    raw ∈ cssCreate (cpScope contract) ∨ raw ∈ cssInclude (cpScope contract) →
    to_write (cssDoNotTouch (cpScope contract)) raw p → ¬ amended contract p →
    (∃ raw', (raw' ∈ scpCreate (pScope plan) ∨ raw' ∈ scpInclude (pScope plan)) ∧ deliverable (pScope plan) raw' p) ∧
    (∃ s, s ∈ pStories plan ∧ sStatus s ≠ StoryStatusPending ∧ p ∈ ExpandFileScopeWithCompanionTests (sFilesOwned s));
  ss_dag : dag_spec (story_node <$> pStories plan);
  ss_task_dag : ∀ s, s ∈ pStories plan → dag_spec (task_node <$> sTasks s) }.

(** A scenario of the requirement with the tag. *)
Definition tagged (plan : Plan) (req : Requirement) (tag : string) (s : Scenario) : Prop :=
  s ∈ pScenarios plan ∧ scRequirementID s = rID req ∧ tag ∈ scTags s.

Record scenarios_sound (plan : Plan) : Prop := {
  cn_tier : ∀ s, s ∈ pScenarios plan → length (filter (λ t, IsTierTag t = true) (scTags s)) = 1%nat;
  cn_unit : ∀ req, req ∈ pRequirements plan → ∃ s, tagged plan req "@unit" s;
  cn_integration : ∀ arch cat sel p req, pArchitecture plan = Some arch → catalog = Some cat →
    sel ∈ adHarnessProfiles arch → cat !! hpsProfileID sel = Some p →
    EffectiveOrchestration p = OrchestrationTestcontainers → req ∈ pRequirements plan →
    ∃ s, tagged plan req "@integration" s ∧ hpsProfileID sel ∈ scHarnessProfileIDs s;
  cn_harness : ∀ cat s id, catalog = Some cat → s ∈ pScenarios plan → id ∈ scHarnessProfileIDs s → is_Some (cat !! id) }.

(** What each round asks of the parts of the plan that exist. *)
Record structurally_sound (plan : Plan) : Prop := {
  st_capabilities : ∀ exp, pExploration plan = Some exp → capabilities_sound plan exp;
  st_architecture : ∀ arch, pArchitecture plan = Some arch → adComponentBoundaries arch ≠ [] → architecture_sound plan arch;
  st_stories : pStories plan ≠ [] → stories_sound plan;
  st_scenarios : pScenarios plan ≠ [] → scenarios_sound plan }.
End sound.

(** ** The helpers of the rules *)

Lemma not_approved contract f : unapproved_manifest contract f = false ↔ approved_manifest contract f.
Proof.
  unfold unapproved_manifest, approved_manifest. destruct (IsTopologyControlledPath f) eqn:Ef; cbn [andb]; [|done].
  assert (Hne : f ≠ "") by (intros ->; by vm_compute in Ef).
  assert (H1 : f ∈ contractTopologyManifestPaths (cpTopologyFacts contract) ↔
    ∃ fact, fact ∈ cpTopologyFacts contract ∧ tfKind fact ∈ ["build_root"; "package_root"; "workspace_root"] ∧
      NormalizeFilePath (tfPath fact) = f).
  { unfold contractTopologyManifestPaths. rewrite elem_of_list_to_set, list_elem_of_filter, list_elem_of_fmap.
    setoid_rewrite list_elem_of_filter. naive_solver. }
  assert (H2 : f ∈ contractExplicitTopologyCreatePaths (cpScope contract) ↔
    ∃ p, (p ∈ cssCreate (cpScope contract) ∨ p ∈ cssInclude (cpScope contract)) ∧ NormalizeFilePath p = f).
  { unfold contractExplicitTopologyCreatePaths. rewrite elem_of_list_to_set, list_elem_of_filter, list_elem_of_fmap.
    setoid_rewrite elem_of_app. naive_solver. }
  rewrite <- H1, <- H2. destruct (bool_decide_reflect (f ∈ contractTopologyManifestPaths (cpTopologyFacts contract))),
    (bool_decide_reflect (f ∈ contractExplicitTopologyCreatePaths (cpScope contract))); cbn; split; naive_solver.
Qed.

Lemma by_name_last comps name c :
  components_by_name comps !! name = Some c ↔
  name ≠ "" ∧ cdName c = name ∧ ∃ before after, comps = (before ++ c :: after)%list ∧ ∀ d, d ∈ after → cdName d ≠ name.
Proof.
  unfold components_by_name, map_of. induction comps as [|d l IH] using rev_ind.
  { cbn. rewrite lookup_empty. split; [done|]. by intros (_ & _ & [|] & after & ? & _). }
  assert (Hsnoc : (∃ before after, (l ++ [d])%list = (before ++ c :: after)%list ∧ ∀ d, d ∈ after → cdName d ≠ name) ↔
    c = d ∨ cdName d ≠ name ∧ ∃ before after, l = (before ++ c :: after)%list ∧ ∀ d, d ∈ after → cdName d ≠ name).
  { split.
    - intros (before & after & Heq & Ha). destruct after as [|d' after _] using rev_ind.
      + apply app_inj_tail in Heq as [_ ->]. by left.
      + rewrite app_comm_cons, app_assoc in Heq. apply app_inj_tail in Heq as [-> <-]. right. split; [apply Ha; set_solver|].
        exists before, after. split; [done|]. intros d' Hd. apply Ha. set_solver.
    - intros [->|(Hd & before & after & -> & Ha)]; [exists l, []; set_solver|].
      exists before, (after ++ [d])%list. split; [by rewrite <- app_assoc|]. intros d'. rewrite elem_of_app, list_elem_of_singleton.
      intros [?| ->]; auto. }
  rewrite Hsnoc, filter_app, fmap_app, foldl_app. destruct (decide (cdName d ≠ "")) as [Hd|Hd].
  - rewrite filter_cons_True by done. cbn [filter list_filter fmap list_fmap foldl fst snd].
    destruct (decide (cdName d = name)) as [<-|Hn].
    + rewrite lookup_insert_eq. split; [intros [= <-]; auto|]. intros (_ & _ & [->|[? _]]); done.
    + rewrite lookup_insert_ne by done. rewrite IH. split; [intros (? & ? & ?); auto|].
      intros (? & ? & [->|[_ ?]]); [done|auto].
  - rewrite filter_cons_False by done. cbn [filter list_filter fmap list_fmap foldl]. rewrite IH.
    apply dec_stable in Hd. split; [intros (? & ? & ?); split_and!; [done..|right; split; [congruence|done]]|].
    intros (? & ? & [->|[_ ?]]); [congruence|auto].
Qed.

Lemma by_name_named plan name c : architectureComponentsByName plan !! name = Some c ↔ named_component plan name c.
Proof.
  unfold architectureComponentsByName, named_component. destruct (pArchitecture plan) as [arch|].
  - rewrite by_name_last. naive_solver.
  - rewrite lookup_empty. naive_solver.
Qed.

Lemma elem_of_component_names plan n : n ∈ architectureComponentNames plan ↔
  n ≠ "" ∧ ∃ arch c, pArchitecture plan = Some arch ∧ c ∈ adComponentBoundaries arch ∧ cdName c = n.
Proof.
  unfold architectureComponentNames. destruct (pArchitecture plan) as [arch|]; [|set_solver].
  rewrite elem_of_list_to_set, list_elem_of_filter, list_elem_of_fmap. naive_solver.
Qed.

Lemma elem_of_owned c f : f ≠ "" → f ∈ componentOwnedFiles c ↔
  ∃ g, g ∈ ExpandFileScopeWithCompanionTests (cdImplementationFiles c) ∧ NormalizeFilePath g = f.
Proof.
  intros Hf. unfold componentOwnedFiles. rewrite elem_of_list_to_set, list_elem_of_filter, list_elem_of_fmap. naive_solver.
Qed.

Lemma protected_ok doNotTouch f : f ≠ "" →
  f ∉ (list_to_set (NormalizeFilePaths doNotTouch) : gset string) ↔ ∀ p, p ∈ doNotTouch → f ≠ NormalizeFilePath p.
Proof.
  intros Hf. rewrite elem_of_list_to_set, elem_of_NormalizeFilePaths. naive_solver.
Qed.

Lemma elem_of_deliverables scope p :
  p ∈ (contractScopeDeliverables scope).*1 ↔
  ∃ raw, (raw ∈ cssCreate scope ∨ raw ∈ cssInclude scope) ∧ to_write (cssDoNotTouch scope) raw p.
Proof.
  unfold contractScopeDeliverables. cbv zeta. set (prot := list_to_set _ : gset string).
  assert (∀ origin l obs, p ∈ (foldl (add_deliverable prot origin) obs l).*1 ↔
    p ∈ obs.*1 ∨ ∃ raw, raw ∈ l ∧ to_write (cssDoNotTouch scope) raw p) as H.
  { intros origin l. induction l as [|raw l IH]; intros obs; cbn [foldl]; [set_solver|]. rewrite IH.
    assert (p ∈ (add_deliverable prot origin obs raw).*1 ↔ p ∈ obs.*1 ∨ to_write (cssDoNotTouch scope) raw p) as ->.
    { unfold add_deliverable, to_write. cbv zeta. set (f := NormalizeFilePath raw).
      destruct ((f =? "") || negb (IsConcreteScopedFile f) || bool_decide (f ∈ prot) || bool_decide (f ∈ obs.*1)) eqn:E1.
      - split; [by left|]. intros [?|(-> & Hf & Hk & Hd)]; [done|]. rewrite !orb_true_iff in E1.
        destruct E1 as [[[E1|E1]|E1]|E1]; breflect; [done|congruence| |done]. by destruct (proj2 (protected_ok _ _ Hf) Hd).
      - rewrite !orb_false_iff in E1. destruct E1 as [[[E1 E2] E3] E4]. breflect. rewrite fmap_app, elem_of_app. cbn [fmap list_fmap fst].
        rewrite list_elem_of_singleton. split; [|naive_solver]. intros [?| ->]; [by left|right].
        split_and!; [done|done|done|]. by apply protected_ok. }
    set_solver. }
  rewrite !H. cbn [fmap list_fmap]. set_solver.
Qed.

Lemma elem_of_affected id name : name ∈ contract_affected_names id ↔
  TrimSpace id ≠ "" ∧ (name = TrimSpace id ∨ name ≠ "" ∧ (name = NormalizeFilePath (TrimSpace id) ∨
    ∃ pre rest, pre ∈ scope_prefixes ∧ TrimSpace id = pre +:+ rest ∧ name = NormalizeFilePath rest)).
Proof.
  unfold contract_affected_names. cbv zeta. set (t := TrimSpace id). destruct (t =? "") eqn:Et; breflect; [set_solver|].
  rewrite elem_of_cons, list_elem_of_filter, elem_of_cons, list_elem_of_fmap. setoid_rewrite list_elem_of_filter.
  setoid_rewrite HasPrefix_spec. split.
  - intros [->|[Hn [->|(pre & -> & [rest Ht] & Hp)]]]; [by split; [|left]|by split; [|right; split; [|left]]|].
    split; [done|right; split; [done|right]]. exists pre, rest. split_and!; [done..|]. cbn.
    unfold TrimPrefix. by rewrite (proj2 (cut_prefix_spec _ _ _) Ht).
  - intros [_ [->|[Hn [->|(pre & rest & Hp & Ht & ->)]]]]; [by left|right; split; [done|by left]|right; split; [done|right]].
    exists pre. split_and!; [|by exists rest|done]. cbn. unfold TrimPrefix. by rewrite (proj2 (cut_prefix_spec _ _ _) Ht).
Qed.

Lemma not_amended contract p :
  contractPathAmended p (contractChangedAffectedIDs contract) = false ↔ ¬ amended contract p.
Proof.
  rewrite <- not_true_iff_false. apply not_iff_compat. unfold contractPathAmended, contractChangedAffectedIDs, amended, names_path.
  rewrite existsb_exists. setoid_rewrite <- list_elem_of_In. setoid_rewrite bool_decide_eq_true.
  setoid_rewrite elem_of_list_to_set. setoid_rewrite list_elem_of_bind. setoid_rewrite list_elem_of_bind.
  setoid_rewrite list_elem_of_filter. setoid_rewrite elem_of_affected.
  assert (∀ c, c ∈ p :: ((λ pre, pre +:+ p) <$> scope_prefixes) ↔ c = p ∨ ∃ pre, pre ∈ scope_prefixes ∧ c = pre +:+ p) as Hc.
  { intros c. rewrite elem_of_cons, list_elem_of_fmap. naive_solver. }
  setoid_rewrite Hc. clear Hc. split.
  - intros (name & Hname & a & (id & (Hne & Hid) & Hin) & Hk & Ha). exists a, id. split_and!; [done..|].
    exists name. done.
  - intros (a & id & Ha & Hk & Hin & Hne & name & Hname & Hid). exists name. split; [done|].
    exists a. split; [|done]. exists id. done.
Qed.

(** ** Rule by rule *)

(** Cases on the guards of a rule with one finding at most. *)
Ltac one_finding := first [rewrite clean_nil | rewrite clean_error by reflexivity | rewrite clean_other by reflexivity].

Lemma has_source_file_ok paths : has_source_file paths = true ↔ ∃ f, f ∈ paths ∧ IsDocumentationPath f = false.
Proof.
  unfold has_source_file, sourceFileCount. rewrite bool_decide_eq_true. split.
  - destruct (filter _ paths) as [|f k] eqn:E; [cbn; lia|]. intros _.
    assert (f ∈ filter (λ p, IsDocumentationPath p = false) paths) as Hf by (rewrite E; set_solver).
    apply list_elem_of_filter in Hf as [??]. eauto.
  - intros (f & Hin & Hd). assert (f ∈ filter (λ p, IsDocumentationPath p = false) paths) as Hf by (by apply list_elem_of_filter).
    destruct (filter _ paths); [set_solver|cbn; lia].
Qed.

Section each.
Context (quote : string → string).

Lemma files_rule_clean components :
  clean (architectureImplementationFileFindings quote components) ↔
  ∀ c, c ∈ components → cdName c ≠ "" → ∃ f, f ∈ cdImplementationFiles c ∧ IsDocumentationPath f = false.
Proof.
  unfold architectureImplementationFileFindings. rewrite clean_bind. apply forall_proper. intros c.
  destruct (cdName c =? "") eqn:En; breflect; [rewrite clean_nil; tauto|].
  destruct (is_nil (cdImplementationFiles c)) eqn:Ef; breflect.
  { rewrite clean_error by reflexivity. rewrite Ef. set_solver. }
  destruct (has_source_file (cdImplementationFiles c)) eqn:Es; cbn [negb].
  - apply has_source_file_ok in Es. rewrite clean_nil. tauto.
  - rewrite clean_error by reflexivity. apply not_true_iff_false in Es. rewrite has_source_file_ok in Es. tauto.
Qed.

Lemma evidence_ok plan n : capabilityHasScenarioEvidence plan n = true ↔
  ∃ r s, r ∈ pRequirements plan ∧ rCapabilityName r = n ∧ s ∈ pScenarios plan ∧ scRequirementID s = rID r.
Proof.
  unfold capabilityHasScenarioEvidence. rewrite existsb_exists. split.
  - intros (r & Hr & [Hn Hs]%andb_true_iff). apply list_elem_of_In in Hr. breflect.
    destruct (ScenariosForRequirement plan (rID r)) as [|s k] eqn:E; [done|].
    assert (s ∈ ScenariosForRequirement plan (rID r)) as Hin by (rewrite E; set_solver).
    apply list_elem_of_filter in Hin as [??]. eauto 10.
  - intros (r & s & Hr & Hn & Hs & Hid). exists r. split; [by apply list_elem_of_In|].
    apply andb_true_iff. split; [by apply eqb_true|].
    assert (s ∈ ScenariosForRequirement plan (rID r)) as Hin by (by apply list_elem_of_filter).
    destruct (ScenariosForRequirement plan (rID r)); [set_solver|done].
Qed.

Lemma stub_rule_clean plan arch : pArchitecture plan = Some arch →
  clean (componentStubRiskFindings quote plan) ↔
  (pScenarios plan ≠ [] → ∀ c n, c ∈ adComponentBoundaries arch → cdName c ≠ "" →
    (2 ≤ length (cdCapabilities c))%nat → n ∈ cdCapabilities c →
    ∃ r s, r ∈ pRequirements plan ∧ rCapabilityName r = n ∧ s ∈ pScenarios plan ∧ scRequirementID s = rID r).
Proof.
  intros Ea. unfold componentStubRiskFindings. rewrite Ea.
  destruct (is_nil (pScenarios plan)) eqn:Es; breflect; [rewrite clean_nil; tauto|].
  rewrite clean_bind. split.
  - intros H _ c n Hc Hn Hl Hin. specialize (H c Hc). apply eqb_false in Hn. rewrite Hn in H. cbn [orb] in H.
    rewrite bool_decide_eq_false_2 in H by lia.
    destruct (is_nil _) eqn:Ef in H; [|by apply clean_error in H]. breflect. rewrite filter_nil in Ef.
    specialize (Ef n Hin). apply evidence_ok. by destruct (capabilityHasScenarioEvidence plan n).
  - intros H c Hc. destruct (_ || _) eqn:Eg; [done|]. apply orb_false_iff in Eg as [En Hl]. breflect.
    destruct (is_nil _) eqn:Ef; [done|]. exfalso. apply is_nil_false in Ef. apply Ef, filter_nil. intros n Hin Hf.
    assert (capabilityHasScenarioEvidence plan n = true) as Ht; [|congruence]. apply evidence_ok.
    eapply (H Es c n); [done..|lia|done].
Qed.

Lemma cohesion_rule_clean arch : clean (componentCohesionViolationFindings quote arch).
Proof.
  unfold componentCohesionViolationFindings. apply clean_bind. intros r _.
  destruct (negb _); [done|]. destruct (bool_decide _); [done|]. destruct (componentsShareAFile _); [done|]. by apply clean_other.
Qed.

Lemma namespace_rule_clean arch : clean (componentFileNamespaceFindings quote arch).
Proof.
  unfold componentFileNamespaceFindings. destruct (bool_decide _); [done|]. apply clean_bind. intros c _.
  destruct (cdName c =? ""); [done|]. apply clean_bind. intros f _.
  destruct (foreign_segment _ c f) as [[seg owner]|]; [|done]. by apply clean_other.
Qed.

Lemma capability_rule_clean plan arch : pArchitecture plan = Some arch →
  clean (capabilityUnresolvedInArchitectureFindings quote plan) ↔
  ∀ exp k, pExploration plan = Some exp → k ∈ exCapabilities exp →
    ∃ c, c ∈ adComponentBoundaries arch ∧ capName k ∈ cdCapabilities c.
Proof.
  intros Ea. unfold capabilityUnresolvedInArchitectureFindings. rewrite Ea.
  destruct (pExploration plan) as [exp|]; [|split; done].
  rewrite clean_fmap_error by done. rewrite filter_nil. split.
  - intros H exp' k [= <-] Hk. specialize (H k Hk). destruct (decide (capName k ∈@{gset string} list_to_set (adComponentBoundaries arch ≫= cdCapabilities)))
      as [Hin|]; [|done]. apply elem_of_list_to_set, list_elem_of_bind in Hin as (c & ? & ?). eauto.
  - intros H k Hk Hn. apply Hn. destruct (H exp k eq_refl Hk) as (c & Hc & Hin).
    apply elem_of_list_to_set, list_elem_of_bind. eauto.
Qed.
End each.

Lemma report_once_clean key f st : error_finding f = true → (clean st.2 → st.1 = ∅) →
  ¬ clean (report_once key f st).2 ∧ (clean (report_once key f st).2 → (report_once key f st).1 = ∅).
Proof.
  intros Hf Hi. assert (¬ clean (report_once key f st).2); [|tauto]. unfold report_once.
  destruct (bool_decide (key ∈ st.1)) eqn:E; breflect; [intros Hc; rewrite (Hi Hc) in E; set_solver|].
  cbn [snd]. rewrite clean_app, clean_error by done. tauto.
Qed.

Lemma report_once_mono key f st : clean (report_once key f st).2 → clean st.2.
Proof. unfold report_once. destruct (bool_decide _); [done|]. cbn [snd]. rewrite clean_app. tauto. Qed.

Lemma unapproved_empty contract : unapproved_manifest contract "" = false.
Proof. reflexivity. Qed.

Section each_fold.
Context (quote : string → string).

(** *** Scoped files *)

Definition scoped_good (owned doNotTouch : gset string) (raw : string) : Prop :=
  let f := NormalizeFilePath raw in
  f ≠ "" → IsConcreteScopedFile f = true → f ∈ doNotTouch ∨ f ∈ owned.

Lemma consider_scoped_clean owned dnt origin l st :
  (∀ f, f ∈ st.1 → f ∈ dnt ∨ f ∈ owned) → clean st.2 →
  let st' := foldl (consider_scoped quote owned dnt origin) st l in
  (clean st'.2 ↔ ∀ raw, raw ∈ l → scoped_good owned dnt raw) ∧
  ((∀ raw, raw ∈ l → scoped_good owned dnt raw) → ∀ f, f ∈ st'.1 → f ∈ dnt ∨ f ∈ owned).
Proof.
  intros Hi Hc. cbv zeta.
  apply (fold_clean (consider_scoped quote owned dnt origin) (scoped_good owned dnt)
    (λ st, ∀ f, f ∈ st.1 → f ∈ dnt ∨ f ∈ owned)); [| |done..].
  - intros [seen fs] x. unfold consider_scoped. cbn [fst snd]. repeat (destruct (_ || _); [done|]). cbn [snd].
    rewrite clean_app. tauto.
  - clear st Hi Hc. intros [seen fs] x Hi Hc. cbn [fst snd] in *. unfold consider_scoped, scoped_good. cbn [fst snd].
    set (f := NormalizeFilePath x).
    destruct ((f =? "") || negb (IsConcreteScopedFile f) || bool_decide (f ∈ seen)) eqn:E1.
    { cbn [fst snd]. split; [|done]. split; [|done]. intros _ Hf Hk.
      apply orb_true_iff in E1 as [[E1|E1]%orb_true_iff|E1]; breflect; [done|congruence|auto]. }
    apply orb_false_iff in E1 as [[Ef Ek]%orb_false_iff Es]. breflect.
    destruct (bool_decide (f ∈ dnt) || bool_decide (f ∈ owned)) eqn:E2.
    + cbn [fst snd]. apply orb_true_iff in E2. rewrite !bool_decide_eq_true in E2.
      split; [tauto|]. intros _ g [->%elem_of_singleton|Hg]%elem_of_union; auto.
    + cbn [fst snd]. apply orb_false_iff in E2 as [E2 E3]. apply bool_decide_eq_false in E2, E3.
      rewrite clean_app, clean_error by reflexivity. tauto.
Qed.

Lemma scoped_rule_clean scope components checkCreate :
  clean (scopedFileOwnershipFindings quote scope components checkCreate) ↔
  ∀ raw f, raw ∈ scpInclude scope ∨ (checkCreate = true ∧ raw ∈ scpCreate scope) → deliverable scope raw f →
    ∃ c, c ∈ components ∧ f ∈ ExpandFileScopeWithCompanionTests (cdImplementationFiles c).
Proof.
  unfold scopedFileOwnershipFindings. set (owned := list_to_set _ : gset string). set (dnt := list_to_set _ : gset string).
  assert (∀ raw, scoped_good owned dnt raw ↔ ∀ f, deliverable scope raw f →
    ∃ c, c ∈ components ∧ f ∈ ExpandFileScopeWithCompanionTests (cdImplementationFiles c)) as Hg.
  { intros raw. unfold scoped_good, deliverable. split.
    - intros H f (-> & Hf & Hk & Hd). destruct (H Hf Hk) as [H1|H1].
      + apply elem_of_list_to_set, elem_of_NormalizeFilePaths in H1 as (_ & p & Hp & E). by destruct (Hd p).
      + apply elem_of_list_to_set, list_elem_of_bind in H1 as (c & ? & ?). eauto.
    - intros H Hf Hk. destruct (decide (NormalizeFilePath raw ∈ dnt)) as [|Hd]; [by left|right].
      destruct (H (NormalizeFilePath raw)) as (c & Hc & Hin).
      { split_and!; [done..|]. intros p Hp E. apply Hd, elem_of_list_to_set, elem_of_NormalizeFilePaths. eauto. }
      apply elem_of_list_to_set, list_elem_of_bind. eauto. }
  set (create := if checkCreate then scpCreate scope else []).
  replace (if checkCreate then _ else _) with (foldl (consider_scoped quote owned dnt "create") (∅, []) create)
    by (by destruct checkCreate).
  destruct (consider_scoped_clean owned dnt "create" create (∅, [])) as [C1 I1]; [set_solver|done|]. cbv zeta in *.
  set (st := foldl _ _ create) in *.
  assert ((∀ raw, raw ∈ create → scoped_good owned dnt raw) →
    clean (foldl (consider_scoped quote owned dnt "include") st (scpInclude scope)).2 ↔
    ∀ raw, raw ∈ scpInclude scope → scoped_good owned dnt raw) as C2.
  { intros Hcr. apply (consider_scoped_clean owned dnt "include" (scpInclude scope) st); [by apply I1|by apply C1]. }
  assert (clean (foldl (consider_scoped quote owned dnt "include") st (scpInclude scope)).2 → clean st.2) as Hm.
  { apply fold_mono. intros [seen fs] x. unfold consider_scoped. cbn [fst snd]. repeat (destruct (_ || _); [done|]).
    cbn [snd]. rewrite clean_app. tauto. }
  assert (∀ raw, raw ∈ create ↔ checkCreate = true ∧ raw ∈ scpCreate scope) as Hcreate.
  { intros raw. unfold create. destruct checkCreate; set_solver. }
  split.
  - intros H raw f Hin Hd. pose proof (proj1 C1 (Hm H)) as Hc. apply (proj1 (Hg raw)); [|done].
    destruct Hin as [Hin|Hin]; [by apply (proj1 (C2 Hc))|by apply Hc, Hcreate].
  - intros H. assert (∀ raw, raw ∈ create → scoped_good owned dnt raw) as Hc.
    { intros raw Hin. apply Hg. intros f Hd. apply (H raw f); [right; by apply Hcreate|done]. }
    apply (proj2 (C2 Hc)). intros raw Hin. apply Hg. intros f Hd. apply (H raw f); [by left|done].
Qed.

(** *** Build manifests *)

Definition manifests_good (contract : ContractPacket) (c : ComponentDef) : Prop :=
  ∀ raw, raw ∈ cdImplementationFiles c → unapproved_manifest contract (NormalizeFilePath raw) = false.

Lemma topology_mono contract c st raw : clean (topology_file quote contract c st raw).2 → clean st.2.
Proof. unfold topology_file. cbv zeta. destruct (_ || _); [done|]. cbn [snd]. rewrite clean_app. tauto. Qed.

Lemma topology_component_clean contract c l st : st.1 = ∅ → clean st.2 →
  (clean (foldl (topology_file quote contract c) st l).2 ↔
     ∀ raw, raw ∈ l → unapproved_manifest contract (NormalizeFilePath raw) = false) ∧
  ((∀ raw, raw ∈ l → unapproved_manifest contract (NormalizeFilePath raw) = false) →
     (foldl (topology_file quote contract c) st l).1 = ∅).
Proof.
  intros Hi Hc. apply (fold_clean (topology_file quote contract c)
    (λ raw, unapproved_manifest contract (NormalizeFilePath raw) = false) (λ st, st.1 = ∅)); [| |done..].
  - intros st' x. apply topology_mono.
  - clear st Hi Hc. intros [seen fs] raw Hi Hc. cbn [fst snd] in *. subst seen. unfold topology_file. cbn [fst snd].
    rewrite (bool_decide_eq_false_2 (_ ∈@{gset string} ∅)) by set_solver. rewrite orb_false_r.
    destruct (NormalizeFilePath raw =? "") eqn:E0; breflect; cbn [orb].
    { rewrite E0. cbn [fst snd]. rewrite unapproved_empty. tauto. }
    destruct (unapproved_manifest contract (NormalizeFilePath raw)) eqn:E1; cbn [negb fst snd]; [|tauto].
    rewrite clean_app, clean_error by reflexivity. split; [|done]. split; [tauto|done].
Qed.

Lemma topology_rule_clean contract components :
  clean (topologyContractFindings quote contract components) ↔
  ∀ k c raw, contract = Some k → cpTopologyFacts k ≠ [] → c ∈ components → raw ∈ cdImplementationFiles c →
    approved_manifest k (NormalizeFilePath raw).
Proof.
  setoid_rewrite <- not_approved. unfold topologyContractFindings. destruct contract as [k|]; [|split; done].
  destruct (is_nil (cpTopologyFacts k)) eqn:Et; breflect; [split; [intros _ k' c raw [= <-]; done|done]|].
  destruct (fold_clean (λ st c, foldl (topology_file quote k c) st (cdImplementationFiles c)) (manifests_good k)
    (λ st, st.1 = ∅) components (∅, [])) as [H _]; [| |done..|].
  - intros st c. apply fold_mono. intros st' x. apply topology_mono.
  - intros st c. apply topology_component_clean.
  - rewrite H. unfold manifests_good. split; [intros H' k' c raw [= <-] _ Hc Hr; by apply (H' c)|intros H' c Hc raw Hr; by eapply H'].
Qed.

Lemma architecture_findings_clean plan : clean (architecture_findings quote plan) ↔
  ∀ arch, pArchitecture plan = Some arch → adComponentBoundaries arch ≠ [] → architecture_sound plan arch.
Proof.
  unfold architecture_findings. destruct (pArchitecture plan) as [arch|] eqn:Ea; [|split; done].
  destruct (is_nil (adComponentBoundaries arch)) eqn:En; breflect; [split; [intros _ a [= <-]; done|done]|].
  rewrite !clean_app, files_rule_clean, (stub_rule_clean quote plan arch Ea), (capability_rule_clean quote plan arch Ea),
    scoped_rule_clean, topology_rule_clean.
  pose proof (cohesion_rule_clean quote arch). pose proof (namespace_rule_clean quote arch). split.
  - intros (H1 & H2 & _ & _ & H3 & H4 & H5) a [= <-] _. split; [done|done|done| |done].
    intros raw f Hin. apply H4. destruct Hin as [?|[Hs ?]]; [by left|right]. split; [|done].
    apply negb_true_iff. by apply is_nil_false.
  - intros Hs. destruct (Hs arch eq_refl En) as [H1 H2 H3 H4 H5]. split_and!; try done.
    intros raw f Hin. apply H4. destruct Hin as [?|[Hs' ?]]; [by left|right]. split; [|done].
    apply is_nil_false. by apply negb_true_iff.
Qed.
End each_fold.

(** *** Capabilities *)

Section capability_rules.
Context (quote : string → string).

Lemma Contains_app s t sub : Contains t sub = true → Contains (s +:+ t) sub = true.
Proof.
  intros H. induction s as [|c s IH]; [done|]. change (HasPrefix (String c s +:+ t) sub || Contains (s +:+ t) sub = true). by rewrite IH, orb_true_r.
Qed.

(** The text of the error of a cycle has the word, and so has the text about
    an invalid lifecycle. *)
Lemma no_cycle_text e : Contains (capability_error_text quote e) "cycle" = false ↔ no_cycle_error quote e.
Proof.
  destruct e as [|name l| | | | |stack name| | | |]; try done; cbn [no_cycle_error capability_error_text]; (split; [|done]);
    rewrite <- not_true_iff_false; intros H; apply H.
  by apply Contains_app, Contains_app.
Qed.

Lemma uncovered_nil exp reqs : FindUncoveredCapabilities (Some exp) reqs = [] ↔
  ∀ c, c ∈ exCapabilities exp → capName c ≠ "" ∧ ∃ r, r ∈ reqs ∧ rCapabilityName r = capName c.
Proof.
  unfold FindUncoveredCapabilities. rewrite filter_nil. split.
  - intros H c Hc. specialize (H (capName c) (list_elem_of_fmap_2 _ _ _ Hc)).
    destruct (decide (capName c ∈@{gset string} list_to_set (filter (λ n, n ≠ "") (rCapabilityName <$> reqs)))) as [Hin|]; [|done].
    apply elem_of_list_to_set, list_elem_of_filter in Hin as [Hn (r & E & Hr)%list_elem_of_fmap]. eauto.
  - intros H n (c & -> & Hc)%list_elem_of_fmap Hn. apply Hn, elem_of_list_to_set, list_elem_of_filter.
    destruct (H c Hc) as (Hne & r & Hr & E). split; [done|]. rewrite <- E. by apply list_elem_of_fmap_2.
Qed.

Lemma orphan_requirements_nil exp reqs : FindOrphanRequirementCapabilities (Some exp) reqs = [] ↔
  ∀ r, r ∈ reqs → rCapabilityName r ≠ "" → ∃ c, c ∈ exCapabilities exp ∧ capName c = rCapabilityName r.
Proof.
  unfold FindOrphanRequirementCapabilities. rewrite filter_nil. apply forall_proper. intros r.
  rewrite elem_of_list_to_set, list_elem_of_fmap. split.
  - intros H Hr Hn. destruct (decide (rCapabilityName r ∈ capName <$> exCapabilities exp)) as [(c & E & Hc)%list_elem_of_fmap|Hd].
    + eauto.
    + destruct (H Hr). split; [done|]. rewrite <- list_elem_of_fmap. done.
  - intros H Hr [Hn Hd]. destruct (H Hr Hn) as (c & Hc & E). apply Hd. eauto.
Qed.

Lemma capability_findings_clean plan : clean (capability_findings quote plan) ↔
  ∀ exp, pExploration plan = Some exp → capabilities_sound quote plan exp.
Proof.
  unfold capability_findings. destruct (pExploration plan) as [exp|] eqn:Ee; [|split; done].
  rewrite !clean_app.
  assert (clean (if is_nil (pRequirements plan) then [] else capabilityOrphanFindings quote plan) ↔
    (pRequirements plan ≠ [] → ∀ c, c ∈ exCapabilities exp →
       capName c ≠ "" ∧ ∃ r, r ∈ pRequirements plan ∧ rCapabilityName r = capName c) ∧
    (∀ r, r ∈ pRequirements plan → rCapabilityName r ≠ "" → ∃ c, c ∈ exCapabilities exp ∧ capName c = rCapabilityName r)) as ->.
  { destruct (is_nil (pRequirements plan)) eqn:En; breflect.
    { rewrite En, clean_nil. split; [|done]. intros _. split; [done|set_solver]. }
    unfold capabilityOrphanFindings. rewrite clean_app, !clean_fmap_error by done. rewrite Ee, uncovered_nil, orphan_requirements_nil.
    tauto. }
  assert (clean (capabilityDependencyCycleFindings quote exp) ↔ capabilities_ok (exCapabilities exp) ∨
    ∃ e, ValidateCapabilitySet (exCapabilities exp) = Some e ∧ no_cycle_error quote e) as ->.
  { unfold capabilityDependencyCycleFindings. rewrite <- ValidateCapabilitySet_None.
    destruct (ValidateCapabilitySet _) as [e|]; [|split; [by left|done]].
    setoid_rewrite <- no_cycle_text. destruct (Contains _ _) eqn:Ec; cbn [negb].
    - rewrite clean_error by done. split; [done|]. intros [?|(e' & [= <-] & ?)]; [done|congruence].
    - rewrite clean_nil. split; [|done]. intros _. right. by exists e. }
  assert (clean (capabilityDependencyOrphanFindings quote exp) ↔
    ∀ c dep, c ∈ exCapabilities exp → dep ∈ capDependsOn c → ∃ d, d ∈ exCapabilities exp ∧ capName d = dep) as ->.
  { unfold capabilityDependencyOrphanFindings. rewrite clean_bind. split.
    - intros H c dep Hc Hd. specialize (H c Hc). rewrite clean_fmap_error, filter_nil in H by done.
      destruct (decide (dep ∈ capName <$> exCapabilities exp)) as [(d & -> & Hin)%list_elem_of_fmap|Hn]; [eauto|].
      destruct (H dep Hd). by rewrite elem_of_list_to_set.
    - intros H c Hc. rewrite clean_fmap_error, filter_nil by done. intros dep Hd Hn. apply Hn.
      destruct (H c dep Hc Hd) as (d & Hin & <-). apply elem_of_list_to_set. by apply list_elem_of_fmap_2. }
  split.
  - intros [[H1 H2] [H3 H4]] e [= <-]. by split.
  - intros H. destruct (H exp eq_refl) as [H1 H2 H3 H4]. tauto.
Qed.
End capability_rules.

(** *** Stories *)

Section story_rules.
Context (quote : string → string).

Lemma story_structure_clean names reqs s : clean (story_structure quote names reqs s) ↔
  (∀ rid, rid ∈ sRequirementIDs s → rid ∈ reqs) ∧ (sComponentName s = "" ∨ sComponentName s ∈ names) ∧
  (sStatus s ≠ StoryStatusPending → (∃ f, f ∈ sFilesOwned s ∧ IsDocumentationPath f = false) ∧ sTasks s ≠ []).
Proof.
  unfold story_structure. rewrite !clean_app. f_equiv; [|f_equiv].
  - destruct (filter (λ rid, rid ∉ reqs) (sRequirementIDs s)) as [|rid k] eqn:E; cbn [head].
    + rewrite clean_nil, filter_nil in *. split; [|done]. intros _ rid Hr. destruct (decide (rid ∈ reqs)); [done|]. by destruct (E rid).
    + rewrite clean_error by done. split; [done|]. intros H.
      assert (rid ∈ filter (λ rid, rid ∉ reqs) (sRequirementIDs s)) as Hr by (rewrite E; set_solver).
      apply list_elem_of_filter in Hr as [Hn Hr]. apply Hn, H, Hr.
  - destruct (sComponentName s =? "") eqn:En; breflect; cbn [negb andb]; [rewrite clean_nil; tauto|].
    destruct (decide (sComponentName s ∈ names)).
    + rewrite bool_decide_eq_true_2 by done. cbn [negb]. rewrite clean_nil. tauto.
    + rewrite bool_decide_eq_false_2 by done. cbn [negb]. rewrite clean_error by done. tauto.
  - destruct (sStatus s =? StoryStatusPending) eqn:Es; breflect; [rewrite clean_nil; tauto|]. rewrite clean_app.
    assert (clean (if is_nil (sFilesOwned s) then [story_files_finding (sID s)]
      else if negb (has_source_file (sFilesOwned s)) then [story_docs_finding (sID s) (sFilesOwned s)] else []) ↔
      ∃ f, f ∈ sFilesOwned s ∧ IsDocumentationPath f = false) as ->.
    { rewrite <- has_source_file_ok. destruct (is_nil (sFilesOwned s)) eqn:En; breflect.
      { rewrite clean_error by done. rewrite En. done. }
      destruct (has_source_file (sFilesOwned s)); cbn [negb]; [rewrite clean_nil; done|rewrite clean_error by done; done]. }
    destruct (is_nil (sTasks s)) eqn:En; breflect; [rewrite clean_error by done|rewrite clean_nil]; tauto.
Qed.

Definition file_good (contract : option ContractPacket) (owned : gset string) (raw : string) : Prop :=
  (NormalizeFilePath raw ≠ "" → NormalizeFilePath raw ∈ owned) ∧
  (∀ k, contract = Some k → cpTopologyFacts k ≠ [] → unapproved_manifest k (NormalizeFilePath raw) = false).

Lemma story_file_mono contract s owned st raw : clean (story_file quote contract s owned st raw).2 → clean st.2.
Proof.
  unfold story_file. destruct (NormalizeFilePath raw =? ""); [done|]. cbv zeta.
  set (st1 := match contract with Some _ => _ | None => st end).
  assert (clean st1.2 → clean st.2) as Hm.
  { unfold st1. destruct contract; [|done]. destruct (_ && _); [|done]. intros H. by eapply report_once_mono. }
  destruct (bool_decide _); [exact Hm|]. intros H%report_once_mono. by apply Hm.
Qed.

Lemma story_file_clean contract s owned st raw : st.1 = ∅ → clean st.2 →
  (clean (story_file quote contract s owned st raw).2 ↔ file_good contract owned raw) ∧
  (file_good contract owned raw → (story_file quote contract s owned st raw).1 = ∅).
Proof.
  intros Hi Hc. unfold story_file, file_good. destruct (NormalizeFilePath raw =? "") eqn:E0; breflect.
  { rewrite E0. split; [|done]. split; [|done]. intros _. split; [done|]. intros k _ _. apply unapproved_empty. }
  set (bad := match contract with Some k => negb (is_nil (cpTopologyFacts k)) && unapproved_manifest k (NormalizeFilePath raw)
              | None => false end).
  assert ((∀ k, contract = Some k → cpTopologyFacts k ≠ [] → unapproved_manifest k (NormalizeFilePath raw) = false) ↔ bad = false) as ->.
  { unfold bad. destruct contract as [k|]; [|split; done]. destruct (is_nil (cpTopologyFacts k)) eqn:En; cbn [negb andb].
    - apply is_nil_true in En. split; [done|]. intros _ k' [= <-] Hk. done.
    - apply is_nil_false in En. split; [intros H; by apply (H k)|]. by intros H k' [= <-]. }
  cbv zeta. set (st1 := match contract with Some _ => _ | None => st end).
  assert (st1 = if bad then report_once ("topology" +:+ nul +:+ sID s +:+ nul +:+ NormalizeFilePath raw)
    (story_topology_finding quote (sID s) (NormalizeFilePath raw)) st else st) as E1 by (unfold st1, bad; by destruct contract).
  rewrite E1. clear E1 st1. destruct (decide (NormalizeFilePath raw ∈ owned)) as [Ho|Ho].
  - rewrite bool_decide_eq_true_2 by done. destruct bad; [|tauto].
    destruct (report_once_clean ("topology" +:+ nul +:+ sID s +:+ nul +:+ NormalizeFilePath raw)
      (story_topology_finding quote (sID s) (NormalizeFilePath raw)) st eq_refl) as [Hn _]; [done|].
    split; [|intros [_ ?]; done]. split; [tauto|]. by intros [_ ?].
  - rewrite bool_decide_eq_false_2 by done.
    assert (¬ clean (report_once ("component" +:+ nul +:+ sID s +:+ nul +:+ NormalizeFilePath raw)
      (story_outside_finding quote (sID s) (sComponentName s) (NormalizeFilePath raw))
      (if bad then report_once ("topology" +:+ nul +:+ sID s +:+ nul +:+ NormalizeFilePath raw)
        (story_topology_finding quote (sID s) (NormalizeFilePath raw)) st else st)).2) as Hn.
    { apply report_once_clean; [done|]. destruct bad; [|done]. by apply report_once_clean. }
    split; [|tauto]. split; [tauto|]. tauto.
Qed.

Definition ownership_good (plan : Plan) (s : Story) : Prop :=
  sStatus s ≠ StoryStatusPending → ∀ c raw, architectureComponentsByName plan !! sComponentName s = Some c →
  raw ∈ sFilesOwned s → file_good (pContract plan) (componentOwnedFiles c) raw.

Lemma ownership_rule_clean plan : clean (storyOwnershipFindings quote plan) ↔ ∀ s, s ∈ pStories plan → ownership_good plan s.
Proof.
  apply (fold_clean (story_ownership quote plan) (ownership_good plan) (λ st, st.1 = ∅) (pStories plan) (∅, [])); [| |done..].
  - intros st s. unfold story_ownership. case_match; [done|]. case_match; [|done]. apply fold_mono. intros st' raw. apply story_file_mono.
  - intros st s Hi Hc. unfold story_ownership, ownership_good. destruct (sStatus s =? StoryStatusPending) eqn:Es; breflect; [tauto|].
    destruct (architectureComponentsByName plan !! sComponentName s) as [c|]; [|split; [split; done|done]].
    destruct (fold_clean (story_file quote (pContract plan) s (componentOwnedFiles c))
      (file_good (pContract plan) (componentOwnedFiles c)) (λ st, st.1 = ∅) (sFilesOwned s) st) as [H1 H2]; [| |done..|].
    + intros st' raw. apply story_file_mono.
    + intros st' raw. apply story_file_clean.
    + rewrite H1. split; [split|].
      * intros H _ c' raw [= <-]. apply H.
      * intros H raw Hr. by apply (H Es c raw).
      * intros H. apply H2. intros raw Hr. by apply (H Es c raw).
Qed.

Lemma contract_rule_clean plan : clean (storyContractCoverageFindings quote plan) ↔
  ∀ contract raw p, pContract plan = Some contract →
    raw ∈ cssCreate (cpScope contract) ∨ raw ∈ cssInclude (cpScope contract) →
    to_write (cssDoNotTouch (cpScope contract)) raw p → ¬ amended contract p →
    (∃ raw', (raw' ∈ scpCreate (pScope plan) ∨ raw' ∈ scpInclude (pScope plan)) ∧ deliverable (pScope plan) raw' p) ∧
    (∃ s, s ∈ pStories plan ∧ sStatus s ≠ StoryStatusPending ∧ p ∈ ExpandFileScopeWithCompanionTests (sFilesOwned s)).
Proof.
  unfold storyContractCoverageFindings. destruct (pContract plan) as [k|]; [|split; done]. cbv zeta. rewrite clean_bind.
  assert (∀ scope cover ob, clean (obligation_findings quote scope cover ob) ↔ ob.1 ∈ scope ∧ ob.1 ∈ cover) as Hob.
  { intros scope cover [p origin]. unfold obligation_findings. cbn [fst snd]. rewrite clean_app.
    destruct (bool_decide_reflect (p ∈ scope)), (bool_decide_reflect (p ∈ cover)); rewrite ?clean_nil, ?clean_error by done; tauto. }
  setoid_rewrite Hob. setoid_rewrite list_elem_of_filter. setoid_rewrite not_amended.
  assert (∀ p, p ≠ "" → p ∈ scopedDeliverableSet (scpCreate (pScope plan)) (scpInclude (pScope plan)) (scpDoNotTouch (pScope plan)) ↔
    ∃ raw', (raw' ∈ scpCreate (pScope plan) ∨ raw' ∈ scpInclude (pScope plan)) ∧ deliverable (pScope plan) raw' p) as Hsc.
  { intros p Hp. unfold scopedDeliverableSet, deliverable, to_write. cbv zeta.
    rewrite elem_of_list_to_set, list_elem_of_filter, list_elem_of_fmap, (protected_ok _ _ Hp). setoid_rewrite elem_of_app.
    split; [intros ((_ & ? & ?) & raw & ? & ?)|intros (raw & ? & ? & _ & ? & ?)]; eauto 10. }
  assert (∀ p, p ≠ "" → p ∈ storyOwnedFileSet (pStories plan) ↔
    ∃ s, s ∈ pStories plan ∧ sStatus s ≠ StoryStatusPending ∧ p ∈ ExpandFileScopeWithCompanionTests (sFilesOwned s)) as Hst.
  { intros p Hp. unfold storyOwnedFileSet. rewrite elem_of_list_to_set, list_elem_of_filter, list_elem_of_bind.
    setoid_rewrite list_elem_of_filter. naive_solver. }
  split.
  - intros H k' raw p [= <-] Hraw Hw Ha. assert (p ≠ "") as Hp by apply Hw. rewrite <- (Hsc p Hp), <- (Hst p Hp).
    assert (p ∈ (contractScopeDeliverables (cpScope k)).*1) as (ob & -> & Hob')%list_elem_of_fmap
      by (apply elem_of_deliverables; eauto). by apply H.
  - intros H ob [Ha Hin]. destruct (proj1 (elem_of_deliverables (cpScope k) ob.1)) as (raw & Hraw & Hw);
      [by apply list_elem_of_fmap_2|]. assert (ob.1 ≠ "") as Hp by apply Hw. rewrite (Hsc _ Hp), (Hst _ Hp). by apply (H k raw).
Qed.

Lemma story_dag_clean plan : clean (storyDependsOnFindings quote plan) ↔ dag_spec (story_node <$> pStories plan).
Proof.
  rewrite <- validate_dag_None. unfold storyDependsOnFindings, ValidateStoryDAG.
  destruct (validate_dag _) as [e|]; cbn [fmap option_fmap option_map]; [|done].
  unfold dagErrorToFindings. rewrite clean_error by done. done.
Qed.

Lemma task_dag_clean plan :
  clean (taskDependsOnFindings quote plan) ↔ ∀ s, s ∈ pStories plan → dag_spec (task_node <$> sTasks s).
Proof.
  unfold taskDependsOnFindings. rewrite clean_bind. apply forall_proper. intros s.
  rewrite <- validate_dag_None. unfold ValidateTaskDAG. destruct (is_nil (sTasks s)) eqn:En; breflect.
  { rewrite En, clean_nil. split; [|done]. by intros _ _. }
  destruct (validate_dag _) as [e|]; cbn [fmap option_fmap option_map]; [|done].
  unfold dagErrorToFindings. rewrite clean_error by done. split; intros H Hs; by specialize (H Hs).
Qed.

Lemma story_findings_clean plan : clean (story_findings quote plan) ↔ (pStories plan ≠ [] → stories_sound plan).
Proof.
  unfold story_findings. destruct (is_nil (pStories plan)) eqn:En; breflect; [rewrite clean_nil; tauto|].
  rewrite !clean_app, ownership_rule_clean, contract_rule_clean, story_dag_clean, task_dag_clean.
  unfold storyStructuralFindings. rewrite clean_bind. setoid_rewrite story_structure_clean. split.
  - intros (H1 & H2 & H3 & H4 & H5) _. split; [| | |done..].
    + intros s rid Hs Hr. destruct (H1 s Hs) as [H _]. specialize (H rid Hr). by apply elem_of_list_to_set in H.
    + intros s Hs. destruct (proj1 (proj2 (H1 s Hs))) as [?|[_ ?]%elem_of_component_names]; auto.
    + intros s Hs Hp. destruct (H1 s Hs) as (_ & _ & H). destruct (H Hp) as [Hf Ht]. split; [done..| |].
      * intros c raw Hc%by_name_named Hr Hn. apply elem_of_owned; [done|]. by apply (H2 s Hs Hp c raw Hc Hr).
      * intros k c raw Hc%by_name_named Hk Hf' Hr. apply not_approved. by apply (H2 s Hs Hp c raw Hc Hr).
  - intros H. destruct (H En) as [H1 H2 H3 H4 H5 H6]. split_and!; [| |done..].
    + intros s Hs. split_and!; [| |].
      * intros rid Hr. apply elem_of_list_to_set. by apply (H1 s).
      * destruct (decide (sComponentName s = "")) as [|Hn]; [by left|right]. apply elem_of_component_names.
        destruct (H2 s Hs); done.
      * intros Hp. destruct (H3 s Hs Hp). done.
    + intros s Hs Hp c raw Hc%by_name_named Hr. destruct (H3 s Hs Hp) as [_ _ Ho Ht].
      split; [intros Hn; apply elem_of_owned; [done|by apply Ho]|].
      intros k Hk Hf. apply not_approved. by apply (Ht k c).
Qed.
End story_rules.

(** *** Scenarios *)

Section scenario_rules.
Context (quote : string → string) (catalog : option (gmap string Profile)) (order : gset string → list string).

Lemma hasTag_ok s tag : hasTag s tag = true ↔ tag ∈ scTags s.
Proof.
  unfold hasTag. rewrite existsb_exists. setoid_rewrite eqb_true. setoid_rewrite <- list_elem_of_In. naive_solver.
Qed.

Lemma tagged_ok plan req tag P (f : Scenario → bool) : (∀ s, f s = true ↔ tag ∈ scTags s ∧ P s) →
  existsb f (ScenariosForRequirement plan (rID req)) = true ↔ ∃ s, tagged plan req tag s ∧ P s.
Proof.
  intros Hf. rewrite existsb_exists. unfold tagged, ScenariosForRequirement. setoid_rewrite Hf.
  setoid_rewrite <- list_elem_of_In. setoid_rewrite list_elem_of_filter. naive_solver.
Qed.

Lemma unit_rule_clean plan : clean (scenarioMissingUnitCoverageFindings quote plan) ↔
  ∀ req, req ∈ pRequirements plan → ∃ s, tagged plan req "@unit" s.
Proof.
  unfold scenarioMissingUnitCoverageFindings. rewrite clean_bind. apply forall_proper. intros req.
  assert (hasTierScenario (ScenariosForRequirement plan (rID req)) "@unit" = true ↔ ∃ s, tagged plan req "@unit" s) as H.
  { unfold hasTierScenario. rewrite (tagged_ok plan req "@unit" (λ _, True)); [naive_solver|].
    intros s. rewrite hasTag_ok. tauto. }
  destruct (hasTierScenario _ _); [rewrite clean_nil|rewrite clean_error by done]; naive_solver.
Qed.

Lemma tier_rule_clean plan : clean (scenarioMissingTierTagFindings plan) ↔
  ∀ s, s ∈ pScenarios plan → length (filter (λ t, IsTierTag t = true) (scTags s)) = 1%nat.
Proof.
  unfold scenarioMissingTierTagFindings. rewrite clean_bind. apply forall_proper. intros s.
  destruct (bool_decide_reflect (length (filter (λ t, IsTierTag t = true) (scTags s)) = 1%nat));
    [rewrite clean_nil|rewrite clean_error by done]; tauto.
Qed.

(** The first class holds exactly the selected profiles of its kind. *)
Lemma classes_ok cat (l : list HarnessProfileSelection) st :
  (∀ id, id ∈ st.1 → ∃ p, cat !! id = Some p ∧ EffectiveOrchestration p = OrchestrationTestcontainers) →
  (∀ id, id ∈ st.2 → ∃ p, cat !! id = Some p ∧ EffectiveOrchestration p = OrchestrationServices) →
  ∀ id, id ∈ (foldl (classify_profile cat) st l).1 ↔ id ∈ st.1 ∨
    ∃ sel p, sel ∈ l ∧ hpsProfileID sel = id ∧ cat !! id = Some p ∧ EffectiveOrchestration p = OrchestrationTestcontainers.
Proof.
  revert st. induction l as [|sel l IH]; intros st H1 H2 id; cbn [foldl]; [set_solver|]. rewrite IH.
  - split.
    + intros [Hin|(sel' & p & Hs & Hp)]; [|right; exists sel', p; split; [by right|done]].
      unfold classify_profile in Hin. case_match; [by left|]. destruct (cat !! hpsProfileID sel) as [p|] eqn:Ep; [|by left].
      destruct (EffectiveOrchestration p =? OrchestrationTestcontainers) eqn:Eo; [|case_match; by left]. breflect. cbn [fst] in Hin.
      apply elem_of_app in Hin as [?| ->%list_elem_of_singleton]; [by left|right]. exists sel, p. split; [left|done].
    + assert (∀ x, x ∈ st.1 → x ∈ (classify_profile cat st sel).1) as Hmono.
      { intros x Hx. unfold classify_profile. repeat case_match; cbn [fst]; set_solver. }
      intros [Hin|(sel' & p & [->|Hs]%elem_of_cons & Hid & Hp & Ho)]; [left; by apply Hmono| |right; eauto 10].
      left. subst id. unfold classify_profile. rewrite Hp, Ho. rewrite eqb_refl.
      destruct (bool_decide (hpsProfileID sel ∈ st.1)) eqn:E1; cbn [orb]; [by apply bool_decide_eq_true in E1|].
      destruct (bool_decide (hpsProfileID sel ∈ st.2)) eqn:E2; [|set_solver].
      apply bool_decide_eq_true in E2. destruct (H2 _ E2) as (p' & Hp' & Ho'). rewrite Hp in Hp'. injection Hp' as <-.
      by rewrite Ho in Ho'.
  - intros x. unfold classify_profile. case_match; [apply H1|]. destruct (cat !! hpsProfileID sel) as [p|] eqn:Ep; [|apply H1].
    destruct (EffectiveOrchestration p =? OrchestrationTestcontainers) eqn:Eo; [|case_match; apply H1]. breflect.
    cbn [fst]. intros [?| ->%list_elem_of_singleton]%elem_of_app; [by apply H1|eauto].
  - intros x. unfold classify_profile. case_match; [apply H2|]. destruct (cat !! hpsProfileID sel) as [p|] eqn:Ep; [|apply H2].
    destruct (EffectiveOrchestration p =? OrchestrationTestcontainers); [apply H2|].
    destruct (EffectiveOrchestration p =? OrchestrationServices) eqn:Eo; [|apply H2]. breflect.
    cbn [snd]. intros [?| ->%list_elem_of_singleton]%elem_of_app; [by apply H2|eauto].
Qed.

Lemma integration_rule_clean plan cat : clean (scenarioMissingIntegrationForServicesFindings quote plan cat) ↔
  ∀ arch sel p req, pArchitecture plan = Some arch → sel ∈ adHarnessProfiles arch → cat !! hpsProfileID sel = Some p →
    EffectiveOrchestration p = OrchestrationTestcontainers → req ∈ pRequirements plan →
    ∃ s, tagged plan req "@integration" s ∧ hpsProfileID sel ∈ scHarnessProfileIDs s.
Proof.
  unfold scenarioMissingIntegrationForServicesFindings. destruct (pArchitecture plan) as [arch|]; [|split; done]. cbv zeta.
  rewrite clean_bind.
  assert (∀ req id, hasIntegrationScenarioForProfile (ScenariosForRequirement plan (rID req)) id = true ↔
    ∃ s, tagged plan req "@integration" s ∧ id ∈ scHarnessProfileIDs s) as Hh.
  { intros req id. unfold hasIntegrationScenarioForProfile. apply tagged_ok. intros s. rewrite andb_true_iff, hasTag_ok, existsb_exists.
    setoid_rewrite eqb_true. setoid_rewrite <- list_elem_of_In. naive_solver. }
  assert (∀ id, id ∈ (integrationProfileIDsByClass arch cat).1 ↔ ∃ sel p, sel ∈ adHarnessProfiles arch ∧ hpsProfileID sel = id ∧
    cat !! id = Some p ∧ EffectiveOrchestration p = OrchestrationTestcontainers) as Hc.
  { intros id. unfold integrationProfileIDsByClass. rewrite classes_ok by set_solver. set_solver. }
  split.
  - intros H a sel p req [= <-] Hs Hp Ho Hr. specialize (H req Hr). rewrite clean_app, clean_fmap_error, filter_nil in H by done.
    destruct H as [H _]. specialize (H (hpsProfileID sel)). apply Hh.
    destruct (hasIntegrationScenarioForProfile _ _); [done|]. destruct H; [|done]. apply Hc. eauto 10.
  - intros H req Hr. rewrite clean_app, clean_fmap_error, filter_nil by done. split; [|by apply clean_fmap_other].
    intros id (sel & p & Hs & <- & Hp & Ho)%Hc Hf. assert (∃ s, tagged plan req "@integration" s ∧ hpsProfileID sel ∈ scHarnessProfileIDs s) as Ht%Hh
      by eauto. congruence.
Qed.

Lemma harness_rule_clean plan cat : clean (scenarioHarnessIDUnresolvedFindings quote plan cat) ↔
  ∀ s id, s ∈ pScenarios plan → id ∈ scHarnessProfileIDs s → is_Some (cat !! id).
Proof.
  unfold scenarioHarnessIDUnresolvedFindings. rewrite clean_bind. split.
  - intros H s id Hs Hi. specialize (H s Hs). rewrite clean_fmap_error, filter_nil in H by done.
    destruct (decide (is_Some (cat !! id))); [done|]. destruct (H id Hi). by rewrite elem_of_dom.
  - intros H s Hs. rewrite clean_fmap_error, filter_nil by done. intros id Hi Hn. by apply Hn, elem_of_dom, (H s).
Qed.

Lemma mentions_rule_clean plan : clean (scenarioUnitMentionsServicesFindings quote catalog order plan).
Proof.
  unfold scenarioUnitMentionsServicesFindings. cbv zeta. apply clean_bind. intros s _.
  destruct (negb _); [done|]. destruct (_ =? ""); [done|]. by apply clean_other.
Qed.

Lemma scenario_findings_clean plan :
  clean (scenario_findings quote catalog order plan) ↔ (pScenarios plan ≠ [] → scenarios_sound catalog plan).
Proof.
  unfold scenario_findings. destruct (is_nil (pScenarios plan)) eqn:En; breflect; [rewrite clean_nil; tauto|].
  rewrite !clean_app, tier_rule_clean, unit_rule_clean. pose proof (mentions_rule_clean plan).
  assert (clean (match catalog with Some catalog => scenarioMissingIntegrationForServicesFindings quote plan catalog ++
      scenarioHarnessIDUnresolvedFindings quote plan catalog | None => [] end) ↔
    ∀ cat, catalog = Some cat → clean (scenarioMissingIntegrationForServicesFindings quote plan cat) ∧
      clean (scenarioHarnessIDUnresolvedFindings quote plan cat)) as ->.
  { destruct catalog as [cat|]; [|split; done]. rewrite clean_app. split; [by intros ? ? [= <-]|auto]. }
  setoid_rewrite integration_rule_clean. setoid_rewrite harness_rule_clean. split.
  - intros (H1 & H2 & H3 & _) _. split; [done|done| |].
    + intros arch cat sel p req Ha Hc. by eapply (H3 cat Hc).
    + intros cat s id Hc. by apply (H3 cat Hc).
  - intros Hs. destruct (Hs En) as [H1 H2 H3 H4]. split_and!; [done..| |done]. intros cat Hc. split.
    + intros arch sel p req Ha. by apply (H3 arch cat).
    + intros s id. by apply (H4 cat).
Qed.

(** ** The review as a whole *)

Lemma errors_merge fs r :
  ErrorFindings (merge_findings fs r) = (ErrorFindings r ++ filter (λ f, error_finding f = true) fs)%list.
Proof.
  unfold merge_findings. destruct (is_nil fs) eqn:E; [apply is_nil_true in E as ->; by rewrite app_nil_r|].
  unfold NormalizeVerdict, ErrorFindings. repeat case_match; cbn [rvFindings]; by rewrite filter_app.
Qed.

Lemma merged_errors plan r :
  ErrorFindings (mergeDeterministicFindings quote catalog order plan r) = [] ↔
  ErrorFindings r = [] ∧ structurally_sound quote catalog plan.
Proof.
  unfold mergeDeterministicFindings, mergeScenarioTagFindings, mergeStoryFindings, mergeArchitectureFindings,
    mergeCapabilityFindings. rewrite !errors_merge.
  assert (∀ {A} (l k : list A), (l ++ k)%list = [] ↔ l = [] ∧ k = []) as Happ.
  { intros A l k. split; [apply app_eq_nil|by intros [-> ->]]. }
  rewrite !Happ. change (filter _ ?fs = []) with (clean fs).
  rewrite capability_findings_clean, architecture_findings_clean, story_findings_clean, scenario_findings_clean.
  split; [intros [[[[H0 H1] H2] H3] H4]; split; [exact H0|split; assumption]|intros [? []]; tauto].
Qed.

Lemma merge_finds fs r : rvFindings (merge_findings fs r) = (rvFindings r ++ fs)%list.
Proof.
  unfold merge_findings. destruct (is_nil fs) eqn:E; [apply is_nil_true in E as ->; by rewrite app_nil_r|].
  unfold NormalizeVerdict. by repeat case_match.
Qed.

(** C8: The preflight of the plan reviewer lets a plan through to the
    reviewer agent exactly when the plan is structurally sound: capabilities
    covered and their set valid (up to errors without the word cycle in
    their text, which is how the rule on cycles tells them), components with
    code, owned files, evidence and approved build roots, stories signed off and
    within the contract, scenarios tagged, resolved and covering.  Otherwise it
    answers that changes are needed, with all the findings of the four groups
    of rules in their order, at least one of which is an error. *)
Theorem preflight_decides plan :
  match deterministicPreflightReview quote catalog order plan with
  | None => structurally_sound quote catalog plan
  | Some r => ¬ structurally_sound quote catalog plan ∧ rvVerdict r = "needs_changes" ∧ ErrorFindings r ≠ [] ∧
      rvFindings r = (capability_findings quote plan ++ architecture_findings quote plan ++ story_findings quote plan ++
                      scenario_findings quote catalog order plan)%list
  end.
Proof.
  unfold deterministicPreflightReview. cbv zeta. set (r0 := MkPlanReviewResult _ _ []).
  pose proof (merged_errors plan r0) as H.
  assert (rvFindings (mergeDeterministicFindings quote catalog order plan r0) = (capability_findings quote plan ++
    architecture_findings quote plan ++ story_findings quote plan ++ scenario_findings quote catalog order plan)%list) as Hf.
  { unfold mergeDeterministicFindings, mergeScenarioTagFindings, mergeStoryFindings, mergeArchitectureFindings,
      mergeCapabilityFindings. rewrite !merge_finds. cbn [rvFindings r0 app]. by rewrite <- !app_assoc. }
  set (r := mergeDeterministicFindings _ _ _ _ _) in *.
  destruct (bool_decide_reflect (length (ErrorFindings r) = 0%nat)) as [E|E].
  - apply nil_length_inv in E. by apply H.
  - assert (ErrorFindings r ≠ []) as Hne by (intros Hn; by rewrite Hn in E). split_and!; [|done|done|done].
    intros Hs. apply Hne, H. done.
Qed.

(** A review whose verdict agrees with its findings. *)
Definition normalized (r : PlanReviewResult) : Prop :=
  (rvVerdict r = "approved" ∧ ErrorFindings r = []) ∨ (rvVerdict r = "needs_changes" ∧ ErrorFindings r ≠ []).

Lemma merge_normalized fs r : normalized r →
  normalized (merge_findings fs r) ∧ rvFindings (merge_findings fs r) = (rvFindings r ++ fs)%list ∧
  rvSummary (merge_findings fs r) = rvSummary r.
Proof.
  unfold merge_findings. destruct (is_nil fs) eqn:E.
  { apply is_nil_true in E as ->. rewrite app_nil_r. tauto. }
  intros Hr. unfold NormalizeVerdict. set (r' := MkPlanReviewResult _ _ _).
  assert (ErrorFindings r' = (ErrorFindings r ++ filter (λ f, error_finding f = true) fs)%list) as E'
    by (unfold ErrorFindings, r'; cbn [rvFindings]; by rewrite filter_app).
  destruct (is_nil (ErrorFindings r')) eqn:En; cbn [negb].
  - apply is_nil_true in En. assert (ErrorFindings r = []) as Hn by (rewrite E' in En; by apply app_eq_nil in En as [? _]).
    destruct Hr as [[Hv _]|[_ Hr]]; [|done]. assert (rvVerdict r' = "approved") as Hv' by done. rewrite Hv'.
    destruct ("approved" =? "needs_changes") eqn:Ea; [done|]. split_and!; [|done..]. by left.
  - apply is_nil_false in En. split_and!; [|done..]. right. split; [done|]. done.
Qed.

Lemma merged_review plan r :
  normalized r →
  let r' := mergeDeterministicFindings quote catalog order plan r in
  rvFindings r `prefix_of` rvFindings r' ∧ normalized r' ∧
  (rvVerdict r' = "approved" ↔ rvVerdict r = "approved" ∧ structurally_sound quote catalog plan).
Proof.
  intros Hr. cbv zeta. pose proof (merged_errors plan r) as He.
  assert (normalized (mergeDeterministicFindings quote catalog order plan r) ∧
    rvFindings r `prefix_of` rvFindings (mergeDeterministicFindings quote catalog order plan r)) as [Hn Hp].
  { unfold mergeDeterministicFindings, mergeScenarioTagFindings, mergeStoryFindings, mergeArchitectureFindings, mergeCapabilityFindings.
    assert (∀ fs r, normalized r → normalized (merge_findings fs r)) as H1 by (intros; by apply merge_normalized).
    assert (∀ fs r, normalized r → rvFindings r `prefix_of` rvFindings (merge_findings fs r)) as H2.
    { intros fs x Hx. destruct (merge_normalized fs x Hx) as (_ & -> & _). by apply prefix_app_r. }
    split; [auto|]. repeat (etrans; [|apply H2; auto]). done. }
  split_and!; [done|done|]. destruct Hn as [[Hv Hv']|[Hv Hv']].
  - rewrite Hv. apply He in Hv' as [H1 H2]. destruct Hr as [[-> _]|[_ ?]]; [tauto|done].
  - rewrite Hv. split; [done|]. intros [Ha Hs]. exfalso. apply Hv', He. split; [|done].
    destruct Hr as [[_ ?]|[Hn _]]; [done|congruence].
Qed.
(** The rules have the last word: whatever the reviewer agent found is
    kept, and the merged review approves exactly when the agent did and the
    plan is structurally sound. *)
Theorem review_approves_exactly plan r :
  normalized r →
  let r' := mergeDeterministicFindings quote catalog order plan r in
  rvFindings r `prefix_of` rvFindings r' ∧ normalized r' ∧
  (rvVerdict r' = "approved" ↔ rvVerdict r = "approved" ∧ structurally_sound quote catalog plan).
Proof. apply merged_review. Qed.
End scenario_rules.

(** ** The gates of the generators *)

Lemma has_source_file_same paths : has_source_file paths = hasSourceFile paths.
Proof.
  apply eq_bool_prop_intro. rewrite !Is_true_true, has_source_file_ok. unfold hasSourceFile. rewrite existsb_exists.
  setoid_rewrite negb_true_iff. setoid_rewrite <- list_elem_of_In. done.
Qed.

Lemma coverage_gate exp comps : comps ≠ [] → ValidateCapabilityCoverage exp comps = None ↔
  ∀ e k, exp = Some e → k ∈ exCapabilities e → ∃ c, c ∈ comps ∧ capName k ∈ cdCapabilities c.
Proof.
  intros Hc. unfold ValidateCapabilityCoverage. destruct exp as [e|]; [|split; done].
  destruct (is_nil (exCapabilities e)) eqn:En; cbn [orb].
  { apply is_nil_true in En. split; [|done]. intros _ e' k [= <-]. rewrite En. set_solver. }
  apply is_nil_false in Hc. rewrite Hc. destruct (is_nil (filter _ _)) eqn:Ef.
  - split; [|done]. apply is_nil_true in Ef. rewrite filter_nil in Ef. intros _ e' k [= <-] Hk.
    specialize (Ef (capName k) (list_elem_of_fmap_2 _ _ _ Hk)). apply dec_stable in Ef.
    apply elem_of_list_to_set, list_elem_of_join in Ef as (l & Hin & (c & -> & Hcc)%list_elem_of_fmap). eauto.
  - split; [done|]. intros H. exfalso. apply is_nil_false in Ef. apply Ef, filter_nil.
    intros n (k & -> & Hk)%list_elem_of_fmap Hn. apply Hn, elem_of_list_to_set, list_elem_of_join.
    destruct (H e k eq_refl Hk) as (c & Hcc & Hin). exists (cdCapabilities c). split; [done|]. by apply list_elem_of_fmap_2.
Qed.

Lemma unowned_nil scope comps : UnownedScopedIncludeFiles scope comps = [] ↔
  ∀ raw f, raw ∈ scpInclude scope → deliverable scope raw f →
    ∃ c, c ∈ comps ∧ f ∈ ExpandFileScopeWithCompanionTests (cdImplementationFiles c).
Proof.
  destruct (UnownedScopedIncludeFiles_spec scope comps) as (_ & _ & H). split.
  - intros E raw f Hr (-> & Hf & Hk & Hd).
    destruct (decide (Exists (λ c, NormalizeFilePath raw ∈ ExpandFileScopeWithCompanionTests (cdImplementationFiles c)) comps))
      as [(c & ? & ?)%Exists_exists|Hn]; [eauto|].
    assert (NormalizeFilePath raw ∈ UnownedScopedIncludeFiles scope comps) as Hin; [|rewrite E in Hin; set_solver].
    apply H. split_and!; [done|done|by eauto|done|]. intros c Hc Hin. apply Hn, Exists_exists. eauto.
  - intros Hall. destruct (UnownedScopedIncludeFiles scope comps) as [|f l] eqn:E; [done|]. exfalso.
    assert (f ∈ f :: l) as Hin by set_solver. apply H in Hin as (Hf & Hk & (raw & Hr & ->) & Hd & Hn).
    destruct (Hall raw (NormalizeFilePath raw) Hr) as (c & Hc & Hin); [done|]. by eapply Hn.
Qed.

Lemma files_gate comps : ValidateComponentImplementationFiles comps = None →
  ∀ c, c ∈ comps → cdName c ≠ "" → ∃ f, f ∈ cdImplementationFiles c ∧ IsDocumentationPath f = false.
Proof.
  unfold ValidateComponentImplementationFiles. rewrite first_err_None. intros Hf c Hin Hn. specialize (Hf c Hin).
  cbv beta in Hf. apply eqb_false in Hn. rewrite Hn in Hf. destruct (is_nil (cdImplementationFiles c)); [done|].
  rewrite <- has_source_file_same in Hf. destruct (has_source_file (cdImplementationFiles c)) eqn:Eh; [|done].
  by apply has_source_file_ok.
Qed.

(** In the architecture round, where stories and scenarios do not exist
    yet, the reviewer's hard rules and the gates of the architecture
    generator agree: components that pass [ValidateComponentImplementationFiles]
    raise no blocking finding exactly when [ValidateCapabilityCoverage] and
    [UnownedScopedIncludeFiles] accept them and no build root is unapproved. *)
Theorem architecture_gates_agree quote plan arch :
  pArchitecture plan = Some arch → adComponentBoundaries arch ≠ [] → pScenarios plan = [] → pStories plan = [] →
  ValidateComponentImplementationFiles (adComponentBoundaries arch) = None →
  clean (architecture_findings quote plan) ↔
  ValidateCapabilityCoverage (pExploration plan) (adComponentBoundaries arch) = None ∧
  UnownedScopedIncludeFiles (pScope plan) (adComponentBoundaries arch) = [] ∧
  clean (topologyContractFindings quote (pContract plan) (adComponentBoundaries arch)).
Proof.
  intros Ea Hc Hs Ht Hf. rewrite (coverage_gate _ _ Hc), unowned_nil, topology_rule_clean, architecture_findings_clean.
  split.
  - intros H. destruct (H arch Ea Hc) as [_ _ H3 H4 H5]. split_and!; [done| |done]. intros raw f Hr. apply H4. by left.
  - intros (H3 & H4 & H5) a Ha _. rewrite Ea in Ha. injection Ha as <-. split; [by apply files_gate|done|done| |done].
    intros raw f [Hr|[? _]]; [by apply H4|done].
Qed.

(** ** Examples *)

Definition plain (s : string) : string := dquote +:+ s +:+ dquote.
Definition no_order (X : gset string) : list string := elements X.

Definition telemetry : Capability :=
  {| capName := "telemetry"; capDescription := ""; capLifecycle := CapabilityNew; capDependsOn := []; capSurfaces := [] |}.
Definition reviewed_arch (files : list string) : ArchitectureDocument :=
  MkArchitectureDocument [] [MkComponentDef "telemetry-driver" "reads" [] [] files [] ["telemetry"]] "" [] [] [] None [] [].
Definition draft_arch (files : list string) : Plan :=
  set_pArchitecture (Some (reviewed_arch files)) (set_pExploration (Some (MkExploration [telemetry] []))
    (demo_plan StatusArchitectureGenerated)).

(** Documentation alone does not implement a component. *)
Example docs_only_rejected :
  rvVerdict <$> deterministicPreflightReview plain None no_order (draft_arch ["README.md"]) = Some "needs_changes".
Proof. by vm_compute. Qed.

Lemma architecture_gates_agree_witness :
  clean (architecture_findings plain (draft_arch ["src/driver.go"])) ∧
  ¬ clean (architecture_findings plain (set_pScope (MkScope ["src/other.go"] [] [] []) (draft_arch ["src/driver.go"]))).
Proof.
  split.
  - apply (architecture_gates_agree plain (draft_arch ["src/driver.go"]) (reviewed_arch ["src/driver.go"])); [done..|by vm_compute|].
    split_and!; by vm_compute.
  - intros H. apply (architecture_gates_agree plain _ (reviewed_arch ["src/driver.go"])) in H as (_ & H & _); [|done..|by vm_compute].
    by vm_compute in H.
Defined.

Lemma review_approves_exactly_witness :
  rvVerdict (mergeDeterministicFindings plain None no_order (draft_arch ["src/driver.go"])
    (MkPlanReviewResult "approved" "fine" [])) = "approved" ∧
  structurally_sound plain None (draft_arch ["src/driver.go"]).
Proof.
  destruct (review_approves_exactly plain None no_order (draft_arch ["src/driver.go"]) (MkPlanReviewResult "approved" "fine" []))
    as (_ & _ & H); [by left|].
  assert (rvVerdict (mergeDeterministicFindings plain None no_order (draft_arch ["src/driver.go"])
    (MkPlanReviewResult "approved" "fine" [])) = "approved") as Hv by (by vm_compute).
  split; [exact Hv|exact (proj2 (proj1 H Hv))].
Defined.
