(* ===== verification/DispatchRetry.v ===== *)
(** * Retries of dispatched agents

    workflow/dispatchretry/retry.go: the per-key bookkeeping that the
    components share which dispatch agents and re-dispatch them when a loop
    fails.  An entry counts the retries of a key, remembers the payload and
    the task that is under way.  The lock makes each operation one step; the
    backoff sleep of [Tick] only tells whether the context was cancelled. *)

From S2P Require Import Prelude.

Local Open Scope Z_scope.
Local Open Scope go_scope.

Section retry.
Context {P : Type}.

Record Entry := MkEntry {
  enCount : Z;
  enPayload : P;
  enActiveLoopID : string }.

(** [New] clamps the limit. *)
Definition max_retries (maxRetries : Z) : Z := if bool_decide (maxRetries < 0) then 0 else maxRetries.

Definition Track (key : string) (payload : P) (s : gmap string Entry) : gmap string Entry * (Entry * bool) :=
  match s !! key with
  | Some existing => (s, (existing, false))
  | None => let entry := MkEntry 0 payload "" in (<[key := entry]> s, (entry, true))
  end.

Definition SetActiveLoop (key loopID : string) (s : gmap string Entry) : gmap string Entry :=
  match s !! key with
  | Some entry => <[key := MkEntry (enCount entry) (enPayload entry) loopID]> s
  | None => s
  end.

Definition IsStaleLoop (key completedLoopID : string) (s : gmap string Entry) : bool :=
  match s !! key with
  | None => false
  | Some entry =>
      if enActiveLoopID entry =? ""%string then false else enActiveLoopID entry !=? completedLoopID
  end.

(** The entry, if the caller is to act on one, and whether it may dispatch. *)
Definition Tick (maxRetries : Z) (cancelled : bool) (key : string) (s : gmap string Entry) :
    gmap string Entry * (option Entry * bool) :=
  match s !! key with
  | None => (s, (None, false))
  | Some entry =>
      let entry := MkEntry (enCount entry + 1) (enPayload entry) (enActiveLoopID entry) in
      if bool_decide (max_retries maxRetries < enCount entry) then (delete key s, (Some entry, false))
      else if cancelled then (<[key := entry]> s, (None, false))
      else (<[key := entry]> s, (Some entry, true))
  end.

Definition Clear (key : string) (s : gmap string Entry) : gmap string Entry := delete key s.

Definition Snapshot (key : string) (s : gmap string Entry) : option Entry := s !! key.

(** ** Sequences of operations *)

Inductive retry_op :=
| OpTrack (key : string) (payload : P)
| OpSet (key loopID : string)
| OpTick (key : string) (cancelled : bool)
| OpClear (key : string).

(** The operation, and whether it allows its caller to dispatch: [Track] of a
    new key, or a [Tick] within the budget. *)
Definition retry_step (maxRetries : Z) (o : retry_op) (s : gmap string Entry) : gmap string Entry * bool :=
  match o with
  | OpTrack key payload => let '(s, (_, fresh)) := Track key payload s in (s, fresh)
  | OpSet key loopID => (SetActiveLoop key loopID s, false)
  | OpTick key cancelled => let '(s, (_, ok)) := Tick maxRetries cancelled key s in (s, ok)
  | OpClear key => (Clear key s, false)
  end.

Definition op_key (o : retry_op) : string :=
  match o with OpTrack key _ | OpSet key _ | OpTick key _ | OpClear key => key end.

(** How often the key was allowed a dispatch, and how often it was tracked
    afresh. *)
Fixpoint allowed (maxRetries : Z) (key : string) (ops : list retry_op) (s : gmap string Entry) : Z * Z :=
  match ops with
  | [] => (0, 0)
  | o :: ops =>
      let '(s', ok) := retry_step maxRetries o s in
      let '(n, f) := allowed maxRetries key ops s' in
      let here := ok && bool_decide (op_key o = key) in
      (n + (if here then 1 else 0), f + match o with OpTrack _ _ => if here then 1 else 0 | _ => 0 end)
  end.

(** Every count is within the budget. *)
Definition within (maxRetries : Z) (s : gmap string Entry) : Prop :=
  ∀ key e, s !! key = Some e → 0 ≤ enCount e ≤ max_retries maxRetries.

(** The dispatches that are left to a key. *)
Definition left_to (maxRetries : Z) (key : string) (s : gmap string Entry) : Z :=
  match s !! key with Some e => max_retries maxRetries - enCount e | None => 0 end.

Lemma max_retries_nonneg m : 0 ≤ max_retries m.
Proof. unfold max_retries. case_bool_decide; lia. Qed.

Lemma within_insert m s key e : within m s → 0 ≤ enCount e ≤ max_retries m → within m (<[key := e]> s).
Proof. 
  intros Hs He k e'. destruct (decide (k = key)) as [->|Hk]; [rewrite lookup_insert_eq; by intros [= <-]|].
  rewrite lookup_insert_ne by done. apply Hs.
Qed.

Lemma within_delete m s key : within m s → within m (delete key s).
Proof. intros Hs k e' [_ Hk]%lookup_delete_Some. by apply (Hs k). Qed.

Lemma retry_step_within m o s : within m s → within m (retry_step m o s).1.
Proof.
  intros Hs. pose proof (max_retries_nonneg m). destruct o as [key p|key l|key c|key]; cbn [retry_step].
  - unfold Track. destruct (s !! key); [done|]. apply within_insert; [done|]. cbn [enCount]. lia.
  - unfold SetActiveLoop. destruct (s !! key) as [e|] eqn:E; [|done]. apply within_insert; [done|]. cbn [enCount]. exact (Hs key e E).
  - unfold Tick. destruct (s !! key) as [e|] eqn:E; [|done]. cbn [enCount]. pose proof (Hs key e E) as He.
    destruct (bool_decide_reflect (max_retries m < enCount e + 1)); [by apply within_delete|].
    destruct c; (apply within_insert; [done|cbn [enCount]; lia]).
  - by apply within_delete.
Qed.

(** One step takes what it allows from what is left. *)
Lemma retry_step_left m o s key : within m s →
  let '(s', ok) := retry_step m o s in
  let here := (ok && bool_decide (op_key o = key)) in
  left_to m key s' + (if here then 1 else 0) ≤
  left_to m key s + match o with OpTrack _ _ => if here then max_retries m + 1 else 0 | _ => 0 end.
Proof.
  intros Hs. pose proof (max_retries_nonneg m) as Hm. destruct (retry_step m o s) as [s' ok] eqn:Es. cbv zeta.
  destruct (bool_decide_reflect (op_key o = key)) as [<-|Hne].
  2: { rewrite andb_false_r. assert (s' !! key = s !! key) as E; [|unfold left_to; rewrite E; destruct o; lia].
    destruct o as [k p|k l|k c|k]; cbn [op_key] in Hne; cbn [retry_step] in Es; revert Es; unfold Track, SetActiveLoop, Tick, Clear;
      repeat case_match; intros [= <- <-]; simplify_eq; by rewrite ?lookup_insert_ne, ?lookup_delete_ne by done. }
  rewrite andb_true_r. destruct o as [k p|k l|k c|k]; cbn [op_key retry_step] in *; revert Es.
  - unfold Track, left_to. destruct (s !! k) as [e|] eqn:E; intros [= <- <-]; [rewrite E; lia|].
    rewrite lookup_insert_eq. cbn [enCount]. lia.
  - unfold SetActiveLoop, left_to. destruct (s !! k) as [e|] eqn:E; intros [= <- <-]; [|rewrite E; lia].
    rewrite lookup_insert_eq. cbn [enCount]. lia.
  - unfold Tick, left_to. destruct (s !! k) as [e|] eqn:E; [|intros [= <- <-]; rewrite E; lia].
    specialize (Hs k e E). cbn [enCount]. destruct (bool_decide_reflect (max_retries m < enCount e + 1)); [intros [= <- <-]|].
    + rewrite lookup_delete_eq. lia.
    + destruct c; intros [= <- <-]; rewrite lookup_insert_eq; cbn [enCount]; lia.
  - intros [= <- <-]. unfold left_to, Clear. rewrite lookup_delete_eq. destruct (s !! k) as [e|] eqn:E; [|lia].
    specialize (Hs k e E). lia.
Qed.

Lemma allowed_bound m key ops s : within m s →
  (allowed m key ops s).1 ≤ left_to m key s + (max_retries m + 1) * (allowed m key ops s).2.
Proof.
  revert s. induction ops as [|o ops IH]; intros s Hs; cbn [allowed fst snd].
  { unfold left_to. destruct (s !! key) eqn:E; [specialize (Hs _ _ E)|]; lia. }
  pose proof (retry_step_left m o s key Hs) as Hl. pose proof (retry_step_within m o s Hs) as Hw.
  destruct (retry_step m o s) as [s' ok]. cbn [fst] in Hw. specialize (IH s' Hw). cbv zeta in *.
  destruct (allowed m key ops s') as [n f]. cbn [fst snd] in *.
  destruct (ok && _); destruct o; cbn [retry_step]; lia.
Qed.

(** The retry bookkeeping bounds dispatches: along any sequence of its
    operations a key is allowed at most one dispatch and [MaxRetries] retries
    for each time it is tracked afresh. *)
Theorem dispatch_budget m key ops :
  (allowed m key ops ∅).1 ≤ (max_retries m + 1) * (allowed m key ops ∅).2.
Proof.
  pose proof (allowed_bound m key ops ∅) as H. unfold left_to in H. rewrite lookup_empty in H. apply H.
  intros k e. by rewrite lookup_empty.
Qed.
End retry.

Arguments Entry : clear implicits.
Arguments retry_op : clear implicits.
