(* ===== verification/PlanReviewer.v ===== *)
(** * The plan reviewer

    processor/plan-reviewer: the watcher of PLAN_STATES that claims a plan for
    a review round (plan_watcher.go), the preflight, the dispatch of the
    reviewer agent, and the handling of its verdict with retries
    (component.go).

    The plan manager is reached through the interface [PlanPort]: requests,
    and reads of the bucket.  The component's state is the retry bookkeeping
    of DispatchRetry.v; a dispatch that claims hand to a goroutine waits in
    [vwStarting].  Reading and writing JSON, assembling the prompt and
    matching error categories are parameters; a request that is encoded from
    strings cannot fail to encode.  The handler of a completed loop is one
    step: its backoff sleep is not interleaved with other work. *)

From Stdlib Require Import Ascii.
From stdpp Require Import pretty.
From S2P Require Import Prelude Status Paths Types PlanStore Reviews Mutations Feedback RuleFindings PlanRules DispatchRetry.

Local Open Scope string_scope.
Local Open Scope go_scope.

(** ** Rounds *)

Definition roundDraftReview : Z := 1.
Definition roundScenariosReview : Z := 2.
Definition roundArchitectureReview : Z := 3.
Definition roundRequirementsReview : Z := 4.

(** ** Parsing a verdict *)

(** The object that starts at the first brace: the bytes up to the brace that
    closes it, where braces inside strings count as well. *)
Fixpoint balanced (depth : nat) (s : string) : option string :=
  match s with
  | "" => None
  | String c r =>
      if c =? "{"%char then String c <$> balanced (S depth) r
      else if c =? "}"%char then
        match depth with
        | S (S d) => String c <$> balanced (S d) r
        | _ => Some (String c "")
        end
      else String c <$> balanced depth r
  end.

Fixpoint from_brace (s : string) : option string :=
  match s with
  | "" => None
  | String c r => if c =? "{"%char then Some s else from_brace r
  end.

Section parse.
(** [json.Unmarshal] into a review that may already hold something: the
    review afterwards and the error. *)
Context (unmarshal : string → PlanReviewResult → PlanReviewResult * option string).

Definition known_verdict (r : PlanReviewResult) : bool := (rvVerdict r =? "approved") || (rvVerdict r =? "needs_changes").

Definition parseReviewFromResult (result : string) : PlanReviewResult + string :=
  if result =? "" then inr "empty result" else
  let '(review, err) := unmarshal result (MkPlanReviewResult "" "" []) in
  if bool_decide (err = None) && known_verdict review then inl (NormalizeVerdict review) else
  match from_brace result with
  | None => inr "no JSON found in result"
  | Some text =>
      match balanced 0 text with
      | None => inr "malformed JSON in result"
      | Some object =>
          let '(review, err) := unmarshal object review in
          match err with
          | Some e => inr ("parse review JSON: " +:+ e)
          | None =>
              if negb (known_verdict review) then inr ("invalid verdict: " +:+ rvVerdict review)
              else inl (NormalizeVerdict review)
          end
      end
  end.
End parse.

(** ** State and environment *)

(** An answer of the plan manager, or the error of the transport. *)
Inductive plan_answer :=
| NoAnswer (err : string)
| Answered (success : bool) (error : string).

(** What the reviewer uses of the plan manager. *)
Class PlanPort (S : Type) := {
  plan_request : nat → mutation → S → S * plan_answer;
  plan_content : string → S → option string }.

Record reviewRetryPayload := MkReviewPayload { rpPlanContent : string; rpRound : Z }.

(** What a task for the reviewer agent is built from. *)
Record review_task := MkReviewTask {
  rtTaskID : string;
  rtSlug : string;
  rtRound : Z;
  rtPrompt : string }.

(** A completed or running agent loop, with the metadata the reviewer reads. *)
Record review_loop := MkReviewLoop {
  rlTaskID : string;
  rlTerminal : bool;
  rlWorkflowSlug : string;
  rlWorkflowStep : string;
  rlPlanSlug : string;
  rlRound : option Z;
  rlOutcome : string;
  rlError : string;
  rlResult : string }.

Record Lesson := MkLesson {
  lsSource : string;
  lsScenarioID : string;
  lsSummary : string;
  lsRole : string;
  lsCategoryIDs : list string;
  lsEvidencePath : string }.

Inductive review_output :=
| VTask (t : review_task)
| VMutation (m : mutation) (a : plan_answer)
| VLesson (l : Lesson)
| VLessonCounts (role : string) (categories : list string).

(** One interaction: a fresh identifier, whether the call fails and with which
    text, whether the context is cancelled. *)
Record review_io := MkReviewIO { vioUUID : string; vioErr : option string; vioCancelled : bool }.

Record ReviewEnv := MkReviewEnv {
  veIO : nat → review_io;
  veMarshalPlan : Plan → string;
  veUnmarshalPlan : string → option Plan;
  veUnmarshalReview : string → PlanReviewResult → PlanReviewResult * option string;
  vePrompt : string → string → Z → string → option string;
  veSignals : option (string → list string);
  veLessons : bool;
  veQuote : string → string;
  veCatalog : option (gmap string Profile);
  veOrder : gset string → list string;
  veMaxReviewRetries : Z;
  veAutoApprove : option bool }.

Section world.
Context {S : Type}.

Record VWorld := MkVWorld {
  vwRetry : gmap string (Entry reviewRetryPayload);
  vwStarting : list (string * string * Z);
  vwPort : S;
  vwTick : nat;
  vwOut : list review_output }.

Definition set_vwRetry (v : gmap string (Entry reviewRetryPayload)) (w : VWorld) : VWorld :=
  MkVWorld v (vwStarting w) (vwPort w) (vwTick w) (vwOut w).
Definition set_vwStarting (v : list (string * string * Z)) (w : VWorld) : VWorld :=
  MkVWorld (vwRetry w) v (vwPort w) (vwTick w) (vwOut w).
Definition set_vwPort (v : S) (w : VWorld) : VWorld :=
  MkVWorld (vwRetry w) (vwStarting w) v (vwTick w) (vwOut w).
Definition set_vwTick (v : nat) (w : VWorld) : VWorld :=
  MkVWorld (vwRetry w) (vwStarting w) (vwPort w) v (vwOut w).
Definition set_vwOut (v : list review_output) (w : VWorld) : VWorld :=
  MkVWorld (vwRetry w) (vwStarting w) (vwPort w) (vwTick w) v.
End world.
Arguments VWorld : clear implicits.

Definition V (S A : Type) : Type := VWorld S → VWorld S * A.
#[export] Instance V_ret {S} : MRet (V S) := λ A x w, (w, x).
#[export] Instance V_bind {S} : MBind (V S) := λ A B f m w, let (w', x) := m w in f x w'.

Lemma V_bind_eq {S A B} (m : V S A) (f : A → V S B) w : (m ≫= f) w = f (m w).2 (m w).1.
Proof. unfold mbind, V_bind. by destruct (m w). Qed.

Section reviewer.
Context {S : Type} `{PlanPort S} (E : ReviewEnv).

Definition vmodify (f : VWorld S → VWorld S) : V S () := λ w, (f w, ()).
Definition vread : V S (VWorld S) := λ w, (w, w).
Definition vtick : V S review_io := λ w, (set_vwTick (Datatypes.S (vwTick w)) w, veIO E (vwTick w)).
Definition vout (o : review_output) : V S () := vmodify (λ w, set_vwOut (vwOut w ++ [o])%list w).
Definition vretry (f : gmap string (Entry reviewRetryPayload) → gmap string (Entry reviewRetryPayload)) : V S () :=
  vmodify (λ w, set_vwRetry (f (vwRetry w)) w).

(** [RequestWithRetry] to the plan manager. *)
Definition send_mutation (m : mutation) : V S plan_answer :=
  vtick;;
  w ← vread;
  let '(p, a) := plan_request (vwTick w) m (vwPort w) in
  vmodify (set_vwPort p);;
  vout (VMutation m a);;
  mret a.

Definition ClaimPlanStatus (slug : string) (target : Status) : V S bool :=
  a ← send_mutation (MClaim (Some (MkClaimReq slug target)));
  mret (match a with Answered true _ => true | _ => false end).

(** [loadPlanContentFromKV]: the error only matters for its presence. *)
Definition loadPlanContentFromKV (slug : string) : V S (option string) :=
  io ← vtick; w ← vread;
  mret (match vioErr io with Some _ => None | None => plan_content slug (vwPort w) end).

Definition loadPlanForRules (slug : string) : V S (option Plan) :=
  content ← loadPlanContentFromKV slug;
  mret (match content with Some c => veUnmarshalPlan E c | None => None end).

(** ** Messages *)

Definition sendGenerationFailed (slug : string) (round : Z) (feedback : string) : V S () :=
  send_mutation (MGenerationFailed (Some (MkGenerationFailedReq slug ("review-round-" +:+ pretty round) feedback "")));;
  mret ().

Definition sendRevisionMutation (slug : string) (round : Z) (result : PlanReviewResult) : V S () :=
  a ← send_mutation (MRevision (Some (MkRevisionReq slug round (rvVerdict result) (rvSummary result)
        (RawArray (rvFindings result)) "")));
  match a with
  | NoAnswer _ =>
      sendGenerationFailed slug round ("Round " +:+ pretty round +:+ " review rejected: " +:+ rvSummary result)
  | Answered true _ => mret ()
  | Answered false e =>
      sendGenerationFailed slug round ("Round " +:+ pretty round +:+ " revision mutation rejected: " +:+ e)
  end.

Definition IsAutoApprove : bool := default true (veAutoApprove E).

(** A mutation whose answer is not looked at; the error of the transport. *)
Definition send_or_fail (m : mutation) (what : string) : V S (option string) :=
  a ← send_mutation m;
  mret (match a with NoAnswer e => Some ("send " +:+ what +:+ " mutation: " +:+ e) | Answered _ _ => None end).

Definition sendApprovalMutations (slug summary : string) (round : Z) : V S (option string) :=
  if bool_decide (round = roundRequirementsReview)
  then send_or_fail (MRequirementsReviewed (Some (MkPhaseReviewedReq slug summary))) "requirements_reviewed"
  else if bool_decide (round = roundArchitectureReview)
  then send_or_fail (MArchitectureReviewed (Some (MkPhaseReviewedReq slug summary))) "architecture_reviewed"
  else if bool_decide (round = roundDraftReview) then
    err ← send_or_fail (MReviewed (Some (MkReviewedReq slug "approved" summary ""))) "reviewed";
    match err with
    | Some e => mret (Some e)
    | None => if IsAutoApprove then send_or_fail (MApproved (Some (MkApprovedReq slug ""))) "approved" else mret None
    end
  else if bool_decide (round = roundScenariosReview) then
    if IsAutoApprove then send_or_fail (MReadyForExecution (Some (MkReadyReq slug ""))) "ready_for_execution"
    else send_or_fail (MScenariosReviewed (Some (MkPhaseReviewedReq slug summary))) "scenarios_reviewed"
  else mret None.

(** ** Lessons *)

Definition phaseToRole (phase : string) : string :=
  if phase =? "plan" then "planner"
  else if phase =? "requirements" then "requirement-generator"
  else if phase =? "architecture" then "architect"
  else if phase =? "stories" then "story-preparer"
  else if phase =? "scenarios" then "scenario-generator"
  else "planner".

Definition plan_lesson (slug : string) (f : PlanReviewFinding) : Lesson :=
  MkLesson "plan-review" slug (prfIssue f) (phaseToRole (prfPhase f))
    (match veSignals E with Some signals => signals (prfIssue f) | None => [] end)
    (".semspec/plans/" +:+ slug +:+ "/plan.json").

Fixpoint record_lessons (slug : string) (fs : list PlanReviewFinding) : V S () :=
  match fs with
  | [] => mret ()
  | f :: fs =>
      (if prfIssue f =? "" then mret () else
       let l := plan_lesson slug f in
       vout (VLesson l);;
       if is_nil (lsCategoryIDs l) then mret () else vout (VLessonCounts (lsRole l) (lsCategoryIDs l)));;
      record_lessons slug fs
  end.

Definition extractPlanLessons (slug : string) (result : PlanReviewResult) : V S () :=
  if veLessons E then record_lessons slug (ErrorFindings result) else mret ().

(** ** Dispatch *)

(** A prompt that cannot be rendered ends the dispatch. *)
Definition dispatchReviewer (slug planContent : string) (round : Z) (previousError : string) : V S () :=
  vretry (λ s, (Track slug (MkReviewPayload planContent round) s).1);;
  io ← vtick;
  let taskID := "review-" +:+ slug +:+ "-r" +:+ pretty round +:+ "-" +:+ vioUUID io in
  vretry (SetActiveLoop slug taskID);;
  match vePrompt E slug planContent round previousError with
  | None => mret ()
  | Some prompt =>
      io ← vtick;
      match vioErr io with
      | Some e => sendGenerationFailed slug round ("reviewer dispatch failed: " +:+ e)
      | None => vout (VTask (MkReviewTask taskID slug round prompt))
      end
  end.

Definition retryOrFail (slug : string) (round : Z) (errorMsg : string) : V S () :=
  w ← vread;
  known ← match Snapshot slug (vwRetry w) with
          | Some _ => mret true
          | None =>
              content ← loadPlanContentFromKV slug;
              match content with
              | None => mret false
              | Some planContent =>
                  vretry (λ s, (Track slug (MkReviewPayload planContent round) s).1);; mret true
              end
          end;
  if negb known then sendGenerationFailed slug round errorMsg else
  io ← vtick;
  w ← vread;
  let '(s, (entry, ok)) := Tick (veMaxReviewRetries E) (vioCancelled io) slug (vwRetry w) in
  vmodify (set_vwRetry s);;
  match entry with
  | None => if vioCancelled io then mret () else sendGenerationFailed slug round errorMsg
  | Some entry =>
      if negb ok then sendGenerationFailed slug round errorMsg
      else dispatchReviewer slug (rpPlanContent (enPayload entry)) (rpRound (enPayload entry)) errorMsg
  end.

(** ** Completed loops *)

Definition reviewing (st : Status) : bool :=
  (st =? StatusReviewingDraft) || (st =? StatusReviewingScenarios) ||
  (st =? StatusReviewingArchitecture) || (st =? StatusReviewingRequirements).

Definition loop_error (loop : review_loop) : string :=
  if rlError loop =? "" then "review agent loop ended with outcome " +:+ veQuote E (rlOutcome loop) else rlError loop.

Definition act_on_verdict (slug : string) (round : Z) (result : PlanReviewResult) : V S () :=
  if rvVerdict result =? "approved" then
    err ← sendApprovalMutations slug (rvSummary result) round;
    vretry (Clear slug);;
    match err with
    | Some e => sendGenerationFailed slug round ("approval mutation failed: " +:+ e)
    | None => mret ()
    end
  else
    sendRevisionMutation slug round result;;
    extractPlanLessons slug result;;
    vretry (Clear slug).

Definition handleLoopCompletion (loop : review_loop) (slug : string) : V S () :=
  let round := default roundDraftReview (rlRound loop) in
  w ← vread;
  if IsStaleLoop slug (rlTaskID loop) (vwRetry w) then mret () else
  current ← loadPlanForRules slug;
  if match current with Some plan => negb (reviewing (EffectiveStatus plan)) | None => false end
  then vretry (Clear slug) else
  if rlOutcome loop !=? OutcomeSuccess then retryOrFail slug round (loop_error loop) else
  match parseReviewFromResult (veUnmarshalReview E) (rlResult loop) with
  | inr e => retryOrFail slug round ("failed to parse review result: " +:+ e)
  | inl result =>
      plan ← loadPlanForRules slug;
      act_on_verdict slug round
        (match plan with
         | Some plan => mergeDeterministicFindings (veQuote E) (veCatalog E) (veOrder E) plan result
         | None => result
         end)
  end.

(** One entry of AGENT_LOOPS. *)
Definition watch_loop (loop : review_loop) : V S () :=
  if negb (rlTerminal loop) || (rlWorkflowSlug loop !=? "semspec-planning") || (rlWorkflowStep loop !=? "reviewing") ||
     (rlPlanSlug loop =? "") then mret ()
  else handleLoopCompletion loop (rlPlanSlug loop).

(** ** Plans that reach a review *)

Definition maybeSendDeterministicRevision (slug : string) (round : Z) (plan : Plan) : V S bool :=
  match deterministicPreflightReview (veQuote E) (veCatalog E) (veOrder E) plan with
  | None => mret false
  | Some result => sendRevisionMutation slug round result;; extractPlanLessons slug result;; mret true
  end.

Definition claimAndDispatchReview (plan : Plan) (reviewState : Status) (round : Z) : V S () :=
  claimed ← ClaimPlanStatus (pSlug plan) reviewState;
  if negb claimed then mret () else
  sent ← maybeSendDeterministicRevision (pSlug plan) round plan;
  if sent : bool then mret ()
  else vmodify (λ w, set_vwStarting (vwStarting w ++ [(pSlug plan, veMarshalPlan E plan, round)])%list w).

(** One entry of PLAN_STATES. *)
Definition watch_plan (plan : Plan) : V S () :=
  match pStatus plan with
  | StatusDrafted =>
      if pGoal plan =? "" then mret () else claimAndDispatchReview plan StatusReviewingDraft roundDraftReview
  | StatusRequirementsGenerated =>
      if is_nil (pRequirements plan) then mret ()
      else claimAndDispatchReview plan StatusReviewingRequirements roundRequirementsReview
  | StatusArchitectureGenerated =>
      match pArchitecture plan with
      | None => mret ()
      | Some _ => claimAndDispatchReview plan StatusReviewingArchitecture roundArchitectureReview
      end
  | StatusScenariosGenerated =>
      if is_nil (pRequirements plan) then mret ()
      else claimAndDispatchReview plan StatusReviewingScenarios roundScenariosReview
  | _ => mret ()
  end.

(** The goroutine of a claimed review runs. *)
Definition start_review (i : nat) : V S () :=
  w ← vread;
  match vwStarting w !! i with
  | None => mret ()
  | Some (slug, content, round) =>
      vmodify (set_vwStarting (delete i (vwStarting w)));;
      dispatchReviewer slug content round ""
  end.

(** ** Runs *)

(** The plan manager works on its own in between. *)
Inductive review_event :=
| VPlan (plan : Plan)
| VStart (i : nat)
| VLoop (loop : review_loop)
| VElsewhere (p : S).

Definition review_step (e : review_event) : V S () :=
  match e with
  | VPlan plan => watch_plan plan
  | VStart i => start_review i
  | VLoop loop => watch_loop loop
  | VElsewhere p => vmodify (set_vwPort p)
  end.

Fixpoint run_review (es : list review_event) : V S () :=
  match es with [] => mret () | e :: es => review_step e;; run_review es end.
End reviewer.
