(* ===== verification/PlanReviewerFacts.v ===== *)
(** * What a plan review guarantees

    Approvals are sent only for plans that pass the rules, a completed review
    is always acted on, and the messages of each round are the ones the plan
    manager accepts in it; what becomes of a review whose dispatch failed. *)

From stdpp Require Import pretty.
From S2P Require Import Prelude Status Paths Types PlanStore Reviews Mutations Feedback RuleFindings PlanRules PlanRuleFacts.
From S2P Require Import DispatchRetry PlanReviewer.

Local Open Scope string_scope.
Local Open Scope go_scope.

(** The mutations by which a review approves. *)
Definition approval (o : review_output) : bool :=
  match o with
  | VMutation (MReviewed _ | MApproved _ | MRequirementsReviewed _ | MArchitectureReviewed _ |
               MReadyForExecution _ | MScenariosReviewed _) _ => true
  | _ => false
  end.

(** The plan was told something, or the agent was asked again. *)
Definition acts (o : review_output) : bool :=
  match o with VMutation _ _ | VTask _ => true | _ => false end.

Section facts.
Context {S : Type} `{PlanPort S} (E : ReviewEnv).

(** ** Outputs *)

(** A program appends outputs, all of which satisfy [P]. *)
Definition emits {A} (P : review_output → Prop) (m : V S A) : Prop :=
  ∀ w, ∃ new, vwOut (m w).1 = (vwOut w ++ new)%list ∧ Forall P new.

Lemma emits_ret {A} P (x : A) : emits P (mret x).
Proof. intros w. exists []. by rewrite app_nil_r. Qed.

Lemma emits_bind {A B} P (m : V S A) (f : A → V S B) : emits P m → (∀ x, emits P (f x)) → emits P (m ≫= f).
Proof.
  intros Hm Hf w. rewrite V_bind_eq. destruct (Hm w) as (n1 & E1 & P1). destruct (Hf (m w).2 (m w).1) as (n2 & E2 & P2).
  exists (n1 ++ n2)%list. rewrite E2, E1, app_assoc. split; [done|]. by apply Forall_app.
Qed.

Lemma emits_modify P (f : VWorld S → VWorld S) : (∀ w, vwOut (f w) = vwOut w) → emits P (vmodify f).
Proof. intros Hf w. exists []. rewrite app_nil_r. split; [apply Hf|done]. Qed.

Lemma emits_read P : emits P (vread (S := S)).
Proof. intros w. exists []. by rewrite app_nil_r. Qed.

Lemma emits_tick P : emits P (vtick (S := S) E).
Proof. intros w. exists []. by rewrite app_nil_r. Qed.

Lemma emits_out (P : review_output → Prop) o : P o → emits P (vout (S := S) o).
Proof. intros Ho w. exists [o]. split; [done|by constructor]. Qed.

Lemma emits_retry P f : emits P (vretry (S := S) f).
Proof. by apply emits_modify. Qed.

Lemma emits_mutation (P : review_output → Prop) m : (∀ a, P (VMutation m a)) → emits P (send_mutation E m).
Proof.
  intros Hm. apply emits_bind; [apply emits_tick|intros _]. apply emits_bind; [apply emits_read|intros w].
  destruct (plan_request _ _ _) as [p a]. apply emits_bind; [by apply emits_modify|intros _].
  apply emits_bind; [by apply emits_out|intros _; apply emits_ret].
Qed.

Lemma emits_failed (P : review_output → Prop) slug round msg :
  (∀ r a, P (VMutation (MGenerationFailed r) a)) → emits P (sendGenerationFailed E slug round msg).
Proof. intros HP. apply emits_bind; [by apply emits_mutation|intros _; apply emits_ret]. Qed.

Lemma emits_load P slug : emits P (loadPlanContentFromKV (S := S) E slug).
Proof. apply emits_bind; [apply emits_tick|intros io]. apply emits_bind; [apply emits_read|intros w; apply emits_ret]. Qed.

Lemma emits_load_rules P slug : emits P (loadPlanForRules (S := S) E slug).
Proof. apply emits_bind; [apply emits_load|intros w; apply emits_ret]. Qed.
End facts.

Create HintDb emits.
#[export] Hint Resolve emits_ret emits_read emits_tick emits_out emits_retry emits_mutation emits_failed emits_load
  emits_load_rules : emits.

(** Goes through a program output by output. *)
Ltac emits_step :=
  first [ progress eauto with emits
        | apply emits_failed; intros; reflexivity
        | apply emits_mutation; intros; reflexivity
        | apply emits_modify; intros; reflexivity
        | apply emits_bind; [|intros ?]
        | match goal with
          | |- emits _ (if ?b then _ else _) => destruct b
          | |- emits _ (match ?x with _ => _ end) => destruct x
          | |- emits _ (let '(_, _) := ?x in _) => destruct x
          end ].
Ltac emits_auto := repeat emits_step.

Section quiet.
Context {S : Type} `{PlanPort S} (E : ReviewEnv).

(** What only an approval does not satisfy. *)
Definition quiet (o : review_output) : Prop := approval o = false.
Hint Extern 1 (quiet _) => reflexivity : emits.

Lemma quiet_revision slug round r : emits quiet (sendRevisionMutation (S := S) E slug round r).
Proof. unfold sendRevisionMutation. emits_auto. Qed.

Lemma quiet_lessons slug r : emits quiet (extractPlanLessons (S := S) E slug r).
Proof.
  unfold extractPlanLessons. destruct (veLessons E); [|apply emits_ret]. induction (ErrorFindings r) as [|f fs IH]; cbn [record_lessons]; emits_auto.
Qed.

Lemma quiet_dispatch slug content round err : emits quiet (dispatchReviewer (S := S) E slug content round err).
Proof. unfold dispatchReviewer. emits_auto. Qed.
Hint Resolve quiet_revision quiet_lessons quiet_dispatch : emits.

Lemma quiet_retry slug round err : emits quiet (retryOrFail (S := S) E slug round err).
Proof. unfold retryOrFail. emits_auto. Qed.

Lemma quiet_watch_plan plan : emits quiet (watch_plan (S := S) E plan).
Proof. unfold watch_plan, claimAndDispatchReview, ClaimPlanStatus, maybeSendDeterministicRevision. emits_auto. Qed.

Lemma quiet_start i : emits quiet (start_review (S := S) E i).
Proof. unfold start_review. emits_auto. Qed.

(** ** Approvals *)

Lemma parsed_normalized result r : parseReviewFromResult (veUnmarshalReview E) result = inl r → normalized r.
Proof.
  assert (∀ x, known_verdict x = true → normalized (NormalizeVerdict x)) as Hn.
  { intros x Hx. unfold known_verdict, NormalizeVerdict, normalized, ErrorFindings in *.
    destruct (is_nil _) eqn:En; cbn [negb].
    - apply is_nil_true in En. destruct (rvVerdict x =? "needs_changes") eqn:Ev; cbn [rvVerdict rvFindings]; [by left|].
      left. breflect. destruct Hx; [done|congruence].
    - apply is_nil_false in En. by right. }
  unfold parseReviewFromResult. destruct (result =? ""); [done|]. destruct (veUnmarshalReview E result _) as [x err].
  destruct (bool_decide _ && known_verdict x) eqn:Ek; [apply andb_true_iff in Ek as [_ Ek]; intros [= <-]; by apply Hn|].
  destruct (from_brace result) as [text|]; [|done]. destruct (balanced 0 text) as [object|]; [|done].
  destruct (veUnmarshalReview E object x) as [y [e|]]; [done|].
  destruct (known_verdict y) eqn:Ey; cbn [negb]; [intros [= <-]; by apply Hn|done].
Qed.

Lemma quiet_none {A} (m : V S A) w new o :
  emits quiet m → vwOut (m w).1 = (vwOut w ++ new)%list → o ∈ new → approval o = true → False.
Proof.
  intros Hm Ho Hin Ha. destruct (Hm w) as (new' & Hn & HF). rewrite Hn in Ho. apply app_inv_head in Ho as ->.
  rewrite Forall_forall in HF. specialize (HF o Hin). unfold quiet in HF. congruence.
Qed.

Lemma load_out slug (w : VWorld S) : vwOut (loadPlanForRules E slug w).1 = vwOut w ∧
  vwPort (loadPlanForRules E slug w).1 = vwPort w ∧ vwRetry (loadPlanForRules E slug w).1 = vwRetry w.
Proof. done. Qed.

(** A loop that is not stale: no other task is recorded as under way for the
    key. *)
Lemma not_stale {P} key id (s : gmap string (Entry P)) :
  IsStaleLoop key id s = false ↔ ∀ e, s !! key = Some e → enActiveLoopID e = "" ∨ enActiveLoopID e = id.
Proof.
  unfold IsStaleLoop. destruct (s !! key) as [e|] eqn:He; [|naive_solver].
  destruct (decide (enActiveLoopID e = "")) as [Hz|Hz]; [rewrite (proj2 (eqb_true _ _) Hz); naive_solver|].
  rewrite (proj2 (eqb_false _ _) Hz), negb_false_iff, eqb_true. naive_solver.
Qed.

(** C5: The reviewer approves only on a review: when a step of the component
    sends the plan manager an approval, it handles a completed loop of a plan
    for which no other task is recorded as under way (the loop's own task or,
    as after a restart, none), the agent succeeded and its answer parses as an
    approval.  If the plan could be read at that moment it is in a reviewing
    status, and if it could be read again for the rules it is structurally
    sound; a plan that cannot be read is approved unchecked. *)
Theorem approval_checked e w new o :
  vwOut (review_step E e w).1 = (vwOut w ++ new)%list → o ∈ new → approval o = true →
  ∃ loop r, e = VLoop loop ∧ rlTerminal loop = true ∧
    let slug := rlPlanSlug loop in
    let seen := loadPlanForRules E slug w in
    (∀ entry, vwRetry w !! slug = Some entry → enActiveLoopID entry = "" ∨ enActiveLoopID entry = rlTaskID loop) ∧
    (∀ plan, seen.2 = Some plan → reviewing (EffectiveStatus plan) = true) ∧
    rlOutcome loop = OutcomeSuccess ∧
    parseReviewFromResult (veUnmarshalReview E) (rlResult loop) = inl r ∧ rvVerdict r = "approved" ∧
    (∀ plan, (loadPlanForRules E slug seen.1).2 = Some plan → structurally_sound (veQuote E) (veCatalog E) plan).
Proof.
  intros Ho Hin Ha. destruct e as [plan|i|loop|p]; cbn [review_step] in Ho.
  - by destruct (quiet_none _ _ _ _ (quiet_watch_plan plan) Ho Hin Ha).
  - by destruct (quiet_none _ _ _ _ (quiet_start i) Ho Hin Ha).
  - unfold watch_loop in Ho. destruct (negb (rlTerminal loop) || _ || _ || _) eqn:Eg in Ho.
    { by destruct (quiet_none _ _ _ _ (emits_ret quiet ()) Ho Hin Ha). }
    exists loop. breflect. destruct Eg as [[[Et _] _] _]. unfold handleLoopCompletion in Ho. rewrite V_bind_eq in Ho. cbn [fst snd vread] in Ho.
    set (slug := rlPlanSlug loop) in *. destruct (IsStaleLoop slug (rlTaskID loop) (vwRetry w)) eqn:Es.
    { by destruct (quiet_none _ _ _ _ (emits_ret quiet ()) Ho Hin Ha). }
    rewrite V_bind_eq in Ho. pose proof (load_out slug w) as (Hl1 & Hl2 & Hl3).
    set (seen := loadPlanForRules E slug w) in *.
    destruct (match seen.2 with Some plan => _ | None => false end) eqn:Er in Ho.
    { rewrite <- Hl1 in Ho. by destruct (quiet_none _ _ _ _ (emits_retry quiet _) Ho Hin Ha). }
    destruct (rlOutcome loop !=? OutcomeSuccess) eqn:Eo.
    { rewrite <- Hl1 in Ho. by destruct (quiet_none _ _ _ _ (quiet_retry _ _ _) Ho Hin Ha). }
    destruct (parseReviewFromResult _ _) as [r|err] eqn:Ep.
    2: { rewrite <- Hl1 in Ho. by destruct (quiet_none _ _ _ _ (quiet_retry _ _ _) Ho Hin Ha). }
    exists r. rewrite V_bind_eq in Ho. pose proof (load_out slug seen.1) as (Hm1 & _).
    set (again := loadPlanForRules E slug seen.1) in *. apply parsed_normalized in Ep as Hn.
    assert (∀ x, rvVerdict x ≠ "approved" → emits quiet (act_on_verdict (S := S) E slug (default roundDraftReview (rlRound loop)) x)) as Hq.
    { intros x Hx. unfold act_on_verdict. apply eqb_false in Hx. rewrite Hx. emits_auto. }
    assert (∀ plan, seen.2 = Some plan → reviewing (EffectiveStatus plan) = true) as Hrv.
    { intros plan Hp. rewrite Hp in Er. by apply negb_false_iff in Er. }
    rewrite <- Hl1, <- Hm1 in Ho. clear Er. apply (proj1 (negb_false_iff _)), (proj1 (eqb_true _ _)) in Eo. split; [done|]. split; [done|]. cbv zeta. split_and!; try done.
    + by apply not_stale.
    + destruct (decide (rvVerdict r = "approved")) as [|Hv]; [done|]. exfalso.
      destruct again.2 as [plan|] eqn:Eq; [|by eapply (quiet_none _ _ _ _ (Hq _ Hv) Ho)].
      destruct (merged_review (veQuote E) (veCatalog E) (veOrder E) plan r Hn) as (_ & _ & Hm).
      eapply (quiet_none _ _ _ _ (Hq _ _) Ho); [done|done]. Unshelve. tauto.
    + intros plan Hp. change (again.2 = Some plan) in Hp. rewrite Hp in Ho. destruct (merged_review (veQuote E) (veCatalog E) (veOrder E) plan r Hn) as (_ & _ & Hm).
      destruct (decide (rvVerdict (mergeDeterministicFindings (veQuote E) (veCatalog E) (veOrder E) plan r) = "approved")) as [Hv|Hv]; [by apply Hm|].
      by destruct (quiet_none _ _ _ _ (Hq _ Hv) Ho Hin Ha).
  - cbn [fst vmodify] in Ho. change (vwOut w = (vwOut w ++ new)%list) in Ho. 
    assert (new = []) as ->; [|set_solver]. apply (app_inv_head (vwOut w)). by rewrite app_nil_r.
Qed.
End quiet.

(** ** A completed review is acted on *)

Section responds.
Context {S : Type} `{PlanPort S} (E : ReviewEnv).

Definition any (o : review_output) : Prop := True.
Hint Extern 1 (any _) => exact I : emits.

(** A program that tells the plan manager something or asks the agent again,
    whatever happens. *)
Definition responds {A} (m : V S A) : Prop :=
  ∀ w, ∃ new, vwOut (m w).1 = (vwOut w ++ new)%list ∧ Exists (λ o, acts o = true) new.

Lemma responds_l {A B} (m : V S A) (f : A → V S B) : responds m → (∀ x, emits any (f x)) → responds (m ≫= f).
Proof.
  intros Hm Hf w. rewrite V_bind_eq. destruct (Hm w) as (n1 & E1 & P1). destruct (Hf (m w).2 (m w).1) as (n2 & E2 & P2).
  exists (n1 ++ n2)%list. rewrite E2, E1, app_assoc. split; [done|]. apply Exists_app. by left.
Qed.

Lemma responds_r {A B} (m : V S A) (f : A → V S B) : emits any m → (∀ x, responds (f x)) → responds (m ≫= f).
Proof.
  intros Hm Hf w. rewrite V_bind_eq. destruct (Hm w) as (n1 & E1 & P1). destruct (Hf (m w).2 (m w).1) as (n2 & E2 & P2).
  exists (n1 ++ n2)%list. rewrite E2, E1, app_assoc. split; [done|]. apply Exists_app. by right.
Qed.

Lemma responds_out o : acts o = true → responds (vout (S := S) o).
Proof. intros Ho w. exists [o]. split; [done|by constructor]. Qed.

Lemma responds_mutation m : responds (send_mutation E m).
Proof.
  apply responds_r; [apply emits_tick|intros _]. apply responds_r; [apply emits_read|intros w].
  destruct (plan_request _ _ _) as [p a]. apply responds_r; [by apply emits_modify|intros _].
  apply responds_l; [by apply responds_out|intros _; apply emits_ret].
Qed.

Lemma responds_failed slug round msg : responds (sendGenerationFailed (S := S) E slug round msg).
Proof. apply responds_l; [apply responds_mutation|intros _; apply emits_ret]. Qed.

Lemma any_failed slug round msg : emits any (sendGenerationFailed (S := S) E slug round msg).
Proof. apply emits_failed. done. Qed.
Lemma any_mutation m : emits any (send_mutation (S := S) E m).
Proof. apply emits_mutation. done. Qed.
Hint Resolve any_failed any_mutation : emits.

Lemma any_lessons slug r : emits any (extractPlanLessons (S := S) E slug r).
Proof.
  unfold extractPlanLessons. destruct (veLessons E); [|apply emits_ret].
  induction (ErrorFindings r) as [|f fs IH]; cbn [record_lessons]; emits_auto.
Qed.

(** The retry tells the plan manager something or asks the agent again, unless
    the component is shut down during its wait or the prompt does not render:
    then nothing is sent at all, and the entry stays. *)
Lemma retry_outcome slug round msg (w : VWorld S) :
  let w' := (retryOrFail E slug round msg w).1 in
  (∃ new, vwOut w' = (vwOut w ++ new)%list ∧ Exists (λ o, acts o = true) new) ∨
  (∃ n, (vwTick w ≤ n < vwTick w')%nat ∧ vioCancelled (veIO E n) = true) ∨
  (∃ entry, vwRetry w' !! slug = Some entry ∧
     vePrompt E slug (rpPlanContent (enPayload entry)) (rpRound (enPayload entry)) msg = None).
Proof.
  cbv zeta. unfold retryOrFail. rewrite V_bind_eq. cbn [vread fst snd]. rewrite V_bind_eq.
  set (known := match Snapshot _ _ with Some _ => _ | None => _ end).
  assert (Hk : vwOut (known w).1 = vwOut w ∧ (vwTick w ≤ vwTick (known w).1)%nat).
  { unfold known. destruct (Snapshot _ _); [done|]. rewrite V_bind_eq.
    assert (Hl : (vwTick w ≤ vwTick (loadPlanContentFromKV E slug w).1)%nat) by (cbv; lia).
    destruct (loadPlanContentFromKV E slug w).2; [rewrite V_bind_eq|]; done. }
  destruct (known w) as [w1 k]. cbn [fst snd] in *. destruct Hk as [<- Ht].
  destruct k; cbn [negb]; [|left; apply responds_failed]. rewrite V_bind_eq. cbn [vtick fst snd]. rewrite V_bind_eq.
  cbn [vread fst snd]. destruct (vioCancelled (veIO E (vwTick w1))) eqn:Ec.
  { destruct (Tick _ _ _ _) as [s [entry ok]] eqn:Etick. rewrite V_bind_eq. cbn [vmodify fst snd].
    destruct entry as [e|]; [|right; left; exists (vwTick w1); split; [cbn; lia|done]].
    destruct ok; [|left; apply (responds_failed slug round msg (set_vwRetry s (set_vwTick (Datatypes.S (vwTick w1)) w1)))].
    unfold Tick in Etick. destruct (_ !! slug); [|done]. by case_bool_decide. }
  destruct (Tick _ _ _ _) as [s [entry ok]] eqn:Etick. rewrite V_bind_eq. cbn [vmodify fst snd].
  set (w2 := set_vwRetry s _). change (vwOut w1) with (vwOut w2).
  destruct entry as [e|]; [|left; apply responds_failed]. destruct ok; cbn [negb]; [|left; apply responds_failed].
  assert (He : s !! slug = Some e).
  { unfold Tick in Etick. destruct (_ !! slug); [|done]. case_bool_decide; [done|]. injection Etick as <- <-. apply lookup_insert_eq. }
  unfold dispatchReviewer. rewrite V_bind_eq. cbn [vretry vmodify fst snd]. rewrite V_bind_eq. cbn [vtick fst snd].
  rewrite V_bind_eq. cbn [vretry vmodify fst snd]. unfold Track. cbn [vwRetry set_vwRetry set_vwTick w2]. rewrite He. cbn [fst].
  unfold SetActiveLoop. rewrite He. destruct (vePrompt _ _ _ _ _) as [prompt|] eqn:Ep.
  - left. refine ((_ : responds _) _). apply responds_r; [apply emits_tick|intros io].
    destruct (vioErr io); [apply responds_failed|by apply responds_out].
  - right. right. eexists. cbn [mret V_ret fst vwRetry set_vwRetry]. split; [apply lookup_insert_eq|done].
Qed.

Lemma responds_verdict slug round r : (1 ≤ round ≤ 4)%Z → responds (act_on_verdict (S := S) E slug round r).
Proof.
  intros Hr. unfold act_on_verdict. destruct (rvVerdict r =? "approved").
  - apply responds_l; [|intros err; emits_auto].
    assert (∀ m what, responds (send_or_fail (S := S) E m what)) as Hs.
    { intros m what. apply responds_l; [apply responds_mutation|intros a; apply emits_ret]. }
    unfold sendApprovalMutations, roundRequirementsReview, roundArchitectureReview, roundDraftReview, roundScenariosReview.
    repeat case_bool_decide; [done|done| |by destruct (IsAutoApprove E)|lia].
    apply responds_l; [done|]. intros [e|]; [apply emits_ret|]. unfold send_or_fail. emits_auto.
  - apply responds_l; [|intros _; apply emits_bind; [apply any_lessons|intros _; apply emits_retry]].
    unfold sendRevisionMutation. apply responds_l; [apply responds_mutation|]. intros a. emits_auto.
Qed.

(** C32: The end of the loop that is under way for a plan, in one of the four
    rounds, has a consequence.  Either the plan has left the reviewing
    statuses and the bookkeeping for it is cleared, or the plan manager is told
    something (an approval, a revision, a failure) or a new task is given to
    the agent.  The only exceptions are a retry, of a loop that failed or whose
    answer does not parse, during whose wait the component is shut down or
    whose prompt does not render: the latter is only logged, and the entry
    of the plan stays. *)
Theorem review_concluded loop w :
  rlTerminal loop = true → rlWorkflowSlug loop = "semspec-planning" → rlWorkflowStep loop = "reviewing" →
  rlPlanSlug loop ≠ "" → (1 ≤ default roundDraftReview (rlRound loop) ≤ 4)%Z →
  (∀ entry, vwRetry w !! rlPlanSlug loop = Some entry → enActiveLoopID entry = "" ∨ enActiveLoopID entry = rlTaskID loop) →
  let w' := (watch_loop (S := S) E loop w).1 in
  (∃ plan, (loadPlanForRules E (rlPlanSlug loop) w).2 = Some plan ∧ reviewing (EffectiveStatus plan) = false ∧
     vwOut w' = vwOut w ∧ vwRetry w' !! rlPlanSlug loop = None) ∨
  (∃ new, vwOut w' = (vwOut w ++ new)%list ∧ Exists (λ o, acts o = true) new) ∨
  (∃ msg, (rlOutcome loop ≠ OutcomeSuccess ∧ msg = loop_error E loop ∨
            ∃ e, parseReviewFromResult (veUnmarshalReview E) (rlResult loop) = inr e ∧
              msg = "failed to parse review result: " +:+ e) ∧
     ((∃ n, (vwTick w ≤ n < vwTick w')%nat ∧ vioCancelled (veIO E n) = true) ∨
      (∃ entry, vwRetry w' !! rlPlanSlug loop = Some entry ∧
         vePrompt E (rlPlanSlug loop) (rpPlanContent (enPayload entry)) (rpRound (enPayload entry)) msg = None))).
Proof.
  intros Ht Hw Hs Hp Hr Hst%not_stale. apply eqb_false in Hp. unfold watch_loop. rewrite Ht, Hw, Hs, Hp. cbn [negb orb].
  change (negb ("semspec-planning" =? "semspec-planning") || negb ("reviewing" =? "reviewing") || false) with false.
  unfold handleLoopCompletion. rewrite V_bind_eq. cbn [vread fst snd]. rewrite Hst, V_bind_eq.
  pose proof (load_out E (rlPlanSlug loop) w) as (Hl1 & _). assert (Hl4 : (vwTick w ≤ vwTick (loadPlanForRules E (rlPlanSlug loop) w).1)%nat) by (cbv; lia).
  set (seen := loadPlanForRules E (rlPlanSlug loop) w) in *.
  destruct (match seen.2 with Some plan => _ | None => false end) eqn:Er.
  { left. destruct seen.2 as [plan|] eqn:Ep; [|done]. exists plan. apply negb_true_iff in Er. split_and!; [done|done|done|].
    cbn [fst vretry vmodify]. apply lookup_delete_eq. }
  right. rewrite <- Hl1. destruct (rlOutcome loop !=? OutcomeSuccess) eqn:Eo; [|destruct (parseReviewFromResult _ _) as [r|err] eqn:Ep].
  - apply neqb_true in Eo. destruct (retry_outcome (rlPlanSlug loop) (default roundDraftReview (rlRound loop)) (loop_error E loop) seen.1)
      as [?|[(n & ? & ?)|?]]; [by left|right; exists (loop_error E loop); split; [by left|left]..|right; exists (loop_error E loop); split; [by left|by right]].
    exists n. split; [lia|done].
  - left. apply responds_r; [apply emits_load_rules|intros plan]. by apply responds_verdict.
  - destruct (retry_outcome (rlPlanSlug loop) (default roundDraftReview (rlRound loop)) ("failed to parse review result: " +:+ err) seen.1)
      as [?|[(n & ? & ?)|?]]; [by left|right; exists ("failed to parse review result: " +:+ err); split; [right; by exists err|left]..|right; exists ("failed to parse review result: " +:+ err); split; [right; by exists err|by right]].
    exists n. split; [lia|done].
Qed.
End responds.
