(* ===== verification/ReviewCycle.v ===== *)
(** * The plan reviewer and the plan manager together

    The plan manager of Mutations.v as the reviewer's [PlanPort]: the
    approvals of each round take the plan out of that round's status.  And
    two ways a round goes wrong: an approval that the plan manager refuses is
    taken as delivered, and a dispatch that could not be published leaves its
    payload behind for the next round. *)

From stdpp Require Import pretty.
From S2P Require Import Prelude Status Paths Types PlanStore Reviews Mutations Feedback RuleFindings PlanRules PlanRuleFacts.
From S2P Require Import DispatchRetry PlanReviewer PlanReviewerFacts.

Local Open Scope string_scope.
Local Open Scope go_scope.

(** ** The plan manager as a port *)

Section port.
Context (PE : Env) (row : Plan → string) (text : mutation_error → string).

(** What the transport does to a request: [None] delivers it; otherwise the
    caller sees an error and the flag tells whether the request was handled. *)
Context (lost : nat → option (string * bool)).

Definition manager_request (n : nat) (m : mutation) (w : World) : World * plan_answer :=
  let '(w', r) := handle PE m w in
  match lost n with
  | Some (err, handled) => (if handled : bool then w' else w, NoAnswer err)
  | None => (w', match r with None => Answered true "" | Some e => Answered false (text e) end)
  end.

Definition manager_content (slug : string) (w : World) : option string := kv ← wKV w; row <$> kv !! slug.

Definition plan_manager : PlanPort World :=
  {| plan_request := manager_request; plan_content := manager_content |}.
End port.

(** ** Approvals reach their status *)

(** The status an approval of the round leads to. *)
Definition approved_status (PE : Env) (auto : bool) (round : Z) (plan : Plan) : Status :=
  if bool_decide (round = roundRequirementsReview) then StatusRequirementsReviewed
  else if bool_decide (round = roundArchitectureReview) then StatusArchitectureReviewed
  else if bool_decide (round = roundDraftReview) then (if auto then StatusApproved else StatusReviewed)
  else if auto || planHasAcceptedStoryReprepareDecision plan then
    (if envAutoStart PE then StatusImplementing else StatusReadyForExecution)
  else StatusScenariosReviewed.

(** Calls of the plan manager to the outside succeed. *)
Definition healthy (PE : Env) : Prop := ∀ n,
  ioCtxErr (envIO PE n) = false ∧ ioMarshalErr (envIO PE n) = false ∧ ioGraphErr (envIO PE n) = false ∧
  ioPublishErr (envIO PE n) = false.

Section advance.
Context (PE : Env) (Hio : healthy PE).

Lemma save_healthy q w : ValidateSlug (pSlug q) = None →
  ∃ w', save PE q w = (w', None) ∧ wCache w' !! pSlug q = Some q.
Proof.
  intros Hs. assert ((save PE q w).2 = None) as H.
  { unfold save, tick, put_cache, put_kv, read, mbind, M_bind, mret, M_ret. cbn [fst snd]. rewrite Hs.
    destruct (Hio (wTick w)) as (-> & -> & -> & _). rewrite andb_false_r. by destruct (ioKvPutErr _). }
  destruct (save PE q w) as [w' r] eqn:Es. cbn [snd] in H. subst r. exists w'. split; [done|]. by apply save_None in Es as [? _].
Qed.

Lemma phase_ok slug T (f : Z → Plan → Plan) w p :
  wCache w !! slug = Some p → pSlug p = slug → ValidateSlug slug = None → can p T = true → (∀ t, pSlug (f t p) = slug) →
  ∃ w' t, with_plan PE slug (λ plan, guard_transition plan T (t ← now PE; save_reply PE (f t plan))) w = (w', None) ∧
    wCache w' !! slug = Some (f t p).
Proof.
  intros Hc Hp Hv HT Hf. rewrite (with_plan_cached _ _ _ _ _ Hc). unfold guard_transition. rewrite HT, now_bind.
  set (t := ioNow _). destruct (save_healthy (f t p) (ticked (ticked w))) as (w' & Hs & Hw); [by rewrite Hf|].
  exists w', t. rewrite Hf in Hw. split; [|done]. unfold save_reply, mbind, M_bind. by rewrite Hs.
Qed.

Lemma slug_nonempty slug : ValidateSlug slug = None → (slug =? "") = false.
Proof. intros H. apply eqb_false. by intros ->. Qed.

Lemma set_status_healthy q T w : can q T = true → ValidateSlug (pSlug q) = None →
  ∃ w', setPlanStatusCached PE q T w = (w', (set_pStatus T q, None)) ∧ wCache w' !! pSlug q = Some (set_pStatus T q).
Proof.
  intros HT Hv. unfold setPlanStatusCached. unfold can in HT. rewrite HT. cbn [negb]. cbv zeta.
  destruct (save_healthy (set_pStatus T q) w Hv) as (w' & Hs & Hc). exists w'. split; [|done].
  unfold mbind, M_bind. by rewrite Hs.
Qed.

Lemma ready_healthy q w : can q StatusReadyForExecution = true → ValidateSlug (pSlug q) = None →
  pRequirements q ≠ [] → pScenarios q ≠ [] →
  ∃ w' q', transitionToReadyForExecution PE q [] w = (w', None) ∧ wCache w' !! pSlug q = Some q' ∧
    EffectiveStatus q' = (if envAutoStart PE then StatusImplementing else StatusReadyForExecution).
Proof.
  intros HT Hv Hr Hs. unfold transitionToReadyForExecution. unfold mbind at 1, M_bind at 1.
  destruct (set_status_healthy q _ w HT Hv) as (w1 & -> & H1). destruct (envAutoStart PE); [|by eexists _, _].
  unfold startExecutionFromReady. apply is_nil_false in Hr, Hs.
  change (pRequirements (set_pStatus StatusReadyForExecution q)) with (pRequirements q).
  change (pScenarios (set_pStatus StatusReadyForExecution q)) with (pScenarios q). rewrite Hr, Hs.
  unfold mbind at 1, M_bind at 1.
  destruct (set_status_healthy (set_pStatus StatusReadyForExecution q) StatusImplementing w1) as (w2 & -> & H2); [done..|].
  unfold publishScenarioOrchestrator, tick, send, mbind, M_bind, mret, M_ret. cbn [fst snd].
  destruct (Hio (wTick w2)) as (_ & _ & _ & ->). eexists _, _. split; [done|]. by split.
Qed.
End advance.

Section cycle.
Context (PE : Env) (row : Plan → string) (text : mutation_error → string) (E : ReviewEnv).

(** Over a transport that loses nothing. *)
#[local] Instance reliable : PlanPort World := plan_manager PE row text (λ _, None).

Lemma send_accepted m what w w1 : handle PE m (vwPort w) = (w1, None) →
  vwPort (send_or_fail E m what w).1 = w1 ∧ (send_or_fail E m what w).2 = None.
Proof.
  intros H. unfold send_or_fail, send_mutation. rewrite !V_bind_eq. cbn [vtick vread fst snd].
  cbn [plan_request reliable plan_manager vwPort vwTick set_vwTick]. unfold manager_request. rewrite H.
  rewrite !V_bind_eq. done.
Qed.

Context (Hio : healthy PE).

(** What a round's approval needs of the plan. *)
Definition waits_for (slug : string) (round : Z) (w : World) (p : Plan) : Prop :=
  wCache w !! slug = Some p ∧ pSlug p = slug ∧ ValidateSlug slug = None ∧ pStatus p = expected_status round.

Lemma round_can round T p : pStatus p = expected_status round →
  Status_CanTransitionTo (expected_status round) T = true → can p T = true.
Proof.
  unfold can. intros H. rewrite EffectiveStatus_explicit; rewrite H; [done|].
  unfold expected_status. by repeat case_bool_decide.
Qed.

Lemma reviewed_plan_slug T s t p : pSlug (reviewed_plan T s t p) = pSlug p.
Proof. unfold reviewed_plan, refreshApprovedReviewMetadata. by destruct (s !=? ""). Qed.

Lemma reviewed_plan_status T s t p : T ≠ StatusOther "" → EffectiveStatus (reviewed_plan T s t p) = T.
Proof.
  intros HT. assert (pStatus (reviewed_plan T s t p) = T) as H by (unfold reviewed_plan, refreshApprovedReviewMetadata; by destruct (s !=? "")).
  rewrite EffectiveStatus_explicit; by rewrite H.
Qed.

(** The two machine rounds. *)
Lemma advance_requirements slug s w p : waits_for slug roundRequirementsReview w p →
  ∃ w' q, handle PE (MRequirementsReviewed (Some (MkPhaseReviewedReq slug s))) w = (w', None) ∧
    wCache w' !! slug = Some q ∧ EffectiveStatus q = StatusRequirementsReviewed.
Proof.
  intros (Hc & Hp & Hv & He). cbn [handle handleRequirementsReviewedMutation wqSlug wqSummary]. rewrite (slug_nonempty _ Hv).
  destruct (phase_ok PE Hio slug StatusRequirementsReviewed (reviewed_plan StatusRequirementsReviewed s) w p) as (w' & t & H1 & H2); try done.
  { by apply (round_can _ _ _ He). }
  { intros t. by rewrite reviewed_plan_slug. }
  exists w', (reviewed_plan StatusRequirementsReviewed s t p). split_and!; [done|done|]. by apply reviewed_plan_status.
Qed.

Lemma advance_architecture slug s w p : waits_for slug roundArchitectureReview w p →
  ∃ w' q, handle PE (MArchitectureReviewed (Some (MkPhaseReviewedReq slug s))) w = (w', None) ∧
    wCache w' !! slug = Some q ∧ EffectiveStatus q = StatusArchitectureReviewed.
Proof.
  intros (Hc & Hp & Hv & He). cbn [handle handleArchitectureReviewedMutation wqSlug wqSummary]. rewrite (slug_nonempty _ Hv).
  destruct (phase_ok PE Hio slug StatusArchitectureReviewed (reviewed_plan StatusArchitectureReviewed s) w p) as (w' & t & H1 & H2); try done.
  { by apply (round_can _ _ _ He). }
  { intros t. by rewrite reviewed_plan_slug. }
  exists w', (reviewed_plan StatusArchitectureReviewed s t p). split_and!; [done|done|]. by apply reviewed_plan_status.
Qed.

Lemma advance_reviewed slug s w p : waits_for slug roundDraftReview w p →
  ∃ w' q, handle PE (MReviewed (Some (MkReviewedReq slug "approved" s ""))) w = (w', None) ∧
    wCache w' !! slug = Some q ∧ pSlug q = slug ∧ EffectiveStatus q = StatusReviewed.
Proof.
  intros (Hc & Hp & Hv & He). cbn [handle handleReviewedMutation vqSlug vqSummary vqVerdict]. rewrite (slug_nonempty _ Hv).
  destruct (phase_ok PE Hio slug StatusReviewed (λ t plan, set_pStatus StatusReviewed (set_pReviewedAt (Some t)
            (set_pReviewSummary s (set_pReviewVerdict "approved" plan)))) w p) as (w' & t & H1 & H2); try done.
  { by apply (round_can _ _ _ He). }
  by eexists _, _.
Qed.

Lemma advance_approved slug w p : wCache w !! slug = Some p → pSlug p = slug → ValidateSlug slug = None →
  EffectiveStatus p = StatusReviewed →
  ∃ w' q, handle PE (MApproved (Some (MkApprovedReq slug ""))) w = (w', None) ∧
    wCache w' !! slug = Some q ∧ EffectiveStatus q = StatusApproved.
Proof.
  intros Hc Hp Hv He. cbn [handle handleApprovedMutation pqSlug]. rewrite (slug_nonempty _ Hv).
  destruct (phase_ok PE Hio slug StatusApproved (λ t plan, set_pStatus StatusApproved (set_pApprovedAt (Some t)
            (set_pApproved true plan))) w p) as (w' & t & H1 & H2); try done.
  { unfold can. by rewrite He. }
  by eexists _, _.
Qed.

Lemma advance_ready slug w p : waits_for slug roundScenariosReview w p → pRequirements p ≠ [] → pScenarios p ≠ [] →
  ∃ w' q, handle PE (MReadyForExecution (Some (MkReadyReq slug ""))) w = (w', None) ∧
    wCache w' !! slug = Some q ∧ EffectiveStatus q = (if envAutoStart PE then StatusImplementing else StatusReadyForExecution).
Proof.
  intros (Hc & Hp & Hv & He) Hr Hs. cbn [handle handleReadyForExecutionMutation yqSlug]. rewrite (slug_nonempty _ Hv).
  rewrite (with_plan_cached _ _ _ _ _ Hc). unfold guard_transition.
  assert (can p StatusReadyForExecution = true) as HT by (by apply (round_can _ _ _ He)). rewrite HT, now_bind. cbv zeta.
  set (q := refreshApprovedReviewMetadata _ _ _).
  destruct (ready_healthy PE Hio q (ticked (ticked w))) as (w' & q' & H1 & H2 & H3); [by apply (round_can roundScenariosReview)|by rewrite <- Hp in Hv|done|done|].
  exists w', q'. unfold mbind, M_bind. rewrite H1. split_and!; [done| |done]. by rewrite <- Hp.
Qed.

Lemma advance_scenarios slug s w p : waits_for slug roundScenariosReview w p → pRequirements p ≠ [] → pScenarios p ≠ [] →
  ∃ w' q, handle PE (MScenariosReviewed (Some (MkPhaseReviewedReq slug s))) w = (w', None) ∧
    wCache w' !! slug = Some q ∧
    EffectiveStatus q = (if planHasAcceptedStoryReprepareDecision p
                         then (if envAutoStart PE then StatusImplementing else StatusReadyForExecution)
                         else StatusScenariosReviewed).
Proof.
  intros (Hc & Hp & Hv & He) Hr Hs. cbn [handle handleScenariosReviewedMutation wqSlug wqSummary]. rewrite (slug_nonempty _ Hv).
  rewrite (with_plan_cached _ _ _ _ _ Hc). unfold guard_transition.
  rewrite (round_can roundScenariosReview _ _ He), now_bind by done. cbv zeta.
  set (q := reviewed_plan _ _ _ _). assert (pSlug q = slug) as Hq by (unfold q; by rewrite reviewed_plan_slug).
  destruct (save_healthy PE Hio q (ticked (ticked w))) as (w1 & H1 & H2); [by rewrite Hq|].
  rewrite Hq in H2. unfold mbind at 1, M_bind at 1. rewrite H1.
  assert (pPlanDecisions q = pPlanDecisions p ∧ pRequirements q = pRequirements p ∧ pScenarios q = pScenarios p)
    as (Hd & Hqr & Hqs) by (unfold q, reviewed_plan, refreshApprovedReviewMetadata; by destruct (s !=? "")).
  assert (EffectiveStatus q = StatusScenariosReviewed) as Hst by (by apply reviewed_plan_status).
  unfold planHasAcceptedStoryReprepareDecision in *. rewrite Hd. destruct (existsb _ _); [|by eexists _, _].
  destruct (ready_healthy PE Hio q w1) as (w' & q' & H3 & H4 & H5);
    [unfold can; by rewrite Hst|by rewrite Hq|by rewrite Hqr|by rewrite Hqs|].
  exists w', q'. unfold mbind, M_bind. rewrite H3. rewrite Hq in H4. by split_and!.
Qed.

End cycle.

(** ** Where a round goes wrong *)

Section defects.
Context {S : Type} `{PlanPort S} (E : ReviewEnv).

(** A port that answers every request with a refusal. *)
Definition refusing (e : string) : Prop := ∀ n m (p : S), plan_request n m p = (p, Answered false e).

Lemma send_refused e m what (w : VWorld S) : refusing e →
  let res := send_or_fail E m what w in
  res.2 = None ∧ vwPort res.1 = vwPort w ∧ vwOut res.1 = (vwOut w ++ [VMutation m (Answered false e)])%list.
Proof.
  intros He. unfold send_or_fail, send_mutation. rewrite !V_bind_eq. cbn [vtick vread fst snd]. rewrite He. rewrite !V_bind_eq. done.
Qed.

(** A refused approval goes unnoticed: only the transport's error is
    looked at, so when the plan manager answers an approval with a refusal
    nothing is reported, the retry entry is dropped and the plan stays where
    it is, although a refused revision is turned into a failure of the plan. *)
Theorem refused_approval_dropped e slug round r w :
  refusing e → rvVerdict r = "approved" →
  let w' := (act_on_verdict E slug round r w).1 in
  vwPort w' = vwPort w ∧ vwRetry w' !! slug = None ∧
  ∃ new, vwOut w' = (vwOut w ++ new)%list ∧ Forall (λ o, approval o = true) new.
Proof.
  intros He Hr. cbv zeta. unfold act_on_verdict. apply eqb_true in Hr. rewrite Hr. rewrite V_bind_eq.
  assert ((sendApprovalMutations E slug (rvSummary r) round w).2 = None ∧
    vwPort (sendApprovalMutations E slug (rvSummary r) round w).1 = vwPort w ∧
    ∃ new, vwOut (sendApprovalMutations E slug (rvSummary r) round w).1 = (vwOut w ++ new)%list ∧
      Forall (λ o, approval o = true) new) as (H1 & H2 & new & H3 & H4).
  { pose proof (λ m what w, send_refused e m what w He) as Hs. unfold sendApprovalMutations. repeat case_bool_decide.
    - edestruct Hs as (-> & -> & ->). split_and!; [done|done|]. eexists. split; [done|by repeat constructor].
    - edestruct Hs as (-> & -> & ->). split_and!; [done|done|]. eexists. split; [done|by repeat constructor].
    - rewrite V_bind_eq. destruct (Hs (MReviewed (Some (MkReviewedReq slug "approved" (rvSummary r) ""))) "reviewed" w) as (-> & Hp & Ho).
      destruct (IsAutoApprove E).
      + edestruct Hs as (-> & -> & ->). rewrite Hp, Ho, <- app_assoc. split_and!; [done|done|]. eexists. split; [done|by repeat constructor].
      + split_and!; [done|done|]. eexists. split; [exact Ho|by repeat constructor].
    - destruct (IsAutoApprove E); edestruct Hs as (-> & -> & ->); (split_and!; [done|done|]; eexists; split; [done|by repeat constructor]).
    - split_and!; [done|done|]. exists []. by rewrite app_nil_r. }
  rewrite V_bind_eq, H1. cbn [fst vretry vmodify mret V_ret]. split_and!; [exact H2|apply lookup_delete_eq|]. by exists new.
Qed.

(** The payload of a dispatch is the one tracked first. *)
Definition payload_of (slug : string) (w : VWorld S) : option reviewRetryPayload := enPayload <$> vwRetry w !! slug.

Lemma failed_payload slug slug' round msg (w : VWorld S) :
  vwRetry (sendGenerationFailed E slug' round msg w).1 !! slug = vwRetry w !! slug.
Proof.
  unfold sendGenerationFailed, send_mutation. rewrite !V_bind_eq. cbn [vtick vread fst snd].
  destruct (plan_request _ _ _) as [p a]. rewrite !V_bind_eq. done.
Qed.

Lemma tracked_payload slug payload loop (m : gmap string (Entry reviewRetryPayload)) :
  enPayload <$> SetActiveLoop slug loop (Track slug payload m).1 !! slug = Some (default payload (enPayload <$> m !! slug)).
Proof.
  unfold Track. destruct (m !! slug) as [e|] eqn:Ee; cbn [fst]; unfold SetActiveLoop.
  - rewrite Ee. by rewrite lookup_insert_eq.
  - rewrite lookup_insert_eq. by rewrite lookup_insert_eq.
Qed.

Lemma dispatch_payload slug content round err (w : VWorld S) :
  payload_of slug (dispatchReviewer E slug content round err w).1 =
  Some (default (MkReviewPayload content round) (payload_of slug w)).
Proof.
  unfold dispatchReviewer. rewrite !V_bind_eq. cbn [vretry vmodify vtick fst snd].
  set (w1 := set_vwRetry (SetActiveLoop _ _ _) _). assert (payload_of slug w1 = Some (default (MkReviewPayload content round) (payload_of slug w))) as H1.
  { apply tracked_payload. }
  destruct (vePrompt E _ _ _ _); [|done]. rewrite V_bind_eq. cbn [vtick fst snd].
  destruct (vioErr _); [|done]. unfold payload_of. by rewrite failed_payload.
Qed.

Lemma dispatch_task slug content round err (w : VWorld S) new t :
  vwOut (dispatchReviewer E slug content round err w).1 = (vwOut w ++ new)%list → VTask t ∈ new →
  rtSlug t = slug ∧ rtRound t = round ∧ vePrompt E slug content round err = Some (rtPrompt t).
Proof.
  unfold dispatchReviewer. rewrite !V_bind_eq. cbn [vretry vmodify vtick fst snd].
  assert (∀ (l : list review_output) new, l = (l ++ new)%list → new = []) as Hnil.
  { intros l n Hl. apply (app_inv_head l). by rewrite app_nil_r. }
  destruct (vePrompt E _ _ _ _) as [p|]; [|intros ->%Hnil; set_solver]. rewrite V_bind_eq. cbn [vtick fst snd].
  destruct (vioErr _).
  - intros Ho Hin. exfalso.
    match type of Ho with vwOut (sendGenerationFailed _ _ _ ?m ?w1).1 = _ =>
      destruct (emits_failed E (λ o, ∀ t, o ≠ VTask t) slug round m ltac:(done) w1) as (new' & Hn & HF) end.
    rewrite Hn in Ho. apply app_inv_head in Ho as ->. rewrite Forall_forall in HF. by apply (HF _ Hin t).
  - cbn [vout vmodify fst vwOut set_vwOut set_vwTick set_vwRetry]. intros Ho%app_inv_head Hin. rewrite <- Ho in Hin.
    apply list_elem_of_singleton in Hin as [= ->]. done.
Qed.

(** A failed dispatch haunts the next round: when the task of a first
    dispatch could not be published its bookkeeping stays behind, and a later
    dispatch for the same plan keeps the old payload.  If the later review
    must be retried, the agent is sent the first round and the first content
    again. *)
Theorem failed_dispatch_haunts slug c1 r1 e1 c2 r2 e2 err w new t :
  vwRetry w !! slug = None →
  let w1 := (dispatchReviewer E slug c1 r1 e1 w).1 in
  let w2 := (dispatchReviewer E slug c2 r2 e2 w1).1 in
  vwOut (retryOrFail E slug r2 err w2).1 = (vwOut w2 ++ new)%list → VTask t ∈ new →
  rtRound t = r1 ∧ vePrompt E slug c1 r1 err = Some (rtPrompt t).
Proof.
  intros Hw w1 w2 Ho Hin. assert (payload_of slug w2 = Some (MkReviewPayload c1 r1)) as Hp.
  { unfold w2. rewrite dispatch_payload. unfold w1. rewrite dispatch_payload. unfold payload_of. by rewrite Hw. }
  clearbody w2. clear w1 Hw. unfold payload_of in Hp. destruct (vwRetry w2 !! slug) as [e|] eqn:Ee; [|done].
  injection Hp as Hp. assert (∀ m, vwOut (sendGenerationFailed E slug r2 err m).1 = (vwOut m ++ new)%list → False) as Hf.
  { intros m Hm. destruct (emits_failed E (λ o, ∀ t, o ≠ VTask t) slug r2 err ltac:(done) m) as (new' & Hn & HF).
    rewrite Hn in Hm. apply app_inv_head in Hm as ->. rewrite Forall_forall in HF. by apply (HF _ Hin t). }
  unfold retryOrFail in Ho. rewrite V_bind_eq in Ho. cbn [vread fst snd] in Ho. unfold Snapshot in Ho. rewrite Ee in Ho.
  rewrite !V_bind_eq in Ho. cbn [mret V_ret fst snd negb] in Ho. rewrite !V_bind_eq in Ho. cbn [vtick vread fst snd] in Ho.
  cbn [vwRetry set_vwTick] in Ho. unfold Tick in Ho. rewrite Ee in Ho. cbn [enCount enPayload] in Ho.
  destruct (bool_decide _); [cbn [negb] in Ho; rewrite V_bind_eq in Ho; by destruct (Hf _ Ho)|].
  destruct (vioCancelled _); rewrite V_bind_eq in Ho; cbn [vmodify fst snd negb] in Ho.
  { assert (new = []) as ->; [|set_solver]. apply (app_inv_head (vwOut w2)). by rewrite app_nil_r. }
  rewrite Hp in Ho. cbn [enPayload rpPlanContent rpRound] in Ho.
  by destruct (dispatch_task _ _ _ _ _ _ _ Ho Hin) as (_ & ? & ?).
Qed.
End defects.

(** ** Examples *)

(** Interaction [bad] fails to publish; prompts name the round. *)
Definition demo_review_env (bad : nat) (plan : Plan) : ReviewEnv :=
  MkReviewEnv (λ n, MkReviewIO "id" (if bool_decide (n = bad) then Some "no stream" else None) false)
    (λ _, "plan") (λ _, Some plan) (λ _ _, (MkPlanReviewResult "approved" "fine" [], None))
    (λ _ content round _, Some ("round " +:+ pretty round +:+ ": " +:+ content)) None true plain None no_order 2 (Some true).
Definition demo_review_world (plan : Plan) : VWorld World := MkVWorld ∅ [] (world_with [plan]) 0 [].
Definition demo_manager : PlanPort World := plan_manager (sample_env (λ _, quiet_io) None) pTitle (λ _, "refused") (λ _, None).
Definition demo_review_loop : review_loop :=
  MkReviewLoop "review-1" true "semspec-planning" "reviewing" "demo" (Some roundArchitectureReview) OutcomeSuccess "" "{}".
Definition in_review : Plan := set_pStatus StatusReviewingArchitecture (draft_arch ["src/driver.go"]).

Lemma healthy_demo : healthy (sample_env (λ _, quiet_io) None).
Proof. done. Qed.

(** A whole round: the plan is claimed, the agent asked, its approval sent. *)
Example architecture_round :
  let E := demo_review_env 99 (draft_arch ["src/driver.go"]) in
  let w := (run_review (H := demo_manager) E
    [VPlan (draft_arch ["src/driver.go"]); VStart 0] (demo_review_world (draft_arch ["src/driver.go"]))).1 in
  (EffectiveStatus <$> visible (vwPort w) "demo") = Some StatusReviewingArchitecture ∧
  (omap (λ o, match o with VTask t => Some (rtRound t) | _ => None end) (vwOut w)) = [roundArchitectureReview].
Proof. by vm_compute. Qed.

Lemma approval_checked_witness :
  structurally_sound plain None in_review.
Proof.
  destruct (@approval_checked World demo_manager (demo_review_env 99 in_review) (VLoop demo_review_loop) (demo_review_world in_review)
    [VMutation (MArchitectureReviewed (Some (MkPhaseReviewedReq "demo" "fine"))) (Answered true "")]
    (VMutation (MArchitectureReviewed (Some (MkPhaseReviewedReq "demo" "fine"))) (Answered true "")))
    as (loop & r & Hl & _ & _ & _ & _ & _ & _ & Hs).
  - by vm_compute.
  - by left.
  - done.
  - injection Hl as <-. apply (Hs in_review). by vm_compute.
Defined.

Lemma review_concluded_witness :
  let w := demo_review_world in_review in
  ∃ new, vwOut (watch_loop (H := demo_manager) (demo_review_env 99 in_review) demo_review_loop w).1 = new ∧
    Exists (λ o, acts o = true) new.
Proof.
  intros w. destruct (@review_concluded World demo_manager (demo_review_env 99 in_review)) with (loop := demo_review_loop) (w := w)
    as [(plan & Hp & Hr & _)|[(new & Hn & Ha)|(msg & [[H _]|(e & H & _)] & _)]]; try done.
  - vm_compute in Hp. injection Hp as <-. by vm_compute in Hr.
  - by exists new.
Defined.


Definition refuser : PlanPort string := {| plan_request := λ _ _ p, (p, Answered false "invalid transition"); plan_content := λ _ p, Some p |}.

Lemma refused_approval_dropped_witness :
  let r := MkPlanReviewResult "approved" "fine" [] in
  let w := MkVWorld ∅ [] "plan" 0 [] in
  ∃ new, vwOut (act_on_verdict (H := refuser) (demo_review_env 99 in_review) "demo" roundDraftReview r w).1 = new ∧
    Forall (λ o, approval o = true) new ∧ length new = 2.
Proof.
  intros r w.
  destruct (@refused_approval_dropped string refuser (demo_review_env 99 in_review) "invalid transition" "demo" roundDraftReview r w)
    as (_ & _ & new & Hn & Hf); [done|done|]. exists new. split_and!; [done|done|]. vm_compute in Hn. by rewrite <- Hn.
Defined.

(** The first round cannot be published; the retry of the third sends it. *)
Lemma failed_dispatch_haunts_witness :
  let E := demo_review_env 1 in_review in
  let w := MkVWorld ∅ [] "plan" 0 [] in
  let w2 := (dispatchReviewer (H := refuser) E "demo" "new" roundArchitectureReview ""
               (dispatchReviewer (H := refuser) E "demo" "old" roundDraftReview "" w).1).1 in
  ∃ t, VTask t ∈ vwOut (retryOrFail (H := refuser) E "demo" roundArchitectureReview "bad" w2).1 ∧ rtRound t = roundDraftReview.
Proof.
  intros E w w2. set (new := drop (length (vwOut w2)) (vwOut (retryOrFail (H := refuser) E "demo" roundArchitectureReview "bad" w2).1)).
  exists (MkReviewTask "review-demo-r1-id" "demo" 1 "round 1: old"). split; [vm_compute; set_solver|].
  apply (@failed_dispatch_haunts string refuser E "demo" "old" roundDraftReview "" "new" roundArchitectureReview "" "bad" w new
    (MkReviewTask "review-demo-r1-id" "demo" 1 "round 1: old")); [done| |vm_compute; set_solver]. by vm_compute.
Defined.
