(* ===== verification/Generators.v ===== *)
(** * What the generators share

    The processors that fill in a plan (story-preparer, scenario-generator and
    their siblings) are built alike: a watcher of PLAN_STATES claims a plan, a
    goroutine dispatches an agent, a watcher of AGENT_LOOPS handles what the
    agent returns, and workflow/dispatchretry bounds the attempts.  This file
    has their state, the monad [G] they are written in, the requests they send
    through [PlanPort], and the lemmas about outputs that all of them use.

    A generator skips the loops that the bucket replays at its start, and
    handles a loop once per session. *)

From Stdlib Require Import Ascii.
From stdpp Require Import pretty.
From S2P Require Import Prelude Status Paths Types PlanStore Mutations DispatchRetry PlanReviewer.

Local Open Scope string_scope.
Local Open Scope go_scope.

(** ** JSON in an answer

    The scenario and the requirement generator have the same two functions. *)

(** The text from the first opening byte up to the byte that closes it. *)
Fixpoint balanced_by (op cl : ascii) (depth : nat) (s : string) : option string :=
  match s with
  | "" => None
  | String c r =>
      if bool_decide (c = op) then String c <$> balanced_by op cl (S depth) r
      else if bool_decide (c = cl) then
        match depth with
        | S (S d) => String c <$> balanced_by op cl (S d) r
        | _ => Some (String c "")
        end
      else String c <$> balanced_by op cl depth r
  end.

Fixpoint from_byte (op : ascii) (s : string) : option string :=
  match s with
  | "" => None
  | String c r => if bool_decide (c = op) then Some s else from_byte op r
  end.

Definition extractJSONArray (s : string) : string := default "" (from_byte "[" s ≫= balanced_by "[" "]" 0).
Definition extractJSONObject (s : string) : string := default "" (from_byte "{" s ≫= balanced_by "{" "}" 0).

(** ** State *)

(** One interaction: a fresh identifier, the clock, whether the call fails and
    with which text, whether the context is cancelled. *)
Record gen_io := MkGenIO { gioUUID : string; gioNow : Z; gioErr : option string; gioCancelled : bool }.

(** A task for the generating agent. *)
Record gen_task := MkGenTask {
  gtTaskID : string;
  gtSlug : string;
  gtRequirementID : string;
  gtStoryID : string;
  gtPrompt : string }.

(** An agent loop with the metadata the generators read. *)
Record gen_loop := MkGenLoop {
  glID : string;
  glTaskID : string;
  glTerminal : bool;
  glWorkflowSlug : string;
  glWorkflowStep : string;
  glPlanSlug : string;
  glRequirementID : string;
  glStoryID : string;
  glTraceID : string;
  glOutcome : string;
  glError : string;
  glResult : string }.

Inductive gen_output :=
| GTask (t : gen_task)
| GMutation (m : mutation) (a : plan_answer).

Record GenEnv := MkGenEnv {
  geIO : nat → gen_io;
  geUnmarshalPlan : string → option Plan;
  geLoadErr : nat → string;
  geQuote : string → string;
  geMaxRetries : Z }.

Section world.
Context {J P S : Type}.

(** [gwJobs] are the goroutines that wait to run, [gwSeen] the loops handled
    in this session, [gwClaimed] the claims whose echo is expected. *)
Record GWorld := MkGWorld {
  gwRetry : gmap string (Entry P);
  gwJobs : list J;
  gwReplayDone : bool;
  gwSeen : gset string;
  gwClaimed : gset string;
  gwPort : S;
  gwTick : nat;
  gwOut : list gen_output }.

Definition set_gwRetry (v : gmap string (Entry P)) (w : GWorld) : GWorld :=
  MkGWorld v (gwJobs w) (gwReplayDone w) (gwSeen w) (gwClaimed w) (gwPort w) (gwTick w) (gwOut w).
Definition set_gwJobs (v : list J) (w : GWorld) : GWorld :=
  MkGWorld (gwRetry w) v (gwReplayDone w) (gwSeen w) (gwClaimed w) (gwPort w) (gwTick w) (gwOut w).
Definition set_gwReplayDone (v : bool) (w : GWorld) : GWorld :=
  MkGWorld (gwRetry w) (gwJobs w) v (gwSeen w) (gwClaimed w) (gwPort w) (gwTick w) (gwOut w).
Definition set_gwSeen (v : gset string) (w : GWorld) : GWorld :=
  MkGWorld (gwRetry w) (gwJobs w) (gwReplayDone w) v (gwClaimed w) (gwPort w) (gwTick w) (gwOut w).
Definition set_gwClaimed (v : gset string) (w : GWorld) : GWorld :=
  MkGWorld (gwRetry w) (gwJobs w) (gwReplayDone w) (gwSeen w) v (gwPort w) (gwTick w) (gwOut w).
Definition set_gwPort (v : S) (w : GWorld) : GWorld :=
  MkGWorld (gwRetry w) (gwJobs w) (gwReplayDone w) (gwSeen w) (gwClaimed w) v (gwTick w) (gwOut w).
Definition set_gwTick (v : nat) (w : GWorld) : GWorld :=
  MkGWorld (gwRetry w) (gwJobs w) (gwReplayDone w) (gwSeen w) (gwClaimed w) (gwPort w) v (gwOut w).
Definition set_gwOut (v : list gen_output) (w : GWorld) : GWorld :=
  MkGWorld (gwRetry w) (gwJobs w) (gwReplayDone w) (gwSeen w) (gwClaimed w) (gwPort w) (gwTick w) v.
End world.
Arguments GWorld : clear implicits.

Definition G (J P S A : Type) : Type := GWorld J P S → GWorld J P S * A.
#[export] Instance G_ret {J P S} : MRet (G J P S) := λ A x w, (w, x).
#[export] Instance G_bind {J P S} : MBind (G J P S) := λ A B f m w, let (w', x) := m w in f x w'.

Lemma G_bind_eq {J P S A B} (m : G J P S A) (f : A → G J P S B) w : (m ≫= f) w = f (m w).2 (m w).1.
Proof. unfold mbind, G_bind. by destruct (m w). Qed.

(** A read that did not fail, of a row that is there and decodes. *)
Definition decode_row (err : option string) (content : option string) (decode : string → option Plan) : option Plan :=
  match err with Some _ => None | None => content ≫= decode end.

Section generator.
Context {J P S : Type} `{PlanPort S} (E : GenEnv).

Definition gmodify (f : GWorld J P S → GWorld J P S) : G J P S () := λ w, (f w, ()).
Definition gread : G J P S (GWorld J P S) := λ w, (w, w).
Definition gtick : G J P S gen_io := λ w, (set_gwTick (Datatypes.S (gwTick w)) w, geIO E (gwTick w)).
Definition gout (o : gen_output) : G J P S () := gmodify (λ w, set_gwOut (gwOut w ++ [o])%list w).
Definition gretry (f : gmap string (Entry P) → gmap string (Entry P)) : G J P S () :=
  gmodify (λ w, set_gwRetry (f (gwRetry w)) w).

(** [RequestWithRetry] to the plan manager. *)
Definition grequest (m : mutation) : G J P S plan_answer :=
  gtick;;
  w ← gread;
  let '(p, a) := plan_request (gwTick w) m (gwPort w) in
  gmodify (set_gwPort p);;
  gout (GMutation m a);;
  mret a.

(** [workflow.ClaimPlanStatus] *)
Definition gclaim (slug : string) (target : Status) : G J P S bool :=
  a ← grequest (MClaim (Some (MkClaimReq slug target)));
  mret (match a with Answered true _ => true | _ => false end).

(** [loadPlanFromKV]: the plan, or the text of the error. *)
Definition gload (slug : string) : G J P S (Plan + string) :=
  w ← gread;
  io ← gtick;
  mret (match decode_row (gioErr io) (plan_content slug (gwPort w)) (geUnmarshalPlan E) with
        | Some plan => inl plan
        | None => inr (geLoadErr E (gwTick w))
        end).

(** [sendGenerationFailed] of each generator. *)
Definition gfailed (phase slug feedback : string) : G J P S () :=
  grequest (MGenerationFailed (Some (MkGenerationFailedReq slug phase feedback "")));; mret ().

(** [retry.Tick] and what follows it: nothing on cancellation, the failure
    when the budget is spent, otherwise another dispatch with the payload. *)
Definition tick_or_fail (key : string) (fail : G J P S ()) (again : P → G J P S ()) : G J P S () :=
  io ← gtick;
  w ← gread;
  let '(s, (entry, ok)) := Tick (geMaxRetries E) (gioCancelled io) key (gwRetry w) in
  gmodify (set_gwRetry s);;
  match entry with
  | None => if gioCancelled io then mret () else fail
  | Some entry => if negb ok then fail else again (enPayload entry)
  end.

(** Publishing a task to the agents' stream. *)
Definition gpublish (t : gen_task) (fail : string → G J P S ()) : G J P S () :=
  io ← gtick;
  match gioErr io with
  | Some e => fail e
  | None => gout (GTask t)
  end.

Definition gloop_error (loop : gen_loop) : string :=
  if glError loop =? "" then "agent loop ended with outcome " +:+ geQuote E (glOutcome loop) else glError loop.

(** The filters of [watchLoopCompletions]; [ready] is the generator's own
    condition on the metadata. *)
Definition gwatch_loop (step : string) (ready : gen_loop → bool) (handle : gen_loop → G J P S ()) (loop : gen_loop) :
    G J P S () :=
  if negb (glTerminal loop) || (glWorkflowSlug loop !=? "semspec-planning") || (glWorkflowStep loop !=? step) ||
     negb (ready loop) then mret () else
  w ← gread;
  if negb (gwReplayDone w) || bool_decide (glID loop ∈ gwSeen w) then mret () else
  gmodify (λ w, set_gwSeen ({[glID loop]} ∪ gwSeen w) w);;
  handle loop.

Lemma gwatch_live step ready handle loop w : glTerminal loop = true → glWorkflowSlug loop = "semspec-planning" →
  glWorkflowStep loop = step → gwReplayDone w = true → (glID loop ∉ gwSeen w) → ready loop = true →
  gwatch_loop step ready handle loop w = handle loop (set_gwSeen ({[glID loop]} ∪ gwSeen w) w).
Proof.
  intros Ht Hw Hs Hr Hn Hl. unfold gwatch_loop. rewrite Ht, Hw, Hs, Hl, !eqb_refl. cbn [negb orb].
  rewrite G_bind_eq. cbn [gread fst snd]. rewrite Hr, bool_decide_false by done. done.
Qed.

(** A restart loses what is kept in memory, and the replay begins again. *)
Definition grestart : G J P S () :=
  gmodify (λ w, MkGWorld ∅ [] false ∅ ∅ (gwPort w) (gwTick w) (gwOut w)).
End generator.

(** ** Outputs *)

Section outputs.
Context {J P S : Type} `{PlanPort S} (E : GenEnv).

(** A program appends outputs, all of which satisfy [Q]. *)
Definition gemits {A} (Q : gen_output → Prop) (m : G J P S A) : Prop :=
  ∀ w, ∃ new, gwOut (m w).1 = (gwOut w ++ new)%list ∧ Forall Q new.

(** A program that produces an output, whatever happens. *)
Definition gresponds {A} (m : G J P S A) : Prop :=
  ∀ w, ∃ new, gwOut (m w).1 = (gwOut w ++ new)%list ∧ new ≠ [].

Lemma gemits_ret {A} Q (x : A) : gemits Q (mret x).
Proof. intros w. exists []. by rewrite app_nil_r. Qed.

Lemma gemits_mono {A} (Q R : gen_output → Prop) (m : G J P S A) : gemits Q m → (∀ o, Q o → R o) → gemits R m.
Proof. intros Hm HQ w. destruct (Hm w) as (new & Hn & HF). exists new. split; [done|]. by eapply Forall_impl. Qed.

Lemma gemits_bind {A B} Q (m : G J P S A) (f : A → G J P S B) : gemits Q m → (∀ x, gemits Q (f x)) → gemits Q (m ≫= f).
Proof.
  intros Hm Hf w. rewrite G_bind_eq. destruct (Hm w) as (n1 & E1 & P1). destruct (Hf (m w).2 (m w).1) as (n2 & E2 & P2).
  exists (n1 ++ n2)%list. rewrite E2, E1, app_assoc. split; [done|]. by apply Forall_app.
Qed.

Lemma gemits_modify Q (f : GWorld J P S → GWorld J P S) : (∀ w, gwOut (f w) = gwOut w) → gemits Q (gmodify f).
Proof. intros Hf w. exists []. rewrite app_nil_r. split; [apply Hf|done]. Qed.

Lemma gemits_read Q : gemits Q (gread (J := J) (P := P) (S := S)).
Proof. intros w. exists []. by rewrite app_nil_r. Qed.

Lemma gemits_tick Q : gemits Q (gtick (J := J) (P := P) (S := S) E).
Proof. intros w. exists []. by rewrite app_nil_r. Qed.

Lemma gemits_out (Q : gen_output → Prop) o : Q o → gemits Q (gout (J := J) (P := P) (S := S) o).
Proof. intros Ho w. exists [o]. split; [done|by constructor]. Qed.

Lemma gemits_retry Q f : gemits Q (gretry (J := J) (P := P) (S := S) f).
Proof. by apply gemits_modify. Qed.

Lemma gemits_request (Q : gen_output → Prop) m : (∀ a, Q (GMutation m a)) → gemits Q (grequest E m).
Proof.
  intros Hm. apply gemits_bind; [apply gemits_tick|intros _]. apply gemits_bind; [apply gemits_read|intros w].
  destruct (plan_request _ _ _) as [p a]. apply gemits_bind; [by apply gemits_modify|intros _].
  apply gemits_bind; [by apply gemits_out|intros _; apply gemits_ret].
Qed.

Lemma gemits_load Q slug : gemits Q (gload E slug).
Proof. apply gemits_bind; [apply gemits_read|intros w]. apply gemits_bind; [apply gemits_tick|intros io; apply gemits_ret]. Qed.

Lemma gemits_failed (Q : gen_output → Prop) phase slug msg :
  (∀ r a, Q (GMutation (MGenerationFailed r) a)) → gemits Q (gfailed E phase slug msg).
Proof. intros HQ. apply gemits_bind; [by apply gemits_request|intros _; apply gemits_ret]. Qed.

Lemma gemits_publish (Q : gen_output → Prop) t fail : Q (GTask t) → (∀ e, gemits Q (fail e)) → gemits Q (gpublish E t fail).
Proof. intros Ht Hf. apply gemits_bind; [apply gemits_tick|intros io]. destruct (gioErr io); [done|by apply gemits_out]. Qed.

Lemma gemits_tick_or_fail Q key fail again :
  gemits Q fail → (∀ p, gemits Q (again p)) → gemits Q (tick_or_fail E key fail again).
Proof.
  intros Hf Ha. apply gemits_bind; [apply gemits_tick|intros io]. apply gemits_bind; [apply gemits_read|intros w].
  destruct (Tick _ _ _ _) as [s [[e|] ok]]; (apply gemits_bind; [by apply gemits_modify|intros _]).
  - destruct ok; [apply Ha|apply Hf].
  - destruct (gioCancelled io); [apply gemits_ret|done].
Qed.

Lemma gresponds_l {A B} (m : G J P S A) (f : A → G J P S B) : gresponds m → (∀ x, gemits (λ _, True) (f x)) → gresponds (m ≫= f).
Proof.
  intros Hm Hf w. rewrite G_bind_eq. destruct (Hm w) as (n1 & E1 & P1). destruct (Hf (m w).2 (m w).1) as (n2 & E2 & P2).
  exists (n1 ++ n2)%list. rewrite E2, E1, app_assoc. split; [done|]. by intros [-> _]%app_eq_nil.
Qed.

Lemma gresponds_r {A B} (m : G J P S A) (f : A → G J P S B) : gemits (λ _, True) m → (∀ x, gresponds (f x)) → gresponds (m ≫= f).
Proof.
  intros Hm Hf w. rewrite G_bind_eq. destruct (Hm w) as (n1 & E1 & P1). destruct (Hf (m w).2 (m w).1) as (n2 & E2 & P2).
  exists (n1 ++ n2)%list. rewrite E2, E1, app_assoc. split; [done|]. by intros [_ ->]%app_eq_nil.
Qed.

Lemma gresponds_out o : gresponds (gout (J := J) (P := P) (S := S) o).
Proof. intros w. by exists [o]. Qed.

Lemma gresponds_request m : gresponds (grequest (J := J) (P := P) E m).
Proof.
  apply gresponds_r; [apply gemits_tick|intros _]. apply gresponds_r; [apply gemits_read|intros w].
  destruct (plan_request _ _ _) as [p a]. apply gresponds_r; [by apply gemits_modify|intros _].
  apply gresponds_l; [by apply gresponds_out|intros _; apply gemits_ret].
Qed.

Lemma gresponds_failed phase slug msg : gresponds (gfailed (J := J) (P := P) E phase slug msg).
Proof. apply gresponds_l; [apply gresponds_request|intros _; apply gemits_ret]. Qed.

Lemma gresponds_publish t fail : (∀ e, gresponds (fail e)) → gresponds (gpublish (J := J) (P := P) E t fail).
Proof. intros Hf. apply gresponds_r; [apply gemits_tick|intros io]. destruct (gioErr io); [done|apply gresponds_out]. Qed.

(** While the component is not shut down. *)
Lemma gresponds_tick_or_fail key fail again : (∀ n, gioCancelled (geIO E n) = false) →
  gresponds fail → (∀ p, gresponds (again p)) → gresponds (tick_or_fail E key fail again).
Proof.
  intros Hrun Hf Ha w. unfold tick_or_fail. rewrite !G_bind_eq. cbn [gtick gread fst snd]. rewrite Hrun.
  set (w1 := set_gwTick _ w). destruct (Tick _ _ _ _) as [s [[e|] ok]]; rewrite G_bind_eq; cbn [gmodify fst snd].
  - destruct ok; cbn [negb]; [apply (Ha _ (set_gwRetry s w1))|apply (Hf (set_gwRetry s w1))].
  - apply (Hf (set_gwRetry s w1)).
Qed.

(** What a program that emits only [Q] produced satisfies [Q]. *)
Lemma gemits_all {A} Q (m : G J P S A) w new : gemits Q m → gwOut (m w).1 = (gwOut w ++ new)%list → Forall Q new.
Proof. intros Hm Ho. destruct (Hm w) as (new' & Hn & HF). rewrite Hn in Ho. by apply app_inv_head in Ho as ->. Qed.
End outputs.

Create HintDb gemits.
#[export] Hint Resolve gemits_ret gemits_read gemits_tick gemits_retry gemits_load : gemits.

(** Goes through a program output by output. *)
Ltac gemits_step :=
  first [ progress eauto with gemits
        | apply gemits_failed; intros; (reflexivity || exact I || done)
        | apply gemits_request; intros; (reflexivity || exact I || done)
        | apply gemits_out; (reflexivity || exact I || done)
        | apply gemits_publish; [reflexivity || exact I || done|intros ?]
        | apply gemits_tick_or_fail; [|intros ?]
        | apply gemits_modify; intros; reflexivity
        | apply gemits_bind; [|intros ?]
        | match goal with
          | |- gemits _ (if ?b then _ else _) => destruct b
          | |- gemits _ (match ?x with _ => _ end) => destruct x
          end ].
Ltac gemits_auto := repeat gemits_step.
