(* ===== verification/StoryPrep.v ===== *)
(** * The story preparer

    processor/story-preparer/component.go: the agent's positional answer and
    its resolution into stories ([resolveStoryLabels] and its helpers), and
    the component: the two claim points of the watcher of PLAN_STATES, the
    dispatch, the completion with its gates, and the retries.

    The agent names requirements and capabilities by index, stories and tasks
    by label; identifiers, file ownership and the schedule are the system's.
    An error is a value of [label_error]; its text, which only reaches the
    next prompt or the failure message, is a parameter, and so are JSON, the
    prompt and the order in which Go ranges over maps.  A new story or task
    has the empty status and no times. *)

From Stdlib Require Import Ascii.
From stdpp Require Import pretty.
From S2P Require Import Prelude Graphs Status Paths Types Stories Scheduling PlanStore Mutations PlanRules DispatchRetry.
From S2P Require Import Feedback PlanReviewer Generators.

Local Open Scope string_scope.
Local Open Scope go_scope.

(** ** The agent's answer *)

Record positionalTaskInput := MkTaskInput {
  ptLabel : string;
  ptDescription : string;
  ptDependsOnLabels : list string }.

Record positionalStoryInput := MkStoryInput {
  psLabel : string;
  psComponentName : string;
  psRequirementIndices : list Z;
  psCapabilityIndices : list Z;
  psTitle : string;
  psIntent : string;
  psTasks : list positionalTaskInput }.

Inductive label_error :=
| EmptyResult
| BadStoriesJSON (e : string)
| EmptyStories
| SlugRequired
| DuplicateStoryLabel (label : string)
| MissingStoryLabel
| MissingComponentName (label : string)
| UnknownComponent (label comp : string)
| NoRequirementIndices (label : string)
| RequirementIndexOutOfRange (label : string) (idx : Z)
| RequirementIndexTwice (label : string) (idx : Z)
| CapabilityIndexBeyond (label : string) (idx : Z)
| CapabilityIndexTwice (label : string) (idx : Z)
| MissingTaskLabel (story : string) (i : nat)
| DuplicateTaskLabel (story label : string)
| UnknownTaskLabel (story source label : string)
| UncoveredRequirements (missing : list string)
| UncoveredStoryCapabilities (missing : list string)
| SchedulingFailed (e : story_error).

(** ** Resolution *)

Fixpoint after_last_dot (s : string) : option string :=
  match s with
  | "" => None
  | String c r =>
      match after_last_dot r with
      | Some t => Some t
      | None => if bool_decide (c = "."%char) then Some r else None
      end
  end.

Definition requirementSeq (requirementID : string) : string :=
  match after_last_dot requirementID with
  | None | Some "" => requirementID
  | Some r => r
  end.

(** The names at the indices, which must be in range and distinct. *)
Fixpoint pick_indices (names : list string) (beyond twice : Z → label_error) (seen : gset Z) (idxs : list Z) :
    list string + label_error :=
  match idxs with
  | [] => inl []
  | idx :: idxs =>
      if bool_decide (idx < 0)%Z || bool_decide (Z.of_nat (length names) ≤ idx)%Z then inr (beyond idx)
      else if bool_decide (idx ∈ seen) then inr (twice idx)
      else
        match pick_indices names beyond twice ({[idx]} ∪ seen) idxs with
        | inr e => inr e
        | inl out => inl (default "" (names !! Z.to_nat idx) :: out)
        end
  end.

Definition component_files (plan : Plan) : gmap string (list string) :=
  match pArchitecture plan with
  | None => ∅
  | Some arch => cdImplementationFiles <$> components_by_name (adComponentBoundaries arch)
  end.

Definition capability_names (plan : Plan) : list string :=
  match pExploration plan with None => [] | Some e => capName <$> exCapabilities e end.

Definition validateStoryIndices (s : positionalStoryInput) (plan : Plan) : (list string * list string) + label_error :=
  let label := psLabel s in
  if label =? "" then inr MissingStoryLabel
  else if psComponentName s =? "" then inr (MissingComponentName label)
  else if bool_decide (component_files plan !! psComponentName s = None)
  then inr (UnknownComponent label (psComponentName s))
  else if is_nil (psRequirementIndices s) then inr (NoRequirementIndices label)
  else
    match pick_indices (rID <$> pRequirements plan) (RequirementIndexOutOfRange label) (RequirementIndexTwice label) ∅
            (psRequirementIndices s) with
    | inr e => inr e
    | inl reqIDs =>
        match pick_indices (capability_names plan) (CapabilityIndexBeyond label) (CapabilityIndexTwice label) ∅
                (psCapabilityIndices s) with
        | inr e => inr e
        | inl capNames => inl (reqIDs, capNames)
        end
    end.

(** Pass 1: identifiers, requirements and capabilities of each story.
    [counts] is how many stories a sequence number has so far; the primary
    requirement is the first one named. *)
Fixpoint assign_ids (plan : Plan) (slug : string) (counts : gmap string nat) (labels : gset string)
    (input : list positionalStoryInput) : list (string * list string * list string) + label_error :=
  match input with
  | [] => inl []
  | s :: input =>
      if (psLabel s !=? "") && bool_decide (psLabel s ∈ labels) then inr (DuplicateStoryLabel (psLabel s)) else
      match validateStoryIndices s plan with
      | inr e => inr e
      | inl (reqIDs, capNames) =>
          let reqseq := requirementSeq (default "" (head reqIDs)) in
          let n := S (default 0%nat (counts !! reqseq)) in
          let id := "story." +:+ slug +:+ "." +:+ reqseq +:+ "." +:+ pretty n in
          match assign_ids plan slug (<[reqseq := n]> counts) ({[psLabel s]} ∪ labels) input with
          | inr e => inr e
          | inl out => inl ((id, reqIDs, capNames) :: out)
          end
      end
  end.

Fixpoint resolveLabels (story source : string) (m : gmap string string) (labels : list string) :
    list string + label_error :=
  match labels with
  | [] => inl []
  | lbl :: labels =>
      match m !! lbl with
      | None => inr (UnknownTaskLabel story source lbl)
      | Some id =>
          match resolveLabels story source m labels with
          | inr e => inr e
          | inl out => inl (id :: out)
          end
      end
  end.

(** Identifiers of the tasks, from index [i] on. *)
Fixpoint task_ids (storyLabel taskIDPrefix : string) (i : nat) (m : gmap string string) (inputs : list positionalTaskInput) :
    gmap string string + label_error :=
  match inputs with
  | [] => inl m
  | t :: inputs =>
      if ptLabel t =? "" then inr (MissingTaskLabel storyLabel i)
      else if bool_decide (is_Some (m !! ptLabel t)) then inr (DuplicateTaskLabel storyLabel (ptLabel t))
      else task_ids storyLabel taskIDPrefix (S i) (<[ptLabel t := taskIDPrefix +:+ "." +:+ pretty (S i)]> m) inputs
  end.

Fixpoint build_tasks (storyLabel storyID taskIDPrefix : string) (i : nat) (m : gmap string string)
    (inputs : list positionalTaskInput) : list Task + label_error :=
  match inputs with
  | [] => inl []
  | t :: inputs =>
      match resolveLabels storyLabel (ptLabel t) m (ptDependsOnLabels t) with
      | inr e => inr e
      | inl depends =>
          match build_tasks storyLabel storyID taskIDPrefix (S i) m inputs with
          | inr e => inr e
          | inl out =>
              inl (MkTask (taskIDPrefix +:+ "." +:+ pretty (S i)) storyID (ptDescription t) depends
                     (TaskStatusOther "") 0 0 :: out)
          end
      end
  end.

Definition resolveTasks (inputs : list positionalTaskInput) (storyID storyLabel : string) : list Task + label_error :=
  let taskIDPrefix := "task." +:+ TrimPrefix storyID "story." in
  match task_ids storyLabel taskIDPrefix 0 ∅ inputs with
  | inr e => inr e
  | inl m => build_tasks storyLabel storyID taskIDPrefix 0 m inputs
  end.

(** Pass 2: the stories, their files from the component. *)
Fixpoint build_stories (plan : Plan) (input : list positionalStoryInput)
    (assigned : list (string * list string * list string)) : list Story + label_error :=
  match input, assigned with
  | s :: input, (id, reqIDs, capNames) :: assigned =>
      match resolveTasks (psTasks s) id (psLabel s) with
      | inr e => inr e
      | inl tasks =>
          match build_stories plan input assigned with
          | inr e => inr e
          | inl out =>
              inl (MkStory id (psComponentName s) reqIDs capNames (psTitle s) (psIntent s)
                     (ExpandFileScopeWithCompanionTests (default [] (component_files plan !! psComponentName s)))
                     [] tasks (StoryStatusOther "") "" None "" 0 0 :: out)
          end
      end
  | _, _ => inl []
  end.

Definition assertFullCoverage (stories : list Story) (plan : Plan) : option label_error :=
  let coveredReq : gset string := list_to_set (stories ≫= sRequirementIDs) in
  let coveredCap : gset string := list_to_set (stories ≫= sCapabilityNames) in
  let missReq := filter (λ r, r ∉ coveredReq) (rID <$> pRequirements plan) in
  let missCap := filter (λ c, c ∉ coveredCap) (capability_names plan) in
  if negb (is_nil missReq) then Some (UncoveredRequirements missReq)
  else if negb (is_nil missCap) then Some (UncoveredStoryCapabilities missCap)
  else None.

Section resolve.
Context (range : nat → gset string → list string).

Definition resolveStoryLabels (input : list positionalStoryInput) (plan : Plan) (slug : string) :
    list Story + label_error :=
  if slug =? "" then inr SlugRequired else
  match assign_ids plan slug ∅ ∅ input with
  | inr e => inr e
  | inl assigned =>
      match build_stories plan input assigned with
      | inr e => inr e
      | inl stories =>
          match assertFullCoverage stories plan with
          | Some e => inr e
          | None =>
              match DeriveStoryScheduling range stories (pRequirements plan) with
              | (_, Some e) => inr (SchedulingFailed e)
              | (stories, None) => inl stories
              end
          end
      end
  end.

(** [json.Unmarshal] of the answer. *)
Context (unmarshal : string → list positionalStoryInput + string).

Definition parseStoriesFromResult (result : string) (plan : Plan) (slug : string) : list Story + label_error :=
  if result =? "" then inr EmptyResult else
  match unmarshal result with
  | inr e => inr (BadStoriesJSON e)
  | inl input => if is_nil input then inr EmptyStories else resolveStoryLabels input plan slug
  end.
End resolve.

(** ** The component *)

Record StoryEnv := MkStoryEnv {
  seGen : GenEnv;
  seRange : nat → nat → gset string → list string;
  seUnmarshal : string → list positionalStoryInput + string;
  seLabelText : label_error → string;
  seStoryText : story_error → string;
  sePrompt : nat → Plan → string → string → option string }.

Section preparer.
Context {S : Type} `{PlanPort S} (E : StoryEnv).
Let E' := seGen E.

(** A goroutine is a plan to prepare, and so is a retry payload. *)
Local Abbreviation SP := (G Plan Plan S).

Definition sendGenerationFailed (slug feedback : string) : SP () := gfailed E' "story-preparation" slug feedback.

(** A prompt that cannot be rendered ends the dispatch. *)
Definition dispatchStoryPreparer (plan : Plan) (previousError reviewFindings : string) : SP () :=
  io ← gtick E';
  let taskID := "storyprep-" +:+ pSlug plan +:+ "-" +:+ gioUUID io in
  gretry (SetActiveLoop (pSlug plan) taskID);;
  w ← gread;
  match sePrompt E (gwTick w) plan previousError reviewFindings with
  | None => mret ()
  | Some prompt =>
      gpublish E' (MkGenTask taskID (pSlug plan) "" "" prompt)
        (λ e, sendGenerationFailed (pSlug plan) ("story-preparer dispatch failed: " +:+ e))
  end.

Definition processStoryPhase (plan : Plan) : SP () :=
  gretry (λ s, (Track (pSlug plan) plan s).1);;
  dispatchStoryPreparer plan "" (pReviewFormattedFindings plan).

(** The findings of the review are not passed on. *)
Definition retryOrFail (slug errorMsg : string) : SP () :=
  w ← gread;
  known ← match Snapshot slug (gwRetry w) with
          | Some _ => mret true
          | None =>
              loaded ← gload E' slug;
              match loaded with
              | inr _ => mret false
              | inl plan => gretry (λ s, (Track slug plan s).1);; mret true
              end
          end;
  if negb known then sendGenerationFailed slug errorMsg
  else tick_or_fail E' slug (sendGenerationFailed slug errorMsg) (λ plan, dispatchStoryPreparer plan errorMsg "").

(** [publishStoriesGenerated]: the text of the error. *)
Definition publishStoriesGenerated (slug : string) (stories : list Story) (traceID : string) : SP (option string) :=
  a ← grequest E' (MStories (Some (MkStoriesReq slug stories (Z.of_nat (length stories)) traceID)));
  mret (match a with
        | NoAnswer e => Some ("send stories mutation: " +:+ e)
        | Answered true _ => None
        | Answered false e => Some ("plan-manager rejected stories mutation: " +:+ e)
        end).

(** The gates before publication: the message of the one that rejects. *)
Definition validateStoriesPrePublish (plan : Plan) (stories : list Story) : option string :=
  match ValidateStories stories with
  | Some e => Some ("story validation failed: " +:+ seStoryText E e)
  | None =>
      match ValidateStoriesAgainstPlan (Some plan) stories with
      | Some e => Some ("story plan-coverage validation failed: " +:+ seStoryText E e)
      | None => None
      end
  end.

Definition publish_stories (slug : string) (stories : list Story) (traceID : string) : SP () :=
  err ← publishStoriesGenerated slug stories traceID;
  match err with
  | None => gretry (Clear slug)
  | Some e =>
      if Contains e "invalid transition" then gretry (Clear slug)
      else sendGenerationFailed slug ("stories mutation publish failed: " +:+ e)
  end.

Definition handleLoopCompletion (loop : gen_loop) : SP () :=
  let slug := glPlanSlug loop in
  w ← gread;
  if IsStaleLoop slug (glTaskID loop) (gwRetry w) then mret () else
  if glOutcome loop !=? OutcomeSuccess then retryOrFail slug (gloop_error E' loop) else
  loaded ← gload E' slug;
  match loaded with
  | inr e => retryOrFail slug ("plan load failed pre-parse: " +:+ e)
  | inl plan =>
      if EffectiveStatus plan !=? StatusPreparingStories then gretry (Clear slug) else
      w ← gread;
      match parseStoriesFromResult (seRange E (gwTick w)) (seUnmarshal E) (glResult loop) plan slug with
      | inr e => retryOrFail slug ("failed to parse stories: " +:+ seLabelText E e)
      | inl stories =>
          match validateStoriesPrePublish plan stories with
          | Some msg => retryOrFail slug msg
          | None => publish_stories slug stories (glTraceID loop)
          end
      end
  end.

Definition watch_loop (loop : gen_loop) : SP () :=
  gwatch_loop "story-preparation" (λ loop, glPlanSlug loop !=? "") handleLoopCompletion loop.

(** ** Plans *)

Definition markClaimedSlug (slug : string) : SP () :=
  gmodify (λ w, set_gwClaimed ({[slug]} ∪ gwClaimed w) w).

Definition consumeClaimedSlug (slug : string) : SP bool :=
  w ← gread;
  if bool_decide (slug ∈ gwClaimed w)
  then gmodify (λ w, set_gwClaimed (gwClaimed w ∖ {[slug]}) w);; mret true
  else mret false.

Definition claimPreparingStories (plan : Plan) : SP bool :=
  claimed ← gclaim E' (pSlug plan) StatusPreparingStories;
  if negb claimed then mret false else markClaimedSlug (pSlug plan);; mret true.

Definition spawn (plan : Plan) : SP () := gmodify (λ w, set_gwJobs (gwJobs w ++ [plan])%list w).

(** One entry of PLAN_STATES. *)
Definition watch_plan (plan : Plan) : SP () :=
  match pStatus plan with
  | StatusArchitectureReviewed =>
      claimed ← claimPreparingStories plan;
      if negb claimed then mret () else spawn (set_pStatus StatusPreparingStories plan)
  | StatusPreparingStories =>
      echo ← consumeClaimedSlug (pSlug plan);
      if echo : bool then mret () else spawn plan
  | _ => mret ()
  end.

(** A goroutine runs. *)
Definition start_job (i : nat) : SP () :=
  w ← gread;
  match gwJobs w !! i with
  | None => mret ()
  | Some plan => gmodify (set_gwJobs (delete i (gwJobs w)));; processStoryPhase plan
  end.

(** ** Runs *)

Inductive story_event :=
| EPlan (plan : Plan)
| EStart (i : nat)
| ELoop (loop : gen_loop)
| EReplayDone
| ERestart
| EElsewhere (p : S).

Definition story_step (e : story_event) : SP () :=
  match e with
  | EPlan plan => watch_plan plan
  | EStart i => start_job i
  | ELoop loop => watch_loop loop
  | EReplayDone => gmodify (set_gwReplayDone true)
  | ERestart => grestart
  | EElsewhere p => gmodify (set_gwPort p)
  end.

Fixpoint run_stories (es : list story_event) : SP () :=
  match es with [] => mret () | e :: es => story_step e;; run_stories es end.
End preparer.
