(* ===== verification/StoryPrepFacts.v ===== *)
(** * What the story preparer guarantees

    Resolution gives every story its own identifier, covers every requirement
    and capability, and its stories pass the gate against the plan; what is
    published has passed both gates; a completed loop is always acted on. *)

From Stdlib Require Import Ascii.
From stdpp Require Import pretty.
From S2P Require Import Prelude Graphs Status Paths Types Stories Scheduling PlanStore Mutations PlanRules PlanRuleFacts.
From S2P Require Import DispatchRetry Feedback PlanReviewer Generators StoryPrep.

Local Open Scope string_scope.
Local Open Scope go_scope.

(** ** Identifiers *)

Lemma length_append a b : String.length (a +:+ b) = (String.length a + String.length b)%nat.
Proof. induction a as [|c a IH]; [done|]. cbn. by rewrite <- IH. Qed.

Lemma append_cancel_r a b t : a +:+ t = b +:+ t → a = b.
Proof.
  revert b. induction a as [|c a IH]; intros [|d b] H; cbn in H.
  - done.
  - exfalso. apply (f_equal String.length) in H. cbn [String.length] in H. rewrite ?length_append in H. cbn in H. rewrite ?length_append in H. lia.
  - exfalso. apply (f_equal String.length) in H. cbn [String.length] in H. rewrite ?length_append in H. cbn in H. rewrite ?length_append in H. lia.
  - injection H as -> H. f_equal. by apply IH.
Qed.

Lemma no_dot_last t : mem_ascii "." t = false → after_last_dot t = None.
Proof.
  induction t as [|c t IH]; [done|]. cbn. intros [Hc Ht]%orb_false_iff. rewrite (IH Ht).
  destruct (bool_decide_reflect (c = "."%char)) as [->|]; [done|done].
Qed.

Lemma after_last_dot_app a t : mem_ascii "." t = false → after_last_dot (a +:+ "." +:+ t) = Some t.
Proof.
  intros Ht. induction a as [|c a IH].
  - change (match after_last_dot t with Some u => Some u | None => Some t end = Some t). by rewrite (no_dot_last t Ht).
  - change (match after_last_dot (a +:+ "." +:+ t) with Some u => Some u
            | None => if bool_decide (c = "."%char) then Some (a +:+ "." +:+ t) else None end = Some t). by rewrite IH.
Qed.

Lemma pretty_go_no_dot x s : mem_ascii "." s = false → mem_ascii "." (pretty_N_go x s) = false.
Proof.
  revert s. induction (N.lt_wf_0 x) as [x _ IH]. intros s Hs. destruct (decide (x = 0%N)) as [->|Hx]; [by rewrite pretty_N_go_0|].
  rewrite pretty_N_go_step by lia. apply IH; [apply N.div_lt; lia|]. cbn. rewrite Hs, orb_false_r.
  unfold pretty_N_char. by repeat case_match.
Qed.

Lemma pretty_no_dot (n : nat) : mem_ascii "." (pretty n) = false.
Proof.
  unfold pretty, pretty_nat. unfold pretty, pretty_N. destruct (decide _); [done|]. by apply pretty_go_no_dot.
Qed.

(** A number after the last dot can be read off. *)
Lemma numbered_inj a b (n m : nat) : a +:+ "." +:+ pretty n = b +:+ "." +:+ pretty m → a = b ∧ n = m.
Proof.
  intros H. assert (pretty n = pretty m) as Hp.
  { apply (f_equal after_last_dot) in H. rewrite !after_last_dot_app in H by apply pretty_no_dot. by injection H. }
  rewrite Hp in H. apply append_cancel_r in H. split; [done|]. by apply (inj pretty).
Qed.

(** ** Indices *)

Lemma pick_indices_spec names beyond twice seen idxs out : pick_indices names beyond twice seen idxs = inl out →
  NoDup idxs ∧ (∀ i, i ∈ idxs → i ∉ seen) ∧
  Forall2 (λ idx name, (0 ≤ idx)%Z ∧ names !! Z.to_nat idx = Some name) idxs out.
Proof.
  revert seen out. induction idxs as [|idx idxs IH]; intros seen out; cbn [pick_indices].
  { intros [= <-]. split_and!; [constructor|set_solver|constructor]. }
  destruct (bool_decide_reflect (idx < 0)%Z) as [|H0]; [done|]. destruct (bool_decide_reflect (Z.of_nat (length names) ≤ idx)%Z) as [|H1]; [done|].
  cbn [orb]. destruct (bool_decide_reflect (idx ∈ seen)) as [|Hs]; [done|].
  destruct (pick_indices _ _ _ _ _) as [rest|] eqn:E; [|done]. intros [= <-]. apply IH in E as (Hnd & Hn & HF). split_and!.
  - constructor; [|done]. intros Hi. by apply (Hn idx); [|set_solver].
  - set_solver.
  - constructor; [|done]. split; [lia|]. destruct (names !! Z.to_nat idx) as [x|] eqn:Ex; [done|].
    apply lookup_ge_None in Ex. lia.
Qed.

Lemma pick_indices_elem names beyond twice seen idxs out name : pick_indices names beyond twice seen idxs = inl out →
  name ∈ out → name ∈ names.
Proof.
  intros (_ & _ & HF)%pick_indices_spec Hn. apply list_elem_of_lookup in Hn as [i Hi].
  destruct (Forall2_lookup_r _ _ _ _ _ HF Hi) as (idx & _ & _ & H). by eapply list_elem_of_lookup_2.
Qed.

(** What pass 1 establishes of one story. *)
Record indices_ok (plan : Plan) (s : positionalStoryInput) (reqIDs capNames : list string) : Prop := {
  io_label : psLabel s ≠ "";
  io_component : psComponentName s ≠ "" ∧ is_Some (component_files plan !! psComponentName s);
  io_some : reqIDs ≠ [];
  io_reqs : Forall2 (λ idx id, (0 ≤ idx)%Z ∧ (rID <$> pRequirements plan) !! Z.to_nat idx = Some id) (psRequirementIndices s) reqIDs;
  io_caps : Forall2 (λ idx name, (0 ≤ idx)%Z ∧ capability_names plan !! Z.to_nat idx = Some name) (psCapabilityIndices s) capNames }.

Lemma validateStoryIndices_ok s plan reqIDs capNames :
  validateStoryIndices s plan = inl (reqIDs, capNames) → indices_ok plan s reqIDs capNames.
Proof.
  unfold validateStoryIndices. destruct (psLabel s =? "") eqn:El; [done|]. destruct (psComponentName s =? "") eqn:Ec; [done|].
  destruct (bool_decide_reflect (component_files plan !! psComponentName s = None)) as [|Hc]; [done|].
  destruct (is_nil (psRequirementIndices s)) eqn:En; [done|].
  destruct (pick_indices (rID <$> pRequirements plan) _ _ _ _) as [rs|] eqn:Er; [|done].
  destruct (pick_indices (capability_names plan) _ _ _ _) as [cs|] eqn:Ek; [|done]. intros [= <- <-].
  apply pick_indices_spec in Er as (_ & _ & Hr). apply pick_indices_spec in Ek as (_ & _ & Hk). apply eqb_false in El, Ec.
  apply is_nil_false in En. split; [done| |..]; [|intros ->; by apply Forall2_nil_inv_r in Hr|done|done].
  split; [done|]. destruct (component_files plan !! psComponentName s); [by eexists|done].
Qed.

Definition story_id (slug reqseq : string) (n : nat) : string :=
  "story." +:+ slug +:+ "." +:+ reqseq +:+ "." +:+ pretty n.

Lemma story_id_inj slug r n r' n' : story_id slug r n = story_id slug r' n' → r = r' ∧ n = n'.
Proof.
  unfold story_id. intros H. do 3 apply (inj (String.append _)) in H. by apply numbered_inj.
Qed.

(** Pass 1 gives distinct identifiers, beyond those counted before. *)
Lemma assign_ids_spec plan slug counts labels input out : assign_ids plan slug counts labels input = inl out →
  Forall2 (λ s a, indices_ok plan s a.1.2 a.2 ∧
    ∃ n, (default 0 (counts !! requirementSeq (default "" (head a.1.2))) < n)%nat ∧
      a.1.1 = story_id slug (requirementSeq (default "" (head a.1.2))) n) input out ∧
  NoDup (fst ∘ fst <$> out).
Proof.
  revert counts labels out. induction input as [|s input IH]; intros counts labels out; cbn [assign_ids].
  { intros [= <-]. split; constructor. }
  destruct ((psLabel s !=? "") && _); [done|]. destruct (validateStoryIndices s plan) as [[rs cs]|] eqn:Ev; [|done].
  set (r0 := requirementSeq (default "" (head rs))). set (n0 := S (default 0%nat (counts !! r0))).
  destruct (assign_ids _ _ _ _ _) as [rest|] eqn:E; [|done]. intros [= <-]. apply IH in E as [HF Hnd].
  apply validateStoryIndices_ok in Ev. split.
  - constructor.
    { split; [done|]. exists n0. split; [unfold n0; cbn [fst snd]; fold r0; lia|done]. }
    eapply Forall2_impl; [exact HF|]. cbn beta. intros x a (Hok & n & Hn & Ha). split; [done|]. exists n. split; [|done].
    destruct (decide (r0 = requirementSeq (default "" (head a.1.2)))) as [E|E].
    + rewrite <- E, lookup_insert_eq in Hn. cbn in Hn. unfold n0 in Hn. rewrite <- E. lia.
    + by rewrite lookup_insert_ne in Hn by done.
  - rewrite fmap_cons. constructor; [|done]. intros Hin. apply list_elem_of_fmap in Hin as (a & Ha & Hin).
    apply list_elem_of_lookup in Hin as [i Hi]. destruct (Forall2_lookup_r _ _ _ _ _ HF Hi) as (x & _ & _ & n & Hn & Hid).
    cbn in Ha. rewrite Hid in Ha. apply story_id_inj in Ha as [Hr Hm]. rewrite <- Hr, lookup_insert_eq in Hn. cbn in Hn. lia.
Qed.

(** ** Tasks *)

Definition task_id (prefix : string) (i : nat) : string := prefix +:+ "." +:+ pretty (S i).

Lemma task_ids_spec story prefix i m inputs m' l id : task_ids story prefix i m inputs = inl m' → m' !! l = Some id →
  m !! l = Some id ∨ ∃ k, (k < length inputs)%nat ∧ id = task_id prefix (i + k).
Proof.
  revert i m. induction inputs as [|t inputs IH]; intros i m; cbn [task_ids]; [intros [= ->]; auto|].
  destruct (ptLabel t =? ""); [done|]. destruct (bool_decide _); [done|]. intros H Hl.
  destruct (IH _ _ H Hl) as [Hm|(k & Hk & ->)].
  - destruct (decide (ptLabel t = l)) as [<-|Hne].
    + rewrite lookup_insert_eq in Hm. injection Hm as <-. right. exists 0%nat. split; [cbn; lia|]. by rewrite Nat.add_0_r.
    + rewrite lookup_insert_ne in Hm by done. by left.
  - right. exists (S k). split; [cbn; lia|]. by rewrite Nat.add_succ_r.
Qed.

Lemma resolveLabels_spec story source m labels out : resolveLabels story source m labels = inl out →
  Forall2 (λ l id, m !! l = Some id) labels out.
Proof.
  revert out. induction labels as [|l labels IH]; intros out; cbn [resolveLabels]; [intros [= <-]; constructor|].
  destruct (m !! l) as [id|] eqn:El; [|done]. destruct (resolveLabels _ _ _ _); [|done]. intros [= <-]. constructor; auto.
Qed.

(** One task as pass 2 builds it. *)
Definition task_built (storyID prefix : string) (m : gmap string string) (k : nat) (t : positionalTaskInput) (task : Task) : Prop :=
  tID task = task_id prefix k ∧ tStoryID task = storyID ∧ tDescription task = ptDescription t ∧
  Forall2 (λ l id, m !! l = Some id) (ptDependsOnLabels t) (tDependsOn task).

Lemma build_tasks_spec story storyID prefix i m inputs out : build_tasks story storyID prefix i m inputs = inl out →
  length out = length inputs ∧
  ∀ k t task, inputs !! k = Some t → out !! k = Some task → task_built storyID prefix m (i + k) t task.
Proof.
  revert i out. induction inputs as [|t inputs IH]; intros i out; cbn [build_tasks]; [by intros [= <-]|].
  destruct (resolveLabels _ _ _ _) as [ds|] eqn:Ed; [|done]. destruct (build_tasks _ _ _ _ _ _) as [rest|] eqn:E; [|done].
  intros [= <-]. apply IH in E as [Hlen Hall]. split; [cbn; by rewrite Hlen|]. intros [|k] t' task H1 H2.
  - injection H1 as <-. injection H2 as <-. rewrite Nat.add_0_r. split_and!; [done|done|done|by eapply resolveLabels_spec].
  - rewrite Nat.add_succ_r. by apply (Hall k).
Qed.

(** The tasks of a story: own identifiers, dependencies among themselves. *)
Definition tasks_ok (storyID : string) (tasks : list Task) : Prop :=
  NoDup (tID <$> tasks) ∧ (∀ t, t ∈ tasks → tStoryID t = storyID ∧ ∀ d, d ∈ tDependsOn t → d ∈ tID <$> tasks).

Lemma resolveTasks_ok inputs storyID label tasks : resolveTasks inputs storyID label = inl tasks →
  tasks_ok storyID tasks ∧ tDescription <$> tasks = ptDescription <$> inputs.
Proof.
  unfold resolveTasks. set (prefix := "task." +:+ _). destruct (task_ids _ _ _ _ _) as [m|] eqn:Em; [|done].
  intros [Hlen Hall]%build_tasks_spec.
  assert (∀ k task, tasks !! k = Some task → ∃ t, inputs !! k = Some t ∧ task_built storyID prefix m k t task) as Hb.
  { intros k task Hk. destruct (inputs !! k) as [t|] eqn:Ei; [by eauto|]. apply lookup_ge_None in Ei.
    apply lookup_lt_Some in Hk. lia. }
  assert (∀ k, (k < length tasks)%nat → task_id prefix k ∈ tID <$> tasks) as Hid.
  { intros k [task Hk]%lookup_lt_is_Some. destruct (Hb k task Hk) as (t & _ & Hi & _). rewrite <- Hi.
    apply list_elem_of_fmap_2. by eapply list_elem_of_lookup_2. }
  split; [split|].
  - apply NoDup_alt. intros i j x Hi Hj. rewrite list_lookup_fmap in Hi, Hj.
    destruct (tasks !! i) as [a|] eqn:Ea; [|done]. destruct (tasks !! j) as [b|] eqn:Eb; [|done].
    destruct (Hb i a Ea) as (_ & _ & Ha & _). destruct (Hb j b Eb) as (_ & _ & Hbb & _). injection Hi as <-. injection Hj as Hj.
    rewrite Ha, Hbb in Hj. unfold task_id in Hj. apply numbered_inj in Hj as [_ ?]. lia.
  - intros task Ht. apply list_elem_of_lookup in Ht as [k Hk]. destruct (Hb k task Hk) as (t & _ & _ & Hs & _ & Hd).
    split; [done|]. intros d Hin. apply list_elem_of_lookup in Hin as [j Hj]. destruct (Forall2_lookup_r _ _ _ _ _ Hd Hj) as (l & _ & Hl).
    destruct (task_ids_spec _ _ _ _ _ _ _ _ Em Hl) as [Hn|(k' & Hk' & ->)]; [by rewrite lookup_empty in Hn|].
    apply Hid. lia.
  - apply list_eq. intros k. rewrite !list_lookup_fmap. destruct (tasks !! k) as [task|] eqn:Ek.
    + destruct (Hb k task Ek) as (t & -> & _ & _ & Hd & _). cbn. by rewrite Hd.
    + apply lookup_ge_None in Ek. rewrite (proj2 (lookup_ge_None inputs k)); [done|lia].
Qed.

(** ** Stories *)

(** A story as the preparer makes it of the agent's answer. *)
Record story_built (plan : Plan) (inp : positionalStoryInput) (s : Story) : Prop := {
  sb_component : sComponentName s = psComponentName inp;
  sb_text : sTitle s = psTitle inp ∧ sIntent s = psIntent inp;
  sb_indices : indices_ok plan inp (sRequirementIDs s) (sCapabilityNames s);
  sb_files : sFilesOwned s = ExpandFileScopeWithCompanionTests (default [] (component_files plan !! psComponentName inp));
  sb_tasks : tasks_ok (sID s) (sTasks s) ∧ tDescription <$> sTasks s = ptDescription <$> psTasks inp;
  sb_status : sStatus s = StoryStatusOther "" }.

Lemma story_built_grows plan inp s s' : grows s s' → story_built plan inp s → story_built plan inp s'.
Proof. intros [-> _] [H1 H2 H3 H4 H5 H6]. by split. Qed.

Lemma build_stories_spec plan input assigned out :
  Forall2 (λ s a, indices_ok plan s a.1.2 a.2) input assigned → build_stories plan input assigned = inl out →
  Forall2 (story_built plan) input out ∧ sID <$> out = fst ∘ fst <$> assigned.
Proof.
  intros HF. revert out. induction HF as [|s [[id rs] cs] input assigned Hok _ IH]; intros out; cbn [build_stories].
  { intros [= <-]. split; [constructor|done]. }
  destruct (resolveTasks (psTasks s) id (psLabel s)) as [tasks|] eqn:Et; [|done].
  destruct (build_stories plan input assigned) as [rest|]; [|done]. intros [= <-]. destruct (IH rest eq_refl) as [IH1 IH2].
  apply resolveTasks_ok in Et as [Ht Hd]. split.
  - constructor; [|done]. by split.
  - rewrite !fmap_cons. f_equal. exact IH2.
Qed.

Lemma coverage_None stories plan : assertFullCoverage stories plan = None →
  (∀ r, r ∈ pRequirements plan → ∃ s, s ∈ stories ∧ rID r ∈ sRequirementIDs s) ∧
  (∀ c, c ∈ capability_names plan → ∃ s, s ∈ stories ∧ c ∈ sCapabilityNames s).
Proof.
  unfold assertFullCoverage. destruct (is_nil (filter _ (rID <$> _))) eqn:Er; [|done]. cbn [negb].
  destruct (is_nil (filter _ (capability_names plan))) eqn:Ec; [|done]. intros _. apply is_nil_true in Er, Ec.
  rewrite filter_nil in Er, Ec. split.
  - intros r Hr. specialize (Er (rID r) (list_elem_of_fmap_2 _ _ _ Hr)). apply dec_stable in Er.
    apply elem_of_list_to_set, list_elem_of_bind in Er as (s & ? & ?). eauto.
  - intros c Hc. specialize (Ec c Hc). apply dec_stable in Ec. apply elem_of_list_to_set, list_elem_of_bind in Ec as (s & ? & ?). eauto.
Qed.

(** The stories are a faithful, complete and schedulable reading of the
    agent's answer. *)
Record prepared (plan : Plan) (input : list positionalStoryInput) (stories : list Story) : Prop := {
  pr_each : Forall2 (story_built plan) input stories;
  pr_ids : NoDup (sID <$> stories);
  pr_requirements : ∀ r, r ∈ pRequirements plan → ∃ s, s ∈ stories ∧ rID r ∈ sRequirementIDs s;
  pr_capabilities : ∀ c, c ∈ capability_names plan → ∃ s, s ∈ stories ∧ c ∈ sCapabilityNames s;
  pr_acyclic : acyclic (story_graph stories);
  pr_race_free : ValidateStoryFileOwnership stories = None }.

Section resolution.
Context (range : nat → gset string → list string) (Hrange : ∀ i X, range i X ≡ₚ elements X).

Lemma resolve_prepared input plan slug stories : resolveStoryLabels range input plan slug = inl stories →
  prepared plan input stories.
Proof.
  unfold resolveStoryLabels. destruct (slug =? ""); [done|]. destruct (assign_ids _ _ _ _ _) as [assigned|] eqn:Ea; [|done].
  apply assign_ids_spec in Ea as [Ha Hnd]. destruct (build_stories plan input assigned) as [built|] eqn:Eb; [|done].
  apply build_stories_spec in Eb as [Hb Hids]; [|eapply Forall2_impl; [exact Ha|by intros ?? [? _]]]. rewrite <- Hids in Hnd.
  destruct (assertFullCoverage built plan) eqn:Ec; [done|]. apply coverage_None in Ec as [Hr Hc].
  destruct (DeriveStoryScheduling range built (pRequirements plan)) as [out [e|]] eqn:Ed; [done|]. intros [= <-].
  destruct (derive_derived range Hrange built (pRequirements plan) out Hnd Ed) as [Hg Hac Hrace _ _].
  assert (∀ s, s ∈ built → ∃ s', s' ∈ out ∧ grows s s') as Hin.
  { intros s Hs. apply list_elem_of_lookup in Hs as [i Hi]. destruct (Forall2_lookup_l _ _ _ _ _ Hg Hi) as (s' & Hi' & ?).
    exists s'. split; [by eapply list_elem_of_lookup_2|done]. }
  assert (NoDup (sID <$> out)) as Hnd' by (by rewrite (grows_IDs built out)). split; [|done| | |done|by apply ValidateStoryFileOwnership_None].
  - clear -Hb Hg. revert out Hg. induction Hb as [|x y l k Hxy _ IH]; intros out Hg; inversion Hg; subst; constructor; [|by apply IH].
    by eapply story_built_grows.
  - intros r Hr'. destruct (Hr r Hr') as (s & Hs & Hrs). destruct (Hin s Hs) as (s' & ? & Hgs). exists s'. by rewrite (grows_reqs _ _ Hgs).
  - intros c Hc'. destruct (Hc c Hc') as (s & Hs & Hcs). destruct (Hin s Hs) as (s' & ? & [E _]).
    exists s'. split; [done|]. apply (f_equal sCapabilityNames) in E. by rewrite E.
Qed.

(** C9: The story preparer turns the agent's positional answer into a
    coherent set of stories: each story takes exactly the requirements and
    capabilities at the indices given, the files of its component and tasks
    that depend on tasks of the same story only; identifiers are distinct,
    every requirement and capability is covered, and the derived schedule is
    acyclic and orders every write conflict. *)
Theorem resolved_stories_sound input plan slug stories :
  resolveStoryLabels range input plan slug = inl stories → prepared plan input stories.
Proof. apply resolve_prepared. Qed.
End resolution.

(** ** Against the plan *)

Lemma component_files_owned plan name files : name ≠ "" → component_files plan !! name = Some files →
  componentFiles plan !! name = Some (list_to_set (NormalizeFilePaths (ExpandFileScopeWithCompanionTests files))).
Proof.
  intros Hn. unfold component_files, componentFiles. destruct (pArchitecture plan) as [arch|]; [|by rewrite lookup_empty].
  rewrite lookup_fmap. unfold components_by_name, map_of.
  induction (adComponentBoundaries arch) as [|c cs IH] using rev_ind; [cbn; by rewrite !lookup_empty|].
  rewrite filter_app, !fmap_app, !foldl_app. rewrite filter_cons. destruct (decide (cdName c ≠ "")) as [Hc|Hc].
  - cbn. destruct (decide (cdName c = name)) as [<-|Hne].
    + rewrite !lookup_insert_eq. cbn. by intros [= <-].
    + rewrite !lookup_insert_ne by done. exact IH.
  - apply dec_stable in Hc. cbn. rewrite lookup_insert_ne; [exact IH|]. by rewrite Hc.
Qed.

Lemma prepared_in_plan plan input stories : prepared plan input stories → ValidateStoriesAgainstPlan (Some plan) stories = None.
Proof.
  intros [Hb _ _ _ _ _]. apply ValidateStoriesAgainstPlan_None. intros s Hs _. apply list_elem_of_lookup in Hs as [i Hi].
  destruct (Forall2_lookup_r _ _ _ _ _ Hb Hi) as (inp & _ & [Hc _ [_ [Hne [files Hf]] _ Hr _] Hfo _ _]). split.
  - intros _ rid Hrid. apply list_elem_of_lookup in Hrid as [j Hj]. destruct (Forall2_lookup_r _ _ _ _ _ Hr Hj) as (idx & _ & _ & H).
    by eapply list_elem_of_lookup_2.
  - intros _ _. rewrite Hc. eexists. split; [by apply component_files_owned|].
    unfold normalized_files. by rewrite Hfo, Hf.
Qed.

(** The late gate is redundant: stories that the preparer resolves never
    fail the cross-entity gate against the plan they were resolved with,
    since requirements, component and files are the system's choice. *)
Theorem resolved_stories_fit_plan range input plan slug stories :
  (∀ i X, range i X ≡ₚ elements X) → resolveStoryLabels range input plan slug = inl stories →
  ValidateStoriesAgainstPlan (Some plan) stories = None.
Proof. intros Hr H. eapply prepared_in_plan. by eapply resolve_prepared. Qed.

(** ** What is published *)

Section component.
Context {S : Type} `{PlanPort S} (E : StoryEnv).

(** Everything but a stories mutation. *)
Definition no_stories (o : gen_output) : Prop := match o with GMutation (MStories _) _ => False | _ => True end.

Lemma no_stories_dispatch plan err findings : gemits no_stories (dispatchStoryPreparer (S := S) E plan err findings).
Proof. unfold dispatchStoryPreparer, sendGenerationFailed. gemits_auto. Qed.

Lemma no_stories_retry slug err : gemits no_stories (retryOrFail (S := S) E slug err).
Proof.
  pose proof no_stories_dispatch. unfold retryOrFail, sendGenerationFailed. gemits_auto.
Qed.

Lemma no_stories_watch plan : gemits no_stories (watch_plan (S := S) E plan).
Proof. unfold watch_plan, claimPreparingStories, gclaim, markClaimedSlug, consumeClaimedSlug, spawn. gemits_auto. Qed.

Lemma no_stories_job i : gemits no_stories (start_job (S := S) E i).
Proof. pose proof no_stories_dispatch. unfold start_job, processStoryPhase. gemits_auto. Qed.

(** What the publication of an answer rests on. *)
Definition published_for (loop : gen_loop) (w : GWorld Plan Plan S) (r : storiesMutationRequest) : Prop :=
  ∃ plan input, (gload (seGen E) (glPlanSlug loop) w).2 = inl plan ∧ EffectiveStatus plan = StatusPreparingStories ∧
    seUnmarshal E (glResult loop) = inl input ∧ prepared plan input (tqStories r) ∧
    ValidateStories (tqStories r) = None ∧ tqSlug r = glPlanSlug loop.

Context (Hrange : ∀ n i X, seRange E n i X ≡ₚ elements X).

Lemma handle_publishes loop w new r a :
  gwOut (handleLoopCompletion (S := S) E loop w).1 = (gwOut w ++ new)%list → GMutation (MStories (Some r)) a ∈ new →
  IsStaleLoop (glPlanSlug loop) (glTaskID loop) (gwRetry w) = false ∧ glOutcome loop = OutcomeSuccess ∧ published_for loop w r.
Proof.
  intros Ho Hin. assert (∀ A (m : G Plan Plan S A) w1, gemits no_stories m → gwOut (m w1).1 = (gwOut w1 ++ new)%list → False) as Hq.
  { intros A m w1 Hm Hw. pose proof (gemits_all _ _ _ _ Hm Hw) as HF. rewrite Forall_forall in HF. by apply (HF _ Hin). }
  unfold handleLoopCompletion in Ho. cbv zeta in Ho. rewrite G_bind_eq in Ho. cbn [gread fst snd] in Ho.
  destruct (IsStaleLoop _ _ _); [by destruct (Hq _ _ _ (gemits_ret _ ()) Ho)|].
  destruct (glOutcome loop !=? OutcomeSuccess) eqn:Eo; [by destruct (Hq _ _ _ (no_stories_retry _ _) Ho)|].
  apply (proj1 (negb_false_iff _)), (proj1 (eqb_true _ _)) in Eo. rewrite G_bind_eq in Ho.
  set (res := gload (seGen E) (glPlanSlug loop) w) in *. assert (gwOut res.1 = gwOut w) as Hl by done. rewrite <- Hl in Ho.
  destruct res.2 as [plan|e] eqn:El; [|by destruct (Hq _ _ _ (no_stories_retry _ _) Ho)].
  destruct (EffectiveStatus plan !=? StatusPreparingStories) eqn:Es; [by destruct (Hq _ _ _ (gemits_retry _ _) Ho)|].
  apply (proj1 (negb_false_iff _)), (proj1 (eqb_true _ _)) in Es. rewrite G_bind_eq in Ho. cbn [gread fst snd] in Ho.
  destruct (parseStoriesFromResult _ _ _ _ _) as [stories|e] eqn:Ep; [|by destruct (Hq _ _ _ (no_stories_retry _ _) Ho)].
  destruct (validateStoriesPrePublish E plan stories) eqn:Ev; [by destruct (Hq _ _ _ (no_stories_retry _ _) Ho)|].
  assert (tqStories r = stories ∧ tqSlug r = glPlanSlug loop) as [Hr Hs].
  { assert (gemits (λ o, match o with GMutation (MStories x) _ => x = Some (MkStoriesReq (glPlanSlug loop) stories
      (Z.of_nat (length stories)) (glTraceID loop)) | _ => True end) (publish_stories (S := S) E (glPlanSlug loop) stories (glTraceID loop))) as Hp.
    { unfold publish_stories, publishStoriesGenerated, sendGenerationFailed. gemits_auto. }
    pose proof (gemits_all _ _ _ _ Hp Ho) as HF. rewrite Forall_forall in HF. by injection (HF _ Hin) as ->. }
  split_and!; [done|done|]. unfold parseStoriesFromResult in Ep. destruct (glResult loop =? ""); [done|].
  destruct (seUnmarshal E (glResult loop)) as [input|] eqn:Eu; [|done]. destruct (is_nil input); [done|].
  exists plan, input. rewrite Hr. split_and!; [done|done|done| | |done].
  - eapply resolve_prepared; [|exact Ep]. intros. apply Hrange.
  - unfold validateStoriesPrePublish in Ev. by destruct (ValidateStories stories).
Qed.

(** C14: The story preparer publishes only checked stories: a stories
    mutation is sent only while handling a finished loop of this session,
    not superseded by a newer dispatch, for a plan that was in
    preparing_stories, and it carries a sound reading of the agent's answer
    that passes [ValidateStories]. *)
Theorem published_stories_checked e w new r a :
  gwOut (story_step E e w).1 = (gwOut w ++ new)%list → GMutation (MStories (Some r)) a ∈ new →
  ∃ loop, e = ELoop loop ∧ glTerminal loop = true ∧ gwReplayDone w = true ∧ (glID loop ∉ gwSeen w) ∧
    IsStaleLoop (glPlanSlug loop) (glTaskID loop) (gwRetry w) = false ∧ glOutcome loop = OutcomeSuccess ∧ published_for loop w r.
Proof.
  intros Ho Hin. assert (∀ A (m : G Plan Plan S A), gemits no_stories m → gwOut (m w).1 = (gwOut w ++ new)%list → False) as Hq.
  { intros A m Hm Hw. pose proof (gemits_all _ _ _ _ Hm Hw) as HF. rewrite Forall_forall in HF. by apply (HF _ Hin). }
  destruct e as [plan|i|loop| | |p]; cbn [story_step] in Ho;
    [by destruct (Hq _ _ (no_stories_watch _) Ho)|by destruct (Hq _ _ (no_stories_job _) Ho)| |
     destruct (Hq _ _ (gemits_modify _ _ (λ _, eq_refl)) Ho)..].
  exists loop. unfold watch_loop, gwatch_loop in Ho. destruct (negb (glTerminal loop) || _ || _ || _) eqn:Eg in Ho.
  { by destruct (Hq _ _ (gemits_ret _ ()) Ho). }
  apply orb_false_iff in Eg as [Eg _]. apply orb_false_iff in Eg as [Eg _]. apply orb_false_iff in Eg as [Et _].
  rewrite G_bind_eq in Ho. cbn [gread fst snd] in Ho. destruct (negb (gwReplayDone w) || _) eqn:Er in Ho.
  { by destruct (Hq _ _ (gemits_ret _ ()) Ho). }
  apply orb_false_iff in Er as [Er Es]. rewrite G_bind_eq in Ho. cbn [gmodify fst snd] in Ho.
  destruct (handle_publishes loop _ new r a Ho Hin) as (H1 & H2 & H3).
  apply negb_false_iff in Et, Er. apply bool_decide_eq_false in Es. by split_and!.
Qed.
End component.

(** ** Nothing is lost *)

Section liveness.
Context {S : Type} `{PlanPort S} (E : StoryEnv).
Context (renders : ∀ n plan err findings, is_Some (sePrompt E n plan err findings)).
Context (running : ∀ n, gioCancelled (geIO (seGen E) n) = false).

Lemma dispatch_responds plan err findings : gresponds (dispatchStoryPreparer (S := S) E plan err findings).
Proof.
  unfold dispatchStoryPreparer. cbv zeta. apply gresponds_r; [apply gemits_tick|intros io].
  apply gresponds_r; [apply gemits_retry|intros _]. apply gresponds_r; [apply gemits_read|intros w].
  destruct (renders (gwTick w) plan err findings) as [p ->]. apply gresponds_publish. intros e. apply gresponds_failed.
Qed.

Lemma retry_responds slug err : gresponds (retryOrFail (S := S) E slug err).
Proof.
  unfold retryOrFail. cbv zeta. apply gresponds_r; [apply gemits_read|intros w]. apply gresponds_r.
  { destruct (Snapshot slug (gwRetry w)); gemits_auto. }
  intros [|]; cbn [negb]; [|apply gresponds_failed].
  apply gresponds_tick_or_fail; [done|apply gresponds_failed|intros p; apply dispatch_responds].
Qed.

(** A finished loop always has a consequence: while the component runs
    and prompts render, the end of the loop that is under way for a plan
    leads to a message to the plan manager or to a new attempt, unless the
    plan has left preparing_stories, and then its bookkeeping is cleared. *)
Theorem story_loop_concluded loop w :
  glTerminal loop = true → glWorkflowSlug loop = "semspec-planning" → glWorkflowStep loop = "story-preparation" →
  glPlanSlug loop ≠ "" → gwReplayDone w = true → (glID loop ∉ gwSeen w) →
  IsStaleLoop (glPlanSlug loop) (glTaskID loop) (gwRetry w) = false →
  let w' := (watch_loop (S := S) E loop w).1 in
  (∃ plan, (gload (seGen E) (glPlanSlug loop) w).2 = inl plan ∧ EffectiveStatus plan ≠ StatusPreparingStories ∧
     gwOut w' = gwOut w ∧ gwRetry w' !! glPlanSlug loop = None) ∨
  ∃ new, gwOut w' = (gwOut w ++ new)%list ∧ new ≠ [].
Proof.
  intros Ht Hw Hs Hp Hr Hn Hst. cbv zeta. unfold watch_loop. rewrite gwatch_live; [|done..|by apply negb_true_iff, eqb_false].
  set (w1 := set_gwSeen _ w). unfold handleLoopCompletion. cbv zeta. rewrite G_bind_eq. cbn [gread fst snd].
  change (gwRetry w1) with (gwRetry w). rewrite Hst. change (gwOut w) with (gwOut w1).
  destruct (glOutcome loop !=? OutcomeSuccess); [right; apply retry_responds|]. rewrite G_bind_eq.
  change ((gload (seGen E) (glPlanSlug loop) w).2) with ((gload (J := Plan) (P := Plan) (seGen E) (glPlanSlug loop) w1).2).
  set (res := gload (seGen E) (glPlanSlug loop) w1). change (gwOut w1) with (gwOut res.1).
  destruct res.2 as [plan|e] eqn:El; [|right; apply retry_responds].
  destruct (EffectiveStatus plan !=? StatusPreparingStories) eqn:Es.
  { left. exists plan. apply neqb_true in Es. split_and!; [done|done|done|]. apply lookup_delete_eq. }
  right. rewrite G_bind_eq. cbn [gread fst snd].
  destruct (parseStoriesFromResult _ _ _ _ _) as [stories|e]; [|apply retry_responds].
  destruct (validateStoriesPrePublish E plan stories); [apply retry_responds|].
  unfold publish_stories, publishStoriesGenerated. apply gresponds_l.
  - apply gresponds_l; [apply gresponds_request|intros a; apply gemits_ret].
  - intros err. unfold sendGenerationFailed. gemits_auto.
Qed.
End liveness.

(** ** Claims *)

(** Every update of a plan that is being prepared starts another preparation
    unless it is the echo of the component's own claim, and each supersedes
    the one before it without counting as a retry. *)
Theorem every_update_dispatches {S} `{PlanPort S} (E : StoryEnv) plan (w : GWorld Plan Plan S) n :
  pStatus plan = StatusPreparingStories → (pSlug plan ∉ gwClaimed w) →
  gwJobs (run_stories E (replicate n (EPlan plan)) w).1 = (gwJobs w ++ replicate n plan)%list ∧
  gwClaimed (run_stories E (replicate n (EPlan plan)) w).1 = gwClaimed w.
Proof.
  intros Hp. revert w. induction n as [|n IH]; intros w Hc; [cbn; by rewrite app_nil_r|].
  cbn [replicate run_stories]. rewrite G_bind_eq.
  assert ((story_step E (EPlan plan) w).1 = set_gwJobs (gwJobs w ++ [plan])%list w) as Hs.
  { cbn [story_step]. unfold watch_plan. rewrite Hp. cbv zeta. rewrite G_bind_eq. unfold consumeClaimedSlug. rewrite !G_bind_eq. cbn [gread fst snd].
    by rewrite bool_decide_false. }
  rewrite Hs. destruct (IH (set_gwJobs (gwJobs w ++ [plan])%list w) Hc) as [-> ->]. split; [|done].
  cbn [gwJobs set_gwJobs]. by rewrite <- app_assoc.
Qed.
