(* ===== verification/ScenarioGen.v ===== *)
(** * The scenario generator

    processor/scenario-generator: the classifier of test tiers
    (classifier.go), the requests per story or per requirement and their
    dispatch (plan_watcher.go, component.go), the parsing of the agent's
    answer with identifiers and harness bindings that the system owns
    (component.go, denormalize.go), the completion and the retries.

    The goroutine of a claimed plan sends its requests one after the other,
    and each is one step here.  An error of the parser is a value of
    [scenario_error]; its text is a parameter, as are JSON, the prompt, the
    rendering of the architecture, the loading of the harness catalogue and
    the order in which Go ranges over a profile's environment. *)

From Stdlib Require Import Ascii.
From stdpp Require Import pretty.
From S2P Require Import Prelude Status Paths Types Stories PlanStore Mutations PlanRules DispatchRetry.
From S2P Require Import Feedback PlanReviewer Generators.

Local Open Scope string_scope.
Local Open Scope go_scope.

(** ** Tiers *)

Record TierEmission := MkTierEmission { teTier : string; teHarnessProfileIDs : list string }.
Record RequiredTier := MkRequiredTier { rtTag : string; rtHarnessProfileIDs : list string }.

(** The testcontainers profiles the architecture selects, each once. *)
Definition select_profile (cat : gmap string Profile) (ids : list string) (sel : HarnessProfileSelection) : list string :=
  let id := hpsProfileID sel in
  if bool_decide (id ∈ ids) then ids else
  match cat !! id with
  | None => ids
  | Some profile => if EffectiveOrchestration profile =? OrchestrationTestcontainers then (ids ++ [id])%list else ids
  end.

Definition integrationEmissions (arch : option ArchitectureDocument) (cat : gmap string Profile) : list TierEmission :=
  match arch with
  | None => []
  | Some arch => (λ id, MkTierEmission "@integration" [id]) <$> foldl (select_profile cat) [] (adHarnessProfiles arch)
  end.

(** Only the first capability of that name counts. *)
Definition capabilityHasSurface (name : string) (caps : list Capability) (target : CapabilitySurface) : bool :=
  if name =? "" then false else
  match head (filter (λ c, capName c = name) caps) with
  | None => false
  | Some c => bool_decide (target ∈ capSurfaces c)
  end.

Definition Classify (req : Requirement) (caps : list Capability) (arch : option ArchitectureDocument)
    (cat : gmap string Profile) : list TierEmission :=
  ([MkTierEmission "@unit" []] ++ integrationEmissions arch cat ++
   (if capabilityHasSurface (rCapabilityName req) caps SurfaceUI then [MkTierEmission "@e2e" []] else []))%list.

Definition emissionsToWireTiers (es : list TierEmission) : list RequiredTier :=
  (λ e, MkRequiredTier (teTier e) (teHarnessProfileIDs e)) <$> es.

(** ** Requests *)

Record ScenarioGeneratorRequest := MkScenarioRequest {
  sgSlug : string;
  sgRequirementID : string;
  sgRequirementTitle : string;
  sgRequirementDescription : string;
  sgPlanGoal : string;
  sgPlanContext : string;
  sgArchitectureContext : string;
  sgRequiredTiers : list RequiredTier;
  sgStoryID : string;
  sgStoryTitle : string;
  sgStoryIntent : string;
  sgStoryFilesOwned : list string;
  sgStoryComponentName : string }.

Record scenarioRetryPayload := MkScenarioPayload { spReq : ScenarioGeneratorRequest; spReviewFindings : string }.

Definition buildStoryScopedRequest (plan : Plan) (req : Requirement) (story : Story) (required : list RequiredTier)
    (archContext : string) : ScenarioGeneratorRequest :=
  MkScenarioRequest (pSlug plan) (rID req) (rTitle req) (rDescription req) (pGoal plan) (pContext plan) archContext required
    (sID story) (sTitle story) (sIntent story) (sFilesOwned story) (sComponentName story).

Definition buildRequirementScopedRequest (plan : Plan) (req : Requirement) (required : list RequiredTier)
    (archContext : string) : ScenarioGeneratorRequest :=
  MkScenarioRequest (pSlug plan) (rID req) (rTitle req) (rDescription req) (pGoal plan) (pContext plan) archContext required
    "" "" "" [] "".

(** Empty when nothing restricts the requirements. *)
Definition scenarioGenerationRequirementScope (plan : Plan) : gset string :=
  match pPendingArchitectureRevision plan with
  | None => ∅
  | Some scope => list_to_set (filter (λ id, id ≠ "") (arsRequirementIDs scope))
  end.

Definition retryKey (slug requirementID storyID : string) : string :=
  if storyID !=? "" then slug +:+ "/" +:+ storyID +:+ "/" +:+ requirementID else slug +:+ "/" +:+ requirementID.

(** The requests of one requirement. *)
Definition requirement_requests (archContext : ArchitectureDocument → string) (catalog : gmap string Profile)
    (plan : Plan) (req : Requirement) : list ScenarioGeneratorRequest :=
  let caps := match pExploration plan with Some e => exCapabilities e | None => [] end in
  let required := emissionsToWireTiers (Classify req caps (pArchitecture plan) catalog) in
  let context := default "" (archContext <$> pArchitecture plan) in
  let stories := StoriesForRequirement plan (rID req) in
  if is_nil stories then [buildRequirementScopedRequest plan req required context]
  else (λ story, buildStoryScopedRequest plan req story required context) <$> stories.

(** [generateScenariosFromKV]: the requests of a plan. *)
Definition plan_requests (archContext : ArchitectureDocument → string) (catalog : gmap string Profile)
    (plan : Plan) : list ScenarioGeneratorRequest :=
  let target := scenarioGenerationRequirementScope plan in
  filter (λ req, target = ∅ ∨ rID req ∈ target) (pRequirements plan) ≫= requirement_requests archContext catalog plan.

(** ** The agent's answer *)

Record llmScenario := MkLlmScenario {
  llTitle : string;
  llGiven : string;
  llWhen : string;
  llThen : list string;
  llTags : list string;
  llHarnessProfileIDs : list string }.

Inductive scenario_error :=
| EmptyScenarioResult
| NoScenarioJSON
| BadScenarioJSON (e content : string)
| NoScenarios
| MissingGiven (i : nat)
| MissingWhen (i : nat)
| MissingThen (i : nat)
| HarnessEnvConflict (i : nat) (key scenario existing profile value : string)
| BadScenarioTags (i : nat) (e : tag_error).

Definition requirementSequence (requirementID : string) : string := default "" (last (split_on "." requirementID)).
Definition storySequence (storyID : string) : string :=
  if storyID =? "" then "" else default "" (last (split_on "." storyID)).

Definition scenarioIDFor (slug reqSeq storySeq : string) (index : nat) : string :=
  if storySeq =? "" then "scenario." +:+ slug +:+ "." +:+ reqSeq +:+ "." +:+ pretty index
  else "scenario." +:+ slug +:+ "." +:+ reqSeq +:+ "." +:+ storySeq +:+ "." +:+ pretty index.

Definition canon_by_tag (tiers : list RequiredTier) (tag : string) : list string :=
  t ← tiers; if rtTag t =? tag then rtHarnessProfileIDs t else [].

(** Each identifier once, in the order of the tags. *)
Definition canonicalHarnessIDs (tags : list string) (canonByTag : string → list string) : list string :=
  foldl appendUnique [] (tags ≫= canonByTag).

Section denormalize.
Context (catalog : option (gmap string Profile)) (order : gset string → list string).

Fixpoint merge_env (i : nat) (scenario profile : string) (env : gmap string string) (keys : list string)
    (acc : gmap string string) : gmap string string + scenario_error :=
  match keys with
  | [] => inl acc
  | k :: keys =>
      let v := default "" (env !! k) in
      match acc !! k with
      | Some existing =>
          if existing !=? v then inr (HarnessEnvConflict i k scenario existing profile v)
          else merge_env i scenario profile env keys (<[k := v]> acc)
      | None => merge_env i scenario profile env keys (<[k := v]> acc)
      end
  end.

(** [denormalizeHarnessProfileData]: the environment and the assertions of
    the profiles bound to scenario [i]. *)
Fixpoint denormalize_profiles (cat : gmap string Profile) (i : nat) (scenario : string) (ids : list string)
    (env : gmap string string) (assertions : list string) : (gmap string string * list string) + scenario_error :=
  match ids with
  | [] => inl (env, assertions)
  | id :: ids =>
      match cat !! id with
      | None => denormalize_profiles cat i scenario ids env assertions
      | Some profile =>
          match merge_env i scenario id (hpEnv profile) (order (dom (hpEnv profile))) env with
          | inr e => inr e
          | inl env => denormalize_profiles cat i scenario ids env (foldl appendUnique assertions (hpRequiredAssertions profile))
          end
      end
  end.

Definition denormalizeHarnessProfileData (i : nat) (s : Scenario) : Scenario + scenario_error :=
  match catalog with
  | None => inl s
  | Some cat =>
      match denormalize_profiles cat i (scID s) (scHarnessProfileIDs s) (scEnv s) (scRequiredAssertions s) with
      | inr e => inr e
      | inl (env, assertions) =>
          inl (MkScenario (scID s) (scRequirementID s) (scStoryID s) (scTitle s) (scGiven s) (scWhen s) (scThen s) (scStatus s)
                 (scTags s) (scHarnessProfileIDs s) env assertions (scCreatedAt s) (scUpdatedAt s))
      end
  end.

(** Scenario [i], counted from 1. *)
Definition build_scenario (now : Z) (slug requirementID storySeq : string) (tiers : list RequiredTier) (i : nat)
    (s : llmScenario) : Scenario + scenario_error :=
  if llGiven s =? "" then inr (MissingGiven i)
  else if llWhen s =? "" then inr (MissingWhen i)
  else if is_nil (llThen s) then inr (MissingThen i)
  else
    match denormalizeHarnessProfileData i
            (MkScenario (scenarioIDFor slug (requirementSequence requirementID) storySeq i) requirementID "" (llTitle s)
               (llGiven s) (llWhen s) (llThen s) ScenarioStatusPending (llTags s)
               (canonicalHarnessIDs (llTags s) (canon_by_tag tiers)) ∅ [] now now) with
    | inr e => inr e
    | inl scenario =>
        match ValidateScenarioTags scenario with
        | Some e => inr (BadScenarioTags i e)
        | None => inl scenario
        end
    end.

Fixpoint build_scenarios (now : Z) (slug requirementID storySeq : string) (tiers : list RequiredTier) (i : nat)
    (raw : list llmScenario) : list Scenario + scenario_error :=
  match raw with
  | [] => inl []
  | s :: raw =>
      match build_scenario now slug requirementID storySeq tiers i s with
      | inr e => inr e
      | inl scenario =>
          match build_scenarios now slug requirementID storySeq tiers (S i) raw with
          | inr e => inr e
          | inl out => inl (scenario :: out)
          end
      end
  end.

(** [json.Unmarshal] into an array, and into the object that wraps one. *)
Context (unmarshal : string → list llmScenario + string) (unwrap : string → option (list llmScenario)).

Definition read_scenarios (content : string) : list llmScenario + scenario_error :=
  match unmarshal content with
  | inl raw => inl raw
  | inr e =>
      match unwrap content with
      | Some (x :: raw) => inl (x :: raw)
      | _ => inr (BadScenarioJSON e (String.substring 0 200 content))
      end
  end.

Definition parseScenariosFromResult (now : Z) (result slug requirementID storyID : string) (tiers : list RequiredTier) :
    list Scenario + scenario_error :=
  if result =? "" then inr EmptyScenarioResult else
  let content := if extractJSONArray result =? "" then extractJSONObject result else extractJSONArray result in
  if content =? "" then inr NoScenarioJSON else
  match read_scenarios content with
  | inr e => inr e
  | inl raw =>
      if is_nil raw then inr NoScenarios
      else build_scenarios now slug requirementID (storySequence storyID) tiers 1 raw
  end.
End denormalize.

Definition attachStoryIDs (scenarios : list Scenario) (plan : Plan) (requirementID : string) : list Scenario :=
  match StoriesForRequirement plan requirementID with
  | [] => scenarios
  | story :: _ => set_scStoryID (sID story) <$> scenarios
  end.

(** ** The component *)

Record ScenarioEnv := MkScenarioEnv {
  ceGen : GenEnv;
  ceCatalog : option (gmap string Profile);
  ceLoadCatalog : nat → option (gmap string Profile);
  ceOrder : gset string → list string;
  ceUnmarshal : string → list llmScenario + string;
  ceUnwrap : string → option (list llmScenario);
  ceText : scenario_error → string;
  ceArchContext : ArchitectureDocument → string;
  cePrompt : nat → ScenarioGeneratorRequest → string → string → option Plan → option string }.

(** A claimed plan, or the requests that are left with the review findings. *)
Inductive scenario_job :=
| JobStart (plan : Plan)
| JobRest (requests : list ScenarioGeneratorRequest) (findings : string).

Section generator.
Context {S : Type} `{PlanPort S} (E : ScenarioEnv).
Let E' := ceGen E.
Local Abbreviation SG := (G scenario_job scenarioRetryPayload S).

Definition sendGenerationFailed (slug feedback : string) : SG () := gfailed E' "scenario-generation" slug feedback.

Definition request_key (req : ScenarioGeneratorRequest) : string :=
  retryKey (sgSlug req) (sgRequirementID req) (sgStoryID req).

(** A prompt that cannot be rendered ends the dispatch. *)
Definition dispatchScenarioGenerator (req : ScenarioGeneratorRequest) (previousError reviewFindings : string) : SG () :=
  io ← gtick E';
  let segment := if sgStoryID req !=? "" then sgStoryID req else sgRequirementID req in
  let taskID := "scengen-" +:+ sgSlug req +:+ "-" +:+ segment +:+ "-" +:+ gioUUID io in
  gretry (SetActiveLoop (request_key req) taskID);;
  loaded ← gload E' (sgSlug req);
  let plan := match loaded with inl plan => Some plan | inr _ => None end in
  w ← gread;
  match cePrompt E (gwTick w) req previousError reviewFindings plan with
  | None => mret ()
  | Some prompt =>
      gpublish E' (MkGenTask taskID (sgSlug req) (sgRequirementID req) (sgStoryID req) prompt)
        (λ e, sendGenerationFailed (sgSlug req)
                ("scenario dispatch failed for requirement " +:+ sgRequirementID req +:+ ": " +:+ e))
  end.

(** [dispatchPerStory] and [dispatchPerRequirementLegacy]. *)
Definition dispatch_request (req : ScenarioGeneratorRequest) (findings : string) : SG () :=
  gretry (λ s, (Track (request_key req) (MkScenarioPayload req findings) s).1);;
  dispatchScenarioGenerator req "" findings.

(** Without an entry the request cannot be rebuilt. *)
Definition retryOrFail (slug requirementID storyID errorMsg : string) : SG () :=
  let key := retryKey slug requirementID storyID in
  w ← gread;
  match Snapshot key (gwRetry w) with
  | None => sendGenerationFailed slug errorMsg
  | Some _ =>
      tick_or_fail E' key (sendGenerationFailed slug errorMsg)
        (λ p, dispatchScenarioGenerator (spReq p) errorMsg (spReviewFindings p))
  end.

(** [publishResults]: the text of the error. *)
Definition publishResults (slug requirementID storyID : string) (scenarios : list Scenario) : SG (option string) :=
  io ← gtick E';
  if gioCancelled io then mret (Some "context cancelled: context canceled") else
  a ← grequest E' (MScenarios (Some (MkScenariosReq slug requirementID storyID scenarios "")));
  mret (match a with
        | NoAnswer e => Some ("scenarios mutation request: " +:+ e)
        | Answered true _ => None
        | Answered false e =>
            Some ("scenarios mutation failed: " +:+ (if e !=? "" then e else "unknown error"))
        end).

(** The story of a batch: the one it was dispatched for, or else the first
    of the requirement. *)
Definition attach_story (storyID requirementID : string) (plan : option Plan) (scenarios : list Scenario) : list Scenario :=
  if storyID !=? "" then set_scStoryID storyID <$> scenarios else
  match plan with
  | Some plan => if is_nil (pStories plan) then scenarios else attachStoryIDs scenarios plan requirementID
  | None => scenarios
  end.

Definition publish_scenarios (slug requirementID storyID : string) (scenarios : list Scenario) : SG () :=
  let key := retryKey slug requirementID storyID in
  err ← publishResults slug requirementID storyID scenarios;
  match err with
  | None => gretry (Clear key)
  | Some e =>
      if Contains e "invalid transition" then gretry (Clear key)
      else sendGenerationFailed slug ("scenario mutation publish failed for requirement " +:+ requirementID +:+ ": " +:+ e)
  end.

(** The tiers of the dispatch, as far as it is remembered. *)
Definition tracked_tiers (key : string) (s : gmap string (Entry scenarioRetryPayload)) : list RequiredTier :=
  match Snapshot key s with Some entry => sgRequiredTiers (spReq (enPayload entry)) | None => [] end.

Definition handleLoopCompletion (loop : gen_loop) : SG () :=
  let slug := glPlanSlug loop in
  let requirementID := glRequirementID loop in
  let storyID := glStoryID loop in
  let key := retryKey slug requirementID storyID in
  w ← gread;
  if IsStaleLoop key (glTaskID loop) (gwRetry w) then mret () else
  if glOutcome loop !=? OutcomeSuccess then retryOrFail slug requirementID storyID (gloop_error E' loop) else
  io ← gtick E';
  match parseScenariosFromResult (ceCatalog E) (ceOrder E) (ceUnmarshal E) (ceUnwrap E) (gioNow io) (glResult loop)
          slug requirementID storyID (tracked_tiers key (gwRetry w)) with
  | inr e => retryOrFail slug requirementID storyID ("failed to parse scenarios: " +:+ ceText E e)
  | inl scenarios =>
      loaded ← gload E' slug;
      let plan := match loaded with inl plan => Some plan | inr _ => None end in
      if match plan with Some plan => EffectiveStatus plan !=? StatusGeneratingScenarios | None => false end
      then gretry (Clear key)
      else publish_scenarios slug requirementID storyID (attach_story storyID requirementID plan scenarios)
  end.

Definition watch_loop (loop : gen_loop) : SG () :=
  gwatch_loop "scenario-generation" (λ loop, (glPlanSlug loop !=? "") && (glRequirementID loop !=? ""))
    handleLoopCompletion loop.

(** ** Plans *)

(** One entry of PLAN_STATES. *)
Definition watch_plan (plan : Plan) : SG () :=
  match pStatus plan with
  | StatusStoriesGenerated =>
      if is_nil (pRequirements plan) then mret () else
      claimed ← gclaim E' (pSlug plan) StatusGeneratingScenarios;
      if negb claimed then mret () else gmodify (λ w, set_gwJobs (gwJobs w ++ [JobStart plan])%list w)
  | _ => mret ()
  end.

(** A goroutine goes on: it loads the catalogue, then sends its requests. *)
Definition run_job (i : nat) : SG () :=
  w ← gread;
  match gwJobs w !! i with
  | None => mret ()
  | Some (JobStart plan) =>
      gtick E';;
      let catalog := default ∅ (ceLoadCatalog E (gwTick w)) in
      gmodify (λ w, set_gwJobs (<[i := JobRest (plan_requests (ceArchContext E) catalog plan)
                                            (pReviewFormattedFindings plan)]> (gwJobs w)) w)
  | Some (JobRest [] _) => gmodify (λ w, set_gwJobs (delete i (gwJobs w)) w)
  | Some (JobRest (req :: reqs) findings) =>
      gmodify (λ w, set_gwJobs (<[i := JobRest reqs findings]> (gwJobs w)) w);;
      dispatch_request req findings
  end.

(** ** Runs *)

Inductive scenario_event :=
| CPlan (plan : Plan)
| CRun (i : nat)
| CLoop (loop : gen_loop)
| CReplayDone
| CRestart
| CElsewhere (p : S).

Definition scenario_step (e : scenario_event) : SG () :=
  match e with
  | CPlan plan => watch_plan plan
  | CRun i => run_job i
  | CLoop loop => watch_loop loop
  | CReplayDone => gmodify (set_gwReplayDone true)
  | CRestart => grestart
  | CElsewhere p => gmodify (set_gwPort p)
  end.

Fixpoint run_scenarios (es : list scenario_event) : SG () :=
  match es with [] => mret () | e :: es => scenario_step e;; run_scenarios es end.
End generator.
