(* ===== verification/ScenarioGenFacts.v ===== *)
(** * What the scenario generator guarantees

    Batches are well formed and pass the plan reviewer's hard rules on tiers
    and harness profiles; each request is kept under a key of its own; a
    finished loop is always acted on.  And where it goes wrong: identifiers
    of scenarios that collide, and bindings that a restart loses. *)

From Stdlib Require Import Ascii.
From stdpp Require Import pretty.
From S2P Require Import Prelude Graphs Status Paths Types Stories Scheduling PlanStore Reviews Mutations RuleFindings PlanRules PlanRuleFacts.
From S2P Require Import DispatchRetry Feedback PlanReviewer Generators StoryPrep StoryPrepFacts ScenarioGen.

Local Open Scope string_scope.
Local Open Scope go_scope.

(** ** Lists without repetition *)

Lemma elem_of_foldl_unique x l acc : x ∈ foldl appendUnique acc l ↔ x ∈ acc ∨ x ∈ l.
Proof.
  revert acc. induction l as [|y l IH]; intros acc; cbn [foldl]; [set_solver|]. rewrite IH, elem_of_appendUnique. set_solver.
Qed.

Lemma elem_of_canonical x tags f : x ∈ canonicalHarnessIDs tags f ↔ ∃ t, t ∈ tags ∧ x ∈ f t.
Proof. unfold canonicalHarnessIDs. rewrite elem_of_foldl_unique, list_elem_of_bind. set_solver. Qed.

Lemma elem_of_canon_by_tag x tiers tag : x ∈ canon_by_tag tiers tag ↔ ∃ t, t ∈ tiers ∧ rtTag t = tag ∧ x ∈ rtHarnessProfileIDs t.
Proof.
  unfold canon_by_tag. rewrite list_elem_of_bind. split.
  - intros (t & Hx & Ht). destruct (rtTag t =? tag) eqn:E; [|set_solver]. apply (proj1 (eqb_true _ _)) in E. by exists t.
  - intros (t & Ht & <- & Hx). exists t. rewrite eqb_refl. done.
Qed.

(** ** Denormalization *)

Section batch.
Context (catalog : option (gmap string Profile)) (order : gset string → list string).

(** A scenario as the generator makes it of one of the agent's. *)
Record scenario_built (now : Z) (slug requirementID storySeq : string) (tiers : list RequiredTier) (i : nat) (x : llmScenario)
    (s : Scenario) : Prop := {
  cb_id : scID s = scenarioIDFor slug (requirementSequence requirementID) storySeq i;
  cb_req : scRequirementID s = requirementID;
  cb_status : scStatus s = ScenarioStatusPending;
  cb_text : scTitle s = llTitle x ∧ scGiven s = llGiven x ∧ scWhen s = llWhen x ∧ scThen s = llThen x ∧ scTags s = llTags x;
  cb_nonempty : scGiven s ≠ "" ∧ scWhen s ≠ "" ∧ scThen s ≠ [];
  cb_harness : scHarnessProfileIDs s = canonicalHarnessIDs (llTags x) (canon_by_tag tiers);
  cb_tags : scenario_tags_ok s }.

Lemma build_scenario_spec now slug requirementID storySeq tiers i x s :
  build_scenario catalog order now slug requirementID storySeq tiers i x = inl s →
  scenario_built now slug requirementID storySeq tiers i x s.
Proof.
  unfold build_scenario. destruct (llGiven x =? "") eqn:Eg; [done|]. destruct (llWhen x =? "") eqn:Ew; [done|].
  destruct (is_nil (llThen x)) eqn:Et; [done|]. set (s0 := MkScenario _ _ _ _ _ _ _ _ _ _ _ _ _ _).
  destruct (denormalizeHarnessProfileData catalog order i s0) as [s1|] eqn:Ed; [|done].
  destruct (ValidateScenarioTags s1) eqn:Ev; [done|]. intros [= <-]. apply ValidateScenarioTags_None in Ev.
  apply eqb_false in Eg, Ew. apply is_nil_false in Et.
  assert (scID s1 = scID s0 ∧ scRequirementID s1 = scRequirementID s0 ∧ scStatus s1 = scStatus s0 ∧ scTitle s1 = scTitle s0 ∧
    scGiven s1 = scGiven s0 ∧ scWhen s1 = scWhen s0 ∧ scThen s1 = scThen s0 ∧ scTags s1 = scTags s0 ∧
    scHarnessProfileIDs s1 = scHarnessProfileIDs s0) as (H1 & H2 & H3 & H4 & H5 & H6 & H7 & H8 & H9).
  { unfold denormalizeHarnessProfileData in Ed. destruct catalog; [|by injection Ed as <-].
    destruct (denormalize_profiles _ _ _ _ _ _ _) as [[env asserts]|]; [|done]. by injection Ed as <-. }
  split; [done|done|done| |..]; [by split_and!|by rewrite H5, H6, H7|done|done].
Qed.

Lemma build_scenarios_spec now slug requirementID storySeq tiers i raw out :
  build_scenarios catalog order now slug requirementID storySeq tiers i raw = inl out →
  length out = length raw ∧ ∀ k x s, raw !! k = Some x → out !! k = Some s →
    scenario_built now slug requirementID storySeq tiers (i + k) x s.
Proof.
  revert i out. induction raw as [|x raw IH]; intros i out; cbn [build_scenarios]; [by intros [= <-]|].
  destruct (build_scenario _ _ _ _ _ _ _ _ _) as [s|] eqn:Es; [|done].
  destruct (build_scenarios _ _ _ _ _ _ _ _ _) as [rest|] eqn:Er; [|done]. intros [= <-]. apply build_scenario_spec in Es.
  apply IH in Er as [Hlen Hall]. split; [cbn; by rewrite Hlen|]. intros [|k] y t H1 H2.
  - injection H1 as <-. injection H2 as <-. by rewrite Nat.add_0_r.
  - rewrite Nat.add_succ_r. by apply (Hall k).
Qed.

Lemma scenarioIDFor_inj slug reqSeq storySeq i j : scenarioIDFor slug reqSeq storySeq i = scenarioIDFor slug reqSeq storySeq j → i = j.
Proof.
  unfold scenarioIDFor. destruct (storySeq =? ""); intros H; repeat apply (inj (String.append _)) in H; by apply (inj pretty) in H.
Qed.

Context (unmarshal : string → list llmScenario + string) (unwrap : string → option (list llmScenario)).

(** A batch: scenarios of one requirement, in the agent's order, each with
    an identifier of its own. *)
Record batch_ok (now : Z) (slug requirementID storyID : string) (tiers : list RequiredTier) (raw : list llmScenario)
    (batch : list Scenario) : Prop := {
  bo_some : batch ≠ [];
  bo_len : length batch = length raw;
  bo_each : ∀ k x s, raw !! k = Some x → batch !! k = Some s →
    scenario_built now slug requirementID (storySequence storyID) tiers (S k) x s;
  bo_ids : NoDup (scID <$> batch) }.

Lemma parse_batch now result slug requirementID storyID tiers batch :
  parseScenariosFromResult catalog order unmarshal unwrap now result slug requirementID storyID tiers = inl batch →
  ∃ raw, batch_ok now slug requirementID storyID tiers raw batch.
Proof.
  unfold parseScenariosFromResult. destruct (result =? ""); [done|]. cbv zeta. destruct (_ =? ""); [done|].
  destruct (read_scenarios _ _ _) as [raw|]; [|done]. destruct (is_nil raw) eqn:En; [done|]. apply is_nil_false in En.
  intros [Hlen Hall]%build_scenarios_spec. exists raw. split; [by intros ->; destruct raw|done|exact Hall|].
  apply NoDup_alt. intros i j x Hi Hj. rewrite list_lookup_fmap in Hi, Hj.
  destruct (batch !! i) as [a|] eqn:Ea; [|done]. destruct (batch !! j) as [b|] eqn:Eb; [|done]. injection Hi as <-. injection Hj as Hj.
  assert (∀ k s, batch !! k = Some s → scID s = scenarioIDFor slug (requirementSequence requirementID) (storySequence storyID) (S k)) as Hid.
  { intros k s Hk. destruct (raw !! k) as [y|] eqn:Ey; [by apply (Hall k y s)|]. apply lookup_ge_None in Ey. apply lookup_lt_Some in Hk. lia. }
  rewrite (Hid i a Ea), (Hid j b Eb) in Hj. apply scenarioIDFor_inj in Hj. lia.
Qed.

Lemma batch_elem now slug requirementID storyID tiers raw batch s : batch_ok now slug requirementID storyID tiers raw batch → s ∈ batch →
  ∃ i x, scenario_built now slug requirementID (storySequence storyID) tiers i x s.
Proof.
  intros [_ Hlen Hall _] Hs. apply list_elem_of_lookup in Hs as [k Hk]. destruct (raw !! k) as [x|] eqn:Ex; [by eauto|].
  apply lookup_ge_None in Ex. apply lookup_lt_Some in Hk. lia.
Qed.
End batch.

(** ** The classifier and the reviewer *)

Lemma select_is_class cat sels ids st : st.1 = ids →
  (∀ id, id ∈ st.2 → ∃ p, cat !! id = Some p ∧ EffectiveOrchestration p = OrchestrationServices) →
  foldl (select_profile cat) ids sels = (foldl (classify_profile cat) st sels).1.
Proof.
  revert ids st. induction sels as [|sel sels IH]; intros ids st <- Hs; [done|]. cbn [foldl].
  assert (classify_profile cat st sel = (select_profile cat st.1 sel, (classify_profile cat st sel).2) ∧
    ∀ id, id ∈ (classify_profile cat st sel).2 → ∃ p, cat !! id = Some p ∧ EffectiveOrchestration p = OrchestrationServices) as [H1 H2].
  { unfold classify_profile, select_profile. set (id := hpsProfileID sel). destruct st as [a b]. cbn [fst snd] in *.
    destruct (bool_decide_reflect (id ∈ a)) as [Ha|Ha]; cbn [orb]; [done|].
    destruct (bool_decide_reflect (id ∈ b)) as [Hb|Hb].
    - destruct (Hs id Hb) as (p & -> & ->). done.
    - destruct (cat !! id) as [p|] eqn:Ep; [|done]. cbv zeta. destruct (EffectiveOrchestration p =? OrchestrationTestcontainers); [done|].
      destruct (EffectiveOrchestration p =? OrchestrationServices) eqn:Eo; [|done]. split; [done|]. cbn [snd].
      apply (proj1 (eqb_true _ _)) in Eo. intros id' [Hi| ->%list_elem_of_singleton]%elem_of_app; [by apply Hs|eauto]. }
  apply IH; [by rewrite H1|exact H2].
Qed.

Lemma emissions_are_class arch cat :
  integrationEmissions (Some arch) cat = (λ id, MkTierEmission "@integration" [id]) <$> (integrationProfileIDsByClass arch cat).1.
Proof. unfold integrationEmissions, integrationProfileIDsByClass. f_equal. by apply select_is_class; [|set_solver]. Qed.

Lemma class_in_catalog arch cat id : id ∈ (integrationProfileIDsByClass arch cat).1 → id ∈ dom cat.
Proof.
  unfold integrationProfileIDsByClass. cut (∀ sels st, (∀ id, id ∈ st.1 → id ∈ dom cat) →
    ∀ id, id ∈ (foldl (classify_profile cat) st sels).1 → id ∈ dom cat).
  { intros H. apply (H _ ([], [])). set_solver. }
  induction sels as [|sel sels IH]; intros st Hst; [done|]. apply IH. unfold classify_profile.
  destruct (_ || _); [done|]. destruct (cat !! hpsProfileID sel) as [p|] eqn:Ep; [|done]. cbv zeta.
  destruct (_ =? _); [|by destruct (_ =? _)]. cbn [fst]. intros i [Hi| ->%list_elem_of_singleton]%elem_of_app; [by apply Hst|].
  by apply elem_of_dom_2 in Ep.
Qed.

(** The tiers a requirement of the plan is dispatched with. *)
Definition tiers_of (plan : Plan) (cat : gmap string Profile) (req : Requirement) : list RequiredTier :=
  emissionsToWireTiers (Classify req (match pExploration plan with Some e => exCapabilities e | None => [] end) (pArchitecture plan) cat).

(** The bindings of a tier: the testcontainers profiles for integration,
    none for the others. *)
Lemma bound_profiles plan arch cat req tag id : pArchitecture plan = Some arch →
  id ∈ canon_by_tag (tiers_of plan cat req) tag ↔ tag = "@integration" ∧ id ∈ (integrationProfileIDsByClass arch cat).1.
Proof.
  intros Ha. rewrite elem_of_canon_by_tag. unfold tiers_of, Classify. rewrite Ha, emissions_are_class. split.
  - intros (t & Ht & <- & Hid). unfold emissionsToWireTiers in Ht. apply list_elem_of_fmap in Ht as (e & -> & He). cbn in Hid |- *.
    apply elem_of_app in He as [->%list_elem_of_singleton|He]; [by apply elem_of_nil in Hid|].
    apply elem_of_app in He as [(i & -> & Hi)%list_elem_of_fmap|He].
    + cbn in Hid. apply list_elem_of_singleton in Hid as ->. done.
    + destruct (capabilityHasSurface _ _ _); [|by apply elem_of_nil in He]. apply list_elem_of_singleton in He as ->. by apply elem_of_nil in Hid.
  - intros [-> Hid]. exists (MkRequiredTier "@integration" [id]). split_and!; [|done|cbn; set_solver].
    unfold emissionsToWireTiers. apply list_elem_of_fmap. exists (MkTierEmission "@integration" [id]). split; [done|].
    apply elem_of_app. right. apply elem_of_app. left. apply list_elem_of_fmap. eauto.
Qed.

Section review.
Context (plan : Plan) (arch : ArchitectureDocument) (cat : gmap string Profile) (Harch : pArchitecture plan = Some arch).

(** A scenario of a batch that was dispatched with the tiers of its
    requirement, whatever story it was attached to. *)
Definition from_generator (s : Scenario) : Prop :=
  ∃ req catalog order unmarshal unwrap now result slug storyID batch s0,
    parseScenariosFromResult catalog order unmarshal unwrap now result slug (rID req) storyID (tiers_of plan cat req) = inl batch ∧
    s0 ∈ batch ∧ (s = s0 ∨ ∃ story, s = set_scStoryID story s0).

Lemma generated_built s : from_generator s → scenario_tags_ok s ∧
  ∀ id, id ∈ scHarnessProfileIDs s ↔ "@integration" ∈ scTags s ∧ id ∈ (integrationProfileIDsByClass arch cat).1.
Proof.
  intros (req & catalog & order & unmarshal & unwrap & now & result & slug & storyID & batch & s0 & Hp & Hs0 & Hs).
  apply parse_batch in Hp as [raw Hb].
  destruct (batch_elem _ _ _ _ _ _ _ _ Hb Hs0) as (i & x & [_ _ _ (_ & _ & _ & _ & Ht) _ Hh Hok]).
  assert (scHarnessProfileIDs s = scHarnessProfileIDs s0 ∧ scTags s = scTags s0) as [H1 H2] by (by destruct Hs as [->|(story & ->)]).
  split; [unfold scenario_tags_ok in *; by rewrite H1, H2|]. intros id. rewrite H1, Hh, elem_of_canonical, H2, Ht.
  setoid_rewrite (bound_profiles plan arch cat req _ id Harch). set_solver.
Qed.

(** C27: What the generator binds is what the reviewer asks for: scenarios
    that come from batches dispatched with the classifier's tiers raise
    neither a tier-tag finding nor an unresolved harness profile, and a
    requirement with an integration scenario has one for every profile the
    review demands. *)
Theorem generated_scenarios_pass_review quote :
  (∀ s, s ∈ pScenarios plan → from_generator s) →
  scenarioMissingTierTagFindings plan = [] ∧ scenarioHarnessIDUnresolvedFindings quote plan cat = [] ∧
  ∀ req s, s ∈ ScenariosForRequirement plan (rID req) → "@integration" ∈ scTags s →
    ∀ id, id ∈ (integrationProfileIDsByClass arch cat).1 →
      hasIntegrationScenarioForProfile (ScenariosForRequirement plan (rID req)) id = true.
Proof.
  intros Hgen. assert (∀ A (f : Scenario → list A), (∀ s, s ∈ pScenarios plan → f s = []) → pScenarios plan ≫= f = []) as Hnil.
  { clear Hgen. intros A f. induction (pScenarios plan) as [|s l IH]; intros Hf; [done|]. rewrite bind_cons, Hf by set_solver. cbn. apply IH. set_solver. }
  split; [|split].
  - apply Hnil. intros s Hs. destruct (generated_built s (Hgen s Hs)) as [(_ & _ & H1 & _) _]. cbv zeta. by rewrite bool_decide_true.
  - apply Hnil. intros s Hs. destruct (generated_built s (Hgen s Hs)) as [_ Hh]. rewrite (proj2 (filter_nil _ _)); [done|].
    intros id Hid Hn. apply Hn. apply Hh in Hid as [_ Hid]. by eapply class_in_catalog.
  - intros req s Hs Ht id Hid. unfold hasIntegrationScenarioForProfile. apply existsb_exists. exists s.
    split; [by apply list_elem_of_In|]. apply andb_true_iff. split; [by apply hasTag_ok|].
    apply existsb_exists. exists id. split; [|apply eqb_refl]. apply list_elem_of_In.
    assert (s ∈ pScenarios plan) as Hp by (unfold ScenariosForRequirement in Hs; by apply list_elem_of_filter in Hs as [_ ?]).
    by apply (generated_built s (Hgen s Hp)).
Qed.
End review.

(** ** Requests *)

Lemma no_slash_split a b c d : mem_ascii "/" a = false → mem_ascii "/" c = false → a +:+ "/" +:+ b = c +:+ "/" +:+ d → a = c ∧ b = d.
Proof.
  revert c. induction a as [|x a IH]; intros [|y c] Ha Hc H.
  - by injection H.
  - injection H as <- _. done.
  - injection H as -> _. done.
  - injection H as -> H. cbn in Ha, Hc. apply orb_false_iff in Ha as [_ Ha], Hc as [_ Hc].
    destruct (IH c Ha Hc H) as [-> ->]. done.
Qed.

Lemma slash_in a b : mem_ascii "/" (a +:+ "/" +:+ b) = true.
Proof.
  induction a as [|x a IH]; [done|]. change (mem_ascii "/" (String x (a +:+ "/" +:+ b)) = true). cbn [mem_ascii].
  rewrite IH. apply orb_true_r.
Qed.

Lemma retryKey_inj slug r s r' s' : mem_ascii "/" r = false → mem_ascii "/" r' = false → mem_ascii "/" s = false → mem_ascii "/" s' = false →
  retryKey slug r s = retryKey slug r' s' → r = r' ∧ s = s'.
Proof.
  intros Hr Hr' Hs Hs'. unfold retryKey. destruct (s !=? "") eqn:E1, (s' !=? "") eqn:E2; intros H; do 2 apply (inj (String.append _)) in H.
  - by apply no_slash_split in H as [-> ->].
  - exfalso. rewrite <- H, slash_in in Hr'. done.
  - exfalso. rewrite H, slash_in in Hr. done.
  - apply (proj1 (negb_false_iff _)), (proj1 (eqb_true _ _)) in E1, E2. by subst.
Qed.

(** Identifiers the preparer and the requirement generator give out. *)
Definition plain_ids (plan : Plan) : Prop :=
  NoDup (rID <$> pRequirements plan) ∧ NoDup (sID <$> pStories plan) ∧
  (∀ r, r ∈ pRequirements plan → mem_ascii "/" (rID r) = false) ∧
  (∀ s, s ∈ pStories plan → mem_ascii "/" (sID s) = false).

Lemma fmap_bind_list {A B C} (f : B → C) (g : A → list B) l : f <$> (l ≫= g) = l ≫= (λ x, f <$> g x).
Proof. induction l as [|x l IH]; [done|]. by rewrite !bind_cons, fmap_app, IH. Qed.

Lemma request_of ctx cat plan req r : r ∈ requirement_requests ctx cat plan req →
  sgSlug r = pSlug plan ∧ sgRequirementID r = rID req ∧ sgRequiredTiers r = tiers_of plan cat req ∧
  (sgStoryID r = "" ∨ ∃ s, s ∈ pStories plan ∧ rID req ∈ sRequirementIDs s ∧ sgStoryID r = sID s).
Proof.
  unfold requirement_requests. cbv zeta. destruct (is_nil _) eqn:En.
  - intros ->%list_elem_of_singleton. split_and!; auto.
  - intros (s & -> & Hs)%list_elem_of_fmap. split_and!; [done|done|done|]. right.
    unfold StoriesForRequirement in Hs. apply list_elem_of_filter in Hs as [? ?]. eauto.
Qed.

Lemma requirement_keys ctx cat plan req : plain_ids plan → mem_ascii "/" (rID req) = false →
  NoDup (request_key <$> requirement_requests ctx cat plan req).
Proof.
  intros (_ & Hs & _ & Hns) Hr. unfold requirement_requests. cbv zeta. destruct (is_nil _); [repeat constructor; set_solver|].
  unfold StoriesForRequirement. rewrite <- list_fmap_compose. apply NoDup_fmap_2_strong.
  - intros a b [_ Ha]%list_elem_of_filter [_ Hb]%list_elem_of_filter H. unfold request_key in H. cbn in H.
    apply retryKey_inj in H as [_ H]; [|auto..]. by eapply NoDup_fmap_inj_elem.
  - apply NoDup_filter. by eapply NoDup_fmap_1.
Qed.

(** Every piece of work is dispatched on its own: the requests of a plan
    have distinct retry keys, every requirement in scope has one, and every
    story that covers it has one with the classifier's tiers. *)
Theorem requests_cover_plan ctx cat plan :
  plain_ids plan →
  let requests := plan_requests ctx cat plan in
  let scope := scenarioGenerationRequirementScope plan in
  NoDup (request_key <$> requests) ∧
  ∀ req, req ∈ pRequirements plan → scope = ∅ ∨ rID req ∈ scope →
    (∃ r, r ∈ requests ∧ sgRequirementID r = rID req) ∧
    ∀ s, s ∈ pStories plan → rID req ∈ sRequirementIDs s →
      ∃ r, r ∈ requests ∧ sgRequirementID r = rID req ∧ sgStoryID r = sID s ∧ sgRequiredTiers r = tiers_of plan cat req.
Proof.
  intros Hp. cbv zeta. pose proof Hp as (Hr & Hs & Hnr & Hns). unfold plan_requests. cbv zeta. split.
  - rewrite fmap_bind_list. apply NoDup_bind.
    + intros a b y [_ Ha]%list_elem_of_filter [_ Hb]%list_elem_of_filter (x & -> & Hx)%list_elem_of_fmap (x' & He & Hx')%list_elem_of_fmap.
      apply request_of in Hx as (H1 & H2 & _ & H3), Hx' as (H1' & H2' & _ & H3'). unfold request_key in He.
      rewrite H1, H2, H1', H2' in He. apply retryKey_inj in He as [He _]; [|auto| |..].
      * by eapply NoDup_fmap_inj_elem.
      * auto.
      * destruct H3 as [->|(s & ? & _ & ->)]; auto.
      * destruct H3' as [->|(s & ? & _ & ->)]; auto.
    + intros req [_ Hreq]%list_elem_of_filter. apply requirement_keys; auto.
    + apply NoDup_filter. by eapply NoDup_fmap_1.
  - intros req Hreq Hscope. assert (∀ r, r ∈ requirement_requests ctx cat plan req →
      r ∈ filter (λ req, scenarioGenerationRequirementScope plan = ∅ ∨ rID req ∈ scenarioGenerationRequirementScope plan) (pRequirements plan)
        ≫= requirement_requests ctx cat plan) as Hin.
    { intros r Hr'. apply list_elem_of_bind. exists req. split; [done|]. by apply list_elem_of_filter. }
    split.
    + destruct (requirement_requests ctx cat plan req) as [|r rs] eqn:E.
      * exfalso. unfold requirement_requests in E. cbv zeta in E. destruct (is_nil _) eqn:En in E; [done|]. apply is_nil_false in En.
        by apply fmap_nil_inv in E.
      * exists r. split; [apply Hin; left|]. assert (r ∈ requirement_requests ctx cat plan req) as Hr' by (rewrite E; left).
        by apply request_of in Hr' as (_ & ? & _).
    + intros s Hss Hcov. assert (s ∈ StoriesForRequirement plan (rID req)) as Hst by (by apply list_elem_of_filter).
      set (r := buildStoryScopedRequest plan req s (tiers_of plan cat req) (default "" (ctx <$> pArchitecture plan))).
      exists r. split; [|done]. apply Hin. unfold requirement_requests. cbv zeta. destruct (is_nil _) eqn:En.
      * apply is_nil_true in En. rewrite En in Hst. set_solver.
      * apply list_elem_of_fmap. by exists s.
Qed.

(** ** Finished loops *)

Section component.
Context {S : Type} `{PlanPort S} (E : ScenarioEnv).

Section liveness.
Context (renders : ∀ n req err findings plan, is_Some (cePrompt E n req err findings plan)).
Context (running : ∀ n, gioCancelled (geIO (ceGen E) n) = false).

Lemma scenario_dispatch_responds req err findings : gresponds (dispatchScenarioGenerator (S := S) E req err findings).
Proof.
  unfold dispatchScenarioGenerator. cbv zeta. apply gresponds_r; [apply gemits_tick|intros io].
  apply gresponds_r; [apply gemits_retry|intros _]. apply gresponds_r; [apply gemits_load|intros loaded].
  apply gresponds_r; [apply gemits_read|intros w].
  destruct (renders (gwTick w) req err findings (match loaded with inl plan => Some plan | inr _ => None end)) as [p ->].
  apply gresponds_publish. intros e. apply gresponds_failed.
Qed.

Lemma scenario_retry_responds slug req story err : gresponds (retryOrFail (S := S) E slug req story err).
Proof.
  unfold retryOrFail. cbv zeta. apply gresponds_r; [apply gemits_read|intros w].
  destruct (Snapshot _ _); [|apply gresponds_failed].
  apply gresponds_tick_or_fail; [done|apply gresponds_failed|intros p; apply scenario_dispatch_responds].
Qed.

Lemma publish_responds slug req story scenarios : gresponds (publish_scenarios (S := S) E slug req story scenarios).
Proof.
  unfold publish_scenarios. cbv zeta. apply gresponds_l; [|intros err; unfold sendGenerationFailed; gemits_auto].
  intros w. unfold publishResults. rewrite G_bind_eq. cbn [gtick fst snd]. rewrite running.
  assert (gresponds (a ← grequest (J := scenario_job) (P := scenarioRetryPayload) (ceGen E)
    (MScenarios (Some (MkScenariosReq slug req story scenarios "")));
    mret (match a with
        | NoAnswer e => Some ("scenarios mutation request: " +:+ e)
        | Answered true _ => None
        | Answered false e => Some ("scenarios mutation failed: " +:+ (if e !=? "" then e else "unknown error"))
        end))) as Hr by (apply gresponds_l; [apply gresponds_request|intros a; apply gemits_ret]).
  exact (Hr (set_gwTick _ w)).
Qed.

(** No finished loop of the scenario generator is lost: while it runs and
    prompts render, the end of the loop under way for a request leads to a
    message to the plan manager or to a new attempt, unless the plan has
    left generating_scenarios, and then the entry is cleared. *)
Theorem scenario_loop_concluded loop w :
  glTerminal loop = true → glWorkflowSlug loop = "semspec-planning" → glWorkflowStep loop = "scenario-generation" →
  glPlanSlug loop ≠ "" → glRequirementID loop ≠ "" → gwReplayDone w = true → (glID loop ∉ gwSeen w) →
  let key := retryKey (glPlanSlug loop) (glRequirementID loop) (glStoryID loop) in
  IsStaleLoop key (glTaskID loop) (gwRetry w) = false →
  let w' := (watch_loop (S := S) E loop w).1 in
  (∃ plan n, (gload (ceGen E) (glPlanSlug loop) (set_gwTick n w)).2 = inl plan ∧ EffectiveStatus plan ≠ StatusGeneratingScenarios ∧
     gwOut w' = gwOut w ∧ gwRetry w' !! key = None) ∨
  ∃ new, gwOut w' = (gwOut w ++ new)%list ∧ new ≠ [].
Proof.
  intros Ht Hw Hs Hp Hq Hr Hn. cbv zeta. intros Hst. unfold watch_loop.
  rewrite gwatch_live; [|done..|apply andb_true_iff; split; by apply negb_true_iff, eqb_false].
  set (w1 := set_gwSeen _ w). unfold handleLoopCompletion. cbv zeta. rewrite G_bind_eq. cbn [gread fst snd].
  change (gwRetry w1) with (gwRetry w). rewrite Hst. change (gwOut w) with (gwOut w1).
  destruct (glOutcome loop !=? OutcomeSuccess); [right; apply scenario_retry_responds|]. rewrite G_bind_eq. cbn [gtick fst snd].
  set (w2 := set_gwTick _ w1). change (gwOut w1) with (gwOut w2).
  destruct (parseScenariosFromResult _ _ _ _ _ _ _ _ _ _) as [scenarios|e]; [|right; apply scenario_retry_responds].
  rewrite G_bind_eq. set (res := gload (ceGen E) (glPlanSlug loop) w2). change (gwOut w2) with (gwOut res.1).
  destruct res.2 as [plan|e] eqn:El; [|right; apply publish_responds].
  destruct (EffectiveStatus plan !=? StatusGeneratingScenarios) eqn:Es; [|right; apply publish_responds].
  left. exists plan, (Datatypes.S (gwTick w)). apply neqb_true in Es. split_and!; [exact El|done|done|]. apply lookup_delete_eq.
Qed.
End liveness.

(** ** Bindings that are lost *)

Lemma scenario_quiet_retry slug req story err :
  gemits (λ o, match o with GMutation (MScenarios _) _ => False | _ => True end) (retryOrFail (S := S) E slug req story err).
Proof. unfold retryOrFail, dispatchScenarioGenerator, sendGenerationFailed. cbv zeta. gemits_auto. Qed.

(** A generator that has lost its bookkeeping (a restart while agents
    are at work) still accepts their answers, but binds no harness profile:
    whatever the plan selects, the scenarios it publishes have none. *)
Theorem restart_loses_bindings loop w new r a :
  gwRetry w !! retryKey (glPlanSlug loop) (glRequirementID loop) (glStoryID loop) = None →
  gwOut (handleLoopCompletion (S := S) E loop w).1 = (gwOut w ++ new)%list → GMutation (MScenarios (Some r)) a ∈ new →
  sqScenarios r ≠ [] ∧ ∀ s, s ∈ sqScenarios r → scHarnessProfileIDs s = [].
Proof.
  intros Hk Ho Hin. assert (∀ A (m : G scenario_job scenarioRetryPayload S A) w1,
    gemits (λ o, match o with GMutation (MScenarios _) _ => False | _ => True end) m → gwOut (m w1).1 = (gwOut w1 ++ new)%list → False) as Hq.
  { intros A m w1 Hm Hw. pose proof (gemits_all _ _ _ _ Hm Hw) as HF. rewrite Forall_forall in HF. by apply (HF _ Hin). }
  unfold handleLoopCompletion in Ho. cbv zeta in Ho. rewrite G_bind_eq in Ho. cbn [gread fst snd] in Ho.
  destruct (IsStaleLoop _ _ _); [by destruct (Hq _ _ _ (gemits_ret _ ()) Ho)|].
  destruct (glOutcome loop !=? OutcomeSuccess); [by destruct (Hq _ _ _ (scenario_quiet_retry _ _ _ _) Ho)|].
  rewrite G_bind_eq in Ho. cbn [gtick fst snd] in Ho. unfold tracked_tiers, Snapshot in Ho. rewrite Hk in Ho.
  destruct (parseScenariosFromResult _ _ _ _ _ _ _ _ _ _) as [batch|e] eqn:Ep; [|by destruct (Hq _ _ _ (scenario_quiet_retry _ _ _ _) Ho)].
  apply parse_batch in Ep as [raw Hb]. rewrite G_bind_eq in Ho.
  destruct (match match _ with inl plan => Some plan | inr _ => None end with Some plan => _ | None => false end) in Ho;
    [by destruct (Hq _ _ _ (gemits_retry _ _) Ho)|].
  set (out := attach_story _ _ _ batch) in Ho.
  assert (gemits (λ o, match o with GMutation (MScenarios x) _ => sqScenarios <$> x = Some out | _ => True end)
    (publish_scenarios (S := S) E (glPlanSlug loop) (glRequirementID loop) (glStoryID loop) out)) as Hp.
  { unfold publish_scenarios, publishResults, sendGenerationFailed. cbv zeta. gemits_auto. }
  pose proof (gemits_all _ _ _ _ Hp Ho) as HF. rewrite Forall_forall in HF. injection (HF _ Hin) as ->.
  assert (∀ s, s ∈ batch → scHarnessProfileIDs s = []) as Hbatch.
  { intros s Hs. destruct (batch_elem _ _ _ _ _ _ _ _ Hb Hs) as (i & x & [_ _ _ _ _ Hh _]). rewrite Hh.
    apply elem_of_nil_inv. intros id. rewrite elem_of_canonical. intros (t & _ & Hid). by apply elem_of_nil in Hid. }
  assert (∃ f, out = f <$> batch ∧ ∀ s, scHarnessProfileIDs (f s) = scHarnessProfileIDs s) as (f & Hf & Hfs).
  { unfold out, attach_story, attachStoryIDs. destruct (glStoryID loop !=? ""); [by exists (set_scStoryID (glStoryID loop))|].
    destruct (match _ with inl plan => Some plan | inr _ => None end) as [plan|]; [|exists id; by rewrite list_fmap_id].
    destruct (is_nil (pStories plan)); [exists id; by rewrite list_fmap_id|].
    destruct (StoriesForRequirement plan _) as [|st l]; [exists id; by rewrite list_fmap_id|by exists (set_scStoryID (sID st))]. }
  rewrite Hf. split.
  - intros Hnil. apply fmap_nil_inv in Hnil. by apply (bo_some _ _ _ _ _ _ _ Hb).
  - intros s (s0 & -> & Hs0)%list_elem_of_fmap. rewrite Hfs. by apply Hbatch.
Qed.
End component.
