(* ===== verification/GenCycle.v ===== *)
(** * The generators and the plan manager together

    The plan manager of Mutations.v as the port of the story preparer and of
    the scenario generator: a good answer of the agent takes the plan to the
    next status, with the stories or scenarios of that answer.  And where the
    two generators do not fit: the scenarios of two stories that cover the
    same requirement can have the same identifiers. *)

From Stdlib Require Import Ascii.
From stdpp Require Import pretty.
From S2P Require Import Prelude Graphs Status Paths Types Stories Scheduling PlanStore Reviews Mutations PlanRules PlanRuleFacts.
From S2P Require Import DispatchRetry Feedback PlanReviewer ReviewCycle Generators StoryPrep StoryPrepFacts ScenarioGen ScenarioGenFacts.

Local Open Scope string_scope.
Local Open Scope go_scope.

(** ** Requests *)

Section port.
Context (PE : Env) (row : Plan → string) (text : mutation_error → string).

(** Over a transport that loses nothing. *)
#[local] Instance direct : PlanPort World := plan_manager PE row text (λ _, None).

Context {J P : Type} (E : GenEnv).

Lemma request_accepted m w w1 : handle PE m (gwPort w) = (w1, None) →
  (grequest (J := J) (P := P) E m w).2 = Answered true "" ∧
  gwPort (grequest (J := J) (P := P) E m w).1 = w1 ∧ gwRetry (grequest (J := J) (P := P) E m w).1 = gwRetry w.
Proof.
  intros Hm. unfold grequest. rewrite !G_bind_eq. cbn [gtick gread fst snd].
  cbn [plan_request direct plan_manager gwPort gwTick set_gwTick]. unfold manager_request. rewrite Hm.
  rewrite !G_bind_eq. done.
Qed.

(** The plan is in the store, and its row decodes to it. *)
Definition stored (slug : string) (w : World) (p : Plan) : Prop :=
  wCache w !! slug = Some p ∧ wKV w ≫= lookup slug = Some p ∧ pSlug p = slug ∧ ValidateSlug slug = None ∧
  geUnmarshalPlan E (row p) = Some p.

Lemma load_stored slug p (w : GWorld J P World) : stored slug (gwPort w) p → gioErr (geIO E (gwTick w)) = None →
  gload E slug w = (set_gwTick (S (gwTick w)) w, inl p).
Proof.
  intros (_ & Hk & _ & _ & Hd) He. unfold gload. rewrite !G_bind_eq. cbn [gread gtick fst snd]. rewrite He.
  cbn [decode_row plan_content direct plan_manager]. unfold manager_content.
  destruct (wKV (gwPort w)) as [kv|]; [|done]. cbn in Hk |- *. rewrite Hk. cbn. by rewrite Hd.
Qed.
End port.

(** ** Stories *)

Section stories.
Context (PE : Env) (row : Plan → string) (text : mutation_error → string) (E : StoryEnv) (Hio : healthy PE).
#[local] Existing Instance direct.

(** The plan manager takes stories that pass the gates. *)
Lemma stories_taken slug stories n trace w p : wCache w !! slug = Some p → pSlug p = slug → ValidateSlug slug = None →
  EffectiveStatus p = StatusPreparingStories → pPendingArchitectureRevision p = None → ValidateStories stories = None →
  ∃ w' q, handle PE (MStories (Some (MkStoriesReq slug stories n trace))) w = (w', None) ∧
    wCache w' !! slug = Some q ∧ EffectiveStatus q = StatusStoriesGenerated ∧ pStories q = stories.
Proof.
  intros Hc Hp Hv Hs Hr Hvs. cbn [handle handleStoriesMutation tqSlug tqStories]. rewrite (slug_nonempty _ Hv), Hvs.
  rewrite (with_plan_cached _ _ _ _ _ Hc). unfold guard_transition, can. rewrite Hs.
  change (Status_CanTransitionTo StatusPreparingStories StatusStoriesGenerated) with true.
  unfold place_stories. rewrite Hr. unfold read. unfold mbind at 1, M_bind at 1. cbv zeta.
  set (q := set_pScope _ _). destruct (save_healthy PE Hio q (ticked w)) as (w' & Hw & Hq); [by rewrite <- Hp in Hv|].
  exists w', q. unfold save_reply, mbind, M_bind. rewrite Hw. split_and!; [done| |done|done]. by rewrite <- Hp.
Qed.

Context (Hrange : ∀ n i X, seRange E n i X ≡ₚ elements X).

(** A good answer becomes the plan's stories: when nothing fails outside
    and the plan waits in preparing_stories, the end of the loop under way
    with an answer that resolves and passes [ValidateStories] takes the plan
    to stories_generated with exactly the resolved stories, and the
    preparer forgets the plan. *)
Theorem stories_reach_plan loop w p stories :
  stored row (seGen E) (glPlanSlug loop) (gwPort w) p → EffectiveStatus p = StatusPreparingStories →
  pPendingArchitectureRevision p = None → gioErr (geIO (seGen E) (gwTick w)) = None →
  IsStaleLoop (glPlanSlug loop) (glTaskID loop) (gwRetry w) = false → glOutcome loop = OutcomeSuccess →
  parseStoriesFromResult (seRange E (S (gwTick w))) (seUnmarshal E) (glResult loop) p (glPlanSlug loop) = inl stories →
  ValidateStories stories = None →
  let w' := (StoryPrep.handleLoopCompletion (H := direct PE row text) E loop w).1 in
  gwRetry w' !! glPlanSlug loop = None ∧
  ∃ q, visible (gwPort w') (glPlanSlug loop) = Some q ∧ EffectiveStatus q = StatusStoriesGenerated ∧ pStories q = stories.
Proof.
  intros Hst He Hr Herr Hl Ho Hp Hv. cbv zeta. unfold StoryPrep.handleLoopCompletion. cbv zeta. rewrite G_bind_eq. cbn [gread fst snd].
  rewrite Hl, Ho, eqb_refl. cbn [negb]. rewrite G_bind_eq, (load_stored PE row text _ _ _ _ Hst Herr). cbn [fst snd].
  rewrite He, eqb_refl. cbn [negb]. rewrite G_bind_eq. cbn [gread fst snd gwTick set_gwTick]. rewrite Hp.
  assert (ValidateStoriesAgainstPlan (Some p) stories = None) as Hvp.
  { unfold parseStoriesFromResult in Hp. destruct (glResult loop =? ""); [done|]. destruct (seUnmarshal E (glResult loop)) as [input|]; [|done].
    destruct (is_nil input); [done|]. eapply prepared_in_plan, resolve_prepared; [|exact Hp]. intros. apply Hrange. }
  unfold validateStoriesPrePublish. rewrite Hv, Hvp. set (w1 := set_gwTick _ w).
  destruct Hst as (Hc & _ & Hps & Hvs & _).
  destruct (stories_taken (glPlanSlug loop) stories (Z.of_nat (length stories)) (glTraceID loop) (gwPort w1) p) as (w2 & q & Hh & Hc2 & Hq & Hqs); try done.
  unfold publish_stories, publishStoriesGenerated. rewrite !G_bind_eq.
  destruct (request_accepted PE row text (J := Plan) (P := Plan) (seGen E) _ w1 w2 Hh) as (Ha & Hw & Hrt). rewrite Ha. cbn [mret G_ret fst snd].
  split; [apply lookup_delete_eq|]. exists q. split_and!; [|done|done]. unfold visible. cbn [gretry gmodify fst gwPort set_gwRetry].
  by rewrite Hw, Hc2.
Qed.
End stories.

(** ** Scenarios *)

Section scenarios.
Context (PE : Env) (row : Plan → string) (text : mutation_error → string) (E : ScenarioEnv) (Hio : healthy PE).
#[local] Existing Instance direct.

Lemma scenarios_taken slug req story batch w p : wCache w !! slug = Some p → pSlug p = slug → ValidateSlug slug = None →
  EffectiveStatus p = StatusGeneratingScenarios → pRequirements p ≠ [] → req ≠ "" →
  let r := MkScenariosReq slug req story batch "" in
  ∃ w' q, handle PE (MScenarios (Some r)) w = (w', None) ∧ wCache w' !! slug = Some q ∧
    pScenarios q = pScenarios (merge_scenarios p r) ∧ pRequirements q = pRequirements p ∧
    EffectiveStatus q = (if all_covered q then StatusScenariosGenerated else StatusGeneratingScenarios).
Proof.
  intros Hc Hp Hv Hs Hr Hq. cbv zeta. set (r := MkScenariosReq slug req story batch "").
  cbn [handle handleScenariosMutation]. change (sqSlug r) with slug. change (sqRequirementID r) with req.
  rewrite (slug_nonempty _ Hv), (proj2 (eqb_false _ _) Hq). cbn [orb]. rewrite (with_plan_cached _ _ _ _ _ Hc). cbv zeta.
  destruct (merge_scenarios_frame p r) as (Hms & Hme & _ & Hmr & _). revert Hms Hme Hmr. generalize (merge_scenarios p r) as m. intros m Hms Hme Hmr.
  apply is_nil_false in Hr. rewrite Hmr, Hr. rewrite Hp in Hms. destruct (all_covered m) eqn:Hcov.
  - unfold guard_transition, can. rewrite Hme, Hs. change (Status_CanTransitionTo StatusGeneratingScenarios StatusScenariosGenerated) with true.
    set (q := set_pStatus _ _). destruct (save_healthy PE Hio q (ticked w)) as (w' & Hw & Hwq); [by change (pSlug q) with (pSlug m); rewrite Hms|].
    exists w', q. unfold save_reply, mbind, M_bind. rewrite Hw. change (pSlug q) with (pSlug m) in Hwq. rewrite Hms in Hwq.
    change (all_covered q) with (all_covered m). change (pRequirements q) with (pRequirements m). by rewrite Hcov.
  - destruct (save_healthy PE Hio m (ticked w)) as (w' & Hw & Hwq); [by rewrite Hms|].
    exists w', m. unfold save_reply, mbind, M_bind. rewrite Hw, Hcov. rewrite Hms in Hwq. by rewrite Hme.
Qed.

(** The scenario is one of those a batch for the requirement replaces: of the
    same story or, when the batch is for no story, of any. *)
Definition replaced (req story : string) (s : Scenario) : Prop :=
  scRequirementID s = req ∧ (story = "" ∨ scStoryID s = story).
#[local] Instance replaced_dec req story s : Decision (replaced req story s).
Proof. unfold replaced. apply _. Defined.

Lemma batch_merged p slug req story batch : batch ≠ [] →
  pScenarios (merge_scenarios p (MkScenariosReq slug req story batch "")) =
  (filter (λ s, ¬ replaced req story s) (pScenarios p) ++ batch)%list.
Proof.
  intros Hb%is_nil_false. unfold merge_scenarios. cbn [sqScenarios]. rewrite Hb. cbn. f_equal. apply list_filter_iff. intros s.
  unfold scenarioMatchesMutationScope, replaced. cbn [sqRequirementID sqStoryID].
  rewrite <- not_true_iff_false, andb_true_iff, orb_true_iff, !eqb_true. done.
Qed.

(** The batch as it is attached to a story: to the one it was asked for or,
    when it was asked for none, to the first story of the plan that covers
    the requirement, if there is one. *)
Definition attached (p : Plan) (req story : string) (batch new : list Scenario) : Prop :=
  (story ≠ "" → new = set_scStoryID story <$> batch) ∧
  (story = "" →
     (∀ before s after, pStories p = (before ++ s :: after)%list → req ∈ sRequirementIDs s →
        (∀ s', s' ∈ before → req ∉ sRequirementIDs s') → new = set_scStoryID (sID s) <$> batch) ∧
     ((∀ s, s ∈ pStories p → req ∉ sRequirementIDs s) → new = batch)).

Lemma attach_attached p req story batch : attached p req story batch (attach_story story req (Some p) batch).
Proof.
  unfold attached, attach_story, attachStoryIDs. split.
  - intros Hs. apply eqb_false in Hs. by rewrite Hs.
  - intros ->. cbn. split.
    + intros before s after Hp Hs Hb. rewrite Hp. destruct (is_nil (before ++ s :: after)) eqn:Hn;
        [apply is_nil_true in Hn; by destruct before|]. unfold StoriesForRequirement. rewrite Hp, filter_app.
      rewrite (proj2 (filter_nil _ before)) by done. cbn [app]. by rewrite filter_cons_True.
    + intros Hno. destruct (is_nil (pStories p)); [done|]. unfold StoriesForRequirement.
      by rewrite (proj2 (filter_nil _ (pStories p))).
Qed.

(** C20: A good batch becomes part of the plan: when nothing fails outside and
    the plan has requirements and waits in generating_scenarios, the end of the
    loop under way with an answer that parses puts its scenarios, attached to
    the story they were asked for (or, asked for none, to the first story of
    the requirement), behind those of the plan, of which exactly the ones of
    the same requirement and story are replaced.  The plan goes on to
    scenarios_generated if every requirement has a scenario now and stays in
    generating_scenarios if one has none; the generator forgets the
    request. *)
Theorem scenarios_reach_plan loop w p batch :
  let slug := glPlanSlug loop in
  let key := retryKey slug (glRequirementID loop) (glStoryID loop) in
  stored row (ceGen E) slug (gwPort w) p → EffectiveStatus p = StatusGeneratingScenarios → pRequirements p ≠ [] →
  (∀ n, gioErr (geIO (ceGen E) n) = None ∧ gioCancelled (geIO (ceGen E) n) = false) →
  IsStaleLoop key (glTaskID loop) (gwRetry w) = false → glOutcome loop = OutcomeSuccess → glRequirementID loop ≠ "" →
  parseScenariosFromResult (ceCatalog E) (ceOrder E) (ceUnmarshal E) (ceUnwrap E) (gioNow (geIO (ceGen E) (gwTick w)))
    (glResult loop) slug (glRequirementID loop) (glStoryID loop) (tracked_tiers key (gwRetry w)) = inl batch →
  let w' := (ScenarioGen.handleLoopCompletion (H := direct PE row text) E loop w).1 in
  gwRetry w' !! key = None ∧
  ∃ q new, visible (gwPort w') slug = Some q ∧ attached p (glRequirementID loop) (glStoryID loop) batch new ∧
    pScenarios q = (filter (λ s, ¬ replaced (glRequirementID loop) (glStoryID loop) s) (pScenarios p) ++ new)%list ∧
    pRequirements q = pRequirements p ∧
    ((∀ r, r ∈ pRequirements q → ∃ s, s ∈ pScenarios q ∧ scRequirementID s = rID r) ∧
       EffectiveStatus q = StatusScenariosGenerated ∨
     (∃ r, r ∈ pRequirements q ∧ ∀ s, s ∈ pScenarios q → scRequirementID s ≠ rID r) ∧
       EffectiveStatus q = StatusGeneratingScenarios).
Proof.
  cbv zeta. intros Hst He Hr Hquiet Hl Ho Hq Hp. unfold ScenarioGen.handleLoopCompletion. cbv zeta. rewrite G_bind_eq. cbn [gread fst snd].
  rewrite Hl, Ho, eqb_refl. cbn [negb]. rewrite G_bind_eq. cbn [gtick fst snd]. rewrite Hp. set (w1 := set_gwTick _ w).
  rewrite G_bind_eq, (load_stored PE row text (ceGen E) (glPlanSlug loop) p w1 Hst (proj1 (Hquiet _))). cbn [fst snd]. rewrite He, eqb_refl. cbn [negb].
  set (out := attach_story _ _ _ _). set (w2 := set_gwTick _ w1). unfold publish_scenarios. cbv zeta. rewrite G_bind_eq.
  unfold publishResults. rewrite !G_bind_eq. cbn [gtick fst snd]. rewrite (proj2 (Hquiet _)). rewrite !G_bind_eq. set (w3 := set_gwTick _ w2).
  destruct Hst as (Hc & _ & Hps & Hvs & _).
  destruct (scenarios_taken (glPlanSlug loop) (glRequirementID loop) (glStoryID loop) out (gwPort w3) p) as (w4 & q & Hh & Hc4 & Hsc & Hrq & Hqe); try done.
  destruct (request_accepted PE row text (J := scenario_job) (P := scenarioRetryPayload) (ceGen E) _ w3 w4 Hh) as (Ha & Hw & _).
  rewrite Ha. cbn [mret G_ret fst snd]. split; [apply lookup_delete_eq|]. exists q, out.
  split_and!; [unfold visible; cbn [gretry gmodify fst gwPort set_gwRetry]; by rewrite Hw, Hc4|apply attach_attached| |done|].
  - rewrite Hsc. apply batch_merged. apply parse_batch in Hp as (raw & [Hne _ _ _]). unfold out, attach_story, attachStoryIDs.
    repeat case_match; try done; intros Hn; apply fmap_nil_inv in Hn; done.
  - destruct (all_covered q) eqn:Hcov; [left; split; [by apply all_covered_spec|done]|right; split; [|done]].
    unfold all_covered in Hcov. apply not_true_iff_false in Hcov. rewrite forallb_forall in Hcov.
    destruct (decide (Forall (λ r, Exists (λ s, scRequirementID s = rID r) (pScenarios q)) (pRequirements q))) as [Hall|Hex].
    { destruct Hcov. intros r Hin%list_elem_of_In. rewrite Forall_forall in Hall. apply existsb_exists.
      apply Hall, Exists_exists in Hin as (s & Hs & He'). exists s. split; [by apply list_elem_of_In|]. by apply eqb_true. }
    apply not_Forall_Exists in Hex; [|apply _]. apply Exists_exists in Hex as (r & Hin & Hn). exists r. split; [done|].
    intros s Hs He'. apply Hn, Exists_exists. eauto.
Qed.
End scenarios.

(** ** Identifiers that collide *)

Lemma last_split sep a t : mem_ascii sep t = false →
  ∃ w v ws, split_on sep (a +:+ String sep t) = w :: v :: ws ∧ last (v :: ws) = Some t.
Proof.
  intros Ht. induction a as [|c a (w & v & ws & Hs & Hl)].
  - exists "", t, []. change (split_on sep (String sep t) = [""; t] ∧ last [t] = Some t). cbn [split_on].
    by rewrite eqb_refl, (split_on_single _ _ Ht).
  - change (String c a +:+ String sep t) with (String c (a +:+ String sep t)). cbn [split_on]. rewrite Hs.
    destruct (c =? sep); [by exists "", w, (v :: ws)|by exists (String c w), v, ws].
Qed.

(** Of the preparer's identifiers only the count within the primary
    requirement is left. *)
Lemma storySequence_of slug r (n : nat) : storySequence (story_id slug r n) = pretty n.
Proof.
  assert (story_id slug r n = ("story." +:+ slug +:+ "." +:+ r) +:+ String "." (pretty n)) as H.
  { unfold story_id. by rewrite !string_app_assoc. }
  unfold storySequence. destruct (story_id slug r n =? "") eqn:E; [by apply (proj1 (eqb_true _ _)) in E|].
  rewrite H. destruct (last_split "." ("story." +:+ slug +:+ "." +:+ r) (pretty n) (pretty_no_dot n)) as (w & v & ws & -> & Hl).
  by rewrite last_cons_cons, Hl.
Qed.

(** Scenario identifiers of one requirement collide across stories: for
    two different stories that the preparer numbered alike under different
    primary requirements, and that both cover a requirement, the batches
    generated for that requirement have the same identifiers, position by
    position. *)
Theorem scenario_ids_collide slug r1 r2 (n : nat) req catalog order unmarshal unwrap now1 now2 res1 res2 tiers batch1 batch2 k s1 s2 :
  r1 ≠ r2 →
  let st1 := story_id slug r1 n in let st2 := story_id slug r2 n in
  parseScenariosFromResult catalog order unmarshal unwrap now1 res1 slug req st1 tiers = inl batch1 →
  parseScenariosFromResult catalog order unmarshal unwrap now2 res2 slug req st2 tiers = inl batch2 →
  batch1 !! k = Some s1 → batch2 !! k = Some s2 →
  st1 ≠ st2 ∧ scID s1 = scID s2 ∧ scRequirementID s1 = scRequirementID s2.
Proof.
  intros Hr st1 st2 H1 H2 Hk1 Hk2. split; [by intros [? _]%story_id_inj|].
  apply parse_batch in H1 as (raw1 & [_ Hl1 He1 _]), H2 as (raw2 & [_ Hl2 He2 _]).
  assert (is_Some (raw1 !! k)) as [x1 Hx1] by (apply lookup_lt_is_Some; rewrite <- Hl1; by eapply lookup_lt_Some).
  assert (is_Some (raw2 !! k)) as [x2 Hx2] by (apply lookup_lt_is_Some; rewrite <- Hl2; by eapply lookup_lt_Some).
  destruct (He1 k x1 s1 Hx1 Hk1) as [-> -> _ _ _ _ _]. destruct (He2 k x2 s2 Hx2 Hk2) as [-> -> _ _ _ _ _].
  unfold st1, st2. by rewrite !storySequence_of.
Qed.

(** ** A plan goes through both generators *)

(** Two requirements, a component for each, and a simulator to test with. *)
Definition gen_profile : gmap string Profile :=
  {["sim" := MkProfile "sim" ["sim:1"] {["PORT" := "14550"]} ["heartbeat seen"] OrchestrationTestcontainers]}.
Definition gen_arch : ArchitectureDocument :=
  MkArchitectureDocument [] [sample_comp "driver" ["src/driver.go"] []; sample_comp "console" ["src/console.go"] []] "" [] [] [] None []
    [MkHarnessProfileSelection "sim" [] "needs a link" []].
Definition gen_plan (st : Status) : Plan :=
  set_pRequirements [sample_req "requirement.demo.1" []; sample_req "requirement.demo.2" []]
    (set_pArchitecture (Some gen_arch) (set_pExploration (Some (MkExploration [telemetry] [])) (demo_plan st))).

(** The driver covers both requirements, the console the second. *)
Definition gen_answer : list positionalStoryInput :=
  [MkStoryInput "A" "driver" [0%Z; 1%Z] [0%Z] "Driver" "reads" [MkTaskInput "t1" "write the test" []; MkTaskInput "t2" "read" ["t1"]];
   MkStoryInput "B" "console" [1%Z] [] "Console" "shows" [MkTaskInput "t1" "show" []]].

Definition gen_env (plan : Plan) : GenEnv := MkGenEnv (λ _, MkGenIO "id" 7 None false) (λ _, Some plan) (λ _, "no plan") plain 2.
Definition story_env (plan : Plan) : StoryEnv :=
  MkStoryEnv (gen_env plan) (λ _ _ X, elements X) (λ _, inl gen_answer) (λ _, "bad") (λ _, "bad") (λ _ _ _ _, Some "prepare").
Definition scenario_env (plan : Plan) : ScenarioEnv :=
  MkScenarioEnv (gen_env plan) (Some gen_profile) (λ _, Some gen_profile) (λ X, elements X)
    (λ _, inl [MkLlmScenario "link" "a link" "it starts" ["heartbeats arrive"] ["@integration"] ["guessed"]]) (λ _, None) (λ _, "bad")
    (λ _, "arch") (λ _ _ _ _ _, Some "generate").

Definition gen_manager : PlanPort World := direct (sample_env (λ _, quiet_io) None) pTitle (λ _, "refused").
Definition gen_world {J P : Type} (plan : Plan) : GWorld J P World := MkGWorld ∅ [] true ∅ ∅ (world_with [plan]) 0 [].
Definition story_loop : gen_loop :=
  MkGenLoop "L1" "storyprep-demo-id" true "semspec-planning" "story-preparation" "demo" "" "" "" OutcomeSuccess "" "{}".
Definition scenario_loop (req story : string) : gen_loop :=
  MkGenLoop ("L" +:+ story +:+ req) ("scengen-demo-" +:+ story +:+ "-id") true "semspec-planning" "scenario-generation" "demo" req story ""
    OutcomeSuccess "" "[1]".

(** The preparer claims the plan, skips the echo of its claim, asks the agent
    and publishes what it answers. *)
Definition prepared_world : GWorld Plan Plan World :=
  (run_stories (H := gen_manager) (story_env (gen_plan StatusPreparingStories))
    [EPlan (gen_plan StatusArchitectureReviewed); EPlan (gen_plan StatusPreparingStories); EStart 0; ELoop story_loop]
    (gen_world (gen_plan StatusArchitectureReviewed))).1.

Example stories_prepared :
  ((λ p, (EffectiveStatus p, (λ s, (sID s, sRequirementIDs s, sFilesOwned s)) <$> pStories p)) <$> visible (gwPort prepared_world) "demo") =
  Some (StatusStoriesGenerated,
    [("story.demo.1.1", ["requirement.demo.1"; "requirement.demo.2"], ["src/driver.go"]);
     ("story.demo.2.1", ["requirement.demo.2"], ["src/console.go"])]) ∧
  (omap (λ o, match o with GTask t => Some (gtTaskID t) | _ => None end) (gwOut prepared_world)) = ["storyprep-demo-id"] ∧
  gwRetry prepared_world = ∅.
Proof. by vm_compute. Qed.

(** Both stories cover the second requirement, so three requests are sent;
    the batches of the two stories for it have the same identifiers, and the
    plan keeps both. *)
Definition storied : Plan := default (gen_plan StatusDrafting) (visible (gwPort prepared_world) "demo").
Definition generating : Plan := set_pStatus StatusGeneratingScenarios storied.
Definition scenario_world : GWorld scenario_job scenarioRetryPayload World :=
  (run_scenarios (H := gen_manager) (scenario_env generating)
    [CPlan storied; CRun 0; CRun 0; CRun 0; CRun 0; CLoop (scenario_loop "requirement.demo.2" "story.demo.1.1");
     CLoop (scenario_loop "requirement.demo.2" "story.demo.2.1")] (gen_world storied)).1.
Definition scenarios_run : GWorld scenario_job scenarioRetryPayload World :=
  (run_scenarios (H := gen_manager) (scenario_env generating) [CLoop (scenario_loop "requirement.demo.1" "story.demo.1.1"); CRun 0]
    scenario_world).1.

Example scenarios_generated :
  (omap (λ o, match o with GTask t => Some (gtRequirementID t, gtStoryID t) | _ => None end) (gwOut scenarios_run)) =
    [("requirement.demo.1", "story.demo.1.1"); ("requirement.demo.2", "story.demo.1.1"); ("requirement.demo.2", "story.demo.2.1")] ∧
  ((λ p, (EffectiveStatus p, (λ s, (scID s, scStoryID s, scHarnessProfileIDs s, scRequiredAssertions s)) <$> pScenarios p)) <$>
     visible (gwPort scenarios_run) "demo") =
    Some (StatusScenariosGenerated,
      [("scenario.demo.2.1.1", "story.demo.1.1", ["sim"], ["heartbeat seen"]);
       ("scenario.demo.2.1.1", "story.demo.2.1", ["sim"], ["heartbeat seen"]);
       ("scenario.demo.1.1.1", "story.demo.1.1", ["sim"], ["heartbeat seen"])]) ∧
  gwRetry scenarios_run = ∅ ∧ gwJobs scenarios_run = [].
Proof. by vm_compute. Qed.

(** ** Instances *)

Definition no_range (_ : nat) (X : gset string) : list string := elements X.
Definition gen_stories : list Story :=
  match resolveStoryLabels no_range gen_answer (gen_plan StatusPreparingStories) "demo" with inl l => l | inr _ => [] end.

Lemma resolved_stories_sound_witness :
  NoDup (sID <$> gen_stories) ∧ ValidateStoryFileOwnership gen_stories = None ∧ length gen_stories = 2%nat.
Proof.
  assert (prepared (gen_plan StatusPreparingStories) gen_answer gen_stories) as [_ H1 _ _ _ H2].
  { apply (resolved_stories_sound no_range (λ _ _, Permutation_refl _) gen_answer (gen_plan StatusPreparingStories) "demo" gen_stories).
    by vm_compute. }
  split_and!; [done|done|by vm_compute].
Defined.

Definition preparing_world : GWorld Plan Plan World := gen_world (gen_plan StatusPreparingStories).

Lemma published_stories_checked_witness :
  prepared (gen_plan StatusPreparingStories) gen_answer gen_stories ∧ ValidateStories gen_stories = None.
Proof.
  destruct (@published_stories_checked World gen_manager (story_env (gen_plan StatusPreparingStories)) (λ _ _ _, Permutation_refl _)
    (ELoop story_loop) preparing_world
    [GMutation (MStories (Some (MkStoriesReq "demo" gen_stories 2 ""))) (Answered true "")]
    (MkStoriesReq "demo" gen_stories 2 "") (Answered true ""))
    as (loop & Hl & _ & _ & _ & _ & _ & plan & input & Hp & _ & Hi & H1 & H2 & _).
  - by vm_compute.
  - by left.
  - injection Hl as <-. assert (plan = gen_plan StatusPreparingStories) as -> by (by injection Hp).
    assert (input = gen_answer) as -> by (by injection Hi). by split.
Defined.

Lemma stories_reach_plan_witness :
  ∃ q, visible (gwPort (StoryPrep.handleLoopCompletion (H := gen_manager) (story_env (gen_plan StatusPreparingStories)) story_loop
                          preparing_world).1) "demo" = Some q ∧
    EffectiveStatus q = StatusStoriesGenerated ∧ pStories q = gen_stories.
Proof.
  apply (stories_reach_plan (sample_env (λ _, quiet_io) None) pTitle (λ _, "refused") (story_env (gen_plan StatusPreparingStories)) healthy_demo
    (λ _ _ _, Permutation_refl _) story_loop preparing_world (gen_plan StatusPreparingStories) gen_stories);
    [split_and!; vm_compute; reflexivity|vm_compute; reflexivity..].
Defined.

Lemma requests_cover_plan_witness :
  NoDup (request_key <$> plan_requests (λ _, "arch") gen_profile storied) ∧
  ∃ r, r ∈ plan_requests (λ _, "arch") gen_profile storied ∧ sgRequirementID r = "requirement.demo.2" ∧ sgStoryID r = "story.demo.2.1".
Proof.
  destruct (requests_cover_plan (λ _, "arch") gen_profile storied) as [H1 H2].
  { split_and!; [apply (bool_decide_unpack _); by vm_compute|apply (bool_decide_unpack _); by vm_compute| |];
      apply Forall_forall; vm_compute; by repeat constructor. }
  split; [done|]. destruct (H2 (sample_req "requirement.demo.2" [])) as [_ H3].
  - apply (list_elem_of_lookup_2 _ 1). by vm_compute.
  - left. by vm_compute.
  - destruct (H3 (default (sample_story "" "" [] [] []) (pStories storied !! 1%nat))) as (r & Hr & ? & Hs & _).
    + apply (list_elem_of_lookup_2 _ 1). by vm_compute.
    + apply (list_elem_of_lookup_2 _ 0). by vm_compute.
    + exists r. split_and!; [done|done|]. by vm_compute in Hs.
Defined.

Definition last_loop : gen_loop := scenario_loop "requirement.demo.1" "story.demo.1.1".
Definition last_batch : list Scenario :=
  match parseScenariosFromResult (Some gen_profile) (λ X, elements X) (ceUnmarshal (scenario_env generating)) (λ _, None) 7 "[1]" "demo"
          "requirement.demo.1" "story.demo.1.1" (tiers_of generating gen_profile (sample_req "requirement.demo.1" [])) with
  | inl l => l | inr _ => [] end.
Definition almost : Plan := default generating (visible (gwPort scenario_world) "demo").

Lemma scenarios_reach_plan_witness :
  ∃ q new, visible (gwPort (ScenarioGen.handleLoopCompletion (H := gen_manager) (scenario_env almost) last_loop scenario_world).1) "demo" = Some q ∧
    new = (set_scStoryID "story.demo.1.1" <$> last_batch) ∧
    pScenarios q = (filter (λ s, ¬ replaced "requirement.demo.1" "story.demo.1.1" s) (pScenarios almost) ++ new)%list.
Proof.
  destruct (scenarios_reach_plan (sample_env (λ _, quiet_io) None) pTitle (λ _, "refused") (scenario_env almost) healthy_demo
    last_loop scenario_world almost last_batch) as (_ & q & new & Hq & [Hn _] & Hs & _);
    [split_and!; vm_compute; reflexivity|vm_compute; reflexivity|vm_compute; discriminate|split; reflexivity|vm_compute; reflexivity|reflexivity
    |discriminate|vm_compute; reflexivity|].
  exists q, new. split; [exact Hq|]. split; [apply Hn; discriminate|exact Hs].
Defined.

Lemma scenario_loop_concluded_witness :
  ∃ new, gwOut (ScenarioGen.watch_loop (H := gen_manager) (scenario_env almost) last_loop scenario_world).1 = (gwOut scenario_world ++ new)%list ∧ new ≠ [].
Proof.
  destruct (@scenario_loop_concluded World gen_manager (scenario_env almost) ltac:(by eexists) ltac:(done) last_loop scenario_world)
    as [(plan & n & Hp & He & _)|Hn]; [reflexivity|reflexivity|reflexivity|discriminate|discriminate|vm_compute; reflexivity| | | |exact Hn].
  - apply (bool_decide_unpack _). vm_compute. exact I.
  - vm_compute. reflexivity.
  - exfalso. apply He. vm_compute in Hp. injection Hp as <-. vm_compute. reflexivity.
Defined.

(** The plan with the scenarios of the run, without those of the console. *)
Definition plan_for_review : Plan := set_pScenarios last_batch storied.

Lemma pScenarios_set l p : pScenarios (set_pScenarios l p) = l.
Proof. done. Qed.

Lemma generated_scenarios_pass_review_witness :
  scenarioHarnessIDUnresolvedFindings plain plan_for_review gen_profile = [] ∧
  hasIntegrationScenarioForProfile (ScenariosForRequirement plan_for_review "requirement.demo.1") "sim" = true.
Proof.
  destruct (generated_scenarios_pass_review plan_for_review gen_arch gen_profile ltac:(vm_compute; reflexivity) plain) as (_ & H1 & H2).
  - intros s Hs. unfold plan_for_review in Hs. rewrite pScenarios_set in Hs. exists (sample_req "requirement.demo.1" []), (Some gen_profile), (λ X, elements X), (ceUnmarshal (scenario_env generating)),
      (λ _, None), 7%Z, "[1]", "demo", "story.demo.1.1", last_batch, s. split_and!; [vm_compute; reflexivity|exact Hs|by left].
  - split; [done|]. apply (H2 (sample_req "requirement.demo.1" []) (default (sample_scenario "" []) (last_batch !! 0%nat))).
    + apply (list_elem_of_lookup_2 _ 0). vm_compute. reflexivity.
    + vm_compute. left.
    + vm_compute. left.
Defined.

Lemma scenario_ids_collide_witness :
  match parseScenariosFromResult (Some gen_profile) (λ X, elements X) (ceUnmarshal (scenario_env generating)) (λ _, None) 7 "[1]" "demo"
          "requirement.demo.2" "story.demo.1.1" [], parseScenariosFromResult (Some gen_profile) (λ X, elements X)
          (ceUnmarshal (scenario_env generating)) (λ _, None) 7 "[1]" "demo" "requirement.demo.2" "story.demo.2.1" [] with
  | inl (a :: _), inl (b :: _) => scID a = scID b
  | _, _ => False
  end.
Proof.
  destruct (parseScenariosFromResult (Some gen_profile) (λ X, elements X) (ceUnmarshal (scenario_env generating)) (λ _, None) 7 "[1]" "demo"
          "requirement.demo.2" "story.demo.1.1" []) as [[|a l1]|e1] eqn:E1; [vm_compute in E1; discriminate| |vm_compute in E1; discriminate].
  destruct (parseScenariosFromResult (Some gen_profile) (λ X, elements X) (ceUnmarshal (scenario_env generating)) (λ _, None) 7 "[1]" "demo"
          "requirement.demo.2" "story.demo.2.1" []) as [[|b l2]|e2] eqn:E2; [vm_compute in E2; discriminate| |vm_compute in E2; discriminate].
  apply (scenario_ids_collide "demo" "1" "2" 1 "requirement.demo.2" (Some gen_profile) (λ X, elements X) (ceUnmarshal (scenario_env generating))
    (λ _, None) 7 7 "[1]" "[1]" [] (a :: l1) (b :: l2) 0 a b); [discriminate|exact E1|exact E2|reflexivity|reflexivity].
Defined.

(** A restart while the last agent is at work: its answer arrives without
    the binding to the simulator. *)
Definition restarted : GWorld scenario_job scenarioRetryPayload World :=
  (run_scenarios (H := gen_manager) (scenario_env almost) [CRestart; CReplayDone] scenario_world).1.
Definition unbound_batch : ScenariosMutationRequest :=
  MkScenariosReq "demo" "requirement.demo.1" "story.demo.1.1"
    (set_scStoryID "story.demo.1.1" <$>
       match parseScenariosFromResult (Some gen_profile) (λ X, elements X) (ceUnmarshal (scenario_env generating)) (λ _, None) 7 "[1]" "demo"
               "requirement.demo.1" "story.demo.1.1" [] with inl l => l | inr _ => [] end) "".

Lemma restart_loses_bindings_witness :
  sqScenarios unbound_batch ≠ [] ∧ ∀ s, s ∈ sqScenarios unbound_batch → scHarnessProfileIDs s = [].
Proof.
  apply (@restart_loses_bindings World gen_manager (scenario_env almost) last_loop restarted
    [GMutation (MScenarios (Some unbound_batch)) (Answered true "")] unbound_batch (Answered true ""));
    [vm_compute; reflexivity|vm_compute; reflexivity|left].
Defined.

(** ** Brackets in string literals *)

(** Unlike workflow/jsonutil, the extraction of the generators counts
    brackets inside of string literals too, and cuts the answer short. *)
Example literal_cuts_answer :
  extractJSONArray ("[" +:+ dq +:+ "close with ]" +:+ dq +:+ "]") = "[" +:+ dq +:+ "close with ]".
Proof. by vm_compute. Qed.
