(* ===== verification/ReqGen.v ===== *)
(** * The requirement generator

    processor/requirement-generator: the request built from an approved or
    changed plan (plan_watcher.go), the parsing of the agent's answer, the
    identifiers and dependencies the system assigns, the merge of a partial
    regeneration, and the component (component.go): claim, dispatch,
    completion, the treatment of refused mutations, retries and the recovery
    of a dispatch after a restart.

    A retry is dispatched by a goroutine of its own.  JSON, the prompt with
    the project's file tree, and the plan's entity identifier are parameters;
    [ExecutionID] and [Prompt] of a request are never set. *)

From stdpp Require Import pretty.
From S2P Require Import Prelude Status Paths Types Stories PlanStore Mutations DispatchRetry.
From S2P Require Import Feedback PlanReviewer Generators.

Local Open Scope string_scope.
Local Open Scope go_scope.

(** ** Requests *)

Record requirementItem := MkRequirementItem {
  riTitle : string;
  riDescription : string;
  riDependsOn : list string;
  riCapabilityName : string;
  riAcceptanceCriteria : list string }.

Record RequirementGeneratorRequest := MkRequirementRequest {
  rgSlug : string;
  rgTitle : string;
  rgTraceID : string;
  rgReplaceRequirementIDs : list string;
  rgRejectionReasons : gmap string string;
  rgGoal : string;
  rgContext : string;
  rgScope : option Scope;
  rgConstraints : list string;
  rgExistingRequirements : list Requirement;
  rgExploration : option Exploration }.

Record pendingDispatch := MkPendingDispatch { pdTrigger : RequirementGeneratorRequest; pdReviewFindings : string }.

(** The reason a decision gives for one requirement. *)
Definition add_reason (needed : gset string) (d : PlanDecision) (reasons : gmap string string) (id : string) : gmap string string :=
  if bool_decide (id ∉ needed) || (default "" (reasons !! id) !=? "") then reasons
  else
    let r := default "" (dRejectionReasons d !! id) in
    if r !=? "" then <[id := r]> reasons
    else if dRationale d !=? "" then <[id := dRationale d]> reasons
    else reasons.

(** The most recent accepted decision comes first. *)
Definition findRejectionReasons (plan : Plan) (deprecatedIDs : list string) : gmap string string :=
  foldl (λ reasons d,
    if dStatus d =? PlanDecisionStatusAccepted then foldl (add_reason (list_to_set deprecatedIDs) d) reasons (dAffectedReqIDs d)
    else reasons) ∅ (reverse (pPlanDecisions plan)).

Definition deprecated_ids (plan : Plan) : list string :=
  rID <$> filter (λ r, rStatus r = RequirementStatusDeprecated) (pRequirements plan).
Definition active_reqs (plan : Plan) : list Requirement :=
  filter (λ r, rStatus r = RequirementStatusActive) (pRequirements plan).

(** The request of [generateFromKVTrigger]; [None] when a changed plan has
    nothing to regenerate. *)
Definition build_trigger (plan : Plan) : option RequirementGeneratorRequest :=
  let s := pScope plan in
  let scope := if negb (is_nil (scpInclude s)) || negb (is_nil (scpCreate s)) || negb (is_nil (scpExclude s)) ||
                  negb (is_nil (scpDoNotTouch s)) then Some s else None in
  let exploration := e ← pExploration plan; if is_nil (exCapabilities e) then None else Some e in
  let deprecated := deprecated_ids plan in
  if (pStatus plan =? StatusChanged) && is_nil deprecated then None else
  let partial := negb (is_nil deprecated) in
  Some (MkRequirementRequest (pSlug plan) (pTitle plan) "" deprecated
          (if partial then findRejectionReasons plan deprecated else ∅)
          (pGoal plan) (pContext plan) scope (pConstraints plan)
          (if partial then active_reqs plan else []) exploration).

(** ** The agent's answer *)

Inductive requirement_error :=
| EmptyRequirementResult
| NoRequirementJSON
| UnparsedRequirements (length : nat)
| MissingRequirementTitle (i : nat).

Fixpoint first_untitled (i : nat) (items : list requirementItem) : option nat :=
  match items with
  | [] => None
  | item :: items => if riTitle item =? "" then Some i else first_untitled (S i) items
  end.

(** The callers pass a list with an element. *)
Definition validateRequirementItems (items : list requirementItem) : list requirementItem + requirement_error :=
  match first_untitled 0 items with
  | Some i => inr (MissingRequirementTitle i)
  | None => inl items
  end.

Section parse.
(** [json.Unmarshal] into an array, and into the object that wraps one. *)
Context (unmarshal unwrap : string → option (list requirementItem)).

Definition read_items (content : string) : option (list requirementItem) :=
  match unmarshal content with
  | Some (x :: items) => Some (x :: items)
  | _ => match unwrap content with
         | Some (x :: items) => Some (x :: items)
         | _ => None
         end
  end.

Definition parseRequirementsFromResult (result : string) : list requirementItem + requirement_error :=
  if result =? "" then inr EmptyRequirementResult else
  match read_items result with
  | Some items => validateRequirementItems items
  | None =>
      let content := if extractJSONArray result =? "" then extractJSONObject result else extractJSONArray result in
      if content =? "" then inr NoRequirementJSON else
      match read_items content with
      | Some items => validateRequirementItems items
      | None => inr (UnparsedRequirements (String.length result))
      end
  end.
End parse.

(** ** Requirements *)

Definition requirement_id (slug : string) (n : nat) : string := "requirement." +:+ slug +:+ "." +:+ pretty n.

Definition seq_offset (trigger : RequirementGeneratorRequest) : nat :=
  if is_nil (rgReplaceRequirementIDs trigger) then 0%nat else length (rgExistingRequirements trigger).

(** Titles of the active requirements, then of the new ones. *)
Definition title_to_id (slug : string) (trigger : RequirementGeneratorRequest) (items : list requirementItem) : gmap string string :=
  map_of (((λ r, (rTitle r, rID r)) <$> filter (λ r, rStatus r = RequirementStatusActive) (rgExistingRequirements trigger)) ++
          imap (λ i item, (riTitle item, requirement_id slug (seq_offset trigger + S i))) items)%list.

Definition buildRequirementsFromItems (now : Z) (planID slug : string) (trigger : RequirementGeneratorRequest)
    (items : list requirementItem) : list Requirement :=
  let titleToID := title_to_id slug trigger items in
  imap (λ i item,
    let id := requirement_id slug (seq_offset trigger + S i) in
    MkRequirement id planID (riTitle item) (riDescription item) (riAcceptanceCriteria item) RequirementStatusActive
      (omap (λ title, match titleToID !! title with
                      | Some dep => if dep =? id then None else Some dep
                      | None => None
                      end) (riDependsOn item))
      (riCapabilityName item) "" now now) items.

(** What a partial regeneration sends: the kept requirements and the new
    ones, without dependencies on what is gone. *)
Definition merge_partial (trigger : RequirementGeneratorRequest) (requirements : list Requirement) : list Requirement :=
  if is_nil (rgReplaceRequirementIDs trigger) || is_nil (rgExistingRequirements trigger) then requirements else
  let replaceSet : gset string := list_to_set (rgReplaceRequirementIDs trigger) in
  let merged := (filter (λ r, rID r ∉ replaceSet) (rgExistingRequirements trigger) ++ requirements)%list in
  let idSet : gset string := list_to_set (rID <$> merged) in
  (λ r, set_rDependsOn (filter (λ d, d ∈ idSet) (rDependsOn r)) r) <$> merged.

(** ** The component *)

Record ReqGenEnv := MkReqGenEnv {
  qeGen : GenEnv;
  qePlanEntityID : string → string;
  qeUnmarshal : string → option (list requirementItem);
  qeUnwrap : string → option (list requirementItem);
  qeText : requirement_error → string;
  qePrompt : nat → RequirementGeneratorRequest → string → string → option Plan → string + string }.

(** A claimed plan, or a retry. *)
Inductive req_job :=
| JobGenerate (plan : Plan)
| JobDispatch (trigger : RequirementGeneratorRequest) (previousError findings : string).

Section generator.
Context {S : Type} `{PlanPort S} (E : ReqGenEnv).
Let E' := qeGen E.
Local Abbreviation RG := (G req_job pendingDispatch S).

Definition sendGenerationFailed (slug feedback : string) : RG () := gfailed E' "requirement-generation" slug feedback.

Definition spawn_job (j : req_job) : RG () := gmodify (λ w, set_gwJobs (gwJobs w ++ [j])%list w).

(** The prompt is rendered before the dispatch is recorded. *)
Definition dispatchRequirementGenerator (trigger : RequirementGeneratorRequest) (previousError reviewFindings : string) : RG () :=
  io ← gtick E';
  let taskID := "reqgen-" +:+ rgSlug trigger +:+ "-" +:+ gioUUID io in
  loaded ← gload E' (rgSlug trigger);
  w ← gread;
  match qePrompt E (gwTick w) trigger previousError reviewFindings (match loaded with inl plan => Some plan | inr _ => None end) with
  | inr e => sendGenerationFailed (rgSlug trigger) e
  | inl prompt =>
      gretry (λ s, (Track (rgSlug trigger) (MkPendingDispatch trigger reviewFindings) s).1);;
      gretry (SetActiveLoop (rgSlug trigger) taskID);;
      gpublish E' (MkGenTask taskID (rgSlug trigger) "" "" prompt)
        (λ e, gretry (Clear (rgSlug trigger));;
              sendGenerationFailed (rgSlug trigger) ("requirement dispatch failed: " +:+ e))
  end.

Definition generateFromKVTrigger (plan : Plan) : RG () :=
  match build_trigger plan with
  | None => sendGenerationFailed (pSlug plan) "changed plan has no deprecated requirements"
  | Some trigger => dispatchRequirementGenerator trigger "" (pReviewFormattedFindings plan)
  end.

(** The closure [retryOrFail] of [handleLoopCompletion]. *)
Definition retryOrFail (slug : string) (dp : pendingDispatch) (errMsg : string) : RG () :=
  tick_or_fail E' slug (sendGenerationFailed slug errMsg)
    (λ _, spawn_job (JobDispatch (pdTrigger dp) errMsg (pdReviewFindings dp))).

(** [publishResults]: the text of the error. *)
Definition publishResults (trigger : RequirementGeneratorRequest) (requirements : list Requirement) : RG (option string) :=
  a ← grequest E' (MRequirements (Some (MkRequirementsReq (rgSlug trigger) (merge_partial trigger requirements) (rgTraceID trigger))));
  mret (match a with
        | NoAnswer e => Some ("requirements mutation request: " +:+ e)
        | Answered true _ => None
        | Answered false e => Some ("requirements mutation failed: " +:+ (if e !=? "" then e else "unknown error"))
        end).

Definition handlePublishError (slug : string) (dp : pendingDispatch) (err : string) : RG () :=
  if Contains err "invalid transition" then gretry (Clear slug)
  else if Contains err "invalid requirement DAG" || Contains err "invalid requirement file ownership" then retryOrFail slug dp err
  else gretry (Clear slug);; sendGenerationFailed slug ("requirements mutation publish failed: " +:+ err).

Definition publish_requirements (slug : string) (dp : pendingDispatch) (requirements : list Requirement) : RG () :=
  err ← publishResults (pdTrigger dp) requirements;
  match err with
  | Some e => handlePublishError slug dp e
  | None => gretry (Clear slug)
  end.

Definition handleLoopCompletion (loop : gen_loop) (dp : pendingDispatch) : RG () :=
  let slug := glPlanSlug loop in
  if glOutcome loop !=? OutcomeSuccess then retryOrFail slug dp (gloop_error E' loop) else
  match parseRequirementsFromResult (qeUnmarshal E) (qeUnwrap E) (glResult loop) with
  | inr e => retryOrFail slug dp (qeText E e)
  | inl items =>
      loaded ← gload E' slug;
      if match loaded with inl plan => EffectiveStatus plan !=? StatusGeneratingRequirements | inr _ => false end
      then gretry (Clear slug) else
      io ← gtick E';
      publish_requirements slug dp
        (buildRequirementsFromItems (gioNow io) (qePlanEntityID E slug) slug (pdTrigger dp) items)
  end.

(** Replaced identifiers, reasons and capabilities are not recovered. *)
Definition recoverDispatchFromKV (slug : string) : RG (option pendingDispatch) :=
  loaded ← gload E' slug;
  mret (match loaded with
        | inr _ => None
        | inl plan =>
            Some (MkPendingDispatch
                    (MkRequirementRequest slug (pTitle plan) "" [] ∅ (pGoal plan) (pContext plan) (Some (pScope plan))
                       (pConstraints plan) (pRequirements plan) None) "")
        end).

Definition resolveDispatchContext (slug : string) : RG (option pendingDispatch) :=
  w ← gread;
  match Snapshot slug (gwRetry w) with
  | Some entry => mret (Some (enPayload entry))
  | None =>
      recovered ← recoverDispatchFromKV slug;
      match recovered with
      | None => mret None
      | Some dp => gretry (λ s, (Track slug dp s).1);; mret (Some dp)
      end
  end.

(** What the watcher does with a loop that passed the filters. *)
Definition complete_loop (loop : gen_loop) : RG () :=
  dp ← resolveDispatchContext (glPlanSlug loop);
  match dp with
  | None => mret ()
  | Some dp =>
      w ← gread;
      if IsStaleLoop (glPlanSlug loop) (glTaskID loop) (gwRetry w) then mret () else handleLoopCompletion loop dp
  end.

Definition watch_loop (loop : gen_loop) : RG () :=
  gwatch_loop "requirement-generation" (λ loop, glPlanSlug loop !=? "") complete_loop loop.

(** One entry of PLAN_STATES. *)
Definition watch_plan (plan : Plan) : RG () :=
  if negb ((pStatus plan =? StatusApproved) || (pStatus plan =? StatusChanged)) || (pGoal plan =? "") then mret () else
  claimed ← gclaim E' (pSlug plan) StatusGeneratingRequirements;
  if claimed : bool then spawn_job (JobGenerate plan) else mret ().

(** A goroutine runs. *)
Definition run_job (i : nat) : RG () :=
  w ← gread;
  match gwJobs w !! i with
  | None => mret ()
  | Some j =>
      gmodify (set_gwJobs (delete i (gwJobs w)));;
      match j with
      | JobGenerate plan => generateFromKVTrigger plan
      | JobDispatch trigger err findings => dispatchRequirementGenerator trigger err findings
      end
  end.

(** ** Runs *)

Inductive reqgen_event :=
| QPlan (plan : Plan)
| QRun (i : nat)
| QLoop (loop : gen_loop)
| QReplayDone
| QRestart
| QElsewhere (p : S).

Definition reqgen_step (e : reqgen_event) : RG () :=
  match e with
  | QPlan plan => watch_plan plan
  | QRun i => run_job i
  | QLoop loop => watch_loop loop
  | QReplayDone => gmodify (set_gwReplayDone true)
  | QRestart => grestart
  | QElsewhere p => gmodify (set_gwPort p)
  end.

Fixpoint run_reqgen (es : list reqgen_event) : RG () :=
  match es with [] => mret () | e :: es => reqgen_step e;; run_reqgen es end.
End generator.
