(* ===== verification/ReqGenFacts.v ===== *)
(** * What the requirement generator guarantees

    The requirements it sends are a faithful reading of the answer, with
    identifiers of their own and dependencies among themselves; a finished
    loop is always acted on.  And where it goes wrong: the identifiers of a
    partial regeneration collide with those that are kept, and a restart
    turns a partial regeneration into a full one. *)

From stdpp Require Import pretty.
From S2P Require Import Prelude Graphs Status Paths Types Stories PlanStore Mutations PlanRuleFacts DispatchRetry.
From S2P Require Import Feedback PlanReviewer ReviewCycle Generators StoryPrepFacts GenCycle ReqGen.

Local Open Scope string_scope.
Local Open Scope go_scope.

(** ** Identifiers and dependencies *)

Lemma requirement_id_inj slug n m : requirement_id slug n = requirement_id slug m → n = m.
Proof. unfold requirement_id. intros H. do 3 apply (inj (String.append _)) in H. by apply (inj pretty) in H. Qed.

Section build.
Context (now : Z) (planID slug : string) (trigger : RequirementGeneratorRequest) (items : list requirementItem).
Let built := buildRequirementsFromItems now planID slug trigger items.

Lemma built_lookup i r : built !! i = Some r → ∃ item, items !! i = Some item ∧
  rID r = requirement_id slug (seq_offset trigger + S i) ∧ rTitle r = riTitle item ∧ rDescription r = riDescription item ∧
  rCapabilityName r = riCapabilityName item ∧ rAcceptanceCriteria r = riAcceptanceCriteria item ∧ rStatus r = RequirementStatusActive ∧
  ∀ d, d ∈ rDependsOn r ↔ d ≠ rID r ∧ ∃ t, t ∈ riDependsOn item ∧ title_to_id slug trigger items !! t = Some d.
Proof.
  unfold built, buildRequirementsFromItems. cbv zeta. rewrite list_lookup_imap. destruct (items !! i) as [item|]; [|done].
  intros [= <-]. exists item. split_and!; try done. intros d. cbn [rDependsOn rID]. rewrite list_elem_of_omap. split.
  - intros (t & Ht & Hd). destruct (title_to_id slug trigger items !! t) as [dep|] eqn:Et; [|done].
    destruct (dep =? _) eqn:Eq; [done|]. injection Hd as ->. apply eqb_false in Eq. eauto.
  - intros (Hne & t & Ht & Hd). exists t. split; [done|]. rewrite Hd. by rewrite (proj2 (eqb_false _ _) Hne).
Qed.

Lemma built_length : length built = length items.
Proof. apply length_imap. Qed.

Lemma built_id i : (i < length items)%nat → requirement_id slug (seq_offset trigger + S i) ∈ rID <$> built.
Proof.
  intros Hi. destruct (lookup_lt_is_Some_2 built i) as [r Hr]; [by rewrite built_length|].
  destruct (built_lookup i r Hr) as (_ & _ & <- & _). apply list_elem_of_fmap_2. by eapply list_elem_of_lookup_2.
Qed.

Lemma built_ids_NoDup : NoDup (rID <$> built).
Proof.
  apply NoDup_alt. intros i j x Hi Hj. rewrite list_lookup_fmap in Hi, Hj.
  destruct (built !! i) as [a|] eqn:Ea; [|done]. destruct (built !! j) as [b|] eqn:Eb; [|done].
  destruct (built_lookup i a Ea) as (_ & _ & Ha & _). destruct (built_lookup j b Eb) as (_ & _ & Hb & _).
  injection Hi as <-. injection Hj as Hj. rewrite Ha, Hb in Hj. apply requirement_id_inj in Hj. lia.
Qed.

End build.

(** ** What is sent *)

(** The requirement that a title stands for: the last of that title. *)
Definition called (reqs : list Requirement) (t d : string) : Prop :=
  ∃ before x after, reqs = (before ++ x :: after)%list ∧ rTitle x = t ∧ rID x = d ∧ ∀ y, y ∈ after → rTitle y ≠ t.

(** A requirement made of the agent's item, under the given number. *)
Definition from_item (slug : string) (n : nat) (item : requirementItem) (r : Requirement) : Prop :=
  rID r = requirement_id slug n ∧ rTitle r = riTitle item ∧ rDescription r = riDescription item ∧
  rCapabilityName r = riCapabilityName item ∧ rAcceptanceCriteria r = riAcceptanceCriteria item ∧ rStatus r = RequirementStatusActive.

(** The kept requirements keep the dependencies on what is sent; a new one
    depends on what the titles of its item stand for, and on nothing else. *)
Record regenerated (slug : string) (keep : list Requirement) (items : list requirementItem) (reqs : list Requirement) : Prop := {
  rg_parts : ∃ new, length new = length items ∧ NoDup (rID <$> new) ∧
    reqs = (((λ r, set_rDependsOn (filter (λ d, d ∈ rID <$> reqs) (rDependsOn r)) r) <$> keep) ++ new)%list ∧
    ∀ i item r, items !! i = Some item → new !! i = Some r → from_item slug (length keep + S i) item r ∧
      ∀ d, d ∈ rDependsOn r ↔ d ≠ rID r ∧ ∃ t, t ∈ riDependsOn item ∧ called reqs t d;
  rg_known : ∀ r d, r ∈ reqs → d ∈ rDependsOn r → d ∈ rID <$> reqs }.

Lemma map_of_last {A} (l : list (string * A)) x a :
  map_of l !! x = Some a ↔ ∃ l1 l2, l = (l1 ++ (x, a) :: l2)%list ∧ x ∉ l2.*1.
Proof.
  unfold map_of. induction l as [|[y b] l IH] using rev_ind.
  { cbn. rewrite lookup_empty. split; [done|]. by intros ([|] & l2 & ? & _). }
  rewrite foldl_snoc. cbn [fst snd]. destruct (decide (y = x)) as [->|Hn].
  - rewrite lookup_insert_eq. split; [intros [= <-]; exists l, []; set_solver|].
    intros (l1 & l2 & Heq & Hx). destruct l2 as [|c l2 _] using rev_ind; [by apply app_inj_tail in Heq as [_ [= ->]]|].
    rewrite app_comm_cons, app_assoc in Heq. apply app_inj_tail in Heq as [_ <-]. destruct Hx. rewrite fmap_app. set_solver.
  - rewrite lookup_insert_ne, IH by done. split.
    + intros (l1 & l2 & -> & Hx). exists l1, (l2 ++ [(y, b)])%list. split; [by rewrite <- app_assoc|]. rewrite fmap_app. set_solver.
    + intros (l1 & l2 & Heq & Hx). destruct l2 as [|c l2 _] using rev_ind; [by apply app_inj_tail in Heq as [_ [= -> _]]|].
      rewrite app_comm_cons, app_assoc in Heq. apply app_inj_tail in Heq as [-> _]. exists l1, l2. split; [done|].
      rewrite fmap_app in Hx. set_solver.
Qed.

Lemma called_map reqs t d : map_of ((λ r, (rTitle r, rID r)) <$> reqs) !! t = Some d ↔ called reqs t d.
Proof.
  rewrite map_of_last. unfold called. split.
  - intros (l1 & l2 & Heq & Hx). apply fmap_app_inv in Heq as (before & rest & -> & Hr & ->).
    destruct rest as [|x after]; [done|]. injection Hr as Ht Hd Hl. subst l2. exists before, x, after. split_and!; [done..|].
    intros y Hy Hty. apply Hx. rewrite <- list_fmap_compose. apply list_elem_of_fmap. by exists y.
  - intros (before & x & after & -> & <- & <- & Ha). exists ((λ r, (rTitle r, rID r)) <$> before), ((λ r, (rTitle r, rID r)) <$> after).
    split; [by rewrite fmap_app|].
    rewrite <- list_fmap_compose. intros (y & Hy & Hin)%list_elem_of_fmap. by apply (Ha y).
Qed.

Lemma called_known reqs t d : called reqs t d → d ∈ rID <$> reqs.
Proof. intros (before & x & after & -> & _ & <- & _). rewrite fmap_app. set_solver. Qed.

Lemma first_err_elem {A B} (f : A → option B) l e : first_err f l = Some e → ∃ x, x ∈ l ∧ f x = Some e.
Proof. intros (l1 & x & l2 & -> & Hx & _)%first_err_Some. exists x. split; [set_solver|done]. Qed.

Lemma deps_known_no_dangling reqs : (∀ r d, r ∈ reqs → d ∈ rDependsOn r → d ∈ rID <$> reqs) →
  ∀ id dep, ValidateRequirementDAG reqs ≠ Some (ErrInvalidRequirementDAG (DepUnknown id dep)).
Proof.
  intros Hk id dep H. unfold ValidateRequirementDAG, validate_dag in H.
  destruct (check_refs (req_node <$> reqs)) as [e|] eqn:Ec; cbn in H.
  - injection H as ->. unfold check_refs in Ec. apply first_err_elem in Ec as (n & Hn & Ec).
    apply first_err_elem in Ec as (d & Hd & Ec). destruct (d =? n.1); [done|].
    apply list_elem_of_fmap in Hn as (r & -> & Hr). cbn [req_node snd] in Hd. specialize (Hk r d Hr Hd).
    rewrite bool_decide_true in Ec; [done|]. apply elem_of_list_to_set. rewrite <- list_fmap_compose. exact Hk.
  - unfold detect_cycle in H. by destruct (visit_roots _ _ _ _).
Qed.

Lemma build_trigger_fields plan trigger : build_trigger plan = Some trigger →
  rgSlug trigger = pSlug plan ∧ rgReplaceRequirementIDs trigger = deprecated_ids plan ∧
  rgExistingRequirements trigger = (if is_nil (deprecated_ids plan) then [] else active_reqs plan).
Proof.
  unfold build_trigger. cbv zeta. destruct (_ && _); [done|]. intros [= <-]. split_and!; [done|done|]. cbn.
  by destruct (is_nil (deprecated_ids plan)).
Qed.

Lemma filter_keeps {A} (P : A → Prop) `{∀ x, Decision (P x)} (l : list A) : (∀ x, x ∈ l → P x) → filter P l = l.
Proof.
  induction l as [|x l IH]; intros Hl; [done|]. rewrite filter_cons_True by (apply Hl; left). rewrite IH; [done|].
  intros y Hy. apply Hl. by right.
Qed.

Lemma kept_active plan : NoDup (rID <$> pRequirements plan) →
  filter (λ r, rID r ∉@{gset string} list_to_set (deprecated_ids plan)) (active_reqs plan) = active_reqs plan.
Proof.
  intros Hnd. apply filter_keeps. intros r Hr. apply list_elem_of_filter in Hr as [Hs Hr].
  rewrite elem_of_list_to_set. intros (r' & He & [Hs' Hr']%list_elem_of_filter)%list_elem_of_fmap.
  assert (r = r') as <- by (by eapply NoDup_fmap_inj_elem). congruence.
Qed.

(** The trigger of a generation: what exists is kept, and only a partial
    generation keeps anything. *)
Record keeps_existing (trigger : RequirementGeneratorRequest) : Prop := {
  ke_partial : rgReplaceRequirementIDs trigger = [] → rgExistingRequirements trigger = [];
  ke_active : ∀ r, r ∈ rgExistingRequirements trigger →
    rStatus r = RequirementStatusActive ∧ rID r ∉ rgReplaceRequirementIDs trigger }.

Lemma trigger_keeps plan trigger : NoDup (rID <$> pRequirements plan) → build_trigger plan = Some trigger → keeps_existing trigger.
Proof.
  intros Hnd Hb. destruct (build_trigger_fields plan trigger Hb) as (_ & Hr & He). split.
  - intros Hn. rewrite He, <- Hr, Hn. done.
  - intros r Hk. rewrite He in Hk. destruct (is_nil _); [set_solver|]. apply list_elem_of_filter in Hk as Ha. split; [by apply Ha|].
    rewrite Hr. rewrite <- (kept_active plan Hnd) in Hk. apply list_elem_of_filter in Hk as [Hk _]. by rewrite elem_of_list_to_set in Hk.
Qed.

Section sent.
Context (now : Z) (planID slug : string) (trigger : RequirementGeneratorRequest) (items : list requirementItem).
Context (Hk : keeps_existing trigger).
Let built := buildRequirementsFromItems now planID slug trigger items.
Let reqs := merge_partial trigger built.
Let keep := rgExistingRequirements trigger.

(** Everything is sent, without the dependencies on what is not. *)
Lemma sent_parts : ∃ new,
  reqs = (((λ r, set_rDependsOn (filter (λ d, d ∈ rID <$> reqs) (rDependsOn r)) r) <$> keep) ++ new)%list ∧
  Forall2 (λ b r, r = b ∨ r = set_rDependsOn (filter (λ d, d ∈ rID <$> reqs) (rDependsOn b)) b) built new.
Proof.
  set (trim := λ r, set_rDependsOn (filter (λ d, d ∈ rID <$> reqs) (rDependsOn r)) r).
  destruct (is_nil (rgReplaceRequirementIDs trigger) || is_nil (rgExistingRequirements trigger)) eqn:Em.
  - assert (keep = []) as ->.
    { apply orb_true_iff in Em as [Em|Em]; apply is_nil_true in Em; [by apply ke_partial|done]. }
    exists built. split; [by unfold reqs, merge_partial; rewrite Em|]. apply Forall_Forall2_diag, Forall_forall. by left.
  - assert (filter (λ r, rID r ∉@{gset string} list_to_set (rgReplaceRequirementIDs trigger)) keep = keep) as Hf.
    { apply filter_keeps. intros r Hin. rewrite elem_of_list_to_set. by apply (ke_active _ Hk). }
    exists (trim <$> built). split.
    + rewrite <- fmap_app. unfold reqs at 1, merge_partial. rewrite Em. cbv zeta. fold keep. rewrite Hf.
      apply list_fmap_ext. intros i r _. unfold trim. f_equal. apply list_filter_iff. intros d.
      rewrite elem_of_list_to_set. unfold reqs, merge_partial. rewrite Em. cbv zeta. fold keep. by rewrite Hf, <- list_fmap_compose.
    + apply Forall2_fmap_r, Forall_Forall2_diag, Forall_forall. by right.
Qed.

(** The titles are those of what is sent. *)
Lemma titles_sent t d : title_to_id slug trigger items !! t = Some d ↔ called reqs t d.
Proof.
  rewrite <- called_map. unfold title_to_id. rewrite filter_keeps by (intros r Hr; by apply (ke_active _ Hk)).
  assert (imap (λ i item, (riTitle item, requirement_id slug (seq_offset trigger + S i))) items =
    (λ r, (rTitle r, rID r)) <$> built) as ->.
  { apply list_eq. intros i. unfold built, buildRequirementsFromItems. cbv zeta.
    rewrite list_lookup_fmap, !list_lookup_imap. by destruct (items !! i). }
  destruct sent_parts as (new & -> & Hnew). rewrite !fmap_app, <- list_fmap_compose. fold keep.
  assert ((λ r, (rTitle r, rID r)) <$> new = (λ r, (rTitle r, rID r)) <$> built) as ->; [|done].
  clear -Hnew. induction Hnew as [|b r bs rs [->| ->] _ IH]; cbn; [done|by rewrite IH..].
Qed.

(** A new requirement depends on what its titles stand for. *)
Lemma new_depends b r item i : built !! i = Some b → items !! i = Some item →
  r = b ∨ r = set_rDependsOn (filter (λ d, d ∈ rID <$> reqs) (rDependsOn b)) b →
  from_item slug (seq_offset trigger + S i) item r ∧
  ∀ d, d ∈ rDependsOn r ↔ d ≠ rID r ∧ ∃ t, t ∈ riDependsOn item ∧ called reqs t d.
Proof.
  intros Hb Hi Hr. destruct (built_lookup _ _ _ _ _ _ _ Hb) as (item' & Hi' & H1 & H2 & H3 & H4 & H5 & H6 & H7).
  rewrite Hi in Hi'. injection Hi' as <-. setoid_rewrite titles_sent in H7.
  destruct Hr as [->| ->]; [by split_and!|]. split; [by split_and!|]. intros d. cbn [rDependsOn set_rDependsOn rID].
  rewrite list_elem_of_filter, H7. split; [tauto|]. intros (Hne & t & Ht & Hc). split; [by eapply called_known|eauto].
Qed.
End sent.

(** C30: The requirements sent for a plan whose requirements have identifiers of
    their own, on the trigger that the generator built for it, are a faithful
    reading of the answer: in a full generation one active requirement per
    item, numbered from 1; in a partial one the active requirements, which
    lose exactly the dependencies on what is not sent, followed by the new
    ones, numbered after them.  A new requirement depends exactly on the
    requirements that the titles of its item stand for among those sent (the
    last of a title, and not on itself), so that a title that names nothing is
    dropped, every dependency sent names a requirement that is sent, and
    the validation of the dependency graph never gets to report one that does
    not. *)
Theorem sent_requirements_faithful now planID plan trigger items :
  NoDup (rID <$> pRequirements plan) → build_trigger plan = Some trigger →
  let reqs := merge_partial trigger (buildRequirementsFromItems now planID (pSlug plan) trigger items) in
  let keep := if is_nil (deprecated_ids plan) then [] else active_reqs plan in
  regenerated (pSlug plan) keep items reqs ∧
  ∀ id dep, ValidateRequirementDAG reqs ≠ Some (ErrInvalidRequirementDAG (DepUnknown id dep)).
Proof.
  intros Hnd Hb. cbv zeta. destruct (build_trigger_fields plan trigger Hb) as (Hs & Hr & He).
  pose proof (trigger_keeps plan trigger Hnd Hb) as Hk. rewrite <- He.
  assert (seq_offset trigger = length (rgExistingRequirements trigger)) as Ho.
  { unfold seq_offset. destruct (is_nil (rgReplaceRequirementIDs trigger)) eqn:En; [|done]. apply is_nil_true in En. by rewrite (ke_partial _ Hk En). }
  destruct (sent_parts now planID (pSlug plan) trigger items Hk) as (new & Hreqs & Hnew).
  pose proof (new_depends now planID (pSlug plan) trigger items Hk) as Hdep.
  set (built := buildRequirementsFromItems _ _ _ _ _) in *. set (reqs := merge_partial trigger built) in *.
  assert (∀ i item r, items !! i = Some item → new !! i = Some r →
    from_item (pSlug plan) (length (rgExistingRequirements trigger) + S i) item r ∧
    ∀ d, d ∈ rDependsOn r ↔ d ≠ rID r ∧ ∃ t, t ∈ riDependsOn item ∧ called reqs t d) as Hitem.
  { intros i item r Hi Hri. destruct (Forall2_lookup_r _ _ _ _ _ Hnew Hri) as (b & Hbi & Hbr). rewrite <- Ho. by eapply Hdep. }
  cut (regenerated (pSlug plan) (rgExistingRequirements trigger) items reqs).
  { intros Hreg. split; [done|]. apply deps_known_no_dangling, Hreg. }
  split.
  - exists new. split_and!; [rewrite <- (Forall2_length _ _ _ Hnew); apply built_length| |done|done].
    replace (rID <$> new) with (rID <$> built); [apply built_ids_NoDup|].
    clear -Hnew. induction Hnew as [|b r bs rs [->| ->] _ IH]; cbn; [done|by rewrite IH..].
  - intros r d Hin Hd. rewrite Hreqs in Hin. apply elem_of_app in Hin as [(k & -> & _)%list_elem_of_fmap|(i & Hi)%list_elem_of_lookup].
    + cbn [rDependsOn set_rDependsOn] in Hd. by apply list_elem_of_filter in Hd as [? _].
    + destruct (items !! i) as [item|] eqn:Ei.
      * destruct (proj1 (proj2 (Hitem i item r Ei Hi) d) Hd) as (_ & t & _ & Hc). by eapply called_known.
      * apply lookup_ge_None in Ei. apply lookup_lt_Some in Hi. rewrite <- (Forall2_length _ _ _ Hnew) in Hi.
        unfold built in Hi. rewrite built_length in Hi. lia.
Qed.

(** ** Identifiers that collide *)

Lemma split_by_status l : (∀ r, r ∈ l → rStatus r = RequirementStatusActive ∨ rStatus r = RequirementStatusDeprecated) →
  length l = (length (filter (λ r, rStatus r = RequirementStatusActive) l) +
              length (filter (λ r, rStatus r = RequirementStatusDeprecated) l))%nat.
Proof.
  induction l as [|r l IH]; intros Hl; [done|]. specialize (IH (λ x Hx, Hl x (list_elem_of_further _ _ _ Hx))).
  destruct (Hl r (list_elem_of_here _ _)) as [E|E].
  - rewrite filter_cons_True, filter_cons_False by (try done; by rewrite E). cbn. by rewrite <- IH.
  - rewrite filter_cons_False, filter_cons_True by (try done; by rewrite E). cbn [length]. rewrite IH. lia.
Qed.

(** Two requirements with these titles have one identifier. *)
Definition ids_collide (reqs : list Requirement) (t1 t2 : string) : Prop :=
  ∃ i j a b, i ≠ j ∧ reqs !! i = Some a ∧ reqs !! j = Some b ∧ rID a = rID b ∧ rTitle a = t1 ∧ rTitle b = t2.

(** C39: Regenerating part of the requirements can make identifiers collide:
    new requirements are numbered from the count of the active ones.  When a
    plan has active and deprecated requirements only, its last requirement is
    active and has the identifier of its position, and exactly as many items
    come back as were deprecated (at least one), then the last new requirement
    gets the identifier of that kept one, and both are sent. *)
Theorem partial_regen_ids_collide now planID plan trigger items front r item :
  build_trigger plan = Some trigger → pRequirements plan = (front ++ [r])%list → NoDup (rID <$> pRequirements plan) →
  rStatus r = RequirementStatusActive → rID r = requirement_id (pSlug plan) (length (pRequirements plan)) →
  (∀ x, x ∈ pRequirements plan → rStatus x = RequirementStatusActive ∨ rStatus x = RequirementStatusDeprecated) →
  deprecated_ids plan ≠ [] → length items = length (deprecated_ids plan) → last items = Some item →
  let reqs := merge_partial trigger (buildRequirementsFromItems now planID (pSlug plan) trigger items) in
  ids_collide reqs (rTitle r) (riTitle item).
Proof.
  intros Hb Hf Hnd Hs Hid Hall Hd Hlen Hlast. cbv zeta. destruct (build_trigger_fields plan trigger Hb) as (_ & Hr & He).
  rewrite (proj2 (is_nil_false _) Hd) in He. set (built := buildRequirementsFromItems now planID (pSlug plan) trigger items).
  assert (r ∈ active_reqs plan) as Hra by (apply list_elem_of_filter; split; [done|rewrite Hf; set_solver]).
  assert (is_nil (active_reqs plan) = false) as Hne by (apply is_nil_false; intros E; rewrite E in Hra; by apply elem_of_nil in Hra).
  apply list_elem_of_lookup in Hra as [i Hi].
  assert (∃ b, built !! (length items - 1)%nat = Some b) as [b Hbb].
  { apply lookup_lt_is_Some. unfold built. rewrite built_length. destruct items; [done|cbn; lia]. }
  destruct (built_lookup _ _ _ _ _ _ _ Hbb) as (item' & Hi' & Hbid & Hbt & _).
  rewrite last_lookup in Hlast. replace (Nat.pred (length items)) with (length items - 1)%nat in Hlast by lia. rewrite Hi' in Hlast. injection Hlast as ->.
  assert (rID b = rID r) as Hsame.
  { rewrite Hbid, Hid. f_equal. unfold seq_offset. rewrite Hr, (proj2 (is_nil_false _) Hd), He.
    unfold active_reqs. rewrite (split_by_status (pRequirements plan) Hall). unfold deprecated_ids in Hlen. rewrite length_fmap in Hlen.
    assert (0 < length items)%nat by (destruct items; [done|cbn; lia]). lia. }
  unfold merge_partial. rewrite Hr, He, (proj2 (is_nil_false _) Hd), Hne, (kept_active _ Hnd). cbn [orb]. cbv zeta.
  set (trim := λ r0, set_rDependsOn _ r0). exists i, (length (active_reqs plan) + (length items - 1))%nat, (trim r), (trim b).
  pose proof (lookup_lt_Some _ _ _ Hi). split_and!; [lia| | |done|done|done].
  - rewrite list_lookup_fmap, lookup_app_l, Hi by done. done.
  - rewrite list_lookup_fmap, lookup_app_r by lia. replace (_ + _ - _)%nat with (length items - 1)%nat by lia. by rewrite Hbb.
Qed.

(** ** What the component does *)

Section component.
Context {S : Type} `{PlanPort S} (E : ReqGenEnv).

(** Everything but a requirements mutation. *)
Definition no_requirements (o : gen_output) : Prop := match o with GMutation (MRequirements _) _ => False | _ => True end.

Lemma req_quiet_retry slug dp err : gemits no_requirements (retryOrFail (S := S) E slug dp err).
Proof. unfold retryOrFail, sendGenerationFailed, spawn_job. gemits_auto. Qed.

Lemma quiet_publish_error slug dp err : gemits no_requirements (handlePublishError (S := S) E slug dp err).
Proof. pose proof req_quiet_retry. unfold handlePublishError, sendGenerationFailed. gemits_auto. Qed.

(** What the handling of a finished loop sends. *)
Lemma handle_sends loop dp (w : GWorld req_job pendingDispatch S) new r a :
  gwOut (handleLoopCompletion E loop dp w).1 = (gwOut w ++ new)%list → GMutation (MRequirements (Some r)) a ∈ new →
  ∃ items now, parseRequirementsFromResult (qeUnmarshal E) (qeUnwrap E) (glResult loop) = inl items ∧ glOutcome loop = OutcomeSuccess ∧
    rqSlug r = rgSlug (pdTrigger dp) ∧
    rqRequirements r = merge_partial (pdTrigger dp)
      (buildRequirementsFromItems now (qePlanEntityID E (glPlanSlug loop)) (glPlanSlug loop) (pdTrigger dp) items).
Proof.
  intros Ho Hin. assert (∀ A (m : G req_job pendingDispatch S A) w1, gemits no_requirements m → gwOut (m w1).1 = (gwOut w1 ++ new)%list → False) as Hq.
  { intros A m w1 Hm Hw. pose proof (gemits_all _ _ _ _ Hm Hw) as HF. rewrite Forall_forall in HF. by apply (HF _ Hin). }
  unfold handleLoopCompletion in Ho. cbv zeta in Ho.
  destruct (glOutcome loop !=? OutcomeSuccess) eqn:Eo; [by destruct (Hq _ _ _ (req_quiet_retry _ _ _) Ho)|].
  apply (proj1 (negb_false_iff _)), (proj1 (eqb_true _ _)) in Eo.
  destruct (parseRequirementsFromResult _ _ _) as [items|e]; [|by destruct (Hq _ _ _ (req_quiet_retry _ _ _) Ho)].
  rewrite G_bind_eq in Ho. set (res := gload (qeGen E) (glPlanSlug loop) w) in *. change (gwOut w) with (gwOut res.1) in Ho.
  destruct (match res.2 with inl plan => _ | inr _ => _ end); [by destruct (Hq _ _ _ (gemits_retry _ _) Ho)|].
  rewrite G_bind_eq in Ho. cbn [gtick fst snd] in Ho. set (now := gioNow _) in Ho. exists items, now.
  set (reqs := buildRequirementsFromItems _ _ _ _ _) in *.
  assert (gemits (λ o, match o with GMutation (MRequirements x) _ => x = Some (MkRequirementsReq (rgSlug (pdTrigger dp))
    (merge_partial (pdTrigger dp) reqs) (rgTraceID (pdTrigger dp))) | _ => True end)
    (publish_requirements (S := S) E (glPlanSlug loop) dp reqs)) as Hp.
  { unfold publish_requirements, publishResults. apply gemits_bind; [|intros [e|]; [|apply gemits_retry]].
    - apply gemits_bind; [by apply gemits_request|intros x; apply gemits_ret].
    - eapply gemits_mono; [apply quiet_publish_error|]. intros [t|m x]; [done|by destruct m]. }
  pose proof (gemits_all _ _ _ _ Hp Ho) as HF. rewrite Forall_forall in HF. injection (HF _ Hin) as ->. by split_and!.
Qed.

(** A restart turns a partial regeneration into a full one: the dispatch
    is rebuilt without the identifiers to replace, so when the agent that was
    asked for replacements only answers after the restart, its items are sent
    as the whole list, numbered from 1, and the requirements to be kept are
    gone. *)
Theorem restart_regenerates_all loop (w : GWorld req_job pendingDispatch S) new r a :
  gwRetry w !! glPlanSlug loop = None →
  gwOut (watch_loop E loop w).1 = (gwOut w ++ new)%list → GMutation (MRequirements (Some r)) a ∈ new →
  ∃ items, parseRequirementsFromResult (qeUnmarshal E) (qeUnwrap E) (glResult loop) = inl items ∧
    length (rqRequirements r) = length items ∧
    ∀ i item q, items !! i = Some item → rqRequirements r !! i = Some q → from_item (glPlanSlug loop) (Datatypes.S i) item q.
Proof.
  intros Hn Ho Hin. assert (∀ out, out = (gwOut w ++ new)%list → out = gwOut w → False) as Hq.
  { intros out H1 H2. rewrite H2 in H1. assert (new = []) as -> by (apply (app_inv_head (gwOut w)); by rewrite app_nil_r). by apply elem_of_nil in Hin. }
  unfold watch_loop, gwatch_loop in Ho. destruct (negb (glTerminal loop) || _ || _ || _) in Ho; [exact (False_ind _ (Hq _ Ho eq_refl))|].
  rewrite G_bind_eq in Ho. cbn [gread fst snd] in Ho. destruct (negb (gwReplayDone w) || _) in Ho; [exact (False_ind _ (Hq _ Ho eq_refl))|].
  rewrite G_bind_eq in Ho. cbn [gmodify fst snd] in Ho. unfold complete_loop, resolveDispatchContext, recoverDispatchFromKV in Ho.
  rewrite !G_bind_eq in Ho. cbn [gread fst snd] in Ho. change (gwRetry (set_gwSeen _ w)) with (gwRetry w) in Ho.
  unfold Snapshot in Ho. rewrite Hn in Ho. rewrite !G_bind_eq in Ho. set (res := gload _ _ _) in Ho.
  destruct res.2 as [plan|e]; cbn [mret G_ret fst snd] in Ho; [|exact (False_ind _ (Hq _ Ho eq_refl))].
  set (dp := MkPendingDispatch _ _) in Ho. rewrite !G_bind_eq in Ho. cbn [gretry gmodify gread mret G_ret fst snd] in Ho. set (w2 := set_gwRetry _ res.1) in Ho.
  rewrite G_bind_eq in Ho. cbn [gread fst snd] in Ho. destruct (IsStaleLoop _ _ (gwRetry w2)); [exact (False_ind _ (Hq _ Ho eq_refl))|]. change (gwOut w) with (gwOut w2) in Ho.
  destruct (handle_sends loop dp w2 new r a Ho Hin) as (items & now & Hp & _ & _ & Hr). exists items. split; [done|].
  unfold merge_partial in Hr. cbn [dp pdTrigger rgReplaceRequirementIDs is_nil orb] in Hr. rewrite Hr. split; [apply built_length|].
  intros i item q Hi Hq'. destruct (built_lookup _ _ _ _ _ _ _ Hq') as (item' & Hi' & H1 & H2 & H3 & H4 & H5 & H6 & _).
  rewrite Hi in Hi'. injection Hi' as <-. by split_and!.
Qed.

(** ** Finished loops *)

Context (running : ∀ n, gioCancelled (geIO (qeGen E) n) = false).

(** An output, or a goroutine that will dispatch. *)
Definition proceeds (w w' : GWorld req_job pendingDispatch S) : Prop :=
  (∃ new, gwOut w' = (gwOut w ++ new)%list ∧ new ≠ []) ∨ ∃ j, gwJobs w' = (gwJobs w ++ [j])%list.

Lemma retry_proceeds slug dp err w : proceeds w (retryOrFail E slug dp err w).1.
Proof.
  unfold retryOrFail, tick_or_fail. rewrite !G_bind_eq. cbn [gtick gread fst snd]. rewrite running. set (w1 := set_gwTick _ w).
  destruct (Tick _ _ _ _) as [s [[e|] ok]]; rewrite G_bind_eq; cbn [gmodify fst snd].
  - destruct ok; cbn [negb].
    + right. by eexists.
    + left. apply (gresponds_failed (J := req_job) (P := pendingDispatch) (qeGen E) "requirement-generation" slug err (set_gwRetry s w1)).
  - left. apply (gresponds_failed (J := req_job) (P := pendingDispatch) (qeGen E) "requirement-generation" slug err (set_gwRetry s w1)).
Qed.

Lemma publish_proceeds slug dp reqs w : proceeds w (publish_requirements E slug dp reqs w).1.
Proof.
  left. assert (gresponds (publish_requirements (S := S) E slug dp reqs)) as Hp; [|apply Hp].
  unfold publish_requirements. apply gresponds_l.
  - apply gresponds_l; [apply gresponds_request|intros a; apply gemits_ret].
  - intros [e|]; [|apply gemits_retry]. eapply gemits_mono; [apply quiet_publish_error|done].
Qed.

(** A finished loop of the requirement generator always has a
    consequence: while the component runs, the end of the loop under way
    leads to a message to the plan manager or to another dispatch, unless
    the plan has left generating_requirements, and then the bookkeeping is
    cleared.  After a restart this needs the plan to be readable. *)
Theorem requirement_loop_concluded loop w :
  glTerminal loop = true → glWorkflowSlug loop = "semspec-planning" → glWorkflowStep loop = "requirement-generation" →
  glPlanSlug loop ≠ "" → gwReplayDone w = true → (glID loop ∉ gwSeen w) →
  IsStaleLoop (glPlanSlug loop) (glTaskID loop) (gwRetry w) = false → is_Some (gwRetry w !! glPlanSlug loop) →
  let w' := (watch_loop (S := S) E loop w).1 in
  proceeds w w' ∨
  ∃ plan, (gload (qeGen E) (glPlanSlug loop) w).2 = inl plan ∧ EffectiveStatus plan ≠ StatusGeneratingRequirements ∧
    gwOut w' = gwOut w ∧ gwRetry w' !! glPlanSlug loop = None.
Proof.
  intros Ht Hw Hs Hp Hr Hn Hst [e He]. cbv zeta. unfold watch_loop. rewrite gwatch_live; [|done..|by apply negb_true_iff, eqb_false].
  set (w1 := set_gwSeen _ w). unfold complete_loop, resolveDispatchContext. rewrite !G_bind_eq. cbn [gread fst snd].
  change (gwRetry w1) with (gwRetry w). unfold Snapshot. rewrite He. cbn [mret G_ret fst snd]. rewrite G_bind_eq. cbn [gread fst snd].
  change (gwRetry w1) with (gwRetry w). rewrite Hst. unfold handleLoopCompletion. cbv zeta.
  destruct (glOutcome loop !=? OutcomeSuccess); [left; exact (retry_proceeds _ _ _ w1)|].
  destruct (parseRequirementsFromResult _ _ _) as [items|err]; [|left; exact (retry_proceeds _ _ _ w1)].
  rewrite G_bind_eq. change (gload (qeGen E) (glPlanSlug loop) w).2 with (gload (J := req_job) (P := pendingDispatch) (qeGen E) (glPlanSlug loop) w1).2.
  set (res := gload _ _ w1). destruct (match res.2 with inl plan => _ | inr _ => _ end) eqn:Es.
  - right. destruct res.2 as [plan|]; [|done]. exists plan. apply neqb_true in Es. split_and!; [done|done|done|]. apply lookup_delete_eq.
  - left. rewrite G_bind_eq. cbn [gtick fst snd]. exact (publish_proceeds _ _ _ (set_gwTick _ res.1)).
Qed.
End component.

(** ** Over the plan manager *)

Section cycle.
Context (PE : Env) (row : Plan → string) (text : mutation_error → string) (E : ReqGenEnv) (Hio : healthy PE).

(** The plan manager fills in the plan's identifier. *)
Definition with_plan_id (slug : string) (r : Requirement) : Requirement :=
  if rPlanID r =? "" then set_rPlanID (envPlanEntityID PE slug) r else r.

Lemma requirements_taken slug reqs trace w p : wCache w !! slug = Some p → pSlug p = slug → ValidateSlug slug = None →
  EffectiveStatus p = StatusGeneratingRequirements → reqs ≠ [] → ValidateRequirementDAG reqs = None →
  ValidateRequirementCapabilityCoverage (pExploration p) (with_plan_id slug <$> reqs) = None →
  ∃ w' q, handle PE (MRequirements (Some (MkRequirementsReq slug reqs trace))) w = (w', None) ∧
    wCache w' !! slug = Some q ∧ EffectiveStatus q = StatusRequirementsGenerated ∧ pRequirements q = with_plan_id slug <$> reqs.
Proof.
  intros Hc Hp Hv Hs Hr%is_nil_false Hd Hcov. cbn [handle handleRequirementsMutation rqSlug rqRequirements].
  rewrite (slug_nonempty _ Hv), Hr, Hd. cbn [orb]. rewrite (with_plan_cached _ _ _ _ _ Hc). cbv zeta. unfold guard_transition, can. rewrite Hs.
  change (Status_CanTransitionTo StatusGeneratingRequirements StatusRequirementsGenerated) with true.
  change (λ r, if rPlanID r =? "" then _ else r) with (with_plan_id slug). rewrite Hcov.
  set (q := set_pStatus _ _). destruct (save_healthy PE Hio q (ticked w)) as (w' & Hw & Hq); [by rewrite <- Hp in Hv|].
  exists w', q. unfold save_reply, mbind, M_bind. rewrite Hw. split_and!; [done| |done|done]. by rewrite <- Hp.
Qed.

(** A good answer becomes the plan's requirements: when nothing fails
    outside and the plan waits in generating_requirements, the end of the
    loop under way with items whose requirements form an acyclic graph and
    cover the capabilities takes the plan to requirements_generated with
    exactly those requirements. *)
Theorem requirements_reach_plan loop (w : GWorld req_job pendingDispatch World) p dp items :
  let slug := glPlanSlug loop in
  let reqs := merge_partial (pdTrigger dp) (buildRequirementsFromItems (gioNow (geIO (qeGen E) (S (gwTick w)))) (qePlanEntityID E slug) slug (pdTrigger dp) items) in
  stored row (qeGen E) slug (gwPort w) p → EffectiveStatus p = StatusGeneratingRequirements → gioErr (geIO (qeGen E) (gwTick w)) = None →
  glOutcome loop = OutcomeSuccess → rgSlug (pdTrigger dp) = slug →
  parseRequirementsFromResult (qeUnmarshal E) (qeUnwrap E) (glResult loop) = inl items →
  reqs ≠ [] → ValidateRequirementDAG reqs = None →
  ValidateRequirementCapabilityCoverage (pExploration p) (with_plan_id slug <$> reqs) = None →
  let w' := (handleLoopCompletion (H := direct PE row text) E loop dp w).1 in
  gwRetry w' !! slug = None ∧
  ∃ q, visible (gwPort w') slug = Some q ∧ EffectiveStatus q = StatusRequirementsGenerated ∧ pRequirements q = with_plan_id slug <$> reqs.
Proof.
  cbv zeta. intros Hst He Herr Ho Hts Hp Hr Hd Hcov. unfold handleLoopCompletion. cbv zeta. rewrite Ho, eqb_refl. cbn [negb]. rewrite Hp.
  rewrite G_bind_eq, (load_stored PE row text _ _ _ _ Hst Herr). cbn [fst snd]. rewrite He, eqb_refl. cbn [negb].
  rewrite G_bind_eq. cbn [gtick fst snd gwTick set_gwTick]. set (w1 := set_gwTick _ _).
  unfold publish_requirements, publishResults. rewrite !G_bind_eq, Hts. set (reqs := merge_partial _ _) in *. destruct Hst as (Hc & _ & Hps & Hvs & _).
  destruct (requirements_taken (glPlanSlug loop) reqs (rgTraceID (pdTrigger dp)) (gwPort w1) p) as (w2 & q & Hh & Hc2 & Hq & Hqs); try done.
  destruct (request_accepted PE row text (J := req_job) (P := pendingDispatch) (qeGen E) _ w1 w2 Hh) as (Ha & Hw & Hrt). rewrite Ha. cbn [mret G_ret fst snd].
  split; [apply lookup_delete_eq|]. exists q. split_and!; [|done|done]. unfold visible. cbn [gretry gmodify fst gwPort set_gwRetry].
  by rewrite Hw, Hc2.
Qed.
End cycle.

(** ** A plan is generated, and then changed *)

Definition with_status (s : RequirementStatus) (r : Requirement) : Requirement :=
  MkRequirement (rID r) (rPlanID r) (rTitle r) (rDescription r) (rAcceptanceCriteria r) s (rDependsOn r) (rCapabilityName r)
    (rRecoveryHint r) (rCreatedAt r) (rUpdatedAt r).
Definition req_items : list requirementItem :=
  [MkRequirementItem "read" "" [] "" ["reads"]; MkRequirementItem "show" "" ["read"; "misspelt"] "" ["shows"]].
Definition goal_plan (st : Status) : Plan := set_pGoal "telemetry" (demo_plan st).

(** The decoder gives the plan the component is asked about. *)
Definition req_env (plan : Plan) (items : list requirementItem) : ReqGenEnv :=
  MkReqGenEnv (gen_env plan) (λ s, "plan." +:+ s) (λ _, Some items) (λ _, None) (λ _, "bad") (λ _ _ _ _ _, inl "generate").
Definition req_loop : gen_loop :=
  MkGenLoop "L1" "reqgen-demo-id" true "semspec-planning" "requirement-generation" "demo" "" "" "" OutcomeSuccess "" "[]".
Definition req_run (plan : Plan) (items : list requirementItem) : GWorld req_job pendingDispatch World :=
  (run_reqgen (H := gen_manager) (req_env (set_pStatus StatusGeneratingRequirements plan) items) [QPlan plan; QRun 0; QLoop req_loop]
    (gen_world plan)).1.

(** A dependency that names nothing is gone. *)
Example requirements_generated :
  ((λ p, (EffectiveStatus p, (λ r, (rID r, rTitle r, rDependsOn r)) <$> pRequirements p)) <$>
     visible (gwPort (req_run (goal_plan StatusApproved) req_items)) "demo") =
    Some (StatusRequirementsGenerated,
      [("requirement.demo.1", "read", []); ("requirement.demo.2", "show", ["requirement.demo.1"])]) ∧
  gwRetry (req_run (goal_plan StatusApproved) req_items) = ∅.
Proof. by vm_compute. Qed.

(** The first requirement is to be replaced, the second to be kept. *)
Definition kept_req : Requirement := sample_req "requirement.demo.2" [].
Definition changed_plan : Plan :=
  set_pRequirements [with_status RequirementStatusDeprecated (sample_req "requirement.demo.1" []); kept_req] (goal_plan StatusChanged).
Definition new_item : requirementItem := MkRequirementItem "read anew" "" [] "cap-1" [].

Example two_requirements_one_id :
  ((λ p, (EffectiveStatus p, (λ r, (rID r, rTitle r)) <$> pRequirements p)) <$> visible (gwPort (req_run changed_plan [new_item])) "demo") =
    Some (StatusRequirementsGenerated, [("requirement.demo.2", "requirement.demo.2"); ("requirement.demo.2", "read anew")]).
Proof. by vm_compute. Qed.

(** The component restarts while the agent is at work. *)
Example kept_requirement_lost :
  ((λ p, (λ r, (rID r, rTitle r)) <$> pRequirements p) <$>
    visible (gwPort (run_reqgen (H := gen_manager) (req_env (set_pStatus StatusGeneratingRequirements changed_plan) [new_item])
      [QPlan changed_plan; QRun 0; QRestart; QReplayDone; QLoop req_loop] (gen_world changed_plan)).1) "demo") =
    Some [("requirement.demo.1", "read anew")].
Proof. by vm_compute. Qed.

Definition changed_trigger : RequirementGeneratorRequest :=
  default (MkRequirementRequest "" "" "" [] ∅ "" "" None [] [] None) (build_trigger changed_plan).

Lemma sent_requirements_faithful_witness :
  let reqs := merge_partial changed_trigger (buildRequirementsFromItems 7 "plan.demo" "demo" changed_trigger [new_item]) in
  regenerated "demo" [kept_req] [new_item] reqs.
Proof.
  apply (sent_requirements_faithful 7 "plan.demo" changed_plan changed_trigger [new_item]).
  - apply (bool_decide_unpack _). vm_compute. exact I.
  - vm_compute. reflexivity.
Defined.

Lemma partial_regen_ids_collide_witness :
  let reqs := merge_partial changed_trigger (buildRequirementsFromItems 7 "plan.demo" "demo" changed_trigger [new_item]) in
  ids_collide reqs "requirement.demo.2" "read anew".
Proof.
  apply (partial_regen_ids_collide 7 "plan.demo" changed_plan changed_trigger [new_item]
    [with_status RequirementStatusDeprecated (sample_req "requirement.demo.1" [])] kept_req new_item);
    [vm_compute; reflexivity|reflexivity|apply (bool_decide_unpack _); vm_compute; exact I|reflexivity|vm_compute; reflexivity| |vm_compute; discriminate
    |vm_compute; reflexivity|reflexivity].
  intros x Hx. vm_compute in Hx. apply elem_of_cons in Hx as [->|Hx]; [by right|]. apply list_elem_of_singleton in Hx as ->. by left.
Defined.

Definition generating_plan : Plan := set_pStatus StatusGeneratingRequirements (goal_plan StatusApproved).
Definition full_dispatch : pendingDispatch :=
  MkPendingDispatch (default changed_trigger (build_trigger (goal_plan StatusApproved))) "".

Lemma requirements_reach_plan_witness :
  let w := gen_world generating_plan in
  ∃ q, visible (gwPort (handleLoopCompletion (H := gen_manager) (req_env generating_plan req_items) req_loop full_dispatch w).1) "demo" = Some q ∧
    EffectiveStatus q = StatusRequirementsGenerated.
Proof.
  intros w.
  destruct (requirements_reach_plan (sample_env (λ _, quiet_io) None) pTitle (λ _, "refused") (req_env generating_plan req_items) healthy_demo
    req_loop w generating_plan full_dispatch req_items) as (_ & q & Hq & Hs & _);
    [split_and!; vm_compute; reflexivity|vm_compute; reflexivity|reflexivity|reflexivity|reflexivity|reflexivity|vm_compute; discriminate
    |vm_compute; reflexivity|vm_compute; reflexivity|]. exists q. split; [exact Hq|exact Hs].
Defined.

Definition changed_generating : Plan := set_pStatus StatusGeneratingRequirements changed_plan.
Definition lost_request : RequirementsMutationRequest :=
  MkRequirementsReq "demo" (buildRequirementsFromItems 7 "plan.demo" "demo"
    (MkRequirementRequest "demo" "" "" [] ∅ "" "" None [] (pRequirements changed_plan) None) [new_item]) "".

Lemma restart_regenerates_all_witness :
  ∃ items, length (rqRequirements lost_request) = length items ∧
    ∀ i item q, items !! i = Some item → rqRequirements lost_request !! i = Some q → from_item "demo" (S i) item q.
Proof.
  destruct (@restart_regenerates_all World gen_manager (req_env changed_generating [new_item]) req_loop (gen_world changed_generating)
    [GMutation (MRequirements (Some lost_request)) (Answered true "")] lost_request (Answered true "")) as (items & _ & Hi);
    [reflexivity|vm_compute; reflexivity|left|]. exists items. exact Hi.
Defined.
