(* ===== verification/ArchGen.v ===== *)
(** * The architecture generator

    processor/architecture-generator/component.go with the system-side check
    of upstream coordinates (workflow/upstream_resolution.go) and of harness
    selections (workflow/harnesscatalog/catalog.go): the validators that an
    architecture passes before it is published, all failures reported
    together, and the component: claim, the skipped phase of simple plans,
    dispatch, completion and retries that hand the rejected architecture back
    to the agent.

    The capability indices of the agent are resolved in place, so the
    validated architecture is not the one that was parsed.  What the registry
    answers about a coordinate, the loading of the catalogue, JSON, the prompt
    and the texts of the shared validators are parameters. *)

From Stdlib Require Import Ascii.
From stdpp Require Import pretty.
From S2P Require Import Prelude Status Paths Types Stories PlanStore Mutations RuleFindings PlanRules DispatchRetry.
From S2P Require Import Feedback PlanReviewer Generators.

Local Open Scope string_scope.
Local Open Scope go_scope.

(** ** Upstream coordinates *)

Definition ResolutionKindMavenCentral : string := "maven_central".
Definition ResolutionKindSourceBuild : string := "source_build".
Definition ResolutionKindKMP : string := "kmp_multiplatform".
Definition ResolutionKindUnresolved : string := "unresolved".
Definition resolutionKindUnknown : string := "".

(** Prefixes of other package managers. *)
Definition other_ecosystems : list string := ["npm"; "pypi"; "pip"; "gem"; "cargo"; "go"; "nuget"; "github.com"; "git"].

(** Group, artifact and version. *)
Definition ParseMavenCoordinate (coordinate : string) : option (string * string * string) :=
  let c := TrimSpace coordinate in
  if c =? "" then None
  else if ContainsAny c "/@ " then None
  else
    match split_on ":" c with
    | [g; a; v] =>
        if existsb (λ p, TrimSpace p =? "") [g; a; v] then None
        else if bool_decide (ToLower g ∈ other_ecosystems) then None
        else Some (g, a, v)
    | _ => None
    end.

Definition EffectiveResolutionKind (u : UpstreamResolution) : string :=
  let k := TrimSpace (urResolutionKind u) in
  if bool_decide (k ∈ [ResolutionKindMavenCentral; ResolutionKindSourceBuild; ResolutionKindKMP; ResolutionKindUnresolved]) then k
  else match ParseMavenCoordinate (urCoordinate u) with
       | Some _ => ResolutionKindMavenCentral
       | None => resolutionKindUnknown
       end.

Record CoordinateCheck := MkCoordinateCheck {
  ckResolutionName : string;
  ckKind : string;
  ckCoordinate : string;
  ckGroup : string;
  ckArtifact : string;
  ckAllowJVMSuffix : bool;
  ckURL : string }.

Definition looksLikeURL (s : string) : bool := HasPrefix s "http://" || HasPrefix s "https://".

(** The closure [addMaven] on the checks so far and the keys seen. *)
Definition add_maven (name coordinate : string) (allowJVM : bool) (st : list CoordinateCheck * gset string) :
    list CoordinateCheck * gset string :=
  match ParseMavenCoordinate coordinate with
  | None => st
  | Some (g, a, _) =>
      let key := g +:+ ":" +:+ a in
      if bool_decide (key ∈ st.2) then st
      else ((st.1 ++ [MkCoordinateCheck name ResolutionKindMavenCentral coordinate g a allowJVM ""])%list, {[key]} ∪ st.2)
  end.

(** One round of the loop. *)
Definition plan_check (st : list CoordinateCheck * gset string) (u : UpstreamResolution) : list CoordinateCheck * gset string :=
  let kind := EffectiveResolutionKind u in
  let isKMP := kind =? ResolutionKindKMP in
  let st := if (kind =? ResolutionKindMavenCentral) || (kind =? ResolutionKindKMP)
            then add_maven (urName u) (urCoordinate u) isKMP st else st in
  let st := foldl (λ st api, if apiArtifact api =? "" then st else add_maven (urName u) (apiArtifact api) isKMP st) st (urAPIs u) in
  let url := TrimSpace (urSourceRef u) in
  if (kind =? ResolutionKindSourceBuild) && (url !=? "") && looksLikeURL url
  then ((st.1 ++ [MkCoordinateCheck (urName u) ResolutionKindSourceBuild (urCoordinate u) "" "" false url])%list, st.2)
  else st.

Definition PlanUpstreamChecks (resolutions : list UpstreamResolution) : list CoordinateCheck :=
  (foldl plan_check ([], ∅) resolutions).1.

Definition quoted (s : string) : string := dquote +:+ s +:+ dquote.

(** The reason of a rejection. *)
Definition DecideUpstreamVerdict (ch : CoordinateCheck) (exists_ : bool) : option string :=
  if exists_ then None
  else if ckKind ch =? ResolutionKindMavenCentral then
    Some ("upstream resolution " +:+ quoted (ckResolutionName ch) +:+ " declares Maven coordinate " +:+ quoted (ckCoordinate ch) +:+
          " but it does not resolve on Maven Central (the system re-checked: 0 results)")
  else if ckKind ch =? ResolutionKindSourceBuild then
    Some ("upstream resolution " +:+ quoted (ckResolutionName ch) +:+ " is source_build but its source_ref " +:+ quoted (ckURL ch) +:+
          " does not resolve (the system re-checked: not reachable)")
  else None.

Definition upstreamCoordinateHint (ch : CoordinateCheck) : string :=
  if ckKind ch =? ResolutionKindSourceBuild then
    "provide a source_ref URL that resolves (the git repo/tag must exist), or set resolution_kind to " +:+ quoted "unresolved" +:+
    " if no consumable source exists — do NOT cite a dead URL"
  else
    "do NOT fabricate a Maven coordinate from a gradle GROUP property or git tag. If the dep is genuinely published, give a coordinate that resolves on Maven Central; if it is built from source (no published jar) set resolution_kind=" +:+
    quoted "source_build" +:+ " with a buildable source_ref; if it is Kotlin Multiplatform set resolution_kind=" +:+ quoted "kmp_multiplatform" +:+
    "; if you cannot find any consumable artifact set resolution_kind=" +:+ quoted "unresolved" +:+
    " and note why. The system re-checks Maven Central, so an invented coordinate will keep being rejected".

(** ** Harness selections *)

Inductive selection_error :=
| SelectionMissing (i : nat)
| SelectionDuplicate (id : string)
| SelectionUnknown (id : string).

(** [ValidateSelections]: the identifiers are trimmed here. *)
Fixpoint resolve_selections (cat : gmap string Profile) (i : nat) (seen : gset string) (sels : list HarnessProfileSelection) :
    option selection_error :=
  match sels with
  | [] => None
  | s :: sels =>
      let id := TrimSpace (hpsProfileID s) in
      if id =? "" then Some (SelectionMissing i)
      else if bool_decide (id ∈ seen) then Some (SelectionDuplicate id)
      else if bool_decide (cat !! id = None) then Some (SelectionUnknown id)
      else resolve_selections cat (S i) ({[id]} ∪ seen) sels
  end.

Definition ValidateSelections (cat : gmap string Profile) (sels : list HarnessProfileSelection) : option selection_error :=
  resolve_selections cat 0 ∅ sels.

Definition ValidIDsSorted (cat : gmap string Profile) : list string := sorted_elements (dom cat).

(** ** Validation *)

Record ArchEnv := MkArchEnv {
  aeGen : GenEnv;
  aeUnmarshal : string → ArchitectureDocument + string;
  aeMarshal : ArchitectureDocument → option string;
  aeVerifier : option (nat → CoordinateCheck → option bool);
  aeLoadCatalog : nat → option (gmap string Profile);
  aeStoryText : story_error → string;
  aePrompt : nat → Plan → string → string → option string }.

Section validate.
Context (E : ArchEnv).
Let quote := geQuote (aeGen E).

Definition selection_text (e : selection_error) : string :=
  match e with
  | SelectionMissing i => "harness_profiles[" +:+ pretty i +:+ "].profile_id is required"
  | SelectionDuplicate id => "duplicate harness profile selection " +:+ quote id
  | SelectionUnknown id => "unknown harness profile " +:+ quote id
  end.

Definition harnessResolutionHint (cat : gmap string Profile) (err : string) : string :=
  if Contains err "duplicate" then
    "list each profile_id at most once — use a single harness_profiles[] entry with a multi-element used_by[] instead of repeating the profile"
  else if Contains err "is required" then
    "remove the harness_profiles[] entry with the empty profile_id, or set it to a valid catalog ID"
  else "select ONLY from the available catalog profiles: " +:+ Join (ValidIDsSorted cat) ", ".

(** The first check that is definitely wrong; what cannot be checked passes. *)
Fixpoint first_rejection (probe : CoordinateCheck → option bool) (checks : list CoordinateCheck) : option string :=
  match checks with
  | [] => None
  | check :: checks =>
      match probe check with
      | None => first_rejection probe checks
      | Some found =>
          match DecideUpstreamVerdict check found with
          | Some reason =>
              Some ("architecture validation failed (upstream coordinate resolution): " +:+ reason +:+ " — " +:+ upstreamCoordinateHint check)
          | None => first_rejection probe checks
          end
      end
  end.

Definition validateUpstreamCoordinates (n : nat) (resolutions : list UpstreamResolution) : option string :=
  match aeVerifier E with
  | None => None
  | Some probe => first_rejection (probe n) (PlanUpstreamChecks resolutions)
  end.

Definition orphan_text (orphans : list string) : string :=
  "architecture validation failed (scoped include unowned): scope.include deliverable(s) [" +:+ Join orphans ", " +:+
  "] are owned by no component. Add each to the implementation_files of the source component that produces it (a README/doc may ride as a companion alongside source, but must have such an owner; if it is a read-only reference, move it to scope.do_not_touch).".

(** The checks that need the plan: the components with their capability names
    filled in, and the failures. *)
Definition plan_failures (plan : Plan) (components : list ComponentDef) : list ComponentDef * list (string * string) :=
  let '(components, err) := ResolveCapabilityIndices (pExploration plan) components in
  let capability :=
    match err with
    | Some e => [("capability_index_resolution", "architecture validation failed (capability index resolution): " +:+ aeStoryText E e)]
    | None =>
        match ValidateCapabilityCoverage (pExploration plan) components with
        | Some e => [("capability_coverage", "architecture validation failed (capability coverage): " +:+ aeStoryText E e)]
        | None => []
        end
    end in
  let orphans := UnownedScopedIncludeFiles (pScope plan) components in
  (components, (capability ++ if is_nil orphans then [] else [("scoped_include_unowned", orphan_text orphans)])%list).

(** Every failure of an architecture, and the architecture afterwards. *)
Definition architecture_failures (n : nat) (arch : ArchitectureDocument) (plan : option Plan) :
    ArchitectureDocument * list (string * string) :=
  let files :=
    match ValidateComponentImplementationFiles (adComponentBoundaries arch) with
    | Some e => [("component_implementation_files", "architecture validation failed (implementation files): " +:+ aeStoryText E e)]
    | None => []
    end in
  let '(components, planned) :=
    match plan with
    | None => (adComponentBoundaries arch, [])
    | Some plan => plan_failures plan (adComponentBoundaries arch)
    end in
  let imports :=
    match ValidateUpstreamImports (adUpstreamResolutions arch) with
    | Some e => [("upstream_import_resolution", "architecture validation failed (upstream import resolution): " +:+ aeStoryText E e)]
    | None => []
    end in
  let coordinates :=
    match validateUpstreamCoordinates n (adUpstreamResolutions arch) with
    | Some msg => [("upstream_coordinate_resolution", msg)]
    | None => []
    end in
  let harness :=
    match aeLoadCatalog E n with
    | None => []
    | Some cat =>
        match ValidateSelections cat (adHarnessProfiles arch) with
        | None => []
        | Some e =>
            [("harness_profile_resolution", "architecture validation failed (harness profile resolution): " +:+ selection_text e +:+ " — " +:+
               harnessResolutionHint cat (selection_text e))]
        end
    end in
  (set_adComponentBoundaries components arch, (files ++ planned ++ imports ++ coordinates ++ harness)%list).

Definition combined_text (failures : list (string * string)) : string :=
  "architecture has " +:+ pretty (length failures) +:+
  " validation issues — fix ALL of them in your next submission; fixing one while regressing another will be rejected again:" +:+ nl +:+
  Join (imap (λ i f, nl +:+ "[" +:+ pretty (S i) +:+ "] (" +:+ f.1 +:+ ") " +:+ f.2 +:+ nl) failures) "".

(** The message of a rejection. *)
Definition validateGeneratedArchitecture (n : nat) (arch : ArchitectureDocument) (plan : option Plan) :
    ArchitectureDocument * option string :=
  let '(arch, failures) := architecture_failures n arch plan in
  (arch, match failures with
         | [] => None
         | [f] => Some f.2
         | _ => Some (combined_text failures)
         end).

Definition parseArchitectureFromResult (result : string) : ArchitectureDocument + string :=
  if result =? "" then inr "empty result" else
  match aeUnmarshal E result with
  | inr e => inr ("parse architecture JSON: " +:+ e)
  | inl doc =>
      if is_nil (adTechnologyChoices doc) && is_nil (adComponentBoundaries doc) && is_nil (adDecisions doc)
      then inr "architecture document is empty — no technology choices, components, or decisions"
      else inl doc
  end.
End validate.

(** ** The component *)

Section generator.
Context {S : Type} `{PlanPort S} (E : ArchEnv).
Let E' := aeGen E.
Local Abbreviation AG := (G Plan Plan S).

Definition sendGenerationFailed (slug feedback : string) : AG () := gfailed E' "architecture-generation" slug feedback.

(** A prompt that cannot be rendered ends the dispatch. *)
Definition dispatchArchitectureGenerator (plan : Plan) (previousError reviewFindings : string) : AG () :=
  io ← gtick E';
  let taskID := "archgen-" +:+ pSlug plan +:+ "-" +:+ gioUUID io in
  gretry (SetActiveLoop (pSlug plan) taskID);;
  w ← gread;
  match aePrompt E (gwTick w) plan previousError reviewFindings with
  | None => mret ()
  | Some prompt =>
      gpublish E' (MkGenTask taskID (pSlug plan) "" "" prompt)
        (λ e, sendGenerationFailed (pSlug plan) ("architecture dispatch failed: " +:+ e))
  end.

(** [publishArchitectureGenerated]: the text of the error. *)
Definition publishArchitectureGenerated (slug : string) (arch : option ArchitectureDocument) : AG (option string) :=
  a ← grequest E' (MArchitecture (Some (MkArchitectureReq slug arch "")));
  mret (match a with
        | NoAnswer e => Some ("send architecture mutation: " +:+ e)
        | Answered true _ => None
        | Answered false e => Some ("plan-manager rejected architecture mutation: " +:+ e)
        end).

Definition processArchitecturePhase (plan : Plan) : AG () :=
  if pSkipArchitecture plan then
    err ← publishArchitectureGenerated (pSlug plan) None;
    match err with
    | Some e => sendGenerationFailed (pSlug plan) ("architecture skip mutation failed: " +:+ e)
    | None => mret ()
    end
  else
    gretry (λ s, (Track (pSlug plan) plan s).1);;
    dispatchArchitectureGenerator plan "" (pReviewFormattedFindings plan).

(** The rejected architecture is written to the tracked plan, which the entry
    and the dispatch share; the review findings are not passed on. *)
Definition redispatch (slug errorMsg prevArchJSON : string) (plan : Plan) : AG () :=
  let plan := if prevArchJSON !=? "" then set_pPreviousArchitectureJSON prevArchJSON plan else plan in
  gretry (λ s, match s !! slug with
               | Some entry => <[slug := MkEntry (enCount entry) plan (enActiveLoopID entry)]> s
               | None => s
               end);;
  dispatchArchitectureGenerator plan errorMsg "".

Definition retryOrFail (slug errorMsg prevArchJSON : string) : AG () :=
  w ← gread;
  known ← match Snapshot slug (gwRetry w) with
          | Some _ => mret true
          | None =>
              loaded ← gload E' slug;
              match loaded with
              | inr _ => mret false
              | inl plan => gretry (λ s, (Track slug plan s).1);; mret true
              end
          end;
  if negb known then sendGenerationFailed slug errorMsg
  else tick_or_fail E' slug (sendGenerationFailed slug errorMsg) (redispatch slug errorMsg prevArchJSON).

Definition publish_architecture (slug : string) (arch : ArchitectureDocument) : AG () :=
  err ← publishArchitectureGenerated slug (Some arch);
  match err with
  | None => gretry (Clear slug)
  | Some e =>
      if Contains e "invalid transition" then gretry (Clear slug)
      else sendGenerationFailed slug ("architecture mutation publish failed: " +:+ e)
  end.

Definition handleLoopCompletion (loop : gen_loop) : AG () :=
  let slug := glPlanSlug loop in
  w ← gread;
  if IsStaleLoop slug (glTaskID loop) (gwRetry w) then mret () else
  if glOutcome loop !=? OutcomeSuccess then retryOrFail slug (gloop_error E' loop) "" else
  match parseArchitectureFromResult E (glResult loop) with
  | inr e => retryOrFail slug ("failed to parse architecture: " +:+ e) ""
  | inl arch =>
      loaded ← gload E' slug;
      let plan := match loaded with inl plan => Some plan | inr _ => None end in
      if match plan with Some plan => EffectiveStatus plan !=? StatusGeneratingArchitecture | None => false end
      then gretry (Clear slug) else
      w ← gread;
      gtick E';;
      match validateGeneratedArchitecture E (gwTick w) arch plan with
      | (arch, Some msg) => retryOrFail slug msg (default "" (aeMarshal E arch))
      | (arch, None) => publish_architecture slug arch
      end
  end.

Definition watch_loop (loop : gen_loop) : AG () :=
  gwatch_loop "architecture-generation" (λ loop, glPlanSlug loop !=? "") handleLoopCompletion loop.

(** One entry of PLAN_STATES. *)
Definition watch_plan (plan : Plan) : AG () :=
  match pStatus plan with
  | StatusRequirementsReviewed =>
      claimed ← gclaim E' (pSlug plan) StatusGeneratingArchitecture;
      if negb claimed then mret () else gmodify (λ w, set_gwJobs (gwJobs w ++ [plan])%list w)
  | _ => mret ()
  end.

(** A goroutine runs. *)
Definition start_job (i : nat) : AG () :=
  w ← gread;
  match gwJobs w !! i with
  | None => mret ()
  | Some plan => gmodify (set_gwJobs (delete i (gwJobs w)));; processArchitecturePhase plan
  end.

(** ** Runs *)

Inductive arch_event :=
| APlan (plan : Plan)
| AStart (i : nat)
| ALoop (loop : gen_loop)
| AReplayDone
| ARestart
| AElsewhere (p : S).

Definition arch_step (e : arch_event) : AG () :=
  match e with
  | APlan plan => watch_plan plan
  | AStart i => start_job i
  | ALoop loop => watch_loop loop
  | AReplayDone => gmodify (set_gwReplayDone true)
  | ARestart => grestart
  | AElsewhere p => gmodify (set_gwPort p)
  end.

Fixpoint run_arch (es : list arch_event) : AG () :=
  match es with [] => mret () | e :: es => arch_step e;; run_arch es end.
End generator.
