(* ===== verification/ArchGenFacts.v ===== *)
(** * What the architecture generator guarantees

    Every coordinate that the agent declares is planned for a check; what is
    published has passed every validator and passes the plan reviewer's rules
    on architectures up to the contract; a finished loop is always acted on.
    And where it goes wrong: a plan that cannot be read is not validated
    against, and the capability indices stay unresolved. *)

From Stdlib Require Import Ascii.
From stdpp Require Import pretty.
From S2P Require Import Prelude Graphs Status Paths Types Stories PlanStore Mutations RuleFindings PlanRules PlanRuleFacts.
From S2P Require Import DispatchRetry Feedback PlanReviewer ReviewCycle Generators GenCycle ArchGen.

Local Open Scope string_scope.
Local Open Scope go_scope.

(** ** Coordinates *)

(** The keys of the Maven checks. *)
Definition maven_key (ch : CoordinateCheck) : string := ckGroup ch +:+ ":" +:+ ckArtifact ch.
Definition maven_checks (cs : list CoordinateCheck) : list CoordinateCheck :=
  filter (λ ch, ckKind ch = ResolutionKindMavenCentral) cs.

(** A coordinate of this shape is among the checks. *)
Definition checked (cs : list CoordinateCheck) (coordinate : string) : Prop :=
  ∀ g a v, ParseMavenCoordinate coordinate = Some (g, a, v) →
    ∃ ch, ch ∈ cs ∧ ckKind ch = ResolutionKindMavenCentral ∧ maven_key ch = g +:+ ":" +:+ a.

(** The state of the loop: the keys seen are those of the checks, each once. *)
Record checks_ok (st : list CoordinateCheck * gset string) : Prop := {
  co_seen : ∀ k, k ∈ st.2 ↔ ∃ ch, ch ∈ st.1 ∧ ckKind ch = ResolutionKindMavenCentral ∧ maven_key ch = k;
  co_once : NoDup (maven_key <$> maven_checks st.1) }.

Lemma checked_mono cs cs' c : cs ⊆ cs' → checked cs c → checked cs' c.
Proof. intros Hs Hc g a v Hp. destruct (Hc g a v Hp) as (ch & ? & ?). exists ch. split; [by apply Hs|done]. Qed.

Lemma add_maven_ok name c jvm st : checks_ok st →
  checks_ok (add_maven name c jvm st) ∧ checked (add_maven name c jvm st).1 c ∧ st.1 ⊆ (add_maven name c jvm st).1.
Proof.
  intros [Hs Ho]. unfold add_maven, checked. destruct (ParseMavenCoordinate c) as [[[g a] v]|] eqn:Ep; [|by split_and!].
  cbv zeta. case_bool_decide as Hk.
  - split_and!; [done| |done]. intros g' a' v' [= <- <- <-]. by apply Hs.
  - cbn [fst snd]. set (ch := MkCoordinateCheck _ _ _ _ _ _ _). assert (maven_key ch = g +:+ ":" +:+ a) as Hm by done. split_and!; [split| |].
    + cbn [fst snd]. intros k. rewrite elem_of_union, elem_of_singleton, Hs. split.
      * intros [->|(c' & ? & ?)]; [exists ch; split; [set_solver|done]|exists c'; split; [set_solver|done]].
      * intros (c' & [Hc| ->%list_elem_of_singleton]%elem_of_app & H1 & H2); [right; eauto|left; by rewrite <- H2].
    + cbn [fst]. unfold maven_checks. rewrite filter_app, fmap_app. apply NoDup_app. split_and!; [exact Ho| |].
      * intros x (c' & -> & [Hc1 Hc2]%list_elem_of_filter)%list_elem_of_fmap. rewrite filter_cons_True by done. cbn.
        intros E%list_elem_of_singleton. apply Hk. apply Hs. exists c'. split_and!; [done|done|]. exact E.
      * rewrite filter_cons_True by done. apply NoDup_singleton.
    + intros g' a' v' [= <- <- <-]. exists ch. split; [set_solver|done].
    + set_solver.
Qed.

Lemma add_apis_ok name jvm apis st : checks_ok st →
  let st' := foldl (λ st api, if apiArtifact api =? "" then st else add_maven name (apiArtifact api) jvm st) st apis in
  checks_ok st' ∧ (∀ api, api ∈ apis → apiArtifact api ≠ "" → checked st'.1 (apiArtifact api)) ∧ st.1 ⊆ st'.1.
Proof.
  revert st. induction apis as [|api apis IH]; intros st Hst; cbn [foldl]; [split_and!; [done|set_solver|done]|].
  destruct (apiArtifact api =? "") eqn:Ea.
  - destruct (IH st Hst) as (H1 & H2 & H3). split_and!; [done| |done]. intros x [->|Hx]%elem_of_cons; [|by apply H2].
    apply (proj1 (eqb_true _ _)) in Ea. done.
  - destruct (add_maven_ok name (apiArtifact api) jvm st Hst) as (A1 & A2 & A3). destruct (IH _ A1) as (H1 & H2 & H3).
    split_and!; [done| |set_solver]. intros x [->|Hx]%elem_of_cons; [|by apply H2]. intros _. by eapply checked_mono.
Qed.

(** What one declared resolution asks to be checked. *)
Definition resolution_checked (cs : list CoordinateCheck) (u : UpstreamResolution) : Prop :=
  (EffectiveResolutionKind u ∈ [ResolutionKindMavenCentral; ResolutionKindKMP] → checked cs (urCoordinate u)) ∧
  (∀ api, api ∈ urAPIs u → apiArtifact api ≠ "" → checked cs (apiArtifact api)) ∧
  (EffectiveResolutionKind u = ResolutionKindSourceBuild → looksLikeURL (TrimSpace (urSourceRef u)) = true →
   ∃ ch, ch ∈ cs ∧ ckKind ch = ResolutionKindSourceBuild ∧ ckURL ch = TrimSpace (urSourceRef u)).

Lemma resolution_checked_mono cs cs' u : cs ⊆ cs' → resolution_checked cs u → resolution_checked cs' u.
Proof.
  intros Hs (H1 & H2 & H3). split_and!; [intros Hk; by eapply checked_mono; [|apply H1]|intros api ??; by eapply checked_mono; [|apply H2]|].
  intros Hk Hu. destruct (H3 Hk Hu) as (ch & ? & ?). exists ch. split; [by apply Hs|done].
Qed.

Lemma plan_check_ok st u : checks_ok st →
  checks_ok (plan_check st u) ∧ resolution_checked (plan_check st u).1 u ∧ st.1 ⊆ (plan_check st u).1.
Proof.
  intros Hst. unfold plan_check. cbv zeta. set (kind := EffectiveResolutionKind u).
  set (st1 := if _ || _ then add_maven _ _ _ st else st).
  assert (checks_ok st1 ∧ (kind ∈ [ResolutionKindMavenCentral; ResolutionKindKMP] → checked st1.1 (urCoordinate u)) ∧ st.1 ⊆ st1.1) as (A1 & A2 & A3).
  { unfold st1. destruct ((kind =? ResolutionKindMavenCentral) || (kind =? ResolutionKindKMP)) eqn:Ek.
    - destruct (add_maven_ok (urName u) (urCoordinate u) (kind =? ResolutionKindKMP) st Hst) as (? & ? & ?). by split_and!.
    - split_and!; [done| |done]. apply orb_false_iff in Ek as [E1%eqb_false E2%eqb_false]. set_solver. }
  destruct (add_apis_ok (urName u) (kind =? ResolutionKindKMP) (urAPIs u) st1 A1) as (B1 & B2 & B3). set (st2 := foldl _ st1 (urAPIs u)) in *.
  assert (kind ∈ [ResolutionKindMavenCentral; ResolutionKindKMP] → checked st2.1 (urCoordinate u)) as C1 by (intros Hk; eapply checked_mono; [exact B3|by apply A2]).
  destruct (_ && _ && _) eqn:Eu.
  - apply andb_true_iff in Eu as [[Ek _]%andb_true_iff Eu]. apply (proj1 (eqb_true _ _)) in Ek. set (ch := MkCoordinateCheck _ _ _ _ _ _ _).
    split_and!; [split| |set_solver].
    + cbn [fst snd]. intros k. rewrite (co_seen _ B1). split; [intros (c & ? & ?); exists c; split; [set_solver|done]|].
      intros (c & [Hc| ->%list_elem_of_singleton]%elem_of_app & H1 & H2); [eauto|done].
    + cbn [fst]. unfold maven_checks. rewrite filter_app, filter_cons_False by done. cbn. rewrite app_nil_r. apply B1.
    + split_and!; [intros Hk; eapply checked_mono; [|by apply C1]; set_solver|intros api ??; eapply checked_mono; [|by apply B2]; set_solver|].
      intros _ _. exists ch. split; [set_solver|done].
  - split_and!; [done| |set_solver]. split_and!; [done|done|]. intros Hk Hu. fold kind in Hk. exfalso.
    rewrite Hk, eqb_refl, Hu, andb_true_r in Eu. cbn [andb] in Eu. apply (proj1 (negb_false_iff _)), (proj1 (eqb_true _ _)) in Eu.
    by rewrite Eu in Hu.
Qed.

(** No declared coordinate escapes the check: for every resolution the
    planned checks include its coordinate when it is meant to come from
    Maven, the artifact of each of its APIs whatever the resolution claims
    to be, and the source reference of a source build; an artifact is
    checked once. *)
Theorem upstream_checks_cover resolutions :
  let checks := PlanUpstreamChecks resolutions in
  (∀ u, u ∈ resolutions → resolution_checked checks u) ∧ NoDup (maven_key <$> maven_checks checks).
Proof.
  cbv zeta. unfold PlanUpstreamChecks.
  cut (∀ st, checks_ok st → let st' := foldl plan_check st resolutions in
    checks_ok st' ∧ (∀ u, u ∈ resolutions → resolution_checked st'.1 u) ∧ st.1 ⊆ st'.1).
  { intros Hc. destruct (Hc ([], ∅)) as ([_ H1] & H2 & _); [|done]. split; [set_solver|constructor]. }
  induction resolutions as [|u us IH]; intros st Hst; cbn [foldl]; [split_and!; [done|set_solver|done]|].
  destruct (plan_check_ok st u Hst) as (A1 & A2 & A3). destruct (IH _ A1) as (B1 & B2 & B3). split_and!; [done| |set_solver].
  intros x [->|Hx]%elem_of_cons; [by eapply resolution_checked_mono|by apply B2].
Qed.

Lemma planned_kind resolutions ch : ch ∈ PlanUpstreamChecks resolutions →
  ckKind ch = ResolutionKindMavenCentral ∨ ckKind ch = ResolutionKindSourceBuild.
Proof.
  unfold PlanUpstreamChecks. set (ok := λ cs : list CoordinateCheck, ∀ ch, ch ∈ cs → ckKind ch = ResolutionKindMavenCentral ∨ ckKind ch = ResolutionKindSourceBuild).
  assert (∀ name c jvm st, ok st.1 → ok (add_maven name c jvm st).1) as Ha.
  { intros name c jvm st Hst. unfold add_maven. destruct (ParseMavenCoordinate c) as [[[g a] v]|]; [|done]. cbv zeta. case_bool_decide; [done|].
    intros x [?| ->%list_elem_of_singleton]%elem_of_app; [by apply Hst|by left]. }
  cut (∀ st, ok st.1 → ok (foldl plan_check st resolutions).1); [intros Hc; apply (Hc ([], ∅)); intros x Hx; by apply elem_of_nil in Hx|].
  induction resolutions as [|u us IH]; intros st Hst; [done|]. apply IH. unfold plan_check. cbv zeta.
  assert (∀ apis st, ok st.1 → ok (foldl (λ st api, if apiArtifact api =? "" then st else add_maven (urName u) (apiArtifact api) (EffectiveResolutionKind u =? ResolutionKindKMP) st) st apis).1) as Hf.
  { induction apis as [|api apis IHa]; intros st' Hst'; [done|]. apply IHa. destruct (_ =? ""); auto. }
  set (st1 := foldl _ _ (urAPIs u)). assert (ok st1.1) as H1 by (apply Hf; destruct (_ || _); auto).
  destruct (_ && _ && _); [|done]. cbn [fst]. intros x [?| ->%list_elem_of_singleton]%elem_of_app; [by apply H1|by right].
Qed.

(** ** What is published *)

(** Everything an architecture has passed. *)
Record arch_passes (E : ArchEnv) (n : nat) (plan : option Plan) (parsed arch : ArchitectureDocument) : Prop := {
  ap_arch : ∃ comps, arch = set_adComponentBoundaries comps parsed;
  ap_files : ValidateComponentImplementationFiles (adComponentBoundaries parsed) = None;
  ap_imports : ValidateUpstreamImports (adUpstreamResolutions arch) = None;
  ap_coordinates : ∀ probe ch, aeVerifier E = Some probe → ch ∈ PlanUpstreamChecks (adUpstreamResolutions arch) → probe n ch ≠ Some false;
  ap_harness : ∀ cat, aeLoadCatalog E n = Some cat → ValidateSelections cat (adHarnessProfiles arch) = None;
  ap_plan : ∀ p, plan = Some p →
    ResolveCapabilityIndices (pExploration p) (adComponentBoundaries parsed) = (adComponentBoundaries arch, None) ∧
    ValidateCapabilityCoverage (pExploration p) (adComponentBoundaries arch) = None ∧
    UnownedScopedIncludeFiles (pScope p) (adComponentBoundaries arch) = [] }.

Lemma no_rejection probe checks : first_rejection probe checks = None →
  ∀ ch, ch ∈ checks → ckKind ch = ResolutionKindMavenCentral ∨ ckKind ch = ResolutionKindSourceBuild → probe ch ≠ Some false.
Proof.
  induction checks as [|c cs IH]; cbn [first_rejection]; intros Hf ch Hin Hk Hp; [by apply elem_of_nil in Hin|].
  apply elem_of_cons in Hin as [->|Hin].
  - rewrite Hp in Hf. unfold DecideUpstreamVerdict in Hf. destruct Hk as [Hk|Hk]; rewrite Hk in Hf; done.
  - destruct (probe c) as [b|]; [|by apply (IH Hf ch)]. destruct (DecideUpstreamVerdict c b); [done|]. by apply (IH Hf ch).
Qed.

Lemma plan_failures_nil E plan comps : (plan_failures E plan comps).2 = [] →
  ResolveCapabilityIndices (pExploration plan) comps = ((plan_failures E plan comps).1, None) ∧
  ValidateCapabilityCoverage (pExploration plan) (plan_failures E plan comps).1 = None ∧
  UnownedScopedIncludeFiles (pScope plan) (plan_failures E plan comps).1 = [].
Proof.
  unfold plan_failures. destruct (ResolveCapabilityIndices _ comps) as [out [e|]]; cbv zeta; cbn [fst snd]; [done|].
  destruct (ValidateCapabilityCoverage _ out); [done|]. cbn [app]. destruct (is_nil (UnownedScopedIncludeFiles _ out)) eqn:Eu; [|done].
  apply is_nil_true in Eu. done.
Qed.

Lemma validated_passes E n parsed plan arch : validateGeneratedArchitecture E n parsed plan = (arch, None) →
  arch_passes E n plan parsed arch.
Proof.
  unfold validateGeneratedArchitecture. destruct (architecture_failures E n parsed plan) as [arch' fs] eqn:Ef. intros [= <- Hm].
  assert (fs = []) as -> by (by destruct fs as [|f [|g fs]]). clear Hm. revert Ef. unfold architecture_failures.
  destruct (match plan with Some p => _ | None => _ end) as [comps planned] eqn:Ep. intros [= <- Hf].
  apply app_eq_nil in Hf as [H1 Hf]. apply app_eq_nil in Hf as [H2 Hf]. apply app_eq_nil in Hf as [H3 Hf]. apply app_eq_nil in Hf as [H4 H5]. split.
  - by eexists.
  - by destruct (ValidateComponentImplementationFiles _).
  - change (ValidateUpstreamImports (adUpstreamResolutions parsed) = None). by destruct (ValidateUpstreamImports _).
  - intros probe ch Hv Hch. change (ch ∈ PlanUpstreamChecks (adUpstreamResolutions parsed)) in Hch.
    apply (no_rejection _ (PlanUpstreamChecks (adUpstreamResolutions parsed))); [|done|by eapply planned_kind].
    unfold validateUpstreamCoordinates in H4. rewrite Hv in H4. by destruct (first_rejection _ _).
  - intros cat Hc. change (ValidateSelections cat (adHarnessProfiles parsed) = None). rewrite Hc in H5. by destruct (ValidateSelections _ _).
  - intros p ->. change (adComponentBoundaries (set_adComponentBoundaries comps parsed)) with comps.
    pose proof (plan_failures_nil E p (adComponentBoundaries parsed)) as Hpf. rewrite Ep in Hpf. by apply Hpf.
Qed.

(** Resolution fills in names only. *)
Lemma resolve_keeps_files caps comps out : resolve_components caps comps = (out, None) →
  ValidateComponentImplementationFiles comps = None → ValidateComponentImplementationFiles out = None.
Proof.
  unfold ValidateComponentImplementationFiles. revert out. induction comps as [|c cs IH]; intros out; cbn [resolve_components]; [by intros [= <-]|].
  rewrite !first_err_None. intros Hr Hf. assert (ValidateComponentImplementationFiles cs = None) as Hcs.
  { apply first_err_None. intros x Hx. apply Hf. by right. }
  pose proof (Hf c (list_elem_of_here _ _)) as Hc. destruct (is_nil (cdCapabilityIndices c)) eqn:En.
  - destruct (resolve_components caps cs) as [cs' [e|]]; [done|]. injection Hr as <-. specialize (IH cs' eq_refl Hcs).
    rewrite first_err_None in IH. intros x [->|Hx]%elem_of_cons; [exact (Hf c (list_elem_of_here _ _))|by apply IH].
  - destruct (resolve_indices _ _ _ _ _) as [names|]; [|done]. destruct (resolve_components caps cs) as [cs' [e|]]; [done|]. injection Hr as <-.
    specialize (IH cs' eq_refl Hcs). rewrite first_err_None in IH. intros x [->|Hx]%elem_of_cons; [|by apply IH].
    cbn [cdName cdImplementationFiles cdCapabilities cdCapabilityIndices set_cdCapabilities]. rewrite En, andb_false_r. rewrite andb_false_r in Hc. exact Hc.
Qed.

(** The generator takes the answer [parsed], resolved to [arch], for the plan. *)
Definition validated_for (E : ArchEnv) (n : nat) (plan : Plan) (parsed arch : ArchitectureDocument) : Prop :=
  validateGeneratedArchitecture E n parsed (Some plan) = (arch, None).

(** C28: What the generator's gate leaves to the architecture review: an
    architecture with at least one component that was validated against its
    plan raises no error of the reviewer's rules on architectures exactly when
    it passes the three checks that the generator does not make: a component
    with several capabilities has a scenario for each of them once the plan has
    scenarios (the stub risk), every file that the scope wants created is owned
    by a component once the plan has stories, and build roots keep the
    plan's contract.  The other rules (files of components, coverage of the
    capabilities, ownership of the included files) cannot fail. *)
Theorem validated_architecture_reviewable E n parsed arch plan quote :
  validated_for E n plan parsed arch → adComponentBoundaries arch ≠ [] →
  let plan' := set_pArchitecture (Some arch) plan in
  clean (architecture_findings quote plan') ↔
  clean (componentStubRiskFindings quote plan') ∧
  (pStories plan ≠ [] → ∀ raw f, raw ∈ scpCreate (pScope plan) → deliverable (pScope plan) raw f →
     ∃ c, c ∈ adComponentBoundaries arch ∧ f ∈ ExpandFileScopeWithCompanionTests (cdImplementationFiles c)) ∧
  clean (topologyContractFindings quote (pContract plan) (adComponentBoundaries arch)).
Proof.
  intros [_ Hf _ _ _ Hp]%validated_passes Hne. cbv zeta. destruct (Hp plan eq_refl) as (Hr & Hc & Hu).
  assert (ValidateComponentImplementationFiles (adComponentBoundaries arch) = None) as Hfa.
  { unfold ResolveCapabilityIndices in Hr. destruct (pExploration plan) as [e|]; [|by injection Hr as <-].
    destruct (is_nil (exCapabilities e)); [by injection Hr as <-|by eapply resolve_keeps_files]. }
  set (plan' := set_pArchitecture (Some arch) plan). rewrite architecture_findings_clean, topology_rule_clean,
    (stub_rule_clean quote plan' arch) by done. split.
  - intros H. destruct (H arch eq_refl Hne) as [_ H2 _ H4 H5]. split_and!; [done| |done].
    intros Hst raw f Hraw. apply H4. by right.
  - intros (H2 & H4 & H5) a [= <-] _. split; [by apply files_gate|done| | |done].
    + by apply (coverage_gate _ _ Hne).
    + intros raw f [Hraw|[Hst Hraw]]; [by apply unowned_nil|by apply H4].
Qed.

Section component.
Context {S : Type} `{PlanPort S} (E : ArchEnv).

(** Everything but an architecture mutation. *)
Definition no_architecture (o : gen_output) : Prop := match o with GMutation (MArchitecture _) _ => False | _ => True end.

Lemma arch_quiet_dispatch plan err findings : gemits no_architecture (dispatchArchitectureGenerator (S := S) E plan err findings).
Proof. unfold dispatchArchitectureGenerator, sendGenerationFailed. cbv zeta. gemits_auto. Qed.

Lemma arch_quiet_retry slug err prev : gemits no_architecture (retryOrFail (S := S) E slug err prev).
Proof. pose proof arch_quiet_dispatch. unfold retryOrFail, redispatch, sendGenerationFailed. cbv zeta. gemits_auto. Qed.

Lemma arch_quiet_watch plan : gemits no_architecture (watch_plan (S := S) E plan).
Proof. unfold watch_plan, gclaim. gemits_auto. Qed.

Lemma publish_only slug arch : gemits (λ o, match o with GMutation (MArchitecture x) _ => x = Some (MkArchitectureReq slug arch "") | _ => True end)
  (publishArchitectureGenerated (S := S) E slug arch).
Proof. unfold publishArchitectureGenerated. gemits_auto. Qed.

(** What the handling of a finished loop sends. *)
Definition arch_published_for (loop : gen_loop) (w : GWorld Plan Plan S) (arch : ArchitectureDocument) : Prop :=
  ∃ parsed plan n, parseArchitectureFromResult E (glResult loop) = inl parsed ∧
    plan = match (gload (aeGen E) (glPlanSlug loop) w).2 with inl p => Some p | inr _ => None end ∧
    (∀ p, plan = Some p → EffectiveStatus p = StatusGeneratingArchitecture) ∧ arch_passes E n plan parsed arch.

Lemma arch_handle_sends loop w new r a :
  gwOut (handleLoopCompletion (S := S) E loop w).1 = (gwOut w ++ new)%list → GMutation (MArchitecture (Some r)) a ∈ new →
  IsStaleLoop (glPlanSlug loop) (glTaskID loop) (gwRetry w) = false ∧ glOutcome loop = OutcomeSuccess ∧ aqSlug r = glPlanSlug loop ∧
  ∃ arch, aqArchitecture r = Some arch ∧ arch_published_for loop w arch.
Proof.
  intros Ho Hin. assert (∀ A (m : G Plan Plan S A) w1, gemits no_architecture m → gwOut (m w1).1 = (gwOut w1 ++ new)%list → False) as Hq.
  { intros A m w1 Hm Hw. pose proof (gemits_all _ _ _ _ Hm Hw) as HF. rewrite Forall_forall in HF. by apply (HF _ Hin). }
  unfold handleLoopCompletion in Ho. cbv zeta in Ho. rewrite G_bind_eq in Ho. cbn [gread fst snd] in Ho.
  destruct (IsStaleLoop _ _ _); [by destruct (Hq _ _ _ (gemits_ret _ ()) Ho)|].
  destruct (glOutcome loop !=? OutcomeSuccess) eqn:Eo; [by destruct (Hq _ _ _ (arch_quiet_retry _ _ _) Ho)|].
  apply (proj1 (negb_false_iff _)), (proj1 (eqb_true _ _)) in Eo.
  destruct (parseArchitectureFromResult E (glResult loop)) as [parsed|e] eqn:Ep; [|by destruct (Hq _ _ _ (arch_quiet_retry _ _ _) Ho)].
  rewrite G_bind_eq in Ho. unfold arch_published_for. set (res := gload (aeGen E) (glPlanSlug loop) w) in *. change (gwOut w) with (gwOut res.1) in Ho.
  set (plan := match res.2 with inl p => Some p | inr _ => None end) in *.
  destruct (match plan with Some p => _ | None => false end) eqn:Es; [by destruct (Hq _ _ _ (gemits_retry _ _) Ho)|].
  rewrite !G_bind_eq in Ho. cbn [gread gtick fst snd] in Ho. set (w1 := set_gwTick _ _) in Ho. change (gwOut res.1) with (gwOut w1) in Ho.
  destruct (validateGeneratedArchitecture E (gwTick res.1) parsed plan) as [arch [msg|]] eqn:Ev; [by destruct (Hq _ _ _ (arch_quiet_retry _ _ _) Ho)|].
  apply validated_passes in Ev.
  assert (gemits (λ o, match o with GMutation (MArchitecture x) _ => x = Some (MkArchitectureReq (glPlanSlug loop) (Some arch) "") | _ => True end)
    (publish_architecture (S := S) E (glPlanSlug loop) arch)) as Hp.
  { unfold publish_architecture, sendGenerationFailed. apply gemits_bind; [apply publish_only|intros err]. gemits_auto. }
  pose proof (gemits_all _ _ _ _ Hp Ho) as HF. rewrite Forall_forall in HF. injection (HF _ Hin) as ->.
  split_and!; [done|done|done|]. exists arch. split; [done|]. exists parsed, plan, (gwTick res.1). split_and!; [done|done| |done].
  intros p Hpl. rewrite Hpl in Es. by apply (proj1 (negb_false_iff _)), (proj1 (eqb_true _ _)) in Es.
Qed.

(** C16: Only checked architectures are published: an architecture is sent
    only while handling a finished loop of this session that no newer
    dispatch superseded, and it has passed every validator, those that need
    the plan when the plan could be read, which then was in
    generating_architecture.  The empty message that skips the phase is sent
    only for a claimed plan that asks to skip it. *)
Theorem published_architecture_checked e w new r a :
  gwOut (arch_step E e w).1 = (gwOut w ++ new)%list → GMutation (MArchitecture (Some r)) a ∈ new →
  match aqArchitecture r with
  | None => ∃ i plan, e = AStart i ∧ gwJobs w !! i = Some plan ∧ pSkipArchitecture plan = true ∧ aqSlug r = pSlug plan
  | Some arch => ∃ loop, e = ALoop loop ∧ glTerminal loop = true ∧ gwReplayDone w = true ∧ (glID loop ∉ gwSeen w) ∧
      IsStaleLoop (glPlanSlug loop) (glTaskID loop) (gwRetry w) = false ∧ glOutcome loop = OutcomeSuccess ∧
      aqSlug r = glPlanSlug loop ∧ arch_published_for loop w arch
  end.
Proof.
  intros Ho Hin. assert (∀ A (m : G Plan Plan S A) w1, gemits no_architecture m → gwOut (m w1).1 = (gwOut w1 ++ new)%list → False) as Hq.
  { intros A m w1 Hm Hw. pose proof (gemits_all _ _ _ _ Hm Hw) as HF. rewrite Forall_forall in HF. by apply (HF _ Hin). }
  destruct e as [plan|i|loop| | |p]; cbn [arch_step] in Ho; [by destruct (Hq _ _ _ (arch_quiet_watch _) Ho)| | |destruct (Hq _ _ _ (gemits_modify _ _ (λ _, eq_refl)) Ho)..].
  - unfold start_job in Ho. rewrite G_bind_eq in Ho. cbn [gread fst snd] in Ho.
    destruct (gwJobs w !! i) as [plan|] eqn:Ej; [|by destruct (Hq _ _ _ (gemits_ret _ ()) Ho)]. rewrite G_bind_eq in Ho. cbn [gmodify fst snd] in Ho.
    set (w1 := set_gwJobs _ w) in Ho. change (gwOut w) with (gwOut w1) in Ho. unfold processArchitecturePhase in Ho. destruct (pSkipArchitecture plan) eqn:Es.
    + assert (gemits (λ o, match o with GMutation (MArchitecture x) _ => x = Some (MkArchitectureReq (pSlug plan) None "") | _ => True end)
        (err ← publishArchitectureGenerated (S := S) E (pSlug plan) None;
         match err with Some e => sendGenerationFailed (S := S) E (pSlug plan) ("architecture skip mutation failed: " +:+ e) | None => mret () end)) as Hp.
      { unfold sendGenerationFailed. apply gemits_bind; [apply publish_only|intros err]. gemits_auto. }
      pose proof (gemits_all _ _ _ _ Hp Ho) as HF. rewrite Forall_forall in HF. injection (HF _ Hin) as ->. cbn [aqArchitecture aqSlug]. eauto 10.
    + assert (gemits no_architecture (gretry (J := Plan) (P := Plan) (S := S) (λ s, (Track (pSlug plan) plan s).1);;
        dispatchArchitectureGenerator (S := S) E plan "" (pReviewFormattedFindings plan))) as Hp.
      { apply gemits_bind; [apply gemits_retry|intros _; apply arch_quiet_dispatch]. }
      by destruct (Hq _ _ _ Hp Ho).
  - unfold watch_loop, gwatch_loop in Ho. destruct (negb (glTerminal loop) || _ || _ || _) eqn:Eg in Ho; [by destruct (Hq _ _ _ (gemits_ret _ ()) Ho)|].
    apply orb_false_iff in Eg as [Eg _]. apply orb_false_iff in Eg as [Eg _]. apply orb_false_iff in Eg as [Et _].
    rewrite G_bind_eq in Ho. cbn [gread fst snd] in Ho. destruct (negb (gwReplayDone w) || _) eqn:Er in Ho; [by destruct (Hq _ _ _ (gemits_ret _ ()) Ho)|].
    apply orb_false_iff in Er as [Er Es]. rewrite G_bind_eq in Ho. cbn [gmodify fst snd] in Ho. set (w1 := set_gwSeen _ w) in Ho.
    destruct (arch_handle_sends loop w1 new r a Ho Hin) as (H1 & H2 & H3 & arch & -> & H4). exists loop.
    apply negb_false_iff in Et, Er. apply bool_decide_eq_false in Es. by split_and!.
Qed.

(** A plan that cannot be read is not validated against: when the bucket
    fails at the wrong moment, an architecture that passes the remaining
    checks is published as the agent wrote it, so its components carry
    capability indices that nobody resolves and may leave capabilities and
    scoped files uncovered. *)
Theorem unreadable_plan_unvalidated loop w e parsed :
  (gload (aeGen E) (glPlanSlug loop) w).2 = inr e → IsStaleLoop (glPlanSlug loop) (glTaskID loop) (gwRetry w) = false →
  glOutcome loop = OutcomeSuccess → parseArchitectureFromResult E (glResult loop) = inl parsed →
  ValidateComponentImplementationFiles (adComponentBoundaries parsed) = None → ValidateUpstreamImports (adUpstreamResolutions parsed) = None →
  aeVerifier E = None → (∀ n cat, aeLoadCatalog E n = Some cat → ValidateSelections cat (adHarnessProfiles parsed) = None) →
  ∃ a rest, gwOut (handleLoopCompletion (S := S) E loop w).1 =
    (gwOut w ++ GMutation (MArchitecture (Some (MkArchitectureReq (glPlanSlug loop) (Some parsed) ""))) a :: rest)%list.
Proof.
  intros Hl Hst Ho Hp Hf Hi Hv Hc. unfold handleLoopCompletion. cbv zeta. rewrite G_bind_eq. cbn [gread fst snd]. rewrite Hst, Ho, eqb_refl. cbn [negb]. rewrite Hp.
  rewrite G_bind_eq, Hl. set (res := gload (aeGen E) (glPlanSlug loop) w) in *. rewrite !G_bind_eq. cbn [gread gtick fst snd].
  assert (validateGeneratedArchitecture E (gwTick res.1) parsed None = (parsed, None)) as ->.
  { unfold validateGeneratedArchitecture, architecture_failures. rewrite Hf, Hi. unfold validateUpstreamCoordinates. rewrite Hv.
    assert (set_adComponentBoundaries (adComponentBoundaries parsed) parsed = parsed) as -> by (by destruct parsed).
    destruct (aeLoadCatalog E (gwTick res.1)) as [cat|] eqn:El; [|done]. by rewrite (Hc _ _ El). }
  set (w1 := set_gwTick _ _). change (gwOut w) with (gwOut w1). unfold publish_architecture. rewrite G_bind_eq.
  unfold publishArchitectureGenerated, grequest. rewrite !G_bind_eq. cbn [gtick gread fst snd]. destruct (plan_request _ _ _) as [p a]. rewrite !G_bind_eq.
  cbn [gmodify gout mret G_ret fst snd]. set (w2 := set_gwOut _ _).
  match goal with |- ∃ a rest, gwOut (?m w2).1 = _ => assert (gemits (λ _, True) m) as Hm by (unfold sendGenerationFailed; gemits_auto) end.
  destruct (Hm w2) as (rest & Hr & _). exists a, rest. rewrite Hr. cbn. by rewrite <- app_assoc.
Qed.
End component.

(** ** Over the plan manager *)

Section cycle.
Context (PE : Env) (row : Plan → string) (text : mutation_error → string) (E : ArchEnv) (Hio : healthy PE).

Lemma architecture_taken slug arch w p : wCache w !! slug = Some p → pSlug p = slug → ValidateSlug slug = None →
  EffectiveStatus p = StatusGeneratingArchitecture →
  ∃ w' q, handle PE (MArchitecture (Some (MkArchitectureReq slug arch ""))) w = (w', None) ∧
    wCache w' !! slug = Some q ∧ EffectiveStatus q = StatusArchitectureGenerated ∧
    pArchitecture q = (match arch with Some a => Some a | None => pArchitecture p end) ∧ pPreviousArchitectureJSON q = "".
Proof.
  intros Hc Hp Hv Hs. cbn [handle handleArchitectureMutation aqSlug aqArchitecture]. rewrite (slug_nonempty _ Hv).
  rewrite (with_plan_cached _ _ _ _ _ Hc). unfold guard_transition, can. rewrite Hs.
  change (Status_CanTransitionTo StatusGeneratingArchitecture StatusArchitectureGenerated) with true. cbv zeta.
  set (q := set_pStatus _ _). assert (pSlug q = slug) as Hq by (unfold q; by destruct arch).
  destruct (save_healthy PE Hio q (ticked w)) as (w' & Hw & Hwq); [by rewrite Hq|]. rewrite Hq in Hwq.
  exists w', q. unfold save_reply, mbind, M_bind. rewrite Hw. split_and!; [done|done|done|by destruct arch|done].
Qed.

(** A good answer becomes the plan's architecture: when nothing fails
    outside and the plan waits in generating_architecture, the end of the
    loop under way with an architecture that passes the validators takes the
    plan to architecture_generated with that architecture, capability names
    filled in, and the generator forgets the plan. *)
Theorem architecture_reaches_plan loop (w : GWorld Plan Plan World) p parsed arch :
  let slug := glPlanSlug loop in
  stored row (aeGen E) slug (gwPort w) p → EffectiveStatus p = StatusGeneratingArchitecture → gioErr (geIO (aeGen E) (gwTick w)) = None →
  IsStaleLoop slug (glTaskID loop) (gwRetry w) = false → glOutcome loop = OutcomeSuccess →
  parseArchitectureFromResult E (glResult loop) = inl parsed →
  validateGeneratedArchitecture E (S (gwTick w)) parsed (Some p) = (arch, None) →
  let w' := (handleLoopCompletion (H := direct PE row text) E loop w).1 in
  gwRetry w' !! slug = None ∧
  ∃ q, visible (gwPort w') slug = Some q ∧ EffectiveStatus q = StatusArchitectureGenerated ∧ pArchitecture q = Some arch ∧
    (adComponentBoundaries arch = (ResolveCapabilityIndices (pExploration p) (adComponentBoundaries parsed)).1).
Proof.
  cbv zeta. intros Hst He Herr Hl Ho Hp Hv. unfold handleLoopCompletion. cbv zeta. rewrite G_bind_eq. cbn [gread fst snd].
  rewrite Hl, Ho, eqb_refl. cbn [negb]. rewrite Hp. rewrite G_bind_eq, (load_stored PE row text _ _ _ _ Hst Herr). cbn [fst snd].
  rewrite He, eqb_refl. cbn [negb]. rewrite !G_bind_eq. cbn [gread gtick fst snd gwTick set_gwTick]. rewrite Hv. set (w1 := set_gwTick _ _).
  destruct Hst as (Hc & _ & Hps & Hvs & _).
  destruct (architecture_taken (glPlanSlug loop) (Some arch) (gwPort w1) p) as (w2 & q & Hh & Hc2 & Hq & Hqa & _); try done.
  unfold publish_architecture, publishArchitectureGenerated. rewrite !G_bind_eq.
  destruct (request_accepted PE row text (J := Plan) (P := Plan) (aeGen E) _ w1 w2 Hh) as (Ha & Hw & Hrt). rewrite Ha. cbn [mret G_ret fst snd].
  split; [apply lookup_delete_eq|]. exists q. split_and!; [|done|done|].
  - unfold visible. cbn [gretry gmodify fst gwPort set_gwRetry]. by rewrite Hw, Hc2.
  - apply validated_passes in Hv. destruct (ap_plan _ _ _ _ _ Hv p eq_refl) as (-> & _). done.
Qed.
End cycle.

(** ** Finished loops *)

Section liveness.
Context {S : Type} `{PlanPort S} (E : ArchEnv).
Context (renders : ∀ n plan err findings, is_Some (aePrompt E n plan err findings)).
Context (running : ∀ n, gioCancelled (geIO (aeGen E) n) = false).

Lemma arch_dispatch_responds plan err findings : gresponds (dispatchArchitectureGenerator (S := S) E plan err findings).
Proof.
  unfold dispatchArchitectureGenerator. cbv zeta. apply gresponds_r; [apply gemits_tick|intros io].
  apply gresponds_r; [apply gemits_retry|intros _]. apply gresponds_r; [apply gemits_read|intros w].
  destruct (renders (gwTick w) plan err findings) as [p ->]. apply gresponds_publish. intros e. apply gresponds_failed.
Qed.

Lemma arch_retry_responds slug err prev : gresponds (retryOrFail (S := S) E slug err prev).
Proof.
  unfold retryOrFail. cbv zeta. apply gresponds_r; [apply gemits_read|intros w]. apply gresponds_r.
  { destruct (Snapshot slug (gwRetry w)); gemits_auto. }
  intros [|]; cbn [negb]; [|apply gresponds_failed].
  apply gresponds_tick_or_fail; [done|apply gresponds_failed|intros p; unfold redispatch; cbv zeta].
  apply gresponds_r; [apply gemits_retry|intros _; apply arch_dispatch_responds].
Qed.

(** A finished loop of the architecture generator always has a consequence:
    a message to the plan manager or a new attempt, unless the plan has left
    generating_architecture, and then its bookkeeping is cleared. *)
Theorem architecture_loop_concluded loop w :
  glTerminal loop = true → glWorkflowSlug loop = "semspec-planning" → glWorkflowStep loop = "architecture-generation" →
  glPlanSlug loop ≠ "" → gwReplayDone w = true → (glID loop ∉ gwSeen w) →
  IsStaleLoop (glPlanSlug loop) (glTaskID loop) (gwRetry w) = false →
  let w' := (watch_loop (S := S) E loop w).1 in
  (∃ plan, (gload (aeGen E) (glPlanSlug loop) w).2 = inl plan ∧ EffectiveStatus plan ≠ StatusGeneratingArchitecture ∧
     gwOut w' = gwOut w ∧ gwRetry w' !! glPlanSlug loop = None) ∨
  ∃ new, gwOut w' = (gwOut w ++ new)%list ∧ new ≠ [].
Proof.
  intros Ht Hw Hs Hp Hr Hn Hst. cbv zeta. unfold watch_loop. rewrite gwatch_live; [|done..|by apply negb_true_iff, eqb_false].
  set (w1 := set_gwSeen _ w). unfold handleLoopCompletion. cbv zeta. rewrite G_bind_eq. cbn [gread fst snd].
  change (gwRetry w1) with (gwRetry w). rewrite Hst. change (gwOut w) with (gwOut w1).
  destruct (glOutcome loop !=? OutcomeSuccess); [right; apply arch_retry_responds|].
  destruct (parseArchitectureFromResult E (glResult loop)) as [parsed|e]; [|right; apply arch_retry_responds]. rewrite G_bind_eq.
  change ((gload (aeGen E) (glPlanSlug loop) w).2) with ((gload (J := Plan) (P := Plan) (aeGen E) (glPlanSlug loop) w1).2).
  set (res := gload (aeGen E) (glPlanSlug loop) w1). change (gwOut w1) with (gwOut res.1).
  destruct (match match res.2 with inl plan => Some plan | inr _ => None end with Some plan => _ | None => false end) eqn:Es.
  { left. destruct res.2 as [plan|]; [|done]. exists plan. apply neqb_true in Es. split_and!; [done|done|done|]. apply lookup_delete_eq. }
  right. rewrite !G_bind_eq. cbn [gread gtick fst snd]. set (w2 := set_gwTick _ _). change (gwOut res.1) with (gwOut w2).
  destruct (validateGeneratedArchitecture _ _ _ _) as [arch [msg|]]; [apply arch_retry_responds|].
  assert (gresponds (publish_architecture (S := S) E (glPlanSlug loop) arch)) as Hpub; [|apply Hpub].
  unfold publish_architecture, publishArchitectureGenerated. apply gresponds_l.
  - apply gresponds_l; [apply gresponds_request|intros a; apply gemits_ret].
  - intros err. unfold sendGenerationFailed. gemits_auto.
Qed.
End liveness.

(** ** A plan gets its architecture *)

Definition arch_doc (idx : Z) (coordinate : string) : ArchitectureDocument :=
  MkArchitectureDocument [] [sample_comp "driver" ["src/driver.go"] [idx]] "" [] [] [] None
    [MkUpstreamResolution "mavsdk" coordinate "" "" [] [] ""] [MkHarnessProfileSelection "sim" [] "needs a link" []].

(** The registry knows one artifact. *)
Definition arch_env (plan : Plan) (doc : ArchitectureDocument) : ArchEnv :=
  MkArchEnv (gen_env plan) (λ _, inl doc) (λ _, Some "rejected") (Some (λ _ ch, Some (ckArtifact ch =? "mavsdk")))
    (λ _, Some gen_profile) (λ _, "bad") (λ _ plan err _, Some (err +:+ "|" +:+ pPreviousArchitectureJSON plan)).
Definition arch_loop : gen_loop :=
  MkGenLoop "L1" "archgen-demo-id" true "semspec-planning" "architecture-generation" "demo" "" "" "" OutcomeSuccess "" "{}".
Definition arch_plan : Plan := gen_plan StatusGeneratingArchitecture.
Definition arch_run (doc : ArchitectureDocument) : GWorld Plan Plan World :=
  (run_arch (H := gen_manager) (arch_env arch_plan doc) [APlan (gen_plan StatusRequirementsReviewed); AStart 0; ALoop arch_loop]
    (gen_world (gen_plan StatusRequirementsReviewed))).1.

Example architecture_generated :
  ((λ p, (EffectiveStatus p, cdCapabilities <$> (default [] (adComponentBoundaries <$> pArchitecture p)))) <$>
     visible (gwPort (arch_run (arch_doc 0 "io.mavsdk:mavsdk:2.1"))) "demo") = Some (StatusArchitectureGenerated, [["telemetry"]]).
Proof. by vm_compute. Qed.

(** An invented coordinate and a wrong index come back together, and the
    rejected architecture with them. *)
Example architecture_rejected :
  (EffectiveStatus <$> visible (gwPort (arch_run (arch_doc 3 "io.mavsdk:mavlink:2.1"))) "demo") = Some StatusGeneratingArchitecture ∧
  (snd <$> (architecture_failures (arch_env arch_plan (arch_doc 3 "io.mavsdk:mavlink:2.1")) 0 (arch_doc 3 "io.mavsdk:mavlink:2.1") (Some arch_plan)).2)
    ≠ [] ∧
  ((architecture_failures (arch_env arch_plan (arch_doc 3 "io.mavsdk:mavlink:2.1")) 0 (arch_doc 3 "io.mavsdk:mavlink:2.1") (Some arch_plan)).2).*1 =
    ["capability_index_resolution"; "upstream_coordinate_resolution"] ∧
  ((λ e, pPreviousArchitectureJSON (enPayload e)) <$> gwRetry (arch_run (arch_doc 3 "io.mavsdk:mavlink:2.1")) !! "demo") = Some "rejected".
Proof. by vm_compute. Qed.

(** Selections are trimmed when they are validated and not when they are
    used: a padded profile passes the gate and is bound nowhere. *)
Example padded_profile_unbound :
  let doc := MkArchitectureDocument [] [] "" [] [] [] None [] [MkHarnessProfileSelection "sim " [] "" []] in
  ValidateSelections gen_profile (adHarnessProfiles doc) = None ∧ ScenarioGen.integrationEmissions (Some doc) gen_profile = [].
Proof. by vm_compute. Qed.

Definition good_doc : ArchitectureDocument := arch_doc 0 "io.mavsdk:mavsdk:2.1".
Definition named_doc : ArchitectureDocument :=
  (validateGeneratedArchitecture (arch_env arch_plan good_doc) 1 good_doc (Some arch_plan)).1.
Definition arch_world : GWorld Plan Plan World := gen_world arch_plan.

Lemma architecture_reaches_plan_witness :
  ∃ q, visible (gwPort (handleLoopCompletion (H := gen_manager) (arch_env arch_plan good_doc) arch_loop arch_world).1) "demo" = Some q ∧
    EffectiveStatus q = StatusArchitectureGenerated ∧ pArchitecture q = Some named_doc.
Proof.
  destruct (architecture_reaches_plan (sample_env (λ _, quiet_io) None) pTitle (λ _, "refused") (arch_env arch_plan good_doc) healthy_demo
    arch_loop arch_world arch_plan good_doc named_doc) as (_ & q & Hq & Hs & Ha & _);
    [split_and!; vm_compute; reflexivity|vm_compute; reflexivity|reflexivity|reflexivity|reflexivity|reflexivity|vm_compute; reflexivity|].
  exists q. split; [exact Hq|]. by split.
Defined.

Lemma published_architecture_checked_witness :
  ∃ n, arch_passes (arch_env arch_plan good_doc) n (Some arch_plan) good_doc named_doc.
Proof.
  destruct (@published_architecture_checked World gen_manager (arch_env arch_plan good_doc) (ALoop arch_loop) arch_world
    [GMutation (MArchitecture (Some (MkArchitectureReq "demo" (Some named_doc) ""))) (Answered true "")]
    (MkArchitectureReq "demo" (Some named_doc) "") (Answered true "")) as (loop & Hl & _ & _ & _ & _ & _ & _ & parsed & plan & n & Hp & Hpl & _ & Ha);
    [vm_compute; reflexivity|left|].
  injection Hl as <-. vm_compute in Hp. injection Hp as <-. vm_compute in Hpl. exists n. rewrite Hpl in Ha. exact Ha.
Defined.

Lemma validated_architecture_reviewable_witness :
  clean (architecture_findings plain (set_pArchitecture (Some named_doc) arch_plan)).
Proof.
  apply (validated_architecture_reviewable (arch_env arch_plan good_doc) 1 good_doc named_doc arch_plan plain);
    [vm_compute; reflexivity|vm_compute; discriminate|].
  split; [vm_compute; reflexivity|]. split; [intros H; destruct H; reflexivity|vm_compute; reflexivity].
Defined.

(** Interaction 0 cannot read the plan. *)
Definition blind_env : ArchEnv :=
  MkArchEnv (MkGenEnv (λ n, MkGenIO "id" 7 (if bool_decide (n = 0%nat) then Some "timeout" else None) false) (λ _, Some arch_plan) (λ _, "no plan") plain 2)
    (λ _, inl (arch_doc 3 "")) (λ _, None) None (λ _, Some gen_profile) (λ _, "bad") (λ _ _ _ _, Some "design").

Lemma unreadable_plan_unvalidated_witness :
  ∃ a rest, gwOut (handleLoopCompletion (H := gen_manager) blind_env arch_loop arch_world).1 =
    GMutation (MArchitecture (Some (MkArchitectureReq "demo" (Some (arch_doc 3 "")) ""))) a :: rest.
Proof.
  apply (@unreadable_plan_unvalidated World gen_manager blind_env arch_loop arch_world "no plan" (arch_doc 3 ""));
    [vm_compute; reflexivity|reflexivity|reflexivity|reflexivity|vm_compute; reflexivity|vm_compute; reflexivity|reflexivity|].
  intros n cat Hc. injection Hc as <-. vm_compute. reflexivity.
Defined.
