(* ===== verification/Planner.v ===== *)
(** * The planner

    processor/planner/component.go: the two agents at the beginning of a
    plan.  A new plan goes to the analyst, who names the capabilities
    (exploring, explored), and then to the planner proper, who drafts goal,
    context and scope (drafting, drafted); a plan the reviewer sent back goes
    to the planner at once, with the findings.  Here are the routing of plans,
    the check of an exploration, the parsing of both answers, dispatch,
    completion, retries and the recovery of a dispatch after a restart.

    Both phases share one retry entry per plan, and every dispatch runs in a
    goroutine of its own.  JSON decoding, the prompt with the project's file
    tree and [%q] are parameters; the wait for the graph source only delays a
    dispatch. *)

From Stdlib Require Import Ascii.
From stdpp Require Import pretty.
From S2P Require Import Prelude Status Paths JsonUtil Types Stories PlanStore Mutations PlanRules DispatchRetry.
From S2P Require Import Feedback PlanReviewer Generators.

Local Open Scope string_scope.
Local Open Scope go_scope.

(** ** Explorations *)

Inductive exploration_error :=
| NoCapabilities
| MissingName (i : nat)
| NotKebab (i : nat) (name : string)
| BadLifecycle (i : nat) (name : string) (l : CapabilityLifecycle)
| MissingDescription (i : nat) (name : string)
| DeclaredTwice (name : string)
| UndeclaredDependency (name dep : string).

Definition kebab_char (c : ascii) : bool :=
  let n := nat_of_ascii c in bool_decide (97 ≤ n ≤ 122)%nat || bool_decide (48 ≤ n ≤ 57)%nat || (c =? "-"%char).

Fixpoint all_kebab (s : string) : bool :=
  match s with "" => true | String c r => kebab_char c && all_kebab r end.

Definition isKebabCase (s : string) : bool :=
  if s =? "" then false
  else if HasPrefix s "-" || HasSuffix s "-" then false else all_kebab s.

(** The loop over the capabilities, with the names seen so far. *)
Fixpoint check_capabilities (i : nat) (names : gset string) (caps : list Capability) : option exploration_error :=
  match caps with
  | [] => None
  | c :: caps =>
      if capName c =? "" then Some (MissingName i)
      else if negb (isKebabCase (capName c)) then Some (NotKebab i (capName c))
      else if negb (CapabilityLifecycle_IsValid (capLifecycle c)) then Some (BadLifecycle i (capName c) (capLifecycle c))
      else if capDescription c =? "" then Some (MissingDescription i (capName c))
      else if bool_decide (capName c ∈ names) then Some (DeclaredTwice (capName c))
      else check_capabilities (S i) ({[capName c]} ∪ names) caps
  end.

Definition validateExploration (exp : Exploration) : option exploration_error :=
  let caps := exCapabilities exp in
  if is_nil caps then Some NoCapabilities else
  match check_capabilities 0 ∅ caps with
  | Some e => Some e
  | None =>
      let names : gset string := list_to_set (capName <$> caps) in
      first_err (λ c, first_err (λ dep,
        if bool_decide (dep ∈ names) then None else Some (UndeclaredDependency (capName c) dep)) (capDependsOn c)) caps
  end.

(** ** Parameters *)

Record PlanContent := MkPlanContent {
  pcTitle : string;
  pcGoal : string;
  pcContext : string;
  pcConstraints : list string;
  pcScope : Scope;
  pcStatus : string }.

Definition no_content : PlanContent := MkPlanContent "" "" "" [] (MkScope [] [] [] []) "".

Record planDispatchContext := MkPlanDispatch {
  dcTitle : string;
  dcIsRevision : bool;
  dcPreviousPlanJSON : string;
  dcRevisionPrompt : string }.

Definition empty_dispatch : planDispatchContext := MkPlanDispatch "" false "" "".

(** [peUnmarshalContent] decodes into a value that may hold something
    already, and leaves there what it has decoded when it fails. *)
Record PlannerEnv := MkPlannerEnv {
  peGen : GenEnv;
  peAnalystSubPhase : option bool;
  peUnmarshalExploration : string → Exploration + string;
  peUnmarshalContent : string → PlanContent → PlanContent * option string;
  peMarshalPlan : Plan → string;
  peAnalystPrompt : nat → string → string → option Plan → option string;
  pePlannerPrompt : nat → planDispatchContext → string → option Plan → option string }.

(** A goroutine that dispatches. *)
Inductive plan_job :=
| JobAnalyst (slug title previousError : string)
| JobPlanner (slug : string) (ctx : planDispatchContext) (previousError : string).

Section planner.
Context {S : Type} `{PlanPort S} (E : PlannerEnv).
Let E' := peGen E.
Local Abbreviation PG := (G plan_job planDispatchContext S).

Definition IsAnalystSubPhaseEnabled : bool := default true (peAnalystSubPhase E).

(** ** Parsing *)

Definition exploration_text (e : exploration_error) : string :=
  match e with
  | NoCapabilities => "exploration must declare at least one capability"
  | MissingName i => "capability[" +:+ pretty i +:+ "] missing name"
  | NotKebab i name => "capability[" +:+ pretty i +:+ "] name " +:+ geQuote E' name +:+ " must be kebab-case"
  | BadLifecycle i name l =>
      "capability[" +:+ pretty i +:+ "] (" +:+ name +:+ ") lifecycle " +:+ geQuote E' (lifecycle_text l) +:+ " must be new or modified"
  | MissingDescription i name => "capability[" +:+ pretty i +:+ "] (" +:+ name +:+ ") missing description"
  | DeclaredTwice name => "capability " +:+ geQuote E' name +:+ " declared more than once"
  | UndeclaredDependency name dep =>
      "capability " +:+ geQuote E' name +:+ " depends_on " +:+ geQuote E' dep +:+ " which is not declared in this exploration"
  end.

Definition validated (exp : Exploration) : Exploration + string :=
  match validateExploration exp with Some e => inr (exploration_text e) | None => inl exp end.

Definition parseExplorationFromResult (result : string) : Exploration + string :=
  if result =? "" then inr "empty analyst result" else
  let fallback :=
    let parsed := ExtractJSON result in
    if parsed =? "" then inr "no JSON found in analyst result" else
    match peUnmarshalExploration E parsed with
    | inr e => inr ("parse analyst JSON: " +:+ e)
    | inl exp => validated exp
    end in
  match peUnmarshalExploration E result with
  | inl exp => if is_nil (exCapabilities exp) then fallback else validated exp
  | inr _ => fallback
  end.

Definition parsePlanFromResult (result : string) : PlanContent + string :=
  if result =? "" then inr "empty result" else
  let '(pc, err) := peUnmarshalContent E result no_content in
  if bool_decide (err = None) && (pcGoal pc !=? "") then inl pc else
  let parsed := ExtractJSON result in
  if parsed =? "" then inr "no JSON found in result" else
  let '(pc, err) := peUnmarshalContent E parsed pc in
  match err with
  | Some e => inr ("parse JSON: " +:+ e +:+ " (content: " +:+ String.substring 0 200 parsed +:+ ")")
  | None => if pcGoal pc =? "" then inr "plan missing 'goal' field" else inl pc
  end.

(** ** Dispatch *)

Definition sendGenerationFailed (slug feedback : string) : PG () := gfailed E' "plan-generation" slug feedback.

Definition go_job (j : plan_job) : PG () := gmodify (λ w, set_gwJobs (gwJobs w ++ [j])%list w).

(** What both dispatches do: record, render, publish.  A prompt that cannot
    be rendered ends the dispatch without a message. *)
Definition dispatch_as (prefix what slug : string) (ctx : planDispatchContext)
    (render : nat → option Plan → option string) : PG () :=
  gretry (λ s, (Track slug ctx s).1);;
  io ← gtick E';
  let taskID := prefix +:+ "-" +:+ slug +:+ "-" +:+ gioUUID io in
  gretry (SetActiveLoop slug taskID);;
  loaded ← gload E' slug;
  w ← gread;
  match render (gwTick w) (match loaded with inl plan => Some plan | inr _ => None end) with
  | None => mret ()
  | Some prompt =>
      gpublish E' (MkGenTask taskID slug "" "" prompt)
        (λ e, sendGenerationFailed slug (what +:+ " dispatch failed: " +:+ e))
  end.

Definition dispatchAnalyst (slug title previousError : string) : PG () :=
  dispatch_as "analyst" "analyst" slug (MkPlanDispatch title false "" "")
    (λ n plan, peAnalystPrompt E n title previousError plan).

Definition dispatchPlanner (slug : string) (ctx : planDispatchContext) (previousError : string) : PG () :=
  dispatch_as "plan" "planner" slug ctx (λ n plan, pePlannerPrompt E n ctx previousError plan).

(** ** Plans *)

(** The length of a raw message in bytes is not zero. *)
Definition has_findings (r : RawFindings) : bool :=
  match r with RawNil => false | RawUnparsable raw => raw !=? "" | RawArray _ => true end.

Definition sent_back (plan : Plan) : bool := (pGoal plan !=? "") && has_findings (pReviewFindings plan).

Definition revision_prompt (plan : Plan) : string :=
  "## REVISION REQUEST (iteration " +:+ pretty (pReviewIteration plan) +:+ ")" +:+ nl +:+ nl +:+
  "The reviewer rejected your previous plan. Address ALL findings below." +:+ nl +:+ nl +:+
  (if pReviewFormattedFindings plan =? "" then pReviewSummary plan else pReviewFormattedFindings plan).

(** What the planner is told about a plan. *)
Definition dispatch_context (plan : Plan) : planDispatchContext :=
  if sent_back plan then MkPlanDispatch (pTitle plan) true (peMarshalPlan E plan) (revision_prompt plan)
  else MkPlanDispatch (pTitle plan) false "" "".

Definition routeCreated (plan : Plan) : PG () :=
  let wantAnalyst := IsAnalystSubPhaseEnabled && bool_decide (pExploration plan = None) && negb (sent_back plan) in
  if wantAnalyst then
    claimed ← gclaim E' (pSlug plan) StatusExploring;
    if claimed : bool then go_job (JobAnalyst (pSlug plan) (pTitle plan) "") else mret ()
  else
    claimed ← gclaim E' (pSlug plan) StatusDrafting;
    if claimed : bool then go_job (JobPlanner (pSlug plan) (dispatch_context plan) "") else mret ().

Definition routeExplored (plan : Plan) : PG () :=
  match pExploration plan with
  | None => mret ()
  | Some _ =>
      claimed ← gclaim E' (pSlug plan) StatusDrafting;
      if claimed : bool then go_job (JobPlanner (pSlug plan) (MkPlanDispatch (pTitle plan) false "" "") "") else mret ()
  end.

Definition routePlanStateEntry (plan : Plan) : PG () :=
  if (pStatus plan =? StatusOther "") || (pStatus plan =? StatusCreated) then routeCreated plan
  else if pStatus plan =? StatusExplored then routeExplored plan else mret ().

Definition watch_plan (plan : Plan) : PG () :=
  if pSlug plan =? "" then mret () else routePlanStateEntry plan.

(** ** Retries *)

Definition recoverAnalystTitle (slug : string) : PG string :=
  loaded ← gload E' slug;
  mret (match loaded with inl plan => pTitle plan | inr _ => "" end).

Definition recoverDispatchContext (slug : string) : PG planDispatchContext :=
  loaded ← gload E' slug;
  mret (match loaded with inl plan => dispatch_context plan | inr _ => empty_dispatch end).

(** [Track] after a restart, when there is no entry. *)
Definition ensure_tracked (slug : string) (recover : PG planDispatchContext) : PG () :=
  w ← gread;
  match Snapshot slug (gwRetry w) with
  | Some _ => mret ()
  | None => ctx ← recover; gretry (λ s, (Track slug ctx s).1)
  end.

Definition retryAnalystOrFail (slug errMsg : string) : PG () :=
  ensure_tracked slug (title ← recoverAnalystTitle slug; mret (MkPlanDispatch title false "" ""));;
  tick_or_fail E' slug (sendGenerationFailed slug errMsg) (λ ctx, go_job (JobAnalyst slug (dcTitle ctx) errMsg)).

Definition retryOrFail (slug errMsg : string) : PG () :=
  ensure_tracked slug (recoverDispatchContext slug);;
  tick_or_fail E' slug (sendGenerationFailed slug errMsg) (λ ctx, go_job (JobPlanner slug ctx errMsg)).

(** ** Finished loops *)

(** The result is sent to the plan manager; a refusal because the plan has
    moved on only clears the bookkeeping. *)
Definition send_result (what slug : string) (m : mutation) : PG () :=
  a ← grequest E' m;
  match a with
  | NoAnswer e => sendGenerationFailed slug (what +:+ " mutation publish failed: " +:+ e)
  | Answered true _ => gretry (Clear slug)
  | Answered false e =>
      if Contains e "invalid transition" then gretry (Clear slug)
      else sendGenerationFailed slug (what +:+ " mutation rejected: " +:+ e)
  end.

(** The plan has left the status in which the agent was asked. *)
Definition moved_on (slug : string) (expected : Status) : PG bool :=
  loaded ← gload E' slug;
  mret (match loaded with inl plan => EffectiveStatus plan !=? expected | inr _ => false end).

Definition drafted_request (slug : string) (pc : PlanContent) : DraftedMutationRequest :=
  MkDraftedReq slug (pcTitle pc) (pcGoal pc) (pcContext pc) (pcConstraints pc) (Some (pcScope pc)) false "".

Definition handleLoopCompletion (loop : gen_loop) : PG () :=
  let slug := glPlanSlug loop in
  w ← gread;
  if IsStaleLoop slug (glTaskID loop) (gwRetry w) then mret () else
  if glOutcome loop !=? OutcomeSuccess then retryOrFail slug (gloop_error E' loop) else
  moved ← moved_on slug StatusDrafting;
  if moved : bool then gretry (Clear slug) else
  match parsePlanFromResult (glResult loop) with
  | inr e => retryOrFail slug ("planner output parse failed: " +:+ e)
  | inl pc => send_result "drafted" slug (MDrafted (Some (drafted_request slug pc)))
  end.

Definition analyst_error (loop : gen_loop) : string :=
  if glError loop =? "" then "analyst loop ended with outcome " +:+ geQuote E' (glOutcome loop) else glError loop.

Definition handleAnalystCompletion (loop : gen_loop) : PG () :=
  let slug := glPlanSlug loop in
  w ← gread;
  if IsStaleLoop slug (glTaskID loop) (gwRetry w) then mret () else
  if glOutcome loop !=? OutcomeSuccess then retryAnalystOrFail slug (analyst_error loop) else
  moved ← moved_on slug StatusExploring;
  if moved : bool then gretry (Clear slug) else
  match parseExplorationFromResult (glResult loop) with
  | inr e => retryAnalystOrFail slug ("analyst output parse failed: " +:+ e)
  | inl exp => send_result "explored" slug (MExplored (Some (MkExploredReq slug exp "")))
  end.

(** Unlike the other generators the planner does not remember which loops it
    has handled. *)
Definition watch_loop (loop : gen_loop) : PG () :=
  if negb (glTerminal loop) || (glWorkflowSlug loop !=? "semspec-planning") ||
     ((glWorkflowStep loop !=? "drafting") && (glWorkflowStep loop !=? "exploring")) || (glPlanSlug loop =? "")
  then mret () else
  w ← gread;
  if negb (gwReplayDone w) then mret ()
  else if glWorkflowStep loop =? "exploring" then handleAnalystCompletion loop else handleLoopCompletion loop.

(** A goroutine runs. *)
Definition run_job (i : nat) : PG () :=
  w ← gread;
  match gwJobs w !! i with
  | None => mret ()
  | Some j =>
      gmodify (set_gwJobs (delete i (gwJobs w)));;
      match j with
      | JobAnalyst slug title err => dispatchAnalyst slug title err
      | JobPlanner slug ctx err => dispatchPlanner slug ctx err
      end
  end.

(** ** Runs *)

Inductive plan_event :=
| PPlan (plan : Plan)
| PRun (i : nat)
| PLoop (loop : gen_loop)
| PReplayDone
| PRestart
| PElsewhere (p : S).

Definition planner_step (e : plan_event) : PG () :=
  match e with
  | PPlan plan => watch_plan plan
  | PRun i => run_job i
  | PLoop loop => watch_loop loop
  | PReplayDone => gmodify (set_gwReplayDone true)
  | PRestart => grestart
  | PElsewhere p => gmodify (set_gwPort p)
  end.

Fixpoint run_plan (es : list plan_event) : PG () :=
  match es with [] => mret () | e :: es => planner_step e;; run_plan es end.
End planner.
