(* ===== verification/PlannerFacts.v ===== *)
(** * What the planner does

    The check of an exploration decides what it promises, and what the plan
    manager asks for beyond it; only checked results are sent, and only for a
    loop that is under way; a good answer takes the plan from exploring to
    explored and from drafting to drafted.  The limits: a refused result ends
    the plan without another attempt and leaves its bookkeeping behind, a
    loop that is reported twice is handled twice, and a plan whose dispatch is
    lost in a restart waits for ever. *)

From Stdlib Require Import Ascii.
From stdpp Require Import pretty.
From S2P Require Import Prelude Graphs Status Paths JsonUtil Types Stories PlanStore Mutations DispatchRetry.
From S2P Require Import Feedback PlanReviewer ReviewCycle Generators GenCycle Planner.

Local Open Scope string_scope.
Local Open Scope go_scope.

(** ** Explorations *)

(** Lower-case letters, digits and hyphens, no hyphen at either end. *)
Definition kebab (s : string) : Prop :=
  ∃ cs, s = String.string_of_list_ascii cs ∧ cs ≠ [] ∧ Forall (λ c, kebab_char c = true) cs ∧
    head cs ≠ Some "-"%char ∧ last cs ≠ Some "-"%char.

Lemma has_prefix_byte c cs : HasPrefix (String.string_of_list_ascii cs) (String c "") = true ↔ head cs = Some c.
Proof.
  rewrite HasPrefix_spec. destruct cs as [|d cs]; cbn; [split; [by intros [r [=]]|done]|].
  split; [by intros [r [= -> _]]|intros [= ->]; by eexists].
Qed.

Lemma isKebabCase_spec s : isKebabCase s = true ↔ kebab s.
Proof.
  unfold isKebabCase, kebab. rewrite <- (String.string_of_list_ascii_of_string s). generalize (String.list_ascii_of_string s) as cs. clear s. intros cs.
  assert (all_kebab (String.string_of_list_ascii cs) = true ↔ Forall (λ c, kebab_char c = true) cs) as Hall.
  { induction cs as [|c cs IH]; cbn; [by split|]. by rewrite andb_true_iff, IH, Forall_cons. }
  assert (HasSuffix (String.string_of_list_ascii cs) "-" = true ↔ last cs = Some "-"%char) as Hsuf.
  { unfold HasSuffix, rev_string. rewrite String.list_ascii_of_string_of_list_ascii. change (String.string_of_list_ascii (reverse _)) with
      (String.string_of_list_ascii (reverse cs)) at 1. rewrite (has_prefix_byte "-"%char). by rewrite head_reverse. }
  pose proof (has_prefix_byte "-"%char cs) as Hpre.
  assert ((∃ cs', String.string_of_list_ascii cs = String.string_of_list_ascii cs' ∧ cs' ≠ [] ∧ Forall (λ c, kebab_char c = true) cs' ∧
      head cs' ≠ Some "-"%char ∧ last cs' ≠ Some "-"%char) ↔
    cs ≠ [] ∧ Forall (λ c, kebab_char c = true) cs ∧ head cs ≠ Some "-"%char ∧ last cs ≠ Some "-"%char) as ->.
  { split; [|intros; by exists cs]. intros (cs' & He & Hr). apply (f_equal String.list_ascii_of_string) in He.
    rewrite !String.list_ascii_of_string_of_list_ascii in He. by subst cs'. }
  destruct cs as [|c cs]; [by split; [|intros [? _]]|]. rewrite (proj2 (eqb_false _ _)) by done. rewrite <- Hall, <- Hpre, <- Hsuf.
  destruct (HasPrefix _ _), (HasSuffix _ _); cbn [orb]; naive_solver.
Qed.

Definition well_described (c : Capability) : Prop :=
  kebab (capName c) ∧ CapabilityLifecycle_IsValid (capLifecycle c) = true ∧ capDescription c ≠ "".

Lemma check_capabilities_None i names caps :
  check_capabilities i names caps = None ↔
  Forall well_described caps ∧ NoDup (capName <$> caps) ∧ (∀ c, c ∈ caps → capName c ∉ names).
Proof.
  revert i names. induction caps as [|c caps IH]; intros i names; cbn [check_capabilities fmap list_fmap].
  { split; [|done]. intros _. split_and!; [done|constructor|set_solver]. }
  rewrite guard_None, guard_None, negb_false_iff, isKebabCase_spec, guard_None, negb_false_iff, guard_None, !eqb_false, guard_None, bool_decide_eq_false, IH, Forall_cons, NoDup_cons.
  assert (kebab (capName c) → capName c ≠ "") as Hk.
  { intros (cs & -> & Hne & _). by destruct cs. }
  unfold well_described. split.
  - intros (? & ? & ? & ? & ? & ? & ? & Hfr). split_and!; try done.
    + intros (c' & Heq & Hin)%list_elem_of_fmap. apply (Hfr c' Hin). rewrite <- Heq. set_solver.
    + intros c' [->|Hin]%elem_of_cons; [done|]. specialize (Hfr c' Hin). set_solver.
  - intros (((?&?&?) & ?) & (Hn & ?) & Hfr). split_and!; try done; [by apply Hk|apply Hfr; set_solver|].
    intros c' Hin [He|Hi]%elem_of_union; [|by apply (Hfr c'); [set_solver|]]. apply Hn, list_elem_of_fmap. exists c'. set_solver.
Qed.

Lemma validateExploration_None exp : validateExploration exp = None ↔
  exCapabilities exp ≠ [] ∧ Forall well_described (exCapabilities exp) ∧ NoDup (capName <$> exCapabilities exp) ∧
  (∀ c dep, c ∈ exCapabilities exp → dep ∈ capDependsOn c → dep ∈ capName <$> exCapabilities exp).
Proof.
  unfold validateExploration. rewrite guard_None, is_nil_false, match_err_None, check_capabilities_None, first_err_None.
  setoid_rewrite first_err_None. set (caps := exCapabilities exp).
  assert (∀ c dep, (if bool_decide (dep ∈ (list_to_set (capName <$> caps) : gset string)) then None
     else Some (UndeclaredDependency (capName c) dep)) = None ↔ dep ∈ capName <$> caps) as Hd.
  { intros c dep. rewrite <- (elem_of_list_to_set (C := gset string)). by case_bool_decide. }
  setoid_rewrite Hd. split.
  - intros (Hn & (H1 & H2 & _) & H3). split_and!; [done..|]. intros c dep Hc. by apply H3.
  - intros (Hn & H1 & H2 & H3). split_and!; [done..|set_solver|]. intros c Hc dep. by apply H3.
Qed.

(** C29: The planner's check of an exploration accepts exactly those with at
    least one capability, every name in kebab case and used once, lifecycles
    and descriptions given, and every dependency declared; the plan manager
    then refuses exactly those among them with a surface that is unknown or
    repeated, or with a cycle of dependencies. *)
Theorem exploration_checks exp :
  (validateExploration exp = None ↔
     exCapabilities exp ≠ [] ∧ Forall well_described (exCapabilities exp) ∧ NoDup (capName <$> exCapabilities exp) ∧
     (∀ c dep, c ∈ exCapabilities exp → dep ∈ capDependsOn c → dep ∈ capName <$> exCapabilities exp)) ∧
  (validateExploration exp = None →
     (ValidateCapabilitySet (exCapabilities exp) = None ↔
       Forall (λ c, Forall (λ s, CapabilitySurface_IsValid s = true) (capSurfaces c) ∧ NoDup (capSurfaces c)) (exCapabilities exp) ∧
       acyclic (adj_of (cap_node <$> exCapabilities exp)))).
Proof.
  split; [apply validateExploration_None|]. intros (Hn & Hw & Hd & Hdep)%validateExploration_None. rewrite ValidateCapabilitySet_None. split.
  - intros [Hok _ _ Hac]. split; [|done]. eapply Forall_impl; [exact Hok|]. by intros c (_ & _ & ? & ?).
  - intros [Hs Hac]. split; [|done..]. apply Forall_forall. intros c Hc. rewrite Forall_forall in Hw, Hs.
    destruct (Hw c Hc) as (Hk & Hl & _). destruct (Hs c Hc). split_and!; [|done..]. destruct Hk as (cs & -> & Hne & _). by destruct cs.
Qed.

Lemma parsed_exploration E result exp : parseExplorationFromResult E result = inl exp → validateExploration exp = None.
Proof.
  assert (∀ x y, validated E x = inl y → validateExploration y = None) as Hv.
  { intros x y. unfold validated. by destruct (validateExploration x) eqn:Ex; intros [= <-]. }
  unfold parseExplorationFromResult. cbv zeta. repeat case_match; intros; simplify_eq; eauto.
Qed.

Lemma parsed_goal E result pc : parsePlanFromResult E result = inl pc → pcGoal pc ≠ "".
Proof.
  unfold parsePlanFromResult. destruct (result =? ""); [done|]. destruct (peUnmarshalContent E result no_content) as [pc1 err1].
  destruct (bool_decide (err1 = None) && (pcGoal pc1 !=? "")) eqn:Eg.
  { intros [= <-]. apply andb_true_iff in Eg as [_ Eg]. by apply neqb_true. }
  destruct (ExtractJSON result =? ""); [done|]. destruct (peUnmarshalContent E (ExtractJSON result) pc1) as [pc2 [e|]]; [done|].
  destruct (pcGoal pc2 =? "") eqn:Eg2; [done|]. intros [= <-]. by apply eqb_false.
Qed.

(** ** Finished loops *)

Section component.
Context {S : Type} `{PlanPort S} (E : PlannerEnv).
Local Abbreviation PG := (G plan_job planDispatchContext S).
Local Abbreviation PW := (GWorld plan_job planDispatchContext S).

(** What the two handlers have in common. *)
Definition completion {A} (what : string) (expected : Status) (parse : string → A + string) (mk : A → mutation)
    (retry : string → PG ()) (ended unparsed : string) (loop : gen_loop) : PG () :=
  let slug := glPlanSlug loop in
  w ← gread;
  if IsStaleLoop slug (glTaskID loop) (gwRetry w) then mret () else
  if glOutcome loop !=? OutcomeSuccess then retry ended else
  moved ← moved_on E slug expected;
  if moved : bool then gretry (Clear slug) else
  match parse (glResult loop) with
  | inr e => retry (unparsed +:+ e)
  | inl x => send_result E what slug (mk x)
  end.

Lemma drafting_completion loop : handleLoopCompletion E loop =
  completion "drafted" StatusDrafting (parsePlanFromResult E) (λ pc, MDrafted (Some (drafted_request (glPlanSlug loop) pc)))
    (retryOrFail E (glPlanSlug loop)) (gloop_error (peGen E) loop) "planner output parse failed: " loop.
Proof. done. Qed.

Lemma exploring_completion loop : handleAnalystCompletion E loop =
  completion "explored" StatusExploring (parseExplorationFromResult E) (λ exp, MExplored (Some (MkExploredReq (glPlanSlug loop) exp "")))
    (retryAnalystOrFail E (glPlanSlug loop)) (analyst_error E loop) "analyst output parse failed: " loop.
Proof. done. Qed.

(** Everything but a result. *)
Definition no_result (o : gen_output) : Prop :=
  match o with GMutation (MDrafted _) _ | GMutation (MExplored _) _ => False | _ => True end.

Lemma plan_quiet_dispatch prefix what slug ctx render : gemits no_result (dispatch_as (S := S) E prefix what slug ctx render).
Proof. unfold dispatch_as, sendGenerationFailed. cbv zeta. gemits_auto. Qed.

Lemma plan_quiet_watch plan : gemits no_result (watch_plan (S := S) E plan).
Proof. unfold watch_plan, routePlanStateEntry, routeCreated, routeExplored, gclaim, go_job. cbv zeta. gemits_auto. Qed.

Lemma plan_quiet_retry slug err : gemits no_result (retryOrFail (S := S) E slug err).
Proof. unfold retryOrFail, ensure_tracked, recoverDispatchContext, sendGenerationFailed, go_job. gemits_auto. Qed.

Lemma analyst_quiet_retry slug err : gemits no_result (retryAnalystOrFail (S := S) E slug err).
Proof. unfold retryAnalystOrFail, ensure_tracked, recoverAnalystTitle, sendGenerationFailed, go_job. gemits_auto. Qed.

Lemma send_only what slug m : gemits (λ o, match o with GMutation m' _ => m' = m ∨ no_result o | _ => True end) (send_result (S := S) E what slug m).
Proof.
  unfold send_result, sendGenerationFailed. apply gemits_bind; [apply gemits_request; by left|intros a].
  apply (gemits_mono no_result); [gemits_auto|]. intros [t|m' a']; [done|by right].
Qed.

(** The loop is the one under way for a plan in the expected status, as far
    as that could be read. *)
Definition under_way (expected : Status) (loop : gen_loop) (w : PW) : Prop :=
  IsStaleLoop (glPlanSlug loop) (glTaskID loop) (gwRetry w) = false ∧ glOutcome loop = OutcomeSuccess ∧
  ∀ p, (gload (peGen E) (glPlanSlug loop) w).2 = inl p → EffectiveStatus p = expected.

Lemma completion_sends {A} what expected (parse : string → A + string) mk retry ended unparsed loop w new m a :
  (∀ err, gemits no_result (retry err)) →
  gwOut (completion what expected parse mk retry ended unparsed loop w).1 = (gwOut w ++ new)%list → GMutation m a ∈ new → ¬ no_result (GMutation m a) →
  under_way expected loop w ∧ ∃ x, parse (glResult loop) = inl x ∧ m = mk x.
Proof.
  intros Hret Ho Hin Hm. assert (∀ A (p : PG A) w1, gemits no_result p → gwOut (p w1).1 = (gwOut w1 ++ new)%list → False) as Hq.
  { intros B p w1 Hp Hw. pose proof (gemits_all _ _ _ _ Hp Hw) as HF. rewrite Forall_forall in HF. by apply Hm, (HF _ Hin). }
  unfold completion in Ho. cbv zeta in Ho. rewrite G_bind_eq in Ho. cbn [gread fst snd] in Ho. unfold under_way.
  destruct (IsStaleLoop _ _ _); [by destruct (Hq _ _ _ (gemits_ret _ ()) Ho)|].
  destruct (glOutcome loop !=? OutcomeSuccess) eqn:Eo; [by destruct (Hq _ _ _ (Hret _) Ho)|].
  apply (proj1 (negb_false_iff _)), (proj1 (eqb_true _ _)) in Eo. rewrite G_bind_eq in Ho. unfold moved_on in Ho. rewrite G_bind_eq in Ho.
  set (res := gload (peGen E) (glPlanSlug loop) w) in *. cbn [mret G_ret fst snd] in Ho. change (gwOut w) with (gwOut res.1) in Ho.
  destruct (match res.2 with inl plan => _ | inr _ => _ end) eqn:Es; [by destruct (Hq _ _ _ (gemits_retry _ _) Ho)|].
  destruct (parse (glResult loop)) as [x|e]; [|by destruct (Hq _ _ _ (Hret _) Ho)].
  pose proof (gemits_all _ _ _ _ (send_only _ _ _) Ho) as HF. rewrite Forall_forall in HF. destruct (HF _ Hin) as [->|?]; [|done].
  split; [|by exists x]. split_and!; [done|done|]. intros p Hp. rewrite Hp in Es. by apply (proj1 (negb_false_iff _)), (proj1 (eqb_true _ _)) in Es.
Qed.

(** C15: Only checked results are sent: a draft or an exploration goes to the
    plan manager only while a finished loop of this session that no newer
    dispatch superseded is handled, for a plan in drafting or exploring
    unless the plan cannot be read; a draft has a goal and an exploration
    passes the check. *)
Theorem planner_result_checked e (w : PW) new m a :
  gwOut (planner_step E e w).1 = (gwOut w ++ new)%list → GMutation m a ∈ new →
  match m with
  | MDrafted r => ∃ loop pc, e = PLoop loop ∧ glTerminal loop = true ∧ gwReplayDone w = true ∧ under_way StatusDrafting loop w ∧
      parsePlanFromResult E (glResult loop) = inl pc ∧ pcGoal pc ≠ "" ∧ r = Some (drafted_request (glPlanSlug loop) pc)
  | MExplored r => ∃ loop exp, e = PLoop loop ∧ glTerminal loop = true ∧ gwReplayDone w = true ∧ under_way StatusExploring loop w ∧
      parseExplorationFromResult E (glResult loop) = inl exp ∧ validateExploration exp = None ∧ r = Some (MkExploredReq (glPlanSlug loop) exp "")
  | _ => True
  end.
Proof.
  intros Ho Hin. destruct (match m with MDrafted _ | MExplored _ => true | _ => false end) eqn:Em; [|by destruct m].
  assert (¬ no_result (GMutation m a)) as Hm by (destruct m; try discriminate Em; by intros []).
  assert (∀ A (p : PG A) w1, gemits no_result p → gwOut (p w1).1 = (gwOut w1 ++ new)%list → False) as Hq.
  { intros B p w1 Hp Hw. pose proof (gemits_all _ _ _ _ Hp Hw) as HF. rewrite Forall_forall in HF. by apply Hm, (HF _ Hin). }
  destruct e as [plan|i|loop| | |p]; cbn [planner_step] in Ho; [by destruct (Hq _ _ _ (plan_quiet_watch _) Ho)| | |destruct (Hq _ _ _ (gemits_modify _ _ (λ _, eq_refl)) Ho)..].
  - assert (gemits no_result (run_job (S := S) E i)) as Hr; [|by destruct (Hq _ _ _ Hr Ho)].
    pose proof plan_quiet_dispatch. unfold run_job, dispatchAnalyst, dispatchPlanner. gemits_auto.
  - unfold watch_loop in Ho. destruct (negb (glTerminal loop) || _ || _ || _) eqn:Eg in Ho; [by destruct (Hq _ _ _ (gemits_ret _ ()) Ho)|].
    apply orb_false_iff in Eg as [Eg _]. apply orb_false_iff in Eg as [Eg _]. apply orb_false_iff in Eg as [Et%negb_false_iff _].
    rewrite G_bind_eq in Ho. cbn [gread fst snd] in Ho. destruct (negb (gwReplayDone w)) eqn:Er; [by destruct (Hq _ _ _ (gemits_ret _ ()) Ho)|].
    apply negb_false_iff in Er. destruct (glWorkflowStep loop =? "exploring").
    + rewrite exploring_completion in Ho. destruct (completion_sends _ _ _ _ _ _ _ _ _ _ _ _ (analyst_quiet_retry _) Ho Hin Hm) as (Hu & exp & Hp & ->).
      exists loop, exp. split_and!; try done. by eapply parsed_exploration.
    + rewrite drafting_completion in Ho. destruct (completion_sends _ _ _ _ _ _ _ _ _ _ _ _ (plan_quiet_retry _) Ho Hin Hm) as (Hu & pc & Hp & ->).
      exists loop, pc. split_and!; try done. by eapply parsed_goal.
Qed.

(** ** Consequences *)

Lemma ensure_tracked_quiet slug (recover : PG planDispatchContext) (w : PW) :
  (∀ w, gwOut (recover w).1 = gwOut w ∧ gwJobs (recover w).1 = gwJobs w) →
  gwOut (ensure_tracked slug recover w).1 = gwOut w ∧ gwJobs (ensure_tracked slug recover w).1 = gwJobs w.
Proof.
  intros Hr. unfold ensure_tracked. rewrite G_bind_eq. cbn [gread fst snd]. destruct (Snapshot slug (gwRetry w)); [done|].
  rewrite G_bind_eq. apply Hr.
Qed.

(** Nothing but a loop, or a plan that is new or explored, wakes the planner. *)
Definition idle_event (e : plan_event (S := S)) : Prop :=
  match e with
  | PPlan plan => pStatus plan ≠ StatusOther "" ∧ pStatus plan ≠ StatusCreated ∧ pStatus plan ≠ StatusExplored
  | PLoop _ => False
  | _ => True
  end.

(** A restart strands a claimed plan: the goroutine that was to dispatch
    the agent is gone, and no update of the plan in exploring or drafting
    leads to another dispatch or to a message, however long the planner runs;
    only the report of a finished loop could, and none was started. *)
Theorem restart_strands_plan es (w : PW) : Forall idle_event es →
  let w' := (run_plan E (PRestart :: es) w).1 in gwOut w' = gwOut w ∧ gwJobs w' = [].
Proof.
  intros Hes. cbn [run_plan planner_step]. rewrite G_bind_eq. cbv zeta. unfold grestart. cbn [gmodify fst snd]. set (w1 := MkGWorld _ _ _ _ _ _ _ _).
  change (gwOut w) with (gwOut w1). assert (gwJobs w1 = []) as Hj by done. revert Hj. clearbody w1. clear w. revert w1.
  induction Hes as [|e es He Hes IH]; intros w Hj; [done|]. cbn [run_plan]. rewrite G_bind_eq.
  assert (gwOut (planner_step E e w).1 = gwOut w ∧ gwJobs (planner_step E e w).1 = []) as [Ho Hj'].
  { destruct e as [plan|i|loop| | |p]; cbn [planner_step]; try done.
    - destruct He as (H1 & H2 & H3). unfold watch_plan, routePlanStateEntry. destruct (pSlug plan =? ""); [done|].
      by rewrite (proj2 (eqb_false _ _) H1), (proj2 (eqb_false _ _) H2), (proj2 (eqb_false _ _) H3).
    - unfold run_job. rewrite G_bind_eq. cbn [gread fst snd]. by rewrite Hj. }
  destruct (IH _ Hj') as [Ho2 Hj2]. by rewrite Ho2.
Qed.

Context (running : ∀ n, gioCancelled (geIO (peGen E) n) = false).

(** An output, or a goroutine that will dispatch. *)
Definition plan_proceeds (w w' : PW) : Prop :=
  (∃ new, gwOut w' = (gwOut w ++ new)%list ∧ new ≠ []) ∨ ∃ j, gwJobs w' = (gwJobs w ++ [j])%list.

Lemma tick_proceeds slug err (again : planDispatchContext → plan_job) (w : PW) :
  plan_proceeds w (tick_or_fail (peGen E) slug (sendGenerationFailed E slug err) (λ ctx, go_job (again ctx)) w).1.
Proof.
  unfold tick_or_fail. rewrite !G_bind_eq. cbn [gtick gread fst snd]. rewrite running. set (w1 := set_gwTick _ w).
  assert (∀ s, plan_proceeds w (sendGenerationFailed E slug err (set_gwRetry s w1)).1) as Hf.
  { intros s. left. apply (gresponds_failed (J := plan_job) (P := planDispatchContext) (peGen E) "plan-generation" slug err (set_gwRetry s w1)). }
  destruct (Tick _ _ _ _) as [s [[e|] ok]]; rewrite G_bind_eq; cbn [gmodify fst snd]; [|apply Hf].
  destruct ok; cbn [negb]; [|apply Hf]. right. by eexists.
Qed.

Lemma ensured_proceeds slug err recover (again : planDispatchContext → plan_job) (w : PW) :
  (∀ w, gwOut (recover w).1 = gwOut w ∧ gwJobs (recover w).1 = gwJobs w) →
  plan_proceeds w ((ensure_tracked slug recover;; tick_or_fail (peGen E) slug (sendGenerationFailed E slug err) (λ ctx, go_job (again ctx))) w).1.
Proof.
  intros Hr. rewrite G_bind_eq. destruct (ensure_tracked_quiet slug recover w Hr) as [Ho Hj].
  destruct (tick_proceeds slug err again (ensure_tracked slug recover w).1) as [(new & Hn & Hne)|(j & Hn)].
  - left. exists new. by rewrite Hn, Ho.
  - right. exists j. by rewrite Hn, Hj.
Qed.

Lemma completion_concluded {A} what expected (parse : string → A + string) mk retry ended unparsed loop (w : PW) :
  (∀ err w, plan_proceeds w (retry err w).1) → IsStaleLoop (glPlanSlug loop) (glTaskID loop) (gwRetry w) = false →
  let w' := (completion what expected parse mk retry ended unparsed loop w).1 in
  plan_proceeds w w' ∨
  ∃ plan, (gload (peGen E) (glPlanSlug loop) w).2 = inl plan ∧ EffectiveStatus plan ≠ expected ∧
    gwOut w' = gwOut w ∧ gwRetry w' !! glPlanSlug loop = None.
Proof.
  intros Hret Hst. cbv zeta. unfold completion. cbv zeta. rewrite G_bind_eq. cbn [gread fst snd]. rewrite Hst.
  destruct (glOutcome loop !=? OutcomeSuccess); [left; apply Hret|]. rewrite G_bind_eq. unfold moved_on. rewrite G_bind_eq.
  set (res := gload (peGen E) (glPlanSlug loop) w). cbn [mret G_ret fst snd].
  destruct (match res.2 with inl plan => _ | inr _ => _ end) eqn:Es.
  { right. destruct res.2 as [plan|]; [|done]. exists plan. apply neqb_true in Es. split_and!; [done|done|done|]. apply lookup_delete_eq. }
  left. destruct (parse (glResult loop)) as [x|e]; [|exact (Hret _ res.1)].
  left. assert (gresponds (send_result (S := S) E what (glPlanSlug loop) (mk x))) as Hs; [|exact (Hs res.1)].
  unfold send_result, sendGenerationFailed. apply gresponds_l; [apply gresponds_request|intros a; gemits_auto].
Qed.

(** A finished loop of the planner or the analyst always has a
    consequence, also after a restart: while the component runs, the end of a
    loop that no newer dispatch superseded leads to a message to the plan
    manager or to another dispatch, unless the plan has left the status of
    that phase, and then the bookkeeping is cleared. *)
Theorem planning_loop_concluded loop (w : PW) :
  glTerminal loop = true → glWorkflowSlug loop = "semspec-planning" →
  glWorkflowStep loop = "drafting" ∨ glWorkflowStep loop = "exploring" → glPlanSlug loop ≠ "" → gwReplayDone w = true →
  IsStaleLoop (glPlanSlug loop) (glTaskID loop) (gwRetry w) = false →
  let w' := (watch_loop E loop w).1 in
  plan_proceeds w w' ∨
  ∃ plan, (gload (peGen E) (glPlanSlug loop) w).2 = inl plan ∧
    EffectiveStatus plan ≠ (if glWorkflowStep loop =? "exploring" then StatusExploring else StatusDrafting) ∧
    gwOut w' = gwOut w ∧ gwRetry w' !! glPlanSlug loop = None.
Proof.
  intros Ht Hw Hs Hp%eqb_false Hr Hst. cbv zeta. unfold watch_loop. rewrite Ht, Hw, Hp.
  assert ((glWorkflowStep loop !=? "drafting") && (glWorkflowStep loop !=? "exploring") = false) as -> by (by destruct Hs as [-> | ->]).
  cbn [negb orb]. rewrite eqb_refl. cbn [negb orb]. rewrite G_bind_eq. cbn [gread fst snd]. rewrite Hr. cbn [negb].
  destruct (glWorkflowStep loop =? "exploring").
  - rewrite exploring_completion. apply completion_concluded; [|done]. intros err w1. apply ensured_proceeds. intros w2. by rewrite G_bind_eq.
  - rewrite drafting_completion. apply completion_concluded; [|done]. intros err w1. apply ensured_proceeds. intros w2. done.
Qed.
End component.

(** ** A loop that is reported twice *)

Section twice.
Context {S : Type} `{PlanPort S} (E : PlannerEnv) (running : ∀ n, gioCancelled (geIO (peGen E) n) = false).
Local Abbreviation PW := (GWorld plan_job planDispatchContext S).

(** The failure of a draft that may be retried. *)
Definition failed_draft (loop : gen_loop) : Prop :=
  glTerminal loop = true ∧ glWorkflowSlug loop = "semspec-planning" ∧ glWorkflowStep loop = "drafting" ∧ glPlanSlug loop ≠ "" ∧
  glOutcome loop ≠ OutcomeSuccess.

Lemma failure_retried loop (w : PW) en : failed_draft loop → gwReplayDone w = true → gwRetry w !! glPlanSlug loop = Some en →
  IsStaleLoop (glPlanSlug loop) (glTaskID loop) (gwRetry w) = false → (enCount en + 1 ≤ max_retries (geMaxRetries (peGen E)))%Z →
  let w' := (watch_loop E loop w).1 in
  gwJobs w' = (gwJobs w ++ [JobPlanner (glPlanSlug loop) (enPayload en) (gloop_error (peGen E) loop)])%list ∧ gwReplayDone w' = true ∧
  gwRetry w' = <[glPlanSlug loop := MkEntry (enCount en + 1) (enPayload en) (enActiveLoopID en)]> (gwRetry w).
Proof.
  intros (Ht & Hw & Hs & Hp%eqb_false & Ho%eqb_false) Hr He Hst Hc. cbv zeta. unfold watch_loop. rewrite Ht, Hw, Hs, Hp, !eqb_refl. cbn [negb orb andb].
  rewrite G_bind_eq. cbn [gread fst snd]. rewrite Hr. change ("drafting" =? "exploring") with false. cbn [negb]. unfold handleLoopCompletion. cbv zeta.
  rewrite G_bind_eq. cbn [gread fst snd]. rewrite Hst, Ho. cbn [negb]. unfold retryOrFail, ensure_tracked. rewrite !G_bind_eq. cbn [gread fst snd].
  unfold Snapshot. rewrite He. cbn [mret G_ret fst snd]. unfold tick_or_fail. rewrite !G_bind_eq. cbn [gtick gread fst snd gwRetry set_gwTick].
  rewrite running. unfold Tick. rewrite He. cbn [enCount]. rewrite bool_decide_false by (cbn; lia). rewrite G_bind_eq. done.
Qed.

(** A failure that is reported twice is retried twice: the planner does
    not remember the loops it has handled, and until the first retry has been
    dispatched the loop counts as the one under way; both agents are asked
    and two of the allowed retries are spent. *)
Theorem repeated_failure_retried_twice loop (w : PW) en : failed_draft loop → gwReplayDone w = true →
  gwRetry w !! glPlanSlug loop = Some en → IsStaleLoop (glPlanSlug loop) (glTaskID loop) (gwRetry w) = false →
  (enCount en + 2 ≤ max_retries (geMaxRetries (peGen E)))%Z →
  let job := JobPlanner (glPlanSlug loop) (enPayload en) (gloop_error (peGen E) loop) in
  gwJobs (run_plan E [PLoop loop; PLoop loop] w).1 = (gwJobs w ++ [job; job])%list.
Proof.
  intros Hl Hr He Hst Hc. cbv zeta. cbn [run_plan planner_step]. rewrite !G_bind_eq. cbn [mret G_ret fst].
  destruct (failure_retried loop w en Hl Hr He Hst) as (Hj & Hr1 & Ht); [lia|]. set (w1 := (watch_loop E loop w).1) in *.
  destruct (failure_retried loop w1 (MkEntry (enCount en + 1) (enPayload en) (enActiveLoopID en)) Hl Hr1) as (Hj2 & _).
  - rewrite Ht. apply lookup_insert_eq.
  - rewrite Ht. unfold IsStaleLoop in *. rewrite lookup_insert_eq. by rewrite He in Hst.
  - cbn [enCount]. lia.
  - rewrite Hj2, Hj, <- app_assoc. done.
Qed.
End twice.

(** ** Over the plan manager *)

Section cycle.
Context (PE : Env) (row : Plan → string) (text : mutation_error → string) (E : PlannerEnv) (Hio : healthy PE).

Local Abbreviation PW := (GWorld plan_job planDispatchContext World).

Lemma request_answer m (w : PW) w1 r : handle PE m (gwPort w) = (w1, r) →
  let res := grequest (H := direct PE row text) (peGen E) m w in
  res.2 = match r with None => Answered true "" | Some e => Answered false (text e) end ∧
  gwPort res.1 = w1 ∧ gwRetry res.1 = gwRetry w ∧ gwJobs res.1 = gwJobs w.
Proof.
  intros Hm. cbv zeta. unfold grequest. rewrite !G_bind_eq. cbn [gtick gread fst snd].
  cbn [plan_request direct plan_manager gwPort gwTick set_gwTick]. unfold manager_request. rewrite Hm. by rewrite !G_bind_eq.
Qed.

Lemma explored_taken slug exp trace w p : wCache w !! slug = Some p → pSlug p = slug → ValidateSlug slug = None →
  EffectiveStatus p = StatusExploring → exCapabilities exp ≠ [] → ValidateCapabilitySet (exCapabilities exp) = None →
  ∃ w' q, handle PE (MExplored (Some (MkExploredReq slug exp trace))) w = (w', None) ∧
    wCache w' !! slug = Some q ∧ EffectiveStatus q = StatusExplored ∧ pExploration q = Some exp.
Proof.
  intros Hc Hp Hv Hs Hne%is_nil_false Hcs. cbn [handle handleExploredMutation eqSlug eqExploration]. rewrite (slug_nonempty _ Hv), Hne, Hcs.
  rewrite (with_plan_cached _ _ _ _ _ Hc). unfold guard_transition, can. rewrite Hs.
  change (Status_CanTransitionTo StatusExploring StatusExplored) with true.
  set (q := set_pStatus _ _). destruct (save_healthy PE Hio q (ticked w)) as (w' & Hw & Hq); [by rewrite <- Hp in Hv|].
  exists w', q. unfold save_reply, mbind, M_bind. rewrite Hw. split_and!; [done| |done|done]. by rewrite <- Hp.
Qed.

(** The plan waits for the answer of the loop, the loop has ended well, and
    the plan can be read. *)
Definition awaits (expected : Status) (loop : gen_loop) (w : PW) (p : Plan) : Prop :=
  stored row (peGen E) (glPlanSlug loop) (gwPort w) p ∧ EffectiveStatus p = expected ∧ gioErr (geIO (peGen E) (gwTick w)) = None ∧
  IsStaleLoop (glPlanSlug loop) (glTaskID loop) (gwRetry w) = false ∧ glOutcome loop = OutcomeSuccess.

(** A parsed result that the plan manager takes. *)
Lemma completion_delivers {A} what expected (parse : string → A + string) mk retry ended unparsed loop (w : PW) p x w2 :
  awaits expected loop w p → parse (glResult loop) = inl x → handle PE (mk x) (gwPort w) = (w2, None) →
  let w' := (completion (H := direct PE row text) E what expected parse mk retry ended unparsed loop w).1 in
  gwRetry w' !! glPlanSlug loop = None ∧ gwPort w' = w2.
Proof.
  intros (Hst & He & Herr & Hl & Ho) Hp Hh. cbv zeta. unfold completion. cbv zeta. rewrite G_bind_eq. cbn [gread fst snd]. rewrite Hl, Ho, eqb_refl. cbn [negb].
  rewrite G_bind_eq. unfold moved_on. rewrite G_bind_eq, (load_stored PE row text _ _ _ _ Hst Herr). cbn [mret G_ret fst snd]. rewrite He, eqb_refl. cbn [negb].
  rewrite Hp. unfold send_result. rewrite G_bind_eq. set (w1 := set_gwTick _ w).
  destruct (request_accepted PE row text (J := plan_job) (P := planDispatchContext) (peGen E) _ w1 w2 Hh) as (Ha & Hw & Hrt). rewrite Ha.
  split; [apply lookup_delete_eq|]. by rewrite <- Hw.
Qed.

(** A good exploration reaches the plan: when nothing fails outside and
    the plan waits in exploring, the end of the analyst's loop with an
    exploration that parses, has distinct known surfaces and no cycle takes
    the plan to explored with exactly that exploration. *)
Theorem exploration_reaches_plan loop (w : PW) p exp :
  let slug := glPlanSlug loop in
  awaits StatusExploring loop w p → parseExplorationFromResult E (glResult loop) = inl exp →
  Forall (λ c, Forall (λ s, CapabilitySurface_IsValid s = true) (capSurfaces c) ∧ NoDup (capSurfaces c)) (exCapabilities exp) →
  acyclic (adj_of (cap_node <$> exCapabilities exp)) →
  let w' := (handleAnalystCompletion (H := direct PE row text) E loop w).1 in
  gwRetry w' !! slug = None ∧
  ∃ q, visible (gwPort w') slug = Some q ∧ EffectiveStatus q = StatusExplored ∧ pExploration q = Some exp.
Proof.
  cbv zeta. intros Haw Hp Hsf Hac. pose proof Haw as (Hst & He & _). pose proof (parsed_exploration _ _ _ Hp) as Hv.
  assert (ValidateCapabilitySet (exCapabilities exp) = None) as Hcs.
  { apply ValidateCapabilitySet_None. apply validateExploration_None in Hv as (Hn & Hw & Hd & Hdep). split; [|done..].
    apply Forall_forall. intros c Hc. rewrite Forall_forall in Hw, Hsf. destruct (Hw c Hc) as ((cs & Hcs & Hne & _) & Hlc & _). destruct (Hsf c Hc).
    split_and!; [|done..]. rewrite Hcs. by destruct cs. }
  apply validateExploration_None in Hv as (Hn & _). pose proof Hst as (Hc & _ & Hps & Hvs & _).
  destruct (explored_taken (glPlanSlug loop) exp "" (gwPort w) p) as (w2 & q & Hh & Hc2 & Hq & Hx); try done.
  rewrite exploring_completion. destruct (completion_delivers "explored" StatusExploring _
    (λ exp, MExplored (Some (MkExploredReq (glPlanSlug loop) exp ""))) (retryAnalystOrFail (H := direct PE row text) E (glPlanSlug loop)) (analyst_error E loop)
    "analyst output parse failed: " loop w p exp w2 Haw Hp Hh) as [H1 H2].
  split; [exact H1|]. exists q. unfold visible. rewrite H2, Hc2. by split_and!.
Qed.

Lemma draft_fields req t p q scope : dqScope req = Some scope → draft_scope req (drafted_fields PE req t p) = inl q →
  pSlug q = pSlug p ∧ pGoal q = dqGoal req ∧ pContext q = dqContext req ∧ pScope q = scope ∧ pExploration q = pExploration p.
Proof.
  intros Hs Hd. unfold draft_scope in Hd. rewrite Hs in Hd.
  assert (∀ x, pSlug x = pSlug p ∧ pGoal x = dqGoal req ∧ pContext x = dqContext req ∧ pExploration x = pExploration p →
    ∀ c, pSlug (set_pScope scope (set_pContract c x)) = pSlug p ∧ pGoal (set_pScope scope (set_pContract c x)) = dqGoal req ∧
      pContext (set_pScope scope (set_pContract c x)) = dqContext req ∧ pScope (set_pScope scope (set_pContract c x)) = scope ∧
      pExploration (set_pScope scope (set_pContract c x)) = pExploration p) as Hset by (intros x (? & ? & ? & ?) c; by split_and!).
  assert (∀ x, pSlug x = pSlug p ∧ pGoal x = dqGoal req ∧ pContext x = dqContext req ∧ pExploration x = pExploration p →
    pSlug (set_pScope scope x) = pSlug p ∧ pGoal (set_pScope scope x) = dqGoal req ∧
      pContext (set_pScope scope x) = dqContext req ∧ pScope (set_pScope scope x) = scope ∧
      pExploration (set_pScope scope x) = pExploration p) as Hset' by (intros x (? & ? & ? & ?); by split_and!).
  assert (pSlug (drafted_fields PE req t p) = pSlug p ∧ pGoal (drafted_fields PE req t p) = dqGoal req ∧
    pContext (drafted_fields PE req t p) = dqContext req ∧ pExploration (drafted_fields PE req t p) = pExploration p) as Hf.
  { unfold drafted_fields, EnsureContractPacket. cbv zeta. destruct (dqTitle req !=? ""); cbn; destruct (pContract p) eqn:?; cbn; repeat case_match; by split_and!. }
  revert Hd Hf. generalize (drafted_fields PE req t p) as x. intros x Hd Hf.
  repeat case_match; simplify_eq; auto.
Qed.

Lemma drafted_taken req w p : wCache w !! dqSlug req = Some p → pSlug p = dqSlug req → ValidateSlug (dqSlug req) = None →
  EffectiveStatus p = StatusDrafting → dqGoal req ≠ "" → is_Some (dqScope req) →
  (∀ t, ∃ q, draft_scope req (drafted_fields PE req t p) = inl q) →
  ∃ w' q, handle PE (MDrafted (Some req)) w = (w', None) ∧ wCache w' !! dqSlug req = Some q ∧ EffectiveStatus q = StatusDrafted ∧
    pGoal q = dqGoal req ∧ pContext q = dqContext req ∧ Some (pScope q) = dqScope req ∧ pExploration q = pExploration p ∧
    pSkipArchitecture q = dqSkipArchitecture req.
Proof.
  intros Hc Hp Hv Hs Hg%eqb_false [scope Hsc] Hok. cbn [handle handleDraftedMutation]. rewrite (slug_nonempty _ Hv), Hg. cbn [orb].
  rewrite (with_plan_cached _ _ _ _ _ Hc). unfold guard_transition, can. rewrite Hs.
  change (Status_CanTransitionTo StatusDrafting StatusDrafted) with true. cbv iota. rewrite now_bind.
  set (t := ioNow _). destruct (Hok t) as [q Hq]. rewrite Hq. destruct (draft_fields req t p q scope Hsc Hq) as (H1 & H2 & H3 & H4 & H5).
  set (q' := set_pStatus _ _). destruct (save_healthy PE Hio q' (ticked (ticked w))) as (w' & Hw & Hq').
  { change (pSlug q') with (pSlug q). by rewrite H1, Hp. }
  exists w', q'. unfold save_reply, mbind, M_bind. rewrite Hw. rewrite Hsc. split_and!; try done; [|by f_equal].
  change (pSlug q') with (pSlug q) in Hq'. by rewrite <- Hp, <- H1.
Qed.

(** A good draft reaches the plan: when nothing fails outside and the
    plan waits in drafting, the end of the planner's loop with a draft that
    parses and drops nothing the contract obliges to takes the plan to
    drafted with its goal, context and scope; the exploration is kept, and
    the architecture phase is never skipped, since the planner does not send
    that flag. *)
Theorem draft_reaches_plan loop (w : PW) p pc :
  let slug := glPlanSlug loop in
  awaits StatusDrafting loop w p → parsePlanFromResult E (glResult loop) = inl pc →
  (∀ t, ∃ q, draft_scope (drafted_request slug pc) (drafted_fields PE (drafted_request slug pc) t p) = inl q) →
  let w' := (handleLoopCompletion (H := direct PE row text) E loop w).1 in
  gwRetry w' !! slug = None ∧
  ∃ q, visible (gwPort w') slug = Some q ∧ EffectiveStatus q = StatusDrafted ∧ pGoal q = pcGoal pc ∧ pContext q = pcContext pc ∧
    pScope q = pcScope pc ∧ pExploration q = pExploration p ∧ pSkipArchitecture q = false.
Proof.
  cbv zeta. intros Haw Hp Hok. pose proof Haw as (Hst & He & _). pose proof (parsed_goal _ _ _ Hp) as Hg. pose proof Hst as (Hc & _ & Hps & Hvs & _).
  destruct (drafted_taken (drafted_request (glPlanSlug loop) pc) (gwPort w) p) as (w2 & q & Hh & Hc2 & Hq & H1 & H2 & H3 & H4 & H5); try done.
  rewrite drafting_completion. destruct (completion_delivers "drafted" StatusDrafting _
    (λ pc, MDrafted (Some (drafted_request (glPlanSlug loop) pc))) (retryOrFail (H := direct PE row text) E (glPlanSlug loop)) (gloop_error (peGen E) loop)
    "planner output parse failed: " loop w p pc w2 Haw Hp Hh) as [Hr Hw].
  split; [exact Hr|]. exists q. unfold visible. rewrite Hw. cbn [drafted_request dqSlug] in Hc2. rewrite Hc2. injection H3 as H3. by split_and!.
Qed.

End cycle.

(** ** From created to drafted *)

Definition plan_caps (cyclic : bool) : Exploration :=
  MkExploration [MkCapability "read-telemetry" CapabilityNew "reads" (if cyclic then ["show-map"] else []) [SurfaceAPI];
    MkCapability "show-map" CapabilityNew "shows" ["read-telemetry"] [SurfaceUI]] [].
Definition draft_content : PlanContent := MkPlanContent "Telemetry" "read and show" "a drone" [] (MkScope ["src"] [] [] ["src/map.go"]) "".

(** A row is the status of its plan. *)
Definition planning_env (cyclic : bool) : PlannerEnv :=
  MkPlannerEnv (MkGenEnv (λ _, MkGenIO "id" 7 None false) (λ s, Some (demo_plan (Status_of_string s))) (λ _, "no plan") (λ s, s) 2) None
    (λ s, if HasPrefix s "{" then inl (plan_caps cyclic) else inr "no object") (λ _ _, (draft_content, None)) (λ _, "{}")
    (λ _ _ _ _, Some "explore") (λ _ _ _ _, Some "draft").
Definition planning_manager : PlanPort World := direct (sample_env (λ _, quiet_io) None) (λ p, Status_String (pStatus p)) (λ _, "refused").
Definition analyst_loop : gen_loop :=
  MkGenLoop "L1" "analyst-demo-id" true "semspec-planning" "exploring" "demo" "" "" "" OutcomeSuccess "" "Here: {}".
Definition draft_loop : gen_loop :=
  MkGenLoop "L2" "plan-demo-id" true "semspec-planning" "drafting" "demo" "" "" "" OutcomeSuccess "" "{}".
Definition planning_world (st : Status) : GWorld plan_job planDispatchContext World := gen_world (demo_plan st).
Definition planning_run (cyclic : bool) : GWorld plan_job planDispatchContext World :=
  (run_plan (H := planning_manager) (planning_env cyclic)
    [PPlan (demo_plan StatusCreated); PRun 0; PLoop analyst_loop;
     PPlan (set_pExploration (Some (plan_caps false)) (demo_plan StatusExplored)); PRun 0; PLoop draft_loop] (planning_world StatusCreated)).1.

Example planned :
  ((λ p, (EffectiveStatus p, pGoal p, (λ e, capName <$> exCapabilities e) <$> pExploration p)) <$> visible (gwPort (planning_run false)) "demo") =
    Some (StatusDrafted, "read and show", Some ["read-telemetry"; "show-map"]) ∧ gwRetry (planning_run false) = ∅.
Proof. by vm_compute. Qed.

(** A cycle of capabilities ends the plan. *)
Example cyclic_capabilities :
  ((λ p, (EffectiveStatus p, pLastError p)) <$> visible (gwPort (planning_run true)) "demo") =
    Some (StatusRejected, "explored mutation rejected: refused").
Proof. by vm_compute. Qed.

Lemma demo_stored st : Status_of_string (Status_String st) = st →
  stored (λ p, Status_String (pStatus p)) (peGen (planning_env false)) "demo" (world_with [demo_plan st]) (demo_plan st).
Proof.
  intros Hs. split_and!; [vm_compute; reflexivity..|].
  change (Some (demo_plan (Status_of_string (Status_String st))) = Some (demo_plan st)). by rewrite Hs.
Qed.

Lemma exploration_reaches_plan_witness :
  ∃ q, visible (gwPort (handleAnalystCompletion (H := planning_manager) (planning_env false) analyst_loop (planning_world StatusExploring)).1) "demo" = Some q ∧
    EffectiveStatus q = StatusExplored ∧ pExploration q = Some (plan_caps false).
Proof.
  apply (exploration_reaches_plan (sample_env (λ _, quiet_io) None) (λ p, Status_String (pStatus p)) (λ _, "refused") (planning_env false) healthy_demo
    analyst_loop (planning_world StatusExploring) (demo_plan StatusExploring) (plan_caps false));
    [split_and!; [by apply demo_stored|vm_compute; reflexivity|reflexivity|vm_compute; reflexivity|reflexivity]|vm_compute; reflexivity| |].
  - repeat constructor; apply not_elem_of_nil.
  - assert (ValidateCapabilitySet (exCapabilities (plan_caps false)) = None) as Hv by (vm_compute; reflexivity).
    by apply ValidateCapabilitySet_None in Hv as [].
Defined.

Lemma demo_draft_fits t : ∃ q, draft_scope (drafted_request "demo" draft_content)
  (drafted_fields (sample_env (λ _, quiet_io) None) (drafted_request "demo" draft_content) t (demo_plan StatusDrafting)) = inl q.
Proof.
  destruct (draft_scope _ _) as [q|missing] eqn:Ed; [by exists q|]. apply (f_equal (λ r, match r with inl _ => true | inr _ => false end)) in Ed.
  vm_compute in Ed. discriminate Ed.
Qed.

Lemma draft_reaches_plan_witness :
  ∃ q, visible (gwPort (handleLoopCompletion (H := planning_manager) (planning_env false) draft_loop (planning_world StatusDrafting)).1) "demo" = Some q ∧
    EffectiveStatus q = StatusDrafted ∧ pGoal q = "read and show".
Proof.
  destruct (draft_reaches_plan (sample_env (λ _, quiet_io) None) (λ p, Status_String (pStatus p)) (λ _, "refused") (planning_env false) healthy_demo
    draft_loop (planning_world StatusDrafting) (demo_plan StatusDrafting) draft_content) as (_ & q & H1 & H2 & H3 & _);
    [split_and!; [by apply demo_stored|vm_compute; reflexivity|reflexivity|vm_compute; reflexivity|reflexivity]|vm_compute; reflexivity| |].
  - exact demo_draft_fits.
  - exists q. split; [exact H1|]. split; [exact H2|exact H3].
Defined.

Definition cycle_error : cap_error := default (CapUnknownDep "" "") (ValidateCapabilitySet (exCapabilities (plan_caps true))).


Definition tracked_world (st : Status) : GWorld plan_job planDispatchContext World :=
  set_gwRetry {["demo" := MkEntry 0 (MkPlanDispatch "Demo" false "" "") "plan-demo-id"]} (planning_world st).
Definition failed_loop : gen_loop :=
  MkGenLoop "L2" "plan-demo-id" true "semspec-planning" "drafting" "demo" "" "" "" "failed" "out of memory" "".

Lemma repeated_failure_retried_twice_witness :
  length (gwJobs (run_plan (H := planning_manager) (planning_env false) [PLoop failed_loop; PLoop failed_loop] (tracked_world StatusDrafting)).1) = 2%nat.
Proof.
  pose proof (@repeated_failure_retried_twice World planning_manager (planning_env false) (λ _, eq_refl) failed_loop (tracked_world StatusDrafting)
    (MkEntry 0 (MkPlanDispatch "Demo" false "" "") "plan-demo-id")) as H.
  rewrite H; [reflexivity|by split_and!|reflexivity|vm_compute; reflexivity|vm_compute; reflexivity|vm_compute; discriminate].
Defined.

Lemma planning_loop_concluded_witness :
  plan_proceeds (tracked_world StatusDrafting) (watch_loop (H := planning_manager) (planning_env false) failed_loop (tracked_world StatusDrafting)).1.
Proof.
  destruct (@planning_loop_concluded World planning_manager (planning_env false) (λ _, eq_refl) failed_loop (tracked_world StatusDrafting)) as [Hp|(plan & Hl & Hs & _)];
    [reflexivity|reflexivity|by left|discriminate|reflexivity|vm_compute; reflexivity|exact Hp|].
  vm_compute in Hl. injection Hl as <-. destruct Hs. vm_compute. reflexivity.
Defined.

Definition explored_message : mutation := MExplored (Some (MkExploredReq "demo" (plan_caps false) "")).

Lemma planner_result_checked_witness : validateExploration (plan_caps false) = None.
Proof.
  destruct (@planner_result_checked World planning_manager (planning_env false) (PLoop analyst_loop) (planning_world StatusExploring)
    [GMutation explored_message (Answered true "")] explored_message (Answered true "")) as (loop & exp & _ & _ & _ & _ & _ & Hv & He);
    [vm_compute; reflexivity|by apply list_elem_of_singleton|]. injection He as _ <-. exact Hv.
Defined.

Lemma restart_strands_plan_witness :
  gwOut (run_plan (H := planning_manager) (planning_env false) [PRestart; PPlan (demo_plan StatusDrafting)] (tracked_world StatusDrafting)).1 = [].
Proof.
  destruct (@restart_strands_plan World planning_manager (planning_env false) [PPlan (demo_plan StatusDrafting)] (tracked_world StatusDrafting)) as [Ho _];
    [|exact Ho]. repeat constructor; vm_compute; discriminate.
Defined.
